(* ===== verification/_CoqProject ===== *)
-Q . S2P
Prelude.v
Utf8.v
Canonical.v
StrictParse.v
Strconv.v
AuditLog.v
Ledger.v
Queue.v
Limits.v
LogRate.v
DisplayText.v
DisplayJson.v
WireTime.v
Body.v
RequestObject.v
Tables.v
Experience.v
Requests.v
RequestMail.v
WorkSession.v
SessionMail.v
TxLemmas.v
SessionSteps.v
SessionRefine.v
SessionProofs.v
SessionInvariant.v
SessionClaims.v
SessionWire.v
DebateEntry.v
DebateTurns.v
Signing.v
DecisionRecord.v
DecisionVerify.v
DecisionProofs.v
DebateTables.v
Debate.v
DebateMail.v
DebateSteps.v
DebateSpec.v
DebateRefine.v
DebateCommands.v
DebateRuns.v
DebateLegal.v
DebateInvariant.v
DebateDecisions.v
DebateSessions.v
DebateDemo.v
DebateClaims.v
Approvals.v
ApprovalSteps.v
ApprovalInvariant.v
ApprovalCounts.v
ApprovalClaims.v
MailMessage.v
MailOpen.v
MailReceiver.v
MailReceived.v
MailOutbox.v
MailSent.v
MailLimits.v
MailDelivery.v
KeyStore.v
Mailbox.v
MailboxProofs.v
