(* ===== verification/Prelude.v ===== *)
(** * AgentNet (Dorylinae): verification of the coordination core and the relay

    A daemon per user keeps requests and work sessions with other users'
    agents in an SQLite store and talks to the other daemons in end-to-end
    encrypted mail; a relay server forwards and queues the encrypted
    envelopes without reading them. This library models the parts of the Go
    program (under src/internal) that decide something - what is signed and
    stored, what a mail may change, what is shown to a human, what the relay
    keeps, charges and drops - and proves what makes them correct.

    ** The files

    Texts and values. A Go string is the list of its bytes (a byte is a [Z]),
    a [[]rune] the list of its runes.
    - Prelude: results of fallible functions, the notation of early returns
      ([let?], [guard?] in go_scope), generic lemmas and tactics.
    - Utf8, Strconv: UTF-8, UTF-16, strconv and hex, as the code uses them.
    - Canonical (agentcard/canonical.go): ParseStrict, the JSON decoder in
      token mode as parseValue drives it, and CanonicalValue. StrictParse: the
      lexical specification of a JSON text, and what ParseStrict accepts.
    - DisplayText, DisplayJson (displaytext/displaytext.go): how text from a
      peer is shown in approvals, terminals and JSON.
    - WireTime: wire and store times of internal/request and
      internal/worksession, with the calendar of package time written out.

    The audit log.
    - AuditLog (audit/audit.go, chain.go): Append, the chain start over legacy
      rows, anchors and Verify.

    The relay (internal/relay, lograte).
    - Ledger (budget.go, conn.go): memory budgets and connection buffers;
      every critical section is one operation, so an interleaving of the
      relay's goroutines is a sequence of operations.
    - Queue (queue.go): the offline queue over a table with failing database
      calls. Limits (limits.go, pairing.go): token buckets in binary64,
      admission, control-frame strikes, redelivery wait lists. LogRate
      (lograte.go): one log line per event and window.

    The coordination core (internal/request, worksession, experience).
    - Body, RequestObject: bodies of mails and results, the request object,
      their validation, strict decoding and canonical encoding; the request's
      body on the wire (wire.go) is a second encoder.
    - Tables: the rows, a transaction as a function from the tables to a value
      and new tables or an error, [commit], and [Env], the hooks the stores
      are wired with (identity key, SHA-256, sealing of a mail, quarantine
      rule, grant revocation, debates, teams, peers) and what the database
      answers to an audit row in a transaction and to a read after a commit.
    - Experience: the record a closed session leaves. Requests: the
      recipient's life cycle (lifecycle.go), against the interface
      [SessionHooks]. RequestMail: the sender's mirror, cancel and resend,
      the received request with caps and policies, Submit, the inbox.
    - WorkSession: both sides' transitions and the hooks of request.Store;
      SessionMail: submissions, the three received kinds, the fallback for an
      old peer, the readers. The instance [ws_hooks] of SessionMail discharges
      [SessionHooks], as worksession.Store implements request.SessionHooks.
    - TxLemmas: inversion of transactions, and which tables one keeps.
    - SessionSteps: the abstract state machine of a session, [row_step], with
      the guards and columns of every transition, lifted to the tables in
      [core_step]. SessionRefine: every transaction refines it, given
      [DebateLaws] (the debate store changes sessions as CloseDebateTx does)
      and [HelperLaws] (the helper router does not change them).
      SessionProofs: [op] lists the calls, [exec] runs one, [trace] is a run.
      SessionInvariant: the invariant [row_ok] of a row. SessionClaims and
      SessionWire: the theorems.

    Debates and Decisions (internal/debate, internal/decision).
    - DebateEntry (entry.go, validate.go): the four kinds of entry, their
      checks, canonical form and commitment. DebateTurns (turns.go): the turn
      engine. DecisionRecord, DecisionVerify (decision.go, verify.go): the
      derivation of a Decision and the checks of a signed one, with SHA-256
      and Ed25519 as the parameters [Crypto]; DecisionProofs: derivation and
      verification agree.
    - DebateTables: the rows of the four tables, kept in the [ext] part of the
      tables through [HasDebates]. Debate (store.go, engine.go, start.go,
      decision.go): the hooks of the other stores and the parts of a
      transaction. DebateMail (apply.go, decision.go, constraint.go, sweep.go,
      submit.go, start.go): the five received kinds, Submit, Start, the sweep.
    - DebateSteps: what may happen to the debate tables and the outbox, one
      write at a time: [dstep], with [sends] for what a mail may say.
      DebateSpec: Hoare-style rules for "the transaction takes such steps",
      and [foreign] for the calls of the other stores. DebateRefine,
      DebateCommands: that every transaction takes steps. DebateRuns: the
      calls as data, [dexec], and runs. DebateLegal, DebateInvariant,
      DebateDecisions: the invariant of the steps. DebateSessions: the debate
      store keeps [DebateLaws], the contract of SessionRefine. DebateDemo: a
      concrete debate; DebateClaims: the theorems.

    Mail (internal/mail), mailbox keys (internal/mailbox, keystore).
    - Signing: SHA-256 and Ed25519 as the class [Crypto], and base64url.
    - MailMessage (mail.go, open.go, body.go, announce.go, presence.go): seal,
      re-seal, the verification steps of a received envelope, signed
      announcements of mailbox keys, with HPKE as the parameter [Hpke].
      MailOpen: what a mail that opens guarantees.
    - MailReceiver (receiver.go): the dedupe transaction around a kind's
      Apply, the record of a refused body, acks, pruning. MailReceived: runs
      of it and the theorems.
    - MailOutbox (outbox.go): rows that are resent until they are acked,
      expire or fail; a call's work after a statement is a job, and jobs run
      in any order. MailSent: runs and the theorems.
    - MailLimits (audit.go, keys.go): the audit rows of refused mail and the
      key-miss replies. MailDelivery: outbox and receiver joined by a network.
    - KeyStore (keystore.go): a secret in the first backend that takes it.
      Mailbox (mailbox.go): announcement, rotation, the sweep of old keys and
      the lookup of a private key, over KeyStore's entries and the receiver's
      table mail_seen. MailboxProofs: the theorems.

    Human approvals (internal/approval).
    - Approvals: the store. One operation per critical section; what a call
      has left to do outside the lock is a job, and jobs run in any order.
      The action that waits (Precondition, Rebuild, Perform) is a parameter,
      as are HMAC-SHA256 and the key.
    - ApprovalSteps: the life cycle of an approval as a step relation on the
      part of the store that decides, and that every operation is a sequence
      of its steps. ApprovalInvariant: the phase an id is in, from the
      history. ApprovalCounts: the limits over an hour and a day.
      ApprovalClaims: runs and the theorems.

    ** How the model follows the code

    A store call is [commit] of its transaction: an error rolls back, and what
    runs after the commit (waking the outbox, audit rows, notifications) is a
    list of [effect] in order. An audit row that commits with the change
    (AppendTx, AppendTxSoft) is part of the transaction: the database may
    refuse it ([audit_row], [audit_soft]), and the row is among the effects of
    a transaction that commits. A call that reads its row back after the
    commit reports that read's error ([reread]) although the change stands. A received mail is its Apply in the receiver's
    transaction and its After. A call reads the clock once, as [now]; a time is
    a number of nanoseconds since the epoch. Of an error the kind and the field
    are kept, not the text. A map is the list of its entries; theorems hold for
    every order where Go's order is random. The contents of notifications
    (NotifyInfo) are dropped. s.Requests and s.Sessions are wired, as the
    daemon wires them; the optional hooks are options.

    Fuel. The decoder takes the length of its input, which parse_document_fuel
    shows is enough; Submit draws at most maxIDDraws = 8 ids, Build tries the
    levels 0 to maxLevel = 4, as the code does; the loop over held entries has
    16 turns, which drain_fuel_enough shows are never used up, and debate_ends
    bounds the turns of a debate; the loop that deletes keys over the cap takes
    the number of live keys, one of which goes at each turn; the loops of
    DisplayText and
    the digits of FormatInt (19 for an int64) are bounded by their input.

    ** What the theorems show

    - Signatures and hashes: two values have the same canonical bytes exactly
      when they are the same value, and the bytes parse back (canonical_iff_same,
      canonical_roundtrip); a document the strict parse accepts has no lone
      surrogate escape (parse_strict_sound).
    - Audit: Verify answers ok exactly for well-chained logs, an append keeps
      it so, and two logs under one anchor agree or exhibit a collision of
      SHA-256 (verify_ok_iff, append_verifies, tamper_evidence).
    - Work sessions: the stores refine the state machine under any run of calls
      and mails (store_refines); the invariant of the rows (reachable_rows);
      closed is final (closed_is_final); a quarantined result stays hidden
      until a human releases it (quarantine_holds); one experience record per
      closed session (closed_recorded_once); a call that answers an error has
      changed nothing, but for the error of the read after its commit
      (refused_changes_nothing); the worker's mirror converges whatever the
      order and repetition of the mails (mirror_converges); the state mail
      reads back as the row it describes (echo_read_back).
    - Debates: the store refines the life cycle of a debate under any calls
      and mails: its columns are those of the turn that is due, its close is
      that of its end (debates_refine); both sides' transcripts are plays of
      the turn engine (transcripts_legal); the initiator reveals its position only
      after the respondent's, and the reveal opens its commitment
      (no_early_reveal); a daemon signs only what it derived from its own
      entries and constraints as a Decision (signatures_cover_own_record),
      agrees to an honest close (honest_close_agreed), and what both signed
      passes verification (signed_decisions_verify); decided is final
      (debates_final); bounds and ends (debates_bounded, debate_ends); an
      entry and its bytes determine each other (entry_roundtrip); the store
      keeps the contract the work sessions assume (debate_store_lawful).
    - Mail: what opens was signed by the paired sender for this recipient
      (opened_mail_authentic), and what is sealed opens with the fields it was
      sealed with, also after a re-seal (sealed_mail_opens). A mail is applied
      at most once whatever is repeated, reordered, pruned or restarted, with
      the clocks within the bounds of [rop_ok] (mail_applied_once); an ack says
      what was decided (acks_are_honest). An outbox row leaves its open state once and then keeps it until it is
      purged, which only a final and overdue row is, and every row is a
      submitted mail with a cause for its state (outbox_lifecycle,
      outbox_rows_explained); a row marked delivered was applied or recorded
      at the other end (delivered_mail_stored). Only rejects of a mail whose
      signature verified are audited, at most sixty a minute
      (audited_rejects_signed, reject_audit_bounded); key-miss replies to a
      peer are ten minutes apart, unless a timer is late, and of bounded size
      (key_miss_replies).
    - Mailbox keys: one current key, and deletion only of retired ones, for age
      or number, whatever mail arrives between the steps
      (only_retired_keys_deleted); an announced key opens mail for 21 days on
      a clock that only advances, while its backends answer
      (announced_keys_open).
    - Approvals: an action happens only through a code a human typed, once, in
      time, after at most two wrong ones (approvals_authorised); the store
      refines the life cycle (approvals_refine); decided is final
      (decided_final); limits on tries, wrong codes a day and creations an
      hour (three_tries, wrong_codes_bounded, creations_bounded,
      hourly_cap_exceeded); the shown code does approve
      (shown_code_approves).
    - Bodies: results and requests have a canonical form and decode back
      (results_roundtrip, request_roundtrip); times (stored_times_order,
      wire_times_exact).
    - Display: fingerprints and digit codes in names are blanked, no text
      escapes its rendering (fingerprints_blanked, digit_codes_blanked,
      name_shows_safely, term_safe_exact, quote_exact, json_rewrite_exact).
    - Relay: exact accounting and bounds of the budgets, who is evicted and
      that a closed connection leaks nothing (ledger_accounts, budget_bound,
      pick_pays, push_effect, ledger_no_leak); the queue's totals, caps,
      once-only first delivery, draining and sweeping (queue_totals_exact,
      queue_caps_hold, first_delivery_once, drain_delivers_all,
      sweep_complete); fairness and exactness of the limits (wait_lists_fair,
      control_strikes, charged_both_or_neither, admission_exact); log lines
      count every event (log_lines_count_all).

    ** Not modelled

    Of the modelled packages: the debate's readers and its markdown (view.go,
    markdown.go), the cache of window_check.go, the notices of an approval's
    outcome, recovered panics and the texts of approvaltext, PushAll's loop
    and the tickers of mail, the import of an early key file and Run of
    mailbox: readers, texts and timers around the modelled steps. A stopped
    timer may still fire in the model, as a goroutine that waits for the lock
    does.

    Capability grants and file fetches, whose decisions are interleaved with
    the file system; their effect on sessions is the hooks of [Env]. Pairing,
    peers, teams, presence and notifications; who is paired or a member is an
    input of the models that ask. The relay's HTTP and WebSocket server,
    routing and accounts, around the modelled queue, budgets and limits. The
    Noise sessions, the envelope cryptography, keychains and key files:
    library and operating-system calls. The daemon's wiring, IPC, command line
    and release tools. These parts can be modelled beside this library; they
    are left out for their size, not because a theorem here needs them. *)

From stdpp Require Export base gmap sets list strings numbers.
From stdpp Require Export sorting.

(** ** Results: a Go function returning (value, error) *)

Inductive result (E A : Type) : Type :=
| Ok (a : A)
| Err (e : E).
Arguments Ok {E A} a.
Arguments Err {E A} e.

Declare Scope go_scope.
Delimit Scope go_scope with go.

Definition rbind {E A B} (m : result E A) (k : A → result E B) : result E B :=
  match m with Ok a => k a | Err e => Err e end.

(** [let? x := m in k]: the early return of [if err != nil { return err }]. *)
Notation "'let?' x ':=' m 'in' k" := (rbind m (fun x => k))
  (at level 10, x pattern, m at level 100, k at level 200) : go_scope.

(** [guard? b else e in k]: return the error [e] unless [b] holds. *)
Notation "'guard?' b 'else' e 'in' k" := (if b then k else Err e)
  (at level 10, b at level 100, e at level 100, k at level 200) : go_scope.

Definition is_ok {E A} (r : result E A) : bool :=
  match r with Ok _ => true | Err _ => false end.

Lemma rbind_ok {E A B} (m : result E A) (k : A → result E B) b :
  rbind m k = Ok b ↔ ∃ a, m = Ok a ∧ k a = Ok b.
Proof. destruct m; simpl; naive_solver. Qed.

#[export] Instance result_eq_dec {E A} `{EqDecision E, EqDecision A} : EqDecision (result E A).
Proof. solve_decision. Defined.

(** ** Tactics *)

(** Case on every boolean or option test that an equation or the goal still
    contains, discarding the branches that contradict it. *)
Ltac break_match_step :=
  match goal with
  | H : context [match ?x with _ => _ end] |- _ =>
      lazymatch type of x with
      | _ => destruct x eqn:?; simplify_eq/=
      end
  | |- context [match ?x with _ => _ end] => destruct x eqn:?; simplify_eq/=
  end.
Ltac break_match := repeat break_match_step.

(** Turn boolean tests in the context and the goal into propositions. *)
Ltac bprop :=
  repeat match goal with
  | H : (_ && _)%bool = true |- _ => apply andb_true_iff in H as [? ?]
  | H : (_ || _)%bool = false |- _ => apply orb_false_iff in H as [? ?]
  | H : negb _ = true |- _ => apply negb_true_iff in H
  | H : negb _ = false |- _ => apply negb_false_iff in H
  | H : (_ =? _)%Z = true |- _ => apply Z.eqb_eq in H
  | H : (_ =? _)%Z = false |- _ => apply Z.eqb_neq in H
  | H : (_ <=? _)%Z = true |- _ => apply Z.leb_le in H
  | H : (_ <=? _)%Z = false |- _ => apply Z.leb_gt in H
  | H : (_ <? _)%Z = true |- _ => apply Z.ltb_lt in H
  | H : (_ <? _)%Z = false |- _ => apply Z.ltb_ge in H
  | H : bool_decide _ = true |- _ => apply bool_decide_eq_true in H
  | H : bool_decide _ = false |- _ => apply bool_decide_eq_false in H
  end.

(** ** Bytes and text *)

(** A Go [string] or [[]byte]: its bytes, each 0..255. *)
Abbreviation bytes := (list Z).

Open Scope Z_scope.

Fixpoint bytes_of (s : string) : bytes :=
  match s with
  | EmptyString => []
  | String a s => Z.of_nat (Ascii.nat_of_ascii a) :: bytes_of s
  end.

(** ** Lists *)

Lemma take_drop_app {A} (l r : list A) : take (length l) (l ++ r) = l ∧ drop (length l) (l ++ r) = r.
Proof. split; [apply take_app_length | apply drop_app_length]. Qed.

(** Sum of an integer function over a list. *)
Definition zsum {A} (f : A → Z) (l : list A) : Z := foldr (fun a n => f a + n)%Z 0%Z l.

Lemma zsum_app {A} (f : A → Z) l1 l2 : zsum f (l1 ++ l2) = (zsum f l1 + zsum f l2)%Z.
Proof. induction l1; simpl; lia. Qed.

Lemma zsum_perm {A} (f : A → Z) l1 l2 : l1 ≡ₚ l2 → zsum f l1 = zsum f l2.
Proof. induction 1; simpl; lia. Qed.

Lemma zsum_nonneg {A} (f : A → Z) l : (∀ a, a ∈ l → 0 ≤ f a)%Z → (0 ≤ zsum f l)%Z.
Proof.
  induction l as [|a l IH]; simpl; intros H; [lia|].
  pose proof (H a (list_elem_of_here _ _)). assert (0 ≤ zsum f l)%Z; [|lia].
  apply IH. intros b Hb. apply H. by right.
Qed.

#[export] Instance zsum_proper {A} (f : A → Z) : Proper ((≡ₚ) ==> (=)) (zsum f).
Proof. intros l1 l2. apply zsum_perm. Qed.

(** Sum of an integer function over the entries of a finite map. *)
Definition msum `{Countable K} {A} (f : K → A → Z) (m : gmap K A) : Z :=
  zsum (fun '(k, a) => f k a) (map_to_list m).

Section msum.
Context `{Countable K} {A : Type}.
Implicit Types (f : K → A → Z) (m : gmap K A).

Lemma msum_empty f : msum f ∅ = 0%Z.
Proof. unfold msum. by rewrite map_to_list_empty. Qed.

Lemma msum_insert_new f m k a : m !! k = None → msum f (<[k:=a]> m) = (f k a + msum f m)%Z.
Proof. intros Hk. unfold msum. by rewrite (map_to_list_insert _ _ _ Hk). Qed.

Lemma msum_delete f m k a : m !! k = Some a → msum f (delete k m) = (msum f m - f k a)%Z.
Proof.
  intros Hk. rewrite <- (insert_delete_id m k a Hk) at 2.
  rewrite msum_insert_new by apply lookup_delete_eq. lia.
Qed.

Lemma msum_insert f m k a b : m !! k = Some a → msum f (<[k:=b]> m) = (msum f m - f k a + f k b)%Z.
Proof.
  intros Hk. rewrite <- insert_delete_eq, msum_insert_new by apply lookup_delete_eq.
  rewrite (msum_delete _ _ _ _ Hk). lia.
Qed.

Lemma msum_nonneg f m : (∀ k a, m !! k = Some a → 0 ≤ f k a)%Z → (0 ≤ msum f m)%Z.
Proof.
  intros Hf. apply zsum_nonneg. intros [k a] Hin. apply Hf. by apply elem_of_map_to_list.
Qed.

Lemma msum_ge f m k a : (∀ k a, m !! k = Some a → 0 ≤ f k a)%Z → m !! k = Some a →
  (f k a ≤ msum f m)%Z.
Proof.
  intros Hf Hk. rewrite <- (insert_delete_id m k a Hk).
  rewrite msum_insert_new by apply lookup_delete_eq.
  assert (0 ≤ msum f (delete k m))%Z; [|lia].
  apply msum_nonneg. intros k' a' [_ ?]%lookup_delete_Some. by apply Hf.
Qed.

Lemma msum_ext f g m : (∀ k a, m !! k = Some a → f k a = g k a) → msum f m = msum g m.
Proof.
  unfold msum. intros Hfg.
  assert (∀ x, x ∈ map_to_list m → f x.1 x.2 = g x.1 x.2) as Hx.
  { intros [k a] Hin. apply Hfg. by apply elem_of_map_to_list. }
  induction (map_to_list m) as [|[k a] l IH]; simpl; [done|].
  rewrite IH by (intros x Hin; apply Hx; by right).
  f_equal. apply (Hx (k, a)). by left.
Qed.
End msum.

(** Automation shared by the components. *)
Create HintDb agentnet.
#[export] Hint Resolve msum_empty : agentnet.


Section filter_all.
Context {A : Type} (P : A → Prop) `{!∀ x, Decision (P x)}.

Lemma filter_all (l : list A) : Forall P l → filter P l = l.
Proof. induction 1; [done|]. rewrite filter_cons_True by done. by f_equal. Qed.

Lemma filter_none (l : list A) : Forall (λ x, ¬ P x) l → filter P l = [].
Proof. induction 1; [done|]. by rewrite filter_cons_False. Qed.
End filter_all.

Lemma StronglySorted_filter {A} (R : relation A) (P : A → Prop) `{!∀ x, Decision (P x)} l :
  StronglySorted R l → StronglySorted R (filter P l).
Proof.
  induction 1 as [|x l Hl IH Hx]; [constructor|]. rewrite filter_cons. case_decide; [|done].
  constructor; [done|]. rewrite Forall_forall in *. intros y [_ Hy]%list_elem_of_filter. by apply Hx.
Qed.

Lemma filter_ext_in {A} (P Q : A → Prop) `{!∀ x, Decision (P x), !∀ x, Decision (Q x)} (l : list A) :
  (∀ x, x ∈ l → P x ↔ Q x) → filter P l = filter Q l.
Proof.
  intros HPQ. induction l as [|x l IH]; [done|]. rewrite !filter_cons, IH by (intros y Hy; apply HPQ; by right).
  pose proof (HPQ x (list_elem_of_here _ _)). repeat case_decide; tauto.
Qed.

Lemma StronglySorted_sublist {A} (R : relation A) (l1 l2 : list A) :
  l1 `sublist_of` l2 → StronglySorted R l2 → StronglySorted R l1.
Proof.
  induction 1 as [|x l1 l2 Hs IH|x l1 l2 Hs IH]; [done|..]; intros [Hl Hx]%StronglySorted_inv; [|by apply IH].
  constructor; [by apply IH|]. rewrite Forall_forall in *. intros y Hy. apply Hx. by eapply elem_of_sublist.
Qed.

Lemma last_snoc_inv {A} (l : list A) x : last l = Some x → ∃ l', l = l' ++ [x].
Proof. intros Hl. apply last_Some in Hl. naive_solver. Qed.
