(* ===== verification/Utf8.v ===== *)
(** * Go strings: bytes, runes, UTF-8 and UTF-16

    The part of the Go language and of the packages unicode/utf8 and
    unicode/utf16 that the modelled code uses: [range] over a string,
    utf8.DecodeRune, utf8.ValidString, the encoding of a rune and
    utf16.Encode. Every byte and code unit is a [Z]. *)

From S2P Require Import Prelude.

Open Scope Z_scope.

(** utf8.RuneError, what an undecodable byte reads as. *)
Definition RuneError : Z := 0xFFFD.

Definition in_range (lo hi x : Z) : bool := (lo <=? x) && (x <=? hi).
Abbreviation cont := (in_range 0x80 0xBF).

(** A Unicode scalar value: any code point but the surrogates. *)
Definition is_scalar (r : Z) : bool := in_range 0 0xD7FF r || in_range 0xE000 0x10FFFF r.

(** utf8.AppendRune of a scalar value. *)
Definition encode_rune (r : Z) : bytes :=
  if r <=? 0x7F then [r]
  else if r <=? 0x7FF then [0xC0 + r / 64; 0x80 + r mod 64]
  else if r <=? 0xFFFF then [0xE0 + r / 4096; 0x80 + r / 64 mod 64; 0x80 + r mod 64]
  else [0xF0 + r / 262144; 0x80 + r / 4096 mod 64; 0x80 + r / 64 mod 64; 0x80 + r mod 64].

(** utf8.DecodeRune: the first rune and its width; (RuneError, 1) for a byte
    that starts no well-formed sequence, (RuneError, 0) for no input. *)
Definition decode_rune (s : bytes) : Z * nat :=
  match s with
  | [] => (RuneError, 0%nat)
  | b0 :: s1 =>
      if in_range 0 0x7F b0 then (b0, 1%nat)
      else if in_range 0xC2 0xDF b0 then
        match s1 with
        | b1 :: _ => if cont b1 then ((b0 - 0xC0) * 64 + (b1 - 0x80), 2%nat) else (RuneError, 1%nat)
        | _ => (RuneError, 1%nat)
        end
      else if in_range 0xE0 0xEF b0 then
        match s1 with
        | b1 :: b2 :: _ =>
            if in_range (if b0 =? 0xE0 then 0xA0 else 0x80) (if b0 =? 0xED then 0x9F else 0xBF) b1 && cont b2
            then ((b0 - 0xE0) * 4096 + (b1 - 0x80) * 64 + (b2 - 0x80), 3%nat)
            else (RuneError, 1%nat)
        | _ => (RuneError, 1%nat)
        end
      else if in_range 0xF0 0xF4 b0 then
        match s1 with
        | b1 :: b2 :: b3 :: _ =>
            if in_range (if b0 =? 0xF0 then 0x90 else 0x80) (if b0 =? 0xF4 then 0x8F else 0xBF) b1 && cont b2 && cont b3
            then ((b0 - 0xF0) * 262144 + (b1 - 0x80) * 4096 + (b2 - 0x80) * 64 + (b3 - 0x80), 4%nat)
            else (RuneError, 1%nat)
        | _ => (RuneError, 1%nat)
        end
      else (RuneError, 1%nat)
  end.

(** [for _, r := range s]: the runes of a string, an undecodable byte reading
    as RuneError. The fuel is the number of bytes: each turn consumes one. *)
Fixpoint runes_fuel (fuel : nat) (s : bytes) : list Z :=
  match fuel, s with
  | S fuel, _ :: _ => let '(r, n) := decode_rune s in r :: runes_fuel fuel (drop n s)
  | _, _ => []
  end.
Definition runes (s : bytes) : list Z := runes_fuel (length s) s.

(** utf8.Valid. *)
Fixpoint valid_fuel (fuel : nat) (s : bytes) : bool :=
  match fuel, s with
  | S fuel, _ :: _ =>
      let '(r, n) := decode_rune s in
      negb ((r =? RuneError) && (n <=? 1)%nat) && valid_fuel fuel (drop n s)
  | _, _ => true
  end.
Definition valid_utf8 (s : bytes) : bool := valid_fuel (length s) s.

(** string(rs) for scalar values. *)
Definition encode (rs : list Z) : bytes := flat_map encode_rune rs.

(** utf16.Encode of scalar values. *)
Definition utf16_rune (r : Z) : list Z :=
  if r <=? 0xFFFF then [r] else [0xD800 + (r - 0x10000) / 1024; 0xDC00 + (r - 0x10000) mod 1024].
Definition utf16_encode (rs : list Z) : list Z := flat_map utf16_rune rs.

(** ** Lemmas *)

Lemma in_range_spec lo hi x : in_range lo hi x = true ↔ lo ≤ x ≤ hi.
Proof. unfold in_range. rewrite andb_true_iff, !Z.leb_le. lia. Qed.

Lemma in_range_false lo hi x : in_range lo hi x = false ↔ x < lo ∨ hi < x.
Proof. unfold in_range. rewrite andb_false_iff, !Z.leb_gt. lia. Qed.

Lemma is_scalar_spec r : is_scalar r = true ↔ 0 ≤ r ≤ 0xD7FF ∨ 0xE000 ≤ r ≤ 0x10FFFF.
Proof. unfold is_scalar. rewrite orb_true_iff, !in_range_spec. done. Qed.

(** Decide the range tests of a goal by arithmetic. *)
Ltac range_step :=
  match goal with
  | |- context [in_range ?a ?b ?x] =>
      first [ rewrite (proj2 (in_range_spec a b x)) by lia
            | rewrite (proj2 (in_range_false a b x)) by lia ]
  | |- context [?a =? ?b] =>
      first [ rewrite (proj2 (Z.eqb_eq a b)) by lia | rewrite (proj2 (Z.eqb_neq a b)) by lia ]
  end.

Ltac zdivmod := Z.div_mod_to_equations; lia.

Lemma encode_rune_length r : (1 ≤ length (encode_rune r) ≤ 4)%nat.
Proof. unfold encode_rune. repeat case_match; simpl; lia. Qed.

Lemma decode_encode_rune r s : is_scalar r = true →
  decode_rune (encode_rune r ++ s) = (r, length (encode_rune r)).
Proof.
  rewrite is_scalar_spec. intros Hr. unfold encode_rune.
  destruct (r <=? 0x7F) eqn:H1; bprop.
  { simpl. by range_step. }
  destruct (r <=? 0x7FF) eqn:H2; bprop.
  { assert (2 ≤ r / 64 ≤ 31 ∧ 0 ≤ r mod 64 ≤ 63 ∧ r = r / 64 * 64 + r mod 64) as (?&?&?) by zdivmod.
    unfold decode_rune; simpl. repeat range_step. f_equal. lia. }
  destruct (r <=? 0xFFFF) eqn:H3; bprop.
  { set (a := r / 4096). set (b := r / 64 mod 64). set (c := r mod 64).
    assert (0 ≤ a ≤ 15 ∧ 0 ≤ b ≤ 63 ∧ 0 ≤ c ≤ 63 ∧ r = a * 4096 + b * 64 + c) as (?&?&?&?)
      by (subst a b c; zdivmod).
    unfold decode_rune; cbn [app]. repeat range_step.
    destruct (0xE0 + a =? 0xE0) eqn:?; destruct (0xE0 + a =? 0xED) eqn:?; bprop; try lia;
      repeat range_step; simpl; f_equal; lia. }
  set (a := r / 262144). set (b := r / 4096 mod 64). set (c := r / 64 mod 64). set (d := r mod 64).
  assert (0 ≤ a ≤ 4 ∧ 0 ≤ b ≤ 63 ∧ 0 ≤ c ≤ 63 ∧ 0 ≤ d ≤ 63 ∧ r = a * 262144 + b * 4096 + c * 64 + d)
    as (?&?&?&?&?) by (subst a b c d; zdivmod).
  unfold decode_rune; cbn [app]. repeat range_step.
  destruct (0xF0 + a =? 0xF0) eqn:?; destruct (0xF0 + a =? 0xF4) eqn:?; bprop; try lia;
    repeat range_step; simpl; f_equal; lia.
Qed.

(** A decoded rune that is not the error of width at most 1 is a scalar value
    and the bytes read are its encoding. *)
Lemma decode_rune_inv s r n : decode_rune s = (r, n) → (r =? RuneError) && (n <=? 1)%nat = false →
  is_scalar r = true ∧ take n s = encode_rune r ∧ (0 < n ≤ length s)%nat.
Proof.
  unfold decode_rune. intros Hd Hok. rewrite is_scalar_spec.
  destruct s as [|b0 s1]; [by simplify_eq/=|].
  destruct (in_range 0 0x7F b0) eqn:H0.
  { simplify_eq. apply in_range_spec in H0. unfold encode_rune.
    rewrite (proj2 (Z.leb_le r 0x7F)) by lia. simpl. split_and!; [lia|done|lia|lia]. }
  apply in_range_false in H0.
  assert ((RuneError, 1%nat) ≠ (r, n)) as Hne by (intros [= <- <-]; done).
  destruct (in_range 0xC2 0xDF b0) eqn:H1; [|destruct (in_range 0xE0 0xEF b0) eqn:H2;
    [|destruct (in_range 0xF0 0xF4 b0) eqn:H3; [|done]]].
  - apply in_range_spec in H1. destruct s1 as [|b1 s2]; [done|].
    destruct (cont b1) eqn:C1; [|done]. apply in_range_spec in C1. simplify_eq.
    unfold encode_rune. repeat (case_match; bprop; try lia). simpl.
    split_and!; [lia|repeat f_equal; zdivmod|lia|lia].
  - apply in_range_spec in H2. destruct s1 as [|b1 [|b2 s3]]; try done.
    destruct (in_range _ _ b1 && cont b2)%bool eqn:C; [|done].
    apply andb_true_iff in C as [C1 C2]. apply in_range_spec in C1, C2. simplify_eq.
    assert (0x800 ≤ (b0 - 0xE0) * 4096 + (b1 - 0x80) * 64 + (b2 - 0x80) ≤ 0xFFFF ∧
      ((b0 - 0xE0) * 4096 + (b1 - 0x80) * 64 + (b2 - 0x80) ≤ 0xD7FF ∨
       0xE000 ≤ (b0 - 0xE0) * 4096 + (b1 - 0x80) * 64 + (b2 - 0x80))) as [Hb Hs].
    { destruct (b0 =? 0xE0) eqn:?; destruct (b0 =? 0xED) eqn:?; bprop; lia. }
    assert (0x80 ≤ b1 ≤ 0xBF) by (repeat case_match; lia). clear C1.
    unfold encode_rune. repeat (case_match; bprop; try lia). simpl.
    split_and!; [lia|repeat f_equal; zdivmod|lia|lia].
  - apply in_range_spec in H3. destruct s1 as [|b1 [|b2 [|b3 s4]]]; try done.
    destruct (in_range _ _ b1 && cont b2 && cont b3)%bool eqn:C; [|done].
    apply andb_true_iff in C as [[C1 C2]%andb_true_iff C3].
    apply in_range_spec in C1, C2, C3. simplify_eq.
    assert (0x10000 ≤ (b0 - 0xF0) * 262144 + (b1 - 0x80) * 4096 + (b2 - 0x80) * 64 + (b3 - 0x80) ≤ 0x10FFFF) as Hb.
    { destruct (b0 =? 0xF0) eqn:?; destruct (b0 =? 0xF4) eqn:?; bprop; lia. }
    assert (0x80 ≤ b1 ≤ 0xBF) by (repeat case_match; lia). clear C1.
    unfold encode_rune. repeat (case_match; bprop; try lia). simpl.
    split_and!; [lia|repeat f_equal; zdivmod|lia|lia].
Qed.

Lemma runes_fuel_encode rs s n : Forall (λ r, is_scalar r = true) rs → (length (encode rs ++ s) ≤ n)%nat →
  ∃ m, runes_fuel n (encode rs ++ s) = rs ++ runes_fuel m s ∧ (length s ≤ m)%nat.
Proof.
  intros Hrs. revert n. induction Hrs as [|r rs Hr Hrs IH]; intros n Hn; simpl in *; [by exists n|].
  rewrite <- app_assoc in *.
  destruct n as [|n].
  { pose proof (encode_rune_length r). rewrite !length_app in Hn. lia. }
  pose proof (decode_encode_rune r (encode rs ++ s) Hr) as Hd.
  destruct (encode_rune r ++ encode rs ++ s) as [|b bs] eqn:Hb.
  { pose proof (encode_rune_length r). destruct (encode_rune r); simpl in *; [lia|done]. }
  cbn [runes_fuel]. rewrite Hd, <- Hb. rewrite (proj2 (take_drop_app _ _)).
  destruct (IH n) as (m & -> & ?); [|by exists m].
  pose proof (encode_rune_length r). rewrite <- Hb, !length_app in *. lia.
Qed.

Lemma runes_encode rs : Forall (λ r, is_scalar r = true) rs → runes (encode rs) = rs.
Proof.
  intros Hrs. unfold runes. destruct (runes_fuel_encode rs [] (length (encode rs)) Hrs) as (m & Hm & _).
  { by rewrite app_nil_r. }
  rewrite app_nil_r in Hm. rewrite Hm. destruct m; by rewrite app_nil_r.
Qed.

Lemma valid_fuel_runes n s : (length s ≤ n)%nat → valid_fuel n s = true →
  encode (runes_fuel n s) = s ∧ Forall (λ r, is_scalar r = true) (runes_fuel n s).
Proof.
  revert s. induction n as [|n IH]; intros [|b s] Hn Hv; try done; [simpl in Hn; lia|].
  cbn [valid_fuel runes_fuel] in *. destruct (decode_rune (b :: s)) as [r k] eqn:Hd.
  apply andb_true_iff in Hv as [Hv1 Hv]. apply negb_true_iff in Hv1.
  destruct (decode_rune_inv _ _ _ Hd Hv1) as (Hr & Ht & Hk).
  destruct (IH (drop k (b :: s))) as [He Hf]; [rewrite length_drop; simpl in *; lia|done|].
  split; [|by constructor]. change (encode (r :: ?l)) with (encode_rune r ++ encode l).
  rewrite He, <- Ht. apply take_drop.
Qed.

(** A valid string is the encoding of its runes, which are scalar values. *)
Lemma encode_runes s : valid_utf8 s = true → encode (runes s) = s.
Proof. intros Hv. by apply valid_fuel_runes. Qed.

Lemma runes_scalar s : valid_utf8 s = true → Forall (λ r, is_scalar r = true) (runes s).
Proof. intros Hv. by apply (valid_fuel_runes _ _ (le_n _)). Qed.

Lemma runes_inj s1 s2 : valid_utf8 s1 = true → valid_utf8 s2 = true → runes s1 = runes s2 → s1 = s2.
Proof. intros H1 H2 H. by rewrite <- (encode_runes s1), <- (encode_runes s2), H. Qed.

Lemma decode_rune_bounds s r n : s ≠ [] → decode_rune s = (r, n) → (0 < n ≤ length s)%nat.
Proof.
  unfold decode_rune. intros Hs Hd. destruct s as [|b0 s1]; [done|].
  repeat (case_match; simplify_eq/=; try lia).
Qed.

Lemma valid_fuel_encode rs n : Forall (λ r, is_scalar r = true) rs → (length (encode rs) ≤ n)%nat →
  valid_fuel n (encode rs) = true.
Proof.
  intros Hrs. revert n. induction Hrs as [|r rs Hr Hrs IH]; intros n Hn; [by destruct n|].
  change (encode (r :: rs)) with (encode_rune r ++ encode rs) in *.
  pose proof (encode_rune_length r) as Hl. destruct n as [|n]; [rewrite length_app in Hn; lia|].
  pose proof (decode_encode_rune r (encode rs) Hr) as Hd.
  destruct (encode_rune r ++ encode rs) as [|b bs] eqn:Hb; [done|].
  cbn [valid_fuel]. rewrite Hd, <- Hb, (proj2 (take_drop_app _ _)).
  apply andb_true_iff; split.
  - apply negb_true_iff, andb_false_iff. unfold encode_rune in Hl |- *.
    destruct (r =? RuneError) eqn:E; [right|by left]. bprop. subst r. done.
  - apply IH. rewrite <- Hb, length_app in Hn. lia.
Qed.

Lemma valid_encode rs : Forall (λ r, is_scalar r = true) rs → valid_utf8 (encode rs) = true.
Proof. intros. by apply valid_fuel_encode. Qed.

Lemma utf16_rune_inj r1 r2 x y : is_scalar r1 = true → is_scalar r2 = true →
  utf16_rune r1 ++ x = utf16_rune r2 ++ y → r1 = r2 ∧ x = y.
Proof.
  rewrite !is_scalar_spec. unfold utf16_rune. intros H1 H2 He.
  repeat (case_match; bprop); simplify_eq/=; split; try done; zdivmod.
Qed.

Lemma utf16_encode_inj rs1 rs2 : Forall (λ r, is_scalar r = true) rs1 → Forall (λ r, is_scalar r = true) rs2 →
  utf16_encode rs1 = utf16_encode rs2 → rs1 = rs2.
Proof.
  intros H1. revert rs2. induction H1 as [|r1 rs1 Hr1 H1 IH]; intros rs2 H2 He.
  - destruct H2 as [|r2 rs2 _ _]; [done|]. exfalso. simpl in He. unfold utf16_rune in He. by case_match.
  - destruct H2 as [|r2 rs2 Hr2 H2].
    { exfalso. simpl in He. unfold utf16_rune in He. by case_match. }
    simpl in He. apply utf16_rune_inj in He as [-> He]; [|done..]. f_equal. by apply IH.
Qed.

#[export] Hint Resolve runes_scalar encode_runes valid_encode : agentnet.
