(* ===== verification/Canonical.v ===== *)
(** * Canonical JSON and the strict parse (internal/agentcard/canonical.go)

    Every signature, hash and stored body of the program is over the bytes of
    [CanonicalValue]; every signed body read back goes through [ParseStrict].
    This file models both on bytes: the surrogate check, the JSON decoder in
    token mode as [parseValue] drives it (encoding/json), and the writer. A Go
    [map[string]any] is the list of its entries; the iteration order of a map
    is the order of the list, so a result that does not depend on that order
    is proved for every order. *)

From S2P Require Import Prelude Utf8.

Open Scope Z_scope.

(** A generic value of ParseStrict. [VNumber] keeps the literal (json.Number). *)
#[warnings="-register-all"]
Inductive value : Type :=
| VNull
| VBool (b : bool)
| VNumber (s : bytes)
| VString (s : bytes)
| VArray (l : list value)
| VObject (m : list (bytes * value)).

Definition maxSafeInt : Z := 2 ^ 53.

(** ** The writer *)

Definition is_digit (c : Z) : bool := in_range 0x30 0x39 c.

(** intPattern: an optional '-', then 0 or a digit 1-9 and any digits. *)
Definition digits_pattern (s : bytes) : bool :=
  match s with
  | [] => false
  | c :: ds => if c =? 0x30 then match ds with [] => true | _ => false end
               else in_range 0x31 0x39 c && forallb is_digit ds
  end.
Definition intPattern (s : bytes) : bool :=
  match s with
  | c :: ds => if c =? 0x2D then digits_pattern ds else digits_pattern s
  | [] => false
  end.

(** strconv.ParseInt(s, 10, 64) on a text intPattern accepts. *)
Definition digits_val (s : bytes) : Z := fold_left (λ n c, n * 10 + (c - 0x30)) s 0.
Definition ParseInt (s : bytes) : option Z :=
  let n := match s with
           | c :: ds => if c =? 0x2D then - digits_val ds else digits_val s
           | [] => 0
           end in
  if in_range (- 2 ^ 63) (2 ^ 63 - 1) n then Some n else None.

(** utf16Less: RFC 8785 key order, by UTF-16 code units. *)
Fixpoint units_less (a b : list Z) : bool :=
  match a, b with
  | x :: a, y :: b => if x =? y then units_less a b else x <? y
  | [], _ :: _ => true
  | _, _ => false
  end.
Definition utf16Less (a b : bytes) : bool :=
  units_less (utf16_encode (runes a)) (utf16_encode (runes b)).

Definition hexDigits : bytes := bytes_of "0123456789abcdef".
Definition hexDigit (n : Z) : Z := nth (Z.to_nat n) hexDigits 0.

(** writeString, one rune. *)
Definition write_rune (r : Z) : bytes :=
  if r =? 0x22 then [0x5C; 0x22]
  else if r =? 0x5C then [0x5C; 0x5C]
  else if r =? 0x08 then [0x5C; 0x62]
  else if r =? 0x09 then [0x5C; 0x74]
  else if r =? 0x0A then [0x5C; 0x6E]
  else if r =? 0x0C then [0x5C; 0x66]
  else if r =? 0x0D then [0x5C; 0x72]
  else if r <? 0x20 then [0x5C; 0x75; 0x30; 0x30; hexDigit (Z.shiftr r 4); hexDigit (Z.land r 0xf)]
  else encode_rune r.
Definition writeString (s : bytes) : bytes := 0x22 :: flat_map write_rune (runes s) ++ [0x22].

(** sort.Slice(keys, utf16Less). The keys of a map are distinct, so the order
    of the result does not depend on the sorting algorithm. *)
Fixpoint insert_key {A} (p : bytes * A) (l : list (bytes * A)) : list (bytes * A) :=
  match l with
  | [] => [p]
  | q :: l' => if utf16Less q.1 p.1 then q :: insert_key p l' else p :: l
  end.
Definition sort_keys {A} (l : list (bytes * A)) : list (bytes * A) := foldr insert_key [] l.

Inductive canon_error : Type :=
| NotInteger (s : bytes)
| OutOfRange (s : bytes).

(** The elements of an array or object, written in turn: a failed one ends
    the write with its error. *)
Fixpoint write_all (first : bool) (l : list (bytes * result canon_error bytes)) : result canon_error bytes :=
  match l with
  | [] => Ok []
  | (pre, Err e) :: _ => Err e
  | (pre, Ok b) :: l =>
      match write_all false l with
      | Ok bs => Ok ((if first then [] else [0x2C]) ++ pre ++ b ++ bs)
      | Err e => Err e
      end
  end.

Definition wrap (o c : Z) (r : result canon_error bytes) : result canon_error bytes :=
  match r with Ok b => Ok (o :: b ++ [c]) | Err e => Err e end.

Definition write_number (s : bytes) : result canon_error bytes :=
  if negb (intPattern s) || bool_decide (s = bytes_of "-0") then Err (NotInteger s)
  else match ParseInt s with
       | Some n => if (maxSafeInt <=? n) || (n <=? - maxSafeInt) then Err (OutOfRange s) else Ok s
       | None => Err (OutOfRange s)
       end.

Fixpoint canonicalize (v : value) : result canon_error bytes :=
  match v with
  | VNull => Ok (bytes_of "null")
  | VBool b => Ok (bytes_of (if b then "true" else "false"))
  | VString s => Ok (writeString s)
  | VNumber s => write_number s
  | VArray l => wrap 0x5B 0x5D (write_all true (map (λ x, ([], canonicalize x)) l))
  | VObject m =>
      let parts := sort_keys (map (λ p, (p.1, canonicalize p.2)) m) in
      wrap 0x7B 0x7D (write_all true (map (λ p, (writeString p.1 ++ [0x3A], p.2)) parts))
  end.

Definition CanonicalValue (v : value) : result canon_error bytes := canonicalize v.

(** ** The strict parse *)

(** hex4: four hex digits, either case. *)
Definition hex_val (c : Z) : option Z :=
  if in_range 0x30 0x39 c then Some (c - 0x30)
  else if in_range 0x61 0x66 c then Some (c - 0x61 + 10)
  else if in_range 0x41 0x46 c then Some (c - 0x41 + 10)
  else None.
Definition hex4 (d : bytes) : option Z :=
  match d with
  | a :: b :: c :: e :: _ =>
      match hex_val a, hex_val b, hex_val c, hex_val e with
      | Some a, Some b, Some c, Some e => Some (a * 4096 + b * 256 + c * 16 + e)
      | _, _, _, _ => None
      end
  | _ => None
  end.

Definition is_high (v : Z) : bool := in_range 0xD800 0xDBFF v.
Definition is_low (v : Z) : bool := in_range 0xDC00 0xDFFF v.

(** checkSurrogates over data[i:], [d], with the in-string state; the error is
    the byte offset of the lone escape. Each turn consumes a byte or more. *)
Fixpoint check_from (fuel i : nat) (inString : bool) (d : bytes) : result nat unit :=
  match fuel, d with
  | S fuel, c :: d1 =>
      if negb inString then check_from fuel (i + 1) (c =? 0x22) d1
      else if c =? 0x22 then check_from fuel (i + 1) false d1
      else if negb (c =? 0x5C) then check_from fuel (i + 1) true d1
      else match d1 with
           | [] => Ok tt
           | e :: d2 =>
               if negb (e =? 0x75) then check_from fuel (i + 2) true d2
               else match hex4 d2 with
                    | None => Ok tt
                    | Some v =>
                        if is_low v then Err i
                        else if is_high v then
                          match drop 4 d2 with
                          | b :: u :: d4 =>
                              if (b =? 0x5C) && (u =? 0x75) then
                                match hex4 d4 with
                                | Some lo => if is_low lo then check_from fuel (i + 12) true (drop 4 d4) else Err i
                                | None => Err i
                                end
                              else Err i
                          | _ => Err i
                          end
                        else check_from fuel (i + 6) true (drop 4 d2)
                    end
           end
  | _, _ => Ok tt
  end.
Definition checkSurrogates (data : bytes) : result nat unit := check_from (length data) 0 false data.

Definition is_ws (c : Z) : bool := (c =? 0x20) || (c =? 0x09) || (c =? 0x0A) || (c =? 0x0D).
Fixpoint skip_ws (d : bytes) : bytes :=
  match d with c :: d' => if is_ws c then skip_ws d' else d | [] => [] end.

(** The decoder's reading of the rest of a string literal after its opening
    quote: the value and what follows the closing quote. A surrogate escape
    that forms no pair reads as U+FFFD, as does an undecodable byte. *)
Fixpoint scan_string (fuel : nat) (d : bytes) : option (bytes * bytes) :=
  match fuel, d with
  | S fuel, c :: d1 =>
      let emit r rest := match scan_string fuel rest with
                         | Some (s, d') => Some (encode_rune r ++ s, d')
                         | None => None
                         end in
      if c =? 0x22 then Some ([], d1)
      else if c <? 0x20 then None
      else if c =? 0x5C then
        match d1 with
        | [] => None
        | e :: d2 =>
            if e =? 0x22 then emit 0x22 d2
            else if e =? 0x5C then emit 0x5C d2
            else if e =? 0x2F then emit 0x2F d2
            else if e =? 0x62 then emit 0x08 d2
            else if e =? 0x66 then emit 0x0C d2
            else if e =? 0x6E then emit 0x0A d2
            else if e =? 0x72 then emit 0x0D d2
            else if e =? 0x74 then emit 0x09 d2
            else if e =? 0x75 then
              match hex4 d2 with
              | None => None
              | Some v =>
                  let d3 := drop 4 d2 in
                  if is_high v then
                    match d3 with
                    | b :: u :: d4 =>
                        match hex4 d4 with
                        | Some lo =>
                            if (b =? 0x5C) && (u =? 0x75) && is_low lo
                            then emit (0x10000 + (v - 0xD800) * 1024 + (lo - 0xDC00)) (drop 4 d4)
                            else emit RuneError d3
                        | None => emit RuneError d3
                        end
                    | _ => emit RuneError d3
                    end
                  else if is_low v then emit RuneError d3
                  else emit v d3
              end
            else None
        end
      else let '(r, n) := decode_rune d in emit r (drop n d)
  | _, _ => None
  end.

(** Maximal run of digits. *)
Fixpoint span_digits (d : bytes) : bytes * bytes :=
  match d with
  | c :: d' => if is_digit c then let '(s, r) := span_digits d' in (c :: s, r) else ([], d)
  | [] => ([], [])
  end.

(** The scanner's number: an optional sign, the integer part, an optional
    fraction and an optional exponent. *)
Definition scan_int (d : bytes) : option (bytes * bytes) :=
  match d with
  | c :: d' => if c =? 0x30 then Some ([c], d')
               else if in_range 0x31 0x39 c then let '(s, r) := span_digits d' in Some (c :: s, r)
               else None
  | [] => None
  end.
Definition scan_frac (d : bytes) : option (bytes * bytes) :=
  match d with
  | c :: d' => if c =? 0x2E then
                 match span_digits d' with ([], _) => None | (s, r) => Some (c :: s, r) end
               else Some ([], d)
  | [] => Some ([], d)
  end.
Definition scan_exp (d : bytes) : option (bytes * bytes) :=
  match d with
  | c :: d' => if (c =? 0x65) || (c =? 0x45) then
                 let '(sg, d'') := match d' with
                                   | s :: d'' => if (s =? 0x2B) || (s =? 0x2D) then ([s], d'') else ([], d')
                                   | [] => ([], [])
                                   end in
                 match span_digits d'' with ([], _) => None | (s, r) => Some (c :: sg ++ s, r) end
               else Some ([], d)
  | [] => Some ([], d)
  end.
Definition scan_number (d : bytes) : option (bytes * bytes) :=
  let '(sg, d0) := match d with
                   | c :: d' => if c =? 0x2D then ([c], d') else ([], d)
                   | [] => ([], [])
                   end in
  match scan_int d0 with
  | Some (i, d1) => match scan_frac d1 with
                    | Some (f, d2) => match scan_exp d2 with
                                      | Some (e, d3) => Some (sg ++ i ++ f ++ e, d3)
                                      | None => None
                                      end
                    | None => None
                    end
  | None => None
  end.

(** A literal name. *)
Fixpoint scan_lit (w d : bytes) : option bytes :=
  match w, d with
  | [], _ => Some d
  | x :: w, c :: d => if c =? x then scan_lit w d else None
  | _ :: _, [] => None
  end.

(** The loops of parseValue over an array's elements and an object's members,
    given the parse of one value. [first] is the decoder's state after the
    opening delimiter, when no comma is read. *)
Section loops.
Variable pv : bytes → option (value * bytes).

Fixpoint parse_elems (fuel : nat) (first : bool) (d : bytes) : option (list value * bytes) :=
  match fuel, skip_ws d with
  | S fuel, c :: d' =>
      if c =? 0x5D then Some ([], d')
      else if negb first && negb (c =? 0x2C) then None
      else match pv (if first then c :: d' else d') with
           | Some (v, r) => match parse_elems fuel false r with
                            | Some (l, r') => Some (v :: l, r')
                            | None => None
                            end
           | None => None
           end
  | _, _ => None
  end.

Fixpoint parse_members (fuel : nat) (first : bool) (keys : list bytes) (d : bytes)
  : option (list (bytes * value) * bytes) :=
  match fuel, skip_ws d with
  | S fuel, c :: d' =>
      if c =? 0x7D then Some ([], d')
      else if negb first && negb (c =? 0x2C) then None
      else match skip_ws (if first then c :: d' else d') with
           | q :: d1 =>
               if negb (q =? 0x22) then None
               else match scan_string (length d1) d1 with
                    | Some (k, d2) =>
                        if bool_decide (k ∈ keys) then None
                        else match skip_ws d2 with
                             | c2 :: d3 =>
                                 if negb (c2 =? 0x3A) then None
                                 else match pv d3 with
                                      | Some (v, r) =>
                                          match parse_members fuel false (k :: keys) r with
                                          | Some (m, r') => Some ((k, v) :: m, r')
                                          | None => None
                                          end
                                      | None => None
                                      end
                             | [] => None
                             end
                    | None => None
                    end
           | [] => None
           end
  | _, _ => None
  end.
End loops.

Fixpoint parseValue (fuel : nat) (d : bytes) : option (value * bytes) :=
  match fuel, skip_ws d with
  | S fuel, c :: d1 =>
      if c =? 0x5B then
        match parse_elems (parseValue fuel) fuel true d1 with
        | Some (l, r) => Some (VArray l, r)
        | None => None
        end
      else if c =? 0x7B then
        match parse_members (parseValue fuel) fuel true [] d1 with
        | Some (m, r) => Some (VObject m, r)
        | None => None
        end
      else if c =? 0x22 then
        match scan_string (length d1) d1 with Some (s, r) => Some (VString s, r) | None => None end
      else if c =? 0x6E then
        match scan_lit (bytes_of "null") (c :: d1) with Some r => Some (VNull, r) | None => None end
      else if c =? 0x74 then
        match scan_lit (bytes_of "true") (c :: d1) with Some r => Some (VBool true, r) | None => None end
      else if c =? 0x66 then
        match scan_lit (bytes_of "false") (c :: d1) with Some r => Some (VBool false, r) | None => None end
      else match scan_number (c :: d1) with Some (s, r) => Some (VNumber s, r) | None => None end
  | _, _ => None
  end.

Inductive parse_error : Type :=
| InvalidUTF8
| LoneSurrogate (at_byte : nat)
| InvalidJSON
| TrailingData.

Definition parseDocument (data : bytes) : result parse_error value :=
  match parseValue (S (length data)) data with
  | None => Err InvalidJSON
  | Some (v, r) => match skip_ws r with [] => Ok v | _ => Err TrailingData end
  end.

Definition ParseStrict (data : bytes) : result parse_error value :=
  if negb (valid_utf8 data) then Err InvalidUTF8
  else match checkSurrogates data with
       | Err i => Err (LoneSurrogate i)
       | Ok _ => parseDocument data
       end.

Definition parseLegacy (data : bytes) : result parse_error value :=
  if negb (valid_utf8 data) then Err InvalidUTF8 else parseDocument data.

(** ** Well-formed values, normal forms and equality of JSON values *)

(** What ParseStrict returns: valid strings, distinct keys. *)
Fixpoint wf (v : value) : bool :=
  match v with
  | VString s => valid_utf8 s
  | VArray l => forallb wf l
  | VObject m => bool_decide (NoDup (map fst m)) && forallb (λ p, valid_utf8 p.1 && wf p.2) m
  | _ => true
  end.

(** Objects with their keys in canonical order, at every depth. *)
Fixpoint norm (v : value) : value :=
  match v with
  | VArray l => VArray (map norm l)
  | VObject m => VObject (sort_keys (map (λ p, (p.1, norm p.2)) m))
  | v => v
  end.

(** Equal as JSON values: the order of an object's members does not count. *)
Inductive same : value → value → Prop :=
| same_refl v : same v v
| same_trans v1 v2 v3 : same v1 v2 → same v2 v3 → same v1 v3
| same_perm m m' : m ≡ₚ m' → same (VObject m) (VObject m')
| same_member m1 k v v' m2 : same v v' →
    same (VObject (m1 ++ (k, v) :: m2)) (VObject (m1 ++ (k, v') :: m2))
| same_elem l1 v v' l2 : same v v' → same (VArray (l1 ++ v :: l2)) (VArray (l1 ++ v' :: l2)).

(** Text with ' for the double quote. *)
Definition jq (s : string) : bytes := map (λ c, if c =? 0x27 then 0x22 else c) (bytes_of s).

Example canon_ex1 :
  ParseStrict (jq "{ 'b' : [1, true , null], 'a':'x\u0041' }") =
  Ok (VObject [(bytes_of "b", VArray [VNumber (bytes_of "1"); VBool true; VNull]); (bytes_of "a", VString (bytes_of "xA"))]).
Proof. reflexivity. Qed.

(** ** Lemmas: induction over values *)

Section value_ind.
Variable P : value → Prop.
Hypothesis Hnull : P VNull.
Hypothesis Hbool : ∀ b, P (VBool b).
Hypothesis Hnum : ∀ s, P (VNumber s).
Hypothesis Hstr : ∀ s, P (VString s).
Hypothesis Harr : ∀ l, Forall P l → P (VArray l).
Hypothesis Hobj : ∀ m, Forall (λ p, P p.2) m → P (VObject m).

Fixpoint value_deep_ind (v : value) : P v :=
  match v with
  | VNull => Hnull
  | VBool b => Hbool b
  | VNumber s => Hnum s
  | VString s => Hstr s
  | VArray l => Harr l ((fix go l : Forall P l :=
      match l with [] => Forall_nil_2 _ | x :: l => Forall_cons_2 _ x l (value_deep_ind x) (go l) end) l)
  | VObject m => Hobj m ((fix go m : Forall (λ p, P p.2) m :=
      match m with [] => Forall_nil_2 _ | p :: m => Forall_cons_2 _ p m (value_deep_ind p.2) (go m) end) m)
  end.
End value_ind.

(** ** Lemmas: the key order *)

Lemma units_less_irrefl a : units_less a a = false.
Proof. induction a as [|x a IH]; simpl; [done|]. by rewrite Z.eqb_refl. Qed.

Lemma units_less_trans a b c : units_less a b = true → units_less b c = true → units_less a c = true.
Proof.
  revert b c. induction a as [|x a IH]; intros [|y b] [|z c]; simpl; try done.
  repeat case_match; bprop; subst; try lia; eauto; rewrite !Z.ltb_lt; lia.
Qed.

Lemma units_less_total a b : units_less a b = false → units_less b a = false → a = b.
Proof.
  revert b. induction a as [|x a IH]; intros [|y b]; simpl; try done.
  destruct (Z.eqb_spec x y) as [->|Hne].
  - rewrite Z.eqb_refl. intros. f_equal. by apply IH.
  - rewrite (proj2 (Z.eqb_neq y x)) by done. intros. bprop. lia.
Qed.

Lemma utf16Less_irrefl k : utf16Less k k = false.
Proof. apply units_less_irrefl. Qed.

Lemma utf16Less_trans a b c : utf16Less a b = true → utf16Less b c = true → utf16Less a c = true.
Proof. apply units_less_trans. Qed.

(** On valid strings the order is total: RFC 8785's order of the keys. *)
Lemma utf16Less_total a b : valid_utf8 a = true → valid_utf8 b = true →
  utf16Less a b = false → utf16Less b a = false → a = b.
Proof.
  intros Ha Hb H1 H2. apply runes_inj; [done..|].
  apply utf16_encode_inj; auto with agentnet. by apply units_less_total.
Qed.

Lemma utf16Less_asym a b : utf16Less a b = true → utf16Less b a = false.
Proof.
  intros H1. destruct (utf16Less b a) eqn:H2; [|done].
  by rewrite <- (utf16Less_irrefl a), (utf16Less_trans _ _ _ H1 H2).
Qed.

Lemma utf16Less_cases a b : valid_utf8 a = true → valid_utf8 b = true → a ≠ b →
  utf16Less a b = negb (utf16Less b a).
Proof.
  intros Ha Hb Hne. destruct (utf16Less b a) eqn:H; simpl; [by apply utf16Less_asym|].
  destruct (utf16Less a b) eqn:H'; [done|]. exfalso. by eapply Hne, utf16Less_total.
Qed.

(** ** Lemmas: sorting the members *)

Section sorting.
Context {A : Type}.
Implicit Types (p q : bytes * A) (l : list (bytes * A)).

Lemma insert_key_perm p l : insert_key p l ≡ₚ p :: l.
Proof.
  induction l as [|q l IH]; simpl; [done|]. case_match; [|done].
  rewrite IH. constructor.
Qed.

Lemma sort_keys_perm l : sort_keys l ≡ₚ l.
Proof. induction l as [|p l IH]; simpl; [done|]. by rewrite insert_key_perm, IH. Qed.

Lemma insert_key_comm p q l : valid_utf8 p.1 = true → valid_utf8 q.1 = true → p.1 ≠ q.1 →
  insert_key p (insert_key q l) = insert_key q (insert_key p l).
Proof.
  intros Hp Hq Hne. assert (utf16Less p.1 q.1 = negb (utf16Less q.1 p.1)) as Hpq by by apply utf16Less_cases.
  induction l as [|x l IH]; simpl.
  { rewrite Hpq. by destruct (utf16Less q.1 p.1). }
  destruct (utf16Less x.1 p.1) eqn:H1, (utf16Less x.1 q.1) eqn:H2; simpl; rewrite ?H1, ?H2; [by f_equal|..].
  - destruct (utf16Less q.1 p.1) eqn:H3; [done|]. simpl in Hpq.
    by rewrite (utf16Less_trans _ _ _ H1 Hpq) in H2.
  - destruct (utf16Less q.1 p.1) eqn:H3; simpl in Hpq; rewrite Hpq; [|done].
    by rewrite (utf16Less_trans _ _ _ H2 H3) in H1.
  - rewrite Hpq. by destruct (utf16Less q.1 p.1).
Qed.

(** The order of the result does not depend on the order of the map. *)
Lemma sort_keys_unique l l' : l ≡ₚ l' → NoDup (map fst l) → (∀ p, p ∈ l → valid_utf8 p.1 = true) →
  sort_keys l = sort_keys l'.
Proof.
  induction 1 as [|p l l' Hl IH|p q l|l1 l2 l3 H12 IH1 H23 IH2]; simpl; intros Hnd Hv; [done|..].
  - apply NoDup_cons in Hnd as [_ ?]. f_equal. apply IH; [done|]. intros ??. apply Hv. by right.
  - apply NoDup_cons in Hnd as [Hnin _]. apply insert_key_comm; [apply Hv; set_solver..|].
    intros Heq. apply Hnin. rewrite Heq. by left.
  - rewrite IH1 by done. apply IH2.
    + by rewrite <- H12.
    + intros p Hp. apply Hv. by rewrite H12.
Qed.

Lemma insert_key_map {B} (f : A → B) p l :
  insert_key (p.1, f p.2) (map (λ q, (q.1, f q.2)) l) = map (λ q, (q.1, f q.2)) (insert_key p l).
Proof. induction l as [|q l IH]; simpl; [done|]. case_match; [|done]. simpl. by rewrite IH. Qed.

Lemma sort_keys_map {B} (f : A → B) l :
  sort_keys (map (λ q, (q.1, f q.2)) l) = map (λ q, (q.1, f q.2)) (sort_keys l).
Proof. induction l as [|p l IH]; simpl; [done|]. by rewrite IH, insert_key_map. Qed.
End sorting.

Lemma map_fst_norm (m : list (bytes * value)) : map fst (map (λ p, (p.1, norm p.2)) m) = map fst m.
Proof. rewrite map_map. done. Qed.

Lemma wf_object m : wf (VObject m) = true ↔
  NoDup (map fst m) ∧ ∀ p, p ∈ m → valid_utf8 p.1 = true ∧ wf p.2 = true.
Proof.
  simpl. rewrite andb_true_iff, bool_decide_eq_true, forallb_forall.
  setoid_rewrite <- list_elem_of_In. by setoid_rewrite andb_true_iff.
Qed.

Lemma wf_array l : wf (VArray l) = true ↔ ∀ x, x ∈ l → wf x = true.
Proof. simpl. rewrite forallb_forall. by setoid_rewrite <- list_elem_of_In. Qed.

Lemma wf_object_perm m m' : m ≡ₚ m' → wf (VObject m) = true → wf (VObject m') = true.
Proof. intros Hp. rewrite !wf_object. intros [? Hv]. split; [by rewrite <- Hp|]. intros p. rewrite <- Hp. apply Hv. Qed.

Lemma sort_keys_wf m : wf (VObject m) = true → sort_keys (sort_keys m) = sort_keys m.
Proof.
  intros Hw. apply sort_keys_unique; [apply sort_keys_perm|..].
  - rewrite sort_keys_perm. by apply wf_object in Hw as [? _].
  - intros p. rewrite sort_keys_perm. apply wf_object in Hw as [_ Hv]. apply Hv.
Qed.

(** ** Lemmas: normal forms *)


Lemma elem_of_map_list {A B} (f : A → B) l y : y ∈ map f l ↔ ∃ x, y = f x ∧ x ∈ l.
Proof. rewrite list_elem_of_In, in_map_iff. setoid_rewrite list_elem_of_In. naive_solver. Qed.

Lemma wf_norm v : wf v = true → wf (norm v) = true.
Proof.
  induction v as [| | | |l IH|m IH] using value_deep_ind; intros Hw; try done.
  - rewrite Forall_forall in IH. cbn [norm]. rewrite wf_array in *.
    intros x (y & -> & Hy)%elem_of_map_list. by apply IH; [|apply Hw].
  - rewrite Forall_forall in IH. cbn [norm]. eapply wf_object_perm; [symmetry; apply sort_keys_perm|].
    rewrite wf_object, map_fst_norm in *. destruct Hw as [Hnd Hv]. split; [done|].
    intros p (q & -> & Hq)%elem_of_map_list. simpl. destruct (Hv q Hq). auto.
Qed.

Lemma canonicalize_object m : canonicalize (VObject m) =
  wrap 0x7B 0x7D (write_all true (map (λ p, (writeString p.1 ++ [0x3A], canonicalize p.2)) (sort_keys m))).
Proof. cbn [canonicalize]. by rewrite sort_keys_map, map_map. Qed.

Lemma norm_object m : norm (VObject m) = VObject (map (λ p, (p.1, norm p.2)) (sort_keys m)).
Proof. cbn [norm]. by rewrite sort_keys_map. Qed.

Lemma canonicalize_norm v : wf v = true → canonicalize (norm v) = canonicalize v.
Proof.
  induction v as [| | | |l IH|m IH] using value_deep_ind; intros Hw; try done.
  - cbn [norm canonicalize]. rewrite map_map. do 2 f_equal.
    rewrite Forall_forall in IH. rewrite wf_array in Hw.
    apply map_ext_in. intros x Hx%list_elem_of_In. f_equal. by apply IH; [|apply Hw].
  - rewrite norm_object, !canonicalize_object.
    rewrite sort_keys_map, map_map, sort_keys_wf by done. do 2 f_equal.
    rewrite Forall_forall in IH. apply wf_object in Hw as [_ Hv].
    apply map_ext_in. intros p Hp%list_elem_of_In. rewrite sort_keys_perm in Hp. simpl.
    f_equal. by apply IH; [|apply Hv].
Qed.

Lemma same_norm v : same v (norm v).
Proof.
  induction v as [| | | |l IH|m IH] using value_deep_ind; try apply same_refl.
  - cbn [norm]. change (VArray l) with (VArray ([] ++ l)). change (VArray (map norm l)) with (VArray ([] ++ map norm l)).
    generalize (@nil value) as pre. induction IH as [|x l Hx IH IHl]; intros pre; [apply same_refl|].
    eapply same_trans; [by apply same_elem|]. specialize (IHl (pre ++ [norm x])).
    by rewrite <- !app_assoc in IHl.
  - eapply same_trans; [|apply same_perm; symmetry; apply sort_keys_perm].
    change (VObject m) with (VObject ([] ++ m)).
    change (VObject (map ?f m)) with (VObject ([] ++ map f m)).
    generalize (@nil (bytes * value)) as pre. induction IH as [|[k x] m Hx IH IHm]; intros pre; [apply same_refl|].
    eapply same_trans; [by apply same_member|]. specialize (IHm (pre ++ [(k, norm x)])).
    by rewrite <- !app_assoc in IHm.
Qed.

Lemma same_sym v v' : same v v' → same v' v.
Proof.
  induction 1; [apply same_refl|by eapply same_trans|by apply same_perm|by apply same_member|by apply same_elem].
Qed.

#[export] Instance same_equivalence : Equivalence same.
Proof. split; [exact same_refl|exact same_sym|exact same_trans]. Qed.

Lemma same_wf_norm v v' : same v v' → wf v = true → wf v' = true ∧ norm v = norm v'.
Proof.
  induction 1 as [v|v1 v2 v3 H12 IH1 H23 IH2|m m' Hp|m1 k v v' m2 Hs IH|l1 v v' l2 Hs IH]; intros Hw.
  - done.
  - destruct (IH1 Hw) as [Hw2 ->]. by apply IH2.
  - split; [by eapply wf_object_perm|]. cbn [norm]. f_equal. apply sort_keys_unique.
    + by rewrite Hp.
    + rewrite map_fst_norm. by apply wf_object in Hw as [? _].
    + intros p (q & -> & Hq)%elem_of_map_list. apply wf_object in Hw as [_ Hv]. by destruct (Hv q Hq).
  - rewrite wf_object in Hw |- *. destruct Hw as [Hnd Hv].
    destruct IH as [Hw' Hn]; [by apply (Hv (k, v)); set_solver|].
    split; [split|].
    + by rewrite map_app in *.
    + intros p [Hp|[->|Hp]%elem_of_cons]%elem_of_app; [apply Hv; set_solver| |apply Hv; set_solver].
      split; [|done]. by apply (Hv (k, v)); set_solver.
    + cbn [norm]. rewrite !map_app. simpl. by rewrite Hn.
  - rewrite wf_array in Hw |- *. destruct IH as [Hw' Hn]; [apply Hw; set_solver|].
    split; [intros x Hx; apply elem_of_app in Hx as [?|[->|?]%elem_of_cons]; [apply Hw; set_solver|done|apply Hw; set_solver]|].
    cbn [norm]. rewrite !map_app. simpl. by rewrite Hn.
Qed.

(** ** Lemmas: reading back what was written *)

Lemma skip_ws_cons c d : is_ws c = false → skip_ws (c :: d) = c :: d.
Proof. intros Hc. simpl. by rewrite Hc. Qed.

Lemma hexDigit_val n : 0 ≤ n ≤ 15 → hex_val (hexDigit n) = Some n.
Proof.
  intros Hn. assert (n = 0 ∨ n = 1 ∨ n = 2 ∨ n = 3 ∨ n = 4 ∨ n = 5 ∨ n = 6 ∨ n = 7 ∨ n = 8 ∨ n = 9 ∨
    n = 10 ∨ n = 11 ∨ n = 12 ∨ n = 13 ∨ n = 14 ∨ n = 15) as Hc by lia.
  repeat (destruct Hc as [->|Hc]; [done|]). by subst.
Qed.

Lemma hex4_digits a b d : 0 ≤ a ≤ 15 → 0 ≤ b ≤ 15 →
  hex4 (0x30 :: 0x30 :: hexDigit a :: hexDigit b :: d) = Some (a * 16 + b).
Proof.
  intros Ha Hb. unfold hex4. rewrite !hexDigit_val by done. change (hex_val 0x30) with (Some 0).
  done.
Qed.

Lemma encode_rune_head r : 0x20 ≤ r → is_scalar r = true → ∃ c l, encode_rune r = c :: l ∧ 0x20 ≤ c ∧
  (c < 0x80 → c = r) .
Proof.
  rewrite is_scalar_spec. intros Hr Hs. unfold encode_rune. repeat (case_match; bprop); do 2 eexists;
  (split; [reflexivity|]); split; try zdivmod.
Qed.

(** One written rune is read back as itself. *)
Lemma scan_write_rune r d n : is_scalar r = true → 
  scan_string (S n) (write_rune r ++ d) =
  match scan_string n d with Some (s, d') => Some (encode_rune r ++ s, d') | None => None end.
Proof.
  intros Hr. pose proof Hr as Hb. rewrite is_scalar_spec in Hb. unfold write_rune.
  do 7 (case_match; bprop; [subst; reflexivity|]). case_match; bprop.
  - assert (0 ≤ Z.shiftr r 4 ≤ 15 ∧ 0 ≤ Z.land r 0xf ≤ 15 ∧ r = Z.shiftr r 4 * 16 + Z.land r 0xf) as (?&?&Hsum).
    { assert (Z.land r 0xf = r mod 16) as -> by apply (Z.land_ones r 4 ltac:(lia)).
      assert (Z.shiftr r 4 = r / 16) as -> by apply (Z.shiftr_div_pow2 r 4 ltac:(lia)). zdivmod. }
    cbn [app scan_string Z.eqb Pos.eqb Z.ltb Z.compare Pos.compare Pos.compare_cont].
    rewrite hex4_digits by lia. rewrite <- Hsum. cbn [drop].
    unfold is_high, is_low. by repeat range_step.
  - destruct (encode_rune_head r) as (c & l & He & Hc & Hlt); [lia|done|].
    pose proof (decode_encode_rune r d Hr) as Hd. rewrite He in Hd |- *.
    cbn [app]. cbn [app] in Hd. cbn [scan_string].
    assert (c ≠ 0x22 ∧ c ≠ 0x5C) as [Hc1 Hc2].
    { split; intros ->; specialize (Hlt ltac:(lia)); congruence. }
    rewrite (proj2 (Z.eqb_neq c 0x22) Hc1), (proj2 (Z.eqb_neq c 0x5C) Hc2), (proj2 (Z.ltb_ge c 0x20) Hc).
    rewrite Hd. change (drop (length (c :: l)) (c :: l ++ d)) with (drop (length (c :: l)) ((c :: l) ++ d)).
    by rewrite drop_app_length, He.
Qed.

Lemma write_rune_length r : (1 ≤ length (write_rune r))%nat.
Proof. unfold write_rune. repeat case_match; simpl; try lia. apply encode_rune_length. Qed.

Lemma scan_written rs d n : Forall (λ r, is_scalar r = true) rs →
  (length (flat_map write_rune rs) < n)%nat →
  scan_string n (flat_map write_rune rs ++ 0x22 :: d) = Some (encode rs, d).
Proof.
  intros Hrs. revert n. induction Hrs as [|r rs Hr Hrs IH]; intros n Hn; (destruct n as [|n]; [lia|]).
  - done.
  - cbn [flat_map] in *. rewrite <- app_assoc, scan_write_rune by done.
    rewrite length_app in Hn. pose proof (write_rune_length r).
    by rewrite IH by lia.
Qed.

(** A text that ends a value: nothing, or a comma or closing delimiter. *)
Definition delimited (rest : bytes) : bool :=
  match rest with [] => true | c :: _ => (c =? 0x2C) || (c =? 0x5D) || (c =? 0x7D) end.

Lemma delimited_cases rest : delimited rest = true →
  rest = [] ∨ ∃ c d, rest = c :: d ∧ (c = 0x2C ∨ c = 0x5D ∨ c = 0x7D).
Proof.
  destruct rest as [|c d]; [by left|]. simpl. rewrite !orb_true_iff, !Z.eqb_eq.
  intros Hc. right. exists c, d. intuition auto.
Qed.

Ltac eqb_ne := repeat match goal with
  |- context [?a =? ?b] => rewrite (proj2 (Z.eqb_neq a b)) by lia end.

Lemma span_digits_app ds rest : forallb is_digit ds = true → delimited rest = true →
  span_digits (ds ++ rest) = (ds, rest).
Proof.
  intros Hds Hr. induction ds as [|c ds IH]; simpl in *.
  - destruct (delimited_cases _ Hr) as [->|(c & d & -> & Hc)]; [done|]. simpl. unfold is_digit.
    by range_step.
  - bprop. rewrite H, IH by done. done.
Qed.

Lemma scan_frac_exp rest : delimited rest = true →
  scan_frac rest = Some ([], rest) ∧ scan_exp rest = Some ([], rest).
Proof.
  intros Hr. destruct (delimited_cases _ Hr) as [->|(c & d & -> & Hc)]; [done|]. simpl.
  eqb_ne. done.
Qed.

Lemma scan_int_app ds rest : digits_pattern ds = true → delimited rest = true →
  scan_int (ds ++ rest) = Some (ds, rest).
Proof.
  intros Hds Hr. destruct ds as [|c ds]; [done|]. simpl in *.
  destruct (c =? 0x30) eqn:Hc; bprop; [by destruct ds|].
  rewrite H. by rewrite span_digits_app.
Qed.

Lemma digits_head ds : digits_pattern ds = true → ∃ c ds', ds = c :: ds' ∧ 0x30 ≤ c ≤ 0x39.
Proof.
  destruct ds as [|c ds]; [done|]. simpl. destruct (c =? 0x30) eqn:Hc; intros; bprop; exists c, ds.
  - split; [done|lia].
  - apply in_range_spec in H. split; [done|lia].
Qed.

Lemma intPattern_head s : intPattern s = true → ∃ c s', s = c :: s' ∧ (c = 0x2D ∨ 0x30 ≤ c ≤ 0x39).
Proof.
  destruct s as [|c s]; [done|]. unfold intPattern. destruct (c =? 0x2D) eqn:Hc; bprop.
  - intros. exists c, s. auto.
  - intros (? & ? & [= -> ->] & ?)%digits_head. eauto.
Qed.

Lemma scan_number_app s rest : intPattern s = true → delimited rest = true →
  scan_number (s ++ rest) = Some (s, rest).
Proof.
  intros Hs Hr. destruct (scan_frac_exp rest Hr) as [Hf He]. unfold scan_number.
  destruct s as [|c s]; [done|]. unfold intPattern in Hs. cbn [app].
  destruct (c =? 0x2D) eqn:Hc; bprop.
  - rewrite scan_int_app, Hf, He by done. by rewrite app_nil_r.
  - change (c :: s ++ rest) with ((c :: s) ++ rest).
    rewrite scan_int_app, Hf, He by done. by rewrite app_nil_r.
Qed.

(** The first byte of a written value. *)
Definition value_head (c : Z) : Prop :=
  c = 0x6E ∨ c = 0x74 ∨ c = 0x66 ∨ c = 0x22 ∨ c = 0x5B ∨ c = 0x7B ∨ c = 0x2D ∨ 0x30 ≤ c ≤ 0x39.

Lemma canonicalize_head v b : canonicalize v = Ok b → ∃ c b', b = c :: b' ∧ value_head c.
Proof.
  unfold value_head. destruct v as [|[]|s|s|l|m]; cbn [canonicalize].
  1,2,3,5: intros [= <-]; do 2 eexists; (split; [reflexivity|]); vm_compute; tauto.
  - unfold write_number. intros Hw. repeat case_match; simplify_eq.
    bprop. destruct (intPattern_head b) as (c & s' & -> & Hc); [done|]. exists c, s'. split; [done|lia].
  - unfold wrap. intros Hw. case_match; simplify_eq. do 2 eexists. split; [reflexivity|lia].
  - unfold wrap. intros Hw. case_match; simplify_eq. do 2 eexists. split; [reflexivity|lia].
Qed.

Lemma value_head_ws c : value_head c → is_ws c = false.
Proof. unfold value_head, is_ws. intros. rewrite !orb_false_iff, !Z.eqb_neq. lia. Qed.

Lemma is_ws_delim c : c = 0x2C ∨ c = 0x5D ∨ c = 0x7D ∨ c = 0x22 ∨ c = 0x3A → is_ws c = false.
Proof. unfold is_ws. intros. rewrite !orb_false_iff, !Z.eqb_neq. lia. Qed.

(** Reading back a value that was written, in front of any delimited text. *)
Definition reads_back (v : value) : Prop := ∀ b n rest, wf v = true → canonicalize v = Ok b →
  delimited rest = true → (length (b ++ rest) < n)%nat → parseValue n (b ++ rest) = Some (norm v, rest).

Lemma write_all_cons first pre r l bs : write_all first ((pre, r) :: l) = Ok bs →
  ∃ b bs', r = Ok b ∧ write_all false l = Ok bs' ∧ bs = (if first then [] else [0x2C]) ++ pre ++ b ++ bs'.
Proof.
  cbn [write_all]. destruct r as [b|e]; [|done]. destruct (write_all false l) as [bs'|e]; [|done].
  intros [= <-]. by exists b, bs'.
Qed.

Lemma write_all_delim l bs rest c : write_all false l = Ok bs → c = 0x5D ∨ c = 0x7D →
  delimited (bs ++ c :: rest) = true.
Proof.
  destruct l as [|[pre r] l]; intros Hw Hc.
  - simplify_eq/=. by destruct Hc as [->| ->].
  - apply write_all_cons in Hw as (b & bs' & _ & _ & ->). done.
Qed.

Lemma parse_elems_back l : Forall reads_back l → (∀ x, x ∈ l → wf x = true) →
  ∀ first bs n m rest, write_all first (map (λ x, ([], canonicalize x)) l) = Ok bs →
  (length (bs ++ [0x5D%Z] ++ rest) < n)%nat → (length (bs ++ [0x5D%Z] ++ rest) ≤ m)%nat →
  parse_elems (parseValue n) m first (bs ++ 0x5D :: rest) = Some (map norm l, rest).
Proof.
  induction 1 as [|v l Hv Hl IH]; intros Hwf first bs n m rest Hw Hn Hm.
  - simplify_eq/=. destruct m; [lia|]. done.
  - cbn [map] in Hw. apply write_all_cons in Hw as (b & bs' & Hb & Hbs & ->).
    destruct (canonicalize_head _ _ Hb) as (c & b' & -> & Hc).
    rewrite !length_app in *. simpl in Hn, Hm. destruct m as [|m]; [lia|].
    assert (parseValue n ((c :: b') ++ bs' ++ 0x5D :: rest) = Some (norm v, bs' ++ 0x5D :: rest)) as Hp.
    { apply Hv; [apply Hwf; by left|done|eapply write_all_delim; [done|by left]|].
      rewrite !length_app. simpl. lia. }
    assert (parse_elems (parseValue n) m false (bs' ++ 0x5D :: rest) = Some (map norm l, rest)) as Hrest.
    { apply IH; [intros x Hx; apply Hwf; by right|done|..]; rewrite !length_app; simpl; lia. }
    destruct first; cbn [app].
    + cbn [parse_elems]. rewrite <- app_assoc. cbn [app]. rewrite skip_ws_cons by by apply value_head_ws.
      unfold value_head in Hc. eqb_ne. cbn [negb andb]. cbn [app] in Hp. by rewrite Hp, Hrest.
    + cbn [parse_elems]. rewrite <- app_assoc. cbn [app]. rewrite skip_ws_cons by done.
      cbn [app] in Hp. simpl (negb _ && _). cbn [Z.eqb Pos.eqb]. by rewrite Hp, Hrest.
Qed.

Lemma member_text k b bs (d : bytes) :
  (writeString k ++ [0x3A]) ++ b ++ bs ++ d = 0x22 :: flat_map write_rune (runes k) ++ 0x22 :: 0x3A :: b ++ bs ++ d.
Proof. unfold writeString. cbn [app]. by rewrite <- !app_assoc. Qed.

Lemma parse_members_back l : Forall (λ p, reads_back p.2) l →
  (∀ p, p ∈ l → valid_utf8 p.1 = true ∧ wf p.2 = true) → NoDup (map fst l) →
  ∀ first keys bs n m rest, (∀ k, k ∈ keys → k ∉ map fst l) →
  write_all first (map (λ p, (writeString p.1 ++ [0x3A], canonicalize p.2)) l) = Ok bs →
  (length (bs ++ [0x7D%Z] ++ rest) < n)%nat → (length (bs ++ [0x7D%Z] ++ rest) ≤ m)%nat →
  parse_members (parseValue n) m first keys (bs ++ 0x7D :: rest) = Some (map (λ p, (p.1, norm p.2)) l, rest).
Proof.
  induction 1 as [|[k v] l Hv Hl IH]; intros Hwf Hnd first keys bs n m rest Hk Hw Hn Hm.
  - simplify_eq/=. destruct m; [lia|]. done.
  - cbn [map] in Hw, Hnd, Hk. apply NoDup_cons in Hnd as [Hkl Hnd].
    apply write_all_cons in Hw as (b & bs' & Hb & Hbs & ->). simpl in Hb.
    destruct (Hwf (k, v)) as [Hkv Hvw]; [by left|]. simpl in Hkv, Hvw.
    pose proof (member_text k b bs' (0x7D :: rest)) as Ht. cbn [fst] in *.
    assert (length ((writeString k ++ [0x3A%Z]) ++ b ++ bs' ++ 0x7D%Z :: rest) < n ∧
            length ((writeString k ++ [0x3A%Z]) ++ b ++ bs' ++ 0x7D%Z :: rest) ≤ m)%nat as [Hn' Hm'].
    { rewrite !length_app in *. simpl in *. destruct first; simpl in *; lia. }
    rewrite Ht in Hn', Hm'. cbn [length] in Hn', Hm'. rewrite !length_app in Hn', Hm'. cbn [length] in Hn', Hm'.
    assert (scan_string (length (flat_map write_rune (runes k) ++ 0x22 :: 0x3A :: b ++ bs' ++ 0x7D :: rest))
              (flat_map write_rune (runes k) ++ 0x22 :: 0x3A :: b ++ bs' ++ 0x7D :: rest)
            = Some (k, 0x3A :: b ++ bs' ++ 0x7D :: rest)) as Hs.
    { rewrite scan_written; [by rewrite encode_runes|by apply runes_scalar|].
      rewrite length_app. simpl. lia. }
    assert (parseValue n (b ++ bs' ++ 0x7D :: rest) = Some (norm v, bs' ++ 0x7D :: rest)) as Hp.
    { apply Hv; [done|done|eapply write_all_delim; [done|by right]|]. rewrite !length_app in *. simpl in *. lia. }
    destruct m as [|m]; [lia|].
    assert (parse_members (parseValue n) m false (k :: keys) (bs' ++ 0x7D :: rest) =
      Some (map (λ p, (p.1, norm p.2)) l, rest)) as Hrest.
    { apply IH; [intros p Hp'; apply Hwf; by right|done| |done|..].
      - intros k' [->|Hk']%elem_of_cons; [done|]. intros ?. eapply Hk; [done|]. by right.
      - rewrite !length_app in *. simpl in *. lia.
      - rewrite !length_app in *. simpl in *. lia. }
    assert (k ∉ keys) as Hkk by (intros Hin; eapply Hk; [done|by left]).
    destruct first; rewrite <- !app_assoc; rewrite <- ?app_assoc in Ht; cbn [app]; cbn [app] in Ht; rewrite Ht.
    + cbn [parse_members]. rewrite skip_ws_cons by done. simpl (0x22 =? _). cbn [negb andb].
      rewrite skip_ws_cons by done. cbn [Z.eqb Pos.eqb negb]. rewrite Hs, bool_decide_eq_false_2 by done.
      rewrite skip_ws_cons by done. cbn [Z.eqb Pos.eqb negb]. by rewrite Hp, Hrest.
    + cbn [parse_members]. rewrite skip_ws_cons by done. cbn [Z.eqb Pos.eqb negb andb].
      rewrite skip_ws_cons by done. cbn [Z.eqb Pos.eqb negb]. rewrite Hs, bool_decide_eq_false_2 by done.
      rewrite skip_ws_cons by done. cbn [Z.eqb Pos.eqb negb]. by rewrite Hp, Hrest.
Qed.

Lemma parse_canonical v : reads_back v.
Proof.
  induction v as [|b0|s|s|l IH|m IH] using value_deep_ind; intros b n rest Hw Hc Hd Hn;
    (destruct n as [|n]; [lia|]).
  - by injection Hc as <-.
  - injection Hc as <-. by destruct b0.
  - cbn [canonicalize] in Hc. unfold write_number in Hc. repeat case_match; simplify_eq. bprop.
    destruct (intPattern_head b) as (c & s' & Hs & Hcb); [done|].
    pose proof (scan_number_app b rest ltac:(done) Hd) as Hscan. rewrite Hs in Hscan |- *.
    cbn [app parseValue] in *. rewrite skip_ws_cons by (apply value_head_ws; unfold value_head; lia).
    eqb_ne. by rewrite Hscan.
  - injection Hc as <-. unfold writeString in *. cbn [app]. rewrite <- app_assoc. cbn [parseValue app].
    rewrite skip_ws_cons by done. cbn [Z.eqb Pos.eqb].
    rewrite scan_written; [by rewrite encode_runes|by apply runes_scalar|].
    rewrite length_app. simpl. lia.
  - cbn [canonicalize] in Hc. unfold wrap in Hc. destruct (write_all _ _) as [bs|] eqn:Hbs; simplify_eq.
    cbn [app parseValue]. rewrite skip_ws_cons by done. cbn [Z.eqb Pos.eqb]. rewrite <- app_assoc. cbn [app].
    rewrite !length_app in Hn. simpl in Hn. rewrite length_app in Hn. simpl in Hn.
    rewrite (parse_elems_back l IH) with (rest := rest); [done|by apply wf_array|done|..];
      rewrite !length_app; simpl; lia.
  - rewrite canonicalize_object in Hc. unfold wrap in Hc. destruct (write_all _ _) as [bs|] eqn:Hbs; simplify_eq.
    cbn [app parseValue]. rewrite skip_ws_cons by done. cbn [Z.eqb Pos.eqb]. rewrite <- app_assoc. cbn [app].
    rewrite !length_app in Hn. simpl in Hn. rewrite length_app in Hn. simpl in Hn.
    apply wf_object in Hw as [Hnd Hv].
    rewrite (parse_members_back (sort_keys m)) with (rest := rest); [by rewrite norm_object|..].
    + by rewrite sort_keys_perm.
    + intros p. rewrite sort_keys_perm. apply Hv.
    + by rewrite sort_keys_perm.
    + intros k Hk. by apply not_elem_of_nil in Hk.
    + done.
    + rewrite !length_app; simpl; lia.
    + rewrite !length_app; simpl; lia.
Qed.

(** ** Lemmas: what is written passes the checks of the strict parse *)

Lemma valid_utf8_app a b : valid_utf8 a = true → valid_utf8 b = true → valid_utf8 (a ++ b) = true.
Proof.
  intros Ha Hb. rewrite <- (encode_runes a), <- (encode_runes b) by done.
  unfold encode. rewrite <- flat_map_app. apply valid_encode, Forall_app. auto with agentnet.
Qed.

(** The surrogate check crosses [b] in the state [st], ends in the state [st']
    and goes on with what follows. *)
Definition crosses (st st' : bool) (b : bytes) : Prop := ∀ rest fuel i, (length (b ++ rest) ≤ fuel)%nat →
  ∃ j fuel', (length rest ≤ fuel')%nat ∧ check_from fuel i st (b ++ rest) = check_from fuel' j st' rest.

Lemma crosses_nil st : crosses st st [].
Proof. intros rest fuel i Hf. by exists i, fuel. Qed.

Lemma crosses_app s1 s2 s3 a b : crosses s1 s2 a → crosses s2 s3 b → crosses s1 s3 (a ++ b).
Proof.
  intros Ha Hb rest fuel i Hf. rewrite <- app_assoc in *.
  destruct (Ha _ _ i Hf) as (j & f' & Hf' & ->). by apply Hb.
Qed.

Lemma crosses_outside c : c ≠ 0x22 → crosses false false [c].
Proof.
  intros Hc rest [|fuel] i Hf; simpl in Hf; [lia|]. exists (i + 1)%nat, fuel.
  split; [lia|]. simpl. by rewrite (proj2 (Z.eqb_neq c 0x22) Hc).
Qed.

Lemma crosses_plain c : c ≠ 0x22 → c ≠ 0x5C → crosses true true [c].
Proof.
  intros Hc Hc' rest [|fuel] i Hf; simpl in Hf; [lia|]. exists (i + 1)%nat, fuel.
  split; [lia|]. simpl. eqb_ne. done.
Qed.

Lemma crosses_quote st : crosses st (negb st) [0x22].
Proof.
  intros rest [|fuel] i Hf; simpl in Hf; [lia|]. exists (i + 1)%nat, fuel. split; [lia|]. by destruct st.
Qed.

Lemma crosses_escape e : e ≠ 0x75 → crosses true true [0x5C; e].
Proof.
  intros He rest [|fuel] i Hf; simpl in Hf; [lia|]. exists (i + 2)%nat, fuel.
  split; [lia|]. simpl. eqb_ne. done.
Qed.

Lemma crosses_u a b : 0 ≤ a ≤ 15 → 0 ≤ b ≤ 15 →
  crosses true true [0x5C; 0x75; 0x30; 0x30; hexDigit a; hexDigit b].
Proof.
  intros Ha Hb rest [|fuel] i Hf; simpl in Hf; [lia|]. exists (i + 6)%nat, fuel.
  split; [lia|]. cbn [app check_from]. simpl (0x5C =? _). simpl (0x75 =? _). cbn [negb].
  rewrite hex4_digits by done. unfold is_low, is_high. repeat range_step. done.
Qed.

Lemma crosses_outside_all l : (∀ c, c ∈ l → c ≠ 0x22) → crosses false false l.
Proof.
  induction l as [|c l IH]; intros Hl; [apply crosses_nil|].
  apply (crosses_app _ false _ [c] l); [apply crosses_outside, Hl; by left|].
  apply IH. intros c' Hc'. apply Hl. by right.
Qed.

Lemma crosses_plain_all l : (∀ c, c ∈ l → c ≠ 0x22 ∧ c ≠ 0x5C) → crosses true true l.
Proof.
  induction l as [|c l IH]; intros Hl; [apply crosses_nil|].
  apply (crosses_app _ true _ [c] l); [apply crosses_plain; apply (Hl c); by left|].
  apply IH. intros c' Hc'. apply Hl. by right.
Qed.

Lemma encode_rune_bytes r c : is_scalar r = true → c ∈ encode_rune r → c = r ∨ 0x80 ≤ c.
Proof.
  rewrite is_scalar_spec. unfold encode_rune. intros Hr Hc.
  repeat (case_match; bprop); rewrite ?elem_of_cons, ?elem_of_nil in Hc;
    destruct_or?; subst; try done; (by left) || (right; zdivmod).
Qed.

Lemma crosses_write_rune r : is_scalar r = true → crosses true true (write_rune r).
Proof.
  intros Hr. pose proof Hr as Hb. rewrite is_scalar_spec in Hb. unfold write_rune.
  do 7 (case_match; [by apply crosses_escape|]). case_match; bprop.
  - apply crosses_u.
    + assert (Z.shiftr r 4 = r / 16) as -> by apply (Z.shiftr_div_pow2 r 4 ltac:(lia)). zdivmod.
    + assert (Z.land r 0xf = r mod 16) as -> by apply (Z.land_ones r 4 ltac:(lia)). zdivmod.
  - apply crosses_plain_all. intros c Hc. destruct (encode_rune_bytes r c Hr Hc); lia.
Qed.

Lemma valid_ascii l : (∀ c, c ∈ l → 0 ≤ c < 0x80) → valid_utf8 l = true.
Proof.
  intros Hl. assert (l = encode l) as ->.
  { induction l as [|c l IH]; [done|]. simpl. rewrite <- IH by (intros c' ?; apply Hl; by right).
    unfold encode_rune. rewrite (proj2 (Z.leb_le c 0x7F)); [done|].
    specialize (Hl c ltac:(by left)). lia. }
  apply valid_encode, Forall_forall. intros c Hc. apply is_scalar_spec. specialize (Hl c Hc). lia.
Qed.

Lemma hexDigit_ascii n : 0 ≤ n ≤ 15 → 0 ≤ hexDigit n < 0x80.
Proof.
  intros Hn. pose proof (hexDigit_val n Hn) as Hv. unfold hex_val in Hv.
  repeat case_match; simplify_eq; rewrite in_range_spec in *; lia.
Qed.

Lemma valid_write_rune r : is_scalar r = true → valid_utf8 (write_rune r) = true.
Proof.
  intros Hr. pose proof Hr as Hb. rewrite is_scalar_spec in Hb. unfold write_rune.
  do 7 (case_match; [done|]). case_match; bprop.
  - apply valid_ascii. intros c. rewrite !elem_of_cons, elem_of_nil.
    assert (Z.shiftr r 4 = r / 16) as -> by apply (Z.shiftr_div_pow2 r 4 ltac:(lia)).
    assert (Z.land r 0xf = r mod 16) as -> by apply (Z.land_ones r 4 ltac:(lia)).
    pose proof (hexDigit_ascii (r / 16) ltac:(zdivmod)). pose proof (hexDigit_ascii (r mod 16) ltac:(zdivmod)).
    intros Hc. destruct_or?; subst; try done; lia.
  - assert (encode_rune r = encode [r]) as -> by by rewrite <- (app_nil_r (encode_rune r)).
    apply valid_encode. by constructor.
Qed.

(** Bytes the two checks accept wherever a value may stand. *)
Definition clean (b : bytes) : Prop := crosses false false b ∧ valid_utf8 b = true.

Lemma clean_app a b : clean a → clean b → clean (a ++ b).
Proof. intros [? ?] [? ?]. split; [by eapply crosses_app|by apply valid_utf8_app]. Qed.

Lemma clean_ascii l : (∀ c, c ∈ l → 0 ≤ c < 0x80 ∧ c ≠ 0x22) → clean l.
Proof. intros Hl. split; [apply crosses_outside_all|apply valid_ascii]; apply Hl. Qed.

Lemma clean_writeString s : valid_utf8 s = true → clean (writeString s).
Proof.
  intros Hs%runes_scalar. unfold writeString.
  assert (crosses true true (flat_map write_rune (runes s)) ∧ valid_utf8 (flat_map write_rune (runes s)) = true)
    as [Hc Hv].
  { induction Hs as [|r rs Hr Hs IH]; [split; [apply crosses_nil|done]|]. cbn [flat_map]. destruct IH.
    split; [eapply crosses_app; [by apply crosses_write_rune|done]|].
    apply valid_utf8_app; [by apply valid_write_rune|done]. }
  split.
  - apply (crosses_app false true false [0x22]); [apply crosses_quote|].
    eapply crosses_app; [exact Hc|apply crosses_quote].
  - apply (valid_utf8_app [0x22]); [done|]. by apply valid_utf8_app.
Qed.

Lemma clean_number s : intPattern s = true → clean s.
Proof.
  intros Hs. apply clean_ascii. assert (∀ ds, digits_pattern ds = true → ∀ c, c ∈ ds → 0x30 ≤ c ≤ 0x39) as Hd.
  { intros [|d ds] Hp c Hc; [done|]. simpl in Hp. apply elem_of_cons in Hc as [->|Hc].
    - case_match; bprop; [lia|]. rewrite in_range_spec in *. lia.
    - destruct (d =? 0x30); [destruct ds; [by apply not_elem_of_nil in Hc|done]|]. bprop. rewrite forallb_forall in *.
      apply in_range_spec. apply H0. by apply list_elem_of_In. }
  intros c Hc. destruct s as [|a ds]; [by apply not_elem_of_nil in Hc|]. unfold intPattern in Hs.
  destruct (a =? 0x2D) eqn:Ha; bprop.
  - apply elem_of_cons in Hc as [->|Hc]; [lia|]. specialize (Hd _ Hs _ Hc). lia.
  - specialize (Hd _ Hs _ Hc). lia.
Qed.

Lemma clean_write_all l first bs : (∀ p b, p ∈ l → p.2 = Ok b → clean (p.1 ++ b)) →
  write_all first l = Ok bs → clean bs.
Proof.
  revert first bs. induction l as [|[pre r] l IH]; intros first bs Hl Hw.
  - injection Hw as <-. split; [apply crosses_nil|done].
  - apply write_all_cons in Hw as (b & bs' & -> & Hbs & ->).
    apply clean_app; [destruct first; [split; [apply crosses_nil|done]|apply clean_ascii]|].
    { intros c ->%list_elem_of_singleton. done. }
    rewrite app_assoc. apply clean_app; [apply (Hl (pre, Ok b)); [by left|done]|].
    eapply IH; [|done]. intros p b' Hp. apply Hl. by right.
Qed.

Lemma clean_wrap o c r b : 0 ≤ o < 0x80 → 0 ≤ c < 0x80 → o ≠ 0x22 → c ≠ 0x22 → (∀ bs, r = Ok bs → clean bs) →
  wrap o c r = Ok b → clean b.
Proof.
  unfold wrap. intros Ho Hc Ho' Hc' Hr Hb. destruct r as [bs|]; simplify_eq.
  apply (clean_app [o]); [apply clean_ascii; intros ? ->%list_elem_of_singleton; auto|].
  apply clean_app; [by apply Hr|apply clean_ascii; intros ? ->%list_elem_of_singleton; auto].
Qed.

Lemma clean_check l : forallb (λ c, in_range 0 0x7F c && negb (c =? 0x22)) l = true → clean l.
Proof.
  intros Hl. apply clean_ascii. intros c Hc. rewrite forallb_forall in Hl.
  specialize (Hl c). rewrite <- list_elem_of_In in Hl. specialize (Hl Hc). bprop.
  rewrite in_range_spec in *. lia.
Qed.

Lemma clean_canonical v : ∀ b, wf v = true → canonicalize v = Ok b → clean b.
Proof.
  induction v as [|t|s|s|l IH|m IH] using value_deep_ind; intros b Hw Hc.
  - injection Hc as <-. by apply clean_check.
  - injection Hc as <-. by destruct t; apply clean_check.
  - cbn [canonicalize] in Hc. unfold write_number in Hc. repeat case_match; simplify_eq. bprop. by apply clean_number.
  - injection Hc as <-. by apply clean_writeString.
  - rewrite Forall_forall in IH. rewrite wf_array in Hw. cbn [canonicalize] in Hc.
    apply clean_wrap in Hc; [done..|]. intros bs. apply clean_write_all.
    intros p b' (x & -> & Hx)%elem_of_map_list Hb'. by apply (IH x Hx); [apply Hw|].
  - rewrite Forall_forall in IH. apply wf_object in Hw as [_ Hv]. rewrite canonicalize_object in Hc.
    apply clean_wrap in Hc; [done..|]. intros bs. apply clean_write_all.
    intros p b' (x & -> & Hx)%elem_of_map_list Hb'. rewrite sort_keys_perm in Hx. destruct (Hv x Hx).
    cbn [fst snd] in *. rewrite <- app_assoc. apply clean_app; [by apply clean_writeString|].
    apply (clean_app [0x3A]); [apply clean_ascii; by intros ? ->%list_elem_of_singleton|].
    by apply (IH x Hx).
Qed.

Lemma checkSurrogates_clean b : clean b → checkSurrogates b = Ok tt.
Proof.
  intros [Hc _]. unfold checkSurrogates. destruct (Hc [] (length b) 0%nat) as (j & f & _ & He);
    rewrite app_nil_r in *; [done|]. rewrite He. by destruct f.
Qed.

Lemma parse_strict_canonical v b : wf v = true → CanonicalValue v = Ok b → ParseStrict b = Ok (norm v).
Proof.
  intros Hw Hc. pose proof (clean_canonical v b Hw Hc) as Hb.
  unfold ParseStrict. rewrite (proj2 Hb). cbn [negb]. rewrite checkSurrogates_clean by done.
  unfold parseDocument. pose proof (parse_canonical v b (S (length b)) []) as Hp.
  rewrite app_nil_r in Hp. by rewrite Hp by (done || lia).
Qed.

Lemma canonical_same_iff v1 v2 b : wf v1 = true → wf v2 = true → CanonicalValue v1 = Ok b →
  (CanonicalValue v2 = Ok b ↔ same v1 v2).
Proof.
  intros H1 H2 Hc1. split.
  - intros Hc2. pose proof (parse_strict_canonical _ _ H1 Hc1) as Hp1.
    rewrite (parse_strict_canonical _ _ H2 Hc2) in Hp1. injection Hp1 as Hn.
    rewrite (same_norm v1), (same_norm v2). by rewrite Hn.
  - intros Hs. destruct (same_wf_norm _ _ Hs H1) as [_ Hn]. unfold CanonicalValue in *.
    by rewrite <- canonicalize_norm, <- Hn, canonicalize_norm.
Qed.

(** ** Lemmas: the parse consumes its input, so its fuel is enough *)

Lemma skip_ws_length d : (length (skip_ws d) ≤ length d)%nat.
Proof. induction d as [|c d IH]; simpl; [done|]. case_match; simpl; lia. Qed.

Lemma decode_rune_scalar s r n : decode_rune s = (r, n) → is_scalar r = true.
Proof.
  intros Hd. destruct ((r =? RuneError) && (n <=? 1)%nat) eqn:He; [bprop; by subst|].
  by destruct (decode_rune_inv _ _ _ Hd He).
Qed.

Lemma hex4_range d v : hex4 d = Some v → 0 ≤ v < 0x10000.
Proof.
  assert (∀ c x, hex_val c = Some x → 0 ≤ x < 16) as Hx.
  { unfold hex_val. intros c x Hc. repeat case_match; simplify_eq; rewrite in_range_spec in *; lia. }
  unfold hex4. intros Hd. repeat case_match; simplify_eq.
  repeat match goal with H : hex_val _ = Some _ |- _ => apply Hx in H end. lia.
Qed.

(** What one step of the string scanner does: end, fail, or read one scalar
    value and go on with a shorter rest, whatever the fuel left. *)
Lemma scan_string_step d :
  (∃ d', d = 0x22 :: d' ∧ ∀ n, scan_string (S n) d = Some ([], d')) ∨
  (∀ n, scan_string (S n) d = None) ∨
  (∃ r d', is_scalar r = true ∧ (length d' < length d)%nat ∧ ∀ n, scan_string (S n) d =
     match scan_string n d' with Some (s, d'') => Some (encode_rune r ++ s, d'') | None => None end).
Proof.
  destruct d as [|c d1]; [right; left; by intros [|]|]. cbn [scan_string].
  destruct (c =? 0x22) eqn:Hq; bprop; [left; subst; eauto|right].
  destruct (c <? 0x20); [by left|].
  destruct (c =? 0x5C).
  - destruct d1 as [|e d2]; [by left|].
    do 8 (case_match; [right; eexists _, d2; split_and!; [|simpl; lia|intros n; reflexivity]; done|]).
    case_match; [|by left]. destruct (hex4 d2) as [v|] eqn:Hv; [|by left].
    apply hex4_range in Hv. right. cbv zeta.
    assert (length (drop 4 d2) < length (c :: e :: d2))%nat as Hl by (rewrite length_drop; simpl; lia).
    destruct (is_high v) eqn:Hh; [|destruct (is_low v) eqn:Hlo].
    + unfold is_high in Hh. apply in_range_spec in Hh.
      destruct (drop 4 d2) as [|b [|u d4]]; try (eexists RuneError, _; split_and!; [done|exact Hl|intros n; reflexivity]).
      destruct (hex4 d4) as [lo|] eqn:Hlov; [|eexists RuneError, _; split_and!; [done|exact Hl|intros n; reflexivity]].
      destruct ((b =? 0x5C) && (u =? 0x75) && is_low lo)%bool eqn:Hp;
        [|eexists RuneError, _; split_and!; [done|exact Hl|intros n; reflexivity]].
      eexists _, (drop 4 d4). split_and!; [|rewrite length_drop; simpl in *; lia|intros n; reflexivity].
      bprop. unfold is_low in *. rewrite in_range_spec in *. apply is_scalar_spec. lia.
    + eexists RuneError, _. split_and!; [done|exact Hl|intros n; reflexivity].
    + eexists v, _. split_and!; [|exact Hl|intros n; reflexivity].
      unfold is_high, is_low in *. rewrite in_range_false in *. apply is_scalar_spec. lia.
  - right. destruct (decode_rune (c :: d1)) as [r k] eqn:Hd.
    eexists r, (drop k (c :: d1)). split_and!; [by eapply decode_rune_scalar| |intros n; reflexivity].
    rewrite length_drop. apply decode_rune_bounds in Hd; [simpl in *; lia|done].
Qed.

Lemma scan_string_spec n d s r : scan_string n d = Some (s, r) →
  valid_utf8 s = true ∧ (length r < length d)%nat.
Proof.
  revert d s. induction n as [|n IH]; intros d s Hs; [done|].
  destruct (scan_string_step d) as [(d' & -> & He)|[He|(x & d' & Hx & Hl & He)]]; rewrite He in Hs; clear He.
  - injection Hs as <- <-. split; [done|simpl; lia].
  - done.
  - destruct (scan_string n d') as [[s' r']|] eqn:Hs'; simplify_eq. destruct (IH _ _ Hs') as [Hv ?].
    split; [|lia]. apply valid_utf8_app; [|done].
    assert (encode_rune x = encode [x]) as -> by by rewrite <- (app_nil_r (encode_rune x)).
    apply valid_encode. by constructor.
Qed.

Lemma scan_string_fuel n m d : (length d ≤ n)%nat → (length d ≤ m)%nat → scan_string n d = scan_string m d.
Proof.
  revert m d. induction n as [|n IH]; intros m d Hn Hm.
  - destruct d; [|simpl in *; lia]. by destruct m.
  - destruct m as [|m]; [destruct d; [done|simpl in *; lia]|].
    destruct (scan_string_step d) as [(d' & -> & He)|[He|(x & d' & Hx & Hl & He)]]; rewrite !He; [done..|].
    by rewrite (IH m d') by lia.
Qed.

(** A parser of values that consumes its input and returns well-formed values. *)
Definition good_parser (pv : bytes → option (value * bytes)) : Prop :=
  ∀ d v r, pv d = Some (v, r) → wf v = true ∧ (length r < length d)%nat.

Lemma parse_elems_good pv n first d l r : good_parser pv → parse_elems pv n first d = Some (l, r) →
  wf (VArray l) = true ∧ (length r < length d)%nat.
Proof.
  intros Hpv. revert first d l. induction n as [|n IH]; intros first d l Hp; [done|].
  cbn [parse_elems] in Hp. pose proof (skip_ws_length d) as Hsk.
  destruct (skip_ws d) as [|c d']; [done|]. simpl in Hsk.
  destruct (c =? 0x5D); [simplify_eq; split; [done|lia]|].
  destruct (negb first && negb (c =? 0x2C))%bool; [done|].
  destruct (pv _) as [[v r1]|] eqn:Hv; [|done].
  destruct (parse_elems pv n false r1) as [[l' r2]|] eqn:Hl; simplify_eq.
  destruct (IH _ _ _ Hl) as [Hw ?]. apply Hpv in Hv as [Hwv Hlen].
  split; [simpl in *; by rewrite Hwv|]. destruct first; simpl in *; lia.
Qed.

Lemma parse_members_good pv n first keys d m r : good_parser pv →
  parse_members pv n first keys d = Some (m, r) →
  wf (VObject m) = true ∧ (∀ k, k ∈ keys → k ∉ map fst m) ∧ (length r < length d)%nat.
Proof.
  intros Hpv. revert first keys d m. induction n as [|n IH]; intros first keys d m Hp; [done|].
  cbn [parse_members] in Hp. pose proof (skip_ws_length d) as Hsk.
  destruct (skip_ws d) as [|c d']; [done|]. simpl in Hsk.
  destruct (c =? 0x7D); [simplify_eq; split_and!; [done|intros ? _; by apply not_elem_of_nil|lia]|].
  destruct (negb first && negb (c =? 0x2C))%bool; [done|].
  pose proof (skip_ws_length (if first then c :: d' else d')) as Hsk1.
  destruct (skip_ws (if first then c :: d' else d')) as [|q d1]; [done|].
  destruct (q =? 0x22); [|done]. cbn [negb] in Hp.
  destruct (scan_string (length d1) d1) as [[k d2]|] eqn:Hk; [|done].
  apply scan_string_spec in Hk as [Hkv Hk].
  destruct (decide (k ∈ keys)) as [|Hnk]; [by rewrite bool_decide_eq_true_2 in Hp|].
  rewrite bool_decide_eq_false_2 in Hp by done. pose proof (skip_ws_length d2) as Hsk2.
  destruct (skip_ws d2) as [|c2 d3]; [done|]. destruct (c2 =? 0x3A); [|done]. cbn [negb] in Hp.
  destruct (pv d3) as [[v r1]|] eqn:Hv; [|done].
  destruct (parse_members pv n false (k :: keys) r1) as [[m' r2]|] eqn:Hm; simplify_eq.
  destruct (IH _ _ _ _ Hm) as (Hw & Hd & ?). apply Hpv in Hv as [Hwv Hlen].
  split_and!.
  - rewrite wf_object in *. destruct Hw as [Hnd Hvs]. split.
    + cbn [map]. apply NoDup_cons. split; [apply Hd; by left|done].
    + intros p [->|Hp]%elem_of_cons; [done|by apply Hvs].
  - intros k' Hk'. cbn [map]. rewrite not_elem_of_cons. split; [set_solver|]. apply Hd. by right.
  - destruct first; simpl in *; lia.
Qed.

Lemma span_digits_length d s r : span_digits d = (s, r) → (length d = length s + length r)%nat.
Proof.
  revert s r. induction d as [|c d IH]; simpl; intros s r Hs; [by simplify_eq|].
  destruct (is_digit c); [|by simplify_eq]. destruct (span_digits d) as [s' r']. simplify_eq/=. by rewrite (IH s' r).
Qed.

Lemma scan_number_length d s r : scan_number d = Some (s, r) → (length r < length d)%nat.
Proof.
  assert (∀ d s r, scan_int d = Some (s, r) → (length r < length d)%nat) as Hi.
  { intros [|c d'] s' r' H; [done|]. unfold scan_int in H. destruct (c =? 0x30); [simplify_eq/=; lia|].
    destruct (in_range _ _ c); [|done]. destruct (span_digits d') eqn:Hd. simplify_eq/=.
    apply span_digits_length in Hd. lia. }
  assert (∀ d s r, scan_frac d = Some (s, r) → (length r ≤ length d)%nat) as Hf.
  { intros [|c d'] s' r' H; unfold scan_frac in H; [by simplify_eq|].
    destruct (c =? 0x2E); [|by simplify_eq]. destruct (span_digits d') as [[|x l] r0] eqn:Hd; [done|].
    simplify_eq. apply span_digits_length in Hd. simpl in *. lia. }
  assert (∀ d s r, scan_exp d = Some (s, r) → (length r ≤ length d)%nat) as He.
  { intros [|c d'] s' r' H; unfold scan_exp in H; [by simplify_eq|].
    destruct ((c =? 0x65) || (c =? 0x45))%bool; [|by simplify_eq].
    destruct d' as [|x d']; [|destruct ((x =? 0x2B) || (x =? 0x2D))%bool];
      (destruct (span_digits _) as [[|y l] r0] eqn:Hd in H; [done|]);
      simplify_eq; apply span_digits_length in Hd; simpl in *; lia. }
  unfold scan_number. intros Hn. destruct d as [|c d']; [done|].
  destruct (c =? 0x2D);
  (destruct (scan_int _) as [[i d1]|] eqn:H1; [|done]; destruct (scan_frac d1) as [[f d2]|] eqn:H2; [|done];
   destruct (scan_exp d2) as [[e d3]|] eqn:H3; [|done]; simplify_eq;
   apply Hi in H1; apply Hf in H2; apply He in H3; simpl in *; lia).
Qed.

Lemma scan_lit_length w d r : scan_lit w d = Some r → (length d = length w + length r)%nat.
Proof.
  revert d. induction w as [|x w IH]; intros d Hs; [by simplify_eq/=|].
  destruct d as [|c d]; [done|]. simpl in Hs. destruct (c =? x); [|done]. simpl. by rewrite (IH d).
Qed.

Lemma parseValue_good n : good_parser (parseValue n).
Proof.
  induction n as [|n IH]; intros d v r Hp; [done|]. cbn [parseValue] in Hp.
  pose proof (skip_ws_length d) as Hsk. destruct (skip_ws d) as [|c d1]; [done|]. simpl in Hsk.
  repeat (case_match; simplify_eq); try match goal with
  | H : parse_elems _ _ _ _ = Some _ |- _ => apply parse_elems_good in H as [? ?]; [|done]
  | H : parse_members _ _ _ _ _ = Some _ |- _ => apply parse_members_good in H as (? & ? & ?); [|done]
  | H : scan_string _ _ = Some _ |- _ => apply scan_string_spec in H as [? ?]
  | H : scan_lit _ _ = Some _ |- _ => apply scan_lit_length in H; simpl in H
  | H : scan_number _ = Some _ |- _ => apply scan_number_length in H; simpl in H
  end; split; try done; try lia.
Qed.

Lemma parse_elems_fuel pv pv' n m first d : good_parser pv →
  (∀ d', (length d' ≤ length d)%nat → pv d' = pv' d') → (length d ≤ n)%nat → (length d ≤ m)%nat →
  parse_elems pv n first d = parse_elems pv' m first d.
Proof.
  intros Hpv. revert m first d. induction n as [|n IH]; intros m first d Heq Hn Hm.
  { destruct d; [|simpl in *; lia]. by destruct m. }
  destruct m as [|m]; [by destruct d; [|simpl in *; lia]|].
  cbn [parse_elems]. pose proof (skip_ws_length d) as Hsk.
  destruct (skip_ws d) as [|c d']; [done|]. simpl in Hsk.
  destruct (c =? 0x5D); [done|]. destruct (negb first && negb (c =? 0x2C))%bool; [done|].
  rewrite <- Heq by (destruct first; simpl; lia).
  destruct (pv _) as [[v r]|] eqn:Hv; [|done]. apply Hpv in Hv as [_ Hl].
  assert (length r < length d)%nat by (destruct first; simpl in *; lia).
  rewrite (IH m false r); [done|intros; apply Heq; lia|lia|lia].
Qed.

Lemma parse_members_fuel pv pv' n m first keys d : good_parser pv →
  (∀ d', (length d' ≤ length d)%nat → pv d' = pv' d') → (length d ≤ n)%nat → (length d ≤ m)%nat →
  parse_members pv n first keys d = parse_members pv' m first keys d.
Proof.
  intros Hpv. revert m first keys d. induction n as [|n IH]; intros m first keys d Heq Hn Hm.
  { destruct d; [|simpl in *; lia]. by destruct m. }
  destruct m as [|m]; [by destruct d; [|simpl in *; lia]|].
  cbn [parse_members]. pose proof (skip_ws_length d) as Hsk.
  destruct (skip_ws d) as [|c d']; [done|]. simpl in Hsk.
  destruct (c =? 0x7D); [done|]. destruct (negb first && negb (c =? 0x2C))%bool; [done|].
  pose proof (skip_ws_length (if first then c :: d' else d')) as Hsk1.
  destruct (skip_ws (if first then c :: d' else d')) as [|q d1]; [done|].
  destruct (negb (q =? 0x22)); [done|].
  destruct (scan_string (length d1) d1) as [[k d2]|] eqn:Hk; [|done].
  apply scan_string_spec in Hk as [_ Hk]. case_bool_decide; [done|].
  pose proof (skip_ws_length d2) as Hsk2. destruct (skip_ws d2) as [|c2 d3]; [done|].
  destruct (negb (c2 =? 0x3A)); [done|].
  assert (length d3 < length d)%nat by (destruct first; simpl in *; lia).
  rewrite <- Heq by lia. destruct (pv d3) as [[v r]|] eqn:Hv; [|done]. apply Hpv in Hv as [_ Hl].
  rewrite (IH m false (k :: keys) r); [done|intros; apply Heq; lia|lia|lia].
Qed.

Lemma parseValue_fuel n m d : (length d < n)%nat → (length d < m)%nat → parseValue n d = parseValue m d.
Proof.
  revert m d. induction n as [|n IH]; intros m d Hn Hm; [lia|]. destruct m as [|m]; [lia|].
  cbn [parseValue]. pose proof (skip_ws_length d) as Hsk. destruct (skip_ws d) as [|c d1]; [done|]. simpl in Hsk.
  destruct (c =? 0x5B); [|destruct (c =? 0x7B); [|done]].
  - rewrite (parse_elems_fuel _ (parseValue m) n m); [done|apply parseValue_good|intros; apply IH; lia|lia|lia].
  - rewrite (parse_members_fuel _ (parseValue m) n m); [done|apply parseValue_good|intros; apply IH; lia|lia|lia].
Qed.

(** ** What the strict parse and the canonical form promise *)

(** The strict parse always ends with an answer: the length of the document
    bounds the recursion, and any larger bound gives the same result. *)
Theorem parse_document_fuel n d : (length d < n)%nat →
  parseDocument d = match parseValue n d with
                    | None => Err InvalidJSON
                    | Some (v, r) => match skip_ws r with [] => Ok v | _ => Err TrailingData end
                    end.
Proof. intros Hn. unfold parseDocument. by rewrite (parseValue_fuel _ n) by lia. Qed.

Lemma parse_strict_wf d v : ParseStrict d = Ok v → wf v = true.
Proof.
  unfold ParseStrict, parseDocument. intros Hp. repeat case_match; simplify_eq.
  match goal with H : parseValue _ _ = Some _ |- _ => by apply parseValue_good in H as [? _] end.
Qed.

(** C36: A value that ParseStrict returns and that CanonicalValue accepts (it
    refuses a number that is no integer literal, is -0, or reaches 2^53) has
    canonical bytes that parse back to it up to the order of object members,
    and canonicalising what they parse to gives the same bytes again. *)
Theorem canonical_roundtrip d v b : ParseStrict d = Ok v → CanonicalValue v = Ok b →
  ∃ v', ParseStrict b = Ok v' ∧ same v v' ∧ wf v' = true ∧ CanonicalValue v' = Ok b.
Proof.
  intros Hw%parse_strict_wf Hc. exists (norm v).
  split_and!; [by apply parse_strict_canonical|apply same_norm|by apply wf_norm|].
  unfold CanonicalValue in *. by rewrite canonicalize_norm.
Qed.

(** C34: Two parsed values have the same canonical bytes exactly when they are the
    same JSON value: what is signed determines the value, and the order of the
    members a sender chose does not change the signature. *)
Theorem canonical_iff_same d1 d2 v1 v2 b : ParseStrict d1 = Ok v1 → ParseStrict d2 = Ok v2 →
  CanonicalValue v1 = Ok b → (CanonicalValue v2 = Ok b ↔ same v1 v2).
Proof. intros H1%parse_strict_wf H2%parse_strict_wf Hc. by apply canonical_same_iff. Qed.

(** ** Examples *)

Definition demo_doc : bytes := jq "{ 'b' : [1, true , null], 'a':'x\u0041' }".
Definition demo_reordered : bytes := jq "{'a':'xA','b':[1,true,null]}".
Definition demo_value : value :=
  VObject [(bytes_of "b", VArray [VNumber (bytes_of "1"); VBool true; VNull]); (bytes_of "a", VString (bytes_of "xA"))].

Lemma parse_document_fuel_witness : (length demo_doc < 60)%nat ∧
  parseDocument demo_doc = match parseValue 60 demo_doc with
                           | None => Err InvalidJSON
                           | Some (v, r) => match skip_ws r with [] => Ok v | _ => Err TrailingData end
                           end.
Proof. split; [vm_compute; lia|apply (parse_document_fuel 60 demo_doc); vm_compute; lia]. Defined.

Lemma canonical_roundtrip_witness : CanonicalValue demo_value = Ok demo_reordered ∧
  ∃ v', ParseStrict demo_reordered = Ok v' ∧ same demo_value v'.
Proof.
  split; [reflexivity|].
  destruct (canonical_roundtrip demo_doc demo_value demo_reordered ltac:(reflexivity) ltac:(reflexivity)) as (v' & H1 & H2 & _).
  exists v'. split; [exact H1|exact H2].
Defined.

Lemma canonical_iff_same_witness : same demo_value (VObject [(bytes_of "a", VString (bytes_of "xA"));
  (bytes_of "b", VArray [VNumber (bytes_of "1"); VBool true; VNull])]).
Proof.
  apply (canonical_iff_same demo_doc demo_reordered demo_value _ demo_reordered); reflexivity.
Defined.
