(* ===== verification/StrictParse.v ===== *)
(** * What ParseStrict accepts (internal/agentcard/canonical.go)

    The lexical structure of a JSON text is specified here on its own, by an
    automaton that knows only quotes and backslashes: where a string is open
    and where an escape stands. Against it: in a document that ParseStrict
    accepts every surrogate escape belongs to a pair. *)

From S2P Require Import Prelude Utf8 Canonical.

Open Scope Z_scope.

(** ** The lexical specification *)

Inductive lexing := Outside | Inside | Escaped.
Definition lex_step (st : lexing) (c : Z) : lexing :=
  match st with
  | Outside => if c =? 0x22 then Inside else Outside
  | Inside => if c =? 0x22 then Outside else if c =? 0x5C then Escaped else Inside
  | Escaped => Inside
  end.
(** The state after the bytes [pre] of a document. *)
Definition lexes (pre : bytes) : lexing := fold_left lex_step pre Outside.

(** In the document [d] the escape [\uXXXX], with the digits [h], stands
    between [pre] and [rest]. *)
Definition unit_at (d pre h rest : bytes) : Prop :=
  d = pre ++ 0x5C :: 0x75 :: h ++ rest ∧ length h = 4%nat ∧ lexes pre = Inside.
Definition high (h : bytes) : Prop := ∃ v, hex4 h = Some v ∧ 0xD800 ≤ v ≤ 0xDBFF.
Definition low (h : bytes) : Prop := ∃ v, hex4 h = Some v ∧ 0xDC00 ≤ v ≤ 0xDFFF.

(** Every high surrogate escape is followed by a low one, and every low one
    follows a high one. *)
Definition no_lone_surrogate (d : bytes) : Prop := ∀ pre h rest, unit_at d pre h rest →
  (high h → ∃ lo rest', unit_at d (pre ++ 0x5C :: 0x75 :: h) lo rest' ∧ low lo) ∧
  (low h → ∃ pre' hi, pre = pre' ++ 0x5C :: 0x75 :: hi ∧ unit_at d pre' hi (0x5C :: 0x75 :: h ++ rest) ∧ high hi).
(** Every [\u] of a string has its four digits. *)
Definition escapes_complete (d : bytes) : Prop := ∀ pre rest,
  d = pre ++ 0x5C :: 0x75 :: rest → lexes pre = Inside → is_Some (hex4 rest).

(** ** The parser only accepts complete escapes *)

Definition fine (st : lexing) (d : bytes) : Prop := ∀ pre rest,
  d = pre ++ 0x5C :: 0x75 :: rest → fold_left lex_step pre st = Inside → is_Some (hex4 rest).

Lemma fine_nil st : fine st [].
Proof. intros [|] ?; discriminate. Qed.
Lemma fine_cons st c d : fine (lex_step st c) d → (st = Inside → c = 0x5C → ∀ r, d = 0x75 :: r → is_Some (hex4 r)) → fine st (c :: d).
Proof.
  intros Hd Hc [|x pre] rest E Hst; injection E as E1 E2; [by eapply Hc|]. subst x. by apply (Hd pre rest).
Qed.
Lemma fine_out c d : c ≠ 0x22 → fine Outside d → fine Outside (c :: d).
Proof. intros Hc Hd. apply fine_cons; [|done]. cbn. by apply Z.eqb_neq in Hc as ->. Qed.
Lemma fine_open d : fine Inside d → fine Outside (0x22 :: d).
Proof. intros Hd. by apply fine_cons. Qed.
Lemma fine_close d : fine Outside d → fine Inside (0x22 :: d).
Proof. intros Hd. by apply fine_cons. Qed.
Lemma fine_plain c d : c ≠ 0x22 → c ≠ 0x5C → fine Inside d → fine Inside (c :: d).
Proof. intros Hq Hb Hd. apply fine_cons; [|done]. cbn. apply Z.eqb_neq in Hq as ->. by apply Z.eqb_neq in Hb as ->. Qed.
Lemma fine_escape e d : (e = 0x75 → is_Some (hex4 d)) → fine Inside d → fine Inside (0x5C :: e :: d).
Proof.
  intros He Hd. apply fine_cons; [|intros _ _ r [= -> ->]; by apply He]. by apply fine_cons.
Qed.
Lemma hex_plain c x : hex_val c = Some x → c ≠ 0x22 ∧ c ≠ 0x5C.
Proof. unfold hex_val. intros Hc. split; intros ->; discriminate. Qed.
Lemma hex4_cases d v : hex4 d = Some v → ∃ a b c e r, d = a :: b :: c :: e :: r ∧ is_Some (hex_val a) ∧ is_Some (hex_val b) ∧ is_Some (hex_val c) ∧ is_Some (hex_val e).
Proof.
  unfold hex4. destruct d as [|a [|b [|c [|e r]]]]; try done. intros Hd. exists a, b, c, e, r.
  destruct (hex_val a), (hex_val b), (hex_val c), (hex_val e); (discriminate || eauto 12).
Qed.
Lemma fine_hex d v : hex4 d = Some v → fine Inside (drop 4 d) → fine Inside d.
Proof.
  intros (a & b & c & e & r & -> & [? Ha] & [? Hb] & [? Hc] & [? He])%hex4_cases Hr. cbn in Hr.
  apply hex_plain in Ha as [], Hb as [], Hc as [], He as []. by repeat apply fine_plain.
Qed.
Lemma fine_high d : Forall (λ c, 0x80 ≤ c) d → ∀ r, fine Inside r → fine Inside (d ++ r).
Proof. induction 1 as [|c d Hc _ IH]; intros r Hr; [done|]. apply fine_plain; [lia..|]. by apply IH. Qed.
Lemma decode_high c d r n : decode_rune (c :: d) = (r, n) → n = 1%nat ∨ Forall (λ c, 0x80 ≤ c) (take n (c :: d)).
Proof.
  unfold decode_rune. destruct (in_range 0 0x7F c) eqn:H0; [intros [= _ <-]; by left|]. intros Hd.
  repeat case_match; simplify_eq; try (by left); right; bprop; unfold cont in *; rewrite ?in_range_spec in *; cbn [take];
    repeat match goal with |- Forall _ (_ :: _) => constructor end; try done; try lia; repeat case_match; lia.
Qed.
Lemma fine_rune c d r n : c ≠ 0x22 → c ≠ 0x5C → decode_rune (c :: d) = (r, n) → fine Inside (drop n (c :: d)) → fine Inside (c :: d).
Proof.
  intros Hq Hb Hd Hr. destruct (decode_high _ _ _ _ Hd) as [->|Hh]; [by apply fine_plain|].
  rewrite <- (take_drop n (c :: d)). by apply fine_high.
Qed.

Lemma scan_string_fine n d s r : scan_string n d = Some (s, r) → fine Outside r → fine Inside d.
Proof.
  revert d s. induction n as [|n IH]; intros d s Hs Hr; [done|]. destruct d as [|c d1]; [done|]. cbn [scan_string] in Hs.
  assert (∀ x rest, match scan_string n rest with Some (s0, d') => Some (encode_rune x ++ s0, d') | None => None end = Some (s, r) → fine Inside rest) as He.
  { intros x rest. destruct (scan_string n rest) as [[s0 d']|] eqn:E; [|done]. intros [= _ ->]. by apply (IH rest s0). }
  destruct (c =? 0x22) eqn:Hq; bprop; [injection Hs as <- <-; subst; by apply fine_close|]. destruct (c <? 0x20); [done|].
  destruct (c =? 0x5C) eqn:Hb; bprop; subst.
  - destruct d1 as [|e d2]; [done|].
    do 8 (destruct (e =? _) eqn:?; [bprop; subst; apply fine_escape; [done|by eapply He]|]; bprop). destruct (e =? 0x75) eqn:Hu; [|done]. bprop. subst.
    destruct (hex4 d2) as [v|] eqn:Hv; [|done]. apply fine_escape; [by eexists|]. eapply fine_hex; [exact Hv|]. cbv zeta in Hs.
    destruct (is_high v); [|destruct (is_low v); by eapply He].
    destruct (drop 4 d2) as [|b [|u d4]]; try (by eapply He). destruct (hex4 d4) as [lo|] eqn:Hlo; [|by eapply He].
    destruct ((b =? 0x5C) && (u =? 0x75) && is_low lo)%bool eqn:Hp; [|by eapply He]. bprop. subst.
    apply fine_escape; [by eexists|]. eapply fine_hex; [exact Hlo|by eapply He].
  - destruct (decode_rune (c :: d1)) as [x k] eqn:Hd. eapply fine_rune; [done|done|exact Hd|by eapply He].
Qed.
Lemma skip_ws_fine d : fine Outside (skip_ws d) → fine Outside d.
Proof.
  induction d as [|c d IH]; [done|]. cbn. destruct (is_ws c) eqn:Hc; [|done]. intros Hd. apply fine_out; [|by apply IH].
  intros ->. discriminate.
Qed.
Lemma span_digits_fine d s r : span_digits d = (s, r) → fine Outside r → fine Outside d.
Proof.
  revert s r. induction d as [|c d IH]; intros s r; cbn; [by intros [= _ <-]|]. destruct (is_digit c) eqn:Hc; [|by intros [= _ <-]].
  destruct (span_digits d) as [s' r'] eqn:E. intros [= _ <-] Hr. apply fine_out; [intros ->; discriminate|by eapply IH].
Qed.
Lemma scan_lit_fine w d r : 0x22 ∉ w → scan_lit w d = Some r → fine Outside r → fine Outside d.
Proof.
  revert d. induction w as [|x w IH]; intros d Hw; cbn; [by intros [= ->]|]. destruct d as [|c d]; [done|].
  destruct (c =? x) eqn:E; [|done]. bprop. subst. intros Hs Hr. rewrite not_elem_of_cons in Hw. apply fine_out; [naive_solver|]. apply IH; tauto.
Qed.
Lemma scan_int_fine d s r : scan_int d = Some (s, r) → fine Outside r → fine Outside d.
Proof.
  unfold scan_int. destruct d as [|c d]; [done|]. destruct (c =? 0x30) eqn:E0; [intros [= _ <-] Hr; apply fine_out; [lia|done]|].
  destruct (in_range _ _ c) eqn:E; [|done]. apply in_range_spec in E. destruct (span_digits d) eqn:Ed. intros [= _ <-] Hr.
  apply fine_out; [lia|by eapply span_digits_fine].
Qed.
Lemma scan_frac_fine d s r : scan_frac d = Some (s, r) → fine Outside r → fine Outside d.
Proof.
  unfold scan_frac. destruct d as [|c d]; [by intros [= _ <-]|]. destruct (c =? 0x2E) eqn:E; [|by intros [= _ <-]].
  destruct (span_digits d) as [[|x l] r0] eqn:Ed; [done|]. intros [= _ <-] Hr. apply fine_out; [lia|by eapply span_digits_fine].
Qed.
Lemma scan_exp_fine d s r : scan_exp d = Some (s, r) → fine Outside r → fine Outside d.
Proof.
  unfold scan_exp. destruct d as [|c d]; [by intros [= _ <-]|]. destruct (_ || _)%bool eqn:E; [|by intros [= _ <-]].
  assert (c ≠ 0x22) as Hc by (intros ->; discriminate).
  destruct d as [|x d]; [done|]. destruct ((x =? 0x2B) || (x =? 0x2D))%bool eqn:Ex;
    (destruct (span_digits _) as [[|y l] r0] eqn:Ed; [done|]); intros [= _ <-] Hr; (apply fine_out; [done|]).
  - apply fine_out; [intros ->; discriminate|by eapply span_digits_fine].
  - by eapply span_digits_fine.
Qed.
Lemma scan_number_fine d s r : scan_number d = Some (s, r) → fine Outside r → fine Outside d.
Proof.
  unfold scan_number. destruct d as [|c d]; [done|]. destruct (c =? 0x2D) eqn:E; intros Hn Hr;
    (destruct (scan_int _) as [[i d1]|] eqn:H1; [|done]; destruct (scan_frac d1) as [[f d2]|] eqn:H2; [|done];
     destruct (scan_exp d2) as [[e d3]|] eqn:H3; [|done]; injection Hn as _ <-);
    [apply fine_out; [lia|]|]; eapply scan_int_fine, scan_frac_fine, scan_exp_fine; eassumption.
Qed.

Definition fine_parser (pv : bytes → option (value * bytes)) : Prop := ∀ d v r, pv d = Some (v, r) → fine Outside r → fine Outside d.
Lemma parse_elems_fine pv n first d l r : fine_parser pv → parse_elems pv n first d = Some (l, r) → fine Outside r → fine Outside d.
Proof.
  intros Hpv. revert first d l. induction n as [|n IH]; intros first d l Hp Hr; [done|]. cbn [parse_elems] in Hp. apply skip_ws_fine.
  destruct (skip_ws d) as [|c d']; [done|]. destruct (c =? 0x5D) eqn:E; [injection Hp as <- <-; apply fine_out; [lia|done]|].
  destruct (negb first && negb (c =? 0x2C))%bool eqn:Ef; [done|]. destruct (pv _) as [[v r1]|] eqn:Hv; [|done].
  destruct (parse_elems pv n false r1) as [[l' r2]|] eqn:Hl; [|done]. injection Hp as <- <-. pose proof (Hpv _ _ _ Hv (IH _ _ _ Hl Hr)) as Hd.
  destruct first; [done|]. cbn in Ef. apply negb_false_iff in Ef. apply fine_out; [lia|done].
Qed.
Lemma parse_members_fine pv n first keys d m r : fine_parser pv → parse_members pv n first keys d = Some (m, r) → fine Outside r → fine Outside d.
Proof.
  intros Hpv. revert first keys d m. induction n as [|n IH]; intros first keys d m Hp Hr; [done|]. cbn [parse_members] in Hp. apply skip_ws_fine.
  destruct (skip_ws d) as [|c d']; [done|]. destruct (c =? 0x7D) eqn:E; [injection Hp as <- <-; apply fine_out; [lia|done]|].
  destruct (negb first && negb (c =? 0x2C))%bool eqn:Ef; [done|].
  assert (fine Outside (if first then c :: d' else d') → fine Outside (c :: d')) as Hc.
  { destruct first; [done|]. cbn in Ef. apply negb_false_iff in Ef. apply fine_out. lia. }
  apply Hc, skip_ws_fine. destruct (skip_ws (if first then c :: d' else d')) as [|q d1]; [done|].
  destruct (q =? 0x22) eqn:Hq; [|done]. apply Z.eqb_eq in Hq as ->. cbn [negb] in Hp. apply fine_open.
  destruct (scan_string (length d1) d1) as [[k d2]|] eqn:Hk; [|done]. eapply scan_string_fine; [exact Hk|]. case_bool_decide; [done|]. apply skip_ws_fine.
  destruct (skip_ws d2) as [|c2 d3]; [done|]. destruct (c2 =? 0x3A) eqn:Hc2; [|done]. cbn [negb] in Hp. apply fine_out; [lia|].
  destruct (pv d3) as [[v r1]|] eqn:Hv; [|done]. destruct (parse_members pv n false (k :: keys) r1) as [[m' r2]|] eqn:Hm; [|done].
  injection Hp as <- <-. eapply Hpv; [exact Hv|by eapply IH].
Qed.
Lemma parseValue_fine n : fine_parser (parseValue n).
Proof.
  induction n as [|n IH]; intros d v r Hp Hr; [done|]. cbn [parseValue] in Hp. apply skip_ws_fine.
  destruct (skip_ws d) as [|c d1]; [done|].
  repeat (case_match; simplify_eq; try discriminate);
    match goal with
    | H : parse_elems _ _ _ _ = Some _ |- _ => pose proof (parse_elems_fine _ _ _ _ _ _ IH H Hr); apply fine_out; [lia|done]
    | H : parse_members _ _ _ _ _ = Some _ |- _ => pose proof (parse_members_fine _ _ _ _ _ _ _ IH H Hr); apply fine_out; [lia|done]
    | H : scan_string _ _ = Some _ |- _ => pose proof (scan_string_fine _ _ _ _ H Hr); bprop; subst; by apply fine_open
    | H : scan_lit _ _ = Some _ |- _ => refine (scan_lit_fine _ _ _ _ H Hr); apply (bool_decide_unpack _); vm_compute; reflexivity
    | H : scan_number _ = Some _ |- _ => exact (scan_number_fine _ _ _ H Hr)
    end.
Qed.
Lemma parse_complete d v : parseDocument d = Ok v → escapes_complete d.
Proof.
  unfold parseDocument. destruct (parseValue _ d) as [[x r]|] eqn:Hp; [|done]. destruct (skip_ws r) eqn:Hr; [|done]. intros _.
  apply (parseValue_fine _ _ _ _ Hp), skip_ws_fine. rewrite Hr. apply fine_nil.
Qed.

(** ** The surrogate check only passes pairs *)

Definition state (inString : bool) : lexing := if inString then Inside else Outside.
(** The pairs of [d], read from the state [st]. *)
Definition pairs (st : lexing) (d : bytes) : Prop := ∀ pre h rest,
  d = pre ++ 0x5C :: 0x75 :: h ++ rest → length h = 4%nat → fold_left lex_step pre st = Inside →
  (high h → ∃ lo rest', rest = 0x5C :: 0x75 :: lo ++ rest' ∧ length lo = 4%nat ∧ low lo) ∧
  (low h → ∃ pre' hi, pre = pre' ++ 0x5C :: 0x75 :: hi ∧ length hi = 4%nat ∧ high hi ∧ fold_left lex_step pre' st = Inside).

Lemma step_digit c : is_Some (hex_val c) → lex_step Inside c = Inside.
Proof. intros [x Hx]. apply hex_plain in Hx as [Hq Hb]. cbn. apply Z.eqb_neq in Hq as ->. by apply Z.eqb_neq in Hb as ->. Qed.
Lemma fold_digits h v pre : hex4 h = Some v → length h = 4%nat → fold_left lex_step (h ++ pre) Inside = fold_left lex_step pre Inside.
Proof.
  intros (a & b & c & e & r & -> & Ha & Hb & Hc & He)%hex4_cases Hl. destruct r; [|done].
  cbn [app fold_left]. by rewrite (step_digit a Ha), (step_digit b Hb), (step_digit c Hc), (step_digit e He).
Qed.
Lemma hex4_take d v : hex4 d = Some v → ∃ h, d = h ++ drop 4 d ∧ length h = 4%nat ∧ hex4 h = Some v.
Proof.
  intros Hv. pose proof Hv as (a & b & c & e & r & -> & _)%hex4_cases. exists [a; b; c; e]. done.
Qed.
Lemma hex4_app h r : length h = 4%nat → hex4 (h ++ r) = hex4 h.
Proof. by destruct h as [|? [|? [|? [|? [|]]]]]. Qed.

(** Where an escape can stand after four digits: behind them. *)
Lemma behind_digits h0 v d pre x : hex4 h0 = Some v → length h0 = 4%nat → h0 ++ d = pre ++ 0x5C :: x →
  ∃ pre', pre = h0 ++ pre' ∧ d = pre' ++ 0x5C :: x.
Proof.
  intros (a & b & c & e & r & -> & [? Ha] & [? Hb] & [? Hc] & [? He])%hex4_cases Hl E. destruct r; [|done].
  apply hex_plain in Ha as [_ Ha], Hb as [_ Hb], Hc as [_ Hc], He as [_ He]. cbn in E.
  destruct pre as [|? [|? [|? [|? pre]]]]; cbn in E; injection E; intros; subst; try done. by exists pre.
Qed.
(** An escaped pair: the escape behind it, or the one it is. *)
Lemma pairs_skip st c d : pairs (lex_step st c) d → (st = Inside → c ≠ 0x5C) → pairs st (c :: d).
Proof.
  intros Hd Hc [|x pre] h rest E Hh Hst; injection E as E1 E2.
  - by destruct (Hc Hst).
  - subst x. destruct (Hd pre h rest E2 Hh Hst) as [H1 H2]. split; [done|]. intros Hl. destruct (H2 Hl) as (p & hi & -> & ? & ? & ?).
    by exists (c :: p), hi.
Qed.
Lemma pairs_escape e d : e ≠ 0x75 → pairs Inside d → pairs Inside (0x5C :: e :: d).
Proof.
  intros He Hd [|x [|y pre]] h rest E Hh Hst; [by injection E|injection E as <- _; discriminate|]. injection E as <- <- E.
  destruct (Hd pre h rest E Hh Hst) as [H1 H2]. split; [done|]. intros Hl. destruct (H2 Hl) as (p & hi & -> & ? & ? & ?).
  by exists (0x5C :: e :: p), hi.
Qed.
(** Where an escape stands: it is the first one, or behind it. *)
Lemma first_or_behind h0 v d pre h rest : hex4 h0 = Some v → length h0 = 4%nat → length h = 4%nat →
  0x5C :: 0x75 :: h0 ++ d = pre ++ 0x5C :: 0x75 :: h ++ rest → fold_left lex_step pre Inside = Inside →
  (pre = [] ∧ h = h0 ∧ rest = d) ∨
  ∃ pre', pre = 0x5C :: 0x75 :: h0 ++ pre' ∧ d = pre' ++ 0x5C :: 0x75 :: h ++ rest ∧ fold_left lex_step pre' Inside = Inside.
Proof.
  intros Hv Hh0 Hh E Hst. destruct pre as [|x [|y pre]]; [| |].
  - left. injection E as E. apply app_inj_1 in E as [-> ->]; [done|lia].
  - injection E as <- E. discriminate.
  - injection E as <- <- E. destruct (behind_digits _ _ _ _ _ Hv Hh0 E) as (p & -> & E'). right. exists p. split_and!; [done|done|].
    cbn in Hst. by rewrite (fold_digits _ _ _ Hv Hh0) in Hst.
Qed.
Lemma pairs_unit h0 v d : hex4 h0 = Some v → length h0 = 4%nat → is_high v = false → is_low v = false → pairs Inside d → pairs Inside (0x5C :: 0x75 :: h0 ++ d).
Proof.
  intros Hv Hl Hhi Hlo Hd pre h rest E Hh Hst. unfold is_high, is_low in *. rewrite in_range_false in *.
  destruct (first_or_behind _ _ _ _ _ _ Hv Hl Hh E Hst) as [(-> & -> & ->)|(p & -> & E' & Hp)].
  - split; intros (w & Hw & ?); rewrite Hv in Hw; injection Hw as <-; lia.
  - destruct (Hd p h rest E' Hh Hp) as [H1 H2]. split; [done|]. intros (q & hi & -> & ? & ? & ?)%H2. exists (0x5C :: 0x75 :: h0 ++ q), hi.
    split_and!; [by rewrite <- !app_comm_cons, <- app_assoc|done|done|]. cbn. by rewrite (fold_digits _ _ _ Hv Hl).
Qed.
Lemma pairs_pair h0 v h1 w d : hex4 h0 = Some v → length h0 = 4%nat → is_high v = true → hex4 h1 = Some w → length h1 = 4%nat → is_low w = true →
  pairs Inside d → pairs Inside (0x5C :: 0x75 :: h0 ++ 0x5C :: 0x75 :: h1 ++ d).
Proof.
  intros Hv Hl Hhi Hw Hl1 Hlo Hd pre h rest E Hh Hst. unfold is_high, is_low in *. rewrite in_range_spec in *.
  destruct (first_or_behind _ _ _ _ _ _ Hv Hl Hh E Hst) as [(-> & -> & ->)|(p & -> & E' & Hp)].
  { split; [intros _; exists h1, d; split_and!; [done|done|by exists w]|]. intros (x & Hx & ?). rewrite Hv in Hx. injection Hx as <-. lia. }
  destruct (first_or_behind _ _ _ _ _ _ Hw Hl1 Hh E' Hp) as [(-> & -> & ->)|(q & -> & E'' & Hq)].
  { split; [intros (x & Hx & ?); rewrite Hw in Hx; injection Hx as <-; lia|]. intros _. exists [], h0. rewrite app_nil_r. split_and!; [done|done|by exists v|done]. }
  destruct (Hd q h rest E'' Hh Hq) as [H1 H2]. split; [done|]. intros (p & hi & -> & ? & ? & ?)%H2.
  exists (0x5C :: 0x75 :: h0 ++ 0x5C :: 0x75 :: h1 ++ p), hi. split_and!; [|done|done|].
  - rewrite <- !app_comm_cons, <- app_assoc, <- !app_comm_cons, <- app_assoc. done.
  - cbn. rewrite (fold_digits _ _ _ Hv Hl). cbn. by rewrite (fold_digits _ _ _ Hw Hl1).
Qed.
Lemma fine_tail st c d : fine st (c :: d) → fine (lex_step st c) d.
Proof. intros Hd pre rest E Hst. apply (Hd (c :: pre) rest); [by rewrite E|done]. Qed.
Lemma fine_digits h0 v d : hex4 h0 = Some v → length h0 = 4%nat → fine Inside (0x5C :: 0x75 :: h0 ++ d) → fine Inside d.
Proof.
  intros Hv Hl Hd pre rest E Hst. apply (Hd (0x5C :: 0x75 :: h0 ++ pre) rest); [by rewrite E, <- !app_comm_cons, <- app_assoc|].
  cbn. by rewrite (fold_digits _ _ _ Hv Hl).
Qed.

Lemma check_pairs fuel i inS d : (length d ≤ fuel)%nat → fine (state inS) d → check_from fuel i inS d = Ok tt → pairs (state inS) d.
Proof.
  revert i inS d. induction fuel as [|fuel IH]; intros i inS d Hf Hfine Hc.
  { destruct d; [|cbn in Hf; lia]. intros [|] ? ?; discriminate. }
  destruct d as [|c d1]; [intros [|] ? ?; discriminate|]. cbn [check_from] in Hc. cbn [length] in Hf. pose proof (fine_tail _ _ _ Hfine) as Ht.
  destruct inS; cbn [negb state] in *.
  2: { apply pairs_skip; [|done]. cbn in *. destruct (c =? 0x22); [apply (IH (i + 1)%nat true)|apply (IH (i + 1)%nat false)]; (done || lia). }
  cbn in Ht. destruct (c =? 0x22) eqn:Hq; [apply pairs_skip; [cbn; rewrite Hq; apply (IH (i + 1)%nat false); (done || lia)|intros _; lia]|].
  destruct (c =? 0x5C) eqn:Hb; cbn [negb] in Hc; [|apply pairs_skip; [cbn; rewrite Hq, Hb; apply (IH (i + 1)%nat true); (done || lia)|intros _; lia]].
  apply Z.eqb_eq in Hb as ->. destruct d1 as [|e d2]; [intros [|? [|]] ? ?; discriminate|]. cbn [length] in Hf.
  destruct (e =? 0x75) eqn:Hu; cbn [negb] in Hc.
  2: { apply pairs_escape; [lia|]. apply fine_tail in Ht. apply (IH (i + 2)%nat true); (done || lia). }
  apply Z.eqb_eq in Hu as ->. destruct (Hfine [] d2 eq_refl eq_refl) as [v Hv]. rewrite Hv in Hc. destruct (hex4_take _ _ Hv) as (h0 & E0 & Hl0 & Hv0).
  rewrite E0 in Hfine |- *. set (d3 := drop 4 d2) in *. pose proof (fine_digits _ _ _ Hv0 Hl0 Hfine) as Hf3.
  assert (length d2 = 4 + length d3)%nat as Hlen by (rewrite E0, length_app; lia).
  destruct (is_low v) eqn:Hlo; [done|]. destruct (is_high v) eqn:Hhi; [|apply (pairs_unit _ v); try done; apply (IH (i + 6)%nat true); (done || lia)].
  destruct d3 as [|b [|u d4]]; [done..|]. cbn [length] in *. destruct ((b =? 0x5C) && (u =? 0x75))%bool eqn:Hbu; [|done]. bprop. subst.
  destruct (hex4 d4) as [w|] eqn:Hw; [|done]. destruct (is_low w) eqn:Hlw; [|done]. destruct (hex4_take _ _ Hw) as (h1 & E1 & Hl1 & Hw1).
  rewrite E1 in Hf3 |- *. pose proof (fine_digits _ _ _ Hw1 Hl1 Hf3) as Hf4.
  assert (length d4 = 4 + length (drop 4 d4))%nat as Hlen' by (rewrite E1 at 1; rewrite length_app; lia).
  apply (pairs_pair _ v _ w); try done. apply (IH (i + 12)%nat true); (done || lia).
Qed.
Lemma check_no_lone d : escapes_complete d → checkSurrogates d = Ok tt → no_lone_surrogate d.
Proof.
  intros Hd Hc pre h rest (E & Hl & Hst). destruct (check_pairs _ _ false d (Nat.le_refl _) Hd Hc pre h rest E Hl Hst) as [H1 H2]. split.
  - intros Hh. pose proof Hh as (v & Hv & _). destruct (H1 Hh) as (lo & rest' & -> & Hlo & Hlow). exists lo, rest'. split; [|done].
    split_and!; [rewrite E; exact (app_assoc pre (0x5C :: 0x75 :: h) (0x5C :: 0x75 :: lo ++ rest'))|done|]. unfold lexes in *. rewrite fold_left_app, Hst. cbn.
    by rewrite <- (app_nil_r h), (fold_digits _ _ _ Hv Hl).
  - intros Hh. destruct (H2 Hh) as (p & hi & -> & Hhi & Hhigh & Hp). exists p, hi. split; [done|]. split; [|done].
    split_and!; [rewrite E; symmetry; exact (app_assoc p (0x5C :: 0x75 :: hi) (0x5C :: 0x75 :: h ++ rest))|done|done].
Qed.

(** C40: A document that ParseStrict accepts is valid UTF-8, every [\u] of its
    strings has four hex digits, and its surrogate escapes come in pairs, a
    high one and at once a low one; in the value it returns every string is
    valid UTF-8 and no object has the same key twice, at any depth. *)
Theorem parse_strict_sound d v : ParseStrict d = Ok v →
  valid_utf8 d = true ∧ escapes_complete d ∧ no_lone_surrogate d ∧ wf v = true.
Proof.
  intros Hp. pose proof (parse_strict_wf _ _ Hp) as Hw. unfold ParseStrict in Hp.
  destruct (valid_utf8 d) eqn:Hv; [|done]. cbn [negb] in Hp. destruct (checkSurrogates d) as [[]|] eqn:Hc; [|done].
  pose proof (parse_complete _ _ Hp) as He. split_and!; [done|done|by apply check_no_lone|done].
Qed.

(** A pair in a string, and what the theorem says of its second half. *)
Definition pair_doc : bytes := jq "['\ud83d\ude00']".
Lemma parse_strict_sound_witness : ∃ pre' hi, unit_at pair_doc pre' hi (0x5C :: 0x75 :: bytes_of "de00" ++ jq "']") ∧ high hi.
Proof.
  destruct (parse_strict_sound pair_doc (VArray [VString (encode [0x1F600])]) ltac:(reflexivity)) as (_ & _ & Hs & _).
  destruct (Hs (jq "['\ud83d") (bytes_of "de00") (jq "']") ltac:(split_and!; reflexivity)) as [_ Hlow].
  destruct (Hlow ltac:(exists 0xDE00; split; [reflexivity|split; discriminate])) as (p & hi & _ & Hu & Hh).
  exists p, hi. exact (conj Hu Hh).
Defined.
