(* ===== verification/Strconv.v ===== *)
(** * strconv and encoding/hex: the conversions the modelled code uses

    strconv.FormatInt/Itoa in base 10, strconv.ParseInt(s, 10, 64), and
    encoding/hex. *)

From S2P Require Import Prelude Utf8 Canonical.

Open Scope Z_scope.

(** FormatInt of a non-negative number: an int64 has at most 19 digits. *)
Fixpoint digits_of (fuel : nat) (n : Z) : bytes :=
  match fuel with
  | O => []
  | S fuel => if n <? 10 then [0x30 + n] else digits_of fuel (n / 10) ++ [0x30 + n mod 10]
  end.
Definition Itoa (n : Z) : bytes := if n <? 0 then 0x2D :: digits_of 20 (- n) else digits_of 20 n.

(** ParseInt(s, 10, 64): an optional sign, one digit or more, in range. *)
Definition parse_digits (s : bytes) : option Z :=
  match s with [] => None | _ => if forallb is_digit s then Some (digits_val s) else None end.
Definition ParseInt64 (s : bytes) : option Z :=
  let n := match s with
           | c :: ds => if c =? 0x2D then option_map Z.opp (parse_digits ds)
                        else if c =? 0x2B then parse_digits ds else parse_digits s
           | [] => None
           end in
  match n with
  | Some n => if in_range (- 2 ^ 63) (2 ^ 63 - 1) n then Some n else None
  | None => None
  end.

(** hex.EncodeToString and hex.DecodeString. *)
Definition hex_byte (b : Z) : bytes := [hexDigit (b / 16); hexDigit (b mod 16)].
Definition hex_encode (h : bytes) : bytes := flat_map hex_byte h.
Fixpoint hex_decode (s : bytes) : option bytes :=
  match s with
  | [] => Some []
  | a :: b :: s => match hex_val a, hex_val b, hex_decode s with
                   | Some a, Some b, Some h => Some (a * 16 + b :: h)
                   | _, _, _ => None
                   end
  | [_] => None
  end.

Definition is_byte (b : Z) : bool := in_range 0 255 b.

(** ** Lemmas *)

Lemma digits_val_app a c : digits_val (a ++ [c]) = digits_val a * 10 + (c - 0x30).
Proof. unfold digits_val. by rewrite fold_left_app. Qed.

Lemma digits_of_spec k n : 0 ≤ n < 10 ^ Z.of_nat k → (0 < k)%nat →
  digits_pattern (digits_of k n) = true ∧ digits_val (digits_of k n) = n ∧ forallb is_digit (digits_of k n) = true.
Proof.
  revert n. induction k as [|k IH]; intros n Hn Hk; [lia|]. cbn [digits_of].
  destruct (n <? 10) eqn:H10; bprop.
  - unfold digits_val, is_digit. simpl. rewrite (proj2 (in_range_spec 0x30 0x39 (0x30 + n))) by lia. split_and!; [|lia|done].
    destruct (0x30 + n =? 0x30) eqn:Hz; bprop; [done|]. by rewrite (proj2 (in_range_spec _ _ _)) by lia.
  - rewrite Nat2Z.inj_succ, Z.pow_succ_r in Hn by lia.
    assert (0 < k)%nat by (destruct k; simpl in *; lia).
    destruct (IH (n / 10)) as (Hp & Hv & Hd); [split; zdivmod|lia|].
    assert (is_digit (0x30 + n mod 10) = true) as Hl by (apply in_range_spec; zdivmod).
    split_and!.
    + destruct (digits_of k (n / 10)) as [|c ds] eqn:E; [done|]. simpl in *.
      destruct (c =? 0x30) eqn:Hc; bprop.
      * destruct ds; [|done]. unfold digits_val in Hv. simpl in Hv. zdivmod.
      * apply andb_true_iff. split; [done|]. rewrite forallb_app. simpl.
        rewrite Hl, !andb_true_r. done.
    + rewrite digits_val_app, Hv. zdivmod.
    + rewrite forallb_app. simpl. by rewrite Hd, Hl.
Qed.

Lemma Itoa_spec n : - 2 ^ 63 ≤ n < 2 ^ 63 → intPattern (Itoa n) = true ∧ ParseInt (Itoa n) = Some n.
Proof.
  intros Hn. unfold Itoa. destruct (n <? 0) eqn:Hneg; bprop.
  - destruct (digits_of_spec 20 (- n)) as (Hp & Hv & _); [simpl; lia|lia|].
    split; [done|]. unfold ParseInt. cbn [Z.eqb Pos.eqb]. rewrite Hv, Z.opp_involutive.
    by rewrite (proj2 (in_range_spec _ _ _)) by lia.
  - destruct (digits_of_spec 20 n) as (Hp & Hv & _); [simpl; lia|lia|].
    destruct (digits_of 20 n) as [|c ds] eqn:E; [done|]. unfold intPattern, ParseInt.
    destruct (digits_head _ Hp) as (c' & ds' & [= <- <-] & Hc).
    rewrite (proj2 (Z.eqb_neq c 0x2D)) by lia. rewrite Hv.
    by rewrite (proj2 (in_range_spec _ _ _)) by lia.
Qed.

Lemma Itoa_inj n m : - 2 ^ 63 ≤ n < 2 ^ 63 → - 2 ^ 63 ≤ m < 2 ^ 63 → Itoa n = Itoa m → n = m.
Proof.
  intros Hn%Itoa_spec Hm%Itoa_spec He. destruct Hn as [_ Hn], Hm as [_ Hm]. rewrite He in Hn. congruence.
Qed.

Lemma write_Itoa n : - maxSafeInt < n < maxSafeInt → write_number (Itoa n) = Ok (Itoa n).
Proof.
  unfold maxSafeInt. intros Hn. destruct (Itoa_spec n) as [Hp Hv]; [lia|]. unfold write_number. rewrite Hp, Hv.
  rewrite bool_decide_eq_false_2.
  - simpl. unfold maxSafeInt. destruct (2 ^ 53 <=? n) eqn:?, (n <=? - 2 ^ 53) eqn:?; bprop; try lia. done.
  - intros He. rewrite He in Hv. vm_compute in Hv. injection Hv as <-. by vm_compute in He.
Qed.

Lemma hexDigit_pair b : 0 ≤ b ≤ 255 → hex_val (hexDigit (b / 16)) = Some (b / 16) ∧
  hex_val (hexDigit (b mod 16)) = Some (b mod 16).
Proof. intros Hb. split; apply hexDigit_val; zdivmod. Qed.

Lemma hex_roundtrip h : forallb is_byte h = true → hex_decode (hex_encode h) = Some h.
Proof.
  induction h as [|b h IH]; intros Hh; [done|]. simpl in Hh. bprop. unfold is_byte in *. rewrite in_range_spec in *.
  destruct (hexDigit_pair b) as [H1 H2]; [done|]. cbn [hex_encode flat_map hex_byte app hex_decode].
  unfold hex_encode in IH. rewrite H1, H2, IH by done. do 2 f_equal. zdivmod.
Qed.

Lemma hex_encode_inj h1 h2 : forallb is_byte h1 = true → forallb is_byte h2 = true →
  hex_encode h1 = hex_encode h2 → h1 = h2.
Proof. intros H1%hex_roundtrip H2%hex_roundtrip He. rewrite He in H1. congruence. Qed.
