(* ===== verification/AuditLog.v ===== *)
(** * The audit log's hash chain (internal/audit/audit.go, internal/audit/chain.go)

    [audit_events] is the list of its rows in id order. SHA-256, the validity
    of a JSON text, the RFC 3339 parse and the encoding/json form of the
    chain-start detail are the operations of the class [AuditEnv]; their
    documented behaviour, where a theorem needs it, is [AuditLaws]. A failed
    read or write of the database is not modelled: SQLite reports it as an
    error and the transaction leaves the table as it was. *)

From S2P Require Import Prelude Utf8 Canonical Strconv.

Open Scope Z_scope.

Class AuditEnv := {
  sha256 : bytes → bytes;
  json_valid : bytes → bool;
  ts_valid : bytes → bool;                               (* time.Parse(RFC3339Nano) *)
  marshal_chain_start : Z → Z → bytes;                   (* legacy_last_id, legacy_rows *)
  unmarshal_chain_start : bytes → option (Z * Z);
}.

Class AuditLaws `{AuditEnv} : Prop := {
  sha256_length x : length (sha256 x) = 32%nat;
  sha256_bytes x : forallb is_byte (sha256 x) = true;
  chain_start_roundtrip a b : - 2 ^ 63 ≤ a < 2 ^ 63 → - 2 ^ 63 ≤ b < 2 ^ 63 →
    unmarshal_chain_start (marshal_chain_start a b) = Some (a, b);
  empty_object_json : json_valid (bytes_of "{}") = true;
  chain_start_json a b : - 2 ^ 63 ≤ a < 2 ^ 63 → - 2 ^ 63 ≤ b < 2 ^ 63 →
    json_valid (marshal_chain_start a b) = true;
  chain_start_text a b : - 2 ^ 63 ≤ a < 2 ^ 63 → - 2 ^ 63 ≤ b < 2 ^ 63 →
    valid_utf8 (marshal_chain_start a b) = true;
}.

Definition genesisLabel : bytes := bytes_of "dorylinae-audit-genesis-v1".
Definition rowLabel : bytes := bytes_of "dorylinae-audit-v1" ++ [0x0A].
Definition verifyPage : nat := 2000.
Definition ActionChainStart : bytes := bytes_of "audit.chain_start".
Definition ActorDaemon : bytes := bytes_of "daemon".

(** One audit_events row as stored; [hash] is None for NULL. *)
Record row := Row {
  id : Z;
  ts : bytes;
  actor : bytes;
  action : bytes;
  detail : bytes;
  hash : option bytes;
}.

Record Anchor := MkAnchor { anchorID : Z; anchorHash : bytes }.

Inductive reason :=
| ReasonGap | ReasonUnchained | ReasonChainStart | ReasonHashMismatch | ReasonMalformed
| ReasonAnchorMismatch | ReasonAnchorMissing.

Inductive audit_error :=
| ErrRequired                    (* actor and action are required *)
| ErrMalformedHead (id : Z)
| ErrChainBroken (id : Z)        (* unchained row after the chain start *)
| ErrCanonical (e : canon_error)
| ErrBadAnchor.

Record Head := MkHead { headID : Z; headHash : bytes; headTS : bytes }.

(** The "verify" object: Status is broken exactly when [bad] is set, to
    FirstBad and Reason. *)
Record VerifyResult := MkResult {
  bad : option (Z * reason);
  Rows : Z;
  LegacyRows : Z;
  ChainedFrom : Z;
  head : option Head;
}.

Section Audit.
Context `{AuditEnv}.

Definition genesis : bytes := sha256 genesisLabel.

Definition row_value (r : row) : value :=
  VObject [(bytes_of "action", VString (action r)); (bytes_of "actor", VString (actor r));
           (bytes_of "detail", VString (detail r)); (bytes_of "id", VNumber (Itoa (id r)));
           (bytes_of "ts", VString (ts r))].
Definition rowCanonical (r : row) : result canon_error bytes := CanonicalValue (row_value r).

Definition chainHash (prev : bytes) (r : row) : result canon_error bytes :=
  match rowCanonical r with
  | Ok c => Ok (sha256 (rowLabel ++ prev ++ c))
  | Err e => Err e
  end.

Definition encodeHash (h : bytes) : bytes := hex_encode h.
Definition decodeHash (s : bytes) : option bytes :=
  match hex_decode s with
  | Some b => if (length b =? 32)%nat && bool_decide (encodeHash b = s) then Some b else None
  | None => None
  end.

(** strings.IndexByte(s, ':'): what is before and after the first colon. *)
Fixpoint cut_colon (s : bytes) : option (bytes * bytes) :=
  match s with
  | [] => None
  | c :: s => if c =? 0x3A then Some ([], s)
              else match cut_colon s with Some (a, b) => Some (c :: a, b) | None => None end
  end.

Definition ParseAnchor (s : bytes) : result audit_error Anchor :=
  match cut_colon s with
  | None => Err ErrBadAnchor
  | Some (a, h) =>
      match ParseInt64 a with
      | Some n => if n <=? 0 then Err ErrBadAnchor
                  else match decodeHash h with Some _ => Ok (MkAnchor n h) | None => Err ErrBadAnchor end
      | None => Err ErrBadAnchor
      end
  end.

(** ** Appending *)

Definition marshalDetail (actor action : bytes) (detail : option bytes) : result audit_error bytes :=
  if bool_decide (actor = []) || bool_decide (action = []) then Err ErrRequired
  else match detail with None => Ok (bytes_of "{}") | Some raw => Ok raw end.

(** insertRow: the row at [id], its time [now] and its stored hash. *)
Definition insertRow (db : list row) (rid : Z) (prev now ractor raction rdetail : bytes)
  : result audit_error (list row * bytes) :=
  match chainHash prev (Row rid now ractor raction rdetail None) with
  | Err e => Err (ErrCanonical e)
  | Ok h => Ok (db ++ [Row rid now ractor raction rdetail (Some (encodeHash h))], h)
  end.

(** The loop of startChain over the legacy rows: hash, count and last id. *)
Fixpoint legacyChain (rows : list row) (prev : bytes) (n lastID : Z) : result audit_error (bytes * Z * Z) :=
  match rows with
  | [] => Ok (prev, n, lastID)
  | r :: rows => match chainHash prev r with
                 | Err e => Err (ErrCanonical e)
                 | Ok h => legacyChain rows h (n + 1) (id r)
                 end
  end.

Definition is_chained (r : row) : bool := match hash r with Some _ => true | None => false end.

Definition startChain (db : list row) (now : bytes) (hid : Z) : result audit_error (list row * Z * bytes) :=
  if existsb is_chained db then Err (ErrChainBroken hid)
  else match legacyChain db genesis 0 0 with
       | Err e => Err e
       | Ok (prev, n, lastID) =>
           match insertRow db (hid + 1) prev now ActorDaemon ActionChainStart (marshal_chain_start lastID n) with
           | Err e => Err e
           | Ok (db', h) => Ok (db', hid + 1, h)
           end
       end.

Definition appendChained (db : list row) (now ractor raction rdetail : bytes) : result audit_error (list row) :=
  let '(hid, hh) := match last db with Some r => (id r, hash r) | None => (0, None) end in
  let start :=
    match hh with
    | Some s => match decodeHash s with Some prev => Ok (db, hid, prev) | None => Err (ErrMalformedHead hid) end
    | None => startChain db now hid
    end in
  match start with
  | Err e => Err e
  | Ok (db1, hid, prev) =>
      match insertRow db1 (hid + 1) prev now ractor raction rdetail with
      | Err e => Err e
      | Ok (db2, _) => Ok db2
      end
  end.

(** Log.Append and AppendTx: a failed append leaves the table as it was. *)
Definition Append (db : list row) (now ractor raction : bytes) (rdetail : option bytes)
  : list row * result audit_error unit :=
  match marshalDetail ractor raction rdetail with
  | Err e => (db, Err e)
  | Ok raw => match appendChained db now ractor raction raw with
              | Ok db' => (db', Ok tt)
              | Err e => (db, Err e)
              end
  end.

(** AppendTxSoft: the savepoint takes back a failed row, and the caller's
    transaction goes on. *)
Definition AppendTxSoft (db : list row) (now ractor raction : bytes) (rdetail : option bytes) : list row :=
  fst (Append db now ractor raction rdetail).

(** List: the events, without the chain's own start row. *)
Definition List (db : list row) : list row :=
  filter (λ r, negb (bool_decide (action r = ActionChainStart) && is_chained r)) db.

(** ** Verification *)

Record verifyState := MkState {
  res : VerifyResult;
  prev : bytes;
  lastID : Z;
  started : bool;
  anchors : gmap Z (list bytes);
  seen : gset Z;
  legacyAnchor : Z;
}.

Definition with_res (f : VerifyResult → VerifyResult) (s : verifyState) : verifyState :=
  MkState (f (res s)) (prev s) (lastID s) (started s) (anchors s) (seen s) (legacyAnchor s).
Definition fail (rid : Z) (why : reason) (s : verifyState) : verifyState :=
  with_res (λ v, MkResult (Some (rid, why)) (Rows v) (LegacyRows v) (ChainedFrom v) (head v)) s.

Definition wellFormed (r : row) : bool :=
  json_valid (detail r) && ts_valid (ts r) &&
  (valid_utf8 (ts r) && valid_utf8 (actor r) && valid_utf8 (action r) && valid_utf8 (detail r)).

Definition isChainStart (s : verifyState) (r : row) : bool :=
  if bool_decide (action r ≠ ActionChainStart) || bool_decide (actor r ≠ ActorDaemon) then false
  else match unmarshal_chain_start (detail r) with
       | None => false
       | Some (legacyLast, legacyRows) =>
           let lastLegacy := if 0 <? LegacyRows (res s) then lastID s else 0 in
           (legacyRows =? LegacyRows (res s)) && (legacyLast =? lastLegacy)
       end.

(** The part of check after the chain-start and gap tests: the row's hash,
    its form and its anchors. *)
Definition checkHash (r : row) (s : verifyState) : bool * verifyState :=
  match hash r with
  | None => (false, fail (id r) ReasonUnchained s)
  | Some want =>
      match chainHash (prev s) r with
      | Err _ => (false, fail (id r) ReasonHashMismatch s)
      | Ok h =>
          if negb (bool_decide (encodeHash h = want)) then (false, fail (id r) ReasonHashMismatch s)
          else if negb (wellFormed r) then (false, fail (id r) ReasonMalformed s)
          else
            let s := MkState (res s) h (lastID s) (started s) (anchors s) (seen s) (legacyAnchor s) in
            match anchors s !! id r with
            | None => (true, s)
            | Some wants =>
                let s := MkState (res s) (prev s) (lastID s) (started s) (anchors s) ({[id r]} ∪ seen s) (legacyAnchor s) in
                if forallb (λ w, bool_decide (w = want)) wants then (true, s)
                else (false, fail (id r) ReasonAnchorMismatch s)
            end
      end
  end.

(** The branch of check for a row before the chain start without a hash. *)
Definition checkLegacy (r : row) (s : verifyState) : bool * verifyState :=
  if negb (wellFormed r) then (false, fail (id r) ReasonMalformed s)
  else match chainHash (prev s) r with
       | Err _ => (false, fail (id r) ReasonMalformed s)
       | Ok h =>
           let v := res s in
           let s := MkState (MkResult (bad v) (Rows v) (LegacyRows v + 1) (ChainedFrom v) (head v))
                      h (lastID s) (started s) (anchors s) (seen s) (legacyAnchor s) in
           match anchors s !! id r with
           | None => (true, s)
           | Some _ =>
               (true, MkState (res s) (prev s) (lastID s) (started s) (anchors s) ({[id r]} ∪ seen s)
                        (if legacyAnchor s =? 0 then id r else legacyAnchor s))
           end
       end.

Definition check_body (r : row) (s : verifyState) : bool * verifyState :=
  if negb (started s) then
    match hash r with
    | None => checkLegacy r s
    | Some _ =>
        if negb (isChainStart s r) then (false, fail (id r) ReasonChainStart s)
        else checkHash r (MkState (MkResult (bad (res s)) (Rows (res s)) (LegacyRows (res s)) (id r) (head (res s)))
                            (prev s) (lastID s) true (anchors s) (seen s) (legacyAnchor s))
    end
  else if negb (id r =? lastID s + 1) then (false, fail (id r) ReasonGap s)
  else checkHash r s.

(** check: one more row read; the deferred assignment of lastID. *)
Definition check (r : row) (s : verifyState) : bool * verifyState :=
  let s := with_res (λ v, MkResult (bad v) (Rows v + 1) (LegacyRows v) (ChainedFrom v) (head v)) s in
  let '(ok, s') := check_body r s in
  (ok, MkState (res s') (prev s') (id r) (started s') (anchors s') (seen s') (legacyAnchor s')).

Fixpoint check_rows (rows : list row) (s : verifyState) : bool * verifyState :=
  match rows with
  | [] => (true, s)
  | r :: rows => let '(ok, s) := check r s in if ok then check_rows rows s else (false, s)
  end.

Definition readPage (db : list row) (after hid : Z) : list row :=
  take verifyPage (filter (λ r, after < id r ∧ id r ≤ hid) db).

(** The page loop of Verify. A page that is not the last moves past
    verifyPage rows, so the fuel [S (length db)] is enough. *)
Fixpoint verify_pages (fuel : nat) (db : list row) (after hid : Z) (s : verifyState) : option (bool * verifyState) :=
  match fuel with
  | O => None
  | S fuel =>
      let page := readPage db after hid in
      let '(ok, s) := check_rows page s in
      if negb ok then Some (false, s)
      else if (length page <? verifyPage)%nat then Some (true, s)
      else match last page with
           | Some r => verify_pages fuel db (id r) hid s
           | None => Some (true, s)
           end
  end.

Definition missing_anchor (s : verifyState) : Z :=
  fold_left (λ m i, if bool_decide (i ∉ seen s) && ((m =? 0) || (i <? m)) then i else m)
    (map fst (map_to_list (anchors s))) 0.

Definition checkAnchorsMissing (s : verifyState) : verifyState :=
  match bad (res s) with
  | Some _ => s
  | None => let m := missing_anchor s in if m =? 0 then s else fail m ReasonAnchorMissing s
  end.

Definition anchor_map (l : list Anchor) : gmap Z (list bytes) :=
  fold_left (λ m a, <[anchorID a := default [] (m !! anchorID a) ++ [anchorHash a]]> m) l ∅.

Definition init_state (l : list Anchor) (h : option Head) : verifyState :=
  MkState (MkResult None 0 0 0 h) genesis 0 false (anchor_map l) ∅ 0.

Definition finish (s : verifyState) : VerifyResult :=
  let s := checkAnchorsMissing s in
  match bad (res s) with
  | None => if legacyAnchor s =? 0 then res s else res (fail (legacyAnchor s) ReasonAnchorMismatch s)
  | Some _ => res s
  end.

Definition Verify (db : list row) (l : list Anchor) : option VerifyResult :=
  match last db with
  | None => Some (res (checkAnchorsMissing (init_state l None)))
  | Some hr =>
      let h := MkHead (id hr) (default [] (hash hr)) (ts hr) in
      match verify_pages (S (length db)) db (- 2 ^ 63) (id hr) (init_state l (Some h)) with
      | None => None
      | Some (false, s) => Some (res s)
      | Some (true, s) => Some (finish s)
      end
  end.
End Audit.

(** ** The specification: a log as a path of a two-phase chain

    A log is a path of rows that the chain accepts: legacy rows, hashed
    virtually, then the chain-start row sealing them, then rows with
    consecutive ids, each stored hash committing to the row and to the hash
    before it. *)

Inductive phase :=
| Legacy (prev : bytes) (n lastID : Z)
| Chained (prev : bytes) (lastID : Z).

Section Spec.
Context `{AuditEnv}.

Inductive row_step : phase → row → phase → Prop :=
| step_legacy prev n last r h :
    hash r = None → wellFormed r = true → chainHash prev r = Ok h →
    row_step (Legacy prev n last) r (Legacy h (n + 1) (id r))
| step_start prev n last r h :
    hash r = Some (encodeHash h) → wellFormed r = true → chainHash prev r = Ok h →
    action r = ActionChainStart → actor r = ActorDaemon → unmarshal_chain_start (detail r) = Some (last, n) →
    row_step (Legacy prev n last) r (Chained h (id r))
| step_chained prev last r h :
    id r = last + 1 →
    hash r = Some (encodeHash h) → wellFormed r = true → chainHash prev r = Ok h →
    row_step (Chained prev last) r (Chained h (id r)).

Inductive rows_step : phase → list row → phase → Prop :=
| rows_nil p : rows_step p [] p
| rows_cons p1 r p2 rows p3 : row_step p1 r p2 → rows_step p2 rows p3 → rows_step p1 (r :: rows) p3.

Definition LogOK (db : list row) : Prop := ∃ p, rows_step (Legacy genesis 0 0) db p.

(** The table is read in the order of its INTEGER PRIMARY KEY, an int64. *)
Definition id_lt (a b : row) : Prop := id a < id b.
Definition id_order (db : list row) : Prop :=
  StronglySorted id_lt db ∧ Forall (λ r, - 2 ^ 63 < id r < 2 ^ 63) db.

(** What a row says, without its stored hash. *)
Definition content (r : row) : Z * bytes * bytes * bytes * bytes := (id r, ts r, actor r, action r, detail r).

(** The texts a walk over the rows hashes, the genesis label first. *)
Fixpoint hashed_rows (prev : bytes) (rows : list row) : list bytes :=
  match rows with
  | [] => []
  | r :: rows => match rowCanonical r with
                 | Ok c => let x := rowLabel ++ prev ++ c in x :: hashed_rows (sha256 x) rows
                 | Err _ => []
                 end
  end.
Definition hashed (db : list row) : list bytes := genesisLabel :: hashed_rows genesis db.

Fixpoint chain (prev : bytes) (rows : list row) : option bytes :=
  match rows with
  | [] => Some prev
  | r :: rows => match chainHash prev r with Ok h => chain h rows | Err _ => None end
  end.

(** ** Lemmas: paths *)

Lemma rows_step_app p1 l1 p2 l2 p3 : rows_step p1 l1 p2 → rows_step p2 l2 p3 → rows_step p1 (l1 ++ l2) p3.
Proof. induction 1; [done|]. intros. econstructor; eauto. Qed.

Lemma rows_step_snoc p1 l p2 r p3 : rows_step p1 l p2 → row_step p2 r p3 → rows_step p1 (l ++ [r]) p3.
Proof. intros. eapply rows_step_app; [done|]. repeat econstructor. done. Qed.

Definition phase_prev (p : phase) : bytes := match p with Legacy h _ _ | Chained h _ => h end.

Lemma row_step_chain p r p' : row_step p r p' →
  chainHash (phase_prev p) r = Ok (phase_prev p') ∧ wellFormed r = true.
Proof. by destruct 1. Qed.

Lemma rows_step_chain p l p' : rows_step p l p' →
  chain (phase_prev p) l = Some (phase_prev p') ∧ Forall (λ r, wellFormed r = true) l.
Proof.
  induction 1 as [|p1 r p2 rows p3 Hr Hrs [IH1 IH2]]; [done|].
  destruct (row_step_chain _ _ _ Hr) as [Hc Hw]. simpl. rewrite Hc. split; [done|by constructor].
Qed.

(** ** Lemmas: one step of the verification *)

Definition phase_of (s : verifyState) : phase :=
  if started s then Chained (prev s) (lastID s)
  else Legacy (prev s) (LegacyRows (res s)) (if 0 <? LegacyRows (res s) then lastID s else 0).

Definition anchored (s : verifyState) (r : row) : bool := bool_decide (is_Some (anchors s !! id r)).

Definition anchors_match (s : verifyState) (r : row) : Prop :=
  ∀ want wants, hash r = Some want → anchors s !! id r = Some wants → Forall (λ w, w = want) wants.

Definition good (s : verifyState) : Prop := bad (res s) = None ∧ 0 ≤ LegacyRows (res s).

(** The state after an accepted row, apart from the counts of the report. *)
Definition stepped (s : verifyState) (r : row) (s' : verifyState) : Prop :=
  row_step (phase_of s) r (phase_of s') ∧ good s' ∧ anchors s' = anchors s ∧
  seen s' = (if anchored s r then {[id r]} ∪ seen s else seen s) ∧
  anchors_match s r ∧
  legacyAnchor s' = (if anchored s r && negb (is_chained r) && (legacyAnchor s =? 0) then id r else legacyAnchor s).

Lemma anchored_some s r l : anchors s !! id r = Some l → anchored s r = true.
Proof. intros Hl. by apply bool_decide_eq_true_2; rewrite Hl. Qed.
Lemma anchored_none s r : anchors s !! id r = None → anchored s r = false.
Proof. intros Hl. apply bool_decide_eq_false_2. rewrite Hl. by intros [? ?]. Qed.

Lemma checkHash_true r s s' : checkHash r s = (true, s') →
  ∃ h, hash r = Some (encodeHash h) ∧ chainHash (prev s) r = Ok h ∧ wellFormed r = true ∧ anchors_match s r ∧
    s' = MkState (res s) h (lastID s) (started s) (anchors s)
           (if anchored s r then {[id r]} ∪ seen s else seen s) (legacyAnchor s).
Proof.
  unfold checkHash. intros Hc. destruct (hash r) as [want|] eqn:Hh; [|done].
  destruct (chainHash (prev s) r) as [h|]; [|done]. case_bool_decide as He; [|done]. cbn [negb] in Hc.
  destruct (wellFormed r) eqn:Hw; [|done]. cbn [negb anchors] in Hc. exists h. rewrite He.
  unfold anchors_match. rewrite Hh.
  destruct (anchors s !! id r) as [wants|] eqn:Ha.
  - destruct (forallb _ wants) eqn:Hf; [|done]. injection Hc as <-. rewrite (anchored_some _ _ _ Ha).
    split_and!; try done. intros ? ? [= <-] [= <-]. rewrite Forall_forall. intros x Hx.
    rewrite forallb_forall in Hf. specialize (Hf x). rewrite <- list_elem_of_In in Hf. specialize (Hf Hx).
    by apply bool_decide_eq_true in Hf.
  - injection Hc as <-. rewrite (anchored_none _ _ Ha). split_and!; try done.
Qed.

Lemma checkHash_complete r s h : hash r = Some (encodeHash h) → chainHash (prev s) r = Ok h →
  wellFormed r = true → anchors_match s r → fst (checkHash r s) = true.
Proof.
  intros Hh Hc Hw Ha. unfold checkHash. rewrite Hh, Hc, bool_decide_eq_true_2 by done. cbn [negb]. rewrite Hw.
  cbn [negb anchors]. destruct (anchors s !! id r) as [wants|] eqn:Hl; [|done].
  specialize (Ha _ _ Hh Hl). assert (forallb (λ w, bool_decide (w = encodeHash h)) wants = true) as ->; [|done].
  apply forallb_forall. intros x Hx. rewrite Forall_forall in Ha. apply bool_decide_eq_true_2, Ha. by apply list_elem_of_In.
Qed.

Lemma checkHash_false r s s' : checkHash r s = (false, s') → bad (res s') ≠ None.
Proof. unfold checkHash. intros Hc. repeat case_match; simplify_eq/=; done. Qed.

Lemma isChainStart_spec s r : isChainStart s r = true ↔
  action r = ActionChainStart ∧ actor r = ActorDaemon ∧
  unmarshal_chain_start (detail r) = Some (if 0 <? LegacyRows (res s) then lastID s else 0, LegacyRows (res s)).
Proof.
  unfold isChainStart. split.
  - intros Hc. repeat case_bool_decide; try done.
    destruct (unmarshal_chain_start (detail r)) as [[a b]|]; [|done]. simpl in Hc. bprop. by subst.
  - intros (Ha & Hb & Hd). rewrite !bool_decide_eq_false_2 by (intros Hn; by apply Hn). simpl. rewrite Hd.
    by rewrite !Z.eqb_refl.
Qed.

Lemma check_true r s s' : good s → check r s = (true, s') → stepped s r s'.
Proof.
  intros [Hbad Hn] Hc. unfold check in Hc.
  set (s0 := with_res _ s) in Hc. destruct (check_body r s0) as [ok s1] eqn:Hb. injection Hc as -> <-.
  unfold check_body in Hb. subst s0. unfold stepped, good, phase_of. cbn in Hb |- *.
  destruct (started s) eqn:Hst; cbn [negb] in Hb.
  - destruct (id r =? lastID s + 1) eqn:Hid; [|done]. cbn [negb] in Hb. bprop.
    apply checkHash_true in Hb as (h & Hh & Hch & Hw & Ham & ->). cbn in *. rewrite Hst.
    unfold is_chained. rewrite Hh. rewrite !andb_false_r. split_and!; try done. by apply step_chained.
  - destruct (hash r) as [want|] eqn:Hh.
    + destruct (isChainStart _ r) eqn:Hcs; [|done]. cbn [negb] in Hb.
      apply checkHash_true in Hb as (h & Hh' & Hch & Hw & Ham & ->). cbn in *.
      apply isChainStart_spec in Hcs as (? & ? & ?). cbn in *. unfold is_chained. rewrite Hh, !andb_false_r.
      split_and!; try done. apply step_start; [by rewrite <- Hh'|done..].
    + unfold checkLegacy in Hb. destruct (wellFormed r) eqn:Hw; [|done]. cbn [negb] in Hb. cbn in Hb.
      destruct (chainHash (prev s) r) as [h|] eqn:Hch; [|done].
      assert (0 <? LegacyRows (res s) + 1 = true) as Hlt by (apply Z.ltb_lt; lia).
      unfold is_chained. rewrite Hh. cbn [negb].
      destruct (anchors s !! id r) as [l|] eqn:Ha.
      * injection Hb as <-. cbn. rewrite Hst, Hlt, (anchored_some _ _ _ Ha). cbn.
        split_and!; try done; [by apply step_legacy|lia|].
        unfold anchors_match. intros ? ? ?; congruence.
      * injection Hb as <-. cbn. rewrite Hst, Hlt, (anchored_none _ _ Ha). cbn.
        split_and!; try done; [by apply step_legacy|lia|].
        unfold anchors_match. intros ? ? ?; congruence.
Qed.

Lemma check_complete r s p : good s → row_step (phase_of s) r p → anchors_match s r → fst (check r s) = true.
Proof.
  intros [Hbad Hn] Hstep Ham. unfold check. set (s0 := with_res _ s).
  enough (fst (check_body r s0) = true) as He by by destruct (check_body r s0).
  unfold check_body. subst s0. unfold phase_of in Hstep. cbn.
  destruct (started s) eqn:Hst; inversion Hstep as [? ? ? ? h Hh Hw Hch|? ? ? ? h Hh Hw Hch Ha Hac Hd|? ? ? h Hid Hh Hw Hch]; subst; cbn [negb].
  - rewrite (proj2 (Z.eqb_eq _ _) Hid). cbn [negb]. by eapply checkHash_complete.
  - rewrite Hh. unfold checkLegacy. rewrite Hw. cbn. rewrite Hch. by destruct (anchors s !! id r).
  - rewrite Hh. rewrite (proj2 (isChainStart_spec _ r)) by done. cbn [negb].
    by eapply checkHash_complete.
Qed.

Lemma check_false r s s' : check r s = (false, s') → bad (res s') ≠ None.
Proof.
  unfold check. set (s0 := with_res _ s). destruct (check_body r s0) as [ok s1] eqn:Hb. intros [= -> <-]. cbn.
  unfold check_body in Hb. repeat case_match; simplify_eq/=; try done; try by eapply checkHash_false.
  unfold checkLegacy in Hb. repeat case_match; simplify_eq/=; done.
Qed.
End Spec.

Section Walk.
Context `{AuditEnv}.

(** ** Lemmas: the walk over the rows *)

Lemma anchors_match_eq s s' r : anchors s' = anchors s → anchors_match s' r ↔ anchors_match s r.
Proof. intros He. unfold anchors_match. by rewrite He. Qed.

Lemma anchored_eq s s' r : anchors s' = anchors s → anchored s' r = anchored s r.
Proof. intros He. unfold anchored. by rewrite He. Qed.

Lemma check_rows_true rows s s' : good s → check_rows rows s = (true, s') →
  rows_step (phase_of s) rows (phase_of s') ∧ good s' ∧ anchors s' = anchors s ∧
  (∀ r, r ∈ rows → anchors_match s r) ∧
  (∀ i, i ∈ seen s' → i ∈ seen s ∨ ∃ r, r ∈ rows ∧ id r = i) ∧
  (legacyAnchor s' = 0 → legacyAnchor s = 0 ∧ ∀ r, r ∈ rows → anchored s r = true → hash r = None → id r = 0).
Proof.
  revert s. induction rows as [|r rows IH]; intros s Hg Hc; simpl in Hc.
  - injection Hc as <-. split_and!; try done; [constructor|intros ? ?%not_elem_of_nil; done|by left|].
    intros. split; [done|]. by intros ? ?%not_elem_of_nil.
  - destruct (check r s) as [[|] s1] eqn:Hr; [|done].
    destruct (check_true _ _ _ Hg Hr) as (Hstep & Hg1 & Ha1 & Hs1 & Hm1 & Hl1).
    destruct (IH _ Hg1 Hc) as (Hsteps & Hg2 & Ha2 & Hm2 & Hs2 & Hl2).
    split_and!; [by econstructor|done|congruence|..].
    + intros r' [->|Hin]%elem_of_cons; [done|]. by apply (anchors_match_eq s s1), Hm2.
    + intros i [Hi|(r' & ? & ?)]%Hs2; [|right; exists r'; split; [by right|done]].
      rewrite Hs1 in Hi. destruct (anchored s r); [|by left].
      apply elem_of_union in Hi as [->%elem_of_singleton|?]; [right; exists r; split; [by left|done]|by left].
    + intros Hz. destruct (Hl2 Hz) as [Hz1 Hrows]. rewrite Hl1 in Hz1.
      destruct (anchored s r && negb (is_chained r) && (legacyAnchor s =? 0))%bool eqn:Hcond.
      * bprop. split; [done|]. intros r' [->|Hin]%elem_of_cons Har Hh; [done|].
        apply Hrows; [done|by rewrite (anchored_eq s s1)|done].
      * split; [done|]. intros r' [->|Hin]%elem_of_cons Har Hh.
        -- rewrite Har in Hcond. unfold is_chained in Hcond. rewrite Hh, Hz1 in Hcond. done.
        -- apply Hrows; [done|by rewrite (anchored_eq s s1)|done].
Qed.

Lemma row_step_det p r p1 p2 : row_step p r p1 → row_step p r p2 → p1 = p2.
Proof. intros H1 H2. destruct H1; inversion H2; subst; congruence. Qed.

Lemma check_rows_complete rows s p : good s → rows_step (phase_of s) rows p →
  (∀ r, r ∈ rows → anchors_match s r) → ∃ s', check_rows rows s = (true, s').
Proof.
  revert s. induction rows as [|r rows IH]; intros s Hg Hs Hm; [by exists s|].
  inversion Hs as [|? ? p2 ? ? Hr Hrs]; subst.
  pose proof (check_complete r s p2 Hg Hr (Hm r ltac:(by left))) as Hok. simpl.
  destruct (check r s) as [ok s1] eqn:Hc. simpl in Hok. subst ok.
  destruct (check_true _ _ _ Hg Hc) as (Hstep & Hg1 & Ha1 & _).
  apply IH; [done| |].
  - by rewrite (row_step_det _ _ _ _ Hstep Hr).
  - intros r' Hr'. apply (anchors_match_eq s s1); [done|]. apply Hm. by right.
Qed.

Lemma check_rows_false rows s s' : check_rows rows s = (false, s') → bad (res s') ≠ None.
Proof.
  revert s. induction rows as [|r rows IH]; intros s Hc; simpl in Hc; [done|].
  destruct (check r s) as [[|] s1] eqn:Hr; [by eapply IH|]. injection Hc as <-. by eapply check_false.
Qed.

Lemma check_rows_app l1 l2 s : check_rows (l1 ++ l2) s =
  (let '(ok, s') := check_rows l1 s in if ok then check_rows l2 s' else (false, s')).
Proof.
  revert s. induction l1 as [|r l1 IH]; intros s; simpl; [done|].
  destruct (check r s) as [[|] s1]; [apply IH|done].
Qed.

(** ** Lemmas: pages *)

Definition between (after hid : Z) (db : list row) : list row := filter (λ r, after < id r ∧ id r ≤ hid) db.

Lemma filter_after (l1 l2 : list row) r : StronglySorted id_lt (l1 ++ r :: l2) →
  filter (λ x, id r < id x) (l1 ++ r :: l2) = l2.
Proof.
  intros (Hcross & _ & Hs)%StronglySorted_app. apply StronglySorted_inv in Hs as [_ Hall].
  rewrite filter_app, (filter_none _ l1), filter_cons_False by
    (lia || (apply Forall_forall; intros x Hx; pose proof (Hcross x r Hx ltac:(by left)); unfold id_lt in *; lia)).
  by apply filter_all.
Qed.

Lemma between_next db after hid k r : StronglySorted id_lt db →
  last (take k (between after hid db)) = Some r → between (id r) hid db = drop k (between after hid db).
Proof.
  intros Hs Hl. destruct (last_snoc_inv _ _ Hl) as [l' Hl'].
  set (F := between after hid db) in *.
  assert (F = l' ++ r :: drop k F) as HF by (rewrite <- (take_drop k F), Hl' at 1; by rewrite <- app_assoc).
  assert (r ∈ F) as [[Ha _] _]%list_elem_of_filter by (rewrite HF; set_solver).
  assert (between (id r) hid db = filter (λ x, id r < id x) F) as ->.
  { unfold F, between. rewrite list_filter_filter. apply list_filter_iff. intros x. lia. }
  rewrite HF at 1. apply filter_after. rewrite <- HF. by apply StronglySorted_filter.
Qed.

(** Reading in pages of [verifyPage] rows checks the rows one after the other. *)
Lemma verify_pages_rows fuel db after hid s : StronglySorted id_lt db →
  (length (between after hid db) < fuel)%nat →
  verify_pages fuel db after hid s = Some (check_rows (between after hid db) s).
Proof.
  revert after s. induction fuel as [|fuel IH]; intros after s Hs Hf; [lia|]. cbn [verify_pages].
  change (readPage db after hid) with (take verifyPage (between after hid db)).
  set (F := between after hid db) in *.
  replace (check_rows F s) with (check_rows (take verifyPage F ++ drop verifyPage F) s) by by rewrite take_drop.
  rewrite check_rows_app.
  destruct (check_rows (take verifyPage F) s) as [[|] s1]; [|done]. cbn [negb].
  rewrite length_take. destruct (Nat.ltb_spec (verifyPage `min` length F) verifyPage) as [Hlt|Hge].
  { rewrite drop_ge by lia. done. }
  assert (0 < verifyPage)%nat by (unfold verifyPage; lia).
  destruct (last (take verifyPage F)) as [r|] eqn:Hl.
  - unfold F in Hl. rewrite IH; [by rewrite (between_next _ _ _ _ _ Hs Hl)|done|].
    rewrite (between_next _ _ _ _ _ Hs Hl), length_drop. fold F. lia.
  - apply last_None in Hl. assert (length (take verifyPage F) = 0%nat) as Hz by by rewrite Hl.
    rewrite length_take in Hz. lia.
Qed.

Lemma between_all db r : id_order db → last db = Some r → between (- 2 ^ 63) (id r) db = db.
Proof.
  intros [Hs Hlow] Hl. apply filter_all. destruct (last_snoc_inv _ _ Hl) as [l' ->].
  rewrite Forall_forall in *. intros x Hx. split; [by apply Hlow|].
  apply StronglySorted_app in Hs as (Hcross & _). apply elem_of_app in Hx as [Hx| ->%list_elem_of_singleton]; [|lia].
  specialize (Hcross x r Hx ltac:(by left)). unfold id_lt in *. lia.
Qed.

Lemma Verify_rows db l r : id_order db → last db = Some r →
  Verify db l = Some (let '(ok, s) := check_rows db (init_state l (Some (MkHead (id r) (default [] (hash r)) (ts r)))) in
                      if ok then finish s else res s).
Proof.
  intros Ho Hl. unfold Verify. rewrite Hl, verify_pages_rows; [|apply Ho|].
  - rewrite between_all by done. by destruct (check_rows _ _) as [[|] s].
  - rewrite between_all by done. lia.
Qed.

Lemma good_init l h : good (init_state l h).
Proof. done. Qed.
End Walk.

Section Rows.
Context `{AuditEnv}.

(** ** Lemmas: the canonical text of a row *)

Definition row_members (r : row) : list (bytes * value) :=
  [(bytes_of "action", VString (action r)); (bytes_of "actor", VString (actor r));
   (bytes_of "detail", VString (detail r)); (bytes_of "id", VNumber (Itoa (id r)));
   (bytes_of "ts", VString (ts r))].

Lemma row_members_sorted r : sort_keys (row_members r) = row_members r.
Proof. reflexivity. Qed.

Lemma row_value_wf r : wellFormed r = true → wf (row_value r) = true.
Proof.
  unfold wellFormed. intros Hw. bprop. change (row_value r) with (VObject (row_members r)).
  apply wf_object. split; [by apply (bool_decide_unpack _); vm_compute|].
  intros p. unfold row_members. rewrite !elem_of_cons, elem_of_nil.
  intros Hp; destruct_or?; subst; done.
Qed.

Lemma row_norm r : norm (row_value r) = row_value r.
Proof. change (row_value r) with (VObject (row_members r)). by rewrite norm_object, row_members_sorted. Qed.

Lemma rowCanonical_ok r : - maxSafeInt < id r < maxSafeInt → ∃ c, rowCanonical r = Ok c.
Proof.
  intros Hr. unfold rowCanonical, CanonicalValue. change (row_value r) with (VObject (row_members r)).
  rewrite canonicalize_object, row_members_sorted. unfold row_members. cbn [map fst snd canonicalize].
  rewrite write_Itoa by done. cbn [write_all wrap]. by eexists.
Qed.

Lemma rowCanonical_inj r1 r2 c : wellFormed r1 = true → wellFormed r2 = true →
  - 2 ^ 63 ≤ id r1 < 2 ^ 63 → - 2 ^ 63 ≤ id r2 < 2 ^ 63 →
  rowCanonical r1 = Ok c → rowCanonical r2 = Ok c → content r1 = content r2.
Proof.
  intros H1%row_value_wf H2%row_value_wf Hi1 Hi2 Hc1%parse_strict_canonical Hc2%parse_strict_canonical; try done.
  rewrite row_norm in Hc1, Hc2. assert (row_value r1 = row_value r2) as He by congruence. unfold row_value in He.
  injection He as Ha Hb Hd Hi Ht. unfold content. apply Itoa_inj in Hi; [congruence|done..].
Qed.

Lemma genesis_not_row prev c : genesisLabel ≠ rowLabel ++ prev ++ c.
Proof. intros He. vm_compute in He. done. Qed.

(** ** Lemmas: two logs with the same chain head *)

Lemma chainHash_inv p r h : chainHash p r = Ok h → ∃ c, rowCanonical r = Ok c ∧ h = sha256 (rowLabel ++ p ++ c).
Proof. unfold chainHash. destruct (rowCanonical r) as [c|]; [|done]. intros [= <-]. eauto. Qed.

Lemma chain_snoc p l r h : chain p (l ++ [r]) = Some h → ∃ h', chain p l = Some h' ∧ chainHash h' r = Ok h.
Proof.
  revert p. induction l as [|x l IH]; intros p; simpl.
  - destruct (chainHash p r) as [h'|] eqn:Hh; [|done]. intros [= ->]. eauto.
  - destruct (chainHash p x); [apply IH|done].
Qed.

Lemma hashed_rows_snoc p l r h c : chain p l = Some h → rowCanonical r = Ok c →
  hashed_rows p (l ++ [r]) = hashed_rows p l ++ [rowLabel ++ h ++ c].
Proof.
  revert p. induction l as [|x l IH]; intros p Hl Hr; simpl in *.
  - injection Hl as ->. by rewrite Hr.
  - unfold chainHash in Hl. destruct (rowCanonical x) as [cx|]; [|done]. simpl. f_equal. by apply IH.
Qed.

(** Two texts hashed by the walks over the two logs that SHA-256 maps to one
    digest. *)
Definition collision (db1 db2 : list row) : Prop :=
  ∃ x y, x ∈ hashed db1 ∧ y ∈ hashed db2 ∧ x ≠ y ∧ sha256 x = sha256 y.

Definition chainable (r : row) : Prop := wellFormed r = true ∧ - 2 ^ 63 < id r < 2 ^ 63.

Lemma collision_snoc l1 l2 r1 r2 h1 h2 k1 k2 : chain genesis l1 = Some h1 → chain genesis l2 = Some h2 →
  chainHash h1 r1 = Ok k1 → chainHash h2 r2 = Ok k2 → collision l1 l2 → collision (l1 ++ [r1]) (l2 ++ [r2]).
Proof.
  intros Hl1 Hl2 (c1 & Hc1 & _)%chainHash_inv (c2 & Hc2 & _)%chainHash_inv (x & y & Hx & Hy & Hne & He).
  exists x, y. unfold hashed in *.
  rewrite (hashed_rows_snoc _ _ _ _ _ Hl1 Hc1), (hashed_rows_snoc _ _ _ _ _ Hl2 Hc2).
  rewrite !app_comm_cons. split_and!; [apply elem_of_app; by left|apply elem_of_app; by left|done|done].
Qed.

Lemma chain_genesis_snoc l r h : chain genesis (l ++ [r]) = Some h → h = genesis →
  ∃ x, x ∈ hashed (l ++ [r]) ∧ x ≠ genesisLabel ∧ sha256 x = sha256 genesisLabel.
Proof.
  intros (h' & Hl & Hr)%chain_snoc ->. apply chainHash_inv in Hr as (c & Hc & Hg).
  exists (rowLabel ++ h' ++ c). unfold hashed. rewrite (hashed_rows_snoc _ _ _ _ _ Hl Hc).
  split_and!; [set_solver|intros He; by eapply genesis_not_row|done].
Qed.

Lemma chain_length `{!AuditLaws} l h : chain genesis l = Some h → length h = 32%nat.
Proof.
  destruct l as [|r l _] using rev_ind; intros Hc.
  - injection Hc as <-. apply sha256_length.
  - apply chain_snoc in Hc as (h' & _ & (c & _ & ->)%chainHash_inv). apply sha256_length.
Qed.

Lemma chain_determines `{!AuditLaws} l1 l2 h : Forall chainable l1 → Forall chainable l2 →
  chain genesis l1 = Some h → chain genesis l2 = Some h → map content l1 = map content l2 ∨ collision l1 l2.
Proof.
  revert l2 h. induction l1 as [|r1 l1 IH] using rev_ind; intros l2 h Hw1 Hw2 Hc1 Hc2;
    destruct l2 as [|r2 l2 _] using rev_ind.
  - by left.
  - right. injection Hc1 as <-. destruct (chain_genesis_snoc _ _ _ Hc2 eq_refl) as (x & ? & ? & ?).
    exists genesisLabel, x. split_and!; [by left|done|done|done].
  - right. injection Hc2 as <-. destruct (chain_genesis_snoc _ _ _ Hc1 eq_refl) as (x & ? & ? & ?).
    exists x, genesisLabel. split_and!; [done|by left|done|done].
  - apply chain_snoc in Hc1 as (h1 & Hl1 & Hr1), Hc2 as (h2 & Hl2 & Hr2).
    apply Forall_app in Hw1 as [Hw1 [[Hwf1 Hi1] _]%Forall_cons], Hw2 as [Hw2 [[Hwf2 Hi2] _]%Forall_cons].
    pose proof Hr1 as (c1 & Hk1 & He1)%chainHash_inv. pose proof Hr2 as (c2 & Hk2 & He2)%chainHash_inv.
    destruct (decide (rowLabel ++ h1 ++ c1 = rowLabel ++ h2 ++ c2)) as [He|Hne].
    + apply app_inv_head, app_inj_1 in He as [-> ->];
        [|by rewrite (chain_length _ _ Hl1), (chain_length _ _ Hl2)].
      destruct (IH l2 h2) as [Hcont|Hcol]; try done.
      * left. rewrite !map_app, Hcont. simpl. do 2 f_equal. eapply rowCanonical_inj; try done; lia.
      * right. by eapply collision_snoc.
    + right. exists (rowLabel ++ h1 ++ c1), (rowLabel ++ h2 ++ c2). unfold hashed.
      rewrite (hashed_rows_snoc _ _ _ _ _ Hl1 Hk1), (hashed_rows_snoc _ _ _ _ _ Hl2 Hk2).
      rewrite !app_comm_cons. split_and!; [apply elem_of_app; right; by left|apply elem_of_app; right; by left|done|congruence].
Qed.
End Rows.

Section Theorems.
Context `{AuditEnv}.

(** ** Verification decides the specification *)

Lemma init_phase l h : phase_of (init_state l h) = Legacy genesis 0 0.
Proof. done. Qed.

Lemma missing_none s : anchors s = ∅ → missing_anchor s = 0.
Proof. intros He. unfold missing_anchor. by rewrite He, map_to_list_empty. Qed.

Lemma verify_total_sec db l : id_order db → ∃ v, Verify db l = Some v.
Proof.
  intros Ho. destruct (last db) as [r|] eqn:Hl; [rewrite (Verify_rows db l r Ho Hl); by eexists|].
  unfold Verify. rewrite Hl. by eexists.
Qed.

Lemma anchors_match_empty s r : anchors s = ∅ → anchors_match s r.
Proof. intros He. unfold anchors_match. rewrite He. intros ? ? _. by rewrite lookup_empty. Qed.

Lemma anchored_empty s r : anchors s = ∅ → anchored s r = false.
Proof. intros He. apply anchored_none. by rewrite He, lookup_empty. Qed.

Lemma legacyAnchor_rows rows s s' : anchors s = ∅ → good s → check_rows rows s = (true, s') →
  legacyAnchor s' = legacyAnchor s.
Proof.
  revert s. induction rows as [|r rows IH]; intros s He Hg Hc; simpl in Hc; [by injection Hc as <-|].
  destruct (check r s) as [[|] s1] eqn:Hr; [|done].
  destruct (check_true _ _ _ Hg Hr) as (_ & Hg1 & Ha1 & _ & _ & Hl1).
  rewrite (IH s1); [|by rewrite Ha1|done|done]. rewrite Hl1, anchored_empty by done. done.
Qed.

Lemma finish_no_anchors s : anchors s = ∅ → bad (res s) = None → legacyAnchor s = 0 → bad (finish s) = None.
Proof.
  intros He Hb Hl. unfold finish, checkAnchorsMissing. rewrite Hb, missing_none by done. simpl.
  by rewrite Hb, Hl.
Qed.

Lemma verify_ok_spec db : id_order db → (∃ v, Verify db [] = Some v ∧ bad v = None) ↔ LogOK db.
Proof.
  intros Ho. destruct (last db) as [r|] eqn:Hl.
  2:{ apply last_None in Hl as ->. split; [intros _; eexists; constructor|].
      intros _. eexists. split; [done|]. simpl. unfold checkAnchorsMissing. simpl. by rewrite missing_none. }
  rewrite (Verify_rows db [] r Ho Hl). set (s0 := init_state [] _). split.
  - intros (v & Hv & Hb). injection Hv as Hv. destruct (check_rows db s0) as [[|] s] eqn:Hc.
    + apply check_rows_true in Hc as (Hsteps & _); [|done]. by exists (phase_of s).
    + subst v. by apply check_rows_false in Hc.
  - intros [p Hp]. destruct (check_rows_complete db s0 p) as [s Hs]; [done|done|by intros; apply anchors_match_empty|].
    rewrite Hs. eexists. split; [done|]. pose proof Hs as Hs'.
    apply check_rows_true in Hs as (_ & [Hb _] & Ha & _); [|done].
    apply finish_no_anchors; [by rewrite Ha|done|]. by rewrite (legacyAnchor_rows db s0 s).
Qed.

(** ** Anchors *)

Lemma finish_anchor a s : anchors s = {[anchorID a := [anchorHash a]]} → anchorID a ≠ 0 →
  bad (finish s) = None → anchorID a ∈ seen s ∧ legacyAnchor s = 0 ∧ bad (res s) = None.
Proof.
  intros Ha Hid. unfold finish, checkAnchorsMissing. cbv zeta.
  assert (missing_anchor s = if bool_decide (anchorID a ∈ seen s) then 0 else anchorID a) as ->.
  { unfold missing_anchor. rewrite Ha, map_to_list_singleton. simpl.
    repeat case_bool_decide; simpl; done. }
  destruct (bad (res s)) eqn:Hb; [intros Hx; simpl in Hx; rewrite Hb in Hx; congruence|]. case_bool_decide; simpl.
  - rewrite Hb. destruct (legacyAnchor s =? 0) eqn:Hl; [|done]. bprop. done.
  - rewrite (proj2 (Z.eqb_neq _ _) Hid). done.
Qed.

Lemma StronglySorted_upto db l1 r l2 : StronglySorted id_lt db → db = l1 ++ r :: l2 →
  filter (λ x, id x ≤ id r) db = l1 ++ [r].
Proof.
  intros Hs ->. apply StronglySorted_app in Hs as (Hc & _ & [_ Ha]%StronglySorted_inv).
  rewrite filter_app, filter_cons_True by lia. rewrite filter_all, filter_none; [done|..].
  - rewrite Forall_forall in *. intros x Hx. specialize (Ha x Hx). unfold id_lt in *. lia.
  - apply Forall_forall. intros x Hx. specialize (Hc x r Hx ltac:(by left)). unfold id_lt in *. lia.
Qed.

Definition upto (a : Anchor) (db : list row) : list row := filter (λ x, id x ≤ anchorID a) db.

Lemma chain_app p l1 l2 : chain p (l1 ++ l2) =
  match chain p l1 with Some h => chain h l2 | None => None end.
Proof. revert p. induction l1 as [|r l1 IH]; intros p; simpl; [done|]. destruct (chainHash p r); [apply IH|done]. Qed.

Lemma rows_step_app_inv p1 l1 l2 p3 : rows_step p1 (l1 ++ l2) p3 →
  ∃ p2, rows_step p1 l1 p2 ∧ rows_step p2 l2 p3.
Proof.
  revert p1. induction l1 as [|r l1 IH]; intros p1 Hs; [exists p1; split; [constructor|done]|].
  inversion Hs as [|? ? p2 ? ? Hr Hrs]; subst. destruct (IH _ Hrs) as (p & ? & ?).
  exists p. split; [by econstructor|done].
Qed.

Lemma row_step_hash p r p' want : row_step p r p' → hash r = Some want → want = encodeHash (phase_prev p').
Proof. destruct 1; simpl; congruence. Qed.

(** A clean verification against an anchor fixes the chain's head at the
    anchored row. *)
Lemma verify_anchor db a v : id_order db → anchorID a ≠ 0 → Verify db [a] = Some v → bad v = None →
  Forall chainable (upto a db) ∧ ∃ h, chain genesis (upto a db) = Some h ∧ anchorHash a = encodeHash h.
Proof.
  intros Ho Hid Hv Hb. assert (anchor_map [a] = {[anchorID a := [anchorHash a]]}) as Hmap by done.
  destruct (last db) as [hr|] eqn:Hl.
  2:{ exfalso. unfold Verify in Hv. rewrite Hl in Hv. injection Hv as <-.
      assert (missing_anchor (init_state [a] None) = anchorID a) as Hm.
      { unfold missing_anchor. cbn [anchors init_state]. rewrite Hmap, map_to_list_singleton. simpl.
        by rewrite bool_decide_eq_true_2 by set_solver. }
      unfold checkAnchorsMissing in Hb. rewrite Hm in Hb. simpl in Hb.
      by rewrite (proj2 (Z.eqb_neq _ _) Hid) in Hb. }
  rewrite (Verify_rows db [a] hr Ho Hl) in Hv. set (s0 := init_state [a] _) in Hv. injection Hv as <-.
  destruct (check_rows db s0) as [[|] s] eqn:Hc; [|by apply check_rows_false in Hc].
  apply check_rows_true in Hc as (Hsteps & _ & Ha & Hmatch & Hseen & Hleg); [|done].
  apply (finish_anchor a) in Hb as (Hin & Hla & _); [|by rewrite Ha|done].
  apply Hseen in Hin as [Hin|(r & Hr & Hrid)]; [by apply not_elem_of_empty in Hin|].
  apply list_elem_of_split in Hr as (l1 & l2 & Hdb). rewrite Hdb in Hsteps.
  assert (upto a db = l1 ++ [r]) as Hup.
  { unfold upto. rewrite <- Hrid. eapply StronglySorted_upto; [apply Ho|done]. }
  assert (r ∈ db) as Hrdb by (rewrite Hdb; set_solver).
  assert (anchors s0 !! id r = Some [anchorHash a]) as Hlook.
  { cbn [anchors s0 init_state]. by rewrite Hmap, Hrid, lookup_singleton_eq. }
  destruct (hash r) as [want|] eqn:Hh.
  2:{ exfalso. destruct (Hleg Hla) as [_ Hz]. rewrite (Hz r) in Hrid; [done|done|by eapply anchored_some|done]. }
  pose proof (Hmatch r Hrdb want _ Hh Hlook) as Hw. apply Forall_cons in Hw as [Hw _].
  apply rows_step_app_inv in Hsteps as (p1 & Hs1 & Hs2).
  assert (∃ p2, row_step p1 r p2) as [p2 Hr2] by (inversion Hs2; eauto).
  pose proof (rows_step_snoc _ _ _ _ _ Hs1 Hr2) as Hs. apply rows_step_chain in Hs as [Hch Hwf].
  rewrite Hup. split.
  - destruct Ho as [_ Hrange]. rewrite Hdb in Hrange. rewrite Forall_forall in *.
    intros x Hx. split; [by apply Hwf|]. apply Hrange. set_solver.
  - exists (phase_prev p2). split; [exact Hch|]. by rewrite Hw, (row_step_hash _ _ _ _ Hr2 Hh).
Qed.

Lemma chain_bytes `{!AuditLaws} l h : chain genesis l = Some h → forallb is_byte h = true.
Proof.
  destruct l as [|r l _] using rev_ind; intros Hc.
  - injection Hc as <-. apply sha256_bytes.
  - apply chain_snoc in Hc as (h' & _ & (c & _ & ->)%chainHash_inv). apply sha256_bytes.
Qed.

Lemma tamper_evidence_sec `{!AuditLaws} db1 db2 a v1 v2 : id_order db1 → id_order db2 → anchorID a ≠ 0 →
  Verify db1 [a] = Some v1 → bad v1 = None → Verify db2 [a] = Some v2 → bad v2 = None →
  map content (upto a db1) = map content (upto a db2) ∨ collision (upto a db1) (upto a db2).
Proof.
  intros Ho1 Ho2 Hid Hv1 Hb1 Hv2 Hb2.
  destruct (verify_anchor _ _ _ Ho1 Hid Hv1 Hb1) as (Hc1 & h1 & Hh1 & He1).
  destruct (verify_anchor _ _ _ Ho2 Hid Hv2 Hb2) as (Hc2 & h2 & Hh2 & He2).
  assert (h1 = h2) as <-.
  { apply hex_encode_inj; [by eapply chain_bytes|by eapply chain_bytes|]. unfold encodeHash in *. congruence. }
  by eapply chain_determines.
Qed.
End Theorems.

Section Appending.
Context `{AuditLaws}.

(** ** Appending keeps the log well chained *)

Lemma legacy_phase p0 db h n l : rows_step p0 db (Legacy h n l) →
  ∃ h0 n0 l0, p0 = Legacy h0 n0 l0 ∧ Forall (λ r, hash r = None) db ∧
    legacyChain db h0 n0 l0 = Ok (h, n, l) ∧ n = n0 + Z.of_nat (length db).
Proof.
  remember (Legacy h n l) as p eqn:Hp. intros Hs. revert Hp.
  induction Hs as [|p1 r p2 rows p3 Hr Hrs IH]; intros ->.
  - exists h, n, l. split_and!; [done|constructor|done|simpl; lia].
  - destruct (IH eq_refl) as (h0 & n0 & l0 & -> & Hf & Hl & Hn).
    inversion Hr as [prev m last ? h1 Hh Hw Hc| |]; subst. exists prev, m, last.
    split_and!; [done|by constructor|simpl; by rewrite Hc|simpl length; lia].
Qed.

Lemma last_phase p0 db r p : rows_step p0 (db ++ [r]) p →
  match p with
  | Legacy h n l => hash r = None ∧ l = id r
  | Chained h l => hash r = Some (encodeHash h) ∧ l = id r
  end.
Proof.
  intros (p1 & _ & Hs)%rows_step_app_inv. inversion Hs as [|? ? p2 ? ? Hr Hrs]; subst.
  inversion Hrs; subst. by destruct Hr.
Qed.

Lemma not_chained db : Forall (λ r, hash r = None) db → existsb is_chained db = false.
Proof. induction 1 as [|r db Hr _ IH]; simpl; [done|]. unfold is_chained at 1. by rewrite Hr. Qed.

Lemma chained_exists db r want : last db = Some r → hash r = Some want → existsb is_chained db = true.
Proof.
  intros (l & ->)%last_snoc_inv Hh. rewrite existsb_app. simpl. unfold is_chained at 2. rewrite Hh.
  by rewrite orb_true_r.
Qed.

Lemma insertRow_ok db rid h now a act d : - maxSafeInt < rid < maxSafeInt →
  ∃ k, (∀ s, chainHash h (Row rid now a act d s) = Ok k) ∧
    insertRow db rid h now a act d = Ok (db ++ [Row rid now a act d (Some (encodeHash k))], k).
Proof.
  intros Hr. destruct (rowCanonical_ok (Row rid now a act d None) Hr) as [c Hc].
  exists (sha256 (rowLabel ++ h ++ c)).
  assert (∀ s, chainHash h (Row rid now a act d s) = Ok (sha256 (rowLabel ++ h ++ c))) as Hch.
  { intros s. unfold chainHash. change (rowCanonical (Row rid now a act d s)) with (rowCanonical (Row rid now a act d None)).
    by rewrite Hc. }
  split; [done|]. unfold insertRow. by rewrite Hch.
Qed.

Lemma decode_encode_hash h : length h = 32%nat → forallb is_byte h = true → decodeHash (encodeHash h) = Some h.
Proof.
  intros Hl Hb. unfold decodeHash, encodeHash. rewrite hex_roundtrip by done.
  by rewrite Hl, bool_decide_eq_true_2.
Qed.

(** What a caller gives an append, and the clock. *)
Definition writable (now a act : bytes) (d : option bytes) : Prop :=
  ts_valid now = true ∧ valid_utf8 now = true ∧ valid_utf8 a = true ∧ valid_utf8 act = true ∧ a ≠ [] ∧ act ≠ [] ∧
  ∀ raw, d = Some raw → json_valid raw = true ∧ valid_utf8 raw = true.

(** Ids below 2^53 (a row's id is a canonical number) and a table of int64 size. *)
Definition room (db : list row) : Prop :=
  Z.of_nat (length db) < 2 ^ 63 ∧ ∀ r, last db = Some r → 0 ≤ id r ∧ id r + 2 < maxSafeInt.

Definition raw_detail (d : option bytes) : bytes := default (bytes_of "{}") d.

Lemma chained_row_step h l now a act raw k : wellFormed (Row (l + 1) now a act raw None) = true →
  (∀ s, chainHash h (Row (l + 1) now a act raw s) = Ok k) →
  row_step (Chained h l) (Row (l + 1) now a act raw (Some (encodeHash k))) (Chained k (l + 1)).
Proof. intros Hw Hc. by apply step_chained. Qed.

Lemma id_order_snoc db l r : id_order db → last db = l → (∀ x, l = Some x → id x < id r) →
  - 2 ^ 63 < id r < 2 ^ 63 → id_order (db ++ [r]).
Proof.
  intros [Hs Hr] Hl Hlt Hb. split; [|apply Forall_app; split; [done|by apply Forall_singleton]].
  apply StronglySorted_app_2; [|done|by repeat constructor].
  intros x y Hx ->%list_elem_of_singleton. destruct l as [z|]; [|apply last_None in Hl; subst; by apply not_elem_of_nil in Hx].
  destruct (last_snoc_inv _ _ Hl) as [db' ->]. specialize (Hlt z eq_refl). unfold id_lt.
  apply elem_of_app in Hx as [Hx| ->%list_elem_of_singleton]; [|done].
  apply StronglySorted_app in Hs as (Hc & _). specialize (Hc x z Hx ltac:(by left)). unfold id_lt in *. lia.
Qed.

(** An append after the chain start: one row. *)
Lemma appendChained_chained db h l now a act raw r : rows_step (Legacy genesis 0 0) db (Chained h l) →
  last db = Some r → - maxSafeInt < l + 1 < maxSafeInt →
  ∃ k, (∀ s, chainHash h (Row (l + 1) now a act raw s) = Ok k) ∧
    appendChained db now a act raw = Ok (db ++ [Row (l + 1) now a act raw (Some (encodeHash k))]).
Proof.
  intros Hs Hl Hb. destruct (last_snoc_inv _ _ Hl) as [db' Hdb]. pose proof Hs as Hs'. rewrite Hdb in Hs'.
  apply last_phase in Hs' as [Hh ->]. apply rows_step_chain in Hs as [Hc _]. simpl in Hc.
  destruct (insertRow_ok db (id r + 1) h now a act raw Hb) as (k & Hk & Hi).
  exists k. split; [done|]. unfold appendChained. rewrite Hl, Hh.
  rewrite decode_encode_hash by (by eapply chain_length || by eapply chain_bytes). by rewrite Hi.
Qed.

(** The first append of a legacy table: the chain-start row, then the row. *)
Lemma appendChained_legacy db h n l now a act raw : rows_step (Legacy genesis 0 0) db (Legacy h n l) →
  l = match last db with Some r => id r | None => 0 end → 0 ≤ l → l + 2 < maxSafeInt →
  ∃ k0 k, (∀ s, chainHash h (Row (l + 1) now ActorDaemon ActionChainStart (marshal_chain_start l n) s) = Ok k0) ∧
    (∀ s, chainHash k0 (Row (l + 1 + 1) now a act raw s) = Ok k) ∧
    appendChained db now a act raw =
      Ok (db ++ [Row (l + 1) now ActorDaemon ActionChainStart (marshal_chain_start l n) (Some (encodeHash k0));
                 Row (l + 1 + 1) now a act raw (Some (encodeHash k))]).
Proof.
  unfold maxSafeInt. intros Hs Hl Hlo Hhi. destruct (legacy_phase _ _ _ _ _ Hs) as (? & ? & ? & [= <- <- <-] & Hf & Hlc & _).
  destruct (insertRow_ok db (l + 1) h now ActorDaemon ActionChainStart (marshal_chain_start l n)) as (k0 & Hk0 & Hi0);
    [unfold maxSafeInt; lia|].
  destruct (insertRow_ok (db ++ [Row (l + 1) now ActorDaemon ActionChainStart (marshal_chain_start l n) (Some (encodeHash k0))])
    (l + 1 + 1) k0 now a act raw) as (k & Hk & Hi); [unfold maxSafeInt; lia|].
  exists k0, k. split_and!; [done|done|]. unfold appendChained.
  assert (match last db with Some r => (id r, hash r) | None => (0, None) end = (l, None)) as ->.
  { destruct (last db) as [r|] eqn:Hlast; [|by rewrite Hl]. destruct (last_snoc_inv _ _ Hlast) as [db' ->].
    apply Forall_app in Hf as [_ [Hf _]%Forall_cons]. by rewrite Hl, Hf. }
  unfold startChain. rewrite not_chained, Hlc, Hi0 by done. rewrite Hi. by rewrite <- app_assoc.
Qed.

Lemma append_ok_sec db now a act d : id_order db → LogOK db → room db → writable now a act d →
  ∃ new r, Append db now a act d = (db ++ new ++ [r], Ok tt) ∧
    actor r = a ∧ action r = act ∧ detail r = raw_detail d ∧ ts r = now ∧
    length new = (if existsb is_chained db then 0 else 1)%nat ∧
    LogOK (db ++ new ++ [r]) ∧ id_order (db ++ new ++ [r]).
Proof.
  intros Ho [p Hp] [Hsize Hroom] (Hts & Hnow & Ha & Hact & Hane & Hactne & Hd).
  unfold maxSafeInt in Hroom.
  assert (json_valid (raw_detail d) = true ∧ valid_utf8 (raw_detail d) = true) as [Hj Hu].
  { destruct d as [raw|]; [by apply Hd|]. split; [apply empty_object_json|done]. }
  assert (∀ i s, wellFormed (Row i now a act (raw_detail d) s) = true) as Hw.
  { intros i s. unfold wellFormed. simpl. by rewrite Hj, Hts, Hnow, Ha, Hact, Hu. }
  assert (∀ res, appendChained db now a act (raw_detail d) = Ok res → Append db now a act d = (res, Ok tt)) as Happ.
  { intros x Hx. unfold Append, marshalDetail. rewrite !bool_decide_eq_false_2 by done. simpl.
    destruct d; simpl in *; by rewrite Hx. }
  destruct p as [h n l|h l].
  - pose proof (legacy_phase _ _ _ _ _ Hp) as (? & ? & ? & [= <- <- <-] & Hf & _ & Hn).
    assert (l = match last db with Some r => id r | None => 0 end) as Hl.
    { destruct (last db) as [r|] eqn:Hl; [destruct (last_snoc_inv _ _ Hl) as [db' ->]; by apply last_phase in Hp as [_ ?]|].
      apply last_None in Hl as ->. by inversion Hp. }
    assert (0 ≤ l ∧ l + 2 < 2 ^ 53) as [Hlo Hhi].
    { destruct (last db) as [r|]; [|lia]. destruct (Hroom r eq_refl). lia. }
    destruct (appendChained_legacy db h n l now a act (raw_detail d) Hp Hl Hlo Hhi) as (k0 & k & Hk0 & Hk & He).
    eexists [_], _. split_and!; [apply Happ; exact He|done|done|done|done|by rewrite not_chained|..].
    + exists (Chained k (l + 1 + 1)). change (db ++ [?x] ++ [?y]) with (db ++ [x; y]).
      eapply rows_step_app; [done|]. econstructor; [|econstructor; [|constructor]].
      * apply step_start; [done| |by apply Hk0|done|done|].
        -- unfold wellFormed. cbn [detail ts actor action]. by rewrite chain_start_json, Hts, Hnow, chain_start_text by lia.
        -- apply chain_start_roundtrip; lia.
      * by apply chained_row_step.
    + rewrite app_assoc. eapply id_order_snoc; [|by rewrite last_snoc| |simpl; lia].
      * eapply id_order_snoc; [done|done| |simpl; lia]. intros x Hx. rewrite Hx in Hl. simpl. lia.
      * intros x [= <-]. simpl. lia.
  - destruct (last db) as [r|] eqn:Hlast.
    2:{ apply last_None in Hlast as ->. inversion Hp. }
    assert (l = id r ∧ existsb is_chained db = true) as [-> Hex].
    { destruct (last_snoc_inv _ _ Hlast) as [db' Hdb]. rewrite Hdb in Hp. apply last_phase in Hp as [Hh ->].
      split; [done|]. by eapply chained_exists. }
    destruct (Hroom r eq_refl) as [Hlo Hhi].
    destruct (appendChained_chained db h (id r) now a act (raw_detail d) r) as (k & Hk & He);
      [done|done|unfold maxSafeInt; lia|].
    eexists [], _. simpl. split_and!; [apply Happ; exact He|done|done|done|done|by rewrite Hex|..].
    + exists (Chained k (id r + 1)). eapply rows_step_snoc; [done|]. by apply chained_row_step.
    + eapply id_order_snoc; [done|done| |simpl; lia]. intros x [= <-]. simpl. lia.
Qed.
End Appending.

(** ** What the audit log promises *)

(** C33: Verify (internal/audit/chain.go) without anchors reports "ok" exactly
    for the logs the specification accepts: legacy rows, the chain-start row
    sealing their number and last id, then consecutive ids with every stored
    hash committing to its row and to the hash before it. *)
Theorem verify_ok_iff `{AuditEnv} (db : list row) : id_order db →
  (∃ v, Verify db [] = Some v ∧ bad v = None) ↔ LogOK db.
Proof. apply verify_ok_spec. Qed.

(** Verify always ends: reading in pages of verifyPage rows, the page loop
    needs at most one turn per row and one more. *)
Theorem verify_terminates `{AuditEnv} (db : list row) (l : list Anchor) : id_order db → ∃ v, Verify db l = Some v.
Proof. apply verify_total_sec. Qed.

(** C32: tamper evidence. If two logs both verify against one recorded anchor,
    their rows up to the anchored id say the same, or the walks over them
    exhibit two different texts with one SHA-256 digest. *)
Theorem tamper_evidence `{AuditLaws} (db1 db2 : list row) (a : Anchor) (v1 v2 : VerifyResult) :
  id_order db1 → id_order db2 → anchorID a ≠ 0 →
  Verify db1 [a] = Some v1 → bad v1 = None → Verify db2 [a] = Some v2 → bad v2 = None →
  map content (upto a db1) = map content (upto a db2) ∨ collision (upto a db1) (upto a db2).
Proof. apply tamper_evidence_sec. Qed.

(** C39: Append on a log that verifies writes the caller's row, preceded by the
    chain-start row exactly when the table had no stored hash yet, changes no
    row already there, and leaves a log that verifies. *)
Theorem append_verifies `{AuditLaws} (db : list row) (now a act : bytes) (d : option bytes) :
  id_order db → LogOK db → room db → writable now a act d →
  ∃ new r, Append db now a act d = (db ++ new ++ [r], Ok tt) ∧
    actor r = a ∧ action r = act ∧ detail r = raw_detail d ∧ ts r = now ∧
    length new = (if existsb is_chained db then 0 else 1)%nat ∧
    LogOK (db ++ new ++ [r]) ∧ id_order (db ++ new ++ [r]).
Proof. apply append_ok_sec. Qed.

(** ** A concrete environment, for the witnesses *)

Fixpoint be_bytes (k : nat) (n : Z) : bytes :=
  match k with O => [] | S k => be_bytes k (n / 256) ++ [n mod 256] end.

#[export] Instance demo_env : AuditEnv := {|
  sha256 x := be_bytes 32 (fold_left (λ a b, (a * 1000003 + b + 1) mod 2 ^ 256) x 7);
  json_valid d := bool_decide (d ≠ []);
  ts_valid d := bool_decide (d ≠ []);
  marshal_chain_start a b := Itoa a ++ 0x3A :: Itoa b;
  unmarshal_chain_start d :=
    match cut_colon d with
    | Some (a, b) => match ParseInt a, ParseInt b with Some a, Some b => Some (a, b) | _, _ => None end
    | None => None
    end;
|}.

Lemma be_bytes_spec k n : length (be_bytes k n) = k ∧ forallb is_byte (be_bytes k n) = true.
Proof.
  revert n. induction k as [|k IH]; intros n; [done|]. cbn [be_bytes]. destruct (IH (n / 256)) as [Hl Hb].
  rewrite length_app, forallb_app, Hl, Hb. simpl. split; [lia|].
  rewrite andb_true_r. apply in_range_spec. zdivmod.
Qed.

Lemma Itoa_bytes n c : - 2 ^ 63 ≤ n < 2 ^ 63 → c ∈ Itoa n → c = 0x2D ∨ 0x30 ≤ c ≤ 0x39.
Proof.
  intros Hn. unfold Itoa. assert (∀ m, 0 ≤ m ≤ 2 ^ 63 → c ∈ digits_of 20 m → 0x30 ≤ c ≤ 0x39) as Hd.
  { intros m Hm Hc. destruct (digits_of_spec 20 m) as (_ & _ & Hf); [simpl; lia|lia|].
    rewrite forallb_forall in Hf. apply in_range_spec, Hf. by apply list_elem_of_In. }
  destruct (n <? 0) eqn:Hneg; bprop.
  - intros [->|Hc]%elem_of_cons; [by left|right]. apply (Hd (- n)); [lia|done].
  - intros Hc. right. apply (Hd n); [lia|done].
Qed.

Lemma cut_colon_app a b : 0x3A ∉ a → cut_colon (a ++ 0x3A :: b) = Some (a, b).
Proof.
  induction a as [|c a IH]; intros Hn; [done|]. apply not_elem_of_cons in Hn as [Hc Hn]. simpl.
  rewrite (proj2 (Z.eqb_neq c 0x3A)) by done. by rewrite IH.
Qed.

#[export] Instance demo_laws : AuditLaws.
Proof.
  split.
  - intros x. apply be_bytes_spec.
  - intros x. apply be_bytes_spec.
  - intros a b Ha Hb. cbn. rewrite cut_colon_app.
    + by rewrite (proj2 (Itoa_spec a Ha)), (proj2 (Itoa_spec b Hb)).
    + intros Hc. destruct (Itoa_bytes a 0x3A Ha Hc); lia.
  - done.
  - intros a b _ _. cbn. apply bool_decide_eq_true_2. by destruct (Itoa a).
  - intros a b Ha Hb. cbn. apply valid_ascii. intros c [Hc|[->|Hc]%elem_of_cons]%elem_of_app; [|lia|].
    + destruct (Itoa_bytes a c Ha Hc); lia.
    + destruct (Itoa_bytes b c Hb Hc); lia.
Qed.

Definition demo_ts : bytes := bytes_of "2026-01-02T03:04:05Z".
(** One legacy row, then two appended ones after the chain-start row. *)
Definition demo_legacy : list row := [Row 7 demo_ts (bytes_of "cli") (bytes_of "peer.verify") (bytes_of "{}") None].
Definition demo_log1 : list row := Eval vm_compute in fst (Append demo_legacy demo_ts ActorDaemon (bytes_of "daemon.start") None).
Definition demo_log : list row := Eval vm_compute in fst (Append demo_log1 demo_ts ActorDaemon (bytes_of "daemon.stop") (Some (bytes_of "[1]"))).
Definition demo_anchor : Anchor :=
  match last demo_log1 with Some r => MkAnchor (id r) (default [] (hash r)) | None => MkAnchor 1 [] end.

Lemma demo_order (db : list row) :
  bool_decide (StronglySorted (λ a b, id a < id b) db) && forallb (λ r, (- 2 ^ 63 <? id r) && (id r <? 2 ^ 63)) db = true →
  id_order db.
Proof.
  intros [Hs Hf]%andb_true_iff. apply bool_decide_eq_true in Hs. split; [done|].
  rewrite forallb_forall in Hf. apply Forall_forall. intros r Hr%list_elem_of_In%Hf. bprop. lia.
Qed.

Lemma demo_ok (db : list row) : id_order db → match Verify db [] with Some v => bool_decide (bad v = None) | None => false end = true → LogOK db.
Proof.
  intros Ho Hv. apply verify_ok_spec; [done|]. destruct (Verify db []) as [v|]; [|done].
  exists v. split; [done|]. by apply bool_decide_eq_true in Hv.
Qed.

Lemma verify_ok_iff_witness : id_order demo_log ∧ LogOK demo_log.
Proof.
  assert (id_order demo_log) as Ho by (apply demo_order; vm_compute; reflexivity).
  split; [exact Ho|]. apply (verify_ok_iff demo_log Ho).
  eexists. split; [vm_compute; reflexivity|reflexivity].
Defined.

Lemma verify_terminates_witness : ∃ v, Verify demo_log [demo_anchor] = Some v.
Proof. apply (verify_terminates demo_log [demo_anchor]). apply demo_order. vm_compute. reflexivity. Defined.

Lemma tamper_evidence_witness :
  anchorID demo_anchor = 9 ∧
  (map content (upto demo_anchor demo_log) = map content (upto demo_anchor demo_log1) ∨
   collision (upto demo_anchor demo_log) (upto demo_anchor demo_log1)).
Proof.
  split; [vm_compute; reflexivity|].
  eapply (tamper_evidence demo_log demo_log1 demo_anchor).
  - apply demo_order. vm_compute. reflexivity.
  - apply demo_order. vm_compute. reflexivity.
  - vm_compute. discriminate.
  - vm_compute. reflexivity.
  - reflexivity.
  - vm_compute. reflexivity.
  - reflexivity.
Defined.

Lemma append_verifies_witness :
  ∃ new r, Append demo_legacy demo_ts ActorDaemon (bytes_of "daemon.start") None = (demo_legacy ++ new ++ [r], Ok tt) ∧
    actor r = ActorDaemon ∧ action r = bytes_of "daemon.start" ∧ detail r = bytes_of "{}" ∧ ts r = demo_ts ∧
    length new = 1%nat ∧ LogOK (demo_legacy ++ new ++ [r]) ∧ id_order (demo_legacy ++ new ++ [r]).
Proof.
  assert (id_order demo_legacy) as Ho by (apply demo_order; vm_compute; reflexivity).
  apply (append_verifies demo_legacy demo_ts ActorDaemon (bytes_of "daemon.start") None Ho).
  - apply demo_ok; [exact Ho|vm_compute; reflexivity].
  - split; [vm_compute; reflexivity|]. intros r Hr. injection Hr as <-. vm_compute. split; [discriminate|reflexivity].
  - repeat split; try (vm_compute; reflexivity); discriminate.
Defined.
