(* ===== verification/Ledger.v ===== *)
(** * The relay's memory budgets and connection buffers
    (internal/relay/budget.go, internal/relay/conn.go)

    A [relay] holds the three budgets of the ledger and the connections, each
    with its buffers and what it holds of each budget. Every function of
    conn.go that takes c.bmu is one atomic operation here, so the interleaving
    of the relay's goroutines is a sequence of these operations. A time is a
    number of nanoseconds; [None] is Go's zero time. *)

From S2P Require Import Prelude.

Open Scope Z_scope.

Inductive budgetKind := kindOutbound | kindRead | kindEphemeral.

#[export] Instance budgetKind_eq_dec : EqDecision budgetKind.
Proof. solve_decision. Defined.

(** [numKinds]A: one A per budget. *)
Record per_kind (A : Type) := PerKind { of_outbound : A; of_read : A; of_ephemeral : A }.
Arguments PerKind {A}. Arguments of_outbound {A}. Arguments of_read {A}. Arguments of_ephemeral {A}.

Definition kget {A} (k : budgetKind) (p : per_kind A) : A :=
  match k with kindOutbound => of_outbound p | kindRead => of_read p | kindEphemeral => of_ephemeral p end.
Definition kset {A} (k : budgetKind) (a : A) (p : per_kind A) : per_kind A :=
  match k with
  | kindOutbound => PerKind a (of_read p) (of_ephemeral p)
  | kindRead => PerKind (of_outbound p) a (of_ephemeral p)
  | kindEphemeral => PerKind (of_outbound p) (of_read p) a
  end.

Definition outboundShareFloor : Z := Z.shiftl 6 20.
Definition readShareFloor : Z := Z.shiftl 2 20.
Definition ephemeralShareFloor : Z := Z.shiftl 512 10.
Definition second : Z := 1000000000.
Definition evictStaleBase : Z := 2 * second.
Definition evictMinRate : Z := Z.shiftl 512 10.

(** int64 arithmetic, wrapped. *)
Definition wrap64 (x : Z) : Z := (x + 2 ^ 63) mod 2 ^ 64 - 2 ^ 63.

Definition share (b floor : Z) : Z := if b <=? 0 then 0 else Z.min b (Z.max (Z.quot b 8) floor).

(** evictStale: the multiplication by time.Second is in int64. *)
Definition evictStale (held : Z) : Z := evictStaleBase + Z.quot (wrap64 (held * second)) evictMinRate.

Record prefixUse := MkUse { used_by : Z; holders : gset Z }.

Record pool := MkPool { max : Z; pshare : Z; used : Z; prefixes : gmap string prefixUse }.

(** One frame waiting in an outbound buffer. *)
Record pending := MkPending { kind : budgetKind; n : Z; at_time : Z }.

Record conn := MkConn {
  prefix : string;
  cap : nat;                       (* of the out channel *)
  maxBytes : Z;
  out : list bytes;
  inflight : option bytes;         (* the frame the write loop has taken from out *)
  outBytes : Z;
  ephBytes : Z;
  resv : Z;
  readHeld : Z;
  dead : bool;
  hold : per_kind Z;
  readStart : option Z;
  queue : list pending;
}.

Record relay := MkRelay { now : Z; pools : per_kind pool; conns : gmap Z conn }.

Definition new_pool (size floor : Z) : pool := MkPool size (share size floor) 0 ∅.

Definition newLedger (outbound read ephemeral : Z) (t : Z) : relay :=
  MkRelay t (PerKind (new_pool outbound outboundShareFloor) (new_pool read readShareFloor)
               (new_pool ephemeral ephemeralShareFloor)) ∅.

Definition newConn (pfx : string) (qcap : nat) (mb : Z) : conn :=
  MkConn pfx qcap mb [] None 0 0 0 0 false (PerKind 0 0 0) None [].

(** ** Record updates *)

Definition set_hold (h : per_kind Z) (c : conn) : conn :=
  MkConn (prefix c) (cap c) (maxBytes c) (out c) (inflight c) (outBytes c) (ephBytes c) (resv c) (readHeld c) (dead c)
    h (readStart c) (queue c).
Definition set_queue (q : list pending) (c : conn) : conn :=
  MkConn (prefix c) (cap c) (maxBytes c) (out c) (inflight c) (outBytes c) (ephBytes c) (resv c) (readHeld c) (dead c)
    (hold c) (readStart c) q.
Definition set_readStart (t : option Z) (c : conn) : conn :=
  MkConn (prefix c) (cap c) (maxBytes c) (out c) (inflight c) (outBytes c) (ephBytes c) (resv c) (readHeld c) (dead c)
    (hold c) t (queue c).
(** outBytes, ephBytes, resv and readHeld *)
Definition set_bytes (ob eb rs rh : Z) (c : conn) : conn :=
  MkConn (prefix c) (cap c) (maxBytes c) (out c) (inflight c) ob eb rs rh (dead c) (hold c) (readStart c) (queue c).
Definition set_out (o : list bytes) (f : option bytes) (c : conn) : conn :=
  MkConn (prefix c) (cap c) (maxBytes c) o f (outBytes c) (ephBytes c) (resv c) (readHeld c) (dead c)
    (hold c) (readStart c) (queue c).
Definition set_dead (c : conn) : conn :=
  MkConn (prefix c) (cap c) (maxBytes c) (out c) (inflight c) (outBytes c) (ephBytes c) (resv c) (readHeld c) true
    (hold c) (readStart c) (queue c).

Definition set_pool (k : budgetKind) (b : pool) (l : relay) : relay := MkRelay (now l) (kset k b (pools l)) (conns l).
Definition set_conn (i : Z) (c : conn) (l : relay) : relay := MkRelay (now l) (pools l) (<[i := c]> (conns l)).

(** ** The ledger (budget.go) *)

(** fits: (ok, over). *)
Definition fits (b : pool) (p : option prefixUse) (k : Z) : bool * bool :=
  let p_used := match p with Some p => used_by p | None => 0 end in
  if (0 <? pshare b) && bool_decide (is_Some p) && (0 <? p_used) && (pshare b <? p_used + k) then (false, true)
  else if (0 <? max b) && (0 <? used b) && (max b <? used b + k) then (false, false)
  else (true, false).

Definition ledger_used (k : budgetKind) (l : relay) : Z := used (kget k (pools l)).
Definition usedBy (k : budgetKind) (pfx : string) (l : relay) : Z :=
  match prefixes (kget k (pools l)) !! pfx with Some p => used_by p | None => 0 end.

Inductive over_reason := fits_ok | over_prefix | over_relay.
Definition over (c : conn) (k : budgetKind) (m : Z) (l : relay) : over_reason :=
  let b := kget k (pools l) in
  match fits b (prefixes b !! prefix c) m with
  | (true, _) => fits_ok
  | (false, true) => over_prefix
  | (false, false) => over_relay
  end.

(** charge of m bytes to connection i, [c]: (ok, over). *)
Definition charge (i : Z) (c : conn) (k : budgetKind) (m : Z) (force frame : bool) (l : relay) : relay * conn * (bool * bool) :=
  if m <=? 0 then (l, c, (true, false))
  else
    let b := kget k (pools l) in
    let p := prefixes b !! prefix c in
    let '(ok, ov) := if force then (true, false) else fits b p m in
    if negb ok then (l, c, (false, ov))
    else
      let p := default (MkUse 0 ∅) p in
      let p' := MkUse (used_by p + m) ({[i]} ∪ holders p) in
      let b' := MkPool (max b) (pshare b) (used b + m) (<[prefix c := p']> (prefixes b)) in
      let c1 := set_hold (kset k (kget k (hold c) + m) (hold c)) c in
      let c2 := if frame then set_queue (queue c1 ++ [MkPending k m (now l)]) c1 else c1 in
      (set_conn i c2 (set_pool k b' l), c2, (true, false)).

Definition unchargeLocked (i : Z) (c : conn) (k : budgetKind) (m : Z) (l : relay) : relay * conn :=
  let m := Z.min m (kget k (hold c)) in
  if m <=? 0 then (l, c)
  else
    let b := kget k (pools l) in
    let c1 := set_hold (kset k (kget k (hold c) - m) (hold c)) c in
    let ps :=
      match prefixes b !! prefix c with
      | None => prefixes b
      | Some p =>
          let hs := if kget k (hold c1) =? 0 then holders p ∖ {[i]} else holders p in
          if bool_decide (hs = ∅) then delete (prefix c) (prefixes b)
          else <[prefix c := MkUse (used_by p - m) hs]> (prefixes b)
      end in
    (set_conn i c1 (set_pool k (MkPool (max b) (pshare b) (used b - m) ps) l), c1).

(** pushed: a frame whose bytes are already charged joins the buffer. *)
Definition pushed (i : Z) (c : conn) (k : budgetKind) (m : Z) (l : relay) : relay * conn :=
  let c1 := set_queue (queue c ++ [MkPending k m (now l)]) c in (set_conn i c1 l, c1).

Definition popWritten (i : Z) (c : conn) (l : relay) : relay * conn * option pending :=
  match queue c with
  | [] => (l, c, None)
  | f :: q =>
      let c1 := set_queue q c in
      let '(l2, c2) := unchargeLocked i c1 (kind f) (n f) (set_conn i c1 l) in
      (l2, c2, Some f)
  end.

Definition releaseAll (i : Z) (c : conn) (l : relay) : relay * conn :=
  let '(l1, c1) := unchargeLocked i c kindOutbound (kget kindOutbound (hold c)) l in
  let '(l2, c2) := unchargeLocked i c1 kindRead (kget kindRead (hold c1)) l1 in
  let '(l3, c3) := unchargeLocked i c2 kindEphemeral (kget kindEphemeral (hold c2)) l2 in
  let c4 := set_queue [] c3 in
  (set_conn i c4 l3, c4).

Definition age (c : conn) (k : budgetKind) : option Z :=
  match k with
  | kindRead => readStart c
  | _ => match queue c with f :: _ => Some (at_time f) | [] => None end
  end.

(** older: a zero time is the newest. *)
Definition older (a b : option Z) : bool :=
  match a, b with Some x, Some y => x <? y | Some _, None => true | None, _ => false end.

(** time.Time.Before: the zero time is before any other. *)
Definition before (a b : option Z) : bool :=
  match a, b with Some x, Some y => x <? y | None, Some _ => true | _, None => false end.

Definition min_time (a b : option Z) : option Z :=
  match a, b with None, b => b | a, None => a | Some x, Some y => if y <? x then Some y else Some x end.

(** oldest: over the holders in any order. *)
Definition oldest (k : budgetKind) (cs : gmap Z conn) (p : prefixUse) : option Z :=
  fold_right (λ i t, match cs !! i with Some c => min_time t (age c k) | None => t end) None (elements (holders p)).

Definition eligible (c r : conn) (k : budgetKind) (ownPrefix : bool) (t : Z) : bool :=
  match k with
  | kindRead => negb ownPrefix || before (readStart c) (readStart r)
  | _ => match queue c with
         | [] => false
         | f :: _ => evictStale (kget kindOutbound (hold c) + kget kindEphemeral (hold c)) <=? t - at_time f
         end
  end.

(** The loop of pick over the prefixes, in the order [ps] of the map's
    iteration: the heaviest one, ties to the oldest charge. *)
Definition pick_heaviest (k : budgetKind) (cs : gmap Z conn) (ps : list (string * prefixUse)) : option (string * prefixUse) :=
  fold_left (λ best x,
    match best with
    | None => Some x
    | Some y => if used_by y.2 <? used_by x.2 then Some x
                else if (used_by x.2 =? used_by y.2) && older (oldest k cs x.2) (oldest k cs y.2) then Some x
                else best
    end) ps None.

(** The loop of pick over the holders of the prefix that pays. *)
Definition pick_holder (i : Z) (r : conn) (k : budgetKind) (own : bool) (t : Z) (cs : gmap Z conn) (hs : list Z) : option Z :=
  fold_left (λ best j,
    match cs !! j with
    | None => best
    | Some c =>
        if bool_decide (j = i) || (kget k (hold c) <=? 0) || negb (eligible c r k own t) then best
        else match best with
             | None => Some j
             | Some b => match cs !! b with
                         | None => Some j
                         | Some h => if (kget k (hold h) <? kget k (hold c)) ||
                                        ((kget k (hold c) =? kget k (hold h)) && older (age c k) (age h k))
                                     then Some j else best
                         end
             end
    end) hs None.

(** pick: the connection that pays for r's charge of m bytes, and its prefix;
    [ps] and [hs] are the iteration orders of the two maps. *)
Definition pick (i : Z) (r : conn) (k : budgetKind) (m : Z) (ov : bool)
    (ps : list (string * prefixUse)) (hs : prefixUse → list Z) (l : relay) : option (Z * string) :=
  let b := kget k (pools l) in
  let rp := prefixes b !! prefix r in
  let rUsed := match rp with Some p => used_by p | None => 0 end in
  let rAge := match k, age r k with kindRead, a => a | _, None => Some (now l) | _, a => a end in
  let pay :=
    if ov then match rp with Some p => Some (prefix r, p) | None => None end
    else match pick_heaviest k (conns l) ps with
         | None => None
         | Some (name, best) =>
             if bool_decide (name = prefix r) || (used_by best <? rUsed + m) then None
             else if (used_by best =? rUsed + m) && negb (older (oldest k (conns l) best) rAge) then None
             else Some (name, best)
         end in
  match pay with
  | None => None
  | Some (name, p) =>
      match pick_holder i r k (bool_decide (name = prefix r)) (now l) (conns l) (hs p) with
      | Some j => Some (j, name)
      | None => None
      end
  end.

(** The orders the model runs with; the theorems hold for every order. *)
Definition prefix_order (k : budgetKind) (l : relay) : list (string * prefixUse) := map_to_list (prefixes (kget k (pools l))).
Definition holder_order (p : prefixUse) : list Z := elements (holders p).

(** ** The connection's operations (conn.go), each one critical section *)

(** dieLocked; false if c was dead already. *)
Definition dieLocked (i : Z) (l : relay) : relay * bool :=
  match conns l !! i with
  | None => (l, false)
  | Some c =>
      if dead c then (l, false)
      else let '(l1, c1) := releaseAll i (set_dead c) (set_conn i (set_dead c) l) in
           (set_conn i (set_out [] (inflight c1) (set_bytes 0 0 0 0 c1)) l1, true)
  end.
Definition release (i : Z) (l : relay) : relay := fst (dieLocked i l).
Definition evict (i : Z) (l : relay) : relay * bool := dieLocked i l.

(** evictFor: evicts, once, the holder that pays. *)
Definition evictFor (i : Z) (k : budgetKind) (m : Z) (ov : bool) (l : relay) : relay * bool :=
  match conns l !! i with
  | None => (l, false)
  | Some r => match pick i r k m ov (prefix_order k l) holder_order l with
              | None => (l, false)
              | Some (j, _) => evict j l
              end
  end.

(** tryPush: (ok, refused, over). *)
Definition tryPush (i : Z) (frame : bytes) (k : budgetKind) (force : bool) (l : relay) : relay * (bool * bool * bool) :=
  match conns l !! i with
  | None => (l, (false, false, false))
  | Some c =>
      let m := Z.of_nat (length frame) in
      if dead c || (length (out c) =? cap c)%nat then (l, (false, false, false))
      else
        let held := outBytes c + ephBytes c in
        if bool_decide (k = kindOutbound) && (0 <? maxBytes c) && (0 <? held) && (maxBytes c <? held + m)
        then (l, (false, false, false))
        else
          match charge i c k m force true l with
          | (l1, c1, (false, ov)) => (l1, (false, true, ov))
          | (l1, c1, (true, _)) =>
              let c2 := set_out (out c1 ++ [frame]) (inflight c1) c1 in
              let c3 := if bool_decide (k = kindOutbound) then set_bytes (outBytes c2 + m) (ephBytes c2) (resv c2) (readHeld c2) c2
                        else set_bytes (outBytes c2) (ephBytes c2 + m) (resv c2) (readHeld c2) c2 in
              (set_conn i c3 l1, (true, false, false))
          end
  end.

(** push: one attempt, one eviction at most, one retry at most. *)
Definition push (i : Z) (frame : bytes) (k : budgetKind) (force : bool) (l : relay) : relay * bool :=
  let '(l1, (ok, refused, ov)) := tryPush i frame k force l in
  if refused then
    let '(l2, evicted) := evictFor i k (Z.of_nat (length frame)) ov l1 in
    if evicted then let '(l3, (ok', _, _)) := tryPush i frame k force l2 in (l3, ok') else (l2, ok)
  else (l1, ok).

(** directEphemeral: only while the buffer is at most half full. *)
Definition directEphemeral (i : Z) (frame : bytes) (l : relay) : relay * bool :=
  match conns l !! i with
  | None => (l, false)
  | Some c => if (cap c / 2 <? length (out c))%nat then (l, false) else push i frame kindEphemeral false l
  end.

(** tryReserve: (ok, refused, over, dead). *)
Definition tryReserve (i : Z) (m : Z) (l : relay) : relay * (bool * bool * bool * bool) :=
  match conns l !! i with
  | None => (l, (false, false, false, true))
  | Some c =>
      if dead c then (l, (false, false, false, true))
      else
        let held := outBytes c + ephBytes c in
        if (0 <? maxBytes c) && (0 <? held) && (maxBytes c <? held + m) then (l, (false, false, false, false))
        else
          match charge i c kindOutbound m false false l with
          | (l1, c1, (false, ov)) => (l1, (false, true, ov, false))
          | (l1, c1, (true, _)) => (set_conn i (set_bytes (outBytes c1) (ephBytes c1) (resv c1 + m) (readHeld c1) c1) l1,
                                    (true, false, false, false))
          end
  end.

Definition unreserve (i : Z) (m : Z) (l : relay) : relay :=
  match conns l !! i with
  | None => l
  | Some c =>
      if dead c then l
      else let m := Z.min m (resv c) in
           if m <=? 0 then l
           else let c1 := set_bytes (outBytes c) (ephBytes c) (resv c - m) (readHeld c) c in
                fst (unchargeLocked i c1 kindOutbound m (set_conn i c1 l))
  end.

(** One try of sendReserved: None when it waits for a slot, else whether the
    frame was queued. *)
Definition sendReserved (i : Z) (frame : bytes) (l : relay) : relay * option bool :=
  match conns l !! i with
  | None => (l, Some false)
  | Some c =>
      if dead c then (l, Some false)
      else if (length (out c) <? cap c)%nat then
        let m := Z.of_nat (length frame) in
        let c1 := set_out (out c ++ [frame]) (inflight c)
                    (set_bytes (outBytes c + m) (ephBytes c) (resv c - m) (readHeld c) c) in
        (fst (pushed i c1 kindOutbound m l), Some true)
      else (l, None)
  end.

(** chargeRead: (ok, refused, over, dead). *)
Definition chargeRead (i : Z) (m : Z) (l : relay) : relay * (bool * bool * bool * bool) :=
  match conns l !! i with
  | None => (l, (false, false, false, true))
  | Some c =>
      if dead c then (l, (false, false, false, true))
      else match charge i c kindRead m false false l with
           | (l1, c1, (false, ov)) => (l1, (false, true, ov, false))
           | (l1, c1, (true, _)) => (set_conn i (set_bytes (outBytes c1) (ephBytes c1) (resv c1) (readHeld c1 + m) c1) l1,
                                     (true, false, false, false))
           end
  end.

Definition startRead (i : Z) (t : Z) (l : relay) : relay :=
  match conns l !! i with None => l | Some c => set_conn i (set_readStart (Some t) c) l end.

Definition doneRead (i : Z) (l : relay) : relay :=
  match conns l !! i with
  | None => l
  | Some c =>
      if dead c || (readHeld c =? 0) then l
      else let '(l1, c1) := unchargeLocked i c kindRead (readHeld c) l in
           set_conn i (set_bytes (outBytes c1) (ephBytes c1) (resv c1) 0 c1) l1
  end.

(** The write loop takes the next frame from out. *)
Definition takeFrame (i : Z) (l : relay) : relay :=
  match conns l !! i with
  | Some c => match inflight c, out c with
              | None, f :: o => set_conn i (set_out o (Some f) c) l
              | _, _ => l
              end
  | None => l
  end.

(** written: the write loop has finished with its frame. *)
Definition written (i : Z) (l : relay) : relay :=
  match conns l !! i with
  | None => l
  | Some c =>
      let c0 := set_out (out c) None c in
      let l0 := set_conn i c0 l in
      if dead c then l0
      else match popWritten i c0 l0 with
           | (l1, c1, None) => l1
           | (l1, c1, Some f) =>
               set_conn i (if bool_decide (kind f = kindOutbound)
                           then set_bytes (outBytes c1 - n f) (ephBytes c1) (resv c1) (readHeld c1) c1
                           else set_bytes (outBytes c1) (ephBytes c1 - n f) (resv c1) (readHeld c1) c1) l1
           end
  end.


(** ** What the ledger promises

    For every budget, the bytes used are the sum of what the prefixes hold,
    what a prefix holds is the sum of what its connections hold, and a prefix
    is recorded exactly while one of its connections holds something. *)

Definition held_of (k : budgetKind) (pfx : string) (c : conn) : Z :=
  if bool_decide (prefix c = pfx) then kget k (hold c) else 0.

Record kind_ok (k : budgetKind) (l : relay) : Prop := {
  ok_used : used (kget k (pools l)) = msum (λ _ p, used_by p) (prefixes (kget k (pools l)));
  ok_prefix : ∀ pfx p, prefixes (kget k (pools l)) !! pfx = Some p → used_by p = msum (λ _, held_of k pfx) (conns l);
  ok_holders : ∀ pfx p j, prefixes (kget k (pools l)) !! pfx = Some p →
    (j ∈ holders p ↔ ∃ c, conns l !! j = Some c ∧ prefix c = pfx ∧ 0 < kget k (hold c));
  ok_nonempty : ∀ pfx p, prefixes (kget k (pools l)) !! pfx = Some p → holders p ≠ ∅;
  ok_hold : ∀ j c, conns l !! j = Some c → 0 ≤ kget k (hold c) ∧
    (0 < kget k (hold c) → is_Some (prefixes (kget k (pools l)) !! prefix c));
}.
Definition ledger_ok (l : relay) : Prop := ∀ k, kind_ok k l.

(** The bytes of kind [k] among the frames of a buffer. *)
Definition queued (k : budgetKind) (q : list pending) : Z := zsum (λ f, if bool_decide (kind f = k) then n f else 0) q.

(** The frames the write loop has not finished with, oldest first. *)
Definition unwritten (c : conn) : list bytes := option_list (inflight c) ++ out c.

Record conn_ok (c : conn) : Prop := {
  hold_outbound : kget kindOutbound (hold c) = outBytes c + resv c;
  hold_ephemeral : kget kindEphemeral (hold c) = ephBytes c;
  hold_read : kget kindRead (hold c) = readHeld c;
  resv_nonneg : 0 ≤ resv c;
  readHeld_nonneg : 0 ≤ readHeld c;
  queue_outbound : outBytes c = queued kindOutbound (queue c);
  queue_ephemeral : ephBytes c = queued kindEphemeral (queue c);
  queue_frames : Forall (λ f, kind f ≠ kindRead ∧ 0 < n f) (queue c);
  out_cap : (length (out c) ≤ cap c)%nat;
  live_fifo : dead c = false → map n (queue c) = map (λ f, Z.of_nat (length f)) (unwritten c);
  dead_empty : dead c = true → hold c = PerKind 0 0 0 ∧ resv c = 0 ∧ queue c = [] ∧ out c = [];
}.

Definition relay_ok (l : relay) : Prop := ledger_ok l ∧ ∀ i c, conns l !! i = Some c → conn_ok c.

(** ** Lemmas *)

Lemma kget_kset_eq {A} k (a : A) p : kget k (kset k a p) = a.
Proof. by destruct k. Qed.
Lemma kget_kset_ne {A} k k' (a : A) p : k ≠ k' → kget k' (kset k a p) = kget k' p.
Proof. by destruct k, k'. Qed.
Lemma kset_id {A} k (p : per_kind A) : kset k (kget k p) p = p.
Proof. by destruct p, k. Qed.

#[export] Hint Rewrite @kget_kset_eq : agentnet.

Lemma set_conn_twice i c c' l : set_conn i c (set_conn i c' l) = set_conn i c l.
Proof. unfold set_conn; simpl. by rewrite insert_insert_eq. Qed.
Lemma set_conn_pool i c k b l : set_conn i c (set_pool k b l) = set_pool k b (set_conn i c l).
Proof. done. Qed.
Lemma set_conn_id i c l : conns l !! i = Some c → set_conn i c l = l.
Proof. destruct l; unfold set_conn; simpl; intros H. by rewrite insert_id. Qed.
Lemma lookup_set_conn i c l : conns (set_conn i c l) !! i = Some c.
Proof. apply lookup_insert_eq. Qed.
Lemma lookup_set_conn_ne i j c l : i ≠ j → conns (set_conn i c l) !! j = conns l !! j.
Proof. apply lookup_insert_ne. Qed.

(** The sums see a connection only through its prefix and holdings. *)
Lemma held_insert k pfx i c c' l : conns l !! i = Some c → prefix c' = prefix c →
  msum (λ _, held_of k pfx) (<[i := c']> (conns l)) =
  msum (λ _, held_of k pfx) (conns l) + (if bool_decide (prefix c = pfx) then kget k (hold c') - kget k (hold c) else 0).
Proof.
  intros Hc Hp. rewrite (msum_insert _ _ _ _ _ Hc). unfold held_of. rewrite Hp. case_bool_decide; lia.
Qed.

Lemma kind_ok_same k i c c' l : kind_ok k l → conns l !! i = Some c → prefix c' = prefix c →
  kget k (hold c') = kget k (hold c) → kind_ok k (set_conn i c' l).
Proof.
  intros [H1 H2 H3 H4 H5] Hc Hp Hh. constructor; simpl; [done|..|done|].
  - intros pfx p Hpp. rewrite (held_insert _ _ _ _ _ _ Hc Hp), (H2 _ _ Hpp), Hh. case_bool_decide; lia.
  - intros pfx p j Hpp. rewrite (H3 _ _ _ Hpp). destruct (decide (j = i)) as [->|Hne].
    + rewrite Hc, lookup_insert_eq. split; intros (x & [= <-] & ? & ?); eexists; split_and!; try done; congruence.
    + by rewrite lookup_insert_ne by done.
  - intros j x. destruct (decide (j = i)) as [->|Hne].
    + rewrite lookup_insert_eq. intros [= <-]. rewrite Hp, Hh. by apply (H5 i).
    + rewrite lookup_insert_ne by done. apply H5.
Qed.

Lemma msum_other k pfx i l : kind_ok k l → (∀ p, prefixes (kget k (pools l)) !! pfx = Some p → holders p ⊆ {[i]}) →
  msum (λ _, held_of k pfx) (delete i (conns l)) = 0.
Proof.
  intros [_ _ H3 H4 H5] Hs. rewrite (msum_ext _ (λ _ _, 0)).
  - unfold msum. induction (map_to_list _) as [|[] ? IH]; [done|]. simpl. by rewrite IH.
  - intros j c [Hji Hj]%lookup_delete_Some. unfold held_of. case_bool_decide as Hpf; [|done].
    destruct (H5 _ _ Hj) as [Hnn Hpos]. destruct (decide (kget k (hold c) = 0)) as [|Hnz]; [done|].
    destruct Hpos as [p Hp]; [lia|]. rewrite Hpf in Hp. specialize (Hs p Hp).
    assert (j ∈ holders p) as Hin by (apply (H3 pfx p j Hp); exists c; split_and!; [done..|lia]). set_solver.
Qed.

Lemma msum_prefix k pfx l : kind_ok k l → prefixes (kget k (pools l)) !! pfx = None →
  msum (λ _, held_of k pfx) (conns l) = 0.
Proof.
  intros [_ _ _ _ H5] Hn. rewrite (msum_ext _ (λ _ _, 0)).
  - unfold msum. induction (map_to_list _) as [|[] ? IH]; [done|]. simpl. by rewrite IH.
  - intros j c Hj. unfold held_of. case_bool_decide as Hpf; [|done]. destruct (H5 _ _ Hj) as [Hnn Hpos].
    destruct (decide (kget k (hold c) = 0)) as [|Hnz]; [done|]. destruct Hpos as [p Hp]; [lia|]. congruence.
Qed.

(** What a prefix holds, recorded or not. *)
Definition prefix_use (k : budgetKind) (pfx : string) (l : relay) : prefixUse :=
  default (MkUse 0 ∅) (prefixes (kget k (pools l)) !! pfx).

Lemma prefix_held k pfx l : kind_ok k l → used_by (prefix_use k pfx l) = msum (λ _, held_of k pfx) (conns l).
Proof.
  intros Hk. unfold prefix_use. destruct (prefixes _ !! pfx) as [p|] eqn:E; simpl; [by apply ok_prefix|].
  by rewrite msum_prefix.
Qed.

Lemma prefix_holders k pfx l j : kind_ok k l →
  j ∈ holders (prefix_use k pfx l) ↔ ∃ c, conns l !! j = Some c ∧ prefix c = pfx ∧ 0 < kget k (hold c).
Proof.
  intros Hk. unfold prefix_use. destruct (prefixes _ !! pfx) as [p|] eqn:E; simpl; [by apply ok_holders|].
  split; [set_solver|]. intros (c & Hc & Hp & Hh). destruct (ok_hold _ _ Hk _ _ Hc) as [_ [p Hpp]]; [done|]. congruence.
Qed.

(** The one change the ledger makes: connection [i] holds [h] of kind [k]
    instead of what it held. *)
Definition moved_holders (k : budgetKind) (i : Z) (pfx : string) (h : Z) (l : relay) : gset Z :=
  let hs := holders (prefix_use k pfx l) in if h =? 0 then hs ∖ {[i]} else {[i]} ∪ hs.
Definition moved_prefixes (k : budgetKind) (i : Z) (c : conn) (h : Z) (l : relay) : gmap string prefixUse :=
  let ps := prefixes (kget k (pools l)) in
  let hs := moved_holders k i (prefix c) h l in
  if bool_decide (hs = ∅) then delete (prefix c) ps
  else <[prefix c := MkUse (used_by (prefix_use k (prefix c) l) + (h - kget k (hold c))) hs]> ps.
Definition moved (k : budgetKind) (i : Z) (c c' : conn) (l : relay) : relay :=
  let b := kget k (pools l) in
  let h := kget k (hold c') in
  set_conn i c' (set_pool k (MkPool (max b) (pshare b) (used b + (h - kget k (hold c))) (moved_prefixes k i c h l)) l).

Lemma moved_lookup k i c h l pfx : moved_prefixes k i c h l !! pfx =
  if bool_decide (pfx = prefix c) then
    if bool_decide (moved_holders k i (prefix c) h l = ∅) then None
    else Some (MkUse (used_by (prefix_use k (prefix c) l) + (h - kget k (hold c))) (moved_holders k i (prefix c) h l))
  else prefixes (kget k (pools l)) !! pfx.
Proof.
  unfold moved_prefixes. do 2 case_bool_decide; subst; by rewrite ?lookup_delete_eq, ?lookup_insert_eq,
    ?lookup_delete_ne, ?lookup_insert_ne by done.
Qed.

Section moved.
Context (k : budgetKind) (i : Z) (c c' : conn) (l : relay).
Context (Hk : kind_ok k l) (Hc : conns l !! i = Some c) (Hpc : prefix c' = prefix c) (Hnn : 0 ≤ kget k (hold c')).
Let h := kget k (hold c').

Lemma moved_holders_spec j : j ∈ moved_holders k i (prefix c) h l ↔
  ∃ x, <[i := c']> (conns l) !! j = Some x ∧ prefix x = prefix c ∧ 0 < kget k (hold x).
Proof using Hk Hc Hpc Hnn.
  unfold moved_holders. destruct (Z.eqb_spec h 0) as [H0|H0].
  - rewrite elem_of_difference, prefix_holders, elem_of_singleton by done.
    destruct (decide (j = i)) as [->|Hne]; [rewrite lookup_insert_eq|rewrite lookup_insert_ne by done; naive_solver].
    split; [naive_solver|]. intros (x & [= <-] & _ & ?). subst h. lia.
  - rewrite elem_of_union, prefix_holders, elem_of_singleton by done.
    destruct (decide (j = i)) as [->|Hne]; [rewrite lookup_insert_eq|rewrite lookup_insert_ne by done; naive_solver].
    split; [|naive_solver]. intros _. exists c'. subst h. split_and!; [done..|lia].
Qed.

Lemma moved_zero : moved_holders k i (prefix c) h l = ∅ →
  used_by (prefix_use k (prefix c) l) + (h - kget k (hold c)) = 0.
Proof using Hk Hc Hpc Hnn.
  intros E. assert (h = 0) as H0.
  { destruct (decide (h = 0)); [done|]. assert (i ∈ moved_holders k i (prefix c) h l) as Hin; [|rewrite E in Hin; set_solver].
    apply moved_holders_spec. exists c'. rewrite lookup_insert_eq. subst h. split_and!; [done..|lia]. }
  rewrite prefix_held, H0 by done.
  enough (msum (λ _, held_of k (prefix c)) (delete i (conns l)) = 0) as Hd.
  { rewrite (msum_delete _ _ _ _ Hc) in Hd. unfold held_of in Hd at 2. rewrite bool_decide_true in Hd by done. lia. }
  apply (msum_other k _ i l Hk). intros q Hq. unfold moved_holders, prefix_use in E. rewrite H0, Hq in E. simpl in E.
  intros x Hx. apply elem_of_singleton. destruct (decide (x = i)) as [|Hne]; [done|].
  assert (x ∈ holders q ∖ {[i]}) as Hin by (apply elem_of_difference; rewrite elem_of_singleton; done).
  rewrite E in Hin. by apply not_elem_of_empty in Hin.
Qed.

Lemma moved_sum : used (kget k (pools l)) + (h - kget k (hold c)) = msum (λ _ p, used_by p) (moved_prefixes k i c h l).
Proof using Hk Hc Hpc Hnn.
  rewrite (ok_used _ _ Hk). pose proof moved_zero as Hz. unfold moved_prefixes, prefix_use in *.
  destruct (prefixes _ !! prefix c) as [q|] eqn:Eq; simpl in *; case_bool_decide as E.
  - specialize (Hz E). rewrite (msum_delete _ _ _ _ Eq). lia.
  - rewrite (msum_insert _ _ _ _ _ Eq). simpl. lia.
  - specialize (Hz E). rewrite delete_id by done. lia.
  - rewrite msum_insert_new by done. simpl. lia.
Qed.

Lemma kind_ok_moved : kind_ok k (moved k i c c' l).
Proof using Hk Hc Hpc Hnn.
  pose proof moved_sum as Hsum. pose proof moved_holders_spec as Hhs. pose proof (prefix_held k (prefix c) l Hk) as Hu.
  unfold moved. constructor; simpl; rewrite ?kget_kset_eq; simpl; [done|..].
  - intros pfx q. rewrite moved_lookup, (held_insert _ _ _ _ _ _ Hc Hpc). fold h.
    rewrite (bool_decide_ext (prefix c = pfx) (pfx = prefix c)) by naive_solver.
    case_bool_decide; subst; [case_bool_decide; [done|]; intros [= <-]; simpl; lia|].
    intros Hq. rewrite (ok_prefix _ _ Hk _ _ Hq). lia.
  - intros pfx q j. rewrite moved_lookup. case_bool_decide; subst; [case_bool_decide; [done|]; intros [= <-]; apply Hhs|].
    intros Hq. rewrite (ok_holders _ _ Hk _ _ _ Hq). destruct (decide (j = i)) as [->|Hji]; [|by rewrite lookup_insert_ne].
    rewrite Hc, lookup_insert_eq. split; intros (x & [= <-] & ? & ?); congruence.
  - intros pfx q. rewrite moved_lookup. case_bool_decide; [case_bool_decide; [done|]; by intros [= <-]|].
    apply (ok_nonempty _ _ Hk).
  - intros j x Hx. assert (0 ≤ kget k (hold x)) as Hx0.
    { destruct (decide (j = i)) as [->|Hji]; [rewrite lookup_insert_eq in Hx; injection Hx as <-; lia|].
      rewrite lookup_insert_ne in Hx by done. by apply (ok_hold _ _ Hk j). }
    split; [done|]. intros Hpos. rewrite moved_lookup. case_bool_decide as Ep.
    + rewrite bool_decide_false by (apply (non_empty_inhabited_L j), Hhs; eauto). eauto.
    + destruct (decide (j = i)) as [->|Hji]; [rewrite lookup_insert_eq in Hx; injection Hx as <-; congruence|].
      rewrite lookup_insert_ne in Hx by done. by apply (ok_hold _ _ Hk _ _ Hx).
Qed.

Lemma ledger_ok_moved : ledger_ok l → (∀ k', k' ≠ k → kget k' (hold c') = kget k' (hold c)) →
  ledger_ok (moved k i c c' l).
Proof using Hk Hc Hpc Hnn.
  intros Hl Ho k'. destruct (decide (k' = k)) as [->|Hne]; [apply kind_ok_moved|].
  pose proof (kind_ok_same k' i c c' l (Hl k') Hc Hpc (Ho _ Hne)) as [? ? ? ? ?].
  unfold moved. constructor; simpl; by rewrite ?kget_kset_ne by congruence.
Qed.
End moved.

(** ** The effect of each ledger operation *)

(** Connection [i], which was [c], is now [c'] and nothing else changed but
    what the ledger counts for it. *)
Record upd (i : Z) (c : conn) (l : relay) (c' : conn) (l' : relay) : Prop := {
  upd_ledger : ledger_ok l';
  upd_now : now l' = now l;
  upd_conns : conns l' = <[i := c']> (conns l);
  upd_prefix : prefix c' = prefix c;
  upd_max : ∀ k, max (kget k (pools l')) = max (kget k (pools l));
  upd_share : ∀ k, pshare (kget k (pools l')) = pshare (kget k (pools l));
}.

Lemma upd_refl i c l : ledger_ok l → conns l !! i = Some c → upd i c l c l.
Proof. intros. constructor; try done. by rewrite insert_id. Qed.

Lemma upd_lookup i c l c' l' : upd i c l c' l' → conns l' !! i = Some c'.
Proof. intros [_ _ -> _ _ _]. apply lookup_insert_eq. Qed.

Lemma upd_trans i c l c1 l1 c2 l2 : upd i c l c1 l1 → upd i c1 l1 c2 l2 → upd i c l c2 l2.
Proof.
  intros [? ? Hc1 ? Hm1 Hs1] [? ? Hc2 ? Hm2 Hs2]. constructor; [done|congruence| |congruence|..].
  - rewrite Hc2, Hc1. by rewrite insert_insert_eq.
  - intros k. by rewrite Hm2.
  - intros k. by rewrite Hs2.
Qed.

(** A change of what the ledger does not read. *)
Lemma upd_set i c l c1 l1 c2 : conns l !! i = Some c → upd i c l c1 l1 → prefix c2 = prefix c1 → hold c2 = hold c1 →
  upd i c l c2 (set_conn i c2 l1).
Proof.
  intros Hc H Hp Hh. refine (upd_trans _ _ _ _ _ _ _ H _). constructor; try done.
  intros k. apply (kind_ok_same k i c1); [apply (upd_ledger _ _ _ _ _ H)|by apply (upd_lookup _ _ _ _ _ H)|done|congruence].
Qed.

Lemma upd_moved k i c c' l : ledger_ok l → conns l !! i = Some c → prefix c' = prefix c → 0 ≤ kget k (hold c') →
  (∀ k', k' ≠ k → kget k' (hold c') = kget k' (hold c)) → upd i c l c' (moved k i c c' l).
Proof.
  intros Hl Hc Hp Hnn Ho. constructor; try done; [by apply ledger_ok_moved|..];
    intros k'; unfold moved; simpl; destruct (decide (k' = k)) as [->|];
    rewrite ?kget_kset_eq, ?kget_kset_ne by congruence; done.
Qed.

Lemma hold_nonneg k i c l : ledger_ok l → conns l !! i = Some c → 0 ≤ kget k (hold c).
Proof. intros Hl Hc. by apply (ok_hold _ _ (Hl k) i). Qed.

Definition charged (k : budgetKind) (m : Z) (frame : bool) (t : Z) (c : conn) : conn :=
  let c1 := set_hold (kset k (kget k (hold c) + m) (hold c)) c in
  if frame then set_queue (queue c1 ++ [MkPending k m t]) c1 else c1.

(** charge: refused only by [fits], and then nothing changes; otherwise the
    connection, its prefix and the budget count [m] more bytes. *)
Lemma charge_spec i c k m force frame l : ledger_ok l → conns l !! i = Some c → 0 < m →
  charge i c k m force frame l =
    (let f := fits (kget k (pools l)) (prefixes (kget k (pools l)) !! prefix c) m in
     if force || f.1 then (moved k i c (charged k m frame (now l) c) l, charged k m frame (now l) c, (true, false))
     else (l, c, (false, f.2))).
Proof.
  intros Hl Hc Hm. pose proof (hold_nonneg k _ _ _ Hl Hc) as Hnn. unfold charge, charged.
  rewrite (proj2 (Z.leb_gt m 0)) by done. cbv zeta.
  enough (∀ c', kget k (hold c') = kget k (hold c) + m →
    set_conn i c' (set_pool k (MkPool (max (kget k (pools l))) (pshare (kget k (pools l))) (used (kget k (pools l)) + m)
      (<[prefix c := MkUse (used_by (prefix_use k (prefix c) l) + m) ({[i]} ∪ holders (prefix_use k (prefix c) l))]>
         (prefixes (kget k (pools l))))) l) = moved k i c c' l) as Hmv.
  { destruct force; simpl; [by rewrite <- Hmv by (destruct frame; simpl; by rewrite kget_kset_eq)|].
    destruct (fits _ _ _) as [[] ov]; simpl; [|done]. by rewrite <- Hmv by (destruct frame; simpl; by rewrite kget_kset_eq). }
  intros c' Hh. unfold moved, moved_prefixes, moved_holders. rewrite Hh, (proj2 (Z.eqb_neq _ 0)) by lia.
  rewrite bool_decide_false by set_solver. by replace (kget k (hold c) + m - kget k (hold c)) with m by lia.
Qed.

Lemma upd_charge i c k m frame l : ledger_ok l → conns l !! i = Some c → 0 < m →
  upd i c l (charged k m frame (now l) c) (moved k i c (charged k m frame (now l) c) l).
Proof.
  intros Hl Hc Hm. pose proof (hold_nonneg k _ _ _ Hl Hc) as Hnn. apply upd_moved; try done.
  - by destruct frame.
  - destruct frame; simpl; rewrite kget_kset_eq; lia.
  - intros k' Hne. destruct frame; simpl; by rewrite kget_kset_ne.
Qed.

(** unchargeLocked: the connection, its prefix and the budget count [m] bytes
    less, never less than nothing. *)
Lemma uncharge_spec i c k m l : ledger_ok l → conns l !! i = Some c → 0 ≤ m →
  ∃ l', unchargeLocked i c k m l =
    (l', set_hold (kset k (kget k (hold c) - Z.min m (kget k (hold c))) (hold c)) c) ∧
    upd i c l (set_hold (kset k (kget k (hold c) - Z.min m (kget k (hold c))) (hold c)) c) l'.
Proof.
  intros Hl Hc Hm. pose proof (hold_nonneg k _ _ _ Hl Hc) as Hnn. unfold unchargeLocked.
  set (d := Z.min m (kget k (hold c))). destruct (Z.leb_spec d 0) as [Hd|Hd].
  - assert (set_hold (kset k (kget k (hold c) - d) (hold c)) c = c) as ->.
    { replace (kget k (hold c) - d) with (kget k (hold c)) by lia. rewrite kset_id. by destruct c. }
    eexists; split; [done|]. by apply upd_refl.
  - destruct (ok_hold _ _ (Hl k) _ _ Hc) as [_ [p Hp]]; [lia|]. rewrite Hp. simpl. rewrite kget_kset_eq.
    eexists; split; [done|]. set (c' := set_hold _ c).
    assert (kget k (hold c') = kget k (hold c) - d) as Hh' by (simpl; apply kget_kset_eq).
    enough (set_conn i c' (set_pool k (MkPool (max (kget k (pools l))) (pshare (kget k (pools l)))
      (used (kget k (pools l)) - d) (let hs := if kget k (hold c) - d =? 0 then holders p ∖ {[i]} else holders p in
        if bool_decide (hs = ∅) then delete (prefix c) (prefixes (kget k (pools l)))
        else <[prefix c := MkUse (used_by p - d) hs]> (prefixes (kget k (pools l))))) l) = moved k i c c' l) as Hmv.
    { cbv zeta in Hmv. rewrite Hmv. apply upd_moved; try done; [lia|]. intros k' Hne. simpl. by rewrite kget_kset_ne. }
    assert (i ∈ holders p) as Hi by (apply (ok_holders _ _ (Hl k) _ _ _ Hp); exists c; split_and!; [done..|lia]).
    unfold moved, moved_prefixes, moved_holders, prefix_use. rewrite Hh', Hp. simpl.
    replace (kget k (hold c) - d - kget k (hold c)) with (- d) by lia. rewrite <- !Z.add_opp_r.
    replace ({[i]} ∪ holders p) with (holders p) by set_solver.
    destruct (kget k (hold c) + - d =? 0); by repeat case_bool_decide.
Qed.

Lemma releaseAll_spec i c l : ledger_ok l → conns l !! i = Some c →
  ∃ l', releaseAll i c l = (l', set_queue [] (set_hold (PerKind 0 0 0) c)) ∧
    upd i c l (set_queue [] (set_hold (PerKind 0 0 0) c)) l'.
Proof.
  intros Hl Hc. unfold releaseAll.
  destruct (uncharge_spec i c kindOutbound (kget kindOutbound (hold c)) l Hl Hc (hold_nonneg _ _ _ _ Hl Hc)) as (l1 & -> & H1). rewrite Z.min_id, Z.sub_diag in *. set (c1 := set_hold _ c) in *.
  pose proof (upd_ledger _ _ _ _ _ H1) as Hl1. pose proof (upd_lookup _ _ _ _ _ H1) as Hc1.
  destruct (uncharge_spec i c1 kindRead (kget kindRead (hold c1)) l1 Hl1 Hc1 (hold_nonneg _ _ _ _ Hl1 Hc1)) as (l2 & -> & H2). rewrite Z.min_id, Z.sub_diag in *. set (c2 := set_hold _ c1) in *.
  pose proof (upd_ledger _ _ _ _ _ H2) as Hl2. pose proof (upd_lookup _ _ _ _ _ H2) as Hc2.
  destruct (uncharge_spec i c2 kindEphemeral (kget kindEphemeral (hold c2)) l2 Hl2 Hc2 (hold_nonneg _ _ _ _ Hl2 Hc2)) as (l3 & -> & H3). rewrite Z.min_id, Z.sub_diag in *.
  eexists; split; [done|]. refine (upd_set _ _ _ _ _ _ Hc (upd_trans _ _ _ _ _ _ _ H1 (upd_trans _ _ _ _ _ _ _ H2 H3)) _ _); done.
Qed.

Lemma popWritten_spec i c l : ledger_ok l → conns l !! i = Some c → Forall (λ f, 0 < n f) (queue c) →
  match queue c with
  | [] => popWritten i c l = (l, c, None)
  | f :: q =>
      let c' := set_hold (kset (kind f) (kget (kind f) (hold c) - Z.min (n f) (kget (kind f) (hold c))) (hold c))
                  (set_queue q c) in
      ∃ l', popWritten i c l = (l', c', Some f) ∧ upd i c l c' l'
  end.
Proof.
  intros Hl Hc Hq. unfold popWritten. destruct (queue c) as [|f q]; [done|]. apply Forall_cons_1 in Hq as [Hf _].
  pose proof (upd_set i c l c l (set_queue q c) Hc (upd_refl _ _ _ Hl Hc) eq_refl eq_refl) as H0.
  destruct (uncharge_spec i (set_queue q c) (kind f) (n f) _ (upd_ledger _ _ _ _ _ H0) (upd_lookup _ _ _ _ _ H0))
    as (l' & -> & H1); [lia|]. cbv zeta. eexists; split; [done|]. exact (upd_trans _ _ _ _ _ _ _ H0 H1).
Qed.

Lemma queued_app k q1 q2 : queued k (q1 ++ q2) = queued k q1 + queued k q2.
Proof. apply zsum_app. Qed.
Lemma queued_nonneg k q : Forall (λ f, kind f ≠ kindRead ∧ 0 < n f) q → 0 ≤ queued k q.
Proof.
  intros Hq. apply zsum_nonneg. intros f Hf. rewrite Forall_forall in Hq. specialize (Hq f Hf).
  case_bool_decide; lia.
Qed.

(** ** The relay's steps

    One step is one critical section, of any connection, at any time. The
    read loop charges sizes that are not negative, a frame is not empty, a
    drain sends only frames that its reservation covers, and only the ready
    frame, of the ephemeral budget, is forced. [F] bounds a single charge. *)
Inductive step (F : Z) (l : relay) : relay → Prop :=
| step_connect i pfx qcap mb : conns l !! i = None → step F l (set_conn i (newConn pfx qcap mb) l)
| step_clock t : now l ≤ t → step F l (MkRelay t (pools l) (conns l))
| step_push i frame k force : k ≠ kindRead → frame ≠ [] → Z.of_nat (length frame) ≤ F → (force = true → k = kindEphemeral) →
    step F l (tryPush i frame k force l).1
| step_reserve i m : 0 ≤ m ≤ F → step F l (tryReserve i m l).1
| step_unreserve i m : step F l (unreserve i m l)
| step_send i c frame : conns l !! i = Some c → frame ≠ [] → Z.of_nat (length frame) ≤ resv c →
    step F l (sendReserved i frame l).1
| step_charge i m : 0 ≤ m ≤ F → step F l (chargeRead i m l).1
| step_start i t : step F l (startRead i t l)
| step_done i : step F l (doneRead i l)
| step_take i : step F l (takeFrame i l)
| step_written i c : conns l !! i = Some c → is_Some (inflight c) → step F l (written i l)
| step_die i : step F l (evict i l).1.

Definition reachable (F : Z) (l : relay) : Prop :=
  ∃ o r e t, rtc (step F) (newLedger o r e t) l.

(** Every step either adds a connection, or advances the clock, or is an
    update of one connection. [grown] bounds what it may add to a budget. *)
Definition grown (F : Z) (i : Z) (c c' : conn) (l : relay) : Prop := ∀ k,
  kget k (hold c') ≤ kget k (hold c) ∨
  ∃ m, 0 < m ≤ F ∧ kget k (hold c') = kget k (hold c) + m ∧
    (k ≠ kindEphemeral → (fits (kget k (pools l)) (prefixes (kget k (pools l)) !! prefix c) m).1 = true).

Definition good_upd (F : Z) (i : Z) (c : conn) (l l' : relay) : Prop :=
  ∃ c', upd i c l c' l' ∧ conn_ok c' ∧ grown F i c c' l.

Lemma good_refl F i c l : relay_ok l → conns l !! i = Some c → good_upd F i c l l.
Proof.
  intros [Hl Hcs] Hc. exists c. split_and!; [by apply upd_refl|by eapply Hcs|]. intros k. by left.
Qed.

Lemma conn_ok_live_hold c : conn_ok c → dead c = false → 0 ≤ outBytes c ∧ 0 ≤ ephBytes c.
Proof. intros [] _. rewrite queue_outbound0, queue_ephemeral0. split; by apply queued_nonneg. Qed.

Lemma length_pos {A} (f : list A) : f ≠ [] → 0 < Z.of_nat (length f).
Proof. destruct f; simpl; [done|lia]. Qed.

(** The conditions of [conn_ok] hold again once the arithmetic does. *)
Ltac conn_ok_tac Hok :=
  destruct Hok; constructor; simpl in *;
  rewrite ?queued_app, ?length_app; simpl; auto with lia.

Lemma conn_ok_pushed c k m t frame : conn_ok c → dead c = false → k ≠ kindRead → frame ≠ [] →
  (length (out c) < cap c)%nat → m = Z.of_nat (length frame) →
  let c1 := set_out (out c ++ [frame]) (inflight c) (charged k m true t c) in
  conn_ok (if bool_decide (k = kindOutbound) then set_bytes (outBytes c1 + m) (ephBytes c1) (resv c1) (readHeld c1) c1
           else set_bytes (outBytes c1) (ephBytes c1 + m) (resv c1) (readHeld c1) c1).
Proof.
  intros Hok Hd Hk Hf Hcap Hm. pose proof (length_pos _ Hf) as Hpos. destruct Hok.
  destruct k; simpl in *; [|done|]; constructor; simpl in *; rewrite ?queued_app, ?length_app; simpl; try lia;
    (* the FIFO and the frames' kinds *)
    try (intros _; unfold unwritten in *; rewrite map_app, live_fifo0 by done; simpl; rewrite !map_app, app_assoc; simpl; congruence);
    try congruence.
  all: apply Forall_app; split; [done|]; apply Forall_singleton; simpl; by auto with lia.
Qed.

Lemma charge_grown F i c k m frame t force l c' : 0 < m ≤ F → (force = true → k = kindEphemeral) →
  force || (fits (kget k (pools l)) (prefixes (kget k (pools l)) !! prefix c) m).1 = true →
  hold c' = hold (charged k m frame t c) → grown F i c c' l.
Proof.
  intros Hm Hf Hfit Hh k'. rewrite Hh. destruct (decide (k' = k)) as [->|Hne].
  - right. exists m. split_and!; try lia; [destruct frame; simpl; by rewrite kget_kset_eq|].
    intros Hne. destruct force; [by destruct (Hne (Hf eq_refl))|done].
  - left. destruct frame; simpl; by rewrite kget_kset_ne.
Qed.

Lemma tryPush_good F i c frame k force l : relay_ok l → conns l !! i = Some c → k ≠ kindRead → frame ≠ [] →
  Z.of_nat (length frame) ≤ F → (force = true → k = kindEphemeral) → good_upd F i c l (tryPush i frame k force l).1.
Proof.
  intros Hr Hc Hk Hf HF Hforce. pose proof (proj1 Hr) as Hl. pose proof (proj2 Hr _ _ Hc) as Hok.
  pose proof (good_refl F i c l Hr Hc) as Hid. pose proof (length_pos _ Hf) as Hpos.
  unfold tryPush. rewrite Hc. cbv zeta. destruct (dead c) eqn:Hd; [done|]. simpl.
  destruct (Nat.eqb_spec (length (out c)) (cap c)) as [|Hcap]; [done|].
  case_match; [done|]. rewrite charge_spec by done. cbv zeta.
  destruct (force || _) eqn:E; [|done]. simpl.
  eexists. split_and!; [eapply (upd_set _ _ _ _ _ _ Hc (upd_charge _ _ k _ true _ Hl Hc Hpos)); by case_bool_decide|..].
  - apply (conn_ok_pushed c k _ (now l) frame); try done. pose proof (out_cap _ Hok). lia.
  - eapply (charge_grown F i c k (Z.of_nat (length frame)) true (now l) force); [lia|done|done|by case_bool_decide].
Qed.

Lemma charge_bytes_good F i c k m l ob rs rh : relay_ok l → conns l !! i = Some c → 0 ≤ m ≤ F →
  (let c' := set_bytes ob (ephBytes c) rs rh (charged k m false (now l) c) in conn_ok c') →
  (m = 0 → ob = outBytes c ∧ rs = resv c ∧ rh = readHeld c) →
  match charge i c k m false false l with
  | (l1, c1, (true, _)) => good_upd F i c l (set_conn i (set_bytes ob (ephBytes c) rs rh c1) l1)
  | (l1, c1, (false, _)) => good_upd F i c l l1
  end.
Proof.
  intros Hr Hc Hm Hok Hz. pose proof (proj1 Hr) as Hl. destruct (decide (m = 0)) as [->|Hne].
  - unfold charge. simpl. destruct (Hz eq_refl) as (-> & -> & ->).
    rewrite set_conn_id; [by apply good_refl|]. rewrite Hc. by destruct c.
  - assert (0 < m) as Hpos by lia. rewrite charge_spec by done. cbv zeta.
    destruct (false || _) eqn:E; [|by apply good_refl].
    eexists. split_and!; [eapply (upd_set _ _ _ _ _ _ Hc (upd_charge _ _ k m false _ Hl Hc Hpos)); done|done|].
    eapply (charge_grown F i c k m false (now l) false); [lia|done|done|done].
Qed.

Lemma tryReserve_good F i c m l : relay_ok l → conns l !! i = Some c → 0 ≤ m ≤ F → good_upd F i c l (tryReserve i m l).1.
Proof.
  intros Hr Hc Hm. pose proof (good_refl F i c l Hr Hc) as Hid. unfold tryReserve. rewrite Hc. cbv zeta.
  destruct (dead c) eqn:Hd; [done|]. case_match; [done|].
  pose proof (charge_bytes_good F i c kindOutbound m l (outBytes c) (resv c + m) (readHeld c) Hr Hc Hm) as Hg.
  pose proof (proj2 Hr _ _ Hc) as Hok. ospecialize* Hg; [conn_ok_tac Hok; congruence|lia|].
  unfold charge in *. repeat case_match; simplify_eq/=; done.
Qed.

Lemma chargeRead_good F i c m l : relay_ok l → conns l !! i = Some c → 0 ≤ m ≤ F → good_upd F i c l (chargeRead i m l).1.
Proof.
  intros Hr Hc Hm. pose proof (good_refl F i c l Hr Hc) as Hid. unfold chargeRead. rewrite Hc. cbv zeta.
  destruct (dead c) eqn:Hd; [done|].
  pose proof (charge_bytes_good F i c kindRead m l (outBytes c) (resv c) (readHeld c + m) Hr Hc Hm) as Hg.
  pose proof (proj2 Hr _ _ Hc) as Hok. ospecialize* Hg; [conn_ok_tac Hok; congruence|lia|].
  unfold charge in *. repeat case_match; simplify_eq/=; done.
Qed.

Lemma shrunk_grown F i c c' l : (∀ k, kget k (hold c') ≤ kget k (hold c)) → grown F i c c' l.
Proof. intros H k. by left. Qed.

Lemma set_good F i c c' l : relay_ok l → conns l !! i = Some c → prefix c' = prefix c → hold c' = hold c →
  conn_ok c' → good_upd F i c l (set_conn i c' l).
Proof.
  intros Hr Hc Hp Hh Hok. exists c'. split_and!; [|done|apply shrunk_grown; by rewrite Hh].
  eapply (upd_set _ _ _ _ _ _ Hc (upd_refl _ _ _ (proj1 Hr) Hc)); done.
Qed.

(** What an uncharge leaves, once the connection has counted it too. *)
Lemma uncharge_good F i c c1 k m l c2 : relay_ok l → conns l !! i = Some c → prefix c1 = prefix c → hold c1 = hold c →
  0 ≤ m → let l1 := set_conn i c1 l in
  (let '(_, u) := unchargeLocked i c1 k m l1 in prefix c2 = prefix u ∧ hold c2 = hold u) → conn_ok c2 →
  good_upd F i c l (set_conn i c2 (unchargeLocked i c1 k m l1).1).
Proof.
  intros Hr Hc Hp Hh Hm l1 Hu Hok. pose proof (proj1 Hr) as Hl.
  pose proof (upd_set i c l c l c1 Hc (upd_refl _ _ _ Hl Hc) Hp Hh) as H0.
  destruct (uncharge_spec i c1 k m l1 (upd_ledger _ _ _ _ _ H0) (upd_lookup _ _ _ _ _ H0) Hm) as (l2 & E & H1).
  rewrite E in *. destruct Hu as [Hu1 Hu2]. exists c2. split_and!; [|done|].
  - exact (upd_set _ _ _ _ _ _ Hc (upd_trans _ _ _ _ _ _ _ H0 H1) Hu1 Hu2).
  - apply shrunk_grown. intros k'. rewrite Hu2. simpl. pose proof (hold_nonneg k _ _ _ Hl Hc).
    destruct (decide (k' = k)) as [->|]; [rewrite kget_kset_eq, Hh; lia|rewrite kget_kset_ne by done; by rewrite Hh].
Qed.

Lemma uncharge_hold i c k m l : 0 ≤ kget k (hold c) → 0 ≤ m →
  (unchargeLocked i c k m l).2 = set_hold (kset k (kget k (hold c) - Z.min m (kget k (hold c))) (hold c)) c.
Proof.
  intros Hnn Hm. unfold unchargeLocked. destruct (Z.leb_spec (Z.min m (kget k (hold c))) 0); [|done].
  simpl. replace (Z.min m (kget k (hold c))) with 0 by lia. rewrite Z.sub_0_r, kset_id. by destruct c.
Qed.

Lemma unreserve_good F i c m l : relay_ok l → conns l !! i = Some c → good_upd F i c l (unreserve i m l).
Proof.
  intros Hr Hc. pose proof (good_refl F i c l Hr Hc) as Hid. unfold unreserve. rewrite Hc.
  destruct (dead c) eqn:Hd; [done|]. cbv zeta. destruct (Z.leb_spec (Z.min m (resv c)) 0) as [|Hm]; [done|].
  pose proof (proj2 Hr _ _ Hc) as Hok. pose proof (conn_ok_live_hold _ Hok Hd) as [Hob _].
  pose proof (hold_nonneg kindOutbound _ _ _ (proj1 Hr) Hc) as Hnn.
  set (d := Z.min m (resv c)) in *. set (c1 := set_bytes (outBytes c) (ephBytes c) (resv c - d) (readHeld c) c).
  pose proof (uncharge_hold i c1 kindOutbound d (set_conn i c1 l) Hnn ltac:(lia)) as Hu.
  destruct (unchargeLocked i c1 kindOutbound d (set_conn i c1 l)) as [l2 u] eqn:E. simpl in Hu.
  pose proof (uncharge_good F i c c1 kindOutbound d l u Hr Hc eq_refl eq_refl ltac:(lia)) as Hg. cbv zeta in Hg.
  rewrite E in Hg. simpl in *. ospecialize* Hg; [done| |].
  - subst u c1. simpl in *. rewrite Z.min_l by (destruct Hok; simpl in *; lia). conn_ok_tac Hok; congruence || lia.
  - enough (set_conn i u l2 = l2) as <- by done. apply set_conn_id.
    destruct (upd_set i c l c l c1 Hc (upd_refl _ _ _ (proj1 Hr) Hc) eq_refl eq_refl) as [Hl1 _ Hc1 _ _ _].
    destruct (uncharge_spec i c1 kindOutbound d (set_conn i c1 l) Hl1) as (l' & E' & HU); [by rewrite Hc1, lookup_insert_eq|lia|].
    pose proof (upd_lookup _ _ _ _ _ HU) as Hlk. rewrite E in E'. congruence.
Qed.

Lemma sendReserved_good F i c frame l : relay_ok l → conns l !! i = Some c → frame ≠ [] →
  Z.of_nat (length frame) ≤ resv c → good_upd F i c l (sendReserved i frame l).1.
Proof.
  intros Hr Hc Hf Hresv. pose proof (good_refl F i c l Hr Hc) as Hid. pose proof (length_pos _ Hf) as Hpos.
  unfold sendReserved. rewrite Hc. destruct (dead c) eqn:Hd; [done|].
  destruct (Nat.ltb_spec (length (out c)) (cap c)) as [Hcap|]; [|done]. simpl. unfold pushed. simpl.
  apply set_good; try done. pose proof (proj2 Hr _ _ Hc) as Hok. destruct Hok. constructor; simpl in *;
    rewrite ?queued_app, ?length_app; simpl; try lia; try congruence.
  - apply Forall_app. split; [done|]. by apply Forall_singleton.
  - intros _. unfold unwritten in *. rewrite map_app, live_fifo0 by done. simpl. by rewrite !map_app, app_assoc.
Qed.

Lemma startRead_good F i c t l : relay_ok l → conns l !! i = Some c → good_upd F i c l (startRead i t l).
Proof.
  intros Hr Hc. unfold startRead. rewrite Hc. apply set_good; try done. by destruct (proj2 Hr _ _ Hc).
Qed.

Lemma takeFrame_good F i c l : relay_ok l → conns l !! i = Some c → good_upd F i c l (takeFrame i l).
Proof.
  intros Hr Hc. pose proof (good_refl F i c l Hr Hc) as Hid. unfold takeFrame. rewrite Hc.
  destruct (inflight c) eqn:Hi; [done|]. destruct (out c) as [|f o] eqn:Ho; [done|].
  apply set_good; try done. pose proof (proj2 Hr _ _ Hc) as Hok. destruct Hok.
  constructor; simpl; try done; [by rewrite Ho in *; simpl in *; lia| |].
  - intros Hd. rewrite live_fifo0 by done. unfold unwritten. by rewrite Hi, Ho.
  - intros Hd. destruct (dead_empty0 Hd) as (_ & _ & _ & ?). congruence.
Qed.

Lemma doneRead_good F i c l : relay_ok l → conns l !! i = Some c → good_upd F i c l (doneRead i l).
Proof.
  intros Hr Hc. pose proof (good_refl F i c l Hr Hc) as Hid. unfold doneRead. rewrite Hc.
  destruct (dead c) eqn:Hd; [done|]. simpl. destruct (readHeld c =? 0) eqn:E0; [done|].
  pose proof (proj2 Hr _ _ Hc) as Hok. pose proof (hold_nonneg kindRead _ _ _ (proj1 Hr) Hc) as Hnn.
  pose proof (readHeld_nonneg _ Hok) as Hrn. pose proof (uncharge_hold i c kindRead (readHeld c) l Hnn Hrn) as Hu.
  pose proof (uncharge_good F i c c kindRead (readHeld c) l) as Hg. cbv zeta in Hg. rewrite (set_conn_id _ _ _ Hc) in Hg.
  destruct (unchargeLocked i c kindRead (readHeld c) l) as [l1 c1] eqn:E. simpl in Hu.
  apply Hg; try done. subst c1. pose proof (hold_read _ Hok) as Hh. simpl in Hh. simpl.
  conn_ok_tac Hok; lia || congruence.
Qed.

Lemma queued_cons k f q : queued k (f :: q) = (if bool_decide (kind f = k) then n f else 0) + queued k q.
Proof. done. Qed.

Lemma written_good F i c l : relay_ok l → conns l !! i = Some c → is_Some (inflight c) → good_upd F i c l (written i l).
Proof.
  intros Hr Hc [f0 Hf0]. pose proof (proj1 Hr) as Hl. pose proof (proj2 Hr _ _ Hc) as Hok.
  unfold written. rewrite Hc. set (c0 := set_out (out c) None c). cbv zeta.
  destruct (dead c) eqn:Hd.
  { apply set_good; try done. destruct Hok. constructor; simpl; try done. congruence. }
  pose proof (live_fifo _ Hok Hd) as Hfifo. unfold unwritten in Hfifo. rewrite Hf0 in Hfifo. simpl in Hfifo.
  pose proof (upd_set i c l c l c0 Hc (upd_refl _ _ _ Hl Hc) eq_refl eq_refl) as H0.
  pose proof (popWritten_spec i c0 _ (upd_ledger _ _ _ _ _ H0) (upd_lookup _ _ _ _ _ H0)
    (Forall_impl _ _ _ (queue_frames _ Hok) (λ _ H, proj2 H))) as Hp. simpl in Hp.
  destruct (queue c) as [|f q] eqn:Hq; [done|]. simpl in Hfifo. injection Hfifo as Hn Hfifo.
  destruct Hp as (l1 & -> & H1). pose proof (queue_frames _ Hok) as HF. rewrite Hq in HF.
  apply Forall_cons in HF as [[Hk Hpos] HF]. pose proof (queued_nonneg kindOutbound _ HF) as Hqo.
  pose proof (queued_nonneg kindEphemeral _ HF) as Hqe.
  assert (Z.min (n f) (kget (kind f) (hold c)) = n f) as Hmin.
  { destruct Hok. rewrite Hq, queued_cons in queue_outbound0, queue_ephemeral0. destruct (kind f); simpl in *; [lia|done|lia]. }
  eexists. split_and!.
  - eapply (upd_set _ _ _ _ _ _ Hc (upd_trans _ _ _ _ _ _ _ H0 H1)); by case_bool_decide.
  - rewrite Hmin. destruct Hok. rewrite Hq, queued_cons in queue_outbound0, queue_ephemeral0.
    destruct (kind f); [|done|]; constructor; simpl in *; try done; try lia; congruence.
  - apply shrunk_grown. intros k. rewrite Hmin. transitivity (kget k (kset (kind f) (kget (kind f) (hold c) - n f) (hold c)));
      [by case_bool_decide|]. destruct (decide (k = kind f)) as [->|]; [rewrite kget_kset_eq; lia|by rewrite kget_kset_ne].
Qed.

Lemma kget_zero k : kget k (PerKind 0 0 0) = 0.
Proof. by destruct k. Qed.

(** A connection that ends holds nothing, in the ledger and in itself. *)
Definition died (c : conn) : conn :=
  MkConn (prefix c) (cap c) (maxBytes c) [] (inflight c) 0 0 0 0 true (PerKind 0 0 0) (readStart c) [].

Lemma dieLocked_spec i c l : ledger_ok l → conns l !! i = Some c → dead c = false →
  (dieLocked i l).2 = true ∧ upd i c l (died c) (dieLocked i l).1.
Proof.
  intros Hl Hc Hd. unfold dieLocked. rewrite Hc, Hd.
  pose proof (upd_set i c l c l (set_dead c) Hc (upd_refl _ _ _ Hl Hc) eq_refl eq_refl) as H0.
  destruct (releaseAll_spec i (set_dead c) _ (upd_ledger _ _ _ _ _ H0) (upd_lookup _ _ _ _ _ H0)) as (l1 & -> & H1).
  split; [done|]. exact (upd_set _ _ _ _ _ (died c) Hc (upd_trans _ _ _ _ _ _ _ H0 H1) eq_refl eq_refl).
Qed.

Lemma dieLocked_good F i c l : relay_ok l → conns l !! i = Some c → good_upd F i c l (dieLocked i l).1.
Proof.
  intros Hr Hc. destruct (dead c) eqn:Hd; [unfold dieLocked; rewrite Hc, Hd; by apply good_refl|].
  destruct (dieLocked_spec i c l (proj1 Hr) Hc Hd) as [_ Hu]. exists (died c). split_and!; [done|..].
  - constructor; simpl; done || lia.
  - apply shrunk_grown. intros k. simpl. rewrite kget_zero. exact (hold_nonneg k _ _ _ (proj1 Hr) Hc).
Qed.

Lemma newConn_ok pfx qcap mb : conn_ok (newConn pfx qcap mb).
Proof. constructor; simpl; done || lia. Qed.

(** ** Steps *)

Lemma step_inv F l l' : step F l l' → relay_ok l →
  (∃ i pfx qcap mb, conns l !! i = None ∧ l' = set_conn i (newConn pfx qcap mb) l) ∨
  (∃ t, l' = MkRelay t (pools l) (conns l)) ∨ l' = l ∨ (∃ i c, conns l !! i = Some c ∧ good_upd F i c l l').
Proof.
  intros Hs Hr.
  assert (∀ i (f : relay), (conns l !! i = None → f = l) → (∀ c, conns l !! i = Some c → good_upd F i c l f) →
    f = l ∨ ∃ i c, conns l !! i = Some c ∧ good_upd F i c l f) as Hcase.
  { intros i f Hn Hg. destruct (conns l !! i) as [c|] eqn:E; [right; exists i, c; by auto|left; by auto]. }
  destruct Hs; [left; by eauto 6|right; left; by eauto|..]; right; right; apply (Hcase i); try (intros x Hx).
  all: try (unfold tryPush, tryReserve, unreserve, sendReserved, chargeRead, startRead, doneRead, takeFrame, written,
    evict, dieLocked; by rewrite Hx).
  all: try (intros Hn; unfold tryPush, tryReserve, unreserve, sendReserved, chargeRead, startRead, doneRead, takeFrame,
    written, evict, dieLocked; by rewrite Hn).
  - by apply tryPush_good.
  - by apply tryReserve_good.
  - by apply unreserve_good.
  - replace x with c in * by congruence. by apply sendReserved_good.
  - by apply chargeRead_good.
  - by apply startRead_good.
  - by apply doneRead_good.
  - by apply takeFrame_good.
  - replace x with c in * by congruence. by apply written_good.
  - by apply dieLocked_good.
Qed.

Lemma msum_const0 `{Countable K} {A} (f : K → A → Z) (m : gmap K A) : (∀ k a, m !! k = Some a → f k a = 0) → msum f m = 0.
Proof.
  intros Hf. rewrite (msum_ext _ (λ _ _, 0)) by done. unfold msum.
  induction (map_to_list m) as [|[] ? IH]; [done|]. simpl. by rewrite IH.
Qed.

Lemma kind_ok_connect k i c l : kind_ok k l → conns l !! i = None → hold c = PerKind 0 0 0 → kind_ok k (set_conn i c l).
Proof.
  intros [H1 H2 H3 H4 H5] Hi Hh. constructor; simpl; [done|..|done|].
  - intros pfx p Hp. rewrite msum_insert_new, (H2 _ _ Hp) by done.
    assert (held_of k pfx c = 0) as -> by (unfold held_of; rewrite Hh, kget_zero; by case_bool_decide). lia.
  - intros pfx p j Hp. rewrite (H3 _ _ _ Hp). destruct (decide (j = i)) as [->|]; [|by rewrite lookup_insert_ne].
    rewrite Hi, lookup_insert_eq. split; [naive_solver|]. intros (x & [= <-] & _ & Hx). rewrite Hh, kget_zero in Hx. lia.
  - intros j x. destruct (decide (j = i)) as [->|]; [|rewrite lookup_insert_ne by done; apply H5].
    rewrite lookup_insert_eq. intros [= <-]. rewrite Hh, kget_zero. lia.
Qed.

Lemma relay_ok_upd i c c' l l' : relay_ok l → upd i c l c' l' → conn_ok c' → relay_ok l'.
Proof.
  intros [_ Hcs] [Hl _ Hc _ _ _] Hok. split; [done|]. intros j x. rewrite Hc.
  destruct (decide (j = i)) as [->|]; [rewrite lookup_insert_eq; by intros [= <-]|rewrite lookup_insert_ne by done; apply Hcs].
Qed.

Lemma step_ok F l l' : relay_ok l → step F l l' → relay_ok l'.
Proof.
  intros Hr Hs. destruct (step_inv _ _ _ Hs Hr) as [(i & pfx & qcap & mb & Hi & ->)|[(t & ->)|[->|(i & c & Hc & c' & Hu & Hok & _)]]].
  - split; [intros k; by apply kind_ok_connect; [apply Hr|..]|]. intros j x. simpl.
    destruct (decide (j = i)) as [->|]; [rewrite lookup_insert_eq; intros [= <-]; apply newConn_ok|].
    rewrite lookup_insert_ne by done. apply Hr.
  - split; [|apply Hr]. intros k. by destruct (proj1 Hr k).
  - done.
  - by eapply relay_ok_upd.
Qed.

Lemma newLedger_ok o r e t : relay_ok (newLedger o r e t).
Proof. split; [|done]. intros k. by destruct k. Qed.

Lemma reachable_ok F l : reachable F l → relay_ok l.
Proof.
  intros (o & r & e & t & Hs). remember (newLedger o r e t) as l0 eqn:E.
  assert (relay_ok l0) as H0 by (subst; apply newLedger_ok). clear E.
  induction Hs as [|l0 l1 l2 Hs _ IH]; [done|]. apply IH. by eapply step_ok.
Qed.

(** ** Totals *)

Lemma msum_add `{Countable K} {A} (f g : K → A → Z) (m : gmap K A) : msum (λ k a, f k a + g k a) m = msum f m + msum g m.
Proof. unfold msum. induction (map_to_list m) as [|[] ? IH]; [done|]. simpl. lia. Qed.

Lemma msum_held k c {A} (ps : gmap string A) : (kget k (hold c) ≠ 0 → is_Some (ps !! prefix c)) →
  msum (λ pfx _, held_of k pfx c) ps = kget k (hold c).
Proof.
  intros H. destruct (decide (kget k (hold c) = 0)) as [E|E].
  - rewrite E. apply msum_const0. intros pfx a _. unfold held_of. by case_bool_decide.
  - destruct (H E) as [p Hp]. rewrite <- (insert_delete_id _ _ _ Hp), msum_insert_new by apply lookup_delete_eq.
    unfold held_of at 1. rewrite bool_decide_true by done. rewrite msum_const0; [lia|].
    intros pfx a [Hne _]%lookup_delete_Some. unfold held_of. by rewrite bool_decide_false.
Qed.

(** Summed by prefix or by connection, the holdings are the same. *)
Lemma msum_swap k {A} (ps : gmap string A) (cs : gmap Z conn) :
  (∀ j c, cs !! j = Some c → kget k (hold c) ≠ 0 → is_Some (ps !! prefix c)) →
  msum (λ pfx _, msum (λ _, held_of k pfx) cs) ps = msum (λ _ c, kget k (hold c)) cs.
Proof.
  induction cs as [|i c cs Hi IH] using map_ind; intros H.
  - rewrite msum_empty. by apply msum_const0.
  - rewrite msum_insert_new by done.
    rewrite (msum_ext _ (λ pfx _, held_of k pfx c + msum (λ _, held_of k pfx) cs)) by (intros; by rewrite msum_insert_new).
    rewrite msum_add, IH, msum_held; [done|apply (H i); apply lookup_insert_eq|].
    intros j x Hj. apply (H j). rewrite lookup_insert_ne by congruence. done.
Qed.

Lemma used_total k l : kind_ok k l → ledger_used k l = msum (λ _ c, kget k (hold c)) (conns l).
Proof.
  intros Hk. unfold ledger_used. rewrite (ok_used _ _ Hk), <- (msum_swap k (prefixes (kget k (pools l)))).
  - apply msum_ext. intros pfx p Hp. by apply ok_prefix.
  - intros j c Hj Hne. destruct (ok_hold _ _ Hk _ _ Hj) as [? H]. apply H. lia.
Qed.

Lemma usedBy_total k pfx l : kind_ok k l → usedBy k pfx l = msum (λ _, held_of k pfx) (conns l).
Proof.
  intros Hk. rewrite <- (prefix_held _ _ _ Hk). unfold usedBy, prefix_use. by destruct (prefixes _ !! pfx).
Qed.

Lemma upd_used i c l c' l' k : relay_ok l → conns l !! i = Some c → upd i c l c' l' →
  ledger_used k l' = ledger_used k l + (kget k (hold c') - kget k (hold c)) ∧
  ∀ pfx, usedBy k pfx l' = usedBy k pfx l + (if bool_decide (prefix c = pfx) then kget k (hold c') - kget k (hold c) else 0).
Proof.
  intros [Hl _] Hc [Hl' _ Hcs Hp _ _]. split.
  - rewrite !used_total, Hcs by done. rewrite (msum_insert _ _ _ _ _ Hc). lia.
  - intros pfx. rewrite !usedBy_total, Hcs by done. by apply held_insert.
Qed.

Lemma usedBy_nonneg k pfx l : kind_ok k l → 0 ≤ usedBy k pfx l.
Proof.
  intros Hk. rewrite usedBy_total by done. apply msum_nonneg. intros j c Hj. unfold held_of.
  case_bool_decide; [by apply (ok_hold _ _ Hk j)|done].
Qed.

(** ** Budgets are kept *)

Definition budget_kept (F : Z) (l : relay) (k : budgetKind) : Prop :=
  (0 < max (kget k (pools l)) → ledger_used k l ≤ Z.max (max (kget k (pools l))) F) ∧
  (0 < pshare (kget k (pools l)) → ∀ pfx, usedBy k pfx l ≤ Z.max (pshare (kget k (pools l))) F).

Lemma fits_room b p m : (fits b p m).1 = true → 0 < m →
  (0 < max b → used b ≤ 0 ∨ used b + m ≤ max b) ∧
  (0 < pshare b → match p with Some p => used_by p ≤ 0 ∨ used_by p + m ≤ pshare b | None => True end).
Proof.
  unfold fits. intros H Hm. destruct (Z.ltb_spec 0 (pshare b)), (Z.ltb_spec 0 (max b)), p as [p|]; simpl in *;
    repeat match goal with |- context [?a <? ?b] => destruct (Z.ltb_spec a b) | H : context [?a <? ?b] |- _ => destruct (Z.ltb_spec a b) end;
    simpl in *; try done; split; intros; try done; try lia.
Qed.

Lemma grown_kept F i c c' l l' k : relay_ok l → conns l !! i = Some c → upd i c l c' l' → grown F i c c' l →
  k ≠ kindEphemeral → budget_kept F l k → budget_kept F l' k.
Proof.
  intros Hr Hc Hu Hg Hk [Hm Hs]. destruct (upd_used _ _ _ _ _ k Hr Hc Hu) as [HU HUB].
  unfold budget_kept. rewrite (upd_max _ _ _ _ _ Hu), (upd_share _ _ _ _ _ Hu), HU.
  destruct (Hg k) as [Hle|(m & Hmm & Hh & Hfit)].
  - split; [intros Hpos; specialize (Hm Hpos); lia|]. intros Hpos pfx. rewrite HUB. specialize (Hs Hpos pfx). case_bool_decide; lia.
  - destruct (fits_room _ _ _ (Hfit Hk) (proj1 Hmm)) as [Hf1 Hf2]. rewrite Hh. split.
    + intros Hpos. unfold ledger_used. specialize (Hf1 Hpos). lia.
    + intros Hpos pfx. rewrite HUB. specialize (Hs Hpos pfx). specialize (Hf2 Hpos).
      case_bool_decide as E; [subst pfx|lia]. unfold usedBy. destruct (prefixes _ !! prefix c); lia.
Qed.

Lemma step_kept F l l' k : 0 ≤ F → relay_ok l → step F l l' → k ≠ kindEphemeral → budget_kept F l k → budget_kept F l' k.
Proof.
  intros HF Hr Hs Hk Hb.
  destruct (step_inv _ _ _ Hs Hr) as [(i & pfx & qcap & mb & Hi & ->)|[(t & ->)|[->|(i & c & Hc & c' & Hu & Hok & Hg)]]]; try done.
  by eapply grown_kept.
Qed.

Lemma reachable_kept F l k : 0 ≤ F → reachable F l → k ≠ kindEphemeral → budget_kept F l k.
Proof.
  intros HF (o & r & e & t & Hs) Hk. remember (newLedger o r e t) as l0 eqn:E.
  assert (relay_ok l0) as H0 by (subst; apply newLedger_ok).
  assert (budget_kept F l0 k) as Hb0.
  { subst. split; intros; [|unfold usedBy]; destruct k; simpl in *; try done; unfold ledger_used; simpl;
      rewrite ?lookup_empty; lia. }
  clear E. induction Hs as [|l0 l1 l2 Hs _ IH]; [done|]. apply IH; [by eapply step_ok|by eapply step_kept].
Qed.

(** ** Who pays *)

(** A connection that may be evicted for a charge to [i], which is [r]. *)
Definition may_pay (i : Z) (r : conn) (k : budgetKind) (own : bool) (t : Z) (cs : gmap Z conn) (j : Z) (c : conn) : Prop :=
  cs !! j = Some c ∧ j ≠ i ∧ 0 < kget k (hold c) ∧ eligible c r k own t = true.

Lemma pick_holder_spec i r k own t cs hs :
  match pick_holder i r k own t cs hs with
  | None => ∀ j c, j ∈ hs → ¬ may_pay i r k own t cs j c
  | Some b => b ∈ hs ∧ ∃ h, may_pay i r k own t cs b h ∧
      ∀ j c, j ∈ hs → may_pay i r k own t cs j c → kget k (hold c) ≤ kget k (hold h)
  end.
Proof.
  unfold pick_holder. induction hs as [|j hs IH] using rev_ind; [intros j c Hj; by apply not_elem_of_nil in Hj|].
  rewrite fold_left_app. simpl. set (res := fold_left _ hs None) in *.
  assert (∀ c, may_pay i r k own t cs j c ↔ cs !! j = Some c ∧
    bool_decide (j = i) || (kget k (hold c) <=? 0) || negb (eligible c r k own t) = false) as Hcand.
  { intros c. unfold may_pay. destruct (eligible c r k own t); case_bool_decide;
      destruct (Z.leb_spec (kget k (hold c)) 0); simpl; intuition (done || lia). }
  destruct (cs !! j) as [c|] eqn:Ej.
  - specialize (Hcand c). destruct (_ || negb _) eqn:Eb.
    + assert (¬ may_pay i r k own t cs j c) as Hno by (rewrite Hcand; naive_solver).
      assert (∀ c', ¬ may_pay i r k own t cs j c') as Hno' by (intros c' H; apply Hno; by replace c with c' by (destruct H; congruence)).
      destruct res as [b|]; [|set_solver]. destruct IH as (Hb & h & Hh & Hmax). split; [set_solver|]. exists h. set_solver.
    + destruct Hcand as [_ Hcand]. specialize (Hcand (conj eq_refl eq_refl)). destruct res as [b|].
      * destruct IH as (Hb & h & Hh & Hmax). pose proof Hh as (Ehb & _). rewrite Ehb.
        destruct (Z.ltb_spec (kget k (hold h)) (kget k (hold c))); simpl;
          [|destruct (Z.eqb_spec (kget k (hold c)) (kget k (hold h))); simpl; [destruct (older _ _); simpl|]].
        1, 2: split; [set_solver|]; exists c; split; [done|]; intros j' c' [Hj'| ->%list_elem_of_singleton]%elem_of_app Hc';
          [specialize (Hmax j' c' Hj' Hc'); lia|destruct Hc' as [Hc' _]; simplify_eq; lia].
        all: split; [set_solver|]; exists h; split; [done|]; intros j' c' [Hj'| ->%list_elem_of_singleton]%elem_of_app Hc';
          [by apply (Hmax j')|destruct Hc' as [Hc' _]; simplify_eq; lia].
      * split; [set_solver|]. exists c. split; [done|]. intros j' c' [Hj'| ->%list_elem_of_singleton]%elem_of_app Hc';
          [by destruct (IH j' c' Hj')|destruct Hc' as [Hc' _]; simplify_eq; lia].
  - assert (∀ c, ¬ may_pay i r k own t cs j c) as Hno by (intros c [? _]; congruence).
    destruct res as [b|]; [|set_solver]. destruct IH as (Hb & h & Hh & Hmax). split; [set_solver|]. exists h. set_solver.
Qed.

Lemma pick_heaviest_spec k cs ps :
  match pick_heaviest k cs ps with
  | None => ps = []
  | Some x => x ∈ ps ∧ ∀ y, y ∈ ps → used_by y.2 ≤ used_by x.2
  end.
Proof.
  unfold pick_heaviest. induction ps as [|x ps IH] using rev_ind; [done|]. rewrite fold_left_app. simpl.
  destruct (fold_left _ ps None) as [y|] eqn:E.
  - destruct IH as [Hy Hmax]. destruct (Z.ltb_spec (used_by y.2) (used_by x.2)); [|destruct (_ && _) eqn:E2; bprop];
      (split; [set_solver|]); intros z [Hz| ->%list_elem_of_singleton]%elem_of_app; try specialize (Hmax z Hz); lia.
  - subst. split; [set_solver|]. intros z. simpl. rewrite list_elem_of_singleton. intros ->. lia.
Qed.

(** The prefix that pays: the requester's own when its share was passed, else
    another that holds at least what the requester's would. *)
Definition pays (k : budgetKind) (r : conn) (m : Z) (ov : bool) (name : string) (l : relay) : Prop :=
  if ov then name = prefix r
  else name ≠ prefix r ∧ usedBy k (prefix r) l + m ≤ usedBy k name l ∧ ∀ pfx, usedBy k pfx l ≤ usedBy k name l.

Lemma pick_spec i r k m ov ps hs l j name : relay_ok l → ps ≡ₚ map_to_list (prefixes (kget k (pools l))) →
  (∀ p, hs p ≡ₚ elements (holders p)) → pick i r k m ov ps hs l = Some (j, name) →
  ∃ c, may_pay i r k (bool_decide (name = prefix r)) (now l) (conns l) j c ∧ prefix c = name ∧ pays k r m ov name l ∧
    ∀ j' c', prefix c' = name → may_pay i r k (bool_decide (name = prefix r)) (now l) (conns l) j' c' →
      kget k (hold c') ≤ kget k (hold c).
Proof.
  intros [Hl _] Hps Hhs. pose proof (Hl k) as Hk. set (P := prefixes (kget k (pools l))) in *.
  enough (∀ p, P !! name = Some p → pays k r m ov name l →
    pick_holder i r k (bool_decide (name = prefix r)) (now l) (conns l) (hs p) = Some j →
    ∃ c, may_pay i r k (bool_decide (name = prefix r)) (now l) (conns l) j c ∧ prefix c = name ∧ pays k r m ov name l ∧
    ∀ j' c', prefix c' = name → may_pay i r k (bool_decide (name = prefix r)) (now l) (conns l) j' c' →
      kget k (hold c') ≤ kget k (hold c)) as Hmain.
  { unfold pick. fold P. destruct ov.
    - destruct (P !! prefix r) as [p|] eqn:Ep; [|done]. destruct (pick_holder _ _ _ _ _ _ _) as [j'|] eqn:Eh; [|done].
      intros [= <- <-]. by apply (Hmain p).
    - pose proof (pick_heaviest_spec k (conns l) ps) as Hh. destruct (pick_heaviest _ _ _) as [[nm best]|]; [|done].
      destruct Hh as [Hin Hmax]. destruct (bool_decide (nm = prefix r)) eqn:En; [done|].
      apply bool_decide_eq_false in En. simpl. destruct (Z.ltb_spec (used_by best)
        ((match P !! prefix r with Some p => used_by p | None => 0 end) + m)) as [|Hle]; [done|].
      destruct (_ && negb _); [done|]. destruct (pick_holder _ _ _ _ _ _ _) as [j'|] eqn:Eh; [|done]. intros [= <- <-].
      rewrite Hps in Hin. apply elem_of_map_to_list in Hin.
      assert (usedBy k nm l = used_by best) as Eu by (unfold usedBy; fold P; by rewrite Hin).
      apply (Hmain best Hin); [|done]. split; [done|]. rewrite Eu. split; [exact Hle|]. intros pfx. unfold usedBy. fold P.
      destruct (P !! pfx) as [q|] eqn:Eq.
      + apply (Hmax (pfx, q)). rewrite Hps. by apply elem_of_map_to_list.
      + rewrite <- Eu. by apply usedBy_nonneg. }
  intros p Hp Hpays Hpick. pose proof (pick_holder_spec i r k (bool_decide (name = prefix r)) (now l) (conns l) (hs p)) as Hs.
  rewrite Hpick in Hs. destruct Hs as (Hj & c & Hc & Hmax). rewrite Hhs in Hj. apply elem_of_elements in Hj.
  apply (ok_holders _ _ Hk name p) in Hj as (c' & Hc' & Hpc & _); [|done].
  assert (c' = c) as -> by (destruct Hc; congruence). exists c. split_and!; try done.
  intros j' x Hpx Hx. apply (Hmax j' x); [|done]. rewrite Hhs. apply elem_of_elements.
  apply (ok_holders _ _ Hk name p _ Hp). exists x. by destruct Hx as (? & ? & ? & ?).
Qed.

(** ** Evictions and pushes *)

Lemma dead_holds_nothing l j c k : relay_ok l → conns l !! j = Some c → 0 < kget k (hold c) → dead c = false.
Proof.
  intros Hr Hc Hh. destruct (dead c) eqn:Hd; [|done]. destruct (dead_empty _ (proj2 Hr _ _ Hc) Hd) as [E _].
  rewrite E, kget_zero in Hh. lia.
Qed.

(** evictFor: nobody, or one live connection other than [i] that pays. *)
Lemma evictFor_spec i r k m ov l : relay_ok l → conns l !! i = Some r →
  evictFor i k m ov l = (l, false) ∨
  ∃ j c, (evictFor i k m ov l).2 = true ∧ upd j c l (died c) (evictFor i k m ov l).1 ∧
    may_pay i r k (bool_decide (prefix c = prefix r)) (now l) (conns l) j c ∧ pays k r m ov (prefix c) l.
Proof.
  intros Hr Hi. unfold evictFor. rewrite Hi. destruct (pick _ _ _ _ _ _ _ _) as [[j name]|] eqn:E; [|by left].
  apply pick_spec in E as (c & Hm & <- & Hp & _); [|done..]. right. exists j, c. unfold evict.
  pose proof Hm as (Hc & _ & Hh & _). pose proof (dead_holds_nothing _ _ _ _ Hr Hc Hh) as Hd.
  destruct (dieLocked_spec j c l (proj1 Hr) Hc Hd) as [-> Hu]. done.
Qed.

(** tryPush queues the frame last, or changes nothing. *)
Lemma tryPush_effect i c frame k force l : relay_ok l → conns l !! i = Some c → frame ≠ [] →
  let '(l', (ok, refused, _)) := tryPush i frame k force l in
  if ok then refused = false ∧ ∃ c', conns l' = <[i := c']> (conns l) ∧ out c' = out c ++ [frame] ∧ inflight c' = inflight c
  else l' = l.
Proof.
  intros Hr Hc Hf. pose proof (length_pos _ Hf) as Hpos. unfold tryPush. rewrite Hc. cbv zeta.
  destruct (dead c || _); [done|]. destruct (_ && (maxBytes c <? _)); [done|]. rewrite charge_spec by (done || apply Hr). cbv zeta.
  destruct (force || _); [|done]. split; [done|]. eexists. split; [simpl; by rewrite insert_insert_eq|].
  split; by case_bool_decide.
Qed.

Lemma push_steps F i frame k force l : frame ≠ [] → Z.of_nat (length frame) ≤ F → k ≠ kindRead →
  (force = true → k = kindEphemeral) → rtc (step F) l (push i frame k force l).1.
Proof.
  intros Hf HF Hk Hforce. unfold push. pose proof (step_push F l i frame k force Hk Hf HF Hforce) as H1.
  destruct (tryPush i frame k force l) as [l1 [[ok refused] ov]]. simpl in H1. destruct refused; [|by apply rtc_once].
  eapply rtc_l; [exact H1|]. unfold evictFor. destruct (conns l1 !! i) as [r|]; [|done].
  destruct (pick _ _ _ _ _ _ _ _) as [[j name]|]; [|done]. pose proof (step_die F l1 j) as H2.
  destruct (evict j l1) as [l2 []]; simpl in H2; [|by apply rtc_once]. eapply rtc_l; [exact H2|].
  pose proof (step_push F l2 i frame k force Hk Hf HF Hforce) as H3.
  destruct (tryPush i frame k force l2) as [l3 [[ok' ?] ?]]. by apply rtc_once.
Qed.

(** ** The properties *)

(** C38: In every state that any interleaving of the relay's critical sections
    reaches, the three budgets account for every connection: the bytes used
    of each budget are the sum of what the connections hold, a prefix's count
    is the sum over its connections, and a live connection's holdings are
    exactly its buffered frames, its drain reservation and its read buffer,
    with the ledger's queue listing the frames not yet written, in order. *)
Theorem ledger_accounts F l : reachable F l →
  (∀ k, ledger_used k l = msum (λ _ c, kget k (hold c)) (conns l) ∧
        ∀ pfx, usedBy k pfx l = msum (λ _, held_of k pfx) (conns l)) ∧
  ∀ i c, conns l !! i = Some c → dead c = false →
    map n (queue c) = map (λ f, Z.of_nat (length f)) (unwritten c) ∧
    kget kindOutbound (hold c) = queued kindOutbound (queue c) + resv c ∧
    kget kindEphemeral (hold c) = queued kindEphemeral (queue c) ∧
    kget kindRead (hold c) = readHeld c ∧ 0 ≤ resv c ∧ 0 ≤ readHeld c.
Proof.
  intros Hr%reachable_ok. split.
  - intros k. split; [by apply used_total, Hr|]. intros pfx. by apply usedBy_total, Hr.
  - intros i c Hc Hd. destruct (proj2 Hr _ _ Hc). split_and!; auto; congruence.
Qed.

(** No budget leaks: once every connection has been released or evicted,
    all three budgets are back at zero and record no prefix. *)
Theorem ledger_no_leak F l k : reachable F l → (∀ i c, conns l !! i = Some c → dead c = true) →
  ledger_used k l = 0 ∧ prefixes (kget k (pools l)) = ∅.
Proof.
  intros Hr%reachable_ok Hd. pose proof (proj1 Hr k) as Hk. assert (∀ i c, conns l !! i = Some c → kget k (hold c) = 0) as H0.
  { intros i c Hc. destruct (dead_empty _ (proj2 Hr _ _ Hc) (Hd _ _ Hc)) as [-> _]. apply kget_zero. }
  split; [rewrite used_total by done; by apply msum_const0|].
  apply map_eq. intros pfx. rewrite lookup_empty. destruct (prefixes _ !! pfx) as [p|] eqn:Hp; [|done]. exfalso.
  pose proof (ok_nonempty _ _ Hk _ _ Hp) as Hne. apply set_choose_L in Hne as [j Hj].
  apply (ok_holders _ _ Hk _ _ _ Hp) in Hj as (c & Hc & _ & Hpos). specialize (H0 _ _ Hc). lia.
Qed.

(** Backpressure: in every reachable state the outbound and the read
    budget stay within their maximum, and every prefix within its share,
    except that a single charge (of at most [F] bytes) may be taken by an
    empty budget or by a prefix that holds nothing. *)
Theorem budget_bound F l k : 0 ≤ F → reachable F l → k ≠ kindEphemeral →
  (0 < max (kget k (pools l)) → ledger_used k l ≤ Z.max (max (kget k (pools l))) F) ∧
  (0 < pshare (kget k (pools l)) → ∀ pfx, usedBy k pfx l ≤ Z.max (pshare (kget k (pools l))) F).
Proof. intros HF Hr Hk. exact (reachable_kept F l k HF Hr Hk). Qed.

(** Fair eviction, whatever the iteration order of the two maps: the
    connection that pays for a refused charge is not the requester, holds
    some of the budget, is live and eligible, and holds the most among the
    eligible connections of the prefix that pays, which is the requester's
    own if its share was passed, and else the heaviest prefix, one that holds
    at least what the requester's would hold. *)
Theorem pick_pays F i r k m ov ps hs l j name : reachable F l → conns l !! i = Some r →
  ps ≡ₚ map_to_list (prefixes (kget k (pools l))) → (∀ p, hs p ≡ₚ elements (holders p)) →
  pick i r k m ov ps hs l = Some (j, name) →
  ∃ c, conns l !! j = Some c ∧ prefix c = name ∧ j ≠ i ∧ dead c = false ∧ 0 < kget k (hold c) ∧
    eligible c r k (bool_decide (name = prefix r)) (now l) = true ∧
    (if ov then name = prefix r
     else name ≠ prefix r ∧ usedBy k (prefix r) l + m ≤ usedBy k name l ∧ ∀ pfx, usedBy k pfx l ≤ usedBy k name l) ∧
    ∀ j' c', conns l !! j' = Some c' → prefix c' = name → j' ≠ i → 0 < kget k (hold c') →
      eligible c' r k (bool_decide (name = prefix r)) (now l) = true → kget k (hold c') ≤ kget k (hold c).
Proof.
  intros Hr%reachable_ok Hi Hps Hhs Hp. destruct (pick_spec i r k m ov ps hs l j name Hr Hps Hhs Hp) as (c & Hm & Hpc & Hpays & Hmax).
  pose proof Hm as (Hc & Hne & Hh & He). exists c. split_and!; try done; [by eapply dead_holds_nothing|].
  intros j' c' ? ? ? ? ?. by apply (Hmax j').
Qed.

(** An eviction (or a release) frees exactly what the connection held, in
    every budget and in its prefix, leaves every other connection as it was,
    and a second one does nothing: nothing is uncharged twice. *)
Theorem evict_frees F l i c : reachable F l → conns l !! i = Some c → dead c = false →
  (evict i l).2 = true ∧ conns (evict i l).1 = <[i := died c]> (conns l) ∧
  (∀ k, ledger_used k (evict i l).1 = ledger_used k l - kget k (hold c) ∧
        ∀ pfx, usedBy k pfx (evict i l).1 = usedBy k pfx l - held_of k pfx c) ∧
  evict i (evict i l).1 = ((evict i l).1, false).
Proof.
  intros Hr%reachable_ok Hc Hd. unfold evict. destruct (dieLocked_spec i c l (proj1 Hr) Hc Hd) as [-> Hu].
  split_and!; [done|by destruct Hu|..].
  - intros k. destruct (upd_used _ _ _ _ _ k Hr Hc Hu) as [E1 E2]. simpl in *. rewrite kget_zero in *. split; [lia|].
    intros pfx. rewrite E2. unfold held_of. case_bool_decide; lia.
  - unfold dieLocked at 1. by rewrite (upd_lookup _ _ _ _ _ Hu).
Qed.

(** Push queues the frame last in the connection's buffer exactly when it
    returns true, and otherwise leaves the buffer as it was; besides, it
    evicts at most one other connection, one that may pay for the charge. *)
Theorem push_effect F i c frame k force l : reachable F l → conns l !! i = Some c → frame ≠ [] →
  let '(l', ok) := push i frame k force l in
  (∃ c', conns l' !! i = Some c' ∧ if ok then out c' = out c ++ [frame] else c' = c) ∧
  ((∀ j, j ≠ i → conns l' !! j = conns l !! j) ∨
   ∃ j x, j ≠ i ∧ conns l !! j = Some x ∧ dead x = false ∧ 0 < kget k (hold x) ∧
     eligible x c k (bool_decide (prefix x = prefix c)) (now l) = true ∧
     conns l' !! j = Some (died x) ∧ ∀ j', j' ≠ i → j' ≠ j → conns l' !! j' = conns l !! j').
Proof.
  intros Hr%reachable_ok Hc Hf. unfold push. pose proof (tryPush_effect i c frame k force l Hr Hc Hf) as H1.
  destruct (tryPush i frame k force l) as [l1 [[ok refused] ov]]. destruct ok.
  { destruct H1 as (-> & c' & E & Ho & _). rewrite E. split; [exists c'; by rewrite lookup_insert_eq|].
    left. intros j Hne. by rewrite lookup_insert_ne. }
  subst l1. destruct refused; [|split; [by exists c|by left]].
  destruct (evictFor_spec i c k (Z.of_nat (length frame)) ov l Hr Hc) as [->|(j & x & Hok & Hu & Hm & _)];
    [split; [by exists c|by left]|].
  destruct (evictFor i k _ ov l) as [l2 ev]. simpl in *. subst ev. destruct Hm as (Hx & Hne & Hh & He).
  pose proof (dead_holds_nothing _ _ _ _ Hr Hx Hh) as Hd.
  assert (relay_ok l2) as Hr2.
  { eapply relay_ok_upd; [done|done|]. constructor; simpl; done || lia. }
  pose proof (upd_conns _ _ _ _ _ Hu) as E2. assert (conns l2 !! i = Some c) as Hc2 by (rewrite E2; by rewrite lookup_insert_ne).
  pose proof (tryPush_effect i c frame k force l2 Hr2 Hc2 Hf) as H2.
  destruct (tryPush i frame k force l2) as [l3 [[ok' ref'] ?]]. destruct ok'.
  - destruct H2 as (_ & c' & E3 & Ho & _). split; [exists c'; rewrite E3; by rewrite lookup_insert_eq|]. right. exists j, x.
    split_and!; try done; rewrite E3, E2.
    + by rewrite lookup_insert_ne, lookup_insert_eq by done.
    + intros j' ? ?. by rewrite !lookup_insert_ne by done.
  - subst l3. split; [by exists c|]. right. exists j, x. split_and!; try done; rewrite E2.
    + by rewrite lookup_insert_eq.
    + intros j' ? ?. by rewrite lookup_insert_ne by done.
Qed.

(** ** An execution

    Budgets of 100 bytes. Connection 2 buffers a frame of 60 bytes and does
    not read it for ten seconds; a frame of 50 bytes for connection 1 then
    evicts it. *)
Definition demo_frame (m : nat) : bytes := repeat 7 m.
Definition demo_quiet : relay :=
  (tryPush 2 (demo_frame 60) kindOutbound false
    (set_conn 2 (newConn "b" 4 0) (set_conn 1 (newConn "a" 4 0) (newLedger 100 100 100 0)))).1.
Definition demo_late : relay := MkRelay (10 * second) (pools demo_quiet) (conns demo_quiet).
Definition demo_gone : relay := (evict 2 (evict 1 demo_late).1).1.

Lemma demo_late_reachable : reachable 100 demo_late.
Proof.
  exists 100, 100, 100, 0. eapply rtc_l; [apply (step_connect 100 _ 1 "a" 4 0); reflexivity|].
  eapply rtc_l; [apply (step_connect 100 _ 2 "b" 4 0); reflexivity|].
  eapply rtc_l; [apply (step_push 100 _ 2 (demo_frame 60) kindOutbound false); [done|done|vm_compute; done|done]|].
  apply rtc_once. apply (step_clock 100 demo_quiet). vm_compute. done.
Qed.
Lemma demo_gone_reachable : reachable 100 demo_gone.
Proof.
  destruct demo_late_reachable as (o & r & e & t & H). exists o, r, e, t.
  eapply rtc_r; [eapply rtc_r; [exact H|apply (step_die 100 demo_late 1)]|]. apply (step_die 100 _ 2).
Qed.

Example demo_evicts : let '(l, ok) := push 1 (demo_frame 50) kindOutbound false demo_late in
  ok = true ∧ ledger_used kindOutbound l = 50 ∧ usedBy kindOutbound "b" l = 0.
Proof. by vm_compute. Qed.

Definition demo_conn (i : Z) (l : relay) : conn := default (newConn "" 0 0) (conns l !! i).

Lemma ledger_accounts_witness : ledger_used kindOutbound demo_late = msum (λ _ c, kget kindOutbound (hold c)) (conns demo_late) ∧
  usedBy kindOutbound "b" demo_late = 60 ∧ kget kindOutbound (hold (demo_conn 2 demo_late)) = 60 + 0.
Proof.
  destruct (ledger_accounts 100 demo_late demo_late_reachable) as [Hk Hc].
  split; [exact (proj1 (Hk kindOutbound))|]. split; [vm_compute; reflexivity|].
  destruct (Hc 2 (demo_conn 2 demo_late) ltac:(vm_compute; reflexivity) ltac:(vm_compute; reflexivity)) as (_ & Ho & _).
  rewrite Ho. vm_compute. reflexivity.
Defined.

Lemma ledger_no_leak_witness : ledger_used kindOutbound demo_gone = 0 ∧ prefixes (kget kindOutbound (pools demo_gone)) = ∅.
Proof.
  apply (ledger_no_leak 100 demo_gone kindOutbound demo_gone_reachable).
  assert (map_Forall (λ _ c, dead c = true) (conns demo_gone)) as H; [|exact H].
  apply (bool_decide_unpack _). vm_compute. exact I.
Defined.

Lemma budget_bound_witness : ledger_used kindOutbound demo_late ≤ 100 ∧ usedBy kindOutbound "b" demo_late ≤ 100.
Proof.
  destruct (budget_bound 100 demo_late kindOutbound ltac:(lia) demo_late_reachable ltac:(discriminate)) as [H1 H2].
  split; [exact (H1 ltac:(vm_compute; reflexivity))|exact (H2 ltac:(vm_compute; reflexivity) "b"%string)].
Defined.

Lemma pick_pays_witness : pick 1 (demo_conn 1 demo_late) kindOutbound 50 false (prefix_order kindOutbound demo_late) holder_order demo_late
    = Some (2, "b"%string) ∧ ∃ c, conns demo_late !! 2 = Some c ∧ prefix c = "b"%string ∧ dead c = false.
Proof.
  assert (pick 1 (demo_conn 1 demo_late) kindOutbound 50 false (prefix_order kindOutbound demo_late) holder_order demo_late
    = Some (2, "b"%string)) as E by (vm_compute; reflexivity).
  split; [exact E|].
  destruct (pick_pays 100 1 (demo_conn 1 demo_late) kindOutbound 50 false (prefix_order kindOutbound demo_late) holder_order demo_late 2 "b"%string demo_late_reachable
    ltac:(vm_compute; reflexivity) ltac:(reflexivity) ltac:(intros p; reflexivity) E) as (c & Hc & Hp & _ & Hd & _).
  exists c. done.
Defined.

Lemma evict_frees_witness : (evict 2 demo_late).2 = true ∧
  ledger_used kindOutbound (evict 2 demo_late).1 = ledger_used kindOutbound demo_late - 60.
Proof.
  destruct (evict_frees 100 demo_late 2 (demo_conn 2 demo_late) demo_late_reachable
    ltac:(vm_compute; reflexivity) ltac:(vm_compute; reflexivity)) as (H1 & _ & H2 & _).
  split; [exact H1|]. rewrite (proj1 (H2 kindOutbound)). vm_compute. reflexivity.
Defined.

Lemma push_effect_witness : ∃ l', push 1 (demo_frame 50) kindOutbound false demo_late = (l', true) ∧
  ∃ c', conns l' !! 1 = Some c' ∧ out c' = [demo_frame 50].
Proof.
  pose proof (push_effect 100 1 (demo_conn 1 demo_late) (demo_frame 50) kindOutbound false demo_late demo_late_reachable
    ltac:(vm_compute; reflexivity) ltac:(discriminate)) as H.
  assert ((push 1 (demo_frame 50) kindOutbound false demo_late).2 = true) as E by (vm_compute; reflexivity).
  destruct (push 1 (demo_frame 50) kindOutbound false demo_late) as [l' ok]. simpl in E. subst ok.
  exists l'. split; [reflexivity|]. exact (proj1 H).
Defined.
