(* ===== verification/Queue.v ===== *)
(** * The relay's offline queue (internal/relay/queue.go)

    The queue database is a table of rows in the order of their rowid (which
    is what ORDER BY seq reads) with SQLite's AUTOINCREMENT counter and the
    delivered marks, next to the totals the relay keeps in memory. Every
    operation that takes q.mu is one function; a database call may fail, as
    the argument [fault] says of each call of the operation, in order, and a
    transaction that fails is rolled back. Times of q.now() are nanoseconds;
    the disk check uses the wall clock. *)

From S2P Require Import Prelude.

Open Scope Z_scope.

Definition sweepBatchRows : nat := 32.
Definition pruneBatchRows : nat := 256.
Definition diskCheckEvery : Z := 1000000000.

(** queueLimits; freeDisk is an argument of the operations. 0: no limit. *)
Record queueLimits := MkLimits {
  pairCount : Z; pairBytes : Z; senderCount : Z; senderBytes : Z; totalBytes : Z; minFree : Z }.

(** What openQueue and the relay set once; [on_disk]: path is not empty. *)
Record config := MkConfig { on_disk : bool; ttl : Z; maxCount : Z; maxBytes : Z; lim : queueLimits }.

Record usage := MkUsage { u_n : Z; u_bytes : Z }.

Record qrow := MkRow { seq : Z; to_key : string; from_key : string; id : string; enqueued : Z; frame : bytes }.

Record queue := MkQueue {
  rows : list qrow;            (* table queue *)
  autoinc : Z;                 (* the largest seq the table ever had *)
  marks : gmap string Z;       (* table queue_delivered *)
  senders : gmap string usage;
  total : usage;
  diskChecked : option Z;
  diskLow : bool;
}.

(** The part of an envelope header that add reads. *)
Record header := MkHeader { To : string; From : string; ID : string }.

Inductive queue_error :=
| db_error (call : nat)
| errStorageLow
| queueFullError (limit : string).

Definition limitQueuePair : string := "queue_pair".
Definition limitQueueSender : string := "queue_sender".
Definition limitQueueRecipient : string := "queue_recipient".
Definition limitQueueTotal : string := "queue_total".

Definition size (r : qrow) : Z := Z.of_nat (length (frame r)).

(** SELECT COUNT( * ), COALESCE(SUM(LENGTH(frame)), 0) *)
Definition usage_of (l : list qrow) : usage := MkUsage (Z.of_nat (length l)) (zsum size l).

(** ** Totals kept in memory *)

Definition of_sender (from : string) (l : list qrow) : list qrow := filter (λ r, from_key r = from) l.

(** The rows of rebuildTotals' GROUP BY from_key. *)
Definition sender_groups (l : list qrow) : list (string * usage) :=
  map (λ from, (from, usage_of (of_sender from l))) (remove_dups (map from_key l)).

Definition rebuild_step (a : gmap string usage * usage) (g : string * usage) : gmap string usage * usage :=
  (<[g.1 := g.2]> a.1, MkUsage (u_n a.2 + u_n g.2) (u_bytes a.2 + u_bytes g.2)).

Definition set_totals (a : gmap string usage * usage) (q : queue) : queue :=
  MkQueue (rows q) (autoinc q) (marks q) a.1 a.2 (diskChecked q) (diskLow q).

Definition rebuildTotals (q : queue) : queue :=
  set_totals (fold_left rebuild_step (sender_groups (rows q)) (∅, MkUsage 0 0)) q.

(** openQueue: what the file holds, and nothing of the last process. *)
Definition openQueue (q : queue) : queue :=
  rebuildTotals (MkQueue (rows q) (autoinc q) (marks q) ∅ (MkUsage 0 0) None false).

Definition empty_queue : queue := MkQueue [] 0 ∅ ∅ (MkUsage 0 0) None false.

Definition adjust (from : string) (n b : Z) (q : queue) : queue :=
  let u := default (MkUsage 0 0) (senders q !! from) in
  let u' := MkUsage (u_n u + n) (u_bytes u + b) in
  set_totals (if u_n u' <=? 0 then delete from (senders q) else <[from := u']> (senders q),
              MkUsage (u_n (total q) + n) (u_bytes (total q) + b)) q.

Definition set_rows (l : list qrow) (q : queue) : queue :=
  MkQueue l (autoinc q) (marks q) (senders q) (total q) (diskChecked q) (diskLow q).
Definition set_marks (m : gmap string Z) (q : queue) : queue :=
  MkQueue (rows q) (autoinc q) m (senders q) (total q) (diskChecked q) (diskLow q).

Section queue.
Context (cfg : config).

(** cutoff, in unix milliseconds: time.UnixMilli rounds down. *)
Definition cutoff (t : Z) : Z := (t - ttl cfg) / 1000000.

(** storageLow at wall time [wall]; [freeDisk] is None without a function,
    else its answer, None for an error. *)
Definition storageLow (wall : Z) (freeDisk : option (option Z)) (q : queue) : queue * bool :=
  match freeDisk with
  | None => (q, false)
  | Some answer =>
      if negb (on_disk cfg) || (minFree (lim cfg) <=? 0) then (q, false)
      else
        match diskChecked q with
        | Some at_ => if wall - at_ <? diskCheckEvery then (q, diskLow q)
                     else let low := match answer with Some free => free <? minFree (lim cfg) | None => false end in
                          (MkQueue (rows q) (autoinc q) (marks q) (senders q) (total q) (Some wall) low, low)
        | None => let low := match answer with Some free => free <? minFree (lim cfg) | None => false end in
                  (MkQueue (rows q) (autoinc q) (marks q) (senders q) (total q) (Some wall) low, low)
        end
  end.

(** queueDedupeQuery, queuePairQuery, queueRecipientQuery *)
Definition same_envelope (h : header) (r : qrow) : bool :=
  bool_decide (to_key r = To h) && bool_decide (from_key r = From h) && bool_decide (id r = ID h).
Definition pair_rows (h : header) (cut : Z) (l : list qrow) : list qrow :=
  filter (λ r, to_key r = To h ∧ from_key r = From h ∧ cut <= enqueued r) l.
Definition recipient_rows (to : string) (cut : Z) (l : list qrow) : list qrow :=
  filter (λ r, to_key r = to ∧ cut <= enqueued r) l.

Definition insert_row (h : header) (t : Z) (fr : bytes) (q : queue) : queue :=
  let s := autoinc q + 1 in
  MkQueue (rows q ++ [MkRow s (To h) (From h) (ID h) (t / 1000000) fr]) s (marks q) (senders q) (total q)
    (diskChecked q) (diskLow q).

(** add at queue time [t]; the calls that may fail are BeginTx, the three
    queries, the INSERT and the commit. *)
Definition add (fault : nat → bool) (t wall : Z) (freeDisk : option (option Z)) (h : header) (fr : bytes) (q : queue) :
    queue * result queue_error unit :=
  if fault 0%nat then (q, Err (db_error 0)) else
  if fault 1%nat then (q, Err (db_error 1)) else
  if existsb (same_envelope h) (rows q) then (q, Ok ())
  else
    let sz := Z.of_nat (length fr) in
    let '(q, low) := storageLow wall freeDisk q in
    let l := lim cfg in
    if low then (q, Err errStorageLow) else
    if (0 <? totalBytes l) && (totalBytes l <? u_bytes (total q) + sz) then (q, Err (queueFullError limitQueueTotal)) else
    if match senders q !! From h with
       | Some u => ((0 <? senderCount l) && (senderCount l <=? u_n u)) ||
                   ((0 <? senderBytes l) && (senderBytes l <? u_bytes u + sz))
       | None => false
       end then (q, Err (queueFullError limitQueueSender)) else
    let pair := usage_of (pair_rows h (cutoff t) (rows q)) in
    let check_pair := (0 <? pairCount l) || (0 <? pairBytes l) in
    if check_pair && fault 2%nat then (q, Err (db_error 2)) else
    if check_pair && (((0 <? pairCount l) && (pairCount l <=? u_n pair)) ||
                      ((0 <? pairBytes l) && (pairBytes l <? u_bytes pair + sz)))
    then (q, Err (queueFullError limitQueuePair)) else
    if fault 3%nat then (q, Err (db_error 3)) else
    let used := usage_of (recipient_rows (To h) (cutoff t) (rows q)) in
    if (maxCount cfg <=? u_n used) || (maxBytes cfg <? u_bytes used + sz)
    then (q, Err (queueFullError limitQueueRecipient)) else
    if fault 4%nat then (q, Err (db_error 4)) else
    if fault 5%nat then (q, Err (db_error 5)) else
    (adjust (From h) 1 sz (insert_row h t fr q), Ok ()).

(** readRows, over the rows of a query: at least one, until they hold
    [max] bytes. *)
Fixpoint readRows_from (got : Z) (max : Z) (l : list qrow) : list qrow :=
  match l with
  | [] => []
  | r :: l => r :: (if max <=? got + size r then [] else readRows_from (got + size r) max l)
  end.
Definition readRows (max : Z) (l : list qrow) : list qrow := readRows_from 0 max l.

(** WHERE to_key = ? AND seq > ? AND enqueued >= ? *)
Definition after_rows (to : string) (after : Z) (t : Z) (l : list qrow) : list qrow :=
  filter (λ r, to_key r = to ∧ after < seq r ∧ cutoff t <= enqueued r) l.
(** ... AND seq <= ? *)
Definition range_rows (to : string) (after upto : Z) (t : Z) (l : list qrow) : list qrow :=
  filter (λ r, to_key r = to ∧ after < seq r ∧ seq r <= upto ∧ cutoff t <= enqueued r) l.

(** claim: (rows, high, err). *)
Definition claim (fault : nat → bool) (t : Z) (to : string) (after : Z) (limit : nat) (max : Z) (q : queue) :
    queue * (list qrow * Z * option queue_error) :=
  if fault 0%nat then (q, ([], 0, Some (db_error 0))) else
  if fault 1%nat then (q, ([], 0, Some (db_error 1))) else
  let high := default 0 (marks q !! to) in
  if after <? high then (q, ([], high, None)) else
  if fault 2%nat then (q, ([], high, Some (db_error 2))) else
  let got := readRows max (take limit (after_rows to after t (rows q))) in
  match last got with
  | None => (q, ([], high, None))
  | Some r =>
      if fault 3%nat then (q, ([], high, Some (db_error 3))) else
      if fault 4%nat then (q, ([], high, Some (db_error 4))) else
      let m := match marks q !! to with Some h => Z.max h (seq r) | None => seq r end in
      (set_marks (<[to := m]> (marks q)) q, (got, Z.max high (seq r), None))
  end.

Definition probe (t : Z) (to : string) (after upto : Z) (q : queue) : option (Z * Z) :=
  match range_rows to after upto t (rows q) with r :: _ => Some (seq r, size r) | [] => None end.

(** The loop of nextRange over the rows' lengths: (n, last, total). *)
Fixpoint scan_lengths (n : nat) (last_ sum max : Z) (l : list qrow) : nat * Z * Z :=
  match l with
  | [] => (n, last_, sum)
  | r :: l => if (0 <? n)%nat && (max <? sum + size r) then (n, last_, sum)
              else scan_lengths (S n) (seq r) (sum + size r) max l
  end.

(** nextRange; an ack or a sweep may run between its two queries: the first
    reads the table of [q1], the second that of [q2]. *)
Definition nextRange (fault : nat → bool) (t : Z) (to : string) (after upto : Z) (limit : nat) (max : Z) (q1 q2 : queue) :
    result queue_error (list qrow) :=
  if fault 0%nat then Err (db_error 0) else
  let '(n, last_, sum) := scan_lengths 0 0 0 max (take limit (range_rows to after upto t (rows q1))) in
  if (n =? 0)%nat then Ok [] else
  if fault 1%nat then Err (db_error 1) else
  Ok (readRows (Z.max sum 1) (take n (range_rows to after last_ t (rows q2)))).

Definition delivered (to : string) (q : queue) : Z := default 0 (marks q !! to).

Definition adjust_gone (q : queue) (l : list qrow) : queue := fold_left (λ q r, adjust (from_key r) (-1) (- size r) q) l q.

Definition ack (fault : nat → bool) (to from i : string) (q : queue) : queue * option queue_error :=
  if fault 0%nat then (q, Some (db_error 0)) else
  let h := MkHeader to from i in
  let gone := filter (λ r, same_envelope h r = true) (rows q) in
  (adjust_gone (set_rows (filter (λ r, same_envelope h r = false) (rows q)) q) gone, None).

(** deleteExpired: SELECT seq FROM queue WHERE enqueued < ? ORDER BY
    enqueued LIMIT 32, read from queue_by_age in the order (enqueued, seq). *)
Definition age_le (r s : qrow) : Prop := enqueued r < enqueued s ∨ (enqueued r = enqueued s ∧ seq r <= seq s).
#[export] Instance age_le_dec r s : Decision (age_le r s).
Proof. unfold age_le. apply _. Defined.
Definition expired_batch (cut : Z) (l : list qrow) : list qrow :=
  take sweepBatchRows (merge_sort age_le (filter (λ r, enqueued r < cut) l)).

(** sweepBatch: (rows deleted, bytes, err). *)
Definition sweepBatch (fault : nat → bool) (t : Z) (q : queue) : queue * (Z * Z * option queue_error) :=
  if fault 0%nat then (q, (0, 0, Some (db_error 0))) else
  if fault 1%nat then (q, (0, 0, Some (db_error 1))) else
  if fault 2%nat then (q, (0, 0, Some (db_error 2))) else
  let gone := expired_batch (cutoff t) (rows q) in
  (adjust_gone (set_rows (filter (λ r, seq r ∉ map seq gone) (rows q)) q) gone,
   (Z.of_nat (length gone), zsum size gone, None)).

(** sweepExpired: [clock i] and [faults i] are the queue time and the
    faults of batch [i], [more i] whether the budget and stop allow another
    one after it; [fuel] bounds the batches (see [sweep_terminates]). *)
Fixpoint sweepExpired (fuel : nat) (i : nat) (clock : nat → Z) (faults : nat → nat → bool) (more : nat → bool)
    (n b : Z) (q : queue) : option (queue * (Z * Z * option queue_error)) :=
  match fuel with
  | O => None
  | S fuel =>
      let '(q, (bn, bb, err)) := sweepBatch (faults i) (clock i) q in
      match err with
      | Some e => Some (q, (n + bn, b + bb, Some e))
      | None => if bn =? 0 then Some (q, (n + bn, b + bb, None))
                else if more i then sweepExpired fuel (S i) clock faults more (n + bn) (b + bb) q
                else Some (q, (n + bn, b + bb, None))
      end
  end.

(** pruneBatch: deletes marks of recipients with no row. *)
Definition prunable (q : queue) : list string :=
  filter (λ to, Forall (λ r, to_key r ≠ to) (rows q)) (map fst (map_to_list (marks q))).
Definition pruneBatch (fault : nat → bool) (q : queue) : queue * (Z * option queue_error) :=
  if fault 0%nat then (q, (0, Some (db_error 0))) else
  let gone := take pruneBatchRows (prunable q) in
  (set_marks (foldr delete (marks q) gone) q, (Z.of_nat (length gone), None)).

(** pruneDelivered, as sweepExpired. *)
Fixpoint pruneDelivered (fuel : nat) (i : nat) (faults : nat → nat → bool) (more : nat → bool) (n : Z) (q : queue) :
    option (queue * (Z * option queue_error)) :=
  match fuel with
  | O => None
  | S fuel =>
      let '(q, (bn, err)) := pruneBatch (faults i) q in
      match err with
      | Some e => Some (q, (n + bn, Some e))
      | None => if bn =? 0 then Some (q, (n + bn, None))
                else if more i then pruneDelivered fuel (S i) faults more (n + bn) q
                else Some (q, (n + bn, None))
      end
  end.

Definition count (t : Z) (to : string) (q : queue) : Z := u_n (usage_of (recipient_rows to (cutoff t) (rows q))).
Definition stats (t : Z) (q : queue) : usage := usage_of (filter (λ r, cutoff t <= enqueued r) (rows q)).
End queue.

(** ** What the totals promise *)

(** The totals in memory are those of the stored rows. *)
Definition totals_ok (sn : gmap string usage) (tot : usage) (l : list qrow) : Prop :=
  tot = usage_of l ∧
  ∀ from, sn !! from = if bool_decide (of_sender from l = []) then None else Some (usage_of (of_sender from l)).

Lemma usage_cons r l : usage_of (r :: l) = MkUsage (u_n (usage_of l) + 1) (u_bytes (usage_of l) + size r).
Proof. unfold usage_of. simpl. f_equal; lia. Qed.

Lemma usage_perm l1 l2 : l1 ≡ₚ l2 → usage_of l1 = usage_of l2.
Proof. intros H. unfold usage_of. by rewrite H. Qed.

Lemma of_sender_cons from r l : of_sender from (r :: l) = if bool_decide (from_key r = from) then r :: of_sender from l else of_sender from l.
Proof. unfold of_sender. rewrite filter_cons. case_bool_decide; by case_decide. Qed.

Lemma perm_nil_iff {A} (l1 l2 : list A) : l1 ≡ₚ l2 → (l1 = [] ↔ l2 = []).
Proof. intros H. split; intros ->; [by apply Permutation_nil_l in H|by apply Permutation_nil_r in H]. Qed.

Lemma totals_ok_perm sn tot l1 l2 : l1 ≡ₚ l2 → totals_ok sn tot l1 → totals_ok sn tot l2.
Proof.
  intros Hp [-> H]. split; [by apply usage_perm|]. intros from. rewrite H.
  assert (of_sender from l1 ≡ₚ of_sender from l2) as Hf by (unfold of_sender; by rewrite Hp).
  rewrite (usage_perm _ _ Hf). by rewrite (bool_decide_ext _ _ (perm_nil_iff _ _ Hf)).
Qed.

Lemma usage_nonneg l : 0 ≤ u_n (usage_of l) ∧ 0 ≤ u_bytes (usage_of l).
Proof. simpl. split; [lia|]. apply zsum_nonneg. intros r _. unfold size. lia. Qed.

Lemma adjust_insert r q l : totals_ok (senders q) (total q) l →
  let q' := adjust (from_key r) 1 (size r) q in totals_ok (senders q') (total q') (r :: l).
Proof.
  intros [Ht Hs]. simpl. split; [rewrite usage_cons, Ht; done|]. intros from. rewrite of_sender_cons, (Hs (from_key r)).
  assert (default (MkUsage 0 0) (if bool_decide (of_sender (from_key r) l = []) then None else Some (usage_of (of_sender (from_key r) l)))
    = usage_of (of_sender (from_key r) l)) as -> by (case_bool_decide as E; [by rewrite E|done]).
  pose proof (usage_nonneg (of_sender (from_key r) l)) as [Hn _].
  destruct (Z.leb_spec (u_n (usage_of (of_sender (from_key r) l)) + 1) 0); [lia|]. destruct (decide (from_key r = from)) as [Ef|Ef].
  - subst from. rewrite lookup_insert_eq, (bool_decide_true (from_key r = _)), bool_decide_false by done. by rewrite usage_cons.
  - rewrite lookup_insert_ne, (bool_decide_false (from_key r = from)) by done. apply Hs.
Qed.

Lemma adjust_delete r q l : totals_ok (senders q) (total q) (r :: l) →
  let q' := adjust (from_key r) (-1) (- size r) q in totals_ok (senders q') (total q') l.
Proof.
  intros [Ht Hs]. simpl. split; [rewrite Ht, usage_cons; unfold usage_of; simpl; f_equal; lia|]. intros from.
  pose proof (Hs (from_key r)) as Hr. rewrite of_sender_cons, (bool_decide_true (from_key r = _)), bool_decide_false in Hr by done.
  rewrite Hr. simpl default. rewrite usage_cons. cbn [u_n u_bytes].
  replace (u_n (usage_of (of_sender (from_key r) l)) + 1 + -1) with (u_n (usage_of (of_sender (from_key r) l))) by lia.
  replace (u_bytes (usage_of (of_sender (from_key r) l)) + size r + - size r) with (u_bytes (usage_of (of_sender (from_key r) l))) by lia.
  destruct (decide (from = from_key r)) as [->|Hne].
  - destruct (of_sender (from_key r) l) as [|x xs] eqn:E.
    + simpl. by rewrite lookup_delete_eq.
    + destruct (Z.leb_spec (u_n (usage_of (x :: xs))) 0) as [Hle|_]; [simpl in Hle; lia|].
      rewrite lookup_insert_eq, bool_decide_false by done. by destruct (usage_of (x :: xs)).
  - transitivity (senders q !! from); [case_match; [by rewrite lookup_delete_ne|by rewrite lookup_insert_ne]|].
    rewrite Hs, of_sender_cons, (bool_decide_false (from_key r = from)) by congruence. done.
Qed.

Lemma adjust_gone_fields gone q : let q' := adjust_gone q gone in
  rows q' = rows q ∧ autoinc q' = autoinc q ∧ marks q' = marks q.
Proof.
  unfold adjust_gone. revert q. induction gone as [|r gone IH]; intros q; [done|]. simpl.
  by destruct (IH (adjust (from_key r) (-1) (- size r) q)) as (-> & -> & ->).
Qed.

Lemma adjust_gone_totals gone q l : totals_ok (senders q) (total q) (gone ++ l) →
  let q' := adjust_gone q gone in totals_ok (senders q') (total q') l.
Proof.
  unfold adjust_gone. revert q. induction gone as [|r gone IH]; intros q H; [done|]. simpl. apply IH.
  by apply (adjust_delete r).
Qed.

Lemma filter_split {A} (P : A → Prop) `{!∀ x, Decision (P x)} (l : list A) :
  filter P l ++ filter (λ x, ¬ P x) l ≡ₚ l.
Proof.
  induction l as [|x l IH]; [done|]. rewrite !filter_cons. repeat case_decide; try tauto; simpl; rewrite <- IH at 3;
    [done|]. by rewrite Permutation_middle.
Qed.

(** ** Rebuilding the totals *)

Lemma fold_rebuild gs a : NoDup gs.*1 → (∀ g, g ∈ gs → a.1 !! g.1 = None) →
  let a' := fold_left rebuild_step gs a in
  a'.2 = MkUsage (u_n a.2 + zsum (λ g, u_n g.2) gs) (u_bytes a.2 + zsum (λ g, u_bytes g.2) gs) ∧
  ∀ k, a'.1 !! k = match (list_to_map gs : gmap string usage) !! k with Some u => Some u | None => a.1 !! k end.
Proof.
  revert a. induction gs as [|g gs IH]; intros a Hnd Hfresh; simpl.
  - split; [destruct a as [? []]; simpl; f_equal; lia|]. intros k. by rewrite lookup_empty.
  - apply NoDup_cons in Hnd as [Hg Hnd]. destruct (IH (rebuild_step a g) Hnd) as [H1 H2].
    { intros x Hx. simpl. rewrite lookup_insert_ne; [apply Hfresh; by right|]. intros E. apply Hg. rewrite E.
      apply list_elem_of_fmap. by exists x. }
    split; [rewrite H1; simpl; f_equal; lia|]. intros k. rewrite H2. simpl. destruct g as [f u]. simpl.
    destruct (decide (k = f)) as [->|Hk].
    + rewrite !lookup_insert_eq. by rewrite (not_elem_of_list_to_map_1 (M := gmap string)) by exact Hg.
    + by rewrite !lookup_insert_ne.
Qed.

Lemma groups_sum (f : usage → Z) l ks : f (usage_of []) = 0 → (∀ r l, f (usage_of (r :: l)) = f (usage_of (r :: [])) + f (usage_of l)) →
  NoDup ks → (∀ r, r ∈ l → from_key r ∈ ks) → zsum (λ from, f (usage_of (of_sender from l))) ks = f (usage_of l).
Proof.
  intros H0 Hf Hnd. induction l as [|r l IH]; intros Hks.
  - rewrite H0. clear -H0. induction ks as [|k ks IH]; [done|]. unfold zsum in *. cbn [foldr].
    rewrite IH. change (of_sender k []) with (@nil qrow). lia.
  - rewrite Hf, <- IH by (intros x Hx; apply Hks; by right).
    assert (from_key r ∈ ks) as Hr by (apply Hks; by left). clear IH Hks.
    induction ks as [|k ks IH]; [by apply not_elem_of_nil in Hr|]. cbn [zsum foldr].
    apply NoDup_cons in Hnd as [Hk Hnd]. apply elem_of_cons in Hr as [Hr|Hr].
    + subst k. rewrite of_sender_cons, bool_decide_true, Hf by done.
      enough (zsum (λ from, f (usage_of (of_sender from (r :: l)))) ks = zsum (λ from, f (usage_of (of_sender from l))) ks) as E.
      { unfold zsum in E. rewrite E. unfold zsum. lia. }
      clear -Hk. induction ks as [|k ks IH]; [done|]. apply not_elem_of_cons in Hk as [Hk1 Hk2]. cbn [zsum foldr].
      rewrite of_sender_cons, bool_decide_false by done. unfold zsum in IH. by rewrite IH.
    + rewrite of_sender_cons, bool_decide_false by congruence. specialize (IH Hnd Hr). unfold zsum in *. rewrite IH. lia.
Qed.

Lemma rebuild_totals_ok q : let q' := rebuildTotals q in totals_ok (senders q') (total q') (rows q).
Proof.
  unfold rebuildTotals. set (gs := sender_groups (rows q)).
  assert (gs.*1 = remove_dups (map from_key (rows q))) as Hfst.
  { unfold gs, sender_groups. change (map ?f ?l) with (f <$> l). rewrite <- list_fmap_compose. apply list_fmap_id. }
  destruct (fold_rebuild gs (∅, MkUsage 0 0)) as [H1 H2]; [rewrite Hfst; apply NoDup_remove_dups|intros; apply lookup_empty|].
  simpl. rewrite H1. simpl.
  assert (∀ g, zsum (λ x, g x.2) gs = zsum (λ from, g (usage_of (of_sender from (rows q)))) (remove_dups (map from_key (rows q)))) as Hz.
  { intros g. unfold gs, sender_groups. clear. induction (remove_dups _) as [|k ks IH]; [done|].
    unfold zsum in *. cbn [map foldr snd]. by rewrite IH. }
  assert (∀ r, r ∈ rows q → from_key r ∈ remove_dups (map from_key (rows q))) as Hin.
  { intros r Hr. apply elem_of_remove_dups, list_elem_of_fmap. by exists r. }
  split.
  - rewrite (Hz u_n), (Hz u_bytes), !groups_sum; try done; try apply NoDup_remove_dups;
      intros; rewrite !usage_cons; simpl; lia.
  - intros from. rewrite H2. cbn [fst]. rewrite lookup_empty. case_bool_decide as E.
    + rewrite not_elem_of_list_to_map_1; [done|]. rewrite Hfst. intros [r [-> Hr]]%elem_of_remove_dups%list_elem_of_fmap.
      assert (r ∈ of_sender (from_key r) (rows q)) as Hr' by (by apply list_elem_of_filter). rewrite E in Hr'.
      by apply not_elem_of_nil in Hr'.
    + rewrite (elem_of_list_to_map_1 gs from (usage_of (of_sender from (rows q)))); [done|rewrite Hfst; apply NoDup_remove_dups|].
      apply list_elem_of_fmap. exists from. split; [done|]. apply elem_of_remove_dups.
      destruct (of_sender from (rows q)) as [|r l] eqn:El; [done|].
      assert (r ∈ of_sender from (rows q)) as Hr by (rewrite El; by left). apply list_elem_of_filter in Hr as [<- Hr].
      apply list_elem_of_fmap. by exists r.
Qed.

(** ** Executions

    [reach t q h]: some sequence of operations, at times that never go back,
    leads from a new database to [q] at time [t]; [h] lists what the claims
    handed out as first deliveries, (recipient, seq), in order. The relay may
    restart at any point, and every database call may fail. *)
Section executions.
Context (cfg : config).

Inductive reach : Z → queue → list (string * Z) → Prop :=
| reach_new t : reach t empty_queue []
| reach_restart t q h : reach t q h → reach t (openQueue q) h
| reach_time t t' q h : reach t q h → t <= t' → reach t' q h
| reach_add t q h fault wall freeDisk hd fr : reach t q h → reach t (add cfg fault t wall freeDisk hd fr q).1 h
| reach_claim t q h fault to after limit max q' got high err : reach t q h →
    claim cfg fault t to after limit max q = (q', (got, high, err)) → reach t q' (h ++ map (λ r, (to, seq r)) got)
| reach_ack t q h fault to from i : reach t q h → reach t (ack fault to from i q).1 h
| reach_sweep t q h fault : reach t q h → reach t (sweepBatch cfg fault t q).1 h
| reach_prune t q h fault : reach t q h → reach t (pruneBatch fault q).1 h.

(** The caps hold for the stored rows. *)
Record caps_ok (t : Z) (l : list qrow) : Prop := {
  cap_total : 0 < totalBytes (lim cfg) → u_bytes (usage_of l) <= totalBytes (lim cfg);
  cap_sender : ∀ from, let u := usage_of (of_sender from l) in
    (0 < senderCount (lim cfg) → u_n u <= senderCount (lim cfg)) ∧
    (0 < senderBytes (lim cfg) → u_n u <= 1 ∨ u_bytes u <= senderBytes (lim cfg));
  cap_pair : ∀ h, let u := usage_of (pair_rows h (cutoff cfg t) l) in
    (0 < pairCount (lim cfg) → u_n u <= pairCount (lim cfg)) ∧
    (0 < pairBytes (lim cfg) → u_n u <= 0 ∨ u_bytes u <= pairBytes (lim cfg));
  cap_recipient : ∀ to, let u := usage_of (recipient_rows to (cutoff cfg t) l) in
    u_n u <= 0 ∨ (u_n u <= maxCount cfg ∧ u_bytes u <= maxBytes cfg);
}.

Record table_ok (q : queue) : Prop := {
  t_totals : totals_ok (senders q) (total q) (rows q);
  t_sorted : StronglySorted (λ r s, seq r < seq s) (rows q);
  t_seq : Forall (λ r, 0 < seq r <= autoinc q) (rows q);
  t_autoinc : 0 <= autoinc q;
  t_unique : ∀ r s, r ∈ rows q → s ∈ rows q → to_key r = to_key s → from_key r = from_key s → id r = id s → r = s;
  t_marks : ∀ to m, marks q !! to = Some m → 0 <= m <= autoinc q;
}.

(** What has been handed out is at or below the recipient's mark, or below
    every row it has when it has no mark. *)
Definition claimed_ok (q : queue) (h : list (string * Z)) : Prop := ∀ to s, (to, s) ∈ h →
  s <= autoinc q ∧
  match marks q !! to with Some m => s <= m | None => ∀ r, r ∈ rows q → to_key r = to → s < seq r end.

(** The seqs of one recipient. *)
Definition claims_of (to : string) (h : list (string * Z)) : list Z := map snd (filter (λ c, c.1 = to) h).

Record reach_ok (t : Z) (q : queue) (h : list (string * Z)) : Prop := {
  r_table : table_ok q;
  r_caps : caps_ok t (rows q);
  r_claimed : claimed_ok q h;
  r_increasing : ∀ to, StronglySorted Z.lt (claims_of to h);
}.

Lemma usage_sublist l1 l2 : l1 `sublist_of` l2 → u_n (usage_of l1) <= u_n (usage_of l2) ∧ u_bytes (usage_of l1) <= u_bytes (usage_of l2).
Proof.
  induction 1 as [|r l1 l2 H IH|r l1 l2 H IH]; [done|rewrite !usage_cons; cbn [u_n u_bytes]; lia|].
  rewrite (usage_cons r l2). cbn [u_n u_bytes]. unfold size. lia.
Qed.

Lemma filter_sublist {A} (P : A → Prop) `{!∀ x, Decision (P x)} (l1 l2 : list A) :
  l1 `sublist_of` l2 → filter P l1 `sublist_of` filter P l2.
Proof.
  induction 1 as [|x l1 l2 Hs IH|x l1 l2 Hs IH]; [done|..]; rewrite ?filter_cons; case_decide; try done; by constructor.
Qed.

Lemma caps_sublist t l1 l2 : l1 `sublist_of` l2 → caps_ok t l2 → caps_ok t l1.
Proof.
  intros Hs [H1 H2 H3 H4]. constructor.
  - pose proof (usage_sublist _ _ Hs). lia.
  - intros from. specialize (H2 from). pose proof (usage_sublist _ _ (filter_sublist (λ r, from_key r = from) _ _ Hs)).
    unfold of_sender in *. cbv zeta in *. lia.
  - intros h. specialize (H3 h). unfold pair_rows in *. cbv zeta in *.
    pose proof (usage_sublist _ _ (filter_sublist (λ r, to_key r = To h ∧ from_key r = From h ∧ cutoff cfg t <= enqueued r) _ _ Hs)). lia.
  - intros to. specialize (H4 to). unfold recipient_rows in *. cbv zeta in *.
    pose proof (usage_sublist _ _ (filter_sublist (λ r, to_key r = to ∧ cutoff cfg t <= enqueued r) _ _ Hs)). lia.
Qed.

Lemma cutoff_mono t t' : t <= t' → cutoff cfg t <= cutoff cfg t'.
Proof. intros H. unfold cutoff. apply Z.div_le_mono; lia. Qed.

Lemma filter_weaken {A} (P Q : A → Prop) `{!∀ x, Decision (P x), !∀ x, Decision (Q x)} (l : list A) :
  (∀ x, P x → Q x) → filter P l `sublist_of` filter Q l.
Proof.
  intros HPQ. induction l as [|x l IH]; [done|]. rewrite !filter_cons. repeat case_decide; [by constructor|naive_solver|by constructor|done].
Qed.

Lemma caps_time t t' l : t <= t' → caps_ok t l → caps_ok t' l.
Proof.
  intros Ht%cutoff_mono [H1 H2 H3 H4]. constructor; [done|done|..].
  - intros h. specialize (H3 h). cbv zeta in *. unfold pair_rows in *.
    pose proof (usage_sublist _ _ (filter_weaken (λ r, to_key r = To h ∧ from_key r = From h ∧ cutoff cfg t' <= enqueued r)
      (λ r, to_key r = To h ∧ from_key r = From h ∧ cutoff cfg t <= enqueued r) l ltac:(intuition lia))). lia.
  - intros to. specialize (H4 to). cbv zeta in *. unfold recipient_rows in *.
    pose proof (usage_sublist _ _ (filter_weaken (λ r, to_key r = to ∧ cutoff cfg t' <= enqueued r)
      (λ r, to_key r = to ∧ cutoff cfg t <= enqueued r) l ltac:(intuition lia))). lia.
Qed.

(** ** add *)

Lemma usage_snoc l r : usage_of (l ++ [r]) = MkUsage (u_n (usage_of l) + 1) (u_bytes (usage_of l) + size r).
Proof. rewrite <- usage_cons. apply usage_perm. by rewrite Permutation_app_comm. Qed.

Definition new_row (h : header) (t : Z) (fr : bytes) (q : queue) : qrow :=
  MkRow (autoinc q + 1) (To h) (From h) (ID h) (t / 1000000) fr.

(** What the caps require of a new row. *)
Record caps_allow (t : Z) (h : header) (sz : Z) (q : queue) : Prop := {
  allow_total : 0 < totalBytes (lim cfg) → u_bytes (total q) + sz <= totalBytes (lim cfg);
  allow_sender : ∀ u, senders q !! From h = Some u →
    (0 < senderCount (lim cfg) → u_n u < senderCount (lim cfg)) ∧ (0 < senderBytes (lim cfg) → u_bytes u + sz <= senderBytes (lim cfg));
  allow_pair : let u := usage_of (pair_rows h (cutoff cfg t) (rows q)) in
    (0 < pairCount (lim cfg) → u_n u < pairCount (lim cfg)) ∧ (0 < pairBytes (lim cfg) → u_bytes u + sz <= pairBytes (lim cfg));
  allow_recipient : let u := usage_of (recipient_rows (To h) (cutoff cfg t) (rows q)) in
    u_n u < maxCount cfg ∧ u_bytes u + sz <= maxBytes cfg;
}.

(** The queue as add sees it after the disk check. *)
Definition same_but_disk (q q' : queue) : Prop :=
  rows q' = rows q ∧ autoinc q' = autoinc q ∧ marks q' = marks q ∧ senders q' = senders q ∧ total q' = total q.

Lemma storageLow_same wall fd q : same_but_disk q (storageLow cfg wall fd q).1.
Proof. unfold storageLow. repeat case_match; done. Qed.

(** add has three outcomes. *)
Lemma add_cases fault t wall fd h fr q :
  let '(q', r) := add cfg fault t wall fd h fr q in
  (∃ x, r = Ok () ∧ q' = q ∧ x ∈ rows q ∧ same_envelope h x = true) ∨
  (∃ e, r = Err e ∧ same_but_disk q q') ∨
  (r = Ok () ∧ existsb (same_envelope h) (rows q) = false ∧ caps_allow t h (Z.of_nat (length fr)) q ∧
   ∃ q1, same_but_disk q q1 ∧ q' = adjust (From h) 1 (Z.of_nat (length fr)) (insert_row h t fr q1)).
Proof.
  unfold add. destruct (fault 0%nat); [right; left; by eexists|]. destruct (fault 1%nat); [right; left; by eexists|].
  destruct (existsb _ _) eqn:Ed.
  { left. apply existsb_exists in Ed as (x & Hx & He). exists x. split_and!; try done. by apply list_elem_of_In. }
  pose proof (storageLow_same wall fd q) as Hq. destruct (storageLow _ _ _ _) as [q1 low]. cbn [fst] in Hq.
  pose proof Hq as (E1 & E2 & E3 & E4 & E5). rewrite E1, E4, E5. cbv zeta.
  assert (∀ e, ∃ e', @Err queue_error () e = Err e' ∧ same_but_disk q q1) as Herr by (by eexists).
  destruct low; [right; left; by apply Herr|]. destruct (_ && (totalBytes _ <? _)) eqn:Etot; [right; left; by apply Herr|].
  destruct (match senders q !! From h with Some u => _ | None => _ end) eqn:Es; [right; left; by apply Herr|].
  destruct (_ && fault 2%nat); [right; left; by apply Herr|].
  destruct (_ && ((0 <? pairCount _) && _ || _)) eqn:Ep; [right; left; by apply Herr|].
  destruct (fault 3%nat); [right; left; by apply Herr|]. destruct (_ || (maxBytes _ <? _)) eqn:Er; [right; left; by apply Herr|].
  destruct (fault 4%nat); [right; left; by apply Herr|]. destruct (fault 5%nat); [right; left; by apply Herr|].
  right; right. split_and!; try done; [|by exists q1]. bprop. constructor.
  - intros Hp. destruct (Z.ltb_spec 0 (totalBytes (lim cfg))); simpl in Etot; bprop; lia.
  - intros u Hu. rewrite Hu in Es. bprop. destruct (Z.ltb_spec 0 (senderCount (lim cfg))), (Z.ltb_spec 0 (senderBytes (lim cfg)));
      simpl in *; bprop; lia.
  - cbv zeta. destruct (Z.ltb_spec 0 (pairCount (lim cfg))), (Z.ltb_spec 0 (pairBytes (lim cfg))); cbn [orb andb] in *; bprop; lia.
  - cbv zeta. lia.
Qed.

Lemma reach_ok_same t q q' h : same_but_disk q q' → reach_ok t q h → reach_ok t q' h.
Proof.
  intros (E1 & E2 & E3 & E4 & E5) [[] Hc Hcl Hi]. constructor; [constructor|..]; unfold claimed_ok in *;
    rewrite ?E1, ?E2, ?E3, ?E4, ?E5; done.
Qed.

Lemma caps_insert t hd fr q : totals_ok (senders q) (total q) (rows q) → caps_ok t (rows q) →
  caps_allow t hd (Z.of_nat (length fr)) q → caps_ok t (rows q ++ [new_row hd t fr q]).
Proof.
  intros [Ht Hs] [H1 H2 H3 H4] [A1 A2 A3 A4]. set (r := new_row hd t fr q). constructor.
  - intros Hp. rewrite usage_snoc. cbn [u_bytes]. rewrite <- Ht. unfold size. simpl. auto.
  - intros from. unfold of_sender in *. rewrite filter_app, filter_cons, filter_nil. case_decide as Ef; [|rewrite app_nil_r; apply H2].
    rewrite usage_snoc. cbn [u_n u_bytes]. simpl in Ef. subst from. specialize (Hs (From hd)). specialize (A2 (usage_of (of_sender (From hd) (rows q)))).
    unfold of_sender, size in *. simpl (frame r). case_bool_decide as En; [rewrite En; simpl; lia|]. specialize (A2 Hs). lia.
  - intros h. specialize (H3 h). unfold pair_rows in *. rewrite filter_app, filter_cons, filter_nil.
    case_decide as Ef; [|rewrite app_nil_r; apply H3]. rewrite usage_snoc. cbn [u_n u_bytes].
    destruct Ef as (Et & Ef & _). simpl in Et, Ef. rewrite <- Et, <- Ef in *. unfold size. simpl (frame r). cbv zeta in *. lia.
  - intros to. specialize (H4 to). unfold recipient_rows in *. rewrite filter_app, filter_cons, filter_nil.
    case_decide as Ef; [|rewrite app_nil_r; apply H4]. rewrite usage_snoc. cbn [u_n u_bytes].
    destruct Ef as (Et & _). simpl in Et. subst to. unfold size. simpl (frame r). cbv zeta in *. lia.
Qed.

Lemma table_insert t hd fr q : table_ok q → existsb (same_envelope hd) (rows q) = false →
  table_ok (adjust (From hd) 1 (Z.of_nat (length fr)) (insert_row hd t fr q)).
Proof.
  intros [Ht Hs Hq Ha Hu Hm] Hd. set (r := new_row hd t fr q). constructor; simpl.
  - eapply totals_ok_perm; [|exact (adjust_insert r q (rows q) Ht)]. by rewrite Permutation_app_comm.
  - apply StronglySorted_app. split_and!; [|done|repeat constructor].
    rewrite Forall_forall in Hq. intros x y Hx ->%list_elem_of_singleton. specialize (Hq x Hx). simpl. lia.
  - apply Forall_app. split; [eapply Forall_impl; [exact Hq|]; simpl; lia|]. apply Forall_singleton. simpl. lia.
  - lia.
  - assert (∀ x, x ∈ rows q → to_key x = To hd → from_key x = From hd → id x = ID hd → False) as Hno.
    { intros x Hx E1 E2 E3. assert (existsb (same_envelope hd) (rows q) = true) as Ht'; [|congruence].
      apply existsb_exists. exists x. split; [by apply list_elem_of_In|]. unfold same_envelope.
      by rewrite !bool_decide_true. }
    intros x y [Hx| ->%list_elem_of_singleton]%elem_of_app [Hy| ->%list_elem_of_singleton]%elem_of_app; simpl; try done.
    + by apply Hu.
    + intros E1 E2 E3. by destruct (Hno x).
    + intros E1 E2 E3. by destruct (Hno y).
  - intros to m Hto. specialize (Hm _ _ Hto). lia.
Qed.

Lemma add_ok fault t wall fd hd fr q h : reach_ok t q h → reach_ok t (add cfg fault t wall fd hd fr q).1 h.
Proof.
  intros Hr. pose proof (add_cases fault t wall fd hd fr q) as Hc. destruct (add _ _ _ _ _ _ _ _) as [q' r].
  destruct Hc as [(x & _ & -> & _)|[(e & _ & Hq)|(_ & Hd & Hal & q1 & Hq & ->)]]; [done|by eapply reach_ok_same|].
  assert (reach_ok t q1 h) as Hr1 by (by eapply reach_ok_same). destruct Hq as (E1 & E2 & E3 & E4 & E5).
  assert (caps_allow t hd (Z.of_nat (length fr)) q1) as Hal1 by (destruct Hal; constructor; by rewrite ?E1, ?E4, ?E5).
  rewrite <- E1 in Hd. destruct Hr1 as [Ht Hca Hcl Hi]. constructor; [by apply table_insert| |..|done].
  - by apply caps_insert; [apply Ht|..].
  - intros to s Hin. destruct (Hcl to s Hin) as [Hle Hm]. simpl. split; [lia|]. destruct (marks q1 !! to); [done|].
    intros x [Hx| ->%list_elem_of_singleton]%elem_of_app; [by apply Hm|]. simpl. lia.
Qed.

(** ** Deletions *)

Lemma table_removed q gone keep : table_ok q → gone ++ keep ≡ₚ rows q → keep `sublist_of` rows q →
  table_ok (adjust_gone (set_rows keep q) gone).
Proof.
  intros [Ht Hs Hq Ha Hu Hm] Hp Hsub.
  destruct (adjust_gone_fields gone (set_rows keep q)) as (E1 & E2 & E3).
  pose proof (adjust_gone_totals gone (set_rows keep q) keep (totals_ok_perm _ _ _ _ (Permutation_sym Hp) Ht)) as Htot.
  assert (∀ r, r ∈ keep → r ∈ rows q) as Hin by (intros r Hr; by eapply elem_of_sublist).
  constructor; rewrite ?E1, ?E2, ?E3; cbn [set_rows rows marks autoinc]; try done.
  - by eapply StronglySorted_sublist.
  - rewrite Forall_forall in *. auto.
  - auto.
Qed.

Lemma removed_ok t q h gone keep : reach_ok t q h → gone ++ keep ≡ₚ rows q → keep `sublist_of` rows q →
  reach_ok t (adjust_gone (set_rows keep q) gone) h.
Proof.
  intros [Ht Hca Hcl Hi] Hp Hsub. destruct (adjust_gone_fields gone (set_rows keep q)) as (E1 & E2 & E3).
  constructor; [by apply table_removed| | |done]; unfold claimed_ok; rewrite ?E1, ?E2, ?E3; cbn [set_rows rows marks autoinc].
  - by eapply caps_sublist.
  - intros to s Hc. destruct (Hcl to s Hc) as [Hle Hmk]. split; [done|]. destruct (marks q !! to); [done|].
    intros r Hr. apply Hmk. by eapply elem_of_sublist.
Qed.

Lemma ack_ok fault to from i t q h : reach_ok t q h → reach_ok t (ack fault to from i q).1 h.
Proof.
  intros Hr. unfold ack. destruct (fault 0%nat); [done|]. cbn [fst]. apply removed_ok; [done| |apply sublist_filter].
  etrans; [|apply (filter_split (λ r, same_envelope (MkHeader to from i) r = true))]. apply Permutation_app_head.
  apply reflexive_eq, list_filter_iff. intros r. destruct (same_envelope _ r); naive_solver.
Qed.

(** A seq names one row. *)
Lemma seq_inj q r s : table_ok q → r ∈ rows q → s ∈ rows q → seq r = seq s → r = s.
Proof.
  intros [_ Hs _ _ _ _]. induction Hs as [|x l Hs IH Hx]; [by intros ?%not_elem_of_nil|]. rewrite Forall_forall in Hx.
  intros [->|Hr]%elem_of_cons [->|Hs']%elem_of_cons E; [done|specialize (Hx s Hs'); lia|specialize (Hx r Hr); lia|by apply IH].
Qed.

Lemma rows_nodup q : table_ok q → NoDup (rows q).
Proof.
  intros [_ Hs _ _ _ _]. induction Hs as [|x l Hs IH Hx]; constructor; [|done]. rewrite Forall_forall in Hx.
  intros Hin. specialize (Hx x Hin). lia.
Qed.

#[local] Instance age_le_total : Total age_le.
Proof. intros r s. unfold age_le. lia. Qed.

Lemma expired_batch_perm q cut : ∃ rest, expired_batch cut (rows q) ++ rest ≡ₚ filter (λ r, enqueued r < cut) (rows q).
Proof.
  exists (drop sweepBatchRows (merge_sort age_le (filter (λ r, enqueued r < cut) (rows q)))). unfold expired_batch.
  by rewrite take_drop, merge_sort_Permutation.
Qed.

Lemma expired_batch_in q cut r : r ∈ expired_batch cut (rows q) → r ∈ rows q ∧ enqueued r < cut.
Proof.
  intros Hr. destruct (expired_batch_perm q cut) as [rest Hp].
  assert (r ∈ filter (λ r, enqueued r < cut) (rows q)) as [? ?]%list_elem_of_filter by (rewrite <- Hp; apply elem_of_app; by left).
  done.
Qed.

Lemma expired_batch_split q cut : table_ok q →
  expired_batch cut (rows q) ++ filter (λ r, seq r ∉ map seq (expired_batch cut (rows q))) (rows q) ≡ₚ rows q.
Proof.
  intros Hq. etrans; [|apply (filter_split (λ r, seq r ∈ map seq (expired_batch cut (rows q))))].
  apply Permutation_app_tail. apply NoDup_Permutation.
  - destruct (expired_batch_perm q cut) as [rest Hp]. apply (NoDup_app (expired_batch cut (rows q)) rest).
    rewrite Hp. apply NoDup_filter, rows_nodup, Hq.
  - apply NoDup_filter, rows_nodup, Hq.
  - intros r. rewrite list_elem_of_filter. split.
    + intros Hr. split; [apply list_elem_of_fmap; by exists r|]. by apply (expired_batch_in q cut).
    + intros [(s & E & Hs)%list_elem_of_fmap Hr]. destruct (expired_batch_in _ _ _ Hs) as [Hs' _].
      by rewrite (seq_inj q r s).
Qed.

Lemma sweepBatch_ok fault t q h : reach_ok t q h → reach_ok t (sweepBatch cfg fault t q).1 h.
Proof.
  intros Hr. unfold sweepBatch. do 3 (destruct (fault _); [done|]). cbn [fst].
  apply removed_ok; [done|apply expired_batch_split, Hr|apply sublist_filter].
Qed.

(** ** Claims *)

Lemma readRows_from_prefix got max l : readRows_from got max l `prefix_of` l.
Proof.
  revert got. induction l as [|r l IH]; intros got; [done|]. simpl. apply prefix_cons. case_match; [apply prefix_nil|apply IH].
Qed.

Lemma after_rows_sub to after t l : after_rows cfg to after t l `sublist_of` l.
Proof. apply sublist_filter. Qed.

(** The rows a claim hands out. *)
Definition claimable (to : string) (after t : Z) (limit : nat) (max : Z) (q : queue) : list qrow :=
  readRows max (take limit (after_rows cfg to after t (rows q))).

Lemma claimable_spec to after t limit max q : table_ok q → let got := claimable to after t limit max q in
  StronglySorted (λ r s, seq r < seq s) got ∧ got `prefix_of` after_rows cfg to after t (rows q) ∧ (length got <= limit)%nat ∧
  ∀ r, r ∈ got → r ∈ rows q ∧ to_key r = to ∧ after < seq r.
Proof.
  intros Hq. unfold claimable, readRows. pose proof (readRows_from_prefix 0 max (take limit (after_rows cfg to after t (rows q)))) as Hp.
  set (got := readRows_from _ _ _) in *.
  assert (got `prefix_of` after_rows cfg to after t (rows q)) as Hp2.
  { etrans; [exact Hp|]. exists (drop limit (after_rows cfg to after t (rows q))). by rewrite take_drop. }
  assert (got `sublist_of` rows q) as Hsub.
  { etrans; [|apply (after_rows_sub to after t)]. destruct Hp2 as [k ->]. apply sublist_inserts_r. done. }
  split_and!; [by eapply StronglySorted_sublist; [|apply Hq]|done| |].
  - apply prefix_length in Hp. rewrite length_take in Hp. lia.
  - intros r Hr. assert (r ∈ after_rows cfg to after t (rows q)) as Hin.
    { destruct Hp2 as [k ->]. apply elem_of_app. by left. }
    unfold after_rows in Hin. apply list_elem_of_filter in Hin. naive_solver.
Qed.

Lemma claim_cases fault t to after limit max q : table_ok q →
  let '(q', (got, high, err)) := claim cfg fault t to after limit max q in
  (got = [] ∧ q' = q) ∨
  (got ≠ [] ∧ err = None ∧ got = claimable to after t limit max q ∧ default 0 (marks q !! to) <= after ∧ high = delivered to q' ∧
   ∃ r, last got = Some r ∧ delivered to q < seq r ∧ q' = set_marks (<[to := seq r]> (marks q)) q).
Proof.
  intros Hq. unfold claim. destruct (fault 0%nat); [by left|]. destruct (fault 1%nat); [by left|].
  destruct (Z.ltb_spec after (default 0 (marks q !! to))) as [|Hle]; [by left|]. destruct (fault 2%nat); [by left|].
  pose proof (claimable_spec to after t limit max q Hq) as (Hs & _ & _ & Hin). unfold claimable in *. cbv zeta in *.
  set (got := readRows _ _) in *. destruct (last got) as [r|] eqn:Hl; [|by left].
  destruct (fault 3%nat); [by left|]. destruct (fault 4%nat); [by left|]. right.
  assert (r ∈ got) as Hr by (by apply last_Some_elem_of). specialize (Hin r Hr) as (_ & _ & Hgt).
  assert (match marks q !! to with Some h => Z.max h (seq r) | None => seq r end = seq r) as ->.
  { destruct (marks q !! to); simpl in *; lia. }
  split_and!; try done; [by intros E; rewrite E in Hr; apply not_elem_of_nil in Hr|unfold delivered; simpl; rewrite lookup_insert_eq; simpl; lia|].
  exists r. split_and!; try done. unfold delivered. lia.
Qed.

Lemma last_max l r x : StronglySorted (λ r s, seq r < seq s) l → last l = Some r → x ∈ l → seq x <= seq r.
Proof.
  intros Hs (l' & ->)%last_snoc_inv [Hx| ->%list_elem_of_singleton]%elem_of_app; [|done].
  apply StronglySorted_app in Hs as (H & _). specialize (H x r Hx (list_elem_of_here _ _)). simpl in H. lia.
Qed.

Lemma claims_of_app to h1 h2 : claims_of to (h1 ++ h2) = claims_of to h1 ++ claims_of to h2.
Proof. unfold claims_of. by rewrite filter_app, map_app. Qed.
Lemma claims_of_claim to to' (l : list qrow) : claims_of to (map (λ r, (to', seq r)) l) = if bool_decide (to' = to) then map seq l else [].
Proof.
  unfold claims_of. case_bool_decide; (induction l as [|r l IH]; [done|]); cbn [map].
  - rewrite filter_cons_True by done. cbn [map snd]. by rewrite IH.
  - by rewrite filter_cons_False.
Qed.

Lemma claim_ok fault t to after limit max q q' got high err h : reach_ok t q h →
  claim cfg fault t to after limit max q = (q', (got, high, err)) → reach_ok t q' (h ++ map (λ r, (to, seq r)) got).
Proof.
  intros Hr Hc. pose proof (claim_cases fault t to after limit max q (r_table _ _ _ Hr)) as H. rewrite Hc in H.
  destruct H as [[-> ->]|(Hne & _ & Hgot & Hafter & _ & r & Hl & Hd & ->)]; [by rewrite app_nil_r|].
  pose proof (claimable_spec to after t limit max q (r_table _ _ _ Hr)) as (Hs & _ & _ & Hin).
  cbv zeta in Hs, Hin. rewrite <- Hgot in Hs, Hin.
  pose proof Hr as [[Ht Hso Hq Ha Hu Hm] Hca Hcl Hi]. rewrite Forall_forall in Hq.
  assert (∀ x, x ∈ got → seq x <= seq r) as Hmax by (intros x Hx; exact (last_max got r x Hs Hl Hx)).
  assert (r ∈ got) as Hrg by (by apply last_Some_elem_of). destruct (Hin r Hrg) as (Hrin & _ & _).
  constructor; [constructor|done|..]; cbn [set_marks rows autoinc marks senders total]; try done.
  - by rewrite Forall_forall.
  - intros to' m. destruct (decide (to' = to)) as [->|]; [rewrite lookup_insert_eq|rewrite lookup_insert_ne by done; apply Hm].
    intros [= <-]. specialize (Hq r Hrin). lia.
  - intros to' s. rewrite elem_of_app. cbn [set_marks rows autoinc marks].
    intros [Hc'|(x & [= -> ->] & Hx)%list_elem_of_fmap].
    + destruct (Hcl to' s Hc') as [Hle Hmk]. split; [done|]. destruct (decide (to' = to)) as [->|].
      * rewrite lookup_insert_eq. unfold delivered in Hd. destruct (marks q !! to) as [m|]; simpl in *; [lia|].
        destruct (Hin r Hrg) as (? & ? & _). specialize (Hmk r). simpl in Hmk. by apply Z.lt_le_incl, Hmk.
      * by rewrite lookup_insert_ne.
    + destruct (Hin x Hx) as (Hxin & _ & _). specialize (Hq x Hxin). rewrite lookup_insert_eq. split; [lia|auto].
  - intros to'. rewrite claims_of_app, claims_of_claim. case_bool_decide as E; [subst to'|rewrite app_nil_r; apply Hi].
    apply StronglySorted_app. split_and!; [|apply Hi|].
    + intros s s' Hs1 (x & -> & Hx)%list_elem_of_fmap. unfold claims_of in Hs1.
      apply list_elem_of_fmap in Hs1 as ([to' s2] & -> & [Eto Hs2]%list_elem_of_filter). simpl in Eto. subst to'. simpl.
      destruct (Hcl to s2 Hs2) as [_ Hmk]. destruct (Hin x Hx) as (Hxin & Hxto & Hxa).
      destruct (marks q !! to) as [m|]; simpl in *; [lia|by apply Hmk].
    + clear -Hs. induction Hs as [|x l Hs IH Hx]; [constructor|]. constructor; [done|].
      apply Forall_forall. intros s (y & -> & Hy)%list_elem_of_fmap. rewrite Forall_forall in Hx. by apply Hx.
Qed.

Lemma foldr_delete_lookup (ks : list string) (m : gmap string Z) k : foldr delete m ks !! k = if bool_decide (k ∈ ks) then None else m !! k.
Proof.
  induction ks as [|x ks IH]; simpl; [done|]. destruct (decide (k = x)) as [->|].
  - rewrite lookup_delete_eq, bool_decide_true by (by left). done.
  - rewrite lookup_delete_ne, IH by done. by rewrite (bool_decide_ext (k ∈ x :: ks) (k ∈ ks)) by (rewrite elem_of_cons; naive_solver).
Qed.

Lemma pruneBatch_ok fault t q h : reach_ok t q h → reach_ok t (pruneBatch fault q).1 h.
Proof.
  intros [[Ht Hs Hq Ha Hu Hm] Hca Hcl Hi]. unfold pruneBatch. destruct (fault 0%nat); [done|]. cbn [fst].
  constructor; [constructor|done|..]; cbn [set_marks rows autoinc marks senders total]; try done.
  - intros to m. rewrite foldr_delete_lookup. case_bool_decide; [done|apply Hm].
  - intros to s Hc. destruct (Hcl to s Hc) as [Hle Hmk]. cbn [set_marks rows autoinc marks]. split; [done|].
    rewrite foldr_delete_lookup. case_bool_decide as Hd; [|done]. intros r Hr Hto. exfalso.
    assert (to ∈ prunable q) as [Hno _]%list_elem_of_filter.
    { by eapply elem_of_sublist; [exact Hd|apply sublist_take]. }
    rewrite Forall_forall in Hno. by apply (Hno r).
Qed.

Lemma openQueue_ok t q h : reach_ok t q h → reach_ok t (openQueue q) h.
Proof.
  intros [[Ht Hs Hq Ha Hu Hm] Hca Hcl Hi]. constructor; [constructor|..]; try done.
  apply (rebuild_totals_ok (MkQueue (rows q) (autoinc q) (marks q) ∅ (MkUsage 0 0) None false)).
Qed.

Lemma new_ok t : reach_ok t empty_queue [].
Proof.
  constructor; [constructor|constructor|..]; try done; try (intros; simpl; lia).
  1, 4: intros; constructor.
  - intros r s Hr. by apply not_elem_of_nil in Hr.
  - intros to s Hc. by apply not_elem_of_nil in Hc.
Qed.

Lemma reach_reach_ok t q h : reach t q h → reach_ok t q h.
Proof.
  induction 1 as [t|t q h _ IH|t t' q h _ IH Ht|t q h fault wall fd hd fr _ IH|t q h fault to after limit mx q' got high err _ IH Hc|
    t q h fault to from i _ IH|t q h fault _ IH|t q h fault _ IH].
  - apply new_ok.
  - by apply openQueue_ok.
  - destruct IH. constructor; try done. by eapply caps_time.
  - by apply add_ok.
  - by eapply claim_ok.
  - by apply ack_ok.
  - by apply sweepBatch_ok.
  - by apply pruneBatch_ok.
Qed.
End executions.

(** ** Sweeps *)
Section sweep.
Context (cfg : config).

Lemma expired_batch_nil cut q : expired_batch cut (rows q) = [] → filter (λ r, cut <= enqueued r) (rows q) = rows q.
Proof.
  intros E. apply filter_all, Forall_forall. intros r Hr. destruct (decide (cut <= enqueued r)) as [|Hlt]; [done|].
  unfold expired_batch in E. set (l := filter _ (rows q)) in E.
  assert (r ∈ merge_sort age_le l) as Hin.
  { rewrite merge_sort_Permutation. apply list_elem_of_filter. split; [lia|done]. }
  destruct (merge_sort age_le l); [by apply not_elem_of_nil in Hin|done].
Qed.

(** What one batch leaves. *)
Definition swept (cut : Z) (q : queue) : list qrow :=
  filter (λ r, seq r ∉ map seq (expired_batch cut (rows q))) (rows q).

Lemma sweepBatch_spec fault t q : table_ok q →
  let '(q', (bn, bb, err)) := sweepBatch cfg fault t q in
  table_ok q' ∧
  ((is_Some err ∧ q' = q ∧ bn = 0 ∧ bb = 0) ∨
   (err = None ∧ rows q' = swept (cutoff cfg t) q ∧ bn = Z.of_nat (length (expired_batch (cutoff cfg t) (rows q))) ∧
    bb = zsum size (expired_batch (cutoff cfg t) (rows q)) ∧ expired_batch (cutoff cfg t) (rows q) ++ rows q' ≡ₚ rows q)).
Proof.
  intros Hq. unfold sweepBatch. do 3 (destruct (fault _); [split; [done|]; left; by eauto|]).
  pose proof (expired_batch_split q (cutoff cfg t) Hq) as Hp.
  destruct (adjust_gone_fields (expired_batch (cutoff cfg t) (rows q)) (set_rows (swept (cutoff cfg t) q) q)) as (E & _).
  unfold swept in E. split; [apply table_removed; [done..|apply sublist_filter]|]. right. rewrite E. by split_and!.
Qed.

Lemma sweep_some fuel i clock faults more n b q : table_ok q → (length (rows q) < fuel)%nat →
  is_Some (sweepExpired cfg fuel i clock faults more n b q).
Proof.
  revert i n b q. induction fuel as [|fuel IH]; intros i n b q Hq Hf; [lia|]. cbn [sweepExpired].
  pose proof (sweepBatch_spec (faults i) (clock i) q Hq) as H.
  destruct (sweepBatch cfg (faults i) (clock i) q) as [q' [[bn bb] err]].
  destruct H as (Hq' & [([e ->] & _)|(-> & _ & -> & _ & Hp)]); [done|].
  destruct (Z.eqb_spec (Z.of_nat (length (expired_batch (cutoff cfg (clock i)) (rows q)))) 0); [done|].
  destruct (more i); [|done]. apply IH; [done|]. apply Permutation_length in Hp. rewrite length_app in Hp. lia.
Qed.

(** Deleting a batch first changes nothing to what the sweep leaves. *)
Lemma swept_live cut q : table_ok q → filter (λ r, cut <= enqueued r) (swept cut q) = filter (λ r, cut <= enqueued r) (rows q).
Proof.
  intros Hq. unfold swept. rewrite list_filter_filter. apply filter_ext_in. intros r Hr. split; [naive_solver|].
  intros Hlive. split; [done|]. intros (s & E & Hs)%list_elem_of_fmap. destruct (expired_batch_in _ _ _ Hs) as [Hsin Hexp].
  rewrite (seq_inj q r s Hq Hr Hsin E) in Hlive. lia.
Qed.

Lemma sweep_all fuel i t more n b q : table_ok q → (∀ i, more i = true) → (length (rows q) < fuel)%nat →
  ∃ q', sweepExpired cfg fuel i (λ _, t) (λ _ _, false) more n b q =
    Some (q', (n + u_n (usage_of (filter (λ r, enqueued r < cutoff cfg t) (rows q))),
               b + u_bytes (usage_of (filter (λ r, enqueued r < cutoff cfg t) (rows q))), None)) ∧
    rows q' = filter (λ r, cutoff cfg t <= enqueued r) (rows q) ∧ table_ok q'.
Proof.
  revert i n b q. induction fuel as [|fuel IH]; intros i n b q Hq Hmore Hf; [lia|]. cbn [sweepExpired].
  pose proof (sweepBatch_spec (λ _, false) t q Hq) as H. destruct (sweepBatch cfg (λ _, false) t q) as [q1 [[bn bb] err]] eqn:Eb.
  destruct H as (Hq1 & [([e He] & _)|(-> & Hrows & -> & -> & Hp)]); [subst; discriminate|].
  set (gone := expired_batch (cutoff cfg t) (rows q)) in *.
  assert (∀ r, r ∈ gone → enqueued r < cutoff cfg t) as Hgone by (intros r Hr; by apply (expired_batch_in q)).
  assert (usage_of (filter (λ r, enqueued r < cutoff cfg t) (rows q)) =
    MkUsage (Z.of_nat (length gone) + u_n (usage_of (filter (λ r, enqueued r < cutoff cfg t) (rows q1))))
            (zsum size gone + u_bytes (usage_of (filter (λ r, enqueued r < cutoff cfg t) (rows q1))))) as ->.
  { rewrite (usage_perm _ (gone ++ filter (λ r, enqueued r < cutoff cfg t) (rows q1))).
    - unfold usage_of. cbn [u_n u_bytes]. rewrite length_app, zsum_app. f_equal; lia.
    - rewrite <- Hp, filter_app. by rewrite (filter_all _ gone) by (by apply Forall_forall). }
  destruct (Z.eqb_spec (Z.of_nat (length gone)) 0) as [E0|E0].
  - assert (gone = []) as Hg by (destruct gone; [done|simpl in E0; lia]). exists q1.
    assert (rows q1 = filter (λ r, cutoff cfg t <= enqueued r) (rows q)) as Hlive.
    { rewrite <- (swept_live (cutoff cfg t) q Hq), <- Hrows. symmetry. apply filter_all. rewrite Hrows. unfold swept.
      fold gone. rewrite Hg. rewrite (filter_all (λ r, seq r ∉ map seq [])) by (apply Forall_forall; intros r _; apply not_elem_of_nil).
      pose proof (expired_batch_nil _ _ Hg) as Hn. rewrite <- Hn. apply Forall_forall. by intros r [? _]%list_elem_of_filter. }
    split; [|done]. rewrite Hg in *. cbn [length zsum foldr] in *.
    assert (filter (λ r, enqueued r < cutoff cfg t) (rows q1) = []) as ->.
    { rewrite Hlive. apply filter_none, Forall_forall. intros r [? _]%list_elem_of_filter. lia. }
    simpl. do 3 f_equal; lia.
  - rewrite Hmore. destruct (IH (S i) (n + Z.of_nat (length gone)) (b + zsum size gone) q1 Hq1 Hmore) as (q' & -> & Hr & Hq').
    { apply Permutation_length in Hp. rewrite length_app in Hp. lia. }
    exists q'. split; [|split; [by rewrite Hr, Hrows, swept_live|done]]. cbn [u_n u_bytes]. by rewrite !Z.add_assoc.
Qed.
End sweep.

(** ** Drains and redeliveries *)
Section drain.
Context (cfg : config).

(** The claims of a drain from [cursor] (drainStep), until one is empty. *)
Fixpoint drain (fuel : nat) (t : Z) (to : string) (cursor : Z) (limit : nat) (max : Z) (q : queue) : option (queue * list (list qrow)) :=
  match fuel with
  | O => None
  | S fuel =>
      let '(q1, (got, _, _)) := claim cfg (λ _, false) t to cursor limit max q in
      match last got with
      | None => Some (q1, [])
      | Some r => match drain fuel t to (seq r) limit max q1 with
                  | Some (q2, batches) => Some (q2, got :: batches)
                  | None => None
                  end
      end
  end.

Lemma after_rows_last to c t q got rest r : table_ok q → after_rows cfg to c t (rows q) = got ++ rest → last got = Some r →
  after_rows cfg to (seq r) t (rows q) = rest.
Proof.
  intros Hq E Hl. assert (StronglySorted (λ r s, seq r < seq s) (got ++ rest)) as Hs.
  { rewrite <- E. by eapply StronglySorted_sublist; [apply after_rows_sub|apply Hq]. }
  assert (r ∈ after_rows cfg to c t (rows q)) as Hr by (rewrite E; apply elem_of_app; left; by apply last_Some_elem_of).
  unfold after_rows in Hr. apply list_elem_of_filter in Hr as [(_ & Hc & _) _].
  assert (after_rows cfg to (seq r) t (rows q) = filter (λ x, seq r < seq x) (after_rows cfg to c t (rows q))) as ->.
  { unfold after_rows. rewrite list_filter_filter. apply list_filter_iff. intros x. intuition lia. }
  apply StronglySorted_app in Hs as (H1 & Hsg & _). rewrite E, filter_app, filter_none, filter_all; [done|..]; apply Forall_forall; intros x Hx.
  - apply H1; [by apply last_Some_elem_of|done].
  - pose proof (last_max got r x Hsg Hl Hx). lia.
Qed.

Lemma readRows_nonempty max l : l ≠ [] → readRows max l ≠ [].
Proof. by destruct l. Qed.

Lemma drain_all fuel t to c limit max q : table_ok q → delivered to q <= c → (0 < limit)%nat →
  (length (after_rows cfg to c t (rows q)) < fuel)%nat →
  ∃ q' batches, drain fuel t to c limit max q = Some (q', batches) ∧ rows q' = rows q ∧
    concat batches = after_rows cfg to c t (rows q) ∧ Forall (λ b, (length b <= limit)%nat) batches.
Proof.
  revert c q. induction fuel as [|fuel IH]; intros c q Hq Hc Hlim Hf; [lia|]. cbn [drain].
  pose proof (claimable_spec cfg to c t limit max q Hq) as (_ & [rest E] & Hlen & _). unfold claimable in *. cbv zeta in *.
  unfold claim. destruct (Z.ltb_spec c (default 0 (marks q !! to))) as [Hlt|_]; [unfold delivered in Hc; lia|].
  set (got := readRows _ _) in *. destruct (last got) as [r|] eqn:Hl; cbn [last].
  - set (q1 := set_marks _ q). rewrite Hl. pose proof (after_rows_last _ _ _ _ _ _ _ Hq E Hl) as Hrest.
    assert (r ∈ rows q) as Hr.
    { apply (elem_of_sublist (after_rows cfg to c t (rows q)) _); [|apply after_rows_sub]. rewrite E. apply elem_of_app. left.
      by apply last_Some_elem_of. }
    assert (c < seq r) as Hcr.
    { assert (r ∈ after_rows cfg to c t (rows q)) as Hin by (rewrite E; apply elem_of_app; left; by apply last_Some_elem_of).
      unfold after_rows in Hin. apply list_elem_of_filter in Hin. naive_solver. }
    assert (table_ok q1) as Hq1.
    { destruct Hq. constructor; try done. intros to' m. cbn [q1 set_marks marks autoinc].
      destruct (decide (to' = to)) as [->|]; [|rewrite lookup_insert_ne by done; apply t_marks0].
      rewrite lookup_insert_eq. intros [= <-].
      rewrite Forall_forall in t_seq0. specialize (t_seq0 r Hr).
      destruct (marks q !! to) as [m|] eqn:Em; [specialize (t_marks0 _ _ Em)|]; lia. }
    destruct (IH (seq r) q1 Hq1) as (q' & bs & -> & Hrows & Hcat & Hall); [|done| |].
    + unfold delivered in *. cbn [q1 set_marks marks]. rewrite lookup_insert_eq. simpl. destruct (marks q !! to); simpl in *; lia.
    + cbn [q1 set_marks rows]. rewrite Hrest. rewrite E, length_app in Hf. destruct got; [done|simpl in Hf; lia].
    + exists q', (got :: bs). split_and!; [done|done| |by constructor]. cbn [concat]. rewrite Hcat. cbn [q1 set_marks rows]. by rewrite Hrest.
  - exists q, []. split_and!; [done|done| |constructor]. apply last_None in Hl. rewrite E, Hl. simpl.
    destruct (after_rows cfg to c t (rows q)) as [|x l] eqn:Ea; [by rewrite Hl in E|]. destruct limit; [lia|].
    exfalso. by apply (readRows_nonempty max (take (S limit) (x :: l))).
Qed.

Lemma scan_lengths_spec n last_ sum max l : ((1 < n)%nat → sum <= max) →
  ∃ k, (k <= length l)%nat ∧ scan_lengths n last_ sum max l =
    ((n + k)%nat, match last (take k l) with Some r => seq r | None => last_ end, sum + zsum size (take k l)) ∧
    ((1 < n + k)%nat → sum + zsum size (take k l) <= max) ∧ (n = 0%nat → l ≠ [] → (0 < k)%nat) ∧
    (∀ r, l !! k = Some r → max < sum + zsum size (take k l) + size r).
Proof.
  revert n last_ sum. induction l as [|r l IH]; intros n last_ sum Hn.
  - exists 0%nat. simpl. split_and!; try done; [do 2 f_equal; lia|intros; rewrite Z.add_0_r; apply Hn; lia].
  - cbn [scan_lengths]. destruct (_ && _) eqn:Eb.
    + bprop. match goal with H : (0 <? n)%nat = true |- _ => apply Nat.ltb_lt in H end. exists 0%nat. simpl. split_and!; [lia|do 2 f_equal; lia|intros; rewrite Z.add_0_r; apply Hn; lia|lia|].
      intros x [= <-]. lia.
    + destruct (IH (S n) (seq r) (sum + size r)) as (k & Hk & -> & H1 & H2 & H3).
      { intros Hlt. destruct (Nat.ltb_spec 0 n); simpl in Eb; bprop; lia. }
      exists (S k). cbn [take zsum foldr length]. unfold zsum in *. split_and!; [lia| | |lia|].
      * f_equal; [f_equal; [lia|]|lia]. rewrite last_cons. by destruct (last (take k l)).
      * intros Hlt. rewrite Z.add_assoc. apply H1. lia.
      * intros x Hx. rewrite Z.add_assoc. by apply H3.
Qed.

Lemma readRows_full got max l : Forall (λ r, 0 < size r) l → got + zsum size l <= max → readRows_from got max l = l.
Proof.
  intros Hl. revert got. induction Hl as [|r l Hr Hl IH]; intros got Hg; [done|]. cbn [readRows_from zsum foldr] in *.
  f_equal. unfold zsum in *. destruct (Z.leb_spec max (got + size r)) as [Hle|]; [|apply IH; lia].
  destruct l as [|x l]; [done|]. apply Forall_cons in Hl as [Hx Hl]. cbn [foldr] in Hg.
  assert (0 <= foldr (λ a n, size a + n) 0 l); [|lia]. apply (zsum_nonneg size). intros y _. unfold size. lia.
Qed.

Lemma range_rows_upto to after upto t q k : table_ok q →
  match last (take k (range_rows cfg to after upto t (rows q))) with
  | Some r => range_rows cfg to after (seq r) t (rows q) = take k (range_rows cfg to after upto t (rows q))
  | None => True
  end.
Proof.
  intros Hq. set (R := range_rows cfg to after upto t (rows q)). destruct (last (take k R)) as [r|] eqn:Hl; [|done].
  assert (StronglySorted (λ r s, seq r < seq s) (take k R ++ drop k R)) as Hs.
  { rewrite take_drop. eapply StronglySorted_sublist; [apply sublist_filter|apply Hq]. }
  apply StronglySorted_app in Hs as (H1 & Hsg & _).
  assert (r ∈ R) as Hr by (eapply elem_of_sublist; [by apply last_Some_elem_of|apply sublist_take]).
  unfold R, range_rows in Hr. apply list_elem_of_filter in Hr as [(_ & _ & Hup & _) _].
  assert (range_rows cfg to after (seq r) t (rows q) = filter (λ x, seq x <= seq r) R) as ->.
  { unfold R, range_rows. rewrite list_filter_filter. apply list_filter_iff. intros x. intuition lia. }
  rewrite <- (take_drop k R) at 1. rewrite filter_app, filter_all, filter_none, app_nil_r; [done|..]; apply Forall_forall; intros x Hx.
  - specialize (H1 r x (last_Some_elem_of _ _ Hl) Hx). simpl in H1. lia.
  - by apply (last_max (take k R)).
Qed.

Lemma nextRange_spec t to after upto limit max q : table_ok q → Forall (λ r, frame r ≠ []) (rows q) →
  let R := range_rows cfg to after upto t (rows q) in
  ∃ k, nextRange cfg (λ _, false) t to after upto limit max q q = Ok (take k R) ∧ (k <= limit)%nat ∧
    (zsum size (take k R) <= max ∨ (k <= 1)%nat) ∧ ((0 < limit)%nat → R ≠ [] → (0 < k)%nat) ∧
    (∀ r, (k < limit)%nat → R !! k = Some r → max < zsum size (take k R) + size r).
Proof.
  intros Hq Hf R. destruct (scan_lengths_spec 0 0 0 max (take limit R)) as (k & Hk & E & H1 & H2 & H3); [lia|].
  rewrite length_take in Hk. assert (take k (take limit R) = take k R) as Et by (rewrite take_take; f_equal; lia).
  rewrite Et in *. exists k. split_and!; [|lia| | |].
  - unfold nextRange. fold R. rewrite E. cbn [fst snd]. destruct (Nat.eqb_spec (0 + k) 0) as [E0|E0].
    { replace k with 0%nat by lia. done. }
    pose proof (range_rows_upto to after upto t q k Hq) as Hup. fold R in Hup.
    destruct (last (take k R)) as [r|] eqn:Hl.
    + rewrite Hup. cbn [Nat.add]. rewrite take_take, Nat.min_id. f_equal. apply readRows_full; [|lia].
      apply Forall_forall. intros x Hx. rewrite Forall_forall in Hf. unfold size.
      assert (x ∈ rows q) as Hxin.
      { eapply elem_of_sublist; [eapply elem_of_sublist; [exact Hx|apply sublist_take]|apply sublist_filter]. }
      specialize (Hf x Hxin). destruct (frame x); [done|simpl; lia].
    + apply last_None in Hl. rewrite <- Et in Hl. apply (f_equal length) in Hl. rewrite !length_take in Hl. simpl in Hl. lia.
  - destruct (decide (1 < k)%nat); [left; rewrite <- (Z.add_0_l (zsum _ _)); apply H1; lia|right; lia].
  - intros Hlim HR. apply H2; [done|]. destruct limit; [lia|]. by destruct R.
  - intros r Hlt Hr. rewrite <- (Z.add_0_l (zsum _ _)). apply H3. rewrite lookup_take_lt by lia. done.
Qed.
End drain.

(** ** The properties *)

(** The totals in memory are exact in every reachable state: the relay's
    total and every sender's are those of the stored rows, expired ones
    included, a sender without rows has no entry, and they are what a restart
    would rebuild by scanning the table. *)
Theorem queue_totals_exact cfg t q h : reach cfg t q h →
  total q = usage_of (rows q) ∧
  (∀ from, senders q !! from = if bool_decide (of_sender from (rows q) = []) then None else Some (usage_of (of_sender from (rows q)))) ∧
  senders (openQueue q) = senders q ∧ total (openQueue q) = total q.
Proof.
  intros Hr%reach_reach_ok. destruct (t_totals _ (r_table _ _ _ _ Hr)) as [Ht Hs].
  destruct (rebuild_totals_ok (MkQueue (rows q) (autoinc q) (marks q) ∅ (MkUsage 0 0) None false)) as [Ht' Hs'].
  split_and!; [done|done| |by rewrite Ht]. apply map_eq. intros from. by rewrite Hs, Hs'.
Qed.

(** The queue's caps hold in every reachable state: relay-wide bytes, the
    envelopes and bytes of a sender (whose first envelope is not held to the
    byte cap), and, among the rows not yet expired, those of a sender for one
    recipient and those of one recipient. *)
Theorem queue_caps_hold cfg t q h : reach cfg t q h →
  let l := lim cfg in
  (0 < totalBytes l → u_bytes (usage_of (rows q)) <= totalBytes l) ∧
  (∀ from, let u := usage_of (of_sender from (rows q)) in
    (0 < senderCount l → u_n u <= senderCount l) ∧ (0 < senderBytes l → u_n u <= 1 ∨ u_bytes u <= senderBytes l)) ∧
  (∀ hd, let u := usage_of (pair_rows hd (cutoff cfg t) (rows q)) in
    (0 < pairCount l → u_n u <= pairCount l) ∧ (0 < pairBytes l → u_n u <= 0 ∨ u_bytes u <= pairBytes l)) ∧
  ∀ to, let u := usage_of (recipient_rows to (cutoff cfg t) (rows q)) in
    u_n u <= 0 ∨ (u_n u <= maxCount cfg ∧ u_bytes u <= maxBytes cfg).
Proof. intros Hr%reach_reach_ok. by destruct (r_caps _ _ _ _ Hr). Qed.

(** C35: A row is a first delivery at most once: over any execution, with
    restarts, failures, acks, sweeps and pruned marks in between, the seqs
    claimed for a recipient strictly increase, so no row is claimed twice,
    and a claimed row that is still stored is at or below its recipient's
    mark, or the recipient has no mark and no row left. *)
Theorem first_delivery_once cfg t q h : reach cfg t q h →
  ∀ to, StronglySorted Z.lt (claims_of to h) ∧
    ∀ r, r ∈ rows q → to_key r = to → (to, seq r) ∈ h → seq r <= delivered to q.
Proof.
  intros Hr%reach_reach_ok to. split; [apply (r_increasing _ _ _ _ Hr)|]. intros r Hin Hto Hc.
  destruct (r_claimed _ _ _ _ Hr to (seq r) Hc) as [_ Hm]. unfold delivered.
  destruct (marks q !! to); simpl; [done|]. specialize (Hm r Hin Hto). lia.
Qed.

(** What add does, on a working database: it succeeds exactly when the
    envelope is queued already or the disk has room and every cap allows it;
    it then appends one row above every other (nothing for a duplicate), and
    a refusal stores nothing. *)
Theorem add_outcome cfg t wall fd hd fr q :
  let '(q', r) := add cfg (λ _, false) t wall fd hd fr q in
  (r = Ok () ↔ existsb (same_envelope hd) (rows q) = true ∨
               ((storageLow cfg wall fd q).2 = false ∧ caps_allow cfg t hd (Z.of_nat (length fr)) q)) ∧
  rows q' = (if is_ok r && negb (existsb (same_envelope hd) (rows q)) then rows q ++ [new_row hd t fr q] else rows q) ∧
  marks q' = marks q.
Proof.
  pose proof (add_cases cfg (λ _, false) t wall fd hd fr q) as Hc. unfold add in *. cbn [andb] in *.
  destruct (existsb (same_envelope hd) (rows q)) eqn:Ed; [split_and!; try done; split; by auto|].
  pose proof (storageLow_same cfg wall fd q) as (E1 & E2 & E3 & E4 & E5).
  destruct (storageLow cfg wall fd q) as [q1 low]. cbn [fst snd] in *. rewrite E1, E4, E5 in *. cbv zeta in *.
  assert (∀ e, (false = true ∨ low = false ∧ caps_allow cfg t hd (Z.of_nat (length fr)) q → False) →
    (@Err queue_error () e = Ok () ↔ false = true ∨ low = false ∧ caps_allow cfg t hd (Z.of_nat (length fr)) q) ∧
    rows q1 = (if is_ok (@Err queue_error () e) && negb false then rows q ++ [new_row hd t fr q] else rows q) ∧ marks q1 = marks q)
    as Hrefuse by (intros e Hno; split_and!; [split; [done|intros H; by destruct (Hno H)]|done..]).
  destruct low; [apply Hrefuse; by intros [?|[? _]]|]. 
  destruct (_ && (totalBytes _ <? _)) eqn:Eb; [apply Hrefuse; intros [?|[_ []]]; [done|]; bprop; lia|]. clear Eb.
  destruct (match senders q !! From hd with Some u => _ | None => _ end) eqn:Eb; [apply Hrefuse; intros [?|[_ []]]; [done|]|clear Eb].
  { destruct (senders q !! From hd) as [u|]; [|done]. specialize (allow_sender0 u eq_refl).
    apply orb_true_iff in Eb as [?|?]; bprop; lia. }
  rewrite andb_false_r in *. destruct (_ && ((0 <? pairCount _) && _ || _)) eqn:Eb; [apply Hrefuse; intros [?|[_ []]]; [done|]|clear Eb].
  { apply andb_true_iff in Eb as [_ Eb]. cbv zeta in *. apply orb_true_iff in Eb as [?|?]; bprop; lia. }
  destruct (_ || (maxBytes _ <? _)) eqn:Eb; [apply Hrefuse; intros [?|[_ []]]; [done|]|clear Eb].
  { cbv zeta in *. apply orb_true_iff in Eb as [?|?]; bprop; lia. }
  destruct Hc as [(x & _ & _ & Hx & He)|[(e & ? & _)|(_ & _ & Hal & _)]]; [|done|].
  - assert (existsb (same_envelope hd) (rows q) = true); [|congruence]. apply existsb_exists. exists x.
    split; [by apply list_elem_of_In|done].
  - split_and!; [split; by auto|simpl; by rewrite E1, E2|done].
Qed.

(** A sweep always ends: [length rows + 1] batches are enough whatever the
    clock, the failures and the time limit; and one that is neither stopped
    nor fails deletes exactly the expired rows, reports their number and
    their bytes, keeps the others in order and leaves the totals exact. *)
Theorem sweep_complete cfg t q h : reach cfg t q h →
  (∀ clock faults more, is_Some (sweepExpired cfg (S (length (rows q))) 0 clock faults more 0 0 q)) ∧
  ∃ q', let gone := usage_of (filter (λ r, enqueued r < cutoff cfg t) (rows q)) in
    sweepExpired cfg (S (length (rows q))) 0 (λ _, t) (λ _ _, false) (λ _, true) 0 0 q = Some (q', (u_n gone, u_bytes gone, None)) ∧
    rows q' = filter (λ r, cutoff cfg t <= enqueued r) (rows q) ∧ total q' = usage_of (rows q').
Proof.
  intros Hr%reach_reach_ok. pose proof (r_table _ _ _ _ Hr) as Hq. split; [intros; apply sweep_some; [done|lia]|].
  destruct (sweep_all cfg (S (length (rows q))) 0 t (λ _, true) 0 0 q Hq ltac:(done) ltac:(lia)) as (q' & E & Hrows & Hq').
  exists q'. split_and!; [by rewrite E, !Z.add_0_l|done|apply (t_totals _ Hq')].
Qed.

(** Drains lose nothing: claiming batch after batch from the recipient's
    mark delivers exactly its unexpired rows above the mark, each once and
    oldest first, in batches within the row limit, and ends. *)
Theorem drain_delivers_all cfg t q h to limit max : reach cfg t q h → (0 < limit)%nat →
  ∃ q' batches, drain cfg (S (length (rows q))) t to (delivered to q) limit max q = Some (q', batches) ∧ rows q' = rows q ∧
    concat batches = filter (λ r, to_key r = to ∧ delivered to q < seq r ∧ cutoff cfg t <= enqueued r) (rows q) ∧
    Forall (λ b, (length b <= limit)%nat) batches.
Proof.
  intros Hr%reach_reach_ok Hlim. apply drain_all; [apply Hr|done|done|].
  pose proof (sublist_length _ _ (after_rows_sub cfg to (delivered to q) t (rows q))). lia.
Qed.

(** A redelivery batch reads what its budget pays and no more: nextRange
    returns the oldest unexpired rows of the range, a prefix that is as long
    as the row limit and the byte limit allow, and always the first row. *)
Theorem next_range_exact cfg t q h to after upto limit max : reach cfg t q h → Forall (λ r, frame r ≠ []) (rows q) →
  let R := range_rows cfg to after upto t (rows q) in
  ∃ k, nextRange cfg (λ _, false) t to after upto limit max q q = Ok (take k R) ∧ (k <= limit)%nat ∧
    (zsum size (take k R) <= max ∨ (k <= 1)%nat) ∧ ((0 < limit)%nat → R ≠ [] → (0 < k)%nat) ∧
    (∀ r, (k < limit)%nat → R !! k = Some r → max < zsum size (take k R) + size r).
Proof. intros Hr%reach_reach_ok Hf. by apply nextRange_spec; [apply Hr|]. Qed.

(** ** An execution

    Two envelopes of 3 and 2 bytes wait for "bob"; a third is refused by the
    recipient's cap; a claim of one row delivers the first, the relay restarts
    and an hour later the first row has expired. *)
Definition demo_cfg : config := MkConfig false 5000000000 2 100 (MkLimits 5 50 5 4 1000 0).
Definition demo_q1 : queue := (add demo_cfg (λ _, false) 0 0 None (MkHeader "bob" "alice" "m1") [1; 2; 3] empty_queue).1.
Definition demo_q2 : queue := (add demo_cfg (λ _, false) 4000000000 0 None (MkHeader "bob" "carol" "m2") [4; 5] demo_q1).1.
Definition demo_q3 : queue := (claim demo_cfg (λ _, false) 4000000000 "bob" 0 1 1000 demo_q2).1.
Definition demo_q4 : queue := openQueue demo_q3.

Example demo_full : (add demo_cfg (λ _, false) 4000000000 0 None (MkHeader "bob" "dave" "m3") [6] demo_q2).2
  = Err (queueFullError limitQueueRecipient).
Proof. reflexivity. Qed.

Lemma demo_q3_reach : reach demo_cfg 4000000000 demo_q3 [("bob"%string, 1)].
Proof.
  apply (reach_claim demo_cfg 4000000000 demo_q2 [] (λ _, false) "bob" 0 1 1000 demo_q3 (take 1 (rows demo_q2)) 1 None); [|reflexivity].
  unfold demo_q2. apply reach_add. apply (reach_time _ 0); [unfold demo_q1; apply reach_add; constructor|lia].
Qed.
Lemma demo_q4_reach : reach demo_cfg 6000000000 demo_q4 [("bob"%string, 1)].
Proof. apply (reach_time _ 4000000000); [apply reach_restart, demo_q3_reach|lia]. Qed.

Lemma queue_totals_exact_witness : total demo_q3 = MkUsage 2 5 ∧ senders demo_q3 !! "carol"%string = Some (MkUsage 1 2) ∧
  senders (openQueue demo_q3) = senders demo_q3.
Proof.
  destruct (queue_totals_exact _ _ _ _ demo_q3_reach) as (Ht & Hs & Ho & _). rewrite Ht, (Hs "carol"%string).
  split; [reflexivity|]. split; [reflexivity|exact Ho].
Defined.

Lemma queue_caps_hold_witness : u_n (usage_of (recipient_rows "bob" (cutoff demo_cfg 4000000000) (rows demo_q3))) <= 2.
Proof.
  destruct (queue_caps_hold _ _ _ _ demo_q3_reach) as (_ & _ & _ & H). destruct (H "bob"%string) as [H0|[H0 _]];
    [etrans; [exact H0|discriminate]|exact H0].
Defined.

Lemma first_delivery_once_witness : StronglySorted Z.lt (claims_of "bob" [("bob"%string, 1)]) ∧ 1 <= delivered "bob" demo_q4.
Proof.
  destruct (first_delivery_once _ _ _ _ demo_q4_reach "bob") as [H1 H2]. split; [exact H1|].
  apply (H2 (MkRow 1 "bob" "alice" "m1" 0 [1; 2; 3])); [left|reflexivity|left].
Defined.

Lemma sweep_complete_witness : ∃ q', sweepExpired demo_cfg 3 0 (λ _, 6000000000) (λ _ _, false) (λ _, true) 0 0 demo_q4
    = Some (q', (1, 3, None)) ∧ map seq (rows q') = [2].
Proof.
  destruct (sweep_complete _ _ _ _ demo_q4_reach) as (_ & q' & E & Hr & _). exists q'. split; [exact E|].
  rewrite Hr. reflexivity.
Defined.

Lemma drain_delivers_all_witness : ∃ q' batches,
  drain demo_cfg 3 4000000000 "bob" 1 1 1000 demo_q3 = Some (q', batches) ∧ map (map seq) batches = [[2]].
Proof.
  destruct (drain_delivers_all demo_cfg 4000000000 demo_q3 _ "bob" 1 1000 demo_q3_reach ltac:(lia)) as (q' & b & E & _ & Hc & _).
  exists q', b. split; [exact E|]. vm_compute in E. injection E as _ <-. reflexivity.
Defined.

Lemma next_range_exact_witness : ∃ k, nextRange demo_cfg (λ _, false) 4000000000 "bob" 0 2 64 4 demo_q3 demo_q3
    = Ok (take k (range_rows demo_cfg "bob" 0 2 4000000000 (rows demo_q3))) ∧ (0 < k)%nat.
Proof.
  destruct (next_range_exact demo_cfg 4000000000 demo_q3 _ "bob" 0 2 64 4 demo_q3_reach) as (k & E & _ & _ & H & _).
  - repeat constructor; discriminate.
  - exists k. split; [exact E|]. apply H; [lia|discriminate].
Defined.
