(* ===== verification/Limits.v ===== *)
(** * The relay's abuse limits (internal/relay/limits.go, the limiter of
    internal/relay/pairing.go)

    Go's float64 is IEEE binary64, computed by the Standard Library's
    [SpecFloat]. The counters that l.mu guards fall into independent groups,
    each with its own state: the token buckets, the admission of connections,
    the control-frame windows, the redelivery wait lists and the log windows.
    A time is a number of nanoseconds, [None] Go's zero time. *)

From Stdlib Require Import Floats.SpecFloat.
From S2P Require Import Prelude.

Open Scope Z_scope.

(** ** float64 *)

Abbreviation float := spec_float.
Definition f_of_Z (n : Z) : float := binary_normalize 53 1024 n 0 false.
Definition fadd : float → float → float := SFadd 53 1024.
Definition fsub : float → float → float := SFsub 53 1024.
Definition fmul : float → float → float := SFmul 53 1024.
Definition fdiv : float → float → float := SFdiv 53 1024.
Definition f_zero : float := S754_zero false.
Definition is_nan (x : float) : bool := match x with S754_nan => true | _ => false end.
(** The builtins min and max: NaN if any is, and -0 below 0. *)
Definition fmin (x y : float) : float :=
  if is_nan x || is_nan y then S754_nan
  else if SFltb x y then x else if SFltb y x then y
  else match y with S754_zero true => y | _ => x end.
Definition fmax (x y : float) : float :=
  if is_nan x || is_nan y then S754_nan
  else if SFltb x y then y else if SFltb y x then x
  else match x with S754_zero true => y | _ => x end.
(** int64(x), towards zero. *)
Definition f_to_Z (x : float) : Z :=
  match x with
  | S754_finite s m e => let a := if 0 <=? e then Z.shiftl (Zpos m) e else Z.shiftr (Zpos m) (- e) in if s then - a else a
  | _ => 0
  end.

Definition second : Z := 1000000000.
Definition minute : Z := 60 * second.
(** time.Duration.Seconds *)
Definition Seconds (d : Z) : float := fadd (f_of_Z (Z.quot d second)) (fdiv (f_of_Z (Z.rem d second)) (f_of_Z second)).

(** now.Sub(t) >= d; the zero time is further back than any duration. *)
Definition since_ge (now : Z) (t : option Z) (d : Z) : bool := match t with Some t => d <=? now - t | None => true end.

Definition orDefault (v def : Z) : Z := if v =? 0 then def else if v <? 0 then 0 else v.

(** ** Token buckets *)

Definition bucketPruneThreshold : nat := 1024.

Record tokenBucket := MkTokens { tokens : float; last : Z }.
Record bucketSet := MkBuckets { rate : float; burst : float; m : gmap string tokenBucket; lastPrune : option Z }.

Definition newBucketSet (r b : float) : bucketSet := MkBuckets r b ∅ None.
Definition perMin (n : Z) : float := fdiv (f_of_Z n) (f_of_Z 60).
Definition perHour (n : Z) : bucketSet := newBucketSet (fdiv (f_of_Z n) (f_of_Z 3600)) (f_of_Z n).

Definition set_bucket (key : string) (tb : tokenBucket) (b : bucketSet) : bucketSet :=
  MkBuckets (rate b) (burst b) (<[key := tb]> (m b)) (lastPrune b).

(** The tokens of a bucket after [now - last] more nanoseconds, not capped. *)
Definition refilled (b : bucketSet) (tb : tokenBucket) (now : Z) : float :=
  fadd (tokens tb) (fmul (Seconds (now - last tb)) (rate b)).

Definition prune (now : Z) (b : bucketSet) : bucketSet :=
  if (bucketPruneThreshold <=? size (m b))%nat && since_ge now (lastPrune b) minute then
    MkBuckets (rate b) (burst b) (filter (λ kt, SFleb (burst b) (refilled b kt.2 now) = false) (m b)) (Some now)
  else b.

Definition refill (b : bucketSet) (key : string) (now : Z) : bucketSet * tokenBucket :=
  let b := prune now b in
  match m b !! key with
  | None => let tb := MkTokens (burst b) now in (set_bucket key tb b, tb)
  | Some tb =>
      if last tb <? now then
        let tb := MkTokens (fmin (burst b) (refilled b tb now)) now in (set_bucket key tb b, tb)
      else (b, tb)
  end.

(** rate <= 0: no limit *)
Definition off (b : bucketSet) : bool := SFleb (rate b) f_zero.

Definition has (b : bucketSet) (key : string) (now : Z) (cost : float) : bucketSet * bool :=
  if off b then (b, true) else let '(b, tb) := refill b key now in (b, SFleb cost (tokens tb)).

Definition spend (b : bucketSet) (key : string) (now : Z) (cost : float) : bucketSet :=
  if off b then b else let '(b, tb) := refill b key now in set_bucket key (MkTokens (fmax f_zero (fsub (tokens tb) cost)) (last tb)) b.

Definition refund (b : bucketSet) (key : string) (now : Z) (cost : float) : bucketSet :=
  if off b then b else let '(b, tb) := refill b key now in set_bucket key (MkTokens (fmin (burst b) (fadd (tokens tb) cost)) (last tb)) b.

Definition take (b : bucketSet) (key : string) (now : Z) (cost : float) : bucketSet * bool :=
  if off b then (b, true)
  else let '(b, tb) := refill b key now in
       if SFltb (tokens tb) cost then (b, false)
       else (set_bucket key (MkTokens (fsub (tokens tb) cost) (last tb)) b, true).

(** ** Frames and envelopes: both buckets or neither *)

Definition limitKeyBytes : string := "key_bytes".
Definition limitPrefixBytes : string := "prefix_bytes".
Definition limitKeyEnvs : string := "key_envelopes".
Definition limitPrefixEnvs : string := "prefix_envelopes".
Definition limitRedeliverKey : string := "queue_redeliver_key".
Definition limitRedeliverPrefix : string := "queue_redeliver_prefix".
Definition smallFrame : Z := Z.shiftl 1 10.

(** frameAllowed, on (keyBytes, prefixBytes); the limit that refused, if any. *)
Definition frameAllowed (key prefix : string) (n now : Z) (kb pb : bucketSet) : bucketSet * bucketSet * option string :=
  let sz := f_of_Z n in
  let '(kb, pb, refused) :=
    if smallFrame <? n then
      let '(kb, ok) := has kb key now sz in
      if negb ok then (kb, pb, Some limitKeyBytes)
      else let '(pb, ok) := has pb prefix now sz in
           if negb ok then (kb, pb, Some limitPrefixBytes) else (kb, pb, None)
    else (kb, pb, None) in
  match refused with
  | Some l => (kb, pb, Some l)
  | None => (spend kb key now sz, spend pb prefix now sz, None)
  end.

(** sendAllowed, on (keyEnvs, prefixEnvs). *)
Definition sendAllowed (key prefix : string) (now : Z) (ke pe : bucketSet) : bucketSet * bucketSet * option string :=
  let one := f_of_Z 1 in
  let '(ke, ok) := has ke key now one in
  if negb ok then (ke, pe, Some limitKeyEnvs)
  else let '(pe, ok) := has pe prefix now one in
       if negb ok then (ke, pe, Some limitPrefixEnvs)
       else ((take ke key now one).1, (take pe prefix now one).1, None).

(** ** Failure counters (the limiter of pairing.go) *)

Definition limiterSweepThreshold : nat := 1024.
Record bucket := MkBucket { start : Z; fails : Z }.
Record limiter := MkLimiter { lim_limit : Z; window : Z; buckets : gmap string bucket; lastSweep : option Z }.

Definition allow (l : limiter) (key : string) (now : Z) : bool :=
  match buckets l !! key with
  | None => true
  | Some b => (start b + window l <=? now) || (fails b <? lim_limit l)
  end.

Definition fail (l : limiter) (key : string) (now : Z) : limiter :=
  let l := if (limiterSweepThreshold <=? size (buckets l))%nat && since_ge now (lastSweep l) (window l)
           then MkLimiter (lim_limit l) (window l) (filter (λ kb, now < start kb.2 + window l) (buckets l)) (Some now) else l in
  let b := match buckets l !! key with
           | None => MkBucket now 0
           | Some b => if start b + window l <=? now then MkBucket now 0 else b
           end in
  MkLimiter (lim_limit l) (window l) (<[key := MkBucket (start b) (fails b + 1)]> (buckets l)) (lastSweep l).

(** ** Admission of connections *)

Record admission := MkAdmission {
  maxConnsPerPrefix : Z; maxUnauth : Z;
  upgrades : bucketSet; authFails : limiter; prefixConns : gmap string Z; unauth : Z }.

Inductive refusal := limitAuthFailures | limitUpgrades | limitPrefixConns | limitUnauthConns.
Definition status (r : refusal) : Z := match r with limitUnauthConns => 503 | _ => 429 end.

Definition open_conns (prefix : string) (a : admission) : Z := default 0 (prefixConns a !! prefix).

Definition admitUpgrade (prefix : string) (now : Z) (a : admission) : admission * option refusal :=
  if (0 <? lim_limit (authFails a)) && negb (allow (authFails a) prefix now) then (a, Some limitAuthFailures) else
  let '(up, ok) := take (upgrades a) prefix now (f_of_Z 1) in
  let a := MkAdmission (maxConnsPerPrefix a) (maxUnauth a) up (authFails a) (prefixConns a) (unauth a) in
  if negb ok then (a, Some limitUpgrades) else
  if (0 <? maxConnsPerPrefix a) && (maxConnsPerPrefix a <=? open_conns prefix a) then (a, Some limitPrefixConns) else
  if (0 <? maxUnauth a) && (maxUnauth a <=? unauth a) then (a, Some limitUnauthConns) else
  (MkAdmission (maxConnsPerPrefix a) (maxUnauth a) up (authFails a)
     (<[prefix := open_conns prefix a + 1]> (prefixConns a)) (unauth a + 1), None).

Definition authDone (prefix : string) (failed : bool) (now : Z) (a : admission) : admission :=
  MkAdmission (maxConnsPerPrefix a) (maxUnauth a) (upgrades a)
    (if failed && (0 <? lim_limit (authFails a)) then fail (authFails a) prefix now else authFails a)
    (prefixConns a) (unauth a - 1).

Definition release (prefix : string) (a : admission) : admission :=
  let n := open_conns prefix a - 1 in
  MkAdmission (maxConnsPerPrefix a) (maxUnauth a) (upgrades a) (authFails a)
    (if n <=? 0 then delete prefix (prefixConns a) else <[prefix := n]> (prefixConns a)) (unauth a).

(** admitHealth and reconnect charge one token of their bucket. *)
Definition admitHealth (prefix : string) (now : Z) (health : bucketSet) : bucketSet * bool := take health prefix now (f_of_Z 1).
Definition reconnect (key : string) (now : Z) (reconnects : bucketSet) : bucketSet * bool := take reconnects key now (f_of_Z 1).

(** ** Control frames *)

Definition controlStrikeLimit : Z := 3.
Definition controlWindow : Z := minute.

Record controlWindowState := MkWindow { idx : Z; n : Z; overIdx : Z; strikes : Z }.
Record controls := MkControls { controlPerMin : Z; control : gmap string controlWindowState; ctlPrune : option Z }.

(** The window of one key after one more frame in window [i]. *)
Definition window_step (limit i : Z) (w : controlWindowState) : controlWindowState * (bool * bool) :=
  let w := if idx w =? i then w
           else MkWindow i 0 (overIdx w) (if overIdx w =? i - 1 then strikes w else 0) in
  let w := MkWindow (idx w) (n w + 1) (overIdx w) (strikes w) in
  if n w <=? limit then (w, (true, false))
  else let w := if overIdx w =? i then w else MkWindow (idx w) (n w) i (strikes w + 1) in
       (w, (false, controlStrikeLimit <=? strikes w)).

(** controlAllowed: (ok, closeConn). *)
Definition controlAllowed (key : string) (now : Z) (c : controls) : controls * (bool * bool) :=
  if controlPerMin c <=? 0 then (c, (true, false))
  else
    let i := Z.quot now controlWindow in
    let c := if (bucketPruneThreshold <=? size (control c))%nat && since_ge now (ctlPrune c) controlWindow
             then MkControls (controlPerMin c) (filter (λ kw, i - 1 <= idx kw.2) (control c)) (Some now) else c in
    let w := default (MkWindow i 0 0 0) (control c !! key) in
    let '(w, r) := window_step (controlPerMin c) i w in
    (MkControls (controlPerMin c) (<[key := w]> (control c)) (ctlPrune c), r).

(** ** Redelivery: the wait lists *)

Record rconn := MkRconn {
  c_key : string; c_prefix : string;
  waiting : bool; waitClosed : bool; waitTicket : Z;
  skipSize : Z; draining : bool }.   (* of the connection, under conn.mu *)

Record redelivery := MkRedelivery {
  redeliverKey : bucketSet; redeliverPrefix : bucketSet;
  redeliverWait : gmap string (list Z);
  redeliverServed : gmap string (gmap Z Z);
  waitTickets : Z;
  rconns : gmap Z rconn }.

Definition no_conn : rconn := MkRconn "" "" false true 0 0 false.
Definition get_conn (i : Z) (r : redelivery) : rconn := default no_conn (rconns r !! i).
Definition set_rconn (i : Z) (c : rconn) (r : redelivery) : redelivery :=
  MkRedelivery (redeliverKey r) (redeliverPrefix r) (redeliverWait r) (redeliverServed r) (waitTickets r) (<[i := c]> (rconns r)).
Definition set_wait (w : gmap string (list Z)) (r : redelivery) : redelivery :=
  MkRedelivery (redeliverKey r) (redeliverPrefix r) w (redeliverServed r) (waitTickets r) (rconns r).
Definition set_served (s : gmap string (gmap Z Z)) (r : redelivery) : redelivery :=
  MkRedelivery (redeliverKey r) (redeliverPrefix r) (redeliverWait r) s (waitTickets r) (rconns r).
Definition set_rbuckets (k p : bucketSet) (r : redelivery) : redelivery :=
  MkRedelivery k p (redeliverWait r) (redeliverServed r) (waitTickets r) (rconns r).
Definition wait_of (prefix : string) (r : redelivery) : list Z := default [] (redeliverWait r !! prefix).
Definition served_of (prefix : string) (r : redelivery) : gmap Z Z := default ∅ (redeliverServed r !! prefix).

Definition with_waiting (w : bool) (c : rconn) : rconn :=
  MkRconn (c_key c) (c_prefix c) w (waitClosed c) (waitTicket c) (skipSize c) (draining c).
Definition with_ticket (t : Z) (c : rconn) : rconn :=
  MkRconn (c_key c) (c_prefix c) (waiting c) (waitClosed c) t (skipSize c) (draining c).
Definition with_closed (c : rconn) : rconn :=
  MkRconn (c_key c) (c_prefix c) (waiting c) true (waitTicket c) (skipSize c) (draining c).
Definition with_draining (c : rconn) : rconn :=
  MkRconn (c_key c) (c_prefix c) (waiting c) (waitClosed c) (waitTicket c) (skipSize c) true.

(** slices.BinarySearchFunc over the tickets: the loop, between i and j. *)
Fixpoint bsearch (fuel : nat) (ts : list Z) (t : Z) (i j : nat) : nat :=
  match fuel with
  | O => i
  | S fuel => if (i <? j)%nat then
                let h := ((i + j) / 2)%nat in
                if nth h ts 0 <? t then bsearch fuel ts t (S h) j else bsearch fuel ts t i h
              else i
  end.
Definition ticket_of (r : redelivery) (i : Z) : Z := waitTicket (get_conn i r).

Definition joinWaitLocked (i : Z) (back : bool) (r : redelivery) : redelivery :=
  let c := get_conn i r in
  if waiting c || waitClosed c then r
  else
    let list := wait_of (c_prefix c) r in
    let r := set_rconn i (with_waiting true c) r in
    if negb back || (waitTicket c =? 0) then
      let t := waitTickets r + 1 in
      let r := set_rconn i (with_ticket t (with_waiting true c)) r in
      MkRedelivery (redeliverKey r) (redeliverPrefix r) (<[c_prefix c := list ++ [i]]> (redeliverWait r)) (redeliverServed r) t (rconns r)
    else
      let ts := map (ticket_of r) list in
      let at_ := bsearch (S (length list)) ts (waitTicket c) 0 (length list) in
      set_wait (<[c_prefix c := firstn at_ list ++ [i] ++ skipn at_ list]> (redeliverWait r)) r.

Definition removeWaitLocked (i : Z) (r : redelivery) : redelivery :=
  let c := get_conn i r in
  if negb (waiting c) then r
  else
    let r := set_rconn i (with_waiting false c) r in
    let list := wait_of (c_prefix c) r in
    let list := match list_find (λ x, x = i) list with
                | Some (k, _) => firstn k list ++ skipn (S k) list
                | None => list
                end in
    set_wait (match list with [] => delete (c_prefix c) (redeliverWait r) | _ => <[c_prefix c := list]> (redeliverWait r) end) r.

Definition endTurnLocked (i : Z) (r : redelivery) : redelivery :=
  let p := c_prefix (get_conn i r) in
  match served_of p r !! i with
  | None => r
  | Some _ =>
      let s := delete i (served_of p r) in
      set_served (if bool_decide (s = ∅) then delete p (redeliverServed r) else <[p := s]> (redeliverServed r)) r
  end.

(** redeliverAllowed: the limit that refused, if any. *)
Definition redeliverAllowed (i : Z) (nbytes now : Z) (r : redelivery) : redelivery * option string :=
  let c := get_conn i r in
  let sz := f_of_Z nbytes in
  let served := served_of (c_prefix c) r in
  let isServed := bool_decide (is_Some (served !! i)) in
  if negb isServed && (negb (bool_decide (served = ∅)) || (0 <? length (wait_of (c_prefix c) r))%nat)
  then (joinWaitLocked i false r, Some limitRedeliverPrefix)
  else
    let '(k, ok) := has (redeliverKey r) (c_key c) now sz in
    let r := set_rbuckets k (redeliverPrefix r) r in
    if negb ok then (r, Some limitRedeliverKey)
    else
      let '(p, ok) := has (redeliverPrefix r) (c_prefix c) now sz in
      let r := set_rbuckets k p r in
      if negb ok then
        let r := if isServed then endTurnLocked i r else r in
        (joinWaitLocked i isServed r, Some limitRedeliverPrefix)
      else (set_rbuckets (take k (c_key c) now sz).1 (take p (c_prefix c) now sz).1 r, None).

Definition redeliverReserve (i : Z) (limit now : Z) (r : redelivery) : redelivery * Z :=
  let c := get_conn i r in
  let x := f_of_Z (Z.max limit 0) in
  let '(k, x) := if SFltb f_zero (rate (redeliverKey r))
                 then let '(k, tb) := refill (redeliverKey r) (c_key c) now in (k, fmin x (tokens tb)) else (redeliverKey r, x) in
  let '(p, x) := if SFltb f_zero (rate (redeliverPrefix r))
                 then let '(p, tb) := refill (redeliverPrefix r) (c_prefix c) now in (p, fmin x (tokens tb)) else (redeliverPrefix r, x) in
  let x := f_of_Z (f_to_Z x) in
  (set_rbuckets (take k (c_key c) now x).1 (take p (c_prefix c) now x).1 r, f_to_Z x).

Definition redeliverRefund (i : Z) (nbytes now : Z) (r : redelivery) : redelivery :=
  if nbytes <=? 0 then r
  else let c := get_conn i r in
       set_rbuckets (refund (redeliverKey r) (c_key c) now (f_of_Z nbytes))
                    (refund (redeliverPrefix r) (c_prefix c) now (f_of_Z nbytes)) r.

Definition redeliverForget (i : Z) (r : redelivery) : redelivery :=
  endTurnLocked i (removeWaitLocked i (set_rconn i (with_closed (get_conn i r)) r)).

Definition redeliverDone (i : Z) (r : redelivery) : redelivery := endTurnLocked i r.

Definition redeliverTurn : Z := minute.

(** The first loop of nextServedAt, over (connection, start of its turn). *)
Definition end_old_turns (tick : Z) (all : list (Z * Z)) (r : redelivery) : redelivery :=
  fold_left (λ r x, if redeliverTurn <=? tick - x.2 then endTurnLocked x.1 r else r) all r.

(** The walk of nextServedAt over one prefix's list; retrySkipped's [skipped]
    and [start] read and mark the connection. *)
Fixpoint walk (prefix : string) (tick now : Z) (list : list Z) (pending : float) (r : redelivery) : redelivery * Datatypes.list Z :=
  match list with
  | [] => (r, [])
  | i :: list =>
      let c := get_conn i r in
      let sz := f_of_Z (skipSize c) in
      if SFeqb sz f_zero then walk prefix tick now list pending r
      else
        let '(k, ok) := has (redeliverKey r) (c_key c) now sz in
        let r := set_rbuckets k (redeliverPrefix r) r in
        if negb ok then walk prefix tick now list pending r
        else
          let '(p, ok) := has (redeliverPrefix r) prefix now (fadd pending sz) in
          let r := set_rbuckets k p r in
          if negb ok then (r, [])
          else if draining c || (skipSize c =? 0) then walk prefix tick now list pending r
          else
            let r := removeWaitLocked i (set_rconn i (with_draining c) r) in
            let r := set_served (<[prefix := <[i := tick]> (served_of prefix r)]> (redeliverServed r)) r in
            let '(r, picked) := walk prefix tick now list (fadd pending sz) r in
            (r, i :: picked)
  end.

(** nextServedAt; [turns] and [prefixes] are the iteration orders of the maps. *)
Definition nextServedAt (tick now : Z) (turns : list (Z * Z)) (prefixes : list string) (r : redelivery) : redelivery * list Z :=
  fold_left (λ '(r, picked) p, let '(r, more) := walk p tick now (wait_of p r) f_zero r in (r, picked ++ more))
    prefixes (end_old_turns tick turns r, []).

(** ** The log of refusals *)

Record logWindow := MkLog { l_start : Z; suppressed : Z }.
Definition limitLogWindow : Z := minute.

(** hit: Some suppressed_before when a line is written. *)
Definition hit (k : string) (now : Z) (seen : gmap string logWindow) : gmap string logWindow * option Z :=
  match seen !! k with
  | Some w => if now - l_start w <? limitLogWindow then (<[k := MkLog (l_start w) (suppressed w + 1)]> seen, None)
              else let seen := if (bucketPruneThreshold <=? size seen)%nat
                               then filter (λ kw, now - l_start kw.2 < limitLogWindow) seen else seen in
                   (<[k := MkLog now 0]> seen, Some (suppressed w))
  | None => let seen := if (bucketPruneThreshold <=? size seen)%nat
                        then filter (λ kw, now - l_start kw.2 < limitLogWindow) seen else seen in
            (<[k := MkLog now 0]> seen, Some 0)
  end.

(** ** Token buckets: lemmas *)

Lemma SFcompare_sym x y : SFcompare y x = option_map CompOpp (SFcompare x y).
Proof.
  destruct x as [[]|[]| |[] mx ex], y as [[]|[]| |[] my ey]; try done; simpl; rewrite Z.compare_antisym;
    destruct (ex ?= ey); simpl; try done; f_equal; rewrite Pos.compare_antisym; simpl;
    change (Pos.compare_cont Eq mx my) with (mx ?= my)%positive;
    change (Pos.compare_cont Eq my mx) with (my ?= mx)%positive; rewrite ?(Pos.compare_antisym mx my); by destruct (mx ?= my)%positive.
Qed.

(** What [has] grants, [take] takes. *)
Lemma leb_not_ltb x y : SFleb x y = true → SFltb y x = false.
Proof. unfold SFleb, SFltb. rewrite (SFcompare_sym x y). by destruct (SFcompare x y) as [[]|]. Qed.

Lemma prune_rate now b : rate (prune now b) = rate b ∧ burst (prune now b) = burst b.
Proof. unfold prune. by case_match. Qed.

Lemma refill_rate b key now : rate (refill b key now).1 = rate b ∧ burst (refill b key now).1 = burst b.
Proof. unfold refill. destruct (prune_rate now b) as [H1 H2]. repeat case_match; simpl; by rewrite ?H1, ?H2. Qed.

Lemma refill_lookup b key now : m (refill b key now).1 !! key = Some (refill b key now).2.
Proof.
  unfold refill. destruct (m (prune now b) !! key) as [tb|] eqn:E; [|apply lookup_insert_eq].
  destruct (last tb <? now); [apply lookup_insert_eq|done].
Qed.

Lemma prune_again now b : prune now (prune now b) = prune now b.
Proof.
  unfold prune at 2 3. destruct (_ && since_ge now (lastPrune b) minute) eqn:E; [|unfold prune; by rewrite E].
  unfold prune. simpl. rewrite Z.sub_diag. by rewrite andb_false_r.
Qed.

(** A second refill at the same time finds the same bucket. *)
Lemma refill_again b key now : (refill (refill b key now).1 key now).2 = (refill b key now).2.
Proof.
  unfold refill at 2 3. destruct (m (prune now b) !! key) as [tb|] eqn:E.
  - assert (∀ tb' : tokenBucket, prune now (set_bucket key tb' (prune now b)) = set_bucket key tb' (prune now b)) as Hp.
    { intros tb'. pose proof (prune_again now b) as Ha. unfold prune at 1 in Ha. unfold prune at 1. simpl.
      assert (size (<[key := tb']> (m (prune now b))) = size (m (prune now b))) as -> by (by rewrite map_size_insert_Some by eauto).
      destruct (_ && since_ge now (lastPrune (prune now b)) minute) eqn:Ec; [|done].
      apply (f_equal lastPrune) in Ha. simpl in Ha. rewrite <- Ha in Ec. unfold since_ge in Ec. rewrite Z.sub_diag in Ec.
      by rewrite andb_false_r in Ec. }
    destruct (last tb <? now) eqn:El; cbn [fst snd].
    + unfold refill. rewrite Hp. simpl. rewrite lookup_insert_eq. simpl. by rewrite Z.ltb_irrefl.
    + unfold refill. by rewrite prune_again, E, El.
  - cbn [fst snd]. unfold refill. set (b1 := set_bucket key _ _).
    assert (burst (prune now b1) = burst (prune now b)) as Hb by (rewrite (proj2 (prune_rate now b1)); done).
    destruct (m (prune now b1) !! key) as [tb'|] eqn:E'; [|by rewrite Hb].
    assert (m b1 !! key = Some tb') as E1.
    { unfold prune in E'. destruct (_ && _); [|done]. simpl in E'. by apply map_lookup_filter_Some in E' as [? _]. }
    unfold b1 in E1. simpl in E1. rewrite lookup_insert_eq in E1. injection E1 as <-. simpl. by rewrite Z.ltb_irrefl.
Qed.

(** The tokens [key] has now. *)
Definition avail (b : bucketSet) (key : string) (now : Z) : float := tokens (refill b key now).2.
Definition stored (b : bucketSet) (key : string) : option float := option_map tokens (m b !! key).

Lemma has_spec b key now cost : off b = false → has b key now cost = ((refill b key now).1, SFleb cost (avail b key now)).
Proof. intros Ho. unfold has, avail. rewrite Ho. by destruct (refill b key now). Qed.

Lemma refill_off b key now : off (refill b key now).1 = off b.
Proof. unfold off. by rewrite (proj1 (refill_rate b key now)). Qed.

Lemma take_after_has b key now cost : off b = false → SFleb cost (avail b key now) = true →
  (take (refill b key now).1 key now cost).2 = true ∧
  stored (take (refill b key now).1 key now cost).1 key = Some (fsub (avail b key now) cost).
Proof.
  intros Ho Hc. unfold take. rewrite refill_off, Ho. pose proof (refill_again b key now) as Ha.
  destruct (refill (refill b key now).1 key now) as [b2 tb]. simpl in Ha. subst tb.
  fold (avail b key now). rewrite (leb_not_ltb _ _ Hc). split; [done|]. unfold stored. simpl. by rewrite lookup_insert_eq.
Qed.

Lemma spend_after_has b key now cost : off b = false →
  stored (spend b key now cost) key = Some (fmax f_zero (fsub (avail b key now) cost)) ∧
  stored (spend (refill b key now).1 key now cost) key = Some (fmax f_zero (fsub (avail b key now) cost)).
Proof.
  intros Ho. unfold spend, avail. rewrite refill_off, Ho. pose proof (refill_again b key now) as Ha.
  split.
  - destruct (refill b key now) as [b1 tb]. unfold stored. simpl. by rewrite lookup_insert_eq.
  - destruct (refill (refill b key now).1 key now) as [b2 tb]. simpl in Ha. subst tb. unfold stored. simpl. by rewrite lookup_insert_eq.
Qed.

(** ** Control frames: lemmas *)

Section control.
Context (limit : Z).

(** The calls so far, (key, window), oldest first. *)
Definition calls_in (h : list (string * Z)) (key : string) (i : Z) : Z :=
  Z.of_nat (length (filter (λ c, c = (key, i)) h)).
Definition over_in (h : list (string * Z)) (key : string) (i : Z) : Prop := limit < calls_in h key i.

(** [s] windows in a row over the rate, ending at [i]. *)
Definition run_ok (h : list (string * Z)) (key : string) (i s : Z) : Prop :=
  0 <= s ∧ (∀ d, 0 <= d < s → over_in h key (i - d)) ∧ ¬ over_in h key (i - s).

Record window_ok (h : list (string * Z)) (key : string) (w : controlWindowState) : Prop := {
  w_pos : 0 < idx w;
  w_n : n w = calls_in h key (idx w);
  w_over : overIdx w = idx w ↔ over_in h key (idx w);
  w_le : overIdx w <= idx w;
  w_run : run_ok h key (if overIdx w =? idx w then idx w else idx w - 1) (strikes w);
  w_last : ∀ i, idx w < i → calls_in h key i = 0;
}.

(** An entry not kept has no call in the last two windows. *)
Definition control_ok (h : list (string * Z)) (cur : Z) (c : controls) : Prop :=
  ∀ key, match control c !! key with
         | Some w => window_ok h key w ∧ idx w <= cur
         | None => ∀ i, cur - 1 <= i → calls_in h key i = 0
         end.

Lemma calls_snoc h key i key' i' :
  calls_in (h ++ [(key', i')]) key i = calls_in h key i + (if bool_decide ((key', i') = (key, i)) then 1 else 0).
Proof.
  unfold calls_in. rewrite filter_app, length_app, filter_cons, filter_nil. case_bool_decide; case_decide; simpl; try done; lia.
Qed.

Lemma run_three h key i s : run_ok h key i s → (3 <= s ↔ over_in h key i ∧ over_in h key (i - 1) ∧ over_in h key (i - 2)).
Proof.
  intros (H0 & Hd & Hn). split.
  - intros Hs. split_and!; [specialize (Hd 0)|specialize (Hd 1)|specialize (Hd 2)]; rewrite ?Z.sub_0_r in Hd; apply Hd; lia.
  - intros (H1 & H2 & H3). destruct (decide (3 <= s)) as [|Hlt]; [done|]. exfalso. apply Hn.
    assert (s = 0 ∨ s = 1 ∨ s = 2) as [-> |[-> | ->]] by lia; by rewrite ?Z.sub_0_r.
Qed.

Lemma run_ext h h' key i s : (∀ j, j <= i → calls_in h' key j = calls_in h key j) → run_ok h key i s → run_ok h' key i s.
Proof.
  intros He (H0 & Hd & Hn). unfold run_ok, over_in in *. split_and!; [done|intros d Hd'; rewrite He by lia; auto|].
  rewrite He by lia. done.
Qed.

Lemma window_ok_other h key key' i w : key ≠ key' → window_ok h key w → window_ok (h ++ [(key', i)]) key w.
Proof.
  intros Hne. assert (∀ j, calls_in (h ++ [(key', i)]) key j = calls_in h key j) as He.
  { intros j. rewrite calls_snoc, bool_decide_false by congruence. lia. }
  intros []. constructor; unfold over_in in *; rewrite ?He; try done.
  - by eapply run_ext; [|exact w_run0].
  - intros j Hj. rewrite He. auto.
Qed.

(** One call of [key] in window [i], from the state of the key before. *)
Lemma window_step_ok h key i w : 0 < i → 0 <= limit → idx w <= i → window_ok h key w →
  let h' := h ++ [(key, i)] in let '(w', (ok, close)) := window_step limit i w in
  window_ok h' key w' ∧ idx w' = i ∧
  (ok = true ↔ calls_in h' key i <= limit) ∧
  (close = true ↔ over_in h' key i ∧ over_in h' key (i - 1) ∧ over_in h' key (i - 2)).
Proof.
  intros Hi Hlim Hle Hw h'. unfold window_step.
  assert (∀ j, j ≠ i → calls_in h' key j = calls_in h key j) as Hother.
  { intros j Hj. unfold h'. rewrite calls_snoc, bool_decide_false by congruence. lia. }
  assert (calls_in h' key i = calls_in h key i + 1) as Hself by (unfold h'; rewrite calls_snoc, bool_decide_true by done; lia).
  (* the state on entering window i *)
  set (w0 := if idx w =? i then w else _).
  assert (idx w0 = i ∧ n w0 = calls_in h key i ∧ (overIdx w0 = i ↔ over_in h key i) ∧ overIdx w0 <= i ∧
    run_ok h key (if overIdx w0 =? i then i else i - 1) (strikes w0) ∧ ∀ j, i < j → calls_in h key j = 0) as (Ei & En & Eo & Ele & Er & El).
  { subst w0. destruct Hw. destruct (Z.eqb_spec (idx w) i) as [E|Hne]; [rewrite <- E; split_and!; done|]. cbn [idx n overIdx strikes].
    assert (calls_in h key i = 0) as H0 by (apply w_last0; lia). assert (¬ over_in h key i) as Hno by (unfold over_in; lia).
    split_and!; [done|done| |lia| |intros j Hj; apply w_last0; lia].
    - split; [lia|]. intros H. done.
    - rewrite (proj2 (Z.eqb_neq (overIdx w) i)) by lia. destruct (Z.eqb_spec (overIdx w) (i - 1)) as [E1|E1].
      + assert (idx w = i - 1) as E2 by lia. rewrite E2, E1, Z.eqb_refl in w_run0. done.
      + split_and!; [lia|lia|]. rewrite Z.sub_0_r. destruct (decide (idx w = i - 1)) as [E2|E2].
        * rewrite <- E2, <- w_over0. lia.
        * unfold over_in. rewrite w_last0 by lia. lia. }
  clearbody w0. cbv zeta. cbn [idx n overIdx strikes]. rewrite En.
  assert (∀ s, run_ok h key (i - 1) s → run_ok h' key (i - 1) s) as Hprev by (intros s; apply run_ext; intros; apply Hother; lia).
  assert (∀ j, i < j → calls_in h' key j = 0) as Hlater by (intros j Hj; rewrite Hother by lia; auto).
  destruct (Z.leb_spec (calls_in h key i + 1) limit) as [Hok|Hover].
  - assert (¬ over_in h key i) as Hn0 by (unfold over_in; lia). assert (overIdx w0 ≠ i) as Hno by (rewrite Eo; done).
    rewrite (proj2 (Z.eqb_neq _ _) Hno) in Er.
    split_and!; [constructor; cbn [idx n overIdx strikes]; rewrite ?Ei; try done; try lia| |split; [lia|done]|].
    + unfold over_in. rewrite Hself. lia.
    + rewrite (proj2 (Z.eqb_neq _ _) Hno). auto.
    + done.
    + split; [done|]. unfold over_in. rewrite Hself. lia.
  - assert (over_in h' key i) as Hov by (unfold over_in; lia).
    set (w1 := if overIdx w0 =? i then _ else _).
    assert (idx w1 = i ∧ n w1 = calls_in h' key i ∧ overIdx w1 = i ∧ run_ok h' key i (strikes w1)) as (F1 & F2 & F3 & F4).
    { subst w1. destruct (Z.eqb_spec (overIdx w0) i) as [E|E]; cbn [idx n overIdx strikes]; split_and!; try done; try lia.
      - destruct Er as (H0 & Hd & Hn). assert (strikes w0 ≠ 0) as Hnz by (intros Hz; apply Hn; rewrite Hz, Z.sub_0_r; by apply Eo).
        split_and!; [done| |].
        + intros d Hd'. destruct (decide (d = 0)) as [->|]; [by rewrite Z.sub_0_r|]. unfold over_in in *. rewrite Hother by lia. auto.
        + unfold over_in in *. rewrite Hother by lia. done.
      - destruct (Hprev _ Er) as (H0 & Hd & Hn). split_and!; [lia| |].
        + intros d Hd'. destruct (decide (d = 0)) as [->|]; [by rewrite Z.sub_0_r|].
          replace (i - d) with (i - 1 - (d - 1)) by lia. apply Hd. lia.
        + replace (i - (strikes w0 + 1)) with (i - 1 - strikes w0) by lia. done. }
    clearbody w1. split_and!; [constructor; rewrite ?F1, ?F2, ?F3, ?Z.eqb_refl; done|done| |].
    + split; [done|lia].
    + rewrite <- (run_three h' key i _ F4). unfold controlStrikeLimit. apply Z.leb_le.
Qed.

(** The state after the calls [h], each with its time. *)
Definition windows (calls : list (string * Z)) : list (string * Z) := map (λ c, (c.1, Z.quot c.2 controlWindow)) calls.
Definition run_calls (calls : list (string * Z)) : controls :=
  fold_left (λ c kt, (controlAllowed kt.1 kt.2 c).1) calls (MkControls limit ∅ None).

Lemma prune_control_ok h cur i c c' : control_ok h cur c → cur <= i →
  (c' = c ∨ control c' = filter (λ kw, i - 1 <= idx kw.2) (control c)) → control_ok h i c'.
Proof.
  intros Hc Hcur [->|E] key.
  - specialize (Hc key). destruct (control c !! key); [destruct Hc; split; [done|lia]|]. intros j Hj. apply Hc. lia.
  - rewrite E. specialize (Hc key). destruct (filter _ _ !! key) as [w|] eqn:Ef.
    + apply map_lookup_filter_Some in Ef as [Ew _]. rewrite Ew in Hc. destruct Hc. split; [done|lia].
    + intros j Hj. destruct (control c !! key) as [w|] eqn:Ew; [|apply Hc; lia].
      assert (¬ i - 1 <= idx w) as Hlt.
      { intros Hle. by rewrite (map_lookup_filter_Some_2 _ (control c) key w Ew Hle) in Ef. }
      destruct Hc as [[] _]. apply w_last0. lia.
Qed.
End control.

(** The calls' windows never go back, and the clock is past the epoch. *)
Fixpoint ordered (t : Z) (calls : list (string * Z)) : Prop :=
  match calls with [] => True | c :: calls => t <= c.2 ∧ ordered c.2 calls end.

Lemma ordered_snoc t calls k now : ordered t (calls ++ [(k, now)]) ↔ ordered t calls ∧ t <= now ∧ ∀ c, c ∈ calls → c.2 <= now.
Proof.
  revert t. induction calls as [|c calls IH]; intros t; simpl.
  - split; [intros [H _]; split_and!; [done|done|intros c Hc; by apply not_elem_of_nil in Hc]|by intros (_ & H & _)].
  - rewrite IH. split.
    + intros (H1 & H2 & H3 & H4). split_and!; [done..|lia|]. intros x [->|Hx]%elem_of_cons; [done|by apply H4].
    + intros ((H1 & H2) & H3 & H4). split_and!; [done..|apply H4; by left|]. intros x Hx. apply H4. by right.
Qed.

Lemma quot_window a b : 0 <= a <= b → Z.quot a controlWindow <= Z.quot b controlWindow.
Proof. intros H. apply Z.quot_le_mono; [reflexivity|lia]. Qed.

Lemma quot_pos now : controlWindow <= now → 0 < Z.quot now controlWindow.
Proof.
  intros H. pose proof (quot_window controlWindow now ltac:(unfold controlWindow, minute, second in *; lia)) as Hq.
  rewrite Z.quot_same in Hq by done. lia.
Qed.

Lemma ordered_nonneg t calls : 0 <= t → ordered t calls → ∀ x, x ∈ calls → 0 <= x.2.
Proof.
  revert t. induction calls as [|c calls IH]; intros t Ht Ho x; [by intros ?%not_elem_of_nil|].
  destruct Ho as [H1 H2]. intros [->|Hx]%elem_of_cons; [lia|]. apply (IH c.2); [lia|done|done].
Qed.

Lemma fresh_window limit h key i : 0 < i → (∀ j, i - 1 <= j → calls_in h key j = 0) → 0 <= limit →
  window_ok limit h key (MkWindow i 0 0 0).
Proof.
  intros Hi H0 Hl. constructor; cbn [idx n overIdx strikes]; try done; try lia.
  - by rewrite H0 by lia.
  - unfold over_in. rewrite H0 by lia. lia.
  - rewrite (proj2 (Z.eqb_neq 0 i)) by lia. split_and!; [lia|lia|]. unfold over_in. rewrite H0 by lia. lia.
  - intros j Hj. apply H0. lia.
Qed.

Lemma control_step limit h cur key now c : 0 < limit → controlPerMin c = limit → control_ok limit h cur c →
  let i := Z.quot now controlWindow in 0 < i → cur <= i → let h' := h ++ [(key, i)] in
  let '(c', (ok, close)) := controlAllowed key now c in
  control_ok limit h' i c' ∧ controlPerMin c' = limit ∧ (ok = true ↔ calls_in h' key i <= limit) ∧
  (close = true ↔ over_in limit h' key i ∧ over_in limit h' key (i - 1) ∧ over_in limit h' key (i - 2)).
Proof.
  intros Hl Hc Hok i Hi Hcur h'. unfold controlAllowed. rewrite Hc, (proj2 (Z.leb_gt limit 0)) by done. fold i. cbv zeta.
  set (c1 := if _ && _ then _ else c).
  assert (control_ok limit h i c1 ∧ controlPerMin c1 = limit) as [Hok1 Hc1].
  { split; [|unfold c1; by case_match]. eapply prune_control_ok; [exact Hok|done|]. unfold c1. case_match; [by right|by left]. }
  assert (window_ok limit h key (default (MkWindow i 0 0 0) (control c1 !! key)) ∧ idx (default (MkWindow i 0 0 0) (control c1 !! key)) <= i) as [Hw Hle].
  { specialize (Hok1 key). destruct (control c1 !! key); simpl; [done|]. split; [apply fresh_window; [done|done|lia]|done]. }
  pose proof (window_step_ok limit h key i _ Hi ltac:(lia) Hle Hw) as Hs. fold h' in Hs. rewrite Hc1.
  destruct (window_step limit i _) as [w [ok close]]. destruct Hs as (Hw' & Hi' & H1 & H2). split_and!; [|done..].
  intros key'. simpl. destruct (decide (key' = key)) as [->|Hne]; [rewrite lookup_insert_eq; split; [done|lia]|].
  rewrite lookup_insert_ne by done. specialize (Hok1 key'). destruct (control c1 !! key').
  - destruct Hok1. split; [by apply window_ok_other|done].
  - intros j Hj. unfold h'. rewrite calls_snoc, bool_decide_false by congruence. rewrite Hok1 by lia. lia.
Qed.

Lemma run_calls_ok limit calls : 0 < limit → ordered controlWindow calls →
  let c := run_calls limit calls in controlPerMin c = limit ∧
  ∀ cur, (∀ x, x ∈ calls → Z.quot x.2 controlWindow <= cur) → control_ok limit (windows calls) cur c.
Proof.
  intros Hl. induction calls as [|[key now] calls IH] using rev_ind; intros Ho.
  { split; [done|]. intros cur _ key. change (control _ !! key) with (None : option controlWindowState). done. }
  apply ordered_snoc in Ho as (Ho & Hnow & Hlast). destruct (IH Ho) as [Hc Hok]. simpl in Hlast.
  pose proof (quot_pos now Hnow) as Hi.
  unfold run_calls, windows. rewrite fold_left_app, map_app. simpl.
  pose proof (ordered_nonneg controlWindow _ ltac:(done) Ho) as Hpos.
  pose proof (control_step limit (windows calls) (Z.quot now controlWindow) key now (run_calls limit calls) Hl Hc) as Hs.
  ospecialize* Hs; [apply Hok; intros x Hx; apply quot_window; split; auto|done|done|].
  unfold run_calls in Hs. destruct (controlAllowed key now _) as [c' [ok close]]. destruct Hs as (H1 & H2 & _).
  split; [done|]. intros cur Hcur. eapply (prune_control_ok limit _ (Z.quot now controlWindow) cur c'); [exact H1| |by left].
  apply (Hcur (key, now)). apply elem_of_app. right. by left.
Qed.

(** ** Admission: executions *)

Abbreviation adm_conn := (string * bool)%type.   (* its prefix, and whether it is still authenticating *)

(** An admitted connection finishes authentication once, then ends once. *)
Inductive adm_step (a : admission) (cs : gmap Z adm_conn) : admission → gmap Z adm_conn → Prop :=
| adm_admit i prefix now a' : cs !! i = None → admitUpgrade prefix now a = (a', None) → adm_step a cs a' (<[i := (prefix, true)]> cs)
| adm_refused prefix now a' r : admitUpgrade prefix now a = (a', Some r) → adm_step a cs a' cs
| adm_auth i prefix failed now : cs !! i = Some (prefix, true) → adm_step a cs (authDone prefix failed now a) (<[i := (prefix, false)]> cs)
| adm_end i prefix : cs !! i = Some (prefix, false) → adm_step a cs (release prefix a) (delete i cs).

Inductive adm_reach (mc mu : Z) : admission → gmap Z adm_conn → Prop :=
| adm_init up af : adm_reach mc mu (MkAdmission mc mu up af ∅ 0) ∅
| adm_next a cs a' cs' : adm_reach mc mu a cs → adm_step a cs a' cs' → adm_reach mc mu a' cs'.

Definition of_prefix (prefix : string) (c : adm_conn) : Z := if bool_decide (c.1 = prefix) then 1 else 0.
Definition authing (c : adm_conn) : Z := if c.2 then 1 else 0.

Record adm_ok (mc mu : Z) (a : admission) (cs : gmap Z adm_conn) : Prop := {
  a_max : maxConnsPerPrefix a = mc ∧ maxUnauth a = mu;
  a_open : ∀ p, open_conns p a = msum (λ _, of_prefix p) cs;
  a_unauth : unauth a = msum (λ _, authing) cs;
  a_open_max : 0 < mc → ∀ p, open_conns p a <= mc;
  a_unauth_max : 0 < mu → unauth a <= mu;
}.

Lemma open_insert p q n a : open_conns p (MkAdmission (maxConnsPerPrefix a) (maxUnauth a) (upgrades a) (authFails a)
  (<[q := n]> (prefixConns a)) (unauth a)) = if bool_decide (q = p) then n else open_conns p a.
Proof.
  unfold open_conns. simpl. case_bool_decide; subst; [by rewrite lookup_insert_eq|by rewrite lookup_insert_ne].
Qed.

Lemma adm_step_ok mc mu a cs a' cs' : adm_ok mc mu a cs → adm_step a cs a' cs' → adm_ok mc mu a' cs'.
Proof.
  intros [[Em Eu] Ho Hu Hom Hum] Hs.
  assert (∀ p c i q b, cs !! i = None → c = (q, b) → msum (λ _, of_prefix p) (<[i := c]> cs) = of_prefix p c + open_conns p a) as Hnew.
  { intros p c i q b Hi ->. by rewrite msum_insert_new, Ho. }
  destruct Hs as [i prefix now a' Hi E|prefix now a' r E|i prefix failed now Hi|i prefix Hi].
  - unfold admitUpgrade in E. destruct (_ && negb (allow _ _ _)); [done|]. destruct (take _ _ _ _) as [up []]; [|done]. cbn in E.
    destruct (_ && (maxConnsPerPrefix a <=? _)) eqn:E1; [done|]. destruct (_ && (maxUnauth a <=? _)) eqn:E2; [done|]. injection E as <-.
    constructor; simpl; [done|..].
    + intros p. rewrite (Hnew p _ i prefix true) by done. unfold open_conns, of_prefix. simpl.
      case_bool_decide; subst; [rewrite lookup_insert_eq; simpl; unfold open_conns; lia|rewrite lookup_insert_ne by done; lia].
    + rewrite msum_insert_new by done. change (authing (prefix, true)) with 1. rewrite Hu. lia.
    + intros Hp p. specialize (Hom Hp). unfold open_conns in *. simpl. destruct (decide (p = prefix)) as [->|].
      * rewrite lookup_insert_eq. simpl. rewrite Em in E1. destruct (Z.ltb_spec 0 mc); [|lia]. simpl in E1. bprop. lia.
      * rewrite lookup_insert_ne by done. apply Hom.
    + intros Hp. rewrite Eu in E2. destruct (Z.ltb_spec 0 mu); [|lia]. simpl in E2. bprop. lia.
  - assert (maxConnsPerPrefix a' = maxConnsPerPrefix a ∧ maxUnauth a' = maxUnauth a ∧ prefixConns a' = prefixConns a ∧ unauth a' = unauth a)
      as (E1 & E2 & E3 & E4).
    { unfold admitUpgrade in E. destruct (_ && negb (allow _ _ _)); [by injection E as <- _|]. destruct (take _ _ _ _) as [up []]; cbn in E;
        repeat case_match; by simplify_eq. }
    constructor; unfold open_conns in *; rewrite ?E1, ?E2, ?E3, ?E4; done.
  - constructor; simpl; try done.
    + intros p. rewrite (msum_insert _ _ _ _ _ Hi), <- Ho. unfold of_prefix, open_conns. simpl. lia.
    + rewrite (msum_insert _ _ _ _ _ Hi). change (authing (prefix, true)) with 1. change (authing (prefix, false)) with 0. lia.
    + lia.
  - assert (∀ p, open_conns p (release prefix a) = msum (λ _, of_prefix p) (delete i cs)) as Hop.
    { intros p. rewrite (msum_delete _ _ _ _ Hi), <- Ho. unfold release, open_conns, of_prefix. simpl.
      fold (open_conns prefix a). assert (1 <= open_conns prefix a) as H1.
      { rewrite Ho. pose proof (msum_ge (λ _, of_prefix prefix) cs i _ (λ k c _, ltac:(unfold of_prefix; case_bool_decide; lia)) Hi) as Hge.
        unfold of_prefix in Hge at 1. simpl in Hge. by rewrite bool_decide_true in Hge. }
      destruct (Z.leb_spec (open_conns prefix a - 1) 0); case_bool_decide; subst.
      - rewrite lookup_delete_eq. simpl. fold (open_conns p a). lia.
      - rewrite lookup_delete_ne by done. lia.
      - rewrite lookup_insert_eq. simpl. fold (open_conns p a). lia.
      - rewrite lookup_insert_ne by done. lia. }
    constructor; simpl; try done.
    + rewrite (msum_delete _ _ _ _ Hi). change (authing (prefix, false)) with 0. rewrite Hu. lia.
    + intros Hp p. specialize (Hom Hp p). rewrite Hop, (msum_delete _ _ _ _ Hi), <- Ho. unfold of_prefix. case_bool_decide; lia.
Qed.

Lemma adm_reach_ok mc mu a cs : adm_reach mc mu a cs → adm_ok mc mu a cs.
Proof.
  induction 1 as [up af|a cs a' cs' _ IH Hs]; [|by eapply adm_step_ok].
  constructor; simpl; try done; try lia. intros ? p. change (open_conns p _) with 0. lia.
Qed.

(** ** Wait lists: the invariant *)

Definition prefix_of (r : redelivery) (i : Z) : string := c_prefix (get_conn i r).
Definition is_waiting (r : redelivery) (i : Z) : bool := waiting (get_conn i r).
Definition is_closed (r : redelivery) (i : Z) : bool := waitClosed (get_conn i r).

Record wait_ok (r : redelivery) : Prop := {
  wait_lists : ∀ p l, redeliverWait r !! p = Some l → l ≠ [] ∧ StronglySorted Z.lt (map (ticket_of r) l) ∧
    ∀ i, i ∈ l → prefix_of r i = p ∧ is_waiting r i = true;
  wait_listed : ∀ i, is_waiting r i = true → i ∈ wait_of (prefix_of r i) r;
  wait_tickets : ∀ i, 0 <= ticket_of r i <= waitTickets r ∧ (is_waiting r i = true → 0 < ticket_of r i);
  wait_unique : ∀ i j, ticket_of r i = ticket_of r j → ticket_of r i ≠ 0 → i = j;
  wait_served : ∀ p s, redeliverServed r !! p = Some s → s ≠ ∅ ∧
    ∀ i, is_Some (s !! i) → prefix_of r i = p ∧ is_waiting r i = false ∧ is_closed r i = false ∧ 0 < ticket_of r i;
  wait_closed : ∀ i, is_closed r i = true → is_waiting r i = false;
}.

Lemma get_set i j c r : get_conn j (set_rconn i c r) = if bool_decide (i = j) then c else get_conn j r.
Proof. unfold get_conn. simpl. case_bool_decide; subst; [by rewrite lookup_insert_eq|by rewrite lookup_insert_ne]. Qed.

(** The invariant reads only the lists and four fields of a connection. *)
Lemma wait_ok_view r r' : redeliverWait r' = redeliverWait r → redeliverServed r' = redeliverServed r →
  waitTickets r' = waitTickets r →
  (∀ i, prefix_of r' i = prefix_of r i ∧ is_waiting r' i = is_waiting r i ∧ is_closed r' i = is_closed r i ∧ ticket_of r' i = ticket_of r i) →
  wait_ok r → wait_ok r'.
Proof.
  intros Ew Es Et Hv [H1 H2 H3 H4 H5 H6].
  assert (∀ i, prefix_of r' i = prefix_of r i) as Vp by (intros i; apply Hv). assert (∀ i, is_waiting r' i = is_waiting r i) as Vw by (intros i; apply Hv).
  assert (∀ i, is_closed r' i = is_closed r i) as Vc by (intros i; apply Hv). assert (∀ i, ticket_of r' i = ticket_of r i) as Vt by (intros i; apply Hv).
  constructor; unfold wait_of; rewrite ?Ew, ?Es, ?Et.
  - intros p l Hl. destruct (H1 p l Hl) as (Hne & Hs & Hi). split_and!; [done| |intros i Hin; rewrite Vp, Vw; auto].
    by rewrite (map_ext _ _ Vt).
  - intros i. rewrite Vw, Vp. apply H2.
  - intros i. rewrite Vw, Vt. apply H3.
  - intros i j. rewrite !Vt. apply H4.
  - intros p s Hs. destruct (H5 p s Hs) as [Hne Hi]. split; [done|]. intros i Hin. rewrite Vp, Vw, Vc, Vt. auto.
  - intros i. rewrite Vc, Vw. apply H6.
Qed.

Lemma wait_of_in r p i : wait_ok r → i ∈ wait_of p r → prefix_of r i = p ∧ is_waiting r i = true.
Proof.
  intros Hr Hi. unfold wait_of in Hi. destruct (redeliverWait r !! p) as [l|] eqn:E; simpl in Hi; [|by apply not_elem_of_nil in Hi].
  by apply (wait_lists _ Hr p l).
Qed.

Lemma wait_of_sorted r p : wait_ok r → StronglySorted Z.lt (map (ticket_of r) (wait_of p r)).
Proof.
  intros Hr. unfold wait_of. destruct (redeliverWait r !! p) as [l|] eqn:E; simpl; [|constructor]. by apply (wait_lists _ Hr p l).
Qed.

Lemma sorted_nodup r l : StronglySorted Z.lt (map (ticket_of r) l) → NoDup l.
Proof.
  induction l as [|i l IH]; intros Hs; constructor; apply StronglySorted_inv in Hs as [Hs Hi]; [|by apply IH].
  intros Hin. rewrite Forall_forall in Hi. specialize (Hi (ticket_of r i)). assert (ticket_of r i < ticket_of r i); [|lia].
  apply Hi. apply list_elem_of_fmap. by exists i.
Qed.

Lemma not_served_lookup r i : wait_ok r → served_of (prefix_of r i) r !! i = None → ∀ p s, redeliverServed r !! p = Some s → s !! i = None.
Proof.
  intros Hr Hn p s Hs. destruct (s !! i) as [t|] eqn:E; [|done]. destruct (wait_served _ Hr p s Hs) as [_ Hi].
  destruct (Hi i ltac:(by eexists)) as [Hp _]. unfold served_of in Hn. rewrite Hp, Hs in Hn. simpl in Hn. congruence.
Qed.

(** A connection put on its list, at a place that keeps the tickets sorted. *)
Lemma wait_ok_join r r' i p l1 l2 t T : wait_ok r → is_waiting r i = false → is_closed r i = false → prefix_of r i = p →
  served_of p r !! i = None → wait_of p r = l1 ++ l2 → 0 < t <= T → waitTickets r <= T →
  (∀ j, j ≠ i → ticket_of r j = t → False) →
  Forall (λ j, ticket_of r j < t) l1 → Forall (λ j, t < ticket_of r j) l2 →
  r' = MkRedelivery (redeliverKey r) (redeliverPrefix r) (<[p := l1 ++ [i] ++ l2]> (redeliverWait r)) (redeliverServed r) T
         (<[i := with_ticket t (with_waiting true (get_conn i r))]> (rconns r)) → wait_ok r'.
Proof.
  intros Hr Hw Hc Hp Hns Hl Ht HT Huniq Hl1 Hl2 ->. set (c := with_ticket t (with_waiting true (get_conn i r))).
  assert (∀ j, get_conn j (MkRedelivery (redeliverKey r) (redeliverPrefix r) (<[p := l1 ++ [i] ++ l2]> (redeliverWait r))
    (redeliverServed r) T (<[i := c]> (rconns r))) = if bool_decide (i = j) then c else get_conn j r) as Hg by (intros j; exact (get_set i j c r)).
  assert (∀ j, j ∈ l1 ++ l2 → j ≠ i ∧ prefix_of r j = p ∧ is_waiting r j = true) as Hold.
  { intros j Hj. rewrite <- Hl in Hj. destruct (wait_of_in r p j Hr Hj) as [? ?]. split_and!; [|done..]. intros ->. congruence. }
  pose proof (wait_of_sorted r p Hr) as Hs. rewrite Hl in Hs.
  constructor; unfold prefix_of, is_waiting, is_closed, ticket_of, wait_of; cbn [redeliverWait redeliverServed waitTickets].
  - intros p' l. destruct (decide (p' = p)) as [->|Hne]; [rewrite lookup_insert_eq; intros [= <-]|rewrite lookup_insert_ne by done].
    + split_and!; [by destruct l1| |].
      * assert (∀ l, (∀ j, j ∈ l → j ≠ i) → map (λ j, waitTicket (if bool_decide (i = j) then c else get_conn j r)) l = map (ticket_of r) l) as Hm.
        { intros l Hni. apply map_ext_in. intros j Hj%list_elem_of_In. rewrite bool_decide_false; [done|]. intros ->. by apply (Hni j). }
        rewrite (map_ext _ (λ j, waitTicket (if bool_decide (i = j) then c else get_conn j r))) by (intros j; by rewrite Hg).
        rewrite map_app, (Hm l1) by (intros j Hj; apply Hold, elem_of_app; by auto). cbn [map app].
        rewrite (Hm l2) by (intros j Hj; apply Hold, elem_of_app; by auto). rewrite bool_decide_true by done.
        change (waitTicket c) with t. rewrite map_app in Hs. apply StronglySorted_app in Hs as (H12 & Hs1 & Hs2).
        rewrite Forall_forall in Hl1, Hl2. apply StronglySorted_app. split_and!; [|done|].
        -- intros x y Hx [->|Hy]%elem_of_cons; [|by apply H12]. apply list_elem_of_fmap in Hx as (j & -> & Hj). by apply Hl1.
        -- constructor; [done|]. apply Forall_forall. intros y (j & -> & Hj)%list_elem_of_fmap. by apply Hl2.
      * intros j Hj. rewrite Hg. case_bool_decide as E; [by subst|].
        assert (j ∈ l1 ++ l2) as Hj' by set_solver. by apply Hold.
    + intros Hl'. destruct (wait_lists _ Hr p' l Hl') as (Hne' & Hs' & Hi').
      assert (∀ j, j ∈ l → j ≠ i) as Hni by (intros j Hj ->; destruct (Hi' i Hj); congruence).
      split_and!; [done| |].
      * rewrite (map_ext_in _ (ticket_of r)); [done|]. intros j Hj%list_elem_of_In. rewrite Hg, bool_decide_false; [done|]. intros ->. by apply (Hni j).
      * intros j Hj. rewrite Hg, bool_decide_false by (intros ->; by apply (Hni j)). by apply Hi'.
  - intros j. rewrite Hg. case_bool_decide as E.
    + subst j. intros _. change (c_prefix c) with (prefix_of r i). rewrite Hp, lookup_insert_eq. simpl. apply elem_of_app. right. by left.
    + intros Hj. pose proof (wait_listed _ Hr j Hj) as Hin. fold (prefix_of r j). destruct (decide (prefix_of r j = p)) as [E'|E'].
      * rewrite E', lookup_insert_eq. simpl. rewrite E', Hl in Hin. rewrite elem_of_app in *. destruct Hin; [by left|right; by right].
      * by rewrite lookup_insert_ne.
  - intros j. rewrite Hg. case_bool_decide; [simpl; lia|]. destruct (wait_tickets _ Hr j) as [H1 H2]. unfold ticket_of, is_waiting in *. split; [lia|auto].
  - intros j k. rewrite !Hg. repeat case_bool_decide; subst; try done.
    + intros E _. symmetry in E. exfalso. by eapply Huniq; [|exact E].
    + intros E _. exfalso. by eapply Huniq; [|exact E].
    + apply (wait_unique _ Hr).
  - intros p' s Hs'. destruct (wait_served _ Hr p' s Hs') as [Hne' Hi']. split; [done|]. intros j Hj. rewrite Hg, bool_decide_false; [by apply Hi'|].
    intros ->. rewrite (not_served_lookup r j Hr) with (p := p') (s := s) in Hj; [by destruct Hj|by rewrite Hp|done].
  - intros j. rewrite Hg. case_bool_decide; [subst; simpl; unfold is_closed in Hc; by rewrite Hc|apply (wait_closed _ Hr)].
Qed.

Lemma bsearch_spec fuel ts t i j : StronglySorted Z.lt ts → (i <= j <= length ts)%nat → (j - i < fuel)%nat →
  Forall (λ x, x < t) (firstn i ts) → Forall (λ x, t <= x) (drop j ts) →
  let k := bsearch fuel ts t i j in Forall (λ x, x < t) (firstn k ts) ∧ Forall (λ x, t <= x) (drop k ts).
Proof.
  revert i j. induction fuel as [|fuel IH]; intros i j Hs Hij Hf H1 H2; [lia|]. cbn [bsearch].
  destruct (Nat.ltb_spec i j) as [Hlt|]; [|assert (i = j) as <- by lia; done].
  set (h := ((i + j) / 2)%nat).
  assert (i <= h < j)%nat as Hh by (subst h; pose proof (Nat.div_le_mono (2 * i) (i + j) 2 ltac:(lia) ltac:(lia)) as Ha;
    rewrite (Nat.mul_comm 2), Nat.div_mul in Ha by lia; split; [done|]; apply Nat.Div0.div_lt_upper_bound; lia).
  destruct (lookup_lt_is_Some_2 ts h ltac:(lia)) as [x Hx]. assert (nth h ts 0 = x) as -> by (by apply nth_lookup_Some).
  pose proof (take_drop_middle ts h x Hx) as Hm. assert (StronglySorted Z.lt (firstn h ts ++ x :: drop (S h) ts)) as Hs' by (by rewrite Hm).
  apply StronglySorted_app in Hs' as (Hlow & _ & Hhigh). apply StronglySorted_inv in Hhigh as [_ Hhigh].
  destruct (Z.ltb_spec x t) as [Hxt|Hxt].
  - apply IH; [done|lia|lia| |done]. rewrite (take_S_r _ _ _ Hx). apply Forall_app. split; [|by apply Forall_singleton].
    apply Forall_forall. intros y Hy. specialize (Hlow y x Hy (list_elem_of_here _ _)). lia.
  - apply IH; [done|lia|lia|done|]. rewrite (drop_S _ _ _ Hx). constructor; [done|].
    rewrite Forall_forall in *. intros y Hy. specialize (Hhigh y Hy). lia.
Qed.

Lemma sorted_split ts t k l r : StronglySorted Z.lt ts → ts = map (ticket_of r) l → (∀ j, j ∈ l → ticket_of r j ≠ t) →
  Forall (λ x, x < t) (firstn k ts) → Forall (λ x, t <= x) (skipn k ts) →
  Forall (λ j, ticket_of r j < t) (firstn k l) ∧ Forall (λ j, t < ticket_of r j) (skipn k l).
Proof.
  intros Hs -> Hne H1 H2. rewrite firstn_map in H1. rewrite skipn_map in H2. rewrite Forall_forall in H1, H2. split; apply Forall_forall; intros j Hj.
  - apply H1. apply list_elem_of_fmap. by exists j.
  - assert (j ∈ l) as Hjl by (rewrite <- (firstn_skipn k l); apply elem_of_app; by right). specialize (Hne j Hjl).
    assert (t <= ticket_of r j); [|lia]. apply H2. apply list_elem_of_fmap. by exists j.
Qed.

Lemma join_ok i back r : wait_ok r → served_of (prefix_of r i) r !! i = None → wait_ok (joinWaitLocked i back r).
Proof.
  intros Hr Hns. unfold joinWaitLocked. set (c := get_conn i r).
  destruct (waiting c) eqn:Hw; [done|]. destruct (waitClosed c) eqn:Hc; [done|]. cbn [orb]. cbv zeta.
  destruct (wait_tickets _ Hr i) as [Ht _]. change (ticket_of r i) with (waitTicket c) in Ht.
  destruct (negb back || (waitTicket c =? 0)) eqn:Eb.
  - eapply (wait_ok_join r _ i (c_prefix c) (wait_of (c_prefix c) r) [] (waitTickets r + 1) (waitTickets r + 1));
      try done; try lia; [by rewrite app_nil_r|..].
    + intros j _ E. destruct (wait_tickets _ Hr j). lia.
    + apply Forall_forall. intros j _. destruct (wait_tickets _ Hr j). lia.
    + unfold set_rconn. simpl. f_equal. by rewrite insert_insert_eq.
  - bprop. set (l := wait_of (c_prefix c) r). set (r1 := set_rconn i (with_waiting true c) r).
    assert (map (ticket_of r1) l = map (ticket_of r) l) as Em.
    { apply map_ext. intros j. unfold ticket_of, r1. rewrite get_set. case_bool_decide; by subst. }
    rewrite Em. pose proof (wait_of_sorted r (c_prefix c) Hr) as Hs. fold l in Hs.
    assert (length l = length (map (ticket_of r) l)) as El by (by rewrite length_map).
    pose proof (bsearch_spec (S (length l)) (map (ticket_of r) l) (waitTicket c) 0 (length l) Hs ltac:(lia) ltac:(lia)) as Hb.
    ospecialize* Hb; [constructor|by rewrite El, drop_all|]. set (k := bsearch _ _ _ _ _) in *. destruct Hb as [Hb1 Hb2].
    assert (∀ j, j ≠ i → ticket_of r j = waitTicket c → False) as Hu.
    { intros j Hj E. apply Hj. apply (wait_unique _ Hr); [done|]. rewrite E. done. }
    destruct (sorted_split _ (waitTicket c) k l r Hs eq_refl) as [Hl1 Hl2]; [|done|done|].
    { intros j Hj E. apply (Hu j); [|done]. intros ->. destruct (wait_of_in r _ _ Hr Hj) as [_ Hwi].
      unfold is_waiting in Hwi. fold c in Hwi. congruence. }
    eapply (wait_ok_join r _ i (c_prefix c) (firstn k l) (skipn k l) (waitTicket c) (waitTickets r)); try done; try lia.
    fold l. by rewrite firstn_skipn.
Qed.

(** A connection leaves its list. *)
Lemma wait_ok_leave r r' i l : wait_ok r → let p := prefix_of r i in is_waiting r i = true →
  Permutation (wait_of p r) (i :: l) → l `sublist_of` wait_of p r →
  r' = MkRedelivery (redeliverKey r) (redeliverPrefix r) (match l with [] => delete p (redeliverWait r) | _ => <[p := l]> (redeliverWait r) end)
         (redeliverServed r) (waitTickets r) (<[i := with_waiting false (get_conn i r)]> (rconns r)) → wait_ok r'.
Proof.
  intros Hr p Hw Hperm Hsub ->. set (c := with_waiting false (get_conn i r)).
  assert (∀ w j, get_conn j (MkRedelivery (redeliverKey r) (redeliverPrefix r) w (redeliverServed r) (waitTickets r) (<[i := c]> (rconns r)))
    = if bool_decide (i = j) then c else get_conn j r) as Hg by (intros w j; exact (get_set i j c r)).
  pose proof (wait_of_sorted r p Hr) as Hs.
  assert (i ∉ l) as Hil.
  { intros Hin. pose proof (sorted_nodup _ _ Hs) as Hnd. rewrite Hperm in Hnd. by apply NoDup_cons in Hnd as [? _]. }
  assert (∀ p', match l with [] => delete p (redeliverWait r) | _ => <[p := l]> (redeliverWait r) end !! p' =
    if bool_decide (p' = p) then match l with [] => None | _ => Some l end else redeliverWait r !! p') as Hlook.
  { intros p'. case_bool_decide; destruct l; subst; by rewrite ?lookup_delete_eq, ?lookup_insert_eq, ?lookup_delete_ne, ?lookup_insert_ne. }
  assert (∀ j, ticket_of r j = waitTicket (if bool_decide (i = j) then c else get_conn j r)) as Htk.
  { intros j. by case_bool_decide; subst. }
  constructor; unfold prefix_of, is_waiting, is_closed, ticket_of, wait_of; cbn [redeliverWait redeliverServed waitTickets].
  - intros p' l'. rewrite Hlook. case_bool_decide as E.
    + subst p'. intros Hl'. assert (l' = l ∧ l ≠ []) as [-> Hne] by (destruct l; by simplify_eq). split_and!; [done| |].
      * rewrite (map_ext _ (ticket_of r)) by (intros j; by rewrite Hg, Htk). eapply StronglySorted_sublist; [|exact Hs].
        by apply fmap_sublist.
      * intros j Hj. rewrite Hg, bool_decide_false by (intros ->; done). apply (wait_of_in r p j Hr).
        rewrite Hperm. by right.
    + intros Hl'. destruct (wait_lists _ Hr p' l' Hl') as (Hne' & Hs' & Hi').
      assert (∀ j, j ∈ l' → i ≠ j) as Hni by (intros j Hj ->; destruct (Hi' j Hj) as [? _]; by apply E).
      split_and!; [done|by rewrite (map_ext _ (ticket_of r)) by (intros j; by rewrite Hg, Htk)|].
      intros j Hj. rewrite Hg, bool_decide_false by (by apply Hni). by apply Hi'.
  - intros j. rewrite Hg, Hlook. case_bool_decide as E; [done|]. intros Hj. pose proof (wait_listed _ Hr j Hj) as Hin.
    fold (prefix_of r j). case_bool_decide as E'; [|done]. rewrite E', Hperm in Hin. apply elem_of_cons in Hin as [->|Hin]; [done|].
    by destruct l.
  - intros j. rewrite Hg, <- Htk. destruct (wait_tickets _ Hr j) as [H1 H2]. split; [done|]. case_bool_decide; [done|]. apply H2.
  - intros j k. rewrite !Hg, <- !Htk. apply (wait_unique _ Hr).
  - intros p' s Hs'. destruct (wait_served _ Hr p' s Hs') as [Hne' Hi']. split; [done|]. intros j Hj. rewrite Hg.
    case_bool_decide; [|by apply Hi']. subst j. destruct (Hi' i Hj) as (H1 & H2 & H3 & H4). unfold prefix_of, is_waiting in *. congruence.
  - intros j. rewrite Hg. case_bool_decide; [done|]. apply (wait_closed _ Hr).
Qed.

Lemma remove_ok i r : wait_ok r → wait_ok (removeWaitLocked i r) ∧
  redeliverServed (removeWaitLocked i r) = redeliverServed r ∧ waitTickets (removeWaitLocked i r) = waitTickets r ∧
  ∀ j, get_conn j (removeWaitLocked i r) = if bool_decide (i = j) then with_waiting false (get_conn i r) else get_conn j r.
Proof.
  intros Hr. unfold removeWaitLocked. destruct (waiting (get_conn i r)) eqn:Hw; cbn [negb].
  - split_and!; [|done|done|intros j; apply (get_set i j)].
    pose proof (wait_listed _ Hr i Hw) as Hin. fold (prefix_of r i). set (L := wait_of (prefix_of r i) r) in *.
    destruct (list_find_elem_of (λ x, x = i) L i Hin eq_refl) as [[k x] Hf]. change (wait_of (prefix_of r i) (set_rconn i _ r)) with L.
    rewrite Hf. apply list_find_Some in Hf as (Hk & -> & _).
    eapply (wait_ok_leave r _ i (firstn k L ++ skipn (S k) L)); [done|done| | |done].
    + fold L. rewrite <- (take_drop_middle L k i Hk) at 1. by rewrite Permutation_middle.
    + fold L. rewrite <- (take_drop_middle L k i Hk) at 3. apply sublist_app; [done|]. by apply sublist_cons.
  - split_and!; [done..|]. intros j. case_bool_decide; [|done]. subst. unfold with_waiting. rewrite <- Hw. by destruct (get_conn j r).
Qed.

Lemma end_turn_ok i r : wait_ok r → wait_ok (endTurnLocked i r) ∧ served_of (prefix_of r i) (endTurnLocked i r) !! i = None.
Proof.
  intros Hr. unfold endTurnLocked. fold (prefix_of r i). set (p := prefix_of r i).
  destruct (served_of p r !! i) as [t|] eqn:E; [|by split]. split.
  - destruct Hr as [H1 H2 H3 H4 H5 H6]. constructor; try done. intros p' s. simpl.
    assert (∀ s', redeliverServed r !! p' = Some s' → s ⊆ s' → s ≠ ∅ → s ≠ ∅ ∧ ∀ i, is_Some (s !! i) →
      prefix_of r i = p' ∧ is_waiting r i = false ∧ is_closed r i = false ∧ 0 < ticket_of r i) as Hsub.
    { intros s' Hs' Hss Hne. split; [done|]. intros j [tj Hj]. destruct (H5 p' s' Hs') as [_ H]. apply H. exists tj. by eapply lookup_weaken. }
    case_bool_decide as En; (destruct (decide (p' = p)) as [->|]; [|rewrite ?lookup_delete_ne, ?lookup_insert_ne by done; apply H5]).
    + by rewrite lookup_delete_eq.
    + rewrite lookup_insert_eq. intros [= <-]. unfold served_of in *. destruct (redeliverServed r !! p) as [s'|] eqn:Es; [|done].
      simpl in *. apply (Hsub s'); [done|apply delete_subseteq|done].
  - unfold served_of at 1. simpl. case_bool_decide; [by rewrite lookup_delete_eq|]. rewrite lookup_insert_eq. simpl. apply lookup_delete_eq.
Qed.

Lemma buckets_ok k p r : wait_ok r → wait_ok (set_rbuckets k p r).
Proof. by apply wait_ok_view. Qed.

Lemma redeliverAllowed_ok i nb now r : wait_ok r → wait_ok (redeliverAllowed i nb now r).1.
Proof.
  intros Hr. unfold redeliverAllowed. cbv zeta. fold (prefix_of r i).
  destruct (bool_decide (is_Some (served_of (prefix_of r i) r !! i))) eqn:Es; cbn [negb andb].
  - destruct (has _ _ _ _) as [k []]; cbn [negb]; [|by apply buckets_ok]. destruct (has _ _ _ _) as [p []]; cbn [negb]; [by do 3 apply buckets_ok|].
    assert (wait_ok (set_rbuckets k p (set_rbuckets k (redeliverPrefix r) r))) as Hr' by (by do 2 apply buckets_ok).
    destruct (end_turn_ok i _ Hr') as [He Hn]. apply join_ok; [done|].
    replace (prefix_of (endTurnLocked i _) i) with (prefix_of r i); [exact Hn|].
    unfold endTurnLocked. by case_match.
  - apply bool_decide_eq_false in Es. assert (served_of (prefix_of r i) r !! i = None) as Hns by (by apply eq_None_not_Some).
    destruct (_ || _); [by apply join_ok|].
    destruct (has _ _ _ _) as [k []]; cbn [negb]; [|by apply buckets_ok]. destruct (has _ _ _ _) as [p []]; cbn [negb]; [by do 3 apply buckets_ok|].
    apply join_ok; [by do 2 apply buckets_ok|done].
Qed.

Lemma close_ok i r : wait_ok r → is_waiting r i = false → served_of (prefix_of r i) r !! i = None →
  wait_ok (set_rconn i (with_closed (get_conn i r)) r).
Proof.
  intros Hr Hw Hns. set (c := with_closed (get_conn i r)).
  assert (∀ j, prefix_of (set_rconn i c r) j = prefix_of r j) as Vp by (intros j; unfold prefix_of; rewrite get_set; case_bool_decide; by subst).
  assert (∀ j, is_waiting (set_rconn i c r) j = is_waiting r j) as Vw by (intros j; unfold is_waiting; rewrite get_set; case_bool_decide; by subst).
  assert (∀ j, ticket_of (set_rconn i c r) j = ticket_of r j) as Vt by (intros j; unfold ticket_of; rewrite get_set; case_bool_decide; by subst).
  pose proof Hr as [H1 H2 H3 H4 H5 H6]. constructor; unfold wait_of; cbn [redeliverWait redeliverServed waitTickets set_rconn].
  - intros p l Hl. destruct (H1 p l Hl) as (Hne & Hs & Hi). split_and!; [done| |intros j Hj; rewrite Vp, Vw; auto]. by rewrite (map_ext _ _ Vt).
  - intros j. rewrite Vw, Vp. apply H2.
  - intros j. rewrite Vw, Vt. apply H3.
  - intros j k. rewrite !Vt. apply H4.
  - intros p s Hs. destruct (H5 p s Hs) as [Hne Hi]. split; [done|]. intros j Hj. rewrite Vp, Vw, Vt. destruct (Hi j Hj) as (?&?&?&?).
    split_and!; try done. unfold is_closed. rewrite get_set, bool_decide_false; [done|]. intros <-.
    rewrite (not_served_lookup r i Hr Hns p s Hs) in Hj. by destruct Hj.
  - intros j. rewrite Vw. unfold is_closed. rewrite get_set. case_bool_decide; [by subst|apply H6].
Qed.

Lemma remove_close i r : removeWaitLocked i (set_rconn i (with_closed (get_conn i r)) r) =
  set_rconn i (with_closed (get_conn i (removeWaitLocked i r))) (removeWaitLocked i r).
Proof.
  unfold removeWaitLocked. rewrite get_set, bool_decide_true by done. simpl. destruct (waiting (get_conn i r)) eqn:Hw; cbn [negb]; [|done].
  unfold set_wait, set_rconn, wait_of, get_conn. simpl. rewrite !insert_insert_eq, lookup_insert_eq. done.
Qed.

Lemma end_turn_close i r : endTurnLocked i (set_rconn i (with_closed (get_conn i r)) r) =
  set_rconn i (with_closed (get_conn i (endTurnLocked i r))) (endTurnLocked i r).
Proof.
  unfold endTurnLocked. rewrite get_set, bool_decide_true by done. simpl. change (served_of _ (set_rconn _ _ r)) with (served_of (c_prefix (get_conn i r)) r).
  by destruct (served_of _ r !! i).
Qed.

Lemma forget_ok i r : wait_ok r → wait_ok (redeliverForget i r) ∧ is_closed (redeliverForget i r) i = true.
Proof.
  intros Hr. unfold redeliverForget. rewrite remove_close, end_turn_close.
  destruct (remove_ok i r Hr) as (Hr1 & _ & _ & Hg1). destruct (end_turn_ok i _ Hr1) as [Hr2 Hn2].
  assert (∀ x, prefix_of (endTurnLocked i x) i = prefix_of x i ∧ is_waiting (endTurnLocked i x) i = is_waiting x i) as He
    by (intros x; unfold endTurnLocked; by case_match).
  split; [apply close_ok; [done| |]|].
  - rewrite (proj2 (He _)). unfold is_waiting. by rewrite Hg1, bool_decide_true.
  - by rewrite (proj1 (He _)).
  - unfold is_closed. by rewrite get_set, bool_decide_true.
Qed.

Lemma serve_ok i p tick r : wait_ok r → is_waiting r i = false → is_closed r i = false → 0 < ticket_of r i → prefix_of r i = p →
  wait_ok (set_served (<[p := <[i := tick]> (served_of p r)]> (redeliverServed r)) r).
Proof.
  intros [H1 H2 H3 H4 H5 H6] Hw Hc Ht Hp. constructor; try done. intros p' s. simpl.
  destruct (decide (p' = p)) as [->|]; [|rewrite lookup_insert_ne by done; apply H5]. rewrite lookup_insert_eq. intros [= <-].
  split; [apply insert_non_empty|]. intros j. destruct (decide (j = i)) as [->|Hne]; [done|]. rewrite lookup_insert_ne by done.
  unfold served_of. destruct (redeliverServed r !! p) as [s|] eqn:Es; simpl; [apply (H5 p s Es)|]. rewrite lookup_empty. by intros [? ?].
Qed.

(** The walk keeps the invariant, and serves connections of the list, in its
    order, that were waiting. *)
Lemma walk_ok p tick now l pending r : wait_ok r → NoDup l → (∀ i, i ∈ l → prefix_of r i = p ∧ is_waiting r i = true) →
  let '(r', picked) := walk p tick now l pending r in
  wait_ok r' ∧ picked `sublist_of` l ∧
  (∀ j, is_waiting r' j = is_waiting r j && negb (bool_decide (j ∈ picked))) ∧ (∀ j, prefix_of r' j = prefix_of r j) ∧
  ∀ i, i ∈ picked ∨ served_of p r !! i = Some tick → served_of p r' !! i = Some tick.
Proof.
  revert pending r. induction l as [|i l IH]; intros pending r Hr Hnd Hl; cbn [walk].
  { split_and!; [done|done|intros j; by rewrite bool_decide_false, andb_true_r by apply not_elem_of_nil|done|].
    by intros i [Hi%not_elem_of_nil|Hi]. }
  apply NoDup_cons in Hnd as [Hil Hnd]. assert (∀ j, j ∈ l → prefix_of r j = p ∧ is_waiting r j = true) as Hl' by (intros j Hj; apply Hl; by right).
  assert (∀ r1, wait_ok r1 → (∀ j, is_waiting r1 j = is_waiting r j ∧ prefix_of r1 j = prefix_of r j) → redeliverServed r1 = redeliverServed r →
    let '(r', picked) := walk p tick now l pending r1 in
    wait_ok r' ∧ picked `sublist_of` i :: l ∧ (∀ j, is_waiting r' j = is_waiting r j && negb (bool_decide (j ∈ picked))) ∧
    (∀ j, prefix_of r' j = prefix_of r j) ∧ ∀ k, k ∈ picked ∨ served_of p r !! k = Some tick → served_of p r' !! k = Some tick) as Hskip.
  { intros r1 Hr1 Hv Es. specialize (IH pending r1 Hr1 Hnd). ospecialize* IH.
    { intros j Hj. destruct (Hv j) as [E1 E2]. rewrite E1, E2. auto. }
    destruct (walk p tick now l pending r1) as [r' picked]. destruct IH as (H1 & H2 & H3 & H4 & H5).
    unfold served_of in H5 at 1. rewrite Es in H5.
    split_and!; [done|by apply sublist_cons| | |done]; intros j; [rewrite H3|rewrite H4];
      destruct (Hv j) as [E1 E2]; by rewrite ?E1, ?E2. }
  destruct (SFeqb _ f_zero); [by apply Hskip|]. destruct (has _ _ _ _) as [k []]; cbn [negb]; [|by apply Hskip; [apply buckets_ok| |]].
  cbn [redeliverPrefix set_rbuckets]. destruct (has _ p _ _) as [q []]; cbn [negb].
  2: { split_and!; [by do 2 apply buckets_ok|apply sublist_nil_l|intros j; by rewrite bool_decide_false, andb_true_r by apply not_elem_of_nil|done|].
       by intros j [Hj%not_elem_of_nil|Hj]. }
  set (r1 := set_rbuckets k q _). assert (wait_ok r1) as Hr1 by (by do 2 apply buckets_ok).
  destruct (draining _ || _); [by apply Hskip|].
  change (get_conn i r) with (get_conn i r1). set (r2 := set_rconn i (with_draining (get_conn i r1)) r1).
  assert (∀ j, prefix_of r2 j = prefix_of r j ∧ is_waiting r2 j = is_waiting r j ∧ is_closed r2 j = is_closed r j ∧ ticket_of r2 j = ticket_of r j) as Hv2.
  { intros j. unfold prefix_of, is_waiting, is_closed, ticket_of, r2. rewrite get_set. case_bool_decide; by subst. }
  assert (wait_ok r2) as Hr2 by (apply (wait_ok_view r1); done).
  destruct (remove_ok i r2 Hr2) as (Hr3 & _ & _ & Hg3). set (r3 := removeWaitLocked i r2) in *.
  assert (∀ j, prefix_of r3 j = prefix_of r j ∧ is_closed r3 j = is_closed r j ∧ ticket_of r3 j = ticket_of r j) as Hv3.
  { intros j. destruct (Hv2 j) as (<- & _ & <- & <-). unfold prefix_of, is_closed, ticket_of. rewrite Hg3. case_bool_decide; by subst. }
  assert (∀ j, is_waiting r3 j = is_waiting r j && negb (bool_decide (i = j))) as Hw3.
  { intros j. destruct (Hv2 j) as (_ & <- & _). unfold is_waiting. rewrite Hg3. case_bool_decide; simpl; [by rewrite andb_false_r|by rewrite andb_true_r]. }
  destruct (Hl i (list_elem_of_here _ _)) as [Hpi Hwi].
  set (r4 := set_served _ r3).
  assert (wait_ok r4) as Hr4.
  { apply (serve_ok i); [done|by rewrite Hw3, bool_decide_true, andb_false_r| | |by rewrite (proj1 (Hv3 i))].
    - destruct (Hv3 i) as (_ & -> & _). destruct (is_closed r i) eqn:Ec; [|done]. apply (wait_closed _ Hr) in Ec. congruence.
    - destruct (Hv3 i) as (_ & _ & ->). by apply (wait_tickets _ Hr). }
  specialize (IH (fadd pending (f_of_Z (skipSize (get_conn i r1)))) r4 Hr4 Hnd). ospecialize* IH.
  { intros j Hj. destruct (Hl' j Hj) as [? Hwj]. change (prefix_of r4 j) with (prefix_of r3 j). change (is_waiting r4 j) with (is_waiting r3 j).
    destruct (Hv3 j) as (-> & _). rewrite Hw3, Hwj, bool_decide_false by (by intros ->). done. }
  destruct (walk p tick now l _ r4) as [r' picked]. destruct IH as (H1 & H2 & H3 & H4 & H5). split_and!; [done|by constructor| | |].
  - intros j. rewrite H3. change (is_waiting r4 j) with (is_waiting r3 j). rewrite Hw3, <- andb_assoc. f_equal.
    rewrite <- negb_orb. f_equal. rewrite <- bool_decide_or. apply bool_decide_ext. rewrite elem_of_cons. naive_solver.
  - intros j. rewrite H4. apply Hv3.
  - intros j Hj. apply H5. rewrite elem_of_cons in Hj. destruct (decide (j = i)) as [->|Hne].
    + right. unfold r4, served_of at 1. simpl. rewrite lookup_insert_eq. simpl. apply lookup_insert_eq.
    + destruct Hj as [[?|?]|Hj]; [done|by left|]. right. unfold r4, served_of at 1. simpl. rewrite lookup_insert_eq. simpl.
      rewrite lookup_insert_ne by done. unfold r3. unfold served_of. destruct (remove_ok i r2 Hr2) as (_ & -> & _). exact Hj.
Qed.

Lemma end_old_turns_ok tick l r : wait_ok r → wait_ok (end_old_turns tick l r).
Proof.
  unfold end_old_turns. revert r. induction l as [|x l IH]; intros r Hr; [done|]. simpl. apply IH. case_match; [|done]. by apply end_turn_ok.
Qed.

Lemma nextServedAt_ok tick now turns ps r : wait_ok r → wait_ok (nextServedAt tick now turns ps r).1.
Proof.
  intros Hr. unfold nextServedAt. apply (end_old_turns_ok tick turns) in Hr. generalize ([] : list Z) as picked.
  revert Hr. generalize (end_old_turns tick turns r) as r0. induction ps as [|p ps IH]; intros r0 Hr picked; [done|]. simpl.
  pose proof (walk_ok p tick now (wait_of p r0) f_zero r0 Hr (sorted_nodup _ _ (wait_of_sorted r0 p Hr)) (λ i, wait_of_in r0 p i Hr)) as H.
  destruct (walk _ _ _ _ _ r0) as [r1 more]. destruct H as [H _]. by apply IH.
Qed.

Lemma connect_ok i c r : wait_ok r → rconns r !! i = None → waiting c = false → waitTicket c = 0 → wait_ok (set_rconn i c r).
Proof.
  intros Hr Hi Hw Ht. assert (get_conn i r = no_conn) as Hn by (unfold get_conn; by rewrite Hi).
  assert (∀ j, is_waiting (set_rconn i c r) j = is_waiting r j) as Vw.
  { intros j. unfold is_waiting. rewrite get_set. case_bool_decide; [subst; by rewrite Hn, Hw|done]. }
  assert (∀ j, ticket_of (set_rconn i c r) j = ticket_of r j) as Vt.
  { intros j. unfold ticket_of. rewrite get_set. case_bool_decide; [subst; by rewrite Hn, Ht|done]. }
  assert (∀ j, is_waiting r j = true → i ≠ j) as Hne by (intros j Hj ->; unfold is_waiting in Hj; by rewrite Hn in Hj).
  assert (∀ j, i ≠ j → get_conn j (set_rconn i c r) = get_conn j r) as Hg by (intros j Hj; by rewrite get_set, bool_decide_false).
  pose proof Hr as [H1 H2 H3 H4 H5 H6]. constructor; unfold wait_of; cbn [redeliverWait redeliverServed waitTickets set_rconn].
  - intros p l Hl. destruct (H1 p l Hl) as (Hnl & Hs & Hin). split_and!; [done|by rewrite (map_ext _ _ Vt)|].
    intros j Hj. destruct (Hin j Hj) as [Hp Hwj]. unfold prefix_of. rewrite Vw, Hg by auto. done.
  - intros j. rewrite Vw. intros Hj. unfold prefix_of. rewrite Hg by auto. by apply H2.
  - intros j. rewrite Vw, Vt. apply H3.
  - intros j k. rewrite !Vt. apply H4.
  - intros p s Hs. destruct (H5 p s Hs) as [Hns Hin]. split; [done|]. intros j Hj. destruct (Hin j Hj) as (Hp & Hwj & Hc & Htj).
    assert (i ≠ j) as Hij by (intros ->; unfold is_closed in Hc; by rewrite Hn in Hc).
    unfold prefix_of, is_closed. rewrite Vw, Vt, Hg by done. done.
  - intros j. rewrite Vw. unfold is_closed. rewrite get_set. case_bool_decide; [subst; intros _; unfold is_waiting; by rewrite Hn|apply H6].
Qed.

(** ** Redelivery: executions

    Connections come and go, a drain records or clears what it skipped and
    whether it runs, and every operation may happen at any time, in any order;
    the retry serves with whatever iteration orders the maps have. *)
Inductive rd_reach (kb pb : bucketSet) : redelivery → Prop :=
| rd_init : rd_reach kb pb (MkRedelivery kb pb ∅ ∅ 0 ∅)
| rd_connect r i key prefix : rd_reach kb pb r → rconns r !! i = None →
    rd_reach kb pb (set_rconn i (MkRconn key prefix false false 0 0 false) r)
| rd_conn r i c sz dr : rd_reach kb pb r → rconns r !! i = Some c →
    rd_reach kb pb (set_rconn i (MkRconn (c_key c) (c_prefix c) (waiting c) (waitClosed c) (waitTicket c) sz dr) r)
| rd_allowed r i nb now : rd_reach kb pb r → rd_reach kb pb (redeliverAllowed i nb now r).1
| rd_reserve r i lim now : rd_reach kb pb r → rd_reach kb pb (redeliverReserve i lim now r).1
| rd_refund r i nb now : rd_reach kb pb r → rd_reach kb pb (redeliverRefund i nb now r)
| rd_forget r i : rd_reach kb pb r → rd_reach kb pb (redeliverForget i r)
| rd_done r i : rd_reach kb pb r → rd_reach kb pb (redeliverDone i r)
| rd_next r tick now turns ps : rd_reach kb pb r → rd_reach kb pb (nextServedAt tick now turns ps r).1.

Lemma rd_reach_ok kb pb r : rd_reach kb pb r → wait_ok r.
Proof.
  induction 1 as [|r i key prefix _ IH Hi|r i c sz dr _ IH Hi|r i nb now _ IH|r i lim now _ IH|r i nb now _ IH|r i _ IH|r i _ IH|r tick now turns ps _ IH].
  - constructor; try done.
  - by apply connect_ok.
  - apply (wait_ok_view r); try done. intros j. unfold prefix_of, is_waiting, is_closed, ticket_of. rewrite get_set.
    case_bool_decide; [|done]. subst. assert (get_conn j r = c) as -> by (unfold get_conn; by rewrite Hi). done.
  - by apply redeliverAllowed_ok.
  - unfold redeliverReserve. repeat case_match; simpl; by apply buckets_ok.
  - unfold redeliverRefund. case_match; [done|by apply buckets_ok].
  - by apply forget_ok.
  - by apply end_turn_ok.
  - by apply nextServedAt_ok.
Qed.

(** ** The properties *)

(** The redelivery wait lists are fair in every reachable state: each
    prefix's list is in the order of the tickets given when its connections
    joined, so nobody overtakes; a connection is on its list exactly while it
    waits, once; one that is being served does not wait; and a closed one
    neither waits nor is served. *)
Theorem wait_lists_fair kb pb r : rd_reach kb pb r →
  (∀ p, StronglySorted Z.lt (map (ticket_of r) (wait_of p r)) ∧ NoDup (wait_of p r)) ∧
  (∀ p i, i ∈ wait_of p r ↔ is_waiting r i = true ∧ prefix_of r i = p) ∧
  (∀ p i, is_Some (served_of p r !! i) → prefix_of r i = p ∧ is_waiting r i = false ∧ is_closed r i = false) ∧
  (∀ i, is_closed r i = true → is_waiting r i = false ∧ ∀ p, served_of p r !! i = None).
Proof.
  intros Hr%rd_reach_ok. assert (∀ p i, is_Some (served_of p r !! i) → prefix_of r i = p ∧ is_waiting r i = false ∧ is_closed r i = false) as Hs.
  { intros p i Hi. unfold served_of in Hi. destruct (redeliverServed r !! p) as [s|] eqn:E; simpl in Hi; [|rewrite lookup_empty in Hi; by destruct Hi].
    destruct (wait_served _ Hr p s E) as [_ H]. destruct (H i Hi) as (?&?&?&_). done. }
  split_and!; [| |done|].
  - intros p. pose proof (wait_of_sorted r p Hr). split; [done|by eapply sorted_nodup].
  - intros p i. split; [intros Hi; by destruct (wait_of_in r p i Hr Hi)|]. intros [Hw <-]. by apply wait_listed.
  - intros i Hc. split; [by apply (wait_closed _ Hr)|]. intros p. destruct (served_of p r !! i) as [t|] eqn:E; [|done].
    destruct (Hs p i ltac:(by eexists)) as (_ & _ & ?). congruence.
Qed.

(** A frame is charged to its key and its prefix, both or neither: an
    envelope passes exactly when both have a token, each then loses one, and a
    refusal names the first that had none and takes nothing; a frame above
    1 KiB is held to both byte buckets the same way, and a smaller one is
    always charged and never refused. *)
Theorem charged_both_or_neither key prefix nb now kb pb ke pe : off kb = false → off pb = false → off ke = false → off pe = false →
  (let one := f_of_Z 1 in let '(ke', pe', r) := sendAllowed key prefix now ke pe in
   let k_ok := SFleb one (avail ke key now) in let p_ok := SFleb one (avail pe prefix now) in
   match r with
   | None => k_ok = true ∧ p_ok = true ∧ stored ke' key = Some (fsub (avail ke key now) one) ∧ stored pe' prefix = Some (fsub (avail pe prefix now) one)
   | Some l => ke' = (refill ke key now).1 ∧ (pe' = pe ∨ pe' = (refill pe prefix now).1) ∧
               l = (if k_ok then limitPrefixEnvs else limitKeyEnvs) ∧ k_ok && p_ok = false
   end) ∧
  (let sz := f_of_Z nb in let '(kb', pb', r) := frameAllowed key prefix nb now kb pb in
   let k_ok := SFleb sz (avail kb key now) in let p_ok := SFleb sz (avail pb prefix now) in
   match r with
   | None => (nb <= smallFrame ∨ (k_ok = true ∧ p_ok = true)) ∧
             stored kb' key = Some (fmax f_zero (fsub (avail kb key now) sz)) ∧ stored pb' prefix = Some (fmax f_zero (fsub (avail pb prefix now) sz))
   | Some l => smallFrame < nb ∧ kb' = (refill kb key now).1 ∧ (pb' = pb ∨ pb' = (refill pb prefix now).1) ∧
               l = (if k_ok then limitPrefixBytes else limitKeyBytes) ∧ k_ok && p_ok = false
   end).
Proof.
  intros Hkb Hpb Hke Hpe. split.
  - unfold sendAllowed. rewrite !has_spec by done. cbv zeta.
    destruct (SFleb _ (avail ke key now)) eqn:Ek; cbn [negb]; [|by split_and!; [|left|..]].
    destruct (SFleb _ (avail pe prefix now)) eqn:Ep; cbn [negb]; [|by split_and!; [|right|..]].
    destruct (take_after_has ke key now _ Hke Ek) as [_ H1]. destruct (take_after_has pe prefix now _ Hpe Ep) as [_ H2]. done.
  - unfold frameAllowed. cbv zeta. destruct (Z.ltb_spec smallFrame nb) as [Hn|Hn].
    + rewrite !has_spec by done. destruct (SFleb _ (avail kb key now)) eqn:Ek; cbn [negb]; [|by split_and!; [| |left|..]].
      destruct (SFleb _ (avail pb prefix now)) eqn:Ep; cbn [negb]; [|by split_and!; [| |right|..]].
      split_and!; [by right|by apply spend_after_has|by apply spend_after_has].
    + split_and!; [by left|by apply spend_after_has|by apply spend_after_has].
Qed.

(** Control frames: whatever the interleaving of keys and the pruning, a
    frame is refused exactly when its key sent more than its rate in that
    one-minute window, and the connection is closed exactly when this also
    happened in each of the two windows before. *)
Theorem control_strikes limit calls key now : 0 < limit → ordered controlWindow (calls ++ [(key, now)]) →
  let h := windows (calls ++ [(key, now)]) in let i := Z.quot now controlWindow in
  let '(ok, close) := (controlAllowed key now (run_calls limit calls)).2 in
  (ok = true ↔ calls_in h key i <= limit) ∧
  (close = true ↔ limit < calls_in h key i ∧ limit < calls_in h key (i - 1) ∧ limit < calls_in h key (i - 2)).
Proof.
  intros Hl Ho h i. pose proof Ho as (Ho' & Hnow & Hlast)%ordered_snoc. simpl in Hlast. destruct (run_calls_ok limit calls Hl Ho') as [Hc Hok].
  pose proof (quot_pos now Hnow : 0 < i) as Hi.
  pose proof (ordered_nonneg controlWindow _ ltac:(done) Ho') as Hpos.
  pose proof (control_step limit (windows calls) i key now (run_calls limit calls) Hl Hc) as Hs.
  ospecialize* Hs; [apply Hok; intros x Hx; apply quot_window; split; auto|done|done|].
  assert (h = windows calls ++ [(key, i)]) as -> by (unfold h, windows; by rewrite map_app).
  destruct (controlAllowed key now _) as [c' [ok close]]. by destruct Hs as (_ & _ & H1 & H2).
Qed.

(** The admission counters are exact and bounded in every reachable
    state: the open connections of a prefix and the connections that still
    authenticate are as many as were admitted and have not ended (or
    answered), and never more than the limits allow. *)
Theorem admission_exact mc mu a cs : adm_reach mc mu a cs →
  (∀ p, open_conns p a = msum (λ _ c, if bool_decide (c.1 = p) then 1 else 0) cs) ∧
  unauth a = msum (λ _ (c : adm_conn), if c.2 then 1 else 0) cs ∧
  (0 < mc → ∀ p, open_conns p a <= mc) ∧ (0 < mu → unauth a <= mu).
Proof. intros [_ H1 H2 H3 H4]%adm_reach_ok. done. Qed.

(** ** Executions *)

(** Two connections of one prefix, whose bucket holds 100 bytes: both are
    refused and wait in the order they came. *)
Definition demo_rd : redelivery :=
  let r := set_rconn 2 (MkRconn "k2" "p" false false 0 0 false)
    (set_rconn 1 (MkRconn "k1" "p" false false 0 0 false) (MkRedelivery (perHour 1000) (perHour 100) ∅ ∅ 0 ∅)) in
  (redeliverAllowed 2 10 minute (redeliverAllowed 1 200 minute r).1).1.

Lemma demo_rd_reach : rd_reach (perHour 1000) (perHour 100) demo_rd.
Proof. unfold demo_rd. do 2 apply rd_allowed. apply rd_connect; [apply rd_connect; [constructor|reflexivity]|reflexivity]. Qed.

Lemma wait_lists_fair_witness : wait_of "p" demo_rd = [1; 2] ∧ StronglySorted Z.lt (map (ticket_of demo_rd) (wait_of "p" demo_rd)).
Proof.
  split; [vm_compute; reflexivity|]. destruct (wait_lists_fair _ _ _ demo_rd_reach) as (H & _). exact (proj1 (H "p"%string)).
Defined.

Lemma charged_both_or_neither_witness :
  (sendAllowed "k" "p" minute (newBucketSet (perMin 60) (f_of_Z 2)) (newBucketSet (perMin 60) (f_of_Z 0))).2 = Some limitPrefixEnvs ∧
  let '(ke', pe', r) := sendAllowed "k" "p" minute (newBucketSet (perMin 60) (f_of_Z 2)) (newBucketSet (perMin 60) (f_of_Z 5)) in
  r = None → stored ke' "k" = Some (fsub (avail (newBucketSet (perMin 60) (f_of_Z 2)) "k" minute) (f_of_Z 1)).
Proof.
  split; [vm_compute; reflexivity|].
  destruct (charged_both_or_neither "k" "p" 2000 minute (perHour 100) (perHour 100) (newBucketSet (perMin 60) (f_of_Z 2))
    (newBucketSet (perMin 60) (f_of_Z 5)) ltac:(vm_compute; reflexivity) ltac:(vm_compute; reflexivity)
    ltac:(vm_compute; reflexivity) ltac:(vm_compute; reflexivity)) as [H _]. cbv zeta in H.
  destruct (sendAllowed _ _ _ _ _) as [[ke' pe'] r]. intros ->. exact (proj1 (proj2 (proj2 H))).
Defined.

(** Two frames a minute with a rate of one, for three minutes. *)
Definition demo_calls : list (string * Z) :=
  [("k"%string, minute); ("k"%string, minute); ("k"%string, 2 * minute); ("k"%string, 2 * minute); ("k"%string, 3 * minute)].
Lemma control_strikes_witness : (controlAllowed "k" (3 * minute) (run_calls 1 demo_calls)).2 = (false, true) ∧
  1 < calls_in (windows (demo_calls ++ [("k"%string, 3 * minute)])) "k" 1.
Proof.
  assert ((controlAllowed "k" (3 * minute) (run_calls 1 demo_calls)).2 = (false, true)) as E by (vm_compute; reflexivity).
  split; [exact E|]. pose proof (control_strikes 1 demo_calls "k" (3 * minute) ltac:(lia) ltac:(vm_compute; intuition discriminate)) as H.
  cbv zeta in H. rewrite E in H. destruct H as [_ [H _]]. exact (proj2 (proj2 (H eq_refl))).
Defined.

Definition demo_adm : admission :=
  (admitUpgrade "p" minute (MkAdmission 2 1 (newBucketSet (perMin 60) (f_of_Z 60)) (MkLimiter 3 minute ∅ None) ∅ 0)).1.
Lemma admission_exact_witness : open_conns "p" demo_adm = 1 ∧ unauth demo_adm <= 1.
Proof.
  assert (adm_reach 2 1 demo_adm {[1 := ("p"%string, true)]}) as Hr.
  { eapply adm_next; [apply (adm_init 2 1 (newBucketSet (perMin 60) (f_of_Z 60)) (MkLimiter 3 minute ∅ None))|].
    apply (adm_admit _ _ 1 "p" minute); [reflexivity|]. vm_compute. reflexivity. }
  destruct (admission_exact _ _ _ _ Hr) as (H1 & _ & _ & H2). split; [rewrite H1; vm_compute; reflexivity|exact (H2 ltac:(lia))].
Defined.
