(* ===== verification/LogRate.v ===== *)
(** * One log line per event and window (internal/lograte/lograte.go)

    A [limiter] holds the entry of each event that has a line waiting. An
    entry is a Go pointer: [tag] tells two entries of the same event apart, as
    flushEvent's comparison does. A timer runs flushEvent with the entry it
    was started for, once, at any time: e.stop() may come too late. The lines
    written are [out]. *)

From S2P Require Import Prelude Strconv.

Open Scope Z_scope.

Record entry := MkEntry { tag : nat; level : Z; msg : string; first : list string; count : Z; reasons : gmap string Z }.

(** One line: the level, the message and its key/value arguments. *)
Record line := MkLine { l_level : Z; l_msg : string; l_event : string; l_count : Z; l_reasons : option bytes; l_first : list string }.

Record limiter := MkLimiter {
  pending : gmap string entry;
  timers : gset (string * nat);   (* started and not yet run *)
  next : nat;
  out : list line;
}.

Definition New : limiter := MkLimiter ∅ ∅ 0 [].

(** The order of slices.Sort on strings, by bytes. *)
Definition str_le (a b : string) : Prop := String.leb a b = true.
#[export] Instance str_le_dec a b : Decision (str_le a b).
Proof. unfold str_le. apply _. Defined.

(** formatReasons: a=1 b=2, sorted by reason. *)
Definition formatReasons (m : gmap string Z) : bytes :=
  let keys := merge_sort str_le (map fst (map_to_list m)) in
  (fix join (first : bool) (ks : list string) : bytes :=
     match ks with
     | [] => []
     | k :: ks => (if first then [] else [32]) ++ bytes_of k ++ [61] ++ Itoa (default 0 (m !! k)) ++ join false ks
     end) true keys.

Definition write (event : string) (e : entry) : line :=
  let r := formatReasons (reasons e) in
  MkLine (level e) (msg e) event (count e) (match r with [] => None | _ => Some r end) (first e).

Definition Note (lv : Z) (event text reason : string) (kvs : list string) (l : limiter) : limiter :=
  let '(e, l) := match pending l !! event with
                 | Some e => (e, l)
                 | None => let e := MkEntry (next l) lv text kvs 0 ∅ in
                           (e, MkLimiter (<[event := e]> (pending l)) ({[(event, next l)]} ∪ timers l) (S (next l)) (out l))
                 end in
  let rs := if bool_decide (reason = EmptyString) then reasons e
            else <[reason := default 0 (reasons e !! reason) + 1]> (reasons e) in
  MkLimiter (<[event := MkEntry (tag e) (level e) (msg e) (first e) (count e + 1) rs]> (pending l)) (timers l) (next l) (out l).

(** Flush: every pending line, in the order of the events' names. *)
Definition Flush (l : limiter) : limiter :=
  let events := merge_sort str_le (map fst (map_to_list (pending l))) in
  let entries := omap (λ ev, option_map (pair ev) (pending l !! ev)) events in
  MkLimiter ∅ (timers l) (next l) (out l ++ map (λ '(ev, e), write ev e) entries).

(** flushEvent, of the timer started for entry [t] of [event]. *)
Definition flushEvent (event : string) (t : nat) (l : limiter) : limiter :=
  match pending l !! event with
  | Some e => if (tag e =? t)%nat then MkLimiter (delete event (pending l)) (timers l) (next l) (out l ++ [write event e])
              else l
  | None => l
  end.

Definition Pending (l : limiter) : nat := size (pending l).

(** ** Executions *)

(** The occurrences noted so far, (event, reason). *)
Abbreviation notes := (list (string * string)).

Inductive reach : limiter → notes → Prop :=
| reach_new : reach New []
| reach_note l h lv ev text r kvs : reach l h → reach (Note lv ev text r kvs l) (h ++ [(ev, r)])
| reach_flush l h : reach l h → reach (Flush l) h
| reach_timer l h ev t : reach l h → (ev, t) ∈ timers l →
    reach (let l' := flushEvent ev t l in MkLimiter (pending l') (timers l' ∖ {[(ev, t)]}) (next l') (out l')) h.

Definition noted (ev : string) (h : notes) : Z := Z.of_nat (length (filter (λ x, x.1 = ev) h)).
Definition written (ev : string) (ls : list line) : Z := zsum (λ x, if bool_decide (l_event x = ev) then l_count x else 0) ls.
Definition waiting (ev : string) (l : limiter) : Z := match pending l !! ev with Some e => count e | None => 0 end.

Record limiter_ok (l : limiter) (h : notes) : Prop := {
  ok_counts : ∀ ev, noted ev h = written ev (out l) + waiting ev l;
  ok_timer : ∀ ev e, pending l !! ev = Some e → (ev, tag e) ∈ timers l;
  ok_tags : ∀ ev t, (ev, t) ∈ timers l → (t < next l)%nat;
  ok_events : ∀ ev, is_Some (pending l !! ev) → ev ∈ map fst h;
  ok_lines : Forall (λ x, 0 < l_count x) (out l);
  ok_pos : ∀ ev e, pending l !! ev = Some e → 0 < count e;
}.

Lemma noted_snoc ev h ev' r : noted ev (h ++ [(ev', r)]) = noted ev h + (if bool_decide (ev' = ev) then 1 else 0).
Proof. unfold noted. rewrite filter_app, length_app, filter_cons, filter_nil. simpl. repeat case_decide; case_bool_decide; simpl; try done; lia. Qed.

Lemma written_app ev l1 l2 : written ev (l1 ++ l2) = written ev l1 + written ev l2.
Proof. apply zsum_app. Qed.

Lemma written_cons ev x l : written ev (x :: l) = (if bool_decide (l_event x = ev) then l_count x else 0) + written ev l.
Proof. done. Qed.

Lemma note_ok l h lv ev text r kvs : limiter_ok l h → limiter_ok (Note lv ev text r kvs l) (h ++ [(ev, r)]).
Proof.
  intros [H1 H2 H3 H4 H5 H6]. unfold Note. destruct (pending l !! ev) as [e|] eqn:E; constructor; simpl; try done.
  - intros ev'. rewrite noted_snoc, H1. unfold waiting. simpl. case_bool_decide; [subst|].
    + rewrite lookup_insert_eq, E. simpl. lia.
    + rewrite lookup_insert_ne by done. lia.
  - intros ev' e'. destruct (decide (ev' = ev)) as [->|]; [rewrite lookup_insert_eq; intros [= <-]; exact (H2 _ _ E)|].
    rewrite lookup_insert_ne by done. apply H2.
  - intros ev' Hs. rewrite map_app, elem_of_app. destruct (decide (ev' = ev)) as [->|]; [right; by left|].
    rewrite lookup_insert_ne in Hs by done. left. by apply H4.
  - intros ev' e'. destruct (decide (ev' = ev)) as [->|]; [rewrite lookup_insert_eq; intros [= <-]; simpl; specialize (H6 _ _ E); lia|].
    rewrite lookup_insert_ne by done. apply H6.
  - intros ev'. rewrite noted_snoc, H1. unfold waiting. simpl. case_bool_decide; [subst|].
    + rewrite lookup_insert_eq, E. simpl. lia.
    + rewrite !lookup_insert_ne by done. lia.
  - intros ev' e'. destruct (decide (ev' = ev)) as [->|]; [rewrite lookup_insert_eq; intros [= <-]; set_solver|].
    rewrite !lookup_insert_ne by done. intros He. specialize (H2 _ _ He). set_solver.
  - intros ev' t [Ht|Ht]%elem_of_union; [apply elem_of_singleton in Ht; simplify_eq; lia|]. specialize (H3 _ _ Ht). lia.
  - intros ev' Hs. rewrite map_app, elem_of_app. destruct (decide (ev' = ev)) as [->|]; [right; by left|].
    rewrite !lookup_insert_ne in Hs by done. left. by apply H4.
  - intros ev' e'. destruct (decide (ev' = ev)) as [->|]; [rewrite lookup_insert_eq; intros [= <-]; simpl; lia|].
    rewrite !lookup_insert_ne by done. apply H6.
Qed.

Lemma flushed_sum ev (p : gmap string entry) evs : NoDup evs →
  written ev (map (λ '(ev, e), write ev e) (omap (λ ev, option_map (pair ev) (p !! ev)) evs)) =
  if bool_decide (ev ∈ evs) then match p !! ev with Some e => count e | None => 0 end else 0.
Proof.
  induction evs as [|x evs IH]; intros Hnd; [done|]. apply NoDup_cons in Hnd as [Hx Hnd]. specialize (IH Hnd).
  change (omap ?f (x :: evs)) with (match f x with Some y => y :: omap f evs | None => omap f evs end).
  destruct (decide (x = ev)) as [->|Hne].
  - rewrite bool_decide_true by (by left). rewrite bool_decide_false in IH by done.
    destruct (p !! ev) as [e|]; [|done]. cbn [option_map map]. rewrite written_cons, bool_decide_true, IH by done. simpl. lia.
  - rewrite (bool_decide_ext (ev ∈ x :: evs) (ev ∈ evs)) by (rewrite elem_of_cons; naive_solver). rewrite <- IH.
    destruct (p !! x) as [e|]; [|done]. cbn [option_map map]. by rewrite written_cons, bool_decide_false.
Qed.

Lemma flush_ok l h : limiter_ok l h → limiter_ok (Flush l) h.
Proof.
  intros [H1 H2 H3 H4 H5 H6]. constructor; simpl; try done.
  - intros ev. rewrite H1, written_app, flushed_sum by (rewrite merge_sort_Permutation; apply (NoDup_fst_map_to_list (pending l))).
    rewrite bool_decide_decide. unfold waiting. simpl. rewrite lookup_empty. destruct (decide _) as [|Hn]; [lia|].
    destruct (pending l !! ev) as [e|] eqn:E; [|lia]. exfalso. apply Hn. rewrite merge_sort_Permutation.
    apply list_elem_of_fmap. exists (ev, e). split; [done|]. by apply elem_of_map_to_list.
  - intros ev. rewrite lookup_empty. by intros [].
  - apply Forall_app. split; [done|]. apply Forall_forall. intros x (y & -> & Hy)%list_elem_of_fmap.
    destruct y as [ev e]. apply list_elem_of_omap in Hy as (ev' & _ & Hy). destruct (pending l !! ev') as [e'|] eqn:E; simplify_eq/=.
    by apply (H6 ev).
Qed.

Lemma timer_ok l h ev t : limiter_ok l h → (ev, t) ∈ timers l →
  limiter_ok (let l' := flushEvent ev t l in MkLimiter (pending l') (timers l' ∖ {[(ev, t)]}) (next l') (out l')) h.
Proof.
  intros [H1 H2 H3 H4 H5 H6] Ht. unfold flushEvent. cbv zeta.
  assert ((∀ e, pending l !! ev = Some e → tag e ≠ t) → limiter_ok (MkLimiter (pending l) (timers l ∖ {[(ev, t)]}) (next l) (out l)) h) as Hother.
  { intros Hne. constructor; simpl; try done.
    - intros ev' e' He. apply elem_of_difference. split; [by apply H2|]. rewrite elem_of_singleton. intros [= -> ?]. by apply (Hne e').
    - intros ev' t' Hin. apply (H3 ev'). set_solver. }
  destruct (pending l !! ev) as [e|] eqn:E; [|by apply Hother].
  destruct (Nat.eqb_spec (tag e) t) as [He|He]; [|apply Hother; by intros e' [= <-]]. constructor; simpl.
  - intros ev'. rewrite H1, written_app. unfold waiting, written at 3. simpl. case_bool_decide; [subst|].
    + rewrite E, lookup_delete_eq. lia.
    + rewrite lookup_delete_ne by done. lia.
  - intros ev' e' [Hne He']%lookup_delete_Some. apply elem_of_difference. split; [by apply H2|]. rewrite elem_of_singleton. congruence.
  - intros ev' t' Hin. apply (H3 ev'). set_solver.
  - intros ev' Hs. apply H4. destruct Hs as [e' [_ He']%lookup_delete_Some]. by exists e'.
  - apply Forall_app. split; [done|]. apply Forall_singleton. simpl. by apply (H6 ev).
  - intros ev' e' [_ He']%lookup_delete_Some. by apply (H6 ev').
Qed.

Lemma reach_ok l h : reach l h → limiter_ok l h.
Proof.
  induction 1 as [|l h lv ev text r kvs _ IH|l h _ IH|l h ev t _ IH Ht].
  - constructor; simpl; try done; try (intros ev Hs; rewrite lookup_empty in Hs; by destruct Hs).
  - by apply note_ok.
  - by apply flush_ok.
  - by apply timer_ok.
Qed.

(** Nothing is lost and nothing is counted twice, however flushes and
    timers race: for every event, the occurrences noted are those of the lines
    written plus those of the line that waits, a line is never written for
    nothing, a waiting line has a timer that will write it, and the memory
    held is at most one entry for each distinct event. *)
Theorem log_lines_count_all l h : reach l h →
  (∀ ev, noted ev h = written ev (out l) + waiting ev l) ∧ Forall (λ x, 0 < l_count x) (out l) ∧
  (∀ ev e, pending l !! ev = Some e → (ev, tag e) ∈ timers l) ∧ (Pending l <= length (remove_dups (map fst h)))%nat.
Proof.
  intros [H1 H2 _ H4 H5 _]%reach_ok. split_and!; [done..|]. unfold Pending. rewrite <- size_dom.
  transitivity (size (list_to_set (remove_dups (map fst h)) : gset string)).
  - apply subseteq_size. intros ev Hev. apply elem_of_list_to_set, elem_of_remove_dups, H4. by apply elem_of_dom.
  - rewrite size_list_to_set by apply NoDup_remove_dups. done.
Qed.

(** Two occurrences with reasons, a flush, and a third whose line waits. *)
Definition demo : limiter :=
  Note 4 "drop" "dropped" "full" [] (Flush (Note 4 "drop" "dropped" "old" [] (Note 4 "drop" "dropped" "full" ["peer"; "k"] New))).

Lemma log_lines_count_all_witness : noted "drop" [("drop"%string, "full"%string); ("drop"%string, "old"%string); ("drop"%string, "full"%string)]
    = written "drop" (out demo) + waiting "drop" demo ∧
  map (λ x, (l_count x, l_reasons x)) (out demo) = [(2, Some (bytes_of "full=1 old=1"))].
Proof.
  split; [|vm_compute; reflexivity].
  assert (reach demo [("drop"%string, "full"%string); ("drop"%string, "old"%string); ("drop"%string, "full"%string)]) as Hr.
  { unfold demo. apply (reach_note _ [("drop"%string, "full"%string); ("drop"%string, "old"%string)]). apply reach_flush.
    apply (reach_note _ [("drop"%string, "full"%string)]). apply (reach_note _ []). constructor. }
  exact (proj1 (log_lines_count_all _ _ Hr) "drop"%string).
Defined.
