(* ===== verification/DisplayText.v ===== *)
(** * Display text (internal/displaytext/displaytext.go)

    How text from a peer is shown to a human: the hidden runes, the two
    renderings of approval summaries ([Name], [Quote]), the one-line
    diagnostic ([Line]) and the terminal and JSON renderings ([Escape],
    [Term], [Block], [JSON]). A [[]rune] is a list of [Z], a string its bytes,
    and a strings.Builder the list of the runes written to it. The tables of
    the package unicode are the operations of the class [Unicode]; the facts
    about them that the program relies on are the class [UnicodeLaws]. *)

From S2P Require Import Prelude Utf8 Canonical Strconv.

Open Scope Z_scope.

(** The tables of package unicode, as membership tests. *)
Class Unicode : Type := {
  Cf : Z → bool;
  Variation_Selector : Z → bool;
  Other_Default_Ignorable : Z → bool;
  Zs : Z → bool;
  IsGraphic : Z → bool;
  Mn : Z → bool;
  Mc : Z → bool;
  Me : Z → bool;
  Number : Z → bool;
  Lm : Z → bool;
  IsLetter : Z → bool;
  IsPunct : Z → bool;
  IsSymbol : Z → bool;
  ToUpper : Z → Z
}.

Definition MaxSummary : Z := 4096.
Definition maxMarks : Z := 2.
Definition lineScan : Z := 4096.
Definition minDigitRun : Z := 6.
Definition maxRunSeparators : Z := 8.
Definition maxGroupSeparators : Z := 8.
Definition maxDigitlessChain : nat := 3.

(** The rune that marks a cut or a blanked run, and its three bytes. *)
Definition dots : Z := 0x2026.
Definition ellipsis : bytes := [0xE2; 0x80; 0xA6].

Definition joinerLetters : list Z :=
  [0x01C0; 0x01C1; 0x01C2; 0x01C3; 0xA78F; 0x318D; 0x119E; 0x11A2; 0x16C1; 0x2D4F; 0xA7FE;
   0x05D5; 0x0627].

Definition fpAlphabet : bytes := bytes_of "0123456789ABCDEFGHJKMNPQRSTVWXYZ".

Definition fpConfusables : list (Z * Z) :=
  [(0x0410, 0x41); (0x0430, 0x41); (0x0412, 0x42); (0x0432, 0x42); (0x0415, 0x45); (0x0435, 0x45);
   (0x0417, 0x33); (0x0437, 0x33); (0x041A, 0x4B); (0x043A, 0x4B); (0x041C, 0x4D); (0x043C, 0x4D);
   (0x041D, 0x48); (0x043D, 0x48); (0x0420, 0x50); (0x0440, 0x50); (0x0421, 0x43); (0x0441, 0x43);
   (0x0422, 0x54); (0x0442, 0x54); (0x0423, 0x59); (0x0443, 0x59); (0x0425, 0x58); (0x0445, 0x58);
   (0x0405, 0x53); (0x0455, 0x53); (0x0408, 0x4A); (0x0458, 0x4A); (0x0431, 0x36); (0x04AE, 0x59);
   (0x04AF, 0x59); (0x0500, 0x44); (0x0501, 0x44); (0x051A, 0x51); (0x051B, 0x51); (0x051C, 0x57);
   (0x051D, 0x57); (0x0406, 0x49); (0x04C0, 0x49); (0x041E, 0x4F); (0x0391, 0x41); (0x03B1, 0x41);
   (0x0392, 0x42); (0x03B2, 0x42); (0x0395, 0x45); (0x0396, 0x5A); (0x0397, 0x48); (0x039A, 0x4B);
   (0x03BA, 0x4B); (0x039C, 0x4D); (0x039D, 0x4E); (0x03BD, 0x56); (0x03A1, 0x50); (0x03C1, 0x50);
   (0x03A4, 0x54); (0x03C4, 0x54); (0x03A5, 0x59); (0x03A7, 0x58); (0x03C7, 0x58); (0x03F2, 0x43);
   (0x03F9, 0x43); (0x037F, 0x4A); (0x0399, 0x49); (0x039F, 0x4F); (0x212A, 0x4B); (0x2102, 0x43);
   (0x210A, 0x47); (0x210B, 0x48); (0x210C, 0x48); (0x210D, 0x48); (0x210E, 0x48); (0x2115, 0x4E);
   (0x2119, 0x50); (0x211A, 0x51); (0x211B, 0x52); (0x211C, 0x52); (0x211D, 0x52); (0x2124, 0x5A);
   (0x2128, 0x5A); (0x212C, 0x42); (0x212D, 0x43); (0x212F, 0x45); (0x2130, 0x45); (0x2131, 0x46);
   (0x2133, 0x4D); (0x2145, 0x44); (0x2146, 0x44); (0x2147, 0x45); (0x2149, 0x4A); (0x1D00, 0x41);
   (0x0299, 0x42); (0x1D04, 0x43); (0x1D05, 0x44); (0x1D07, 0x45); (0xA730, 0x46); (0x0262, 0x47);
   (0x029C, 0x48); (0x1D0A, 0x4A); (0x1D0B, 0x4B); (0x1D0D, 0x4D); (0x0274, 0x4E); (0x1D18, 0x50);
   (0xA7AF, 0x51); (0x0280, 0x52); (0xA731, 0x53); (0x1D1B, 0x54); (0x1D20, 0x56); (0x1D21, 0x57);
   (0x028F, 0x59); (0x1D22, 0x5A); (0x026A, 0x49); (0x029F, 0x4C); (0x1D0F, 0x4F); (0xA4D0, 0x42);
   (0xA4D1, 0x50); (0xA4D3, 0x44); (0xA4D4, 0x54); (0xA4D6, 0x47); (0xA4D7, 0x4B); (0xA4D9, 0x4A);
   (0xA4DA, 0x43); (0xA4DC, 0x5A); (0xA4DD, 0x46); (0xA4DF, 0x4D); (0xA4E0, 0x4E); (0xA4E2, 0x53);
   (0xA4E3, 0x52); (0xA4E6, 0x56); (0xA4E7, 0x48); (0xA4EA, 0x57); (0xA4EB, 0x58); (0xA4EC, 0x59);
   (0xA4EE, 0x41); (0xA4F0, 0x45); (0xA4E1, 0x4C); (0xA4F2, 0x49); (0xA4F3, 0x4F); (0x13A0, 0x44);
   (0x13A1, 0x52); (0x13A2, 0x54); (0x13AA, 0x41); (0x13AB, 0x4A); (0x13AC, 0x45); (0x13B3, 0x57);
   (0x13B7, 0x4D); (0x13BB, 0x48); (0x13C0, 0x47); (0x13C3, 0x5A); (0x13CE, 0x34); (0x13D2, 0x52);
   (0x13D4, 0x57); (0x13D5, 0x53); (0x13D9, 0x56); (0x13DA, 0x53); (0x13DE, 0x4C); (0x13DF, 0x43);
   (0x13E2, 0x50); (0x13E6, 0x4B); (0x13EE, 0x36); (0x13F4, 0x42); (0x2160, 0x49); (0x2164, 0x56);
   (0x2169, 0x58); (0x216C, 0x4C); (0x216D, 0x43); (0x216E, 0x44); (0x216F, 0x4D)].

(** A lookup in a map literal: its keys are distinct. *)
Fixpoint assoc (r : Z) (l : list (Z * Z)) : option Z :=
  match l with
  | [] => None
  | (k, c) :: l => if r =? k then Some c else assoc r l
  end.

Section Display.
Context `{Unicode}.

(** ** The hidden runes *)

Definition isC0C1 (r : Z) : bool := in_range 0x00 0x1F r || in_range 0x7F 0x9F r.

Definition Hidden (r : Z) : bool :=
  if r =? 0x20 then false
  else isC0C1 r || Cf r || (r =? 0x2028) || (r =? 0x2029) || Variation_Selector r
       || Other_Default_Ignorable r || Zs r || (r =? 0x2800) || negb (IsGraphic r).

Definition rendersAsSpace (r : Z) : bool :=
  isC0C1 r || (r =? 0x2028) || (r =? 0x2029) || Zs r || (r =? 0x2800).

Definition isMark (r : Z) : bool := Mn r || Me r.
Definition isAnyMark (r : Z) : bool := Mn r || Mc r || Me r.
Definition isNumber (r : Z) : bool := Number r.

Definition Safe (s : bytes) : bool :=
  if negb (valid_utf8 s) || (MaxSummary <? Z.of_nat (length (runes s))) then false
  else forallb (λ r, negb (Hidden r)) (runes s).

(** ** clean: steps 1-3 of Name *)

(** The loop over the runes of the string: [rs] is what is kept so far. *)
Fixpoint clean_loop (s rs : list Z) (marks : Z) : list Z :=
  match s with
  | [] => rs
  | r :: s =>
      if Hidden r && negb (rendersAsSpace r) then clean_loop s rs marks
      else
        let r := if Hidden r then 0x20 else r in
        if (r =? 0x20) && match last rs with None => true | Some l => l =? 0x20 end
        then clean_loop s rs marks
        else if isMark r then
          if maxMarks <? marks + 1 then clean_loop s rs (marks + 1)
          else clean_loop s (rs ++ [r]) (marks + 1)
        else clean_loop s (rs ++ [r]) 0
  end.

Fixpoint skip_while (p : Z → bool) (l : list Z) : list Z :=
  match l with
  | r :: l' => if p r then skip_while p l' else l
  | [] => []
  end.
Definition trim_right (p : Z → bool) (l : list Z) : list Z := rev (skip_while p (rev l)).

Definition clean (s : bytes) : list Z := trim_right (λ r, r =? 0x20) (clean_loop (runes s) [] 0).

(** ** Line *)

Definition RuneStart (b : Z) : bool := negb (Z.land b 0xC0 =? 0x80).
Definition RuneLen (r : Z) : Z := Z.of_nat (length (encode_rune r)).

(** [for i > 0 && !utf8.RuneStart(s[i]) { i-- }]. *)
Fixpoint back_to_start (s : bytes) (i : nat) : nat :=
  match i with
  | O => O
  | S i' => if RuneStart (nth i s 0) then i else back_to_start s i'
  end.

(** The loop that finds the longest prefix of whole runes within the budget. *)
Fixpoint line_end (fuel : nat) (budget i e : Z) (out : bytes) : Z :=
  match fuel, out with
  | S fuel, _ :: _ =>
      let '(r, n) := decode_rune out in
      if budget <? i + RuneLen r then e
      else line_end fuel budget (i + Z.of_nat n) (i + RuneLen r) (drop n out)
  | _, _ => e
  end.

Definition Line (s : bytes) (maxBytes : Z) : bytes :=
  let '(s, cut) := if lineScan <? Z.of_nat (length s)
                   then (take (back_to_start s (Z.to_nat lineScan)) s, true) else (s, false) in
  let out := encode (clean s) in
  if negb cut && (Z.of_nat (length out) <=? maxBytes) then out
  else
    let budget := maxBytes - Z.of_nat (length ellipsis) in
    if budget <? 0 then []
    else
      let e := line_end (length out) budget 0 0 out in
      trim_right (λ b, b =? 0x20) (take (Z.to_nat e) out) ++ ellipsis.

(** ** Folding look-alikes *)

Definition mathGreek (i : Z) : Z :=
  if (i <=? 24) && negb (i =? 17) then 0x0391 + i
  else if in_range 26 50 i then 0x03B1 + i - 26
  else 0.

Definition fold_forms (r : Z) : Z :=
  if r <? 0x80 then r
  else if in_range 0xFF10 0xFF19 r then r - 0xFF10 + 0x30
  else if in_range 0xFF21 0xFF3A r then r - 0xFF21 + 0x41
  else if in_range 0xFF41 0xFF5A r then r - 0xFF41 + 0x41
  else if in_range 0x1D400 0x1D6A3 r then 0x41 + (r - 0x1D400) mod 52 mod 26
  else if in_range 0x1D6A8 0x1D7C9 r then mathGreek ((r - 0x1D6A8) mod 58)
  else if in_range 0x1D7CE 0x1D7FF r then 0x30 + (r - 0x1D7CE) mod 10
  else if in_range 0x2460 0x2468 r then r - 0x2460 + 0x31
  else if in_range 0x2474 0x247C r then r - 0x2474 + 0x31
  else if in_range 0x2488 0x2490 r then r - 0x2488 + 0x31
  else if in_range 0x249C 0x24E9 r then 0x41 + (r - 0x249C) mod 26
  else if (r =? 0x24EA) || (r =? 0x24FF) || (r =? 0x1F100) || (r =? 0x1F10B) || (r =? 0x1F10C) then 0x30
  else if in_range 0x24F5 0x24FD r then r - 0x24F5 + 0x31
  else if in_range 0x2776 0x2793 r then
    let i := (r - 0x2776) mod 10 in if i <? 9 then 0x31 + i else r
  else if in_range 0x1F101 0x1F10A r then r - 0x1F101 + 0x30
  else if in_range 0x1F110 0x1F189 r then
    let i := (r - 0x1F110) mod 32 in if i <? 26 then 0x41 + i else r
  else if in_range 0x1F1E6 0x1F1FF r then r - 0x1F1E6 + 0x41
  else r.

Definition fold (r : Z) : Z :=
  let r := fold_forms r in
  let r := if 0x80 <=? r then
             match assoc r fpConfusables with
             | Some c => c
             | None => match assoc (ToUpper r) fpConfusables with Some c => c | None => r end
             end
           else r in
  let u := ToUpper r in
  if in_range 0x30 0x39 u || in_range 0x41 0x5A u then u else 0.

Definition foldFP (r : Z) : Z :=
  let f := fold r in
  if negb (f =? 0) && bool_decide (f ∈ fpAlphabet) then f else 0.

Definition hasDigit (rs : list Z) : bool := existsb (λ r, in_range 0x30 0x39 (foldFP r)) rs.
Definition hasLetter (rs : list Z) : bool := existsb (λ r, in_range 0x41 0x5A (foldFP r)) rs.

Definition isJoinerLetter (r : Z) : bool := bool_decide (r ∈ joinerLetters) || Lm r.
Definition isSeparator (r : Z) : bool := (r =? 0x20) || IsPunct r || IsSymbol r || isJoinerLetter r.
Definition isDigitLike (r : Z) : bool :=
  if negb (IsLetter r) then false
  else let f := fold r in in_range 0x30 0x39 f || (f =? 0x49) || (f =? 0x4C) || (f =? 0x4F).

(** rs[i:e]. *)
Definition slice (rs : list Z) (i e : nat) : list Z := take (e - i) (drop i rs).

(** ** blankDigitRuns: step 4 of Name *)

Definition word (r : Z) : bool := IsLetter r && negb (isJoinerLetter r).

(** The nearest rune before index [k] that is no mark is not a word's. *)
Fixpoint alone_before (rs : list Z) (k : nat) : bool :=
  match k with
  | O => true
  | S k => let r := nth k rs 0 in if isAnyMark r then alone_before rs k else negb (word r)
  end.
Fixpoint alone_after (l : list Z) : bool :=
  match l with
  | [] => true
  | r :: l => if isAnyMark r then alone_after l else negb (word r)
  end.
Definition standsAlone (rs : list Z) (i : nat) : bool :=
  alone_before rs i && alone_after (drop (S i) rs).

(** num(i), for an index of the slice. *)
Definition num (rs : list Z) (i : nat) : bool :=
  match rs !! i with
  | Some r => isNumber r || (isDigitLike r && standsAlone rs i)
  | None => false
  end.

Fixpoint skip_marks (fuel : nat) (rs : list Z) (j : nat) : nat :=
  match fuel, rs !! j with
  | S fuel, Some r => if isAnyMark r then skip_marks fuel rs (S j) else j
  | _, _ => j
  end.

Fixpoint skip_seps (fuel : nat) (rs : list Z) (k : nat) (seps : Z) : nat :=
  match fuel, rs !! k with
  | S fuel, Some r =>
      if isAnyMark r then skip_seps fuel rs (S k) seps
      else if (seps <? maxRunSeparators) && isSeparator r && negb (num rs k)
      then skip_seps fuel rs (S k) (seps + 1)
      else k
  | _, _ => k
  end.

(** The loop over one run from index [j]: its count, how many of it are real
    numbers, and its end. Every loop consumes an index a turn, so the length
    of the slice is fuel enough. *)
Fixpoint digit_run (fuel : nat) (rs : list Z) (j : nat) (count realDigits : Z) (e : nat) : Z * Z * nat :=
  match fuel, rs !! j with
  | S fuel, Some r =>
      if negb (num rs j) then (count, realDigits, e)
      else
        let count := count + 1 in
        let realDigits := if isNumber r then realDigits + 1 else realDigits in
        let j := skip_marks (length rs) rs (S j) in
        let k := skip_seps (length rs) rs j 0 in
        if num rs k then digit_run fuel rs k count realDigits j else (count, realDigits, j)
  | _, _ => (count, realDigits, e)
  end.

Fixpoint digits_loop (fuel : nat) (rs : list Z) (i : nat) (out : list Z) : list Z :=
  match fuel, rs !! i with
  | S fuel, Some r =>
      if negb (num rs i) then digits_loop fuel rs (S i) (out ++ [r])
      else
        let '(count, realDigits, e) := digit_run (length rs) rs i 0 0 i in
        digits_loop fuel rs e
          (out ++ (if (minDigitRun <=? count) && (0 <? realDigits) then [dots] else slice rs i e))
  | _, _ => out
  end.

Definition blankDigitRuns (rs : list Z) : list Z := digits_loop (length rs) rs 0 [].

(** ** blankFingerprints: step 5 of Name *)

Record span := Span { start : nat; stop : nat; n : Z }.

Fixpoint run_end (fuel : nat) (rs : list Z) (j : nat) (n : Z) : nat * Z :=
  match fuel, rs !! j with
  | S fuel, Some r =>
      if negb (foldFP r =? 0) then run_end fuel rs (S j) (n + 1)
      else if isAnyMark r then run_end fuel rs (S j) n
      else (j, n)
  | _, _ => (j, n)
  end.

Fixpoint runs_loop (fuel : nat) (rs : list Z) (i : nat) (runs : list span) : list span :=
  match fuel, rs !! i with
  | S fuel, Some r =>
      if foldFP r =? 0 then runs_loop fuel rs (S i) runs
      else let '(j, n) := run_end (length rs) rs i 0 in runs_loop fuel rs j (runs ++ [Span i j n])
  | _, _ => runs
  end.

(** joined: the count of separators between two runs; None where another rune
    stands between them. *)
Fixpoint joined_seps (l : list Z) (seps : Z) : option Z :=
  match l with
  | [] => Some seps
  | r :: l => if isAnyMark r then joined_seps l seps
              else if isSeparator r then joined_seps l (seps + 1)
              else None
  end.
Definition joined (rs : list Z) (a b : span) : bool :=
  match joined_seps (slice rs (stop a) (start b)) 0 with
  | Some seps => (1 <=? seps) && (seps <=? maxGroupSeparators)
  | None => false
  end.

Fixpoint chain_last (fuel : nat) (rs : list Z) (runs : list span) (last : nat) : nat :=
  match fuel, runs !! last, runs !! S last with
  | S fuel, Some a, Some b =>
      if (n b =? 4) && joined rs a b then chain_last fuel rs runs (S last) else last
  | _, _, _ => last
  end.

Fixpoint blank_loop (fuel : nat) (rs : list Z) (runs : list span) (k : nat) (blank : list span) : list span :=
  match fuel, runs !! k with
  | S fuel, Some r =>
      let last := if n r =? 4 then chain_last (length runs) rs runs k else k in
      match (if (k <? last)%nat then runs !! last else None) with
      | Some l =>
          let chain := Span (start r) (stop l) 0 in
          blank_loop fuel rs runs (S last)
            (if (maxDigitlessChain <? last - k + 1)%nat || hasDigit (slice rs (start chain) (stop chain))
             then blank ++ [chain] else blank)
      | None =>
          blank_loop fuel rs runs (S k)
            (if (8 <=? n r) && hasDigit (slice rs (start r) (stop r)) && hasLetter (slice rs (start r) (stop r))
             then blank ++ [r] else blank)
      end
  | _, _ => blank
  end.

Fixpoint replace_spans (rs : list Z) (blank : list span) (prev : nat) (out : list Z) : list Z :=
  match blank with
  | [] => out ++ drop prev rs
  | b :: blank => replace_spans rs blank (stop b) (out ++ slice rs prev (start b) ++ [dots])
  end.

Definition blankFingerprints (rs : list Z) : list Z :=
  let runs := runs_loop (length rs) rs 0 [] in
  let blank := blank_loop (length runs) rs runs 0 [] in
  if bool_decide (blank = []) then rs else replace_spans rs blank 0 [].

(** ** Name *)

(** unicode.IsSpace: the White_Space characters. *)
Definition IsSpace (r : Z) : bool :=
  in_range 0x09 0x0D r || (r =? 0x20) || (r =? 0x85) || (r =? 0xA0) || (r =? 0x1680)
  || in_range 0x2000 0x200A r || (r =? 0x2028) || (r =? 0x2029) || (r =? 0x202F)
  || (r =? 0x205F) || (r =? 0x3000).

(** strings.TrimSpace of a valid string. *)
Definition TrimSpace (s : bytes) : bytes :=
  encode (trim_right IsSpace (skip_while IsSpace (runes s))).

Definition no_name : bytes := bytes_of "(no name)".

Definition Name (s : bytes) : bytes :=
  let rs := clean s in
  let rs := blankDigitRuns rs in
  let rs := blankFingerprints rs in
  let out := TrimSpace (encode rs) in
  if bool_decide (out = []) then no_name else out.

(** ** Quote *)

(** fmt's %04x of a value of 16 bits. *)
Definition hex04 (v : Z) : bytes :=
  [hexDigit (v / 4096); hexDigit (v / 256 mod 16); hexDigit (v / 16 mod 16); hexDigit (v mod 16)].
Definition u_escape (v : Z) : bytes := 0x5C :: 0x75 :: hex04 v.

(** The rune as \uXXXX, a surrogate pair above U+FFFF. *)
Definition json_escape (r : Z) : bytes := flat_map u_escape (utf16_rune r).

(** json.Encoder.Encode of a string, without SetEscapeHTML, less the newline:
    the string's bytes between the quotes. *)
Definition json_byte (b : Z) : bytes :=
  if (b =? 0x22) || (b =? 0x5C) then [0x5C; b]
  else if 0x20 <=? b then [b]
  else if b =? 0x08 then [0x5C; 0x62]
  else if b =? 0x0C then [0x5C; 0x66]
  else if b =? 0x0A then [0x5C; 0x6E]
  else if b =? 0x0D then [0x5C; 0x72]
  else if b =? 0x09 then [0x5C; 0x74]
  else [0x5C; 0x75; 0x30; 0x30; hexDigit (b / 16); hexDigit (b mod 16)].
Fixpoint json_body (fuel : nat) (s : bytes) : bytes :=
  match fuel, s with
  | S fuel, b :: s' =>
      if b <? 0x80 then json_byte b ++ json_body fuel s'
      else
        let '(r, n) := decode_rune s in
        if (r =? RuneError) && (n =? 1)%nat then u_escape 0xFFFD ++ json_body fuel (drop n s)
        else if (r =? 0x2028) || (r =? 0x2029) then u_escape r ++ json_body fuel (drop n s)
        else take n s ++ json_body fuel (drop n s)
  | _, _ => []
  end.
Definition json_encode (s : bytes) : bytes := 0x22 :: json_body (length s) s ++ [0x22].

Fixpoint quote_loop (rs : list Z) (marks : Z) : bytes :=
  match rs with
  | [] => []
  | r :: rs =>
      let escape := (r =? RuneError) || Hidden r in
      let marks := if isMark r then marks + 1 else 0 in
      let escape := if isMark r && (maxMarks <? marks) then true else escape in
      (if escape then json_escape r else encode_rune r) ++ quote_loop rs marks
  end.
Definition Quote (s : bytes) : bytes := quote_loop (runes (json_encode s)) 0.

(** ** The terminal renderings *)

(** fmt's %X: upper-case hex without padding. A rune has at most 8 digits. *)
Definition HexDigit (n : Z) : Z := nth (Z.to_nat n) (bytes_of "0123456789ABCDEF") 0.
Fixpoint hexX (fuel : nat) (n : Z) : bytes :=
  match fuel with
  | O => []
  | S fuel => (if n <? 16 then [] else hexX fuel (n / 16)) ++ [HexDigit (n mod 16)]
  end.

(** \u{XXXX}. *)
Definition brace_escape (r : Z) : list Z := [0x5C; 0x75; 0x7B] ++ hexX 8 r ++ [0x7D].

Fixpoint escape_loop (multiLine : bool) (rs : list Z) : list Z :=
  match rs with
  | [] => []
  | r :: rs =>
      if multiLine && ((r =? 0x0A) || (r =? 0x09)) then r :: escape_loop multiLine rs
      else if Hidden r then brace_escape r ++ escape_loop multiLine rs
      else r :: escape_loop multiLine rs
  end.
Definition Escape (s : bytes) (multiLine : bool) : bytes := encode (escape_loop multiLine (runes s)).

(** decision.Visible and device.DisplayQuote are these two renderings. *)
Definition Visible (s : bytes) (multiLine : bool) : bytes := Escape s multiLine.
Definition DisplayQuote (s : bytes) : bytes := Quote s.

Fixpoint term_loop (keepTab : bool) (rs : list Z) (marks : Z) : list Z :=
  match rs with
  | [] => []
  | r :: rs =>
      if keepTab && (r =? 0x09) then r :: term_loop keepTab rs 0
      else
        let escape := (r =? RuneError) || Hidden r in
        let marks := if isMark r then marks + 1 else 0 in
        let escape := if isMark r && (maxMarks <? marks) then true else escape in
        (if escape then brace_escape r else [r]) ++ term_loop keepTab rs marks
  end.
Definition term (s : bytes) (keepTab : bool) : bytes := encode (term_loop keepTab (runes s) 0).
Definition Term (s : bytes) : bytes := term s false.

(** strings.Split(s, newline): one piece more than there are newlines. *)
Fixpoint split_lines (s : bytes) : list bytes :=
  match s with
  | [] => [[]]
  | b :: s => if b =? 0x0A then [] :: split_lines s
              else match split_lines s with
                   | l :: ls => (b :: l) :: ls
                   | [] => [[b]]
                   end
  end.
(** strings.TrimSuffix(s, newline). *)
Definition trim_newline (s : bytes) : bytes :=
  match last s with Some 0x0A => removelast s | _ => s end.
(** strings.Join. *)
Fixpoint join (sep : bytes) (ls : list bytes) : bytes :=
  match ls with
  | [] => []
  | [l] => l
  | l :: ls => l ++ sep ++ join sep ls
  end.
Definition Block (s indent : bytes) : bytes :=
  join (0x0A :: indent) (map (λ l, term l true) (split_lines (trim_newline s))).

(** ** JSON *)

(** The loop over encoded JSON from index [i]; [out] is nil until the first
    rewritten rune, when the bytes before it are copied. *)
Fixpoint json_loop (fuel : nat) (b : bytes) (i : nat) (out : option bytes) : option bytes :=
  match fuel, drop i b with
  | S fuel, (c :: _) as rest =>
      let keep n := match out with Some o => Some (o ++ take n rest) | None => None end in
      let copied := match out with Some o => o | None => take i b end in
      if c <? 0x7F then json_loop fuel b (S i) (keep 1%nat)
      else
        let '(r, n) := decode_rune rest in
        if (r =? RuneError) && (n <=? 1)%nat
        then json_loop fuel b (i + n) (Some (copied ++ bytes_of "\ufffd"))
        else if negb (Hidden r) then json_loop fuel b (i + n) (keep n)
        else json_loop fuel b (i + n) (Some (copied ++ json_escape r))
  | _, _ => out
  end.
Definition JSON (b : bytes) : bytes :=
  match json_loop (length b) b 0 None with
  | None => b
  | Some out => out
  end.
End Display.

(** ** What the program relies on of the tables *)

(** An ordinary visible rune. *)
Definition plain `{Unicode} (r : Z) : Prop := Hidden r = false ∧ isAnyMark r = false.

Class UnicodeLaws `{Unicode} : Prop := {
  (** The printable ASCII characters are graphic and are no format
      characters, no other spaces and no marks. *)
  ascii_plain : ∀ r, 0x20 ≤ r ≤ 0x7E → plain r;
  (** Of them the digits are the numbers. *)
  ascii_number : ∀ r, 0x20 ≤ r ≤ 0x7E → Number r = in_range 0x30 0x39 r;
  (** The horizontal ellipsis is plain, a punctuation character without case. *)
  dots_plain : plain dots;
  dots_not_number : Number dots = false;
  dots_upper : ToUpper dots = dots;
  (** A rune has one general category: neither a number nor a letter is a
      mark. *)
  number_not_mark : ∀ r, Number r = true → isAnyMark r = false;
  letter_not_mark : ∀ r, IsLetter r = true → isAnyMark r = false
}.

(** ** Specifications *)

(** No stretch of [l] has more than [k] consecutive elements in [p]. *)
Definition runs_within {A} (p : A → bool) (k : nat) (l : list A) : Prop :=
  ∀ a w b, l = a ++ w ++ b → Forall (λ x, p x = true) w → (length w ≤ k)%nat.

(** What a terminal may be given: no hidden rune, no U+FFFD, and at most two
    combining marks in a row. *)
Definition terminal_safe `{Unicode} (rs : list Z) : Prop :=
  Forall (λ r, Hidden r = false ∧ r ≠ RuneError) rs ∧ runs_within isMark 2 rs.

(** The count of numbers, and a stretch that reads as one code: numbers with
    any marks and at most [maxRunSeparators] separators between two of them. *)
Definition count_numbers `{Unicode} (l : list Z) : nat := length (filter (λ r, isNumber r = true) l).
Fixpoint codelike `{Unicode} (seps : Z) (w : list Z) : bool :=
  match w with
  | [] => true
  | r :: w => if isNumber r then codelike 0 w
              else if isAnyMark r then codelike seps w
              else isSeparator r && (seps + 1 <=? maxRunSeparators) && codelike (seps + 1) w
  end.

(** [out] is [rs] with some stretches replaced by an ellipsis. *)
Inductive blanked : list Z → list Z → Prop :=
| blanked_nil : blanked [] []
| blanked_keep r rs out : blanked rs out → blanked (r :: rs) (r :: out)
| blanked_dots seg rs out : blanked rs out → blanked (seg ++ rs) (dots :: out).

(** ** Lemmas: stretches *)

(** The same bound as a scan: [c] elements in [p] stand just before [l]. *)
Fixpoint within {A} (p : A → bool) (k c : nat) (l : list A) : bool :=
  match l with
  | [] => true
  | x :: l => if p x then (S c <=? k)%nat && within p k (S c) l else within p k 0 l
  end.
Fixpoint trail {A} (p : A → bool) (c : nat) (l : list A) : nat :=
  match l with
  | [] => c
  | x :: l => if p x then trail p (S c) l else trail p 0 l
  end.

Lemma within_app {A} (p : A → bool) k c l1 l2 :
  within p k c (l1 ++ l2) = within p k c l1 && within p k (trail p c l1) l2.
Proof.
  revert c. induction l1 as [|x l1 IH]; intros c; simpl; [done|].
  destruct (p x); rewrite IH; [by rewrite andb_assoc|done].
Qed.

Lemma trail_app {A} (p : A → bool) c l1 l2 : trail p c (l1 ++ l2) = trail p (trail p c l1) l2.
Proof. revert c. induction l1 as [|x l1 IH]; intros c; simpl; [done|]. destruct (p x); apply IH. Qed.

Lemma within_mono {A} (p : A → bool) k c c' l : (c' ≤ c)%nat → within p k c l = true → within p k c' l = true.
Proof.
  revert c c'. induction l as [|x l IH]; intros c c' Hc; cbn [within]; [done|]. destruct (p x); [|done].
  rewrite !andb_true_iff, !Nat.leb_le. intros [??]. split; [lia|]. by eapply (IH (S c)); [lia|].
Qed.

Lemma within_window {A} (p : A → bool) k c w b : Forall (λ x, p x = true) w → within p k c (w ++ b) = true →
  w ≠ [] → (c + length w ≤ k)%nat.
Proof.
  intros Hw. revert c. induction Hw as [|x w Hx Hw IH]; intros c Hk Hne; [done|]. cbn [within app] in Hk. rewrite Hx in Hk.
  apply andb_true_iff in Hk as [H1 H2]. apply Nat.leb_le in H1. destruct w as [|y w]; simpl; [lia|].
  specialize (IH _ H2 ltac:(done)). simpl in IH. lia.
Qed.

Lemma within_runs {A} (p : A → bool) k l : within p k 0 l = true → runs_within p k l.
Proof.
  intros Hl a w b -> Hw. rewrite within_app in Hl. apply andb_true_iff in Hl as [_ Hl].
  destruct w as [|x w]; [simpl; lia|].
  pose proof (within_window _ _ _ _ _ Hw Hl ltac:(done)). lia.
Qed.

Lemma runs_within_scan {A} (p : A → bool) k l : runs_within p k l → within p k 0 l = true.
Proof.
  intros Hl. assert (∀ w l, Forall (λ x, p x = true) w → runs_within p k (w ++ l) → within p k (length w) l = true) as Hg.
  { clear l Hl. intros w l. revert w. induction l as [|x l IH]; intros w Hw Hl; cbn [within]; [done|].
    destruct (p x) eqn:Hx.
    - assert (Forall (λ x, p x = true) (w ++ [x])) as Hw' by (apply Forall_app; split; [done|by constructor]).
      apply andb_true_iff. split.
      + apply Nat.leb_le. specialize (Hl [] (w ++ [x]) l). rewrite length_app in Hl. simpl in Hl.
        rewrite <- app_assoc in Hl. specialize (Hl eq_refl Hw'). lia.
      + specialize (IH (w ++ [x]) Hw'). rewrite length_app, Nat.add_1_r in IH. apply IH.
        by rewrite <- app_assoc.
    - apply (IH []); [constructor|]. intros a v b Hv. apply (Hl (w ++ x :: a) v b).
      rewrite <- app_assoc. cbn [app] in Hv |- *. by rewrite Hv. }
  by apply (Hg [] l).
Qed.

Lemma runs_within_sub {A} (p : A → bool) k a l b : runs_within p k (a ++ l ++ b) → runs_within p k l.
Proof. intros H a' w b' -> . apply (H (a ++ a') w (b' ++ b)). by rewrite <- !app_assoc. Qed.

Lemma runs_within_cons {A} (p : A → bool) k x l : runs_within p k (x :: l) → runs_within p k l.
Proof. intros Hl. apply (runs_within_sub p k [x] l []). by rewrite app_nil_r. Qed.

(** ** Lemmas: blanked text *)

Lemma blanked_refl rs : blanked rs rs.
Proof. induction rs; by constructor. Qed.

Lemma blanked_app a a' b b' : blanked a a' → blanked b b' → blanked (a ++ b) (a' ++ b').
Proof.
  induction 1; intros Hb; [done|constructor; auto|]. rewrite <- app_assoc. constructor. auto.
Qed.

Lemma blanked_prefix rs out w b : blanked rs out → out = w ++ b → dots ∉ w →
  ∃ rs', rs = w ++ rs' ∧ blanked rs' b.
Proof.
  intros Hb. revert w. induction Hb as [|r rs out Hb IH|seg rs out Hb IH]; intros w Hw Hd.
  - destruct w; [|done]. exists []. simplify_eq/=. split; [done|constructor].
  - destruct w as [|x w]; simplify_eq/=.
    + exists (r :: rs). split; [done|by constructor].
    + destruct (IH w) as (rs' & -> & ?); [done|set_solver|]. by exists rs'.
  - destruct w as [|x w]; simplify_eq/=; [|set_solver].
    exists (seg ++ rs). split; [done|by constructor].
Qed.

Lemma blanked_window rs out a w b : blanked rs out → out = a ++ w ++ b → dots ∉ w →
  ∃ a' b', rs = a' ++ w ++ b'.
Proof.
  intros Hb. revert a. induction Hb as [|r rs out Hb IH|seg rs out Hb IH]; intros a Hw Hd.
  - destruct a, w; try done. by exists [], [].
  - destruct a as [|x a]; simplify_eq/=.
    + destruct (blanked_prefix (r :: rs) (r :: out) w b) as (rs' & -> & _); [by constructor|done|done|].
      by exists [], rs'.
    + destruct (IH a) as (a' & b' & ->); [done..|]. by exists (x :: a'), b'.
  - destruct a as [|x a]; simplify_eq/=.
    + destruct w as [|y w]; simplify_eq/=; [by exists [], (seg ++ rs)|set_solver].
    + destruct (IH a) as (a' & b' & ->); [done..|]. exists (seg ++ a'), b'. by rewrite <- app_assoc.
Qed.

Lemma blanked_runs_within p k rs out : p dots = false → blanked rs out → runs_within p k rs → runs_within p k out.
Proof.
  intros Hp Hb Hr a w b Hw Hf. destruct (blanked_window _ _ _ _ _ Hb Hw) as (a' & b' & ->).
  - intros Hd. rewrite Forall_forall in Hf. specialize (Hf _ Hd). congruence.
  - by eapply Hr.
Qed.

Lemma blanked_Forall (P : Z → Prop) rs out : P dots → blanked rs out → Forall P rs → Forall P out.
Proof.
  intros Hp. induction 1 as [|r rs out Hb IH|seg rs out Hb IH]; intros Hf; [done|..].
  - apply Forall_cons in Hf as [? ?]. constructor; auto.
  - apply Forall_app in Hf as [_ ?]. constructor; auto.
Qed.

(** ** Lemmas: the terminal renderings *)

Lemma runes_fuel_scalar n s : Forall (λ r, is_scalar r = true) (runes_fuel n s).
Proof.
  revert s. induction n as [|n IH]; intros [|b s]; try constructor. cbn [runes_fuel].
  destruct (decode_rune (b :: s)) as [r k] eqn:Hd. constructor; [by eapply decode_rune_scalar|apply IH].
Qed.

Lemma runes_all_scalar s : Forall (λ r, is_scalar r = true) (runes s).
Proof. apply runes_fuel_scalar. Qed.

Lemma scalar_low r : 0 ≤ r ≤ 0xD7FF → is_scalar r = true.
Proof. intros. apply is_scalar_spec. lia. Qed.

Definition printable (r : Z) : Prop := 0x20 ≤ r ≤ 0x7E.

Lemma HexDigit_printable n : printable (HexDigit (n mod 16)).
Proof.
  unfold printable, HexDigit. pose proof (Z.mod_pos_bound n 16 ltac:(lia)).
  assert (Z.to_nat (n mod 16) < 16)%nat as Hn by lia. revert Hn. generalize (Z.to_nat (n mod 16)). intros k Hk.
  do 16 (destruct k as [|k]; [vm_compute; split; discriminate|]). lia.
Qed.

Lemma hexX_printable k n : Forall printable (hexX k n).
Proof.
  revert n. induction k as [|k IH]; intros n; cbn [hexX]; [constructor|]. apply Forall_app. split.
  - case_match; [constructor|apply IH].
  - constructor; [apply HexDigit_printable|constructor].
Qed.

Lemma brace_printable r : Forall printable (brace_escape r).
Proof.
  unfold brace_escape. apply Forall_app; split; [repeat constructor; unfold printable; lia|].
  apply Forall_app; split; [apply hexX_printable|repeat constructor; unfold printable; lia].
Qed.

Lemma printable_scalar l : Forall printable l → Forall (λ r, is_scalar r = true) l.
Proof. intros Hl. eapply Forall_impl; [exact Hl|]. intros r Hr. apply scalar_low. unfold printable in Hr. lia. Qed.

Lemma last_app_ne {A} (l1 l2 : list A) : l2 ≠ [] → last (l1 ++ l2) = last l2.
Proof. intros Hl. rewrite last_app. destruct (last l2) eqn:Hx; [done|]. by apply last_None in Hx. Qed.

(** The loop that [Term] and [Quote] share: a rune that must not be shown as
    itself is written as its escape [esc]. *)
Fixpoint shown `{Unicode} (esc : Z → list Z) (keepTab : bool) (rs : list Z) (marks : Z) : list Z :=
  match rs with
  | [] => []
  | r :: rs =>
      if keepTab && (r =? 0x09) then r :: shown esc keepTab rs 0
      else
        let marks := if isMark r then marks + 1 else 0 in
        (if (if isMark r && (maxMarks <? marks) then true else (r =? RuneError) || Hidden r) then esc r else [r])
          ++ shown esc keepTab rs marks
  end.

Lemma term_shown `{Unicode} kt rs m : term_loop kt rs m = shown brace_escape kt rs m.
Proof.
  revert m. induction rs as [|r rs IH]; intros m; [done|]. cbn [term_loop shown].
  destruct (kt && (r =? 0x09))%bool; by rewrite IH.
Qed.

Definition scalars (rs : list Z) : Prop := Forall (λ r, is_scalar r = true) rs.

Section Terminal.
Context `{UnicodeLaws} (esc : Z → list Z).
Context (Hesc : ∀ r, is_scalar r = true → Forall printable (esc r) ∧ esc r ≠ []).

Lemma printable_plain r : printable r → Hidden r = false ∧ isMark r = false ∧ r ≠ RuneError ∧ r ≠ 0x09 ∧ r ≠ 0x0A.
Proof using H0.
  intros Hr. destruct (ascii_plain r Hr) as [Hh [[Hn _]%orb_false_iff He]%orb_false_iff].
  unfold isMark, printable, RuneError in *. rewrite Hn, He. split_and!; try done; lia.
Qed.

Lemma shown_printable kt l t m : Forall printable l → l ≠ [] → shown esc kt (l ++ t) m = l ++ shown esc kt t 0.
Proof using H0.
  intros Hl. revert m. induction Hl as [|r l Hr Hl IH]; intros m Hne; [done|].
  destruct (printable_plain r Hr) as (Hh & Hm & He & Ht & _). cbn [app shown].
  rewrite (proj2 (Z.eqb_neq _ _) Ht), andb_false_r, Hm, Hh, (proj2 (Z.eqb_neq _ _) He). cbn [andb orb app].
  f_equal. destruct l as [|r' l]; [done|]. by apply IH.
Qed.

Lemma shown_scalar kt rs m : scalars rs → scalars (shown esc kt rs m).
Proof using Hesc.
  intros Hrs. revert m. induction Hrs as [|r rs Hr Hrs IH]; intros m; [constructor|]. cbn [shown].
  destruct (kt && (r =? 0x09))%bool; [apply Forall_cons; split; [done|apply IH]|]. cbv zeta. apply Forall_app. split; [|apply IH].
  destruct (if (isMark r && _)%bool then true else _); [by apply printable_scalar, Hesc|by apply Forall_singleton].
Qed.

(** Every rune shown as itself is visible, but for a tab that is kept. *)
Lemma shown_visible kt rs m : scalars rs →
  Forall (λ r, (Hidden r = false ∧ r ≠ RuneError) ∨ kt = true ∧ r = 0x09) (shown esc kt rs m).
Proof.
  intros Hs. revert m. induction Hs as [|r rs Hr Hs IH]; intros m; [constructor|]. cbn [shown].
  destruct (kt && (r =? 0x09))%bool eqn:Ht.
  { constructor; [right|apply IH]. apply andb_true_iff in Ht as [? ?%Z.eqb_eq]. done. }
  cbv zeta. apply Forall_app. split; [|apply IH].
  destruct (if (isMark r && _)%bool then true else _) eqn:He.
  - eapply Forall_impl; [by apply Hesc|]. intros x Hx. left. destruct (printable_plain x Hx) as (? & ? & ? & ?). done.
  - constructor; [left|constructor]. destruct (isMark r && _)%bool; [done|].
    apply orb_false_iff in He as [?%Z.eqb_neq ?]. done.
Qed.

Lemma within_printable p c l : Forall printable l → l ≠ [] → (∀ r, printable r → p r = false) →
  within p 2 c l = true ∧ trail p c l = 0%nat.
Proof using Type.
  intros Hl Hne Hp. revert c Hne. induction Hl as [|r l Hr Hl IH]; intros c Hne; [done|]. cbn [within trail].
  rewrite Hp by done. destruct l as [|r' l]; [done|]. by apply IH.
Qed.

Lemma shown_marks rs (c : nat) m : scalars rs → Z.of_nat c ≤ m → within isMark 2 c (shown esc false rs m) = true.
Proof.
  intros Hs. revert c m. induction Hs as [|r rs Hr Hs IH]; intros c m Hc; [done|]. cbn [shown andb]. cbv zeta.
  rewrite within_app. set (m1 := if isMark r then m + 1 else 0).
  destruct (if (isMark r && (maxMarks <? m1))%bool then true else (r =? RuneError) || Hidden r) eqn:He.
  - destruct (Hesc r Hr). destruct (within_printable isMark c (esc r)) as [-> ->];
      [done|done|by intros x (_ & ? & _)%printable_plain|].
    cbn [andb]. apply IH. subst m1. destruct (isMark r); lia.
  - subst m1. cbn [within trail]. destruct (isMark r) eqn:Hk; cbn [andb] in *; [|by apply IH].
    destruct (maxMarks <? m + 1) eqn:H1; [done|]. unfold maxMarks in *. bprop.
    rewrite (proj2 (Nat.leb_le (S c) 2)) by lia. cbn [andb]. apply IH. lia.
Qed.

Lemma shown_fixed rs m : 0 ≤ m → Forall (λ r, Hidden r = false ∧ r ≠ RuneError) rs →
  within isMark 2 (Z.to_nat m) rs = true → shown esc false rs m = rs.
Proof using Type.
  intros Hm Hrs. revert m Hm. induction Hrs as [|r rs [Hh He] Hrs IH]; intros m Hm Hw; [done|].
  cbn [shown within andb] in *. cbv zeta. rewrite Hh, (proj2 (Z.eqb_neq _ _) He). cbn [orb].
  destruct (isMark r); cbn [andb].
  - apply andb_true_iff in Hw as [Hw1 Hw2]. apply Nat.leb_le in Hw1. unfold maxMarks.
    rewrite (proj2 (Z.ltb_ge 2 (m + 1))) by lia. cbn [app]. f_equal. apply IH; [lia|].
    by replace (Z.to_nat (m + 1)) with (S (Z.to_nat m)) by lia.
  - cbn [app]. f_equal. by apply IH.
Qed.

Lemma shown_safe rs : scalars rs → terminal_safe (shown esc false rs 0).
Proof.
  intros Hs. split; [|apply within_runs, shown_marks; [done|simpl; lia]].
  eapply Forall_impl; [by apply shown_visible|]. naive_solver.
Qed.
End Terminal.

Lemma brace_ok r : is_scalar r = true → Forall printable (brace_escape r) ∧ brace_escape r ≠ [].
Proof. split; [apply brace_printable|done]. Qed.

Lemma term_runes `{UnicodeLaws} s kt : runes (term s kt) = shown brace_escape kt (runes s) 0.
Proof.
  unfold term. rewrite term_shown. apply runes_encode, shown_scalar; [exact brace_ok|apply runes_all_scalar].
Qed.

(** A string whose runes hold no U+FFFD is valid. *)
Lemma valid_no_error n s : Forall (λ r, r ≠ RuneError) (runes_fuel n s) → valid_fuel n s = true.
Proof.
  revert s. induction n as [|n IH]; intros [|b s] Hr; try done. cbn [valid_fuel runes_fuel] in *.
  destruct (decode_rune (b :: s)) as [r k]. apply Forall_cons in Hr as [Hr Hrs].
  rewrite (proj2 (Z.eqb_neq _ _) Hr). cbn [andb negb]. by apply IH.
Qed.

Lemma terminal_safe_valid `{Unicode} s : terminal_safe (runes s) → valid_utf8 s = true.
Proof. intros [Hr _]. apply valid_no_error. eapply Forall_impl; [exact Hr|]. naive_solver. Qed.

(** ** Lemmas: trimming and lines *)

Lemma skip_while_spec p l : ∃ t, l = t ++ skip_while p l ∧ Forall (λ x, p x = true) t ∧
  (∀ x, head (skip_while p l) = Some x → p x = false).
Proof.
  induction l as [|x l IH]; [by exists []|]. simpl. destruct (p x) eqn:Hx.
  - destruct IH as (t & Hl & Ht & Hh). exists (x :: t). split_and!; [by rewrite Hl at 1|by constructor|done].
  - exists []. split_and!; [done|constructor|]. by intros y [= ->].
Qed.

Lemma trim_right_spec p l : ∃ t, l = trim_right p l ++ t ∧ Forall (λ x, p x = true) t ∧
  (∀ x, last (trim_right p l) = Some x → p x = false).
Proof.
  unfold trim_right. destruct (skip_while_spec p (rev l)) as (t & Hl & Ht & Hh). exists (rev t). split_and!.
  - rewrite <- rev_app_distr, <- Hl. by rewrite rev_involutive.
  - by apply List.Forall_rev.
  - intros x Hx. apply Hh. destruct (skip_while p (rev l)) as [|y l']; [done|].
    simpl in Hx. rewrite last_snoc in Hx. done.
Qed.

Lemma trim_right_snoc p l x : trim_right p (l ++ [x]) = if p x then trim_right p l else l ++ [x].
Proof.
  unfold trim_right. rewrite rev_app_distr. cbn [rev app skip_while]. destruct (p x); [done|].
  cbn [rev]. by rewrite rev_involutive.
Qed.

Lemma trim_right_all p l : Forall (λ x, p x = true) l → trim_right p l = [].
Proof.
  induction l as [|x l IH] using rev_ind; intros Hl; [done|]. apply Forall_app in Hl as [Hl Hx].
  rewrite trim_right_snoc. apply Forall_cons in Hx as [-> _]. by apply IH.
Qed.

Lemma encode_app a b : encode (a ++ b) = encode a ++ encode b.
Proof. apply flat_map_app. Qed.

Lemma encode_single r : encode [r] = encode_rune r.
Proof. unfold encode. simpl. by rewrite app_nil_r. Qed.

(** The bytes of an encoded rune: itself for ASCII, else none is ASCII. *)
Lemma encode_rune_ascii r : is_scalar r = true →
  encode_rune r = [r] ∧ r < 0x80 ∨ 0x80 ≤ r ∧ Forall (λ b, 0x80 ≤ b) (encode_rune r).
Proof.
  rewrite is_scalar_spec. intros Hr. unfold encode_rune. repeat (case_match; bprop); [left; split; [done|lia]|right..];
    (split; [lia|]; repeat constructor; zdivmod).
Qed.

Lemma encode_avoids c l : 0 ≤ c < 0x80 → Forall (λ r, is_scalar r = true) l → c ∉ l → c ∉ encode l.
Proof.
  intros Hc Hl. induction Hl as [|r l Hr Hl IH]; intros Hn; [apply not_elem_of_nil|].
  change (encode (r :: l)) with (encode_rune r ++ encode l). rewrite not_elem_of_app. split; [|apply IH; set_solver].
  destruct (encode_rune_ascii r Hr) as [[-> _]|[_ Hb]]; [set_solver|].
  intros Hin. rewrite Forall_forall in Hb. specialize (Hb _ Hin). lia.
Qed.

Lemma trim_spaces_encode l : Forall (λ r, is_scalar r = true) l →
  trim_right (λ b, b =? 0x20) (encode l) = encode (trim_right (λ r, r =? 0x20) l).
Proof.
  induction l as [|r l IH] using rev_ind; intros Hl; [done|]. apply Forall_app in Hl as [Hl Hr].
  apply Forall_cons in Hr as [Hr _]. rewrite trim_right_snoc, encode_app, encode_single.
  destruct (r =? 0x20) eqn:Hs; bprop.
  - subst r. change (encode_rune 0x20) with [0x20]. rewrite trim_right_snoc. by apply IH.
  - destruct (encode_rune_ascii r Hr) as [[He _]|[_ Hb]].
    + rewrite encode_app, encode_single, He, trim_right_snoc. by rewrite (proj2 (Z.eqb_neq r 0x20) Hs).
    + rewrite encode_app, encode_single. destruct (encode_rune r) as [|b bs _] eqn:E using rev_ind.
      { pose proof (encode_rune_length r) as Hlen. rewrite E in Hlen. simpl in Hlen. lia. }
      rewrite app_assoc, trim_right_snoc. apply Forall_app in Hb as [_ Hb]. apply Forall_cons in Hb as [Hb _].
      by rewrite (proj2 (Z.eqb_neq b 0x20)) by lia.
Qed.

Lemma split_lines_ne s : split_lines s ≠ [].
Proof. destruct s as [|b s]; [done|]. simpl. by destruct (b =? 0x0A), (split_lines s). Qed.

Lemma split_lines_plain l : 0x0A ∉ l → split_lines l = [l].
Proof.
  induction l as [|b l IH]; intros Hl; [done|]. simpl. rewrite IH by set_solver.
  by rewrite (proj2 (Z.eqb_neq b 0x0A)) by set_solver.
Qed.

Lemma split_lines_app l s : 0x0A ∉ l → split_lines (l ++ 0x0A :: s) = l :: split_lines s.
Proof.
  induction l as [|b l IH]; intros Hl; [done|]. cbn [app]. simpl. rewrite IH by set_solver.
  by rewrite (proj2 (Z.eqb_neq b 0x0A)) by set_solver.
Qed.

(** A joined text splits into the first line and the others after their indent. *)
Lemma split_join indent l ls : 0x0A ∉ indent → Forall (λ l, 0x0A ∉ l) (l :: ls) →
  split_lines (join (0x0A :: indent) (l :: ls)) = l :: map (λ l, indent ++ l) ls.
Proof.
  intros Hi. assert (∀ l ls, Forall (λ l, 0x0A ∉ l) (l :: ls) →
    split_lines (indent ++ join (0x0A :: indent) (l :: ls)) = (indent ++ l) :: map (λ l, indent ++ l) ls) as Hj.
  { clear l ls. intros l ls. revert l. induction ls as [|l' ls IH]; intros l Hl; apply Forall_cons in Hl as [Hl Hls].
    - cbn [join]. apply split_lines_plain. rewrite not_elem_of_app. done.
    - change (join (0x0A :: indent) (l :: l' :: ls)) with (l ++ 0x0A :: indent ++ join (0x0A :: indent) (l' :: ls)).
      rewrite app_assoc, split_lines_app by (rewrite not_elem_of_app; done). by rewrite IH. }
  intros Hl. apply Forall_cons in Hl as [Hl Hls]. destruct ls as [|l' ls]; [by apply split_lines_plain|].
  change (join (0x0A :: indent) (l :: l' :: ls)) with (l ++ 0x0A :: indent ++ join (0x0A :: indent) (l' :: ls)).
  rewrite split_lines_app by done. by rewrite Hj.
Qed.

(** ** Lemmas: clean *)

(** A text that shows as one line of what it holds. *)
Record clean_text `{Unicode} (rs : list Z) : Prop := {
  clean_visible : Forall (λ r, Hidden r = false ∧ is_scalar r = true) rs;
  clean_marks : runs_within isMark 2 rs;
  clean_spaces : runs_within (λ r, r =? 0x20) 1 rs;
  clean_head : head rs ≠ Some 0x20
}.

Lemma runs_within_snoc {A} (p : A → bool) k l x : within p k 0 l = true →
  (p x = true → (trail p 0 l < k)%nat) → within p k 0 (l ++ [x]) = true.
Proof.
  intros Hl Hx. rewrite within_app, Hl. cbn [within andb]. destruct (p x); [|done].
  rewrite andb_true_r. apply Nat.leb_le. by specialize (Hx eq_refl).
Qed.

Lemma trail_last {A} (p : A → bool) l x : last l = Some x → p x = false → trail p 0 l = 0%nat.
Proof. intros (l' & ->)%last_snoc_inv Hx. rewrite trail_app. simpl. by rewrite Hx. Qed.

Lemma head_app_ne {A} (l1 l2 : list A) : l1 ≠ [] → head (l1 ++ l2) = head l1.
Proof. by destruct l1. Qed.

Section Clean.
Context `{UnicodeLaws}.

Lemma space_not_mark : isMark 0x20 = false.
Proof. by destruct (printable_plain 0x20) as (_ & ? & _); [unfold printable; lia|]. Qed.

(** What the loop keeps so far, and how many marks end it. *)
Definition clean_so_far (rs : list Z) (marks : Z) : Prop :=
  Forall (λ r, Hidden r = false ∧ is_scalar r = true) rs ∧ within isMark 2 0 rs = true ∧
  within (λ r, r =? 0x20) 1 0 rs = true ∧ head rs ≠ Some 0x20 ∧
  0 ≤ marks ∧ Z.of_nat (trail isMark 0 rs) ≤ marks.

Lemma clean_so_far_snoc rs marks r : clean_so_far rs marks → Hidden r = false → is_scalar r = true →
  (isMark r = true → marks < 2) →
  (r = 0x20 → ∃ l, last rs = Some l ∧ l ≠ 0x20) →
  clean_so_far (rs ++ [r]) (if isMark r then marks + 1 else 0).
Proof.
  intros (Hv & Hm & Hs & Hh & Hp & Ht) Hr Hsc Hk Hsp. split_and!.
  - apply Forall_app. split; [done|]. by constructor.
  - apply runs_within_snoc; [done|]. intros Hk'. specialize (Hk Hk'). lia.
  - apply runs_within_snoc; [done|]. intros He%Z.eqb_eq. destruct (Hsp He) as (l & Hl & Hne).
    rewrite (trail_last _ _ _ Hl); [lia|]. by apply Z.eqb_neq.
  - destruct rs as [|x rs]; [|done]. cbn. intros [= ->]. by destruct (Hsp eq_refl) as (l & ? & _).
  - destruct (isMark r); lia.
  - rewrite trail_app. simpl. destruct (isMark r); simpl; lia.
Qed.

Lemma clean_so_far_mono rs marks marks' : clean_so_far rs marks → marks ≤ marks' → clean_so_far rs marks'.
Proof. intros (?&?&?&?&?&?) ?. split_and!; try done; lia. Qed.

Lemma clean_loop_ok s rs marks : Forall (λ r, is_scalar r = true) s → clean_so_far rs marks →
  ∃ m, clean_so_far (clean_loop s rs marks) m.
Proof.
  intros Hs. revert rs marks. induction Hs as [|r s Hr Hs IH]; intros rs marks Hc; [by exists marks|].
  cbn [clean_loop]. destruct (Hidden r && negb (rendersAsSpace r))%bool; [by apply IH|]. cbv zeta.
  set (r' := if Hidden r then 0x20 else r).
  assert (Hidden r' = false ∧ is_scalar r' = true) as [Hh Hr'].
  { subst r'. destruct (Hidden r) eqn:E; [|done]. done. }
  destruct ((r' =? 0x20) && _)%bool eqn:Hsp; [by apply IH|].
  assert (r' = 0x20 → ∃ l, last rs = Some l ∧ l ≠ 0x20) as Hl.
  { intros He. rewrite He in Hsp. cbn in Hsp. destruct (last rs) as [l|]; [|done].
    exists l. split; [done|]. by apply Z.eqb_neq. }
  assert (0 ≤ marks) as Hp by apply Hc.
  pose proof (clean_so_far_snoc rs marks r' Hc Hh Hr') as Hsn.
  destruct (isMark r'); [unfold maxMarks; destruct (2 <? marks + 1) eqn:H1|]; bprop; apply IH.
  - eapply clean_so_far_mono; [done|lia].
  - apply Hsn; [lia|done].
  - by apply Hsn.
Qed.

Lemma clean_sub (a b : list Z) : clean_text (a ++ b) → clean_text a.
Proof.
  intros [Hv Hm Hs Hh]. split.
  - by apply Forall_app in Hv as [? _].
  - by apply (runs_within_sub _ _ [] a b).
  - by apply (runs_within_sub _ _ [] a b).
  - by destruct a.
Qed.

(** clean: no hidden rune, at most two marks in a row, single spaces, none at
    either end. *)
Lemma clean_clean s : clean_text (clean s) ∧ ∀ x, last (clean s) = Some x → x ≠ 0x20.
Proof.
  destruct (clean_loop_ok (runes s) [] 0) as (m & Hv & Hm & Hs & Hh & _).
  { apply runes_all_scalar. }
  { split_and!; try done. }
  unfold clean. destruct (trim_right_spec (λ r, r =? 0x20) (clean_loop (runes s) [] 0)) as (t & Hl & _ & Hx). split.
  - apply (clean_sub _ t). rewrite <- Hl. split; [done|by apply within_runs..|done].
  - intros x Hlast. specialize (Hx _ Hlast). by apply Z.eqb_neq.
Qed.

Lemma clean_scalar s : Forall (λ r, is_scalar r = true) (clean s).
Proof. destruct (clean_clean s) as [[Hv _ _ _] _]. eapply Forall_impl; [exact Hv|]. naive_solver. Qed.
End Clean.

(** ** Lemmas: Line *)

(** The cut of an encoded text: the longest prefix of whole runes within the
    budget. *)
Lemma line_end_spec n budget pre rs : Forall (λ r, is_scalar r = true) rs →
  (length (encode rs) ≤ n)%nat → Z.of_nat (length (encode pre)) ≤ budget →
  ∃ k, line_end n budget (Z.of_nat (length (encode pre))) (Z.of_nat (length (encode pre))) (encode rs) =
       Z.of_nat (length (encode (pre ++ take k rs))) ∧
       Z.of_nat (length (encode (pre ++ take k rs))) ≤ budget ∧
       (k = length rs ∨ (k < length rs)%nat ∧ budget < Z.of_nat (length (encode (pre ++ take (S k) rs)))).
Proof.
  intros Hrs. revert n pre. induction Hrs as [|r rs Hr Hrs IH]; intros n pre Hn Hb.
  { exists 0%nat. rewrite app_nil_r. split_and!; [by destruct n|done|by left]. }
  change (encode (r :: rs)) with (encode_rune r ++ encode rs) in *.
  pose proof (encode_rune_length r) as Hl. pose proof (decode_encode_rune r (encode rs) Hr) as Hd.
  destruct n as [|n]; [rewrite length_app in Hn; lia|]. cbn [line_end].
  destruct (encode_rune r ++ encode rs) as [|b bs] eqn:Hbs; [destruct (encode_rune r); simpl in *; [lia|done]|].
  rewrite Hd. unfold RuneLen.
  assert (Z.of_nat (length (encode pre)) + Z.of_nat (length (encode_rune r)) = Z.of_nat (length (encode (pre ++ [r])))) as Hlen.
  { rewrite encode_app, encode_single, length_app. lia. }
  rewrite Hlen. destruct (budget <? Z.of_nat (length (encode (pre ++ [r])))) eqn:Hlt; bprop.
  - exists 0%nat. cbn [take]. rewrite app_nil_r. split_and!; [done|done|]. right. split; [simpl; lia|done].
  - rewrite <- Hbs, drop_app_length.
    destruct (IH n (pre ++ [r])) as (k & He & Hk & Hm); [|done|].
    { rewrite <- Hbs, length_app in Hn. lia. }
    exists (S k). cbn [take length]. rewrite <- !app_assoc in *. cbn [app] in *.
    split_and!; [done|done|]. destruct Hm as [->|[? Hm]]; [by left|right; split; [lia|]].
    done.
Qed.

Lemma take_encode k rs : take (length (encode (take k rs))) (encode rs) = encode (take k rs).
Proof. rewrite <- (take_drop k rs) at 2. rewrite encode_app. apply take_app_length. Qed.

(** ** Lemmas: the text after step 3 *)

Section Blanking.
Context `{UnicodeLaws}.

Lemma dots_facts : Hidden dots = false ∧ isMark dots = false ∧ isAnyMark dots = false ∧ is_scalar dots = true.
Proof.
  destruct dots_plain as [Hh Hm]. split_and!; try done. unfold isMark, isAnyMark in *.
  apply orb_false_iff in Hm as [[-> _]%orb_false_iff ->]. done.
Qed.

(** Blanking keeps text clean: an ellipsis is neither space nor mark. *)
Lemma blanked_clean rs out : blanked rs out → clean_text rs → head out ≠ Some 0x20 → clean_text out.
Proof.
  intros Hb [Hv Hm Hs Hh] Hout. destruct dots_facts as (? & ? & _ & ?). split; [..|done].
  - by eapply blanked_Forall.
  - by eapply blanked_runs_within.
  - by eapply blanked_runs_within.
Qed.

Lemma blanked_head rs out : blanked rs out → head rs ≠ Some 0x20 → head out ≠ Some 0x20.
Proof. by destruct 1. Qed.

Lemma blanked_scalar rs out : blanked rs out → Forall (λ r, is_scalar r = true) rs → Forall (λ r, is_scalar r = true) out.
Proof. apply blanked_Forall. done. Qed.
End Blanking.

(** ** Lemmas: blankDigitRuns *)

Lemma slice_nil rs i : slice rs i i = [].
Proof. unfold slice. by rewrite Nat.sub_diag. Qed.

Lemma slice_app rs i j e : (i ≤ j ≤ e)%nat → slice rs i e = slice rs i j ++ slice rs j e.
Proof.
  intros Hij. unfold slice. replace (e - i)%nat with ((j - i) + (e - j))%nat by lia.
  rewrite <- (take_drop (j - i) (take (j - i + (e - j)) (drop i rs))).
  rewrite take_take, Nat.min_l by lia. f_equal. rewrite skipn_firstn_comm.
  replace (j - i + (e - j) - (j - i))%nat with (e - j)%nat by lia. f_equal.
  rewrite drop_drop. f_equal. lia.
Qed.

Lemma slice_one rs i r : rs !! i = Some r → slice rs i (S i) = [r].
Proof.
  intros Hi. unfold slice. replace (S i - i)%nat with 1%nat by lia. by rewrite (drop_S _ _ _ Hi).
Qed.

Lemma drop_slice rs i e : (i ≤ e)%nat → drop i rs = slice rs i e ++ drop e rs.
Proof.
  intros Hi. unfold slice. rewrite <- (take_drop (e - i) (drop i rs)) at 1. f_equal.
  rewrite drop_drop. f_equal. lia.
Qed.

Lemma slice_Forall (P : Z → Prop) rs i e :
  (∀ k r, (i ≤ k < e)%nat → rs !! k = Some r → P r) → Forall P (slice rs i e).
Proof.
  intros HP. apply Forall_lookup. intros k r. unfold slice. rewrite lookup_take_Some, lookup_drop.
  intros [Hk ?]. eapply HP; [|done]. lia.
Qed.

Lemma count_numbers_app `{Unicode} a b : count_numbers (a ++ b) = (count_numbers a + count_numbers b)%nat.
Proof. unfold count_numbers. by rewrite filter_app, length_app. Qed.

Lemma count_numbers_cons `{Unicode} r l : count_numbers (r :: l) = ((if isNumber r then 1 else 0) + count_numbers l)%nat.
Proof.
  unfold count_numbers. rewrite filter_cons. destruct (isNumber r); [by rewrite decide_True|by rewrite decide_False].
Qed.

Lemma count_numbers_none `{Unicode} l : Forall (λ r, isNumber r = false) l → count_numbers l = 0%nat.
Proof. induction 1 as [|r l Hr Hl IH]; [done|]. by rewrite count_numbers_cons, Hr, IH. Qed.

Section Digits.
Context `{UnicodeLaws} (rs : list Z).

Lemma num_not_mark i r : rs !! i = Some r → num rs i = true → isAnyMark r = false.
Proof.
  unfold num. intros ->. intros [?|[Hd _]%andb_true_iff]%orb_true_iff; [by apply number_not_mark|].
  apply letter_not_mark. unfold isDigitLike in Hd. by destruct (IsLetter r).
Qed.

Lemma num_number i r : rs !! i = Some r → num rs i = false → isNumber r = false.
Proof. unfold num. intros ->. by intros [? _]%orb_false_iff. Qed.

Lemma mark_number r : isAnyMark r = true → isNumber r = false.
Proof. intros Hm. destruct (isNumber r) eqn:Hn; [|done]. apply number_not_mark in Hn. congruence. Qed.

Lemma skip_marks_spec n j : (length rs - j ≤ n)%nat → (j ≤ length rs)%nat →
  (j ≤ skip_marks n rs j ≤ length rs)%nat ∧
  ∀ k r, (j ≤ k < skip_marks n rs j)%nat → rs !! k = Some r → isNumber r = false.
Proof.
  revert j. induction n as [|n IH]; intros j Hn Hj; cbn [skip_marks].
  { split; [lia|]. intros; lia. }
  destruct (rs !! j) as [r|] eqn:Hr; [|split; [lia|intros; lia]].
  destruct (isAnyMark r) eqn:Hm; [|split; [lia|intros; lia]].
  apply lookup_lt_Some in Hr as Hlt. destruct (IH (S j)) as [Hb Ha]; [lia..|]. split; [lia|].
  intros k r' Hk Hr'. destruct (decide (k = j)) as [->|]; [|apply (Ha k); [lia|done]].
  simplify_eq. by apply mark_number.
Qed.

Lemma skip_seps_spec n k seps : (length rs - k ≤ n)%nat → (k ≤ length rs)%nat →
  (k ≤ skip_seps n rs k seps ≤ length rs)%nat ∧
  ∀ x r, (k ≤ x < skip_seps n rs k seps)%nat → rs !! x = Some r → isNumber r = false.
Proof.
  revert k seps. induction n as [|n IH]; intros k seps Hn Hk; cbn [skip_seps].
  { split; [lia|]. intros; lia. }
  destruct (rs !! k) as [r|] eqn:Hr; [|split; [lia|intros; lia]]. apply lookup_lt_Some in Hr as Hlt.
  destruct (isAnyMark r) eqn:Hm; [|destruct ((seps <? maxRunSeparators) && isSeparator r && negb (num rs k))%bool eqn:Hs;
    [|split; [lia|intros; lia]]].
  - destruct (IH (S k) seps) as [Hb Ha]; [lia..|]. split; [lia|].
    intros x r' Hx Hr'. destruct (decide (x = k)) as [->|]; [|apply (Ha x); [lia|done]].
    simplify_eq. by apply mark_number.
  - destruct (IH (S k) (seps + 1)) as [Hb Ha]; [lia..|]. split; [lia|].
    intros x r' Hx Hr'. destruct (decide (x = k)) as [->|]; [|apply (Ha x); [lia|done]].
    simplify_eq. apply andb_true_iff in Hs as [_ Hs]. apply negb_true_iff in Hs. by eapply num_number.
Qed.

(** From index [e], with [seps] separators behind, no number follows within
    the separators a run allows. *)
Definition blocked (seps : Z) (e : nat) : Prop :=
  ∃ n, (length rs - e ≤ n)%nat ∧ num rs (skip_seps n rs e seps) = false.

(** One run: where it ends, what it counts, and that it is maximal. *)
Lemma digit_run_spec n j c d e c' d' e' : (length rs - j ≤ n)%nat → num rs j = true →
  digit_run n rs j c d e = (c', d', e') →
  (j < e' ≤ length rs)%nat ∧ d' = d + Z.of_nat (count_numbers (slice rs j e')) ∧
  c + Z.of_nat (count_numbers (slice rs j e')) ≤ c' ∧ blocked 0 e'.
Proof.
  revert j c d e. induction n as [|n IH]; intros j c d e Hn Hj Hrun.
  { unfold num in Hj. by rewrite lookup_ge_None_2 in Hj by lia. }
  cbn [digit_run] in Hrun.
  destruct (rs !! j) as [r|] eqn:Hr; [|by unfold num in Hj; rewrite Hr in Hj].
  apply lookup_lt_Some in Hr as Hlt. rewrite Hj in Hrun. cbn [negb] in Hrun. cbv zeta in Hrun.
  set (j1 := skip_marks (length rs) rs (S j)) in *. set (k := skip_seps (length rs) rs j1 0) in *.
  destruct (skip_marks_spec (length rs) (S j)) as [Hb1 Ha1]; [lia..|]. fold j1 in Hb1, Ha1.
  destruct (skip_seps_spec (length rs) j1 0) as [Hb2 Ha2]; [lia..|]. fold k in Hb2, Ha2.
  assert (count_numbers (slice rs j j1) = if isNumber r then 1%nat else 0%nat) as Hone.
  { rewrite (slice_app rs j (S j) j1) by lia. rewrite (slice_one _ _ _ Hr), count_numbers_app, count_numbers_cons.
    rewrite (count_numbers_none (slice rs (S j) j1)) by by apply slice_Forall.
    unfold count_numbers at 1. cbn. lia. }
  destruct (num rs k) eqn:Hk.
  - apply IH in Hrun as (Hlt' & -> & Hc & Hbl); [|lia|done].
    rewrite (slice_app rs j j1 e'), (slice_app rs j1 k e'), !count_numbers_app by lia.
    rewrite Hone, (count_numbers_none (slice rs j1 k)) by by apply slice_Forall.
    split_and!; [lia|lia|destruct (isNumber r); lia|destruct (isNumber r); lia|done].
  - simplify_eq. rewrite Hone. split_and!; [lia|lia|destruct (isNumber r); lia|destruct (isNumber r); lia|].
    exists (length rs). split; [lia|done].
Qed.

(** The output from index [i] on, piece by piece. *)
Inductive pieces : nat → list Z → Prop :=
| pieces_end i : rs !! i = None → pieces i []
| pieces_single i r o : rs !! i = Some r → num rs i = false → pieces (S i) o → pieces i (r :: o)
| pieces_kept i e o : num rs i = true → (i < e ≤ length rs)%nat → (count_numbers (slice rs i e) < 6)%nat →
    blocked 0 e → pieces e o → pieces i (slice rs i e ++ o)
| pieces_blank i e o : num rs i = true → (i < e ≤ length rs)%nat → (0 < count_numbers (slice rs i e))%nat →
    pieces e o → pieces i (dots :: o).

Lemma digits_loop_pieces n i out : (length rs - i ≤ n)%nat →
  ∃ o, digits_loop n rs i out = out ++ o ∧ pieces i o.
Proof.
  revert i out. induction n as [|n IH]; intros i out Hn; cbn [digits_loop].
  { exists []. rewrite app_nil_r. split; [done|]. constructor. apply lookup_ge_None_2. lia. }
  destruct (rs !! i) as [r|] eqn:Hr; [|exists []; rewrite app_nil_r; split; [done|by constructor]].
  apply lookup_lt_Some in Hr as Hlt. destruct (num rs i) eqn:Hi; cbn [negb].
  - destruct (digit_run (length rs) rs i 0 0 i) as [[c d] e] eqn:Hrun.
    apply digit_run_spec in Hrun as (Hb & -> & Hc & Hbl); [|lia|done].
    destruct (IH e (out ++ (if (minDigitRun <=? c) && (0 <? 0 + Z.of_nat (count_numbers (slice rs i e)))
      then [dots] else slice rs i e))) as (o & -> & Ho); [lia|].
    rewrite <- app_assoc. eexists. split; [reflexivity|].
    destruct ((minDigitRun <=? c) && _)%bool eqn:Hd.
    + apply andb_true_iff in Hd as [_ Hd%Z.ltb_lt]. cbn [app]. eapply pieces_blank; [done..| |done]. lia.
    + apply pieces_kept; [done..| |done|done]. unfold minDigitRun in Hd.
      apply andb_false_iff in Hd as [Hd%Z.leb_gt|Hd%Z.ltb_ge]; lia.
  - destruct (IH (S i) (out ++ [r])) as (o & -> & Ho); [lia|]. exists (r :: o). rewrite <- app_assoc.
    split; [done|]. by apply pieces_single.
Qed.
End Digits.

(** ** Lemmas: no code survives step 4 *)

Lemma codelike_suffix `{Unicode} s w1 w2 : 0 ≤ s → codelike s (w1 ++ w2) = true → ∃ s', 0 ≤ s' ∧ codelike s' w2 = true.
Proof.
  revert s. induction w1 as [|r w1 IH]; intros s Hs Hc; [by exists s|]. cbn [app codelike] in Hc.
  destruct (isNumber r); [by apply (IH 0)|]. destruct (isAnyMark r); [by apply (IH s)|].
  apply andb_true_iff in Hc as [_ Hc]. apply (IH (s + 1)); [lia|done].
Qed.

Lemma codelike_numbers `{Unicode} w : Forall (λ r, isNumber r = true) w → codelike 0 w = true ∧ count_numbers w = length w.
Proof.
  induction 1 as [|r w Hr Hw [IH1 IH2]]; [done|]. cbn [codelike length].
  rewrite count_numbers_cons, Hr, IH2. done.
Qed.

Section Codes.
Context `{UnicodeLaws} (rs : list Z).

Lemma blocked_step s e r : blocked rs s e → rs !! e = Some r → num rs e = false →
  if isAnyMark r then blocked rs s (S e)
  else isSeparator r = true → s < maxRunSeparators → blocked rs (s + 1) (S e).
Proof.
  intros (n & Hn & Hb) Hr He. apply lookup_lt_Some in Hr as Hlt. destruct n as [|n]; [lia|].
  cbn [skip_seps] in Hb. rewrite Hr in Hb. destruct (isAnyMark r); [exists n; split; [lia|done]|].
  intros Hs Hl. exists n. rewrite Hs, He, (proj2 (Z.ltb_lt _ _) Hl) in Hb. split; [lia|done].
Qed.

Lemma blocked_num s e : blocked rs s e → num rs e = true → False.
Proof.
  intros (n & Hn & Hb) He. assert (skip_seps n rs e s = e) as Hk; [|congruence].
  destruct n as [|n]; [done|]. cbn [skip_seps]. destruct (rs !! e) as [r|] eqn:Hr; [|done].
  rewrite (num_not_mark _ _ _ Hr He), He. by rewrite andb_false_r.
Qed.

Lemma blocked_pieces s s' e o w b : pieces rs e o → blocked rs s e → o = w ++ b → s ≤ s' →
  codelike s' w = true → count_numbers w = 0%nat.
Proof.
  intros Hp. revert s s' w. induction Hp as [e He|e r o Hr Hn Hp IH|e e' o He Hlt Hc Hb Hp IH|e e' o He Hlt Hc Hp IH];
    intros s s' w Hbl Hw Hs Hcode; (destruct w as [|x w]; [done|]); simplify_eq/=.
  - pose proof (num_number rs _ _ Hr Hn) as Hnr. rewrite Hnr in Hcode. rewrite count_numbers_cons, Hnr.
    pose proof (blocked_step _ _ _ Hbl Hr Hn) as Hstep. destruct (isAnyMark x).
    + by eapply (IH s s').
    + bprop. by eapply (IH (s + 1) (s' + 1)); [apply Hstep; [done|unfold maxRunSeparators in *; lia]|done|lia|].
  - exfalso. by eapply blocked_num.
  - exfalso. by eapply blocked_num.
Qed.

Lemma count_numbers_le a b : (count_numbers a ≤ count_numbers (a ++ b))%nat ∧ (count_numbers b ≤ count_numbers (a ++ b))%nat.
Proof. rewrite count_numbers_app. lia. Qed.

Lemma pieces_codes s i o a w b : pieces rs i o → o = a ++ w ++ b → 0 ≤ s → codelike s w = true →
  (count_numbers w < 6)%nat.
Proof.
  intros Hp. revert s a w. induction Hp as [i Hi|i r o Hr Hn Hp IH|i e o Hi Hlt Hc Hb Hp IH|i e o Hi Hlt Hc Hp IH];
    intros s a w Ho Hs Hcode.
  - destruct a, w; try done. unfold count_numbers; cbn; lia.
  - destruct a as [|x a]; simplify_eq/=; [|by eapply (IH s a)].
    destruct w as [|x w]; simplify_eq/=; [unfold count_numbers; cbn; lia|].
    pose proof (num_number rs _ _ Hr Hn) as Hnr. rewrite Hnr in Hcode. rewrite count_numbers_cons, Hnr.
    destruct (isAnyMark x); [by apply (IH s []) |]. bprop. by apply (IH (s + 1) []); [|lia|].
  - apply app_eq_inv in Ho as [(x & Hsl & Hx)|(x & -> & Hx)]; [|by eapply (IH s x)].
    apply app_eq_inv in Hx as [(w2 & -> & Ho)|(y & -> & _)].
    + destruct (codelike_suffix _ _ _ Hs Hcode) as (s' & Hs' & Hc2).
      rewrite count_numbers_app, (blocked_pieces 0 s' e o w2 b Hp Hb Ho Hs' Hc2).
      rewrite Hsl in Hc. pose proof (count_numbers_le a x). lia.
    + rewrite Hsl in Hc. pose proof (count_numbers_le a (w ++ y)). pose proof (count_numbers_le w y). lia.
  - destruct a as [|x a]; simplify_eq/=; [|by eapply (IH s a)].
    destruct w as [|x w]; simplify_eq/=; [unfold count_numbers; cbn; lia|].
    assert (isNumber dots = false) as Hnr by apply dots_not_number.
    rewrite Hnr in Hcode. rewrite count_numbers_cons, Hnr.
    destruct (isAnyMark dots); [by apply (IH s [])|]. bprop. by apply (IH (s + 1) []); [|lia|].
Qed.

Lemma pieces_blanked i o : pieces rs i o → blanked (drop i rs) o.
Proof.
  induction 1 as [i Hi|i r o Hr Hn Hp IH|i e o Hi Hlt Hc Hb Hp IH|i e o Hi Hlt Hc Hp IH].
  - rewrite drop_ge by by apply lookup_ge_None_1. constructor.
  - rewrite (drop_S _ _ _ Hr). by constructor.
  - rewrite (drop_slice rs i e) by lia. by apply blanked_app; [apply blanked_refl|].
  - rewrite (drop_slice rs i e) by lia. by constructor.
Qed.

Lemma pieces_unchanged i o : pieces rs i o → count_numbers (drop i rs) = 0%nat → o = drop i rs.
Proof.
  induction 1 as [i Hi|i r o Hr Hn Hp IH|i e o Hi Hlt Hc Hb Hp IH|i e o Hi Hlt Hc Hp IH].
  - by rewrite drop_ge by by apply lookup_ge_None_1.
  - rewrite (drop_S _ _ _ Hr), count_numbers_cons. intros. f_equal. apply IH. lia.
  - rewrite (drop_slice rs i e), count_numbers_app by lia. intros. f_equal. apply IH. lia.
  - rewrite (drop_slice rs i e), count_numbers_app by lia. intros. lia.
Qed.

Lemma blankDigitRuns_pieces : pieces rs 0 (blankDigitRuns rs).
Proof. unfold blankDigitRuns. by destruct (digits_loop_pieces rs (length rs) 0 []) as (o & -> & Ho); [lia|]. Qed.
End Codes.

(** ** Lemmas: blankFingerprints *)

(** A character of the fingerprint alphabet, and one that a run may hold. *)
Definition fp `{Unicode} (r : Z) : bool := negb (foldFP r =? 0).
Definition in_run `{Unicode} (r : Z) : bool := fp r || isAnyMark r.
Definition count_fp `{Unicode} (l : list Z) : Z := Z.of_nat (length (filter (λ r, fp r = true) l)).

Lemma count_fp_app `{Unicode} a b : count_fp (a ++ b) = count_fp a + count_fp b.
Proof. unfold count_fp. rewrite filter_app, length_app. lia. Qed.

Lemma count_fp_one `{Unicode} r : count_fp [r] = if fp r then 1 else 0.
Proof. unfold count_fp. rewrite filter_cons. destruct (fp r); [by rewrite decide_True|by rewrite decide_False]. Qed.

Lemma count_fp_nonneg `{Unicode} l : 0 ≤ count_fp l.
Proof. unfold count_fp. lia. Qed.

Lemma count_fp_sub `{Unicode} rs s p q e : (s ≤ p ≤ q)%nat → (q ≤ e)%nat → count_fp (slice rs p q) ≤ count_fp (slice rs s e).
Proof.
  intros. rewrite (slice_app rs s p e), (slice_app rs p q e), !count_fp_app by lia.
  pose proof (count_fp_nonneg (slice rs s p)). pose proof (count_fp_nonneg (slice rs q e)). lia.
Qed.

Lemma existsb_slice f (rs : list Z) s p q e : (s ≤ p ≤ q)%nat → (q ≤ e)%nat →
  existsb f (slice rs p q) = true → existsb f (slice rs s e) = true.
Proof.
  intros ?? Hx. rewrite (slice_app rs s p e), (slice_app rs p q e), !existsb_app by lia.
  rewrite Hx. by rewrite orb_true_r.
Qed.

Section Runs.
Context `{UnicodeLaws} (rs : list Z).

(** [i, e) is in runs only, and the run ends at [e]. *)
Definition stretch (i e : nat) : Prop :=
  (i < e ≤ length rs)%nat ∧ (∀ k r, (i ≤ k < e)%nat → rs !! k = Some r → in_run r = true) ∧
  (∀ r, rs !! e = Some r → in_run r = false).

Lemma stretch_unique i e e' : stretch i e → stretch i e' → e = e'.
Proof.
  intros (H1 & Ha & Hx) (H1' & Ha' & Hx'). destruct (lt_eq_lt_dec e e') as [[Hl|?]|Hl]; [exfalso|done|exfalso].
  - destruct (lookup_lt_is_Some_2 rs e) as [r Hr]; [lia|]. specialize (Hx _ Hr). rewrite (Ha' e r) in Hx by (lia || done). done.
  - destruct (lookup_lt_is_Some_2 rs e') as [r Hr]; [lia|]. specialize (Hx' _ Hr). rewrite (Ha e' r) in Hx' by (lia || done). done.
Qed.

Lemma run_end_spec k j c j' c' : (length rs - j ≤ k)%nat → (j ≤ length rs)%nat → run_end k rs j c = (j', c') →
  (j ≤ j' ≤ length rs)%nat ∧ c' = c + count_fp (slice rs j j') ∧
  (∀ x r, (j ≤ x < j')%nat → rs !! x = Some r → in_run r = true) ∧
  (∀ r, rs !! j' = Some r → in_run r = false).
Proof.
  revert j c. induction k as [|k IH]; intros j c Hk Hj Hr; cbn [run_end] in Hr.
  { simplify_eq. rewrite slice_nil. split_and!; [lia|lia|unfold count_fp; cbn; lia|intros; lia|].
    intros r Hr. apply lookup_lt_Some in Hr. lia. }
  destruct (rs !! j) as [r|] eqn:Hl.
  2:{ simplify_eq. rewrite slice_nil. split_and!; [lia|lia|unfold count_fp; cbn; lia|intros; lia|]. intros r Hr'. congruence. }
  apply lookup_lt_Some in Hl as Hlt.
  assert (∀ j' d, (S j ≤ j' ≤ length rs)%nat → d = (if fp r then 1 else 0) → in_run r = true →
    (∀ x r, (S j ≤ x < j')%nat → rs !! x = Some r → in_run r = true) →
    count_fp (slice rs j j') = d + count_fp (slice rs (S j) j') ∧
    (∀ x r, (j ≤ x < j')%nat → rs !! x = Some r → in_run r = true)) as Hstep.
  { intros j2 d Hj2 -> Hin Ha. rewrite (slice_app rs j (S j) j2), (slice_one _ _ _ Hl), count_fp_app, count_fp_one by lia.
    split; [done|]. intros x r' Hx Hr'. destruct (decide (x = j)) as [->|]; [by simplify_eq|]. apply (Ha x); [lia|done]. }
  destruct (negb (foldFP r =? 0)) eqn:Hf; [|destruct (isAnyMark r) eqn:Hm].
  - apply IH in Hr as (Hb & -> & Ha & Hx); [|lia..].
    destruct (Hstep j' 1) as [-> Ha']; [lia|unfold fp; by rewrite Hf|unfold in_run, fp; by rewrite Hf|done|].
    split_and!; [lia|lia|lia|done|done].
  - apply IH in Hr as (Hb & -> & Ha & Hx); [|lia..].
    destruct (Hstep j' 0) as [-> Ha']; [lia|unfold fp; by rewrite Hf|unfold in_run, fp; by rewrite Hf, Hm|done|].
    split_and!; [lia|lia|lia|done|done].
  - simplify_eq. rewrite slice_nil. split_and!; [lia|lia|unfold count_fp; cbn; lia|intros; lia|].
    intros r' Hr'. simplify_eq. unfold in_run, fp. by rewrite Hf, Hm.
Qed.

(** The runs from index [i] on: the maximal stretches that start with a
    character of the alphabet. *)
Inductive fp_runs : nat → list span → Prop :=
| fp_end i : rs !! i = None → fp_runs i []
| fp_skip i r l : rs !! i = Some r → fp r = false → fp_runs (S i) l → fp_runs i l
| fp_run i r e l : rs !! i = Some r → fp r = true → stretch i e → fp_runs e l →
    fp_runs i (Span i e (count_fp (slice rs i e)) :: l).

Lemma runs_loop_spec k i out : (length rs - i ≤ k)%nat → ∃ l, runs_loop k rs i out = out ++ l ∧ fp_runs i l.
Proof.
  revert i out. induction k as [|k IH]; intros i out Hk; cbn [runs_loop].
  { exists []. rewrite app_nil_r. split; [done|]. constructor. apply lookup_ge_None_2. lia. }
  destruct (rs !! i) as [r|] eqn:Hr; [|exists []; rewrite app_nil_r; split; [done|by constructor]].
  apply lookup_lt_Some in Hr as Hlt. destruct (foldFP r =? 0) eqn:Hf.
  - destruct (IH (S i) out) as (l & -> & Hl); [lia|]. exists l. split; [done|].
    eapply fp_skip; [done| |done]. unfold fp. by rewrite Hf.
  - destruct (run_end (length rs) rs i 0) as [j c] eqn:He.
    apply run_end_spec in He as (Hb & -> & Ha & Hx); [|lia..].
    assert (fp r = true) as Hfp by (unfold fp; by rewrite Hf).
    assert (i ≠ j) as Hij.
    { intros ->. specialize (Hx _ Hr). unfold in_run in Hx. by rewrite Hfp in Hx. }
    destruct (IH j (out ++ [Span i j (0 + count_fp (slice rs i j))])) as (l & -> & Hl); [lia|].
    rewrite <- app_assoc. eexists. split; [reflexivity|]. cbn [app]. rewrite Z.add_0_l.
    eapply fp_run; [done..| |done]. split_and!; [lia|lia|done|done].
Qed.

(** The run that holds a character. *)
Lemma fp_runs_cover i l q r : fp_runs i l → (i ≤ q)%nat → rs !! q = Some r → fp r = true →
  ∃ sp, sp ∈ l ∧ (start sp ≤ q < stop sp)%nat ∧ stretch (start sp) (stop sp) ∧ n sp = count_fp (slice rs (start sp) (stop sp)).
Proof.
  induction 1 as [i Hi|i r0 l Hr0 Hf Hl IH|i r0 e l Hr0 Hf Hs Hl IH]; intros Hiq Hq Hfq.
  - exfalso. apply lookup_lt_Some in Hq. apply lookup_ge_None_1 in Hi. lia.
  - apply IH; [|done..]. destruct (decide (i = q)) as [->|]; [congruence|lia].
  - destruct (decide (q < e)%nat).
    + eexists. split; [by left|]. cbn. done.
    + destruct IH as (sp & ? & ?); [lia|done..|]. exists sp. split; [by right|done].
Qed.

(** A maximal stretch after which nothing was read is one of the runs; the
    others follow it. *)
Lemma fp_runs_at i l s e r : fp_runs i l → (i ≤ s)%nat → rs !! s = Some r → fp r = true → stretch s e →
  (s = i ∨ ∃ x, rs !! (s - 1)%nat = Some x ∧ in_run x = false) →
  ∃ l1 l2, l = l1 ++ Span s e (count_fp (slice rs s e)) :: l2 ∧ fp_runs e l2.
Proof.
  induction 1 as [i Hi|i r0 l Hr0 Hf Hl IH|i r0 e0 l Hr0 Hf Hs Hl IH]; intros His Hrs Hfs Hst Hprev.
  - exfalso. apply lookup_lt_Some in Hrs. apply lookup_ge_None_1 in Hi. lia.
  - assert (i ≠ s) by congruence. apply IH; [lia|done..|]. destruct Hprev as [->|?]; [lia|by right].
  - destruct (decide (s = i)) as [->|Hne].
    + rewrite (stretch_unique i e0 e Hs Hst) in *. exists [], l. done.
    + destruct Hprev as [?|(x & Hx & Hxr)]; [done|].
      assert (e0 ≤ s)%nat as Hle.
      { destruct (decide (e0 ≤ s)%nat); [done|]. destruct Hs as (Hb & Ha & _).
        rewrite (Ha (s - 1)%nat x) in Hxr by (lia || done). done. }
      destruct IH as (l1 & l2 & -> & ?); [lia|done..|right; eauto|]. by exists (Span i e0 (count_fp (slice rs i e0)) :: l1), l2.
Qed.

(** The next run after a gap without characters of the alphabet. *)
Lemma fp_runs_next i l s e r : fp_runs i l → (i ≤ s)%nat → rs !! s = Some r → fp r = true → stretch s e →
  (∀ k x, (i ≤ k < s)%nat → rs !! k = Some x → fp x = false) →
  ∃ l2, l = Span s e (count_fp (slice rs s e)) :: l2.
Proof.
  induction 1 as [i Hi|i r0 l Hr0 Hf Hl IH|i r0 e0 l Hr0 Hf Hs Hl IH]; intros His Hrs Hfs Hst Hgap.
  - exfalso. apply lookup_lt_Some in Hrs. apply lookup_ge_None_1 in Hi. lia.
  - assert (i ≠ s) by congruence. apply IH; [lia|done..|]. intros k x Hk. apply Hgap. lia.
  - assert (s = i) as ->.
    { destruct (decide (s = i)); [done|]. rewrite (Hgap i r0) in Hf by (lia || done). done. }
    rewrite (stretch_unique i e0 e Hs Hst). by exists l.
Qed.

(** Spans in order, each of a maximal stretch. *)
Fixpoint ordered (prev : nat) (l : list span) : Prop :=
  match l with
  | [] => True
  | b :: l => (prev ≤ start b < stop b)%nat ∧ (stop b ≤ length rs)%nat ∧ ordered (stop b) l
  end.

Lemma ordered_mono p p' l : (p' ≤ p)%nat → ordered p l → ordered p' l.
Proof. destruct l; cbn; [done|]. intros ? (? & ? & ?). split_and!; [lia..|done]. Qed.

Lemma fp_runs_ordered i l : fp_runs i l → ordered i l.
Proof.
  induction 1 as [i Hi|i r l Hr Hf Hl IH|i r e l Hr Hf (Hb & _) Hl IH]; [done|by eapply (ordered_mono (S i)); [lia|]|].
  cbn. split_and!; [lia..|done].
Qed.
End Runs.

(** ** Lemmas: what step 5 replaces *)

Lemma lookup_slice (rs : list Z) i e k x : slice rs i e !! k = Some x ↔ rs !! (i + k)%nat = Some x ∧ (i + k < e)%nat.
Proof. unfold slice. rewrite lookup_take_Some, lookup_drop. split; intros [? ?]; split; (done || lia). Qed.

Lemma slice_inside (rs : list Z) prev e a w y : slice rs prev e = a ++ w ++ y →
  slice rs (prev + length a) (prev + length a + length w) = w.
Proof.
  intros Hs. apply list_eq. intros k. apply option_eq. intros x. rewrite lookup_slice.
  assert ((length a + k < length a + length w)%nat → slice rs prev e !! (length a + k)%nat = w !! k) as Hk.
  { intros Hk. rewrite Hs, lookup_app_r by lia. replace (length a + k - length a)%nat with k by lia.
    by rewrite lookup_app_l by lia. }
  split.
  - intros [Hx Hlt]. rewrite <- Hk by lia. rewrite lookup_slice. rewrite Nat.add_assoc. split; [done|].
    assert (k < length w)%nat as Hlw by lia. apply lookup_lt_is_Some_2 in Hlw as [z Hz].
    rewrite <- Hk in Hz by lia. apply lookup_slice in Hz. lia.
  - intros Hx. apply lookup_lt_Some in Hx as Hlt. rewrite <- Hk in Hx by lia. apply lookup_slice in Hx as [Hx ?].
    rewrite Nat.add_assoc in Hx. split; [done|lia].
Qed.

Lemma slice_length_le (rs : list Z) i e : (length (slice rs i e) ≤ e - i)%nat ∧ (i + length (slice rs i e) ≤ i + length (drop i rs))%nat.
Proof. unfold slice. rewrite length_take. lia. Qed.

Lemma drop_as_slice (rs : list Z) i : drop i rs = slice rs i (length rs).
Proof. unfold slice. rewrite take_ge; [done|]. rewrite length_drop. lia. Qed.

Lemma replace_spans_acc rs bl prev out : replace_spans rs bl prev out = out ++ replace_spans rs bl prev [].
Proof.
  revert prev out. induction bl as [|b bl IH]; intros prev out; cbn [replace_spans]; [done|].
  rewrite IH, (IH _ (_ ++ _)). cbn [app]. by rewrite <- !app_assoc.
Qed.

Lemma replace_spans_cons rs b bl prev : replace_spans rs (b :: bl) prev [] =
  slice rs prev (start b) ++ dots :: replace_spans rs bl (stop b) [].
Proof. cbn [replace_spans]. rewrite replace_spans_acc. cbn [app]. by rewrite <- app_assoc. Qed.

(** Where a stretch of the output without an ellipsis comes from, and what
    stands on either side of it. *)
Definition origin (rs : list Z) (bl : list span) (prev : nat) (a w b : list Z) (p : nat) : Prop :=
  (prev ≤ p)%nat ∧ (p + length w ≤ length rs)%nat ∧ slice rs p (p + length w) = w ∧
  (∀ sp, sp ∈ bl → (p + length w ≤ start sp)%nat ∨ (stop sp ≤ p)%nat) ∧
  (p = prev ∨ (∃ sp, sp ∈ bl ∧ p = stop sp) ∨ ∃ x, last a = Some x ∧ (prev < p)%nat ∧ rs !! (p - 1)%nat = Some x) ∧
  ((p + length w)%nat = length rs ∨ (∃ sp, sp ∈ bl ∧ (p + length w)%nat = start sp) ∨
   ∃ y, head b = Some y ∧ rs !! (p + length w)%nat = Some y).

Lemma origin_in_slice (rs : list Z) prev e a w y : (prev ≤ e ≤ length rs)%nat → slice rs prev e = a ++ w ++ y → 
  (prev + length a + length w ≤ e)%nat ∧
  (a ≠ [] → ∃ x, last a = Some x ∧ rs !! (prev + length a - 1)%nat = Some x) ∧
  (y = [] → (prev + length a + length w)%nat = e) ∧
  (∀ z, head y = Some z → rs !! (prev + length a + length w)%nat = Some z).
Proof.
  intros He Hs. assert (length (slice rs prev e) = (e - prev)%nat) as Hl.
  { unfold slice. rewrite length_take, length_drop. lia. }
  rewrite Hs, !length_app in Hl. split_and!; [lia| |intros ->; simpl in Hl; lia|].
  - intros Ha. destruct (last a) as [x|] eqn:Hx; [|by apply last_None in Hx]. exists x. split; [done|].
    rewrite last_lookup in Hx. assert (length a ≠ 0)%nat by (by destruct a).
    assert (slice rs prev e !! pred (length a) = Some x) as Hsl by (rewrite Hs, lookup_app_l by lia; done).
    apply lookup_slice in Hsl as [Hsl _]. by replace (prev + length a - 1)%nat with (prev + pred (length a))%nat by lia.
  - intros z Hz. destruct y as [|z' y]; simplify_eq/=.
    assert (slice rs prev e !! (length a + length w)%nat = Some z) as Hsl.
    { rewrite Hs, app_assoc, lookup_app_r by (rewrite length_app; lia). rewrite length_app.
      by replace (length a + length w - (length a + length w))%nat with 0%nat by lia. }
    apply lookup_slice in Hsl as [Hsl _]. by rewrite <- Nat.add_assoc.
Qed.

Lemma replace_window rs bl prev a w b : ordered rs prev bl → (prev ≤ length rs)%nat →
  replace_spans rs bl prev [] = a ++ w ++ b → w ≠ [] → dots ∉ w → ∃ p, origin rs bl prev a w b p.
Proof.
  unfold origin.   revert prev a. induction bl as [|sp bl IH]; intros prev a Ho Hp Hw Hne Hd.
  - cbn [replace_spans app] in Hw. rewrite drop_as_slice in Hw.
    destruct (origin_in_slice rs prev (length rs) a w b) as (H1 & H2 & H3 & H4); [lia|done|].
    exists (prev + length a)%nat. split_and!; [lia|lia|by eapply slice_inside|by intros sp ?%not_elem_of_nil| |].
    + destruct a as [|x a]; [left; simpl; lia|]. right; right. destruct H2 as (x' & ? & ?); [done|].
      exists x'. split_and!; [done|simpl; lia|done].
    + destruct b as [|y b]; [left; by apply H3|]. right; right. exists y. split; [done|by apply H4].
  - cbn [ordered] in Ho. destruct Ho as (Hb1 & Hb2 & Ho). rewrite replace_spans_cons in Hw.
    apply app_eq_inv in Hw as [(x & Hsl & Hx)|(x & -> & Hx)].
    + assert (∃ y, x = w ++ y ∧ b = y ++ dots :: replace_spans rs bl (stop sp) []) as (y & -> & Hy).
      { apply app_eq_inv in Hx as [(y & -> & Hy)|(y & -> & Hy)]; [|by exists y].
        destruct y as [|z y]; simplify_eq/=; [exists []; by rewrite !app_nil_r|set_solver]. }
      destruct (origin_in_slice rs prev (start sp) a w y) as (H1 & H2 & H3 & H4); [lia|done|].
      exists (prev + length a)%nat. split_and!; [lia|lia|by eapply slice_inside| | |].
      * assert (∀ sp', sp' ∈ bl → (stop sp ≤ start sp')%nat) as Hlater.
        { clear -Ho. revert Ho. generalize (stop sp). induction bl as [|b bl IH]; intros q Ho sp' Hin; [by apply not_elem_of_nil in Hin|].
          cbn [ordered] in Ho. destruct Ho as (? & ? & Ho). apply elem_of_cons in Hin as [->|Hin]; [lia|].
          specialize (IH _ Ho _ Hin). lia. }
        intros sp' [->|Hin]%elem_of_cons; left; [lia|]. specialize (Hlater _ Hin). lia.
      * destruct a as [|x a]; [left; simpl; lia|]. right; right. destruct H2 as (x' & ? & ?); [done|].
        exists x'. split_and!; [done|simpl; lia|done].
      * destruct y as [|y ys]; [right; left; exists sp; split; [by left|by apply H3]|].
        right; right. exists y. subst b. split; [done|by apply H4].
    + destruct x as [|x xs]; simplify_eq/=.
      { destruct w as [|y w]; [done|]. simplify_eq/=. set_solver. }
      destruct (IH (stop sp) xs) as (p & H1 & H2 & H3 & H4 & H5 & H6); [done|lia|done..|].
      exists p. split_and!; [lia|done|done| | |].
      * intros sp' [->|Hin]%elem_of_cons; [by right|by apply H4].
      * right. destruct H5 as [->|[(sp' & ? & ?)|(x' & Hx' & ? & ?)]].
        -- left. exists sp. split; [by left|done].
        -- left. exists sp'. split; [by right|done].
        -- right. exists x'. split_and!; [|lia|done]. destruct xs as [|z xs]; [done|].
           rewrite last_app. cbn. cbn in Hx'. by rewrite Hx'.
      * destruct H6 as [?|[(sp' & ? & ?)|?]]; [by left| |by right; right].
        right; left. exists sp'. split; [by right|done].
Qed.

Section Chains.
Context `{UnicodeLaws} (rs : list Z) (L : list span).

(** The runs at [x] and [S x] belong to one chain. *)
Definition link (x : nat) : Prop :=
  ∃ a b, L !! x = Some a ∧ L !! S x = Some b ∧ n b = 4 ∧ joined rs a b = true.

Lemma chain_last_spec k x : (length L - x ≤ k)%nat →
  (x ≤ chain_last k rs L x)%nat ∧ (∀ y, (x ≤ y < chain_last k rs L x)%nat → link y) ∧ ¬ link (chain_last k rs L x).
Proof.
  revert x. induction k as [|k IH]; intros x Hk; cbn [chain_last].
  { split_and!; [lia|intros; lia|]. intros (a & b & Ha & _). apply lookup_lt_Some in Ha. lia. }
  destruct (L !! x) as [a|] eqn:Ha.
  2:{ split_and!; [lia|intros; lia|]. intros (a & b & Ha' & _). congruence. }
  destruct (L !! S x) as [b|] eqn:Hb.
  2:{ split_and!; [lia|intros; lia|]. intros (a' & b & _ & Hb' & _). congruence. }
  apply lookup_lt_Some in Ha as Hlt. destruct ((n b =? 4) && joined rs a b)%bool eqn:Hl.
  - apply andb_true_iff in Hl as [Hn%Z.eqb_eq Hj]. destruct (IH (S x)) as (H1 & H2 & H3); [lia|].
    split_and!; [lia| |done]. intros y Hy. destruct (decide (y = x)) as [->|]; [|apply H2; lia]. by exists a, b.
  - split_and!; [lia|intros; lia|]. intros (a' & b' & Ha' & Hb' & Hn & Hj). simplify_eq.
    rewrite Hn, Hj in Hl. done.
Qed.

(** The spans to blank from run [k] on. *)
Inductive blanks : nat → list span → Prop :=
| blanks_end k : L !! k = None → blanks k []
| blanks_chain k m r l bl : (k < m)%nat → L !! k = Some r → L !! m = Some l → n r = 4 →
    (∀ y, (k ≤ y < m)%nat → link y) → ¬ link m → blanks (S m) bl →
    blanks k ((if (maxDigitlessChain <? m - k + 1)%nat || hasDigit (slice rs (start r) (stop l))
               then [Span (start r) (stop l) 0] else []) ++ bl)
| blanks_single k r bl : L !! k = Some r → (n r = 4 → ¬ link k) → blanks (S k) bl →
    blanks k ((if (8 <=? n r) && hasDigit (slice rs (start r) (stop r)) && hasLetter (slice rs (start r) (stop r))
               then [r] else []) ++ bl).

Lemma blank_loop_spec f k out : (length L - k ≤ f)%nat → ∃ bl, blank_loop f rs L k out = out ++ bl ∧ blanks k bl.
Proof.
  revert k out. induction f as [|f IH]; intros k out Hf; cbn [blank_loop].
  { exists []. rewrite app_nil_r. split; [done|]. constructor. apply lookup_ge_None_2. lia. }
  destruct (L !! k) as [r|] eqn:Hr; [|exists []; rewrite app_nil_r; split; [done|by constructor]].
  apply lookup_lt_Some in Hr as Hlt. cbv zeta.
  destruct (chain_last_spec (length L) k) as (H1 & H2 & H3); [lia|].
  set (m := if n r =? 4 then chain_last (length L) rs L k else k).
  destruct (if (k <? m)%nat then L !! m else None) as [l|] eqn:Hl.
  - destruct (k <? m)%nat eqn:Hkm; [|done]. apply Nat.ltb_lt in Hkm. apply lookup_lt_Some in Hl as Hlm.
    destruct (n r =? 4) eqn:Hn; [|subst m; lia]. apply Z.eqb_eq in Hn.
    destruct (IH (S m) (if (maxDigitlessChain <? m - k + 1)%nat || hasDigit (slice rs (start r) (stop l))
      then out ++ [Span (start r) (stop l) 0] else out)) as (bl & He & Hbl); [lia|].
    eexists. split; [|by eapply (blanks_chain k m r l bl)]. cbn [start stop] in *. rewrite He.
    destruct (_ || _)%bool; [by rewrite <- app_assoc|done].
  - destruct (IH (S k) (if (8 <=? n r) && hasDigit (slice rs (start r) (stop r)) && hasLetter (slice rs (start r) (stop r))
      then out ++ [r] else out)) as (bl & He & Hbl); [lia|].
    eexists. split; [|apply (blanks_single k r bl); [done| |done]].
    + rewrite He. destruct (_ && hasLetter _)%bool; [by rewrite <- app_assoc|done].
    + intros Hn. subst m. rewrite Hn, Z.eqb_refl in Hl.
      destruct (decide (chain_last (length L) rs L k = k)) as [E|E]; [by rewrite E in H3|].
      rewrite (proj2 (Nat.ltb_lt _ _)) in Hl by lia.
      destruct (H2 (chain_last (length L) rs L k - 1)%nat) as (a & b & _ & Hb & _); [lia|].
      replace (S (chain_last (length L) rs L k - 1)) with (chain_last (length L) rs L k) in Hb by lia. congruence.
Qed.

Context (p0 : nat) (Hord : ordered rs p0 L).

Lemma ordered_lookup p l i a : ordered rs p l → l !! i = Some a → (p ≤ start a < stop a)%nat ∧ (stop a ≤ length rs)%nat.
Proof.
  revert p i. induction l as [|b l IH]; intros p i Ho Hl; [done|]. cbn [ordered] in Ho. destruct Ho as (? & ? & Ho).
  destruct i as [|i]; simplify_eq/=; [lia|]. destruct (IH _ _ Ho Hl). lia.
Qed.

Lemma ordered_before p l i j a b : ordered rs p l → l !! i = Some a → l !! j = Some b → (i < j)%nat → (stop a ≤ start b)%nat.
Proof.
  revert p i j. induction l as [|c l IH]; intros p i j Ho Hi Hj Hlt; [done|]. cbn [ordered] in Ho. destruct Ho as (? & ? & Ho).
  destruct j as [|j]; [lia|]. destruct i as [|i]; simplify_eq/=.
  - destruct (ordered_lookup _ _ _ _ Ho Hj). lia.
  - apply (IH _ i j Ho Hi Hj). lia.
Qed.

Lemma ordered_le i j a b : L !! i = Some a → L !! j = Some b → (i ≤ j)%nat →
  (start a ≤ start b)%nat ∧ (stop a ≤ stop b)%nat.
Proof.
  intros Hi Hj Hle. destruct (decide (i = j)) as [->|]; [simplify_eq; lia|].
  pose proof (ordered_before _ _ _ _ _ _ Hord Hi Hj ltac:(lia)).
  destruct (ordered_lookup _ _ _ _ Hord Hi), (ordered_lookup _ _ _ _ Hord Hj). lia.
Qed.

Lemma blanks_ordered k bl p : blanks k bl → (p ≤ length rs)%nat → (∀ r, L !! k = Some r → (p ≤ start r)%nat) → ordered rs p bl.
Proof.
  intros Hb. revert p. induction Hb as [k Hk|k m r l bl Hkm Hr Hl Hn Hlk Hnl Hb IH|k r bl Hr Hnl Hb IH]; intros p Hp Hst; [done|..].
  - assert (ordered rs (stop l) bl) as Ho.
    { destruct (ordered_lookup _ _ _ _ Hord Hl). apply IH; [lia|]. intros r' Hr'.
      apply (ordered_before _ _ _ _ _ _ Hord Hl Hr'). lia. }
    destruct (ordered_lookup _ _ _ _ Hord Hr), (ordered_lookup _ _ _ _ Hord Hl).
    destruct (ordered_le _ _ _ _ Hr Hl) as [??]; [lia|]. specialize (Hst _ Hr).
    destruct (_ || _)%bool; cbn; [split_and!; [lia..|done]|]. eapply ordered_mono; [|done]. lia.
  - assert (ordered rs (stop r) bl) as Ho.
    { destruct (ordered_lookup _ _ _ _ Hord Hr). apply IH; [lia|]. intros r' Hr'.
      apply (ordered_before _ _ _ _ _ _ Hord Hr Hr'). lia. }
    destruct (ordered_lookup _ _ _ _ Hord Hr). specialize (Hst _ Hr).
    destruct (_ && hasLetter _)%bool; cbn; [split_and!; [lia..|done]|]. eapply ordered_mono; [|done]. lia.
Qed.

(** A long run with a digit and a letter is blanked. *)
Lemma blanks_long k bl x r : blanks k bl → (k ≤ x)%nat → L !! x = Some r → 8 ≤ n r →
  hasDigit (slice rs (start r) (stop r)) = true → hasLetter (slice rs (start r) (stop r)) = true → r ∈ bl.
Proof.
  intros Hb Hkx Hx H8 Hd Hl. induction Hb as [k Hk|k m r0 l bl Hkm Hr Hlm Hn Hlk Hnl Hb IH|k r0 bl Hr Hnl Hb IH].
  - exfalso. apply lookup_lt_Some in Hx. apply lookup_ge_None_1 in Hk. lia.
  - apply elem_of_app. right. apply IH. destruct (decide (S m ≤ x)%nat); [done|exfalso].
    destruct (decide (x = k)) as [->|]; [simplify_eq; lia|].
    destruct (Hlk (x - 1)%nat) as (a & b & _ & Hb' & Hn' & _); [lia|].
    replace (S (x - 1)) with x in Hb' by lia. simplify_eq. lia.
  - apply elem_of_app. destruct (decide (x = k)) as [->|]; [left; simplify_eq|right; apply IH; lia].
    rewrite Hd, Hl, (proj2 (Z.leb_le _ _) H8). by left.
Qed.

(** Two linked groups of four with a digit are blanked together. *)
Lemma blanks_pair k bl x a b : blanks k bl → (k ≤ x)%nat → L !! x = Some a → L !! S x = Some b → n a = 4 → n b = 4 →
  joined rs a b = true → hasDigit (slice rs (start a) (stop b)) = true →
  ∃ sp, sp ∈ bl ∧ (start sp ≤ start a)%nat ∧ (stop b ≤ stop sp)%nat.
Proof.
  intros Hb Hkx Ha Hbx Hna Hnb Hj Hd. assert (link x) as Hlink by by exists a, b.
  induction Hb as [k Hk|k m r l bl Hkm Hr Hlm Hn Hlk Hnl Hb IH|k r bl Hr Hnl Hb IH].
  - exfalso. apply lookup_lt_Some in Ha. apply lookup_ge_None_1 in Hk. lia.
  - destruct (decide (x = m)) as [->|]; [done|]. destruct (decide (S m ≤ x)%nat).
    { destruct IH as (sp & ? & ?); [done|]. exists sp. split; [apply elem_of_app; by right|done]. }
    exists (Span (start r) (stop l) 0). destruct (ordered_le _ _ _ _ Hr Ha) as [H1 _]; [lia|].
    destruct (ordered_le _ _ _ _ Hbx Hlm) as [_ H2]; [lia|].
    split; [|done]. apply elem_of_app. left.
    assert (hasDigit (slice rs (start r) (stop l)) = true) as ->.
    { unfold hasDigit in *. eapply existsb_slice; [| |exact Hd]; [|lia].
      destruct (ordered_lookup _ _ _ _ Hord Ha), (ordered_le _ _ _ _ Ha Hbx); [lia|]. lia. }
    rewrite orb_true_r. by left.
  - destruct (decide (x = k)) as [->|]; [simplify_eq; by destruct Hnl|].
    destruct IH as (sp & ? & ?); [lia|]. exists sp. split; [apply elem_of_app; by right|done].
Qed.

(** Every blanked span starts and ends with runs and holds eight characters of
    the alphabet. *)
Lemma blanks_spans k bl sp : (∀ a, a ∈ L → n a = count_fp (slice rs (start a) (stop a))) → blanks k bl → sp ∈ bl →
  ∃ a b, a ∈ L ∧ b ∈ L ∧ start sp = start a ∧ stop sp = stop b ∧ 8 ≤ count_fp (slice rs (start sp) (stop sp)).
Proof.
  intros Hcnt Hb. induction Hb as [k Hk|k m r l bl Hkm Hr Hlm Hn Hlk Hnl Hb IH|k r bl Hr Hnl Hb IH]; intros Hin.
  - by apply not_elem_of_nil in Hin.
  - apply elem_of_app in Hin as [Hin|Hin]; [|by apply IH]. destruct (_ || _)%bool; [|by apply not_elem_of_nil in Hin].
    apply list_elem_of_singleton in Hin as ->. exists r, l.
    assert (∀ i a, L !! i = Some a → a ∈ L) as Hel by (intros ??; apply list_elem_of_lookup_2).
    split_and!; [by eapply Hel|by eapply Hel|done|done|]. cbn [start stop].
    destruct (Hlk (m - 1)%nat) as (a & b & _ & Hb' & Hn' & _); [lia|].
    replace (S (m - 1)) with m in Hb' by lia. simplify_eq.
    pose proof (ordered_before _ _ _ _ _ _ Hord Hr Hlm Hkm).
    destruct (ordered_lookup _ _ _ _ Hord Hr), (ordered_lookup _ _ _ _ Hord Hlm).
    rewrite (slice_app rs (start r) (stop r) (stop l)), (slice_app rs (stop r) (start l) (stop l)), !count_fp_app by lia.
    rewrite <- !Hcnt by by eapply Hel. pose proof (count_fp_nonneg (slice rs (stop r) (start l))). lia.
  - apply elem_of_app in Hin as [Hin|Hin]; [|by apply IH].
    destruct (_ && hasLetter _)%bool eqn:Hc; [|by apply not_elem_of_nil in Hin].
    apply list_elem_of_singleton in Hin as ->. assert (r ∈ L) by by eapply list_elem_of_lookup_2.
    exists r, r. split_and!; try done. rewrite <- Hcnt by done. bprop. lia.
Qed.
End Chains.

(** A group of four characters of the alphabet, marks included, and what may
    join two of them. *)
Definition group4 `{Unicode} (g : list Z) : Prop :=
  Forall (λ r, in_run r = true) g ∧ (∃ x, head g = Some x ∧ fp x = true) ∧ count_fp g = 4.
Definition separation `{Unicode} (s : list Z) : Prop :=
  (∃ k, joined_seps s 0 = Some k ∧ 1 ≤ k ≤ maxGroupSeparators) ∧ Forall (λ r, fp r = false) s ∧
  (∀ x, head s = Some x → in_run x = false).

(** ** Lemmas: no fingerprint survives step 5 *)

Lemma lookup_in_slice (rs : list Z) p w k x : slice rs p (p + length w) = w → w !! k = Some x → rs !! (p + k)%nat = Some x.
Proof. intros Hs Hk. rewrite <- Hs in Hk. by apply lookup_slice in Hk as [? _]. Qed.

Lemma slice_of_app (rs : list Z) p a b : slice rs p (p + length (a ++ b)) = a ++ b →
  slice rs p (p + length a) = a ∧ slice rs (p + length a) (p + length a + length b) = b.
Proof.
  intros Hs. assert (slice rs p (p + length (a ++ b)) = [] ++ a ++ b) as H1 by done.
  apply slice_inside in H1. cbn in H1. rewrite Nat.add_0_r in H1. split; [done|].
  assert (slice rs p (p + length (a ++ b)) = a ++ b ++ []) as H2 by by rewrite app_nil_r.
  by apply slice_inside in H2.
Qed.

Section Fingerprints.
Context `{UnicodeLaws} (rs : list Z).

Lemma dots_fp : fp dots = false.
Proof.
  unfold fp, foldFP, fold. change (fold_forms dots) with dots. cbv zeta.
  change (0x80 <=? dots) with true. change (assoc dots fpConfusables) with (@None Z).
  cbv iota. rewrite dots_upper. change (assoc dots fpConfusables) with (@None Z). cbv iota.
  rewrite dots_upper. reflexivity.
Qed.

Lemma dots_in_run : in_run dots = false.
Proof. unfold in_run. rewrite dots_fp. destruct dots_facts as (_ & _ & -> & _). done. Qed.

Lemma not_dots w : Forall (λ r, in_run r = true) w → dots ∉ w.
Proof. intros Hw Hd. rewrite Forall_forall in Hw. specialize (Hw _ Hd). by rewrite dots_in_run in Hw. Qed.

Lemma fp_in_run r : fp r = true → in_run r = true.
Proof. unfold in_run. by intros ->. Qed.

Lemma fp_runs_all i l a : fp_runs rs i l → a ∈ l →
  stretch rs (start a) (stop a) ∧ n a = count_fp (slice rs (start a) (stop a)) ∧
  (∃ r, rs !! start a = Some r ∧ fp r = true).
Proof.
  induction 1 as [i Hi|i r l Hr Hf Hl IH|i r e l Hr Hf Hs Hl IH]; intros Hin; [by apply not_elem_of_nil in Hin|by apply IH|].
  apply elem_of_cons in Hin as [->|Hin]; [|by apply IH]. cbn. split_and!; [done|done|by exists r].
Qed.

(** What the two loops of step 5 compute. *)
Lemma fingerprint_parts : ∃ L bl, fp_runs rs 0 L ∧ ordered rs 0 L ∧ blanks rs L 0 bl ∧ ordered rs 0 bl ∧
  blankFingerprints rs = replace_spans rs bl 0 [] ∧
  (∀ a, a ∈ L → n a = count_fp (slice rs (start a) (stop a))).
Proof.
  destruct (runs_loop_spec rs (length rs) 0 []) as (L & HL & Hruns); [lia|].
  destruct (blank_loop_spec rs L (length L) 0 []) as (bl & Hbl & Hb); [lia|]. exists L, bl.
  pose proof (fp_runs_ordered _ _ _ Hruns) as Ho. split_and!; [done|done|done| | |].
  - eapply blanks_ordered; [done|done|lia|]. intros r Hr. lia.
  - unfold blankFingerprints. cbn [app] in HL, Hbl. rewrite HL, Hbl. case_bool_decide as E; [|done]. by rewrite E.
  - intros a Ha. by apply (fp_runs_all _ _ _ Hruns Ha).
Qed.

Lemma replace_blanked bl prev : ordered rs prev bl → blanked (drop prev rs) (replace_spans rs bl prev []).
Proof.
  revert prev. induction bl as [|b bl IH]; intros prev Ho; [apply blanked_refl|]. cbn [ordered] in Ho.
  destruct Ho as (H1 & H2 & Ho). rewrite replace_spans_cons, (drop_slice rs prev (start b)) by lia.
  apply blanked_app; [apply blanked_refl|]. rewrite (drop_slice rs (start b) (stop b)) by lia.
  constructor. by apply IH.
Qed.

Lemma split_first_fp w : 0 < count_fp w → ∃ ms x w', w = ms ++ x :: w' ∧ Forall (λ r, fp r = false) ms ∧ fp x = true.
Proof.
  induction w as [|y w IH]; intros Hc; [unfold count_fp in Hc; cbn in Hc; lia|].
  destruct (fp y) eqn:Hy; [by exists [], y, w|].
  change (y :: w) with ([y] ++ w) in Hc. rewrite count_fp_app, count_fp_one, Hy in Hc.
  destruct IH as (ms & x & w' & -> & Hms & Hx); [lia|]. exists (y :: ms), x, w'. split_and!; [done|by constructor|done].
Qed.

Lemma existsb_skip (rng : Z → bool) ms l : rng 0 = false → Forall (λ r, fp r = false) ms →
  existsb (λ r, rng (foldFP r)) (ms ++ l) = existsb (λ r, rng (foldFP r)) l.
Proof.
  intros Hz. induction 1 as [|y ms Hy Hms IH]; [done|]. cbn [app existsb]. rewrite IH.
  unfold fp in Hy. apply negb_false_iff, Z.eqb_eq in Hy. by rewrite Hy, Hz.
Qed.

Lemma count_fp_skip ms l : Forall (λ r, fp r = false) ms → count_fp (ms ++ l) = count_fp l.
Proof.
  intros Hms. rewrite count_fp_app. assert (count_fp ms = 0) as ->; [|lia].
  unfold count_fp. rewrite filter_none; [done|]. eapply Forall_impl; [exact Hms|]. intros x Hx. cbn in Hx. congruence.
Qed.

Lemma no_long_run a w b : blankFingerprints rs = a ++ w ++ b → Forall (λ r, in_run r = true) w →
  8 ≤ count_fp w → hasDigit w && hasLetter w = false.
Proof.
  intros Hout Hw H8. destruct (hasDigit w && hasLetter w)%bool eqn:Hdl; [exfalso|done].
  apply andb_true_iff in Hdl as [Hd Hl].
  destruct fingerprint_parts as (L & bl & Hruns & HoL & Hb & Ho & He & Hcnt). rewrite He in Hout.
  destruct (split_first_fp w) as (ms & x & w' & -> & Hms & Hx); [lia|].
  destruct (replace_window rs bl 0 a _ b Ho ltac:(lia) Hout) as (p & _ & Hlen & Hsl & Hdis & _).
  { by destruct ms. } { by apply not_dots. }
  pose proof (slice_of_app _ _ _ _ Hsl) as [_ Hsl2].
  rewrite length_app in Hlen, Hdis. set (q := (p + length ms)%nat) in *.
  assert (rs !! q = Some x) as Hq.
  { rewrite <- (Nat.add_0_r q). by eapply lookup_in_slice. }
  destruct (fp_runs_cover rs 0 L q x Hruns) as (sp & Hsp & Hrng & Hst & Hn); [lia|done..|].
  assert (q + length (x :: w') ≤ stop sp)%nat as Hle.
  { destruct (decide (q + length (x :: w') ≤ stop sp)%nat); [done|exfalso].
    destruct Hst as (_ & _ & Hend). destruct (lookup_lt_is_Some_2 (x :: w') (stop sp - q)) as [y Hy]; [lia|].
    pose proof (lookup_in_slice _ _ _ _ _ Hsl2 Hy) as Hy'. replace (q + (stop sp - q))%nat with (stop sp) in Hy' by lia.
    specialize (Hend _ Hy'). apply Forall_app in Hw as [_ Hw]. rewrite Forall_lookup in Hw. specialize (Hw _ _ Hy). cbn in Hw. congruence. }
  assert (sp ∈ bl) as Hin.
  { apply list_elem_of_lookup_1 in Hsp as (i & Hi).
    eapply (blanks_long rs L 0 bl i sp Hb); [lia|done|..].
    - rewrite Hn. rewrite count_fp_skip in H8 by done. rewrite <- Hsl2 in H8.
      etrans; [exact H8|]. apply count_fp_sub; lia.
    - unfold hasDigit in *. rewrite (existsb_skip (in_range 0x30 0x39)) in Hd by done. rewrite <- Hsl2 in Hd.
      eapply existsb_slice; [| |exact Hd]; lia.
    - unfold hasLetter in *. rewrite (existsb_skip (in_range 0x41 0x5A)) in Hl by done. rewrite <- Hsl2 in Hl.
      eapply existsb_slice; [| |exact Hl]; lia. }
  destruct (Hdis _ Hin); cbn [length] in *; lia.
Qed.

Lemma few_unchanged : count_fp rs < 8 → blankFingerprints rs = rs.
Proof.
  intros Hc. destruct fingerprint_parts as (L & bl & Hruns & HoL & Hb & Ho & -> & Hcnt).
  destruct bl as [|sp bl]; [done|exfalso].
  destruct (blanks_spans rs L 0 HoL 0 _ sp Hcnt Hb) as (a' & b' & Ha & Hb' & Hs1 & Hs2 & H8); [by left|].
  cbn [ordered] in Ho. destruct Ho as (H1 & H2 & _).
  assert (slice rs 0 (length rs) = rs) as Hall by by rewrite <- drop_as_slice.
  rewrite <- Hall in Hc. pose proof (count_fp_sub rs 0 (start sp) (stop sp) (length rs)). lia.
Qed.
End Fingerprints.

Section Pair.
Context `{UnicodeLaws} (rs : list Z).

(** A run of the list does not start inside another. *)
Lemma run_start_outside L p0 a c : ordered rs p0 L → a ∈ L → c ∈ L → (start a < start c)%nat → (start c < stop a)%nat → False.
Proof.
  intros Ho [i Hi]%list_elem_of_lookup [j Hj]%list_elem_of_lookup H1 H2.
  destruct (ordered_lookup _ _ _ _ _ Ho Hi), (ordered_lookup _ _ _ _ _ Ho Hj).
  destruct (lt_eq_lt_dec i j) as [[Hlt| ->]|Hlt].
  - pose proof (ordered_before _ _ _ _ _ _ _ Ho Hi Hj Hlt). lia.
  - simplify_eq. lia.
  - pose proof (ordered_before _ _ _ _ _ _ _ Ho Hj Hi Hlt). lia.
Qed.

Lemma stretch_of p g x : slice rs p (p + length g) = g → (p + length g ≤ length rs)%nat →
  Forall (λ r, in_run r = true) g → head g = Some x →
  (∀ r, rs !! (p + length g)%nat = Some r → in_run r = false) → stretch rs p (p + length g) ∧ rs !! p = Some x.
Proof.
  intros Hs Hl Hg Hh Hend. destruct g as [|y g]; simplify_eq/=. split; [split_and!; [lia|done| |done]|].
  - intros k r Hk Hr. rewrite Forall_lookup in Hg. apply (Hg (k - p)%nat). cbn. rewrite <- Hs.
    rewrite lookup_slice. replace (p + (k - p))%nat with k by lia. split; [done|lia].
  - rewrite <- (Nat.add_0_r p). by apply (lookup_in_slice rs p (x :: g) 0).
Qed.

Lemma no_pair a g1 s g2 b : blankFingerprints rs = a ++ (g1 ++ s ++ g2) ++ b →
  group4 g1 → separation s → group4 g2 → dots ∉ s →
  (∀ x, last a = Some x → in_run x = false) → (∀ y, head b = Some y → in_run y = false) →
  hasDigit (g1 ++ s ++ g2) = false.
Proof.
  intros Hout (Hg1 & (x1 & Hh1 & Hx1) & Hc1) ((k & Hk & Hk1) & Hsf & Hsh) (Hg2 & (x2 & Hh2 & Hx2) & Hc2) Hds Hla Hhb.
  destruct (hasDigit (g1 ++ s ++ g2)) eqn:Hd; [exfalso|done].
  destruct (fingerprint_parts rs) as (L & bl & Hruns & HoL & Hb & Ho & He & Hcnt). rewrite He in Hout.
  destruct (replace_window rs bl 0 a _ b Ho ltac:(lia) Hout) as (p & _ & Hlen & Hsl & Hdis & Hleft & Hright).
  { by destruct g1. }
  { rewrite !not_elem_of_app. split_and!; [by apply not_dots|done|by apply not_dots]. }
  destruct (slice_of_app _ _ _ _ Hsl) as [Hs1 Hs23]. destruct (slice_of_app _ _ _ _ Hs23) as [Hss Hs2].
  set (e1 := (p + length g1)%nat) in *. set (s2 := (e1 + length s)%nat) in *.
  assert (p + length (g1 ++ s ++ g2) = s2 + length g2)%nat as Hq by (rewrite !length_app; lia).
  rewrite Hq in *. set (q := (s2 + length g2)%nat) in *.
  destruct s as [|y s]; [cbn in Hk; simplify_eq; lia|].
  assert (rs !! e1 = Some y) as Hy by (rewrite <- (Nat.add_0_r e1); by eapply lookup_in_slice).
  assert (e1 < s2)%nat by (subst s2; cbn; lia). assert (s2 ≤ q)%nat by (subst q; lia).
  destruct (stretch_of p g1 x1 Hs1) as [Hst1 Hp]; [fold e1; lia|done|done|..].
  { fold e1. intros r Hr. simplify_eq. by apply Hsh. }
  assert (∀ sp, sp ∈ bl → ∃ c d, c ∈ L ∧ d ∈ L ∧ start sp = start c ∧ stop sp = stop d) as Hends.
  { intros sp Hsp. destruct (blanks_spans rs L 0 HoL 0 _ sp Hcnt Hb Hsp) as (c & d & ? & ? & ? & ? & _). by exists c, d. }
  assert (p = 0%nat ∨ ∃ x, rs !! (p - 1)%nat = Some x ∧ in_run x = false) as Hprev.
  { destruct Hleft as [->|[(sp & Hsp & ->)|(x & Hx & _ & Hpx)]]; [by left| |right; exists x; split; [done|by apply Hla]].
    exfalso. destruct (Hends _ Hsp) as (_ & d & _ & Hd' & _ & Hst). rewrite Hst in Hp.
    destruct (fp_runs_all _ _ _ _ Hruns Hd') as ((_ & _ & Hend) & _). specialize (Hend _ Hp).
    rewrite fp_in_run in Hend; done. }
  destruct (fp_runs_at rs 0 L p e1 x1 Hruns) as (l1 & l2 & HL & Hl2); [lia|done..|].
  assert (rs !! s2 = Some x2) as Hs2x.
  { destruct g2 as [|z g2]; simplify_eq/=. rewrite <- (Nat.add_0_r s2). by apply (lookup_in_slice rs s2 (x2 :: g2) 0). }
  assert (∀ r, rs !! q = Some r → in_run r = false) as Hqr.
  { intros r Hr. destruct Hright as [Hend|[(sp & Hsp & Hqs)|(z & Hz & Hqz)]].
    - apply lookup_lt_Some in Hr. lia.
    - exfalso. destruct (Hends _ Hsp) as (c & _ & Hc & _ & Hst & _). rewrite Hst in Hqs.
      destruct (fp_runs_all _ _ _ _ Hruns Hc) as (_ & _ & r' & Hr' & Hfr'). rewrite <- Hqs in Hr'.
      destruct (fp_runs_cover rs 0 L s2 x2 Hruns) as (sp' & Hsp' & Hrng & (Hb' & Ha' & Hend) & _); [lia|done..|].
      assert (s2 < q)%nat by (subst q; destruct g2; [done|simpl; lia]).
      assert (q < stop sp')%nat; [|by eapply (run_start_outside L 0 sp' c); [done|done|done|lia|lia]].
      destruct (decide (q < stop sp')%nat); [done|exfalso].
      destruct (decide (stop sp' = q)) as [E|].
      + rewrite E in Hend. specialize (Hend _ Hr'). by rewrite fp_in_run in Hend.
      + destruct (lookup_lt_is_Some_2 g2 (stop sp' - s2)) as [z Hz]; [subst q; lia|].
        pose proof (lookup_in_slice _ _ _ _ _ Hs2 Hz) as Hz'. replace (s2 + (stop sp' - s2))%nat with (stop sp') in Hz' by lia.
        specialize (Hend _ Hz'). rewrite Forall_lookup in Hg2. specialize (Hg2 _ _ Hz). cbn in Hg2. congruence.
    - simplify_eq. by apply Hhb. }
  destruct (stretch_of s2 g2 x2 Hs2) as [Hst2 _]; [fold q; lia|done..|].
  destruct (fp_runs_next rs e1 l2 s2 q x2 Hl2) as (l3 & ->); [lia|done..| |].
  { intros j z Hj Hz. rewrite Forall_lookup in Hsf. apply (Hsf (j - e1)%nat). rewrite <- Hss, lookup_slice.
    replace (e1 + (j - e1))%nat with j by lia. split; [done|lia]. }
  destruct (blanks_pair rs L 0 HoL 0 bl (length l1) (Span p e1 (count_fp (slice rs p e1))) (Span s2 q (count_fp (slice rs s2 q))) Hb)
    as (sp & Hsp & Hsp1 & Hsp2).
  - lia.
  - by rewrite HL, list_lookup_middle.
  - rewrite HL, lookup_app_r by lia. by replace (S (length l1) - length l1)%nat with 1%nat by lia.
  - cbn. by rewrite Hs1.
  - cbn. by rewrite Hs2.
  - unfold joined. cbn [stop start]. rewrite Hss, Hk. apply andb_true_iff. rewrite !Z.leb_le. done.
  - cbn [stop start]. by rewrite Hsl.
  - cbn [stop start] in *. destruct (Hdis _ Hsp); [|lia]. destruct g1; [done|]. subst e1. cbn in *. lia.
Qed.
End Pair.

(** ** Lemmas: Name *)

Lemma Forall_check {A} (f : A → bool) (P : A → Prop) l : (∀ x, f x = true → P x) → forallb f l = true → Forall P l.
Proof.
  intros Hf Hl. apply Forall_forall. intros x Hx%list_elem_of_In. apply Hf. rewrite forallb_forall in Hl. by apply Hl.
Qed.

Section NameText.
Context `{UnicodeLaws}.

Lemma clean_middle a l b : clean_text (a ++ l ++ b) → head l ≠ Some 0x20 → clean_text l.
Proof.
  intros [Hv Hm Hs _] Hh. split; [|by eapply runs_within_sub|by eapply runs_within_sub|done].
  apply Forall_app in Hv as [_ Hv]. by apply Forall_app in Hv as [? _].
Qed.

Lemma numbers_within rs : runs_within isNumber 5 (blankDigitRuns rs).
Proof.
  intros a w b Hw Hf. destruct (codelike_numbers w Hf) as [Hc Hn].
  pose proof (pieces_codes rs 0 0 _ a w b (blankDigitRuns_pieces rs) Hw ltac:(lia) Hc). lia.
Qed.

Lemma digits_blanked rs : blanked rs (blankDigitRuns rs).
Proof. apply (pieces_blanked rs 0), blankDigitRuns_pieces. Qed.

Lemma fingerprints_blanked_text rs : blanked rs (blankFingerprints rs).
Proof.
  destruct (fingerprint_parts rs) as (L & bl & _ & _ & _ & Ho & -> & _). by apply (replace_blanked rs bl 0).
Qed.

(** Text that Name may show. *)
Definition name_text (rs : list Z) : Prop :=
  clean_text rs ∧ (∀ x, last rs = Some x → x ≠ 0x20) ∧ runs_within isNumber 5 rs.

Lemma no_name_text : name_text no_name.
Proof.
  assert (Forall printable no_name) as Hp.
  { by apply (Forall_check (in_range 0x20 0x7E)); [intros x Hx; by apply in_range_spec|]. }
  assert (∀ x, x ∈ no_name → isNumber x = false ∧ isMark x = false ∧ Hidden x = false ∧ is_scalar x = true) as Hx.
  { intros x Hin. assert (in_range 0x30 0x39 x = false) as Hd.
    { assert (Forall (λ x, in_range 0x30 0x39 x = false) no_name) as Hall.
      { by apply (Forall_check (λ x, negb (in_range 0x30 0x39 x))); [intros ? ?%negb_true_iff|]. }
      rewrite Forall_forall in Hall. by apply Hall. }
    rewrite Forall_forall in Hp. specialize (Hp _ Hin). destruct (printable_plain x Hp) as (? & ? & _).
    split_and!; [unfold isNumber; by rewrite (ascii_number x Hp)|done|done|]. apply scalar_low. unfold printable in Hp. lia. }
  assert (∀ p k, (∀ x, x ∈ no_name → p x = false) → runs_within p k no_name) as Hr.
  { intros p k Hpf a w b Hw Hf. destruct w as [|x w]; [simpl; lia|]. apply Forall_cons in Hf as [Hf _].
    rewrite Hpf in Hf; [done|]. rewrite Hw. set_solver. }
  split_and!; [split| |].
  - apply Forall_forall. intros x Hin. by destruct (Hx x Hin) as (_ & _ & ? & ?).
  - apply Hr. intros x Hin. by destruct (Hx x Hin) as (_ & ? & _).
  - by apply within_runs.
  - done.
  - intros x Hl. vm_compute in Hl. by injection Hl as <-.
  - apply Hr. intros x Hin. by destruct (Hx x Hin) as (? & _).
Qed.

Lemma name_runes s : name_text (runes (Name s)) ∧ valid_utf8 (Name s) = true ∧ Name s ≠ [].
Proof.
  destruct (clean_clean s) as [Hc _]. unfold Name.
  set (rs := blankFingerprints (blankDigitRuns (clean s))).
  assert (clean_text (blankDigitRuns (clean s))) as Hc1.
  { apply (blanked_clean (clean s)); [apply digits_blanked|done|]. eapply blanked_head; [apply digits_blanked|apply Hc]. }
  assert (clean_text rs) as Hc2.
  { eapply blanked_clean; [apply fingerprints_blanked_text|done|]. eapply blanked_head; [apply fingerprints_blanked_text|apply Hc1]. }
  assert (runs_within isNumber 5 rs) as Hn.
  { eapply blanked_runs_within; [apply dots_not_number|apply fingerprints_blanked_text|apply numbers_within]. }
  assert (Forall (λ r, is_scalar r = true) rs) as Hsc.
  { eapply Forall_impl; [apply Hc2|]. naive_solver. }
  unfold TrimSpace. rewrite (runes_encode rs Hsc).
  destruct (skip_while_spec IsSpace rs) as (a & Ha & _ & Hh).
  destruct (trim_right_spec IsSpace (skip_while IsSpace rs)) as (b & Hb & _ & Hl).
  set (l := trim_right IsSpace (skip_while IsSpace rs)) in *.
  assert (rs = a ++ l ++ b) as Hrs by (by rewrite Hb in Ha).
  assert (name_text l) as Hnt.
  { rewrite Hrs in Hc2, Hn. split_and!; [|intros x Hx ->; by specialize (Hl _ Hx)|by eapply runs_within_sub].
    eapply clean_middle; [done|]. intros He. destruct l as [|x l]; [done|]. simplify_eq/=.
    rewrite Hb in Hh. by specialize (Hh 0x20 eq_refl). }
  assert (Forall (λ r, is_scalar r = true) l) as Hlsc.
  { eapply Forall_impl; [apply Hnt|]. naive_solver. }
  case_bool_decide as He.
  - assert (encode no_name = no_name) as Hnn by done.
    pose proof no_name_text as Hno. split_and!; [|by vm_compute|done].
    rewrite <- Hnn, runes_encode; [done|]. eapply Forall_impl; [apply Hno|]. naive_solver.
  - rewrite runes_encode by done. split_and!; [done|by apply valid_encode|done].
Qed.
End NameText.

(** ** What the renderings promise *)

(** Term shows peer text safely and exactly: its output never holds a
    hidden rune, U+FFFD or three combining marks in a row, rendering it again
    changes nothing, and a text is unchanged exactly when it was safe. *)
Theorem term_safe_exact `{UnicodeLaws} s :
  terminal_safe (runes (Term s)) ∧ Term (Term s) = Term s ∧ (Term s = s ↔ terminal_safe (runes s)).
Proof.
  assert (terminal_safe (runes (Term s))) as Hs.
  { unfold Term. rewrite term_runes. apply shown_safe; [exact brace_ok|apply runes_all_scalar]. }
  assert (∀ s', terminal_safe (runes s') → Term s' = s') as Hfix.
  { intros s' Hs'. unfold Term, term. rewrite term_shown, shown_fixed; [by apply encode_runes, terminal_safe_valid|lia|apply Hs'|].
    apply runs_within_scan, Hs'. }
  split_and!; [done|by apply Hfix|]. split; [by intros <-|apply Hfix].
Qed.

(** Block renders each line of a text by itself: the output has exactly the
    text's lines, every one after the first behind the indent, so no line of
    the text can pose as a line of the command, and no line holds a hidden
    rune but the tab. *)
Theorem block_lines `{UnicodeLaws} s indent : 0x0A ∉ indent →
  ∃ l0 ls, map (λ l, term l true) (split_lines (trim_newline s)) = l0 :: ls ∧
    split_lines (Block s indent) = l0 :: map (λ l, indent ++ l) ls ∧
    Forall (λ l, valid_utf8 l = true ∧ Forall (λ r, Hidden r = false ∨ r = 0x09) (runes l)) (l0 :: ls).
Proof.
  intros Hi. unfold Block. pose proof (split_lines_ne (trim_newline s)) as Hne.
  set (ts := map (λ l, term l true) (split_lines (trim_newline s))).
  assert (Forall (λ l, 0x0A ∉ l ∧ valid_utf8 l = true ∧ Forall (λ r, Hidden r = false ∨ r = 0x09) (runes l)) ts) as Hts.
  { apply Forall_forall. intros l (l' & -> & _)%elem_of_map_list.
    pose proof (shown_scalar brace_escape brace_ok true (runes l') 0 (runes_all_scalar l')) as Hsc.
    pose proof (shown_visible brace_escape brace_ok true (runes l') 0 (runes_all_scalar l')) as Hok.
    rewrite term_runes. split_and!.
    - unfold term. rewrite term_shown. apply encode_avoids; [lia|done|]. intros Hin. rewrite Forall_forall in Hok.
      by destruct (Hok _ Hin) as [[? _]|[_ ?]].
    - unfold term. rewrite term_shown. by apply valid_encode.
    - eapply Forall_impl; [exact Hok|]. naive_solver. }
  destruct ts as [|l0 ls] eqn:E; [by destruct (split_lines (trim_newline s))|].
  exists l0, ls. split_and!; [done| |eapply Forall_impl; [exact Hts|naive_solver]].
  apply split_join; [done|]. eapply Forall_impl; [exact Hts|]. naive_solver.
Qed.

(** Line gives at most [maxBytes] bytes of valid text on one line without
    hidden runes: the whole cleaned text when it is short enough, otherwise
    the longest prefix of whole runes that fits with the ellipsis, less its
    trailing spaces. *)
Theorem line_bounded `{UnicodeLaws} s maxBytes : 0 ≤ maxBytes →
  let out := Line s maxBytes in
  Z.of_nat (length out) ≤ maxBytes ∧ valid_utf8 out = true ∧ Forall (λ r, Hidden r = false) (runes out) ∧
  (Z.of_nat (length s) ≤ lineScan → Z.of_nat (length (encode (clean s))) ≤ maxBytes → out = encode (clean s)) ∧
  (maxBytes < 3 → out = [] ∨ out = encode (clean s)) ∧
  (3 ≤ maxBytes → lineScan < Z.of_nat (length s) ∨ maxBytes < Z.of_nat (length (encode (clean s))) →
   ∃ s' k, s' `prefix_of` s ∧ (Z.of_nat (length s) ≤ lineScan → s' = s) ∧
     out = encode (trim_right (λ r, r =? 0x20) (take k (clean s')) ++ [dots]) ∧
     (k = length (clean s') ∨ maxBytes - 3 < Z.of_nat (length (encode (take (S k) (clean s')))))).
Proof.
  intros Hmax. cbv zeta. unfold Line.
  set (cs := if lineScan <? Z.of_nat (length s) then (take (back_to_start s (Z.to_nat lineScan)) s, true) else (s, false)).
  assert (∃ s' cut, cs = (s', cut) ∧ s' `prefix_of` s ∧ (if cut : bool then lineScan < Z.of_nat (length s) else s' = s ∧ Z.of_nat (length s) ≤ lineScan))
    as (s' & cut & -> & Hpre & Hcut).
  { subst cs. destruct (lineScan <? Z.of_nat (length s)) eqn:Hc; bprop; do 2 eexists; (split; [reflexivity|]).
    - split; [eexists; symmetry; apply take_drop|done].
    - done. }
  destruct (clean_clean s') as [Hclean _]. pose proof (clean_scalar s') as Hsc.
  assert (Forall (λ r, Hidden r = false) (clean s')) as Hvis.
  { eapply Forall_impl; [apply Hclean|]. naive_solver. }
  destruct (negb cut && (Z.of_nat (length (encode (clean s'))) <=? maxBytes))%bool eqn:Hfit.
  { bprop. destruct cut; [done|]. destruct Hcut as [-> Hlen].
    split_and!; [lia|by apply valid_encode|by rewrite runes_encode|done|by right|intros _ [?|?]; lia]. }
  assert (cut = true ∨ maxBytes < Z.of_nat (length (encode (clean s')))) as Hlong.
  { destruct cut; [by left|]. cbn in Hfit. bprop. by right. }
  change (Z.of_nat (length ellipsis)) with 3. destruct (maxBytes - 3 <? 0) eqn:Hb; bprop.
  { split_and!; try done; [|by left|intros; lia]. intros Hl Hf. destruct cut; [lia|]. destruct Hcut as [-> _].
    destruct Hlong; [done|lia]. }
  destruct (line_end_spec (length (encode (clean s'))) (maxBytes - 3) [] (clean s') Hsc) as (k & He & Hk & Hmx); [done|done|].
  change (Z.of_nat (length (encode []))) with 0 in He. cbv zeta.
  rewrite He, Nat2Z.id. cbn [app] in *. rewrite take_encode.
  assert (Forall (λ r, is_scalar r = true) (take k (clean s'))) as Hsk by by apply Forall_take.
  rewrite trim_spaces_encode by done. change ellipsis with (encode [dots]). rewrite <- encode_app.
  destruct (trim_right_spec (λ r, r =? 0x20) (take k (clean s'))) as (t & Ht & _).
  assert (Forall (λ r, Hidden r = false) (take k (clean s'))) as Hvk by by apply Forall_take.
  rewrite Ht in Hsk, Hvk, Hk. apply Forall_app in Hsk as [Hsk _], Hvk as [Hvk _].
  assert (Forall (λ r, is_scalar r = true) (trim_right (λ r, r =? 0x20) (take k (clean s')) ++ [dots])) as Hall.
  { apply Forall_app. split; [done|]. by constructor. }
  split_and!.
  - rewrite encode_app, length_app. rewrite encode_app, length_app in Hk. change (length (encode [dots])) with 3%nat. lia.
  - by apply valid_encode.
  - rewrite runes_encode by done. apply Forall_app. split; [done|]. constructor; [apply dots_facts|constructor].
  - intros Hl Hf. destruct cut; [lia|]. destruct Hcut as [-> _]. destruct Hlong; [done|lia].
  - intros. lia.
  - intros _ _. exists s', k. split_and!; [done| |done|].
    + intros Hl. destruct cut; [lia|by destruct Hcut].
    + destruct Hmx as [?|[_ ?]]; [by left|by right].
Qed.

(** Name always shows something, on one line that looks like what it holds:
    no hidden rune, single spaces and none at either end, at most two
    combining marks in a row and no six numbers in a row; it is display-safe
    exactly when it has at most 4096 characters. *)
Theorem name_shows_safely `{UnicodeLaws} s :
  let rs := runes (Name s) in
  Name s ≠ [] ∧ valid_utf8 (Name s) = true ∧ Forall (λ r, Hidden r = false) rs ∧
  runs_within (λ r, r =? 0x20) 1 rs ∧ head rs ≠ Some 0x20 ∧ last rs ≠ Some 0x20 ∧
  runs_within isMark 2 rs ∧ runs_within isNumber 5 rs ∧
  (Safe (Name s) = true ↔ Z.of_nat (length rs) ≤ MaxSummary).
Proof.
  cbv zeta. destruct (name_runes s) as (([Hv Hm Hs Hh] & Hl & Hn) & Hval & Hne).
  assert (Forall (λ r, Hidden r = false) (runes (Name s))) as Hvis by (eapply Forall_impl; [exact Hv|naive_solver]).
  split_and!; try done; [intros E; by apply (Hl _ E)|]. unfold Safe. rewrite Hval. cbn [negb orb].
  destruct (MaxSummary <? Z.of_nat (length (runes (Name s)))) eqn:E; bprop; [split; [done|lia]|].
  split; [done|]. intros _. apply forallb_forall. intros x Hx%list_elem_of_In. rewrite Forall_forall in Hvis.
  by rewrite (Hvis _ Hx).
Qed.

(** No code survives step 4: in its output no stretch of numbers, with any
    combining marks and at most eight separators between two of them, holds
    six numbers. The step only replaces stretches by an ellipsis, and a text
    without numbers is left as it is. *)
Theorem digit_codes_blanked `{UnicodeLaws} rs :
  (∀ a w b, blankDigitRuns rs = a ++ w ++ b → codelike 0 w = true → (count_numbers w < 6)%nat) ∧
  blanked rs (blankDigitRuns rs) ∧ (count_numbers rs = 0%nat → blankDigitRuns rs = rs).
Proof.
  split_and!; [|apply digits_blanked|].
  - intros a w b Hw Hc. eapply (pieces_codes rs 0 0); [apply blankDigitRuns_pieces|done|lia|done].
  - apply (pieces_unchanged rs 0), blankDigitRuns_pieces.
Qed.

(** No fingerprint survives step 5: in its output no stretch of eight or
    more characters of the fingerprint alphabet (look-alikes folded, marks
    skipped) holds both a digit and a letter, and no two groups of exactly
    four such characters that stand apart, joined by one to eight separators
    without an ellipsis, hold a digit. The step only replaces stretches by an
    ellipsis and leaves text with fewer than eight such characters alone. *)
Theorem fingerprints_blanked `{UnicodeLaws} rs :
  (∀ a w b, blankFingerprints rs = a ++ w ++ b → Forall (λ r, in_run r = true) w → 8 ≤ count_fp w →
     hasDigit w && hasLetter w = false) ∧
  (∀ a g1 s g2 b, blankFingerprints rs = a ++ (g1 ++ s ++ g2) ++ b →
     group4 g1 → separation s → group4 g2 → dots ∉ s →
     (∀ x, last a = Some x → in_run x = false) → (∀ y, head b = Some y → in_run y = false) →
     hasDigit (g1 ++ s ++ g2) = false) ∧
  blanked rs (blankFingerprints rs) ∧ (count_fp rs < 8 → blankFingerprints rs = rs).
Proof.
  split_and!; [apply no_long_run|apply no_pair|apply fingerprints_blanked_text|apply few_unchanged].
Qed.

(** ** Examples *)

(** A part of the Unicode tables: ASCII, Latin-1, the general punctuation, the
    combining diacritical marks and Cyrillic. *)
Definition demo_space (r : Z) : bool := (r =? 0x20) || (r =? 0xA0) || in_range 0x2000 0x200A r || (r =? 0x202F) || (r =? 0x3000).
Definition demo_format (r : Z) : bool := (r =? 0xAD) || in_range 0x200B 0x200F r || in_range 0x202A 0x202E r || in_range 0x2060 0x2064 r || (r =? 0xFEFF).
Definition demo_letter (r : Z) : bool :=
  in_range 0x41 0x5A r || in_range 0x61 0x7A r || in_range 0xC0 0xD6 r || in_range 0xD8 0xF6 r || in_range 0xF8 0x24F r || in_range 0x400 0x481 r.
Definition demo_number (r : Z) : bool := in_range 0x30 0x39 r || in_range 0x2460 0x249B r.
Definition demo_mark (r : Z) : bool := in_range 0x300 0x36F r.
#[export] Instance demo_unicode : Unicode := {|
  Cf := demo_format;
  Variation_Selector := in_range 0xFE00 0xFE0F;
  Other_Default_Ignorable := λ r, (r =? 0x34F) || (r =? 0x3164);
  Zs := demo_space;
  IsGraphic := λ r, negb (isC0C1 r || demo_format r || (r =? 0x2028) || (r =? 0x2029));
  Mn := demo_mark;
  Mc := λ r, false;
  Me := in_range 0x20DD 0x20E0;
  Number := demo_number;
  Lm := in_range 0x2B0 0x2FF;
  IsLetter := demo_letter;
  IsPunct := λ r, in_range 0x21 0x2F r || in_range 0x3A 0x40 r || in_range 0x2010 0x2027 r;
  IsSymbol := λ r, in_range 0x24C0 0x24E9 r;
  ToUpper := λ r, if in_range 0x61 0x7A r then r - 32 else if in_range 0x430 0x44F r then r - 32 else r
|}.

Lemma range_check (f : Z → bool) lo n r : lo ≤ r < lo + Z.of_nat n →
  forallb f (map (λ k, lo + Z.of_nat k) (seq 0 n)) = true → f r = true.
Proof.
  intros Hr Hf. rewrite forallb_forall in Hf. apply Hf, in_map_iff. exists (Z.to_nat (r - lo)).
  split; [lia|]. apply in_seq. lia.
Qed.

#[export] Instance demo_laws : UnicodeLaws.
Proof.
  split.
  - intros r Hr. unfold plain.
    pose proof (range_check (λ r, negb (Hidden r) && negb (isAnyMark r)) 0x20 95 r ltac:(lia) eq_refl) as Hb.
    apply andb_true_iff in Hb as [?%negb_true_iff ?%negb_true_iff]. done.
  - intros r Hr. apply eqb_prop.
    exact (range_check (λ r, eqb (Number r) (in_range 0x30 0x39 r)) 0x20 95 r ltac:(lia) eq_refl).
  - done.
  - done.
  - done.
  - intros r. cbn. unfold demo_number, isAnyMark. cbn. unfold demo_mark.
    rewrite orb_true_iff, !in_range_spec. intros. rewrite !orb_false_iff, !in_range_false. lia.
  - intros r. cbn. unfold demo_letter, isAnyMark. cbn. unfold demo_mark.
    rewrite !orb_true_iff, !in_range_spec. intros. rewrite !orb_false_iff, !in_range_false. lia.
Qed.

(** A name with a code in it, written with zero-width spaces, and a
    fingerprint in it. *)
Definition demo_name : bytes := bytes_of "Bob 4" ++ encode [0x200B] ++ bytes_of "8-2-9 - 1 3 2ED9 TGVE".

Example demo_name_shown : Name demo_name = bytes_of "Bob " ++ ellipsis ++ bytes_of "ED9 TGVE".
Proof. vm_compute. reflexivity. Qed.

Lemma term_safe_exact_witness : Term (encode [0x41; 0x202E; 0x42]) = bytes_of "A\u{202E}B" ∧
  Term (Term (encode [0x41; 0x202E; 0x42])) = Term (encode [0x41; 0x202E; 0x42]).
Proof. split; [vm_compute; reflexivity|]. exact (proj1 (proj2 (term_safe_exact (encode [0x41; 0x202E; 0x42])))). Defined.

Lemma block_lines_witness : ∃ l0 ls,
  map (λ l, term l true) (split_lines (trim_newline (bytes_of "a" ++ 0x0A :: bytes_of "b"))) = l0 :: ls ∧
  split_lines (Block (bytes_of "a" ++ 0x0A :: bytes_of "b") (bytes_of "  ")) = l0 :: map (λ l, bytes_of "  " ++ l) ls.
Proof.
  destruct (block_lines (bytes_of "a" ++ 0x0A :: bytes_of "b") (bytes_of "  ")) as (l0 & ls & H1 & H2 & _).
  - vm_compute. intros Hin. repeat (apply elem_of_cons in Hin as [Hin|Hin]; [discriminate|]). by apply not_elem_of_nil in Hin.
  - exists l0, ls. split; [exact H1|exact H2].
Defined.

Lemma line_bounded_witness : Line (bytes_of "connection refused") 10 = bytes_of "connect" ++ ellipsis ∧
  Z.of_nat (length (Line (bytes_of "connection refused") 10)) ≤ 10.
Proof.
  split; [vm_compute; reflexivity|].
  assert (0 ≤ 10) as Hm by lia. exact (proj1 (line_bounded (bytes_of "connection refused") 10 Hm)).
Defined.

Lemma name_shows_safely_witness : Name demo_name ≠ [] ∧ valid_utf8 (Name demo_name) = true.
Proof.
  exact (conj (proj1 (name_shows_safely demo_name)) (proj1 (proj2 (name_shows_safely demo_name)))).
Defined.

Lemma digit_codes_blanked_witness : blankDigitRuns (bytes_of "a 48-29") = bytes_of "a 48-29" ∧
  blankDigitRuns (bytes_of "a 48-29-13") = bytes_of "a " ++ [dots] ∧ blanked (bytes_of "a 48-29-13") (bytes_of "a " ++ [dots]).
Proof.
  split; [vm_compute; reflexivity|]. split; [vm_compute; reflexivity|].
  exact (proj1 (proj2 (digit_codes_blanked (bytes_of "a 48-29-13")))).
Defined.

Lemma fingerprints_blanked_witness : blankFingerprints (bytes_of "x TGVE-R471 y") = bytes_of "x " ++ [dots] ++ bytes_of " y" ∧
  blanked (bytes_of "x TGVE-R471 y") (blankFingerprints (bytes_of "x TGVE-R471 y")).
Proof.
  split; [vm_compute; reflexivity|].
  exact (proj1 (proj2 (proj2 (fingerprints_blanked (bytes_of "x TGVE-R471 y"))))).
Defined.
