(* ===== verification/DisplayJson.v ===== *)
(** * Display text as JSON: Quote and JSON read back (internal/displaytext/displaytext.go)

    The two renderings that are JSON themselves, read by the parser of
    Canonical: [Quote] is a string literal that denotes exactly the text, and
    [JSON] changes no decoded value. *)

From S2P Require Import Prelude Utf8 Canonical DisplayText.

Open Scope Z_scope.

(** ** Lemmas: escapes *)

Lemma hex04_val v d : 0 ≤ v ≤ 0xFFFF → hex4 (hex04 v ++ d) = Some v.
Proof.
  intros Hv. unfold hex4, hex04. cbn [app]. rewrite !hexDigit_val by zdivmod. f_equal. zdivmod.
Qed.

Lemma hexDigit_printable n : 0 ≤ n ≤ 15 → printable (hexDigit n) ∧ hexDigit n ≠ 0x22 ∧ hexDigit n ≠ 0x5C.
Proof.
  intros Hn. pose proof (hexDigit_val n Hn) as Hv. unfold hex_val, printable in *.
  repeat case_match; simplify_eq; rewrite in_range_spec in *; lia.
Qed.

Lemma u_escape_printable v : 0 ≤ v ≤ 0xFFFF → Forall printable (u_escape v).
Proof.
  intros Hv. repeat (apply Forall_cons; split); try (apply hexDigit_printable; zdivmod); [unfold printable; lia..|constructor].
Qed.

Lemma utf16_units r : is_scalar r = true → Forall (λ u, 0 ≤ u ≤ 0xFFFF) (utf16_rune r) ∧ utf16_rune r ≠ [].
Proof.
  rewrite is_scalar_spec. unfold utf16_rune. intros Hr. destruct (r <=? 0xFFFF) eqn:E; bprop; (split; [|done]);
    repeat (apply Forall_cons; split); try constructor; zdivmod.
Qed.

Lemma json_escape_ok r : is_scalar r = true → Forall printable (json_escape r) ∧ json_escape r ≠ [].
Proof.
  intros Hr. unfold json_escape. destruct (utf16_units r Hr) as [Hu Hne]. split; [|by destruct (utf16_rune r)].
  induction Hu as [|u us Hu Hus IH]; [constructor|]. cbn [flat_map]. apply Forall_app. split; [by apply u_escape_printable|].
  destruct us as [|u' us]; [constructor|]. by apply IH.
Qed.

(** What scan_string does after one more rune was read. *)
Definition emit (r : Z) (o : option (bytes * bytes)) : option (bytes * bytes) :=
  match o with Some (s, d) => Some (encode_rune r ++ s, d) | None => None end.

(** The low surrogate escape that scan_string looks for after a high one. *)
Definition low_ahead (d : bytes) : option (Z * bytes) :=
  match d with
  | b :: u :: d4 =>
      match hex4 d4 with
      | Some lo => if (b =? 0x5C) && (u =? 0x75) && is_low lo then Some (lo, drop 4 d4) else None
      | None => None
      end
  | _ => None
  end.

(** One step of scan_string: the end of the literal, an error, or a rune and
    what follows it. *)
Definition scan_step (d : bytes) : option (option Z * bytes) :=
  match d with
  | [] => None
  | c :: d1 =>
      if c =? 0x22 then Some (None, d1)
      else if c <? 0x20 then None
      else if c =? 0x5C then
        match d1 with
        | [] => None
        | e :: d2 =>
            if e =? 0x22 then Some (Some 0x22, d2)
            else if e =? 0x5C then Some (Some 0x5C, d2)
            else if e =? 0x2F then Some (Some 0x2F, d2)
            else if e =? 0x62 then Some (Some 0x08, d2)
            else if e =? 0x66 then Some (Some 0x0C, d2)
            else if e =? 0x6E then Some (Some 0x0A, d2)
            else if e =? 0x72 then Some (Some 0x0D, d2)
            else if e =? 0x74 then Some (Some 0x09, d2)
            else if e =? 0x75 then
              match hex4 d2 with
              | None => None
              | Some v =>
                  if is_high v then
                    match low_ahead (drop 4 d2) with
                    | Some (lo, d') => Some (Some (0x10000 + (v - 0xD800) * 1024 + (lo - 0xDC00)), d')
                    | None => Some (Some RuneError, drop 4 d2)
                    end
                  else if is_low v then Some (Some RuneError, drop 4 d2)
                  else Some (Some v, drop 4 d2)
              end
            else None
        end
      else let '(r, n) := decode_rune d in Some (Some r, drop n d)
  end.

Lemma scan_string_steps k d : scan_string (S k) d =
  match scan_step d with
  | None => None
  | Some (None, d') => Some ([], d')
  | Some (Some r, d') => emit r (scan_string k d')
  end.
Proof.
  destruct d as [|c d1]; [done|]. cbn [scan_string scan_step].
  destruct (c =? 0x22); [done|]. destruct (c <? 0x20); [done|]. destruct (c =? 0x5C).
  - destruct d1 as [|e d2]; [done|]. repeat (case_match; [done|]). destruct (hex4 d2) as [v|]; [|by case_match].
    case_match; [|done]. destruct (is_high v); [|by destruct (is_low v)].
    unfold low_ahead. destruct (drop 4 d2) as [|b [|u d4]]; [done..|].
    destruct (hex4 d4) as [lo|]; [|done]. by destruct ((b =? 0x5C) && (u =? 0x75) && is_low lo)%bool.
  - by destruct (decode_rune (c :: d1)).
Qed.

Lemma scan_step_json_escape r d : is_scalar r = true → scan_step (json_escape r ++ d) = Some (Some r, d).
Proof.
  rewrite is_scalar_spec. intros Hr. unfold json_escape, utf16_rune. destruct (r <=? 0xFFFF) eqn:E; bprop.
  - cbn [flat_map]. rewrite app_nil_r. unfold u_escape. cbn [app scan_step Z.eqb Pos.eqb Z.ltb Z.compare Pos.compare Pos.compare_cont].
    rewrite hex04_val by lia. unfold is_high, is_low. by repeat range_step.
  - cbn [flat_map]. rewrite app_nil_r, <- app_assoc.
    set (hi := 0xD800 + (r - 0x10000) / 1024). set (lo := 0xDC00 + (r - 0x10000) mod 1024).
    assert (0xD800 ≤ hi ≤ 0xDBFF ∧ 0xDC00 ≤ lo ≤ 0xDFFF ∧ 0x10000 + (hi - 0xD800) * 1024 + (lo - 0xDC00) = r)
      as (Hhi & Hlo & Hsum) by (subst hi lo; zdivmod).
    unfold u_escape at 1. cbn [app scan_step Z.eqb Pos.eqb Z.ltb Z.compare Pos.compare Pos.compare_cont].
    rewrite hex04_val by lia. unfold is_high. range_step. cbn [drop hex04 app u_escape low_ahead Z.eqb Pos.eqb andb].
    change (hexDigit (lo / 4096) :: hexDigit (lo / 256 mod 16) :: hexDigit (lo / 16 mod 16) :: hexDigit (lo mod 16) :: ?l)
      with (hex04 lo ++ l).
    rewrite hex04_val by lia. unfold is_low. range_step. cbn [drop hex04 app]. by rewrite Hsum.
Qed.

Lemma scan_json_escape r d k : is_scalar r = true → scan_string (S k) (json_escape r ++ d) = emit r (scan_string k d).
Proof. intros Hr. by rewrite scan_string_steps, scan_step_json_escape. Qed.

Lemma crosses_u_escape v : 0 ≤ v ≤ 0xFFFF → is_high v = false → is_low v = false → crosses true true (u_escape v).
Proof.
  intros Hv Hh Hl rest [|fuel] i Hf; simpl in Hf; [lia|]. exists (i + 6)%nat, fuel. split; [lia|].
  unfold u_escape. cbn [app check_from]. simpl (0x5C =? _). simpl (0x75 =? _). cbn [negb].
  rewrite hex04_val, Hh, Hl by done. done.
Qed.

Lemma crosses_json_escape r : is_scalar r = true → crosses true true (json_escape r).
Proof.
  rewrite is_scalar_spec. intros Hr. unfold json_escape, utf16_rune. destruct (r <=? 0xFFFF) eqn:E; bprop.
  - cbn [flat_map]. rewrite app_nil_r. apply crosses_u_escape; [lia|unfold is_high; range_step; done|unfold is_low; range_step; done].
  - cbn [flat_map]. rewrite app_nil_r.
    set (hi := 0xD800 + (r - 0x10000) / 1024). set (lo := 0xDC00 + (r - 0x10000) mod 1024).
    assert (0xD800 ≤ hi ≤ 0xDBFF ∧ 0xDC00 ≤ lo ≤ 0xDFFF) as (Hhi & Hlo) by (subst hi lo; zdivmod).
    intros rest [|fuel] i Hf; simpl in Hf; [lia|]. exists (i + 12)%nat, fuel. split; [lia|].
    rewrite <- app_assoc. unfold u_escape at 1. cbn [app check_from]. simpl (0x5C =? _). simpl (0x75 =? _). cbn [negb].
    rewrite hex04_val by lia. unfold is_low at 1, is_high. range_step. range_step.
    cbn [drop hex04 app u_escape Z.eqb Pos.eqb andb].
    change (hexDigit (lo / 4096) :: hexDigit (lo / 256 mod 16) :: hexDigit (lo / 16 mod 16) :: hexDigit (lo mod 16) :: rest)
      with (hex04 lo ++ rest).
    rewrite hex04_val by lia. unfold is_low. range_step. reflexivity.
Qed.

(** ** Lemmas: Quote *)

(** Bytes inside a string literal that denote one rune, and several. *)
Definition written (r : Z) (c : bytes) : Prop :=
  (∀ k d, scan_string (S k) (c ++ d) = emit r (scan_string k d)) ∧ crosses true true c ∧ (1 ≤ length c)%nat.
Inductive reads : list Z → bytes → Prop :=
| reads_nil : reads [] []
| reads_cons r c rs b : written r c → reads rs b → reads (r :: rs) (c ++ b).

Lemma reads_scan rs b d k : reads rs b → (length b < k)%nat → scan_string k (b ++ 0x22 :: d) = Some (encode rs, d).
Proof.
  intros Hr. revert k. induction Hr as [|r c rs b (Hs & _ & Hl) Hr IH]; intros k Hk; (destruct k as [|k]; [lia|]); [done|].
  rewrite length_app in Hk. rewrite <- app_assoc, Hs, IH by lia. done.
Qed.

Lemma reads_crosses rs b : reads rs b → crosses true true b.
Proof. induction 1 as [|r c rs b (_ & Hc & _) Hr IH]; [apply crosses_nil|by eapply crosses_app]. Qed.

Lemma written_rune r : is_scalar r = true → written r (write_rune r).
Proof.
  intros Hr. split_and!; [|by apply crosses_write_rune|apply write_rune_length].
  intros k d. by rewrite scan_write_rune.
Qed.

Lemma written_escape r : is_scalar r = true → written r (json_escape r).
Proof.
  intros Hr. split_and!; [intros k d; by apply scan_json_escape|by apply crosses_json_escape|].
  destruct (json_escape_ok r Hr) as [_ ?]. destruct (json_escape r); simpl; [done|lia].
Qed.

Lemma encode_printable l : Forall printable l → encode l = l.
Proof.
  induction 1 as [|r l Hr Hl IH]; [done|]. change (encode (r :: l)) with (encode_rune r ++ encode l). rewrite IH.
  unfold encode_rune, printable in *. by rewrite (proj2 (Z.leb_le r 0x7F)) by lia.
Qed.

Lemma json_byte_rune b : 0 ≤ b < 0x80 → json_byte b = write_rune b.
Proof.
  intros Hb. apply (bool_decide_eq_true_1 (json_byte b = write_rune b)).
  exact (range_check (λ b, bool_decide (json_byte b = write_rune b)) 0 128 b ltac:(lia) eq_refl).
Qed.

Lemma write_rune_ascii r : 0 ≤ r < 0x7F → Forall printable (write_rune r) ∧ write_rune r ≠ [].
Proof.
  intros Hr.
  pose proof (range_check (λ r, forallb (in_range 0x20 0x7E) (write_rune r) && negb (bool_decide (write_rune r = []))) 0 127 r
    ltac:(lia) eq_refl) as Hb. apply andb_true_iff in Hb as [Hf Hn]. split.
  - by apply (Forall_check (in_range 0x20 0x7E)); [intros x Hx; apply in_range_spec in Hx|].
  - apply negb_true_iff, bool_decide_eq_false in Hn. done.
Qed.

(** The runes json.Encoder spells a rune with: an escape, or itself. *)
Definition spelling (r : Z) (c : list Z) : Prop :=
  is_scalar r = true ∧
  ((Forall printable c ∧ written r c) ∨ (c = [r] ∧ 0x7F ≤ r)).
Inductive spelled : list Z → list Z → Prop :=
| spelled_nil : spelled [] []
| spelled_cons r c rs raw : spelling r c → spelled rs raw → spelled (r :: rs) (c ++ raw).

Lemma spelled_scalars rs raw : spelled rs raw → scalars raw.
Proof.
  induction 1 as [|r c rs raw [Hr [[Hc _]|[-> _]]] Hs IH]; [constructor|..]; apply Forall_app; (split; [|exact IH]).
  - by apply printable_scalar.
  - by apply Forall_singleton.
Qed.

Lemma json_body_spelled k s : forallb (in_range 0 255) s = true → (length s ≤ k)%nat →
  ∃ raw, json_body k s = encode raw ∧ spelled (runes_fuel k s) raw.
Proof.
  revert s. induction k as [|k IH]; intros [|b s] Hb Hk; (try by (exists []; split; [done|apply spelled_nil])); simpl in Hk; (try lia).
  cbn [json_body runes_fuel]. pose proof Hb as Hb'. cbn [forallb] in Hb. apply andb_true_iff in Hb as [Hb0%in_range_spec Hb].
  simpl in Hk. destruct (b <? 0x80) eqn:Hlt; bprop.
  - assert (decode_rune (b :: s) = (b, 1%nat)) as -> by (cbn; by range_step). cbn [drop].
    destruct (IH s) as (raw & -> & Hs); [done|lia|]. rewrite json_byte_rune by lia.
    assert (is_scalar b = true) as Hsc by (apply scalar_low; lia).
    destruct (decide (b = 0x7F)) as [->|].
    + exists ([0x7F] ++ raw). split; [done|]. constructor; [|done]. split; [done|]. by right.
    + destruct (write_rune_ascii b) as [Hp _]; [lia|]. exists (write_rune b ++ raw).
      rewrite encode_app, (encode_printable (write_rune b)) by done. split; [done|].
      constructor; [|done]. split; [done|]. left. split; [done|by apply written_rune].
  - destruct (decode_rune (b :: s)) as [r n] eqn:Hd. pose proof (decode_rune_scalar _ _ _ Hd) as Hsc.
    assert (0 < n ≤ length (b :: s))%nat as Hn by (by eapply decode_rune_bounds).
    destruct (IH (drop n (b :: s))) as (raw & -> & Hs); [|rewrite length_drop; simpl in *; lia|].
    { rewrite <- (take_drop n (b :: s)), forallb_app in Hb'. by apply andb_true_iff in Hb' as [_ ?]. }
    assert (0x80 ≤ r) as Hr80.
    { unfold decode_rune in Hd. rewrite (proj2 (in_range_false 0 0x7F b)) in Hd by lia.
      repeat (case_match; simplify_eq; try (unfold RuneError; lia)); bprop; rewrite ?in_range_spec in *; try lia;
      repeat (case_match; bprop; try lia). }
    assert (∀ v, v = r → v ≤ 0xFFFF → ∃ raw', u_escape v ++ encode raw = encode raw' ∧ spelled (r :: runes_fuel k (drop n (b :: s))) raw') as Hesc.
    { intros v -> Hv. exists (u_escape r ++ raw). rewrite encode_app, (encode_printable (u_escape r)) by (apply u_escape_printable; lia).
      split; [done|]. constructor; [|done]. split; [done|]. left. split; [apply u_escape_printable; lia|].
      pose proof (written_escape r Hsc) as Hw. unfold json_escape, utf16_rune in Hw. rewrite (proj2 (Z.leb_le r 0xFFFF)) in Hw by done.
      cbn [flat_map] in Hw. by rewrite app_nil_r in Hw. }
    destruct ((r =? RuneError) && (n =? 1)%nat)%bool eqn:E1.
    { apply andb_true_iff in E1 as [E1%Z.eqb_eq _]. apply Hesc; [done|lia]. }
    destruct ((r =? 0x2028) || (r =? 0x2029))%bool eqn:E2.
    { apply orb_true_iff in E2. rewrite !Z.eqb_eq in E2. apply Hesc; [done|lia]. }
    assert (take n (b :: s) = encode_rune r) as ->.
    { apply decode_rune_inv in Hd as (_ & ? & _); [done|]. destruct (r =? RuneError); [|done]. cbn in E1 |- *.
      apply Nat.eqb_neq in E1. apply Nat.leb_gt. lia. }
    exists ([r] ++ raw). rewrite encode_app, encode_single. split; [done|]. constructor; [|done]. split; [done|]. right. split; [done|lia].
Qed.

Section Quote.
Context `{UnicodeLaws}.

Lemma quote_shown rs m : scalars rs → quote_loop rs m = encode (shown json_escape false rs m).
Proof.
  intros Hs. revert m. induction Hs as [|r rs Hr Hs IH]; intros m; [done|]. cbn [quote_loop shown andb]. cbv zeta.
  rewrite encode_app, <- IH. f_equal. destruct (if (isMark r && _)%bool then true else _).
  - symmetry. by apply encode_printable, json_escape_ok.
  - by rewrite encode_single.
Qed.

(** What Quote makes of the spelled runes still denotes them. *)
Lemma spelled_reads rs raw t m : spelled rs raw →
  ∃ out m', encode (shown json_escape false (raw ++ t) m) = out ++ encode (shown json_escape false t m') ∧ reads rs out.
Proof.
  intros Hs. revert m. induction Hs as [|r c rs raw [Hr [[Hp Hw]|[-> H7]]] Hs IH]; intros m.
  - exists [], m. split; [done|constructor].
  - destruct (IH 0) as (out & m' & He & Hrd). exists (c ++ out), m'. rewrite <- app_assoc, shown_printable; [|done|].
    + rewrite encode_app, He, encode_printable by done. split; [by rewrite app_assoc|by constructor].
    + intros ->. destruct Hw as (_ & _ & Hl). simpl in Hl. lia.
  - cbn [app shown andb]. cbv zeta. set (m1 := if isMark r then m + 1 else 0).
    destruct (IH m1) as (out & m' & He & Hrd).
    destruct (if (isMark r && (maxMarks <? m1))%bool then true else (r =? RuneError) || Hidden r).
    + exists (json_escape r ++ out), m'. rewrite encode_app, He, encode_printable by by apply json_escape_ok.
      split; [by rewrite app_assoc|]. constructor; [by apply written_escape|done].
    + exists (encode_rune r ++ out), m'. change (encode ([r] ++ ?l)) with (encode_rune r ++ encode l).
      rewrite He. split; [by rewrite app_assoc|]. constructor; [|done].
      assert (write_rune r = encode_rune r) as <-; [|by apply written_rune].
      unfold write_rune. repeat (case_match; bprop; try lia). done.
Qed.

Lemma quote_parts s : forallb (in_range 0 255) s = true →
  ∃ b, Quote s = 0x22 :: b ++ [0x22] ∧ reads (runes s) b ∧ terminal_safe (runes (Quote s)) ∧ valid_utf8 (Quote s) = true.
Proof.
  intros Hb. destruct (json_body_spelled (length s) s Hb) as (raw & Hj & Hs); [lia|].
  assert (scalars (0x22 :: raw ++ [0x22])) as Hsc.
  { apply Forall_cons. split; [done|]. apply Forall_app. split; [by eapply spelled_scalars|by apply Forall_singleton]. }
  assert (runes (json_encode s) = 0x22 :: raw ++ [0x22]) as Hr.
  { rewrite <- (runes_encode (0x22 :: raw ++ [0x22])) by done. f_equal. unfold json_encode. rewrite Hj.
    change (0x22 :: raw ++ [0x22]) with ([0x22] ++ raw ++ [0x22]). by rewrite !encode_app. }
  assert (Quote s = encode (shown json_escape false (0x22 :: raw ++ [0x22]) 0)) as HQ.
  { unfold Quote. rewrite Hr. by apply quote_shown. }
  destruct (spelled_reads _ _ [0x22] 0 Hs) as (out & m' & He & Hrd).
  assert (∀ t m, shown json_escape false (0x22 :: t) m = 0x22 :: shown json_escape false t 0) as Hq.
  { intros t m. apply (shown_printable json_escape false [0x22]); [|done]. repeat constructor; unfold printable; lia. }
  exists out. split_and!; [|done| |].
  - rewrite HQ, Hq. change (encode (0x22 :: ?l)) with (0x22 :: encode l). by rewrite He, Hq.
  - rewrite HQ, runes_encode; [apply shown_safe; [exact json_escape_ok|done]|].
    apply shown_scalar; [exact json_escape_ok|done].
  - rewrite HQ. apply valid_encode, shown_scalar; [exact json_escape_ok|done].
Qed.
End Quote.

(** ** Lemmas: the JSON rewriting *)

(** The rewriting as a function of the bytes from here on. *)
Fixpoint rewrite_from `{Unicode} (k : nat) (d : bytes) : bytes :=
  match k, d with
  | S k, c :: d' =>
      if c <? 0x7F then c :: rewrite_from k d'
      else
        let '(r, n) := decode_rune d in
        (if (r =? RuneError) && (n <=? 1)%nat then bytes_of "\ufffd"
         else if negb (Hidden r) then take n d else json_escape r) ++ rewrite_from k (drop n d)
  | _, _ => []
  end.
Definition rewritten `{Unicode} (d : bytes) : bytes := rewrite_from (length d) d.

Section Rewriting.
Context `{UnicodeLaws}.

Lemma rewrite_from_fuel k k' d : (length d ≤ k)%nat → (length d ≤ k')%nat → rewrite_from k d = rewrite_from k' d.
Proof.
  revert k' d. induction k as [|k IH]; intros k' [|c d] Hk Hk'; try (by destruct k'); simpl in Hk, Hk'; [lia|].
  destruct k' as [|k']; [lia|]. cbn [rewrite_from]. destruct (c <? 0x7F); [f_equal; apply IH; lia|].
  destruct (decode_rune (c :: d)) as [r n] eqn:Hd. f_equal.
  assert (0 < n ≤ length (c :: d))%nat as Hn by (by eapply decode_rune_bounds).
  apply IH; rewrite length_drop; simpl in *; lia.
Qed.

(** What stands for the rune at the head of [d], not an ASCII one below U+007F. *)
Definition head_text (d : bytes) : bytes :=
  let '(r, n) := decode_rune d in
  if (r =? RuneError) && (n <=? 1)%nat then bytes_of "\ufffd"
  else if negb (Hidden r) then take n d else json_escape r.

Lemma rewritten_ascii c d : c < 0x7F → rewritten (c :: d) = c :: rewritten d.
Proof. intros Hc. unfold rewritten. cbn [length rewrite_from]. by rewrite (proj2 (Z.ltb_lt c 0x7F) Hc). Qed.

Lemma rewritten_rune c d : 0x7F ≤ c → let '(r, n) := decode_rune (c :: d) in
  rewritten (c :: d) = head_text (c :: d) ++ rewritten (drop n (c :: d)) ∧ (0 < n ≤ length (c :: d))%nat.
Proof.
  intros Hc. destruct (decode_rune (c :: d)) as [r n] eqn:Hd.
  assert (0 < n ≤ length (c :: d))%nat as Hn by (by eapply decode_rune_bounds).
  split; [|done]. unfold rewritten. cbn [length rewrite_from]. rewrite (proj2 (Z.ltb_ge c 0x7F) Hc).
  unfold head_text. rewrite Hd. f_equal. apply rewrite_from_fuel; [|done]. rewrite length_drop. simpl in *. lia.
Qed.

(** The loop with its lazily copied buffer computes it. *)
Lemma json_loop_rewritten k b i out : (length b - i ≤ k)%nat →
  match json_loop k b i out with
  | Some o => o = match out with Some o => o | None => take i b end ++ rewritten (drop i b)
  | None => out = None ∧ rewritten (drop i b) = drop i b
  end.
Proof.
  revert i out. induction k as [|k IH]; intros i out Hk; cbn [json_loop].
  { rewrite drop_ge by lia. destruct out; [by rewrite app_nil_r|done]. }
  destruct (drop i b) as [|c d] eqn:Hrest; [destruct out; [by rewrite app_nil_r|done]|].
  assert (i < length b)%nat as Hi by (destruct (decide (i < length b)%nat); [done|rewrite drop_ge in Hrest by lia; done]).
  assert (∀ n, (0 < n)%nat → (length b - (i + n) ≤ k)%nat) as Hlen by (intros; lia).
  assert (∀ n, drop (i + n) b = drop n (c :: d)) as Hdrop by (intros n; by rewrite <- Hrest, drop_drop).
  assert (∀ n, match (match out with Some o => Some (o ++ take n (c :: d)) | None => None end) with Some o => o | None => take (i + n) b end
    = match out with Some o => o | None => take i b end ++ take n (c :: d)) as Hkeep.
  { intros n. destruct out; [done|]. rewrite <- Hrest. rewrite <- (take_drop i (take (i + n) b)).
    rewrite take_take, Nat.min_l by lia. f_equal. rewrite skipn_firstn_comm. by replace (i + n - i)%nat with n by lia. }
  assert (∀ n, (0 < n)%nat → rewritten (c :: d) = take n (c :: d) ++ rewritten (drop n (c :: d)) →
    match json_loop k b (i + n) (match out with Some o => Some (o ++ take n (c :: d)) | None => None end) with
    | Some o => o = match out with Some o => o | None => take i b end ++ rewritten (c :: d)
    | None => out = None ∧ rewritten (c :: d) = c :: d
    end) as Hkept.
  { intros n Hn Hrw. specialize (IH (i + n)%nat (match out with Some o => Some (o ++ take n (c :: d)) | None => None end) (Hlen n Hn)).
    rewrite Hdrop in IH. destruct (json_loop k b (i + n) _).
    - rewrite IH, Hkeep, Hrw. by rewrite <- app_assoc.
    - destruct IH as [Ho Hr]. split; [by destruct out|]. by rewrite Hrw, Hr, take_drop. }
  assert (∀ n t, (0 < n)%nat → rewritten (c :: d) = t ++ rewritten (drop n (c :: d)) →
    match json_loop k b (i + n) (Some (match out with Some o => o | None => take i b end ++ t)) with
    | Some o => o = match out with Some o => o | None => take i b end ++ rewritten (c :: d)
    | None => out = None ∧ rewritten (c :: d) = c :: d
    end) as Hput.
  { intros n t Hn Hrw. specialize (IH (i + n)%nat (Some (match out with Some o => o | None => take i b end ++ t)) (Hlen n Hn)).
    rewrite Hdrop in IH. destruct (json_loop k b (i + n) _); [|by destruct IH].
    rewrite IH, Hrw. by rewrite <- app_assoc. }
  destruct (c <? 0x7F) eqn:Hc; bprop.
  - rewrite <- Nat.add_1_r. apply Hkept; [lia|]. by rewrite rewritten_ascii.
  - pose proof (rewritten_rune c d Hc) as Hr. unfold head_text in Hr.
    destruct (decode_rune (c :: d)) as [r n]. destruct Hr as [Hr Hn].
    destruct ((r =? RuneError) && (n <=? 1)%nat)%bool; [by apply Hput; [lia|]|].
    destruct (negb (Hidden r)); [by apply Hkept; [lia|]|by apply Hput; [lia|]].
Qed.

Lemma JSON_rewritten b : JSON b = rewritten b.
Proof.
  unfold JSON. pose proof (json_loop_rewritten (length b) b 0 None) as Hj. cbn [drop take app] in Hj.
  destruct (json_loop (length b) b 0 None); [apply Hj; lia|]. symmetry. apply Hj. lia.
Qed.

(** The first byte of what stands for a rune from U+007F up. *)
Lemma head_text_head c d : 0x7F ≤ c → ∃ c' t, head_text (c :: d) = c' :: t ∧ (c' = 0x5C ∨ 0x7F ≤ c').
Proof.
  intros Hc. unfold head_text. destruct (decode_rune (c :: d)) as [r n] eqn:Hd.
  destruct ((r =? RuneError) && (n <=? 1)%nat)%bool; [do 2 eexists; split; [reflexivity|by left]|].
  assert (0 < n ≤ length (c :: d))%nat as Hn by (by eapply decode_rune_bounds).
  destruct (negb (Hidden r)).
  - destruct n; [lia|]. do 2 eexists. split; [reflexivity|by right].
  - unfold json_escape, utf16_rune. destruct (r <=? 0xFFFF); do 2 eexists; (split; [reflexivity|by left]).
Qed.

(** No byte of the grammar outside strings: not white space, a digit, a
    delimiter or a letter of the literals. *)
Definition foreign (c : Z) : Prop := c = 0x5C ∨ 0x7F ≤ c.

(** The two texts, byte by byte. *)
Lemma rewritten_cases d : (d = [] ∧ rewritten d = []) ∨
  (∃ c t, d = c :: t ∧ c < 0x7F ∧ rewritten d = c :: rewritten t) ∨
  (∃ c t c' t', d = c :: t ∧ 0x7F ≤ c ∧ rewritten d = c' :: t' ∧ foreign c').
Proof.
  destruct d as [|c d]; [by left|right]. destruct (decide (c < 0x7F)) as [Hc|Hc].
  - left. exists c, d. by rewrite rewritten_ascii.
  - right. pose proof (rewritten_rune c d ltac:(lia)) as Hr. destruct (decode_rune (c :: d)) as [r n].
    destruct Hr as [Hr _]. destruct (head_text_head c d ltac:(lia)) as (c' & t & Ht & Hf). rewrite Ht in Hr.
    do 4 eexists. split_and!; [done|lia|exact Hr|exact Hf].
Qed.

Lemma skip_ws_rewritten d : skip_ws (rewritten d) = rewritten (skip_ws d).
Proof.
  induction d as [|c d IH]; [done|].
  destruct (rewritten_cases (c :: d)) as [[? _]|[(? & ? & [= <- <-] & Hc & Hr)|(? & ? & c' & t' & [= <- <-] & Hc & Hr & Hf)]]; [done|..].
  - rewrite Hr. simpl. rewrite IH. by destruct (is_ws c).
  - assert (is_ws c = false) as Hw by (unfold is_ws; rewrite !orb_false_iff, !Z.eqb_neq; lia).
    assert (is_ws c' = false) as Hw' by (unfold foreign in Hf; unfold is_ws; rewrite !orb_false_iff, !Z.eqb_neq; lia).
    rewrite Hr, !skip_ws_cons by done. by rewrite Hr.
Qed.

Lemma span_digits_rewritten d : span_digits (rewritten d) = let '(s, r) := span_digits d in (s, rewritten r).
Proof.
  induction d as [|c d IH]; [done|].
  destruct (rewritten_cases (c :: d)) as [[? _]|[(? & ? & [= <- <-] & Hc & Hr)|(? & ? & c' & t' & [= <- <-] & Hc & Hr & Hf)]]; [done|..].
  - rewrite Hr. simpl. rewrite IH. destruct (is_digit c); [|by rewrite Hr]. by destruct (span_digits d).
  - assert (is_digit c = false) as Hw by (apply in_range_false; lia).
    assert (is_digit c' = false) as Hw' by (unfold foreign in Hf; apply in_range_false; lia).
    rewrite Hr. simpl. rewrite Hw, Hw'. by rewrite Hr.
Qed.

Lemma hex_val_foreign c : 0x7F ≤ c ∨ foreign c → hex_val c = None.
Proof. unfold foreign, hex_val. intros. by repeat range_step. Qed.

Lemma rewritten_prefix l d : Forall (λ c, c < 0x7F) l → rewritten (l ++ d) = l ++ rewritten d.
Proof. induction 1 as [|c l Hc Hl IH]; [done|]. cbn [app]. by rewrite rewritten_ascii, IH. Qed.

Lemma hex4_rewritten d : hex4 (rewritten d) = hex4 d ∧
  (∀ v, hex4 d = Some v → drop 4 (rewritten d) = rewritten (drop 4 d)).
Proof.
  assert (∀ c t, hex_val c = None → ∀ l, hex4 (l ++ c :: t) = None ∨ (4 ≤ length l)%nat) as Hnone.
  { intros c t Hc l. destruct l as [|a1 [|a2 [|a3 [|a4 l]]]]; [left..|right; simpl; lia]; cbn; rewrite ?Hc;
      repeat (case_match; try done). }
  assert (∀ k l d, (length l + k = 4)%nat → Forall (λ c, c < 0x7F) l →
    hex4 (l ++ rewritten d) = hex4 (l ++ d) ∧ (∀ v, hex4 (l ++ d) = Some v → drop 4 (l ++ rewritten d) = rewritten (drop 4 (l ++ d)))) as Hg.
  { clear d. induction k as [|k IH]; intros l d Hk Hl.
    - destruct l as [|a1 [|a2 [|a3 [|a4 [|a5 l]]]]]; simpl in Hk; try lia. done.
    - destruct (rewritten_cases d) as [[-> Hd]|[(c & t & -> & Hc & Hd)|(c & t & c' & t' & -> & Hc & Hd & Hf)]].
      + rewrite Hd, !app_nil_r. split; [done|]. intros v Hv.
        destruct l as [|a1 [|a2 [|a3 [|a4 l]]]]; simpl in Hk; try lia; try done; cbn in Hv; by repeat case_match.
      + rewrite Hd. specialize (IH (l ++ [c]) t). rewrite <- !app_assoc in IH. apply IH.
        * rewrite length_app. simpl. lia.
        * apply Forall_app. split; [done|by apply Forall_singleton].
      + rewrite Hd. destruct (Hnone c t (hex_val_foreign c ltac:(by left)) l) as [Hn|]; [|lia].
        destruct (Hnone c' t' (hex_val_foreign c' ltac:(by right)) l) as [Hn'|]; [|lia].
        rewrite Hn, Hn'. done. }
  exact (Hg 4%nat [] d eq_refl (Forall_nil_2 _)).
Qed.
End Rewriting.

(** ** Lemmas: reading the rewritten text *)

Lemma scan_step_shorter d o d' : scan_step d = Some (o, d') → (length d' < length d)%nat.
Proof.
  unfold scan_step. destruct d as [|c d1]; [done|]. assert (∀ d2 : bytes, length (drop 4 d2) ≤ length d2)%nat as Hd by (intros; rewrite length_drop; lia).
  destruct (c =? 0x22); [intros; simplify_eq/=; lia|]. destruct (c <? 0x20); [done|]. destruct (c =? 0x5C).
  - destruct d1 as [|e d2]; [done|]. do 8 (case_match; [intros; simplify_eq/=; lia|]). case_match; [|done].
    destruct (hex4 d2) as [v|]; [|done]. pose proof (Hd d2). destruct (is_high v).
    + destruct (low_ahead (drop 4 d2)) as [[lo d4]|] eqn:Hl; intros; simplify_eq/=; [|lia].
      unfold low_ahead in Hl. destruct (drop 4 d2) as [|b [|u d3]]; [done..|]. repeat case_match; simplify_eq.
      pose proof (Hd d3). simpl in *. lia.
    + destruct (is_low v); intros; simplify_eq/=; lia.
  - destruct (decode_rune (c :: d1)) as [r n] eqn:Hr. intros. simplify_eq.
    assert (0 < n ≤ length (c :: d1))%nat as Hn by (by eapply decode_rune_bounds). rewrite length_drop. simpl in *. lia.
Qed.

Section Reading.
Context `{UnicodeLaws}.

Lemma not_low r : is_scalar r = true → Forall (λ u, 0 ≤ u ≤ 0xFFFF) (utf16_rune r) ∧
  (∃ u us, utf16_rune r = u :: us ∧ is_low u = false ∧ 0 ≤ u ≤ 0xFFFF).
Proof.
  intros Hr. split; [by apply utf16_units|]. apply is_scalar_spec in Hr. unfold utf16_rune.
  destruct (r <=? 0xFFFF) eqn:E; bprop; do 2 eexists; (split; [reflexivity|]); split; try zdivmod;
    apply in_range_false; zdivmod.
Qed.

Lemma head_text_cases c d : 0x7F ≤ c →
  (∃ t, head_text (c :: d) = c :: t) ∨ (∃ v t, head_text (c :: d) = u_escape v ++ t ∧ 0 ≤ v ≤ 0xFFFF ∧ is_low v = false).
Proof.
  intros Hc. unfold head_text. destruct (decode_rune (c :: d)) as [r n] eqn:Hd.
  destruct ((r =? RuneError) && (n <=? 1)%nat)%bool eqn:E; [right; by exists 0xFFFD, []|].
  assert (0 < n ≤ length (c :: d))%nat as Hn by (by eapply decode_rune_bounds).
  destruct (negb (Hidden r)); [left; destruct n; [lia|by eexists]|right].
  destruct (not_low r) as (_ & u & us & Hu & Hl & Hb); [by eapply decode_rune_scalar|].
  exists u, (flat_map u_escape us). unfold json_escape. by rewrite Hu.
Qed.

Lemma low_ahead_rewritten d : low_ahead (rewritten d) =
  match low_ahead d with Some (lo, d') => Some (lo, rewritten d') | None => None end.
Proof.
  assert (∀ b u t, b ≠ 0x5C ∨ u ≠ 0x75 → low_ahead (b :: u :: t) = None) as Hno.
  { intros b u t Hbu. cbn. destruct (hex4 t); [|done].
    destruct ((b =? 0x5C) && (u =? 0x75))%bool eqn:E; [|done]. bprop. lia. }
  assert (∀ b t, b ≠ 0x5C → low_ahead (b :: t) = None) as Hno1.
  { intros b [|u t] Hb; [done|]. apply Hno. by left. }
  destruct d as [|c d]; [done|]. destruct (decide (c < 0x7F)) as [Hc|Hc].
  - rewrite rewritten_ascii by done. destruct (decide (c = 0x5C)) as [->|]; [|by rewrite !Hno1 by done].
    destruct (rewritten_cases d) as [[-> Hr]|[(u & t & -> & Hu & Hr)|(u & t & u' & t' & -> & Hu & Hr & Hf)]]; rewrite Hr.
    + done.
    + destruct (hex4_rewritten t) as [Hh Hd]. cbn [low_ahead]. rewrite Hh. destruct (hex4 t) as [lo|]; [|done].
      rewrite (Hd lo) by done. by destruct (_ && is_low lo)%bool.
    + unfold foreign in Hf. rewrite !Hno by (right; lia). done.
  - rewrite (Hno1 c d) by lia. pose proof (rewritten_rune c d ltac:(lia)) as Hr. destruct (decode_rune (c :: d)) as [r n].
    destruct Hr as [-> _]. destruct (head_text_cases c d ltac:(lia)) as [(t & ->)|(v & t & -> & Hv & Hl)]; [apply Hno1; lia|].
    unfold u_escape. cbn [app low_ahead]. rewrite <- app_assoc, hex04_val by done. by rewrite Hl, andb_false_r.
Qed.

(** A step over the rewritten text yields the same rune. *)
Lemma scan_step_rewritten d o d' : scan_step d = Some (o, d') → scan_step (rewritten d) = Some (o, rewritten d').
Proof.
  destruct d as [|c d1]; [done|]. destruct (decide (c < 0x7F)) as [Hc|Hc].
  - rewrite rewritten_ascii by done. unfold scan_step.
    destruct (c =? 0x22); [by intros [= <- <-]|]. destruct (c <? 0x20) eqn:H20; [done|]. bprop. destruct (c =? 0x5C).
    + destruct d1 as [|e d2]; [done|]. intros Hs. assert (e < 0x7F) as He.
      { repeat (case_match; bprop; try lia). all: done. }
      rewrite rewritten_ascii by done. do 8 (case_match; [by simplify_eq|]). case_match; [|done].
      destruct (hex4_rewritten d2) as [-> Hd]. destruct (hex4 d2) as [v|]; [|done]. rewrite (Hd v) by done.
      rewrite low_ahead_rewritten. destruct (is_high v); [|destruct (is_low v); by simplify_eq].
      destruct (low_ahead (drop 4 d2)) as [[lo d4]|]; by simplify_eq.
    + assert (∀ t, decode_rune (c :: t) = (c, 1%nat)) as Hdec by (intros t; cbn; by range_step). rewrite !Hdec.
      by intros [= <- <-].
  - pose proof (rewritten_rune c d1 ltac:(lia)) as Hr. unfold scan_step at 1.
    rewrite (proj2 (Z.eqb_neq c 0x22)), (proj2 (Z.ltb_ge c 0x20)), (proj2 (Z.eqb_neq c 0x5C)) by lia.
    destruct (decode_rune (c :: d1)) as [r n] eqn:Hd. destruct Hr as [-> Hn]. intros [= <- <-].
    unfold head_text. rewrite Hd. pose proof (decode_rune_scalar _ _ _ Hd) as Hsc.
    destruct ((r =? RuneError) && (n <=? 1)%nat)%bool eqn:E.
    { apply andb_true_iff in E as [->%Z.eqb_eq _]. reflexivity. }
    destruct (negb (Hidden r)).
    + pose proof (decode_rune_inv _ _ _ Hd E) as (_ & Ht & _). rewrite Ht.
      pose proof (decode_encode_rune r (rewritten (drop n (c :: d1))) Hsc) as Hdec.
      destruct n as [|n]; [lia|]. cbn [take] in Ht. destruct (encode_rune r) as [|c' t]; [done|]. injection Ht as <- _.
      cbn [app scan_step]. rewrite (proj2 (Z.eqb_neq c 0x22)), (proj2 (Z.ltb_ge c 0x20)), (proj2 (Z.eqb_neq c 0x5C)) by lia.
      cbn [app] in Hdec. rewrite Hdec. do 2 f_equal. change (c :: t ++ ?l) with ((c :: t) ++ l). apply drop_app_length.
    + by apply scan_step_json_escape.
Qed.

Lemma scan_string_rewritten k d s r m : scan_string k d = Some (s, r) → (length (rewritten d) ≤ m)%nat →
  scan_string m (rewritten d) = Some (s, rewritten r).
Proof.
  revert d s m. induction k as [|k IH]; intros d s m Hs Hm; [done|].
  rewrite scan_string_steps in Hs. destruct (scan_step d) as [[o d']|] eqn:Hst; [|done].
  pose proof (scan_step_rewritten _ _ _ Hst) as Hst'. pose proof (scan_step_shorter _ _ _ Hst') as Hlt.
  destruct m as [|m]; [lia|]. rewrite scan_string_steps, Hst'. destruct o as [x|]; [|by simplify_eq].
  destruct (scan_string k d') as [[s' r']|] eqn:Hk; [|done]. cbn in Hs. simplify_eq.
  by rewrite (IH _ _ m Hk) by lia.
Qed.
End Reading.

Section Parsing.
Context `{UnicodeLaws}.

Lemma scan_lit_rewritten w d r : Forall (λ c, c < 0x7F) w → scan_lit w d = Some r → scan_lit w (rewritten d) = Some (rewritten r).
Proof.
  intros Hw. revert d. induction Hw as [|x w Hx Hw IH]; intros d Hs; [by simplify_eq/=|].
  destruct d as [|c d]; [done|]. cbn [scan_lit] in Hs. destruct (c =? x) eqn:E; [|done]. bprop. subst x.
  rewrite rewritten_ascii by done. cbn [scan_lit]. rewrite Z.eqb_refl. by apply IH.
Qed.

Definition rewritten_pair (o : option (bytes * bytes)) : option (bytes * bytes) :=
  match o with Some (s, r) => Some (s, rewritten r) | None => None end.

Lemma foreign_not c x : foreign c → x < 0x5C ∨ 0x5C < x < 0x7F → (c =? x) = false.
Proof. unfold foreign. intros. apply Z.eqb_neq. lia. Qed.

Lemma scan_int_rewritten d : scan_int (rewritten d) = rewritten_pair (scan_int d).
Proof.
  destruct (rewritten_cases d) as [[-> Hr]|[(c & t & -> & Hc & Hr)|(c & t & c' & t' & -> & Hc & Hr & Hf)]]; rewrite Hr; [done|..]; unfold scan_int.
  - destruct (c =? 0x30); [done|]. destruct (in_range 0x31 0x39 c); [|done]. rewrite span_digits_rewritten.
    by destruct (span_digits t).
  - unfold foreign in Hf. by repeat range_step.
Qed.

Lemma scan_frac_rewritten d : scan_frac (rewritten d) = rewritten_pair (scan_frac d).
Proof.
  destruct (rewritten_cases d) as [[-> Hr]|[(c & t & -> & Hc & Hr)|(c & t & c' & t' & -> & Hc & Hr & Hf)]]; rewrite Hr; [done|..]; unfold scan_frac.
  - destruct (c =? 0x2E); [|cbn [rewritten_pair]; by rewrite Hr]. rewrite span_digits_rewritten. by destruct (span_digits t) as [[|x s] r].
  - unfold foreign in Hf. repeat range_step. cbn [orb rewritten_pair]. by rewrite Hr.
Qed.

Lemma scan_exp_rewritten d : scan_exp (rewritten d) = rewritten_pair (scan_exp d).
Proof.
  destruct (rewritten_cases d) as [[-> Hr]|[(c & t & -> & Hc & Hr)|(c & t & c' & t' & -> & Hc & Hr & Hf)]]; rewrite Hr; [done|..]; unfold scan_exp.
  - destruct ((c =? 0x65) || (c =? 0x45))%bool; [|cbn [rewritten_pair]; by rewrite Hr].
    destruct (rewritten_cases t) as [[-> Ht]|[(x & u & -> & Hx & Ht)|(x & u & x' & u' & -> & Hx & Ht & Hf)]].
    + by rewrite Ht.
    + rewrite Ht. destruct ((x =? 0x2B) || (x =? 0x2D))%bool.
      * rewrite span_digits_rewritten. by destruct (span_digits u) as [[|y s] r].
      * rewrite <- Ht, span_digits_rewritten. by destruct (span_digits (x :: u)) as [[|y s] r].
    + rewrite Ht. unfold foreign in Hf. repeat range_step. cbn [orb]. rewrite <- Ht, span_digits_rewritten.
      by destruct (span_digits (x :: u)) as [[|y s] r].
  - unfold foreign in Hf. repeat range_step. cbn [orb rewritten_pair]. by rewrite Hr.
Qed.

Lemma scan_number_rewritten d : scan_number (rewritten d) = rewritten_pair (scan_number d).
Proof.
  assert (∀ sg d0, match scan_int (rewritten d0) with
    | Some (i, d1) => match scan_frac d1 with
                      | Some (f, d2) => match scan_exp d2 with Some (e, d3) => Some (sg ++ i ++ f ++ e, d3) | None => None end
                      | None => None end
    | None => None end = rewritten_pair (match scan_int d0 with
    | Some (i, d1) => match scan_frac d1 with
                      | Some (f, d2) => match scan_exp d2 with Some (e, d3) => Some (sg ++ i ++ f ++ e, d3) | None => None end
                      | None => None end
    | None => None end)) as Hg.
  { intros sg d0. rewrite scan_int_rewritten. destruct (scan_int d0) as [[i d1]|]; [|done]. cbn.
    rewrite scan_frac_rewritten. destruct (scan_frac d1) as [[f d2]|]; [|done]. cbn.
    rewrite scan_exp_rewritten. by destruct (scan_exp d2) as [[e d3]|]. }
  unfold scan_number.
  destruct (rewritten_cases d) as [[-> Hr]|[(c & t & -> & Hc & Hr)|(c & t & c' & t' & -> & Hc & Hr & Hf)]]; rewrite Hr; [done|..].
  - destruct (c =? 0x2D); [apply Hg|]. rewrite <- Hr. apply Hg.
  - unfold foreign in Hf. repeat range_step. rewrite <- Hr. apply Hg.
Qed.

(** A parser of values whose results over the rewritten text are the same. *)
Definition follows (pv pv' : bytes → option (value * bytes)) : Prop :=
  ∀ d v r, pv d = Some (v, r) → pv' (rewritten d) = Some (v, rewritten r).

Lemma parse_elems_rewritten pv pv' k first d l r m : follows pv pv' → parse_elems pv k first d = Some (l, r) →
  (k ≤ m)%nat → parse_elems pv' m first (rewritten d) = Some (l, rewritten r).
Proof.
  intros Hpv. revert first d l m. induction k as [|k IH]; intros first d l m Hp Hm; [done|]. destruct m as [|m]; [lia|].
  cbn [parse_elems] in *. rewrite skip_ws_rewritten. destruct (skip_ws d) as [|c d'] eqn:Hd; [done|].
  destruct (c =? 0x5D) eqn:Hc; [bprop; subst c; simplify_eq; by rewrite rewritten_ascii|].
  destruct (negb first && negb (c =? 0x2C))%bool eqn:Hf; [done|].
  destruct (pv _) as [[v r1]|] eqn:Hv; [|done]. pose proof (Hpv _ _ _ Hv) as Hv'.
  destruct (parse_elems pv k false r1) as [[l' r2]|] eqn:Hl; [|done]. simplify_eq.
  pose proof (IH _ _ _ m Hl ltac:(lia)) as Hl'.
  destruct first; cbn [negb andb] in Hf.
  - destruct (rewritten_cases (c :: d')) as [[? _]|[(? & ? & [= <- <-] & Hc7 & Hr)|(? & ? & c' & t' & [= <- <-] & Hc7 & Hr & Hf')]]; [done|..].
    + rewrite Hr, Hc. cbn [negb andb]. rewrite <- Hr, Hv', Hl'. done.
    + rewrite Hr. rewrite (foreign_not c' 0x5D Hf') by lia. cbn [negb andb]. rewrite <- Hr, Hv', Hl'. done.
  - bprop. subst c. rewrite rewritten_ascii by lia. cbn [Z.eqb Pos.eqb negb andb]. by rewrite Hv', Hl'.
Qed.

Lemma parse_members_rewritten pv pv' k first keys d l r m : follows pv pv' → parse_members pv k first keys d = Some (l, r) →
  (k ≤ m)%nat → parse_members pv' m first keys (rewritten d) = Some (l, rewritten r).
Proof.
  intros Hpv. revert first keys d l m. induction k as [|k IH]; intros first keys d l m Hp Hm; [done|]. destruct m as [|m]; [lia|].
  cbn [parse_members] in *. rewrite skip_ws_rewritten. destruct (skip_ws d) as [|c d'] eqn:Hd; [done|].
  destruct (c =? 0x7D) eqn:Hc; [bprop; subst c; simplify_eq; by rewrite rewritten_ascii|].
  destruct (negb first && negb (c =? 0x2C))%bool eqn:Hf; [done|].
  assert (∃ q d1, skip_ws (if first then c :: d' else d') = q :: d1 ∧ q = 0x22) as (q & d1 & Hq & Hq2).
  { destruct (skip_ws (if first then c :: d' else d')) as [|q d1]; [done|]. destruct (q =? 0x22) eqn:E; [|done].
    bprop. by exists q, d1. }
  rewrite Hq in Hp. subst q. cbn [Z.eqb Pos.eqb negb] in Hp.
  destruct (scan_string (length d1) d1) as [[key d2]|] eqn:Hk; [|done].
  pose proof (scan_string_rewritten _ _ _ _ (length (rewritten d1)) Hk ltac:(lia)) as Hk'.
  destruct (bool_decide (key ∈ keys)) eqn:Hin; [done|].
  destruct (skip_ws d2) as [|c2 d3] eqn:Hd2; [done|]. destruct (c2 =? 0x3A) eqn:Hc2; [|done]. bprop. subst c2. cbn [negb] in Hp.
  destruct (pv d3) as [[v r1]|] eqn:Hv; [|done]. pose proof (Hpv _ _ _ Hv) as Hv'.
  destruct (parse_members pv k false (key :: keys) r1) as [[l' r2]|] eqn:Hl; [|done]. simplify_eq.
  pose proof (IH _ _ _ _ m Hl ltac:(lia)) as Hl'.
  assert (∃ c' t', rewritten (c :: d') = c' :: t' ∧ (c' =? 0x7D) = false ∧ (negb first && negb (c' =? 0x2C))%bool = false ∧
    skip_ws (if first then c' :: t' else t') = 0x22 :: rewritten d1) as (c' & t' & Hr & Hc' & Hf' & Hsk).
  { assert (c < 0x7F) as Hc7.
    { destruct first; cbn in Hf; bprop; [|lia]. destruct (decide (c < 0x7F)); [done|].
      rewrite skip_ws_cons in Hq by (unfold is_ws; rewrite !orb_false_iff, !Z.eqb_neq; lia). simplify_eq; lia. }
    exists c, (rewritten d'). rewrite rewritten_ascii by done. split_and!; [done|by apply Z.eqb_neq|done|].
    rewrite <- (rewritten_ascii 0x22) by lia. rewrite <- Hq. destruct first; [|apply skip_ws_rewritten].
    rewrite <- rewritten_ascii by done. apply skip_ws_rewritten. }
  rewrite Hr, Hc', Hf', Hsk. cbn [Z.eqb Pos.eqb negb]. rewrite Hk'. rewrite (bool_decide_eq_false_2 _ Hin), skip_ws_rewritten, Hd2.
  rewrite rewritten_ascii by lia. cbn [Z.eqb Pos.eqb negb]. by rewrite Hv', Hl'.
Qed.

Lemma parseValue_rewritten k m : (k ≤ m)%nat → follows (parseValue k) (parseValue m).
Proof.
  revert m. induction k as [|k IH]; intros m Hm d v r Hp; [done|]. destruct m as [|m]; [lia|].
  specialize (IH m ltac:(lia)). cbn [parseValue] in *. rewrite skip_ws_rewritten. destruct (skip_ws d) as [|c d1]; [done|].
  destruct (c =? 0x5B) eqn:H1.
  { bprop. subst c. rewrite rewritten_ascii by lia. cbn [Z.eqb Pos.eqb].
    destruct (parse_elems (parseValue k) k true d1) as [[l r']|] eqn:Hl; [|done]. simplify_eq.
    by rewrite (parse_elems_rewritten _ _ _ _ _ _ _ m IH Hl) by lia. }
  destruct (c =? 0x7B) eqn:H2.
  { bprop. subst c. rewrite rewritten_ascii by lia. cbn [Z.eqb Pos.eqb].
    destruct (parse_members (parseValue k) k true [] d1) as [[l r']|] eqn:Hl; [|done]. simplify_eq.
    by rewrite (parse_members_rewritten _ _ _ _ _ _ _ _ m IH Hl) by lia. }
  destruct (c =? 0x22) eqn:H3.
  { bprop. subst c. rewrite rewritten_ascii by lia. cbn [Z.eqb Pos.eqb].
    destruct (scan_string (length d1) d1) as [[s r']|] eqn:Hs; [|done]. simplify_eq.
    by rewrite (scan_string_rewritten _ _ _ _ (length (rewritten d1)) Hs) by lia. }
  assert (∀ w x o, Forall (λ c, c < 0x7F) w → match scan_lit w (c :: d1) with Some r => Some (x, r) | None => None end = o →
    o = Some (v, r) → match scan_lit w (rewritten (c :: d1)) with Some r => Some (x, r) | None => None end = Some (v, rewritten r)) as Hlit.
  { intros w x o Hw <- Hs. destruct (scan_lit w (c :: d1)) as [r'|] eqn:Hsl; [|done]. simplify_eq.
    by rewrite (scan_lit_rewritten _ _ _ Hw Hsl). }
  assert (∀ w, forallb (λ c, c <? 0x7F) w = true → Forall (λ c, c < 0x7F) w) as Hasc.
  { intros w Hw. by apply (Forall_check (λ c, c <? 0x7F)); [intros x Hx; apply Z.ltb_lt|]. }
  destruct (rewritten_cases (c :: d1)) as [[? _]|[(? & ? & [= <- <-] & Hc & Hr)|(? & ? & c' & t' & [= <- <-] & Hc & Hr & Hf)]]; [done|..].
  - rewrite Hr, H1, H2, H3. rewrite <- Hr.
    destruct (c =? 0x6E); [eapply Hlit; [by apply Hasc|reflexivity|done]|].
    destruct (c =? 0x74); [eapply Hlit; [by apply Hasc|reflexivity|done]|].
    destruct (c =? 0x66); [eapply Hlit; [by apply Hasc|reflexivity|done]|].
    rewrite scan_number_rewritten. destruct (scan_number (c :: d1)) as [[s r']|]; by simplify_eq/=.
  - exfalso. rewrite !(proj2 (Z.eqb_neq c _)) in Hp by lia. unfold scan_number in Hp.
    rewrite (proj2 (Z.eqb_neq c 0x2D)) in Hp by lia. unfold scan_int in Hp.
    rewrite (proj2 (Z.eqb_neq c 0x30)) in Hp by lia. rewrite (proj2 (in_range_false 0x31 0x39 c)) in Hp by lia. done.
Qed.

Lemma parse_rewritten d v : parseDocument d = Ok v → parseDocument (rewritten d) = Ok v.
Proof.
  unfold parseDocument. destruct (parseValue (S (length d)) d) as [[v' r]|] eqn:Hp; [|done]. intros Hs.
  set (m := Nat.max (S (length d)) (S (length (rewritten d)))).
  assert (parseValue (S (length (rewritten d))) (rewritten d) = parseValue m (rewritten d)) as -> by (apply parseValue_fuel; lia).
  rewrite (parseValue_rewritten (S (length d)) m ltac:(lia) _ _ _ Hp), skip_ws_rewritten.
  destruct (skip_ws r) as [|c t]; [done|done].
Qed.
End Parsing.

(** ** Lemmas: what JSON leaves *)

Definition json_safe `{Unicode} (rs : list Z) : Prop := Forall (λ r, is_scalar r = true ∧ (r < 0x7F ∨ Hidden r = false)) rs.

Section Output.
Context `{UnicodeLaws}.

Lemma printable_json_safe l : Forall printable l → json_safe l.
Proof.
  intros Hl. eapply Forall_impl; [exact Hl|]. intros x Hx. destruct (printable_plain x Hx) as [Hh _].
  split; [apply scalar_low; unfold printable in Hx; lia|by right].
Qed.

Lemma rewritten_safe k d : (length d ≤ k)%nat → forallb (in_range 0 255) d = true → ∃ rs, rewritten d = encode rs ∧ json_safe rs.
Proof.
  revert d. induction k as [|k IH]; intros [|c d] Hk Hb; try (by exists []; split; [done|constructor]); simpl in Hk; [lia|].
  pose proof Hb as Hb'. cbn [forallb] in Hb. apply andb_true_iff in Hb as [Hc0%in_range_spec Hb].
  destruct (decide (c < 0x7F)) as [Hc|Hc].
  - destruct (IH d) as (rs & He & Hs); [lia|done|]. exists (c :: rs). rewrite rewritten_ascii, He by done. split.
    + change (encode (c :: rs)) with (encode_rune c ++ encode rs). unfold encode_rune. by rewrite (proj2 (Z.leb_le c 0x7F)) by lia.
    + apply Forall_cons. split; [|done]. split; [apply scalar_low; lia|by left].
  - pose proof (rewritten_rune c d ltac:(lia)) as Hr. destruct (decode_rune (c :: d)) as [r n] eqn:Hd. destruct Hr as [-> Hn].
    destruct (IH (drop n (c :: d))) as (rs & -> & Hs).
    { rewrite length_drop. simpl in *. lia. }
    { rewrite <- (take_drop n (c :: d)), forallb_app in Hb'. by apply andb_true_iff in Hb' as [_ ?]. }
    pose proof (decode_rune_scalar _ _ _ Hd) as Hsc. unfold head_text. rewrite Hd.
    assert (∀ l, Forall printable l → ∃ rs0, l ++ encode rs = encode rs0 ∧ json_safe rs0) as Hp.
    { intros l Hl. exists (l ++ rs). rewrite encode_app, (encode_printable l Hl). split; [done|].
      apply Forall_app. split; [by apply printable_json_safe|done]. }
    destruct ((r =? RuneError) && (n <=? 1)%nat)%bool eqn:E.
    { apply Hp. by apply (Forall_check (in_range 0x20 0x7E)); [intros x Hx; apply in_range_spec in Hx|]. }
    destruct (Hidden r) eqn:Hh; cbn [negb]; [by apply Hp, json_escape_ok|].
    exists (r :: rs). split; [|apply Forall_cons; split; [|done]; split; [done|by right]].
    pose proof (decode_rune_inv _ _ _ Hd E) as (_ & -> & _). done.
Qed.

Lemma rewritten_fixed rs : json_safe rs → rewritten (encode rs) = encode rs.
Proof.
  induction 1 as [|r rs [Hr Hv] Hs IH]; [done|]. change (encode (r :: rs)) with (encode_rune r ++ encode rs).
  pose proof (decode_encode_rune r (encode rs) Hr) as Hd. pose proof (encode_rune_length r) as Hl.
  destruct (encode_rune_ascii r Hr) as [[He Hlt]|[H80 Hb]].
  - rewrite He. cbn [app]. destruct (decide (r < 0x7F)); [by rewrite rewritten_ascii, IH|].
    rewrite He in Hd. cbn [app length] in Hd. pose proof (rewritten_rune r (encode rs) ltac:(lia)) as Hw. rewrite Hd in Hw.
    destruct Hw as [-> _]. unfold head_text. rewrite Hd. destruct Hv as [?|Hv]; [lia|]. rewrite Hv.
    rewrite (proj2 (Z.eqb_neq r RuneError)) by (unfold RuneError; lia). cbn [andb negb].
    change (take 1 (r :: ?l)) with [r]. change (drop 1 (r :: ?l)) with l. by rewrite IH.
  - destruct (encode_rune r) as [|c t] eqn:E; [simpl in Hl; lia|]. apply Forall_cons in Hb as [Hc _]. cbn [app] in *.
    pose proof (rewritten_rune c (t ++ encode rs) ltac:(lia)) as Hw. rewrite Hd in Hw. destruct Hw as [-> _].
    unfold head_text. rewrite Hd. destruct Hv as [?|Hv]; [lia|]. rewrite Hv. cbn [negb].
    assert (((r =? RuneError) && (length (c :: t) <=? 1)%nat)%bool = false) as ->.
    { apply andb_false_iff. destruct (r =? RuneError) eqn:Er; [right|by left]. bprop. subst r. injection E as <- <-. done. }
    change (c :: t ++ encode rs) with ((c :: t) ++ encode rs). rewrite take_app_length, drop_app_length. by rewrite IH.
Qed.
End Output.

(** ** What Quote and JSON promise *)

(** Quote keeps a text exact: read back as strict JSON, its output is a
    string equal to the text (undecodable bytes reading as U+FFFD), while no
    rune of it is hidden or U+FFFD and no three combining marks follow each
    other. *)
Theorem quote_exact `{UnicodeLaws} s : forallb (in_range 0 255) s = true →
  ParseStrict (Quote s) = Ok (VString (encode (runes s))) ∧
  (valid_utf8 s = true → ParseStrict (Quote s) = Ok (VString s)) ∧
  terminal_safe (runes (Quote s)).
Proof.
  intros Hb. destruct (quote_parts s Hb) as (b & HQ & Hr & Hsafe & Hv).
  assert (ParseStrict (Quote s) = Ok (VString (encode (runes s)))) as Hp.
  { unfold ParseStrict. rewrite Hv. cbn [negb].
    assert (crosses false false (Quote s)) as Hc.
    { rewrite HQ. apply (crosses_app false true false [0x22]); [apply crosses_quote|].
      eapply crosses_app; [by eapply reads_crosses|apply crosses_quote]. }
    destruct (Hc [] (length (Quote s)) 0%nat) as (j & fuel & _ & Hch); [by rewrite app_nil_r|].
    rewrite app_nil_r in Hch. unfold checkSurrogates. rewrite Hch. destruct fuel; cbn [check_from].
    all: unfold parseDocument; cbn [parseValue]; rewrite HQ, skip_ws_cons by done; cbn [Z.eqb Pos.eqb];
      rewrite (reads_scan _ _ [] _ Hr) by (rewrite length_app; simpl; lia); reflexivity. }
  split_and!; [done| |done]. intros Hval. by rewrite Hp, encode_runes.
Qed.

(** JSON changes no value: what the decoder reads from the rewritten bytes
    is what it read before. Its output is valid UTF-8 without a hidden rune
    from U+007F up, and rewriting it again changes nothing. *)
Theorem json_rewrite_exact `{UnicodeLaws} b : forallb (in_range 0 255) b = true →
  (∀ v, parseDocument b = Ok v → parseDocument (JSON b) = Ok v) ∧
  valid_utf8 (JSON b) = true ∧ Forall (λ r, r < 0x7F ∨ Hidden r = false) (runes (JSON b)) ∧
  JSON (JSON b) = JSON b.
Proof.
  intros Hb. rewrite !JSON_rewritten. split; [intros v; apply parse_rewritten|].
  destruct (rewritten_safe (length b) b ltac:(lia) Hb) as (rs & -> & Hs).
  assert (scalars rs) as Hsc by (eapply Forall_impl; [exact Hs|naive_solver]).
  split_and!; [by apply valid_encode| |by apply rewritten_fixed].
  rewrite runes_encode by done. eapply Forall_impl; [exact Hs|]. naive_solver.
Qed.

(** ** Examples *)

Definition demo_text : bytes := bytes_of "rm -rf " ++ encode [0x202E] ++ bytes_of "\x".

Lemma quote_exact_witness : Quote demo_text = jq "'rm -rf \u202e\\x'" ∧ ParseStrict (Quote demo_text) = Ok (VString demo_text).
Proof.
  split; [vm_compute; reflexivity|].
  apply (quote_exact demo_text); vm_compute; reflexivity.
Defined.

Definition demo_json : bytes := jq "{'a':'" ++ encode [0x202E] ++ [0x9B] ++ jq "'}".

Lemma json_rewrite_exact_witness : JSON demo_json = jq "{'a':'\u202e\ufffd'}" ∧
  parseDocument (JSON demo_json) = parseDocument demo_json.
Proof.
  split; [vm_compute; reflexivity|].
  assert (parseDocument demo_json = Ok (VObject [(bytes_of "a", VString (encode [0x202E; RuneError]))])) as Hv
    by (vm_compute; reflexivity).
  rewrite Hv. apply (json_rewrite_exact demo_json); [vm_compute; reflexivity|exact Hv].
Defined.
