(* ===== verification/WireTime.v ===== *)
(** * Times on the wire and in the store (internal/worksession/wire.go, internal/request/wire.go)

    A time.Time in UTC is its number of nanoseconds since the Unix epoch; the
    zero Time is [zeroTime]. The parts of package time the program uses are
    written out: the proleptic Gregorian calendar, Format and Parse for the
    layouts 2006-01-02T15:04:05Z (wire) and 2006-01-02T15:04:05.000Z (store),
    and the subtraction of two times. *)

From S2P Require Import Prelude Utf8 Canonical Strconv.

Open Scope Z_scope.

Definition second : Z := 10 ^ 9.
Definition zeroTime : Z := - 62135596800 * second.
Definition IsZero (t : Z) : bool := t =? zeroTime.

(** ** The calendar *)

Definition isLeap (y : Z) : bool := (y mod 4 =? 0) && (negb (y mod 100 =? 0) || (y mod 400 =? 0)).
Definition daysIn (m y : Z) : Z :=
  if m =? 2 then (if isLeap y then 29 else 28)
  else if (m =? 4) || (m =? 6) || (m =? 9) || (m =? 11) then 30 else 31.

(** Days since 1970-01-01 of a date; the year is counted from March. *)
Definition days_of_civil (y m d : Z) : Z :=
  let y := if m <=? 2 then y - 1 else y in
  365 * y + y / 4 - y / 100 + y / 400 + (153 * ((m + 9) mod 12) + 2) / 5 + d - 1 - 719468.

(** A day of the 400-year era: year of the era, month from March, day. The
    cycles of 100, 4 and 1 years are cut off in turn; the fourth century and
    the fourth year are one day longer. *)
Definition era_civil (d : Z) : Z * Z * Z :=
  let c := Z.min 3 (d / 36524) in let d := d - 36524 * c in
  let q := d / 1461 in let d := d - 1461 * q in
  let n := Z.min 3 (d / 365) in let d := d - 365 * n in
  let mp := (5 * d + 2) / 153 in
  (100 * c + 4 * q + n, mp, d - (153 * mp + 2) / 5 + 1).
Definition civil_of_days (z : Z) : Z * Z * Z :=
  let '(yoe, mp, d) := era_civil ((z + 719468) mod 146097) in
  let m := if mp <? 10 then mp + 3 else mp - 9 in
  (yoe + 400 * ((z + 719468) / 146097) + (if m <=? 2 then 1 else 0), m, d).

(** ** Format *)

Definition pad (w : nat) (n : Z) : bytes :=
  let s := Itoa (Z.abs n) in
  (if n <? 0 then [0x2D] else []) ++ replicate (w - length s) 0x30 ++ s.

Definition format_secs (u : Z) : bytes :=
  let '(y, m, d) := civil_of_days (u / 86400) in
  let s := u mod 86400 in
  pad 4 y ++ 0x2D :: pad 2 m ++ 0x2D :: pad 2 d ++ 0x54 ::
  pad 2 (s / 3600) ++ 0x3A :: pad 2 (s / 60 mod 60) ++ 0x3A :: pad 2 (s mod 60).

(** t.UTC().Truncate(time.Second).Format(timeFmt) and t.UTC().Format(mail.StoreTimeFmt). *)
Definition wireTime (t : Z) : bytes := format_secs (t / second) ++ [0x5A].
Definition storeTime (t : Z) : bytes :=
  format_secs (t / second) ++ 0x2E :: pad 3 (t mod second / 10 ^ 6) ++ [0x5A].

(** ** Parse *)

(** getnum of package time: two digits, or one when [fixed] is false. *)
Definition getnum (fixed : bool) (s : bytes) : option (Z * bytes) :=
  match s with
  | a :: s1 =>
      if negb (is_digit a) then None
      else match s1 with
           | b :: s2 => if is_digit b then Some ((a - 0x30) * 10 + (b - 0x30), s2)
                        else if fixed then None else Some (a - 0x30, s1)
           | [] => if fixed then None else Some (a - 0x30, [])
           end
  | [] => None
  end.
Definition getyear (s : bytes) : option (Z * bytes) :=
  let y := take 4 s in
  if (length y =? 4)%nat && forallb is_digit y then Some (digits_val y, drop 4 s) else None.
Definition skip_byte (c : Z) (s : bytes) : option bytes :=
  match s with c' :: s => if c' =? c then Some s else None | [] => None end.

(** A fraction after the seconds: any number of digits when the layout has
    none (at most nine count), exactly three for ".000". *)
Definition nanos_of (ds : bytes) : Z := digits_val (take 9 (ds ++ replicate 9 0x30)).
Definition any_fraction (s : bytes) : Z * bytes :=
  match s with
  | c :: ((d :: _) as s1) =>
      if ((c =? 0x2E) || (c =? 0x2C)) && is_digit d
      then let '(ds, rest) := span_digits s1 in (nanos_of ds, rest) else (0, s)
  | _ => (0, s)
  end.
Definition milli_fraction (s : bytes) : option (Z * bytes) :=
  match s with
  | c :: s1 =>
      let ds := take 3 s1 in
      if ((c =? 0x2E) || (c =? 0x2C)) && (length ds =? 3)%nat && forallb is_digit ds
      then Some (digits_val ds * 10 ^ 6, drop 3 s1) else None
  | [] => None
  end.

(** time.Parse up to and including the seconds: the seconds since the epoch
    and the rest; a value out of range is an error. *)
Definition parse_secs (s : bytes) : option (Z * bytes) :=
  '(y, s) ← getyear s; s ← skip_byte 0x2D s;
  '(m, s) ← getnum true s; if negb (in_range 1 12 m) then None else s ← skip_byte 0x2D s;
  '(d, s) ← getnum true s; s ← skip_byte 0x54 s;
  '(hh, s) ← getnum false s; if negb (in_range 0 23 hh) then None else s ← skip_byte 0x3A s;
  '(mi, s) ← getnum true s; if negb (in_range 0 59 mi) then None else s ← skip_byte 0x3A s;
  '(ss, s) ← getnum true s; if negb (in_range 0 59 ss) then None else
  if negb (in_range 1 (daysIn m y) d) then None else
  Some (days_of_civil y m d * 86400 + hh * 3600 + mi * 60 + ss, s).

Definition parse_wire (s : bytes) : option Z :=
  '(u, s) ← parse_secs s; let '(ns, s) := any_fraction s in
  if bool_decide (s = [0x5A]) then Some (u * second + ns) else None.
Definition parse_store (s : bytes) : option Z :=
  '(u, s) ← parse_secs s; '(ns, s) ← milli_fraction s;
  if bool_decide (s = [0x5A]) then Some (u * second + ns) else None.

(** parseWireTime and parseStoreTime drop the error: the zero Time then. *)
Definition parseWireTime (s : bytes) : Z := default zeroTime (parse_wire s).
Definition parseStoreTime (s : bytes) : Z := default zeroTime (parse_store s).

(** decodeTime: a string that Format gives back. *)
Definition decodeTime (raw : option value) : option Z :=
  match raw with
  | Some (VString s) =>
      match parse_wire s with
      | Some t => if bool_decide (format_secs (t / second) ++ [0x5A] = s) then Some t else None
      | None => None
      end
  | _ => None
  end.

(** Time.Sub saturates at the int64 range of a Duration. *)
Definition Sub (t u : Z) : Z := Z.max (- 2 ^ 63) (Z.min (2 ^ 63 - 1) (t - u)).

(** Comparison of two stored texts, byte by byte (SQLite's BINARY collation). *)
Fixpoint text_lt (a b : bytes) : bool :=
  match a, b with
  | _, [] => false
  | [], _ :: _ => true
  | x :: a, y :: b => if x =? y then text_lt a b else x <? y
  end.
Definition text_le (a b : bytes) : bool := negb (text_lt b a).

(** ** The calendar is a bijection *)

(** [f] holds on the [n] numbers from [x]. *)
Fixpoint all_from (f : Z → bool) (n : nat) (x : Z) : bool :=
  match n with O => true | S n => if f x then all_from f n (x + 1) else false end.

Lemma all_from_spec f n x : all_from f n x = true → ∀ y, x ≤ y < x + Z.of_nat n → f y = true.
Proof.
  revert x. induction n as [|n IH]; intros x H y Hy; [lia|]. cbn [all_from] in H.
  destruct (f x) eqn:Hf; [|done]. destruct (decide (x = y)) as [->|]; [done|]. apply (IH (x + 1)); [done|lia].
Qed.

Definition month_of (mp : Z) : Z := if mp <? 10 then mp + 3 else mp - 9.

(** A day of the year from March: its month, its day, and the day back. *)
Definition yday_ok (d : Z) : bool :=
  let mp := (5 * d + 2) / 153 in
  let day := d - (153 * mp + 2) / 5 + 1 in
  in_range 0 11 mp && (1 <=? day) && ((month_of mp + 9) mod 12 =? mp) &&
  (if mp =? 11 then (day <=? 29) && (if day =? 29 then d =? 365 else true) else day <=? daysIn (month_of mp) 0).

Lemma yday_spec d : 0 ≤ d ≤ 365 → yday_ok d = true.
Proof. intros Hd. apply (all_from_spec _ 366 0); [vm_compute; reflexivity|lia]. Qed.

Lemma isLeap_era y k : isLeap (y + 400 * k) = isLeap y.
Proof.
  unfold isLeap. assert ((y + 400 * k) mod 4 = y mod 4 ∧ (y + 400 * k) mod 100 = y mod 100 ∧
    (y + 400 * k) mod 400 = y mod 400) as (-> & -> & ->) by (split_and!; zdivmod). done.
Qed.

Lemma era_parts d : 0 ≤ d < 146097 → ∃ c q n r,
  0 ≤ c ≤ 3 ∧ 0 ≤ q ≤ 24 ∧ 0 ≤ n ≤ 3 ∧ 0 ≤ r ≤ 365 ∧ d = 36524 * c + 1461 * q + 365 * n + r ∧
  (r = 365 → n = 3 ∧ (q = 24 → c = 3)) ∧
  era_civil d = (100 * c + 4 * q + n, (5 * r + 2) / 153, r - (153 * ((5 * r + 2) / 153) + 2) / 5 + 1).
Proof.
  intros Hd. unfold era_civil. eexists _, _, _, _. split_and!; [..|reflexivity]; zdivmod.
Qed.

Lemma daysIn_0 m y : m ≠ 2 → daysIn m y = daysIn m 0.
Proof. unfold daysIn. destruct (m =? 2) eqn:?; bprop; congruence. Qed.

(** Dates compare by year, month and day. *)
Definition date_lt (a b : Z * Z * Z) : bool :=
  let '(y1, m1, d1) := a in let '(y2, m2, d2) := b in
  (y1 <? y2) || ((y1 =? y2) && ((m1 <? m2) || ((m1 =? m2) && (d1 <? d2)))).

(** Every day has a valid date, which gives the day back. *)
Lemma civil_valid z : let '(y, m, d) := civil_of_days z in
  1 ≤ m ≤ 12 ∧ 1 ≤ d ≤ daysIn m y ∧ days_of_civil y m d = z.
Proof.
  unfold civil_of_days. set (k := (z + 719468) / 146097).
  destruct (era_parts ((z + 719468) mod 146097)) as (c & q & n & r & Hc & Hq & Hn & Hr & Hz & Hl & ->); [zdivmod|].
  assert (z + 719468 = 146097 * k + ((z + 719468) mod 146097)) as Hk by (subst k; zdivmod).
  rewrite Hz in Hk. clear Hz. clearbody k.
  pose proof (yday_spec r Hr) as Hy. unfold yday_ok in Hy.
  set (mp := (5 * r + 2) / 153) in *. set (day := r - (153 * mp + 2) / 5 + 1) in *. bprop.
  fold (month_of mp). rewrite in_range_spec in *. set (yoe := 100 * c + 4 * q + n).
  assert (1 ≤ month_of mp ≤ 12 ∧ (mp = 11 ↔ month_of mp = 2) ∧ (month_of mp ≤ 2 ↔ 10 ≤ mp)) as (Hm & Hfeb & Hjan).
  { unfold month_of. destruct (mp <? 10) eqn:?; bprop; clearbody mp; lia. }
  split_and!; [lia..| |].
  - assert (month_of mp ≠ 2 → day ≤ daysIn (month_of mp) (yoe + 400 * k + (if month_of mp <=? 2 then 1 else 0))) as Hno.
    { intros Hne. rewrite daysIn_0 by done. destruct (mp =? 11) eqn:?; bprop; [lia|done]. }
    destruct (decide (month_of mp = 2)) as [He|]; [|by apply Hno]. clear Hno.
    rewrite He. change (2 <=? 2) with true. cbv iota. assert (mp = 11) as -> by lia. bprop.
    change (11 =? 11) with true in *. cbv iota in *. bprop.
    unfold daysIn. change (2 =? 2) with true. cbv iota.
    replace (yoe + 400 * k + 1) with (yoe + 1 + 400 * k) by lia. rewrite isLeap_era.
    destruct (day =? 29) eqn:?; bprop; [|destruct (isLeap _); lia].
    destruct Hl as [-> Hcq]; [done|]. unfold isLeap, yoe.
    assert ((100 * c + 4 * q + 3 + 1) mod 4 = 0) as -> by zdivmod.
    destruct (decide (q = 24)) as [->|].
    + rewrite Hcq by done. change ((100 * 3 + 4 * 24 + 3 + 1) mod 100) with 0.
      change ((100 * 3 + 4 * 24 + 3 + 1) mod 400) with 0. simpl. lia.
    + assert ((100 * c + 4 * q + 3 + 1) mod 100 ≠ 0) as Hne
        by (replace (100 * c + 4 * q + 3 + 1) with (4 * q + 4 + c * 100) by lia; rewrite Z_mod_plus_full, Z.mod_small; lia).
      apply Z.eqb_neq in Hne. rewrite Hne. simpl. lia.
  - unfold days_of_civil.
    assert ((if month_of mp <=? 2 then (yoe + 400 * k + (if month_of mp <=? 2 then 1 else 0)) - 1
             else yoe + 400 * k + (if month_of mp <=? 2 then 1 else 0)) = yoe + 400 * k) as ->.
    { destruct (month_of mp <=? 2); lia. }
    match goal with H : (month_of mp + 9) mod 12 = mp |- _ => rewrite H end.
    assert ((yoe + 400 * k) / 4 = 25 * c + q + 100 * k ∧ (yoe + 400 * k) / 100 = c + 4 * k ∧
      (yoe + 400 * k) / 400 = k) as (-> & -> & ->) by (unfold yoe; split_and!; zdivmod).
    unfold day, yoe. lia.
Qed.

(** ** Formatting and parsing *)

Definition digit (n : Z) : Z := 0x30 + n.
Definition digits2 (n : Z) : bytes := [digit (n / 10); digit (n mod 10)].
Definition digits3 (n : Z) : bytes := digit (n / 100) :: digits2 (n mod 100).
Definition digits4 (n : Z) : bytes := digits2 (n / 100) ++ digits2 (n mod 100).

Lemma pad_2 n : 0 ≤ n < 100 → pad 2 n = digits2 n.
Proof.
  intros Hn. pose proof (all_from_spec (λ n, bool_decide (pad 2 n = digits2 n)) 100 0) as H.
  specialize (H ltac:(vm_compute; reflexivity) n ltac:(lia)). by apply bool_decide_eq_true in H.
Qed.
Lemma pad_3 n : 0 ≤ n < 1000 → pad 3 n = digits3 n.
Proof.
  intros Hn. pose proof (all_from_spec (λ n, bool_decide (pad 3 n = digits3 n)) 1000 0) as H.
  specialize (H ltac:(vm_compute; reflexivity) n ltac:(lia)). by apply bool_decide_eq_true in H.
Qed.

Lemma digits_of_pad k n : (0 < k)%nat → 0 ≤ n < 10 ^ Z.of_nat k → (length (digits_of 20 n) ≤ k)%nat.
Proof.
  intros Hk Hn. assert (∀ f k n, (0 < k)%nat → 0 ≤ n < 10 ^ Z.of_nat k → (length (digits_of f n) ≤ k)%nat) as H; [|by apply H].
  clear. induction f as [|f IH]; intros k n Hk Hn; [simpl; lia|]. cbn [digits_of].
  destruct (n <? 10) eqn:H; bprop; [simpl; lia|]. destruct k as [|[|k]]; [lia|simpl in Hn; lia|].
  rewrite length_app. simpl length. assert (length (digits_of f (n / 10)) ≤ S k)%nat; [|lia].
  apply IH; [lia|]. rewrite (Nat2Z.inj_succ (S k)), Z.pow_succ_r in Hn by lia. zdivmod.
Qed.

Lemma pad_4 n : 0 ≤ n < 10000 → pad 4 n = digits4 n.
Proof.
  intros Hn. destruct (Z.lt_ge_cases n 100) as [Hs|Hs].
  - assert (pad 4 n = 0x30 :: 0x30 :: pad 2 n) as ->.
    { unfold pad. rewrite (proj2 (Z.ltb_ge n 0)), Z.abs_eq by lia. cbn [app].
      assert (length (Itoa n) ≤ 2)%nat by (unfold Itoa; rewrite (proj2 (Z.ltb_ge n 0)) by lia; apply digits_of_pad; simpl; lia).
      replace (4 - length (Itoa n))%nat with (2 + (2 - length (Itoa n)))%nat by lia. done. }
    rewrite pad_2 by lia. unfold digits4. rewrite Z.div_small, Z.mod_small by lia. done.
  - unfold pad. rewrite (proj2 (Z.ltb_ge n 0)), Z.abs_eq by lia. unfold Itoa. rewrite (proj2 (Z.ltb_ge n 0)) by lia.
    cbn [app]. set (a := n / 100). assert (1 ≤ a < 100) by (subst a; zdivmod).
    assert (digits_of 20 n = digits_of 18 a ++ digits2 (n mod 100)) as Hd.
    { change 20%nat with (S (S 18)). cbn [digits_of].
      rewrite (proj2 (Z.ltb_ge n 10)) by lia. rewrite (proj2 (Z.ltb_ge (n / 10) 10)) by zdivmod.
      rewrite <- app_assoc. unfold digits2, digit. cbn [app]. subst a.
      rewrite Z.div_div by lia. change (10 * 10) with 100. do 2 f_equal; [f_equal; zdivmod|f_equal; f_equal; zdivmod]. }
    assert (digits_of 18 a = digits_of 20 a) as Ha.
    { change 20%nat with (S (S 18)). change 18%nat with (S (S 16)). cbn [digits_of].
      destruct (a <? 10); [done|]. destruct (a / 10 <? 10) eqn:E; bprop; [done|zdivmod]. }
    rewrite Hd, Ha, length_app. change (length (digits2 (n mod 100))) with 2%nat.
    assert (pad 2 a = digits2 a) as Hp by (apply pad_2; lia). unfold pad in Hp.
    rewrite (proj2 (Z.ltb_ge a 0)), Z.abs_eq in Hp by lia. unfold Itoa in Hp. rewrite (proj2 (Z.ltb_ge a 0)) in Hp by lia.
    cbn [app] in Hp. replace (4 - (length (digits_of 20 a) + 2))%nat with (2 - length (digits_of 20 a))%nat by lia.
    rewrite app_assoc, Hp. done.
Qed.

Lemma is_digit_digit n : 0 ≤ n ≤ 9 → is_digit (digit n) = true.
Proof. intros Hn. apply in_range_spec. unfold digit. lia. Qed.

Lemma getnum_digits2 f n rest : 0 ≤ n < 100 → getnum f (digits2 n ++ rest) = Some (n, rest).
Proof.
  intros Hn. unfold getnum, digits2. cbn [app]. rewrite !is_digit_digit by zdivmod. cbn [negb].
  unfold digit. do 2 f_equal. zdivmod.
Qed.

Lemma digits_forall2 n : 0 ≤ n < 100 → forallb is_digit (digits2 n) = true.
Proof. intros Hn. simpl. by rewrite !is_digit_digit by zdivmod. Qed.

Lemma digits_val_2 n : 0 ≤ n < 100 → digits_val (digits2 n) = n.
Proof. intros Hn. unfold digits_val, digits2, digit. simpl. zdivmod. Qed.

Lemma digits_val_4 n : 0 ≤ n < 10000 → digits_val (digits4 n) = n.
Proof. intros Hn. unfold digits_val, digits4, digits2, digit. simpl. zdivmod. Qed.

Lemma getyear_digits4 n rest : 0 ≤ n < 10000 → getyear (digits4 n ++ rest) = Some (n, rest).
Proof.
  intros Hn. assert (forallb is_digit (digits4 n) = true) as Hd.
  { unfold digits4. by rewrite forallb_app, !digits_forall2 by zdivmod. }
  unfold getyear. rewrite (take_app_length' (digits4 n)), (drop_app_length' (digits4 n)) by done.
  cbv zeta. rewrite Hd, digits_val_4 by done. done.
Qed.

(** The days of the years 0 to 9999. *)
Definition minDay : Z := -719528.
Definition maxDay : Z := 2932896.

Lemma civil_year z : minDay ≤ z ≤ maxDay → let '(y, _, _) := civil_of_days z in 0 ≤ y ≤ 9999.
Proof.
  intros Hz. pose proof (civil_valid z) as H. destruct (civil_of_days z) as [[y m] d].
  destruct H as (Hm & Hd & He). unfold minDay, maxDay in Hz. subst z. unfold days_of_civil in Hz.
  assert (1 ≤ d ≤ 31) by (unfold daysIn in Hd; repeat case_match; lia).
  assert (0 ≤ (153 * ((m + 9) mod 12) + 2) / 5 ≤ 337) by zdivmod.
  assert (m ≤ 2 → 306 ≤ (153 * ((m + 9) mod 12) + 2) / 5) by (intros; assert (m = 1 ∨ m = 2) as [-> | ->] by lia; vm_compute; congruence).
  assert (2 < m → (153 * ((m + 9) mod 12) + 2) / 5 ≤ 275).
  { intros. assert (m = 3 ∨ m = 4 ∨ m = 5 ∨ m = 6 ∨ m = 7 ∨ m = 8 ∨ m = 9 ∨ m = 10 ∨ m = 11 ∨ m = 12)
      as [->|[->|[->|[->|[->|[->|[->|[->|[->| ->]]]]]]]]] by lia; vm_compute; congruence. }
  destruct (m <=? 2) eqn:E; bprop; zdivmod.
Qed.

(** The times the layouts can show: years 0 to 9999. *)
Definition in_years (t : Z) : Prop := minDay ≤ t / second / 86400 ≤ maxDay.

Lemma format_digits u : minDay ≤ u / 86400 ≤ maxDay → let '(y, m, d) := civil_of_days (u / 86400) in
  let s := u mod 86400 in
  format_secs u = digits4 y ++ 0x2D :: digits2 m ++ 0x2D :: digits2 d ++ 0x54 ::
    digits2 (s / 3600) ++ 0x3A :: digits2 (s / 60 mod 60) ++ 0x3A :: digits2 (s mod 60).
Proof.
  intros Hu. unfold format_secs. pose proof (civil_year _ Hu) as Hy. pose proof (civil_valid (u / 86400)) as Hv.
  destruct (civil_of_days (u / 86400)) as [[y m] d]. destruct Hv as (Hm & Hd & _).
  assert (1 ≤ d ≤ 31) by (unfold daysIn in Hd; repeat case_match; lia).
  rewrite pad_4, !pad_2 by (lia || zdivmod). done.
Qed.

Lemma parse_format u rest : minDay ≤ u / 86400 ≤ maxDay → parse_secs (format_secs u ++ rest) = Some (u, rest).
Proof.
  intros Hu. pose proof (format_digits u Hu) as Hf. pose proof (civil_year _ Hu) as Hy.
  pose proof (civil_valid (u / 86400)) as Hv. destruct (civil_of_days (u / 86400)) as [[y m] d].
  destruct Hv as (Hm & Hd & He). cbv zeta in Hf. rewrite Hf. clear Hf.
  assert (1 ≤ d ≤ 31) by (unfold daysIn in Hd; repeat case_match; lia).
  unfold parse_secs. rewrite <- !app_assoc. repeat (cbn [app]; rewrite <- ?app_assoc).
  rewrite getyear_digits4 by lia. cbn [mbind option_bind skip_byte Z.eqb Pos.eqb].
  rewrite getnum_digits2 by lia. cbn [mbind option_bind skip_byte Z.eqb Pos.eqb].
  rewrite (proj2 (in_range_spec 1 12 m)) by lia. cbn [negb]. 
  rewrite getnum_digits2 by lia. cbn [mbind option_bind skip_byte Z.eqb Pos.eqb].
  rewrite getnum_digits2 by zdivmod. cbn [mbind option_bind skip_byte Z.eqb Pos.eqb].
  rewrite (proj2 (in_range_spec 0 23 _)) by zdivmod. cbn [negb].
  rewrite getnum_digits2 by zdivmod. cbn [mbind option_bind skip_byte Z.eqb Pos.eqb].
  rewrite (proj2 (in_range_spec 0 59 _)) by zdivmod. cbn [negb].
  rewrite getnum_digits2 by zdivmod. cbn [mbind option_bind].
  rewrite (proj2 (in_range_spec 0 59 _)) by zdivmod. cbn [negb].
  rewrite (proj2 (in_range_spec 1 _ d)) by lia. cbn [negb]. rewrite He.
  do 2 f_equal. zdivmod.
Qed.

Lemma parse_wireTime t : in_years t → parse_wire (wireTime t) = Some (t / second * second).
Proof.
  intros Ht. unfold parse_wire, wireTime. rewrite parse_format by done. cbn. f_equal. lia.
Qed.

Lemma wireTime_secs t : wireTime (t / second * second) = wireTime t.
Proof. unfold wireTime. by rewrite Z.div_mul. Qed.

(** A time written for the wire is read back, to the second. *)
Lemma decode_wireTime t : in_years t → decodeTime (Some (VString (wireTime t))) = Some (t / second * second).
Proof.
  intros Ht. unfold decodeTime. rewrite parse_wireTime by done. fold (wireTime (t / second * second)).
  rewrite wireTime_secs. by rewrite bool_decide_eq_true_2.
Qed.

(** ... and only what wireTime writes is accepted. *)
Lemma decodeTime_inv raw t : decodeTime raw = Some t → raw = Some (VString (wireTime t)).
Proof.
  unfold decodeTime. intros H. destruct raw as [[]|]; try done. destruct (parse_wire s) as [t'|] eqn:E; [|done].
  case_bool_decide as Hb; [|done]. injection H as <-. unfold wireTime. by rewrite Hb.
Qed.

Lemma parse_storeTime t : in_years t → parse_store (storeTime t) = Some (t / 10 ^ 6 * 10 ^ 6).
Proof.
  intros Ht. unfold parse_store, storeTime. rewrite parse_format by done.
  rewrite pad_3 by (unfold second; zdivmod). set (k := t mod second / 10 ^ 6).
  assert (0 ≤ k < 1000) as Hk by (subst k; unfold second; zdivmod).
  cbn [app mbind option_bind milli_fraction digits3 digits2 take drop length Nat.eqb forallb].
  rewrite !is_digit_digit by zdivmod. cbn -[Z.mul Z.div Z.modulo Z.pow digits_val second]. f_equal.
  unfold digits_val, digit. cbn [fold_left].
  assert (((0 * 10 + (48 + k / 100 - 48)) * 10 + (48 + k mod 100 / 10 - 48)) * 10 + (48 + (k mod 100) mod 10 - 48) = k) as -> by zdivmod.
  subst k. unfold second. zdivmod.
Qed.

Lemma parseStoreTime_storeTime t : in_years t → parseStoreTime (storeTime t) = t / 10 ^ 6 * 10 ^ 6.
Proof. intros Ht. unfold parseStoreTime. by rewrite parse_storeTime. Qed.

Lemma parseWireTime_wireTime t : in_years t → parseWireTime (wireTime t) = t / second * second.
Proof. intros Ht. unfold parseWireTime. by rewrite parse_wireTime. Qed.

(** ** The stored text orders as the time *)

Lemma month_step y m : 1 ≤ m ≤ 12 →
  days_of_civil y m 1 + daysIn m y = (if m =? 12 then days_of_civil (y + 1) 1 1 else days_of_civil y (m + 1) 1).
Proof.
  intros Hm. unfold days_of_civil, daysIn, isLeap.
  assert (m = 1 ∨ m = 2 ∨ m = 3 ∨ m = 4 ∨ m = 5 ∨ m = 6 ∨ m = 7 ∨ m = 8 ∨ m = 9 ∨ m = 10 ∨ m = 11 ∨ m = 12)
    as [->|[->|[->|[->|[->|[->|[->|[->|[->|[->|[->| ->]]]]]]]]]]] by lia;
  repeat match goal with |- context [(?a + 9) mod 12] => let v := eval vm_compute in ((a + 9) mod 12) in change ((a + 9) mod 12) with v
                | |- context [?a + 1 <=? 2] => let v := eval vm_compute in (a + 1 <=? 2) in change (a + 1 <=? 2) with v end;
  cbn [Z.leb Z.eqb Z.compare Pos.compare Pos.compare_cont Pos.eqb orb];
  try (replace (y + 1 - 1) with y by lia); try zdivmod.
  destruct (y mod 4 =? 0) eqn:H4, (y mod 100 =? 0) eqn:H100, (y mod 400 =? 0) eqn:H400; bprop; cbn [andb orb negb]; zdivmod.
Qed.

Lemma daysIn_pos m y : 28 ≤ daysIn m y.
Proof. unfold daysIn. repeat case_match; lia. Qed.

Lemma days_split y m d : days_of_civil y m d = days_of_civil y m 1 + (d - 1).
Proof. unfold days_of_civil. lia. Qed.

Lemma month_mono y m n : 1 ≤ m → m + Z.of_nat n ≤ 12 → days_of_civil y m 1 ≤ days_of_civil y (m + Z.of_nat n) 1.
Proof.
  intros Hm. induction n as [|n IH]; intros Hn; [rewrite Z.add_0_r; lia|].
  pose proof (month_step y (m + Z.of_nat n)) as Hs. rewrite (proj2 (Z.eqb_neq _ 12)) in Hs by lia.
  pose proof (daysIn_pos (m + Z.of_nat n) y). replace (m + Z.of_nat (S n)) with (m + Z.of_nat n + 1) by lia. lia.
Qed.

Lemma year_mono y n : days_of_civil y 1 1 ≤ days_of_civil (y + Z.of_nat n) 1 1.
Proof.
  induction n as [|n IH]; [rewrite Z.add_0_r; lia|].
  pose proof (month_step (y + Z.of_nat n) 12 ltac:(lia)) as Hs. cbn [Z.eqb Pos.eqb] in Hs.
  pose proof (month_mono (y + Z.of_nat n) 1 11 ltac:(lia) ltac:(lia)) as Hm. change (1 + Z.of_nat 11) with 12 in Hm.
  pose proof (daysIn_pos 12 (y + Z.of_nat n)). replace (y + Z.of_nat (S n)) with (y + Z.of_nat n + 1) by lia. lia.
Qed.

Definition valid_date (c : Z * Z * Z) : Prop := let '(y, m, d) := c in 1 ≤ m ≤ 12 ∧ 1 ≤ d ≤ daysIn m y.
Definition days_of (c : Z * Z * Z) : Z := let '(y, m, d) := c in days_of_civil y m d.

Lemma date_mono a b : valid_date a → valid_date b → date_lt a b = true → days_of a < days_of b.
Proof.
  destruct a as [[y1 m1] d1], b as [[y2 m2] d2]. unfold valid_date, days_of, date_lt. intros [Hm1 Hd1] [Hm2 Hd2] H.
  rewrite (days_split y1), (days_split y2). pose proof (month_step y1 m1 Hm1) as Hs.
  assert (y1 < y2 ∨ y1 = y2 ∧ m1 < m2 ∨ y1 = y2 ∧ m1 = m2 ∧ d1 < d2) as [Hy|[[-> Hm]|(-> & -> & Hd)]].
  { destruct (y1 <? y2) eqn:?, (y1 =? y2) eqn:?, (m1 <? m2) eqn:?, (m1 =? m2) eqn:?, (d1 <? d2) eqn:?; bprop; simpl in H; try done; lia. }
  - pose proof (year_mono (y1 + 1) (Z.to_nat (y2 - y1 - 1))) as Hy12.
    replace (y1 + 1 + Z.of_nat (Z.to_nat (y2 - y1 - 1))) with y2 in Hy12 by lia.
    pose proof (month_mono y2 1 (Z.to_nat (m2 - 1))) as Hmm. replace (1 + Z.of_nat (Z.to_nat (m2 - 1))) with m2 in Hmm by lia.
    pose proof (month_step y1 12 ltac:(lia)) as H12. cbn [Z.eqb Pos.eqb] in H12.
    destruct (m1 =? 12) eqn:E; bprop; [lia|].
    pose proof (month_mono y1 (m1 + 1) (Z.to_nat (11 - m1))) as Hm'.
    replace (m1 + 1 + Z.of_nat (Z.to_nat (11 - m1))) with 12 in Hm' by lia. pose proof (daysIn_pos 12 y1). lia.
  - rewrite (proj2 (Z.eqb_neq m1 12)) in Hs by lia.
    pose proof (month_mono y2 (m1 + 1) (Z.to_nat (m2 - m1 - 1))) as Hm'.
    replace (m1 + 1 + Z.of_nat (Z.to_nat (m2 - m1 - 1))) with m2 in Hm' by lia. lia.
  - lia.
Qed.

Lemma date_cases a b : date_lt a b = true ∨ a = b ∨ date_lt b a = true.
Proof.
  destruct a as [[y1 m1] d1], b as [[y2 m2] d2]. unfold date_lt.
  destruct (Z.lt_trichotomy y1 y2) as [?|[->|?]]; [left; rewrite (proj2 (Z.ltb_lt _ _)) by done; done| |right; right; rewrite (proj2 (Z.ltb_lt _ _)) by done; done].
  destruct (Z.lt_trichotomy m1 m2) as [?|[->|?]]; [left|  |right; right];
    [rewrite Z.ltb_irrefl, Z.eqb_refl, (proj2 (Z.ltb_lt m1 m2)) by done; done| |rewrite Z.ltb_irrefl, Z.eqb_refl, (proj2 (Z.ltb_lt m2 m1)) by done; done].
  rewrite !Z.ltb_irrefl, !Z.eqb_refl. destruct (Z.lt_trichotomy d1 d2) as [?|[->|?]]; [left|by right; left|right; right];
    by apply Z.ltb_lt.
Qed.

Lemma civil_days z : valid_date (civil_of_days z) ∧ days_of (civil_of_days z) = z.
Proof. pose proof (civil_valid z) as H. destruct (civil_of_days z) as [[y m] d]. simpl. tauto. Qed.

Lemma civil_lt z1 z2 : date_lt (civil_of_days z1) (civil_of_days z2) = (z1 <? z2).
Proof.
  destruct (civil_days z1) as [Hv1 H1], (civil_days z2) as [Hv2 H2].
  destruct (z1 <? z2) eqn:E; bprop.
  - destruct (date_cases (civil_of_days z1) (civil_of_days z2)) as [?|[He|Hl]]; [done|..].
    + rewrite He in H1. lia.
    + apply date_mono in Hl; [lia|done..].
  - destruct (date_lt _ _) eqn:Hl; [|done]. apply date_mono in Hl; [lia|done..].
Qed.

Definition date_eqb (a b : Z * Z * Z) : bool :=
  let '(y1, m1, d1) := a in let '(y2, m2, d2) := b in (y1 =? y2) && (m1 =? m2) && (d1 =? d2).

Lemma civil_eq z1 z2 : date_eqb (civil_of_days z1) (civil_of_days z2) = (z1 =? z2).
Proof.
  destruct (civil_days z1) as [_ H1], (civil_days z2) as [_ H2].
  destruct (z1 =? z2) eqn:E; bprop.
  - subst z2. unfold date_eqb. destruct (civil_of_days z1) as [[y m] d]. by rewrite !Z.eqb_refl.
  - destruct (date_eqb _ _) eqn:He; [|done]. exfalso. apply E. rewrite <- H1, <- H2. unfold date_eqb in He.
    destruct (civil_of_days z1) as [[y1 m1] d1], (civil_of_days z2) as [[y2 m2] d2]. bprop. by subst.
Qed.

Lemma text_lt_same a x y : text_lt (a ++ x) (a ++ y) = text_lt x y.
Proof. induction a as [|c a IH]; [done|]. simpl. by rewrite Z.eqb_refl. Qed.

Lemma text_lt_cons c x y : text_lt (c :: x) (c :: y) = text_lt x y.
Proof. apply (text_lt_same [c]). Qed.

Lemma text_lt_digit n m x y : text_lt (digit n :: x) (digit m :: y) = (n <? m) || ((n =? m) && text_lt x y).
Proof.
  cbn [text_lt]. unfold digit. destruct (n =? m) eqn:E; bprop.
  - subst. by rewrite Z.eqb_refl, Z.ltb_irrefl.
  - rewrite (proj2 (Z.eqb_neq _ _)) by lia. rewrite orb_false_r. destruct (n <? m) eqn:E'; bprop; [apply Z.ltb_lt|apply Z.ltb_ge]; lia.
Qed.

Lemma lex_div n m k b : 0 < k → (n / k <? m / k) || ((n / k =? m / k) && ((n mod k <? m mod k) || ((n mod k =? m mod k) && b))) =
  (n <? m) || ((n =? m) && b).
Proof.
  intros Hk. pose proof (Z.div_mod n k). pose proof (Z.div_mod m k).
  pose proof (Z.mod_pos_bound n k Hk). pose proof (Z.mod_pos_bound m k Hk).
  destruct (n / k <? m / k) eqn:E1, (n / k =? m / k) eqn:E2, (n mod k <? m mod k) eqn:E3, (n mod k =? m mod k) eqn:E4,
    (n <? m) eqn:E5, (n =? m) eqn:E6; bprop; simpl; try done; exfalso; nia.
Qed.

Lemma text_lt_digits2 n m x y : text_lt (digits2 n ++ x) (digits2 m ++ y) = (n <? m) || ((n =? m) && text_lt x y).
Proof. unfold digits2. cbn [app]. rewrite !text_lt_digit. by apply lex_div. Qed.

Lemma text_lt_digits4 n m x y : text_lt (digits4 n ++ x) (digits4 m ++ y) = (n <? m) || ((n =? m) && text_lt x y).
Proof. unfold digits4. rewrite <- !app_assoc, !text_lt_digits2. by apply lex_div. Qed.

Lemma text_lt_digits3 n m x y : text_lt (digits3 n ++ x) (digits3 m ++ y) = (n <? m) || ((n =? m) && text_lt x y).
Proof. unfold digits3. cbn [app]. rewrite text_lt_digit, text_lt_digits2. by apply lex_div. Qed.

(** Texts of seconds compare as the seconds, then as what follows. *)
Lemma text_lt_secs u v x y : minDay ≤ u / 86400 ≤ maxDay → minDay ≤ v / 86400 ≤ maxDay →
  text_lt (format_secs u ++ x) (format_secs v ++ y) = (u <? v) || ((u =? v) && text_lt x y).
Proof.
  intros Hu Hv. pose proof (format_digits u Hu) as Hf. pose proof (format_digits v Hv) as Hg.
  pose proof (civil_lt (u / 86400) (v / 86400)) as Hlt.
  pose proof (civil_eq (u / 86400) (v / 86400)) as Heq.
  destruct (civil_of_days (u / 86400)) as [[y1 m1] d1], (civil_of_days (v / 86400)) as [[y2 m2] d2].
  cbv zeta in Hf, Hg. rewrite Hf, Hg. clear Hf Hg. unfold date_lt in Hlt. unfold date_eqb in Heq.
  rewrite <- !app_assoc, text_lt_digits4. repeat (cbn [app]; rewrite <- ?app_assoc).
  repeat rewrite ?text_lt_cons, ?text_lt_digits2.
  set (r1 := u mod 86400). set (r2 := v mod 86400). set (e := text_lt x y).
  assert ((r1 / 3600 <? r2 / 3600) || ((r1 / 3600 =? r2 / 3600) && ((r1 / 60 mod 60 <? r2 / 60 mod 60) ||
    ((r1 / 60 mod 60 =? r2 / 60 mod 60) && ((r1 mod 60 <? r2 mod 60) || ((r1 mod 60 =? r2 mod 60) && e))))) =
    (r1 <? r2) || ((r1 =? r2) && e)) as ->.
  { replace (r1 / 3600) with (r1 / 60 / 60) by (rewrite Z.div_div; done). replace (r2 / 3600) with (r2 / 60 / 60) by (rewrite Z.div_div; done).
    rewrite (lex_div (r1 / 60) (r2 / 60) 60) by done. by apply lex_div. }
  rewrite <- (lex_div u v 86400 e) by done. fold r1 r2.
  rewrite <- Hlt, <- Heq. clear Hlt Heq. destruct ((r1 <? r2) || ((r1 =? r2) && e)), (y1 <? y2), (y1 =? y2), (m1 <? m2),
    (m1 =? m2), (d1 <? d2), (d1 =? d2); done.
Qed.

Lemma text_lt_refl a : text_lt a a = false.
Proof. induction a as [|c a IH]; [done|]. simpl. by rewrite Z.eqb_refl. Qed.

Lemma text_le_trans a b c : text_le a b = true → text_le b c = true → text_le a c = true.
Proof.
  unfold text_le. rewrite !negb_true_iff. revert b c. induction a as [|x a IH]; intros [|y b] [|z c]; simpl; try done.
  destruct (y =? x) eqn:Hyx, (z =? y) eqn:Hzy, (z =? x) eqn:Hzx; bprop; intros; try lia; eauto.
Qed.
Lemma in_years_between a t b : in_years a → in_years b → a ≤ t ≤ b → in_years t.
Proof.
  unfold in_years. intros Ha Hb [H1 H2]. assert (∀ x y, x ≤ y → x / second / 86400 ≤ y / second / 86400) as Hm.
  { intros x y Hxy. apply Z.div_le_mono; [done|]. by apply Z.div_le_mono. }
  pose proof (Hm _ _ H1). pose proof (Hm _ _ H2). lia.
Qed.
Lemma text_lt_storeTime t u : in_years t → in_years u → text_lt (storeTime t) (storeTime u) = (t / 10 ^ 6 <? u / 10 ^ 6).
Proof.
  intros Ht Hu. unfold storeTime. rewrite text_lt_secs by done.
  rewrite text_lt_cons, !pad_3 by (unfold second; zdivmod).
  rewrite text_lt_digits3, text_lt_refl, andb_false_r, orb_false_r.
  assert (∀ t, t / second = t / 10 ^ 6 / 1000 ∧ t mod second / 10 ^ 6 = t / 10 ^ 6 mod 1000) as Hs by (clear; intros; unfold second; split; zdivmod).
  destruct (Hs t) as [-> ->], (Hs u) as [-> ->]. rewrite <- (orb_false_r (_ mod _ <? _)), <- (andb_false_r (t / 10 ^ 6 mod 1000 =? u / 10 ^ 6 mod 1000)).
  rewrite lex_div by done. by rewrite andb_false_r, orb_false_r.
Qed.
Lemma text_le_storeTime t u : in_years t → in_years u → t ≤ u → text_le (storeTime t) (storeTime u) = true.
Proof.
  intros Ht Hu Hle. unfold text_le. rewrite text_lt_storeTime by done. apply negb_true_iff, Z.ltb_ge. by apply Z.div_le_mono.
Qed.

(** Two stored times compare as texts exactly as the times do, to the
    millisecond the format keeps: the comparisons the queries make on the
    stored columns (received_at >= ?, created >= ?, introduced_at >= ?) are
    comparisons of times. *)
Theorem stored_times_order t u : in_years t → in_years u →
  text_lt (storeTime t) (storeTime u) = (t / 10 ^ 6 <? u / 10 ^ 6) ∧
  text_le (storeTime t) (storeTime u) = (t / 10 ^ 6 <=? u / 10 ^ 6).
Proof. intros Ht Hu. unfold text_le. rewrite !text_lt_storeTime by done. split; [done|]. by rewrite Z.leb_antisym. Qed.

Lemma stored_times_order_witness : in_years 0 ∧ text_lt (storeTime 0) (storeTime 1700000000123456789) = true.
Proof.
  assert (in_years 0 ∧ in_years 1700000000123456789) as [H0 H1] by (vm_compute; repeat split; congruence).
  split; [done|]. rewrite (proj1 (stored_times_order 0 1700000000123456789 H0 H1)). reflexivity.
Defined.

Lemma getnum_range f s n rest : getnum f s = Some (n, rest) → 0 ≤ n < 100.
Proof.
  unfold getnum, is_digit. intros H. destruct s as [|a s]; [done|]. destruct (in_range 0x30 0x39 a) eqn:Ha; simpl in H; [|done].
  rewrite in_range_spec in Ha. destruct s as [|b s]; [destruct f; [done|]; injection H as <- <-; lia|].
  destruct (in_range 0x30 0x39 b) eqn:Hb; [rewrite in_range_spec in Hb; injection H as <- <-; lia|].
  destruct f; [done|]. injection H as <- <-. lia.
Qed.

Lemma digits_val_bound s : forallb is_digit s = true → 0 ≤ digits_val s < 10 ^ Z.of_nat (length s).
Proof.
  induction s as [|c s IH] using rev_ind; intros H; [vm_compute; split; congruence|].
  rewrite forallb_app in H. simpl in H. bprop. unfold is_digit in *. rewrite in_range_spec in *.
  rewrite digits_val_app, length_app. simpl length. rewrite Nat2Z.inj_add, Z.pow_add_r by lia.
  specialize (IH ltac:(done)). lia.
Qed.

Lemma parse_secs_years s u rest : parse_secs s = Some (u, rest) → minDay ≤ u / 86400 ≤ maxDay.
Proof.
  unfold parse_secs. intros H.
  destruct (getyear s) as [[y s1]|] eqn:Ey; simpl in H; [|done]. destruct (skip_byte _ s1) as [s2|]; simpl in H; [|done].
  destruct (getnum true s2) as [[m s3]|]; simpl in H; [|done]. destruct (in_range 1 12 m) eqn:Hm; simpl in H; [|done].
  destruct (skip_byte _ s3) as [s4|]; simpl in H; [|done]. destruct (getnum true s4) as [[d s5]|]; simpl in H; [|done].
  destruct (skip_byte _ s5) as [s6|]; simpl in H; [|done]. destruct (getnum false s6) as [[hh s7]|]; simpl in H; [|done].
  destruct (in_range 0 23 hh) eqn:Hh; simpl in H; [|done]. destruct (skip_byte _ s7) as [s8|]; simpl in H; [|done].
  destruct (getnum true s8) as [[mi s9]|]; simpl in H; [|done]. destruct (in_range 0 59 mi) eqn:Hi; simpl in H; [|done].
  destruct (skip_byte _ s9) as [s10|]; simpl in H; [|done]. destruct (getnum true s10) as [[ss s11]|]; simpl in H; [|done].
  destruct (in_range 0 59 ss) eqn:Hs; simpl in H; [|done]. destruct (in_range 1 _ d) eqn:Hd; simpl in H; [|done].
  injection H as <- _. rewrite in_range_spec in *.
  assert (0 ≤ y ≤ 9999) as Hy.
  { unfold getyear in Ey. destruct ((length (take 4 s) =? 4)%nat && forallb is_digit (take 4 s)) eqn:E; [|done]. bprop.
    injection Ey as <- _. match goal with H : (_ =? 4)%nat = true |- _ => apply Nat.eqb_eq in H; rename H into Hlen end.
    pose proof (digits_val_bound (take 4 s) ltac:(done)) as Hb. rewrite Hlen in Hb. simpl in Hb. lia. }
  assert (minDay ≤ days_of_civil y m d ≤ maxDay) as Hdays.
  { pose proof (year_mono 0 (Z.to_nat y)) as Hlo. replace (0 + Z.of_nat (Z.to_nat y)) with y in Hlo by lia.
    pose proof (year_mono (y + 1) (Z.to_nat (9999 - y))) as Hhi. replace (y + 1 + Z.of_nat (Z.to_nat (9999 - y))) with 10000 in Hhi by lia.
    pose proof (month_mono y 1 (Z.to_nat (m - 1))) as H1. replace (1 + Z.of_nat (Z.to_nat (m - 1))) with m in H1 by lia.
    pose proof (month_mono y m (Z.to_nat (12 - m))) as H2. replace (m + Z.of_nat (Z.to_nat (12 - m))) with 12 in H2 by lia.
    pose proof (month_step y 12 ltac:(lia)) as H12. cbn [Z.eqb Pos.eqb] in H12.
    pose proof (month_step y m ltac:(lia)) as Hms. rewrite days_split.
    assert (days_of_civil y m 1 + daysIn m y ≤ days_of_civil (y + 1) 1 1).
    { destruct (m =? 12) eqn:E; bprop; [lia|]. pose proof (month_mono y (m + 1) (Z.to_nat (11 - m))) as H3.
      replace (m + 1 + Z.of_nat (Z.to_nat (11 - m))) with 12 in H3 by lia. pose proof (daysIn_pos 12 y). lia. }
    change (days_of_civil 0 1 1) with minDay in Hlo. change (days_of_civil 10000 1 1) with (maxDay + 1) in Hhi. lia. }
  replace ((days_of_civil y m d * 86400 + hh * 3600 + mi * 60 + ss) / 86400) with (days_of_civil y m d) by zdivmod. done.
Qed.

Lemma decodeTime_years raw t : decodeTime raw = Some t → in_years t.
Proof.
  unfold decodeTime, in_years. intros H. destruct raw as [[]|]; try done. destruct (parse_wire s) as [t'|] eqn:E; [|done].
  case_bool_decide as Hb; [|done]. injection H as <-. unfold parse_wire in E.
  destruct (parse_secs s) as [[u s']|] eqn:Ep; simpl in E; [|done]. destruct (any_fraction s') as [ns s''] eqn:Ef.
  case_bool_decide as Hs; [|done]. injection E as <-. apply parse_secs_years in Ep.
  assert (0 ≤ ns < second) as Hns; [|by rewrite Z.div_add_l, (Z.div_small ns second), Z.add_0_r by (unfold second in *; lia)].
  unfold any_fraction in Ef. destruct s' as [|c s']; [by injection Ef as <- <-|].
  destruct s' as [|c' s']; [by injection Ef as <- <-|]. destruct (_ && is_digit c'); [|by injection Ef as <- <-].
  destruct (span_digits _) as [ds r] eqn:Esp. injection Ef as <- <-. unfold nanos_of.
  assert (forallb is_digit (take 9 (ds ++ replicate 9 0x30)) = true) as Hd.
  { assert (∀ d ds r, span_digits d = (ds, r) → forallb is_digit ds = true) as Hspan.
    { clear. induction d as [|c d IH]; intros ds r H; simpl in H; [by injection H as <- <-|].
      destruct (is_digit c) eqn:Hc; [|by injection H as <- <-]. destruct (span_digits d) as [x y] eqn:E.
      injection H as <- <-. simpl. rewrite Hc. by eapply IH. }
    apply Hspan in Esp. apply forallb_forall. intros x Hx. rewrite <- list_elem_of_In in Hx.
    apply elem_of_take in Hx as (i & Hi & _). apply list_elem_of_lookup_2, elem_of_app in Hi as [Hi|Hi].
    - rewrite forallb_forall in Esp. apply Esp. by rewrite <- list_elem_of_In.
    - apply elem_of_replicate in Hi as [-> _]. done. }
  pose proof (digits_val_bound _ Hd) as Hdv. rewrite length_take, length_app, length_replicate in Hdv.
  rewrite Nat.min_l in Hdv by (simpl in Hdv; lia). exact Hdv.
Qed.

(** A time field of a mail body is accepted exactly when it is the text
    wireTime writes for a whole second of the years 0 to 9999, and then it is
    read as that second: the sender's wireTime and the receiver's decodeTime
    are inverse, and no second spelling of a time (a fraction, one digit of
    the hour, an impossible date) is accepted. *)
Theorem wire_times_exact raw t :
  decodeTime raw = Some t ↔ raw = Some (VString (wireTime t)) ∧ in_years t ∧ t mod second = 0.
Proof.
  split.
  - intros H. split_and!; [by apply decodeTime_inv|by eapply decodeTime_years|].
    pose proof (decodeTime_inv _ _ H) as ->. rewrite decode_wireTime in H by (by eapply decodeTime_years).
    injection H as H. unfold second in *. zdivmod.
  - intros (-> & Hy & Hs). rewrite decode_wireTime by done. f_equal. unfold second in *. zdivmod.
Qed.
