(* ===== verification/Body.v ===== *)
(** * Mail bodies and results (internal/request/validate.go, result.go; internal/worksession/wire.go, result.go)

    A body is the map[string]any that ParseStrict returns: the list of its
    members. The field checks, the artifact and result objects of the two
    packages, their strict decoders and their canonical forms. Of an error
    the kind and the field are kept, not the text of the message. *)

From S2P Require Import Prelude Utf8 Canonical Strconv WireTime.

Open Scope Z_scope.
Open Scope go_scope.

Abbreviation body := (list (bytes * value)).

(** The errors of the request and work session packages. *)
Inductive error : Type :=
| ErrBadBody                          (* wraps mail.ErrBadBody: the mail is refused *)
| ErrLimit                            (* wraps mail.ErrLimit *)
| FieldError (field : bytes)
| TooLargeError (size : Z)            (* a request, a result or a complete body *)
| BadStateError (state : bytes)
| ErrUnknownSession | ErrNotRequester | ErrNotWorker | ErrAmbiguousSession
| ErrUnknownRequest | ErrAmbiguousRequest
| ErrIdempotencyConflict | ErrNoUnusedID
| ErrCanonicalForm (e : canon_error)
| ErrStoredBody (e : parse_error)
| ErrNotWired                         (* debates are not wired *)
| ErrMissing                          (* a row the transaction just wrote *)
| ErrUnique                           (* a UNIQUE constraint of the database *)
| ErrExternal (code : Z)              (* an error of a hook, of the outbox or of the database *)
| ErrUnknownDebate | ErrUnknownDecision | ErrQuarantineActive | ErrConstraintLimit
| DebateState (phase : bytes)         (* debate.BadStateError *)
| NotYourTurn (slot : Z) (expect author : bytes)
| ErrNotCanonical                     (* a stored or revealed entry *)
| ErrDecision                         (* a Decision that cannot be derived or signed: a fault, not a refusal *)
| ErrInconsistent | ErrIncomplete | ErrClosedBeforeOpened.

Abbreviation checked := (result error).

(** [body[field]]. *)
Fixpoint member (k : bytes) (m : body) : option value :=
  match m with
  | [] => None
  | (k', v) :: m => if bool_decide (k' = k) then Some v else member k m
  end.

Definition strictMembers (b : body) (allowed : list bytes) : checked unit :=
  if forallb (λ p, bool_decide (p.1 ∈ allowed)) b then Ok tt else Err ErrBadBody.

(** n.Int64() on a json.Number. *)
Definition Int64 (s : bytes) : option Z := ParseInt64 s.

(** ** Text checks *)

Definition rune_in (s : bytes) (r : Z) : bool := bool_decide (r ∈ runes s).
Definition newline_tab : bytes := [0x0A; 0x09].

(** A rune of an invalid or U+FFFD byte, or a control character not allowed. *)
Definition control_rune (allowed : bytes) (r : Z) : bool :=
  (r =? RuneError) || (((r <=? 0x1F) || (r =? 0x7F)) && negb (rune_in allowed r)).
Definition hasControl (s allowed : bytes) : bool := existsb (control_rune allowed) (runes s).
Definition hasC1 (s : bytes) : bool := existsb (in_range 0x80 0x9F) (runes s).

Definition checkCodePoints (field s : bytes) (lo hi : Z) (allowed : bytes) : checked unit :=
  guard? valid_utf8 s else FieldError field in
  let n := Z.of_nat (length (runes s)) in
  guard? negb ((n <? lo) || (hi <? n)) else FieldError field in
  guard? negb (hasControl s allowed) else FieldError field in
  Ok tt.

Definition checkBytes (field s : bytes) (lo hi : Z) : checked unit :=
  guard? valid_utf8 s else FieldError field in
  let n := Z.of_nat (length s) in
  guard? negb ((n <? lo) || (hi <? n)) else FieldError field in
  Ok tt.

Definition field (s : string) : bytes := bytes_of s.

(** ** Artifacts *)

Record Artifact := MkArtifact { URL : bytes; Branch : bytes; Commit : bytes; Path : bytes }.
#[export] Instance Artifact_eq_dec : EqDecision Artifact.
Proof. solve_decision. Defined.
Definition emptyArtifact : Artifact := MkArtifact [] [] [] [].

Definition maxURLBytes : Z := 2048.
Definition maxBranchBytes : Z := 255.
Definition maxPathBytes : Z := 1024.

Definition artifactIndex (base : bytes) (i : Z) : bytes := base ++ [0x5B] ++ Itoa i ++ [0x5D].
Definition artifactField (base : bytes) (i : Z) (m : bytes) : bytes := artifactIndex base i ++ [0x2E] ++ m.

(** strings.ToLower as far as an ASCII prefix can see it: the letters A to Z
    and the two other runes whose lower case is ASCII. *)
Definition lower_rune (r : Z) : Z :=
  if in_range 0x41 0x5A r then r + 0x20 else if r =? 0x130 then 0x69 else if r =? 0x212A then 0x6B else r.
Definition has_prefix (p s : list Z) : bool := bool_decide (take (length p) s = p).
Definition schemes : list bytes := [bytes_of "https://"; bytes_of "http://"; bytes_of "ssh://"; bytes_of "git://"].

Definition checkURL (f s : bytes) : checked unit :=
  let? _ := checkBytes f s 1 maxURLBytes in
  let lower := map lower_rune (runes s) in
  guard? existsb (λ p, has_prefix p lower) schemes else FieldError f in
  guard? negb (rune_in s 0x20 || hasControl s []) else FieldError f in
  Ok tt.

Definition branchBad : bytes := bytes_of "~^:?*[\".
(** strings.Contains(s, ".."). *)
Fixpoint has_dotdot (s : bytes) : bool :=
  match s with
  | c :: ((d :: _) as s') => ((c =? 0x2E) && (d =? 0x2E)) || has_dotdot s'
  | _ => false
  end.
Definition checkBranch (f s : bytes) : checked unit :=
  let? _ := checkBytes f s 1 maxBranchBytes in
  guard? negb (bool_decide (0x20 ∈ s) || hasControl s [] || existsb (λ c, bool_decide (c ∈ branchBad)) s) else FieldError f in
  guard? negb (has_dotdot s) else FieldError f in
  Ok tt.

Definition is_lower_hex (c : Z) : bool := is_digit c || in_range 0x61 0x66 c.
Definition commitPattern (s : bytes) : bool :=
  (7 <=? length s)%nat && (length s <=? 64)%nat && forallb is_lower_hex s.

(** A check that runs only on a member that is set. *)
Definition when_set (s : bytes) (c : checked unit) : checked unit := match s with [] => Ok tt | _ => c end.

Definition validateArtifact (base : bytes) (i : Z) (a : Artifact) : checked unit :=
  let prefix m := artifactField base i (bytes_of m) in
  guard? negb (bool_decide (a = emptyArtifact)) else FieldError (artifactIndex base i) in
  let? _ := when_set (URL a) (checkURL (prefix "url"%string) (URL a)) in
  let? _ := when_set (Branch a) (checkBranch (prefix "branch"%string) (Branch a)) in
  let? _ := when_set (Commit a) (if commitPattern (Commit a) then Ok tt else Err (FieldError (prefix "commit"%string))) in
  when_set (Path a)
    (let? _ := checkBytes (prefix "path"%string) (Path a) 1 maxPathBytes in
     guard? negb (hasControl (Path a) []) else FieldError (prefix "path"%string) in Ok tt).

(** setArtifactField and the members an artifact may have. *)
Definition artifactSpecKeys : list bytes := map bytes_of ["url"; "branch"; "commit"; "path"]%string.
Definition setArtifactField (a : Artifact) (key val : bytes) : Artifact :=
  if bool_decide (key = bytes_of "url") then MkArtifact val (Branch a) (Commit a) (Path a)
  else if bool_decide (key = bytes_of "branch") then MkArtifact (URL a) val (Commit a) (Path a)
  else if bool_decide (key = bytes_of "commit") then MkArtifact (URL a) (Branch a) val (Path a)
  else if bool_decide (key = bytes_of "path") then MkArtifact (URL a) (Branch a) (Commit a) val
  else a.

(** One artifact object: its members in turn. [strict] refuses an empty
    member, as decodeArtifactsAt does and request.DecodeResult does not. *)
Fixpoint decode_artifact_members (strict : bool) (base : bytes) (i : Z) (m : body) (a : Artifact) : checked Artifact :=
  match m with
  | [] => Ok a
  | (k, v) :: m =>
      guard? bool_decide (k ∈ artifactSpecKeys) else FieldError (artifactIndex base i) in
      match v with
      | VString s =>
          guard? negb (strict && bool_decide (s = [])) else FieldError (artifactField base i k) in
          decode_artifact_members strict base i m (setArtifactField a k s)
      | _ => Err (FieldError (artifactField base i k))
      end
  end.
Fixpoint decode_artifact_list (strict : bool) (base : bytes) (i : Z) (l : list value) : checked (list Artifact) :=
  match l with
  | [] => Ok []
  | VObject m :: l =>
      let? a := decode_artifact_members strict base i m emptyArtifact in
      let? rest := decode_artifact_list strict base (i + 1) l in
      Ok (a :: rest)
  | _ :: _ => Err (FieldError (artifactIndex base i))
  end.
Definition decodeArtifactsAt (base : bytes) (raw : option value) : checked (list Artifact) :=
  match raw with
  | Some (VArray l) => decode_artifact_list true base 0 l
  | _ => Err (FieldError base)
  end.

(** A member written only when it is set. *)
Definition opt_member (k : string) (s : bytes) : body := match s with [] => [] | _ => [(bytes_of k, VString s)] end.

Definition artifact_value (a : Artifact) : value :=
  VObject (opt_member "url" (URL a) ++ opt_member "branch" (Branch a) ++ opt_member "commit" (Commit a) ++ opt_member "path" (Path a)).
Definition artifactsToValue (l : list Artifact) : list value := map artifact_value l.

(** ** The result of request.complete (internal/request/result.go) *)

Record Result := MkResult {
  Status : bytes;
  Summary : bytes;               (* empty: absent *)
  ExitCode : option Z;
  Output : bytes;
  Artifacts : option (list Artifact);   (* None: a nil slice *)
}.
#[export] Instance Result_eq_dec : EqDecision Result.
Proof. solve_decision. Defined.

Definition MaxCompleteBody : Z := 65536.
Definition minExitCode : Z := -2147483648.
Definition maxExitCode : Z := 4294967295.
Definition ResultNA : bytes := bytes_of "n/a".
Definition resultStatuses : list bytes := map bytes_of ["pass"; "fail"; "partial"; "n/a"]%string.

Fixpoint validate_artifacts (base : bytes) (i : Z) (l : list Artifact) : checked unit :=
  match l with
  | [] => Ok tt
  | a :: l => let? _ := validateArtifact base i a in validate_artifacts base (i + 1) l
  end.

Definition validate_result_artifacts (l : option (list Artifact)) : checked unit :=
  match l with
  | None => Ok tt
  | Some l =>
      let n := Z.of_nat (length l) in
      guard? negb ((n <? 1) || (20 <? n)) else FieldError (field "result.artifacts") in
      validate_artifacts (field "result.artifacts") 0 l
  end.

Definition ValidateComplete (note : bytes) (r : option Result) : checked unit :=
  let? _ := when_set note (checkCodePoints (field "note") note 1 2000 []) in
  match r with
  | None => Ok tt
  | Some r =>
      guard? bool_decide (Status r ∈ resultStatuses) else FieldError (field "result.status") in
      let? _ := when_set (Summary r) (checkCodePoints (field "result.summary") (Summary r) 1 280 []) in
      let? _ := match ExitCode r with
                | Some n => if (n <? minExitCode) || (maxExitCode <? n) then Err (FieldError (field "result.exit_code")) else Ok tt
                | None => Ok tt
                end in
      let? _ := when_set (Output r)
                  (let? _ := checkBytes (field "result.output") (Output r) 1 32768 in
                   guard? negb (hasControl (Output r) newline_tab) else FieldError (field "result.output") in Ok tt) in
      validate_result_artifacts (Artifacts r)
  end.

Definition resultAllowedMembers : list bytes := map bytes_of ["status"; "summary"; "exit_code"; "output"; "artifacts"]%string.

(** An optional string member, which must not be empty when present. *)
Definition decode_optional (f k : bytes) (m : body) : checked bytes :=
  match member k m with
  | None => Ok []
  | Some (VString []) => Err (FieldError f)
  | Some (VString s) => Ok s
  | Some _ => Err (FieldError f)
  end.

Definition check_members (m : body) (allowed : list bytes) (prefix : bytes) : checked unit :=
  match List.find (λ p, negb (bool_decide (p.1 ∈ allowed))) m with
  | Some p => Err (FieldError (prefix ++ p.1))
  | None => Ok tt
  end.

Definition decode_exit_code (m : body) : checked (option Z) :=
  match member (bytes_of "exit_code") m with
  | None => Ok None
  | Some (VNumber s) => match Int64 s with
                        | Some n => Ok (Some n)
                        | None => Err (FieldError (field "result.exit_code"))
                        end
  | Some _ => Err (FieldError (field "result.exit_code"))
  end.
Definition decode_result_artifacts (m : body) : checked (option (list Artifact)) :=
  match member (bytes_of "artifacts") m with
  | None => Ok None
  | Some (VArray l) => let? l := decode_artifact_list false (field "result.artifacts") 0 l in Ok (Some l)
  | Some _ => Err (FieldError (field "result.artifacts"))
  end.

(** request.DecodeResult *)
Definition DecodeResult (m : body) : checked Result :=
  let? _ := check_members m resultAllowedMembers (field "result.") in
  let? status := match member (bytes_of "status") m with
                 | Some (VString s) => Ok s
                 | _ => Err (FieldError (field "result.status"))
                 end in
  let? summary := decode_optional (field "result.summary") (bytes_of "summary") m in
  let? code := decode_exit_code m in
  let? output := decode_optional (field "result.output") (bytes_of "output") m in
  let? artifacts := decode_result_artifacts m in
  Ok (MkResult status summary code output artifacts).

Definition opt_exit (n : option Z) : body :=
  match n with Some n => [(bytes_of "exit_code", VNumber (Itoa n))] | None => [] end.
Definition opt_artifacts (l : option (list Artifact)) : body :=
  match l with Some ((_ :: _) as l) => [(bytes_of "artifacts", VArray (artifactsToValue l))] | _ => [] end.

Definition resultCanonicalValue (r : Result) : body :=
  (bytes_of "status", VString (Status r)) :: opt_member "summary" (Summary r) ++ opt_exit (ExitCode r) ++
  opt_member "output" (Output r) ++ opt_artifacts (Artifacts r).

(** The canonical bytes of an object, or the error of the writer. *)
Definition canonicalMap (m : body) : checked bytes :=
  match CanonicalValue (VObject m) with Ok b => Ok b | Err e => Err (ErrCanonicalForm e) end.
Definition CanonicalResult (r : Result) : checked bytes := canonicalMap (resultCanonicalValue r).

Definition ResultBytes (canon : bytes) : Z := Z.of_nat (length canon).
Definition OutputBytes (output : bytes) : Z := Z.of_nat (length output).

Definition CheckCompleteSize (canon : bytes) : checked unit :=
  let n := Z.of_nat (length canon) in
  guard? negb (MaxCompleteBody <? n) else TooLargeError n in Ok tt.

(** A stored or received text read back as an object. *)
Definition parse_object (text : bytes) : checked body :=
  match ParseStrict text with
  | Err e => Err (ErrStoredBody e)
  | Ok (VObject m) => Ok m
  | Ok _ => Err ErrBadBody
  end.
Definition decodeStoredResult (text : bytes) : checked Result :=
  let? m := parse_object text in DecodeResult m.

(** ** The result of a work session (internal/worksession/result.go) *)

Inductive verification := VerificationNone | VerificationTestsPassed | VerificationHumanAccepted.
#[export] Instance verification_eq_dec : EqDecision verification.
Proof. solve_decision. Defined.
Definition verification_text (v : verification) : bytes :=
  bytes_of match v with
           | VerificationNone => "none" | VerificationTestsPassed => "tests_passed"
           | VerificationHumanAccepted => "human_accepted"
           end.
Definition parse_verification (s : bytes) : option verification :=
  if bool_decide (s = verification_text VerificationNone) then Some VerificationNone
  else if bool_decide (s = verification_text VerificationTestsPassed) then Some VerificationTestsPassed
  else if bool_decide (s = verification_text VerificationHumanAccepted) then Some VerificationHumanAccepted
  else None.

(** worksession.Result: the D14 result with the claimed verification and notes. *)
Record WSResult := MkWSResult { base : Result; Verification : bytes; Notes : bytes }.
#[export] Instance WSResult_eq_dec : EqDecision WSResult.
Proof. solve_decision. Defined.

Module WS.
Definition MaxResultBody : Z := 65536.

Definition resultMembers : list bytes :=
  map bytes_of ["status"; "summary"; "exit_code"; "output"; "artifacts"; "verification"; "notes"]%string.
Definition d14Members : list bytes := resultAllowedMembers.

(** remapField: "result." in front of a field of the request package. *)
Definition remapField {A} (r : checked A) : checked A :=
  match r with Err (FieldError f) => Err (FieldError (field "result." ++ f)) | _ => r end.

Definition d14_part (m : body) : body :=
  omap (λ k, option_map (pair k) (member k m)) d14Members.

Definition DecodeResult (m : body) : checked WSResult :=
  let? _ := check_members m resultMembers (field "result.") in
  let? b := remapField (Body.DecodeResult (d14_part m)) in
  let? vs := match member (bytes_of "verification") m with
             | Some (VString s) => Ok s
             | _ => Err (FieldError (field "result.verification"))
             end in
  let? notes := decode_optional (field "result.notes") (bytes_of "notes") m in
  Ok (MkWSResult b vs notes).

Definition ValidateResult (r : WSResult) : checked unit :=
  let? _ := match ValidateComplete (Notes r) (Some (base r)) with
            | Err (FieldError f) =>
                if bool_decide (f = field "note") then Err (FieldError (field "result.notes"))
                else Err (FieldError (field "result." ++ f))
            | c => c
            end in
  guard? bool_decide (parse_verification (Verification r) = Some VerificationNone) ||
         bool_decide (parse_verification (Verification r) = Some VerificationTestsPassed)
  else FieldError (field "result.verification") in
  Ok tt.

Definition resultCanonicalValue (r : WSResult) : body :=
  (bytes_of "status", VString (Status (base r))) :: (bytes_of "verification", VString (Verification r)) ::
  opt_member "summary" (Summary (base r)) ++ opt_exit (ExitCode (base r)) ++
  opt_member "output" (Output (base r)) ++ opt_artifacts (Artifacts (base r)) ++ opt_member "notes" (Notes r).
Definition CanonicalResult (r : WSResult) : checked bytes := canonicalMap (resultCanonicalValue r).

(** The members of a ws.result body, as sent and as measured. *)
Definition result_body (sid reqID : bytes) (round : Z) (at_ : Z) (r : WSResult) : body :=
  [(bytes_of "at", VString (wireTime at_)); (bytes_of "request", VString reqID);
   (bytes_of "result", VObject (resultCanonicalValue r)); (bytes_of "round", VNumber (Itoa round));
   (bytes_of "session", VString sid)].
Definition resultBodyCanonical (sid reqID : bytes) (round : Z) (at_ : Z) (r : WSResult) : checked bytes :=
  canonicalMap (result_body sid reqID round at_ r).

Definition CheckResultSize (canon : bytes) : checked unit :=
  let n := Z.of_nat (length canon) in
  guard? negb (MaxResultBody <? n) else TooLargeError n in Ok tt.

Definition decodeStoredResult (text : bytes) : checked WSResult :=
  let? m := parse_object text in DecodeResult m.

(** ** The fields of ws.* bodies (internal/worksession/wire.go) *)

Definition decodeString (b : body) (f : bytes) : checked bytes :=
  match member f b with
  | Some (VString ((_ :: _) as s)) => Ok s
  | _ => Err ErrBadBody
  end.
Definition decodeOptionalNonEmpty (b : body) (f : bytes) : checked bytes :=
  match member f b with
  | None => Ok []
  | Some (VString ((_ :: _) as s)) => Ok s
  | Some _ => Err ErrBadBody
  end.
Definition decodeInt (b : body) (f : bytes) : checked Z :=
  match member f b with
  | Some (VNumber s) => match Int64 s with Some n => Ok n | None => Err ErrBadBody end
  | _ => Err ErrBadBody
  end.
Definition decodeTime_ (b : body) (f : bytes) : checked Z :=
  match decodeTime (member f b) with Some t => Ok t | None => Err ErrBadBody end.
End WS.

(** badBody("%s", err.Error()): an error of a check becomes a refused body. *)
Definition as_bad_body {A} (r : checked A) : checked A :=
  match r with Ok a => Ok a | Err _ => Err ErrBadBody end.
(** ** Lemmas: members of an object *)

Lemma member_Some k m v : NoDup (map fst m) → member k m = Some v ↔ (k, v) ∈ m.
Proof.
  induction m as [|[k' v'] m IH]; intros Hd.
  - split; [done|]. by intros ?%elem_of_nil.
  - apply NoDup_cons in Hd as [Hn Hd]. cbn [member]. rewrite elem_of_cons. case_bool_decide as Hk.
    + subst k'. split; [intros [= ->]; by left|]. intros [[= ->]|Hin]; [done|].
      exfalso. apply Hn. apply elem_of_map_list. by exists (k, v).
    + rewrite (IH Hd). split; [by right|]. intros [[= -> ->]|?]; done.
Qed.

Lemma member_None k m : member k m = None ↔ k ∉ map fst m.
Proof.
  induction m as [|[k' v'] m IH]; cbn [member map fst].
  - split; [intros _; apply not_elem_of_nil|done].
  - rewrite not_elem_of_cons, <- IH. case_bool_decide; naive_solver.
Qed.

Lemma member_perm k m m' : NoDup (map fst m) → m ≡ₚ m' → member k m = member k m'.
Proof.
  intros Hd Hp. apply option_eq. intros v. rewrite member_Some by done.
  rewrite member_Some by (by rewrite <- Hp). by rewrite Hp.
Qed.

Lemma member_app k m1 m2 : member k (m1 ++ m2) = match member k m1 with Some v => Some v | None => member k m2 end.
Proof. induction m1 as [|[k' v'] m1 IH]; [done|]. cbn [app member]. by case_bool_decide. Qed.

Lemma member_map k (f : value → value) m : member k (map (λ p, (p.1, f p.2)) m) = option_map f (member k m).
Proof. induction m as [|[k' v'] m IH]; [done|]. cbn [map member fst snd]. by case_bool_decide. Qed.

Lemma member_opt k (n : string) s : member k (opt_member n s) =
  if bool_decide (bytes_of n = k) then match s with [] => None | _ => Some (VString s) end else None.
Proof. unfold opt_member. destruct s; [by case_bool_decide|]. done. Qed.

Lemma member_exit k n : member k (opt_exit n) =
  if bool_decide (bytes_of "exit_code" = k) then option_map (λ n, VNumber (Itoa n)) n else None.
Proof. unfold opt_exit. destruct n; [done|]. by case_bool_decide. Qed.

Lemma member_artifacts k l : member k (opt_artifacts l) =
  if bool_decide (bytes_of "artifacts" = k) then
    match l with Some ((_ :: _) as l) => Some (VArray (artifactsToValue l)) | _ => None end else None.
Proof. unfold opt_artifacts. destruct l as [[|]|]; [by case_bool_decide|done|by case_bool_decide]. Qed.

(** The members of a canonical object read back. *)
Lemma canonical_members m b : wf (VObject m) = true → canonicalMap m = Ok b →
  ∃ m', parse_object b = Ok m' ∧ wf (VObject m') = true ∧ map fst m' ≡ₚ map fst m ∧
    norm (VObject m) = VObject m' ∧ ∀ k, member k m' = option_map norm (member k m).
Proof.
  unfold canonicalMap. intros Hw Hc. destruct (CanonicalValue (VObject m)) as [c|] eqn:E; [|done]. injection Hc as ->.
  pose proof (parse_strict_canonical _ _ Hw E) as Hp. pose proof (wf_norm _ Hw) as Hn. rewrite norm_object in Hp, Hn.
  eexists. unfold parse_object. rewrite Hp. split_and!; [done|done| |apply norm_object|].
  - rewrite map_map. cbn [fst]. by rewrite sort_keys_perm.
  - intros k. rewrite member_map. f_equal. apply wf_object in Hw as [Hd _]. symmetry.
    apply member_perm; [done|]. by rewrite sort_keys_perm.
Qed.

Lemma check_members_perm m m' allowed p : map fst m' ≡ₚ map fst m → check_members m allowed p = Ok tt → check_members m' allowed p = Ok tt.
Proof.
  unfold check_members. intros Hp H. destruct (List.find _ m') as [q|] eqn:E; [|done]. exfalso.
  apply List.find_some in E as [Hin Hq]. assert (q.1 ∈ map fst m) as Hq'.
  { rewrite <- Hp. apply elem_of_map_list. exists q. split; [done|]. by apply list_elem_of_In. }
  apply elem_of_map_list in Hq' as (r & Hr & Hrin).
  destruct (List.find _ m) as [r'|] eqn:E'; [done|]. rewrite list_elem_of_In in Hrin.
  pose proof (List.find_none _ _ E' r Hrin) as Hf. cbv beta in Hf. rewrite <- Hr in Hf. congruence.
Qed.

(** ** Lemmas: the checks *)

Lemma rbind_ok_tt {E A} (c : result E unit) (k : unit → result E A) a : rbind c k = Ok a → c = Ok tt ∧ k tt = Ok a.
Proof. destruct c as [[]|]; [done|done]. Qed.

Lemma guard_ok {E A} (b : bool) (e : E) (k : result E A) a : (guard? b else e in k) = Ok a → b = true ∧ k = Ok a.
Proof. destruct b; [done|done]. Qed.

Lemma when_set_ok s c : when_set s c = Ok tt → s = [] ∨ c = Ok tt.
Proof. destruct s; [by left|by right]. Qed.

Lemma checkCodePoints_ok f s lo hi a : checkCodePoints f s lo hi a = Ok tt →
  valid_utf8 s = true ∧ lo ≤ Z.of_nat (length (runes s)) ≤ hi ∧ hasControl s a = false.
Proof.
  unfold checkCodePoints. intros H. apply guard_ok in H as [Hv H]. cbv zeta in H. apply guard_ok in H as [Hl H].
  apply guard_ok in H as [Hc _]. bprop. split_and!; [done|lia|lia|done].
Qed.

Lemma checkBytes_ok f s lo hi : checkBytes f s lo hi = Ok tt → valid_utf8 s = true ∧ lo ≤ Z.of_nat (length s) ≤ hi.
Proof.
  unfold checkBytes. intros H. apply guard_ok in H as [Hv H]. cbv zeta in H. apply guard_ok in H as [Hl _].
  bprop. split; [done|lia].
Qed.

Lemma commitPattern_valid s : commitPattern s = true → valid_utf8 s = true.
Proof.
  unfold commitPattern. intros H. bprop. apply valid_ascii. intros c Hc. rewrite forallb_forall in *.
  match goal with H : ∀ x, _ |- _ => specialize (H c) end. rewrite <- list_elem_of_In in *.
  match goal with H : _ → is_lower_hex c = true |- _ => specialize (H Hc); unfold is_lower_hex, is_digit in H end.
  apply orb_true_iff in H0. rewrite !in_range_spec in H0. lia.
Qed.

(** What a valid artifact is made of. *)
Definition artifact_texts (a : Artifact) : Prop :=
  valid_utf8 (URL a) = true ∧ valid_utf8 (Branch a) = true ∧ valid_utf8 (Commit a) = true ∧ valid_utf8 (Path a) = true.

Lemma validateArtifact_ok b i a : validateArtifact b i a = Ok tt → a ≠ emptyArtifact ∧ artifact_texts a.
Proof.
  unfold validateArtifact. intros H. apply guard_ok in H as [Hne H]. bprop. split; [done|].
  apply rbind_ok_tt in H as [Hu H]. apply rbind_ok_tt in H as [Hb H]. apply rbind_ok_tt in H as [Hc Hp].
  unfold artifact_texts. split_and!.
  - apply when_set_ok in Hu as [->|Hu]; [done|]. unfold checkURL in Hu. apply rbind_ok_tt in Hu as [Hu _]. by apply checkBytes_ok in Hu as [? _].
  - apply when_set_ok in Hb as [->|Hb]; [done|]. unfold checkBranch in Hb. apply rbind_ok_tt in Hb as [Hb _]. by apply checkBytes_ok in Hb as [? _].
  - apply when_set_ok in Hc as [->|Hc]; [done|]. apply commitPattern_valid. by destruct (commitPattern _).
  - apply when_set_ok in Hp as [->|Hp]; [done|]. apply rbind_ok_tt in Hp as [Hp _]. by apply checkBytes_ok in Hp as [? _].
Qed.

Lemma validate_artifacts_ok b i l : validate_artifacts b i l = Ok tt → Forall (λ a, a ≠ emptyArtifact ∧ artifact_texts a) l.
Proof.
  revert i. induction l as [|a l IH]; intros i H; [constructor|]. cbn [validate_artifacts] in H.
  apply rbind_ok_tt in H as [Ha H]. constructor; [by eapply validateArtifact_ok|by eapply IH].
Qed.

(** ** Lemmas: results round trip *)

Lemma wf_artifact a : artifact_texts a → wf (artifact_value a) = true.
Proof.
  destruct a as [u b c p]. intros (Hu & Hb & Hc & Hp). cbn [URL Branch Commit Path] in *. unfold artifact_value. cbn [URL Branch Commit Path].
  destruct u as [|u0 u], b as [|b0 b], c as [|c0 c], p as [|p0 p]; cbn -[valid_utf8 bool_decide];
    rewrite ?Hu, ?Hb, ?Hc, ?Hp; rewrite bool_decide_eq_true_2 by (apply (bool_decide_unpack _); vm_compute; exact I); reflexivity.
Qed.

Lemma decode_norm_artifact strict b i a : ∃ m, norm (artifact_value a) = VObject m ∧
  decode_artifact_members strict b i m emptyArtifact = Ok a.
Proof.
  destruct a as [u br c p]. unfold artifact_value. cbn [URL Branch Commit Path].
  destruct u as [|u0 u], br as [|b0 br], c as [|c0 c], p as [|p0 p]; destruct strict;
    eexists; (split; [vm_compute; reflexivity|vm_compute; reflexivity]).
Qed.

Lemma decode_norm_artifacts strict b i l : 
  decode_artifact_list strict b i (map norm (artifactsToValue l)) = Ok l.
Proof.
  revert i. induction l as [|a l IH]; intros i; [done|]. cbn [artifactsToValue map].
  destruct (decode_norm_artifact strict b i a) as (m & -> & Hm). cbn [decode_artifact_list]. rewrite Hm. cbn [rbind].
  unfold artifactsToValue in IH. by rewrite IH.
Qed.

(** The texts and numbers of a result that passed its checks. *)
Definition result_texts (r : Result) : Prop :=
  valid_utf8 (Status r) = true ∧ valid_utf8 (Summary r) = true ∧ valid_utf8 (Output r) = true ∧
  (∀ n, ExitCode r = Some n → minExitCode ≤ n ≤ maxExitCode) ∧
  (∀ l, Artifacts r = Some l → l ≠ [] ∧ Forall (λ a, a ≠ emptyArtifact ∧ artifact_texts a) l).

Lemma ValidateComplete_ok note r : ValidateComplete note (Some r) = Ok tt → valid_utf8 note = true ∧ result_texts r.
Proof.
  unfold ValidateComplete. intros H. apply rbind_ok_tt in H as [Hnote H]. split.
  { apply when_set_ok in Hnote as [->|Hn]; [done|]. by apply checkCodePoints_ok in Hn as [? _]. }
  apply guard_ok in H as [Hst H]. apply rbind_ok_tt in H as [Hsum H]. apply rbind_ok_tt in H as [Hex H].
  apply rbind_ok_tt in H as [Hout Hart]. unfold result_texts. split_and!.
  - apply bool_decide_eq_true in Hst. apply elem_of_map_list in Hst as (s & -> & Hs).
    repeat (apply elem_of_cons in Hs as [->|Hs]; [reflexivity|]). by apply elem_of_nil in Hs.
  - apply when_set_ok in Hsum as [->|Hn]; [done|]. by apply checkCodePoints_ok in Hn as [? _].
  - apply when_set_ok in Hout as [->|Hn]; [done|]. apply rbind_ok_tt in Hn as [Hn _]. by apply checkBytes_ok in Hn as [? _].
  - intros n Hn. rewrite Hn in Hex. destruct ((n <? minExitCode) || (maxExitCode <? n)) eqn:E; [done|]. bprop. lia.
  - intros l Hl. rewrite Hl in Hart. unfold validate_result_artifacts in Hart. cbv zeta in Hart.
    apply guard_ok in Hart as [Hlen Hart]. bprop. split; [|by eapply validate_artifacts_ok].
    intros ->. simpl in *. lia.
Qed.

Lemma wf_artifacts l : Forall (λ a, a ≠ emptyArtifact ∧ artifact_texts a) l → wf (VArray (artifactsToValue l)) = true.
Proof.
  intros H. apply wf_array. intros x (a & -> & Ha)%elem_of_map_list. rewrite Forall_forall in H. by apply wf_artifact, H.
Qed.

(** The object of distinct known keys is well formed when its values are. *)
Lemma wf_known m : forallb (λ p, wf p.2) m = true → NoDup (map fst m) → forallb (λ k, valid_utf8 k) (map fst m) = true → wf (VObject m) = true.
Proof.
  intros Hv Hd Hk. apply wf_object. split; [done|]. intros p Hp. rewrite forallb_forall in *.
  rewrite list_elem_of_In in Hp. split; [|by apply Hv]. apply Hk. by apply in_map.
Qed.

Ltac result_cases r :=
  destruct r as [st su ex ou ar]; cbn [Status Summary ExitCode Output Artifacts base Verification Notes] in *;
  destruct su as [|su0 su], ex as [ex|], ou as [|ou0 ou], ar as [[|a0 ar]|].

Lemma opt_member_keys k s : map fst (opt_member k s) `sublist_of` [bytes_of k].
Proof. unfold opt_member. destruct s; cbn; [constructor; constructor|done]. Qed.
Lemma opt_exit_keys n : map fst (opt_exit n) `sublist_of` [bytes_of "exit_code"].
Proof. unfold opt_exit. destruct n; cbn; [done|constructor; constructor]. Qed.
Lemma opt_artifacts_keys l : map fst (opt_artifacts l) `sublist_of` [bytes_of "artifacts"].
Proof. unfold opt_artifacts. destruct l as [[|]|]; cbn; [constructor; constructor|done|constructor; constructor]. Qed.

Lemma wf_opt_member k s : valid_utf8 s = true → forallb (λ p, wf p.2) (opt_member k s) = true.
Proof. unfold opt_member. destruct s; [done|]. intros H. cbn [forallb snd wf]. by rewrite H. Qed.
Lemma wf_opt_exit n : forallb (λ p, wf p.2) (opt_exit n) = true.
Proof. by destruct n. Qed.
Lemma wf_opt_artifacts r : result_texts r → forallb (λ p, wf p.2) (opt_artifacts (Artifacts r)) = true.
Proof.
  intros (_ & _ & _ & _ & H). unfold opt_artifacts. destruct (Artifacts r) as [[|a l]|] eqn:E; [done| |done].
  cbn [forallb snd]. rewrite wf_artifacts; [done|]. by apply (H (a :: l)).
Qed.

(** Keys taken in order from a list of distinct known keys. *)
Lemma known_keys (ks : list bytes) (m : body) : map fst m `sublist_of` ks → bool_decide (NoDup ks) = true →
  forallb valid_utf8 ks = true → forallb (λ p, wf p.2) m = true → wf (VObject m) = true.
Proof.
  intros Hs Hd Hk Hv. apply bool_decide_eq_true in Hd. apply wf_known; [done|by eapply sublist_NoDup|].
  apply forallb_forall. intros k Hin. rewrite forallb_forall in Hk. apply Hk. rewrite <- list_elem_of_In in *.
  by eapply elem_of_sublist.
Qed.

Definition resultKeys : list bytes := map bytes_of ["status"; "summary"; "exit_code"; "output"; "artifacts"]%string.
Lemma result_value_keys r : map fst (resultCanonicalValue r) `sublist_of` resultKeys.
Proof.
  unfold resultCanonicalValue. cbn [map fst]. rewrite !map_app.
  change resultKeys with (bytes_of "status" :: [bytes_of "summary"] ++ [bytes_of "exit_code"] ++ [bytes_of "output"] ++ [bytes_of "artifacts"]).
  constructor. repeat apply sublist_app; eauto using opt_member_keys, opt_exit_keys, opt_artifacts_keys.
Qed.

Lemma wf_result_value r : result_texts r → wf (VObject (resultCanonicalValue r)) = true.
Proof.
  intros Hr. pose proof Hr as (Hst & Hsu & Hou & _). apply (known_keys resultKeys); [apply result_value_keys|by vm_compute..|].
  unfold resultCanonicalValue. cbn [forallb snd wf]. rewrite Hst, !forallb_app, wf_opt_member, wf_opt_exit, wf_opt_member, wf_opt_artifacts by done.
  done.
Qed.

(** Reading a member of the canonical value of a result. *)
Ltac known_keys_step :=
  repeat match goal with |- context [bool_decide (bytes_of ?a = bytes_of ?b)] =>
    let v := eval vm_compute in (bool_decide (bytes_of a = bytes_of b)) in
    change (bool_decide (bytes_of a = bytes_of b)) with v; cbv iota end.
Ltac member_step :=
  cbn [member]; known_keys_step; rewrite ?member_app, ?member_opt, ?member_exit, ?member_artifacts;
  cbn [member]; known_keys_step.

Lemma member_result_status r : member (bytes_of "status") (resultCanonicalValue r) = Some (VString (Status r)).
Proof. unfold resultCanonicalValue. member_step. done. Qed.
Lemma member_result_summary r : member (bytes_of "summary") (resultCanonicalValue r) =
  match Summary r with [] => None | _ => Some (VString (Summary r)) end.
Proof. unfold resultCanonicalValue. member_step. by destruct (Summary r). Qed.
Lemma member_result_exit r : member (bytes_of "exit_code") (resultCanonicalValue r) = option_map (λ n, VNumber (Itoa n)) (ExitCode r).
Proof. unfold resultCanonicalValue. member_step. by destruct (ExitCode r). Qed.
Lemma member_result_output r : member (bytes_of "output") (resultCanonicalValue r) =
  match Output r with [] => None | _ => Some (VString (Output r)) end.
Proof. unfold resultCanonicalValue. member_step. by destruct (Output r). Qed.
Lemma member_result_artifacts r : member (bytes_of "artifacts") (resultCanonicalValue r) =
  match Artifacts r with Some ((_ :: _) as l) => Some (VArray (artifactsToValue l)) | _ => None end.
Proof. unfold resultCanonicalValue. member_step. done. Qed.

Lemma Int64_Itoa n : - 2 ^ 63 ≤ n < 2 ^ 63 → Int64 (Itoa n) = Some n.
Proof.
  intros Hn. unfold Int64, ParseInt64, Itoa. destruct (n <? 0) eqn:Hneg; bprop.
  - destruct (digits_of_spec 20 (- n)) as (Hp & Hv & Hd); [simpl; lia|lia|]. cbn [Z.eqb Pos.eqb].
    unfold parse_digits. destruct (digits_of 20 (- n)) as [|c ds] eqn:E; [done|]. rewrite Hd, <- E, E, Hv. cbn [option_map].
    rewrite Z.opp_involutive. by rewrite (proj2 (in_range_spec _ _ _)) by lia.
  - destruct (digits_of_spec 20 n) as (Hp & Hv & Hd); [simpl; lia|lia|].
    destruct (digits_of 20 n) as [|c ds] eqn:E; [done|].
    destruct (digits_head _ Hp) as (c' & ds' & [= <- <-] & Hc).
    rewrite (proj2 (Z.eqb_neq c 0x2D)), (proj2 (Z.eqb_neq c 0x2B)) by lia. unfold parse_digits. rewrite Hd, Hv.
    by rewrite (proj2 (in_range_spec _ _ _)) by lia.
Qed.

(** DecodeResult depends on an object through its members. *)
Lemma DecodeResult_reads r m : result_texts r → check_members m resultAllowedMembers (field "result.") = Ok tt →
  (∀ k, member k m = option_map norm (member k (resultCanonicalValue r))) → DecodeResult m = Ok r.
Proof.
  intros (_ & _ & _ & Hex & Har) Hc Hm. unfold DecodeResult, decode_optional, decode_exit_code, decode_result_artifacts.
  rewrite Hc, !Hm, member_result_status, member_result_summary, member_result_exit, member_result_output, member_result_artifacts.
  destruct r as [st su ex ou ar]. cbn [Status Summary ExitCode Output Artifacts rbind option_map norm] in *.
  assert (match option_map norm match su with [] => None | _ => Some (VString su) end with
          | None => Ok [] | Some (VString []) => Err (FieldError (field "result.summary"))
          | Some (VString s) => Ok s | Some _ => Err (FieldError (field "result.summary")) end = Ok su :> checked bytes) as -> by by destruct su.
  cbn [rbind].
  assert (match option_map norm (option_map (λ n, VNumber (Itoa n)) ex) with
          | None => Ok None
          | Some (VNumber s) => match Int64 s with Some n => Ok (Some n) | None => Err (FieldError (field "result.exit_code")) end
          | Some _ => Err (FieldError (field "result.exit_code")) end = Ok ex :> checked (option Z)) as ->.
  { destruct ex as [n|]; [|done]. cbn [option_map norm]. rewrite Int64_Itoa; [done|].
    pose proof (Hex n eq_refl). unfold minExitCode, maxExitCode in *. lia. }
  cbn [rbind].
  assert (match option_map norm match ou with [] => None | _ => Some (VString ou) end with
          | None => Ok [] | Some (VString []) => Err (FieldError (field "result.output"))
          | Some (VString s) => Ok s | Some _ => Err (FieldError (field "result.output")) end = Ok ou :> checked bytes) as -> by by destruct ou.
  cbn [rbind]. destruct ar as [[|a l]|]; [by destruct (Har [] eq_refl)| |done].
  cbn [option_map norm]. by rewrite decode_norm_artifacts.
Qed.

(** The keys of a body are among the known ones. *)
Lemma check_members_known m ks p : map fst m `sublist_of` ks → check_members m ks p = Ok tt.
Proof.
  intros Hs. unfold check_members. destruct (List.find _ m) as [q|] eqn:E; [|done]. exfalso.
  apply List.find_some in E as [Hin Hq]. apply negb_true_iff, bool_decide_eq_false in Hq. apply Hq.
  eapply elem_of_sublist; [|exact Hs]. apply elem_of_map_list. exists q. split; [done|]. by apply list_elem_of_In.
Qed.

Lemma write_all_ok first l : (∀ p, p ∈ l → ∃ b, p.2 = Ok b) → ∃ bs, write_all first l = Ok bs.
Proof.
  revert first. induction l as [|[pre r] l IH]; intros first Hl; [by eexists|]. cbn [write_all].
  destruct (Hl (pre, r)) as [b Hb]; [by left|]. cbn [snd] in Hb. subst r.
  destruct (IH false) as [bs ->]; [intros p Hp; apply Hl; by right|]. by eexists.
Qed.

Lemma canonical_object_ok m : (∀ p, p ∈ m → ∃ b, canonicalize p.2 = Ok b) → ∃ b, canonicalize (VObject m) = Ok b.
Proof.
  intros Hm. rewrite canonicalize_object.
  destruct (write_all_ok true (map (λ p, (writeString p.1 ++ [0x3A], canonicalize p.2)) (sort_keys m))) as [bs ->]; [|by eexists].
  intros p (x & -> & Hx)%elem_of_map_list. rewrite sort_keys_perm in Hx. cbn [snd]. by apply Hm.
Qed.

Lemma canonical_array_ok l : (∀ x, x ∈ l → ∃ b, canonicalize x = Ok b) → ∃ b, canonicalize (VArray l) = Ok b.
Proof.
  intros Hl. cbn [canonicalize].
  destruct (write_all_ok true (map (λ x, ([], canonicalize x)) l)) as [bs ->]; [|by eexists].
  intros p (x & -> & Hx)%elem_of_map_list. cbn [snd]. by apply Hl.
Qed.

Lemma canonical_number_ok n : - maxSafeInt < n < maxSafeInt → ∃ b, canonicalize (VNumber (Itoa n)) = Ok b.
Proof. intros Hn. eexists. cbn [canonicalize]. by apply write_Itoa. Qed.

Lemma canonical_strings_ok m : (∀ p, p ∈ m → ∃ s, p.2 = VString s) → ∃ b, canonicalize (VObject m) = Ok b.
Proof. intros Hm. apply canonical_object_ok. intros p Hp. destruct (Hm p Hp) as [s ->]. by eexists. Qed.

Lemma opt_member_strings k s p : p ∈ opt_member k s → ∃ s, p.2 = VString s.
Proof. unfold opt_member. destruct s; [by intros ?%elem_of_nil|]. intros ->%list_elem_of_singleton. by eexists. Qed.

Lemma canonical_artifact_ok a : ∃ b, canonicalize (artifact_value a) = Ok b.
Proof.
  apply canonical_strings_ok. intros p Hp. repeat apply elem_of_app in Hp as [Hp|Hp]; by eapply opt_member_strings.
Qed.

Definition value_ok (p : bytes * value) : Prop := ∃ b, canonicalize p.2 = Ok b.
Lemma opt_member_ok k s p : p ∈ opt_member k s → value_ok p.
Proof. intros Hp. unfold value_ok. destruct (opt_member_strings _ _ _ Hp) as [x ->]. by eexists. Qed.
Lemma opt_exit_ok r p : result_texts r → p ∈ opt_exit (ExitCode r) → value_ok p.
Proof.
  intros (_ & _ & _ & He & _) Hp. unfold opt_exit in Hp. destruct (ExitCode r) as [n|]; [|by apply elem_of_nil in Hp].
  apply list_elem_of_singleton in Hp as ->. apply canonical_number_ok. pose proof (He n eq_refl).
  unfold minExitCode, maxExitCode, maxSafeInt in *. lia.
Qed.
Lemma opt_artifacts_ok l p : p ∈ opt_artifacts l → value_ok p.
Proof.
  unfold opt_artifacts. destruct l as [[|a l]|]; try (by intros ?%elem_of_nil). intros ->%list_elem_of_singleton.
  apply canonical_array_ok. intros x (b & -> & _)%elem_of_map_list. apply canonical_artifact_ok.
Qed.

Lemma CanonicalResult_ok r : result_texts r → ∃ b, CanonicalResult r = Ok b.
Proof.
  intros Hr. unfold CanonicalResult, canonicalMap, CanonicalValue.
  destruct (canonical_object_ok (resultCanonicalValue r)) as [b ->]; [|by eexists].
  intros p Hp. unfold resultCanonicalValue in Hp. apply elem_of_cons in Hp as [->|Hp]; [by eexists|].
  repeat apply elem_of_app in Hp as [Hp|Hp]; eauto using opt_member_ok, opt_exit_ok, opt_artifacts_ok.
  all: try (by eapply opt_member_ok). all: try (by eapply opt_exit_ok). by eapply opt_artifacts_ok.
Qed.

(** A stored result of the request package reads back. *)
Lemma stored_result_back r b : result_texts r → CanonicalResult r = Ok b → decodeStoredResult b = Ok r.
Proof.
  intros Hr Hb. destruct (canonical_members _ _ (wf_result_value r Hr) Hb) as (m & Hp & _ & Hk & _ & Hm).
  unfold decodeStoredResult. rewrite Hp. cbn [rbind]. apply DecodeResult_reads; [done| |done].
  eapply check_members_perm; [exact Hk|]. apply check_members_known, result_value_keys.
Qed.

Module WSLemmas.
Import WS.

Definition ws_texts (r : WSResult) : Prop :=
  result_texts (base r) ∧ valid_utf8 (Notes r) = true ∧
  (Verification r = verification_text VerificationNone ∨ Verification r = verification_text VerificationTestsPassed).

Lemma parse_verification_text s v : parse_verification s = Some v → s = verification_text v.
Proof. unfold parse_verification. repeat case_bool_decide; by intros [= <-]. Qed.

Lemma parse_text_verification v : parse_verification (verification_text v) = Some v.
Proof. by destruct v. Qed.

Lemma ValidateResult_ok r : ValidateResult r = Ok tt → ws_texts r.
Proof.
  unfold ValidateResult. intros H. apply rbind_ok_tt in H as [Hc H]. apply guard_ok in H as [Hv _].
  destruct (ValidateComplete (Notes r) (Some (base r))) as [[]|e] eqn:E.
  2: { destruct e; try done. cbv beta iota in Hc. by destruct (bool_decide _). }
  apply ValidateComplete_ok in E as [Hn Hr]. split_and!; [done..|].
  apply orb_true_iff in Hv as [Hv|Hv]; apply bool_decide_eq_true, parse_verification_text in Hv; eauto.
Qed.

Definition wsKeys : list bytes :=
  map bytes_of ["status"; "verification"; "summary"; "exit_code"; "output"; "artifacts"; "notes"]%string.
Lemma ws_value_keys r : map fst (resultCanonicalValue r) `sublist_of` wsKeys.
Proof.
  unfold resultCanonicalValue. cbn [map fst]. rewrite !map_app.
  change wsKeys with (bytes_of "status" :: bytes_of "verification" :: [bytes_of "summary"] ++ [bytes_of "exit_code"] ++ [bytes_of "output"] ++ [bytes_of "artifacts"] ++ [bytes_of "notes"]).
  do 2 constructor. repeat apply sublist_app; eauto using opt_member_keys, opt_exit_keys, opt_artifacts_keys.
Qed.

Lemma wf_ws_value r : ws_texts r → wf (VObject (resultCanonicalValue r)) = true.
Proof.
  intros (Hr & Hn & Hv). pose proof Hr as (Hst & Hsu & Hou & _). apply (known_keys wsKeys); [apply ws_value_keys|by vm_compute..|].
  unfold resultCanonicalValue. cbn [forallb snd wf].
  rewrite Hst, !forallb_app, !wf_opt_member, wf_opt_exit, wf_opt_artifacts by done.
  by destruct Hv as [-> | ->].
Qed.

Lemma ws_CanonicalResult_ok r : ws_texts r → ∃ b, CanonicalResult r = Ok b.
Proof.
  intros (Hr & _). unfold CanonicalResult, canonicalMap, CanonicalValue.
  destruct (canonical_object_ok (resultCanonicalValue r)) as [b ->]; [|by eexists].
  intros p Hp. unfold resultCanonicalValue in Hp. do 2 (apply elem_of_cons in Hp as [->|Hp]; [by eexists|]).
  repeat apply elem_of_app in Hp as [Hp|Hp];
    first [by eapply opt_member_ok | by eapply opt_exit_ok | by eapply opt_artifacts_ok].
Qed.

Lemma member_part k l m : member k (omap (λ k, option_map (pair k) (member k m)) l) =
  if bool_decide (k ∈ l) then member k m else None.
Proof.
  induction l as [|k' l IH]; [done|].
  transitivity (if bool_decide (k' = k) then match member k' m with Some v => Some v | None => member k (omap (λ k, option_map (pair k) (member k m)) l) end
                else member k (omap (λ k, option_map (pair k) (member k m)) l)).
  { cbn [omap list_omap]. destruct (member k' m); cbn [option_map member]; by destruct (bool_decide (k' = k)). }
  rewrite IH. clear IH. destruct (decide (k' = k)) as [->|Hne].
  - rewrite !(bool_decide_eq_true_2 (k = k)), (bool_decide_eq_true_2 (k ∈ k :: l)) by (done || by left).
    destruct (member k m); [done|]. by case_bool_decide.
  - rewrite (bool_decide_eq_false_2 (k' = k)) by done. erewrite (bool_decide_ext (k ∈ k' :: l)); [done|].
    rewrite elem_of_cons. naive_solver.
Qed.

Lemma member_d14 k m : member k (d14_part m) = if bool_decide (k ∈ d14Members) then member k m else None.
Proof. apply member_part. Qed.

Lemma d14_keys m : check_members (d14_part m) resultAllowedMembers (field "result.") = Ok tt.
Proof.
  apply check_members_known. unfold d14_part. fold d14Members. generalize d14Members. intros l.
  induction l as [|k l IH]; [done|]. cbn [omap list_omap]. destruct (member k m); cbn [option_map map fst]; [by constructor|].
  by apply sublist_cons.
Qed.

Lemma member_ws_base k r : k ∈ d14Members →
  member k (resultCanonicalValue r) = member k (Body.resultCanonicalValue (base r)).
Proof.
  intros Hk. unfold resultCanonicalValue, Body.resultCanonicalValue.
  repeat (apply elem_of_cons in Hk as [->|Hk]); [..|by apply elem_of_nil in Hk]; member_step; try done;
    repeat case_match; try done.
Qed.

Lemma member_ws_verification r : member (bytes_of "verification") (resultCanonicalValue r) = Some (VString (Verification r)).
Proof. unfold resultCanonicalValue. member_step. done. Qed.
Lemma member_ws_notes r : member (bytes_of "notes") (resultCanonicalValue r) = match Notes r with [] => None | _ => Some (VString (Notes r)) end.
Proof. unfold resultCanonicalValue. member_step. done. Qed.

Lemma ws_DecodeResult_reads r m : ws_texts r → check_members m resultMembers (field "result.") = Ok tt →
  (∀ k, member k m = option_map norm (member k (resultCanonicalValue r))) → DecodeResult m = Ok r.
Proof.
  intros (Hr & _ & _) Hc Hm. unfold DecodeResult, decode_optional. rewrite Hc. cbn [rbind].
  rewrite (Body.DecodeResult_reads (base r)); [|done|apply d14_keys|].
  2: { intros k. rewrite member_d14. case_bool_decide as Hk; [by rewrite Hm, member_ws_base|].
       destruct (member k (Body.resultCanonicalValue (base r))) eqn:E; [|done]. exfalso. apply Hk.
       assert (k ∈ map fst (Body.resultCanonicalValue (base r))) as Hin.
       { destruct (decide (k ∈ map fst (Body.resultCanonicalValue (base r)))) as [|Hn]; [done|]. apply member_None in Hn. congruence. }
       eapply elem_of_sublist in Hin; [|apply result_value_keys]. exact Hin. }
  cbn [remapField rbind]. rewrite !Hm, member_ws_verification, member_ws_notes.
  cbn [option_map norm rbind]. destruct r as [b v n]. cbn [base Verification Notes]. by destruct n.
Qed.

Lemma members_ws_value r : check_members (resultCanonicalValue r) resultMembers (field "result.") = Ok tt.
Proof.
  unfold check_members. destruct (List.find _ _) as [q|] eqn:E; [|done]. exfalso.
  apply List.find_some in E as [Hin Hq]. apply negb_true_iff, bool_decide_eq_false in Hq. apply Hq.
  assert (q.1 ∈ wsKeys) as Hk.
  { eapply elem_of_sublist; [|apply ws_value_keys]. apply elem_of_map_list. exists q. split; [done|]. by apply list_elem_of_In. }
  revert Hk. generalize q.1. intros k Hk. unfold wsKeys in Hk. cbn [map] in Hk.
  apply (bool_decide_unpack _). repeat (apply elem_of_cons in Hk as [->|Hk]; [vm_compute; exact I|]). by apply elem_of_nil in Hk.
Qed.

(** A stored result of a work session reads back. *)
Lemma ws_stored_result_back r b : ws_texts r → CanonicalResult r = Ok b → decodeStoredResult b = Ok r.
Proof.
  intros Hr Hb. destruct (canonical_members _ _ (wf_ws_value r Hr) Hb) as (m & Hp & _ & Hk & _ & Hm).
  unfold decodeStoredResult. rewrite Hp. cbn [rbind]. apply ws_DecodeResult_reads; [done| |done].
  eapply check_members_perm; [exact Hk|]. apply members_ws_value.
Qed.
End WSLemmas.

(** A result that ValidateResult accepts always has a canonical form, and
    what is stored of it reads back as the same result: nothing a worker
    reported is lost or changed between ws.result, the stored row and the
    request record, which keeps the D14 part in the same way. *)
Theorem results_roundtrip r : WS.ValidateResult r = Ok tt →
  (∃ b, WS.CanonicalResult r = Ok b ∧ WS.decodeStoredResult b = Ok r) ∧
  (∃ b, CanonicalResult (base r) = Ok b ∧ decodeStoredResult b = Ok (base r)).
Proof.
  intros Hr%WSLemmas.ValidateResult_ok. split.
  - destruct (WSLemmas.ws_CanonicalResult_ok r Hr) as [b Hb]. exists b. split; [done|]. by apply WSLemmas.ws_stored_result_back.
  - destruct Hr as [Hr _]. destruct (CanonicalResult_ok (base r) Hr) as [b Hb]. exists b. split; [done|]. by apply stored_result_back.
Qed.

(** ** Instances *)

Definition demo_result : WSResult :=
  MkWSResult (MkResult (bytes_of "pass") (bytes_of "all tests pass") (Some 0) [] (Some [MkArtifact [] (bytes_of "main") [] []]))
    (verification_text VerificationTestsPassed) (bytes_of "see the log").

Lemma results_roundtrip_witness : ∃ b, WS.CanonicalResult demo_result = Ok b ∧ WS.decodeStoredResult b = Ok demo_result.
Proof. exact (proj1 (results_roundtrip demo_result ltac:(vm_compute; reflexivity))). Defined.

(** A field of the D14 part is named with "result." twice: remapField adds
    the prefix to a name that has it. *)
Example remapped_field : WS.DecodeResult [(bytes_of "verification", VString (bytes_of "none"))] =
  Err (FieldError (bytes_of "result.result.status")).
Proof. reflexivity. Qed.

(** U+0130 has the simple lower case "i", so a url may begin "g\u0130t://". *)
Example dotted_scheme : checkURL (field "url") (bytes_of "g" ++ [0xC4; 0xB0] ++ bytes_of "t://example.org/x") = Ok tt.
Proof. reflexivity. Qed.
