(* ===== verification/RequestObject.v ===== *)
(** * The request object (internal/request/request.go, validate.go, decode.go, canonical.go, urgency.go, priority.go)

    The body of a mail of kind "request": its record, the strict decoder, the
    rules of Validate and its canonical form. An optional member that is
    absent is the empty text, None, or the zero time, as in the struct. *)

From S2P Require Import Prelude Utf8 Canonical Strconv WireTime Body.

Open Scope Z_scope.
Open Scope go_scope.

Definition MaxRequestBody : Z := 65536.
Definition MaxQuestionBody : Z := 327680.

Definition TypeReview : bytes := bytes_of "review".
Definition TypeTask : bytes := bytes_of "task".
Definition TypeQuestion : bytes := bytes_of "question".
Definition TypeDebate : bytes := bytes_of "debate".
Definition UrgencyLow : bytes := bytes_of "low".
Definition UrgencyNormal : bytes := bytes_of "normal".
Definition UrgencyHigh : bytes := bytes_of "high".
Definition UrgencyBlocking : bytes := bytes_of "blocking".

Record RequestedGrant := MkGrant { Action : bytes; Resource : bytes; GrantNote : bytes }.
Record ContextFile := MkFile { FileName : bytes; FileText : bytes }.
Record DebateMember := MkDebate { Commitment : bytes; Rounds : Z; TurnTimeoutS : Z }.

Record Request := MkRequest {
  V : Z; ID : bytes; From : bytes; To : bytes; Team : bytes; Type_ : bytes; Title : bytes; Brief : bytes;
  Urgency : bytes; UrgencyDeclared : bytes; UrgencyReason : bytes;
  ReqArtifacts : list Artifact;
  Grant : option RequestedGrant;
  Deadline : Z;                          (* zeroTime: absent *)
  Created : Z;
  Context : option (list ContextFile);
  Run : option bytes;                    (* the command's name *)
  Debate : option DebateMember;
}.

(** ** Patterns *)

Definition hex_id (c : Z) (s : bytes) : bool :=
  match s with
  | a :: b :: ds => (a =? c) && (b =? 0x2D) && (length ds =? 32)%nat && forallb is_lower_hex ds
  | _ => false
  end.
Definition ValidID (s : bytes) : bool := hex_id 0x72 s.
Definition teamPattern (s : bytes) : bool := hex_id 0x74 s.
Definition key_char (c : Z) : bool :=
  in_range 0x41 0x5A c || in_range 0x61 0x7A c || is_digit c || (c =? 0x5F) || (c =? 0x2D).
Definition keyPattern (s : bytes) : bool := (length s =? 43)%nat && forallb key_char s.
Definition name_char (c : Z) : bool := in_range 0x61 0x7A c || is_digit c || (c =? 0x2E) || (c =? 0x5F) || (c =? 0x2D).
Definition ValidRunCommand (s : bytes) : bool :=
  (1 <=? length s)%nat && (length s <=? 64)%nat && forallb name_char s.
Definition actionPattern (s : bytes) : bool :=
  (1 <=? length s)%nat && (length s <=? 64)%nat && forallb name_char s.
Definition commitmentPattern (s : bytes) : bool := (length s =? 64)%nat && forallb is_lower_hex s.

(** ** Validate *)

Definition one_of (s : bytes) (l : list bytes) : bool := bool_decide (s ∈ l).

Definition checkBriefBytes (s : bytes) : checked unit :=
  let? _ := checkBytes (field "brief") s 1 16384 in
  guard? negb (hasControl s newline_tab) else FieldError (field "brief") in Ok tt.

Definition validateDebate (r : Request) : checked unit :=
  if negb (bool_decide (Type_ r = TypeDebate)) then
    match Debate r with Some _ => Err (FieldError (field "debate")) | None => Ok tt end
  else match Debate r with
  | None => Err (FieldError (field "debate"))
  | Some d =>
      guard? commitmentPattern (Commitment d) else FieldError (field "debate.commitment") in
      guard? in_range 1 5 (Rounds d) else FieldError (field "debate.rounds") in
      guard? in_range 300 86400 (TurnTimeoutS d) else FieldError (field "debate.turn_timeout_s") in
      guard? bool_decide (Grant r = None) else FieldError (field "requested_grant") in
      guard? bool_decide (Run r = None) else FieldError (field "run") in
      guard? negb (hasC1 (Brief r) || rune_in (Brief r) 0x2028 || rune_in (Brief r) 0x2029) else FieldError (field "brief") in
      Ok tt
  end.

Definition validateGrant (g : RequestedGrant) : checked unit :=
  guard? actionPattern (Action g) else FieldError (field "requested_grant.action") in
  let? _ := checkBytes (field "requested_grant.resource") (Resource g) 1 512 in
  guard? negb (hasControl (Resource g) []) else FieldError (field "requested_grant.resource") in
  when_set (GrantNote g) (checkCodePoints (field "requested_grant.note") (GrantNote g) 1 280 []).

Fixpoint validate_files (i : Z) (l : list ContextFile) : checked unit :=
  match l with
  | [] => Ok tt
  | f :: l =>
      let nameField := artifactField (field "context") i (field "name") in
      let textField := artifactField (field "context") i (field "text") in
      let? _ := checkBytes nameField (FileName f) 1 255 in
      guard? negb (bool_decide (FileName f = bytes_of ".") || bool_decide (FileName f = bytes_of "..") ||
                   bool_decide (0x2F ∈ FileName f) || bool_decide (0x5C ∈ FileName f) ||
                   hasControl (FileName f) [] || hasC1 (FileName f)) else FieldError nameField in
      let? _ := checkBytes textField (FileText f) 1 65536 in
      guard? negb (hasControl (FileText f) newline_tab || hasC1 (FileText f)) else FieldError textField in
      validate_files (i + 1) l
  end.
Definition validateContext (r : Request) (files : list ContextFile) : checked unit :=
  guard? one_of (Type_ r) [TypeQuestion; TypeDebate] else FieldError (field "context") in
  guard? in_range 1 8 (Z.of_nat (length files)) else FieldError (field "context") in
  validate_files 0 files.

Definition validate_urgency (r : Request) : checked unit :=
  guard? one_of (Urgency r) [UrgencyLow; UrgencyNormal; UrgencyHigh; UrgencyBlocking] else FieldError (field "urgency") in
  let? _ := when_set (UrgencyDeclared r)
    (guard? one_of (UrgencyDeclared r) [UrgencyHigh; UrgencyBlocking] else FieldError (field "urgency_declared") in
     guard? bool_decide (Urgency r = UrgencyNormal) else FieldError (field "urgency_declared") in Ok tt) in
  let needReason := negb (bool_decide (UrgencyDeclared r = [])) || one_of (Urgency r) [UrgencyHigh; UrgencyBlocking] in
  guard? negb (needReason && bool_decide (UrgencyReason r = [])) else FieldError (field "urgency_reason") in
  when_set (UrgencyReason r) (checkCodePoints (field "urgency_reason") (UrgencyReason r) 1 280 []).

Definition Validate (r : Request) : checked unit :=
  guard? V r =? 1 else FieldError (field "v") in
  guard? ValidID (ID r) else FieldError (field "id") in
  guard? keyPattern (From r) else FieldError (field "from") in
  guard? keyPattern (To r) else FieldError (field "to") in
  guard? teamPattern (Team r) else FieldError (field "team") in
  guard? one_of (Type_ r) [TypeReview; TypeTask; TypeQuestion; TypeDebate] else FieldError (field "type") in
  let? _ := checkCodePoints (field "title") (Title r) 1 120 [] in
  let? _ := checkBriefBytes (Brief r) in
  let? _ := validateDebate r in
  let? _ := validate_urgency r in
  guard? (length (ReqArtifacts r) <=? 20)%nat else FieldError (field "artifacts") in
  let? _ := validate_artifacts (field "artifacts") 0 (ReqArtifacts r) in
  let? _ := match Grant r with Some g => validateGrant g | None => Ok tt end in
  let? _ := match Context r with Some files => validateContext r files | None => Ok tt end in
  guard? match Run r with Some c => ValidRunCommand c | None => true end else FieldError (field "run.command") in
  guard? negb (IsZero (Created r)) else FieldError (field "created") in
  guard? IsZero (Deadline r) || (Created r <? Deadline r) else FieldError (field "deadline") in
  Ok tt.

(** ** Decode *)

Definition allowedMembers : list bytes := map bytes_of
  ["v"; "id"; "from"; "to"; "team"; "type"; "title"; "brief"; "urgency"; "urgency_declared"; "urgency_reason";
   "artifacts"; "requested_grant"; "deadline"; "created"; "context"; "run"; "debate"]%string.
Definition requiredMembers : list bytes := map bytes_of
  ["v"; "id"; "from"; "to"; "team"; "type"; "title"; "brief"; "urgency"; "artifacts"; "created"]%string.

Definition decodeString (b : body) (f : bytes) (optional : bool) : checked bytes :=
  match member f b with
  | None => if optional then Ok [] else Err (FieldError f)
  | Some (VString s) => if optional && bool_decide (s = []) then Err (FieldError f) else Ok s
  | Some _ => Err (FieldError f)
  end.
Definition decodeInt (b : body) (f : bytes) : checked Z :=
  match member f b with
  | Some (VNumber s) => match Int64 s with Some n => Ok n | None => Err (FieldError f) end
  | _ => Err (FieldError f)
  end.
Definition decode_time (f : bytes) (raw : option value) : checked Z :=
  match decodeTime raw with Some t => Ok t | None => Err (FieldError f) end.

(** A string member that is required of a nested object. *)
Definition required_text (m : body) (k : string) (f : bytes) : checked bytes :=
  match member (bytes_of k) m with Some (VString s) => Ok s | _ => Err (FieldError f) end.
Definition only_members (m : body) (ks : list string) (f : bytes) : checked unit :=
  guard? forallb (λ p, bool_decide (p.1 ∈ map bytes_of ks)) m else FieldError f in Ok tt.

Definition decodeGrant (raw : value) : checked RequestedGrant :=
  match raw with
  | VObject m =>
      let? _ := only_members m ["action"; "resource"; "note"]%string (field "requested_grant") in
      let? action := required_text m "action" (field "requested_grant.action") in
      let? resource := required_text m "resource" (field "requested_grant.resource") in
      let? note := decode_optional (field "requested_grant.note") (bytes_of "note") m in
      Ok (MkGrant action resource note)
  | _ => Err (FieldError (field "requested_grant"))
  end.

Fixpoint decode_files (i : Z) (l : list value) : checked (list ContextFile) :=
  match l with
  | [] => Ok []
  | VObject m :: l =>
      let? _ := only_members m ["name"; "text"]%string (artifactIndex (field "context") i) in
      let? name := required_text m "name" (artifactField (field "context") i (field "name")) in
      let? txt := required_text m "text" (artifactField (field "context") i (field "text")) in
      let? rest := decode_files (i + 1) l in
      Ok (MkFile name txt :: rest)
  | _ :: _ => Err (FieldError (artifactIndex (field "context") i))
  end.
Definition decodeContext (raw : value) : checked (list ContextFile) :=
  match raw with VArray l => decode_files 0 l | _ => Err (FieldError (field "context")) end.

Definition decodeRun (raw : value) : checked bytes :=
  match raw with
  | VObject m =>
      let? _ := only_members m ["command"]%string (field "run") in
      required_text m "command" (field "run.command")
  | _ => Err (FieldError (field "run"))
  end.

Definition decodeDebate (raw : value) : checked DebateMember :=
  match raw with
  | VObject m =>
      let? _ := only_members m ["commitment"; "rounds"; "turn_timeout_s"]%string (field "debate") in
      let? c := required_text m "commitment" (field "debate.commitment") in
      match decodeInt m (field "rounds"), decodeInt m (field "turn_timeout_s") with
      | Ok n, Ok t => Ok (MkDebate c n t)
      | Err _, _ => Err (FieldError (field "debate.rounds"))
      | _, Err _ => Err (FieldError (field "debate.turn_timeout_s"))
      end
  | _ => Err (FieldError (field "debate"))
  end.

(** An optional member, decoded when it is present. *)
Definition when_present {A} (k : string) (b : body) (f : value → checked A) : checked (option A) :=
  match member (bytes_of k) b with
  | Some raw => let? a := f raw in Ok (Some a)
  | None => Ok None
  end.

Definition require_members (b : body) : checked unit :=
  match List.find (λ k, bool_decide (member k b = None)) requiredMembers with
  | Some k => Err (FieldError k)
  | None => Ok tt
  end.

Definition decode_fields (b : body) : checked Request :=
  let str k := decodeString b (bytes_of k) false in
  let? v := decodeInt b (field "v") in
  let? id := str "id"%string in
  let? from := str "from"%string in
  let? to := str "to"%string in
  let? team := str "team"%string in
  let? typ := str "type"%string in
  let? title := str "title"%string in
  let? brief := str "brief"%string in
  let? urgency := str "urgency"%string in
  let? declared := decodeString b (field "urgency_declared") true in
  let? reason := decodeString b (field "urgency_reason") true in
  let? artifacts := decodeArtifactsAt (field "artifacts") (member (bytes_of "artifacts") b) in
  let? grant := when_present "requested_grant" b decodeGrant in
  let? deadline := when_present "deadline" b (λ raw, decode_time (field "deadline") (Some raw)) in
  let? context := when_present "context" b decodeContext in
  let? run := when_present "run" b decodeRun in
  let? debate := when_present "debate" b decodeDebate in
  let? created := decode_time (field "created") (member (bytes_of "created") b) in
  Ok (MkRequest v id from to team typ title brief urgency declared reason artifacts grant
        (default zeroTime deadline) created context run debate).

Definition Decode (b : body) : checked Request :=
  let? _ := check_members b allowedMembers [] in
  let? _ := require_members b in
  let? r := decode_fields b in
  let? _ := Validate r in
  Ok r.

(** ** The canonical form *)

Definition grant_value (g : RequestedGrant) : value :=
  VObject ((bytes_of "action", VString (Action g)) :: (bytes_of "resource", VString (Resource g)) :: opt_member "note" (GrantNote g)).
Definition file_value (f : ContextFile) : value :=
  VObject [(bytes_of "name", VString (FileName f)); (bytes_of "text", VString (FileText f))].
Definition debate_value (d : DebateMember) : value :=
  VObject [(bytes_of "commitment", VString (Commitment d)); (bytes_of "rounds", VNumber (Itoa (Rounds d)));
           (bytes_of "turn_timeout_s", VNumber (Itoa (TurnTimeoutS d)))].
Definition opt_value {A} (k : string) (f : A → value) (o : option A) : body :=
  match o with Some a => [(bytes_of k, f a)] | None => [] end.
Definition opt_context (o : option (list ContextFile)) : body :=
  match o with Some ((_ :: _) as l) => [(bytes_of "context", VArray (map file_value l))] | _ => [] end.
Definition opt_deadline (t : Z) : body :=
  if IsZero t then [] else [(bytes_of "deadline", VString (wireTime t))].

Definition request_value (r : Request) : body :=
  [(bytes_of "v", VNumber (bytes_of "1")); (bytes_of "id", VString (ID r)); (bytes_of "from", VString (From r));
   (bytes_of "to", VString (To r)); (bytes_of "team", VString (Team r)); (bytes_of "type", VString (Type_ r));
   (bytes_of "title", VString (Title r)); (bytes_of "brief", VString (Brief r)); (bytes_of "urgency", VString (Urgency r));
   (bytes_of "artifacts", VArray (artifactsToValue (ReqArtifacts r))); (bytes_of "created", VString (wireTime (Created r)))] ++
  opt_member "urgency_declared" (UrgencyDeclared r) ++ opt_member "urgency_reason" (UrgencyReason r) ++
  opt_value "requested_grant" grant_value (Grant r) ++ opt_deadline (Deadline r) ++ opt_context (Context r) ++
  opt_value "run" (λ c, VObject [(bytes_of "command", VString c)]) (Run r) ++ opt_value "debate" debate_value (Debate r).

Definition Canonical (r : Request) : checked bytes := canonicalMap (request_value r).

(** ** The wire form (wire.go): the mail's body, built on its own *)

Definition artifactWire (a : Artifact) : value :=
  let m := if bool_decide (URL a = []) then [] else [(bytes_of "url", VString (URL a))] in
  let m := m ++ if bool_decide (Branch a = []) then [] else [(bytes_of "branch", VString (Branch a))] in
  let m := m ++ if bool_decide (Commit a = []) then [] else [(bytes_of "commit", VString (Commit a))] in
  VObject (m ++ if bool_decide (Path a = []) then [] else [(bytes_of "path", VString (Path a))]).
Definition artifactsWire (l : list Artifact) : value := VArray (map artifactWire l).
Definition wire_object (r : Request) : body :=
  let obj := [(bytes_of "v", VNumber (Itoa (V r))); (bytes_of "id", VString (ID r)); (bytes_of "from", VString (From r));
              (bytes_of "to", VString (To r)); (bytes_of "team", VString (Team r)); (bytes_of "type", VString (Type_ r));
              (bytes_of "title", VString (Title r)); (bytes_of "brief", VString (Brief r)); (bytes_of "urgency", VString (Urgency r));
              (bytes_of "artifacts", artifactsWire (ReqArtifacts r)); (bytes_of "created", VString (wireTime (Created r)))] in
  let obj := obj ++ if bool_decide (UrgencyDeclared r = []) then [] else [(bytes_of "urgency_declared", VString (UrgencyDeclared r))] in
  let obj := obj ++ if bool_decide (UrgencyReason r = []) then [] else [(bytes_of "urgency_reason", VString (UrgencyReason r))] in
  let obj := obj ++ match Grant r with
                    | Some g => [(bytes_of "requested_grant", VObject ([(bytes_of "action", VString (Action g)); (bytes_of "resource", VString (Resource g))] ++
                                   if bool_decide (GrantNote g = []) then [] else [(bytes_of "note", VString (GrantNote g))]))]
                    | None => []
                    end in
  let obj := obj ++ if IsZero (Deadline r) then [] else [(bytes_of "deadline", VString (wireTime (Deadline r)))] in
  let files := default [] (Context r) in
  let obj := obj ++ if (0 <? length files)%nat
                    then [(bytes_of "context", VArray (map (λ f, VObject [(bytes_of "name", VString (FileName f)); (bytes_of "text", VString (FileText f))]) files))]
                    else [] in
  let obj := obj ++ match Run r with Some c => [(bytes_of "run", VObject [(bytes_of "command", VString c)])] | None => [] end in
  obj ++ match Debate r with
         | Some d => [(bytes_of "debate", VObject [(bytes_of "commitment", VString (Commitment d)); (bytes_of "rounds", VNumber (Itoa (Rounds d)));
                                                   (bytes_of "turn_timeout_s", VNumber (Itoa (TurnTimeoutS d)))])]
         | None => []
         end.
Definition WireBody (r : Request) : body := [(bytes_of "request", VObject (wire_object r))].

Definition CheckSizeFor (r : Request) (canon : bytes) : checked unit :=
  let limit := if one_of (Type_ r) [TypeQuestion; TypeDebate] && bool_decide (0 < length (default [] (Context r)))%nat
               then MaxQuestionBody else MaxRequestBody in
  let n := Z.of_nat (length canon) in
  guard? negb (limit <? n) else TooLargeError n in Ok tt.

Definition ContextBytes (files : option (list ContextFile)) : Z :=
  zsum (λ f, Z.of_nat (length (FileText f))) (default [] files).

(** decodeStoredBody: a stored canonical request read back. *)
Definition decodeStoredBody (text : bytes) : checked Request :=
  let? m := parse_object text in Decode m.

(** ** Urgency and priority *)

Definition budgetLimit (urgency : bytes) : Z := if bool_decide (urgency = UrgencyBlocking) then 2 else 5.
Definition UrgencyBase (urgency : bytes) : Z :=
  if bool_decide (urgency = UrgencyLow) then 1 else if bool_decide (urgency = UrgencyNormal) then 2
  else if bool_decide (urgency = UrgencyHigh) then 3 else if bool_decide (urgency = UrgencyBlocking) then 4 else 0.
Definition Priority (base n a : Z) : Z :=
  if base <=? 2 then base * 1000 else 2000 + ((base - 2) * 1000 * (a + 2)) ÷ (n + 2).

(** ** Lemmas: a valid request reads back *)

Lemma hex_id_valid c s : 0 ≤ c < 0x80 → hex_id c s = true → valid_utf8 s = true.
Proof.
  unfold hex_id. intros Hc H. destruct s as [|a [|b ds]]; try done. bprop. apply valid_ascii.
  intros x Hx. apply elem_of_cons in Hx as [->|Hx]; [lia|]. apply elem_of_cons in Hx as [->|Hx]; [lia|].
  match goal with H : forallb _ _ = true |- _ => rewrite forallb_forall in H; specialize (H x) end.
  rewrite <- list_elem_of_In in *. match goal with H : _ → _ |- _ => specialize (H Hx); unfold is_lower_hex, is_digit in H; rename H into Hh end.
  apply orb_true_iff in Hh. rewrite !in_range_spec in Hh. lia.
Qed.

Lemma chars_valid (f : Z → bool) s : (∀ c, f c = true → 0 ≤ c < 0x80) → forallb f s = true → valid_utf8 s = true.
Proof.
  intros Hf H. apply valid_ascii. intros c Hc. apply Hf. rewrite forallb_forall in H. apply H. by apply list_elem_of_In.
Qed.

Lemma key_char_ascii c : key_char c = true → 0 ≤ c < 0x80.
Proof. unfold key_char, is_digit. rewrite !orb_true_iff, !in_range_spec, !Z.eqb_eq. lia. Qed.
Lemma name_char_ascii c : name_char c = true → 0 ≤ c < 0x80.
Proof. unfold name_char, is_digit. rewrite !orb_true_iff, !in_range_spec, !Z.eqb_eq. lia. Qed.
Lemma lower_hex_ascii c : is_lower_hex c = true → 0 ≤ c < 0x80.
Proof. unfold is_lower_hex, is_digit. rewrite !orb_true_iff, !in_range_spec. lia. Qed.

Lemma keyPattern_valid s : keyPattern s = true → valid_utf8 s = true.
Proof. unfold keyPattern. intros H. bprop. by eapply chars_valid; [apply key_char_ascii|]. Qed.
Lemma name_valid s : ValidRunCommand s = true → valid_utf8 s = true.
Proof. unfold ValidRunCommand. intros H. bprop. by eapply chars_valid; [apply name_char_ascii|]. Qed.
Lemma commitment_valid s : commitmentPattern s = true → valid_utf8 s = true.
Proof. unfold commitmentPattern. intros H. bprop. by eapply chars_valid; [apply lower_hex_ascii|]. Qed.

Lemma one_of_valid s l : forallb valid_utf8 l = true → one_of s l = true → valid_utf8 s = true.
Proof.
  unfold one_of. intros Hl Hs. apply bool_decide_eq_true in Hs. rewrite forallb_forall in Hl. apply Hl. by apply list_elem_of_In.
Qed.

Definition grant_texts (g : RequestedGrant) : Prop :=
  valid_utf8 (Action g) = true ∧ valid_utf8 (Resource g) = true ∧ valid_utf8 (GrantNote g) = true.
Definition debate_texts (d : DebateMember) : Prop :=
  valid_utf8 (Commitment d) = true ∧ 1 ≤ Rounds d ≤ 5 ∧ 300 ≤ TurnTimeoutS d ≤ 86400.
Definition file_texts (f : ContextFile) : Prop := valid_utf8 (FileName f) = true ∧ valid_utf8 (FileText f) = true.

Lemma validate_files_ok i l : validate_files i l = Ok tt → Forall file_texts l.
Proof.
  revert i. induction l as [|f l IH]; intros i H; [constructor|]. cbn [validate_files] in H.
  apply rbind_ok_tt in H as [Hn H]. apply guard_ok in H as [_ H]. apply rbind_ok_tt in H as [Ht H].
  apply guard_ok in H as [_ H]. constructor; [|by eapply IH].
  apply checkBytes_ok in Hn as [? _]. apply checkBytes_ok in Ht as [? _]. done.
Qed.

(** What Validate establishes about the texts and numbers of a request. *)
Record request_texts (r : Request) : Prop := {
  rt_v : V r = 1;
  rt_keys : valid_utf8 (ID r) = true ∧ valid_utf8 (From r) = true ∧ valid_utf8 (To r) = true ∧ valid_utf8 (Team r) = true;
  rt_text : valid_utf8 (Type_ r) = true ∧ valid_utf8 (Title r) = true ∧ valid_utf8 (Brief r) = true;
  rt_urgency : valid_utf8 (Urgency r) = true ∧ valid_utf8 (UrgencyDeclared r) = true ∧ valid_utf8 (UrgencyReason r) = true;
  rt_artifacts : Forall (λ a, a ≠ emptyArtifact ∧ artifact_texts a) (ReqArtifacts r);
  rt_grant : ∀ g, Grant r = Some g → grant_texts g;
  rt_context : ∀ l, Context r = Some l → l ≠ [] ∧ Forall file_texts l;
  rt_run : ∀ c, Run r = Some c → valid_utf8 c = true;
  rt_debate : ∀ d, Debate r = Some d → debate_texts d;
}.

Lemma validateDebate_ok r d : validateDebate r = Ok tt → Debate r = Some d → debate_texts d.
Proof.
  unfold validateDebate. intros H Hd. rewrite Hd in H. destruct (negb _); [done|].
  apply guard_ok in H as [Hc H]. apply guard_ok in H as [Hr H]. apply guard_ok in H as [Ht _].
  rewrite in_range_spec in *. split_and!; [by apply commitment_valid|lia..].
Qed.

Lemma validateGrant_ok g : validateGrant g = Ok tt → grant_texts g.
Proof.
  unfold validateGrant. intros H. apply guard_ok in H as [Ha H]. apply rbind_ok_tt in H as [Hr H]. apply guard_ok in H as [_ Hn].
  apply checkBytes_ok in Hr as [? _]. split_and!; [by apply name_valid|done|].
  apply when_set_ok in Hn as [->|Hn]; [done|]. by apply checkCodePoints_ok in Hn as [? _].
Qed.

Lemma validate_urgency_ok r : validate_urgency r = Ok tt →
  valid_utf8 (Urgency r) = true ∧ valid_utf8 (UrgencyDeclared r) = true ∧ valid_utf8 (UrgencyReason r) = true.
Proof.
  unfold validate_urgency. intros H. apply guard_ok in H as [Hu H]. apply rbind_ok_tt in H as [Hd H].
  cbv zeta in H. apply guard_ok in H as [_ Hr]. split_and!.
  - by eapply one_of_valid; [|exact Hu].
  - apply when_set_ok in Hd as [->|Hd]; [done|]. apply guard_ok in Hd as [Hd _]. by eapply one_of_valid; [|exact Hd].
  - apply when_set_ok in Hr as [->|Hr]; [done|]. by apply checkCodePoints_ok in Hr as [? _].
Qed.

Lemma Validate_ok r : Validate r = Ok tt → request_texts r.
Proof.
  unfold Validate. intros H.
  apply guard_ok in H as [Hv H]. apply guard_ok in H as [Hid H]. apply guard_ok in H as [Hfrom H].
  apply guard_ok in H as [Hto H]. apply guard_ok in H as [Hteam H]. apply guard_ok in H as [Htyp H].
  apply rbind_ok_tt in H as [Htitle H]. apply rbind_ok_tt in H as [Hbrief H]. apply rbind_ok_tt in H as [Hdeb H].
  apply rbind_ok_tt in H as [Hurg H]. apply guard_ok in H as [_ H]. apply rbind_ok_tt in H as [Hart H].
  apply rbind_ok_tt in H as [Hgr H]. apply rbind_ok_tt in H as [Hctx H]. apply guard_ok in H as [Hrun H].
  constructor.
  - by bprop.
  - split_and!; [by eapply (hex_id_valid 0x72); [lia|]|by apply keyPattern_valid..|by eapply (hex_id_valid 0x74); [lia|]].
  - apply checkCodePoints_ok in Htitle as [? _]. unfold checkBriefBytes in Hbrief.
    apply rbind_ok_tt in Hbrief as [Hb _]. apply checkBytes_ok in Hb as [? _]. split_and!; [by eapply one_of_valid; [|exact Htyp]|done..].
  - by apply validate_urgency_ok.
  - by eapply validate_artifacts_ok.
  - intros g Hg. rewrite Hg in Hgr. by apply validateGrant_ok.
  - intros l Hl. rewrite Hl in Hctx. unfold validateContext in Hctx. apply guard_ok in Hctx as [_ Hctx].
    apply guard_ok in Hctx as [Hn Hf]. rewrite in_range_spec in Hn. split; [intros ->; simpl in Hn; lia|by eapply validate_files_ok].
  - intros c Hc. rewrite Hc in Hrun. by apply name_valid.
  - intros d Hd. by eapply validateDebate_ok.
Qed.

Lemma decode_norm_grant g : decodeGrant (norm (grant_value g)) = Ok g.
Proof. destruct g as [a r n]. destruct n; vm_compute; reflexivity. Qed.

Lemma decode_norm_files i l : decode_files i (map norm (map file_value l)) = Ok l.
Proof.
  revert i. induction l as [|[n t] l IH]; intros i; [done|].
  assert (norm (file_value (MkFile n t)) = file_value (MkFile n t)) as Hn by (vm_compute; reflexivity).
  cbn [map]. rewrite Hn. unfold file_value at 1. cbn [FileName FileText decode_files].
  assert (only_members [(bytes_of "name", VString n); (bytes_of "text", VString t)] ["name"; "text"]%string (artifactIndex (field "context") i) = Ok tt)
    as -> by reflexivity.
  cbn [rbind]. unfold required_text. cbn [member]. known_keys_step. cbn [rbind]. by rewrite IH.
Qed.

Lemma decode_norm_run c : decodeRun (norm (VObject [(bytes_of "command", VString c)])) = Ok c.
Proof. vm_compute. reflexivity. Qed.

Lemma decode_norm_debate d : debate_texts d → decodeDebate (norm (debate_value d)) = Ok d.
Proof.
  destruct d as [c n t]. intros (_ & Hn & Ht). cbn [Commitment Rounds TurnTimeoutS] in *.
  unfold debate_value. cbn [Commitment Rounds TurnTimeoutS]. pose proof (Int64_Itoa n ltac:(lia)) as En. pose proof (Int64_Itoa t ltac:(lia)) as Et.
  revert En Et. generalize (Itoa n) (Itoa t). intros sn st En Et.
  assert (norm (VObject [(bytes_of "commitment", VString c); (bytes_of "rounds", VNumber sn); (bytes_of "turn_timeout_s", VNumber st)]) =
    VObject [(bytes_of "commitment", VString c); (bytes_of "rounds", VNumber sn); (bytes_of "turn_timeout_s", VNumber st)]) as -> by (vm_compute; reflexivity).
  cbn [decodeDebate]. match goal with |- context [only_members ?a ?b ?c] => change (only_members a b c) with (Ok tt : checked unit) end.
  cbn [rbind]. unfold required_text, decodeInt, field. cbn [member]. known_keys_step. cbn [rbind]. by rewrite En, Et.
Qed.

(** Which member of the canonical object each decoder reads. *)
Lemma member_value {A} k n (f : A → value) o : member k (opt_value n f o) =
  if bool_decide (bytes_of n = k) then option_map f o else None.
Proof. unfold opt_value. destruct o; [done|]. by case_bool_decide. Qed.
Lemma member_context k o : member k (opt_context o) = if bool_decide (bytes_of "context" = k) then
  match o with Some ((_ :: _) as l) => Some (VArray (map file_value l)) | _ => None end else None.
Proof. unfold opt_context. destruct o as [[|]|]; [by case_bool_decide|done|by case_bool_decide]. Qed.
Lemma member_deadline k t : member k (opt_deadline t) = if bool_decide (bytes_of "deadline" = k) then
  if IsZero t then None else Some (VString (wireTime t)) else None.
Proof. unfold opt_deadline. destruct (IsZero t); [by case_bool_decide|done]. Qed.

Ltac request_member :=
  unfold request_value; rewrite !member_app; cbn [member]; known_keys_step;
  rewrite ?member_opt, ?member_value, ?member_context, ?member_deadline; known_keys_step.

Definition requestKeys : list bytes := map bytes_of
  ["v"; "id"; "from"; "to"; "team"; "type"; "title"; "brief"; "urgency"; "artifacts"; "created"; "urgency_declared";
   "urgency_reason"; "requested_grant"; "deadline"; "context"; "run"; "debate"]%string.

Lemma opt_value_keys {A} k (f : A → value) o : map fst (opt_value k f o) `sublist_of` [bytes_of k].
Proof. unfold opt_value. destruct o; cbn; [done|constructor; constructor]. Qed.
Lemma opt_context_keys o : map fst (opt_context o) `sublist_of` [bytes_of "context"].
Proof. unfold opt_context. destruct o as [[|]|]; cbn; [constructor; constructor|done|constructor; constructor]. Qed.
Lemma opt_deadline_keys t : map fst (opt_deadline t) `sublist_of` [bytes_of "deadline"].
Proof. unfold opt_deadline. destruct (IsZero t); cbn; [constructor; constructor|done]. Qed.

Lemma request_value_keys r : map fst (request_value r) `sublist_of` requestKeys.
Proof.
  unfold request_value. rewrite !map_app.
  change requestKeys with (map bytes_of ["v"; "id"; "from"; "to"; "team"; "type"; "title"; "brief"; "urgency"; "artifacts"; "created"]%string ++
    [bytes_of "urgency_declared"] ++ [bytes_of "urgency_reason"] ++ [bytes_of "requested_grant"] ++ [bytes_of "deadline"] ++
    [bytes_of "context"] ++ [bytes_of "run"] ++ [bytes_of "debate"]).
  repeat apply sublist_app; eauto using opt_member_keys, opt_value_keys, opt_context_keys, opt_deadline_keys.
Qed.

Lemma wireTime_valid t : in_years t → valid_utf8 (wireTime t) = true.
Proof.
  intros Ht. unfold wireTime. pose proof (format_digits (t / second) Ht) as Hf.
  pose proof (civil_year _ Ht) as Hy. pose proof (civil_valid (t / second / 86400)) as Hv.
  destruct (civil_of_days (t / second / 86400)) as [[y m] d]. destruct Hv as (Hm & Hd & _). cbv zeta in Hf. rewrite Hf.
  assert (1 ≤ d ≤ 31) by (unfold daysIn in Hd; repeat case_match; lia).
  apply (chars_valid (in_range 0 0x7F)); [intros c; rewrite in_range_spec; lia|].
  assert (∀ n, 0 ≤ n < 100 → forallb (in_range 0 0x7F) (digits2 n) = true) as H2.
  { intros n Hn. unfold digits2, digit. cbn [forallb]. rewrite !(proj2 (in_range_spec _ _ _)) by zdivmod. done. }
  assert (forallb (in_range 0 0x7F) (digits4 y) = true) as H4 by (unfold digits4; rewrite forallb_app, !H2 by zdivmod; done).
  repeat (rewrite ?forallb_app; cbn [forallb]). rewrite H4, !H2 by zdivmod. done.
Qed.

(** The times of a request that the wire format can carry. *)
Definition wire_times (r : Request) : Prop :=
  (in_years (Created r) ∧ Created r mod second = 0) ∧
  (Deadline r ≠ zeroTime → in_years (Deadline r) ∧ Deadline r mod second = 0).

Lemma wf_file f : file_texts f → wf (file_value f) = true.
Proof.
  intros [Hn Ht]. apply (known_keys (map bytes_of ["name"; "text"]%string)); [done|by vm_compute..|].
  cbn [forallb snd wf]. by rewrite Hn, Ht.
Qed.
Lemma wf_grant g : grant_texts g → wf (grant_value g) = true.
Proof.
  intros (Ha & Hr & Hn). apply (known_keys (map bytes_of ["action"; "resource"; "note"]%string)); [|by vm_compute..|].
  - cbn [map fst]. do 2 constructor. apply opt_member_keys.
  - cbn [forallb snd wf]. by rewrite Ha, Hr, wf_opt_member.
Qed.
Lemma wf_debate d : debate_texts d → wf (debate_value d) = true.
Proof.
  intros (Hc & _). apply (known_keys (map bytes_of ["commitment"; "rounds"; "turn_timeout_s"]%string)); [done|by vm_compute..|].
  cbn [forallb snd wf]. by rewrite Hc.
Qed.
Lemma wf_opt_value {A} k (f : A → value) o : (∀ a, o = Some a → wf (f a) = true) → forallb (λ p, wf p.2) (opt_value k f o) = true.
Proof. unfold opt_value. destruct o as [a|]; [|done]. intros H. cbn [forallb snd]. by rewrite H. Qed.

Lemma wf_request r : request_texts r → wire_times r → wf (VObject (request_value r)) = true.
Proof.
  intros [Hv (Hi & Hf & Ht & Hteam) (Hty & Hti & Hb) (Hu & Hud & Hur) Ha Hg Hc Hr Hd] [[Hcy _] Hdl].
  apply (known_keys requestKeys); [apply request_value_keys|by vm_compute..|].
  unfold request_value. rewrite !forallb_app, !wf_opt_member by done.
  rewrite wf_opt_value by (intros g ?; by apply wf_grant, Hg).
  rewrite wf_opt_value. 2: { intros c ?. apply (known_keys [bytes_of "command"]); [done|by vm_compute..|]. cbn [forallb snd wf]. by rewrite Hr. }
  rewrite wf_opt_value by (intros d ?; by apply wf_debate, Hd).
  assert (forallb (λ p, wf p.2) (opt_deadline (Deadline r)) = true) as ->.
  { unfold opt_deadline. destruct (IsZero (Deadline r)) eqn:E; [done|]. cbn [forallb snd wf]. rewrite wireTime_valid; [done|].
    apply Hdl. unfold IsZero in E. by bprop. }
  assert (forallb (λ p, wf p.2) (opt_context (Context r)) = true) as ->.
  { unfold opt_context. destruct (Context r) as [[|f l]|] eqn:E; [done| |done]. cbn [forallb snd]. rewrite andb_true_r. apply wf_array.
    intros x (y & -> & Hy)%elem_of_map_list. apply wf_file. destruct (Hc _ eq_refl) as [_ Hl]. rewrite Forall_forall in Hl. by apply Hl. }
  cbn [forallb snd]. rewrite wf_artifacts by done. cbn [wf]. rewrite Hi, Hf, Ht, Hteam, Hty, Hti, Hb, Hu, wireTime_valid by done. done.
Qed.

Lemma canonical_strings m : (∀ p, p ∈ m → ∃ s, p.2 = VString s) → value_ok ([], VObject m).
Proof. apply canonical_strings_ok. Qed.

Lemma opt_value_ok {A} k (f : A → value) o p : (∀ a, o = Some a → ∃ b, canonicalize (f a) = Ok b) → p ∈ opt_value k f o → value_ok p.
Proof.
  unfold opt_value. intros H Hp. destruct o as [a|]; [|by apply elem_of_nil in Hp]. apply list_elem_of_singleton in Hp as ->. by apply H.
Qed.

Lemma Canonical_ok r : request_texts r → ∃ b, Canonical r = Ok b.
Proof.
  intros Hr. unfold Canonical, canonicalMap, CanonicalValue.
  destruct (canonical_object_ok (request_value r)) as [b ->]; [|by eexists].
  intros p Hp. change (value_ok p). unfold request_value in Hp.
  apply elem_of_app in Hp as [Hp|Hp].
  { repeat (apply elem_of_cons in Hp as [->|Hp]; [try (by eexists)|]); [|by apply elem_of_nil in Hp].
    apply canonical_array_ok. intros x (a & -> & _)%elem_of_map_list. apply canonical_artifact_ok. }
  apply elem_of_app in Hp as [Hp|Hp]; [by eapply opt_member_ok|]. apply elem_of_app in Hp as [Hp|Hp]; [by eapply opt_member_ok|].
  apply elem_of_app in Hp as [Hp|Hp].
  { eapply opt_value_ok; [|exact Hp]. intros g _. apply canonical_strings_ok. intros q Hq.
    do 2 (apply elem_of_cons in Hq as [->|Hq]; [by eexists|]). by eapply opt_member_strings. }
  apply elem_of_app in Hp as [Hp|Hp].
  { unfold opt_deadline in Hp. destruct (IsZero _); [by apply elem_of_nil in Hp|]. apply list_elem_of_singleton in Hp as ->. by eexists. }
  apply elem_of_app in Hp as [Hp|Hp].
  { unfold opt_context in Hp. destruct (Context r) as [[|f l]|]; try by apply elem_of_nil in Hp.
    apply list_elem_of_singleton in Hp as ->. apply canonical_array_ok. intros x (y & -> & _)%elem_of_map_list.
    apply canonical_strings_ok. intros q Hq. repeat (apply elem_of_cons in Hq as [->|Hq]; [by eexists|]). by apply elem_of_nil in Hq. }
  apply elem_of_app in Hp as [Hp|Hp].
  { eapply opt_value_ok; [|exact Hp]. intros c _. apply canonical_strings_ok. intros q ->%list_elem_of_singleton. by eexists. }
  eapply opt_value_ok; [|exact Hp]. intros d Hd. pose proof (rt_debate r Hr d Hd) as (_ & Hn & Ht). apply canonical_object_ok. intros q Hq.
  repeat (apply elem_of_cons in Hq as [->|Hq]; [first [by eexists|apply canonical_number_ok; unfold maxSafeInt; lia]|]). by apply elem_of_nil in Hq.
Qed.

Lemma decodeString_reads b f s (opt : bool) (v : option value) : member f b = option_map norm v →
  v = match s with [] => if opt then None else Some (VString s) | _ => Some (VString s) end → decodeString b f opt = Ok s.
Proof. intros Hm ->. unfold decodeString. rewrite Hm. destruct s, opt; done. Qed.

Lemma when_present_reads {A} k b (f : value → checked A) (g : A → value) o : member (bytes_of k) b = option_map norm (option_map g o) →
  (∀ a, o = Some a → f (norm (g a)) = Ok a) → when_present k b f = Ok o.
Proof. intros Hm Hf. unfold when_present. rewrite Hm. destruct o as [a|]; [|done]. cbn [option_map]. by rewrite Hf. Qed.

Lemma decode_fields_reads r m : request_texts r → wire_times r →
  (∀ k, member k m = option_map norm (member k (request_value r))) → decode_fields m = Ok r.
Proof.
  intros Hr [[Hcy Hcs] Hdl] Hm. pose proof Hr as [Hv _ _ _ _ _ Hc _ Hd].
  unfold decode_fields.
  assert (decodeInt m (field "v") = Ok (V r)) as ->.
  { unfold decodeInt, field. rewrite Hm. request_member. cbn [option_map norm]. by rewrite Hv. }
  cbn [rbind].
  assert (∀ k s, member (bytes_of k) (request_value r) = Some (VString s) → decodeString m (bytes_of k) false = Ok s) as Hstr.
  { intros k s Hk. apply (decodeString_reads _ _ _ _ _ (Hm _)). rewrite Hk. by destruct s. }
  rewrite (Hstr "id"%string (ID r)), (Hstr "from"%string (From r)), (Hstr "to"%string (To r)), (Hstr "team"%string (Team r)),
    (Hstr "type"%string (Type_ r)), (Hstr "title"%string (Title r)), (Hstr "brief"%string (Brief r)), (Hstr "urgency"%string (Urgency r))
    by (request_member; reflexivity).
  cbn [rbind].
  rewrite (decodeString_reads m (field "urgency_declared") (UrgencyDeclared r) true _ (Hm _)).
  2: { unfold field. request_member. by destruct (UrgencyDeclared r), (Grant r), (IsZero (Deadline r)), (Context r) as [[]|], (Run r), (Debate r). }
  cbn [rbind]. rewrite (decodeString_reads m (field "urgency_reason") (UrgencyReason r) true _ (Hm _)).
  2: { unfold field. request_member. by destruct (UrgencyReason r). }
  cbn [rbind].
  assert (decodeArtifactsAt (field "artifacts") (member (bytes_of "artifacts") m) = Ok (ReqArtifacts r)) as ->.
  { rewrite Hm. request_member. cbn [option_map norm decodeArtifactsAt]. apply decode_norm_artifacts. }
  cbn [rbind]. rewrite (when_present_reads "requested_grant" m decodeGrant grant_value (Grant r)).
  2: { rewrite Hm. f_equal. request_member. by destruct (Grant r). } 2: { intros; apply decode_norm_grant. }
  cbn [rbind].
  assert (when_present "deadline" m (λ raw, decode_time (field "deadline") (Some raw)) = Ok (if IsZero (Deadline r) then None else Some (Deadline r))) as ->.
  { apply (when_present_reads _ _ _ (λ t, VString (wireTime t))).
    - rewrite Hm. f_equal. request_member. by destruct (IsZero (Deadline r)).
    - intros t Ht. destruct (IsZero (Deadline r)) eqn:E; [done|]. injection Ht as <-. unfold IsZero in E. bprop. destruct (Hdl E) as [Hy Hs].
      unfold decode_time. cbn [norm]. rewrite decode_wireTime by done. f_equal. unfold second in *. zdivmod. }
  cbn [rbind]. rewrite (when_present_reads "context" m decodeContext (λ l, VArray (map file_value l)) (Context r)).
  2: { rewrite Hm. f_equal. request_member. destruct (Context r) as [[|f l]|] eqn:E; try done. by destruct (Hc _ eq_refl). }
  2: { intros l _. cbn [norm decodeContext]. apply decode_norm_files. }
  cbn [rbind]. rewrite (when_present_reads "run" m decodeRun (λ c, VObject [(bytes_of "command", VString c)]) (Run r)).
  2: { rewrite Hm. f_equal. request_member. by destruct (Run r). } 2: { intros; apply decode_norm_run. }
  cbn [rbind]. rewrite (when_present_reads "debate" m decodeDebate debate_value (Debate r)).
  2: { rewrite Hm. f_equal. request_member. by destruct (Debate r). } 2: { intros d Hd'. by apply decode_norm_debate, Hd. }
  cbn [rbind]. assert (decode_time (field "created") (member (bytes_of "created") m) = Ok (Created r)) as ->.
  { rewrite Hm. request_member. unfold decode_time. cbn [option_map norm]. rewrite decode_wireTime by done. f_equal. unfold second in *. zdivmod. }
  cbn [rbind]. f_equal. destruct r; cbn in *. destruct (IsZero Deadline0) eqn:E; [|done]. unfold IsZero in E. bprop. by subst.
Qed.

Lemma require_reads r m : (∀ k, member k m = option_map norm (member k (request_value r))) → require_members m = Ok tt.
Proof.
  intros Hm. unfold require_members. destruct (List.find _ requiredMembers) as [k|] eqn:E; [|done]. exfalso.
  apply List.find_some in E as [Hk Hn]. apply bool_decide_eq_true in Hn. rewrite Hm in Hn.
  rewrite <- list_elem_of_In in Hk. unfold requiredMembers in Hk. cbn [map] in Hk.
  repeat (apply elem_of_cons in Hk as [->|Hk]; [revert Hn; request_member; done|]). by apply elem_of_nil in Hk.
Qed.

Lemma members_request r : check_members (request_value r) allowedMembers [] = Ok tt.
Proof.
  unfold check_members. destruct (List.find _ _) as [q|] eqn:E; [|done]. exfalso.
  apply List.find_some in E as [Hin Hq]. apply negb_true_iff, bool_decide_eq_false in Hq. apply Hq.
  assert (q.1 ∈ requestKeys) as Hk.
  { eapply elem_of_sublist; [|apply request_value_keys]. apply elem_of_map_list. exists q. split; [done|]. by apply list_elem_of_In. }
  revert Hk. generalize q.1. intros k Hk. unfold requestKeys in Hk. cbn [map] in Hk.
  apply (bool_decide_unpack _). repeat (apply elem_of_cons in Hk as [->|Hk]; [vm_compute; exact I|]). by apply elem_of_nil in Hk.
Qed.

Lemma Decode_reads r m : Validate r = Ok tt → wire_times r → check_members m allowedMembers [] = Ok tt →
  (∀ k, member k m = option_map norm (member k (request_value r))) → Decode m = Ok r.
Proof.
  intros Hv Ht Hc Hm. unfold Decode. rewrite Hc. cbn [rbind]. rewrite (require_reads r) by done. cbn [rbind].
  rewrite (decode_fields_reads r) by (done || by apply Validate_ok). cbn [rbind]. by rewrite Hv.
Qed.

(** The two encoders, member by member. *)
Lemma if_empty k s : (if bool_decide (s = []) then [] else [(bytes_of k, VString s)]) = opt_member k s.
Proof. unfold opt_member. by destruct s. Qed.
Lemma artifactsWire_value l : artifactsWire l = VArray (artifactsToValue l).
Proof.
  unfold artifactsWire, artifactsToValue. f_equal. apply map_ext. intros a. unfold artifactWire, artifact_value. by rewrite !if_empty, <- !app_assoc.
Qed.
Lemma wire_object_value r : V r = 1 → wire_object r = request_value r.
Proof.
  intros Hv. unfold wire_object, request_value, grant_value, opt_context. rewrite Hv, artifactsWire_value, !if_empty, <- !app_assoc.
  destruct (Grant r), (Context r) as [[|]|], (Run r), (Debate r); cbn [opt_value]; unfold grant_value; rewrite ?if_empty; reflexivity.
Qed.
Lemma wire_parses r b : wf (VObject (request_value r)) = true → V r = 1 → Canonical r = Ok b →
  ∃ w m, canonicalMap (WireBody r) = Ok w ∧ parse_object w = Ok [(bytes_of "request", VObject m)] ∧ norm (VObject (request_value r)) = VObject m.
Proof.
  intros Hw Hv Hb. unfold WireBody. rewrite (wire_object_value r Hv). set (body := [(bytes_of "request", VObject (request_value r))]).
  assert (∃ m, norm (VObject (request_value r)) = VObject m) as [m Em] by (cbn [norm]; by eexists).
  assert (∃ w, canonicalMap body = Ok w) as [w Ew].
  { unfold Canonical, canonicalMap in Hb. destruct (CanonicalValue (VObject (request_value r))) as [c|] eqn:Ec; [|done].
    unfold canonicalMap, CanonicalValue. destruct (canonical_object_ok body) as [w ->]; [|by exists w].
    intros p Hp. apply list_elem_of_singleton in Hp as ->. by exists c. }
  assert (wf (VObject body) = true) as Hwb.
  { apply (known_keys [bytes_of "request"]); [done|by vm_compute..|]. cbn [forallb snd body]. by rewrite Hw. }
  destruct (canonical_members _ _ Hwb Ew) as (m' & Hp & _ & _ & Hn & _). exists w, m. split_and!; [done| |done]. rewrite Hp. f_equal.
  assert (norm (VObject body) = VObject [(bytes_of "request", norm (VObject (request_value r)))]) as Hs by reflexivity. congruence.
Qed.

(** C37: every valid request has a canonical form, and both of its encodings
    give it back: the stored body (Canonical), and the body of its mail
    (WireBody), written as bytes and read by the recipient's strict parse. The
    request the recipient decodes from the mail has the canonical bytes of
    its sender's, so the body hash that makes a resend idempotent is the same
    on both sides. The times are whole seconds of the years 0 to 9999. *)
Theorem request_roundtrip r : Validate r = Ok tt → wire_times r →
  ∃ b, Canonical r = Ok b ∧ decodeStoredBody b = Ok r ∧
    ∃ w m, canonicalMap (WireBody r) = Ok w ∧ parse_object w = Ok [(bytes_of "request", VObject m)] ∧ Decode m = Ok r ∧ canonicalMap m = Ok b.
Proof.
  intros Hv Ht. pose proof (Validate_ok r Hv) as Hr. destruct (Canonical_ok r Hr) as [b Hb]. exists b.
  pose proof (wf_request r Hr Ht) as Hw. destruct (canonical_members _ _ Hw Hb) as (m & Hp & _ & Hk & Hn & Hm).
  assert (Decode m = Ok r) as Hd.
  { apply Decode_reads; [done..| |done]. eapply check_members_perm; [exact Hk|]. apply members_request. }
  destruct (wire_parses r b Hw (rt_v r Hr) Hb) as (w & m' & Ew & Hpw & Hn'). assert (m' = m) as -> by congruence.
  split_and!; [done|unfold decodeStoredBody; by rewrite Hp|]. exists w, m. split_and!; [done..|].
  rewrite <- Hb. unfold Canonical, canonicalMap, CanonicalValue. by rewrite <- Hn, canonicalize_norm.
Qed.

(** ** Instances *)

Definition demo_key (c : Z) : bytes := replicate 43 c.
Definition demo_request : Request :=
  MkRequest 1 (bytes_of "r-" ++ replicate 32 0x61) (demo_key 0x41) (demo_key 0x42) (bytes_of "t-" ++ replicate 32 0x30)
    TypeTask (bytes_of "Fix the build") (bytes_of "It fails on main.") UrgencyNormal [] []
    [MkArtifact [] (bytes_of "main") [] []] (Some (MkGrant (bytes_of "fs.read") (bytes_of "src") [])) zeroTime
    (1700000000 * second) None None None.

Lemma request_roundtrip_witness : ∃ b w m, Canonical demo_request = Ok b ∧ canonicalMap (WireBody demo_request) = Ok w ∧
  parse_object w = Ok [(bytes_of "request", VObject m)] ∧ Decode m = Ok demo_request.
Proof.
  destruct (request_roundtrip demo_request) as (b & Hb & _ & w & m & Hw & Hp & Hd & _).
  - vm_compute. reflexivity.
  - split; [split; [vm_compute; split; congruence|reflexivity]|intros H; exfalso; apply H; reflexivity].
  - exists b, w, m. split_and!; [exact Hb|exact Hw|exact Hp|exact Hd].
Defined.
