(* ===== verification/Tables.v ===== *)
(** * The tables of the coordination core and its transactions

    The rows of work_sessions (internal/worksession/store.go), requests and
    request_cancels (internal/request/view.go, cancel.go), the outbox as its
    submitters see it and experience_records, and a transaction over them: a
    function that returns a value and the new tables, or an error, after which
    the tables are what they were. A column that may be NULL is an option; an
    INTEGER is a Z; a column with a CHECK list is its own type. last_state and
    last_reply hold a {kind, body} object the daemon itself wrote: the pair.
    [X] stands for the tables of the packages behind the hooks (grants,
    debates, peers, teams). *)

From S2P Require Import Prelude Utf8 Canonical Strconv WireTime Body RequestObject.

Open Scope Z_scope.

(** ** Rows *)

Inductive role := Requester | Worker.
Inductive session_state := StateOpen | StateAwaitingResult | StateQuarantined | StateClosed.
Inductive outcome := OutcomeAccepted | OutcomeCancelled.
Inductive session_kind := KindWork | KindDebate.
Inductive cancel_mark := CancelRequested | CancelRefused.
Inductive direction := DirIn | DirOut.
Inductive request_state := Pending | Accepted | Declined | Deferred | Completed | Cancelled.
Inductive mail_state := MailQueued | MailRelayed | MailDelivered | MailExpired | MailFailed.

#[export] Instance role_eq_dec : EqDecision role.
Proof. solve_decision. Defined.
#[export] Instance session_state_eq_dec : EqDecision session_state.
Proof. solve_decision. Defined.
#[export] Instance outcome_eq_dec : EqDecision outcome.
Proof. solve_decision. Defined.
#[export] Instance session_kind_eq_dec : EqDecision session_kind.
Proof. solve_decision. Defined.
#[export] Instance cancel_mark_eq_dec : EqDecision cancel_mark.
Proof. solve_decision. Defined.
#[export] Instance direction_eq_dec : EqDecision direction.
Proof. solve_decision. Defined.
#[export] Instance request_state_eq_dec : EqDecision request_state.
Proof. solve_decision. Defined.
#[export] Instance mail_state_eq_dec : EqDecision mail_state.
Proof. solve_decision. Defined.

Definition role_text (r : role) : bytes := bytes_of match r with Requester => "requester" | Worker => "worker" end.
Definition state_text (s : session_state) : bytes :=
  bytes_of match s with
           | StateOpen => "open" | StateAwaitingResult => "awaiting_result"
           | StateQuarantined => "quarantined" | StateClosed => "closed"
           end.
Definition outcome_text (o : outcome) : bytes :=
  bytes_of match o with OutcomeAccepted => "accepted" | OutcomeCancelled => "cancelled" end.
Definition request_state_text (s : request_state) : bytes :=
  bytes_of match s with
           | Pending => "pending" | Accepted => "accepted" | Declined => "declined"
           | Deferred => "deferred" | Completed => "completed" | Cancelled => "cancelled"
           end.

(** One row of work_sessions (storedRow, and the column result_mail). *)
Record session := SessionRow {
  s_id : bytes;
  s_role : role;
  s_peer : bytes;
  s_requestID : bytes;
  s_teamID : bytes;
  s_state : session_state;
  s_outcome : option outcome;
  s_seq : Z;
  s_round : Z;
  s_result : option bytes;
  s_resultRound : option Z;
  s_resultMail : option bytes;
  s_verification : option verification;
  s_changes : option bytes;
  s_cancel : option cancel_mark;
  s_released : bool;
  s_lastState : option (bytes * body);
  s_lastStateSent : option bytes;
  s_opened : bytes;
  s_stateAt : bytes;
  s_closed : option bytes;
  s_updated : bytes;
  s_kind : session_kind;
  s_runner : bool;
}.

(** The columns an UPDATE of work_sessions sets. *)
Definition sset_state (v : session_state) (r : session) : session :=
  SessionRow (s_id r) (s_role r) (s_peer r) (s_requestID r) (s_teamID r) v (s_outcome r) (s_seq r) (s_round r) (s_result r) (s_resultRound r) (s_resultMail r) (s_verification r) (s_changes r) (s_cancel r) (s_released r) (s_lastState r) (s_lastStateSent r) (s_opened r) (s_stateAt r) (s_closed r) (s_updated r) (s_kind r) (s_runner r).
Definition sset_outcome (v : option outcome) (r : session) : session :=
  SessionRow (s_id r) (s_role r) (s_peer r) (s_requestID r) (s_teamID r) (s_state r) v (s_seq r) (s_round r) (s_result r) (s_resultRound r) (s_resultMail r) (s_verification r) (s_changes r) (s_cancel r) (s_released r) (s_lastState r) (s_lastStateSent r) (s_opened r) (s_stateAt r) (s_closed r) (s_updated r) (s_kind r) (s_runner r).
Definition sset_seq (v : Z) (r : session) : session :=
  SessionRow (s_id r) (s_role r) (s_peer r) (s_requestID r) (s_teamID r) (s_state r) (s_outcome r) v (s_round r) (s_result r) (s_resultRound r) (s_resultMail r) (s_verification r) (s_changes r) (s_cancel r) (s_released r) (s_lastState r) (s_lastStateSent r) (s_opened r) (s_stateAt r) (s_closed r) (s_updated r) (s_kind r) (s_runner r).
Definition sset_round (v : Z) (r : session) : session :=
  SessionRow (s_id r) (s_role r) (s_peer r) (s_requestID r) (s_teamID r) (s_state r) (s_outcome r) (s_seq r) v (s_result r) (s_resultRound r) (s_resultMail r) (s_verification r) (s_changes r) (s_cancel r) (s_released r) (s_lastState r) (s_lastStateSent r) (s_opened r) (s_stateAt r) (s_closed r) (s_updated r) (s_kind r) (s_runner r).
Definition sset_result (v : option bytes) (r : session) : session :=
  SessionRow (s_id r) (s_role r) (s_peer r) (s_requestID r) (s_teamID r) (s_state r) (s_outcome r) (s_seq r) (s_round r) v (s_resultRound r) (s_resultMail r) (s_verification r) (s_changes r) (s_cancel r) (s_released r) (s_lastState r) (s_lastStateSent r) (s_opened r) (s_stateAt r) (s_closed r) (s_updated r) (s_kind r) (s_runner r).
Definition sset_resultRound (v : option Z) (r : session) : session :=
  SessionRow (s_id r) (s_role r) (s_peer r) (s_requestID r) (s_teamID r) (s_state r) (s_outcome r) (s_seq r) (s_round r) (s_result r) v (s_resultMail r) (s_verification r) (s_changes r) (s_cancel r) (s_released r) (s_lastState r) (s_lastStateSent r) (s_opened r) (s_stateAt r) (s_closed r) (s_updated r) (s_kind r) (s_runner r).
Definition sset_resultMail (v : option bytes) (r : session) : session :=
  SessionRow (s_id r) (s_role r) (s_peer r) (s_requestID r) (s_teamID r) (s_state r) (s_outcome r) (s_seq r) (s_round r) (s_result r) (s_resultRound r) v (s_verification r) (s_changes r) (s_cancel r) (s_released r) (s_lastState r) (s_lastStateSent r) (s_opened r) (s_stateAt r) (s_closed r) (s_updated r) (s_kind r) (s_runner r).
Definition sset_verification (v : option verification) (r : session) : session :=
  SessionRow (s_id r) (s_role r) (s_peer r) (s_requestID r) (s_teamID r) (s_state r) (s_outcome r) (s_seq r) (s_round r) (s_result r) (s_resultRound r) (s_resultMail r) v (s_changes r) (s_cancel r) (s_released r) (s_lastState r) (s_lastStateSent r) (s_opened r) (s_stateAt r) (s_closed r) (s_updated r) (s_kind r) (s_runner r).
Definition sset_changes (v : option bytes) (r : session) : session :=
  SessionRow (s_id r) (s_role r) (s_peer r) (s_requestID r) (s_teamID r) (s_state r) (s_outcome r) (s_seq r) (s_round r) (s_result r) (s_resultRound r) (s_resultMail r) (s_verification r) v (s_cancel r) (s_released r) (s_lastState r) (s_lastStateSent r) (s_opened r) (s_stateAt r) (s_closed r) (s_updated r) (s_kind r) (s_runner r).
Definition sset_cancel (v : option cancel_mark) (r : session) : session :=
  SessionRow (s_id r) (s_role r) (s_peer r) (s_requestID r) (s_teamID r) (s_state r) (s_outcome r) (s_seq r) (s_round r) (s_result r) (s_resultRound r) (s_resultMail r) (s_verification r) (s_changes r) v (s_released r) (s_lastState r) (s_lastStateSent r) (s_opened r) (s_stateAt r) (s_closed r) (s_updated r) (s_kind r) (s_runner r).
Definition sset_released (v : bool) (r : session) : session :=
  SessionRow (s_id r) (s_role r) (s_peer r) (s_requestID r) (s_teamID r) (s_state r) (s_outcome r) (s_seq r) (s_round r) (s_result r) (s_resultRound r) (s_resultMail r) (s_verification r) (s_changes r) (s_cancel r) v (s_lastState r) (s_lastStateSent r) (s_opened r) (s_stateAt r) (s_closed r) (s_updated r) (s_kind r) (s_runner r).
Definition sset_lastState (v : option (bytes * body)) (r : session) : session :=
  SessionRow (s_id r) (s_role r) (s_peer r) (s_requestID r) (s_teamID r) (s_state r) (s_outcome r) (s_seq r) (s_round r) (s_result r) (s_resultRound r) (s_resultMail r) (s_verification r) (s_changes r) (s_cancel r) (s_released r) v (s_lastStateSent r) (s_opened r) (s_stateAt r) (s_closed r) (s_updated r) (s_kind r) (s_runner r).
Definition sset_lastStateSent (v : option bytes) (r : session) : session :=
  SessionRow (s_id r) (s_role r) (s_peer r) (s_requestID r) (s_teamID r) (s_state r) (s_outcome r) (s_seq r) (s_round r) (s_result r) (s_resultRound r) (s_resultMail r) (s_verification r) (s_changes r) (s_cancel r) (s_released r) (s_lastState r) v (s_opened r) (s_stateAt r) (s_closed r) (s_updated r) (s_kind r) (s_runner r).
Definition sset_stateAt (v : bytes) (r : session) : session :=
  SessionRow (s_id r) (s_role r) (s_peer r) (s_requestID r) (s_teamID r) (s_state r) (s_outcome r) (s_seq r) (s_round r) (s_result r) (s_resultRound r) (s_resultMail r) (s_verification r) (s_changes r) (s_cancel r) (s_released r) (s_lastState r) (s_lastStateSent r) (s_opened r) v (s_closed r) (s_updated r) (s_kind r) (s_runner r).
Definition sset_closed (v : option bytes) (r : session) : session :=
  SessionRow (s_id r) (s_role r) (s_peer r) (s_requestID r) (s_teamID r) (s_state r) (s_outcome r) (s_seq r) (s_round r) (s_result r) (s_resultRound r) (s_resultMail r) (s_verification r) (s_changes r) (s_cancel r) (s_released r) (s_lastState r) (s_lastStateSent r) (s_opened r) (s_stateAt r) v (s_updated r) (s_kind r) (s_runner r).
Definition sset_updated (v : bytes) (r : session) : session :=
  SessionRow (s_id r) (s_role r) (s_peer r) (s_requestID r) (s_teamID r) (s_state r) (s_outcome r) (s_seq r) (s_round r) (s_result r) (s_resultRound r) (s_resultMail r) (s_verification r) (s_changes r) (s_cancel r) (s_released r) (s_lastState r) (s_lastStateSent r) (s_opened r) (s_stateAt r) (s_closed r) v (s_kind r) (s_runner r).
Definition sset_runner (v : bool) (r : session) : session :=
  SessionRow (s_id r) (s_role r) (s_peer r) (s_requestID r) (s_teamID r) (s_state r) (s_outcome r) (s_seq r) (s_round r) (s_result r) (s_resultRound r) (s_resultMail r) (s_verification r) (s_changes r) (s_cancel r) (s_released r) (s_lastState r) (s_lastStateSent r) (s_opened r) (s_stateAt r) (s_closed r) (s_updated r) (s_kind r) v.

(** One row of requests (storedRow, and the columns introducer and introduced_at). *)
Record request := RequestRow {
  q_direction : direction;
  q_peer : bytes;
  q_id : bytes;
  q_teamID : bytes;
  q_typ : bytes;
  q_urgency : bytes;
  q_urgencyDeclared : bytes;
  q_downgradedBy : option bytes;
  q_body : bytes;
  q_bodyHash : bytes;
  q_state : request_state;
  q_stateSeq : Z;
  q_stateAt : option bytes;
  q_deferredUntil : option bytes;
  q_declineCode : option bytes;
  q_reason : option bytes;
  q_note : option bytes;
  q_firstResponse : option bytes;
  q_firstResponseAt : option bytes;
  q_created : bytes;
  q_receivedAt : option bytes;
  q_mailID : bytes;
  q_lastReply : option (bytes * body);
  q_lastReplySent : option bytes;
  q_idemKey : option bytes;
  q_paramsHash : option bytes;
  q_cancel : option cancel_mark;
  q_cancelAt : option bytes;
  q_cancelMailID : option bytes;
  q_result : option bytes;
  q_updated : bytes;
  q_introducer : option bytes;
  q_introducedAt : option bytes;
}.

(** The columns an UPDATE of requests sets. *)
Definition qset_state (v : request_state) (r : request) : request :=
  RequestRow (q_direction r) (q_peer r) (q_id r) (q_teamID r) (q_typ r) (q_urgency r) (q_urgencyDeclared r) (q_downgradedBy r) (q_body r) (q_bodyHash r) v (q_stateSeq r) (q_stateAt r) (q_deferredUntil r) (q_declineCode r) (q_reason r) (q_note r) (q_firstResponse r) (q_firstResponseAt r) (q_created r) (q_receivedAt r) (q_mailID r) (q_lastReply r) (q_lastReplySent r) (q_idemKey r) (q_paramsHash r) (q_cancel r) (q_cancelAt r) (q_cancelMailID r) (q_result r) (q_updated r) (q_introducer r) (q_introducedAt r).
Definition qset_stateSeq (v : Z) (r : request) : request :=
  RequestRow (q_direction r) (q_peer r) (q_id r) (q_teamID r) (q_typ r) (q_urgency r) (q_urgencyDeclared r) (q_downgradedBy r) (q_body r) (q_bodyHash r) (q_state r) v (q_stateAt r) (q_deferredUntil r) (q_declineCode r) (q_reason r) (q_note r) (q_firstResponse r) (q_firstResponseAt r) (q_created r) (q_receivedAt r) (q_mailID r) (q_lastReply r) (q_lastReplySent r) (q_idemKey r) (q_paramsHash r) (q_cancel r) (q_cancelAt r) (q_cancelMailID r) (q_result r) (q_updated r) (q_introducer r) (q_introducedAt r).
Definition qset_stateAt (v : option bytes) (r : request) : request :=
  RequestRow (q_direction r) (q_peer r) (q_id r) (q_teamID r) (q_typ r) (q_urgency r) (q_urgencyDeclared r) (q_downgradedBy r) (q_body r) (q_bodyHash r) (q_state r) (q_stateSeq r) v (q_deferredUntil r) (q_declineCode r) (q_reason r) (q_note r) (q_firstResponse r) (q_firstResponseAt r) (q_created r) (q_receivedAt r) (q_mailID r) (q_lastReply r) (q_lastReplySent r) (q_idemKey r) (q_paramsHash r) (q_cancel r) (q_cancelAt r) (q_cancelMailID r) (q_result r) (q_updated r) (q_introducer r) (q_introducedAt r).
Definition qset_deferredUntil (v : option bytes) (r : request) : request :=
  RequestRow (q_direction r) (q_peer r) (q_id r) (q_teamID r) (q_typ r) (q_urgency r) (q_urgencyDeclared r) (q_downgradedBy r) (q_body r) (q_bodyHash r) (q_state r) (q_stateSeq r) (q_stateAt r) v (q_declineCode r) (q_reason r) (q_note r) (q_firstResponse r) (q_firstResponseAt r) (q_created r) (q_receivedAt r) (q_mailID r) (q_lastReply r) (q_lastReplySent r) (q_idemKey r) (q_paramsHash r) (q_cancel r) (q_cancelAt r) (q_cancelMailID r) (q_result r) (q_updated r) (q_introducer r) (q_introducedAt r).
Definition qset_declineCode (v : option bytes) (r : request) : request :=
  RequestRow (q_direction r) (q_peer r) (q_id r) (q_teamID r) (q_typ r) (q_urgency r) (q_urgencyDeclared r) (q_downgradedBy r) (q_body r) (q_bodyHash r) (q_state r) (q_stateSeq r) (q_stateAt r) (q_deferredUntil r) v (q_reason r) (q_note r) (q_firstResponse r) (q_firstResponseAt r) (q_created r) (q_receivedAt r) (q_mailID r) (q_lastReply r) (q_lastReplySent r) (q_idemKey r) (q_paramsHash r) (q_cancel r) (q_cancelAt r) (q_cancelMailID r) (q_result r) (q_updated r) (q_introducer r) (q_introducedAt r).
Definition qset_reason (v : option bytes) (r : request) : request :=
  RequestRow (q_direction r) (q_peer r) (q_id r) (q_teamID r) (q_typ r) (q_urgency r) (q_urgencyDeclared r) (q_downgradedBy r) (q_body r) (q_bodyHash r) (q_state r) (q_stateSeq r) (q_stateAt r) (q_deferredUntil r) (q_declineCode r) v (q_note r) (q_firstResponse r) (q_firstResponseAt r) (q_created r) (q_receivedAt r) (q_mailID r) (q_lastReply r) (q_lastReplySent r) (q_idemKey r) (q_paramsHash r) (q_cancel r) (q_cancelAt r) (q_cancelMailID r) (q_result r) (q_updated r) (q_introducer r) (q_introducedAt r).
Definition qset_note (v : option bytes) (r : request) : request :=
  RequestRow (q_direction r) (q_peer r) (q_id r) (q_teamID r) (q_typ r) (q_urgency r) (q_urgencyDeclared r) (q_downgradedBy r) (q_body r) (q_bodyHash r) (q_state r) (q_stateSeq r) (q_stateAt r) (q_deferredUntil r) (q_declineCode r) (q_reason r) v (q_firstResponse r) (q_firstResponseAt r) (q_created r) (q_receivedAt r) (q_mailID r) (q_lastReply r) (q_lastReplySent r) (q_idemKey r) (q_paramsHash r) (q_cancel r) (q_cancelAt r) (q_cancelMailID r) (q_result r) (q_updated r) (q_introducer r) (q_introducedAt r).
Definition qset_firstResponse (v : option bytes) (r : request) : request :=
  RequestRow (q_direction r) (q_peer r) (q_id r) (q_teamID r) (q_typ r) (q_urgency r) (q_urgencyDeclared r) (q_downgradedBy r) (q_body r) (q_bodyHash r) (q_state r) (q_stateSeq r) (q_stateAt r) (q_deferredUntil r) (q_declineCode r) (q_reason r) (q_note r) v (q_firstResponseAt r) (q_created r) (q_receivedAt r) (q_mailID r) (q_lastReply r) (q_lastReplySent r) (q_idemKey r) (q_paramsHash r) (q_cancel r) (q_cancelAt r) (q_cancelMailID r) (q_result r) (q_updated r) (q_introducer r) (q_introducedAt r).
Definition qset_firstResponseAt (v : option bytes) (r : request) : request :=
  RequestRow (q_direction r) (q_peer r) (q_id r) (q_teamID r) (q_typ r) (q_urgency r) (q_urgencyDeclared r) (q_downgradedBy r) (q_body r) (q_bodyHash r) (q_state r) (q_stateSeq r) (q_stateAt r) (q_deferredUntil r) (q_declineCode r) (q_reason r) (q_note r) (q_firstResponse r) v (q_created r) (q_receivedAt r) (q_mailID r) (q_lastReply r) (q_lastReplySent r) (q_idemKey r) (q_paramsHash r) (q_cancel r) (q_cancelAt r) (q_cancelMailID r) (q_result r) (q_updated r) (q_introducer r) (q_introducedAt r).
Definition qset_mailID (v : bytes) (r : request) : request :=
  RequestRow (q_direction r) (q_peer r) (q_id r) (q_teamID r) (q_typ r) (q_urgency r) (q_urgencyDeclared r) (q_downgradedBy r) (q_body r) (q_bodyHash r) (q_state r) (q_stateSeq r) (q_stateAt r) (q_deferredUntil r) (q_declineCode r) (q_reason r) (q_note r) (q_firstResponse r) (q_firstResponseAt r) (q_created r) (q_receivedAt r) v (q_lastReply r) (q_lastReplySent r) (q_idemKey r) (q_paramsHash r) (q_cancel r) (q_cancelAt r) (q_cancelMailID r) (q_result r) (q_updated r) (q_introducer r) (q_introducedAt r).
Definition qset_lastReply (v : option (bytes * body)) (r : request) : request :=
  RequestRow (q_direction r) (q_peer r) (q_id r) (q_teamID r) (q_typ r) (q_urgency r) (q_urgencyDeclared r) (q_downgradedBy r) (q_body r) (q_bodyHash r) (q_state r) (q_stateSeq r) (q_stateAt r) (q_deferredUntil r) (q_declineCode r) (q_reason r) (q_note r) (q_firstResponse r) (q_firstResponseAt r) (q_created r) (q_receivedAt r) (q_mailID r) v (q_lastReplySent r) (q_idemKey r) (q_paramsHash r) (q_cancel r) (q_cancelAt r) (q_cancelMailID r) (q_result r) (q_updated r) (q_introducer r) (q_introducedAt r).
Definition qset_lastReplySent (v : option bytes) (r : request) : request :=
  RequestRow (q_direction r) (q_peer r) (q_id r) (q_teamID r) (q_typ r) (q_urgency r) (q_urgencyDeclared r) (q_downgradedBy r) (q_body r) (q_bodyHash r) (q_state r) (q_stateSeq r) (q_stateAt r) (q_deferredUntil r) (q_declineCode r) (q_reason r) (q_note r) (q_firstResponse r) (q_firstResponseAt r) (q_created r) (q_receivedAt r) (q_mailID r) (q_lastReply r) v (q_idemKey r) (q_paramsHash r) (q_cancel r) (q_cancelAt r) (q_cancelMailID r) (q_result r) (q_updated r) (q_introducer r) (q_introducedAt r).
Definition qset_cancel (v : option cancel_mark) (r : request) : request :=
  RequestRow (q_direction r) (q_peer r) (q_id r) (q_teamID r) (q_typ r) (q_urgency r) (q_urgencyDeclared r) (q_downgradedBy r) (q_body r) (q_bodyHash r) (q_state r) (q_stateSeq r) (q_stateAt r) (q_deferredUntil r) (q_declineCode r) (q_reason r) (q_note r) (q_firstResponse r) (q_firstResponseAt r) (q_created r) (q_receivedAt r) (q_mailID r) (q_lastReply r) (q_lastReplySent r) (q_idemKey r) (q_paramsHash r) v (q_cancelAt r) (q_cancelMailID r) (q_result r) (q_updated r) (q_introducer r) (q_introducedAt r).
Definition qset_cancelAt (v : option bytes) (r : request) : request :=
  RequestRow (q_direction r) (q_peer r) (q_id r) (q_teamID r) (q_typ r) (q_urgency r) (q_urgencyDeclared r) (q_downgradedBy r) (q_body r) (q_bodyHash r) (q_state r) (q_stateSeq r) (q_stateAt r) (q_deferredUntil r) (q_declineCode r) (q_reason r) (q_note r) (q_firstResponse r) (q_firstResponseAt r) (q_created r) (q_receivedAt r) (q_mailID r) (q_lastReply r) (q_lastReplySent r) (q_idemKey r) (q_paramsHash r) (q_cancel r) v (q_cancelMailID r) (q_result r) (q_updated r) (q_introducer r) (q_introducedAt r).
Definition qset_cancelMailID (v : option bytes) (r : request) : request :=
  RequestRow (q_direction r) (q_peer r) (q_id r) (q_teamID r) (q_typ r) (q_urgency r) (q_urgencyDeclared r) (q_downgradedBy r) (q_body r) (q_bodyHash r) (q_state r) (q_stateSeq r) (q_stateAt r) (q_deferredUntil r) (q_declineCode r) (q_reason r) (q_note r) (q_firstResponse r) (q_firstResponseAt r) (q_created r) (q_receivedAt r) (q_mailID r) (q_lastReply r) (q_lastReplySent r) (q_idemKey r) (q_paramsHash r) (q_cancel r) (q_cancelAt r) v (q_result r) (q_updated r) (q_introducer r) (q_introducedAt r).
Definition qset_result (v : option bytes) (r : request) : request :=
  RequestRow (q_direction r) (q_peer r) (q_id r) (q_teamID r) (q_typ r) (q_urgency r) (q_urgencyDeclared r) (q_downgradedBy r) (q_body r) (q_bodyHash r) (q_state r) (q_stateSeq r) (q_stateAt r) (q_deferredUntil r) (q_declineCode r) (q_reason r) (q_note r) (q_firstResponse r) (q_firstResponseAt r) (q_created r) (q_receivedAt r) (q_mailID r) (q_lastReply r) (q_lastReplySent r) (q_idemKey r) (q_paramsHash r) (q_cancel r) (q_cancelAt r) (q_cancelMailID r) v (q_updated r) (q_introducer r) (q_introducedAt r).
Definition qset_updated (v : bytes) (r : request) : request :=
  RequestRow (q_direction r) (q_peer r) (q_id r) (q_teamID r) (q_typ r) (q_urgency r) (q_urgencyDeclared r) (q_downgradedBy r) (q_body r) (q_bodyHash r) (q_state r) (q_stateSeq r) (q_stateAt r) (q_deferredUntil r) (q_declineCode r) (q_reason r) (q_note r) (q_firstResponse r) (q_firstResponseAt r) (q_created r) (q_receivedAt r) (q_mailID r) (q_lastReply r) (q_lastReplySent r) (q_idemKey r) (q_paramsHash r) (q_cancel r) (q_cancelAt r) (q_cancelMailID r) (q_result r) v (q_introducer r) (q_introducedAt r).

(** One row of request_cancels, of the outbox and of experience_records. *)
Record tombstone := Tombstone { t_peer : bytes; t_id : bytes; t_reason : option bytes; t_receivedAt : bytes }.
Record mail := Mail {
  m_id : bytes; m_to : bytes; m_kind : bytes; m_body : body;
  m_state : mail_state; m_error : option bytes; m_created : bytes;
}.
Record experience := ExpRow { x_session : bytes; x_role : bytes; x_record : bytes; x_created : bytes }.

(** A received mail, opened and verified: internal/mail.Opened. *)
Record opened_mail := Opened_ { op_id : bytes; op_from : bytes; op_to : bytes; op_created : Z; op_body : body }.

(** What a call does after its commit, in order: audit rows, waking the
    outbox, the notification hooks. The rows of AppendTx, which commit with
    the transaction, are listed with them. *)
Inductive effect :=
| Wake
| Audit (actor action : bytes) (detail : body)
| OnClosed (sid : bytes)
| OnQuarantined (sid peer requestID : bytes)
| OnResult (sid peer requestID : bytes)
| OnChanges (sid peer requestID : bytes)
| Notify (event peer requestID : bytes)
| OnEvent (event sid peer requestID : bytes)
| External (code : Z).

Definition text (s : string) : value := VString (bytes_of s).
Definition num (n : Z) : value := VNumber (Itoa n).

Section Tables.
Context {X : Type}.

Record db := Db {
  sessions : list session;
  requests : list request;
  tombstones : list tombstone;
  outbox : list mail;
  experiences : list experience;
  ext : X;
}.

(** ** Transactions *)

Definition tx (A : Type) : Type := db → checked (A * db).

#[export] Instance tx_ret : MRet tx := λ A a d, Ok (a, d).
#[export] Instance tx_bind : MBind tx := λ A B k m d,
  match m d with Ok (a, d') => k a d' | Err e => Err e end.

Definition tx_err {A} (e : error) : tx A := λ _, Err e.
Definition tx_get {A} (f : db → A) : tx A := λ d, Ok (f d, d).
Definition tx_lift {A} (r : checked A) : tx A := λ d, match r with Ok a => Ok (a, d) | Err e => Err e end.
(** A lookup that finds no row is the error [e]. *)
Definition tx_found {A} (e : error) (f : db → option A) : tx A :=
  λ d, match f d with Some a => Ok (a, d) | None => Err e end.
(** The transaction's error, if it has one, as a value; its writes are kept
    only when it has none. *)
Definition tx_try {A} (m : tx A) : tx (checked A) :=
  λ d, match m d with Ok (a, d') => Ok (Ok a, d') | Err e => Ok (Err e, d) end.

Definition set_sessions (f : list session → list session) : tx unit :=
  λ d, Ok (tt, Db (f (sessions d)) (requests d) (tombstones d) (outbox d) (experiences d) (ext d)).
Definition set_requests (f : list request → list request) : tx unit :=
  λ d, Ok (tt, Db (sessions d) (f (requests d)) (tombstones d) (outbox d) (experiences d) (ext d)).
Definition set_tombstones (f : list tombstone → list tombstone) : tx unit :=
  λ d, Ok (tt, Db (sessions d) (requests d) (f (tombstones d)) (outbox d) (experiences d) (ext d)).
Definition set_outbox (f : list mail → list mail) : tx unit :=
  λ d, Ok (tt, Db (sessions d) (requests d) (tombstones d) (f (outbox d)) (experiences d) (ext d)).
Definition set_experiences (f : list experience → list experience) : tx unit :=
  λ d, Ok (tt, Db (sessions d) (requests d) (tombstones d) (outbox d) (f (experiences d)) (ext d)).
Definition set_ext (x : X) : tx unit :=
  λ d, Ok (tt, Db (sessions d) (requests d) (tombstones d) (outbox d) (experiences d) x).

(** UPDATE ... WHERE id = ?: the row of that primary key. *)
Definition update_where {A} (p : A → bool) (f : A → A) (l : list A) : list A := map (λ r, if p r then f r else r) l.
Definition update_session (id : bytes) (f : session → session) : tx unit :=
  set_sessions (update_where (λ r, bool_decide (s_id r = id)) f).
Definition is_request (dir : direction) (peer id : bytes) (r : request) : bool :=
  bool_decide (q_direction r = dir) && bool_decide (q_peer r = peer) && bool_decide (q_id r = id).
Definition update_request (dir : direction) (peer id : bytes) (f : request → request) : tx unit :=
  set_requests (update_where (is_request dir peer id) f).

(** ** A store call

    BeginTx, the transaction, Commit: an error rolls back. *)
Definition commit {A} (m : tx A) (d : db) : checked A * db :=
  match m d with Ok (a, d') => (Ok a, d') | Err e => (Err e, d) end.
End Tables.
Arguments db : clear implicits.
Arguments tx : clear implicits.

(** ** What the stores call

    The own key, SHA-256, the outbox's sealing of a mail (which gives its id
    or refuses it: unpaired, no mailbox key, too large), the hooks of
    worksession.Store and request.Store, and two of the database's answers:
    whether an audit row can be written inside a transaction, and whether a
    row can be read back after a commit. A hook that is None is not wired. *)

(** internal/debate.Store, as request.DebateHooks and worksession.DebateHooks. *)
Record DebateStore {X : Type} := {
  OpenedTx : role → bytes → bytes → bytes → Z → tx X unit;      (* role, peer, request, sid, now *)
  CancelTx : bytes → Z → tx X (option (list effect));           (* sid, now; None: no after func *)
  PeerCancelTx : bytes → Z → tx X (bool * list effect);
  EarlyCompleteTx : bytes → Z → tx X (list effect);
  AbandonTx : bytes → Z → tx X (list effect);
  ReceivedTx : Request → Z → tx X unit;
  EndedTx : direction → bytes → bytes → Z → tx X unit;          (* direction, peer, request *)
  HasDecisionTx : X → bytes → bytes → bytes → checked bool;     (* from, to, request *)
}.
Arguments DebateStore : clear implicits.

Class Env (X : Type) := {
  Self : bytes;
  digest : bytes → bytes;
  seal : db X → bytes → bytes → body → checked bytes;           (* to, kind, body: the mail's id *)
  Quarantine : option (X → bytes → bytes → Z → checked bool);   (* sid, peer, round *)
  RevokeGrants : option (X → bytes → Z → checked X);            (* sid, now *)
  Debates : option (DebateStore X);
  UnverifiedPeer : option (X → bytes → checked bool);           (* peer *)
  TeamActive : option (X → bytes → checked bool);               (* team *)
  TeamHasMembers : option (X → bytes → bytes → checked bool);   (* team, peer *)
  introduction_row : X → bytes → option (option bytes * option bytes);  (* introduced_by, paired_at of a peer *)
  grants_of : X → bytes → list (bytes * bool * bytes);          (* action, sensitive, state, by created *)
  audit_row : db X → bytes → body → checked unit;               (* action, detail: the INSERT of an audit row *)
  audit_soft : db X → bytes → body → checked bool;              (* through a savepoint: was the row written *)
  reread : db X → checked unit;                                 (* the SELECT of a row after a commit *)
}.

(** Outbox.SubmitTx: the mail is stored as queued in the caller's transaction. *)
Definition SubmitTx `{Env X} (to kind : bytes) (b : body) (now : Z) : tx X bytes :=
  d ← tx_get (λ d, d);
  id ← tx_lift (seal d to kind b);
  _ ← set_outbox (λ l, l ++ [Mail id to kind b MailQueued None (storeTime now)]);
  mret id.

(** audit.Log.AppendTx: an audit row in the caller's transaction, so no row
    means no commit. The row joins the effects when the transaction commits. *)
Definition AppendTx `{Env X} (actor action : bytes) (detail : body) : tx X effect :=
  d ← tx_get (λ d, d);
  _ ← tx_lift (audit_row d action detail);
  mret (Audit actor action detail).
(** AppendTxSoft: a row that cannot be written is left out; an error when the
    savepoint is lost. *)
Definition AppendTxSoft `{Env X} (actor action : bytes) (detail : body) : tx X (list effect) :=
  d ← tx_get (λ d, d);
  written ← tx_lift (audit_soft d action detail);
  mret (if (written : bool) then [Audit actor action detail] else []).
