(* ===== verification/Experience.v ===== *)
(** * Experience records (internal/experience/experience.go)

    The record a closed session leaves on each side: [value] builds it at a
    truncation level, [Build] takes the first level that fits, [WriteTx]
    inserts it under the primary key (session, role). *)

From S2P Require Import Prelude Utf8 Canonical Strconv WireTime Body Tables.

Open Scope Z_scope.

Definition KindWork_ : bytes := bytes_of "work".
Definition KindDebate_ : bytes := bytes_of "debate".
Definition MaxRecordBytes : Z := 65536.
Definition outcomeAccepted : bytes := bytes_of "accepted".
Definition outcomeAgreed : bytes := bytes_of "agreed".
Definition outcomeEscalated : bytes := bytes_of "escalated".
Definition outcomeCancelled : bytes := bytes_of "cancelled".
Definition verificationNone : bytes := bytes_of "none".

Record Grant := MkGrant { gAction : bytes; gSensitive : bool; gState : bytes }.

Record Input := MkInput {
  iSession : bytes; iRequest : bytes; iRole : bytes; iKind : bytes; iPeer : bytes; iTeam : bytes; iType : bytes;
  ProblemTitle : bytes; ProblemBrief : bytes;
  Grants : list Grant; iRounds : Z; Changes : bytes;
  InitiatorClaim : bytes; RespondentClaim : bytes; RoundsUsed : Z;
  WorkedStatus : bytes; WorkedSummary : bytes; WorkedDecision : bytes;
  RoundsRejected : Z; LastChanges : bytes; RemainingDisagreementPoints : Z; CancelledBy : bytes; Cause : bytes;
  iVerification : bytes; VerificationBy : bytes;
  Outcome : bytes; AgeS : Z; Decision : option (bytes * bytes);     (* id, hash *)
  Opened : Z; Closed : Z;
}.

Definition maxLevel : nat := 4.
Definition eq_text (a b : bytes) : bool := bool_decide (a = b).
Definition set_ (a : bytes) : bool := negb (bool_decide (a = [])).
Definition when (b : bool) (m : body) : body := if b then m else [].

Definition problem_value (i : Input) (level : nat) : value :=
  VObject (opt_member "title" (ProblemTitle i) ++ when (level <? 3)%nat (opt_member "brief" (ProblemBrief i))).

Definition grant_item (g : Grant) : value :=
  VObject [(bytes_of "action", VString (gAction g)); (bytes_of "sensitive", VBool (gSensitive g)); (bytes_of "state", VString (gState g))].

Definition approach_value (i : Input) (level : nat) : value :=
  if eq_text (iKind i) KindDebate_ then
    let positions := opt_member "initiator" (InitiatorClaim i) ++ opt_member "respondent" (RespondentClaim i) in
    VObject (when (bool_decide (positions ≠ [])) [(bytes_of "positions", VObject positions)] ++
             [(bytes_of "rounds_used", num (RoundsUsed i))])
  else
    VObject (when (negb (bool_decide (Grants i = [])) && (level <? 4)%nat) [(bytes_of "grants", VArray (map grant_item (Grants i)))] ++
             [(bytes_of "rounds", num (iRounds i))] ++
             when (level <? 1)%nat (opt_member "changes" (Changes i))).

Definition record_verification (i : Input) : bytes :=
  if bool_decide (iVerification i = []) || eq_text (Outcome i) outcomeCancelled then verificationNone else iVerification i.

Definition worked_value (i : Input) : body :=
  if eq_text (iKind i) KindWork_ && eq_text (Outcome i) outcomeAccepted && set_ (WorkedStatus i) then
    [(bytes_of "worked", VObject ([(bytes_of "status", VString (WorkedStatus i));
                                   (bytes_of "verification", VString (record_verification i))] ++
                                  opt_member "summary" (WorkedSummary i)))]
  else if eq_text (iKind i) KindDebate_ && eq_text (Outcome i) outcomeAgreed && set_ (WorkedDecision i) then
    [(bytes_of "worked", VObject [(bytes_of "decision", VString (WorkedDecision i))])]
  else [].

Definition failed_members (i : Input) (level : nat) : body :=
  if set_ (CancelledBy i) then (bytes_of "cancelled_by", VString (CancelledBy i)) :: opt_member "cause" (Cause i)
  else if eq_text (iKind i) KindDebate_ && eq_text (Outcome i) outcomeEscalated then
    [(bytes_of "remaining_disagreement_points", num (RemainingDisagreementPoints i))]
  else if eq_text (iKind i) KindWork_ && (0 <? RoundsRejected i) then
    (bytes_of "rounds_rejected", num (RoundsRejected i)) :: when (level <? 2)%nat (opt_member "last_changes" (LastChanges i))
  else [].
Definition failed_value (i : Input) (level : nat) : body :=
  match failed_members i level with [] => [] | m => [(bytes_of "failed", VObject m)] end.

Definition acceptance_value (i : Input) : value :=
  VObject ([(bytes_of "outcome", VString (Outcome i)); (bytes_of "age_s", num (AgeS i))] ++
    match Decision i with
    | Some (did, h) => [(bytes_of "decision", VObject [(bytes_of "id", VString did); (bytes_of "hash", VString h)])]
    | None => []
    end).

Definition value_at (i : Input) (level : nat) : body :=
  [(bytes_of "v", num 1); (bytes_of "session", VString (iSession i)); (bytes_of "request", VString (iRequest i));
   (bytes_of "role", VString (iRole i)); (bytes_of "kind", VString (iKind i)); (bytes_of "peer", VString (iPeer i));
   (bytes_of "type", VString (iType i))] ++
  opt_member "team" (iTeam i) ++
  [(bytes_of "problem", problem_value i level); (bytes_of "approach", approach_value i level)] ++
  worked_value i ++ failed_value i level ++
  [(bytes_of "verification", VString (record_verification i))] ++
  when (negb (eq_text (record_verification i) verificationNone)) (opt_member "verification_by" (VerificationBy i)) ++
  [(bytes_of "acceptance", acceptance_value i); (bytes_of "opened", VString (wireTime (Opened i)));
   (bytes_of "closed", VString (wireTime (Closed i)))] ++
  when (0 <? level)%nat [(bytes_of "truncated", VBool true)].

(** Build: the first level, from [level] on, whose canonical form fits. *)
Fixpoint build_from (i : Input) (level steps : nat) : checked (bytes * bool) :=
  match steps with
  | O => Err (TooLargeError MaxRecordBytes)
  | S steps =>
      match canonicalMap (value_at i level) with
      | Err e => Err e
      | Ok c => if Z.of_nat (length c) <=? MaxRecordBytes then Ok (c, (0 <? level)%nat)
                else build_from i (S level) steps
      end
  end.
Definition Build (i : Input) : checked (bytes * bool) := build_from i 0 (S maxLevel).

Section WriteTx.
Context {X : Type}.

Definition has_record (sid role : bytes) (d : db X) : bool :=
  existsb (λ x, bool_decide (x_session x = sid) && bool_decide (x_role x = role)) (experiences d).

Definition WriteTx (i : Input) (now : Z) : tx X (Z * bool) :=
  '(canon, truncated) ← tx_lift (Build i);
  dup ← tx_get (has_record (iSession i) (iRole i));
  if (dup : bool) then tx_err ErrUnique else
  _ ← set_experiences (λ l, l ++ [ExpRow (iSession i) (iRole i) canon (storeTime now)]);
  mret (Z.of_nat (length canon), truncated).
End WriteTx.
