(* ===== verification/Requests.v ===== *)
(** * The request life cycle (internal/request/lifecycle.go, mirror.go, cancel.go, session_hooks.go, view.go)

    On the recipient: accept, decline, defer, complete and the sender's
    cancel, each one transaction that moves the `in` row, stores the reply and
    queues it. On the sender: the mirror that applies the replies to the `out`
    row, cancel and resend. Work sessions are reached through the interface
    [SessionHooks] only. A call reads the clock once, as [now]. *)

From S2P Require Import Prelude Utf8 Canonical Strconv WireTime Body RequestObject Tables.

Open Scope Z_scope.

Definition KindAccept : bytes := bytes_of "request.accept".
Definition KindDecline : bytes := bytes_of "request.decline".
Definition KindDefer : bytes := bytes_of "request.defer".
Definition KindComplete : bytes := bytes_of "request.complete".
Definition KindCancelled : bytes := bytes_of "request.cancelled".
Definition KindCancel : bytes := bytes_of "request.cancel".
Definition KindRequest : bytes := bytes_of "request".
Definition emptyBody : bytes := bytes_of "{}".

Definition hour : Z := 3600 * second.
Definition maxDeferAhead : Z := 90 * 24 * hour.
Definition maxTombstones : Z := 1000.
Definition tombstoneMaxAge : Z := 31 * 24 * hour.
Definition resendMaxAge : Z := 21 * 24 * hour.
Definition resendThrottle : Z := hour / 6.

Definition cli : bytes := bytes_of "cli".
Definition daemon : bytes := bytes_of "daemon".

(** What SessionEarlyComplete decides about the content of a request.complete. *)
Record CompleteContent := MkContent {
  Override : bool; Note : bytes; ContentResult : option Result; Withhold : bool; AfterApplied : list effect;
}.

(** request.SessionHooks, the interface worksession.Store implements. Each
    call runs in the caller's transaction; the effects run after its commit.
    CompleteShorthand is a call of its own, None when no session exists. *)
Class SessionHooks (X : Type) := {
  OpenSession : bytes → role → bytes → bytes → bytes → Z → tx X (list effect);   (* actor role peer request team now *)
  EarlyComplete : bytes → bytes → bytes → option Result → Z → tx X (CompleteContent * list effect);
  CompleteShorthand : bytes → bytes → bytes → option Result → Z → db X → option (checked unit) * db X * list effect;
  SessionEndedTx : bytes → bytes → Z → tx X (list effect);
  MarkRunnerTx : bytes → bytes → tx X unit;
}.

(** The outcome of a receiver's Apply: whether the inbox copy is withheld, and
    what runs after the commit. *)
Record applied := Applied { ap_withhold : bool; ap_after : list effect }.

Record View := MkView {
  vw_row : request;              (* the columns toView copies *)
  vw_body : option Request;      (* None: an auto-declined row keeps no content *)
  vw_result : option Result;
  vw_resultBytes : Z;
  vw_outputBytes : Z;
  vw_replyMail : bytes;
}.

Definition toView (r : request) : checked View :=
  let? b := if bool_decide (q_body r = emptyBody) then Ok None
            else let? b := decodeStoredBody (q_body r) in Ok (Some b) in
  match q_result r with
  | Some ((_ :: _) as s) =>
      let? res := decodeStoredResult s in
      Ok (MkView r b (Some res) (Z.of_nat (length s)) (OutputBytes (Output res)) [])
  | _ => Ok (MkView r b None 0 0 [])
  end%go.

Definition opt_text (s : bytes) : option bytes := match s with [] => None | _ => Some s end.

Section Lookup.
Context {X : Type}.

Definition find_request (dir : direction) (peer id : bytes) (d : db X) : option request :=
  List.find (is_request dir peer id) (requests d).
Definition getRow (dir : direction) (peer id : bytes) : tx X request :=
  tx_found ErrUnknownRequest (find_request dir peer id).

Definition in_rows (id : bytes) (d : db X) : list request :=
  filter (λ r, q_direction r = DirIn ∧ q_id r = id) (requests d).
Definition findInRow (id from : bytes) : tx X request :=
  match from with
  | _ :: _ => getRow DirIn from id
  | [] => found ← tx_get (in_rows id);
          match found with
          | [] => tx_err ErrUnknownRequest
          | [r] => mret r
          | _ => tx_err ErrAmbiguousRequest
          end
  end.
Definition findOutRow (id : bytes) : tx X request :=
  tx_found ErrUnknownRequest
    (λ d, List.find (λ r, bool_decide (q_direction r = DirOut) && bool_decide (q_id r = id)) (requests d)).
End Lookup.

(** ageSeconds and the audit row of a life-cycle step. *)
Definition ageSeconds (r : request) (now : Z) : Z :=
  match q_receivedAt r with
  | None => 0
  | Some s => let d := Sub now (parseStoreTime s) in if d <? 0 then 0 else d ÷ second
  end.
Definition auditLifecycle (actor action : bytes) (r : request) (sq now : Z) (extra : body) : effect :=
  Audit actor action ([(bytes_of "request", VString (q_id r)); (bytes_of "peer", VString (q_peer r));
    (bytes_of "team", VString (q_teamID r)); (bytes_of "type", VString (q_typ r)); (bytes_of "urgency", VString (q_urgency r));
    (bytes_of "seq", num sq); (bytes_of "age_s", num (ageSeconds r now))] ++ extra).

Record transitionBuild := MkBuild {
  b_kind : bytes; b_body : body; b_extra : request → request; b_firstResponse : bytes;
  b_newState : request_state; b_actor : bytes;
}.

(** The members every reply has. *)
Definition reply_body (id : bytes) (sq now : Z) : body :=
  [(bytes_of "at", VString (wireTime now)); (bytes_of "request", VString id); (bytes_of "seq", num sq)].

Definition acceptable : list request_state := [Pending; Deferred].
Definition completable : list request_state := [Accepted].

(** The UPDATE of transitionTx. *)
Definition transition_row (tb : transitionBuild) (sq now : Z) (old : request) (r : request) : request :=
  let r := qset_updated (storeTime now) (qset_lastReplySent (Some (storeTime now)) (qset_lastReply (Some (b_kind tb, b_body tb))
    (qset_stateAt (Some (wireTime now)) (qset_stateSeq sq (qset_state (b_newState tb) r))))) in
  let r := b_extra tb r in
  match b_firstResponse tb, q_firstResponse old with
  | (_ :: _) as f, None => qset_firstResponseAt (Some (storeTime now)) (qset_firstResponse (Some f) r)
  | _, _ => r
  end.

Definition result_columns (note : bytes) (res : option bytes) (r : request) : request :=
  qset_result res (qset_note (opt_text note) r).

(** The canonical bytes of an optional result. *)
Definition canonical_opt (r : option Result) : checked (option bytes) :=
  match r with None => Ok None | Some r => match CanonicalResult r with Ok b => Ok (Some b) | Err e => Err e end end.

Definition complete_body (id : bytes) (sq now : Z) (note : bytes) (res : option Result) : body :=
  reply_body id sq now ++ opt_member "note" note ++
  match res with Some r => [(bytes_of "result", VObject (resultCanonicalValue r))] | None => [] end.
Definition completeBodyCanonical (id : bytes) (sq now : Z) (note : bytes) (res : option Result) : checked bytes :=
  canonicalMap (complete_body id sq now note res).

Section Requests.
Context {X : Type} `{Env X} `{SessionHooks X}.

Definition transitionTx (id from : bytes) (allowed : list request_state)
    (build : request → Z → checked transitionBuild) (now : Z) : tx X (request * Z * bytes * list effect) :=
  row ← findInRow id from;
  if negb (bool_decide (q_state row ∈ allowed)) then tx_err (BadStateError (request_state_text (q_state row))) else
  let sq := q_stateSeq row + 1 in
  tb ← tx_lift (build row sq);
  _ ← update_request DirIn (q_peer row) (q_id row) (transition_row tb sq now row);
  mid ← SubmitTx (q_peer row) (b_kind tb) (b_body tb) now;
  _ ← match Debates with
      | Some h => if bool_decide (b_newState tb = Declined) && bool_decide (q_typ row = TypeDebate)
                  then EndedTx h DirIn (q_peer row) (q_id row) now else mret tt
      | None => mret tt
      end;
  effs ← if bool_decide (b_kind tb = KindAccept)
         then OpenSession (match b_actor tb with [] => cli | a => a end) Worker (q_peer row) (q_id row) (q_teamID row) now
         else mret [];
  mret (row, sq, mid, effs).

(** getRow on the database, after a commit. *)
Definition read_back (dir : direction) (peer id : bytes) (d : db X) : checked request :=
  match reread d with
  | Err e => Err e
  | Ok _ => match find_request dir peer id d with None => Err ErrUnknownRequest | Some r => Ok r end
  end.
(** transition: transitionTx in its own transaction, and the view after it. *)
Definition transition (id from : bytes) (allowed : list request_state)
    (build : request → Z → checked transitionBuild) (now : Z) (d : db X)
    : checked (View * request * Z) * db X * list effect :=
  match commit (transitionTx id from allowed build now) d with
  | (Err e, d') => (Err e, d', [])
  | (Ok (row, sq, mid, effs), d') =>
      let view := match read_back DirIn (q_peer row) (q_id row) d' with
                  | Err e => Err e
                  | Ok r => match toView r with
                            | Ok v => Ok (MkView (vw_row v) (vw_body v) (vw_result v) (vw_resultBytes v) (vw_outputBytes v) mid, row, sq)
                            | Err e => Err e
                            end
                  end in
      (view, d', Wake :: effs)
  end.

Definition accept_build (id onlyType actor : bytes) (now : Z) (row : request) (sq : Z) : checked transitionBuild :=
  if negb (bool_decide (onlyType = [])) && negb (bool_decide (q_typ row = onlyType))
  then Err (BadStateError (request_state_text (q_state row)))
  else Ok (MkBuild KindAccept (reply_body id sq now) (λ r, r) (bytes_of "accept") Accepted actor).

Definition acceptInTx (id from onlyType actor : bytes) (now : Z) : tx X (bytes * list effect) :=
  '(row, sq, _, effs) ← transitionTx id from acceptable (accept_build id onlyType actor now) now;
  mret (q_peer row, effs ++ [auditLifecycle actor (bytes_of "request.accept") row sq now []]).
Definition AcceptInTx (id from onlyType : bytes) (now : Z) := acceptInTx id from onlyType cli now.
Definition AutoAcceptInTx (id from : bytes) (now : Z) : tx X (list effect) :=
  '(_, effs) ← acceptInTx id from [] daemon now; mret effs.

(** The audit row after a transition that succeeded, and its view. *)
Definition with_audit (action : bytes) (now : Z) (extra : body) (r : checked (View * request * Z) * db X * list effect)
    : checked View * db X * list effect :=
  match r with
  | (Ok (v, old, sq), d, effs) => (Ok v, d, effs ++ [auditLifecycle cli action old sq now extra])
  | (Err e, d, effs) => (Err e, d, effs)
  end.

Definition Accept (id from : bytes) (now : Z) (d : db X) :=
  with_audit (bytes_of "request.accept") now [] (transition id from acceptable (accept_build id [] [] now) now d).

Definition decline_build (id reason : bytes) (now : Z) (_ : request) (sq : Z) : checked transitionBuild :=
  Ok (MkBuild KindDecline (reply_body id sq now ++ [(bytes_of "code", text "user"); (bytes_of "reason", VString reason)])
    (λ r, qset_reason (Some reason) (qset_declineCode (Some (bytes_of "user")) r)) (bytes_of "decline") Declined []).
Definition Decline (id from reason : bytes) (now : Z) (d : db X) : checked View * db X * list effect :=
  match checkCodePoints (field "reason") reason 1 500 [] with
  | Err e => (Err e, d, [])
  | Ok _ => with_audit (bytes_of "request.decline") now [(bytes_of "code", text "user")]
              (transition id from acceptable (decline_build id reason now) now d)
  end.

Definition defer_build (id : bytes) (until now : Z) (_ : request) (sq : Z) : checked transitionBuild :=
  if negb (now <? until) then Err (FieldError (field "until"))
  else if now + maxDeferAhead <? until then Err (FieldError (field "until"))
  else Ok (MkBuild KindDefer (reply_body id sq now ++ [(bytes_of "until", VString (wireTime until))])
         (λ r, qset_deferredUntil (Some (wireTime until)) r) (bytes_of "defer") Deferred []).
Definition Defer (id from : bytes) (until now : Z) (d : db X) :=
  with_audit (bytes_of "request.defer") now [(bytes_of "until", VString (wireTime until))]
    (transition id from acceptable (defer_build id until now) now d).

Definition complete_build (id note : bytes) (res : option Result) (canon : option bytes) (now : Z) (_ : request) (sq : Z)
    : checked transitionBuild :=
  (let? c := completeBodyCanonical id sq now note res in
   let? _ := CheckCompleteSize c in
   Ok (MkBuild KindComplete (complete_body id sq now note res) (result_columns note canon) [] Completed []))%go.

Definition result_sizes (canon : option bytes) (res : option Result) : body :=
  match canon, res with
  | Some c, Some r =>
      [(bytes_of "result_bytes", num (ResultBytes c)); (bytes_of "output_bytes", num (OutputBytes (Output r)));
       (bytes_of "artifacts", num (Z.of_nat (length (default [] (Artifacts r)))))]
  | _, _ => []
  end.

Definition Complete (id from note : bytes) (res : option Result) (now : Z) (d : db X) : checked View * db X * list effect :=
  match ValidateComplete note res with
  | Err e => (Err e, d, [])
  | Ok _ =>
      match commit (findInRow id from) d with
      | (Err e, d) => (Err e, d, [])
      | (Ok row, d) =>
          match CompleteShorthand (q_peer row) (q_id row) note res now d with
          | (Some (Err e), d', effs) => (Err e, d', effs)
          | (Some (Ok _), d', effs) => (toView row, d', effs)
          | (None, d', effs) =>
              match canonical_opt res with
              | Err e => (Err e, d', effs)
              | Ok canon =>
                  match with_audit (bytes_of "request.complete") now (result_sizes canon res)
                          (transition id from completable (complete_build id note res canon now) now d') with
                  | (v, d'', effs') => (v, d'', effs ++ effs')
                  end
              end
          end
      end
  end.

(** ** The entry points of the work sessions (session_hooks.go) *)

Definition SetOutContentTx (peer id note : bytes) (res : option Result) (now : Z) : tx X unit :=
  canon ← tx_lift (canonical_opt res);
  set_requests (update_where (λ r, is_request DirOut peer id r && bool_decide (q_state r = Completed))
    (λ r, qset_updated (storeTime now) (result_columns note canon r))).

Definition complete_row (sq now : Z) (b : body) (note : bytes) (canon : option bytes) (r : request) : request :=
  qset_updated (storeTime now) (qset_lastReplySent (Some (storeTime now)) (qset_lastReply (Some (KindComplete, b))
    (result_columns note canon (qset_stateAt (Some (wireTime now)) (qset_stateSeq sq (qset_state Completed r)))))).

Definition CompleteInTx (peer id note : bytes) (res : option Result) (now : Z) : tx X (list effect) :=
  _ ← tx_lift (ValidateComplete note res);
  row ← getRow DirIn peer id;
  if negb (bool_decide (q_state row = Accepted)) then tx_err (BadStateError (request_state_text (q_state row))) else
  let sq := q_stateSeq row + 1 in
  c ← tx_lift (completeBodyCanonical id sq now note res);
  _ ← tx_lift (CheckCompleteSize c);
  canon ← tx_lift (canonical_opt res);
  let b := complete_body id sq now note res in
  _ ← update_request DirIn peer id (complete_row sq now b note canon);
  _ ← SubmitTx peer KindComplete b now;
  mret [auditLifecycle daemon (bytes_of "request.complete") row sq now (result_sizes canon res)].
End Requests.
