(* ===== verification/RequestMail.v ===== *)
(** * Requests: received mail and the sender's calls (internal/request)

    The sender's mirror of the life cycle (mirror.go), the cancel on both
    sides and the resend (cancel.go), a received request with its caps,
    auto-decline and tombstones (receive.go), the submission of a new one
    (submit.go) and the inbox (inbox.go, query.go). Like SessionMail.v, a
    received mail is an Apply in the receiver's transaction and an After that
    runs once it is committed. *)

From S2P Require Import Prelude Utf8 Canonical Strconv WireTime Body RequestObject Tables Requests.

Open Scope Z_scope.
Open Scope go_scope.

Definition names (l : list string) : list bytes := map bytes_of l.

(** ** The bodies of the life-cycle mails *)

Definition decode_time_ (b : body) (f : string) : checked Z :=
  as_bad_body (decode_time (bytes_of f) (member (bytes_of f) b)).
Definition decodeNonEmpty (b : body) (f : string) : checked bytes := as_bad_body (decodeString b (bytes_of f) true).
Definition decode_request_id (b : body) : checked bytes :=
  let? reqID := as_bad_body (decodeString b (bytes_of "request") false) in
  guard? ValidID reqID else ErrBadBody in Ok reqID.
Definition decodeAtRequestSeq (b : body) : checked (Z * bytes * Z) :=
  let? at_ := decode_time_ b "at" in
  let? reqID := decode_request_id b in
  let? sq := as_bad_body (decodeInt b (bytes_of "seq")) in
  guard? negb (sq <? 1) else ErrBadBody in
  Ok (at_, reqID, sq).

Definition decline_codes : list bytes :=
  map bytes_of ["user"; "not_team_member"; "unknown_team"; "unverified_peer"; "inbox_full"]%string.
Definition decode_decline (b : body) : checked (Z * bytes * Z * bytes * bytes) :=
  let? _ := strictMembers b (names ["at"; "code"; "reason"; "request"; "seq"]%string) in
  let? (at_, reqID, sq) := decodeAtRequestSeq b in
  let? code := as_bad_body (decodeString b (bytes_of "code") false) in
  guard? bool_decide (code ∈ decline_codes) else ErrBadBody in
  let? reason := decodeNonEmpty b "reason" in
  let? _ := if bool_decide (code = bytes_of "user")
            then as_bad_body (checkCodePoints (bytes_of "reason") reason 1 500 [])
            else if bool_decide (reason = []) then Ok tt else Err ErrBadBody in
  Ok (at_, reqID, sq, code, reason).

Definition decode_defer (b : body) : checked (Z * bytes * Z * Z) :=
  let? _ := strictMembers b (names ["at"; "request"; "seq"; "until"]%string) in
  let? (at_, reqID, sq) := decodeAtRequestSeq b in
  let? until := decode_time_ b "until" in
  guard? (at_ <? until) else ErrBadBody in
  guard? negb (at_ + maxDeferAhead <? until) else ErrBadBody in
  Ok (at_, reqID, sq, until).

Definition decode_complete (b : body) : checked (Z * bytes * Z * bytes * option Result) :=
  let? _ := strictMembers b (names ["at"; "note"; "request"; "result"; "seq"]%string) in
  let? (at_, reqID, sq) := decodeAtRequestSeq b in
  let? note := decodeNonEmpty b "note" in
  let? res := match member (bytes_of "result") b with
              | None => Ok None
              | Some (VObject m) => let? r := as_bad_body (DecodeResult m) in Ok (Some r)
              | Some _ => Err ErrBadBody
              end in
  let? _ := as_bad_body (ValidateComplete note res) in
  let? canon := as_bad_body (canonicalMap b) in
  let? _ := as_bad_body (CheckCompleteSize canon) in
  Ok (at_, reqID, sq, note, res).

Definition decode_bare (b : body) : checked (Z * bytes * Z) :=
  let? _ := strictMembers b (names ["at"; "request"; "seq"]%string) in decodeAtRequestSeq b.

Definition decode_cancel (b : body) (created : Z) : checked (bytes * bytes) :=
  let? _ := strictMembers b (names ["at"; "reason"; "request"]%string) in
  let? at_ := decode_time_ b "at" in
  guard? negb (created <? at_) else ErrBadBody in
  let? reqID := decode_request_id b in
  let? reason := decodeNonEmpty b "reason" in
  let? _ := when_set reason (as_bad_body (checkCodePoints (bytes_of "reason") reason 1 500 [0x0A])) in
  Ok (reqID, reason).

(** ** What Apply leaves for After *)

Record mirrorOutcome := MirrorOutcome {
  mo_orphan : bool; mo_applied : bool; mo_cancelRefused : bool;
  mo_kind : bytes; mo_requestID : bytes; mo_peer : bytes; mo_state : request_state; mo_seq : Z;
  mo_result : body;                      (* the sizes of a result, for the audit row *)
  mo_sessionAfter : list effect;
}.
Definition mo_with_after (effs : list effect) (o : mirrorOutcome) : mirrorOutcome :=
  MirrorOutcome (mo_orphan o) (mo_applied o) (mo_cancelRefused o) (mo_kind o) (mo_requestID o) (mo_peer o) (mo_state o) (mo_seq o)
    (mo_result o) (mo_sessionAfter o ++ effs).

(** mirrorEvent: request.cancelled has no notification at the sender. *)
Definition mirrorEvent (kind : bytes) : option bytes :=
  if bool_decide (kind = KindAccept) then Some (bytes_of "request.accepted")
  else if bool_decide (kind = KindDecline) then Some (bytes_of "request.declined")
  else if bool_decide (kind = KindDefer) then Some (bytes_of "request.deferred")
  else if bool_decide (kind = KindComplete) then Some (bytes_of "request.completed")
  else None.

(** The UPDATE of applyMirror. *)
Definition mirror_row (st : request_state) (sq at_ now : Z) (extra : request → request) (r : request) : request :=
  extra (qset_updated (storeTime now) (qset_stateAt (Some (wireTime at_)) (qset_stateSeq sq (qset_state st r)))).
Definition ends_debate (st : request_state) : bool := bool_decide (st ∈ [Declined; Cancelled; Completed]).
Definition ends_session (st : request_state) : bool := bool_decide (st ∈ [Declined; Cancelled]).
Definition refuses (st : request_state) : bool := bool_decide (st ∈ [Accepted; Declined; Completed]).

(** An instant parsed with time.RFC3339: a "Z" or a numeric offset. *)
Definition parse_offset (s : bytes) : option Z :=
  match s with
  | [0x5A] => Some 0
  | [sign; a; b; 0x3A; c; d] =>
      if ((sign =? 0x2B) || (sign =? 0x2D)) && forallb is_digit [a; b; c; d] then
        let hh := digits_val [a; b] in
        let mm := digits_val [c; d] in
        if (hh <=? 24) && (mm <=? 60) then Some ((if sign =? 0x2D then -1 else 1) * (hh * 3600 + mm * 60)) else None
      else None
  | _ => None
  end.
Definition parse_rfc3339 (s : bytes) : option Z :=
  '(u, s) ← parse_secs s;
  let '(ns, s) := any_fraction s in
  off ← parse_offset s;
  Some ((u - off) * second + ns).

(** ** Caps (request.go) *)

Definition MaxOpenPerPeer : Z := 100.
Definition MaxNewPerPeerPerDay : Z := 200.
Definition MaxOpenPerIntroducer : Z := 200.
Definition MaxNewPerIntroducerPerDay : Z := 400.
Definition day : Z := 24 * hour.
Definition IntroducerFreshFor : Z := 7 * day.
Definition maxAge : Z := 30 * day.
Definition urgencyBudgetWindow : Z := 7 * day.

(** HelperRouter.RouteTx: whether the own-device helper takes a new request,
    and what runs after the commit. None: no helper. *)
Class HelperRouter (X : Type) := { RouteTx : option (Request → Z → tx X (bool * list effect)) }.

Section RequestMail.
Context {X : Type} `{Env X} `{SessionHooks X} `{HelperRouter X}.

(** ** The sender's mirror (mirror.go) *)

(** Step 5: a reply that leaves nothing to cancel answers a pending cancel. *)
Definition mirror_refuse (row : request) (final : request_state) (now : Z) : tx X bool :=
  let b := bool_decide (q_cancel row = Some CancelRequested) && refuses final in
  _ ← (if b then update_request DirOut (q_peer row) (q_id row) (λ r, qset_updated (storeTime now) (qset_cancel (Some CancelRefused) r))
       else mret tt);
  mret b.

(** Step 4: the row moves, and the debate or session of an ended request ends. *)
Definition mirror_apply (row : request) (st : request_state) (sq at_ : Z) (extra : request → request) (now : Z) : tx X (list effect) :=
  _ ← update_request DirOut (q_peer row) (q_id row) (mirror_row st sq at_ now extra);
  _ ← match Debates with
      | Some h => if ends_debate st && bool_decide (q_typ row = TypeDebate) then EndedTx h DirOut (q_peer row) (q_id row) now
                  else mret tt
      | None => mret tt
      end;
  if ends_session st then SessionEndedTx (q_peer row) (q_id row) now else mret [].

Definition applyMirror (op : opened_mail) (kind reqID : bytes) (st : request_state) (sq at_ : Z)
    (extra : request → request) (sizes : body) (sessionAfter : list effect) (now : Z) : tx X mirrorOutcome :=
  found ← tx_get (find_request DirOut (op_from op) reqID);
  match found with
  | None => mret (MirrorOutcome true false false kind reqID (op_from op) st sq [] sessionAfter)
  | Some row =>
      let applied := q_stateSeq row <? sq in
      ended ← (if applied then mirror_apply row st sq at_ extra now else mret []);
      let final := if applied then st else q_state row in
      ref_ ← mirror_refuse row final now;
      mret (MirrorOutcome false applied ref_ kind reqID (q_peer row) final sq
              (if applied then sizes else []) (sessionAfter ++ ended))
  end.

Definition applyAccept (op : opened_mail) (now : Z) : tx X (bool * mirrorOutcome * list effect) :=
  '(at_, reqID, sq) ← tx_lift (decode_bare (op_body op));
  o ← applyMirror op KindAccept reqID Accepted sq at_ (λ r, r) [] [] now;
  found ← tx_get (find_request DirOut (op_from op) reqID);
  effs ← match found with
         | Some r => OpenSession daemon Requester (op_from op) reqID (q_teamID r) now
         | None => mret []
         end;
  mret (false, o, effs).

Definition applyDecline (op : opened_mail) (now : Z) : tx X (bool * mirrorOutcome * list effect) :=
  '(at_, reqID, sq, code, reason) ← tx_lift (decode_decline (op_body op));
  o ← applyMirror op KindDecline reqID Declined sq at_
        (λ r, qset_reason (opt_text reason) (qset_declineCode (Some code) r)) [] [] now;
  mret (false, o, []).

Definition applyDefer (op : opened_mail) (now : Z) : tx X (bool * mirrorOutcome * list effect) :=
  '(at_, reqID, sq, until) ← tx_lift (decode_defer (op_body op));
  o ← applyMirror op KindDefer reqID Deferred sq at_ (λ r, qset_deferredUntil (Some (wireTime until)) r) [] [] now;
  mret (false, o, []).

(** request.complete: the session decides what is kept of its content. *)
Definition applyComplete (op : opened_mail) (now : Z) : tx X (bool * mirrorOutcome * list effect) :=
  '(at_, reqID, sq, note, res) ← tx_lift (decode_complete (op_body op));
  '(cc, after) ← EarlyComplete (op_from op) reqID note res now;
  let note := if Override cc then Note cc else note in
  let res := if Override cc then ContentResult cc else res in
  canon ← tx_lift (as_bad_body (canonical_opt res));
  o ← applyMirror op KindComplete reqID Completed sq at_ (result_columns note canon) (result_sizes canon res) after now;
  mret (Withhold cc, if mo_applied o then mo_with_after (AfterApplied cc) o else o, []).

Definition applyCancelled (op : opened_mail) (now : Z) : tx X (bool * mirrorOutcome * list effect) :=
  '(at_, reqID, sq) ← tx_lift (decode_bare (op_body op));
  o ← applyMirror op KindCancelled reqID Cancelled sq at_ (λ r, r) [] [] now;
  mret (false, o, []).

Definition audit_request (action : bytes) (reqID peer : bytes) (rest : body) : effect :=
  Audit daemon action ([(bytes_of "request", VString reqID); (bytes_of "peer", VString peer)] ++ rest).
Definition afterMirror (o : mirrorOutcome) : list effect :=
  Wake :: mo_sessionAfter o ++
  (if mo_applied o then match mirrorEvent (mo_kind o) with Some e => [Notify e (mo_peer o) (mo_requestID o)] | None => [] end else []) ++
  (if mo_orphan o then [audit_request (bytes_of "request.orphan") (mo_requestID o) (mo_peer o) [(bytes_of "kind", VString (mo_kind o))]]
   else
     (if mo_applied o
      then [audit_request (bytes_of "request.state") (mo_requestID o) (mo_peer o)
              ([(bytes_of "state", VString (request_state_text (mo_state o))); (bytes_of "seq", num (mo_seq o))] ++ mo_result o)]
      else []) ++
     (if mo_cancelRefused o
      then [audit_request (bytes_of "request.cancel_refused") (mo_requestID o) (mo_peer o)
              [(bytes_of "state", VString (request_state_text (mo_state o)))]]
      else [])).
Definition receive_mirror (apply : tx X (bool * mirrorOutcome * list effect)) (d : db X) : checked bool * db X * list effect :=
  match commit apply d with
  | (Err e, d') => (Err e, d', [])
  | (Ok (withhold, o, effs), d') => (Ok withhold, d', effs ++ afterMirror o)
  end.

(** resubmitStale: last_reply again, at most every ten minutes. *)
Definition resubmitStale (dir : direction) (peer id : bytes) (now : Z) (d : db X) : db X * list effect :=
  match read_back dir peer id d with
  | Ok row =>
      match q_lastReply row with
      | Some (kind, b) =>
          let recent := match q_lastReplySent row with
                        | Some sent => Sub now (parseStoreTime sent) <? resendThrottle
                        | None => false
                        end in
          if bool_decide (q_state row = Pending) || recent then (d, []) else
          match commit (_ ← SubmitTx peer kind b now; update_request dir peer id (qset_lastReplySent (Some (storeTime now)))) d with
          | (Ok _, d') => (d', [Wake])
          | (Err _, d') => (d', [])
          end
      | None => (d, [])
      end
  | Err _ => (d, [])
  end.

(** ** Cancel and resend at the sender (cancel.go) *)

Definition mail_state_of (id : bytes) (d : db X) : option mail_state :=
  option_map m_state (List.find (λ m, bool_decide (m_id m = id)) (outbox d)).
Definition in_flight (st : option mail_state) : bool := bool_decide (st ∈ [Some MailQueued; Some MailRelayed; Some MailDelivered]).
Definition cancel_pending (row : request) (d : db X) : bool :=
  bool_decide (q_cancel row = Some CancelRequested) &&
  match q_cancelMailID row with Some m => in_flight (mail_state_of m d) | None => false end.

Definition request_cancel_body (id reason : bytes) (now : Z) : body :=
  [(bytes_of "at", VString (wireTime now)); (bytes_of "request", VString id)] ++ opt_member "reason" reason.
(** None: nothing was sent, the cancel is a duplicate. *)
Definition cancelTx (id reason : bytes) (now : Z) : tx X (request * option bytes) :=
  row ← findOutRow id;
  if bool_decide (q_state row = Cancelled) then mret (row, None) else
  if bool_decide (q_state row ∈ [Accepted; Declined; Completed]) then tx_err (BadStateError (request_state_text (q_state row))) else
  pending ← tx_get (cancel_pending row);
  if (pending : bool) then mret (row, None) else
  mid ← SubmitTx (q_peer row) KindCancel (request_cancel_body id reason now) now;
  _ ← update_request DirOut (q_peer row) (q_id row) (λ r, qset_updated (storeTime now) (qset_cancelMailID (Some mid)
        (qset_cancelAt (Some (storeTime now)) (qset_cancel (Some CancelRequested) r))));
  mret (row, Some mid).
Definition Cancel (id reason : bytes) (now : Z) (d : db X) : checked (View * bytes * bool) * db X * list effect :=
  match when_set reason (checkCodePoints (field "reason") reason 1 500 [0x0A]) with
  | Err e => (Err e, d, [])
  | Ok _ =>
      match commit (cancelTx id reason now) d with
      | (Err e, d') => (Err e, d', [])
      | (Ok (row, None), d') => (match toView row with Ok v => Ok (v, [], true) | Err e => Err e end, d', [])
      | (Ok (row, Some mid), d') =>
          (match read_back DirOut (q_peer row) (q_id row) d' with
           | Err e => Err e
           | Ok r => match toView r with Ok v => Ok (v, mid, false) | Err e => Err e end
           end, d',
           [Wake; Audit cli (bytes_of "request.cancel") [(bytes_of "request", VString id); (bytes_of "peer", VString (q_peer row)); (bytes_of "mail", VString mid)]])
      end
  end.

Definition resendTx (id : bytes) (now : Z) : tx X (request * bytes) :=
  row ← findOutRow id;
  mst ← tx_get (mail_state_of (q_mailID row));
  if negb (bool_decide (q_state row = Pending)) || negb (bool_decide (q_cancel row = None)) ||
     negb (Sub now (parseWireTime (q_created row)) <? resendMaxAge) ||
     negb (bool_decide (mst = Some MailExpired) || bool_decide (mst = Some MailFailed))
  then tx_err (BadStateError (request_state_text (q_state row))) else
  obj ← tx_lift (parse_object (q_body row));
  mid ← SubmitTx (q_peer row) KindRequest [(bytes_of "request", VObject obj)] now;
  _ ← update_request DirOut (q_peer row) (q_id row) (λ r, qset_updated (storeTime now) (qset_mailID mid r));
  mret (row, mid).
Definition Resend (id : bytes) (now : Z) (d : db X) : checked bytes * db X * list effect :=
  match commit (resendTx id now) d with
  | (Err e, d') => (Err e, d', [])
  | (Ok (row, mid), d') =>
      (Ok mid, d', [Wake; Audit cli (bytes_of "request.resend") [(bytes_of "request", VString id); (bytes_of "peer", VString (q_peer row)); (bytes_of "mail", VString mid)]])
  end.

(** ** The cancel at the recipient (cancel.go) *)

Inductive cancelResult := CancelDone (row : request) (sq : Z) | CancelRefused_ (st : request_state) | CancelDuplicate (st : request_state)
  | CancelEarly | CancelLimit.

Definition cancelled_row (sq now : Z) (reason : bytes) (b : body) (r : request) : request :=
  qset_updated (storeTime now) (qset_lastReplySent (Some (storeTime now)) (qset_lastReply (Some (KindCancelled, b))
    (qset_reason (opt_text reason) (qset_stateAt (Some (wireTime now)) (qset_stateSeq sq (qset_state Cancelled r)))))).

Definition is_tombstone (peer id : bytes) (t : tombstone) : bool := bool_decide (t_peer t = peer) && bool_decide (t_id t = id).
Definition applyEarlyCancel (peer reqID reason : bytes) (now : Z) : tx X cancelResult :=
  _ ← set_tombstones (List.filter (λ t, negb (text_lt (t_receivedAt t) (storeTime (now - tombstoneMaxAge)))));
  n ← tx_get (λ d, Z.of_nat (length (List.filter (λ t, bool_decide (t_peer t = peer)) (tombstones d))));
  if maxTombstones <=? n then mret CancelLimit else
  _ ← set_tombstones (λ l, List.filter (λ t, negb (is_tombstone peer reqID t)) l ++
                           [Tombstone peer reqID (opt_text reason) (storeTime now)]);
  _ ← SubmitTx peer KindCancelled (reply_body reqID 1 now) now;
  mret CancelEarly.

Definition applyCancel (op : opened_mail) (now : Z) : tx X (bytes * cancelResult) :=
  '(reqID, reason) ← tx_lift (decode_cancel (op_body op) (op_created op));
  let peer := op_from op in
  found ← tx_get (find_request DirIn peer reqID);
  match found with
  | None => r ← applyEarlyCancel peer reqID reason now; mret (reqID, r)
  | Some row =>
      if bool_decide (q_state row = Cancelled) then mret (reqID, CancelDuplicate (q_state row)) else
      if negb (bool_decide (q_state row ∈ acceptable)) then mret (reqID, CancelRefused_ (q_state row)) else
      let sq := q_stateSeq row + 1 in
      let b := reply_body reqID sq now in
      _ ← update_request DirIn (q_peer row) (q_id row) (cancelled_row sq now reason b);
      _ ← SubmitTx (q_peer row) KindCancelled b now;
      _ ← match Debates with
          | Some h => if bool_decide (q_typ row = TypeDebate) then EndedTx h DirIn (q_peer row) (q_id row) now else mret tt
          | None => mret tt
          end;
      mret (reqID, CancelDone row sq)
  end.

Definition cancel_detail (r : cancelResult) (now : Z) : body :=
  match r with
  | CancelDone row sq =>
      [(bytes_of "result", text "cancelled"); (bytes_of "state", VString (request_state_text (q_state row)));
       (bytes_of "team", VString (q_teamID row)); (bytes_of "type", VString (q_typ row)); (bytes_of "urgency", VString (q_urgency row));
       (bytes_of "seq", num sq); (bytes_of "age_s", num (ageSeconds row now))]
  | CancelRefused_ st => [(bytes_of "result", text "refused"); (bytes_of "state", VString (request_state_text st))]
  | CancelDuplicate st => [(bytes_of "result", text "duplicate"); (bytes_of "state", VString (request_state_text st))]
  | CancelEarly => [(bytes_of "result", text "early")]
  | CancelLimit => [(bytes_of "result", text "tombstone_limit")]
  end.
Definition receive_cancel (op : opened_mail) (now : Z) (d : db X) : checked bool * db X * list effect :=
  match commit (applyCancel op now) d with
  | (Err e, d') => (Err e, d', [])
  | (Ok (reqID, r), d') =>
      let peer := op_from op in
      let '(d'', effs) := match r with
                          | CancelRefused_ _ | CancelDuplicate _ => resubmitStale DirIn peer reqID now d'
                          | _ => (d', [])
                          end in
      (Ok false, d'', Wake :: effs ++
         (match r with CancelDone _ _ => [Notify (bytes_of "request.cancelled") peer reqID] | _ => [] end) ++
         [audit_request (bytes_of "request.cancel_in") reqID peer (cancel_detail r now)])
  end.

(** ** A received request (receive.go) *)

Definition BodyHash (canon : bytes) : bytes := hex_encode (digest canon).

(** Rows that count: [since] is a text in the format of storeTime. *)
Definition count_in (p : request → bool) (d : db X) : Z :=
  Z.of_nat (length (List.filter (λ r, bool_decide (q_direction r = DirIn) && p r) (requests d))).
Definition from_peer (peer : bytes) (r : request) : bool := bool_decide (q_peer r = peer).
Definition received_since (since : bytes) (r : request) : bool :=
  match q_receivedAt r with Some t => text_le since t | None => false end.
Definition open_row (r : request) : bool := bool_decide (q_state r ∈ [Pending; Deferred; Accepted]).

(** introduction: who introduced the sender and when, None when nobody did. *)
Definition introducerOf (peer : bytes) (d : db X) : checked (option (bytes * bytes)) :=
  match introduction_row (ext d) peer with
  | Some (Some ((_ :: _) as by_), pairedAt) =>
      match parse_rfc3339 (default [] pairedAt) with
      | Some t => Ok (Some (by_, storeTime t))
      | None => Err (ErrExternal 1)
      end
  | _ => Ok None
  end.
Definition freshSince (now : Z) : bytes := storeTime (now - IntroducerFreshFor).
Definition fresh_intro (intro : option (bytes * bytes)) (now : Z) : option bytes :=
  match intro with Some (by_, at_) => if text_le (freshSince now) at_ then Some by_ else None | None => None end.
Definition introduced_by (by_ : bytes) (now : Z) (r : request) : bool :=
  bool_decide (q_introducer r = Some by_) && match q_introducedAt r with Some t => text_le (freshSince now) t | None => false end.

Definition checkDailyCaps (peer : bytes) (intro : option (bytes * bytes)) (now : Z) (d : db X) : checked unit :=
  let since := storeTime (now - day) in
  guard? negb (MaxNewPerPeerPerDay <=? count_in (λ r, from_peer peer r && received_since since r) d) else ErrLimit in
  match fresh_intro intro now with
  | None => Ok tt
  | Some by_ =>
      guard? negb (MaxNewPerIntroducerPerDay <=? count_in (λ r, introduced_by by_ now r && received_since since r) d) else ErrLimit in
      Ok tt
  end.
Definition openCapReached (peer : bytes) (intro : option (bytes * bytes)) (now : Z) (d : db X) : bool :=
  (MaxOpenPerPeer <=? count_in (λ r, from_peer peer r && open_row r) d) ||
  match fresh_intro intro now with
  | None => false
  | Some by_ => MaxOpenPerIntroducer <=? count_in (λ r, introduced_by by_ now r && open_row r) d
  end.

(** The auto-decline codes, in their order. *)
Definition policyDeclineCode (team from : bytes) (d : db X) : checked (option bytes) :=
  let? unverified := match UnverifiedPeer with Some f => f (ext d) from | None => Ok false end in
  if (unverified : bool) then Ok (Some (bytes_of "unverified_peer")) else
  match TeamActive with
  | None => Ok None
  | Some f =>
      let? active := f (ext d) team in
      if negb active then Ok (Some (bytes_of "unknown_team")) else
      match TeamHasMembers with
      | None => Ok None
      | Some f => let? ok := f (ext d) team from in Ok (if (ok : bool) then None else Some (bytes_of "not_team_member"))
      end
  end.
Definition declineCode (team from : bytes) (intro : option (bytes * bytes)) (now : Z) (d : db X) : checked (option bytes) :=
  let? code := policyDeclineCode team from d in
  match code with
  | Some c => Ok (Some c)
  | None => Ok (if openCapReached from intro now d then Some (bytes_of "inbox_full") else None)
  end.

Definition effectiveDeclared (r : Request) : bytes := match UrgencyDeclared r with [] => Urgency r | u => u end.
(** receiverUrgency: urgency, urgency_declared, downgraded_by. *)
Definition receiverUrgency (req : Request) (now : Z) (d : db X) : bytes * bytes * option bytes :=
  match UrgencyDeclared req with
  | _ :: _ => (Urgency req, UrgencyDeclared req, Some (bytes_of "sender"))
  | [] =>
      if negb (one_of (Urgency req) [UrgencyHigh; UrgencyBlocking]) then (Urgency req, Urgency req, None) else
      let n := count_in (λ r, from_peer (From req) r && bool_decide (q_urgency r = Urgency req) &&
                              received_since (storeTime (now - urgencyBudgetWindow)) r &&
                              (bool_decide (q_declineCode r = None) || bool_decide (q_declineCode r = Some (bytes_of "user")))) d in
      if budgetLimit (Urgency req) <=? n then (UrgencyNormal, Urgency req, Some (bytes_of "receiver"))
      else (Urgency req, Urgency req, None)
  end.

(** A new `in` row, the way the three INSERTs of receive.go fill it. *)
Definition in_row (op : opened_mail) (req : Request) (urgency declared : bytes) (downgraded : option bytes) (body_ hash : bytes)
    (st : request_state) (sq : Z) (stateAt code reason : option bytes) (reply : option (bytes * body)) (replySent : option bytes)
    (intro : option (bytes * bytes)) (now : Z) : request :=
  RequestRow DirIn (op_from op) (ID req) (Team req) (Type_ req) urgency declared downgraded body_ hash st sq stateAt None code reason None
    None None (wireTime (Created req)) (Some (storeTime now)) (op_id op) reply replySent None None None None None None (storeTime now)
    (option_map fst intro) (option_map snd intro).
Definition insert_request (r : request) : tx X unit :=
  old ← tx_get (λ d, existsb (is_request (q_direction r) (q_peer r) (q_id r)) (requests d));
  if (old : bool) then tx_err ErrUnique else set_requests (λ l, l ++ [r]).

Definition idTaken (id from : bytes) (d : db X) : bool :=
  existsb (λ r, bool_decide (q_id r = id) && negb (bool_decide (q_direction r = DirIn) && bool_decide (q_peer r = from))) (requests d).

Definition storeDeclined (op : opened_mail) (req : Request) (hash code : bytes) (intro : option (bytes * bytes)) (now : Z) : tx X unit :=
  let b := [(bytes_of "at", VString (wireTime now)); (bytes_of "code", VString code); (bytes_of "request", VString (ID req)); (bytes_of "seq", num 1)] in
  _ ← insert_request (in_row op req (Urgency req) (effectiveDeclared req) None emptyBody hash Declined 1 None (Some code) None
        (Some (KindDecline, b)) (Some (storeTime now)) intro now);
  _ ← SubmitTx (op_from op) KindDecline b now;
  mret tt.

(** consumeTombstone: the request was cancelled before it arrived. *)
Definition consumeTombstone (op : opened_mail) (req : Request) (canon hash : bytes) (intro : option (bytes * bytes)) (now : Z) : tx X bool :=
  found ← tx_get (λ d, List.find (is_tombstone (op_from op) (ID req)) (tombstones d));
  match found with
  | None => mret false
  | Some t =>
      _ ← set_tombstones (List.filter (λ t, negb (is_tombstone (op_from op) (ID req) t)));
      d ← tx_get (λ d, d);
      code ← tx_lift (policyDeclineCode (Team req) (From req) d);
      let declined := bool_decide (code ≠ None) in
      let at_ := parseStoreTime (t_receivedAt t) in
      let b := [(bytes_of "at", VString (wireTime at_)); (bytes_of "request", VString (ID req)); (bytes_of "seq", num 1)] in
      _ ← insert_request (in_row op req (Urgency req) (effectiveDeclared req) None (if declined then emptyBody else canon) hash Cancelled 1
            (Some (wireTime at_)) None (if declined then None else t_reason t) (Some (KindCancelled, b)) (Some (storeTime at_)) intro now);
      mret true
  end.

Inductive applyOutcome :=
| Conflict | Duplicate_ | TombstoneCancelled
| AutoDeclined (code : bytes)
| Received (urgency : bytes) (downgraded : option (bytes * bytes)) (accepted : bool) (acceptAfter helperAfter : list effect).

(** decode_request_mail: the request of a received mail. *)
Definition decode_request_mail (op : opened_mail) : checked (Request * bytes) :=
  let? raw := match member KindRequest (op_body op) with Some (VObject m) => Ok m | _ => Err ErrBadBody end in
  guard? forallb (λ p, bool_decide (p.1 = KindRequest)) (op_body op) else ErrBadBody in
  let? req := as_bad_body (Decode raw) in
  guard? negb (bool_decide (Type_ req = TypeDebate) && bool_decide (is_Some Debates → False)) else ErrBadBody in
  guard? bool_decide (From req = op_from op) else ErrBadBody in
  guard? bool_decide (To req = op_to op) else ErrBadBody in
  guard? negb (op_created op <? Created req) else ErrBadBody in
  let? canon := as_bad_body (Canonical req) in
  let? _ := as_bad_body (CheckSizeFor req canon) in
  Ok (req, canon).

(** A debate whose Decision is already stored may not be asked again. *)
Definition decided_before (req : Request) (d : db X) : checked bool :=
  match Debates with
  | Some h => if bool_decide (Type_ req = TypeDebate) then HasDecisionTx h (ext d) (From req) (To req) (ID req) else Ok false
  | None => Ok false
  end.

(** The own-device helper, for every request that is not a debate. *)
Definition route_request (op : opened_mail) (req : Request) (urgency : bytes) (down : option (bytes * bytes)) (now : Z) : tx X applyOutcome :=
  match RouteTx with
  | None => mret (Received urgency down false [] [])
  | Some route =>
      '(accept, after) ← route req now;
      if (accept : bool) then
        effs ← AutoAcceptInTx (ID req) (op_from op) now;
        _ ← MarkRunnerTx (op_from op) (ID req);
        mret (Received urgency down true effs after)
      else mret (Received urgency down false [] after)
  end.
(** The request is stored pending and handed to its debate or the helper. *)
Definition store_pending (op : opened_mail) (req : Request) (canon hash : bytes) (intro : option (bytes * bytes)) (now : Z) : tx X applyOutcome :=
  '(urgency, declared, downgraded) ← tx_get (receiverUrgency req now);
  _ ← insert_request (in_row op req urgency declared downgraded canon hash Pending 0 None None None None None intro now);
  let down := option_map (pair declared) downgraded in
  match (if bool_decide (Type_ req = TypeDebate) then Debates else None) with
  | Some h => _ ← ReceivedTx h req now; mret (Received urgency down false [] [])
  | None => route_request op req urgency down now
  end.

Definition apply (op : opened_mail) (now : Z) : tx X (Request * applyOutcome) :=
  '(req, canon) ← tx_lift (decode_request_mail op);
  let hash := BodyHash canon in
  found ← tx_get (find_request DirIn (op_from op) (ID req));
  match found with
  | Some row => mret (req, if bool_decide (q_bodyHash row = hash) then Duplicate_ else Conflict)
  | None =>
      d ← tx_get (λ d, d);
      decided ← tx_lift (decided_before req d);
      if (decided : bool) then tx_err ErrBadBody else
      if idTaken (ID req) (op_from op) d then tx_err ErrBadBody else
      intro ← tx_lift (introducerOf (op_from op) d);
      _ ← tx_lift (checkDailyCaps (op_from op) intro now d);
      tombstoned ← consumeTombstone op req canon hash intro now;
      if (tombstoned : bool) then mret (req, TombstoneCancelled) else
      if maxAge <? Sub now (Created req) then tx_err ErrBadBody else
      d ← tx_get (λ d, d);
      code ← tx_lift (declineCode (Team req) (From req) intro now d);
      match code with
      | Some c => _ ← storeDeclined op req hash c intro now; mret (req, AutoDeclined c)
      | None => o ← store_pending op req canon hash intro now; mret (req, o)
      end
  end.

(** after: the echo of a duplicate, the notification, the audit row. *)
Definition audit_received (req : Request) (peer : bytes) (o : applyOutcome) : list effect :=
  match o with
  | TombstoneCancelled => []
  | Conflict => [audit_request (bytes_of "request.conflict") (ID req) peer []]
  | Duplicate_ => [audit_request (bytes_of "request.duplicate") (ID req) peer []]
  | AutoDeclined code => [audit_request (bytes_of "request.auto_decline") (ID req) peer [(bytes_of "team", VString (Team req)); (bytes_of "code", VString code)]]
  | Received urgency down _ _ _ =>
      let files := Z.of_nat (length (default [] (Context req))) in
      [audit_request (bytes_of "request.in") (ID req) peer
         ([(bytes_of "team", VString (Team req)); (bytes_of "type", VString (Type_ req)); (bytes_of "urgency", VString urgency)] ++
          match down with
          | Some (declared, by_) => [(bytes_of "urgency_declared", VString declared); (bytes_of "downgraded_by", VString by_)]
          | None => []
          end ++
          if 0 <? files then [(bytes_of "context_files", num files); (bytes_of "context_bytes", num (ContextBytes (Context req)))] else [])]
  end.
Definition receive_request (op : opened_mail) (now : Z) (d : db X) : checked bool * db X * list effect :=
  match commit (apply op now) d with
  | (Err e, d') => (Err e, d', [])
  | (Ok (req, o), d') =>
      let peer := op_from op in
      let '(d'', effs) := match o with Duplicate_ => resubmitStale DirIn peer (ID req) now d' | _ => (d', []) end in
      (Ok false, d'', Wake :: effs ++
         (match o with Received _ _ false _ _ => [Notify (bytes_of "request.received") peer (ID req)] | _ => [] end) ++
         audit_received req peer o ++
         (match o with Received _ _ _ acceptAfter helperAfter => acceptAfter ++ helperAfter | _ => [] end))
  end.

(** ** A new request (submit.go) *)

Record SubmitParams := MkParams {
  pFrom : bytes; pTo : bytes; pTeam : bytes; pType : bytes; pTitle : bytes; pBrief : bytes; pUrgency : bytes; pUrgencyReason : bytes;
  pArtifacts : list Artifact; pGrant : option RequestedGrant; pContext : option (list ContextFile); pRun : option bytes; pDeadline : Z;
  IdempotencyKey : bytes; ParamsHash : bytes;
  Prepare : option (Request → checked Request);
  InTx : option (Request → Z → tx X unit);
}.
Record SubmitOutcome := MkOutcome { so_request : Request; so_mail : bytes; so_status : option mail_state; so_duplicate : bool; so_note : bytes }.
Definition maxIDDraws : nat := 8.

Definition budgetText (urgency : bytes) : bytes :=
  bytes_of (if bool_decide (urgency = UrgencyBlocking) then "2 blocking requests" else "5 high requests").
Definition submitUrgencyNote (urgency : bytes) : bytes :=
  bytes_of "sent as normal: your weekly budget of " ++ budgetText urgency ++ bytes_of " is used".
(** senderUrgency: the urgency to send, and the note of a downgrade. *)
Definition senderUrgency (urgency : bytes) (now : Z) (d : db X) : bytes * bytes :=
  if negb (one_of urgency [UrgencyHigh; UrgencyBlocking]) then (urgency, []) else
  let n := Z.of_nat (length (List.filter (λ r, bool_decide (q_direction r = DirOut) && bool_decide (q_urgency r = urgency) &&
                                               text_le (wireTime (now - urgencyBudgetWindow)) (q_created r)) (requests d))) in
  if budgetLimit urgency <=? n then (UrgencyNormal, submitUrgencyNote urgency) else (urgency, []).

Definition lookupIdem (to key : bytes) (d : db X) : option request :=
  List.find (λ r, bool_decide (q_direction r = DirOut) && bool_decide (q_peer r = to) && bool_decide (q_idemKey r = Some key)) (requests d).
Definition duplicateOutcome (row : request) (d : db X) : checked SubmitOutcome :=
  let? req := decodeStoredBody (q_body row) in
  Ok (MkOutcome req (q_mailID row) (mail_state_of (q_mailID row) d) true []).

Definition out_row (p : SubmitParams) (req : Request) (canon hash mid : bytes) (now : Z) : request :=
  let idem := bool_decide (IdempotencyKey p ≠ []) in
  RequestRow DirOut (pTo p) (ID req) (Team req) (Type_ req) (Urgency req) (effectiveDeclared req) None canon hash Pending 0 None None None None None
    None None (wireTime (Created req)) None mid None None (if idem then Some (IdempotencyKey p) else None) (if idem then Some (ParamsHash p) else None)
    None None None None (storeTime now) None None.

Inductive inserted := IDTaken | IdemRace | Inserted (o : SubmitOutcome).
(** insertOut: the out row and its mail in one transaction. A UNIQUE conflict
    of a submit with a key is a lost race: nothing is stored. *)
Definition insertOutTx (p : SubmitParams) (req : Request) (canon hash : bytes) (now : Z) : tx X inserted :=
  d ← tx_get (λ d, d);
  if idTaken (ID req) [] d then mret IDTaken else
  mid ← SubmitTx (pTo p) KindRequest (WireBody req) now;
  let row := out_row p req canon hash mid now in
  let conflict := existsb (is_request DirOut (pTo p) (ID req)) (requests d) ||
                  (bool_decide (IdempotencyKey p ≠ []) && bool_decide (is_Some (lookupIdem (pTo p) (IdempotencyKey p) d))) in
  if conflict then (if bool_decide (IdempotencyKey p ≠ []) then mret IdemRace else tx_err ErrUnique) else
  _ ← set_requests (λ l, l ++ [row]);
  _ ← match InTx p with Some f => f req now | None => mret tt end;
  mret (Inserted (MkOutcome req mid (Some MailQueued) false [])).
Definition insertOut (p : SubmitParams) (req : Request) (canon hash : bytes) (now : Z) (d : db X) : checked inserted * db X * list effect :=
  match insertOutTx p req canon hash now d with
  | Err e => (Err e, d, [])
  | Ok (Inserted o, d') => (Ok (Inserted o), d', [Wake])
  | Ok (o, _) => (Ok o, d, [])
  end.

Definition draft (p : SubmitParams) (id urgency declared : bytes) (now : Z) : Request :=
  MkRequest 1 id (pFrom p) (pTo p) (pTeam p) (pType p) (pTitle p) (pBrief p) urgency declared (pUrgencyReason p) (pArtifacts p) (pGrant p)
    (pDeadline p) (now / second * second) (pContext p) (pRun p) None.
Definition prepared (p : SubmitParams) (id urgency declared : bytes) (now : Z) : checked (Request * bytes) :=
  let? req := match Prepare p with Some f => f (draft p id urgency declared now) | None => Ok (draft p id urgency declared now) end in
  let? _ := Validate req in
  let? canon := Canonical req in
  let? _ := CheckSizeFor req canon in
  Ok (req, canon).

(** The ids the process draws, in order: a drawn id that a row here has is
    dropped and everything is built again from the next, at most 8 times. *)
Fixpoint submit_draws (p : SubmitParams) (newID : nat → bytes) (draw steps : nat) (urgency declared : bytes) (now : Z) (d : db X)
    : checked inserted * db X * list effect :=
  match steps with
  | O => (Err ErrNoUnusedID, d, [])
  | S steps =>
      match prepared p (newID draw) urgency declared now with
      | Err e => (Err e, d, [])
      | Ok (req, canon) =>
          match insertOut p req canon (BodyHash canon) now d with
          | (Ok IDTaken, d', _) => submit_draws p newID (S draw) steps urgency declared now d'
          | r => r
          end
      end
  end.

Definition with_note (note : bytes) (o : SubmitOutcome) : SubmitOutcome :=
  MkOutcome (so_request o) (so_mail o) (so_status o) (so_duplicate o) note.
(** The outcome of a key that is in use: the same params, or a conflict. *)
Definition idem_outcome (p : SubmitParams) (row : request) (d : db X) : checked SubmitOutcome :=
  if bool_decide (default [] (q_paramsHash row) = ParamsHash p) then duplicateOutcome row d else Err ErrIdempotencyConflict.
Definition Submit (p : SubmitParams) (newID : nat → bytes) (now : Z) (d : db X) : checked SubmitOutcome * db X * list effect :=
  match (match IdempotencyKey p with [] => None | key => lookupIdem (pTo p) key d end) with
  | Some row => (idem_outcome p row d, d, [])
  | None =>
      let '(urgency, note) := senderUrgency (pUrgency p) now d in
      let declared := match note with [] => [] | _ => pUrgency p end in
      match submit_draws p newID 0 maxIDDraws urgency declared now d with
      | (Err e, d', effs) => (Err e, d', effs)
      | (Ok (Inserted o), d', effs) => (Ok (with_note note o), d', effs)
      | (Ok _, d', effs) =>
          (match lookupIdem (pTo p) (IdempotencyKey p) d' with Some row => idem_outcome p row d' | None => Err ErrMissing end, d', effs)
      end
  end.

(** ** Lookups (query.go, inbox.go) *)

Definition Show (id from : bytes) (d : db X) : checked (View * option (option mail_state)) :=
  let find_in := match findInRow id from d with Ok (r, _) => Ok r | Err e => Err e end in
  let plain := λ r, let? v := toView r in Ok (v, None) in
  match from with
  | _ :: _ => let? r := find_in in plain r
  | [] =>
      match findOutRow id d, find_in with
      | Ok (out, _), Err ErrUnknownRequest => let? v := toView out in Ok (v, Some (mail_state_of (q_mailID out) d))
      | Ok _, Ok _ => Err ErrAmbiguousRequest
      | Err _, Ok r => plain r
      | _, Err e => Err e
      end
  end.

(** urgentAcceptance: of the sender's answered urgent requests of the last 30
    days, how many there were and how many were accepted. *)
Definition urgent_answered (peer : bytes) (now : Z) (r : request) : bool :=
  from_peer peer r && one_of (q_urgency r) [UrgencyHigh; UrgencyBlocking] && received_since (storeTime (now - maxAge)) r &&
  bool_decide (q_firstResponse r ≠ None).
Definition urgentAcceptance (peer : bytes) (now : Z) (d : db X) : Z * Z :=
  (count_in (urgent_answered peer now) d,
   count_in (λ r, urgent_answered peer now r && bool_decide (q_firstResponse r = Some (bytes_of "accept"))) d).

Record InboxRow := MkInbox { ib_view : View; ib_priority : Z; ib_due : bool; ib_note : bytes }.
Definition urgencyNote (downgradedBy : option bytes) (declared : bytes) : bytes :=
  match downgradedBy with
  | None => []
  | Some by_ =>
      if bool_decide (by_ = []) then []
      else if bool_decide (by_ = bytes_of "sender")
      then bytes_of "sent as normal: the sender's weekly budget of " ++ budgetText declared ++ bytes_of " was used"
      else bytes_of "shown as normal: this sender has used its weekly budget of " ++ budgetText declared ++ bytes_of " to you"
  end.
Definition deferredUntil (r : request) : Z := match q_deferredUntil r with Some ((_ :: _) as s) => parseWireTime s | _ => zeroTime end.
Definition receivedAt (r : request) : Z := match q_receivedAt r with Some s => parseStoreTime s | None => zeroTime end.
Definition due (now : Z) (r : request) : bool :=
  bool_decide (q_state r = Deferred) && negb (IsZero (deferredUntil r)) && negb (now <? deferredUntil r).
Definition inbox_row (r : request) (now : Z) (d : db X) : checked InboxRow :=
  let? v := toView r in
  let '(n, a) := urgentAcceptance (q_peer r) now d in
  Ok (MkInbox v (Priority (UrgencyBase (q_urgency r)) n a) (due now r) (urgencyNote (q_downgradedBy r) (q_urgencyDeclared r))).
Definition inbox_listed (team : bytes) (all : bool) (now : Z) (r : request) : bool :=
  bool_decide (q_direction r = DirIn) &&
  (all || bool_decide (q_state r = Pending) ||
   (bool_decide (q_state r = Deferred) && match q_deferredUntil r with Some t => text_le t (wireTime now) | None => false end)) &&
  (bool_decide (team = []) || bool_decide (q_teamID r = team)).
Definition inbox_first (x y : InboxRow) : bool :=
  let a := vw_row (ib_view x) in
  let b := vw_row (ib_view y) in
  if negb (ib_priority x =? ib_priority y) then ib_priority y <? ib_priority x
  else if negb (receivedAt a =? receivedAt b) then receivedAt a <? receivedAt b
  else if negb (bool_decide (q_peer a = q_peer b)) then text_lt (q_peer a) (q_peer b)
  else text_le (q_id a) (q_id b).
Fixpoint inbox_rows (l : list request) (now : Z) (d : db X) : checked (list InboxRow) :=
  match l with
  | [] => Ok []
  | r :: l => let? x := inbox_row r now d in let? xs := inbox_rows l now d in Ok (x :: xs)
  end.
Definition InboxList (team : bytes) (all : bool) (now : Z) (d : db X) : checked (list InboxRow) :=
  let? rows := inbox_rows (List.filter (inbox_listed team all now) (requests d)) now d in
  Ok (merge_sort (λ x y, Is_true (inbox_first x y)) rows).

(** List: the own requests, newest first, with the delivery of each. *)
Definition created_first (a b : request) : bool :=
  text_lt (q_created b) (q_created a) || (bool_decide (q_created a = q_created b) && text_le (q_id a) (q_id b)).
Definition list_matches (st : option request_state) (team peer : bytes) (r : request) : bool :=
  bool_decide (q_direction r = DirOut) && match st with Some s => bool_decide (q_state r = s) | None => true end &&
  (bool_decide (team = []) || bool_decide (q_teamID r = team)) && (bool_decide (peer = []) || bool_decide (q_peer r = peer)).
Fixpoint out_views (l : list request) (d : db X) : checked (list (View * option mail_state)) :=
  match l with
  | [] => Ok []
  | r :: l => let? v := toView r in let? vs := out_views l d in Ok ((v, mail_state_of (q_mailID r) d) :: vs)
  end.
Definition List_ (st : option request_state) (team peer : bytes) (d : db X) : checked (list (View * option mail_state)) :=
  out_views (merge_sort (λ a b, Is_true (created_first a b)) (List.filter (list_matches st team peer) (requests d))) d.
End RequestMail.
