(* ===== verification/WorkSession.v ===== *)
(** * Work sessions (internal/worksession)

    The session of an accepted request: authoritative on the requester (A,
    transitions.go, receive.go, cancel.go, hooks.go), mirrored on the worker
    (B, submit.go, mirror.go, cancel.go, phase1.go), in one table. Each
    operation is the transaction of the Go function and what it runs after
    the commit. Request.Store is called through its entry points
    (Requests.v); the debate, grant and quarantine hooks are [Env]. *)

From S2P Require Import Prelude Utf8 Canonical Strconv WireTime Body RequestObject Tables Experience Requests.

Open Scope Z_scope.

Definition KindResult : bytes := bytes_of "ws.result".
Definition KindState : bytes := bytes_of "ws.state".
Definition KindWsCancel : bytes := bytes_of "ws.cancel".
Definition idTag : bytes := bytes_of "dorylinae-ws-id-v1" ++ [0x0A].
Definition timeout_text : bytes := bytes_of "timeout".
Definition session_cancelled : bytes := bytes_of "session cancelled".
Definition unsupported_kind : bytes := bytes_of "unsupported_kind".

(** worksession.View. *)
Record View := MkView {
  v_ID : bytes; v_Kind : session_kind; v_Role : role; v_Peer : bytes; v_RequestID : bytes; v_TeamID : bytes;
  v_State : session_state; v_Outcome : option outcome; v_Seq : Z; v_Round : Z;
  v_Result : option WSResult; v_ResultBytes : Z; v_OutputBytes : Z; v_Artifacts : Z; v_ResultStatus : bytes; v_ResultRound : Z;
  v_Verification : option verification; v_Changes : bytes; v_Cancel : option cancel_mark; v_Released : bool;
  v_MailID : bytes; v_Runner : bool; v_Opened : Z; v_StateAt : Z; v_Closed : Z; v_Updated : Z;
}.

Definition view_of (r : session) (res : option WSResult) (rb ob n : Z) (st : bytes) : View :=
  MkView (s_id r) (s_kind r) (s_role r) (s_peer r) (s_requestID r) (s_teamID r) (s_state r) (s_outcome r) (s_seq r) (s_round r)
    res rb ob n st (default 0 (s_resultRound r)) (s_verification r) (default [] (s_changes r)) (s_cancel r) (s_released r)
    [] (s_runner r) (parseWireTime (s_opened r)) (parseWireTime (s_stateAt r))
    (match s_closed r with Some c => parseWireTime c | None => zeroTime end) (parseStoreTime (s_updated r)).

(** toView: a quarantined result is never handed out on the requester's side. *)
Definition toView (r : session) : checked View :=
  match s_result r with
  | Some ((_ :: _) as s) =>
      let? res := WS.decodeStoredResult s in
      let shown := if bool_decide (s_role r ≠ Requester) || bool_decide (s_state r ≠ StateQuarantined) then Some res else None in
      Ok (view_of r shown (Z.of_nat (length s)) (OutputBytes (Output (base res)))
            (Z.of_nat (length (default [] (Artifacts (base res))))) (Status (base res)))
  | _ => Ok (view_of r None 0 0 0 [])
  end%go.
Definition with_mail (v : View) (mid : bytes) : View :=
  MkView (v_ID v) (v_Kind v) (v_Role v) (v_Peer v) (v_RequestID v) (v_TeamID v) (v_State v) (v_Outcome v) (v_Seq v) (v_Round v)
    (v_Result v) (v_ResultBytes v) (v_OutputBytes v) (v_Artifacts v) (v_ResultStatus v) (v_ResultRound v)
    (v_Verification v) (v_Changes v) (v_Cancel v) (v_Released v) mid (v_Runner v) (v_Opened v) (v_StateAt v) (v_Closed v) (v_Updated v).

(** The body of a ws.state, in the order of its members. *)
Definition opt_of {A} (f : A → bytes) (o : option A) : bytes := match o with Some a => f a | None => [] end.
Definition state_body (row : session) (sq rnd : Z) (st : session_state) (o : option outcome) (v : option verification)
    (changes : bytes) (now : Z) : body :=
  [(bytes_of "at", VString (wireTime now)); (bytes_of "request", VString (s_requestID row)); (bytes_of "round", num rnd);
   (bytes_of "seq", num sq); (bytes_of "session", VString (s_id row)); (bytes_of "state", VString (state_text st))] ++
  opt_member "outcome" (opt_of outcome_text o) ++ opt_member "verification" (opt_of verification_text v) ++
  opt_member "changes" changes.

Definition verificationActor (v : option verification) : bytes :=
  match v with
  | Some VerificationHumanAccepted => role_text Requester
  | Some VerificationTestsPassed => role_text Worker
  | _ => []
  end.

(** The requests.Result of a stored session result. *)
Definition d14 (r : WSResult) : Result := base r.

(** Whole seconds from [opened] to now; 0 when opened does not parse. *)
Definition age_since (opened : bytes) (now : Z) : Z :=
  let o := parseWireTime opened in if IsZero o then 0 else Sub now o ÷ second.

Definition audit_session (action : string) (sid peer : bytes) (rest : body) : body :=
  [(bytes_of "session", VString sid); (bytes_of "peer", VString peer)] ++ rest.

(** auditClose and auditExperience. *)
Definition auditClose (row : session) (o : outcome) (now : Z) : list effect :=
  [OnClosed (s_id row);
   Audit daemon (bytes_of "ws.close") (audit_session "ws.close" (s_id row) (s_peer row)
     [(bytes_of "outcome", VString (outcome_text o)); (bytes_of "rounds", num (s_round row));
      (bytes_of "age_s", num (age_since (s_opened row) now))])].
Definition auditExperience (sid : bytes) (rl : role) (size : Z * bool) : list effect :=
  [Audit daemon (bytes_of "experience.write")
     ([(bytes_of "session", VString sid); (bytes_of "role", VString (role_text rl)); (bytes_of "bytes", num size.1)] ++
      if size.2 then [(bytes_of "truncated", VBool true)] else [])].
Definition audit_ignored (sid peer kind reason : bytes) : effect :=
  Audit daemon (bytes_of "ws.ignored") (audit_session "ws.ignored" sid peer
    [(bytes_of "kind", VString kind); (bytes_of "reason", VString reason)]).
Definition audit_orphan (sid peer kind : bytes) : effect :=
  Audit daemon (bytes_of "ws.orphan") (audit_session "ws.orphan" sid peer [(bytes_of "kind", VString kind)]).
Definition auditEarlyCompleteDropped (sid peer : bytes) : list effect :=
  [audit_ignored sid peer KindComplete (bytes_of "early_complete")].
Definition auditResultMismatch (sid peer : bytes) : list effect :=
  [audit_ignored sid peer KindComplete (bytes_of "result_mismatch")].

(** sameContent: B's note and result against A's view. *)
Definition sameContent (note : bytes) (res : option Result) (aNote : bytes) (aRes : option Result) : checked bool :=
  if negb (bool_decide (note = aNote)) then Ok false
  else match res, aRes with
       | None, None => Ok true
       | Some b, Some a =>
           let? cb := CanonicalResult b in let? ca := CanonicalResult a in Ok (bool_decide (ca = cb))
       | _, _ => Ok false
       end%go.

(** The title and brief of a stored request body (a lenient json.Unmarshal). *)
Definition summary_of (body_ : bytes) : bytes * bytes :=
  match parse_object body_ with
  | Ok m => (match member (bytes_of "title") m with Some (VString s) => s | _ => [] end,
             match member (bytes_of "brief") m with Some (VString s) => s | _ => [] end)
  | Err _ => ([], [])
  end.

Section WorkSession.
Context {X : Type} `{Env X}.

Definition DeriveID (a b requestID : bytes) : bytes :=
  bytes_of "s-" ++ hex_encode (take 16 (digest (idTag ++ a ++ [0x0A] ++ b ++ [0x0A] ++ requestID))).
Definition idA (rl : role) (peer : bytes) : bytes := match rl with Requester => Self | Worker => peer end.
Definition idB (rl : role) (peer : bytes) : bytes := match rl with Requester => peer | Worker => Self end.

(** ** Rows *)

Definition is_session (rl : role) (peer requestID : bytes) (r : session) : bool :=
  bool_decide (s_role r = rl) && bool_decide (s_peer r = peer) && bool_decide (s_requestID r = requestID).
Definition find_session (rl : role) (peer requestID : bytes) (d : db X) : option session :=
  List.find (is_session rl peer requestID) (sessions d).
Definition session_by_id (id : bytes) (d : db X) : option session :=
  List.find (λ r, bool_decide (s_id r = id)) (sessions d).
Definition findRowTx (rl : role) (peer requestID : bytes) : tx X session := tx_found ErrUnknownSession (find_session rl peer requestID).
Definition scanByID (id : bytes) : tx X session := tx_found ErrUnknownSession (session_by_id id).

Definition direction_of (rl : role) : direction := match rl with Worker => DirIn | Requester => DirOut end.
Definition request_of (rl : role) (peer requestID : bytes) (d : db X) : option request :=
  find_request (direction_of rl) peer requestID d.
Definition requestType (rl : role) (peer requestID : bytes) : tx X (option bytes) :=
  tx_get (λ d, option_map q_typ (request_of rl peer requestID d)).
Definition requestOutState (peer requestID : bytes) (d : db X) : option (bytes * request_state * bytes) :=
  option_map (λ r, (q_teamID r, q_state r, q_typ r)) (find_request DirOut peer requestID d).

(** The quarantine rule, when it is wired. *)
Definition quarantine (sid peer : bytes) (rnd : Z) : tx X bool :=
  match Quarantine with
  | None => mret false
  | Some q => x ← tx_get ext; tx_lift (q x sid peer rnd)
  end.
Definition revokeGrants (sid : bytes) (now : Z) : tx X unit :=
  match RevokeGrants with
  | None => mret tt
  | Some rv => x ← tx_get ext; x' ← tx_lift (rv x sid now); set_ext x'
  end.

(** ** Sending and closing (transitions.go) *)

(** sendState: the mail is stored as last_state and queued. [rnd] is the
    round of the row passed, which RequestChanges has already moved on. *)
Definition sendState (row : session) (sq rnd : Z) (st : session_state) (o : option outcome) (v : option verification)
    (changes : bytes) (now : Z) : tx X bytes :=
  let b := state_body row sq rnd st o v changes now in
  _ ← update_session (s_id row) (λ r, sset_lastStateSent (Some (storeTime now)) (sset_lastState (Some (KindState, b)) r));
  SubmitTx (s_peer row) KindState b now.

Definition requesterView (row : session) (o : outcome) : checked (bytes * option Result) :=
  if bool_decide (o = OutcomeAccepted) then
    match s_result row with
    | Some ((_ :: _) as s) => match WS.decodeStoredResult s with Ok r => Ok ([], Some (d14 r)) | Err e => Err e end
    | _ => Ok ([], None)
    end
  else Ok (session_cancelled, None).

Definition writeRequesterViewTx (row : session) (o : outcome) (now : Z) : tx X unit :=
  if bool_decide (s_kind row = KindDebate) then mret tt else
  '(note, res) ← tx_lift (requesterView row o);
  SetOutContentTx (s_peer row) (s_requestID row) note res now.

(** requestSummary: type, title and brief of the session's request row. *)
Definition requestSummary (rl : role) (peer requestID : bytes) (d : db X) : bytes * bytes * bytes :=
  match request_of rl peer requestID d with
  | None => ([], [], [])
  | Some q => (q_typ q, (summary_of (q_body q)).1, (summary_of (q_body q)).2)
  end.

(** The record of a close: the result is read only for outcome accepted. *)
Definition experience_input (row : session) (o : outcome) (v : option verification) (verificationBy cancelledBy : bytes)
    (now : Z) (d : db X) : Experience.Input :=
  let '(typ, title, brief) := requestSummary (s_role row) (s_peer row) (s_requestID row) d in
  let changes := match s_changes row with Some c => if 1 <? s_round row then c else [] | None => [] end in
  let worked := match s_result row, s_resultRound row with
                | Some ((_ :: _) as s), Some rr =>
                    if rr =? s_round row
                    then match WS.decodeStoredResult s with Ok r => (Status (base r), Summary (base r)) | Err _ => ([], []) end
                    else ([], [])
                | _, _ => ([], [])
                end in
  let accepted := bool_decide (o = OutcomeAccepted) in
  Experience.MkInput (s_id row) (s_requestID row) (role_text (s_role row)) Experience.KindWork_ (s_peer row) (s_teamID row) typ
    title brief (map (λ '(a, sn, st), Experience.MkGrant a sn st) (grants_of (ext d) (s_id row)))
    (s_round row) changes [] [] 0
    (if accepted then worked.1 else []) (if accepted then worked.2 else []) []
    (if accepted && (1 <? s_round row) then s_round row - 1 else 0)
    (if accepted then changes else []) 0 (if accepted then [] else cancelledBy) []
    (opt_of verification_text v) verificationBy (outcome_text o) (age_since (s_opened row) now) None
    (parseWireTime (s_opened row)) now.

Definition writeExperienceTx (row : session) (o : outcome) (v : option verification) (verificationBy cancelledBy : bytes)
    (now : Z) : tx X (Z * bool) :=
  i ← tx_get (experience_input row o v verificationBy cancelledBy now);
  Experience.WriteTx i now.

(** The columns every close sets. *)
Definition close_columns (o : outcome) (now : Z) (r : session) : session :=
  sset_updated (storeTime now) (sset_closed (Some (wireTime now)) (sset_stateAt (wireTime now) (sset_outcome (Some o) (sset_state StateClosed r)))).

Definition closeSessionTx (row : session) (o : outcome) (v : option verification) (verificationBy cancelledBy : bytes) (now : Z)
    : tx X (Z * bool * bytes) :=
  let sq := s_seq row + 1 in
  mid ← sendState row sq (s_round row) StateClosed (Some o) v [] now;
  _ ← update_session (s_id row) (λ r, close_columns o now (sset_verification v (sset_seq sq r)));
  _ ← revokeGrants (s_id row) now;
  _ ← (if bool_decide (s_role row = Requester) then writeRequesterViewTx row o now else mret tt);
  size ← writeExperienceTx row o v verificationBy cancelledBy now;
  mret (size, mid).

(** The checks every transition of A starts with. *)
Definition requester_row (id : bytes) : tx X session :=
  r ← scanByID id;
  if negb (bool_decide (s_role r = Requester)) then tx_err ErrNotRequester else mret r.
Definition bad_state {A} (r : session) : tx X A := tx_err (BadStateError (state_text (s_state r))).
Definition in_state (r : session) (allowed : list session_state) : tx X unit :=
  if bool_decide (s_kind r = KindDebate) then bad_state r
  else if bool_decide (s_state r ∈ allowed) then mret tt else bad_state r.

(** findByID and viewWithMail, which read after the commit. *)
Definition findByID (id : bytes) (d : db X) : checked session :=
  match reread d with
  | Err e => Err e
  | Ok _ => match session_by_id id d with None => Err ErrUnknownSession | Some r => Ok r end
  end.
Definition viewWithMail (id mid : bytes) (d : db X) : checked View :=
  match findByID id d with
  | Err e => Err e
  | Ok r => match toView r with Ok v => Ok (with_mail v mid) | Err e => Err e end
  end.

(** A call of A: its transaction, then Wake, its effects and the view. *)
Definition call_with_view (id : bytes) (m : tx X (bytes * list effect)) (d : db X) : checked View * db X * list effect :=
  match commit m d with
  | (Err e, d') => (Err e, d', [])
  | (Ok (mid, effs), d') => (viewWithMail id mid d', d', Wake :: effs)
  end.

Definition AcceptResultTx (id : bytes) (now : Z) : tx X (bytes * list effect) :=
  r ← requester_row id;
  _ ← in_state r [StateAwaitingResult];
  '(size, mid) ← closeSessionTx r OutcomeAccepted (s_verification r) (verificationActor (s_verification r)) [] now;
  mret (mid, Audit cli (bytes_of "ws.accept_result") (audit_session "" id (s_peer r)
               [(bytes_of "round", num (s_round r)); (bytes_of "verification", VString (opt_of verification_text (s_verification r)))])
             :: auditClose r OutcomeAccepted now ++ auditExperience (s_id r) (s_role r) size).
Definition AcceptResult (id : bytes) (now : Z) (d : db X) := call_with_view id (AcceptResultTx id now) d.

Definition changes_columns (sq rnd : Z) (changes : bytes) (now : Z) (r : session) : session :=
  sset_updated (storeTime now) (sset_stateAt (wireTime now) (sset_released false (sset_changes (Some changes)
    (sset_verification None (sset_resultRound None (sset_result None (sset_round rnd (sset_seq sq
      (sset_outcome None (sset_state StateOpen r)))))))))).
Definition RequestChangesTx (id changes : bytes) (now : Z) : tx X (bytes * list effect) :=
  r ← requester_row id;
  _ ← in_state r [StateAwaitingResult; StateQuarantined];
  let rnd := s_round r + 1 in
  let sq := s_seq r + 1 in
  mid ← sendState r sq rnd StateOpen None None changes now;
  _ ← update_session id (changes_columns sq rnd changes now);
  mret (mid, [Audit cli (bytes_of "ws.request_changes") (audit_session "" id (s_peer r)
                ((bytes_of "round", num rnd) ::
                 if bool_decide (s_state r = StateQuarantined) then [(bytes_of "from", text "quarantined")] else []))]).
Definition RequestChanges (id changes : bytes) (now : Z) (d : db X) : checked View * db X * list effect :=
  match checkCodePoints (field "changes") changes 1 4000 newline_tab with
  | Err e => (Err e, d, [])
  | Ok _ => call_with_view id (RequestChangesTx id changes now) d
  end.

Definition discard_columns (sq now : Z) (r : session) : session :=
  close_columns OutcomeCancelled now (sset_verification None (sset_resultRound None (sset_result None (sset_seq sq r)))).
Definition DiscardTx (id : bytes) (now : Z) : tx X (bytes * list effect) :=
  r ← requester_row id;
  _ ← in_state r [StateQuarantined];
  let sq := s_seq r + 1 in
  mid ← sendState r sq (s_round r) StateClosed (Some OutcomeCancelled) None [] now;
  _ ← update_session id (discard_columns sq now);
  _ ← revokeGrants id now;
  _ ← writeRequesterViewTx r OutcomeCancelled now;
  size ← writeExperienceTx r OutcomeCancelled None [] (role_text Requester) now;
  mret (mid, Audit cli (bytes_of "ws.discard") (audit_session "" id (s_peer r) [(bytes_of "round", num (s_round r))])
             :: auditClose r OutcomeCancelled now ++ auditExperience (s_id r) (s_role r) size).
Definition Discard (id : bytes) (now : Z) (d : db X) := call_with_view id (DiscardTx id now) d.

Definition CancelSessionTx (id : bytes) (now : Z) : tx X (bytes * list effect) :=
  r ← requester_row id;
  if negb (bool_decide (s_state r = StateOpen)) then bad_state r else
  let audit := Audit cli (bytes_of "ws.cancel") (audit_session "" id (s_peer r) [(bytes_of "role", VString (role_text Requester))]) in
  if bool_decide (s_kind r = KindDebate) then
    match Debates with
    | None => bad_state r
    | Some h =>
        after ← CancelTx h id now;
        mret ([], audit :: match after with
                           | Some effs => effs
                           | None => auditClose r OutcomeCancelled now ++ auditExperience (s_id r) (s_role r) (0, false)
                           end)
    end
  else
    '(size, mid) ← closeSessionTx r OutcomeCancelled None [] (role_text Requester) now;
    mret (mid, audit :: auditClose r OutcomeCancelled now ++ auditExperience (s_id r) (s_role r) size).
Definition Cancel (id reason : bytes) (now : Z) (d : db X) : checked View * db X * list effect :=
  match when_set reason (checkCodePoints (field "reason") reason 1 500 []) with
  | Err e => (Err e, d, [])
  | Ok _ => call_with_view id (CancelSessionTx id now) d
  end.

Definition release_columns (sq now : Z) (r : session) : session :=
  sset_updated (storeTime now) (sset_stateAt (wireTime now) (sset_released true (sset_seq sq (sset_state StateAwaitingResult r)))).
Definition ReleaseInTx (id : bytes) (now : Z) : tx X (bytes * Z) :=
  r ← requester_row id;
  _ ← in_state r [StateQuarantined];
  let sq := s_seq r + 1 in
  _ ← sendState r sq (s_round r) StateAwaitingResult None None [] now;
  _ ← update_session id (release_columns sq now);
  mret (s_peer r, s_round r).
Definition ReleaseApprovedTx (id approvalID : bytes) (now : Z) : tx X effect :=
  '(peer, rnd) ← ReleaseInTx id now;
  AppendTx cli (bytes_of "ws.release") (audit_session "" id peer [(bytes_of "round", num rnd); (bytes_of "approval", VString approvalID)]).
Definition ReleaseApproved (id approvalID : bytes) (now : Z) (d : db X) : checked View * db X * list effect :=
  match approvalID with
  | [] => (Err ErrMissing, d, [])
  | _ => match commit (ReleaseApprovedTx id approvalID now) d with
         | (Err e, d') => (Err e, d', [])
         | (Ok row, d') => (viewWithMail id [] d', d', [row; Wake])
         end
  end.

Definition AcceptResultInTx (id : bytes) (now : Z) : tx X (bytes * Z * bytes * (Z * bool)) :=
  r ← requester_row id;
  _ ← in_state r [StateAwaitingResult];
  '(size, _) ← closeSessionTx r OutcomeAccepted (Some VerificationHumanAccepted) (role_text Requester) [] now;
  mret (s_peer r, s_round r, s_opened r, size).
Definition AuditAfterHumanAccept (id peer : bytes) (rnd : Z) (opened : bytes) (now : Z) (size : Z * bool) : list effect :=
  [Wake; OnClosed id] ++ auditExperience id Requester size ++
  [Audit cli (bytes_of "ws.accept_result") (audit_session "" id peer
     [(bytes_of "round", num rnd); (bytes_of "verification", VString (verification_text VerificationHumanAccepted))]);
   Audit daemon (bytes_of "ws.close") (audit_session "" id peer
     [(bytes_of "outcome", VString (outcome_text OutcomeAccepted)); (bytes_of "rounds", num rnd); (bytes_of "age_s", num (age_since opened now))])].

Definition PeekTx (id : bytes) : tx X (role * session_state * Z) :=
  r ← scanByID id; mret (s_role r, s_state r, s_seq r).

(** ** The hooks of the request life cycle (hooks.go) *)

Definition new_session (sid : bytes) (rl : role) (peer requestID teamID : bytes) (k : session_kind) (now : Z) : session :=
  SessionRow sid rl peer requestID teamID StateOpen None 0 1 None None None None None None false None None
    (wireTime now) (wireTime now) None (storeTime now) k false.

Definition auditOpen (actor sid requestID peer : bytes) (rl : role) : tx X (list effect) :=
  AppendTxSoft actor (bytes_of "ws.open") [(bytes_of "session", VString sid); (bytes_of "request", VString requestID);
    (bytes_of "peer", VString peer); (bytes_of "role", VString (role_text rl))].

(** A row with that primary key or that (role, peer, request_id). *)
Definition conflicts (sid : bytes) (rl : role) (peer requestID : bytes) (d : db X) : bool :=
  existsb (λ r, bool_decide (s_id r = sid) || is_session rl peer requestID r) (sessions d).

Definition ws_OpenSession (actor : bytes) (rl : role) (peer requestID teamID : bytes) (now : Z) : tx X (list effect) :=
  let sid := DeriveID (idA rl peer) (idB rl peer) requestID in
  typ ← requestType rl peer requestID;
  let debate := bool_decide (typ = Some TypeDebate) in
  if debate && bool_decide (is_Some Debates → False) then tx_err ErrNotWired else
  let k := if debate then KindDebate else KindWork in
  old ← tx_get (conflicts sid rl peer requestID);
  effs ← (if (old : bool) then mret [] else
          _ ← set_sessions (λ l, l ++ [new_session sid rl peer requestID teamID k now]);
          auditOpen actor sid requestID peer rl);
  match Debates with
  | Some h => if debate then _ ← OpenedTx h rl peer requestID sid now; mret effs else mret effs
  | None => mret effs
  end.

Definition keep : CompleteContent := Requests.MkContent false [] None false [].
Definition drop_content : CompleteContent := Requests.MkContent true [] None true [].

Definition earlyCompleteDebate (row : session) (hadResult : bool) (now : Z) : tx X (CompleteContent * list effect) :=
  match Debates with
  | None => tx_err ErrNotWired
  | Some h =>
      effs ← EarlyCompleteTx h (s_id row) now;
      mret (drop_content, effs ++ if hadResult then auditEarlyCompleteDropped (s_id row) (s_peer row) else [])
  end.

(** EarlyComplete without a session row. *)
Definition early_no_session (peer requestID : bytes) (hadResult : bool) : tx X (CompleteContent * list effect) :=
  let sid := DeriveID Self peer requestID in
  typ ← requestType Requester peer requestID;
  if bool_decide (typ = Some TypeDebate) then
    mret (drop_content, if hadResult then auditEarlyCompleteDropped sid peer else [])
  else if hadResult then
    q ← quarantine sid peer 0;
    mret (if (q : bool) then (drop_content, auditEarlyCompleteDropped sid peer) else (keep, []))
  else mret (keep, []).

Definition ws_EarlyComplete (peer requestID note : bytes) (res : option Result) (now : Z) : tx X (CompleteContent * list effect) :=
  let hadResult := bool_decide (res ≠ None) || negb (bool_decide (note = [])) in
  found ← tx_get (find_session Requester peer requestID);
  match found with
  | None => early_no_session peer requestID hadResult
  | Some row =>
      if bool_decide (s_kind row = KindDebate) && negb (bool_decide (s_state row = StateClosed))
      then earlyCompleteDebate row hadResult now else
      quarantined ← (if hadResult then quarantine (s_id row) peer (s_round row) else mret false);
      match s_state row with
      | StateClosed =>
          if bool_decide (s_kind row = KindDebate) then
            (* a closed debate: its request.complete is the normal end *)
            mret (if (quarantined : bool) then (drop_content, auditEarlyCompleteDropped (s_id row) peer) else (keep, []))
          else
            '(aNote, aRes) ← tx_lift (requesterView row (default OutcomeCancelled (s_outcome row)));
            same ← tx_lift (sameContent note res aNote aRes);
            mret (Requests.MkContent true aNote aRes quarantined
                    (if (same : bool) then [] else auditResultMismatch (s_id row) peer), [])
      | StateAwaitingResult | StateQuarantined =>
          mret (drop_content, if hadResult then auditEarlyCompleteDropped (s_id row) peer else [])
      | StateOpen =>
          let phase2 := (1 <? s_round row) || (0 <? s_seq row) in
          let cc := if phase2 then Requests.MkContent true session_cancelled None true []
                    else if (quarantined : bool) then drop_content else keep in
          '(size, _) ← closeSessionTx row OutcomeCancelled None [] (role_text Worker) now;
          mret (cc, auditClose row OutcomeCancelled now ++ auditExperience (s_id row) (s_role row) size ++
                    if quarantined || (phase2 && hadResult) then auditEarlyCompleteDropped (s_id row) peer else [])
      end
  end.

Definition ws_SessionEndedTx (peer requestID : bytes) (now : Z) : tx X (list effect) :=
  found ← tx_get (find_session Requester peer requestID);
  match found with
  | None => mret []
  | Some row =>
      if negb (bool_decide (s_state row = StateOpen)) then mret []
      else if bool_decide (s_kind row = KindDebate) then
        match Debates with None => tx_err ErrNotWired | Some h => EarlyCompleteTx h (s_id row) now end
      else
        '(size, _) ← closeSessionTx row OutcomeCancelled None [] (role_text Worker) now;
        mret (auditClose row OutcomeCancelled now ++ auditExperience (s_id row) (s_role row) size)
  end.

Definition ws_MarkRunnerTx (peer requestID : bytes) : tx X unit :=
  set_sessions (update_where (is_session Worker peer requestID) (sset_runner true)).

(** CloseDebateTx (debate.go): the debate store closes its session with it. *)
Definition CloseDebateTx (sid : bytes) (o : outcome) (now : Z) : tx X (list effect) :=
  r ← scanByID sid;
  if negb (bool_decide (s_kind r = KindDebate)) then tx_err ErrMissing else
  if bool_decide (s_state r = StateClosed) then mret [] else
  _ ← update_session sid (λ r, sset_cancel None (close_columns o now r));
  _ ← revokeGrants sid now;
  mret (auditClose r o now).
End WorkSession.
