(* ===== verification/SessionMail.v ===== *)
(** * Work sessions: mail and submissions (internal/worksession)

    What the worker sends (submit.go, cancel.go), what each side does with a
    received ws.result, ws.state or ws.cancel (receive.go, mirror.go,
    cancel.go), the Phase 1 fallback (phase1.go) and the lookups (store.go).
    A received mail is an Apply inside the receiver's transaction and an After
    that runs once it is committed; [receive] is the two together. *)

From S2P Require Import Prelude Utf8 Canonical Strconv WireTime Body RequestObject Tables Experience Requests WorkSession.

Open Scope Z_scope.

Inductive Submitter := ByAgent | ByRunner.
#[export] Instance Submitter_eq_dec : EqDecision Submitter.
Proof. solve_decision. Defined.

(** ** The bodies of ws.result, ws.state and ws.cancel *)

Record result_mail := ResultMail { rm_request : bytes; rm_round : Z; rm_session : bytes; rm_result : WSResult }.
Record state_mail := StateMail {
  sm_at : Z; sm_request : bytes; sm_round : Z; sm_seq : Z; sm_session : bytes; sm_state : session_state;
  sm_outcome : option outcome; sm_changes : bytes; sm_verification : option verification;
}.
Record cancel_mail := CancelMail { cm_request : bytes; cm_session : bytes; cm_reason : bytes }.

Definition parse_state (s : bytes) : option session_state :=
  List.find (λ st, bool_decide (state_text st = s)) [StateOpen; StateAwaitingResult; StateQuarantined; StateClosed].
Definition parse_outcome (s : bytes) : option outcome :=
  List.find (λ o, bool_decide (outcome_text o = s)) [OutcomeAccepted; OutcomeCancelled].

(** An optional member with a list of values: absent, or one of them. *)
Definition decode_choice {A} (parse : bytes → option A) (b : body) (f : bytes) : checked (option A) :=
  let? s := WS.decodeOptionalNonEmpty b f in
  match s with
  | [] => Ok None
  | _ => match parse s with Some a => Ok (Some a) | None => Err ErrBadBody end
  end%go.

Definition members (l : list string) : list bytes := map bytes_of l.
Definition field_ (s : string) : bytes := bytes_of s.

Definition decode_result_mail (derived : bytes → bytes) (b : body) : checked result_mail :=
  let? _ := strictMembers b (members ["at"; "request"; "result"; "round"; "session"]%string) in
  let? at_ := WS.decodeTime_ b (field_ "at") in
  let? reqID := WS.decodeString b (field_ "request") in
  let? round := WS.decodeInt b (field_ "round") in
  guard? negb (round <? 1) else ErrBadBody in
  let? sid := WS.decodeString b (field_ "session") in
  guard? bool_decide (sid = derived reqID) else ErrBadBody in
  let? raw := match member (field_ "result") b with Some (VObject m) => Ok m | _ => Err ErrBadBody end in
  let? res := as_bad_body (WS.DecodeResult raw) in
  let? _ := as_bad_body (WS.ValidateResult res) in
  let? canon := as_bad_body (WS.resultBodyCanonical sid reqID round at_ res) in
  let? _ := as_bad_body (WS.CheckResultSize canon) in
  Ok (ResultMail reqID round sid res).

Definition decode_state_mail (derived : bytes → bytes) (b : body) : checked state_mail :=
  let? _ := strictMembers b (members ["at"; "changes"; "outcome"; "request"; "round"; "seq"; "session"; "state"; "verification"]%string) in
  let? at_ := WS.decodeTime_ b (field_ "at") in
  let? reqID := WS.decodeString b (field_ "request") in
  let? round := WS.decodeInt b (field_ "round") in
  guard? negb (round <? 1) else ErrBadBody in
  let? sq := WS.decodeInt b (field_ "seq") in
  guard? negb (sq <? 1) else ErrBadBody in
  let? sid := WS.decodeString b (field_ "session") in
  guard? bool_decide (sid = derived reqID) else ErrBadBody in
  let? s := WS.decodeString b (field_ "state") in
  let? st := match parse_state s with Some st => Ok st | None => Err ErrBadBody end in
  let? o := decode_choice parse_outcome b (field_ "outcome") in
  guard? bool_decide (bool_decide (o ≠ None) = bool_decide (st = StateClosed)) else ErrBadBody in
  let? changes := WS.decodeOptionalNonEmpty b (field_ "changes") in
  let? _ := when_set changes
    (if negb (bool_decide (st = StateOpen)) || (round <? 2) then Err ErrBadBody
     else as_bad_body (checkCodePoints (field_ "changes") changes 1 4000 newline_tab)) in
  let? v := decode_choice parse_verification b (field_ "verification") in
  guard? bool_decide (v = None) || bool_decide (o = Some OutcomeAccepted) else ErrBadBody in
  Ok (StateMail at_ reqID round sq sid st o changes v).

Definition decode_cancel_mail (derived : bytes → bytes) (b : body) : checked cancel_mail :=
  let? _ := strictMembers b (members ["at"; "reason"; "request"; "session"]%string) in
  let? _ := WS.decodeTime_ b (field_ "at") in
  let? reqID := WS.decodeString b (field_ "request") in
  let? sid := WS.decodeString b (field_ "session") in
  guard? bool_decide (sid = derived reqID) else ErrBadBody in
  let? reason := WS.decodeOptionalNonEmpty b (field_ "reason") in
  let? _ := when_set reason (as_bad_body (checkCodePoints (field_ "reason") reason 1 500 [])) in
  Ok (CancelMail reqID sid reason).

(** ** What Apply leaves for After *)

Inductive resultOutcome :=
| ResultOrphan (sid peer : bytes)
| ResultIgnored (reason sid peer : bytes)
| ResultApplied (sid peer requestID : bytes) (rnd sq : Z) (quarantined : bool) (resultBytes outputBytes artifacts : Z).

Inductive stateOutcome :=
| StateOrphan (sid peer : bytes)
| StateDuplicate
| StateIgnored (reason sid peer : bytes)
| StateApplied (sid peer requestID : bytes) (st : session_state) (sq rnd : Z) (newRound autoCancel : bool)
    (auditComplete : list effect) (size : Z * bool).

Inductive cancelOutcome :=
| CancelOrphan (sid peer : bytes)
| CancelOutcome (result sid peer : bytes) (debate : bool) (closed : option (session * (Z * bool))) (debateAfter : list effect).

Definition refused : bytes := bytes_of "refused".
Definition cancelled_ : bytes := bytes_of "cancelled".
Definition ignored_kind : bytes := bytes_of "kind".
Definition ignored_state : bytes := bytes_of "state".
Definition ignored_round : bytes := bytes_of "round".
Definition ignored_closed : bytes := bytes_of "closed".
Definition ten_minutes : Z := 600 * second.

(** What a ws.state sets on the mirror. *)
Definition cancel_after (st : session_state) (c : option cancel_mark) : option cancel_mark :=
  match st with
  | StateAwaitingResult | StateQuarantined => match c with Some CancelRequested => Some CancelRefused | c => c end
  | StateOpen | StateClosed => None
  end.
Definition drops_result (st : session_state) (o : option outcome) : bool :=
  bool_decide (st = StateOpen) || (bool_decide (st = StateClosed) && bool_decide (o = Some OutcomeCancelled)).
Definition clear_result (r : session) : session := sset_resultMail None (sset_resultRound None (sset_result None r)).
Definition mirror_columns (m : state_mail) (now : Z) (r : session) : session :=
  let r := sset_changes (opt_text (sm_changes m)) (sset_outcome (sm_outcome m) (sset_cancel (cancel_after (sm_state m) (s_cancel r))
    (sset_updated (storeTime now) (sset_stateAt (wireTime (sm_at m)) (sset_round (sm_round m) (sset_seq (sm_seq m)
      (sset_state (sm_state m) r))))))) in
  let r := match sm_verification m with Some v => sset_verification (Some v) r | None => r end in
  let r := if bool_decide (sm_state m = StateClosed) then sset_closed (Some (wireTime (sm_at m))) r else r in
  if drops_result (sm_state m) (sm_outcome m) then clear_result r else r.

(** What a ws.result sets on A's row. *)
Definition result_columns (st : session_state) (sq rnd : Z) (canon : bytes) (v : option verification) (now : Z) (r : session) : session :=
  sset_updated (storeTime now) (sset_stateAt (wireTime now) (sset_verification v (sset_resultRound (Some rnd)
    (sset_result (Some canon) (sset_seq sq (sset_state st r)))))).

Section Mail.
Context {X : Type} `{Env X}.

(** ** ws.result on A (receive.go) *)

Definition ignored_result (reason sid peer : bytes) : tx X (bool * resultOutcome) := mret (true, ResultIgnored reason sid peer).

(** Step 3: the session row, made when the result overtook the accept. *)
Definition find_or_open (sid peer reqID teamID : bytes) (now : Z) : tx X (session * list effect) :=
  found ← tx_get (find_session Requester peer reqID);
  match found with
  | Some row => mret (row, [])
  | None =>
      old ← tx_get (conflicts sid Requester peer reqID);
      if (old : bool) then tx_err ErrUnique else
      _ ← set_sessions (λ l, l ++ [new_session sid Requester peer reqID teamID KindWork now]);
      row ← findRowTx Requester peer reqID;
      effs ← auditOpen daemon sid reqID peer Requester;
      mret (row, effs)
  end.

(** Step 5: the transition itself. *)
Definition apply_result_row (row : session) (peer : bytes) (m : result_mail) (now : Z) : tx X (bool * resultOutcome) :=
  quarantined ← quarantine (s_id row) peer (rm_round m);
  let st := if (quarantined : bool) then StateQuarantined else StateAwaitingResult in
  let sq := s_seq row + 1 in
  _ ← sendState row sq (s_round row) st None None [] now;
  canon ← tx_lift (as_bad_body (WS.CanonicalResult (rm_result m)));
  _ ← update_session (s_id row)
        (result_columns st sq (rm_round m) canon (parse_verification (Verification (rm_result m))) now);
  mret (quarantined, ResultApplied (s_id row) peer (rm_request m) (rm_round m) sq quarantined (ResultBytes canon)
          (OutputBytes (Output (base (rm_result m)))) (Z.of_nat (length (default [] (Artifacts (base (rm_result m))))))).

Definition applyResult (op : opened_mail) (now : Z) : tx X (bool * resultOutcome * list effect) :=
  m ← tx_lift (decode_result_mail (DeriveID (op_to op) (op_from op)) (op_body op));
  let peer := op_from op in
  out ← tx_get (requestOutState peer (rm_request m));
  match out with
  | None => mret (true, ResultOrphan (rm_session m) peer, [])
  | Some (teamID, st, typ) =>
      if bool_decide (typ = TypeDebate) then mret (true, ResultIgnored ignored_kind (rm_session m) peer, []) else
      if bool_decide (st ∈ [Declined; Cancelled; Completed]) then mret (true, ResultIgnored ignored_state [] peer, []) else
      '(row, opened) ← find_or_open (rm_session m) peer (rm_request m) teamID now;
      res ← (if negb (bool_decide (s_state row = StateOpen)) then ignored_result ignored_state (s_id row) peer
             else if negb (rm_round m =? s_round row) then ignored_result ignored_round (s_id row) peer
             else apply_result_row row peer m now);
      mret (res, opened)
  end.

(** resendLastState: its own transaction; an error is swallowed. *)
Definition resendLastState (sid : bytes) (now : Z) (d : db X) : db X * list effect :=
  match findByID sid d with
  | Ok row =>
      match s_lastState row with
      | Some (kind, b) =>
          let recent := match s_lastStateSent row with
                        | Some sent => Sub now (parseStoreTime sent) <? ten_minutes
                        | None => false
                        end in
          if bool_decide (sid = []) || recent then (d, []) else
          match commit (_ ← SubmitTx (s_peer row) kind b now; update_session sid (sset_lastStateSent (Some (storeTime now)))) d with
          | (Ok _, d') => (d', [Wake])
          | (Err _, d') => (d', [])
          end
      | None => (d, [])
      end
  | Err _ => (d, [])
  end.

Definition afterResult (o : resultOutcome) (now : Z) (d : db X) : db X * list effect :=
  match o with
  | ResultOrphan sid peer => (d, [Wake; audit_orphan sid peer KindResult])
  | ResultIgnored reason sid peer =>
      let '(d', effs) := if bool_decide (reason = ignored_kind) then (d, []) else resendLastState sid now d in
      (d', Wake :: effs ++ [audit_ignored sid peer KindResult reason])
  | ResultApplied sid peer requestID rnd _ quarantined rb ob n =>
      (d, [Wake; (if quarantined then OnQuarantined sid peer requestID else OnResult sid peer requestID);
           Audit daemon (bytes_of "ws.result_in") (audit_session "" sid peer
             [(bytes_of "round", num rnd); (bytes_of "result_bytes", num rb); (bytes_of "output_bytes", num ob);
              (bytes_of "artifacts", num n); (bytes_of "quarantined", VBool quarantined)])])
  end.

(** A received mail: Apply in the receiver's transaction, then After. The
    value says whether the inbox copy is withheld. *)
Definition receive_result (op : opened_mail) (now : Z) (d : db X) : checked bool * db X * list effect :=
  match commit (applyResult op now) d with
  | (Err e, d') => (Err e, d', [])
  | (Ok (withhold, o, effs), d') => let '(d'', effs') := afterResult o now d' in (Ok withhold, d'', effs ++ effs')
  end.

(** ** Submissions of the worker (submit.go, cancel.go) *)

Definition cancel_body (row : session) (reason : bytes) (now : Z) : body :=
  [(bytes_of "at", VString (wireTime now)); (bytes_of "request", VString (s_requestID row));
   (bytes_of "session", VString (s_id row))] ++ opt_member "reason" reason.
Definition submitCancelTx (row : session) (reason : bytes) (now : Z) : tx X bytes :=
  mid ← SubmitTx (s_peer row) KindWsCancel (cancel_body row reason now) now;
  _ ← update_session (s_id row) (λ r, sset_updated (storeTime now) (sset_cancel (Some CancelRequested) r));
  mret mid.

Definition cancel_requested (r : session) : bool := bool_decide (s_cancel r = Some CancelRequested).
Definition not_by_runner (r : session) (by_ : Submitter) : bool := s_runner r && negb (bool_decide (by_ = ByRunner)).
Definition audit_ws_cancel (actor sid peer : bytes) : effect :=
  Audit actor (bytes_of "ws.cancel") (audit_session "" sid peer [(bytes_of "role", VString (role_text Worker))]).

(** A result for the current round is stored already. *)
Definition answered (r : session) : bool :=
  match s_result r, s_resultRound r with Some _, Some n => n =? s_round r | _, _ => false end.
Definition submitted_columns (canon mid : bytes) (rnd now : Z) (r : session) : session :=
  sset_updated (storeTime now) (sset_resultMail (Some mid) (sset_resultRound (Some rnd) (sset_result (Some canon) r))).

(** submitResultTx: None when there is no session. *)
Definition submitResultTx (peer requestID : bytes) (res : WSResult) (by_ : Submitter) (now : Z) : tx X (option (bytes * list effect)) :=
  found ← tx_get (find_session Worker peer requestID);
  match found with
  | None => mret None
  | Some row =>
      if bool_decide (s_kind row = KindDebate) || not_by_runner row by_ || negb (bool_decide (s_state row = StateOpen)) ||
         cancel_requested row || answered row
      then bad_state row else
      c ← tx_lift (WS.resultBodyCanonical (s_id row) requestID (s_round row) now res);
      _ ← tx_lift (WS.CheckResultSize c);
      canon ← tx_lift (WS.CanonicalResult res);
      mid ← SubmitTx peer KindResult (WS.result_body (s_id row) requestID (s_round row) now res) now;
      _ ← update_session (s_id row) (submitted_columns canon mid (s_round row) now);
      mret (Some (mid, [Audit cli (bytes_of "ws.result") (audit_session "" (s_id row) peer
        [(bytes_of "round", num (s_round row)); (bytes_of "result_bytes", num (ResultBytes canon));
         (bytes_of "output_bytes", num (OutputBytes (Output (base res))));
         (bytes_of "artifacts", num (Z.of_nat (length (default [] (Artifacts (base res))))));
         (bytes_of "verification", VString (Verification res))])]))
  end.

(** SubmitResult: the mail id, or None when there is no session. *)
Definition SubmitResult (peer requestID : bytes) (res : WSResult) (by_ : Submitter) (now : Z) (d : db X)
    : checked (option bytes) * db X * list effect :=
  match WS.ValidateResult res with
  | Err e => (Err e, d, [])
  | Ok _ => match commit (submitResultTx peer requestID res by_ now) d with
            | (Err e, d') => (Err e, d', [])
            | (Ok None, d') => (Ok None, d', [])
            | (Ok (Some (mid, effs)), d') => (Ok (Some mid), d', Wake :: effs)
            end
  end.

Definition shorthand (note : bytes) (res : option Result) : WSResult :=
  MkWSResult (match res with Some r => r | None => MkResult ResultNA [] None [] None end) (bytes_of "none") note.
Definition ws_CompleteShorthand (peer requestID note : bytes) (res : option Result) (now : Z) (d : db X)
    : option (checked unit) * db X * list effect :=
  match SubmitResult peer requestID (shorthand note res) ByAgent now d with
  | (Ok None, d', effs) => (None, d', effs)
  | (Ok (Some _), d', effs) => (Some (Ok tt), d', effs)
  | (Err e, d', effs) => (Some (Err e), d', effs)
  end.

(** request.Store's hooks are this store. *)
#[export] Instance ws_hooks : SessionHooks X := {|
  OpenSession := ws_OpenSession;
  EarlyComplete := ws_EarlyComplete;
  CompleteShorthand := ws_CompleteShorthand;
  Requests.SessionEndedTx := ws_SessionEndedTx;
  Requests.MarkRunnerTx := ws_MarkRunnerTx;
|}.

Definition AnswerQuestionTx (requestID from : bytes) (res : WSResult) (now : Z) : tx X (bytes * bytes * list effect) :=
  '(peer, effs) ← AcceptInTx requestID from TypeQuestion now;
  sub ← submitResultTx peer requestID res ByAgent now;
  match sub with
  | None => tx_err ErrMissing
  | Some (mid, effs') => mret (DeriveID peer Self requestID, mid, effs ++ effs')
  end.
Definition AnswerQuestion (requestID from : bytes) (res : WSResult) (now : Z) (d : db X)
    : checked (bytes * bytes) * db X * list effect :=
  match WS.ValidateResult res with
  | Err e => (Err e, d, [])
  | Ok _ => match commit (AnswerQuestionTx requestID from res now) d with
            | (Err e, d') => (Err e, d', [])
            | (Ok (sid, mid, effs), d') => (Ok (sid, mid), d', Wake :: effs)
            end
  end.

Definition SubmitCancelTx (id reason : bytes) (by_ : Submitter) (now : Z) : tx X (bytes * bool * bytes * list effect) :=
  r ← scanByID id;
  if negb (bool_decide (s_role r = Worker)) then tx_err ErrNotWorker else
  if not_by_runner r by_ || bool_decide (s_state r = StateClosed) then bad_state r else
  let duplicate := cancel_requested r in
  mid ← (if duplicate then mret [] else submitCancelTx r reason now);
  effs ← (if bool_decide (s_kind r = KindDebate) then
            match Debates with None => tx_err ErrNotWired | Some h => AbandonTx h id now end
          else mret []);
  mret (mid, duplicate, s_peer r, effs).
Definition SubmitCancel (id reason : bytes) (by_ : Submitter) (now : Z) (d : db X)
    : checked (View * bytes * bool) * db X * list effect :=
  match when_set reason (checkCodePoints (field "reason") reason 1 500 []) with
  | Err e => (Err e, d, [])
  | Ok _ =>
      match commit (SubmitCancelTx id reason by_ now) d with
      | (Err e, d') => (Err e, d', [])
      | (Ok (mid, duplicate, peer, effs), d') =>
          (match viewWithMail id [] d' with Ok v => Ok (v, mid, duplicate) | Err e => Err e end, d',
           Wake :: (if duplicate then [] else [audit_ws_cancel cli id peer]) ++ effs)
      end
  end.

(** CancelUndeliveredRunResult: whether a cancel was sent. *)
Definition undelivered_of (mid : bytes) (r : session) : bool :=
  bool_decide (s_role r = Worker) && s_runner r && bool_decide (s_resultMail r = Some mid) &&
  bool_decide (s_state r = StateOpen) && bool_decide (s_cancel r = None).
Definition CancelUndeliveredRunResult (mid : bytes) (now : Z) (d : db X) : checked bool * db X * list effect :=
  match List.find (undelivered_of mid) (sessions d) with
  | None => (Ok false, d, [])
  | Some r => match SubmitCancel (s_id r) [] ByRunner now d with
              | (Err e, d', effs) => (Err e, d', effs)
              | (Ok _, d', effs) => (Ok true, d', effs)
              end
  end.
Definition ended_undelivered (m : mail) : bool :=
  bool_decide (m_state m = MailExpired) || (bool_decide (m_state m = MailFailed) && negb (bool_decide (m_error m = Some unsupported_kind))).
Definition UndeliveredRunResults (d : db X) : list bytes :=
  flat_map (λ r, map m_id (filter (λ m, undelivered_of (m_id m) r && ended_undelivered m) (outbox d))) (sessions d).

(** ** ws.state on B (mirror.go) *)

(** The D14 part of the row's result when it is of round [rnd]. *)
Definition result_of_round (row : session) (rnd : Z) : checked (option Result) :=
  match s_result row, s_resultRound row with
  | Some ((_ :: _) as s), Some n =>
      if n =? rnd then match WS.decodeStoredResult s with Ok r => Ok (Some (d14 r)) | Err e => Err e end else Ok None
  | _, _ => Ok None
  end.

(** The step of the mirror into closed: grants end, the record is written and
    the request completes; a request that is no longer accepted stays. *)
Definition mirror_close (row : session) (peer : bytes) (m : state_mail) (o : outcome) (now : Z) : tx X (list effect * (Z * bool)) :=
  _ ← revokeGrants (s_id row) now;
  let by_ := if bool_decide (o = OutcomeCancelled) then role_text (if cancel_requested row then Worker else Requester) else [] in
  size ← writeExperienceTx (sset_round (sm_round m) row) o (sm_verification m) (verificationActor (sm_verification m)) by_ now;
  res ← tx_lift (if bool_decide (o = OutcomeAccepted) then result_of_round row (sm_round m) else Ok None);
  let note := if bool_decide (o = OutcomeAccepted) then [] else session_cancelled in
  done ← tx_try (CompleteInTx peer (sm_request m) note res now);
  match done with
  | Ok effs => mret (effs, size)
  | Err (BadStateError _) => mret ([], size)
  | Err e => tx_err e
  end.

(** The UPDATE of a new state, and what it brings with it. *)
Definition apply_state_row (row : session) (peer : bytes) (m : state_mail) (now : Z) : tx X stateOutcome :=
  _ ← update_session (s_id row) (mirror_columns m now);
  let auto := bool_decide (sm_state m = StateOpen) && (2 <=? sm_round m) && s_runner row in
  _ ← (if auto then submitCancelTx row [] now else mret []);
  closing ← match sm_outcome m with
            | Some o => mirror_close row peer m o now
            | None => mret ([], (0, false))
            end;
  mret (StateApplied (s_id row) peer (sm_request m) (sm_state m) (sm_seq m) (sm_round m)
          (bool_decide (sm_state m = StateOpen) && negb (bool_decide (sm_changes m = []))) auto closing.1 closing.2).

(** A's echo of a state B has, while B's cancel is pending: it was refused. *)
Definition refuses_cancel (row : session) (m : state_mail) : bool :=
  (sm_seq m =? s_seq row) && cancel_requested row && bool_decide (sm_state m ∈ [StateAwaitingResult; StateQuarantined]).

Definition applyState (op : opened_mail) (now : Z) : tx X stateOutcome :=
  m ← tx_lift (decode_state_mail (DeriveID (op_from op) (op_to op)) (op_body op));
  let peer := op_from op in
  found ← tx_get (find_session Worker peer (sm_request m));
  match found with
  | None => mret (StateOrphan (sm_session m) peer)
  | Some row =>
      if bool_decide (s_kind row = KindDebate) then mret (StateIgnored ignored_kind (s_id row) peer) else
      if sm_seq m <=? s_seq row then
        _ ← (if refuses_cancel row m
             then update_session (s_id row) (λ r, sset_updated (storeTime now) (sset_cancel (Some CancelRefused) r))
             else mret tt);
        mret StateDuplicate
      else if bool_decide (s_state row = StateClosed) then mret (StateIgnored ignored_closed (s_id row) peer)
      else apply_state_row row peer m now
  end.

Definition afterState (o : stateOutcome) : list effect :=
  match o with
  | StateOrphan sid peer => [Wake; audit_orphan sid peer KindState]
  | StateDuplicate => [Wake]
  | StateIgnored reason sid peer => [Wake; audit_ignored sid peer KindState reason]
  | StateApplied sid peer requestID st sq rnd newRound auto effs size =>
      Wake :: effs ++
      (if bool_decide (st = StateClosed) then OnClosed sid :: auditExperience sid Worker size else []) ++
      (if newRound then [OnChanges sid peer requestID] else []) ++
      [Audit daemon (bytes_of "ws.state") (audit_session "" sid peer
         [(bytes_of "state", VString (state_text st)); (bytes_of "seq", num sq); (bytes_of "round", num rnd)])] ++
      (if auto then [audit_ws_cancel daemon sid peer] else [])
  end.
Definition receive_state (op : opened_mail) (now : Z) (d : db X) : checked bool * db X * list effect :=
  match commit (applyState op now) d with
  | (Err e, d') => (Err e, d', [])
  | (Ok o, d') => (Ok false, d', afterState o)
  end.

(** ** ws.cancel on A (cancel.go) *)

Definition applyCancel (op : opened_mail) (now : Z) : tx X (bool * cancelOutcome) :=
  m ← tx_lift (decode_cancel_mail (DeriveID (op_to op) (op_from op)) (op_body op));
  let peer := op_from op in
  found ← tx_get (find_session Requester peer (cm_request m));
  withhold ← quarantine (cm_session m) peer (match found with Some row => s_round row | None => 0 end);
  o ← match found with
      | None => mret (CancelOrphan (cm_session m) peer)
      | Some row =>
          let debate := bool_decide (s_kind row = KindDebate) in
          if negb (bool_decide (s_state row = StateOpen)) then mret (CancelOutcome refused (s_id row) peer debate None [])
          else if debate then
            match Debates with
            | None => tx_err ErrNotWired
            | Some h => '(done, effs) ← PeerCancelTx h (s_id row) now;
                        mret (CancelOutcome (if (done : bool) then cancelled_ else refused) (s_id row) peer true None effs)
            end
          else
            '(size, _) ← closeSessionTx row OutcomeCancelled None [] (role_text Worker) now;
            mret (CancelOutcome cancelled_ (s_id row) peer false (Some (row, size)) [])
      end;
  mret (withhold, o).

Definition afterCancel (o : cancelOutcome) (now : Z) (d : db X) : db X * list effect :=
  match o with
  | CancelOrphan sid peer => (d, [Wake; audit_orphan sid peer KindWsCancel])
  | CancelOutcome result sid peer debate closed after =>
      let '(d', effs) := if bool_decide (result = refused) && negb debate then resendLastState sid now d else (d, []) in
      (d', Wake :: effs ++
           [Audit daemon (bytes_of "ws.cancel_in") (audit_session "" sid peer [(bytes_of "result", VString result)])] ++
           match closed with
           | Some (row, size) => auditClose row OutcomeCancelled now ++ auditExperience (s_id row) (s_role row) size
           | None => []
           end ++ after)
  end.
Definition receive_cancel (op : opened_mail) (now : Z) (d : db X) : checked bool * db X * list effect :=
  match commit (applyCancel op now) d with
  | (Err e, d') => (Err e, d', [])
  | (Ok (withhold, o), d') => let '(d'', effs) := afterCancel o now d' in (Ok withhold, d'', effs)
  end.

(** ** The Phase 1 fallback (phase1.go) *)

Definition peerIsUnsupported (peer since : bytes) (d : db X) : bool :=
  existsb (λ m, bool_decide (m_to m = peer) && bool_decide (m_kind m ∈ [KindResult; KindWsCancel]) &&
                bool_decide (m_state m = MailFailed) && bool_decide (m_error m = Some unsupported_kind) &&
                text_le since (m_created m)) (outbox d).
Definition swept (r : session) : bool := bool_decide (s_state r = StateClosed) || bool_decide (s_kind r = KindDebate).

Definition phase1Tx (peer requestID : bytes) (now : Z) : tx X (option (list effect)) :=
  row ← findRowTx Worker peer requestID;
  if swept row then mret None else
  _ ← update_session (s_id row) (close_columns OutcomeCancelled now);
  _ ← revokeGrants (s_id row) now;
  size ← writeExperienceTx row OutcomeCancelled None [] timeout_text now;
  content ← tx_lift (match s_result row with
                     | Some ((_ :: _) as s) =>
                         match WS.decodeStoredResult s with Ok r => Ok (Notes r, Some (d14 r)) | Err e => Err e end
                     | _ => Ok (session_cancelled, None)
                     end);
  effs ← CompleteInTx peer requestID content.1 content.2 now;
  mret (Some (Wake :: effs ++ auditClose row OutcomeCancelled now ++ auditExperience (s_id row) (s_role row) size)).

Definition CheckPhase1Fallback (peer requestID : bytes) (now : Z) (d : db X) : checked unit * db X * list effect :=
  match find_session Worker peer requestID d with
  | None => (Ok tt, d, [])
  | Some row =>
      if swept row || negb (peerIsUnsupported peer (storeTime (parseWireTime (s_opened row))) d) then (Ok tt, d, []) else
      match commit (phase1Tx peer requestID now) d with
      | (Err e, d') => (Err e, d', [])
      | (Ok effs, d') => (Ok tt, d', default [] effs)
      end
  end.

(** The sweep of a peer: every session is tried, an error does not end it. *)
Definition open_worker (peer : bytes) (r : session) : bool :=
  bool_decide (s_role r = Worker) && bool_decide (s_peer r = peer) && negb (swept r).
Fixpoint phase1_sweep (peer : bytes) (ids : list bytes) (now : Z) (d : db X) : option error * db X * list effect :=
  match ids with
  | [] => (None, d, [])
  | id :: ids =>
      let '(r, d, effs) := CheckPhase1Fallback peer id now d in
      let '(first, d, effs') := phase1_sweep peer ids now d in
      (match r with Err e => Some e | Ok _ => first end, d, effs ++ effs')
  end.
Definition CheckPhase1FallbackForPeer (peer : bytes) (now : Z) (d : db X) : option error * db X * list effect :=
  phase1_sweep peer (map s_requestID (List.filter (open_worker peer) (sessions d))) now d.

Definition PeersWithOpenWorkerSessions (d : db X) : list bytes :=
  merge_sort (λ a b, Is_true (text_le a b))
    (remove_dups (map s_peer (List.filter (λ r, open_worker (s_peer r) r) (sessions d)))).

(** ** Lookups (store.go) *)

Definition Get (id : bytes) (d : db X) : checked View :=
  match session_by_id id d with None => Err ErrUnknownSession | Some r => toView r end.
Definition GetByRequestID (requestID : bytes) (d : db X) : checked View :=
  let found := filter (λ r, s_requestID r = requestID) (sessions d) in
  let pairs := map (λ r, (direction_of (s_role r), s_peer r)) found ++
               map (λ q, (q_direction q, q_peer q)) (filter (λ q, q_id q = requestID) (requests d)) in
  match found with
  | [] => Err ErrUnknownSession
  | r :: more => if (1 <? length (r :: more))%nat || (1 <? length (remove_dups pairs))%nat then Err ErrAmbiguousRequest else toView r
  end.
Definition RefFor (rl : role) (peer requestID : bytes) (d : db X) : option (bytes * session_state * Z) :=
  option_map (λ r, (s_id r, s_state r, s_round r)) (find_session rl peer requestID d).

Record ListFilter := MkListFilter { f_state : option session_state; f_role : option role; f_peer : bytes; f_team : bytes }.
Definition listed (f : ListFilter) (r : session) : bool :=
  match f_state f with Some st => bool_decide (s_state r = st) | None => true end &&
  match f_role f with Some rl => bool_decide (s_role r = rl) | None => true end &&
  (bool_decide (f_peer f = []) || bool_decide (s_peer r = f_peer f)) &&
  (bool_decide (f_team f = []) || bool_decide (s_teamID r = f_team f)).
(** ORDER BY state_at DESC, id ASC. *)
Definition newest_first (a b : session) : bool :=
  text_lt (s_stateAt b) (s_stateAt a) || (bool_decide (s_stateAt a = s_stateAt b) && text_le (s_id a) (s_id b)).
Fixpoint views (l : list session) : checked (list View) :=
  match l with
  | [] => Ok []
  | r :: l => let? v := toView r in let? vs := views l in Ok (v :: vs)
  end%go.
Definition List_ (f : ListFilter) (d : db X) : checked (list View) :=
  views (merge_sort (λ a b, Is_true (newest_first a b)) (List.filter (listed f) (sessions d))).
End Mail.
