(* ===== verification/TxLemmas.v ===== *)
(** * Reasoning about transactions

    Inversion of a transaction that succeeded, and [keeps f m]: the projection
    [f] of the tables is the same after [m]. The hint database [keeps] proves
    it for transactions that write other tables. *)

From S2P Require Import Prelude Utf8 Canonical Strconv WireTime Body RequestObject Tables Experience Requests.

Open Scope Z_scope.

Section TxLemmas.
Context {X : Type}.

Lemma tx_bind_ok {A B} (m : tx X A) (k : A → tx X B) d b d' :
  (m ≫= k) d = Ok (b, d') ↔ ∃ a d1, m d = Ok (a, d1) ∧ k a d1 = Ok (b, d').
Proof.
  unfold mbind, tx_bind. destruct (m d) as [[a d1]|e]; split; intros Hx.
  - by exists a, d1.
  - by destruct Hx as (a' & d1' & [= -> ->] & Hk).
  - done.
  - by destruct Hx as (a' & d1' & ? & _).
Qed.
Lemma tx_ret_ok {A} (a b : A) (d d' : db X) : (mret a : tx X A) d = Ok (b, d') ↔ a = b ∧ d = d'.
Proof. unfold mret, tx_ret. naive_solver. Qed.
Lemma tx_get_ok {A} (f : db X → A) d b d' : tx_get f d = Ok (b, d') ↔ f d = b ∧ d = d'.
Proof. unfold tx_get. naive_solver. Qed.
Lemma tx_lift_ok {A} (r : checked A) b (d d' : db X) : tx_lift r d = Ok (b, d') ↔ r = Ok b ∧ d = d'.
Proof. unfold tx_lift. destruct r; naive_solver. Qed.
Lemma tx_found_ok {A} e (f : db X → option A) d b d' : tx_found e f d = Ok (b, d') ↔ f d = Some b ∧ d = d'.
Proof. unfold tx_found. destruct (f d); naive_solver. Qed.
Lemma tx_err_ok {A} e (d : db X) (r : A * db X) : tx_err e d = Ok r ↔ False.
Proof. done. Qed.
Lemma tx_try_ok {A} (m : tx X A) d b d' :
  tx_try m d = Ok (b, d') ↔ match b with Ok a => m d = Ok (a, d') | Err e => m d = Err e ∧ d = d' end.
Proof. unfold tx_try. destruct (m d) as [[a d1]|e]; destruct b; naive_solver. Qed.

(** ** Projections a transaction keeps *)

Definition keeps {A B} (f : db X → B) (m : tx X A) : Prop := ∀ d a d', m d = Ok (a, d') → f d' = f d.

Section Keeps.
Context {B : Type} (f : db X → B).
Lemma keeps_bind {A C} (m : tx X A) (k : A → tx X C) : keeps f m → (∀ a, keeps f (k a)) → keeps f (m ≫= k).
Proof. intros Hm Hk d b d' (a & d1 & H1 & H2)%tx_bind_ok. rewrite (Hk _ _ _ _ H2). exact (Hm _ _ _ H1). Qed.
Lemma keeps_ret {A} (a : A) : keeps f (mret a : tx X A).
Proof. by intros d b d' [_ ->]%tx_ret_ok. Qed.
Lemma keeps_get {A} (g : db X → A) : keeps f (tx_get g).
Proof. by intros d b d' [_ ->]%tx_get_ok. Qed.
Lemma keeps_lift {A} (r : checked A) : keeps f (tx_lift r).
Proof. by intros d b d' [_ ->]%tx_lift_ok. Qed.
Lemma keeps_found {A} e (g : db X → option A) : keeps f (tx_found e g).
Proof. by intros d b d' [_ ->]%tx_found_ok. Qed.
Lemma keeps_err {A} e : keeps f (tx_err e : tx X A).
Proof. by intros d b d'. Qed.
Lemma keeps_if {A} (c : bool) (m m' : tx X A) : keeps f m → keeps f m' → keeps f (if c then m else m').
Proof. by destruct c. Qed.
Lemma keeps_try {A} (m : tx X A) : keeps f m → keeps f (tx_try m).
Proof. intros Hm d b d' Ht%tx_try_ok. destruct b; [exact (Hm _ _ _ Ht)|by destruct Ht as [_ ->]]. Qed.
End Keeps.

Lemma keeps_requests {B} (f : db X → B) g :
  (∀ d l, f (Db (sessions d) l (tombstones d) (outbox d) (experiences d) (ext d)) = f d) → keeps f (set_requests g).
Proof. intros Hf d a d' [= _ <-]. apply Hf. Qed.
Lemma keeps_outbox {B} (f : db X → B) g :
  (∀ d l, f (Db (sessions d) (requests d) (tombstones d) l (experiences d) (ext d)) = f d) → keeps f (set_outbox g).
Proof. intros Hf d a d' [= _ <-]. apply Hf. Qed.
Lemma keeps_tombstones {B} (f : db X → B) g :
  (∀ d l, f (Db (sessions d) (requests d) l (outbox d) (experiences d) (ext d)) = f d) → keeps f (set_tombstones g).
Proof. intros Hf d a d' [= _ <-]. apply Hf. Qed.
Lemma keeps_ext {B} (f : db X → B) x :
  (∀ d y, f (Db (sessions d) (requests d) (tombstones d) (outbox d) (experiences d) y) = f d) → keeps f (set_ext x).
Proof. intros Hf d a d' [= _ <-]. apply Hf. Qed.
Lemma keeps_experiences {B} (f : db X → B) g :
  (∀ d l, f (Db (sessions d) (requests d) (tombstones d) (outbox d) l (ext d)) = f d) → keeps f (set_experiences g).
Proof. intros Hf d a d' [= _ <-]. apply Hf. Qed.
Lemma keeps_sessions {B} (f : db X → B) g :
  (∀ d l, f (Db l (requests d) (tombstones d) (outbox d) (experiences d) (ext d)) = f d) → keeps f (set_sessions g).
Proof. intros Hf d a d' [= _ <-]. apply Hf. Qed.
End TxLemmas.

(** A hypothesis about a transaction that succeeded, taken apart. *)
Ltac tx_step :=
  match goal with
  | H : (_ ≫= _) _ = Ok (_, _) |- _ => apply tx_bind_ok in H as (? & ? & ? & H)
  | H : (mret _) _ = Ok (_, _) |- _ => apply tx_ret_ok in H as [? ?]
  | H : tx_get _ _ = Ok (_, _) |- _ => apply tx_get_ok in H as [? ?]
  | H : tx_lift _ _ = Ok (_, _) |- _ => apply tx_lift_ok in H as [? ?]
  | H : tx_found _ _ _ = Ok (_, _) |- _ => apply tx_found_ok in H as [? ?]
  | H : tx_err _ _ = Ok _ |- _ => by apply tx_err_ok in H
  end.

(** [keeps f m], by the shape of [m]. *)
Create HintDb keeps.
#[export] Hint Resolve keeps_ret keeps_get keeps_lift keeps_found keeps_err keeps_requests keeps_outbox keeps_tombstones
  keeps_ext keeps_experiences keeps_sessions : keeps.
(** An audit row is in a table of its own. *)
Lemma keeps_AppendTx {X B} `{Env X} (f : db X → B) actor action detail : keeps f (AppendTx actor action detail).
Proof. apply keeps_bind; [apply keeps_get|intros d]. apply keeps_bind; [apply keeps_lift|intros u]. apply keeps_ret. Qed.
Lemma keeps_AppendTxSoft {X B} `{Env X} (f : db X → B) actor action detail : keeps f (AppendTxSoft actor action detail).
Proof. apply keeps_bind; [apply keeps_get|intros d]. apply keeps_bind; [apply keeps_lift|intros w]. apply keeps_ret. Qed.
#[export] Hint Resolve keeps_AppendTx keeps_AppendTxSoft : keeps.
Ltac keeps_tac :=
  repeat first
    [ progress (auto with keeps; fail)
    | apply keeps_bind; [|intros ?]
    | apply keeps_if
    | apply keeps_try
    | match goal with
      | |- keeps _ (match ?x with _ => _ end) => destruct x
      | |- keeps _ (let '_ := ?x in _) => destruct x
      end ].
