(* ===== verification/SessionSteps.v ===== *)
(** * The session state machine (specification)

    What one daemon may do to its work sessions, as a step relation on the
    rows: [row_step] lists the transitions of one row with their guards and
    the columns they set, [core_step] lifts it to the table and to the
    experience records, which a close writes. SessionRefine.v proves that
    every operation of worksession.Store and request.Store stays inside it;
    SessionProofs.v derives the invariants from it. *)

From S2P Require Import Prelude Utf8 Canonical Strconv WireTime Body RequestObject Tables Experience Requests TxLemmas WorkSession SessionMail.

Open Scope Z_scope.

Section Steps.
Context {X : Type} `{Env X}.

(** A result some ValidateResult accepted, as it is stored. *)
Definition stored_as (canon : bytes) (res : WSResult) : Prop :=
  WS.decodeStoredResult canon = Ok res ∧ WS.ValidateResult res = Ok tt ∧ WS.CanonicalResult res = Ok canon.

(** sendState: the columns last_state and last_state_sent. *)
Definition sent (sq rnd : Z) (st : session_state) (o : option outcome) (v : option verification) (changes : bytes) (now : Z)
    (r : session) : session :=
  sset_lastStateSent (Some (storeTime now)) (sset_lastState (Some (KindState, state_body r sq rnd st o v changes now)) r).
Definition closed_row (o : outcome) (v : option verification) (now : Z) (r : session) : session :=
  close_columns o now (sset_verification v (sset_seq (s_seq r + 1) (sent (s_seq r + 1) (s_round r) StateClosed (Some o) v [] now r))).
Definition discarded_row (now : Z) (r : session) : session :=
  discard_columns (s_seq r + 1) now (sent (s_seq r + 1) (s_round r) StateClosed (Some OutcomeCancelled) None [] now r).
Definition result_row (st : session_state) (canon : bytes) (v : option verification) (now : Z) (r : session) : session :=
  result_columns st (s_seq r + 1) (s_round r) canon v now (sent (s_seq r + 1) (s_round r) st None None [] now r).
Definition changed_row (changes : bytes) (now : Z) (r : session) : session :=
  changes_columns (s_seq r + 1) (s_round r + 1) changes now (sent (s_seq r + 1) (s_round r + 1) StateOpen None None changes now r).
Definition released_row (now : Z) (r : session) : session :=
  release_columns (s_seq r + 1) now (sent (s_seq r + 1) (s_round r) StateAwaitingResult None None [] now r).

(** What decode_state_mail grants of a ws.state. *)
Record state_mail_ok (m : state_mail) : Prop := {
  sm_round_ok : 1 ≤ sm_round m;
  sm_outcome_ok : sm_outcome m ≠ None ↔ sm_state m = StateClosed;
  sm_changes_ok : sm_changes m ≠ [] → sm_state m = StateOpen;
  sm_verification_ok : sm_verification m ≠ None → sm_outcome m = Some OutcomeAccepted;
}.

(** The transitions of a row. [rel] tells which sessions a human released. *)
Inductive row_step (rel : bytes → bool) (r : session) : session → Prop :=
| step_result st canon res now :
    s_role r = Requester → s_state r = StateOpen → st = StateAwaitingResult ∨ st = StateQuarantined → stored_as canon res →
    row_step rel r (result_row st canon (parse_verification (Verification res)) now r)
| step_changes changes now :
    s_role r = Requester → s_state r = StateAwaitingResult ∨ s_state r = StateQuarantined →
    checkCodePoints (field "changes") changes 1 4000 newline_tab = Ok tt →
    row_step rel r (changed_row changes now r)
| step_release now :
    s_role r = Requester → s_state r = StateQuarantined → rel (s_id r) = true → row_step rel r (released_row now r)
| step_accept v now :
    s_role r = Requester → s_kind r = KindWork → s_state r = StateAwaitingResult →
    v = s_verification r ∨ v = Some VerificationHumanAccepted → row_step rel r (closed_row OutcomeAccepted v now r)
| step_cancel now :
    s_role r = Requester → s_kind r = KindWork → s_state r = StateOpen → row_step rel r (closed_row OutcomeCancelled None now r)
| step_discard now :
    s_role r = Requester → s_kind r = KindWork → s_state r = StateQuarantined → row_step rel r (discarded_row now r)
| step_resend t : row_step rel r (sset_lastStateSent t r)
| step_debate o now :
    s_kind r = KindDebate → s_state r ≠ StateClosed → row_step rel r (sset_cancel None (close_columns o now r))
| step_submit canon res mid now :
    s_role r = Worker → s_kind r = KindWork → s_state r = StateOpen → s_cancel r ≠ Some CancelRequested → answered r = false →
    stored_as canon res → row_step rel r (submitted_columns canon mid (s_round r) now r)
| step_ask_cancel u :
    s_role r = Worker → s_state r ≠ StateClosed → row_step rel r (sset_updated u (sset_cancel (Some CancelRequested) r))
| step_refused u :
    s_role r = Worker → s_cancel r = Some CancelRequested → row_step rel r (sset_updated u (sset_cancel (Some CancelRefused) r))
| step_mirror m now :
    s_role r = Worker → s_kind r = KindWork → s_state r ≠ StateClosed → s_seq r < sm_seq m → state_mail_ok m →
    row_step rel r (mirror_columns m now r)
| step_timeout now :
    s_role r = Worker → s_kind r = KindWork → s_state r ≠ StateClosed → row_step rel r (close_columns OutcomeCancelled now r)
| step_runner : s_role r = Worker → row_step rel r (sset_runner true r).

(** The record a step writes: one, when it closes a work session. *)
Definition record_key (r : session) : bytes * bytes := (s_id r, role_text (s_role r)).
Definition closes (r r' : session) : list (bytes * bytes) :=
  if bool_decide (s_kind r = KindWork) && negb (bool_decide (s_state r = StateClosed)) && bool_decide (s_state r' = StateClosed)
  then [record_key r] else [].

(** The table of sessions and the keys of the experience records. *)
Definition core_state : Type := list session * list (bytes * bytes).
Definition core (d : db X) : core_state := (sessions d, map (λ x, (x_session x, x_role x)) (experiences d)).
Definition request_key (r : session) : role * bytes * bytes := (s_role r, s_peer r, s_requestID r).

Inductive core_step (rel : bytes → bool) : core_state → core_state → Prop :=
| core_row l1 r r' l2 xs :
    row_step rel r r' → Forall (.∉ xs) (closes r r') → core_step rel (l1 ++ r :: l2, xs) (l1 ++ r' :: l2, xs ++ closes r r')
| core_open l xs rl peer requestID teamID k now :
    let sid := DeriveID (idA rl peer) (idB rl peer) requestID in
    sid ∉ map s_id l → (rl, peer, requestID) ∉ map request_key l →
    core_step rel (l, xs) (l ++ [new_session sid rl peer requestID teamID k now], xs)
| core_debate l xs key :
    (∃ r, r ∈ l ∧ s_kind r = KindDebate ∧ s_id r = key.1) → key ∉ xs → core_step rel (l, xs) (l, xs ++ [key]).

(** The unique keys of work_sessions. *)
Definition keys_ok (l : list session) : Prop := NoDup (map s_id l) ∧ NoDup (map request_key l).

(** ** Identity of a row *)

Definition same_row (r r' : session) : Prop := s_id r' = s_id r ∧ request_key r' = request_key r ∧ s_kind r' = s_kind r.

Lemma mirror_columns_fields m now r :
  s_id (mirror_columns m now r) = s_id r ∧ request_key (mirror_columns m now r) = request_key r ∧ s_kind (mirror_columns m now r) = s_kind r ∧
  s_state (mirror_columns m now r) = sm_state m ∧ s_seq (mirror_columns m now r) = sm_seq m ∧ s_round (mirror_columns m now r) = sm_round m ∧
  s_outcome (mirror_columns m now r) = sm_outcome m ∧ s_teamID (mirror_columns m now r) = s_teamID r.
Proof. unfold mirror_columns. by destruct (sm_verification m), (bool_decide (sm_state m = StateClosed)), (drops_result _ _). Qed.

Lemma row_step_same rel r r' : row_step rel r r' → same_row r r'.
Proof. intros Hs. destruct Hs; try done. destruct (mirror_columns_fields m now r) as (? & ? & ? & _). by split_and!. Qed.

Lemma core_step_keys rel c c' : core_step rel c c' → keys_ok c.1 → keys_ok c'.1.
Proof.
  intros Hs [H1 H2]. destruct Hs as [l1 r r' l2 xs Hr _|l xs rl peer requestID teamID k now sid Hi Hk|]; cbn [fst] in *; [| |by split].
  - apply row_step_same in Hr as (Ei & Ek & _). unfold keys_ok. rewrite !map_app in *. cbn [map] in *. by rewrite Ei, Ek.
  - split; rewrite map_app; cbn [map]; apply NoDup_app; split_and!; try done; try apply NoDup_singleton.
    + intros x Hx ->%list_elem_of_singleton. by apply Hi.
    + intros x Hx ->%list_elem_of_singleton. by apply Hk.
Qed.

Lemma core_steps_keys rel c c' : rtc (core_step rel) c c' → keys_ok c.1 → keys_ok c'.1.
Proof. induction 1; eauto using core_step_keys. Qed.

(** ** The row a lookup finds is the row an UPDATE sets *)

Lemma find_in {A} (p : A → bool) l r : List.find p l = Some r → r ∈ l ∧ p r = true.
Proof. intros [Hin Hp]%List.find_some. split; [by apply list_elem_of_In|done]. Qed.

Lemma update_where_none {A} (p : A → bool) f l : Forall (λ r, p r = false) l → update_where p f l = l.
Proof. induction 1 as [|r l Hr Hl IH]; [done|]. unfold update_where in *. cbn [map]. by rewrite Hr, IH. Qed.

Lemma update_where_app {A} (p : A → bool) f l1 l2 : update_where p f (l1 ++ l2) = update_where p f l1 ++ update_where p f l2.
Proof. apply map_app. Qed.

Lemma update_one l r f : NoDup (map s_id l) → r ∈ l →
  ∃ l1 l2, l = l1 ++ r :: l2 ∧ update_where (λ x, bool_decide (s_id x = s_id r)) f l = l1 ++ f r :: l2.
Proof.
  intros Hd (l1 & l2 & ->)%list_elem_of_split. exists l1, l2. split; [done|].
  rewrite map_app in Hd. cbn [map] in Hd. apply NoDup_app in Hd as (_ & Hd1 & [Hd2 _]%NoDup_cons).
  rewrite update_where_app. unfold update_where at 2. cbn [map]. fold (update_where (λ x, bool_decide (s_id x = s_id r)) f l2).
  rewrite (bool_decide_eq_true_2 (s_id r = s_id r)) by done.
  rewrite !update_where_none; [done|..]; apply Forall_forall; intros x Hx; apply bool_decide_eq_false; intros E.
  - apply Hd2. rewrite <- E. apply elem_of_map_list. eauto.
  - apply (Hd1 (s_id r)); [|by left]. rewrite <- E. apply elem_of_map_list. eauto.
Qed.

Lemma update_where_twice id (f g : session → session) l : (∀ r, s_id (f r) = s_id r) →
  update_where (λ r, bool_decide (s_id r = id)) g (update_where (λ r, bool_decide (s_id r = id)) f l) =
  update_where (λ r, bool_decide (s_id r = id)) (λ r, g (f r)) l.
Proof.
  intros Hf. unfold update_where. rewrite map_map. apply map_ext. intros r.
  destruct (bool_decide (s_id r = id)) eqn:E; [by rewrite Hf, E|by rewrite E].
Qed.

Lemma is_session_key rl peer requestID r : is_session rl peer requestID r = true ↔ request_key r = (rl, peer, requestID).
Proof. unfold is_session, request_key. rewrite !andb_true_iff, !bool_decide_eq_true. naive_solver. Qed.

Lemma find_session_in rl peer requestID (d : db X) r : find_session rl peer requestID d = Some r →
  r ∈ sessions d ∧ s_role r = rl ∧ s_peer r = peer ∧ s_requestID r = requestID.
Proof. intros [Hin Hp]%find_in. apply is_session_key in Hp. by injection Hp as -> -> ->. Qed.
Lemma session_by_id_in id (d : db X) r : session_by_id id d = Some r → r ∈ sessions d ∧ s_id r = id.
Proof. intros [Hin Hp]%find_in. by apply bool_decide_eq_true in Hp. Qed.

Lemma key_unique l r r' : keys_ok l → r ∈ l → r' ∈ l → request_key r = request_key r' → r = r'.
Proof.
  intros [_ Hd] (l1 & l2 & ->)%list_elem_of_split Hr' E. rewrite map_app in Hd. cbn [map] in Hd.
  apply NoDup_app in Hd as (_ & Hd1 & [Hd2 _]%NoDup_cons). apply elem_of_app in Hr' as [Hr'|Hr'].
  - exfalso. apply (Hd1 (request_key r)); [rewrite E; apply elem_of_map_list; eauto|by left].
  - apply elem_of_cons in Hr' as [->|Hr']; [done|]. exfalso. apply Hd2. rewrite E. apply elem_of_map_list. eauto.
Qed.

(** One row's step as a step of the table. *)
Lemma one_row rel (d d' : db X) r f : keys_ok (sessions d) → r ∈ sessions d → row_step rel r (f r) →
  sessions d' = update_where (λ x, bool_decide (s_id x = s_id r)) f (sessions d) →
  (core d').2 = (core d).2 ++ closes r (f r) → Forall (.∉ (core d).2) (closes r (f r)) → core_step rel (core d) (core d').
Proof.
  intros [Hk _] Hr Hs Ed Ex Hf. destruct (update_one (sessions d) r f Hk Hr) as (l1 & l2 & E1 & E2).
  rewrite E2 in Ed. unfold core in *. cbn [snd] in *. rewrite Ed, Ex. rewrite E1 at 1. by apply core_row.
Qed.
End Steps.
