(* ===== verification/SessionRefine.v ===== *)
(** * The stores stay inside the session state machine (refinement)

    Each transaction of worksession.Store, and each call of request.Store
    that reaches the sessions, moves the table only by steps of
    SessionSteps.v. The debate store is assumed to change sessions the way
    CloseDebateTx does ([DebateLaws]), the helper not at all. *)

From S2P Require Import Prelude Utf8 Canonical Strconv WireTime Body RequestObject Tables Experience Requests RequestMail TxLemmas WorkSession SessionMail SessionSteps.

Open Scope Z_scope.

Section Refine.
Context {X : Type} `{Env X}.

(** ** Transactions that leave sessions and records alone *)

Notation quiet := (keeps (core (X:=X))).

Lemma quiet_requests g : quiet (set_requests g).
Proof. by apply keeps_requests. Qed.
Lemma quiet_outbox g : quiet (set_outbox g).
Proof. by apply keeps_outbox. Qed.
Lemma quiet_tombstones g : quiet (set_tombstones g).
Proof. by apply keeps_tombstones. Qed.
Lemma quiet_ext x : quiet (set_ext x).
Proof. by apply keeps_ext. Qed.
Hint Resolve quiet_requests quiet_outbox quiet_tombstones quiet_ext : keeps.

Lemma quiet_submit to kind b now : quiet (SubmitTx to kind b now).
Proof. unfold SubmitTx. keeps_tac. Qed.
Hint Resolve quiet_submit : keeps.
Lemma quiet_update_request dir peer id g : quiet (update_request dir peer id g).
Proof. unfold update_request. auto with keeps. Qed.
Hint Resolve quiet_update_request : keeps.
Lemma quiet_revoke sid now : quiet (revokeGrants sid now).
Proof. unfold revokeGrants. keeps_tac. Qed.
Lemma quiet_quarantine sid peer rnd : quiet (quarantine sid peer rnd).
Proof. unfold quarantine. keeps_tac. Qed.
Lemma quiet_out_content peer id note res now : quiet (SetOutContentTx peer id note res now).
Proof. unfold SetOutContentTx. keeps_tac. Qed.
Hint Resolve quiet_revoke quiet_quarantine quiet_out_content : keeps.
Lemma quiet_requester_view row o now : quiet (writeRequesterViewTx row o now).
Proof. unfold writeRequesterViewTx. keeps_tac. Qed.
Lemma quiet_getRow dir peer id : quiet (getRow dir peer id).
Proof. unfold getRow. auto with keeps. Qed.
Hint Resolve quiet_requester_view quiet_getRow : keeps.
Lemma quiet_complete peer id note res now : quiet (CompleteInTx peer id note res now).
Proof. unfold CompleteInTx. keeps_tac. Qed.
Hint Resolve quiet_complete : keeps.
Lemma quiet_findInRow id from : quiet (findInRow id from).
Proof. unfold findInRow. keeps_tac. Qed.
Lemma quiet_findOutRow id : quiet (findOutRow id).
Proof. unfold findOutRow. keeps_tac. Qed.
Hint Resolve quiet_findInRow quiet_findOutRow : keeps.

(** ** What the writing primitives do to the core *)

Definition at_id (id : bytes) : session → bool := λ r, bool_decide (s_id r = id).

Lemma update_session_ok id f (d : db X) u d' : update_session id f d = Ok (u, d') →
  sessions d' = update_where (at_id id) f (sessions d) ∧ experiences d' = experiences d.
Proof. by intros [= _ <-]. Qed.

Lemma quiet_eq {A} (m : tx X A) d a d' : quiet m → m d = Ok (a, d') → sessions d' = sessions d ∧ (core d').2 = (core d).2.
Proof. intros Hm E. apply Hm in E. unfold core in *. by injection E as -> ->. Qed.

Lemma sendState_ok row sq rnd st o v changes now (d : db X) mid d' : sendState row sq rnd st o v changes now d = Ok (mid, d') →
  sessions d' = update_where (at_id (s_id row))
    (λ r, sset_lastStateSent (Some (storeTime now)) (sset_lastState (Some (KindState, state_body row sq rnd st o v changes now)) r)) (sessions d) ∧
  (core d').2 = (core d).2.
Proof.
  intros (u & d1 & H1 & H2)%tx_bind_ok. apply update_session_ok in H1 as [E1 X1].
  apply (quiet_eq _ _ _ _ (quiet_submit _ _ _ _)) in H2 as [-> ->]. split; [done|]. unfold core. cbn [snd]. by rewrite X1.
Qed.

(** Two UPDATEs of the same row are one. *)
Lemma send_update row sq rnd st o v changes now g (d d1 d' : db X) mid u :
  sendState row sq rnd st o v changes now d = Ok (mid, d1) → update_session (s_id row) g d1 = Ok (u, d') →
  sessions d' = update_where (at_id (s_id row)) (λ r, g (sset_lastStateSent (Some (storeTime now))
    (sset_lastState (Some (KindState, state_body row sq rnd st o v changes now)) r))) (sessions d) ∧ (core d').2 = (core d).2.
Proof.
  intros [E1 X1]%sendState_ok [E2 X2]%update_session_ok. rewrite E2, E1. split; [by apply update_where_twice|].
  unfold core in *. cbn [snd] in *. by rewrite X2.
Qed.

Lemma writeExperience_ok row o v by_ cby now (d : db X) size d' : writeExperienceTx row o v by_ cby now d = Ok (size, d') →
  sessions d' = sessions d ∧ (core d').2 = (core d).2 ++ [record_key row] ∧ record_key row ∉ (core d).2.
Proof.
  intros (i & d1 & H1 & H2)%tx_bind_ok. apply tx_get_ok in H1 as [<- <-].
  set (i := experience_input row o v by_ cby now d) in *.
  assert (iSession i = s_id row ∧ iRole i = role_text (s_role row)) as [Es Er].
  { unfold i, experience_input. by destruct (requestSummary _ _ _ _) as [[t ti] b]. }
  unfold WriteTx in H2. apply tx_bind_ok in H2 as ([c tr] & d2 & H2 & H3). apply tx_lift_ok in H2 as [_ <-].
  apply tx_bind_ok in H3 as (dup & d3 & H3 & H4). apply tx_get_ok in H3 as [Hdup <-].
  destruct dup; [done|]. apply tx_bind_ok in H4 as (u & d4 & H4 & H5). apply tx_ret_ok in H5 as [_ <-].
  injection H4 as _ <-. unfold core, record_key. cbn [sessions experiences snd]. rewrite map_app. cbn [map x_session x_role].
  rewrite Es, Er. split_and!; [done..|]. intros Hin. apply elem_of_map_list in Hin as (x & Ex & Hx).
  apply not_true_iff_false in Hdup. apply Hdup. apply existsb_exists. exists x. split; [by apply list_elem_of_In|].
  injection Ex as Ex1 Ex2. rewrite Es, Er, Ex1, Ex2. by rewrite !bool_decide_eq_true_2.
Qed.

(** ** Refinement of one transaction *)

Definition refines (rel : bytes → bool) {A} (m : tx X A) (d : db X) : Prop :=
  keys_ok (sessions d) → ∀ a d', m d = Ok (a, d') → rtc (core_step rel) (core d) (core d').

Lemma refines_bind rel {A B} (m : tx X A) (k : A → tx X B) d :
  refines rel m d → (∀ a d1, m d = Ok (a, d1) → refines rel (k a) d1) → refines rel (m ≫= k) d.
Proof.
  intros Hm Hk Hd b d' (a & d1 & H1 & H2)%tx_bind_ok. pose proof (Hm Hd _ _ H1) as Hr1.
  etransitivity; [exact Hr1|]. apply (Hk _ _ H1 (core_steps_keys _ _ _ Hr1 Hd) _ _ H2).
Qed.
Lemma refines_quiet rel {A} (m : tx X A) d : quiet m → refines rel m d.
Proof. intros Hm _ a d' E. by rewrite (Hm _ _ _ E). Qed.
Lemma refines_err rel {A} e d : refines rel (tx_err e : tx X A) d.
Proof. by intros _ a d'. Qed.
Lemma refines_if rel {A} (c : bool) (m m' : tx X A) d :
  (c = true → refines rel m d) → (c = false → refines rel m' d) → refines rel (if c then m else m') d.
Proof. destruct c; auto. Qed.
(** A quiet prefix: what it read still holds. *)
Lemma refines_after rel {A B} (m : tx X A) (k : A → tx X B) d : quiet m →
  (∀ a d1, m d = Ok (a, d1) → core d1 = core d → refines rel (k a) d1) → refines rel (m ≫= k) d.
Proof. intros Hm Hk. apply refines_bind; [by apply refines_quiet|]. intros a d1 E. apply Hk; [done|]. by apply (Hm _ _ _ E). Qed.
Lemma refines_get rel {A B} (f : db X → A) (k : A → tx X B) d : refines rel (k (f d)) d → refines rel (tx_get f ≫= k) d.
Proof. intros Hk. apply refines_after; [auto with keeps|]. by intros a d1 [<- <-]%tx_get_ok _. Qed.
Lemma refines_found rel {A B} e (f : db X → option A) (k : A → tx X B) d :
  (∀ a, f d = Some a → refines rel (k a) d) → refines rel (tx_found e f ≫= k) d.
Proof. intros Hk. apply refines_after; [auto with keeps|]. intros a d1 [E <-]%tx_found_ok _. auto. Qed.
Lemma refines_lift rel {A B} (r : checked A) (k : A → tx X B) d :
  (∀ a, r = Ok a → refines rel (k a) d) → refines rel (tx_lift r ≫= k) d.
Proof. intros Hk. apply refines_after; [auto with keeps|]. intros a d1 [E <-]%tx_lift_ok _. auto. Qed.

Lemma core_sessions (d d' : db X) : core d' = core d → sessions d' = sessions d.
Proof. unfold core. congruence. Qed.
Lemma core_eq (d d' : db X) : sessions d' = sessions d → (core d').2 = (core d).2 → core d' = core d.
Proof. unfold core. cbn [snd]. by intros -> ->. Qed.

(** An UPDATE of a row by a step that does not close a work session. *)
Lemma step_update rel (d d' : db X) r f : keys_ok (sessions d) → r ∈ sessions d → row_step rel r (f r) →
  sessions d' = update_where (at_id (s_id r)) f (sessions d) → (core d').2 = (core d).2 → closes r (f r) = [] →
  rtc (core_step rel) (core d) (core d').
Proof.
  intros Hk Hr Hs Ed Ex Hc. apply rtc_once. apply (one_row rel d d' r f Hk Hr Hs Ed); rewrite Hc; [by rewrite app_nil_r|by constructor].
Qed.
Lemma not_closing r r' : s_state r' ≠ StateClosed → closes r r' = [].
Proof. intros Hn. unfold closes. by rewrite (bool_decide_eq_false_2 _ Hn), andb_false_r. Qed.
Lemma still_state r r' : s_state r' = s_state r → closes r r' = [].
Proof. intros E. unfold closes. rewrite E. by destruct (bool_decide (s_kind r = KindWork)), (bool_decide (s_state r = StateClosed)). Qed.
Lemma work_closing r r' : s_kind r = KindWork → s_state r ≠ StateClosed → s_state r' = StateClosed → closes r r' = [record_key r].
Proof. intros Hk Hn Hc. unfold closes. by rewrite Hk, Hc, (bool_decide_eq_false_2 _ Hn), !bool_decide_eq_true_2 by done. Qed.
Lemma debate_closing r r' : s_kind r = KindDebate → closes r r' = [].
Proof. intros Hk. unfold closes. by rewrite Hk. Qed.

Lemma refines_session_update rel r f (d : db X) : r ∈ sessions d → row_step rel r (f r) → closes r (f r) = [] →
  refines rel (update_session (s_id r) f) d.
Proof.
  intros Hr Hs Hc Hd u d' E. apply update_session_ok in E as [E1 E2]. apply (step_update rel d d' r f); try done.
  unfold core. cbn [snd]. by rewrite E2.
Qed.

(** The UPDATE of a close, then the rest of its transaction, then the record. *)
Lemma closing_step rel (d d1 d2 : db X) r f : keys_ok (sessions d) → r ∈ sessions d →
  s_kind r = KindWork → s_state r ≠ StateClosed → s_state (f r) = StateClosed → row_step rel r (f r) →
  sessions d1 = update_where (at_id (s_id r)) f (sessions d) → (core d1).2 = (core d).2 →
  sessions d2 = sessions d1 → (core d2).2 = (core d1).2 ++ [record_key r] → record_key r ∉ (core d1).2 →
  core_step rel (core d) (core d2).
Proof.
  intros Hk Hr Hw Hn Hc Hs E1 X1 E2 X2 Hf. rewrite X1 in X2, Hf.
  apply (one_row rel d d2 r f Hk Hr Hs); rewrite ?(work_closing r (f r) Hw Hn Hc); [by rewrite E2, E1|done|by repeat constructor].
Qed.

Lemma closeSessionTx_steps rel row o v by_ cby now (d : db X) x d' : keys_ok (sessions d) → row ∈ sessions d →
  s_kind row = KindWork → s_state row ≠ StateClosed → row_step rel row (closed_row o v now row) →
  closeSessionTx row o v by_ cby now d = Ok (x, d') → core_step rel (core d) (core d').
Proof.
  intros Hk Hr Hw Hn Hs (mid & d1 & H1 & Hx)%tx_bind_ok.
  apply tx_bind_ok in Hx as (u2 & d2 & H2 & Hx). destruct (send_update _ _ _ _ _ _ _ _ _ _ _ _ _ _ H1 H2) as [E2 X2].
  apply tx_bind_ok in Hx as (u3 & d3 & H3 & Hx). apply (quiet_eq _ _ _ _ (quiet_revoke _ _)) in H3 as [E3 X3].
  apply tx_bind_ok in Hx as (u4 & d4 & H4 & Hx).
  apply (quiet_eq _ _ _ _ (keeps_if _ _ _ _ (quiet_requester_view _ _ _) (keeps_ret _ _))) in H4 as [E4 X4].
  apply tx_bind_ok in Hx as (size & d5 & H5 & Hx). apply tx_ret_ok in Hx as [_ <-].
  apply writeExperience_ok in H5 as (E5 & X5 & F5).
  match type of E2 with _ = update_where _ ?f _ => apply (closing_step rel d d4 d5 row f Hk Hr Hw Hn eq_refl Hs) end;
    [by rewrite E4, E3|by rewrite X4, X3, X2|exact E5|exact X5|exact F5].
Qed.

Lemma refines_close rel row o v by_ cby now (d : db X) : row ∈ sessions d → s_kind row = KindWork → s_state row ≠ StateClosed →
  row_step rel row (closed_row o v now row) → refines rel (closeSessionTx row o v by_ cby now) d.
Proof. intros Hr Hw Hn Hs Hk x d' E. apply rtc_once. by eapply closeSessionTx_steps. Qed.

(** What requester_row and in_state grant. *)
Lemma refines_requester rel {A} id (k : session → tx X A) d :
  (∀ r, r ∈ sessions d → s_id r = id → s_role r = Requester → refines rel (k r) d) → refines rel (requester_row id ≫= k) d.
Proof.
  intros Hk. unfold requester_row. apply refines_after.
  { unfold scanByID. apply keeps_bind; [auto with keeps|]. intros r. apply keeps_if; auto with keeps. }
  intros r d1 (r' & d2 & H1 & H2)%tx_bind_ok _. apply tx_found_ok in H1 as [H1 <-].
  destruct (bool_decide (s_role r' = Requester)) eqn:E; [|done]. apply tx_ret_ok in H2 as [<- <-].
  apply session_by_id_in in H1 as [Hin Hid]. by apply Hk; [..|apply bool_decide_eq_true in E].
Qed.
Lemma refines_in_state rel {A} r allowed (k : unit → tx X A) d :
  (s_kind r = KindWork → s_state r ∈ allowed → refines rel (k tt) d) → refines rel (in_state r allowed ≫= k) d.
Proof.
  intros Hk. unfold in_state, bad_state. apply refines_after; [apply keeps_if; [auto with keeps|apply keeps_if; auto with keeps]|].
  intros u d1 E _. destruct (s_kind r) eqn:Ek; [|done]. cbn in E. destruct (bool_decide (s_state r ∈ allowed)) eqn:E'; [|done].
  apply tx_ret_ok in E as [<- <-]. apply Hk; [done|by apply bool_decide_eq_true in E'].
Qed.

Lemma refines_send rel {A} r sq rnd st o v changes now g (k : bytes → tx X A) (d : db X) : r ∈ sessions d →
  row_step rel r (g (sent sq rnd st o v changes now r)) → closes r (g (sent sq rnd st o v changes now r)) = [] → (∀ mid, quiet (k mid)) →
  refines rel (mid ← sendState r sq rnd st o v changes now; _ ← update_session (s_id r) g; k mid) d.
Proof.
  intros Hr Hs Hc Hq Hk a d' (mid & d1 & H1 & Hx)%tx_bind_ok. apply tx_bind_ok in Hx as (u & d2 & H2 & Hx).
  destruct (send_update _ _ _ _ _ _ _ _ _ _ _ _ _ _ H1 H2) as [E2 X2]. rewrite (Hq mid _ _ _ Hx).
  match type of E2 with _ = update_where _ ?f _ => by apply (step_update rel d d2 r f) end.
Qed.

(** ** The requester's calls (transitions.go) *)

Ltac in_cases H := repeat (apply elem_of_cons in H as [H|H]); try (by apply elem_of_nil in H).

Lemma refines_AcceptResult rel id now d : refines rel (AcceptResultTx id now) d.
Proof.
  apply refines_requester. intros r Hr <- Ha. apply refines_in_state. intros Hw Hs. in_cases Hs.
  apply refines_bind; [|intros [size mid] d1 _; apply refines_quiet; auto with keeps].
  apply refines_close; [done|done|by rewrite Hs|]. apply step_accept; auto.
Qed.
Lemma refines_AcceptResultIn rel id now d : refines rel (AcceptResultInTx id now) d.
Proof.
  apply refines_requester. intros r Hr <- Ha. apply refines_in_state. intros Hw Hs. in_cases Hs.
  apply refines_bind; [|intros [size mid] d1 _; apply refines_quiet; auto with keeps].
  apply refines_close; [done|done|by rewrite Hs|]. apply step_accept; auto.
Qed.
Lemma refines_RequestChanges rel id changes now d : checkCodePoints (field "changes") changes 1 4000 newline_tab = Ok tt →
  refines rel (RequestChangesTx id changes now) d.
Proof.
  intros Hc. apply refines_requester. intros r Hr <- Ha. apply refines_in_state. intros Hw Hs.
  apply (refines_send rel r _ _ _ _ _ _ _ (changes_columns (s_seq r + 1) (s_round r + 1) changes now)); [done| |by apply not_closing|auto with keeps].
  apply (step_changes rel r changes now); try done. in_cases Hs; auto.
Qed.
Lemma refines_Release rel id now d : rel id = true → refines rel (ReleaseInTx id now) d.
Proof.
  intros Hrel. apply refines_requester. intros r Hr <- Ha. apply refines_in_state. intros Hw Hs. in_cases Hs.
  apply (refines_send rel r _ _ _ _ _ _ _ (release_columns (s_seq r + 1) now) (λ _, mret (s_peer r, s_round r))); [done| |by apply not_closing|auto with keeps].
  by apply (step_release rel r now).
Qed.
Lemma refines_ReleaseApproved rel id approvalID now d : rel id = true → refines rel (ReleaseApprovedTx id approvalID now) d.
Proof.
  intros Hrel. unfold ReleaseApprovedTx. apply refines_bind; [by apply refines_Release|]. intros [peer rnd] d1 _. apply refines_quiet. auto with keeps.
Qed.
Lemma refines_Discard rel id now d : refines rel (DiscardTx id now) d.
Proof.
  apply refines_requester. intros r Hr <- Ha. apply refines_in_state. intros Hw Hs. in_cases Hs.
  intros Hk x d' (mid & d1 & H1 & Hx)%tx_bind_ok.
  apply tx_bind_ok in Hx as (u2 & d2 & H2 & Hx). destruct (send_update _ _ _ _ _ _ _ _ _ _ _ _ _ _ H1 H2) as [E2 X2].
  apply tx_bind_ok in Hx as (u3 & d3 & H3 & Hx). apply (quiet_eq _ _ _ _ (quiet_revoke _ _)) in H3 as [E3 X3].
  apply tx_bind_ok in Hx as (u4 & d4 & H4 & Hx). apply (quiet_eq _ _ _ _ (quiet_requester_view _ _ _)) in H4 as [E4 X4].
  apply tx_bind_ok in Hx as (size & d5 & H5 & Hx). apply tx_ret_ok in Hx as [_ <-].
  apply writeExperience_ok in H5 as (E5 & X5 & F5). apply rtc_once.
  match type of E2 with _ = update_where _ ?f _ => apply (closing_step rel d d4 d5 r f Hk Hr Hw) end;
    [by rewrite Hs|done|by apply (step_discard rel r now)|by rewrite E4, E3|by rewrite X4, X3, X2|exact E5|exact X5|exact F5].
Qed.

(** ** The debate store (assumed)

    It closes debate sessions and writes their records, nothing else of the
    core: what CloseDebateTx (debate.go of this package) does for it. *)

Inductive debate_step : core_state → core_state → Prop :=
| debate_close l1 r l2 xs o now : s_kind r = KindDebate → s_state r ≠ StateClosed →
    debate_step (l1 ++ r :: l2, xs) (l1 ++ sset_cancel None (close_columns o now r) :: l2, xs)
| debate_record l xs key : (∃ r, r ∈ l ∧ s_kind r = KindDebate ∧ s_id r = key.1) → key ∉ xs → debate_step (l, xs) (l, xs ++ [key]).
Definition debate_tx {A} (m : tx X A) : Prop :=
  ∀ d a d', keys_ok (sessions d) → m d = Ok (a, d') → rtc debate_step (core d) (core d').

Lemma debate_core_step rel c c' : debate_step c c' → core_step rel c c'.
Proof.
  intros Hs. destruct Hs as [l1 r l2 xs o now Hk Hn|]; [|by constructor].
  pose proof (core_row rel l1 r (sset_cancel None (close_columns o now r)) l2 xs) as Hc.
  rewrite (debate_closing r _ Hk), app_nil_r in Hc. apply Hc; [by apply step_debate|by constructor].
Qed.
Lemma refines_debate rel {A} (m : tx X A) d : debate_tx m → refines rel m d.
Proof.
  intros Hm Hk a d' E. apply (rtc_subrel debate_step); [|by apply (Hm d a)]. intros c c'. apply debate_core_step.
Qed.

Lemma CloseDebateTx_debate sid o now : debate_tx (CloseDebateTx sid o now).
Proof.
  intros d a d' [Hk _] (r & d1 & H1 & Hx)%tx_bind_ok. apply tx_found_ok in H1 as [[Hr <-]%session_by_id_in <-].
  destruct (bool_decide (s_kind r = KindDebate)) eqn:Ed; [|done]. apply bool_decide_eq_true in Ed. cbn [negb] in Hx.
  destruct (bool_decide (s_state r = StateClosed)) eqn:Ec; [by apply tx_ret_ok in Hx as [_ <-]|]. apply bool_decide_eq_false in Ec.
  apply tx_bind_ok in Hx as (u & d2 & H2 & Hx). apply update_session_ok in H2 as [E2 X2].
  apply tx_bind_ok in Hx as (u3 & d3 & H3 & Hx). apply (quiet_eq _ _ _ _ (quiet_revoke _ _)) in H3 as [E3 X3].
  apply tx_ret_ok in Hx as [_ <-]. destruct (update_one (sessions d) r (λ r, sset_cancel None (close_columns o now r)) Hk Hr) as (l1 & l2 & El & Eu).
  unfold at_id in E2. unfold core in *. cbn [snd] in *. rewrite X3, X2, E3, E2, Eu. rewrite El at 1. apply rtc_once. by constructor.
Qed.

Class DebateLaws := debate_laws : ∀ h, Debates = Some h →
  (∀ rl peer req sid now, debate_tx (OpenedTx h rl peer req sid now)) ∧
  (∀ sid now, debate_tx (CancelTx h sid now)) ∧ (∀ sid now, debate_tx (PeerCancelTx h sid now)) ∧
  (∀ sid now, debate_tx (EarlyCompleteTx h sid now)) ∧ (∀ sid now, debate_tx (AbandonTx h sid now)) ∧
  (∀ req now, debate_tx (ReceivedTx h req now)) ∧ (∀ dir peer id now, debate_tx (EndedTx h dir peer id now)).
Context `{DebateLaws}.

Ltac debate_hook E := let L := fresh "L" in
  pose proof (debate_laws _ E) as L; decompose [and] L; apply refines_debate; eauto.

Lemma refines_Cancel rel id now d : refines rel (CancelSessionTx id now) d.
Proof.
  apply refines_requester. intros r Hr <- Ha. destruct (bool_decide (s_state r = StateOpen)) eqn:Es; [|apply refines_err].
  apply bool_decide_eq_true in Es. cbn [negb]. destruct (s_kind r) eqn:Ek; cbn [bool_decide].
  - apply refines_bind; [|intros [size mid] d1 _; apply refines_quiet; auto with keeps].
    apply refines_close; [done|done|by rewrite Es|]. by apply step_cancel.
  - destruct Debates as [h|] eqn:Eh; [|apply refines_err].
    apply refines_bind; [debate_hook Eh|]. intros after d1 _. apply refines_quiet. auto with keeps.
Qed.

(** ** The hooks of the request life cycle (hooks.go) *)

Lemma conflicts_false sid rl peer req (d : db X) : conflicts sid rl peer req d = false →
  sid ∉ map s_id (sessions d) ∧ (rl, peer, req) ∉ map request_key (sessions d).
Proof.
  intros Hc. apply not_true_iff_false in Hc. unfold conflicts in Hc. rewrite existsb_exists in Hc.
  split; intros (r & E & Hr)%elem_of_map_list; apply Hc; exists r; (split; [by apply list_elem_of_In|]); apply orb_true_iff.
  - left. by apply bool_decide_eq_true.
  - right. by apply is_session_key.
Qed.

Lemma refines_new rel sid rl peer req team k now (d : db X) :
  sid = DeriveID (idA rl peer) (idB rl peer) req → conflicts sid rl peer req d = false →
  refines rel (set_sessions (λ l, l ++ [new_session sid rl peer req team k now])) d.
Proof. intros -> [Hi Hk]%conflicts_false _ u d' [= _ <-]. apply rtc_once. by constructor. Qed.

Lemma quiet_requestType rl peer req : quiet (requestType rl peer req).
Proof. unfold requestType. auto with keeps. Qed.
Hint Resolve quiet_requestType : keeps.

Lemma quiet_auditOpen actor sid req peer rl : quiet (auditOpen actor sid req peer rl).
Proof. unfold auditOpen. auto with keeps. Qed.
Hint Resolve quiet_auditOpen : keeps.
Lemma refines_OpenSession rel actor rl peer req team now d : refines rel (ws_OpenSession actor rl peer req team now) d.
Proof.
  unfold ws_OpenSession. apply refines_after; [auto with keeps|]. intros typ d0 _ _. clear d. rename d0 into d.
  apply refines_if; intros _; [apply refines_err|]. apply refines_get.
  set (k := if bool_decide (typ = Some TypeDebate) then KindDebate else KindWork).
  apply refines_bind.
  - apply refines_if; intros Hc; [apply refines_quiet; auto with keeps|].
    apply refines_bind; [by apply refines_new|]. intros u d1 _. apply refines_quiet. auto with keeps.
  - intros effs d1 _. destruct Debates as [h|] eqn:Eh; [|apply refines_quiet; auto with keeps].
    apply refines_if; intros _; [|apply refines_quiet; auto with keeps].
    apply refines_bind; [debate_hook Eh|]. intros u d2 _. apply refines_quiet. auto with keeps.
Qed.

Lemma refines_cancelled_close rel row by_ cby now (d : db X) : row ∈ sessions d → s_role row = Requester → s_kind row = KindWork →
  s_state row = StateOpen → refines rel (closeSessionTx row OutcomeCancelled None by_ cby now) d.
Proof. intros Hr Ha Hw Hs. apply refines_close; [done|done|by rewrite Hs|]. by apply step_cancel. Qed.

Lemma quiet_no_session peer req had : quiet (early_no_session peer req had).
Proof. unfold early_no_session. keeps_tac. Qed.
Hint Resolve quiet_no_session : keeps.

Lemma refines_EarlyComplete rel peer req note res now d : refines rel (ws_EarlyComplete peer req note res now) d.
Proof.
  unfold ws_EarlyComplete. set (had := _ || _). apply refines_get.
  destruct (find_session Requester peer req d) as [row|] eqn:Ef; [|apply refines_quiet; auto with keeps].
  apply find_session_in in Ef as (Hr & Ha & _ & _). apply refines_if; intros Hd.
  - unfold earlyCompleteDebate. destruct Debates as [h|] eqn:Eh; [|apply refines_err].
    apply refines_bind; [debate_hook Eh|]. intros effs d1 _. apply refines_quiet. auto with keeps.
  - apply refines_after; [apply keeps_if; auto with keeps|]. intros q d1 _ Ec. apply core_sessions in Ec.
    destruct (s_state row) eqn:Es; [|apply refines_quiet; keeps_tac..].
    apply refines_bind; [|intros [size mid] d2 _; apply refines_quiet; auto with keeps].
    apply refines_cancelled_close; [by rewrite Ec|done| |done]. by destruct (s_kind row).
Qed.

Lemma refines_SessionEnded rel peer req now d : refines rel (ws_SessionEndedTx peer req now) d.
Proof.
  unfold ws_SessionEndedTx. apply refines_get.
  destruct (find_session Requester peer req d) as [row|] eqn:Ef; [|apply refines_quiet; auto with keeps].
  apply find_session_in in Ef as (Hr & Ha & _ & _).
  destruct (bool_decide (s_state row = StateOpen)) eqn:Es; [|apply refines_quiet; cbn [negb]; auto with keeps]. apply bool_decide_eq_true in Es.
  cbn [negb]. destruct (s_kind row) eqn:Ek; cbn [bool_decide].
  - apply refines_bind; [by apply refines_cancelled_close|]. intros [size mid] d2 _. apply refines_quiet. auto with keeps.
  - change (bool_decide (KindDebate = KindDebate)) with true. cbv iota.
    destruct Debates as [h|] eqn:Eh; [|apply refines_err]. debate_hook Eh.
Qed.

Lemma refines_MarkRunner rel peer req d : refines rel (ws_MarkRunnerTx peer req) d.
Proof.
  intros Hk u d' [= _ <-]. destruct (List.find (is_session Worker peer req) (sessions d)) as [r|] eqn:E.
  - apply find_in in E as [Hr Hp]. assert (s_role r = Worker) as Hw by (apply is_session_key in Hp; by injection Hp).
    apply (step_update rel d _ r (sset_runner true)); try done; [by apply step_runner| |by apply still_state].
    cbn [sessions]. unfold update_where. apply map_ext_in. intros x Hx%list_elem_of_In. unfold at_id.
    destruct (is_session Worker peer req x) eqn:Ex, (bool_decide (s_id x = s_id r)) eqn:Ei; try done.
    + apply bool_decide_eq_false in Ei. destruct Ei. apply is_session_key in Ex, Hp.
      rewrite (key_unique _ _ _ Hk Hr Hx); [done|congruence].
    + apply bool_decide_eq_true in Ei. apply not_true_iff_false in Ex. destruct Ex.
      destruct (update_one (sessions d) r id (proj1 Hk) Hr) as (l1 & l2 & El & _).
      destruct Hk as [Hk _]. rewrite El in Hx, Hk. rewrite map_app in Hk. cbn [map] in Hk.
      apply NoDup_app in Hk as (_ & Hk1 & [Hk2 _]%NoDup_cons). apply elem_of_app in Hx as [Hx|Hx].
      * destruct (Hk1 (s_id r)); [rewrite <- Ei; apply elem_of_map_list; eauto|by left].
      * apply elem_of_cons in Hx as [->|Hx]; [done|]. destruct Hk2. rewrite <- Ei. apply elem_of_map_list. eauto.
  - enough (update_where (is_session Worker peer req) (sset_runner true) (sessions d) = sessions d) as -> by (by destruct d).
    apply update_where_none, Forall_forall. intros x Hx. apply list_elem_of_In in Hx. by apply (List.find_none _ _ E x).
Qed.

(** ** Received mail and submissions (receive.go, mirror.go, cancel.go, submit.go) *)

Lemma as_bad_body_ok {A} (r : checked A) a : as_bad_body r = Ok a → r = Ok a.
Proof. by destruct r. Qed.

Lemma decode_result_mail_ok derived b m : decode_result_mail derived b = Ok m →
  WS.ValidateResult (rm_result m) = Ok tt ∧ rm_session m = derived (rm_request m).
Proof.
  unfold decode_result_mail. intros Hd.
  repeat (first [apply rbind_ok in Hd as (? & ? & Hd) | apply guard_ok in Hd as [? Hd]]).
  injection Hd as <-. cbn [rm_result rm_session rm_request].
  repeat match goal with Hx : as_bad_body _ = Ok _ |- _ => apply as_bad_body_ok in Hx end.
  repeat match goal with u : unit |- _ => destruct u end.
  split; [done|]. by match goal with Hx : bool_decide (_ = derived _) = true |- _ => apply bool_decide_eq_true in Hx end.
Qed.

Lemma stored_as_canonical res canon : WS.ValidateResult res = Ok tt → WS.CanonicalResult res = Ok canon → stored_as canon res.
Proof. intros Hv Hc. split_and!; [|done..]. apply WSLemmas.ws_stored_result_back; [by apply WSLemmas.ValidateResult_ok|done]. Qed.

Lemma refines_apply_result_row rel row peer m now (d : db X) : row ∈ sessions d → s_role row = Requester → s_state row = StateOpen →
  rm_round m = s_round row → WS.ValidateResult (rm_result m) = Ok tt → refines rel (apply_result_row row peer m now) d.
Proof.
  intros Hr Ha Hs En Hv. unfold apply_result_row. apply refines_after; [auto with keeps|]. intros q d0 _ E0%core_sessions.
  rewrite <- E0 in Hr. clear E0 d. rename d0 into d. rewrite En. intros Hk x d' (mid & d1 & H1 & Hx)%tx_bind_ok.
  apply tx_bind_ok in Hx as (canon & d2 & [Hc <-]%tx_lift_ok & Hx). apply as_bad_body_ok in Hc.
  apply tx_bind_ok in Hx as (u & d2 & H2 & Hx). apply tx_ret_ok in Hx as [_ <-].
  destruct (send_update _ _ _ _ _ _ _ _ _ _ _ _ _ _ H1 H2) as [E2 X2].
  match type of E2 with _ = update_where _ ?f _ => apply (step_update rel d d2 row f Hk Hr) end; [|done|done|].
  - apply (step_result rel row _ canon (rm_result m) now Ha Hs); [by destruct q; auto|by apply stored_as_canonical].
  - apply not_closing. by destruct q.
Qed.

Lemma refines_applyResult rel op now d : op_to op = Self → refines rel (applyResult op now) d.
Proof.
  intros Hto. unfold applyResult. apply refines_lift. intros m Hm. apply decode_result_mail_ok in Hm as [Hv Hid]. apply refines_get.
  destruct (requestOutState _ _ d) as [[[team st] typ]|]; [|apply refines_quiet; auto with keeps].
  apply refines_if; intros _; [apply refines_quiet; auto with keeps|]. apply refines_if; intros _; [apply refines_quiet; auto with keeps|].
  assert (∀ row d1, row ∈ sessions d1 → s_role row = Requester → ∀ opened : list effect,
    refines rel (res ← (if negb (bool_decide (s_state row = StateOpen)) then ignored_result ignored_state (s_id row) (op_from op)
             else if negb (rm_round m =? s_round row) then ignored_result ignored_round (s_id row) (op_from op)
             else apply_result_row row (op_from op) m now); mret (res, opened)) d1) as Hrow.
  { intros row d1 Hr Ha opened. apply refines_bind; [|intros res d2 _; apply refines_quiet; auto with keeps].
    destruct (bool_decide (s_state row = StateOpen)) eqn:Es; [|apply refines_quiet; apply keeps_ret].
    destruct (rm_round m =? s_round row) eqn:En; [|apply refines_quiet; apply keeps_ret].
    apply refines_apply_result_row; try done; [by apply bool_decide_eq_true in Es|by apply Z.eqb_eq]. }
  unfold find_or_open. apply refines_bind.
  - apply refines_get. destruct (find_session Requester (op_from op) (rm_request m) d) as [row|]; [apply refines_quiet; auto with keeps|].
    apply refines_get. apply refines_if; intros Hc; [apply refines_err|].
    apply refines_bind; [apply refines_new; [by rewrite Hid, Hto|done]|].
    intros u d1 _. apply refines_quiet. unfold findRowTx. keeps_tac.
  - intros [row opened] d1 Hf. apply tx_bind_ok in Hf as (fo & d2 & [Ef <-]%tx_get_ok & Hf). destruct fo as [row'|].
    + apply tx_ret_ok in Hf as [[= <- <-] <-]. apply find_session_in in Ef as (Hr & Ha & _). by apply Hrow.
    + apply tx_bind_ok in Hf as (c & d3 & [Ec <-]%tx_get_ok & Hf). destruct c; [done|].
      apply tx_bind_ok in Hf as (u & d4 & _ & Hf). apply tx_bind_ok in Hf as (row' & d5 & [E5 <-]%tx_found_ok & Hf).
      apply tx_bind_ok in Hf as (rows & d6 & E6 & Hf). apply (quiet_eq _ _ _ _ (quiet_auditOpen _ _ _ _ _)) in E6 as [E6 _].
      apply tx_ret_ok in Hf as [[= <- _] <-]. apply find_session_in in E5 as (Hr & Ha & _). rewrite <- E6 in Hr. by apply Hrow.
Qed.

Lemma refines_submitResult rel peer req res by_ now d : WS.ValidateResult res = Ok tt → refines rel (submitResultTx peer req res by_ now) d.
Proof.
  intros Hv. unfold submitResultTx. apply refines_get.
  destruct (find_session Worker peer req d) as [row|] eqn:Ef; [|apply refines_quiet; auto with keeps].
  apply find_session_in in Ef as (Hr & Ha & _). apply refines_if; intros Hg; [apply refines_err|].
  repeat apply orb_false_iff in Hg as [Hg ?]. apply bool_decide_eq_false in Hg.
  assert (s_state row = StateOpen) as Hs by (by eapply bool_decide_eq_true, negb_false_iff).
  apply refines_lift. intros c _. apply refines_lift. intros u _. apply refines_lift. intros canon Hc.
  apply refines_after; [auto with keeps|]. intros mid d1 _ E1%core_sessions. rewrite <- E1 in Hr.
  apply refines_bind; [|intros u' d2 _; apply refines_quiet; auto with keeps].
  apply refines_session_update; [done| |by apply still_state].
  apply (step_submit _ row canon res mid now); try done; [by destruct (s_kind row)| |by apply stored_as_canonical].
  by eapply bool_decide_eq_false.
Qed.

Lemma refines_submitCancel rel row reason now d : row ∈ sessions d → s_role row = Worker → s_state row ≠ StateClosed →
  refines rel (submitCancelTx row reason now) d.
Proof.
  intros Hr Hw Hn. unfold submitCancelTx. apply refines_after; [auto with keeps|]. intros mid d1 _ E1%core_sessions. rewrite <- E1 in Hr.
  apply refines_bind; [|intros u d2 _; apply refines_quiet; auto with keeps].
  apply refines_session_update; [done|by apply step_ask_cancel|by apply still_state].
Qed.

Lemma refines_SubmitCancel rel id reason by_ now d : refines rel (SubmitCancelTx id reason by_ now) d.
Proof.
  unfold SubmitCancelTx, scanByID. apply refines_found. intros r [Hr <-]%session_by_id_in.
  destruct (bool_decide (s_role r = Worker)) eqn:Ew; cbn [negb]; [|apply refines_err]. apply bool_decide_eq_true in Ew.
  apply refines_if; intros Hg; [apply refines_err|]. apply orb_false_iff in Hg as [_ Hn]. apply bool_decide_eq_false in Hn.
  apply refines_bind; [apply refines_if; intros _; [apply refines_quiet; auto with keeps|by apply refines_submitCancel]|].
  intros mid d1 _. apply refines_bind.
  - apply refines_if; intros _; [|apply refines_quiet; auto with keeps]. destruct Debates as [h|] eqn:Eh; [debate_hook Eh|apply refines_err].
  - intros effs d2 _. apply refines_quiet. auto with keeps.
Qed.

Lemma decode_state_mail_ok derived b m : decode_state_mail derived b = Ok m → state_mail_ok m ∧ sm_session m = derived (sm_request m).
Proof.
  unfold decode_state_mail. intros Hd.
  apply rbind_ok in Hd as (_ & _ & Hd). apply rbind_ok in Hd as (at_ & _ & Hd). apply rbind_ok in Hd as (reqID & _ & Hd).
  apply rbind_ok in Hd as (round & _ & Hd). apply guard_ok in Hd as [Hround Hd]. apply rbind_ok in Hd as (sq & _ & Hd).
  apply guard_ok in Hd as [_ Hd]. apply rbind_ok in Hd as (sid & _ & Hd). apply guard_ok in Hd as [Hsid Hd].
  apply rbind_ok in Hd as (st_ & _ & Hd). apply rbind_ok in Hd as (st & _ & Hd). apply rbind_ok in Hd as (o & _ & Hd).
  apply guard_ok in Hd as [Ho Hd]. apply rbind_ok in Hd as (changes & _ & Hd). apply rbind_ok in Hd as ([] & Hch & Hd).
  apply rbind_ok in Hd as (v & _ & Hd). apply guard_ok in Hd as [Hv Hd]. injection Hd as <-.
  cbn [sm_session sm_request]. apply bool_decide_eq_true in Hsid, Ho. split; [|done].
  constructor; cbn [sm_round sm_outcome sm_state sm_changes sm_verification].
  - by apply Z.ltb_ge, negb_true_iff.
  - by rewrite <- (bool_decide_eq_true (o ≠ None)), Ho, bool_decide_eq_true.
  - intros Hne. destruct changes as [|c ch]; [done|]. cbn [when_set] in Hch.
    destruct (bool_decide (st = StateOpen)) eqn:E; [by apply bool_decide_eq_true in E|done].
  - intros Hne. apply orb_true_iff in Hv as [Hv|Hv]; by apply bool_decide_eq_true in Hv.
Qed.

Lemma quiet_try_complete peer id note res now : quiet (tx_try (CompleteInTx peer id note res now)).
Proof. apply keeps_try. auto with keeps. Qed.
Hint Resolve quiet_try_complete : keeps.

(** The close of a mirror, from the UPDATE of the mirror on. *)
Lemma refines_apply_state_row rel row peer m now (d : db X) : row ∈ sessions d → s_role row = Worker → s_kind row = KindWork →
  s_state row ≠ StateClosed → s_seq row < sm_seq m → state_mail_ok m → refines rel (apply_state_row row peer m now) d.
Proof.
  intros Hr Hw Hk Hn Hq Hm. pose proof (step_mirror rel row m now Hw Hk Hn Hq Hm) as Hs.
  pose proof (mirror_columns_fields m now row) as (Ei & _ & _ & Est & _). unfold apply_state_row.
  destruct (sm_outcome m) as [o|] eqn:Eo.
  - assert (sm_state m = StateClosed) as Ec by (apply (sm_outcome_ok m Hm); by rewrite Eo). rewrite Ec. cbn [bool_decide].
    intros Hd x d' (u & d1 & H1 & Hx)%tx_bind_ok. apply update_session_ok in H1 as [E1 X1].
    apply tx_bind_ok in Hx as (mid & d2 & H2 & Hx). apply (quiet_eq _ _ _ _ (keeps_ret _ _)) in H2 as [E2 X2].
    apply tx_bind_ok in Hx as (effs & d3 & H3 & Hx). apply (quiet_eq _ _ _ _ (keeps_ret _ _)) in Hx as [E9 X9].
    unfold mirror_close in H3. apply tx_bind_ok in H3 as (u3 & d4 & H4 & Hx). apply (quiet_eq _ _ _ _ (quiet_revoke _ _)) in H4 as [E4 X4].
    apply tx_bind_ok in Hx as (size & d5 & H5 & Hx). apply writeExperience_ok in H5 as (E5 & X5 & F5).
    match type of Hx with ?m _ = _ => assert (quiet m) as Hq' by keeps_tac end.
    apply (quiet_eq _ _ _ _ Hq') in Hx as [E6 X6]. change (record_key (sset_round (sm_round m) row)) with (record_key row) in *.
    apply rtc_once. apply (closing_step rel d d4 d' row (mirror_columns m now) Hd Hr Hk Hn); [by rewrite Est|done|..].
    + by rewrite E4, E2, E1.
    + rewrite X4, X2. unfold core. cbn [snd]. by rewrite X1.
    + by rewrite E9, E6, E5.
    + by rewrite X9, X6, X5.
    + done.
  - assert (sm_state m ≠ StateClosed) as Ec by (intros Ec; by apply (sm_outcome_ok m Hm) in Ec).
    apply refines_bind; [apply refines_session_update; [done|done|by apply not_closing; rewrite Est]|].
    intros u d1 H1. apply refines_bind; [|intros mid d2 _; apply refines_quiet; keeps_tac].
    apply refines_if; intros Ha; [|apply refines_quiet; auto with keeps].
    intros Hd1. apply update_session_ok in H1 as [E1 _].
    assert (mirror_columns m now row ∈ sessions d1) as Hr1.
    { rewrite E1. unfold update_where. apply elem_of_map_list. exists row. split; [|done]. unfold at_id. by rewrite bool_decide_eq_true_2. }
    assert (submitCancelTx row [] now = submitCancelTx (mirror_columns m now row) [] now) as ->; [|apply refines_submitCancel; try done].
    + unfold submitCancelTx, cancel_body, mirror_columns. by destruct (sm_verification m), (bool_decide (sm_state m = StateClosed)), (drops_result _ _).
    + unfold mirror_columns. by destruct (sm_verification m), (bool_decide (sm_state m = StateClosed)), (drops_result _ _).
    + by rewrite Est.
Qed.

Lemma refines_applyState rel op now d : refines rel (applyState op now) d.
Proof.
  unfold applyState. apply refines_lift. intros m [Hm _]%decode_state_mail_ok. apply refines_get.
  destruct (find_session Worker (op_from op) (sm_request m) d) as [row|] eqn:Ef; [|apply refines_quiet; auto with keeps].
  apply find_session_in in Ef as (Hr & Hw & _). apply refines_if; intros Hk; [apply refines_quiet; auto with keeps|].
  apply refines_if; intros Hq.
  - apply refines_bind; [|intros u d1 _; apply refines_quiet; auto with keeps].
    apply refines_if; intros Hc; [|apply refines_quiet; auto with keeps].
    apply refines_session_update; [done| |by apply still_state]. apply step_refused; [done|].
    unfold refuses_cancel, cancel_requested in Hc. rewrite !andb_true_iff, !bool_decide_eq_true in Hc. naive_solver.
  - apply refines_if; intros Hn; [apply refines_quiet; auto with keeps|].
    apply refines_apply_state_row; try done; [by destruct (s_kind row)|by apply bool_decide_eq_false in Hn|by apply Z.leb_gt].
Qed.

Lemma refines_applyCancel rel op now d : refines rel (applyCancel op now) d.
Proof.
  unfold applyCancel. apply refines_lift. intros m _. apply refines_get.
  apply refines_after; [auto with keeps|]. intros q d1 _ E1%core_sessions.
  apply refines_bind; [|intros o d2 _; apply refines_quiet; auto with keeps].
  destruct (find_session Requester (op_from op) (cm_request m) d) as [row|] eqn:Ef; [|apply refines_quiet; auto with keeps].
  apply find_session_in in Ef as (Hr & Ha & _). rewrite <- E1 in Hr.
  destruct (bool_decide (s_state row = StateOpen)) eqn:Es; [|apply refines_quiet; cbn [negb]; auto with keeps]. apply bool_decide_eq_true in Es.
  destruct (s_kind row) eqn:Ek.
  - change (bool_decide (KindWork = KindDebate)) with false. cbv iota zeta.
    apply refines_bind; [by apply refines_cancelled_close|]. intros [size mid] d2 _. apply refines_quiet. auto with keeps.
  - change (bool_decide (KindDebate = KindDebate)) with true. cbv iota zeta.
    destruct Debates as [h|] eqn:Eh; [|apply refines_err].
    apply refines_bind; [debate_hook Eh|]. intros [done_ effs] d2 _. apply refines_quiet. auto with keeps.
Qed.

Lemma refines_phase1 rel peer req now d : refines rel (phase1Tx peer req now) d.
Proof.
  unfold phase1Tx, findRowTx. apply refines_found. intros row (Hr & Hw & _)%find_session_in. unfold swept.
  apply refines_if; intros Hg; [apply refines_quiet; auto with keeps|].
  apply orb_false_iff in Hg as [Hn Hk]. apply bool_decide_eq_false in Hn, Hk. assert (s_kind row = KindWork) as Hk' by (by destruct (s_kind row)).
  intros Hd x d' (u & d1 & H1 & Hx)%tx_bind_ok. apply update_session_ok in H1 as [E1 X1].
  apply tx_bind_ok in Hx as (u3 & d4 & H4 & Hx). apply (quiet_eq _ _ _ _ (quiet_revoke _ _)) in H4 as [E4 X4].
  apply tx_bind_ok in Hx as (size & d5 & H5 & Hx). apply writeExperience_ok in H5 as (E5 & X5 & F5).
  match type of Hx with ?m _ = _ => assert (quiet m) as Hq' by keeps_tac end. apply (quiet_eq _ _ _ _ Hq') in Hx as [E6 X6].
  apply rtc_once. apply (closing_step rel d d4 d' row (close_columns OutcomeCancelled now) Hd Hr Hk' Hn); [done|by apply step_timeout|..].
  - by rewrite E4, E1.
  - rewrite X4. unfold core. cbn [snd]. by rewrite X1.
  - by rewrite E6, E5.
  - by rewrite X6, X5.
  - done.
Qed.

(** ** The calls of request.Store that reach the sessions *)

Lemma refines_ended rel (b : bool) h dir peer id now d : Debates = Some h →
  refines rel (if b then EndedTx h dir peer id now else mret tt) d.
Proof. intros Eh. apply refines_if; intros _; [debate_hook Eh|apply refines_quiet; auto with keeps]. Qed.

Lemma refines_transition rel id from allowed build now d : refines rel (transitionTx id from allowed build now) d.
Proof.
  unfold transitionTx. apply refines_after; [auto with keeps|]. intros row d1 _ _.
  apply refines_if; intros _; [apply refines_err|]. apply refines_lift. intros tb _.
  apply refines_after; [auto with keeps|]. intros u d2 _ _. apply refines_after; [auto with keeps|]. intros mid d3 _ _.
  apply refines_bind; [destruct Debates as [h|] eqn:Eh; [by apply refines_ended|apply refines_quiet; auto with keeps]|].
  intros u2 d4 _. apply refines_bind; [|intros effs d5 _; apply refines_quiet; auto with keeps].
  apply refines_if; intros _; [apply refines_OpenSession|apply refines_quiet; auto with keeps].
Qed.
Lemma refines_acceptIn rel id from ty actor now d : refines rel (acceptInTx id from ty actor now) d.
Proof.
  apply refines_bind; [apply refines_transition|]. intros [[[row sq] mid] effs] d1 _. apply refines_quiet. auto with keeps.
Qed.
Lemma refines_AnswerQuestion rel req from res now d : WS.ValidateResult res = Ok tt → refines rel (AnswerQuestionTx req from res now) d.
Proof.
  intros Hv. apply refines_bind; [apply refines_acceptIn|]. intros [peer effs] d1 _.
  apply refines_bind; [by apply refines_submitResult|]. intros sub d2 _. apply refines_quiet. keeps_tac.
Qed.

Lemma refines_mirror rel op kind reqID st sq at_ extra sizes after now d :
  refines rel (applyMirror op kind reqID st sq at_ extra sizes after now) d.
Proof.
  unfold applyMirror. apply refines_get. destruct (find_request _ _ _ d) as [row|]; [|apply refines_quiet; auto with keeps].
  apply refines_bind.
  - apply refines_if; intros _; [|apply refines_quiet; auto with keeps]. unfold mirror_apply.
    apply refines_after; [auto with keeps|]. intros u d1 _ _.
    apply refines_bind; [destruct Debates as [h|] eqn:Eh; [by apply refines_ended|apply refines_quiet; auto with keeps]|].
    intros u2 d2 _. apply refines_if; intros _; [apply refines_SessionEnded|apply refines_quiet; auto with keeps].
  - intros ended d1 _. apply refines_quiet. unfold mirror_refuse. keeps_tac.
Qed.
Lemma refines_mirror_then rel {A} op kind reqID st sq at_ extra sizes after now (k : mirrorOutcome → tx X A) d :
  (∀ o d1, refines rel (k o) d1) → refines rel (applyMirror op kind reqID st sq at_ extra sizes after now ≫= k) d.
Proof. intros Hk. apply refines_bind; [apply refines_mirror|auto]. Qed.

Lemma refines_applyAccept rel op now d : refines rel (applyAccept op now) d.
Proof.
  apply refines_lift. intros [[at_ reqID] sq] _. apply refines_mirror_then. intros o d1. apply refines_get.
  apply refines_bind; [|intros effs d2 _; apply refines_quiet; auto with keeps].
  destruct (find_request _ _ _ d1) as [r|]; [apply refines_OpenSession|apply refines_quiet; auto with keeps].
Qed.
Lemma refines_applyComplete rel op now d : refines rel (applyComplete op now) d.
Proof.
  apply refines_lift. intros [[[[at_ reqID] sq] note] res] _. apply refines_bind; [apply refines_EarlyComplete|].
  intros [cc after] d1 _. apply refines_lift. intros canon _. apply refines_mirror_then. intros o d2. apply refines_quiet. auto with keeps.
Qed.
Lemma refines_applyDecline rel op now d : refines rel (applyDecline op now) d.
Proof.
  apply refines_lift. intros [[[[at_ reqID] sq] code] reason] _. apply refines_mirror_then. intros o d2. apply refines_quiet. auto with keeps.
Qed.
Lemma refines_applyDefer rel op now d : refines rel (applyDefer op now) d.
Proof. apply refines_lift. intros [[[at_ reqID] sq] until] _. apply refines_mirror_then. intros o d2. apply refines_quiet. auto with keeps. Qed.
Lemma refines_applyCancelled rel op now d : refines rel (applyCancelled op now) d.
Proof. apply refines_lift. intros [[at_ reqID] sq] _. apply refines_mirror_then. intros o d2. apply refines_quiet. auto with keeps. Qed.

Lemma refines_applyRequestCancel rel op now d : refines rel (RequestMail.applyCancel op now) d.
Proof.
  apply refines_lift. intros [reqID reason] _. apply refines_get.
  destruct (find_request _ _ _ d) as [row|]; [|apply refines_quiet; unfold applyEarlyCancel; keeps_tac].
  apply refines_if; intros _; [apply refines_quiet; auto with keeps|]. apply refines_if; intros _; [apply refines_quiet; auto with keeps|].
  apply refines_after; [auto with keeps|]. intros u d1 _ _. apply refines_after; [auto with keeps|]. intros mid d2 _ _.
  apply refines_bind; [destruct Debates as [h|] eqn:Eh; [by apply refines_ended|apply refines_quiet; auto with keeps]|].
  intros u2 d3 _. apply refines_quiet. auto with keeps.
Qed.

(** The helper writes its own tables only. *)
Context `{HelperRouter X}.
Class HelperLaws := helper_laws : ∀ route, RouteTx = Some route → ∀ req now, keeps (core (X:=X)) (route req now).
Context `{HelperLaws}.

Lemma quiet_insert_request r : quiet (insert_request r : tx X unit).
Proof. unfold insert_request. keeps_tac. Qed.
Hint Resolve quiet_insert_request : keeps.

Lemma refines_route rel op req urgency down now d : refines rel (route_request op req urgency down now) d.
Proof.
  unfold route_request. destruct RouteTx as [route|] eqn:Er; [|apply refines_quiet; auto with keeps].
  apply refines_after; [by apply (helper_laws _ Er)|]. intros [accept after] d1 _ _.
  apply refines_if; intros _; [|apply refines_quiet; auto with keeps].
  apply refines_bind.
  { apply refines_bind; [apply refines_acceptIn|]. intros [peer effs] d2 _. apply refines_quiet. auto with keeps. }
  intros effs d2 _. apply refines_bind; [apply refines_MarkRunner|]. intros u d3 _. apply refines_quiet. auto with keeps.
Qed.
Lemma refines_apply rel op now d : refines rel (RequestMail.apply op now) d.
Proof.
  apply refines_lift. intros [req canon] _. apply refines_get.
  destruct (find_request _ _ _ d) as [row|]; [apply refines_quiet; auto with keeps|].
  apply refines_get. apply refines_lift. intros dec _. apply refines_if; intros _; [apply refines_err|].
  apply refines_if; intros _; [apply refines_err|]. apply refines_lift. intros intro _. apply refines_lift. intros u _.
  apply refines_after; [unfold consumeTombstone; keeps_tac|]. intros t d1 _ _.
  apply refines_if; intros _; [apply refines_quiet; auto with keeps|]. apply refines_if; intros _; [apply refines_err|].
  apply refines_get. apply refines_lift. intros code _. destruct code as [c|].
  - apply refines_quiet. unfold storeDeclined. keeps_tac.
  - apply refines_bind; [|intros o d2 _; apply refines_quiet; auto with keeps]. unfold store_pending.
    apply refines_after; [auto with keeps|]. intros [[urgency declared] downgraded] d2 _ _.
    apply refines_after; [auto with keeps|]. intros u2 d3 _ _.
    destruct (bool_decide (Type_ req = TypeDebate)); [|apply refines_route].
    destruct Debates as [h|] eqn:Eh; [|apply refines_route].
    apply refines_bind; [debate_hook Eh|]. intros u4 d4 _. apply refines_quiet. auto with keeps.
Qed.
End Refine.
