(* ===== verification/SessionProofs.v ===== *)
(** * Work sessions: invariants of every reachable store

    [op] lists the calls of worksession.Store and of request.Store, [exec]
    runs one, [step] adds what the rest of the daemon may do (other tables,
    debates). From the refinement of SessionRefine.v: the invariant of a row,
    closed is final, a quarantined result needs a release, and one experience
    record per closed session. *)

From S2P Require Import Prelude Utf8 Canonical Strconv WireTime Body RequestObject Tables Experience Requests RequestMail TxLemmas WorkSession SessionMail SessionSteps SessionRefine.

Open Scope Z_scope.

Inductive op :=
| OpAcceptResult (id : bytes) | OpHumanAccept (id : bytes) | OpRequestChanges (id changes : bytes)
| OpDiscard (id : bytes) | OpCancel (id reason : bytes) | OpRelease (id approvalID : bytes) | OpReleaseInTx (id : bytes)
| OpSubmitResult (peer requestID : bytes) (res : WSResult) (by_ : Submitter) | OpSubmitCancel (id reason : bytes) (by_ : Submitter)
| OpAnswer (requestID from : bytes) (res : WSResult) | OpUndelivered (mid : bytes) | OpPhase1 (peer : bytes)
| OpWsResult (m : opened_mail) | OpWsState (m : opened_mail) | OpWsCancel (m : opened_mail)
| OpAccept (id from : bytes) | OpDecline (id from reason : bytes) | OpDefer (id from : bytes) (until : Z)
| OpComplete (id from note : bytes) (res : option Result)
| OpRequest (m : opened_mail) | OpRequestCancel (m : opened_mail) | OpMirrorAccept (m : opened_mail) | OpMirrorDecline (m : opened_mail)
| OpMirrorDefer (m : opened_mail) | OpMirrorComplete (m : opened_mail) | OpMirrorCancelled (m : opened_mail)
| OpCancelRequest (id reason : bytes) | OpResend (id : bytes).

Section Ops.
Context {X : Type} `{Env X} `{HelperRouter X}.

(** The error of a call, its tables and what runs after its commit. *)
Definition ran {A} (r : checked A * db X * list effect) : option error * db X * list effect :=
  match r with
  | (Ok _, d, effs) => (None, d, effs)
  | (Err e, d, effs) => (Some e, d, effs)
  end.
Definition in_tx {A} (m : tx X A) (effs : A → list effect) (d : db X) : option error * db X * list effect :=
  match commit m d with
  | (Ok a, d') => (None, d', effs a)
  | (Err e, d') => (Some e, d', [])
  end.

Definition exec (o : op) (now : Z) (d : db X) : option error * db X * list effect :=
  match o with
  | OpAcceptResult id => ran (AcceptResult id now d)
  | OpHumanAccept id => in_tx (AcceptResultInTx id now) (λ '(peer, rnd, opened, size), AuditAfterHumanAccept id peer rnd opened now size) d
  | OpRequestChanges id changes => ran (RequestChanges id changes now d)
  | OpDiscard id => ran (Discard id now d)
  | OpCancel id reason => ran (WorkSession.Cancel id reason now d)
  | OpRelease id approvalID => ran (ReleaseApproved id approvalID now d)
  | OpReleaseInTx id => in_tx (ReleaseInTx id now) (λ _, []) d
  | OpSubmitResult peer requestID res by_ => ran (SubmitResult peer requestID res by_ now d)
  | OpSubmitCancel id reason by_ => ran (SubmitCancel id reason by_ now d)
  | OpAnswer requestID from res => ran (AnswerQuestion requestID from res now d)
  | OpUndelivered mid => ran (CancelUndeliveredRunResult mid now d)
  | OpPhase1 peer => CheckPhase1FallbackForPeer peer now d
  | OpWsResult m => ran (receive_result m now d)
  | OpWsState m => ran (receive_state m now d)
  | OpWsCancel m => ran (SessionMail.receive_cancel m now d)
  | OpAccept id from => ran (Accept id from now d)
  | OpDecline id from reason => ran (Decline id from reason now d)
  | OpDefer id from until => ran (Defer id from until now d)
  | OpComplete id from note res => ran (Complete id from note res now d)
  | OpRequest m => ran (receive_request m now d)
  | OpRequestCancel m => ran (RequestMail.receive_cancel m now d)
  | OpMirrorAccept m => ran (receive_mirror (applyAccept m now) d)
  | OpMirrorDecline m => ran (receive_mirror (applyDecline m now) d)
  | OpMirrorDefer m => ran (receive_mirror (applyDefer m now) d)
  | OpMirrorComplete m => ran (receive_mirror (applyComplete m now) d)
  | OpMirrorCancelled m => ran (receive_mirror (applyCancelled m now) d)
  | OpCancelRequest id reason => ran (RequestMail.Cancel id reason now d)
  | OpResend id => ran (Resend id now d)
  end.
Definition after (o : op) (now : Z) (d : db X) : db X := (exec o now d).1.2.

(** The mail receiver hands over mail addressed to this daemon only. *)
Definition for_self (o : op) : Prop := match o with OpWsResult m => op_to m = Self | _ => True end.
(** The sessions an operation releases from quarantine: a human approved. *)
Definition released (o : op) (id : bytes) : bool :=
  match o with
  | OpRelease i (_ :: _) | OpReleaseInTx i => bool_decide (i = id)
  | _ => false
  end.

Context `{!DebateLaws (X:=X)} `{!HelperLaws (X:=X)}.

Lemma commit_refines rel {A} (m : tx X A) d : refines rel m d → keys_ok (sessions d) →
  rtc (core_step rel) (core d) (core (commit m d).2).
Proof. intros Hm Hk. unfold commit. destruct (m d) as [[a d']|e] eqn:E; [by apply (Hm Hk a)|done]. Qed.
Lemma in_tx_refines rel {A} (m : tx X A) effs d : refines rel m d → keys_ok (sessions d) →
  rtc (core_step rel) (core d) (core (in_tx m effs d).1.2).
Proof. intros Hm Hk%(commit_refines _ _ _ Hm). unfold in_tx. by destruct (commit m d) as [[a|e] d']. Qed.
Lemma ran_db {A} (r : checked A * db X * list effect) : (ran r).1.2 = r.1.2.
Proof. by destruct r as [[[a|e] d] effs]. Qed.

Lemma call_with_view_refines rel id m d : refines rel m d → keys_ok (sessions d) →
  rtc (core_step rel) (core d) (core (call_with_view id m d).1.2).
Proof. intros Hm Hk%(commit_refines _ _ _ Hm). unfold call_with_view. by destruct (commit m d) as [[[mid effs]|e] d']. Qed.
Lemma transition_refines rel id from allowed build now d : keys_ok (sessions d) →
  rtc (core_step rel) (core d) (core (transition id from allowed build now d).1.2).
Proof.
  intros Hk. pose proof (commit_refines rel _ d (refines_transition rel id from allowed build now d) Hk) as Hr.
  unfold transition. by destruct (commit _ d) as [[[[[row sq] mid] effs]|e] d'].
Qed.
Lemma with_audit_db action now extra (r : checked (Requests.View * request * Z) * db X * list effect) :
  (with_audit action now extra r).1.2 = r.1.2.
Proof. by destruct r as [[[[[v old] sq]|e] d] effs]. Qed.
Lemma receive_mirror_refines rel m d : refines rel m d → keys_ok (sessions d) → rtc (core_step rel) (core d) (core (receive_mirror m d).1.2).
Proof. intros Hm Hk%(commit_refines _ _ _ Hm). unfold receive_mirror. by destruct (commit m d) as [[[[w o] effs]|e] d']. Qed.

Lemma resendLastState_refines rel sid now d : keys_ok (sessions d) → rtc (core_step rel) (core d) (core (resendLastState sid now d).1).
Proof.
  intros Hk. unfold resendLastState, findByID. destruct (reread d); [|done]. destruct (session_by_id sid d) as [row|] eqn:E; [|done].
  destruct (s_lastState row) as [[kind b]|]; [|done]. destruct (_ || _); [done|].
  apply session_by_id_in in E as [Hr <-]. set (m := SubmitTx _ _ _ _ ≫= _).
  pose proof (commit_refines rel m d) as Hc. destruct (commit m d) as [[u|e] d']; apply Hc; try done.
  all: apply refines_after; [apply quiet_submit|]; intros mid d1 _ E1%core_sessions; rewrite <- E1 in Hr.
  all: apply refines_session_update; [done|apply step_resend|by apply still_state].
Qed.
Lemma resubmitStale_core dir peer id now d : core (resubmitStale dir peer id now d).1 = core d.
Proof.
  unfold resubmitStale, read_back. destruct (reread d); [|done]. destruct (find_request dir peer id d) as [row|]; [|done].
  destruct (q_lastReply row) as [[kind b]|]; [|done]. destruct (_ || _); [done|]. set (m := SubmitTx _ _ _ _ ≫= _).
  assert (keeps (core (X:=X)) m) as Hq by (apply keeps_bind; [apply quiet_submit|intros mid; apply quiet_update_request]).
  unfold commit. destruct (m d) as [[u d']|e] eqn:E; [by apply Hq in E|done].
Qed.

Lemma submit_cancel_refines rel id reason by_ now d : keys_ok (sessions d) →
  rtc (core_step rel) (core d) (core (SubmitCancel id reason by_ now d).1.2).
Proof.
  intros Hk. unfold SubmitCancel. destruct (when_set _ _); [|done].
  pose proof (commit_refines rel _ d (refines_SubmitCancel rel id reason by_ now d) Hk) as Hr.
  by destruct (commit _ d) as [[[[[mid dup] peer] effs]|e] d'].
Qed.
Lemma submit_result_refines rel peer req res by_ now d : keys_ok (sessions d) →
  rtc (core_step rel) (core d) (core (SubmitResult peer req res by_ now d).1.2).
Proof.
  intros Hk. unfold SubmitResult. destruct (WS.ValidateResult res) as [[]|e] eqn:Ev; [|done].
  pose proof (commit_refines rel _ d (refines_submitResult rel peer req res by_ now d Ev) Hk) as Hr.
  by destruct (commit _ d) as [[[[mid effs]|]|e] d'].
Qed.
Lemma phase1_refines rel peer req now d : keys_ok (sessions d) →
  rtc (core_step rel) (core d) (core (CheckPhase1Fallback peer req now d).1.2).
Proof.
  intros Hk. unfold CheckPhase1Fallback. destruct (find_session Worker peer req d) as [row|]; [|done].
  destruct (_ || _); [done|]. pose proof (commit_refines rel _ d (refines_phase1 rel peer req now d) Hk) as Hr.
  by destruct (commit _ d) as [[effs|e] d'].
Qed.
Lemma phase1_sweep_refines rel peer ids now d : keys_ok (sessions d) →
  rtc (core_step rel) (core d) (core (phase1_sweep peer ids now d).1.2).
Proof.
  revert d. induction ids as [|id ids IH]; intros d Hk; [done|]. cbn [phase1_sweep].
  pose proof (phase1_refines rel peer id now d Hk) as Hr. destruct (CheckPhase1Fallback peer id now d) as [[r d1] effs]. cbn [fst snd] in Hr.
  pose proof (IH d1 (core_steps_keys _ _ _ Hr Hk)) as Hr'. destruct (phase1_sweep peer ids now d1) as [[f d2] effs'].
  by etransitivity.
Qed.
Lemma complete_refines rel id from note res now d : keys_ok (sessions d) →
  rtc (core_step rel) (core d) (core (Complete id from note res now d).1.2).
Proof.
  intros Hk. unfold Complete. destruct (ValidateComplete note res); [|done].
  assert (core (commit (findInRow id from) d).2 = core d) as E.
  { unfold commit. destruct (findInRow id from d) as [[r d2]|e] eqn:E; [|done]. by apply quiet_findInRow in E. }
  destruct (commit (findInRow id from) d) as [[row|e] d1]; cbn [snd] in E; [|by cbn; rewrite E].
  cbn [CompleteShorthand ws_hooks]. unfold ws_CompleteShorthand.
  assert (keys_ok (sessions d1)) as Hk1 by (by rewrite (core_sessions _ _ E)).
  pose proof (submit_result_refines rel (q_peer row) (q_id row) (shorthand note res) ByAgent now d1 Hk1) as Hr. rewrite E in Hr.
  destruct (SubmitResult _ _ _ _ now d1) as [[[[mid|]|e] d2] effs]; cbn [fst snd] in Hr; [done| |done].
  destruct (canonical_opt res); [|done].
  pose proof (transition_refines rel id from completable (complete_build id note res a0 now) now d2 (core_steps_keys _ _ _ Hr Hk)) as Hr2.
  rewrite <- (with_audit_db (bytes_of "request.complete") now (result_sizes a0 res)) in Hr2.
  destruct (with_audit _ _ _ _) as [[v d3] effs']. by etransitivity.
Qed.

Lemma receive_result_refines rel m now d : op_to m = Self → keys_ok (sessions d) →
  rtc (core_step rel) (core d) (core (receive_result m now d).1.2).
Proof.
  intros Hs Hk. pose proof (commit_refines rel _ d (refines_applyResult rel m now d Hs) Hk) as Hr. unfold receive_result.
  destruct (commit _ d) as [[[[w o] effs]|e] d1]; cbn [snd] in Hr; [|done]. pose proof (core_steps_keys _ _ _ Hr Hk) as Hk1. destruct o; cbn [afterResult]; [done| |done].
  destruct (bool_decide _); [done|]. pose proof (resendLastState_refines rel sid now d1 Hk1) as Hr'.
  destruct (resendLastState sid now d1) as [d2 effs']. by etransitivity.
Qed.
Lemma receive_ws_cancel_refines rel m now d : keys_ok (sessions d) →
  rtc (core_step rel) (core d) (core (SessionMail.receive_cancel m now d).1.2).
Proof.
  intros Hk. pose proof (commit_refines rel _ d (refines_applyCancel rel m now d) Hk) as Hr. unfold SessionMail.receive_cancel.
  destruct (commit _ d) as [[[w o]|e] d1]; cbn [snd] in Hr; [|done]. pose proof (core_steps_keys _ _ _ Hr Hk) as Hk1. destruct o; cbn [afterCancel]; [done|].
  destruct (_ && _); [|done]. pose proof (resendLastState_refines rel sid now d1 Hk1) as Hr'.
  destruct (resendLastState sid now d1) as [d2 effs']. by etransitivity.
Qed.
Lemma receive_request_refines rel m now d : keys_ok (sessions d) →
  rtc (core_step rel) (core d) (core (receive_request m now d).1.2).
Proof.
  intros Hk. pose proof (commit_refines rel _ d (refines_apply rel m now d) Hk) as Hr. unfold receive_request.
  destruct (commit _ d) as [[[req o]|e] d1]; cbn [snd] in Hr; [|done].
  pose proof (resubmitStale_core DirIn (op_from m) (ID req) now d1) as Hq.
  destruct o; try done. destruct (resubmitStale _ _ _ _ d1) as [d2 effs]. cbn [fst snd] in *. by rewrite Hq.
Qed.
Lemma receive_request_cancel_refines rel m now d : keys_ok (sessions d) →
  rtc (core_step rel) (core d) (core (RequestMail.receive_cancel m now d).1.2).
Proof.
  intros Hk. pose proof (commit_refines rel _ d (refines_applyRequestCancel rel m now d) Hk) as Hr. unfold RequestMail.receive_cancel.
  destruct (commit _ d) as [[[reqID o]|e] d1]; cbn [snd] in Hr; [|done].
  pose proof (resubmitStale_core DirIn (op_from m) reqID now d1) as Hq.
  destruct o; try done; destruct (resubmitStale _ _ _ _ d1) as [d2 effs]; cbn [fst snd] in *; by rewrite Hq.
Qed.

Lemma quiet_cancelTx id reason now : keeps (core (X:=X)) (cancelTx id reason now).
Proof.
  unfold cancelTx. apply keeps_bind; [apply quiet_findOutRow|]. intros row. repeat (apply keeps_if; [auto with keeps|]).
  apply keeps_bind; [auto with keeps|]. intros p. apply keeps_if; [auto with keeps|].
  apply keeps_bind; [apply quiet_submit|]. intros mid. apply keeps_bind; [apply quiet_update_request|auto with keeps].
Qed.
Lemma quiet_resendTx id now : keeps (core (X:=X)) (resendTx id now).
Proof.
  unfold resendTx. apply keeps_bind; [apply quiet_findOutRow|]. intros row. apply keeps_bind; [auto with keeps|]. intros mst.
  apply keeps_if; [auto with keeps|]. apply keeps_bind; [auto with keeps|]. intros obj.
  apply keeps_bind; [apply quiet_submit|]. intros mid. apply keeps_bind; [apply quiet_update_request|auto with keeps].
Qed.

Lemma exec_steps o now d : for_self o → keys_ok (sessions d) → rtc (core_step (released o)) (core d) (core (after o now d)).
Proof.
  intros Hs Hk. unfold after. destruct o; cbn [exec]; rewrite ?ran_db.
  - apply call_with_view_refines; [apply refines_AcceptResult|done].
  - apply in_tx_refines; [apply refines_AcceptResultIn|done].
  - unfold RequestChanges. destruct (checkCodePoints _ _ _ _ _) as [[]|e] eqn:E; [|done].
    apply call_with_view_refines; [by apply refines_RequestChanges|done].
  - apply call_with_view_refines; [apply refines_Discard|done].
  - unfold WorkSession.Cancel. destruct (when_set _ _); [|done]. apply call_with_view_refines; [apply refines_Cancel|done].
  - unfold ReleaseApproved. destruct approvalID as [|c a]; [done|].
    pose proof (commit_refines (released (OpRelease id (c :: a))) _ d (refines_ReleaseApproved _ id (c :: a) now d (bool_decide_eq_true_2 _ eq_refl)) Hk) as Hr.
    by destruct (commit _ d) as [[row|e] d'].
  - apply in_tx_refines; [|done]. apply refines_Release. by apply bool_decide_eq_true_2.
  - by apply submit_result_refines.
  - by apply submit_cancel_refines.
  - unfold AnswerQuestion. destruct (WS.ValidateResult res) as [[]|e] eqn:E; [|done].
    pose proof (commit_refines (released (OpAnswer requestID from res)) _ d (refines_AnswerQuestion _ requestID from res now d E) Hk) as Hr.
    by destruct (commit _ d) as [[[[sid mid] effs]|e] d'].
  - unfold CancelUndeliveredRunResult. destruct (List.find _ _) as [r|]; [|done].
    pose proof (submit_cancel_refines (released (OpUndelivered mid)) (s_id r) [] ByRunner now d Hk) as Hr.
    by destruct (SubmitCancel _ _ _ _ d) as [[[v|e] d'] effs].
  - by apply phase1_sweep_refines.
  - by apply receive_result_refines.
  - pose proof (commit_refines (released (OpWsState m)) _ d (refines_applyState _ m now d) Hk) as Hr.
    unfold receive_state. by destruct (commit _ d) as [[o|e] d'].
  - by apply receive_ws_cancel_refines.
  - unfold Accept. rewrite with_audit_db. by apply transition_refines.
  - unfold Decline. destruct (checkCodePoints _ _ _ _ _); [|done]. rewrite with_audit_db. by apply transition_refines.
  - unfold Defer. rewrite with_audit_db. by apply transition_refines.
  - by apply complete_refines.
  - by apply receive_request_refines.
  - by apply receive_request_cancel_refines.
  - apply receive_mirror_refines; [apply refines_applyAccept|done].
  - apply receive_mirror_refines; [apply refines_applyDecline|done].
  - apply receive_mirror_refines; [apply refines_applyDefer|done].
  - apply receive_mirror_refines; [apply refines_applyComplete|done].
  - apply receive_mirror_refines; [apply refines_applyCancelled|done].
  - unfold RequestMail.Cancel. destruct (when_set _ _); [|done].
    pose proof (commit_refines (released (OpCancelRequest id reason)) _ d (refines_quiet _ _ _ (quiet_cancelTx id reason now)) Hk) as Hr.
    by destruct (commit _ d) as [[[row [mid|]]|e] d'].
  - pose proof (commit_refines (released (OpResend id)) _ d (refines_quiet _ _ _ (quiet_resendTx id now)) Hk) as Hr.
    unfold Resend. by destruct (commit _ d) as [[[row mid]|e] d'].
Qed.

(** ** Runs *)

(** A run of the daemon: its operations in order, and between them whatever
    leaves sessions and records alone or is a step of the debate store. *)
Inductive trace : list op → db X → db X → Prop :=
| trace_nil d : trace [] d d
| trace_call o now os d d' : for_self o → trace os (after o now d) d' → trace (o :: os) d d'
| trace_other os d d1 d' : core d1 = core d ∨ debate_step (core d) (core d1) → trace os d1 d' → trace os d d'.
Definition approved (os : list op) (id : bytes) : bool := existsb (λ o, released o id) os.

Lemma row_step_mono (rel rel' : bytes → bool) r r' : (∀ id, rel id = true → rel' id = true) → row_step rel r r' → row_step rel' r r'.
Proof.
  intros Hr Hs. destruct Hs; [apply step_result | apply step_changes | apply step_release | apply step_accept | apply step_cancel | apply step_discard | apply step_resend | apply step_debate | eapply step_submit | apply step_ask_cancel | apply step_refused | apply step_mirror | apply step_timeout | apply step_runner]; eauto.
Qed.
Lemma core_step_mono (rel rel' : bytes → bool) c c' : (∀ id, rel id = true → rel' id = true) → core_step rel c c' → core_step rel' c c'.
Proof.
  intros Hr Hs. destruct Hs; [apply core_row; [by eapply row_step_mono|done]|by apply core_open|by apply core_debate].
Qed.

Lemma trace_steps os d d' : trace os d d' → keys_ok (sessions d) → rtc (core_step (approved os)) (core d) (core d').
Proof.
  intros Ht. induction Ht as [d|o now os d d' Hs Ht IH|os d d1 d' Ho Ht IH]; intros Hk; [done|..].
  - pose proof (exec_steps o now d Hs Hk) as Hr. pose proof (IH (core_steps_keys _ _ _ Hr Hk)) as Hr'. etransitivity.
    + eapply rtc_subrel; [|exact Hr]. intros c c'. apply core_step_mono. intros id Hid. unfold approved. cbn [existsb]. by rewrite Hid.
    + eapply rtc_subrel; [|exact Hr']. intros c c'. apply core_step_mono. intros id Hid. unfold approved in *. cbn [existsb]. by rewrite Hid, orb_true_r.
  - assert (rtc (core_step (approved os)) (core d) (core d1)) as Hr.
    { destruct Ho as [->|Ho]; [done|]. by apply rtc_once, debate_core_step. }
    etransitivity; [exact Hr|]. apply IH. by apply (core_steps_keys _ _ _ Hr).
Qed.
End Ops.
