(* ===== verification/SessionInvariant.v ===== *)
(** * Work sessions: what holds of every reachable store

    The invariant of a row, and what a run can do to one: closed is final,
    the sequence number only grows, a quarantined result stays hidden until a
    human releases it, and the records match the closed sessions. *)

From S2P Require Import Prelude Utf8 Canonical Strconv WireTime Body RequestObject Tables Experience Requests RequestMail TxLemmas WorkSession SessionMail SessionSteps SessionRefine SessionProofs.

Open Scope Z_scope.

(** The columns of a row after a step, by computation. *)
Ltac fields := cbn [s_id s_role s_peer s_requestID s_teamID s_state s_outcome s_seq s_round s_result s_resultRound s_resultMail s_verification s_changes s_cancel s_released s_lastState s_lastStateSent s_opened s_stateAt s_closed s_updated s_kind s_runner sset_state sset_outcome sset_seq sset_round sset_result sset_resultRound sset_resultMail sset_verification sset_changes sset_cancel sset_released sset_lastState sset_lastStateSent sset_stateAt sset_closed sset_updated sset_runner result_row changed_row released_row closed_row discarded_row sent result_columns changes_columns release_columns discard_columns close_columns submitted_columns new_session clear_result].

Section Invariant.
Context {X : Type} `{Env X}.

(** The ws.state that describes the row as it is. *)
Definition echo (r : session) (t : Z) : bytes * body :=
  (KindState, state_body r (s_seq r) (s_round r) (s_state r) (s_outcome r)
                (if bool_decide (s_state r = StateClosed) then s_verification r else None)
                (if bool_decide (s_state r = StateOpen) then default [] (s_changes r) else []) t).
Definition under_review (r : session) : Prop := s_state r = StateAwaitingResult ∨ s_state r = StateQuarantined.

Record row_ok (r : session) : Prop := {
  ok_id : s_id r = DeriveID (idA (s_role r) (s_peer r)) (idB (s_role r) (s_peer r)) (s_requestID r);
  ok_outcome : s_outcome r ≠ None ↔ s_state r = StateClosed;
  ok_closed : s_closed r ≠ None ↔ s_state r = StateClosed;
  ok_round : 1 ≤ s_round r;
  ok_seq : 0 ≤ s_seq r;
  ok_result : ∀ canon, s_result r = Some canon → ∃ res, stored_as canon res;
  ok_result_round : s_result r ≠ None ↔ s_resultRound r ≠ None;
  ok_current : s_role r = Requester → ∀ n, s_resultRound r = Some n → n = s_round r;
  ok_review : s_role r = Requester → under_review r → s_result r ≠ None;
  ok_open : s_role r = Requester → s_state r = StateOpen → s_result r = None;
  ok_claimed : s_role r = Requester → s_state r ≠ StateClosed → s_verification r ≠ Some VerificationHumanAccepted;
  ok_changes : s_role r = Requester → ∀ c, s_changes r = Some c → checkCodePoints (field "changes") c 1 4000 newline_tab = Ok tt ∧ 2 ≤ s_round r;
  ok_unverified : s_role r = Requester → s_kind r = KindWork → s_outcome r = Some OutcomeCancelled → s_verification r = None;
  ok_opened : s_role r = Requester → s_seq r = 0 → s_kind r = KindWork → s_state r = StateOpen ∧ s_round r = 1;
  ok_echo : s_role r = Requester → s_kind r = KindWork → 0 < s_seq r →
            ∃ t, s_stateAt r = wireTime t ∧ s_lastState r = Some (echo r t);
}.


Ltac field_tac :=
  intros; first [done | lia | congruence | by eauto | by match goal with Hx : Some _ = Some _ |- _ => injection Hx as <-; eauto end | intuition congruence].
Ltac row_tac Hok := destruct Hok as [Hid Hout Hcl Hrd Hsq Hres Hrr Hcur Hrev Hop Hcla Hch Hunv Hopn Hecho];
  constructor; unfold under_review in *; fields; try field_tac.
Ltac echo_tac now := intros _ _ _; exists now; split; [done|]; unfold echo; fields.

Lemma new_session_ok rl peer req team k now :
  row_ok (new_session (DeriveID (idA rl peer) (idB rl peer) req) rl peer req team k now).
Proof. constructor; unfold under_review; fields; field_tac. Qed.

Lemma validate_not_human res : WS.ValidateResult res = Ok tt → parse_verification (Verification res) ≠ Some VerificationHumanAccepted.
Proof. intros (_ & _ & [-> | ->])%WSLemmas.ValidateResult_ok; by rewrite WSLemmas.parse_text_verification. Qed.

Lemma result_row_ok st canon res now r : row_ok r → s_role r = Requester → s_state r = StateOpen →
  st = StateAwaitingResult ∨ st = StateQuarantined → stored_as canon res →
  row_ok (result_row st canon (parse_verification (Verification res)) now r).
Proof.
  intros Hok Ha Hs Hst Hcan. row_tac Hok.
  - intros _ _. by apply validate_not_human, Hcan.
  - echo_tac now. assert (s_outcome r = None) as -> by (destruct (s_outcome r); [|done]; assert (s_state r = StateClosed) by (by apply Hout); congruence).
    by destruct Hst as [-> | ->].
Qed.
Lemma changed_row_ok changes now r : row_ok r → s_role r = Requester → under_review r →
  checkCodePoints (field "changes") changes 1 4000 newline_tab = Ok tt → row_ok (changed_row changes now r).
Proof.
  intros Hok Ha Hs Hc. row_tac Hok.
  intros _ c [= <-]. split; [done|lia]. 
Qed.
Lemma open_outcome r : row_ok r → s_state r ≠ StateClosed → s_outcome r = None.
Proof. intros Hok Hn. destruct (s_outcome r) eqn:E; [|done]. destruct Hn. apply (ok_outcome r Hok). by rewrite E. Qed.
Lemma released_row_ok now r : row_ok r → s_role r = Requester → s_state r = StateQuarantined → row_ok (released_row now r).
Proof.
  intros Hok Ha Hs. assert (s_outcome r = None) as Ho by (apply open_outcome; congruence). row_tac Hok.
  echo_tac now. by rewrite Ho.
Qed.
Lemma closed_row_ok o v now r : row_ok r → s_role r = Requester → s_state r ≠ StateClosed →
  (o = OutcomeCancelled → v = None) → row_ok (closed_row o v now r).
Proof.
  intros Hok Ha Hs Hv. row_tac Hok. intros _ _ [= ->]. by apply Hv.
Qed.
Lemma discarded_row_ok now r : row_ok r → s_role r = Requester → s_state r ≠ StateClosed → row_ok (discarded_row now r).
Proof.
  intros Hok Ha Hs. row_tac Hok. 
Qed.
Lemma debate_row_ok o now r : row_ok r → s_kind r = KindDebate → s_state r ≠ StateClosed → row_ok (sset_cancel None (close_columns o now r)).
Proof.
  intros Hok Ha Hs. row_tac Hok. 
Qed.
Lemma submitted_row_ok canon res mid now r : row_ok r → s_role r = Worker → stored_as canon res →
  row_ok (submitted_columns canon mid (s_round r) now r).
Proof.
  intros Hok Ha Hs. row_tac Hok. 
Qed.
Lemma worker_close_ok o now r : row_ok r → s_role r = Worker → row_ok (close_columns o now r).
Proof.
  intros Hok Ha. row_tac Hok. 
Qed.
Lemma cancel_mark_ok u c r : row_ok r → s_role r = Worker → row_ok (sset_updated u (sset_cancel c r)).
Proof.
  intros Hok Ha. row_tac Hok. 
Qed.
Lemma resend_ok t r : row_ok r → row_ok (sset_lastStateSent t r).
Proof.
  intros Hok. row_tac Hok. 
Qed.

Lemma runner_ok r : row_ok r → s_role r = Worker → row_ok (sset_runner true r).
Proof. intros Hok Ha. row_tac Hok. Qed.
Lemma mirror_row_ok m now r : row_ok r → s_role r = Worker → s_state r ≠ StateClosed → s_seq r < sm_seq m → state_mail_ok m →
  row_ok (mirror_columns m now r).
Proof.
  intros Hok Ha Hn Hq [Hmr Hmo _ _]. assert (s_closed r = None) as Hc.
  { destruct (s_closed r) eqn:E; [|done]. destruct Hn. apply (ok_closed r Hok). by rewrite E. }
  unfold mirror_columns. destruct (bool_decide (sm_state m = StateClosed)) eqn:Ec;
    [apply bool_decide_eq_true in Ec|apply bool_decide_eq_false in Ec]; destruct (drops_result _ _), (sm_verification m); row_tac Hok.
Qed.

Lemma row_step_ok rel r r' : row_step rel r r' → row_ok r → row_ok r'.
Proof.
  intros Hs Hok. destruct Hs.
  - by apply result_row_ok.
  - by apply changed_row_ok.
  - by apply released_row_ok.
  - apply closed_row_ok; congruence.
  - by apply closed_row_ok; try congruence.
  - apply discarded_row_ok; congruence.
  - by apply resend_ok.
  - by apply debate_row_ok.
  - by eapply submitted_row_ok.
  - by apply cancel_mark_ok.
  - by apply cancel_mark_ok.
  - by apply mirror_row_ok.
  - by apply worker_close_ok.
  - by apply runner_ok.
Qed.

(** The table: its keys, its rows, and the records of its work sessions. *)
Definition recorded (c : core_state) : Prop :=
  NoDup c.2 ∧ (∀ r, r ∈ c.1 → s_kind r = KindWork → record_key r ∈ c.2 ↔ s_state r = StateClosed) ∧
  (∀ k, k ∈ c.2 → ∃ r, r ∈ c.1 ∧ s_id r = k.1).
Record core_ok (c : core_state) : Prop := {
  core_keys : keys_ok c.1; core_rows : Forall row_ok c.1; core_recorded : recorded c;
}.

Lemma same_id l r r' : NoDup (map s_id l) → r ∈ l → r' ∈ l → s_id r = s_id r' → r = r'.
Proof.
  intros Hd (l1 & l2 & ->)%list_elem_of_split Hr' E. rewrite map_app in Hd. cbn [map] in Hd.
  apply NoDup_app in Hd as (_ & Hd1 & [Hd2 _]%NoDup_cons). apply elem_of_app in Hr' as [Hr'|Hr'].
  - exfalso. apply (Hd1 (s_id r)); [rewrite E; apply elem_of_map_list; eauto|by left].
  - apply elem_of_cons in Hr' as [->|Hr']; [done|]. exfalso. apply Hd2. rewrite E. apply elem_of_map_list. eauto.
Qed.

Lemma row_step_closed rel r r' : row_step rel r r' → s_state r = StateClosed → s_state r' = StateClosed.
Proof. intros Hs Hc. destruct Hs; try done; try congruence. by destruct H1; congruence. Qed.

Lemma recorded_row rel l1 r r' l2 xs : row_step rel r r' → Forall (.∉ xs) (closes r r') → NoDup (map s_id (l1 ++ r :: l2)) →
  recorded (l1 ++ r :: l2, xs) → recorded (l1 ++ r' :: l2, xs ++ closes r r').
Proof.
  intros Hs Hf Hd (Hn & Hk & Hown). pose proof (row_step_same _ _ _ Hs) as (Ei & Ek & Ekind). cbn [fst snd] in *.
  assert (record_key r' = record_key r) as Erk by (unfold record_key; unfold request_key in Ek; congruence).
  assert (∀ x, x ∈ l1 ++ r' :: l2 → x = r' ∨ (x ∈ l1 ++ r :: l2 ∧ s_id x ≠ s_id r)) as Hin.
  { intros x Hx. rewrite map_app in Hd. cbn [map] in Hd. apply NoDup_app in Hd as (_ & Hd1 & [Hd2 _]%NoDup_cons).
    apply elem_of_app in Hx as [Hx|Hx]; [right|apply elem_of_cons in Hx as [->|Hx]; [by left|right]]; (split; [apply elem_of_app; rewrite elem_of_cons; auto|intros E]).
    - apply (Hd1 (s_id x)); [apply elem_of_map_list; eauto|rewrite E; by left].
    - apply Hd2. rewrite <- E. apply elem_of_map_list. eauto. }
  assert (r ∈ l1 ++ r :: l2) as Hr by (apply elem_of_app; right; by left).
  split_and!; cbn [fst snd].
  - apply NoDup_app. split_and!; [done| |unfold closes; destruct (_ && _); [apply NoDup_singleton|apply NoDup_nil_2]].
    intros k Hkx Hkc. rewrite Forall_forall in Hf. by apply (Hf k Hkc).
  - intros x Hx Hw. rewrite elem_of_app. apply Hin in Hx as [->|[Hx Hne]].
    + rewrite Erk. rewrite Ekind in Hw. rewrite (Hk r Hr Hw). unfold closes. rewrite (bool_decide_eq_true_2 _ Hw).
      destruct (decide (s_state r = StateClosed)) as [Hc|Hc].
      * rewrite (row_step_closed _ _ _ Hs Hc). naive_solver.
      * rewrite (bool_decide_eq_false_2 _ Hc). cbn [andb negb]. case_bool_decide as Hc'; [rewrite list_elem_of_singleton; naive_solver|].
        split; [intros [?|?%elem_of_nil]; done|done].
    + rewrite (Hk x Hx Hw). split; [intros [?|Hcl]; [done|]|auto]. exfalso. apply Hne. unfold closes in Hcl.
      destruct (_ && _); [|by apply elem_of_nil in Hcl]. apply list_elem_of_singleton in Hcl. unfold record_key in Hcl. congruence.
  - intros k [Hkx|Hkc]%elem_of_app.
    + destruct (Hown k Hkx) as (x & Hx & Ex). destruct (decide (s_id x = s_id r)) as [E|E].
      * exists r'. split; [apply elem_of_app; right; by left|congruence].
      * exists x. split; [|done]. apply elem_of_app in Hx as [Hx|Hx]; [by apply elem_of_app; left|].
        apply elem_of_cons in Hx as [->|Hx]; [done|]. apply elem_of_app. right. by right.
    + exists r'. split; [apply elem_of_app; right; by left|]. unfold closes in Hkc.
      destruct (_ && _); [|by apply elem_of_nil in Hkc]. apply list_elem_of_singleton in Hkc. by rewrite Hkc.
Qed.

Lemma core_step_ok rel c c' : core_step rel c c' → core_ok c → core_ok c'.
Proof.
  intros Hs [Hk Hr Hx]. split; [by eapply core_step_keys| |]; destruct Hs as [l1 r r' l2 xs Hs Hf|l xs rl peer req team k now sid Hi Hkey|l xs key Hd Hf]; cbn [fst] in *.
  - apply Forall_app in Hr as [Hr1 [Hr2 Hr3]%Forall_cons]. apply Forall_app. split; [done|]. constructor; [by eapply row_step_ok|done].
  - apply Forall_app. split; [done|]. constructor; [apply new_session_ok|constructor].
  - done.
  - eapply recorded_row; [done|done|apply Hk|done].
  - destruct Hx as (Hn & Hiff & Hown). cbn [fst snd] in *. split_and!; cbn [fst snd]; [done|..].
    + intros r [Hrl| ->%list_elem_of_singleton]%elem_of_app Hw; [by apply Hiff|]. split; [|done]. intros Hin.
      destruct (Hown _ Hin) as (x & Hxl & Ex). destruct Hi. change (s_id x = sid) in Ex. rewrite <- Ex. apply elem_of_map_list. eauto.
    + intros k' Hin. destruct (Hown k' Hin) as (x & Hxl & Ex). exists x. split; [|done]. apply elem_of_app. by left.
  - destruct Hx as (Hn & Hiff & Hown). destruct Hd as (x & Hxl & Hkd & Ex). cbn [fst snd] in *. split_and!; cbn [fst snd].
    + apply NoDup_app. split_and!; [done| |apply NoDup_singleton]. intros k Hin ->%list_elem_of_singleton. done.
    + intros r Hrl Hw. rewrite elem_of_app, list_elem_of_singleton, (Hiff r Hrl Hw). split; [|auto]. intros [?|E]; [done|].
      exfalso. assert (r = x) as ->; [|congruence]. apply (same_id l); [apply Hk|done|done|]. rewrite Ex, <- E. done.
    + intros k [Hin| ->%list_elem_of_singleton]%elem_of_app; [by apply Hown|by exists x].
Qed.
Lemma core_steps_ok rel c c' : rtc (core_step rel) c c' → core_ok c → core_ok c'.
Proof. induction 1; eauto using core_step_ok. Qed.
End Invariant.
