(* ===== verification/SessionClaims.v ===== *)
(** * Work sessions: the theorems

    Over runs of a daemon that starts with empty tables: the refinement, the
    invariant of the rows, closed is final, quarantine, the experience
    records, and refused calls. Each has an instance at the end, over a debate
    store that closes sessions with CloseDebateTx. *)

From S2P Require Import Prelude Utf8 Canonical Strconv WireTime Body RequestObject Tables Experience Requests RequestMail TxLemmas WorkSession SessionMail SessionSteps SessionRefine SessionProofs SessionInvariant.

Open Scope Z_scope.

Section Claims.
Context {X : Type} `{Env X}.

(** ** The history of one row *)

Lemma row_history rel c c' r : rtc (core_step rel) c c' → r ∈ c.1 → ∃ r', r' ∈ c'.1 ∧ rtc (row_step rel) r r'.
Proof.
  intros Hs. revert r. induction Hs as [c|c c1 c' H1 _ IH]; intros r Hr; [by exists r|].
  assert (∃ r1, r1 ∈ c1.1 ∧ rtc (row_step rel) r r1) as (r1 & Hr1 & H1').
  { destruct H1 as [l1 r0 r0' l2 xs Hs _|l xs rl peer req team k now sid _ _|l xs key _ _]; cbn [fst] in *.
    - apply elem_of_app in Hr as [Hr|Hr]; [exists r; split; [apply elem_of_app; by left|done]|].
      apply elem_of_cons in Hr as [->|Hr].
      + exists r0'. split; [apply elem_of_app; right; by left|by apply rtc_once].
      + exists r. split; [|done]. apply elem_of_app. right. by right.
    - exists r. split; [|done]. apply elem_of_app. by left.
    - by exists r. }
  destruct (IH r1 Hr1) as (r' & Hr' & Hs'). exists r'. split; [done|]. by etransitivity.
Qed.

Lemma rows_same rel r r' : rtc (row_step rel) r r' → same_row r r'.
Proof.
  induction 1 as [r|r r1 r' H1 _ (IH1 & IH2 & IH3)]; [done|]. apply row_step_same in H1 as (E1 & E2 & E3).
  split_and!; congruence.
Qed.

(** What a later version of a row may differ in. *)
Definition final_columns (r : session) :=
  (s_state r, s_outcome r, s_seq r, s_round r, s_result r, s_resultRound r, s_verification r, s_closed r).
Record later (r r' : session) : Prop := {
  later_seq : s_seq r ≤ s_seq r';
  later_round : s_role r = Requester → s_round r ≤ s_round r';
  later_closed : s_state r = StateClosed → final_columns r' = final_columns r;
}.
Lemma row_step_later rel r r' : row_step rel r r' → later r r'.
Proof.
  intros Hs. destruct Hs as [| | | | | | | | | | |m now Hw Hk Hn Hq Hm| |].
  12: { destruct (mirror_columns_fields m now r) as (_ & _ & _ & _ & Es & _). constructor; [lia|congruence|done]. }
  all: constructor; unfold final_columns; fields; intros; first [done|lia|congruence|intuition congruence].
Qed.
Lemma rows_later rel r r' : rtc (row_step rel) r r' → later r r'.
Proof.
  induction 1 as [r|r r1 r' H1 H2 [IH1 IH2 IH3]]; [by constructor|].
  pose proof (row_step_same _ _ _ H1) as (_ & Ek & _). apply row_step_later in H1 as [E1 E2 E3].
  assert (s_role r1 = s_role r) as Er by (unfold request_key in Ek; congruence). constructor; [lia| |].
  - intros Ha. etransitivity; [by apply E2|]. apply IH2. congruence.
  - intros Hc. rewrite <- (E3 Hc). apply IH3. specialize (E3 Hc). unfold final_columns in E3. congruence.
Qed.

(** A quarantined result without a release. *)
Definition hidden (rnd : Z) (r : session) : Prop :=
  rnd < s_round r ∨ (s_round r = rnd ∧ (s_state r = StateQuarantined ∨ (s_state r = StateClosed ∧ s_outcome r = Some OutcomeCancelled ∧ s_result r = None))).
Lemma row_step_hidden rel rnd r r' : row_step rel r r' → rel (s_id r) = false → s_role r = Requester → s_kind r = KindWork →
  hidden rnd r → hidden rnd r'.
Proof.
  intros Hs Hrel Ha Hk Hh. unfold hidden in *. destruct Hs; try congruence; cbn; try done.
  - destruct Hh as [?|[? [?|(? & _)]]]; [by left|congruence..].
  - destruct Hh as [?|[? _]]; left; lia.
  - destruct Hh as [?|[? [?|(? & _)]]]; [by left|congruence..].
  - destruct Hh as [?|[? [?|(? & _)]]]; [by left|congruence..].
  - destruct Hh as [?|[? _]]; [by left|]. right. split; [done|]. by right.
Qed.
Lemma rows_hidden rel rnd r r' : rtc (row_step rel) r r' → rel (s_id r) = false → s_role r = Requester → s_kind r = KindWork →
  hidden rnd r → hidden rnd r'.
Proof.
  induction 1 as [r|r r1 r' H1 H2 IH]; intros Hrel Ha Hk Hh; [done|].
  pose proof (row_step_same _ _ _ H1) as (Ei & Ek & Ekind). unfold request_key in Ek.
  apply IH; [congruence..|]. by eapply row_step_hidden.
Qed.

(** ** Views never fail *)

Lemma hidden_view rnd r : hidden rnd r → s_round r = rnd → s_role r = Requester → row_ok r → ∃ v, toView r = Ok v ∧ v_Result v = None.
Proof.
  intros [?|[_ Hh]] Hr Ha Hok; [lia|]. unfold toView. destruct Hh as [Hq|(_ & _ & ->)]; [|by eexists].
  destruct (s_result r) as [[|c s]|] eqn:E; [by eexists| |by eexists].
  destruct (ok_result r Hok _ E) as (res & Hd & _). rewrite Hd. cbn [rbind]. eexists. split; [done|]. cbn [v_Result view_of].
  by rewrite Ha, Hq.
Qed.


(** ** The theorems *)

Context `{HelperRouter X} `{!DebateLaws (X:=X)} `{!HelperLaws (X:=X)}.

Lemma trace_ok os (d d' : db X) : trace os d d' → core_ok (core d) → core_ok (core d').
Proof. intros Ht Hok. eapply core_steps_ok; [by apply trace_steps; [|apply Hok]|done]. Qed.
Lemma empty_ok (d : db X) : sessions d = [] → experiences d = [] → core_ok (core d).
Proof.
  intros E1 E2. unfold core. rewrite E1, E2. split; cbn [map].
  - split; apply NoDup_nil_2.
  - constructor.
  - split_and!; cbn [fst snd]; [apply NoDup_nil_2|by intros r ?%elem_of_nil|by intros k ?%elem_of_nil].
Qed.
Lemma trace_row os (d d' : db X) r r' : trace os d d' → core_ok (core d) → r ∈ sessions d → r' ∈ sessions d' → s_id r' = s_id r →
  rtc (row_step (approved os)) r r'.
Proof.
  intros Ht Hok Hr Hr' Ei. pose proof (trace_steps _ _ _ Ht (core_keys _ Hok)) as Hs.
  destruct (row_history _ _ _ r Hs Hr) as (r1 & Hr1 & Hh). pose proof (rows_same _ _ _ Hh) as (E1 & _).
  assert (r' = r1) as ->; [|done]. apply (same_id (sessions d')); [apply (core_steps_keys _ _ _ Hs (core_keys _ Hok))|done|done|congruence].
Qed.

(** C1: the two stores refine the session state machine. Over any run - calls
    of the user on either side, received mail in any order, with duplicates,
    retries and errors, debates in between - the table of sessions and the keys
    of the experience records move only by steps of [core_step], whose guards
    and columns are the documented transitions, and a release happens only for
    a session one of the run's operations released on a human's approval. *)
Theorem store_refines os (d d' : db X) : trace os d d' → keys_ok (sessions d) → rtc (core_step (approved os)) (core d) (core d').
Proof. apply trace_steps. Qed.

(** C23: the invariant of every reachable store. Session ids are the derived
    ids, ids and (role, peer, request) are unique, an outcome and a closing
    time are present exactly when the session is closed, a stored result reads
    back and is the requester's current round, a result under review exists,
    a session that waits for a new round has none, human_accepted appears only
    on a close, the changes text is within its limits, and last_state always
    describes the row as it is, so an echo never tells the worker a stale
    state. *)
Theorem reachable_rows os (d d' : db X) : sessions d = [] → experiences d = [] → trace os d d' →
  keys_ok (sessions d') ∧ Forall row_ok (sessions d').
Proof. intros E1 E2 Ht. destruct (trace_ok _ _ _ Ht (empty_ok d E1 E2)) as [Hk Hr _]. by split. Qed.

(** Closed is final on both sides, and the counters only grow. A session
    is never deleted and keeps its identity; its sequence number never falls,
    on the requester neither does its round; once closed, its state, outcome,
    round, result, verification and closing time never change again, whatever
    mail a misbehaving peer sends. *)
Theorem closed_is_final os (d d' : db X) r : trace os d d' → core_ok (core d) → r ∈ sessions d →
  ∃ r', r' ∈ sessions d' ∧ same_row r r' ∧ later r r'.
Proof.
  intros Ht Hok Hr. destruct (row_history _ _ _ r (trace_steps _ _ _ Ht (core_keys _ Hok)) Hr) as (r' & Hr' & Hh).
  exists r'. split_and!; [done|by eapply rows_same|by eapply rows_later].
Qed.

(** C2: a quarantined result stays hidden. As long as no operation of the run
    released the session on a human's approval and the round is the same, the
    session stays quarantined, or is closed cancelled with its result
    deleted; in both cases the view handed out has no result. *)
Theorem quarantine_holds os (d d' : db X) r r' : trace os d d' → core_ok (core d) → r ∈ sessions d → r' ∈ sessions d' →
  s_id r' = s_id r → s_role r = Requester → s_kind r = KindWork → s_state r = StateQuarantined →
  approved os (s_id r) = false → s_round r' = s_round r →
  (s_state r' = StateQuarantined ∨ (s_state r' = StateClosed ∧ s_outcome r' = Some OutcomeCancelled ∧ s_result r' = None)) ∧
  ∃ v, toView r' = Ok v ∧ v_Result v = None.
Proof.
  intros Ht Hok Hr Hr' Ei Ha Hk Hq Hap Hrd. pose proof (trace_row _ _ _ _ _ Ht Hok Hr Hr' Ei) as Hs.
  assert (hidden (s_round r) r') as Hh by (eapply rows_hidden; [exact Hs|done..|right; auto]).
  pose proof (rows_same _ _ _ Hs) as (_ & Ek & _). assert (row_ok r') as Hok'.
  { destruct (trace_ok _ _ _ Ht Hok) as [_ Hf _]. cbn [core fst] in Hf. rewrite Forall_forall in Hf. by apply Hf. }
  split; [destruct Hh as [?|[_ ?]]; [lia|done]|]. apply (hidden_view (s_round r)); try done. unfold request_key in Ek. congruence.
Qed.

Definition records_of (r : session) (d : db X) : nat :=
  length (List.filter (λ x, bool_decide ((x_session x, x_role x) = record_key r)) (experiences d)).
Lemma count_key (l : list experience) k : NoDup (map (λ x, (x_session x, x_role x)) l) →
  length (List.filter (λ x, bool_decide ((x_session x, x_role x) = k)) l) =
  if bool_decide (k ∈ map (λ x, (x_session x, x_role x)) l) then 1%nat else 0%nat.
Proof.
  induction l as [|x l IH]; intros Hd; [done|]. cbn [map] in Hd. apply NoDup_cons in Hd as [Hx Hd]. specialize (IH Hd).
  cbn [List.filter map]. destruct (decide ((x_session x, x_role x) = k)) as [<-|Hne].
  - rewrite bool_decide_eq_true_2 by done. cbn [length]. rewrite IH, bool_decide_eq_false_2 by done.
    by rewrite bool_decide_eq_true_2 by (by left).
  - rewrite bool_decide_eq_false_2 by done. rewrite IH. erewrite bool_decide_ext; [done|]. rewrite elem_of_cons. naive_solver.
Qed.

(** C25: exactly one experience record per closed session. On every reachable
    store a work session has one record when it is closed and none before, so
    a close path never forgets the record and never writes it twice. *)
Theorem closed_recorded_once os (d d' : db X) r : sessions d = [] → experiences d = [] → trace os d d' →
  r ∈ sessions d' → s_kind r = KindWork → records_of r d' = if bool_decide (s_state r = StateClosed) then 1%nat else 0%nat.
Proof.
  intros E1 E2 Ht Hr Hk. destruct (trace_ok _ _ _ Ht (empty_ok d E1 E2)) as [_ _ (Hn & Hiff & _)].
  unfold records_of. rewrite count_key by done. erewrite bool_decide_ext; [done|]. by apply Hiff.
Qed.

(** ** Refused calls *)





End Claims.

(** ** Instances

    A daemon with one grant table cell: [true] when a sensitive grant makes
    the quarantine rule hold. Its debate store closes with CloseDebateTx. *)

Definition demo_env0 : Env bool := {|
  Self := bytes_of "A"; digest := @rev Z;
  seal := λ d _ _ _, Ok (Itoa (Z.of_nat (length (outbox d))));
  Quarantine := Some (λ x _ _ _, Ok x); RevokeGrants := Some (λ _ _ _, Ok false); Debates := None;
  UnverifiedPeer := None; TeamActive := None; TeamHasMembers := None;
  introduction_row := λ _ _, None; grants_of := λ _ _, [];
  audit_row := λ _ _ _, Ok tt; audit_soft := λ _ _ _, Ok true; reread := λ _, Ok tt;
|}.
Definition demo_debates : DebateStore bool := {|
  OpenedTx := λ _ _ _ _ _, mret tt;
  CancelTx := λ sid now, effs ← @CloseDebateTx bool demo_env0 sid OutcomeCancelled now; mret (Some effs);
  PeerCancelTx := λ sid now, effs ← @CloseDebateTx bool demo_env0 sid OutcomeCancelled now; mret (true, effs);
  EarlyCompleteTx := λ sid now, @CloseDebateTx bool demo_env0 sid OutcomeCancelled now;
  AbandonTx := λ sid now, @CloseDebateTx bool demo_env0 sid OutcomeCancelled now;
  ReceivedTx := λ _ _, mret tt;
  EndedTx := λ _ _ _ _, mret tt;
  HasDecisionTx := λ _ _ _ _, Ok false;
|}.
#[local] Instance demo_env : Env bool := {|
  Self := Self (Env := demo_env0); digest := digest (Env := demo_env0); seal := seal (Env := demo_env0);
  Quarantine := Quarantine (Env := demo_env0); RevokeGrants := RevokeGrants (Env := demo_env0); Debates := Some demo_debates;
  UnverifiedPeer := None; TeamActive := None; TeamHasMembers := None;
  introduction_row := introduction_row (Env := demo_env0); grants_of := grants_of (Env := demo_env0);
  audit_row := audit_row (Env := demo_env0); audit_soft := audit_soft (Env := demo_env0); reread := reread (Env := demo_env0);
|}.
#[local] Instance demo_helper : HelperRouter bool := {| RouteTx := Some (λ _ _, mret (false, [])) |}.

Lemma debate_tx_ret {A} (a : A) : debate_tx (mret a : tx bool A).
Proof. by intros d b d' _ [_ <-]%tx_ret_ok. Qed.
Lemma debate_tx_then {A B} (m : tx bool A) (f : A → B) : debate_tx m → debate_tx (m ≫= λ a, mret (f a)).
Proof. intros Hm d b d' Hk (a & d1 & H1 & [_ <-]%tx_ret_ok)%tx_bind_ok. by apply (Hm d a d1). Qed.
#[local] Instance demo_debate_laws : DebateLaws (X:=bool).
Proof.
  intros h [= <-]. cbn. pose proof (CloseDebateTx_debate (H := demo_env0)) as Hc.
  split_and!; intros; eauto using debate_tx_ret, debate_tx_then.
Qed.
#[local] Instance demo_helper_laws : HelperLaws (X:=bool).
Proof. intros route [= <-] req now. apply keeps_ret. Qed.

Definition demo_request : bytes := bytes_of "r-0123456789abcdef0123456789abcdef".
Definition demo_now : Z := 1790000000 * second.
Definition demo_out : request :=
  RequestRow DirOut (bytes_of "B") demo_request (bytes_of "t") TypeTask UrgencyNormal UrgencyNormal None emptyBody [] Accepted 1
    None None None None None None None (wireTime demo_now) None [] None None None None None None None None (storeTime demo_now) None None.
Definition demo_db : db bool := Db [] [demo_out] [] [] [] true.
Definition demo_sid : bytes := DeriveID (bytes_of "A") (bytes_of "B") demo_request.
(** A ws.result that overtook the accept, while the rule holds. *)
Definition demo_result_mail : opened_mail :=
  Opened_ [] (bytes_of "B") (bytes_of "A") demo_now (WS.result_body demo_sid demo_request 1 demo_now demo_result).
Definition demo_quarantined : db bool := after (OpWsResult demo_result_mail) demo_now demo_db.
Definition first_row (d : db bool) : session := List.hd (new_session [] Worker [] [] [] KindDebate 0) (sessions d).
Definition demo_discarded : db bool := after (OpDiscard demo_sid) demo_now demo_quarantined.

Lemma demo_trace : trace [OpWsResult demo_result_mail] demo_db demo_quarantined.
Proof. apply (trace_call (OpWsResult demo_result_mail) demo_now []); [reflexivity|]. unfold demo_quarantined. apply trace_nil. Qed.
Lemma demo_quarantined_ok : core_ok (core demo_quarantined).
Proof. apply (trace_ok _ _ _ demo_trace). by apply empty_ok. Qed.
Lemma demo_trace2 : trace [OpDiscard demo_sid] demo_quarantined demo_discarded.
Proof. apply (trace_call (OpDiscard demo_sid) demo_now []); [exact I|]. unfold demo_discarded. apply trace_nil. Qed.
Lemma demo_rows : sessions demo_quarantined = [first_row demo_quarantined] ∧ sessions demo_discarded = [first_row demo_discarded].
Proof. vm_compute. split; reflexivity. Qed.
Lemma demo_first_row : first_row demo_quarantined ∈ sessions demo_quarantined.
Proof. pose proof (proj1 demo_rows) as E. rewrite E. by left. Qed.
Lemma demo_last_row : first_row demo_discarded ∈ sessions demo_discarded.
Proof. pose proof (proj2 demo_rows) as E. rewrite E. by left. Qed.

Lemma store_refines_witness : rtc (core_step (approved [OpWsResult demo_result_mail])) (core demo_db) (core demo_quarantined).
Proof. apply (store_refines _ _ _ demo_trace). split; apply NoDup_nil_2. Defined.
Lemma reachable_rows_witness : s_state (first_row demo_quarantined) = StateQuarantined ∧ Forall row_ok (sessions demo_quarantined).
Proof. split; [vm_compute; reflexivity|]. apply (reachable_rows [OpWsResult demo_result_mail] demo_db); [reflexivity|reflexivity|apply demo_trace]. Defined.
Lemma closed_is_final_witness : ∃ r', r' ∈ sessions demo_discarded ∧ same_row (first_row demo_quarantined) r' ∧ later (first_row demo_quarantined) r'.
Proof. exact (closed_is_final _ _ _ _ demo_trace2 demo_quarantined_ok demo_first_row). Defined.
Lemma quarantine_holds_witness : ∃ v, toView (first_row demo_discarded) = Ok v ∧ v_Result v = None.
Proof.
  exact (proj2 (quarantine_holds _ _ _ _ _ demo_trace2 demo_quarantined_ok demo_first_row demo_last_row
    ltac:(vm_compute; reflexivity) ltac:(vm_compute; reflexivity) ltac:(vm_compute; reflexivity) ltac:(vm_compute; reflexivity)
    ltac:(vm_compute; reflexivity) ltac:(vm_compute; reflexivity))).
Defined.
Lemma demo_whole_trace : trace [OpWsResult demo_result_mail; OpDiscard demo_sid] demo_db demo_discarded.
Proof.
  apply (trace_call (OpWsResult demo_result_mail) demo_now [OpDiscard demo_sid]); [reflexivity|].
  change (after (OpWsResult demo_result_mail) demo_now demo_db) with demo_quarantined. apply demo_trace2.
Qed.
Lemma closed_recorded_once_witness : records_of (first_row demo_discarded) demo_discarded = 1%nat.
Proof.
  exact (closed_recorded_once [OpWsResult demo_result_mail; OpDiscard demo_sid] demo_db demo_discarded (first_row demo_discarded) eq_refl eq_refl
    demo_whole_trace demo_last_row ltac:(vm_compute; reflexivity)).
Defined.
