(* ===== verification/SessionWire.v ===== *)
(** * Work sessions between two daemons

    The mirror of the worker converges to the requester's session whatever
    the order and repetition of the mails, and the bodies one side writes read
    back on the other: ws.state with the row it describes, ws.result with the
    result that was submitted. *)

From S2P Require Import Prelude Utf8 Canonical Strconv WireTime Body RequestObject Tables Experience Requests RequestMail TxLemmas WorkSession SessionMail SessionSteps SessionRefine SessionProofs SessionInvariant SessionClaims.

Open Scope Z_scope.

Section Mirror.
Context {X : Type} `{Env X}.

(** The row after a ws.state: applyState as a function of the row. *)
Definition mirror_next (now : Z) (w : session) (m : state_mail) : session :=
  if sm_seq m <=? s_seq w then
    if refuses_cancel w m then sset_updated (storeTime now) (sset_cancel (Some CancelRefused) w) else w
  else if bool_decide (s_state w = StateClosed) then w
  else if bool_decide (sm_state m = StateOpen) && (2 <=? sm_round m) && s_runner w
       then sset_updated (storeTime now) (sset_cancel (Some CancelRequested) (mirror_columns m now w))
       else mirror_columns m now w.

Lemma find_none_split {A} (p : A → bool) l r : List.find p l = Some r → ∃ l1 l2, l = l1 ++ r :: l2 ∧ Forall (λ x, p x = false) l1 ∧ p r = true.
Proof.
  induction l as [|a l IH]; [done|]. cbn [List.find]. destruct (p a) eqn:E.
  - intros [= ->]. by exists [], l.
  - intros (l1 & l2 & -> & Hf & Hp)%IH. exists (a :: l1), l2. split_and!; [done|by constructor|done].
Qed.

Lemma find_after_update rl peer req (d d' : db X) w f : keys_ok (sessions d) → find_session rl peer req d = Some w →
  sessions d' = update_where (at_id (s_id w)) f (sessions d) → s_id (f w) = s_id w → request_key (f w) = request_key w →
  find_session rl peer req d' = Some (f w) ∧ keys_ok (sessions d').
Proof.
  intros Hk Hf Ed Ei Er. unfold find_session in *. rewrite Ed. pose proof Hf as Hin. apply find_in in Hin as [Hin Hp].
  destruct (update_one (sessions d) w f (proj1 Hk) Hin) as (l1 & l2 & E1 & E2). unfold at_id. rewrite E2. split.
  - apply is_session_key in Hp. assert (Forall (λ x, is_session rl peer req x = false) l1) as Hl1.
    { apply Forall_forall. intros x Hx. apply not_true_iff_false. intros Hx'%is_session_key.
      destruct Hk as [_ Hk]. rewrite E1, map_app in Hk. cbn [map] in Hk. apply NoDup_app in Hk as (_ & Hk1 & _).
      apply (Hk1 (request_key x)); [apply elem_of_map_list; eauto|]. rewrite Hx', <- Hp. by left. }
    clear E1 E2. induction Hl1 as [|x l1 Hx Hl1 IH]; cbn [List.find app].
    + rewrite (proj2 (is_session_key rl peer req (f w))) by congruence. done.
    + by rewrite Hx.
  - unfold keys_ok in *. rewrite E1, !map_app in Hk. rewrite !map_app. cbn [map] in *. by rewrite Ei, Er.
Qed.

Lemma find_same rl peer req (d d' : db X) w : keys_ok (sessions d) → find_session rl peer req d = Some w → sessions d' = sessions d →
  find_session rl peer req d' = Some w ∧ keys_ok (sessions d').
Proof. intros Hk Hf E. unfold find_session in *. by rewrite E. Qed.

(** What a close brings with it does not touch the sessions. *)
Lemma mirror_close_sessions row peer m o now (d : db X) x d' : mirror_close row peer m o now d = Ok (x, d') → sessions d' = sessions d.
Proof.
  intros (u & d1 & H1 & Hx)%tx_bind_ok. apply (quiet_eq _ _ _ _ (quiet_revoke _ _)) in H1 as [E1 _].
  apply tx_bind_ok in Hx as (size & d2 & H2 & Hx). apply writeExperience_ok in H2 as (E2 & _ & _).
  match type of Hx with ?t _ = _ => assert (keeps (core (X:=X)) t) as Hq end.
  { apply keeps_bind; [apply keeps_lift|]. intros res. apply keeps_bind; [apply quiet_try_complete|]. intros dn.
    destruct dn as [effs|[]]; first [apply keeps_ret | apply keeps_err]. }
  apply (quiet_eq _ _ _ _ Hq) in Hx as [E3 _]. congruence.
Qed.

Lemma mirror_same m now w : s_id (mirror_columns m now w) = s_id w ∧ request_key (mirror_columns m now w) = request_key w ∧
  s_peer (mirror_columns m now w) = s_peer w.
Proof. unfold mirror_columns. by destruct (sm_verification m), (bool_decide (sm_state m = StateClosed)), (drops_result _ _). Qed.

Lemma applyState_next op now (d d' : db X) m w o : keys_ok (sessions d) →
  decode_state_mail (DeriveID (op_from op) (op_to op)) (op_body op) = Ok m →
  find_session Worker (op_from op) (sm_request m) d = Some w → s_kind w = KindWork →
  applyState op now d = Ok (o, d') →
  find_session Worker (op_from op) (sm_request m) d' = Some (mirror_next now w m) ∧ keys_ok (sessions d').
Proof.
  intros Hk Hm Hf Hw Ha. apply tx_bind_ok in Ha as (m' & d0 & H0 & Ha). apply tx_lift_ok in H0 as [H0 <-].
  rewrite Hm in H0. injection H0 as <-. apply tx_bind_ok in Ha as (w' & d0 & H0 & Ha). apply tx_get_ok in H0 as [H0 <-].
  rewrite Hf in H0. subst w'. rewrite Hw in Ha. change (bool_decide (KindWork = KindDebate)) with false in Ha. cbv iota in Ha.
  unfold mirror_next. destruct (sm_seq m <=? s_seq w) eqn:Eq.
  - apply tx_bind_ok in Ha as (u & d1 & H1 & Ha). apply tx_ret_ok in Ha as [_ <-]. destruct (refuses_cancel w m).
    + apply update_session_ok in H1 as [E1 _].
      apply (find_after_update _ _ _ d d1 w (λ r, sset_updated (storeTime now) (sset_cancel (Some CancelRefused) r)) Hk Hf E1); done.
    + apply tx_ret_ok in H1 as [_ <-]. done.
  - destruct (bool_decide (s_state w = StateClosed)) eqn:Ec; [by apply tx_ret_ok in Ha as [_ <-]|].
    unfold apply_state_row in Ha. apply tx_bind_ok in Ha as (u & d1 & H1 & Ha). apply update_session_ok in H1 as [E1 _].
    destruct (mirror_same m now w) as (Ei & Er & Ep).
    destruct (find_after_update _ _ _ d d1 w (mirror_columns m now) Hk Hf E1 Ei Er) as [Hf1 Hk1].
    apply tx_bind_ok in Ha as (mid & d2 & H2 & Ha). apply tx_bind_ok in Ha as (cl & d3 & H3 & Ha). apply tx_ret_ok in Ha as [_ <-].
    assert (sessions d3 = sessions d2) as E3.
    { destruct (sm_outcome m); [by apply mirror_close_sessions in H3|by apply tx_ret_ok in H3 as [_ <-]]. }
    destruct (bool_decide (sm_state m = StateOpen) && (2 <=? sm_round m) && s_runner w).
    + unfold submitCancelTx in H2. apply tx_bind_ok in H2 as (mid2 & d4 & H4 & H2).
      apply (quiet_eq _ _ _ _ (quiet_submit _ _ _ _)) in H4 as [E4 _].
      apply tx_bind_ok in H2 as (u5 & d5 & H5 & H2). apply tx_ret_ok in H2 as [_ <-]. apply update_session_ok in H5 as [E5 _].
      destruct (find_same _ _ _ d1 d4 _ Hk1 Hf1 E4) as [Hf4 Hk4]. rewrite <- Ei in E5.
      destruct (find_after_update _ _ _ d4 d5 (mirror_columns m now w) (λ r, sset_updated (storeTime now) (sset_cancel (Some CancelRequested) r)) Hk4 Hf4 E5) as [Hf5 Hk5]; [done|done|].
      by apply (find_same _ _ _ d5 d3 _ Hk5 Hf5).
    + apply tx_ret_ok in H2 as [_ <-]. by apply (find_same _ _ _ d1 d3 _ Hk1 Hf1).
Qed.

(** ** Convergence *)

(** The mails of one session as they reach the worker, at what times. *)
Inductive delivered : list opened_mail → db X → db X → Prop :=
| delivered_nil d : delivered [] d d
| delivered_cons op ops now o d d1 d' : applyState op now d = Ok (o, d1) → delivered ops d1 d' → delivered (op :: ops) d d'.

(** The mirror shows what the mail says. *)
Definition agrees (w : session) (m : state_mail) : Prop :=
  s_seq w = sm_seq m ∧ s_state w = sm_state m ∧ s_round w = sm_round m ∧ s_outcome w = sm_outcome m ∧
  s_stateAt w = wireTime (sm_at m) ∧ s_changes w = opt_text (sm_changes m).

(** The requester's history: its n-th state has sequence number n, and
    nothing follows a close. *)
Record history (hist : Z → state_mail) (n : Z) : Prop := {
  hist_seq : ∀ k, sm_seq (hist k) = k;
  hist_closed : ∀ k, 1 ≤ k ≤ n → sm_state (hist k) = StateClosed → k = n;
}.
Definition in_history (hist : Z → state_mail) (n : Z) (w : session) : Prop :=
  (s_seq w < n ∧ s_state w ≠ StateClosed ∨ agrees w (hist n)) ∧ s_kind w = KindWork.

Lemma mirror_columns_agrees m now w : agrees (mirror_columns m now w) m.
Proof. unfold agrees, mirror_columns. by destruct (sm_verification m), (bool_decide (sm_state m = StateClosed)), (drops_result _ _). Qed.

Lemma mirror_next_history hist n now w k : history hist n → 1 ≤ k ≤ n → in_history hist n w →
  in_history hist n (mirror_next now w (hist k)) ∧ (k = n → agrees (mirror_next now w (hist k)) (hist n)) ∧
  (agrees w (hist n) → agrees (mirror_next now w (hist k)) (hist n)).
Proof.
  intros [Hs Hc] Hk [Hw Hkind]. assert (agrees w (hist n) → s_seq w = n) as Hn by (intros (E & _); by rewrite E, Hs).
  unfold mirror_next. rewrite Hs. destruct (k <=? s_seq w) eqn:Eq; bprop.
  - assert (k = n → agrees w (hist n)) as Hkn by (intros ->; destruct Hw as [[? _]|?]; [lia|done]).
    destruct (refuses_cancel w (hist k)); by split_and!.
  - assert (¬ agrees w (hist n)) as Hna by (intros Ha%Hn; lia). destruct Hw as [[Hlt Hop]|]; [|done].
    rewrite (bool_decide_eq_false_2 _ Hop). pose proof (mirror_columns_agrees (hist k) now w) as Ha.
    assert (∀ w', agrees w' (hist k) → s_kind w' = KindWork → in_history hist n w' ∧ (k = n → agrees w' (hist n)) ∧ (agrees w (hist n) → agrees w' (hist n))) as Hall.
    { intros w' Ha' Hw'. split_and!; [|by intros <-|done]. split; [|done]. destruct (decide (k = n)) as [->|Hne]; [by right|left].
      destruct Ha' as (E1 & E2 & _). rewrite E1, E2, Hs. split; [lia|]. intros E. by apply Hne, Hc. }
    assert (s_kind (mirror_columns (hist k) now w) = KindWork) as Hkm.
    { unfold mirror_columns. by destruct (sm_verification (hist k)), (bool_decide (sm_state (hist k) = StateClosed)), (drops_result _ _). }
    destruct (_ && _); by apply Hall.
Qed.

(** C24: the worker's mirror converges. Let the requester's history of a
    session be its states 1 to n, nothing after a close. Whatever mails of it
    reach the worker, in any order, some many times and some never, once the
    n-th was among them the mirror has the n-th state, round, outcome, changes
    and time, and it is not disturbed by what arrives later. *)
Theorem mirror_converges hist n peer req ops (d d' : db X) w : history hist n →
  (∀ op, op ∈ ops → op_from op = peer ∧ ∃ k, 1 ≤ k ≤ n ∧ sm_request (hist k) = req ∧
     decode_state_mail (DeriveID (op_from op) (op_to op)) (op_body op) = Ok (hist k)) →
  (∃ op, op ∈ ops ∧ decode_state_mail (DeriveID (op_from op) (op_to op)) (op_body op) = Ok (hist n)) →
  keys_ok (sessions d) → find_session Worker peer req d = Some w → s_kind w = KindWork → s_seq w < n → s_state w ≠ StateClosed →
  delivered ops d d' → ∃ w', find_session Worker peer req d' = Some w' ∧ agrees w' (hist n).
Proof.
  intros Hh Hops Hlast Hk Hf Hkind Hseq Hopen Hd.
  assert (in_history hist n w) as Hw by (split; [by left; split|done]). clear Hkind Hseq Hopen.
  assert (agrees w (hist n) ∨ ∃ op, op ∈ ops ∧ decode_state_mail (DeriveID (op_from op) (op_to op)) (op_body op) = Ok (hist n)) as Hg by (by right).
  clear Hlast. revert w Hf Hk Hw Hg. induction Hd as [d|op ops now o d d1 d' Ha Hd IH]; intros w Hf Hk Hw Hg.
  - destruct Hg as [Hg|(op & ?%elem_of_nil & _)]; [by exists w|done].
  - destruct (Hops op) as (Hp & k & Hkn & Hreq & Hm); [by left|]. rewrite <- Hp, <- Hreq in Hf.
    destruct (applyState_next op now d d1 (hist k) w o Hk Hm Hf (proj2 Hw) Ha) as [Hf1 Hk1]. rewrite Hp, Hreq in Hf1.
    destruct (mirror_next_history hist n now w k Hh Hkn Hw) as (Hw1 & Hn1 & Hst).
    apply (IH (λ op' Hin, Hops op' (list_elem_of_further op' op ops Hin)) _ Hf1 Hk1 Hw1).
    destruct Hg as [Hg|(op' & [->|Hin]%elem_of_cons & Hdec)]; [left; auto| |right; eauto].
    left. apply Hn1. rewrite Hm in Hdec. injection Hdec as Hdec. by rewrite <- (hist_seq hist n Hh k), Hdec, (hist_seq hist n Hh n).
Qed.
End Mirror.

(** ** Bodies that read back *)

Section ReadBack.
Context {X : Type} `{Env X}.

Definition stateKeys : list bytes :=
  map bytes_of ["at"; "request"; "round"; "seq"; "session"; "state"; "outcome"; "verification"; "changes"]%string.
Definition resultMailKeys : list bytes := map bytes_of ["at"; "request"; "result"; "round"; "session"]%string.

Lemma state_body_keys r sq rnd st o v ch t : map (@fst bytes value) (state_body r sq rnd st o v ch t) `sublist_of` stateKeys.
Proof.
  unfold state_body. cbn [app map fst]. rewrite !map_app.
  change stateKeys with (bytes_of "at" :: bytes_of "request" :: bytes_of "round" :: bytes_of "seq" :: bytes_of "session" :: bytes_of "state" ::
    [bytes_of "outcome"] ++ [bytes_of "verification"] ++ [bytes_of "changes"]).
  do 6 constructor. repeat apply sublist_app; apply opt_member_keys.
Qed.

Lemma strict_perm (m m' : body) ks allowed : map fst m' ≡ₚ map fst m → map fst m `sublist_of` ks → forallb (λ k, bool_decide (k ∈ allowed)) ks = true →
  strictMembers m' allowed = Ok tt.
Proof.
  intros Hp Hs Hk. unfold strictMembers. rewrite (proj2 (forallb_forall _ _)); [done|]. intros p Hin.
  rewrite forallb_forall in Hk. apply Hk. apply list_elem_of_In. eapply elem_of_sublist; [|exact Hs].
  rewrite <- Hp. apply elem_of_map_list. exists p. split; [done|]. by apply list_elem_of_In.
Qed.

Lemma state_text_valid st : valid_utf8 (state_text st) = true.
Proof. by destruct st. Qed.
Lemma outcome_text_valid o : valid_utf8 (opt_of outcome_text o) = true.
Proof. by destruct o as [[]|]. Qed.
Lemma verification_text_valid v : valid_utf8 (opt_of verification_text v) = true.
Proof. by destruct v as [[]|]. Qed.

Lemma wf_state_body r sq rnd st o v ch t : in_years t → valid_utf8 (s_requestID r) = true → valid_utf8 (s_id r) = true → valid_utf8 ch = true →
  wf (VObject (state_body r sq rnd st o v ch t)) = true.
Proof.
  intros Ht Hq Hi Hc. apply (known_keys stateKeys); [apply state_body_keys|by vm_compute..|].
  unfold state_body. cbn [app forallb snd wf num]. rewrite wireTime_valid, Hq, Hi, state_text_valid by done. cbn [andb].
  rewrite !forallb_app, !wf_opt_member by (done || apply outcome_text_valid || apply verification_text_valid). done.
Qed.

Lemma member_state_body r sq rnd st o v ch t k : member (bytes_of k) (state_body r sq rnd st o v ch t) =
  if bool_decide (bytes_of "at" = bytes_of k) then Some (VString (wireTime t))
  else if bool_decide (bytes_of "request" = bytes_of k) then Some (VString (s_requestID r))
  else if bool_decide (bytes_of "round" = bytes_of k) then Some (num rnd)
  else if bool_decide (bytes_of "seq" = bytes_of k) then Some (num sq)
  else if bool_decide (bytes_of "session" = bytes_of k) then Some (VString (s_id r))
  else if bool_decide (bytes_of "state" = bytes_of k) then Some (VString (state_text st))
  else member (bytes_of k) (opt_member "outcome" (opt_of outcome_text o) ++ opt_member "verification" (opt_of verification_text v) ++ opt_member "changes" ch).
Proof. reflexivity. Qed.

Lemma decodeString_some m f s : member f m = Some (VString s) → s ≠ [] → WS.decodeString m f = Ok s.
Proof. intros Hm Hs. unfold WS.decodeString. rewrite Hm. by destruct s. Qed.
Lemma decodeInt_some m f n : member f m = Some (num n) → - 2 ^ 63 ≤ n < 2 ^ 63 → WS.decodeInt m f = Ok n.
Proof. intros Hm Hn. unfold WS.decodeInt. rewrite Hm. unfold num. by rewrite Int64_Itoa. Qed.
Lemma decodeTime_some m f t : member f m = Some (VString (wireTime t)) → in_years t → WS.decodeTime_ m f = Ok (t / second * second).
Proof. intros Hm Ht. unfold WS.decodeTime_. by rewrite Hm, decode_wireTime. Qed.

Lemma parse_state_text st : parse_state (state_text st) = Some st.
Proof. by destruct st. Qed.
Lemma parse_outcome_text o : parse_outcome (outcome_text o) = Some o.
Proof. by destruct o. Qed.

(** The mail a row's last_state is, as the worker decodes it. *)
Definition mail_of (r : session) (t : Z) : state_mail :=
  StateMail (t / second * second) (s_requestID r) (s_round r) (s_seq r) (s_id r) (s_state r) (s_outcome r)
    (if bool_decide (s_state r = StateOpen) then default [] (s_changes r) else [])
    (if bool_decide (s_state r = StateClosed) then s_verification r else None).

Lemma member_state_tail o v ch (s : string) :
  member (bytes_of s) (opt_member "outcome" o ++ opt_member "verification" v ++ opt_member "changes" ch) =
  let text := if bool_decide (bytes_of "outcome" = bytes_of s) then o else if bool_decide (bytes_of "verification" = bytes_of s) then v
              else if bool_decide (bytes_of "changes" = bytes_of s) then ch else [] in
  match text with [] => None | _ => Some (VString text) end.
Proof.
  rewrite !member_app, !member_opt.
  assert (bytes_of "outcome" ≠ bytes_of "verification" ∧ bytes_of "outcome" ≠ bytes_of "changes" ∧ bytes_of "verification" ≠ bytes_of "changes")
    as (N1 & N2 & N3) by done.
  repeat case_bool_decide; try congruence; by destruct o, v, ch.
Qed.

Lemma decode_optional m f s : option_map norm (match s with [] => None | _ => Some (VString s) end) = member f m →
  WS.decodeOptionalNonEmpty m f = Ok s.
Proof. intros E. unfold WS.decodeOptionalNonEmpty. rewrite <- E. by destruct s. Qed.

Lemma decode_choice_opt {A} (parse : bytes → option A) (text : A → bytes) m f o : (∀ a, parse (text a) = Some a ∧ text a ≠ []) →
  WS.decodeOptionalNonEmpty m f = Ok (opt_of text o) → decode_choice parse m f = Ok o.
Proof.
  intros Hp E. unfold decode_choice. rewrite E. cbn [rbind]. destruct o as [a|]; [|done]. cbn [opt_of].
  destruct (Hp a) as [Ha Hn]. by destruct (text a) eqn:Et; [|rewrite Ha].
Qed.

(** ** A state body, decoded *)

Lemma state_body_decodes r sq rnd st o v ch t derived c : in_years t → 1 ≤ rnd < 2 ^ 63 → 1 ≤ sq < 2 ^ 63 →
  s_requestID r ≠ [] → valid_utf8 (s_requestID r) = true → s_id r ≠ [] → valid_utf8 (s_id r) = true → derived (s_requestID r) = s_id r →
  (o ≠ None ↔ st = StateClosed) → (v = None ∨ o = Some OutcomeAccepted) →
  (ch = [] ∨ st = StateOpen ∧ 2 ≤ rnd ∧ checkCodePoints (field_ "changes") ch 1 4000 newline_tab = Ok tt) →
  canonicalMap (state_body r sq rnd st o v ch t) = Ok c →
  ∃ m, parse_object c = Ok m ∧
    decode_state_mail derived m = Ok (StateMail (t / second * second) (s_requestID r) rnd sq (s_id r) st o ch v).
Proof.
  intros Hyears Hrd Hsq Hqn Hqv Hin Hiv Hder Ho Hv Hch Hc.
  assert (valid_utf8 ch = true) as Hcv by (destruct Hch as [->|(_ & _ & Hch)]; [done|apply checkCodePoints_ok in Hch; by destruct Hch]).
  destruct (canonical_members _ _ (wf_state_body r sq rnd st o v ch t Hyears Hqv Hiv Hcv) Hc) as (m & Hp & _ & Hperm & _ & Hm).
  exists m. split; [done|].
  assert (∀ s, option_map norm (member (bytes_of s) (state_body r sq rnd st o v ch t)) = member (field_ s) m) as Hs by (by intros s; rewrite <- Hm).
  unfold decode_state_mail. rewrite (strict_perm _ _ stateKeys _ Hperm (state_body_keys _ _ _ _ _ _ _ _)) by (by vm_compute). cbn [rbind].
  rewrite (decodeTime_some _ _ t) by (by rewrite <- ?Hs). cbn [rbind].
  rewrite (decodeString_some _ _ (s_requestID r)) by (by rewrite <- ?Hs). cbn [rbind].
  rewrite (decodeInt_some _ _ rnd) by (rewrite <- ?Hs; done || lia). cbn [rbind].
  rewrite (proj2 (Z.ltb_ge _ _)) by lia. cbn [negb].
  rewrite (decodeInt_some _ _ sq) by (rewrite <- ?Hs; done || lia). cbn [rbind].
  rewrite (proj2 (Z.ltb_ge _ _)) by lia. cbn [negb].
  rewrite (decodeString_some _ _ (s_id r)) by (by rewrite <- ?Hs). cbn [rbind].
  rewrite bool_decide_eq_true_2 by done.
  rewrite (decodeString_some _ _ (state_text st)) by (rewrite <- ?Hs; by destruct st). cbn [rbind].
  rewrite parse_state_text. cbn [rbind].
  rewrite (decode_choice_opt _ outcome_text _ _ o) by
    (first [by intros []; split | apply decode_optional; rewrite <- Hs, member_state_body; known_keys_step; rewrite member_state_tail; known_keys_step; done]).
  cbn [rbind]. rewrite (bool_decide_eq_true_2 (bool_decide (o ≠ None) = _)) by (by apply bool_decide_ext).
  rewrite (decode_optional _ _ ch) by (rewrite <- Hs, member_state_body; known_keys_step; rewrite member_state_tail; known_keys_step; done).
  cbn [rbind]. assert (when_set ch (if negb (bool_decide (st = StateOpen)) || (rnd <? 2) then Err ErrBadBody
    else as_bad_body (checkCodePoints (field_ "changes") ch 1 4000 newline_tab)) = Ok tt) as ->.
  { destruct Hch as [->|(-> & H2 & ->)]; [done|]. rewrite bool_decide_eq_true_2, (proj2 (Z.ltb_ge _ _)) by (done || lia). by destruct ch. }
  cbn [rbind]. rewrite (decode_choice_opt _ verification_text _ _ v) by
    (first [by intros []; split | apply decode_optional; rewrite <- Hs, member_state_body; known_keys_step; rewrite member_state_tail; known_keys_step; done]).
  cbn [rbind]. destruct Hv as [->| ->]; [done|]. by destruct (bool_decide (v = None)).
Qed.

(** What the requester sends of a session, the worker understands. On a
    store that keeps the invariant, the last_state of a work session of the
    requester - the body of every ws.state sent or sent again - decodes on the
    worker as a mail with the row's round, sequence number, state, outcome,
    changes and verification, and mirroring it makes the worker's row agree
    with the requester's. *)
Theorem echo_read_back r t derived c : row_ok r → s_role r = Requester → s_kind r = KindWork → 0 < s_seq r < 2 ^ 63 → s_round r < 2 ^ 63 →
  s_requestID r ≠ [] → valid_utf8 (s_requestID r) = true → s_id r ≠ [] → valid_utf8 (s_id r) = true → derived (s_requestID r) = s_id r →
  in_years t → s_lastState r = Some (echo r t) → canonicalMap (echo r t).2 = Ok c →
  ∃ m, parse_object c = Ok m ∧ decode_state_mail derived m = Ok (mail_of r t) ∧
    ∀ now w, let w' := mirror_columns (mail_of r t) now w in
      s_seq w' = s_seq r ∧ s_round w' = s_round r ∧ s_state w' = s_state r ∧ s_outcome w' = s_outcome r.
Proof.
  intros Hok Ha Hk Hsq Hrd Hqn Hqv Hin Hiv Hder Hyears Hlast Hc. pose proof (ok_round r Hok).
  destruct (state_body_decodes r (s_seq r) (s_round r) (s_state r) (s_outcome r)
    (if bool_decide (s_state r = StateClosed) then s_verification r else None)
    (if bool_decide (s_state r = StateOpen) then default [] (s_changes r) else []) t derived c) as (m & Hp & Hd); try done; try lia.
  - apply (ok_outcome r Hok).
  - case_bool_decide as Hs; [|by left]. destruct (s_outcome r) as [[]|] eqn:Eo; [by right|left; by apply (ok_unverified r Hok)|].
    exfalso. by apply (proj2 (ok_outcome r Hok)) in Hs.
  - case_bool_decide as Hs; [|by left]. destruct (s_changes r) as [x|] eqn:Ex; [right|by left].
    destruct (ok_changes r Hok Ha x Ex) as [Hx H2]. by split_and!.
  - exists m. split_and!; [done|done|]. intros now w. destruct (mirror_columns_agrees (mail_of r t) now w) as (E1 & E2 & E3 & E4 & _). by split_and!.
Qed.
End ReadBack.

(** ** Instances *)

(** B mirrors a session of A: an awaited result and then a new round. *)
Definition mirror_env : Env bool := {|
  Self := bytes_of "B"; digest := @rev Z; seal := λ _ _ _ _, Ok []; Quarantine := None; RevokeGrants := None; Debates := None;
  UnverifiedPeer := None; TeamActive := None; TeamHasMembers := None; introduction_row := λ _ _, None; grants_of := λ _ _, [];
  audit_row := λ _ _ _, Ok tt; audit_soft := λ _ _ _, Ok true; reread := λ _, Ok tt;
|}.
Definition mirror_sid : bytes := @DeriveID bool mirror_env (bytes_of "A") (bytes_of "B") demo_request.
Definition mirror_row0 : session := new_session mirror_sid Worker (bytes_of "A") demo_request (bytes_of "t") KindWork demo_now.
Definition mirror_db : db bool := Db [mirror_row0] [] [] [] [] true.
Definition mirror_hist (k : Z) : state_mail :=
  if k =? 2 then StateMail demo_now demo_request 2 k mirror_sid StateOpen None (bytes_of "again") None
  else StateMail demo_now demo_request 1 k mirror_sid StateAwaitingResult None [] None.
Definition mirror_mail (k : Z) : opened_mail :=
  let m := mirror_hist k in
  Opened_ [] (bytes_of "A") (bytes_of "B") demo_now (state_body mirror_row0 k (sm_round m) (sm_state m) None None (sm_changes m) demo_now).
Definition mirror_run (d : db bool) (k : Z) : db bool :=
  match @applyState bool mirror_env (mirror_mail k) demo_now d with Ok (_, d') => d' | Err _ => d end.
Definition mirror_end : db bool := fold_left mirror_run [2; 1; 2] mirror_db.

Lemma mirror_run_delivered k ks d d' : (match @applyState bool mirror_env (mirror_mail k) demo_now d with Ok _ => true | Err _ => false end) = true →
  @delivered bool mirror_env (map mirror_mail ks) (mirror_run d k) d' → @delivered bool mirror_env (map mirror_mail (k :: ks)) d d'.
Proof. unfold mirror_run. destruct (applyState _ _ _) as [[o d1]|e] eqn:E; [|done]. intros _. by apply delivered_cons with (1 := E). Qed.
Lemma mirror_delivered : @delivered bool mirror_env (map mirror_mail [2; 1; 2]) mirror_db mirror_end.
Proof.
  unfold mirror_end. cbn [fold_left]. do 3 (apply mirror_run_delivered; [vm_compute; reflexivity|]). apply delivered_nil.
Qed.
Lemma mirror_history : history mirror_hist 2.
Proof.
  split; unfold mirror_hist; intros k; destruct (k =? 2); try done. all: intros _; discriminate.
Qed.
Lemma mirror_mails k : k = 1 ∨ k = 2 →
  decode_state_mail (@DeriveID bool mirror_env (bytes_of "A") (bytes_of "B")) (op_body (mirror_mail k)) = Ok (mirror_hist k).
Proof. by intros [-> | ->]; vm_compute. Qed.

Lemma mirror_converges_witness : ∃ w', @find_session bool Worker (bytes_of "A") demo_request mirror_end = Some w' ∧ agrees w' (mirror_hist 2).
Proof.
  apply (@mirror_converges bool mirror_env mirror_hist 2 (bytes_of "A") demo_request (map mirror_mail [2; 1; 2]) mirror_db mirror_end mirror_row0);
    [apply mirror_history| | |split; apply NoDup_singleton|reflexivity|reflexivity|reflexivity|discriminate|apply mirror_delivered].
  - intros op (k & -> & Hk)%elem_of_map_list. split; [done|]. exists k. assert (k = 1 ∨ k = 2) as Hk'.
    { apply elem_of_cons in Hk as [->|[->|[->|?%elem_of_nil]%elem_of_cons]%elem_of_cons]; by auto. }
    split_and!; [lia|lia|by destruct Hk' as [-> | ->]|by apply mirror_mails].
  - exists (mirror_mail 2). split; [by left|]. apply mirror_mails. by right.
Defined.

#[local] Existing Instance demo_env.
Lemma demo_quarantined_row : row_ok (first_row demo_quarantined).
Proof.
  destruct demo_quarantined_ok as [_ Hr _]. cbn [core fst] in Hr. rewrite Forall_forall in Hr. apply Hr, demo_first_row.
Qed.
Lemma echo_read_back_witness : ∃ c m, canonicalMap (echo (first_row demo_quarantined) demo_now).2 = Ok c ∧ parse_object c = Ok m ∧
  decode_state_mail (DeriveID (bytes_of "A") (bytes_of "B")) m = Ok (mail_of (first_row demo_quarantined) demo_now).
Proof.
  destruct (canonicalMap (echo (first_row demo_quarantined) demo_now).2) as [c|] eqn:E; [|exfalso; revert E; by vm_compute].
  destruct (echo_read_back (first_row demo_quarantined) demo_now (DeriveID (bytes_of "A") (bytes_of "B")) c demo_quarantined_row
    ltac:(vm_compute; reflexivity) ltac:(vm_compute; reflexivity) ltac:(split; vm_compute; reflexivity) ltac:(vm_compute; reflexivity)
    ltac:(vm_compute; discriminate) ltac:(vm_compute; reflexivity) ltac:(vm_compute; discriminate) ltac:(vm_compute; reflexivity)
    ltac:(vm_compute; reflexivity) ltac:(split; vm_compute; done) ltac:(vm_compute; reflexivity) E) as (m & Hp & Hd & _).
  exists c, m. split_and!; [done|exact Hp|exact Hd].
Defined.
