(* ===== verification/DebateEntry.v ===== *)
(** * Debate entries (internal/debate/schema.go, validate.go, decode.go, canonical.go, text.go, commit.go)

    The typed entries of a debate, their strict decoders and validators, the
    targets of challenges, the canonical encoding with its cap and the
    commitment. An optional member that is absent is the empty text or list.
    Of a field error the path is kept, not the reason. *)

From S2P Require Import Prelude Utf8 Canonical Strconv DisplayText WireTime Body.

Open Scope Z_scope.
Open Scope go_scope.

Definition MaxDebateEntry : Z := 32768.
Definition maxLine : Z := 280.
Definition maxOption : Z := 120.
Definition maxRef : Z := 1024.
Definition maxArgument : Z := 4000.
Definition maxConstraint : Z := 500.
Definition maxAssumptions : nat := 10.
Definition maxEvidence : nat := 10.
Definition maxChallengeEv : nat := 5.
Definition maxRejected : nat := 5.
Definition maxTargets : nat := 5.
Definition maxChallenges : nat := 3.
Definition maxPoints : nat := 10.
Definition maxDisagreement : nat := 10.
Definition maxArtifacts : nat := 20.

Definition evidenceKinds : list bytes := map bytes_of ["file"; "commit"; "url"; "test"; "doc"; "measurement"]%string.

(** ** Schema *)

Inductive entry_kind := KindPosition | KindMove | KindProposal | KindAnswer.
#[export] Instance entry_kind_eq_dec : EqDecision entry_kind.
Proof. solve_decision. Defined.
Definition kind_text (k : entry_kind) : bytes :=
  bytes_of match k with KindPosition => "position" | KindMove => "move" | KindProposal => "proposal" | KindAnswer => "answer" end.
Definition ValidKind (s : bytes) : option entry_kind :=
  List.find (λ k, bool_decide (kind_text k = s)) [KindPosition; KindMove; KindProposal; KindAnswer].

Record Evidence := MkEvidence { ev_Kind : bytes; Ref : bytes; ev_Note : bytes }.
Record Alternative := MkAlternative { Option_ : bytes; Reason : bytes }.
Record Position := MkPosition {
  Claim : bytes; Assumptions : list bytes; pos_Evidence : list Evidence; RejectedAlternatives : list Alternative; Argument : bytes;
}.
Record Challenge := MkChallenge { Targets : list bytes; ch_Argument : bytes; ch_Evidence : list Evidence }.
Record Move := MkMove { Challenges : list Challenge; Revision : option Position }.
Record Agreement := MkAgreement { Decision_ : bytes; Points : list bytes; ag_Argument : bytes }.
Record Disagreement := MkDisagreement { Point : bytes; Initiator : bytes; Respondent : bytes }.
Record Proposal := MkProposal { prop_Agreement : Agreement; prop_Remaining : list Disagreement; AffectedArtifacts : list Artifact }.
Record Answer := MkAnswer { Accept : bool; ans_Remaining : list Disagreement; ans_Argument : bytes }.
Inductive Entry := EPosition (p : Position) | EMove (m : Move) | EProposal (p : Proposal) | EAnswer (a : Answer).

Definition Kind (e : Entry) : entry_kind :=
  match e with EPosition _ => KindPosition | EMove _ => KindMove | EProposal _ => KindProposal | EAnswer _ => KindAnswer end.

Definition member_path (base name : bytes) : bytes := match base with [] => name | _ => base ++ [0x2E] ++ name end.
Definition index_path (base : bytes) (i : Z) : bytes := artifactIndex base i.

(** ** Text (text.go) *)

(** unicode.IsSpace *)
Definition IsSpace (r : Z) : bool :=
  in_range 0x09 0x0D r || (r =? 0x20) || (r =? 0x85) || (r =? 0xA0) || (r =? 0x1680) || in_range 0x2000 0x200A r ||
  in_range 0x2028 0x2029 r || (r =? 0x202F) || (r =? 0x205F) || (r =? 0x3000).

Definition badDebateText (s allowed : bytes) : bool := hasControl s allowed || hasC1 s || rune_in s 0x2028 || rune_in s 0x2029.
(** On valid UTF-8. *)
Definition checkTrimmed (f s : bytes) : checked unit :=
  match runes s with
  | [] => Ok tt
  | r :: rs => guard? negb (IsSpace r || IsSpace (List.last rs r)) else FieldError f in Ok tt
  end.
Definition checkLine (f s : bytes) (limit : Z) : checked unit :=
  guard? valid_utf8 s else FieldError f in
  guard? in_range 1 limit (Z.of_nat (length (runes s))) else FieldError f in
  guard? negb (badDebateText s []) else FieldError f in
  checkTrimmed f s.
Definition checkArgument (f s : bytes) : checked unit :=
  guard? valid_utf8 s else FieldError f in
  guard? in_range 1 maxArgument (Z.of_nat (length (runes s))) else FieldError f in
  guard? negb (badDebateText s newline_tab) else FieldError f in
  Ok tt.

Definition invisibleRune `{Unicode} (r : Z) : bool :=
  Cf r || Variation_Selector r || Other_Default_Ignorable r || (negb (r =? 0x20) && Zs r) || (r =? 0x2800).
Definition ValidateConstraintText `{Unicode} (s : bytes) : checked unit :=
  let? _ := checkLine (field "text") s maxConstraint in
  guard? forallb (λ r, ((r =? 0x20) || IsGraphic r) && negb (invisibleRune r)) (runes s) else FieldError (field "text") in
  Ok tt.
Definition ValidateTopic (s : bytes) : checked unit :=
  guard? valid_utf8 s else FieldError (field "brief") in
  guard? in_range 1 16384 (Z.of_nat (length s)) else FieldError (field "brief") in
  guard? negb (badDebateText s newline_tab) else FieldError (field "brief") in
  Ok tt.

(** ** Validate (validate.go) *)

(** A check of every item of a list, with its index. *)
Fixpoint each {A} (f : Z → A → checked unit) (i : Z) (l : list A) : checked unit :=
  match l with
  | [] => Ok tt
  | a :: l => let? _ := f i a in each f (i + 1) l
  end.

Definition validateEvidence (f : bytes) (ev : list Evidence) (limit : nat) : checked unit :=
  guard? (length ev <=? limit)%nat else FieldError f in
  each (λ i e,
    let fi := index_path f i in
    guard? bool_decide (ev_Kind e ∈ evidenceKinds) else FieldError (member_path fi (field "kind")) in
    let? _ := checkLine (member_path fi (field "ref")) (Ref e) maxRef in
    when_set (ev_Note e) (checkLine (member_path fi (field "note")) (ev_Note e) maxLine)) 0 ev.

Definition validatePosition (base : bytes) (p : Position) : checked unit :=
  let? _ := checkLine (member_path base (field "claim")) (Claim p) maxLine in
  let fa := member_path base (field "assumptions") in
  guard? (length (Assumptions p) <=? maxAssumptions)%nat else FieldError fa in
  let? _ := each (λ i a, checkLine (index_path fa i) a maxLine) 0 (Assumptions p) in
  let? _ := validateEvidence (member_path base (field "evidence")) (pos_Evidence p) maxEvidence in
  let ra := member_path base (field "rejected_alternatives") in
  guard? (length (RejectedAlternatives p) <=? maxRejected)%nat else FieldError ra in
  let? _ := each (λ i alt,
    let? _ := checkLine (member_path (index_path ra i) (field "option")) (Option_ alt) maxOption in
    checkLine (member_path (index_path ra i) (field "reason")) (Reason alt) maxLine) 0 (RejectedAlternatives p) in
  checkArgument (member_path base (field "argument")) (Argument p).
Definition ValidatePosition (p : Position) : checked unit := validatePosition [] p.

(** *** Targets *)

Inductive target_member := TClaim | TArgument | TAssumptions | TEvidence | TRejected.
#[export] Instance target_member_eq_dec : EqDecision target_member.
Proof. solve_decision. Defined.
Definition target_text (m : target_member) : bytes :=
  bytes_of match m with
           | TClaim => "claim" | TArgument => "argument" | TAssumptions => "assumptions" | TEvidence => "evidence"
           | TRejected => "rejected_alternatives"
           end.
Record Target := MkTarget { tg_Member : target_member; Index : Z }.
Definition indexed : list (target_member * Z) :=
  [(TAssumptions, Z.of_nat maxAssumptions); (TEvidence, Z.of_nat maxEvidence); (TRejected, Z.of_nat maxRejected)].

(** strings.Cut(s, "/") *)
Fixpoint cut_slash (s : bytes) : option (bytes * bytes) :=
  match s with
  | [] => None
  | c :: s => if c =? 0x2F then Some ([], s) else match cut_slash s with Some (a, b) => Some (c :: a, b) | None => None end
  end.
Definition ParseTarget (s : bytes) : checked Target :=
  if bool_decide (s = target_text TClaim) then Ok (MkTarget TClaim (-1)) else
  if bool_decide (s = target_text TArgument) then Ok (MkTarget TArgument (-1)) else
  match cut_slash s with
  | None => Err (FieldError (field "target"))
  | Some (name, digits) =>
      match List.find (λ p, bool_decide (target_text p.1 = name)) indexed with
      | None => Err (FieldError (field "target"))
      | Some (m, limit) =>
          guard? negb (bool_decide (digits = []) || (2 <? length digits)%nat ||
                       ((1 <? length digits)%nat && bool_decide (head digits = Some 0x30))) else FieldError (field "target") in
          guard? forallb is_digit digits else FieldError (field "target") in
          let n := digits_val digits in
          guard? negb (limit <=? n) else FieldError (field "target") in
          Ok (MkTarget m n)
      end
  end.
Definition target_string (t : Target) : bytes :=
  if Index t <? 0 then target_text (tg_Member t) else target_text (tg_Member t) ++ [0x2F] ++ Itoa (Index t).
Definition ExistsIn (t : Target) (p : Position) : bool :=
  match tg_Member t with
  | TClaim | TArgument => Index t =? -1
  | TAssumptions => (0 <=? Index t) && (Index t <? Z.of_nat (length (Assumptions p)))
  | TEvidence => (0 <=? Index t) && (Index t <? Z.of_nat (length (pos_Evidence p)))
  | TRejected => (0 <=? Index t) && (Index t <? Z.of_nat (length (RejectedAlternatives p)))
  end.

(** Each target parses and is no duplicate of an earlier one. *)
Fixpoint check_targets (tf : bytes) (i : Z) (seen l : list bytes) : checked unit :=
  match l with
  | [] => Ok tt
  | t :: l =>
      match ParseTarget t with
      | Err _ => Err (FieldError (index_path tf i))
      | Ok _ =>
          guard? negb (bool_decide (t ∈ seen)) else FieldError (index_path tf i) in
          check_targets tf (i + 1) (t :: seen) l
      end
  end.
Definition validate_challenge (i : Z) (c : Challenge) : checked unit :=
  let base := index_path (field "challenges") i in
  let tf := member_path base (field "targets") in
  guard? (1 <=? length (Targets c))%nat && (length (Targets c) <=? maxTargets)%nat else FieldError tf in
  let? _ := check_targets tf 0 [] (Targets c) in
  let? _ := checkArgument (member_path base (field "argument")) (ch_Argument c) in
  validateEvidence (member_path base (field "evidence")) (ch_Evidence c) maxChallengeEv.
Definition ValidateMove (m : Move) : checked unit :=
  guard? (length (Challenges m) <=? maxChallenges)%nat else FieldError (field "challenges") in
  let? _ := each validate_challenge 0 (Challenges m) in
  match Revision m with Some p => validatePosition (field "revision") p | None => Ok tt end.

Definition CheckTargets (m : Move) (other : Position) : checked unit :=
  each (λ i c, each (λ j s,
    let f := index_path (member_path (index_path (field "challenges") i) (field "targets")) j in
    match ParseTarget s with
    | Err _ => Err (FieldError f)
    | Ok t => guard? ExistsIn t other else FieldError f in Ok tt
    end) 0 (Targets c)) 0 (Challenges m).

Definition validateDisagreements (ds : list Disagreement) : checked unit :=
  let f := field "remaining_disagreement" in
  guard? (length ds <=? maxDisagreement)%nat else FieldError f in
  each (λ i d,
    let b := index_path f i in
    let? _ := checkLine (member_path b (field "point")) (Point d) maxLine in
    let? _ := checkLine (member_path b (field "initiator")) (Initiator d) maxLine in
    checkLine (member_path b (field "respondent")) (Respondent d) maxLine) 0 ds.

Definition check_artifact_member (base : bytes) (name : string) (v : bytes) : checked unit :=
  when_set v
    (let f := member_path base (bytes_of name) in
     guard? negb (badDebateText v []) else FieldError f in checkTrimmed f v).
Definition checkArtifactText (base : bytes) (a : Artifact) : checked unit :=
  let? _ := check_artifact_member base "url" (URL a) in
  let? _ := check_artifact_member base "branch" (Branch a) in
  let? _ := check_artifact_member base "commit" (Commit a) in
  check_artifact_member base "path" (Path a).

Definition ValidateProposal (p : Proposal) : checked unit :=
  let ag := prop_Agreement p in
  let? _ := checkLine (field "agreement.decision") (Decision_ ag) maxLine in
  guard? (length (Points ag) <=? maxPoints)%nat else FieldError (field "agreement.points") in
  let? _ := each (λ i pt, checkLine (index_path (field "agreement.points") i) pt maxLine) 0 (Points ag) in
  let? _ := when_set (ag_Argument ag) (checkArgument (field "agreement.argument") (ag_Argument ag)) in
  let? _ := validateDisagreements (prop_Remaining p) in
  guard? (length (AffectedArtifacts p) <=? maxArtifacts)%nat else FieldError (field "affected_artifacts") in
  each (λ i a,
    let? _ := validateArtifact (field "affected_artifacts") i a in
    checkArtifactText (index_path (field "affected_artifacts") i) a) 0 (AffectedArtifacts p).
Definition ValidateAnswer (a : Answer) : checked unit :=
  let? _ := validateDisagreements (ans_Remaining a) in
  when_set (ans_Argument a) (checkArgument (field "argument") (ans_Argument a)).
Definition Validate (e : Entry) : checked unit :=
  match e with
  | EPosition p => ValidatePosition p
  | EMove m => ValidateMove m
  | EProposal p => ValidateProposal p
  | EAnswer a => ValidateAnswer a
  end.

(** ** The canonical form (canonical.go) *)

Definition stringsValue (l : list bytes) : value := VArray (map VString l).
(** A list member written only when it has items. *)
Definition opt_list {A} (k : string) (f : list A → value) (l : list A) : body := match l with [] => [] | _ => [(bytes_of k, f l)] end.
Definition evidence_value (e : Evidence) : value :=
  VObject ((bytes_of "kind", VString (ev_Kind e)) :: (bytes_of "ref", VString (Ref e)) :: opt_member "note" (ev_Note e)).
Definition evidenceValue (l : list Evidence) : value := VArray (map evidence_value l).
Definition alternative_value (a : Alternative) : value :=
  VObject [(bytes_of "option", VString (Option_ a)); (bytes_of "reason", VString (Reason a))].
Definition disagreement_value (d : Disagreement) : value :=
  VObject [(bytes_of "point", VString (Point d)); (bytes_of "initiator", VString (Initiator d)); (bytes_of "respondent", VString (Respondent d))].
Definition disagreementsValue (l : list Disagreement) : value := VArray (map disagreement_value l).

Definition position_value (p : Position) : body :=
  (bytes_of "claim", VString (Claim p)) :: (bytes_of "argument", VString (Argument p)) ::
  opt_list "assumptions" stringsValue (Assumptions p) ++ opt_list "evidence" evidenceValue (pos_Evidence p) ++
  opt_list "rejected_alternatives" (λ l, VArray (map alternative_value l)) (RejectedAlternatives p).
Definition challenge_value (c : Challenge) : value :=
  VObject ((bytes_of "targets", stringsValue (Targets c)) :: (bytes_of "argument", VString (ch_Argument c)) ::
           opt_list "evidence" evidenceValue (ch_Evidence c)).
Definition move_value (m : Move) : body :=
  (bytes_of "challenges", VArray (map challenge_value (Challenges m))) ::
  match Revision m with Some p => [(bytes_of "revision", VObject (position_value p))] | None => [] end.
Definition agreement_value (a : Agreement) : body :=
  (bytes_of "decision", VString (Decision_ a)) :: opt_list "points" stringsValue (Points a) ++ opt_member "argument" (ag_Argument a).
Definition proposal_value (p : Proposal) : body :=
  (bytes_of "agreement", VObject (agreement_value (prop_Agreement p))) ::
  opt_list "remaining_disagreement" disagreementsValue (prop_Remaining p) ++
  opt_list "affected_artifacts" (λ l, VArray (artifactsToValue l)) (AffectedArtifacts p).
Definition answer_value (a : Answer) : body :=
  (bytes_of "accept", VBool (Accept a)) :: opt_list "remaining_disagreement" disagreementsValue (ans_Remaining a) ++
  opt_member "argument" (ans_Argument a).
Definition entry_value (e : Entry) : body :=
  match e with
  | EPosition p => position_value p
  | EMove m => move_value m
  | EProposal p => proposal_value p
  | EAnswer a => answer_value a
  end.
Definition Canonical (e : Entry) : checked bytes := canonicalMap (entry_value e).
Definition CheckSize (canon : bytes) : checked unit :=
  let n := Z.of_nat (length canon) in
  guard? negb (MaxDebateEntry <? n) else TooLargeError n in Ok tt.

(** ** Decode (decode.go) *)

Definition typeErr {A} (f : bytes) : checked A := Err (FieldError (match f with [] => bytes_of "entry" | _ => f end)).
Definition object (f : bytes) (v : option value) (required optional : list string) : checked body :=
  match v with
  | Some (VObject m) =>
      let? _ := match List.find (λ p, negb (bool_decide (p.1 ∈ map bytes_of (required ++ optional)))) m with
                | Some p => Err (FieldError (member_path f p.1))
                | None => Ok tt
                end in
      let? _ := match List.find (λ k, bool_decide (member (bytes_of k) m = None)) required with
                | Some k => Err (FieldError (member_path f (bytes_of k)))
                | None => Ok tt
                end in
      Ok m
  | _ => typeErr f
  end.
Definition array (f : bytes) (v : option value) (optional : bool) : checked (list value) :=
  match v with
  | Some (VArray l) => guard? negb (optional && bool_decide (l = [])) else FieldError f in Ok l
  | _ => typeErr f
  end.
Definition str (f : bytes) (v : option value) : checked bytes :=
  match v with Some (VString s) => Ok s | _ => typeErr f end.
Definition nonEmpty (f : bytes) (v : option value) : checked bytes :=
  let? s := str f v in guard? negb (bool_decide (s = [])) else FieldError f in Ok s.

(** Every item of a list, decoded with its index. *)
Fixpoint map_each {A B} (f : Z → A → checked B) (i : Z) (l : list A) : checked (list B) :=
  match l with
  | [] => Ok []
  | a :: l => let? b := f i a in let? bs := map_each f (i + 1) l in Ok (b :: bs)
  end.
(** An optional member, decoded when it is present. *)
Definition when_member {A} (m : body) (k : string) (none : A) (f : option value → checked A) : checked A :=
  match member (bytes_of k) m with Some v => f (Some v) | None => Ok none end.

Definition strList (f : bytes) (v : option value) (optional : bool) : checked (list bytes) :=
  let? l := array f v optional in
  map_each (λ i x, str (index_path f i) (Some x)) 0 l.

Definition decode_evidence (f : bytes) (i : Z) (x : value) : checked Evidence :=
  let fi := index_path f i in
  let? o := object fi (Some x) ["kind"; "ref"]%string ["note"]%string in
  let? k := str (member_path fi (field "kind")) (member (bytes_of "kind") o) in
  let? r := str (member_path fi (field "ref")) (member (bytes_of "ref") o) in
  let? n := when_member o "note" [] (nonEmpty (member_path fi (field "note"))) in
  Ok (MkEvidence k r n).
Definition decodeEvidence (f : bytes) (v : option value) : checked (list Evidence) :=
  let? l := array f v true in map_each (decode_evidence f) 0 l.
Definition decode_disagreement (f : bytes) (i : Z) (x : value) : checked Disagreement :=
  let fi := index_path f i in
  let? o := object fi (Some x) ["point"; "initiator"; "respondent"]%string [] in
  let? p := str (member_path fi (field "point")) (member (bytes_of "point") o) in
  let? a := str (member_path fi (field "initiator")) (member (bytes_of "initiator") o) in
  let? b := str (member_path fi (field "respondent")) (member (bytes_of "respondent") o) in
  Ok (MkDisagreement p a b).
Definition decodeDisagreements (v : option value) : checked (list Disagreement) :=
  let f := field "remaining_disagreement" in
  let? l := array f v true in map_each (decode_disagreement f) 0 l.

(** No member of an artifact is the empty string. *)
Definition is_empty_text (v : value) : bool := match v with VString [] => true | _ => false end.
Definition refuse_empty (f : bytes) (i : Z) (x : value) : checked unit :=
  match x with
  | VObject m => match List.find (λ p : bytes * value, is_empty_text p.2) m return checked unit with
                 | Some p => Err (FieldError (member_path (index_path f i) p.1))
                 | None => Ok tt
                 end
  | _ => Ok tt
  end.
Definition decodeArtifacts (v : option value) : checked (list Artifact) :=
  let f := field "affected_artifacts" in
  let? l := array f v true in
  let? _ := each (refuse_empty f) 0 l in
  decodeArtifactsAt f (Some (VArray l)).

Definition decode_alternative (f : bytes) (i : Z) (x : value) : checked Alternative :=
  let fi := index_path f i in
  let? o := object fi (Some x) ["option"; "reason"]%string [] in
  let? a := str (member_path fi (field "option")) (member (bytes_of "option") o) in
  let? b := str (member_path fi (field "reason")) (member (bytes_of "reason") o) in
  Ok (MkAlternative a b).
Definition decodePosition (base : bytes) (v : option value) : checked Position :=
  let? o := object base v ["claim"; "argument"]%string ["assumptions"; "evidence"; "rejected_alternatives"]%string in
  let? claim := str (member_path base (field "claim")) (member (bytes_of "claim") o) in
  let? argument := str (member_path base (field "argument")) (member (bytes_of "argument") o) in
  let? assumptions := when_member o "assumptions" [] (λ v, strList (member_path base (field "assumptions")) v true) in
  let? evidence := when_member o "evidence" [] (decodeEvidence (member_path base (field "evidence"))) in
  let? rejected := when_member o "rejected_alternatives" []
                     (λ v, let f := member_path base (field "rejected_alternatives") in
                           let? l := array f v true in map_each (decode_alternative f) 0 l) in
  Ok (MkPosition claim assumptions evidence rejected argument).
Definition DecodePosition (v : option value) : checked Position :=
  let? p := decodePosition [] v in let? _ := ValidatePosition p in Ok p.

Definition decode_challenge (i : Z) (x : value) : checked Challenge :=
  let base := index_path (field "challenges") i in
  let? o := object base (Some x) ["targets"; "argument"]%string ["evidence"]%string in
  let? targets := strList (member_path base (field "targets")) (member (bytes_of "targets") o) false in
  let? argument := str (member_path base (field "argument")) (member (bytes_of "argument") o) in
  let? evidence := when_member o "evidence" [] (decodeEvidence (member_path base (field "evidence"))) in
  Ok (MkChallenge targets argument evidence).
Definition DecodeMove (v : option value) : checked Move :=
  let? o := object [] v ["challenges"]%string ["revision"]%string in
  let? l := array (field "challenges") (member (bytes_of "challenges") o) false in
  let? challenges := map_each decode_challenge 0 l in
  let? revision := when_member o "revision" None (λ v, let? p := decodePosition (field "revision") v in Ok (Some p)) in
  let m := MkMove challenges revision in
  let? _ := ValidateMove m in Ok m.
Definition DecodeProposal (v : option value) : checked Proposal :=
  let? o := object [] v ["agreement"]%string ["remaining_disagreement"; "affected_artifacts"]%string in
  let? ao := object (field "agreement") (member (bytes_of "agreement") o) ["decision"]%string ["points"; "argument"]%string in
  let? decision := str (field "agreement.decision") (member (bytes_of "decision") ao) in
  let? points := when_member ao "points" [] (λ v, strList (field "agreement.points") v true) in
  let? argument := when_member ao "argument" [] (nonEmpty (field "agreement.argument")) in
  let? remaining := when_member o "remaining_disagreement" [] decodeDisagreements in
  let? artifacts := when_member o "affected_artifacts" [] decodeArtifacts in
  let p := MkProposal (MkAgreement decision points argument) remaining artifacts in
  let? _ := ValidateProposal p in Ok p.
Definition DecodeAnswer (v : option value) : checked Answer :=
  let? o := object [] v ["accept"]%string ["remaining_disagreement"; "argument"]%string in
  let? accept := match member (bytes_of "accept") o with Some (VBool b) => Ok b | _ => typeErr (field "accept") end in
  let? remaining := when_member o "remaining_disagreement" [] decodeDisagreements in
  let? argument := when_member o "argument" [] (nonEmpty (field "argument")) in
  let a := MkAnswer accept remaining argument in
  let? _ := ValidateAnswer a in Ok a.

Definition decode_kind (k : entry_kind) (v : option value) : checked Entry :=
  match k with
  | KindPosition => let? p := DecodePosition v in Ok (EPosition p)
  | KindMove => let? m := DecodeMove v in Ok (EMove m)
  | KindProposal => let? p := DecodeProposal v in Ok (EProposal p)
  | KindAnswer => let? a := DecodeAnswer v in Ok (EAnswer a)
  end.
Definition DecodeEntry (k : entry_kind) (v : option value) : checked (Entry * bytes) :=
  let? e := decode_kind k v in
  let? canon := Canonical e in
  let? _ := CheckSize canon in
  Ok (e, canon).
Definition ParseEntry (k : entry_kind) (data : bytes) : checked Entry :=
  match ParseStrict data with
  | Err _ => Err (FieldError (field "entry"))
  | Ok v =>
      let? p := DecodeEntry k (Some v) in
      guard? bool_decide (p.2 = data) else ErrNotCanonical in Ok p.1
  end.

(** ** The commitment (commit.go) *)

Definition ValidNonce (s : bytes) : bool := (length s =? 64)%nat && forallb is_lower_hex s.
(** SHA-256 of the preimage, in hex: [sha256] is a parameter. *)
Definition commit_preimage (sid a nonce position : bytes) : bytes :=
  bytes_of "dorylinae-debate-commit-v1" ++ [0x0A] ++ sid ++ [0x0A] ++ a ++ [0x0A] ++ nonce ++ [0x0A] ++ position.
Definition Commitment (sha256 : bytes → bytes) (sid a nonce position : bytes) : bytes := hex_encode (sha256 (commit_preimage sid a nonce position)).

(** ** Lemmas: reading the members of a canonical object *)

(** [v] is an object with the members of [m], their values normalised, in
    some order. *)
Definition reads (v : value) (m : body) : Prop :=
  ∃ m', v = VObject m' ∧ map fst m' ≡ₚ map fst m ∧ ∀ k, member k m' = option_map norm (member k m).

Lemma norm_reads m : NoDup (map fst m) → reads (norm (VObject m)) m.
Proof.
  intros Hd. rewrite norm_object. eexists. split; [done|]. split.
  - rewrite map_map. cbn [fst]. by rewrite sort_keys_perm.
  - intros k. rewrite member_map. f_equal. apply member_perm; [by rewrite sort_keys_perm|by rewrite sort_keys_perm].
Qed.

Lemma object_reads f v m ks required optional :
  reads v m → ks = map bytes_of (required ++ optional) → map fst m `sublist_of` ks →
  forallb (λ k, bool_decide (is_Some (member (bytes_of k) m))) required = true →
  ∃ m', object f (Some v) required optional = Ok m' ∧ ∀ k, member k m' = option_map norm (member k m).
Proof.
  intros (m' & -> & Hp & Hm) -> Hs Hr. exists m'. split; [|done]. unfold object.
  destruct (List.find _ m') as [q|] eqn:E.
  { exfalso. apply List.find_some in E as [Hin Hq]. apply negb_true_iff, bool_decide_eq_false in Hq. apply Hq.
    eapply elem_of_sublist; [|exact Hs]. rewrite <- Hp. apply elem_of_map_list. exists q. split; [done|]. by apply list_elem_of_In. }
  cbn [rbind]. destruct (List.find _ required) as [k|] eqn:E'; [|done].
  exfalso. apply List.find_some in E' as [Hin Hk]. apply bool_decide_eq_true in Hk. rewrite Hm in Hk.
  rewrite forallb_forall in Hr. specialize (Hr k Hin). apply bool_decide_eq_true in Hr as [x Hx]. by rewrite Hx in Hk.
Qed.

Lemma opt_list_keys {A} k (f : list A → value) l : map fst (opt_list k f l) `sublist_of` [bytes_of k].
Proof. unfold opt_list. destruct l; cbn; [constructor; constructor|done]. Qed.
Lemma member_opt_list {A} k (n : string) (f : list A → value) l : member k (opt_list n f l) =
  if bool_decide (bytes_of n = k) then match l with [] => None | _ => Some (f l) end else None.
Proof. unfold opt_list. destruct l; [by case_bool_decide|]. done. Qed.
Lemma wf_opt_list {A} k (f : list A → value) l : (l ≠ [] → wf (f l) = true) → forallb (λ p, wf p.2) (opt_list k f l) = true.
Proof. unfold opt_list. destruct l; [done|]. intros H. cbn [forallb snd]. by rewrite H. Qed.

Lemma sub_more (k : bytes) (xs ys ks : list bytes) : xs `sublist_of` [k] → ys `sublist_of` ks → (xs ++ ys) `sublist_of` (k :: ks).
Proof. intros. change (k :: ks) with ([k] ++ ks). by apply sublist_app. Qed.
Ltac sub_keys := cbn [map fst app]; rewrite ?map_app;
  repeat (apply sublist_skip);
  repeat (apply sub_more; [first [apply opt_list_keys | apply opt_member_keys]|]);
  first [apply opt_list_keys | apply opt_member_keys | reflexivity | apply sublist_nil_l].
Ltac members := repeat (progress (member_step; rewrite ?member_opt_list)).

Lemma evidence_keys e : map fst ((bytes_of "kind", VString (ev_Kind e)) :: (bytes_of "ref", VString (Ref e)) :: opt_member "note" (ev_Note e))
  `sublist_of` map bytes_of ["kind"; "ref"; "note"]%string.
Proof. sub_keys. Qed.
Lemma position_keys p : map fst (position_value p) `sublist_of`
  map bytes_of ["claim"; "argument"; "assumptions"; "evidence"; "rejected_alternatives"]%string.
Proof. unfold position_value. sub_keys. Qed.

Lemma NoDup_known (m : body) ks : map fst m `sublist_of` ks → bool_decide (NoDup ks) = true → NoDup (map fst m).
Proof. intros Hs Hd%bool_decide_eq_true. by eapply sublist_NoDup. Qed.

(** An object with distinct known keys, decoded from its canonical form. *)
Lemma object_norm f m required optional :
  map fst m `sublist_of` map bytes_of (required ++ optional) → bool_decide (NoDup (map bytes_of (required ++ optional))) = true →
  forallb (λ k, bool_decide (is_Some (member (bytes_of k) m))) required = true →
  ∃ m', object f (Some (norm (VObject m))) required optional = Ok m' ∧ ∀ k, member k m' = option_map norm (member k m).
Proof. intros Hs Hd Hr. eapply object_reads; eauto using norm_reads, NoDup_known. Qed.

Lemma map_each_norm {A} (f : Z → value → checked A) (g : A → value) l i :
  (∀ j a, f j (norm (g a)) = Ok a) → map_each f i (map norm (map g l)) = Ok l.
Proof. intros Hf. revert i. induction l as [|a l IH]; intros i; [done|]. cbn [map map_each]. by rewrite Hf, IH. Qed.

Lemma array_norm f l optional : (optional = true → l ≠ []) → array f (Some (norm (VArray l))) optional = Ok (map norm l).
Proof.
  intros Hl. unfold array. cbn [norm]. destruct optional; [|done]. destruct l; [by destruct (Hl eq_refl)|done].
Qed.

Lemma strList_norm f l optional : (optional = true → l ≠ []) → strList f (Some (norm (stringsValue l))) optional = Ok l.
Proof.
  intros Hl. unfold strList, stringsValue. rewrite array_norm by (intros H ->%map_eq_nil; by apply Hl).
  by apply map_each_norm.
Qed.

Lemma when_list {A} m k (F : list A → value) l (dec : option value → checked (list A)) :
  member (bytes_of k) m = option_map norm match l with [] => None | _ => Some (F l) end →
  (l ≠ [] → dec (Some (norm (F l))) = Ok l) → when_member m k [] dec = Ok l.
Proof. intros Hm Hd. unfold when_member. rewrite Hm. destruct l; [done|]. by apply Hd. Qed.
Lemma when_text m k f s :
  member (bytes_of k) m = option_map norm match s with [] => None | _ => Some (VString s) end →
  when_member m k [] (nonEmpty f) = Ok s.
Proof. intros Hm. unfold when_member. rewrite Hm. by destruct s. Qed.

(** One decoded member after another. *)
Ltac read_object :=
  match goal with |- context [object ?f (Some (norm (VObject ?m))) ?r ?o] =>
    let m' := fresh "m" in let Ho := fresh in let Hm := fresh "Hm" in
    destruct (object_norm f m r o) as (m' & Ho & Hm);
    [first [done | sub_keys] | reflexivity | cbn [forallb]; members; reflexivity | rewrite Ho; cbn [rbind]; clear Ho]
  end.
Ltac read_member Hm := rewrite Hm; members; cbn [option_map norm str rbind].
Ltac read_text Hm := erewrite when_text by (rewrite Hm; members; reflexivity); cbn [rbind].

Lemma decode_norm_evidence f i e : decode_evidence f i (norm (evidence_value e)) = Ok e.
Proof.
  unfold decode_evidence, evidence_value. cbv zeta. read_object. read_member Hm. read_member Hm. read_text Hm. by destruct e.
Qed.
Lemma decodeEvidence_norm f l : l ≠ [] → decodeEvidence f (Some (norm (evidenceValue l))) = Ok l.
Proof.
  intros Hl. unfold decodeEvidence, evidenceValue. rewrite array_norm by (intros _ ->%map_eq_nil; done). cbn [rbind].
  apply map_each_norm. intros. apply decode_norm_evidence.
Qed.
Lemma decode_norm_disagreement f i d : decode_disagreement f i (norm (disagreement_value d)) = Ok d.
Proof.
  unfold decode_disagreement, disagreement_value. cbv zeta. read_object. do 3 read_member Hm. by destruct d.
Qed.
Lemma decodeDisagreements_norm l : l ≠ [] → decodeDisagreements (Some (norm (disagreementsValue l))) = Ok l.
Proof.
  intros Hl. unfold decodeDisagreements, disagreementsValue. cbv zeta. rewrite array_norm by (intros _ ->%map_eq_nil; done). cbn [rbind].
  apply map_each_norm. intros. apply decode_norm_disagreement.
Qed.
Lemma decode_norm_alternative f i a : decode_alternative f i (norm (alternative_value a)) = Ok a.
Proof. unfold decode_alternative, alternative_value. cbv zeta. read_object. do 2 read_member Hm. by destruct a. Qed.

Lemma each_ok {A} (f : Z → A → checked unit) l i : (∀ j a, a ∈ l → f j a = Ok tt) → each f i l = Ok tt.
Proof.
  revert i. induction l as [|a l IH]; intros i Hf; [done|]. cbn [each]. rewrite Hf by (by left). cbn [rbind].
  apply IH. intros j b Hb. apply Hf. by right.
Qed.
Lemma each_inv {A} (f : Z → A → checked unit) l i : each f i l = Ok tt → Forall (λ a, ∃ j, f j a = Ok tt) l.
Proof.
  revert i. induction l as [|a l IH]; intros i H; [constructor|]. cbn [each] in H. apply rbind_ok_tt in H as [Ha H].
  constructor; [by exists i|by eapply IH].
Qed.

Lemma refuse_norm_artifact f i a : refuse_empty f i (norm (artifact_value a)) = Ok tt.
Proof.
  destruct a as [u b c p]. unfold artifact_value. cbn [URL Branch Commit Path].
  destruct u as [|u0 u], b as [|b0 b], c as [|c0 c], p as [|p0 p]; vm_compute; reflexivity.
Qed.
Lemma decodeArtifacts_norm l : l ≠ [] → decodeArtifacts (Some (norm (VArray (artifactsToValue l)))) = Ok l.
Proof.
  intros Hl. unfold decodeArtifacts. cbv zeta. rewrite array_norm by (intros _ ->%map_eq_nil; done). cbn [rbind].
  rewrite each_ok.
  - cbn [rbind decodeArtifactsAt]. apply decode_norm_artifacts.
  - intros j x (y & -> & (a & -> & _)%elem_of_map_list)%elem_of_map_list. apply refuse_norm_artifact.
Qed.

Ltac read_list Hm F l lem := rewrite (when_list _ _ F l) by
  first [rewrite Hm; members; destruct l; reflexivity | intros ?; apply lem; done]; cbn [rbind].

Lemma decodePosition_norm b p : decodePosition b (Some (norm (VObject (position_value p)))) = Ok p.
Proof.
  unfold decodePosition, position_value. read_object. do 2 read_member Hm.
  read_list Hm stringsValue (Assumptions p) strList_norm. read_list Hm evidenceValue (pos_Evidence p) decodeEvidence_norm.
  erewrite (when_list _ _ (λ l, VArray (map alternative_value l)) (RejectedAlternatives p)).
  - cbn [rbind]. by destruct p.
  - rewrite Hm. members. by destruct (RejectedAlternatives p).
  - intros Hl. cbv zeta. rewrite array_norm by (intros _ E%map_eq_nil; done). cbn [rbind].
    apply map_each_norm. intros. apply decode_norm_alternative.
Qed.
Lemma decode_norm_challenge i c : decode_challenge i (norm (challenge_value c)) = Ok c.
Proof.
  unfold decode_challenge, challenge_value. cbv zeta. read_object. rewrite Hm. members. cbn [option_map].
  rewrite strList_norm by done. cbn [rbind]. read_member Hm. read_list Hm evidenceValue (ch_Evidence c) decodeEvidence_norm. by destruct c.
Qed.

(** The decoder of a kind without its checks. *)
Definition validated {A} (c : A → checked unit) (a : A) : checked A := let? _ := c a in Ok a.

Lemma DecodeMove_norm m : DecodeMove (Some (norm (VObject (move_value m)))) = validated ValidateMove m.
Proof.
  unfold DecodeMove, move_value. destruct m as [cs rev]. cbn [Challenges Revision].
  destruct rev as [p|]; cbv iota; read_object; rewrite Hm; members; cbn [option_map]; rewrite array_norm by done; cbn [rbind];
    rewrite (map_each_norm _ challenge_value cs) by (intros; apply decode_norm_challenge); cbn [rbind];
    unfold when_member; rewrite Hm; members; cbn [option_map]; [|done].
  by rewrite decodePosition_norm.
Qed.

Lemma DecodeProposal_norm p : DecodeProposal (Some (norm (VObject (proposal_value p)))) = validated ValidateProposal p.
Proof.
  unfold DecodeProposal, proposal_value, agreement_value. destruct p as [[d pts arg] rs as_].
  cbn [prop_Agreement Decision_ Points ag_Argument prop_Remaining AffectedArtifacts].
  read_object. rewrite Hm. members. cbn [option_map]. read_object. read_member Hm0.
  read_list Hm0 stringsValue pts strList_norm. read_text Hm0. read_list Hm disagreementsValue rs decodeDisagreements_norm.
  rewrite (when_list _ _ (λ l, VArray (artifactsToValue l)) as_); [done|..].
  - rewrite Hm. members. by destruct rs, as_.
  - intros Hl. by apply decodeArtifacts_norm.
Qed.

Lemma DecodeAnswer_norm a : DecodeAnswer (Some (norm (VObject (answer_value a)))) = validated ValidateAnswer a.
Proof.
  unfold DecodeAnswer, answer_value. destruct a as [b rs arg]. cbn [Accept ans_Remaining ans_Argument].
  read_object. read_member Hm. read_list Hm disagreementsValue rs decodeDisagreements_norm.
  erewrite when_text; [done|]. rewrite Hm. members. by destruct rs.
Qed.

Lemma decode_kind_norm e : decode_kind (Kind e) (Some (norm (VObject (entry_value e)))) = validated Validate e.
Proof.
  unfold validated. destruct e as [p|m|p|a]; cbn [decode_kind Kind entry_value Validate].
  - unfold DecodePosition. rewrite decodePosition_norm. cbn [rbind]. by destruct (ValidatePosition p).
  - rewrite DecodeMove_norm. unfold validated. by destruct (ValidateMove m).
  - rewrite DecodeProposal_norm. unfold validated. by destruct (ValidateProposal p).
  - rewrite DecodeAnswer_norm. unfold validated. by destruct (ValidateAnswer a).
Qed.

(** ** Lemmas: targets *)

Definition target_ok (t : Target) : bool :=
  match tg_Member t with
  | TClaim | TArgument => Index t =? -1
  | TAssumptions | TEvidence => in_range 0 9 (Index t)
  | TRejected => in_range 0 4 (Index t)
  end.

Lemma Itoa_two a b : 0x31 ≤ a ≤ 0x39 → 0x30 ≤ b ≤ 0x39 → Itoa (digits_val [a; b]) = [a; b].
Proof.
  intros Ha Hb. unfold digits_val. cbn [fold_left]. unfold Itoa. rewrite (proj2 (Z.ltb_ge _ _)) by lia.
  set (n := (0 * 10 + (a - 48)) * 10 + (b - 48)).
  assert (n / 10 = a - 48) as Hd by (unfold n; symmetry; apply (Z.div_unique _ _ _ (b - 48)); lia).
  assert (n mod 10 = b - 48) as Hm by (unfold n; symmetry; apply (Z.mod_unique _ _ (a - 48)); lia).
  cbn [digits_of]. rewrite (proj2 (Z.ltb_ge _ _)) by (unfold n; lia). rewrite Hd, Hm, (proj2 (Z.ltb_lt _ _)) by lia.
  cbn [app]. repeat f_equal; lia.
Qed.

Lemma cut_slash_some s a b : cut_slash s = Some (a, b) → s = a ++ [0x2F] ++ b.
Proof.
  revert a. induction s as [|c s IH]; [done|]. intros a. cbn [cut_slash]. destruct (c =? 0x2F) eqn:E.
  - bprop. subst. by intros [= <- <-].
  - destruct (cut_slash s) as [[x y]|]; [|done]. intros [= <- <-]. by rewrite (IH x).
Qed.

(** A target parses exactly when it is the text of a target in range. *)
Lemma ParseTarget_inv s t : ParseTarget s = Ok t → s = target_string t ∧ target_ok t = true.
Proof.
  unfold ParseTarget. case_bool_decide as H1; [intros [= <-]; by subst|]. case_bool_decide as H2; [intros [= <-]; by subst|].
  destruct (cut_slash s) as [[name digits]|] eqn:E; [|done]. apply cut_slash_some in E.
  destruct (List.find _ indexed) as [[m limit]|] eqn:Ef; [|done]. intros H.
  apply List.find_some in Ef as [Hin Hn]. cbn [fst] in Hn. apply bool_decide_eq_true in Hn.
  apply guard_ok in H as [Hg H]. apply guard_ok in H as [Hd H]. apply guard_ok in H as [Hl [= <-]].
  unfold target_string, target_ok. cbn [tg_Member Index].
  assert (Itoa (digits_val digits) = digits ∧ 0 ≤ digits_val digits) as [Hi Hpos].
  { clear -Hg Hd. destruct digits as [|a [|b [|]]]; cbn -[digits_val Itoa] in *; bprop; try done; unfold is_digit in *; bprop; rewrite ?in_range_spec in *.
    - assert (0x30 ≤ a ≤ 0x39) as Ha by lia. unfold digits_val. cbn [fold_left]. split; [|lia].
      unfold Itoa. rewrite (proj2 (Z.ltb_ge _ _)) by lia. cbn [digits_of]. rewrite (proj2 (Z.ltb_lt _ _)) by lia. f_equal. lia.
    - assert (a ≠ 0x30) by congruence. split; [apply Itoa_two; lia|]. unfold digits_val. cbn [fold_left]. lia. }
  rewrite (proj2 (Z.ltb_ge _ _)) by lia. rewrite Hi, Hn. split; [done|]. bprop.
  cbn in Hin. destruct Hin as [[= <- <-]|[[= <- <-]|[[= <- <-]|[]]]]; unfold maxAssumptions, maxEvidence, maxRejected in *; cbn -[digits_val Z.of_nat]; apply in_range_spec; lia.
Qed.

(** The targets in range are few: both lemmas below are checked on each. *)
Definition all_targets : list Target :=
  [MkTarget TClaim (-1); MkTarget TArgument (-1)] ++ map (MkTarget TAssumptions) (seqZ 0 10) ++
  map (MkTarget TEvidence) (seqZ 0 10) ++ map (MkTarget TRejected) (seqZ 0 5).

Lemma target_ok_all t : target_ok t = true → t ∈ all_targets.
Proof.
  destruct t as [m i]. unfold target_ok, all_targets. cbn [tg_Member Index]. intros H.
  rewrite !elem_of_app, !elem_of_map_list, !elem_of_cons, elem_of_nil. setoid_rewrite elem_of_seqZ.
  destruct m; bprop; rewrite ?in_range_spec in *; subst; [naive_solver..| | |].
  - right. left. exists i. split; [done|lia].
  - right. right. left. exists i. split; [done|lia].
  - do 3 right. exists i. split; [done|lia].
Qed.

Lemma ParseTarget_string t : target_ok t = true → ParseTarget (target_string t) = Ok t.
Proof.
  intros Ht%target_ok_all. revert t Ht. apply Forall_forall. unfold all_targets.
  repeat (constructor; [vm_compute; reflexivity|]). constructor.
Qed.

Lemma valid_target s t : ParseTarget s = Ok t → valid_utf8 s = true.
Proof.
  intros [-> Hok]%ParseTarget_inv. apply target_ok_all in Hok. revert t Hok. apply Forall_forall. unfold all_targets.
  repeat (constructor; [vm_compute; reflexivity|]). constructor.
Qed.

(** ** Lemmas: a validated entry has a canonical form *)

Lemma checkLine_valid f s n : checkLine f s n = Ok tt → valid_utf8 s = true.
Proof. unfold checkLine. by intros [? _]%guard_ok. Qed.
Lemma checkArgument_valid f s : checkArgument f s = Ok tt → valid_utf8 s = true.
Proof. unfold checkArgument. by intros [? _]%guard_ok. Qed.

Lemma wf_strings l : Forall (λ s, valid_utf8 s = true) l → wf (stringsValue l) = true.
Proof. rewrite Forall_forall. intros H. apply wf_array. intros x (s & -> & Hs)%elem_of_map_list. by apply H. Qed.
Lemma wf_values {A} (g : A → value) l : Forall (λ a, wf (g a) = true) l → wf (VArray (map g l)) = true.
Proof. rewrite Forall_forall. intros H. apply wf_array. intros x (s & -> & Hs)%elem_of_map_list. by apply H. Qed.

(** The checks of every item, read off the walk over the list. *)
Lemma each_Forall {A} (f : Z → A → checked unit) (P : A → Prop) l i :
  each f i l = Ok tt → (∀ j a, f j a = Ok tt → P a) → Forall P l.
Proof. intros H%each_inv Hf. eapply Forall_impl; [exact H|]. intros a [j Hj]. by eapply Hf. Qed.

Ltac by_keys ks := apply (known_keys (map bytes_of ks)); [first [done | sub_keys]|vm_compute; reflexivity|vm_compute; reflexivity|];
  cbn [forallb snd app]; rewrite ?forallb_app, ?andb_true_iff.

Lemma wf_evidence f l n : validateEvidence f l n = Ok tt → wf (evidenceValue l) = true.
Proof.
  unfold validateEvidence. intros [_ H]%guard_ok. apply wf_values. eapply each_Forall; [exact H|].
  cbv beta zeta. intros j e He. apply guard_ok in He as [Hk He]. apply rbind_ok_tt in He as [Hr%checkLine_valid Hn].
  unfold evidence_value. by_keys ["kind"; "ref"; "note"]%string. split_and!; [|done|].
  - apply bool_decide_eq_true in Hk. revert Hk. generalize (ev_Kind e). apply Forall_forall.
    unfold evidenceKinds. cbn [map]. repeat (constructor; [vm_compute; reflexivity|]). constructor.
  - apply wf_opt_member. apply when_set_ok in Hn as [->|Hn%checkLine_valid]; done.
Qed.

Lemma wf_position f p : validatePosition f p = Ok tt → wf (VObject (position_value p)) = true.
Proof.
  unfold validatePosition. cbv zeta. intros H. apply rbind_ok_tt in H as [Hc%checkLine_valid H]. apply guard_ok in H as [_ H].
  apply rbind_ok_tt in H as [Ha H]. apply rbind_ok_tt in H as [He H]. apply guard_ok in H as [_ H].
  apply rbind_ok_tt in H as [Hr Harg%checkArgument_valid].
  unfold position_value. by_keys ["claim"; "argument"; "assumptions"; "evidence"; "rejected_alternatives"]%string.
  split_and!; [done|done|apply wf_opt_list; intros _..].
  - apply wf_strings. eapply each_Forall; [exact Ha|]. intros j a. apply checkLine_valid.
  - by eapply wf_evidence.
  - apply wf_values. eapply each_Forall; [exact Hr|]. cbv beta. intros j a Hj.
    apply rbind_ok_tt in Hj as [Ho%checkLine_valid Hj%checkLine_valid].
    unfold alternative_value. by_keys ["option"; "reason"]%string. done.
Qed.

Lemma check_targets_valid tf i seen l : check_targets tf i seen l = Ok tt → Forall (λ s, valid_utf8 s = true) l.
Proof.
  revert i seen. induction l as [|s l IH]; intros i seen H; [constructor|]. cbn [check_targets] in H.
  destruct (ParseTarget s) as [t|] eqn:E; [|done]. apply guard_ok in H as [_ H].
  constructor; [by eapply valid_target|by eapply IH].
Qed.

Lemma wf_move m : ValidateMove m = Ok tt → wf (VObject (move_value m)) = true.
Proof.
  unfold ValidateMove. intros H. apply guard_ok in H as [_ H]. apply rbind_ok_tt in H as [Hc Hr]. unfold move_value.
  assert (wf (VArray (map challenge_value (Challenges m))) = true) as Hv.
  { apply wf_values. eapply each_Forall; [exact Hc|]. intros j c Hj. unfold validate_challenge in Hj. cbv zeta in Hj.
    apply guard_ok in Hj as [_ Hj]. apply rbind_ok_tt in Hj as [Ht%check_targets_valid Hj].
    apply rbind_ok_tt in Hj as [Ha%checkArgument_valid He].
    unfold challenge_value. by_keys ["targets"; "argument"; "evidence"]%string. split_and!; [by apply wf_strings|done|].
    apply wf_opt_list. intros _. by eapply wf_evidence. }
  destruct (Revision m) as [p|]; cbv iota; by_keys ["challenges"; "revision"]%string; [|done].
  split_and!; [done| |done]. by eapply wf_position.
Qed.

Lemma wf_disagreements l : validateDisagreements l = Ok tt → wf (disagreementsValue l) = true.
Proof.
  unfold validateDisagreements. cbv zeta. intros H. apply guard_ok in H as [_ H]. apply wf_values.
  eapply each_Forall; [exact H|]. cbv beta zeta. intros j d Hj. apply rbind_ok_tt in Hj as [Hp%checkLine_valid Hj].
  apply rbind_ok_tt in Hj as [Hi%checkLine_valid Hr%checkLine_valid].
  unfold disagreement_value. by_keys ["point"; "initiator"; "respondent"]%string. done.
Qed.

Lemma wf_proposal p : ValidateProposal p = Ok tt → wf (VObject (proposal_value p)) = true.
Proof.
  unfold ValidateProposal. cbv zeta. intros H. apply rbind_ok_tt in H as [Hd%checkLine_valid H]. apply guard_ok in H as [_ H].
  apply rbind_ok_tt in H as [Hp H]. apply rbind_ok_tt in H as [Ha H]. apply rbind_ok_tt in H as [Hr H].
  apply guard_ok in H as [_ Hart].
  assert (wf (VObject (agreement_value (prop_Agreement p))) = true) as Hag.
  { unfold agreement_value. by_keys ["decision"; "points"; "argument"]%string. split_and!; [done|apply wf_opt_list; intros _|].
    - apply wf_strings. eapply each_Forall; [exact Hp|]. intros j a. apply checkLine_valid.
    - apply wf_opt_member. by apply when_set_ok in Ha as [->|Ha%checkArgument_valid]. }
  unfold proposal_value. by_keys ["agreement"; "remaining_disagreement"; "affected_artifacts"]%string.
  split_and!; [done|apply wf_opt_list; intros _..]; [by apply wf_disagreements|].
  apply wf_artifacts. eapply each_Forall; [exact Hart|]. cbv beta. intros j a Hj. apply rbind_ok_tt in Hj as [Hj _].
  by eapply validateArtifact_ok.
Qed.

Lemma wf_answer a : ValidateAnswer a = Ok tt → wf (VObject (answer_value a)) = true.
Proof.
  unfold ValidateAnswer. intros H. apply rbind_ok_tt in H as [Hd Ha]. unfold answer_value.
  by_keys ["accept"; "remaining_disagreement"; "argument"]%string. split_and!; [done|apply wf_opt_list; intros _|].
  - by apply wf_disagreements.
  - apply wf_opt_member. by apply when_set_ok in Ha as [->|Ha%checkArgument_valid].
Qed.

Lemma wf_entry e : Validate e = Ok tt → wf (VObject (entry_value e)) = true.
Proof. destruct e; cbn [Validate entry_value]; eauto using wf_move, wf_proposal, wf_answer. apply wf_position. Qed.

(** A value without numbers always has a canonical form. *)
Fixpoint plain (v : value) : bool :=
  match v with
  | VNumber _ => false
  | VArray l => forallb plain l
  | VObject m => forallb (λ p, plain p.2) m
  | _ => true
  end.

Lemma plain_canonical v : plain v = true → ∃ b, canonicalize v = Ok b.
Proof.
  induction v as [| | | |l IH|m IH] using value_deep_ind; intros Hp; [eexists; reflexivity|eexists; reflexivity|discriminate Hp|eexists; reflexivity|..].
  - apply canonical_array_ok. cbn [plain] in Hp. rewrite forallb_forall in Hp. rewrite Forall_forall in IH.
    intros x Hx. apply IH; [done|]. apply Hp. by apply list_elem_of_In.
  - apply canonical_object_ok. cbn [plain] in Hp. rewrite forallb_forall in Hp. rewrite Forall_forall in IH.
    intros x Hx. apply IH; [done|]. apply Hp. by apply list_elem_of_In.
Qed.

Lemma plain_values {A} (g : A → value) l : (∀ a, plain (g a) = true) → forallb plain (map g l) = true.
Proof. intros Hg. induction l; [done|]. cbn [map forallb]. by rewrite Hg. Qed.
Lemma plain_opt_list {A} k (f : list A → value) l : plain (f l) = true → forallb (λ p, plain p.2) (opt_list k f l) = true.
Proof. unfold opt_list. destruct l; [done|]. intros H. cbn [forallb snd]. by rewrite H. Qed.
Lemma plain_opt_member k s : forallb (λ p, plain p.2) (opt_member k s) = true.
Proof. by destruct s. Qed.
Ltac plain_object := cbn [plain forallb snd andb]; rewrite ?forallb_app, ?plain_opt_member;
  repeat rewrite plain_opt_list; try done; cbn [plain]; try (by apply plain_values).

Lemma plain_evidence l : plain (evidenceValue l) = true.
Proof. apply plain_values. intros e. unfold evidence_value. plain_object. Qed.
Lemma plain_position p : plain (VObject (position_value p)) = true.
Proof. unfold position_value. plain_object. apply plain_evidence. Qed.
Lemma plain_disagreements l : plain (disagreementsValue l) = true.
Proof. by apply plain_values. Qed.
Lemma plain_artifact a : plain (artifact_value a) = true.
Proof. unfold artifact_value. plain_object. Qed.

Lemma plain_entry e : plain (VObject (entry_value e)) = true.
Proof.
  destruct e as [p|m|p|a]; cbn [entry_value].
  - apply plain_position.
  - unfold move_value. cbn [plain forallb snd]. rewrite plain_values.
    + cbn [andb]. destruct (Revision m) as [p|]; [|done]. cbn [forallb snd]. by rewrite plain_position.
    + intros c. unfold challenge_value. plain_object; [|apply plain_evidence].
      rewrite andb_true_r. by apply plain_values.
  - unfold proposal_value. plain_object.
    + rewrite andb_true_r. unfold agreement_value. plain_object.
    + apply plain_values. apply plain_artifact.
  - unfold answer_value. plain_object.
Qed.

Lemma entry_canonical_ok e : ∃ b, Canonical e = Ok b.
Proof.
  unfold Canonical, canonicalMap, CanonicalValue. destruct (plain_canonical _ (plain_entry e)) as [b ->]. by eexists.
Qed.

(** ** Round trip *)

Lemma parse_strict_entry e canon : Validate e = Ok tt → Canonical e = Ok canon →
  ParseStrict canon = Ok (norm (VObject (entry_value e))).
Proof.
  unfold Canonical, canonicalMap. intros Hv%wf_entry Hc. destruct (CanonicalValue _) as [b|] eqn:E; [|done].
  injection Hc as <-. by apply parse_strict_canonical.
Qed.

Lemma decode_kind_valid k v e : decode_kind k v = Ok e → Kind e = k ∧ Validate e = Ok tt.
Proof.
  destruct k; cbn [decode_kind]; unfold DecodePosition, DecodeMove, DecodeProposal, DecodeAnswer; cbv zeta; intros H;
    repeat match goal with H : rbind _ _ = Ok _ |- _ => let x := fresh "x" in apply rbind_ok in H as (x & ? & H) end;
    simplify_eq; (split; [done|]); cbn [Validate]; by repeat match goal with x : unit |- _ => destruct x end.
Qed.

(** ParseEntry accepts exactly the canonical encodings, within the size cap,
    of the entries of its kind that pass the checks, and gives the entry
    back: an entry is determined by its bytes and its bytes by the entry. *)
Lemma ParseEntry_spec k data e : ParseEntry k data = Ok e ↔
  Kind e = k ∧ Validate e = Ok tt ∧ Canonical e = Ok data ∧ CheckSize data = Ok tt.
Proof.
  unfold ParseEntry. split.
  - destruct (ParseStrict data) as [v|]; [|done]. unfold DecodeEntry. intros H.
    destruct (decode_kind k (Some v)) as [e'|] eqn:Ed; [|done]. cbn [rbind] in H.
    destruct (Canonical e') as [c|] eqn:Ec; [|done]. cbn [rbind] in H.
    destruct (CheckSize c) as [[]|] eqn:Es; [|done]. cbn [rbind fst snd] in H.
    case_bool_decide as Hc; [|done]. injection H as ->. subst c.
    by apply decode_kind_valid in Ed as [? ?].
  - intros (<- & Hv & Hc & Hs). rewrite (parse_strict_entry e) by done. unfold DecodeEntry. rewrite decode_kind_norm.
    unfold validated. rewrite Hv. cbn [rbind]. rewrite Hc. cbn [rbind]. rewrite Hs. cbn [rbind fst snd].
    by rewrite bool_decide_eq_true_2.
Qed.
