(* ===== verification/DebateTurns.v ===== *)
(** * The turn engine of a debate (internal/debate/turns.go)

    Which slot is next, who fills it and with what, computed from the entries
    present; the loop over the moves ends after at most 2 x rounds of them. *)

From S2P Require Import Prelude Utf8 Canonical Strconv DebateEntry.
From stdpp Require Import gmap.

Open Scope Z_scope.

Inductive party := RoleInitiator | RoleRespondent.
#[export] Instance party_eq_dec : EqDecision party.
Proof. solve_decision. Defined.
Definition party_text (p : party) : bytes := bytes_of match p with RoleInitiator => "initiator" | RoleRespondent => "respondent" end.
Definition other (p : party) : party := match p with RoleInitiator => RoleRespondent | RoleRespondent => RoleInitiator end.

Inductive phase := PhaseInvited | PhasePositions | PhaseRounds | PhaseConverge | PhaseClosing | PhaseClosed | PhaseBroken.
#[export] Instance phase_eq_dec : EqDecision phase.
Proof. solve_decision. Defined.
Definition phase_text (p : phase) : bytes :=
  bytes_of match p with
           | PhaseInvited => "invited" | PhasePositions => "positions" | PhaseRounds => "rounds" | PhaseConverge => "converge"
           | PhaseClosing => "closing" | PhaseClosed => "closed" | PhaseBroken => "broken"
           end.

Definition MaxSlot : Z := 13.
Definition MinDebateRounds : Z := 1.
Definition MaxDebateRounds : Z := 5.

(** What the engine needs of an entry: [mt_Challenges] counts a move's. *)
Record Meta := MkMeta { mt_Author : party; mt_Kind : entry_kind; mt_Challenges : nat }.

(** The next slot to fill, or Done: nothing but the close follows. *)
Inductive Turn :=
| NextTurn (ph : phase) (slot : Z) (k : entry_kind) (author : party) (round : Z)
| Done (slot : Z).
Definition tn_Slot (t : Turn) : Z := match t with NextTurn _ s _ _ _ | Done s => s end.

Definition moveAuthor (s : Z) : party := if s mod 2 =? 0 then RoleInitiator else RoleRespondent.

Section Next.
Variable entries : gmap Z Meta.
Variable rounds : Z.

(** The moves from slot [s] on, [prev] telling whether the last one had no
    challenges: the slot of the first missing move, or of the last one. *)
Inductive scan := Missing (s : Z) | Last (s : Z).
Definition stops (s : Z) (prev : option bool) (e : Meta) : bool :=
  (bool_decide (prev = Some true) && (mt_Challenges e =? 0)%nat) || ((s mod 2 =? 1) && (rounds <=? s / 2)).
Fixpoint moves (fuel : nat) (s : Z) (prev : option bool) : option scan :=
  match fuel with
  | O => None
  | S fuel =>
      match entries !! s with
      | None => Some (Missing s)
      | Some e => if stops s prev e then Some (Last s) else moves fuel (s + 1) (Some (mt_Challenges e =? 0)%nat)
      end
  end.
Definition moves_fuel : nat := Z.to_nat (Z.max 2 (2 * rounds)).

Definition after_last (s : Z) : Turn :=
  let p := s + 1 in
  match entries !! p with
  | None => NextTurn PhaseConverge p KindProposal RoleInitiator 0
  | Some _ =>
      match entries !! (p + 1) with
      | None => NextTurn PhaseConverge (p + 1) KindAnswer RoleRespondent 0
      | Some _ => Done (p + 2)
      end
  end.
Definition missing_move (s : Z) : Turn := NextTurn PhaseRounds s KindMove (moveAuthor s) (s / 2).

Definition Next : Turn :=
  match entries !! 1 with
  | None => NextTurn PhasePositions 1 KindPosition RoleRespondent 0
  | Some _ =>
      match entries !! 0 with
      | None => NextTurn PhasePositions 0 KindPosition RoleInitiator 0
      | Some _ =>
          match moves moves_fuel 2 None with
          | Some (Last s) => after_last s
          | Some (Missing s) => missing_move s
          | None => missing_move (2 + Z.of_nat moves_fuel)     (* never: moves_total *)
          end
      end
  end.
End Next.

Definition RoundsUsed (entries : gmap Z Meta) : Z :=
  map_fold (λ s e n, if bool_decide (mt_Kind e = KindMove) && (n <? s / 2) then s / 2 else n) 0 entries.

(** ** The loop ends *)

Lemma half_bounds s : 2 * (s / 2) ≤ s ≤ 2 * (s / 2) + 1.
Proof. pose proof (Z.div_mod s 2). pose proof (Z.mod_pos_bound s 2). lia. Qed.
Lemma odd_half s : s mod 2 = 1 → s = 2 * (s / 2) + 1.
Proof. pose proof (Z.div_mod s 2). lia. Qed.

(** The loop has stopped by the respondent's move of the last round. *)
Lemma moves_bounded entries rounds fuel s prev : 2 ≤ s → s ≤ Z.max 3 (2 * rounds + 1) →
  Z.max 3 (2 * rounds + 1) < s + Z.of_nat fuel →
  ∃ r, moves entries rounds fuel s prev = Some r ∧
    match r with
    | Missing t => s ≤ t ≤ Z.max 3 (2 * rounds + 1) ∧ entries !! t = None ∧ ∀ i, s ≤ i < t → is_Some (entries !! i)
    | Last t => s ≤ t ≤ Z.max 3 (2 * rounds + 1) ∧ ∀ i, s ≤ i ≤ t → is_Some (entries !! i)
    end.
Proof.
  revert s prev. induction fuel as [|fuel IH]; intros s prev H2 Hs Hf; [lia|]. cbn [moves].
  destruct (entries !! s) as [e|] eqn:E.
  2: { exists (Missing s). split; [done|]. split; [lia|]. split; [done|]. intros i ?. lia. }
  destruct (stops rounds s prev e) eqn:Est.
  { exists (Last s). split; [done|]. split; [lia|]. intros i ?. replace i with s by lia. by rewrite E. }
  assert (s + 1 ≤ Z.max 3 (2 * rounds + 1)) as Hs1.
  { unfold stops in Est. apply orb_false_iff in Est as [_ Est]. apply andb_false_iff in Est.
    pose proof (half_bounds s). pose proof (odd_half s). destruct Est as [Est|Est].
    - apply Z.eqb_neq in Est. assert (s mod 2 = 0) by (pose proof (Z.mod_pos_bound s 2); lia).
      pose proof (Z.div_mod s 2). lia.
    - apply Z.leb_gt in Est. lia. }
  destruct (IH (s + 1) (Some (mt_Challenges e =? 0)%nat)) as (r & -> & Hr); [lia..|].
  exists r. split; [done|]. destruct r as [t|t].
  - destruct Hr as (? & ? & Hi). split; [lia|]. split; [done|]. intros i ?.
    destruct (decide (i = s)) as [->|]; [by rewrite E|]. apply Hi. lia.
  - destruct Hr as [? Hi]. split; [lia|]. intros i ?. destruct (decide (i = s)) as [->|]; [by rewrite E|]. apply Hi. lia.
Qed.

Lemma moves_total entries rounds : ∃ r, moves entries rounds (moves_fuel rounds) 2 None = Some r ∧
    match r with
    | Missing t => 2 ≤ t ≤ Z.max 3 (2 * rounds + 1) ∧ entries !! t = None ∧ ∀ i, 2 ≤ i < t → is_Some (entries !! i)
    | Last t => 2 ≤ t ≤ Z.max 3 (2 * rounds + 1) ∧ ∀ i, 2 ≤ i ≤ t → is_Some (entries !! i)
    end.
Proof. apply moves_bounded; unfold moves_fuel; lia. Qed.

(** ** What the next turn is *)

(** The order of the slots: the respondent's position before the initiator's. *)
Definition rank (t : Turn) : Z :=
  match t with NextTurn _ s _ _ _ => if s =? 1 then 0 else if s =? 0 then 1 else s | Done s => s end.
Definition last_slot (rounds : Z) : Z := Z.max 3 (2 * rounds + 1).

(** The entries a turn comes after: each earlier slot is filled, and the
    turn's own is not. *)
Definition filled_before (entries : gmap Z Meta) (t : Turn) : Prop :=
  match t with
  | NextTurn _ s _ _ _ => entries !! s = None ∧ (s ≠ 1 → is_Some (entries !! 1)) ∧
      (s ≠ 1 → s ≠ 0 → ∀ i, 0 ≤ i < s → is_Some (entries !! i))
  | Done s => ∀ i, 0 ≤ i < s → is_Some (entries !! i)
  end.
Definition turn_shape (rounds : Z) (t : Turn) : Prop :=
  match t with
  | NextTurn ph s k a r =>
      (ph = PhasePositions ∧ k = KindPosition ∧ r = 0 ∧ ((s = 1 ∧ a = RoleRespondent) ∨ (s = 0 ∧ a = RoleInitiator))) ∨
      (ph = PhaseRounds ∧ k = KindMove ∧ r = s / 2 ∧ a = moveAuthor s ∧ 2 ≤ s ≤ last_slot rounds) ∨
      (ph = PhaseConverge ∧ r = 0 ∧ ((k = KindProposal ∧ a = RoleInitiator ∧ 3 ≤ s ≤ last_slot rounds + 1) ∨
                                     (k = KindAnswer ∧ a = RoleRespondent ∧ 4 ≤ s ≤ last_slot rounds + 2)))
  | Done s => 5 ≤ s ≤ last_slot rounds + 3
  end.

Lemma Next_spec entries rounds : turn_shape rounds (Next entries rounds) ∧ filled_before entries (Next entries rounds).
Proof.
  unfold Next. destruct (entries !! 1) as [e1|] eqn:E1.
  2: { cbn. split; [left; split_and!; try done; by left|]. split_and!; [done|lia|lia]. }
  destruct (entries !! 0) as [e0|] eqn:E0.
  2: { cbn. split; [left; split_and!; try done; by right|]. split_and!; [done|by rewrite E1|lia]. }
  assert (∀ t i, (∀ i, 2 ≤ i < t → is_Some (entries !! i)) → 0 ≤ i < t → is_Some (entries !! i)) as Hlow.
  { intros t i Hi ?. destruct (decide (i = 0)) as [->|]; [by rewrite E0|]. destruct (decide (i = 1)) as [->|]; [by rewrite E1|].
    apply Hi. lia. }
  destruct (moves_total entries rounds) as ([t|t] & -> & Hr); fold (last_slot rounds) in *.
  - destruct Hr as (Ht & En & Hi). split; [cbn; right; left; split_and!; (done || lia)|]. cbn. split_and!; [done|by rewrite E1|].
    intros _ _ i ?. by apply (Hlow t).
  - destruct Hr as [Ht Hi]. unfold after_last.
    assert (∀ i, 0 ≤ i < t + 1 → is_Some (entries !! i)) as Hp by (intros i ?; apply (Hlow (t + 1)); [intros j ?; apply Hi; lia|lia]).
    destruct (entries !! (t + 1)) as [ep|] eqn:Ep.
    2: { split; [cbn; right; right; split_and!; [done..|]; left; split_and!; (done || lia)|].
         cbn. split_and!; [done|by rewrite E1|]. intros _ _. apply Hp. }
    assert (∀ i, 0 ≤ i < t + 1 + 1 → is_Some (entries !! i)) as Ha.
    { intros i ?. destruct (decide (i = t + 1)) as [->|]; [by rewrite Ep|]. apply Hp. lia. }
    destruct (entries !! (t + 1 + 1)) as [ea|] eqn:Ea.
    + split; [cbn; lia|]. cbn. intros i ?. destruct (decide (i = t + 1 + 1)) as [->|]; [by rewrite Ea|]. apply Ha. lia.
    + split; [cbn; right; right; split_and!; [done..|]; right; split_and!; (done || lia)|].
      cbn. split_and!; [done|by rewrite E1|]. intros _ _. apply Ha.
Qed.

(** ** Filling the next slot moves on *)

Lemma moves_insert_missing entries rounds fuel s prev t m : moves entries rounds fuel s prev = Some (Missing t) →
  ∀ r, moves (<[t := m]> entries) rounds fuel s prev = Some r → match r with Missing t' => t < t' | Last t' => t ≤ t' end.
Proof.
  revert s prev. induction fuel as [|fuel IH]; intros s prev; [done|]. cbn [moves]. destruct (entries !! s) as [e|] eqn:E.
  - destruct (stops rounds s prev e) eqn:Es; [done|]. intros Ht. destruct (decide (s = t)) as [->|Hne].
    + exfalso. clear -E Ht. assert (∀ f s p, moves entries rounds f s p = Some (Missing t) → entries !! t = None) as Hm.
      { induction f as [|f IH]; intros s p; [done|]. cbn [moves]. destruct (entries !! s) eqn:Es; [|by intros [= ->]].
        destruct (stops _ _ _ _); [done|apply IH]. }
      apply Hm in Ht. congruence.
    + rewrite lookup_insert_ne by done. rewrite E, Es. by apply IH.
  - intros [= ->] r. rewrite lookup_insert_eq. destruct (stops rounds t prev m); [intros [= <-]; lia|].
    assert (∀ f s p r, moves (<[t:=m]> entries) rounds f s p = Some r → match r with Missing x | Last x => s ≤ x end) as Hge.
    { induction f as [|f IHf]; intros s p r'; [done|]. cbn [moves]. destruct (<[t:=m]> entries !! s); [|intros [= <-]; lia].
      destruct (stops _ _ _ _); [intros [= <-]; lia|]. intros Hr%IHf. destruct r'; lia. }
    intros Hr%Hge. destruct r; lia.
Qed.

Lemma moves_insert_beyond entries rounds fuel s prev t p m : moves entries rounds fuel s prev = Some (Last t) → t < p →
  moves (<[p := m]> entries) rounds fuel s prev = Some (Last t).
Proof.
  intros Hm Hp. assert (s ≤ t) as Hst.
  { revert s prev Hm. induction fuel as [|fuel IH]; intros s prev; [done|]. cbn [moves]. destruct (entries !! s); [|done].
    destruct (stops _ _ _ _); [intros [= <-]; lia|]. intros ?%IH. lia. }
  revert s prev Hm Hst. induction fuel as [|fuel IH]; intros s prev; [done|]. cbn [moves]. intros Hm Hst.
  rewrite lookup_insert_ne by lia. destruct (entries !! s) as [e|] eqn:E; [|done].
  destruct (stops rounds s prev e) eqn:Es; [done|]. apply IH; [done|].
  destruct (decide (s = t)) as [->|]; [|lia]. exfalso. clear -Hm.
  assert (∀ f s p, moves entries rounds f s p = Some (Last t) → s ≤ t) as Hge.
  { induction f as [|f IH]; intros s p; [done|]. cbn [moves]. destruct (entries !! s); [|done].
    destruct (stops _ _ _ _); [intros [= <-]; lia|]. intros ?%IH. lia. }
  apply Hge in Hm. lia.
Qed.

Lemma rank_bounds rounds t : turn_shape rounds t → 0 ≤ rank t ≤ last_slot rounds + 3 ∧ (∀ s, t = Done s → 5 ≤ rank t) ∧
  (∀ ph s k a r, t = NextTurn ph s k a r → rank t ≤ last_slot rounds + 2).
Proof.
  unfold last_slot. destruct t as [ph s k a r|s]; cbn; intros Ht.
  - assert (0 ≤ s ≤ Z.max 3 (2 * rounds + 1) + 2) as Hs.
    { destruct Ht as [(_ & _ & _ & [[-> _]|[-> _]])|[(_ & _ & _ & _ & ?)|(_ & _ & [(_ & _ & ?)|(_ & _ & ?)])]]; unfold last_slot in *; lia. }
    destruct (s =? 1) eqn:E1, (s =? 0) eqn:E0; bprop; (split; [lia|split; [done|intros; lia]]).
  - unfold last_slot in *. split; [lia|split; [intros ? [= ->]; lia|done]].
Qed.

Ltac rank_now := match goal with |- rank ?x < _ => let v := eval vm_compute in (rank x) in change (rank x) with v end.
Lemma Next_progress entries rounds ph s k a r m : Next entries rounds = NextTurn ph s k a r →
  rank (Next entries rounds) < rank (Next (<[s := m]> entries) rounds).
Proof.
  intros Hn. rewrite Hn. pose proof (Next_spec (<[s := m]> entries) rounds) as [Hsh' Hf'].
  pose proof (rank_bounds _ _ Hsh') as ([Hlo _] & Hdone & _).
  unfold Next in Hn. destruct (entries !! 1) as [e1|] eqn:E1.
  2: { injection Hn as <- <- <- <- <-. rank_now.
       destruct (Next (<[1 := m]> entries) rounds) as [ph' s' k' a' r'|s'] eqn:E; [|specialize (Hdone s' eq_refl); lia].
       cbn in *. destruct Hf' as (Hs' & _). destruct (s' =? 1) eqn:E2; bprop; [subst; by rewrite lookup_insert_eq in Hs'|].
       destruct (s' =? 0) eqn:E3; bprop; lia. }
  destruct (entries !! 0) as [e0|] eqn:E0.
  2: { injection Hn as <- <- <- <- <-. rank_now.
       unfold Next. rewrite lookup_insert_ne, E1, lookup_insert_eq by done.
       destruct (moves_total (<[0 := m]> entries) rounds) as ([t|t] & -> & Hr).
       - destruct Hr as (Ht & _). cbn. destruct (t =? 1) eqn:?, (t =? 0) eqn:?; bprop; lia.
       - destruct Hr as (Ht & _). unfold after_last. destruct (_ !! (t + 1)); [destruct (_ !! (t + 1 + 1))|]; cbn;
           repeat match goal with |- context [?x =? ?y] => destruct (x =? y) eqn:?; bprop end; lia. }
  assert (∀ x, 2 ≤ x → <[x := m]> entries !! 1 = Some e1 ∧ <[x := m]> entries !! 0 = Some e0) as Hkeep.
  { intros x ?. by rewrite !lookup_insert_ne by lia. }
  destruct (moves_total entries rounds) as ([t|t] & Hm & Hr); rewrite Hm in Hn.
  - injection Hn as <- <- <- <- <-. destruct Hr as (Ht & _ & _). destruct (Hkeep t) as [K1 K0]; [lia|].
    unfold Next. rewrite K1, K0. destruct (moves_total (<[t := m]> entries) rounds) as (r & Hm' & _). rewrite Hm'.
    pose proof (moves_insert_missing _ _ _ _ _ _ m Hm _ Hm') as Hr. unfold rank at 1.
    rewrite (proj2 (Z.eqb_neq t 1)), (proj2 (Z.eqb_neq t 0)) by lia.
    destruct r as [t'|t']; [|unfold after_last; destruct (_ !! (t' + 1)); [destruct (_ !! (t' + 1 + 1))|]]; cbn;
      repeat match goal with |- context [?x =? ?y] => destruct (x =? y) eqn:?; bprop end; lia.
  - destruct Hr as [Ht _]. unfold after_last in Hn.
    assert (∀ p, t < p → Next (<[p := m]> entries) rounds = after_last (<[p := m]> entries) t) as Hn'.
    { intros p ?. destruct (Hkeep p) as [K1 K0]; [lia|]. unfold Next. rewrite K1, K0.
      by rewrite (moves_insert_beyond _ _ _ _ _ _ p m Hm). }
    destruct (entries !! (t + 1)) as [ep|] eqn:Ep.
    + destruct (entries !! (t + 1 + 1)) as [ea|] eqn:Ea; [done|]. injection Hn as <- <- <- <- <-.
      rewrite Hn' by lia. unfold after_last. rewrite lookup_insert_ne, Ep, lookup_insert_eq by lia. cbn.
      repeat match goal with |- context [?x =? ?y] => destruct (x =? y) eqn:?; bprop end; lia.
    + injection Hn as <- <- <- <- <-. rewrite Hn' by lia. unfold after_last. rewrite lookup_insert_eq.
      destruct (_ !! (t + 1 + 1)); cbn; repeat match goal with |- context [?x =? ?y] => destruct (x =? y) eqn:?; bprop end; lia.
Qed.

(** ** A debate ends

    The next slot filled [n] times, with entries of any content. *)
Fixpoint play (rounds : Z) (content : Z → Meta) (n : nat) (entries : gmap Z Meta) : gmap Z Meta :=
  match n with
  | O => entries
  | S n => match Next entries rounds with
           | Done _ => entries
           | NextTurn _ s _ _ _ => play rounds content n (<[s := content s]> entries)
           end
  end.

(** The slots a debate can still fill, of 0 to last_slot + 2. *)
Definition slots_left (rounds : Z) (entries : gmap Z Meta) : nat :=
  length (filter (λ s, entries !! s = None) (seqZ 0 (last_slot rounds + 3))).

Lemma filter_fewer {A} (P Q : A → Prop) `{!∀ x, Decision (P x)} `{!∀ x, Decision (Q x)} (l : list A) x : x ∈ l → P x → ¬ Q x →
  (∀ y, Q y → P y) → (length (filter Q l) < length (filter P l))%nat.
Proof.
  intros Hx HP HQ Himp. assert (∀ l, (length (filter Q l) ≤ length (filter P l))%nat) as Hle.
  { clear l Hx. induction l as [|y l IH]; [done|]. rewrite !filter_cons. destruct (decide (Q y)) as [HQy|], (decide (P y)) as [|HPy]; cbn; try lia. destruct HPy. by apply Himp. }
  induction l as [|y l IH]; [by apply elem_of_nil in Hx|]. rewrite !filter_cons. pose proof (Hle l). apply elem_of_cons in Hx as [->|Hx].
  - destruct (decide (Q y)); [done|]. destruct (decide (P y)); [|done]. cbn. lia.
  - specialize (IH Hx). destruct (decide (Q y)) as [HQy|], (decide (P y)) as [|HPy]; cbn; try lia. destruct HPy. by apply Himp.
Qed.
(** Each turn fills a slot that was empty. *)
Lemma turn_slots entries rounds ph s k a r m : Next entries rounds = NextTurn ph s k a r →
  (slots_left rounds (<[s := m]> entries) < slots_left rounds entries)%nat.
Proof.
  intros Hn. pose proof (Next_spec entries rounds) as [Hsh Hf]. rewrite Hn in Hsh, Hf. destruct Hf as [He _].
  apply (filter_fewer _ _ _ s); [|done|by rewrite lookup_insert_eq|].
  - apply elem_of_seqZ. cbn in Hsh. unfold last_slot in *.
    destruct Hsh as [(_ & _ & _ & [[-> _]|[-> _]])|[(_ & _ & _ & _ & ?)|(_ & _ & [(_ & _ & ?)|(_ & _ & ?)])]]; lia.
  - intros y. destruct (decide (y = s)) as [->|]; [by rewrite lookup_insert_eq|by rewrite lookup_insert_ne].
Qed.
Lemma play_ends rounds content n entries : (slots_left rounds entries ≤ n)%nat → ∃ s, Next (play rounds content n entries) rounds = Done s.
Proof.
  revert entries. induction n as [|n IH]; intros entries Hn; cbn [play].
  - destruct (Next entries rounds) as [ph s k a r|s] eqn:E; [|by exists s]. pose proof (turn_slots _ _ _ _ _ _ _ (content s) E). lia.
  - destruct (Next entries rounds) as [ph s k a r|s] eqn:E; [|by exists s]. apply IH.
    pose proof (turn_slots _ _ _ _ _ _ _ (content s) E). lia.
Qed.
