(* ===== verification/Signing.v ===== *)
(** * Signing: SHA-256, Ed25519 and base64url

    The cryptographic functions the program calls are the operations of the
    class [Crypto]; what the code relies on of them is [CryptoLaws] and
    [SignLaws]. base64.RawURLEncoding.Strict, the encoding of keys and
    signatures, is defined, and reads back. *)

From S2P Require Import Prelude Utf8 Canonical Strconv.

Open Scope Z_scope.

Class Crypto := {
  sha256 : bytes → bytes;
  ed25519_Public : bytes → bytes;                    (* of a private key *)
  ed25519_Sign : bytes → bytes → bytes;              (* private key, message *)
  ed25519_Verify : bytes → bytes → bytes → bool;     (* public key, message, signature *)
}.

(** ** base64.RawURLEncoding.Strict *)

Definition b64_val (c : Z) : option Z :=
  if in_range 0x41 0x5A c then Some (c - 0x41)
  else if in_range 0x61 0x7A c then Some (c - 0x61 + 26)
  else if in_range 0x30 0x39 c then Some (c - 0x30 + 52)
  else if c =? 0x2D then Some 62 else if c =? 0x5F then Some 63 else None.
(** The unused low bits of the last character must be zero. *)
Fixpoint b64_quads (l : list Z) : option bytes :=
  match l with
  | [] => Some []
  | a :: b :: c :: d :: l =>
      let n := ((a * 64 + b) * 64 + c) * 64 + d in
      option_map (λ r, n / 65536 :: (n / 256) mod 256 :: n mod 256 :: r) (b64_quads l)
  | [a; b; c] => let n := (a * 64 + b) * 64 + c in if n mod 4 =? 0 then Some [n / 1024; (n / 4) mod 256] else None
  | [a; b] => let n := a * 64 + b in if n mod 16 =? 0 then Some [n / 16] else None
  | [_] => None
  end.
(** Go's decoder skips line breaks. *)
Definition b64_decode (s : bytes) : option bytes :=
  match mapM b64_val (List.filter (λ c, negb ((c =? 0x0A) || (c =? 0x0D))) s) with
  | Some l => b64_quads l
  | None => None
  end.

Definition b64_char_of (n : Z) : Z :=
  if n <? 26 then n + 0x41 else if n <? 52 then n - 26 + 0x61 else if n <? 62 then n - 52 + 0x30 else if n =? 62 then 0x2D else 0x5F.
Fixpoint b64_encode (s : bytes) : bytes :=
  match s with
  | a :: b :: c :: s =>
      let n := (a * 256 + b) * 256 + c in
      map b64_char_of [n / 262144; (n / 4096) mod 64; (n / 64) mod 64; n mod 64] ++ b64_encode s
  | [a; b] => let n := (a * 256 + b) * 4 in map b64_char_of [n / 4096; (n / 64) mod 64; n mod 64]
  | [a] => let n := a * 16 in map b64_char_of [n / 64; n mod 64]
  | [] => []
  end.

(** ** What the code relies on *)

Class CryptoLaws `{Crypto} : Prop := sha256_bytes : ∀ m, forallb is_byte (sha256 m) = true.
(** What the code relies on of SHA-256 and Ed25519: the lengths of keys and
    signatures, bytes, and that a signature verifies under its key. *)
Class SignLaws `{Crypto} : Prop := {
  sl_sha256 :: CryptoLaws;
  sl_public : ∀ priv, length priv = 64%nat → length (ed25519_Public priv) = 32%nat ∧ forallb is_byte (ed25519_Public priv) = true;
  sl_sign : ∀ priv m, length priv = 64%nat → length (ed25519_Sign priv m) = 64%nat ∧ forallb is_byte (ed25519_Sign priv m) = true;
  sl_verify : ∀ priv m, length priv = 64%nat → ed25519_Verify (ed25519_Public priv) m (ed25519_Sign priv m) = true;
}.

(** ** base64url reads back *)

Lemma b64_val_char n : 0 ≤ n < 64 → b64_val (b64_char_of n) = Some n ∧ ((b64_char_of n =? 0x0A) || (b64_char_of n =? 0x0D)) = false.
Proof.
  intros Hn. pose (ok := λ n, bool_decide (b64_val (b64_char_of n) = Some n) && negb ((b64_char_of n =? 0x0A) || (b64_char_of n =? 0x0D))).
  assert (forallb ok (map Z.of_nat (seq 0 64)) = true) as Hf by (vm_compute; reflexivity).
  rewrite forallb_forall in Hf. specialize (Hf n). unfold ok in Hf. rewrite andb_true_iff, bool_decide_eq_true, negb_true_iff in Hf.
  apply Hf, in_map_iff. exists (Z.to_nat n). split; [lia|]. apply in_seq. lia.
Qed.
Lemma b64_chars l : Forall (λ n, 0 ≤ n < 64) l →
  mapM b64_val (List.filter (λ c, negb ((c =? 0x0A) || (c =? 0x0D))) (map b64_char_of l)) = Some l.
Proof.
  induction 1 as [|n l Hn _ IH]; [done|]. destruct (b64_val_char n Hn) as [Ev En]. cbn [map List.filter]. rewrite En. cbn [negb]. cbn. by rewrite Ev, IH.
Qed.
Fixpoint b64_values (s : bytes) : list Z :=
  match s with
  | a :: b :: c :: s => let n := (a * 256 + b) * 256 + c in [n / 262144; (n / 4096) mod 64; (n / 64) mod 64; n mod 64] ++ b64_values s
  | [a; b] => let n := (a * 256 + b) * 4 in [n / 4096; (n / 64) mod 64; n mod 64]
  | [a] => let n := a * 16 in [n / 64; n mod 64]
  | [] => []
  end.
Lemma by_three (P : bytes → Prop) : P [] → (∀ a, P [a]) → (∀ a b, P [a; b]) → (∀ a b c s, P s → P (a :: b :: c :: s)) → ∀ s, P s.
Proof.
  intros P0 P1 P2 P3 s. assert (P s ∧ (∀ a, P (a :: s)) ∧ ∀ a b, P (a :: b :: s)) as [? _]; [|done].
  induction s as [|x s (IH0 & IH1 & IH2)]; [done|]. split_and!; auto.
Qed.
Lemma b64_encode_values s : b64_encode s = map b64_char_of (b64_values s).
Proof. induction s as [|a|a b|a b c s IH] using by_three; [done..|]. cbn [b64_encode b64_values]. rewrite map_app. cbn zeta. by rewrite IH. Qed.
Lemma b64_values_ok s : forallb is_byte s = true → Forall (λ n, 0 ≤ n < 64) (b64_values s) ∧ b64_quads (b64_values s) = Some s.
Proof.
  induction s as [|a|a b|a b c s IH] using by_three; cbn [forallb]; unfold is_byte; rewrite ?andb_true_iff, ?in_range_spec.
  - done.
  - intros [Ha _]. cbn [b64_values b64_quads]. cbv zeta. split; [repeat constructor; zdivmod|].
    assert ((a * 16 / 64 * 64 + (a * 16) mod 64) = a * 16) as -> by zdivmod. rewrite (proj2 (Z.eqb_eq _ _)) by zdivmod. f_equal. f_equal. zdivmod.
  - intros (Ha & Hb & _). cbn [b64_values b64_quads]. cbv zeta. set (n := (a * 256 + b) * 4).
    assert ((n / 4096 * 64 + (n / 64) mod 64) * 64 + n mod 64 = n) as -> by (unfold n; zdivmod).
    split; [repeat constructor; unfold n; zdivmod|]. rewrite (proj2 (Z.eqb_eq _ _)) by (unfold n; zdivmod). f_equal. f_equal; [|f_equal]; unfold n; zdivmod.
  - intros (Ha & Hb & Hc & Hs). destruct (IH Hs) as [Hf Hq]. cbn [b64_values app b64_quads]. cbv zeta. set (n := (a * 256 + b) * 256 + c).
    assert (((n / 262144 * 64 + (n / 4096) mod 64) * 64 + (n / 64) mod 64) * 64 + n mod 64 = n) as -> by (unfold n; zdivmod).
    split; [repeat (apply Forall_cons; split; [unfold n; zdivmod|]); done|]. rewrite Hq. cbn [option_map]. f_equal. f_equal; [|f_equal; [|f_equal]]; unfold n; zdivmod.
Qed.
Lemma b64_round s : forallb is_byte s = true → b64_decode (b64_encode s) = Some s.
Proof. intros Hs. destruct (b64_values_ok s Hs) as [Hf Hq]. unfold b64_decode. by rewrite b64_encode_values, b64_chars. Qed.

Lemma valid_hex_encode l : forallb is_byte l = true → valid_utf8 (hex_encode l) = true.
Proof.
  intros Hl. apply valid_ascii. intros c Hc. unfold hex_encode in Hc. rewrite list_elem_of_In, in_flat_map in Hc.
  destruct Hc as (b & Hb & Hc). rewrite forallb_forall in Hl. specialize (Hl b Hb). unfold is_byte in Hl.
  apply in_range_spec in Hl. destruct Hc as [<-|[<-|[]]]; apply hexDigit_ascii.
  - pose proof (Z.div_mod b 16). pose proof (Z.mod_pos_bound b 16). lia.
  - pose proof (Z.mod_pos_bound b 16). lia.
Qed.

(** ** A concrete instance, for the examples

    Not a secure one: a signature is a checksum of the key and the message. *)

Definition checksum (m : bytes) : Z := foldr (λ b h, (31 * h + b) mod 256) 7 m.
Definition demo_public (priv : bytes) : bytes := map (λ b, b mod 256) (take 32 priv).
Definition demo_signature (pub m : bytes) : bytes := repeat (checksum (pub ++ m)) 64.
#[local] Instance demo_crypto : Crypto := {|
  sha256 := λ m, repeat (checksum m) 32; ed25519_Public := demo_public; ed25519_Sign := λ priv m, demo_signature (demo_public priv) m;
  ed25519_Verify := λ pub m s, bool_decide (s = demo_signature pub m);
|}.
Lemma checksum_byte m : is_byte (checksum m) = true.
Proof. unfold is_byte, checksum. apply in_range_spec. destruct m as [|b m]; cbn [foldr]; [lia|]. pose proof (Z.mod_pos_bound (31 * foldr (λ b h, (31 * h + b) mod 256) 7 m + b) 256). lia. Qed.
Lemma repeat_bytes c n : is_byte c = true → forallb is_byte (repeat c n) = true.
Proof. intros Hc. induction n as [|n IH]; [done|]. cbn. by rewrite Hc, IH. Qed.
Lemma demo_sign_laws : SignLaws.
Proof.
  split.
  - intros m. apply repeat_bytes, checksum_byte.
  - intros priv Hp. cbn. unfold demo_public. split; [rewrite length_map, length_take, Hp; lia|].
    apply forallb_forall. intros b (x & <- & _)%in_map_iff. unfold is_byte. apply in_range_spec. pose proof (Z.mod_pos_bound x 256). lia.
  - intros priv m Hp. change (ed25519_Sign priv m) with (demo_signature (demo_public priv) m). unfold demo_signature. split; [done|].
    apply repeat_bytes, checksum_byte.
  - intros priv m Hp. cbn. by apply bool_decide_eq_true.
Qed.
