(* ===== verification/DecisionRecord.v ===== *)
(** * Decision records (internal/decision/decision.go, verify.go)

    The derivation of a Decision from a transcript, its id, hash and signed
    message, and the checks of a signed file. SHA-256 and Ed25519 are
    the parameters of Signing.v. *)

From S2P Require Import Prelude Utf8 Canonical Strconv WireTime Body RequestObject DebateEntry DebateTurns Signing.
From stdpp Require Import gmap.

Open Scope Z_scope.
Open Scope go_scope.

(** ** The record *)

Definition signDomain : bytes := bytes_of "dorylinae-decision-v1" ++ [0x0A].
Definition idDomain : bytes := bytes_of "dorylinae-decision-id-v1" ++ [0x0A].
Definition MaxDecision : Z := 786432.

Inductive debate_outcome := OutcomeAgreed | OutcomeEscalated | OutcomeCancelled.
Inductive debate_reason := ReasonAccepted | ReasonRejected | ReasonTimeout | ReasonCancelled | ReasonAbandoned.
#[export] Instance debate_outcome_eq_dec : EqDecision debate_outcome.
Proof. solve_decision. Defined.
#[export] Instance debate_reason_eq_dec : EqDecision debate_reason.
Proof. solve_decision. Defined.
Definition debate_outcome_text (o : debate_outcome) : bytes :=
  bytes_of match o with OutcomeAgreed => "agreed" | OutcomeEscalated => "escalated" | OutcomeCancelled => "cancelled" end.
Definition debate_reason_text (r : debate_reason) : bytes :=
  bytes_of match r with
           | ReasonAccepted => "accepted" | ReasonRejected => "rejected" | ReasonTimeout => "timeout"
           | ReasonCancelled => "cancelled" | ReasonAbandoned => "abandoned"
           end.

Record TranscriptEntry := MkTranscript { de_Slot : Z; de_Author : party; de_Kind : entry_kind; de_Canon : bytes }.
Record Constraint := MkConstraint { dc_ID : bytes; dc_Author : party; dc_At : bytes; dc_Text : bytes }.
Record DeriveInput := MkDerive {
  in_Session : bytes; in_Initiator : bytes; in_Respondent : bytes; in_Request : bytes; RoundsMax : Z;
  Entries : list TranscriptEntry; Count : Z; Constraints : list Constraint;
  in_Outcome : debate_outcome; in_Reason : debate_reason; in_Closed : bytes;
}.

Definition Expected (hasAnswer accept : bool) : debate_outcome * debate_reason :=
  if negb hasAnswer then (OutcomeEscalated, ReasonTimeout)
  else if accept then (OutcomeAgreed, ReasonAccepted) else (OutcomeEscalated, ReasonRejected).

(** sort.Slice and sort.Ints: the elements compared are distinct, so the
    order of the result does not depend on the sorting algorithm. *)
Section SortBy.
Context {A : Type} (lt : A → A → bool).
Fixpoint insert_by (x : A) (l : list A) : list A :=
  match l with
  | [] => [x]
  | y :: l' => if lt y x then y :: insert_by x l' else x :: l
  end.
Definition sort_by (l : list A) : list A := foldr insert_by [] l.
End SortBy.

Definition parseObject (b : bytes) : checked body :=
  match ParseStrict b with Ok (VObject m) => Ok m | _ => Err ErrDecision end.
Definition null_or (k : string) (m : body) : value := default VNull (member (bytes_of k) m).
Definition list_member (k : string) (m : body) : list value :=
  match member (bytes_of k) m with Some (VArray l) => l | _ => [] end.
Definition string_member (k : string) (m : body) : bytes :=
  match member (bytes_of k) m with Some (VString s) => s | _ => [] end.
Definition bool_member (k : string) (m : body) : bool :=
  match member (bytes_of k) m with Some (VBool b) => b | _ => false end.

(** The entries below [count], one per slot. *)
Fixpoint by_slot (count : Z) (l : list TranscriptEntry) (m : gmap Z TranscriptEntry) : checked (gmap Z TranscriptEntry) :=
  match l with
  | [] => Ok m
  | e :: l =>
      if (de_Slot e <? 0) || (count <=? de_Slot e) then by_slot count l m
      else match m !! de_Slot e with
           | Some _ => Err ErrDecision
           | None => by_slot count l (<[de_Slot e := e]> m)
           end
  end.
Definition sorted_slots {A} (m : gmap Z A) : list Z := sort_by Z.ltb (map fst (map_to_list m)).

Fixpoint parse_entries (l : list (Z * TranscriptEntry)) : checked (list (Z * TranscriptEntry * body)) :=
  match l with
  | [] => Ok []
  | (s, e) :: l => let? v := parseObject (de_Canon e) in let? r := parse_entries l in Ok ((s, e, v) :: r)
  end.

(** A value per side. *)
Record sides (A : Type) := Sides { by_initiator : option A; by_respondent : option A }.
Arguments Sides {A}.
Arguments by_initiator {A}.
Arguments by_respondent {A}.
Definition no_sides {A} : sides A := Sides None None.
Definition set_side {A} (p : party) (a : A) (s : sides A) : sides A :=
  match p with RoleInitiator => Sides (Some a) (by_respondent s) | RoleRespondent => Sides (by_initiator s) (Some a) end.
Definition side {A} (p : party) (s : sides A) : option A := match p with RoleInitiator => by_initiator s | RoleRespondent => by_respondent s end.

(** rounds[n].moves[author] = v, the rounds in the order they first appear. *)
Fixpoint add_move (n : Z) (p : party) (v : body) (rounds : list (Z * sides body)) : list (Z * sides body) :=
  match rounds with
  | [] => [(n, set_side p v no_sides)]
  | (k, s) :: rounds => if k =? n then (k, set_side p v s) :: rounds else (k, s) :: add_move n p v rounds
  end.
Record walk := MkWalk { w_finals : sides value; w_rounds : list (Z * sides body); w_proposal : option body; w_answer : option body }.
Definition walk_entry (w : walk) (x : Z * TranscriptEntry * body) : walk :=
  let '(s, e, v) := x in
  match de_Kind e with
  | KindMove =>
      let rounds := add_move (s / 2) (de_Author e) v (w_rounds w) in
      let finals := match member (bytes_of "revision") v with Some r => set_side (de_Author e) r (w_finals w) | None => w_finals w end in
      MkWalk finals rounds (w_proposal w) (w_answer w)
  | KindProposal => MkWalk (w_finals w) (w_rounds w) (Some v) (w_answer w)
  | KindAnswer => MkWalk (w_finals w) (w_rounds w) (w_proposal w) (Some v)
  | KindPosition => w
  end.
Definition walk_entries (l : list (Z * TranscriptEntry * body)) : walk := fold_left walk_entry l (MkWalk no_sides [] None None).

(** Rule 8: duplicates (same canonical bytes) dropped after the first. *)
Fixpoint merge_into (seen : list bytes) (l : list value) : checked (list value) :=
  match l with
  | [] => Ok []
  | d :: l =>
      match CanonicalValue d with
      | Err _ => Err ErrDecision
      | Ok c => if bool_decide (c ∈ seen) then merge_into seen l
                else let? r := merge_into (c :: seen) l in Ok (d :: r)
      end
  end.
Definition disagreement_list (o : option body) : list value := match o with Some m => list_member "remaining_disagreement" m | None => [] end.
Definition mergeDisagreement (proposal answer : option body) : checked (list value) :=
  merge_into [] (disagreement_list proposal ++ disagreement_list answer).

Definition constraint_lt (a b : Constraint) : bool :=
  if bool_decide (dc_At a = dc_At b) then text_lt (dc_ID a) (dc_ID b) else text_lt (dc_At a) (dc_At b).
Definition constraint_value (c : Constraint) : value :=
  VObject [(bytes_of "id", VString (dc_ID c)); (bytes_of "by", VString (party_text (dc_Author c)));
           (bytes_of "at", VString (dc_At c)); (bytes_of "text", VString (dc_Text c))].
Definition opt_value {A} (k : string) (f : A → value) (o : option A) : body := match o with Some a => [(bytes_of k, f a)] | None => [] end.
Definition round_value (i : Z) (s : sides body) : value :=
  VObject ((bytes_of "n", VNumber (Itoa (i + 1))) :: opt_value "initiator" VObject (by_initiator s) ++ opt_value "respondent" VObject (by_respondent s)).
Fixpoint number_rounds (i : Z) (l : list (Z * sides body)) : list value :=
  match l with [] => [] | (_, s) :: l => round_value i s :: number_rounds (i + 1) l end.
Definition position_record (initial : body) (final : option value) : value :=
  VObject ((bytes_of "initial", VObject initial) :: opt_value "final" id final).

Section Derive.
Context `{Crypto}.

Definition ID (session : bytes) : bytes := bytes_of "d-" ++ hex_encode (take 16 (sha256 (idDomain ++ session))).
Definition Msg (canon : bytes) : bytes := signDomain ++ canon.
Definition Hash (canon : bytes) : bytes := hex_encode (sha256 (Msg canon)).
Definition Sign (priv canon : bytes) : bytes := b64_encode (ed25519_Sign priv (Msg canon)).
Definition VerifySignature (key canon sig : bytes) : bool :=
  match b64_decode key, b64_decode sig with
  | Some pub, Some s => (length pub =? 32)%nat && (length s =? 64)%nat && ed25519_Verify pub (Msg canon) s
  | _, _ => false
  end.

Definition context_ref (f : value) : value :=
  let m := match f with VObject m => m | _ => [] end in
  let t := string_member "text" m in
  VObject [(bytes_of "name", VString (string_member "name" m)); (bytes_of "bytes", VNumber (Itoa (Z.of_nat (length t))));
           (bytes_of "sha256", VString (hex_encode (sha256 t)))].
Definition problem (req : body) : value :=
  VObject ([(bytes_of "title", null_or "title" req); (bytes_of "topic", null_or "brief" req)] ++
           opt_list "context" (λ l, VArray (map context_ref l)) (list_member "context" req)).

Definition record_value (i : DeriveInput) (req p0 p1 : body) (w : walk) (rd : list value) : body :=
  [(bytes_of "v", VNumber (Itoa 1)); (bytes_of "id", VString (ID (in_Session i))); (bytes_of "session", VString (in_Session i));
   (bytes_of "request", null_or "id" req); (bytes_of "team", null_or "team" req);
   (bytes_of "participants", VObject [(bytes_of "initiator", VString (in_Initiator i)); (bytes_of "respondent", VString (in_Respondent i))]);
   (bytes_of "rounds_max", VNumber (Itoa (RoundsMax i)));
   (bytes_of "outcome", VString (debate_outcome_text (in_Outcome i))); (bytes_of "reason", VString (debate_reason_text (in_Reason i)));
   (bytes_of "opened", null_or "created" req); (bytes_of "closed", VString (in_Closed i));
   (bytes_of "problem", problem req);
   (bytes_of "positions", VObject [(bytes_of "initiator", position_record p0 (by_initiator (w_finals w)));
                                   (bytes_of "respondent", position_record p1 (by_respondent (w_finals w)))])] ++
  opt_list "rounds" (λ l, VArray (number_rounds 0 l)) (w_rounds w) ++
  match w_proposal w with
  | None => []
  | Some p =>
      [(bytes_of "converge", VObject ((bytes_of "proposal", VObject p) :: opt_value "answer" VObject (w_answer w)))] ++
      (if bool_decide (in_Outcome i = OutcomeAgreed) then [(bytes_of "final_agreement", null_or "agreement" p)] else []) ++
      opt_list "remaining_disagreement" VArray rd ++
      opt_list "affected_artifacts" VArray (list_member "affected_artifacts" p)
  end ++
  opt_list "human_decisions" (λ l, VArray (map constraint_value l)) (sort_by constraint_lt (Constraints i)).

(** Rule 2: the positions in slots 0 and 1. *)
Definition opening (l : list (Z * TranscriptEntry * body)) : option (body * body) :=
  match l with
  | (0, e0, v0) :: (1, e1, v1) :: _ =>
      if bool_decide (de_Kind e0 = KindPosition) && bool_decide (de_Kind e1 = KindPosition) &&
         bool_decide (de_Author e0 = RoleInitiator) && bool_decide (de_Author e1 = RoleRespondent)
      then Some (v0, v1) else None
  | _ => None
  end.

Definition Derive (i : DeriveInput) : checked bytes :=
  let? req := parseObject (in_Request i) in
  let? m := by_slot (Count i) (Entries i) ∅ in
  let slots := sorted_slots m in
  let? l := parse_entries (omap (λ s, option_map (pair s) (m !! s)) slots) in
  match opening l with
  | None => Err ErrIncomplete
  | Some (p0, p1) =>
      let w := walk_entries l in
      let accept := match w_answer w with Some a => bool_member "accept" a | None => false end in
      guard? bool_decide (Expected (bool_decide (w_answer w ≠ None)) accept = (in_Outcome i, in_Reason i)) else ErrInconsistent in
      match parse_wire (string_member "created" req), parse_wire (in_Closed i) with
      | Some opened, Some closed =>
          guard? negb (closed <? opened) else ErrClosedBeforeOpened in
          let? rd := match w_proposal w with Some _ => mergeDisagreement (w_proposal w) (w_answer w) | None => Ok [] end in
          let? canon := match canonicalMap (record_value i req p0 p1 w rd) with Ok c => Ok c | Err _ => Err ErrDecision end in
          let n := Z.of_nat (length canon) in
          guard? negb (MaxDecision <? n) else TooLargeError n in Ok canon
      | _, _ => Err ErrDecision
      end
  end.
End Derive.
