(* ===== verification/DecisionVerify.v ===== *)
(** * Offline verification of a signed Decision (internal/decision/verify.go)

    The checks of a signed file, step by step. Of a failed check the step is
    kept, not the reason, so each check is a bool. The schema's validators
    are the daemon's own (debate.DecisionSchema in internal/debate). *)

From S2P Require Import Prelude Utf8 Canonical Strconv DisplayText WireTime Body RequestObject DebateEntry DebateTurns Signing DecisionRecord.
From stdpp Require Import gmap.

Open Scope Z_scope.

(** debate.DecisionSchema *)
Record Schema := MkSchema {
  sc_Entry : entry_kind → bytes → bool; sc_Title : bytes → bool; sc_Topic : bytes → bool; sc_Constraint : bytes → bool;
}.
Definition no_error {A} (r : checked A) : bool := match r with Ok _ => true | Err _ => false end.
Definition ValidateTitle (s : bytes) : checked unit := checkCodePoints (field "title") s 1 120 [].
Definition DecisionSchema `{Unicode} : Schema :=
  MkSchema (λ k canon, no_error (ParseEntry k canon)) (λ s, no_error (ValidateTitle s)) (λ s, no_error (ValidateTopic s))
           (λ s, no_error (ValidateConstraintText s)).

(** ** The shape of a value *)

Definition has_members (o : body) (required optional : list string) : bool :=
  forallb (λ k, bool_decide (is_Some (member (bytes_of k) o))) required &&
  forallb (λ p, bool_decide (p.1 ∈ map bytes_of (required ++ optional))) o.
Definition as_object (v : option value) : option body := match v with Some (VObject m) => Some m | _ => None end.
Definition as_array (v : option value) : option (list value) := match v with Some (VArray ((_ :: _) as l)) => Some l | _ => None end.
Definition as_string (v : option value) : option bytes := match v with Some (VString s) => Some s | _ => None end.
Definition matches (p : bytes → bool) (v : option value) : bool := match as_string v with Some s => p s | None => false end.
Definition intIn (v : option value) (lo hi : Z) : option Z :=
  match v with
  | Some (VNumber s) => match Int64 s with Some n => if in_range lo hi n then Some n else None | None => None end
  | _ => None
  end.
Definition is_object (v : option value) (f : body → bool) : bool := match as_object v with Some m => f m | None => false end.
Definition is_array (v : option value) (f : list value → bool) : bool := match as_array v with Some l => f l | None => false end.
(** A member checked when it is present. *)
Definition if_member (k : string) (o : body) (f : option value → bool) : bool :=
  match member (bytes_of k) o with Some v => f (Some v) | None => true end.

Definition hex64 (s : bytes) : bool := (length s =? 64)%nat && forallb is_lower_hex s.
Definition b64_char (c : Z) : bool := bool_decide (is_Some (b64_val c)).
Definition sigPattern (s : bytes) : bool := (length s =? 86)%nat && forallb b64_char s.
Definition keyPattern (s : bytes) : bool := (length s =? 43)%nat && forallb b64_char s.
Definition decisionIDPattern (s : bytes) : bool := hex_id 0x64 s.
Definition sessionPattern (s : bytes) : bool := hex_id 0x73 s.
Definition constraintIDPattern (s : bytes) : bool := hex_id 0x63 s.
Definition identity_key (s : bytes) : bool :=
  keyPattern s && match b64_decode s with Some raw => (length raw =? 32)%nat | None => false end.

(** ** Step 1: the schema *)

Section Verify.
Context `{Crypto}.
Variable schema : Schema.

Definition entry_ok (k : entry_kind) (v : option value) : bool :=
  is_object v (λ m, match CanonicalValue (VObject m) with Ok c => sc_Entry schema k c | Err _ => false end).

Definition name_rune (r : Z) : bool := negb ((r <? 0x20) || (r =? 0x7f) || (r =? 0x2F) || (r =? 0x5C) || in_range 0x80 0x9f r).
Definition context_ok (x : value) : bool :=
  is_object (Some x) (λ c,
    has_members c ["name"; "bytes"; "sha256"]%string [] &&
    matches (λ n, negb (bool_decide (n = [])) && (Z.of_nat (length n) <=? 255) && valid_utf8 n && forallb name_rune (runes n))
      (member (bytes_of "name") c) &&
    bool_decide (is_Some (intIn (member (bytes_of "bytes") c) 1 (2 ^ 20))) &&
    matches hex64 (member (bytes_of "sha256") c)).
Definition checkProblem (v : option value) : bool :=
  is_object v (λ p,
    has_members p ["title"; "topic"]%string ["context"]%string &&
    matches (sc_Title schema) (member (bytes_of "title") p) && matches (sc_Topic schema) (member (bytes_of "topic") p) &&
    if_member "context" p (λ v, is_array v (forallb context_ok))).

Definition position_ok (v : option value) : bool :=
  is_object v (λ p, has_members p ["initial"]%string ["final"]%string && forallb (λ x, entry_ok KindPosition (Some x.2)) p).
Definition round_ok (r : value) : bool :=
  is_object (Some r) (λ ro,
    has_members ro ["n"]%string ["initiator"; "respondent"]%string && (2 <=? length ro)%nat &&
    bool_decide (is_Some (intIn (member (bytes_of "n") ro) 1 5)) &&
    if_member "initiator" ro (entry_ok KindMove) && if_member "respondent" ro (entry_ok KindMove)).
Definition converge_ok (v : option value) : bool :=
  is_object v (λ c,
    has_members c ["proposal"]%string ["answer"]%string &&
    entry_ok KindProposal (member (bytes_of "proposal") c) && if_member "answer" c (entry_ok KindAnswer)).
(** A part of an entry, checked inside the smallest entry that holds it. *)
Definition final_agreement_ok (v : option value) : bool :=
  entry_ok KindProposal (match v with Some fa => Some (VObject [(bytes_of "agreement", fa)]) | None => None end).
Definition disagreement_ok (x : value) : bool :=
  entry_ok KindAnswer (Some (VObject [(bytes_of "accept", VBool false); (bytes_of "remaining_disagreement", VArray [x])])).
Definition artifacts_ok (l : list value) : bool :=
  entry_ok KindProposal (Some (VObject [(bytes_of "agreement", VObject [(bytes_of "decision", VString (bytes_of "x"))]);
                                        (bytes_of "affected_artifacts", VArray l)])).
Definition wire_ok (v : option value) : bool := bool_decide (is_Some (decodeTime v)).
Definition human_ok (x : value) : bool :=
  is_object (Some x) (λ h,
    has_members h ["id"; "by"; "at"; "text"]%string [] &&
    matches constraintIDPattern (member (bytes_of "id") h) &&
    matches (λ s, bool_decide (s = party_text RoleInitiator) || bool_decide (s = party_text RoleRespondent)) (member (bytes_of "by") h) &&
    wire_ok (member (bytes_of "at") h) && matches (sc_Constraint schema) (member (bytes_of "text") h)).

Definition required_members : list string :=
  ["v"; "id"; "session"; "request"; "team"; "participants"; "problem"; "rounds_max"; "positions"; "outcome"; "reason"; "opened"; "closed"]%string.
Definition optional_members : list string :=
  ["rounds"; "converge"; "final_agreement"; "remaining_disagreement"; "human_decisions"; "affected_artifacts"]%string.

Definition checkSchema (d : body) : bool :=
  has_members d required_members optional_members &&
  bool_decide (is_Some (intIn (member (bytes_of "v") d) 1 1)) &&
  matches decisionIDPattern (member (bytes_of "id") d) && matches sessionPattern (member (bytes_of "session") d) &&
  matches ValidID (member (bytes_of "request") d) && matches teamPattern (member (bytes_of "team") d) &&
  is_object (member (bytes_of "participants") d) (λ p,
    has_members p ["initiator"; "respondent"]%string [] &&
    matches identity_key (member (bytes_of "initiator") p) && matches identity_key (member (bytes_of "respondent") p)) &&
  checkProblem (member (bytes_of "problem") d) &&
  match intIn (member (bytes_of "rounds_max") d) 1 5 with
  | None => false
  | Some rmax =>
      is_object (member (bytes_of "positions") d) (λ p,
        has_members p ["initiator"; "respondent"]%string [] &&
        position_ok (member (bytes_of "initiator") p) && position_ok (member (bytes_of "respondent") p)) &&
      if_member "rounds" d (λ v, is_array v (λ l, (Z.of_nat (length l) <=? rmax) && forallb round_ok l))
  end &&
  if_member "converge" d converge_ok && if_member "final_agreement" d final_agreement_ok &&
  if_member "remaining_disagreement" d (λ v, is_array v (forallb disagreement_ok)) &&
  if_member "affected_artifacts" d (λ v, is_array v artifacts_ok) &&
  if_member "human_decisions" d (λ v, is_array v (forallb human_ok)) &&
  matches (λ s, bool_decide (s ∈ map debate_outcome_text [OutcomeAgreed; OutcomeEscalated])) (member (bytes_of "outcome") d) &&
  matches (λ s, bool_decide (s ∈ map debate_reason_text [ReasonAccepted; ReasonRejected; ReasonTimeout])) (member (bytes_of "reason") d) &&
  wire_ok (member (bytes_of "opened") d) && wire_ok (member (bytes_of "closed") d).

(** ** Step 5: the invariants of the derivation *)

Definition canonicalEqual (a b : value) : bool :=
  match CanonicalValue a, CanonicalValue b with Ok x, Ok y => bool_decide (x = y) | _, _ => false end.
(** Present on both sides and equal, or on neither. *)
Definition same_member (got want : option value) : bool :=
  match got, want with Some a, Some b => canonicalEqual a b | None, None => true | _, _ => false end.

Fixpoint check_rounds (i : Z) (finals : sides value) (l : list value) : option (sides value) :=
  match l with
  | [] => Some finals
  | r :: l =>
      let ro := default [] (as_object (Some r)) in
      if negb (bool_decide (intIn (member (bytes_of "n") ro) 1 5 = Some (i + 1))) then None else
      let step p k f := match as_object (member (bytes_of k) ro) with
                        | Some mv => match member (bytes_of "revision") mv with Some rev => set_side p rev f | None => f end
                        | None => f
                        end in
      check_rounds (i + 1) (step RoleRespondent "respondent"%string (step RoleInitiator "initiator"%string finals)) l
  end.

Definition checkInvariants (d : body) : bool :=
  let converge := default [] (as_object (member (bytes_of "converge") d)) in
  let proposal := as_object (member (bytes_of "proposal") converge) in
  let answer := as_object (member (bytes_of "answer") converge) in
  let accept := match answer with Some a => bool_member "accept" a | None => false end in
  let outcome := string_member "outcome" d in
  let '(o, r) := Expected (bool_decide (answer ≠ None)) accept in
  bool_decide (debate_outcome_text o = outcome) && bool_decide (debate_reason_text r = string_member "reason" d) &&
  (let fa := member (bytes_of "final_agreement") d in
   bool_decide (bool_decide (outcome = debate_outcome_text OutcomeAgreed) = bool_decide (fa ≠ None)) &&
   match fa with
   | None => true
   | Some fa => match proposal with Some p => canonicalEqual fa (null_or "agreement" p) | None => false end
   end) &&
  match (match proposal with Some _ => mergeDisagreement proposal answer | None => Ok [] end) with
  | Err _ => false
  | Ok want =>
      same_member (member (bytes_of "remaining_disagreement") d) (match want with [] => None | _ => Some (VArray want) end)
  end &&
  same_member (member (bytes_of "affected_artifacts") d)
    (match proposal with Some p => match member (bytes_of "affected_artifacts") p with Some VNull => None | v => v end | None => None end) &&
  match check_rounds 0 no_sides (list_member "rounds" d) with
  | None => false
  | Some finals =>
      let pos := default [] (as_object (member (bytes_of "positions") d)) in
      let final k := member (bytes_of "final") (default [] (as_object (member (bytes_of k) pos))) in
      same_member (final "initiator"%string) (by_initiator finals) && same_member (final "respondent"%string) (by_respondent finals)
  end &&
  (let parts := default [] (as_object (member (bytes_of "participants") d)) in
   negb (bool_decide (string_member "initiator" parts = string_member "respondent" parts))) &&
  negb (default zeroTime (decodeTime (member (bytes_of "closed") d)) <? default zeroTime (decodeTime (member (bytes_of "opened") d))).

(** ** Verify *)

Record VerifyResult := MkVerify {
  Valid : bool; Complete : bool; Step : Z; SignedBy : list party; v_Hash : bytes; v_ID : bytes;
  v_Initiator : bytes; v_Respondent : bytes; v_Decision : bytes; SigInitiator : bytes; SigRespondent : bytes;
}.
Definition fail1 : VerifyResult := MkVerify false false 1 [] [] [] [] [] [] [] [].
(** Past step 1: what is known of the file. *)
Definition known (step : Z) (canon id a b : bytes) : VerifyResult :=
  MkVerify false false step [] (Hash canon) id a b canon [] [].

(** Steps 2 to 5 on a decision of the right shape. *)
Definition verify_decision (d : body) (canon hash sigI : bytes) (sigR : option bytes) : VerifyResult :=
  let parts := default [] (as_object (member (bytes_of "participants") d)) in
  let a := string_member "initiator" parts in
  let b := string_member "respondent" parts in
  let id := string_member "id" d in
  if negb (bool_decide (Hash canon = hash)) then known 2 canon id a b else
  if negb (VerifySignature a canon sigI && match sigR with Some s => VerifySignature b canon s | None => true end) then known 3 canon id a b else
  if negb (bool_decide (id = ID (string_member "session" d))) then known 4 canon id a b else
  if negb (checkInvariants d) then known 5 canon id a b else
  MkVerify true (bool_decide (sigR ≠ None)) 0 (RoleInitiator :: match sigR with Some _ => [RoleRespondent] | None => [] end)
    (Hash canon) id a b canon sigI (default [] sigR).

Definition file_signature (sigs : body) (k : string) : option (option bytes) :=
  match member (bytes_of k) sigs with
  | None => Some None
  | Some (VString s) => if sigPattern s then Some (Some s) else None
  | Some _ => None
  end.

Definition Verify (data : bytes) : VerifyResult :=
  match ParseStrict data with
  | Ok (VObject file) =>
      if negb (has_members file ["decision"; "hash"; "signatures"]%string []) then fail1 else
      match as_object (member (bytes_of "decision") file), as_string (member (bytes_of "hash") file),
            as_object (member (bytes_of "signatures") file) with
      | Some d, Some hash, Some sigs =>
          if negb (hex64 hash && has_members sigs ["initiator"]%string ["respondent"]%string) then fail1 else
          match file_signature sigs "initiator", file_signature sigs "respondent" with
          | Some (Some sigI), Some sigR =>
              if negb (checkSchema d) then fail1 else
              let parts := default [] (as_object (member (bytes_of "participants") d)) in
              let partly := MkVerify false false 1 [] [] (string_member "id" d) (string_member "initiator" parts)
                              (string_member "respondent" parts) [] [] [] in
              match CanonicalValue (VObject d) with
              | Err _ => partly
              | Ok canon => if MaxDecision <? Z.of_nat (length canon) then partly else verify_decision d canon hash sigI sigR
              end
          | _, _ => fail1
          end
      | _, _, _ => fail1
      end
  | _ => fail1
  end.
End Verify.
