(* ===== verification/DecisionProofs.v ===== *)
(** * Decisions: the derivation depends on the transcript alone, and what it
    derives passes the verifier's invariants *)

From S2P Require Import Prelude Utf8 Canonical Strconv DisplayText WireTime Body RequestObject DebateEntry DebateTurns Signing DecisionRecord DecisionVerify.
From stdpp Require Import gmap.

Open Scope Z_scope.

(** ** Sorting distinct elements *)

Section SortBy.
Context {A : Type} (lt : A → A → bool).
Hypothesis lt_trans : ∀ a b c, lt a b = true → lt b c = true → lt a c = true.

Lemma insert_by_comm x y l : lt x y = negb (lt y x) → insert_by lt x (insert_by lt y l) = insert_by lt y (insert_by lt x l).
Proof.
  intros Hxy. induction l as [|z l IH]; simpl.
  { rewrite Hxy. by destruct (lt y x). }
  destruct (lt z x) eqn:H1, (lt z y) eqn:H2; simpl; rewrite ?H1, ?H2; [by f_equal|..].
  - destruct (lt y x) eqn:H3; [done|]. simpl in Hxy. by rewrite (lt_trans _ _ _ H1 Hxy) in H2.
  - destruct (lt y x) eqn:H3; simpl in Hxy; rewrite Hxy; [|done]. by rewrite (lt_trans _ _ _ H2 H3) in H1.
  - rewrite Hxy. by destruct (lt y x).
Qed.

Lemma sort_by_unique l l' : l ≡ₚ l' → NoDup l → (∀ x y, x ∈ l → y ∈ l → x ≠ y → lt x y = negb (lt y x)) →
  sort_by lt l = sort_by lt l'.
Proof.
  induction 1 as [|x l l' Hl IH|x y l|l1 l2 l3 H12 IH1 H23 IH2]; simpl; intros Hnd Hv; [done|..].
  - apply NoDup_cons in Hnd as [_ ?]. f_equal. apply IH; [done|]. intros a b Ha Hb. apply Hv; by right.
  - apply NoDup_cons in Hnd as [Hnin _]. apply insert_by_comm.
    apply Hv; [by left|right; by left|]. intros ->. apply Hnin. by left.
  - rewrite IH1 by done. apply IH2; [by rewrite <- H12|]. intros a b. rewrite <- H12. apply Hv.
Qed.

Lemma insert_by_perm x l : insert_by lt x l ≡ₚ x :: l.
Proof. induction l as [|y l IH]; simpl; [done|]. destruct (lt y x); [rewrite IH; apply Permutation_swap|done]. Qed.
Lemma sort_by_perm l : sort_by lt l ≡ₚ l.
Proof. induction l as [|x l IH]; simpl; [done|]. by rewrite insert_by_perm, IH. Qed.

(** In ascending order. *)
Lemma sort_by_sorted l : (∀ x y, lt x y = false → x = y ∨ lt y x = true) → StronglySorted (λ x y, x = y ∨ lt x y = true) (sort_by lt l).
Proof.
  intros Htot. induction l as [|x l IH]; simpl; [constructor|]. revert IH. generalize (sort_by lt l). clear l.
  induction l as [|y l IH]; intros Hs; simpl; [by constructor|]. apply StronglySorted_inv in Hs as [Hs Hy].
  destruct (lt y x) eqn:E.
  - constructor; [by apply IH|]. rewrite insert_by_perm. constructor; [by right|done].
  - constructor; [by constructor|]. apply Htot in E as [->|E].
    + constructor; [by left|done].
    + constructor; [by right|]. eapply Forall_impl; [exact Hy|]. intros z [->|Hz]; right; [done|by eapply lt_trans].
Qed.
End SortBy.

Lemma text_lt_asym a b : a ≠ b → text_lt a b = negb (text_lt b a).
Proof.
  revert b. induction a as [|x a IH]; intros [|y b] Hn; simpl; try done.
  destruct (x =? y) eqn:E, (y =? x) eqn:E'; bprop; try lia.
  apply IH. congruence.
Qed.
Lemma text_lt_trans a b c : text_lt a b = true → text_lt b c = true → text_lt a c = true.
Proof.
  revert b c. induction a as [|x a IH]; intros [|y b] [|z c]; simpl; try done.
  destruct (x =? y) eqn:E1, (y =? z) eqn:E2, (x =? z) eqn:E3; bprop; subst; intros; bprop; try lia; [by eapply IH|..];
    try (apply Z.ltb_lt; lia).
Qed.

Lemma constraint_lt_trans a b c : constraint_lt a b = true → constraint_lt b c = true → constraint_lt a c = true.
Proof.
  unfold constraint_lt. destruct (decide (dc_At a = dc_At b)) as [E1|E1].
  - rewrite (bool_decide_eq_true_2 (dc_At a = dc_At b)) by done. rewrite E1.
    case_bool_decide; [apply text_lt_trans|done].
  - rewrite (bool_decide_eq_false_2 (dc_At a = dc_At b)) by done. case_bool_decide as E2.
    + rewrite <- E2. by rewrite bool_decide_eq_false_2.
    + intros H1 H2. case_bool_decide as E3; [|by eapply text_lt_trans]. rewrite E3 in H1. rewrite text_lt_asym in H1 by congruence.
      by rewrite H2 in H1.
Qed.
Lemma constraint_lt_asym a b : dc_ID a ≠ dc_ID b → constraint_lt a b = negb (constraint_lt b a).
Proof.
  unfold constraint_lt. intros Hn. case_bool_decide as E1; case_bool_decide as E2; try congruence; by apply text_lt_asym.
Qed.

(** ** The order of the entries and of the constraints does not matter *)

Lemma by_slot_perm n l l' : l ≡ₚ l' → ∀ m, by_slot n l m = by_slot n l' m.
Proof.
  induction 1 as [|e l l' Hl IH|a b l|l1 l2 l3 H12 IH1 H23 IH2]; intros m; [done|..].
  - cbn [by_slot]. destruct (_ || _); [apply IH|]. destruct (m !! de_Slot e); [done|apply IH].
  - cbn [by_slot]. destruct ((de_Slot a <? 0) || _) eqn:Ea, ((de_Slot b <? 0) || _) eqn:Eb; try done.
    destruct (decide (de_Slot a = de_Slot b)) as [E|E].
    + rewrite !E. destruct (m !! de_Slot b); [done|]. by rewrite !lookup_insert_eq.
    + rewrite !lookup_insert_ne by congruence.
      destruct (m !! de_Slot a), (m !! de_Slot b); try done. by rewrite insert_insert_ne.
  - by rewrite IH1, IH2.
Qed.

(** The transcript and the constraints as sets: both daemons, reading their
    own tables in any order, derive the same bytes. *)
Lemma Derive_perm `{Crypto} i i' : in_Session i' = in_Session i → in_Initiator i' = in_Initiator i → in_Respondent i' = in_Respondent i →
  in_Request i' = in_Request i → RoundsMax i' = RoundsMax i → Count i' = Count i → in_Outcome i' = in_Outcome i →
  in_Reason i' = in_Reason i → in_Closed i' = in_Closed i →
  Entries i' ≡ₚ Entries i → Constraints i' ≡ₚ Constraints i → NoDup (map dc_ID (Constraints i)) → Derive i' = Derive i.
Proof.
  destruct i as [s a b rq rm es n cs o r c], i' as [s' a' b' rq' rm' es' n' cs' o' r' c'].
  cbn. intros -> -> -> -> -> -> -> -> -> He Hc Hd. unfold Derive. cbn -[sorted_slots opening walk_entries record_value].
  rewrite (by_slot_perm _ _ _ He). unfold record_value. cbn [Constraints in_Session in_Initiator in_Respondent RoundsMax in_Outcome in_Reason in_Closed].
  rewrite (sort_by_unique constraint_lt constraint_lt_trans cs' cs); [done|done|..].
  - apply (NoDup_fmap_1 dc_ID). by rewrite Hc.
  - intros x y Hx Hy Hne. apply constraint_lt_asym. intros E. apply Hne. rewrite Hc in Hx, Hy.
    clear -Hd Hx Hy E. revert Hd Hx Hy. induction cs as [|z cs IH]; [by intros _ ?%elem_of_nil|].
    cbn [map]. rewrite NoDup_cons, !elem_of_cons. intros [Hn Hd].
    assert (∀ w, w ∈ cs → dc_ID w = dc_ID z → False) as Hno.
    { intros w Hw Ew. apply Hn. rewrite <- Ew. apply elem_of_map_list. by exists w. }
    intros [->|Hx] [->|Hy]; [done|exfalso; by eapply Hno|exfalso; by eapply Hno|by apply IH].
Qed.

(** ** The rounds of the record give back the final positions *)

Definition norm_sides (s : sides value) : sides value := Sides (option_map norm (by_initiator s)) (option_map norm (by_respondent s)).
Definition revision_of (p : party) (sd : sides body) (f : sides value) : sides value :=
  match side p sd with
  | Some mv => match member (bytes_of "revision") mv with Some r => set_side p r f | None => f end
  | None => f
  end.
(** What check_rounds computes, on the rounds the walk collected. *)
Definition round_finals (f : sides value) (r : Z * sides body) : sides value :=
  revision_of RoleRespondent r.2 (revision_of RoleInitiator r.2 f).
Definition wf_sides (sd : sides body) : Prop := ∀ p mv, side p sd = Some mv → wf (VObject mv) = true.

Lemma as_object_norm m : wf (VObject m) = true → ∃ m', as_object (Some (norm (VObject m))) = Some m' ∧
  norm (VObject m) = VObject m' ∧ (∀ k, member k m' = option_map norm (member k m)).
Proof.
  intros [Hd _]%wf_object. destruct (norm_reads m Hd) as (m' & E & _ & Hm). exists m'. by rewrite E.
Qed.

Lemma member_opt_value {A} k (n : string) (f : A → value) o : member k (opt_value n f o) =
  if bool_decide (bytes_of n = k) then option_map f o else None.
Proof. unfold opt_value. destruct o; [done|]. by case_bool_decide. Qed.
Lemma opt_part_keys {A} k (f : A → value) o : map fst (opt_value k f o) `sublist_of` [bytes_of k].
Proof. unfold opt_value. destruct o; cbn; [done|constructor; constructor]. Qed.
Ltac members2 := repeat (progress (members; rewrite ?member_opt_value)).

Lemma revision_norm p mv (f : sides value) : wf (VObject mv) = true → ∃ m', as_object (Some (norm (VObject mv))) = Some m' ∧
  match member (bytes_of "revision") m' with Some r => set_side p r (norm_sides f) | None => norm_sides f end =
  norm_sides (match member (bytes_of "revision") mv with Some r => set_side p r f | None => f end).
Proof.
  intros Hw. destruct (as_object_norm mv Hw) as (m' & E & _ & Hm). exists m'. split; [done|]. rewrite Hm.
  destruct (member _ mv) as [r|]; [|done]. by destruct p.
Qed.

Lemma round_value_reads i sd : ∃ ro, as_object (Some (norm (round_value i sd))) = Some ro ∧
  member (bytes_of "n") ro = Some (VNumber (Itoa (i + 1))) ∧
  member (bytes_of "initiator") ro = option_map (λ m, norm (VObject m)) (by_initiator sd) ∧
  member (bytes_of "respondent") ro = option_map (λ m, norm (VObject m)) (by_respondent sd).
Proof.
  unfold round_value. destruct (norm_reads ((bytes_of "n", VNumber (Itoa (i + 1))) :: opt_value "initiator" VObject (by_initiator sd) ++
    opt_value "respondent" VObject (by_respondent sd))) as (ro & -> & _ & Hm).
  { eapply (NoDup_known _ (map bytes_of ["n"; "initiator"; "respondent"]%string)); [|vm_compute; reflexivity].
    cbn [map fst]. rewrite map_app. apply sublist_skip. apply sub_more; apply opt_part_keys. }
  exists ro. split; [done|]. rewrite !Hm. members2. by destruct (by_initiator sd), (by_respondent sd).
Qed.

Lemma step_norm p sd f : wf_sides sd →
  match as_object (option_map (λ m, norm (VObject m)) (side p sd)) with
  | Some mv => match member (bytes_of "revision") mv with Some r => set_side p r (norm_sides f) | None => norm_sides f end
  | None => norm_sides f
  end = norm_sides (revision_of p sd f).
Proof.
  intros Hs. unfold revision_of. destruct (side p sd) as [mv|] eqn:E; [|done]. cbn [option_map].
  destruct (revision_norm p mv f) as (m' & -> & Hr); [by apply (Hs p)|exact Hr].
Qed.

Lemma check_rounds_numbered rounds : ∀ i f, 0 ≤ i → i + Z.of_nat (length rounds) ≤ 5 → Forall (λ r, wf_sides r.2) rounds →
  check_rounds i (norm_sides f) (map norm (number_rounds i rounds)) = Some (norm_sides (fold_left round_finals rounds f)).
Proof.
  induction rounds as [|[n sd] rounds IH]; intros i f Hi Hl Hw; [done|]. cbn [length] in Hl.
  apply Forall_cons in Hw as [Hsd Hw]. cbn [number_rounds map check_rounds fold_left].
  destruct (round_value_reads i sd) as (ro & -> & Hn & Ha & Hb). cbv zeta. cbn [from_option id]. rewrite Hn, Ha, Hb.
  assert (intIn (Some (VNumber (Itoa (i + 1)))) 1 5 = Some (i + 1)) as ->.
  { unfold intIn. rewrite Int64_Itoa by lia. by rewrite (proj2 (in_range_spec _ _ _)) by lia. }
  rewrite bool_decide_eq_true_2 by done. cbn [negb]. cbv beta zeta.
  rewrite <- (IH (i + 1)) by (done || lia). f_equal. unfold round_finals. cbn [snd].
  pose proof (step_norm RoleInitiator sd f Hsd) as Si. pose proof (step_norm RoleRespondent sd (revision_of RoleInitiator sd f) Hsd) as Sr.
  cbn [side] in Si, Sr. by rewrite Si, Sr.
Qed.

(** *** The walk over the entries in slot order *)

Record walk_inv (w : walk) (s : Z) : Prop := {
  wi_finals : w_finals w = fold_left round_finals (w_rounds w) no_sides;
  wi_last : w_rounds w = [] ∨ ∃ rs n sd, w_rounds w = rs ++ [(n, sd)] ∧ Forall (λ r, r.1 < n) rs ∧ 2 * n < s ∧
              (s ≤ 2 * n + 1 → by_respondent sd = None);
  wi_keys : StronglySorted Z.lt (map fst (w_rounds w)) ∧ Forall (λ r, 1 ≤ r.1 ≤ 5) (w_rounds w);
  wi_wf : Forall (λ r, wf_sides r.2) (w_rounds w);
}.

Lemma walk_inv_later w s t : walk_inv w s → s ≤ t → walk_inv w t.
Proof.
  intros [H1 H2 H3 H4] Hst. split; try done. destruct H2 as [?|(rs & n & sd & E & Hr & Hn & Hs)]; [by left|].
  right. exists rs, n, sd. split_and!; [done|done|lia|]. intros ?. apply Hs. lia.
Qed.

Lemma walk_inv_same w w' s : w_rounds w' = w_rounds w → w_finals w' = w_finals w → walk_inv w s → walk_inv w' s.
Proof. intros E1 E2 []. by split; rewrite ?E1, ?E2. Qed.

Lemma add_move_new n p v rounds : Forall (λ r : Z * sides body, r.1 < n) rounds → add_move n p v rounds = rounds ++ [(n, set_side p v no_sides)].
Proof.
  induction 1 as [|[k sd] rounds Hk _ IH]; [done|]. cbn [add_move fst] in *. rewrite (proj2 (Z.eqb_neq k n)) by lia. by rewrite IH.
Qed.
Lemma add_move_last n p v rs sd : Forall (λ r : Z * sides body, r.1 < n) rs → add_move n p v (rs ++ [(n, sd)]) = rs ++ [(n, set_side p v sd)].
Proof.
  induction 1 as [|[k sd'] rs Hk _ IH]; cbn [add_move fst app] in *; [by rewrite Z.eqb_refl|].
  rewrite (proj2 (Z.eqb_neq k n)) by lia. by rewrite IH.
Qed.
Lemma wf_set_side p v sd : wf (VObject v) = true → wf_sides sd → wf_sides (set_side p v sd).
Proof. intros Hv Hs q mv. destruct p, q; cbn; try (by intros [= <-]); [apply (Hs RoleRespondent)|apply (Hs RoleInitiator)]. Qed.
Lemma wf_no_sides : wf_sides no_sides.
Proof. by intros [] mv. Qed.

Lemma sorted_snoc l x : StronglySorted Z.lt l → Forall (λ y, y < x) l → StronglySorted Z.lt (l ++ [x]).
Proof.
  intros Hs Hf. apply StronglySorted_app. split; [|split; [done|repeat constructor]].
  intros y z Hy ->%list_elem_of_singleton. rewrite Forall_forall in Hf. by apply Hf.
Qed.

(** A round's moves, one at a time. *)
Lemma finals_append rs n p v f : fold_left round_finals (rs ++ [(n, set_side p v no_sides)]) f =
  match member (bytes_of "revision") v with Some r => set_side p r (fold_left round_finals rs f) | None => fold_left round_finals rs f end.
Proof. rewrite fold_left_app. cbn [fold_left]. by destruct p. Qed.
Lemma finals_complete rs n sd v f : by_respondent sd = None → fold_left round_finals (rs ++ [(n, set_side RoleRespondent v sd)]) f =
  match member (bytes_of "revision") v with
  | Some r => set_side RoleRespondent r (fold_left round_finals (rs ++ [(n, sd)]) f)
  | None => fold_left round_finals (rs ++ [(n, sd)]) f
  end.
Proof.
  intros Hn. rewrite !fold_left_app. cbn [fold_left]. unfold round_finals. cbn [snd].
  unfold revision_of. cbn [side set_side by_initiator by_respondent]. by rewrite Hn.
Qed.

Definition move_ok (s : Z) (e : TranscriptEntry) (v : body) : Prop :=
  de_Kind e = KindMove → de_Author e = moveAuthor s ∧ 2 ≤ s ≤ 11 ∧ wf (VObject v) = true.

Lemma walk_inv_step w s t e v : walk_inv w s → s ≤ t → move_ok t e v → walk_inv (walk_entry w (t, e, v)) (t + 1).
Proof.
  intros Hw Hst Hm. assert (s ≤ t + 1) as Hst' by lia. unfold walk_entry. destruct (de_Kind e) eqn:Ek;
    try (eapply walk_inv_later; [|exact Hst']; by apply (walk_inv_same w)).
  - destruct (Hm Ek) as (Ha & Ht & Hv). destruct Hw as [H1 H2 [H3 H3'] H4].
    assert (1 ≤ t / 2 ≤ 5) as Hk by (pose proof (half_bounds t); lia).
    destruct H2 as [E|(rs & n & sd & E & Hr & Hn & Hs)].
    + rewrite E in *. cbn [add_move]. split; cbn [w_finals w_rounds map fst].
      * rewrite H1. symmetry. apply (finals_append []).
      * right. exists [], (t / 2), (set_side (de_Author e) v no_sides). split_and!; [done|constructor|pose proof (half_bounds t); lia|].
        intros Ho. rewrite Ha. unfold moveAuthor. pose proof (Z.div_mod t 2). rewrite (proj2 (Z.eqb_eq _ _)) by (pose proof (half_bounds t); lia). done.
      * split; repeat constructor; cbn; lia.
      * apply Forall_cons. split; [apply wf_set_side; [done|apply wf_no_sides]|constructor].
    + rewrite E in *. assert (n ≤ t / 2) as Hle by (apply Z.div_le_lower_bound; lia).
      destruct (decide (n = t / 2)) as [En|En].
      * assert (t = 2 * n + 1) as Et by (pose proof (half_bounds t); lia).
        rewrite <- En, (add_move_last n) by done.
        assert (de_Author e = RoleRespondent) as Er.
        { rewrite Ha. unfold moveAuthor. pose proof (Z.div_mod t 2). rewrite (proj2 (Z.eqb_neq _ _)) by lia. done. }
        rewrite Er. rewrite Forall_app, Forall_cons, Forall_nil in H4. destruct H4 as (H4 & Hsd & _).
        rewrite Forall_app, Forall_cons, Forall_nil in H3'. destruct H3' as (H3r & H3n & _).
        split; cbn [w_finals w_rounds].
        -- rewrite finals_complete by (apply Hs; lia). by rewrite H1.
        -- right. exists rs, n, (set_side RoleRespondent v sd). split_and!; [done|done|lia|lia].
        -- rewrite map_app in *. cbn [map fst] in *. split; [done|]. rewrite Forall_app, Forall_cons, Forall_nil. done.
        -- rewrite Forall_app, Forall_cons, Forall_nil. split_and!; [done| |done]. by apply wf_set_side.
      * assert (Forall (λ r : Z * sides body, r.1 < t / 2) (rs ++ [(n, sd)])) as Hlt.
        { apply Forall_app. split; [eapply Forall_impl; [exact Hr|intros; cbn in *; lia]|repeat constructor; cbn; lia]. }
        rewrite add_move_new by done. split; cbn [w_finals w_rounds].
        -- rewrite finals_append. by rewrite H1.
        -- right. exists (rs ++ [(n, sd)]), (t / 2), (set_side (de_Author e) v no_sides).
           split_and!; [done|done|pose proof (half_bounds t); lia|]. intros Ho. rewrite Ha. unfold moveAuthor.
           pose proof (Z.div_mod t 2). rewrite (proj2 (Z.eqb_eq _ _)) by (pose proof (half_bounds t); lia). done.
        -- rewrite map_app. cbn [map fst]. split; [apply sorted_snoc; [done|]|].
           { apply Forall_forall. intros y (x & -> & Hx)%elem_of_map_list. rewrite Forall_forall in Hlt. by apply Hlt. }
           apply Forall_app. split; [done|]. apply Forall_cons. split; [cbn; lia|constructor].
        -- apply Forall_app. split; [done|]. apply Forall_cons. split; [apply wf_set_side; [done|apply wf_no_sides]|constructor].
Qed.

(** ** The entries the derivation walks over *)

Lemma by_slot_spec n es : ∀ m m', by_slot n es m = Ok m' →
  (∀ s e, m' !! s = Some e → m !! s = Some e ∨ (e ∈ es ∧ de_Slot e = s ∧ 0 ≤ s < n)) ∧
  (∀ s e, m !! s = Some e → m' !! s = Some e) ∧ (∀ e, e ∈ es → 0 ≤ de_Slot e < n → m' !! de_Slot e = Some e).
Proof.
  induction es as [|x es IH]; intros m m'; cbn [by_slot].
  - intros [= <-]. split_and!; [by left|done|by intros ? ?%elem_of_nil].
  - destruct ((de_Slot x <? 0) || (n <=? de_Slot x)) eqn:Ex.
    + intros (H1 & H2 & H3)%IH. split_and!; [|done|].
      * intros s e Hs. destruct (H1 s e Hs) as [?|(? & ? & ?)]; [by left|right; split_and!; [by right|(done || lia)..]].
      * intros e [->|He]%elem_of_cons Hr; [|by apply H3]. apply orb_true_iff in Ex. destruct Ex; bprop; lia.
    + bprop. destruct (m !! de_Slot x) eqn:Em; [done|]. intros (H1 & H2 & H3)%IH. split_and!.
      * intros s e Hs. destruct (H1 s e Hs) as [Hi|(? & ? & ?)]; [|right; split_and!; [by right|(done || lia)..]].
        apply lookup_insert_Some in Hi as [[<- <-]|[_ Hi]]; [|by left]. right. split_and!; [by left|done|lia|lia].
      * intros s e Hs. apply H2. rewrite lookup_insert_ne; [done|]. congruence.
      * intros e [->|He]%elem_of_cons Hr; [|by apply H3]. apply H2. apply lookup_insert_eq.
Qed.

Lemma sorted_slots_spec {A} (m : gmap Z A) : StronglySorted Z.lt (sorted_slots m) ∧ ∀ s, s ∈ sorted_slots m ↔ is_Some (m !! s).
Proof.
  set (l := map fst (map_to_list m)). assert (NoDup l) as Hd by apply NoDup_fst_map_to_list.
  assert (sorted_slots m ≡ₚ l) as Hp by apply sort_by_perm. split.
  - assert (StronglySorted (λ x y, x = y ∨ (x <? y) = true) (sort_by Z.ltb l)) as Hs.
    { apply sort_by_sorted; [intros x y z; rewrite !Z.ltb_lt; lia|]. intros x y Hxy%Z.ltb_ge. rewrite Z.ltb_lt. lia. }
    change (sort_by Z.ltb l) with (sorted_slots m) in Hs. rewrite <- Hp in Hd. clear Hp. revert Hs Hd.
    generalize (sorted_slots m). clear. intros xs Hs Hd. induction Hs as [|x xs Hs IH Hx]; [constructor|]. apply NoDup_cons in Hd as [Hn Hd]. constructor; [by apply IH|].
    rewrite Forall_forall in *. intros y Hy. destruct (Hx y Hy) as [->|?%Z.ltb_lt]; [done|done].
  - intros s. rewrite Hp. unfold l. rewrite elem_of_map_list. split.
    + intros ([s' a] & -> & Ha%elem_of_map_to_list). by exists a.
    + intros [a Ha]. exists (s, a). split; [done|]. by apply elem_of_map_to_list.
Qed.

Lemma parse_entries_spec l0 : ∀ l, parse_entries l0 = Ok l → map fst l = l0 ∧ Forall (λ x, parseObject (de_Canon x.1.2) = Ok x.2) l.
Proof.
  induction l0 as [|[s e] l0 IH]; intros l; cbn [parse_entries]; [by intros [= <-]|].
  intros (v & Hv & (r & Hr & [= <-])%rbind_ok)%rbind_ok. apply IH in Hr as [<- Hf]. split; [done|]. by constructor.
Qed.

Definition slot_entry (m : gmap Z TranscriptEntry) (slots : list Z) : list (Z * TranscriptEntry) :=
  omap (λ s, option_map (pair s) (m !! s)) slots.
Lemma slot_entry_fst m slots : (∀ s, s ∈ slots → is_Some (m !! s)) → map fst (slot_entry m slots) = slots ∧
  ∀ s e, (s, e) ∈ slot_entry m slots → m !! s = Some e.
Proof.
  intros Hs. induction slots as [|s slots IH]; [split; [done|by intros ?? ?%elem_of_nil]|].
  destruct (Hs s) as [e He]; [by left|]. destruct IH as [IH1 IH2]; [intros; apply Hs; by right|].
  unfold slot_entry in *. cbn [omap list_omap]. rewrite He. cbn [option_map map fst]. rewrite IH1. split; [done|].
  intros s' e' [[= -> ->]|?]%elem_of_cons; [done|by apply IH2].
Qed.

(** An entry the derivation read: its slot, its kind and its parsed value. *)
Definition walked (i : DeriveInput) (x : Z * TranscriptEntry * body) : Prop :=
  x.1.2 ∈ Entries i ∧ de_Slot x.1.2 = x.1.1 ∧ 0 ≤ x.1.1 < Count i ∧ parseObject (de_Canon x.1.2) = Ok x.2.

Lemma walked_spec i m l : by_slot (Count i) (Entries i) ∅ = Ok m → parse_entries (slot_entry m (sorted_slots m)) = Ok l →
  StronglySorted Z.lt (map (λ x, x.1.1) l) ∧ Forall (walked i) l ∧
  ∀ e, e ∈ Entries i → 0 ≤ de_Slot e < Count i → ∃ v, (de_Slot e, e, v) ∈ l.
Proof.
  intros (H1 & _ & H3)%by_slot_spec [Hl Hf]%parse_entries_spec. destruct (sorted_slots_spec m) as [Hs Hd].
  destruct (slot_entry_fst m (sorted_slots m)) as [Hfst Hin]; [by intros s ?%Hd|]. rewrite <- Hl in Hfst, Hin.
  split_and!.
  - rewrite map_map in Hfst. by rewrite Hfst.
  - apply Forall_forall. intros x Hx. rewrite Forall_forall in Hf. specialize (Hin x.1.1 x.1.2). rewrite <- (surjective_pairing x.1) in Hin.
    assert (x.1 ∈ map fst l) as Hx1 by (apply elem_of_map_list; by exists x). specialize (Hin Hx1).
    destruct (H1 _ _ Hin) as [?|(He & Hsl & Hr)]; [done|]. unfold walked. split_and!; [done|done|lia|lia|by apply Hf].
  - intros e He Hr. specialize (H3 e He Hr). assert (de_Slot e ∈ map fst (slot_entry m (sorted_slots m))) as Hse.
    { destruct (slot_entry_fst m (sorted_slots m)) as [-> _]; [by intros s ?%Hd|]. apply Hd. by exists e. }
    apply elem_of_map_list in Hse as ([s e'] & Es & Hse). cbn in Es. rewrite Es in *.
    destruct (slot_entry_fst m (sorted_slots m)) as [_ Hin']; [by intros s0 ?%Hd|]. pose proof (Hin' _ _ Hse) as E'.
    rewrite H3 in E'. injection E' as <-. rewrite <- Hl in Hse. apply elem_of_map_list in Hse as ([se v] & Ese & Hx). cbn in Ese.
    exists v. by rewrite Ese.
Qed.

Lemma walk_proposal l : match w_proposal (walk_entries l) with
  | Some p => ∃ x, x ∈ l ∧ de_Kind x.1.2 = KindProposal ∧ x.2 = p
  | None => ∀ x, x ∈ l → de_Kind x.1.2 ≠ KindProposal
  end.
Proof.
  unfold walk_entries. induction l as [|[[s e] v] l IH] using rev_ind; [by intros ? ?%elem_of_nil|].
  rewrite fold_left_app. cbn [fold_left]. set (w := fold_left _ l _) in *. unfold walk_entry.
  assert (de_Kind e ≠ KindProposal → match w_proposal w with
    | Some p => ∃ x, x ∈ l ++ [(s, e, v)] ∧ de_Kind x.1.2 = KindProposal ∧ x.2 = p
    | None => ∀ x, x ∈ l ++ [(s, e, v)] → de_Kind x.1.2 ≠ KindProposal end) as Hk.
  { intros Hk. destruct (w_proposal w) as [p|].
    - destruct IH as (x & Hx & ?). exists x. split; [|done]. apply elem_of_app. by left.
    - intros x [Hx| ->%list_elem_of_singleton]%elem_of_app; [by apply IH|done]. }
  destruct (de_Kind e) eqn:Ek; cbn [w_proposal]; [by apply Hk|by apply Hk| |by apply Hk].
  exists (s, e, v). split; [|done]. apply elem_of_app. right. by left.
Qed.
Lemma walk_answer l : match w_answer (walk_entries l) with
  | Some p => ∃ x, x ∈ l ∧ de_Kind x.1.2 = KindAnswer ∧ x.2 = p
  | None => ∀ x, x ∈ l → de_Kind x.1.2 ≠ KindAnswer
  end.
Proof.
  unfold walk_entries. induction l as [|[[s e] v] l IH] using rev_ind; [by intros ? ?%elem_of_nil|].
  rewrite fold_left_app. cbn [fold_left]. set (w := fold_left _ l _) in *. unfold walk_entry.
  assert (de_Kind e ≠ KindAnswer → match w_answer w with
    | Some p => ∃ x, x ∈ l ++ [(s, e, v)] ∧ de_Kind x.1.2 = KindAnswer ∧ x.2 = p
    | None => ∀ x, x ∈ l ++ [(s, e, v)] → de_Kind x.1.2 ≠ KindAnswer end) as Hk.
  { intros Hk. destruct (w_answer w) as [p|].
    - destruct IH as (x & Hx & ?). exists x. split; [|done]. apply elem_of_app. by left.
    - intros x [Hx| ->%list_elem_of_singleton]%elem_of_app; [by apply IH|done]. }
  destruct (de_Kind e) eqn:Ek; cbn [w_answer]; [by apply Hk|by apply Hk|by apply Hk|].
  exists (s, e, v). split; [|done]. apply elem_of_app. right. by left.
Qed.

Lemma walk_walk_inv l : StronglySorted Z.lt (map (λ x, x.1.1) l) → Forall (λ x, move_ok x.1.1 x.1.2 x.2) l →
  ∀ s, Forall (λ x, x.1.1 < s) l → walk_inv (walk_entries l) s.
Proof.
  unfold walk_entries. induction l as [|[[t e] v] l IH] using rev_ind; intros Hs Hf s Hlt.
  - split; [done|by left|split; constructor|constructor].
  - rewrite map_app in Hs. apply StronglySorted_app in Hs as (Hcross & Hs & _).
    apply Forall_app in Hf as [Hf [Hm _]%Forall_cons]. apply Forall_app in Hlt as [_ [Ht _]%Forall_cons]. cbn in Hm, Ht.
    rewrite fold_left_app. cbn [fold_left]. apply (walk_inv_later _ (t + 1)); [|lia].
    apply (walk_inv_step _ t); [|lia|done]. apply IH; [done|done|]. apply Forall_forall. intros x Hx.
    apply Hcross; [|by left]. apply elem_of_map_list. by exists x.
Qed.

(** ** What the verifier finds in the record *)

(** The value of an entry, as the derivation reads it. *)
Lemma parse_entry_value k data x v : ParseEntry k data = Ok x → parseObject data = Ok v →
  VObject v = norm (VObject (entry_value x)) ∧ Kind x = k ∧ wf (VObject v) = true.
Proof.
  intros (Hk & Hv & Hc & _)%ParseEntry_spec Hp. unfold parseObject in Hp. pose proof (parse_strict_entry _ _ Hv Hc) as E.
  destruct (ParseStrict data) as [[| | | | |m]|]; try done. injection Hp as ->.
  assert (VObject v = norm (VObject (entry_value x))) as -> by congruence. split_and!; [done|done|]. apply wf_norm. by apply wf_entry.
Qed.

Lemma plain_norm v : plain (norm v) = plain v.
Proof.
  induction v as [| | | |l IH|m IH] using value_deep_ind; try done.
  - cbn [norm plain]. rewrite Forall_forall in IH. apply eq_true_iff_eq. rewrite !forallb_forall. setoid_rewrite <- list_elem_of_In.
    split; intros H x Hx.
    + rewrite <- (IH x Hx). apply H. apply elem_of_map_list. by exists x.
    + apply elem_of_map_list in Hx as (y & -> & Hy). rewrite IH by done. by apply H.
  - rewrite norm_object. cbn [plain]. rewrite Forall_forall in IH. apply eq_true_iff_eq. rewrite !forallb_forall.
    setoid_rewrite <- list_elem_of_In. split; intros H p Hp.
    + specialize (IH p Hp). rewrite <- IH. apply (H (p.1, norm p.2)). apply elem_of_map_list. exists p. split; [done|].
      by rewrite sort_keys_perm.
    + apply elem_of_map_list in Hp as (q & -> & Hq). rewrite sort_keys_perm in Hq. cbn [snd]. rewrite IH by done. by apply H.
Qed.

Lemma canonicalEqual_plain v : plain v = true → canonicalEqual v v = true.
Proof.
  intros Hp. unfold canonicalEqual, CanonicalValue. destruct (plain_canonical v Hp) as [b ->]. by apply bool_decide_eq_true_2.
Qed.
Lemma plain_member m k v : plain (VObject m) = true → member k m = Some v → plain v = true.
Proof.
  cbn [plain]. intros Hp. induction m as [|[k' v'] m IH]; [done|]. cbn [forallb snd member] in *. apply andb_true_iff in Hp as [? Hp].
  case_bool_decide; [by intros [= <-]|by apply IH].
Qed.
Lemma plain_null_or k m : plain (VObject m) = true → plain (null_or k m) = true.
Proof. intros Hp. unfold null_or. destruct (member _ m) eqn:E; [|done]. by eapply plain_member. Qed.

(** Reading a member of a normal form. *)
Lemma list_member_norm k m m' : member (bytes_of k) m' = option_map norm (member (bytes_of k) m) →
  list_member k m' = map norm (list_member k m).
Proof. intros Hm. unfold list_member. rewrite Hm. by destruct (member _ m) as [[]|]. Qed.
Lemma null_or_norm k m m' : member (bytes_of k) m' = option_map norm (member (bytes_of k) m) → null_or k m' = norm (null_or k m).
Proof. intros Hm. unfold null_or. rewrite Hm. by destruct (member _ m) as [v|]. Qed.
Lemma bool_member_norm k m m' : member (bytes_of k) m' = option_map norm (member (bytes_of k) m) → bool_member k m' = bool_member k m.
Proof. intros Hm. unfold bool_member. rewrite Hm. by destruct (member _ m) as [[]|]. Qed.

Lemma merge_into_norm l : ∀ seen, Forall (λ v, wf v = true) l →
  merge_into seen (map norm l) = rbind (merge_into seen l) (λ r, Ok (map norm r)).
Proof.
  induction l as [|d l IH]; intros seen Hw; [done|]. apply Forall_cons in Hw as [Hd Hw]. cbn [map merge_into].
  unfold CanonicalValue. rewrite canonicalize_norm by done. destruct (canonicalize d) as [c|]; [|done].
  case_bool_decide; rewrite IH by done; [done|]. by destruct (merge_into _ l).
Qed.
Lemma merge_into_incl l : ∀ seen r, merge_into seen l = Ok r → ∀ x, x ∈ r → x ∈ l.
Proof.
  induction l as [|d l IH]; intros seen r; cbn [merge_into]; [by intros [= <-]|].
  destruct (CanonicalValue d) as [c|]; [|done]. case_bool_decide.
  - intros Hr x Hx. right. by eapply IH.
  - intros (r' & Hr & [= <-])%rbind_ok x [->|Hx]%elem_of_cons; [by left|right; by eapply IH].
Qed.
Lemma wf_list_member k m : wf (VObject m) = true → Forall (λ v, wf v = true) (list_member k m).
Proof.
  intros Hw. unfold list_member. destruct (member (bytes_of k) m) as [v|] eqn:E; [|constructor].
  pose proof Hw as Hw'. apply wf_object in Hw' as [Hd Hv]. apply member_Some in E; [|done]. destruct (Hv _ E) as [_ Hv'].
  cbn [snd] in Hv'. destruct v; try constructor. apply Forall_forall. by apply wf_array.
Qed.
Lemma plain_list_member k m : plain (VObject m) = true → forallb plain (list_member k m) = true.
Proof.
  intros Hp. unfold list_member. destruct (member (bytes_of k) m) as [v|] eqn:E; [|done].
  pose proof (plain_member _ _ _ Hp E) as Hv. by destruct v.
Qed.

Record derivable (i : DeriveInput) : Prop := {
  dv_texts : valid_utf8 (in_Session i) = true ∧ valid_utf8 (in_Initiator i) = true ∧ valid_utf8 (in_Respondent i) = true;
  dv_parties : in_Initiator i ≠ in_Respondent i;
  (** The request and the close carry wire times. *)
  dv_closed : is_Some (decodeTime (Some (VString (in_Closed i))));
  dv_request : ∀ req, parseObject (in_Request i) = Ok req → is_Some (decodeTime (member (bytes_of "created") req));
  (** The entries are stored entries, each in a slot its kind can have. *)
  dv_entries : ∀ e, e ∈ Entries i → 0 ≤ de_Slot e < Count i → (∃ x, ParseEntry (de_Kind e) (de_Canon e) = Ok x) ∧
    (de_Kind e = KindMove → de_Author e = moveAuthor (de_Slot e) ∧ 2 ≤ de_Slot e ≤ 2 * MaxDebateRounds + 1);
  dv_answer : ∀ e, e ∈ Entries i → 0 ≤ de_Slot e < Count i → de_Kind e = KindAnswer →
    ∃ p, p ∈ Entries i ∧ 0 ≤ de_Slot p < Count i ∧ de_Kind p = KindProposal;
  dv_constraints : Forall (λ c, valid_utf8 (dc_ID c) = true ∧ valid_utf8 (dc_At c) = true ∧ valid_utf8 (dc_Text c) = true) (Constraints i);
}.

Section Record_.
Context `{CryptoLaws}.
Variables (i : DeriveInput) (req p0 p1 : body) (w : walk) (rd : list value).
Hypothesis Hi : derivable i.
Hypothesis Hreq : wf (VObject req) = true.
Hypothesis Hp0 : wf (VObject p0) = true.
Hypothesis Hp1 : wf (VObject p1) = true.
Hypothesis Hround : Forall (λ r, wf_sides r.2) (w_rounds w).
Hypothesis Hfinal : ∀ p v, side p (w_finals w) = Some v → wf v = true ∧ plain v = true.
Hypothesis Hprop : ∀ p, w_proposal w = Some p → wf (VObject p) = true ∧ plain (VObject p) = true.
Hypothesis Hans : ∀ a, w_answer w = Some a → wf (VObject a) = true ∧ plain (VObject a) = true.
Hypothesis Hrd : Forall (λ v, wf v = true ∧ plain v = true) rd.

Notation R := (record_value i req p0 p1 w rd).

Lemma wf_null_or k m : wf (VObject m) = true → wf (null_or k m) = true.
Proof.
  intros Hw. unfold null_or. destruct (member (bytes_of k) m) as [v|] eqn:E; [|done]. apply wf_object in Hw as [Hd Hv].
  apply member_Some in E; [|done]. by destruct (Hv _ E).
Qed.
Lemma wf_opt_part {A} k (f : A → value) o : (∀ a, o = Some a → wf (f a) = true) → forallb (λ p, wf p.2) (opt_value k f o) = true.
Proof. unfold opt_value. destruct o; [|done]. intros Hf. cbn [forallb snd]. by rewrite (Hf a eq_refl). Qed.

Definition record_keys : list bytes := map bytes_of
  ["v"; "id"; "session"; "request"; "team"; "participants"; "rounds_max"; "outcome"; "reason"; "opened"; "closed"; "problem"; "positions";
   "rounds"; "converge"; "final_agreement"; "remaining_disagreement"; "affected_artifacts"; "human_decisions"]%string.
Lemma record_keys_sub : map fst R `sublist_of` record_keys.
Proof.
  unfold record_value, record_keys. cbn [app map fst]. do 13 apply sublist_skip. rewrite !map_app.
  apply sub_more; [apply opt_list_keys|]. destruct (w_proposal w) as [p|].
  - cbn [app map fst]. apply sublist_skip. rewrite !map_app, <- !app_assoc.
    apply sub_more; [case_bool_decide; cbn; [done|apply sublist_nil_l]|].
    repeat (apply sub_more; [apply opt_list_keys|]). apply opt_list_keys.
  - cbn [app map fst]. do 4 apply sublist_cons. apply opt_list_keys.
Qed.

Lemma wf_round_value j sd : wf_sides sd → wf (round_value j sd) = true.
Proof.
  intros Hs. unfold round_value. apply (known_keys (map bytes_of ["n"; "initiator"; "respondent"]%string)); [|vm_compute; reflexivity..|].
  - cbn [map fst]. rewrite map_app. apply sublist_skip. apply sub_more; apply opt_part_keys.
  - cbn [forallb snd wf andb]. rewrite forallb_app, !wf_opt_part; [done|intros m E..].
    + by apply (Hs RoleRespondent).
    + by apply (Hs RoleInitiator).
Qed.
Lemma wf_rounds l j : Forall (λ r, wf_sides r.2) l → forallb wf (number_rounds j l) = true.
Proof.
  revert j. induction l as [|[n sd] l IH]; intros j Hl; [done|]. apply Forall_cons in Hl as [Hsd Hl]. cbn [number_rounds forallb].
  rewrite wf_round_value by done. by apply IH.
Qed.
Lemma wf_position_record p f : wf (VObject p) = true → (∀ v, f = Some v → wf v = true) → wf (position_record p f) = true.
Proof.
  intros Hp Hf. unfold position_record. apply (known_keys (map bytes_of ["initial"; "final"]%string)); [|vm_compute; reflexivity..|].
  - cbn [map fst]. apply sublist_skip. apply opt_part_keys.
  - cbn [forallb snd]. rewrite Hp, wf_opt_part; done.
Qed.
Lemma wf_context_ref f : wf f = true → wf (context_ref f) = true.
Proof.
  intros Hf. unfold context_ref. cbv zeta. apply (known_keys (map bytes_of ["name"; "bytes"; "sha256"]%string)); [done|vm_compute; reflexivity..|].
  cbn [forallb snd wf]. rewrite valid_hex_encode by apply sha256_bytes. rewrite andb_true_r.
  destruct f as [| | | | |m]; try done. unfold string_member. destruct (member _ m) as [v|] eqn:E; [|done].
  apply wf_object in Hf as [Hd Hv]. apply member_Some in E; [|done]. destruct (Hv _ E) as [_ Hw]. cbn in Hw. by destruct v.
Qed.
Lemma wf_problem : wf (problem req) = true.
Proof.
  unfold problem. apply (known_keys (map bytes_of ["title"; "topic"; "context"]%string)); [|vm_compute; reflexivity..|].
  - cbn [app map fst]. do 2 apply sublist_skip. apply opt_list_keys.
  - cbn [app forallb snd]. rewrite !wf_null_or, wf_opt_list; [done|intros _|done..].
    apply wf_values. eapply Forall_impl; [apply wf_list_member; exact Hreq|]. apply wf_context_ref.
Qed.
Lemma wf_constraints : wf (VArray (map constraint_value (sort_by constraint_lt (Constraints i)))) = true.
Proof.
  apply wf_values. rewrite sort_by_perm. eapply Forall_impl; [apply (dv_constraints i Hi)|]. intros c (H1 & H2 & H3).
  unfold constraint_value. apply (known_keys (map bytes_of ["id"; "by"; "at"; "text"]%string)); [done|vm_compute; reflexivity..|].
  cbn [forallb snd wf]. rewrite H1, H2, H3. by destruct (dc_Author c).
Qed.
Lemma decodeTime_valid v t : decodeTime (Some (VString v)) = Some t → valid_utf8 v = true.
Proof. intros Hd. pose proof (decodeTime_years _ _ Hd). apply decodeTime_inv in Hd. injection Hd as ->. by apply wireTime_valid. Qed.

Lemma wf_pair a b : wf a = true → wf b = true → wf (VObject [(bytes_of "initiator", a); (bytes_of "respondent", b)]) = true.
Proof.
  intros Ha Hb. apply (known_keys (map bytes_of ["initiator"; "respondent"]%string)); [done|vm_compute; reflexivity..|].
  cbn [forallb snd]. by rewrite Ha, Hb.
Qed.
Lemma valid_ID s : valid_utf8 (ID s) = true.
Proof.
  unfold ID. apply valid_utf8_app; [vm_compute; reflexivity|]. apply valid_hex_encode. pose proof (sha256_bytes (idDomain ++ s)) as Hb.
  rewrite forallb_forall in *. intros x Hx. apply Hb. rewrite <- list_elem_of_In in *. apply elem_of_take in Hx as (j & Hx & _). by eapply list_elem_of_lookup_2.
Qed.
Lemma wf_converge p : w_proposal w = Some p →
  wf (VObject ((bytes_of "proposal", VObject p) :: opt_value "answer" VObject (w_answer w))) = true.
Proof.
  intros E. apply (known_keys (map bytes_of ["proposal"; "answer"]%string)); [|vm_compute; reflexivity..|].
  - cbn [map fst]. apply sublist_skip. apply opt_part_keys.
  - cbn [forallb snd]. rewrite (proj1 (Hprop p E)), wf_opt_part; [done|]. intros a Ea. by apply Hans.
Qed.

Lemma wf_record : wf (VObject R) = true.
Proof.
  apply (known_keys record_keys); [apply record_keys_sub|vm_compute; reflexivity..|].
  destruct (dv_texts i Hi) as (T1 & T2 & T3). destruct (dv_closed i Hi) as [t Ht]. unfold record_value.
  rewrite !forallb_app, !andb_true_iff. split_and!.
  - cbn [forallb snd]. rewrite !wf_pair by (done || (apply wf_position_record; [done|]; intros v E;
      first [apply (Hfinal RoleInitiator v E)|apply (Hfinal RoleRespondent v E)])).
    cbn [wf]. rewrite T1, !wf_null_or, wf_problem, valid_ID, (decodeTime_valid _ _ Ht) by done.
    by destruct (in_Outcome i), (in_Reason i).
  - apply wf_opt_list. intros _. by apply wf_rounds.
  - destruct (w_proposal w) as [p|] eqn:E in |- *; [|done]. destruct (Hprop p E) as [Hw _].
    cbn [app forallb snd]. rewrite (wf_converge p E), !forallb_app. rewrite !andb_true_iff. split_and!; [done|..].
    + case_bool_decide; [|done]. cbn [forallb snd]. by rewrite wf_null_or.
    + apply wf_opt_list. intros _. apply wf_array. rewrite Forall_forall in Hrd. intros x Hx. by apply Hrd.
    + apply wf_opt_list. intros _. apply wf_array. pose proof (wf_list_member "affected_artifacts" p Hw) as Hl.
      rewrite Forall_forall in Hl. exact Hl.
  - apply wf_opt_list. intros _. apply wf_constraints.
Qed.

(** *** The members of the record *)

Ltac record_member := unfold record_value; members2; try done;
  destruct (w_proposal w) as [p|] in |- *; members2; try case_bool_decide; members2;
  repeat match goal with |- context [match ?x with [] => _ | _ :: _ => _ end] => destruct x end; done.

Definition converge_members : body := match w_proposal w with
  | Some p => (bytes_of "proposal", VObject p) :: opt_value "answer" VObject (w_answer w) | None => [] end.
Lemma rec_texts : member (bytes_of "outcome") R = Some (VString (debate_outcome_text (in_Outcome i))) ∧
  member (bytes_of "reason") R = Some (VString (debate_reason_text (in_Reason i))) ∧
  member (bytes_of "opened") R = Some (null_or "created" req) ∧ member (bytes_of "closed") R = Some (VString (in_Closed i)) ∧
  member (bytes_of "participants") R =
    Some (VObject [(bytes_of "initiator", VString (in_Initiator i)); (bytes_of "respondent", VString (in_Respondent i))]) ∧
  member (bytes_of "positions") R =
    Some (VObject [(bytes_of "initiator", position_record p0 (by_initiator (w_finals w)));
                   (bytes_of "respondent", position_record p1 (by_respondent (w_finals w)))]).
Proof. unfold record_value. split_and!; members2; done. Qed.
Lemma rec_rounds : list_member "rounds" R = number_rounds 0 (w_rounds w).
Proof.
  unfold list_member. assert (member (bytes_of "rounds") R = match w_rounds w with [] => None | _ => Some (VArray (number_rounds 0 (w_rounds w))) end) as ->.
  { record_member. }
  by destruct (w_rounds w).
Qed.
Lemma rec_converge : member (bytes_of "converge") R = match w_proposal w with Some _ => Some (VObject converge_members) | None => None end.
Proof. unfold converge_members. record_member. Qed.
Lemma rec_final : member (bytes_of "final_agreement") R = match w_proposal w with
  | Some p => if bool_decide (in_Outcome i = OutcomeAgreed) then Some (null_or "agreement" p) else None | None => None end.
Proof. record_member. Qed.
Lemma rec_disagreement : member (bytes_of "remaining_disagreement") R = match w_proposal w with
  | Some _ => match rd with [] => None | _ => Some (VArray rd) end | None => None end.
Proof. record_member. Qed.
Lemma rec_artifacts : member (bytes_of "affected_artifacts") R = match w_proposal w with
  | Some p => match list_member "affected_artifacts" p with [] => None | l => Some (VArray l) end | None => None end.
Proof. record_member. Qed.

(** *** The invariants of step 5 *)

Hypothesis Hexpected : Expected (bool_decide (w_answer w ≠ None)) (match w_answer w with Some a => bool_member "accept" a | None => false end)
  = (in_Outcome i, in_Reason i).
Hypothesis Hmerge : match w_proposal w with Some _ => mergeDisagreement (w_proposal w) (w_answer w) | None => Ok [] end = Ok rd.
Hypothesis Hboth : w_answer w ≠ None → w_proposal w ≠ None.
Hypothesis Hartifacts : ∀ p v, w_proposal w = Some p → member (bytes_of "affected_artifacts") p = Some v → ∃ x l, v = VArray (x :: l).
Hypothesis Hfinals : w_finals w = fold_left round_finals (w_rounds w) no_sides.
Hypothesis Hrounds5 : (length (w_rounds w) ≤ 5)%nat.
Hypothesis Htimes : ∀ o c, decodeTime (member (bytes_of "created") req) = Some o → decodeTime (Some (VString (in_Closed i))) = Some c → o ≤ c.

Variable d : body.
Hypothesis Hd : ∀ k, member k d = option_map norm (member k R).

(** The proposal and the answer the verifier reads. *)
Definition read_of (m : option body) (m' : option body) : Prop :=
  match m, m' with
  | Some m, Some m' => ∀ k, member k m' = option_map norm (member k m)
  | None, None => True
  | _, _ => False
  end.
Lemma read_converge : let c := default [] (as_object (member (bytes_of "converge") d)) in
  read_of (w_proposal w) (as_object (member (bytes_of "proposal") c)) ∧ read_of (w_answer w) (as_object (member (bytes_of "answer") c)).
Proof.
  cbv zeta. rewrite Hd, rec_converge. destruct (w_proposal w) as [p|] eqn:E in |- *.
  - cbn [option_map]. pose proof (wf_converge p E) as Hw. unfold converge_members. rewrite E.
    destruct (as_object_norm _ Hw) as (c & -> & _ & Hc). cbn [from_option id]. rewrite !Hc. members2.
    destruct (as_object_norm p) as (p' & Ep & _ & Hp'); [by apply Hprop|]. cbn [option_map]. rewrite Ep. split; [exact Hp'|].
    destruct (w_answer w) as [a|] eqn:Ea in |- *; [|done]. cbn [option_map].
    destruct (as_object_norm a) as (a' & -> & _ & Ha'); [by apply Hans|exact Ha'].
  - cbn. split; [done|]. destruct (w_answer w) as [a|] eqn:Ea in |- *; [|done]. exfalso. by apply Hboth; rewrite ?Ea.
Qed.

Lemma inv_final : ∀ prop, read_of (w_proposal w) prop →
  let fa := member (bytes_of "final_agreement") d in
  bool_decide (bool_decide (debate_outcome_text (in_Outcome i) = debate_outcome_text OutcomeAgreed) = bool_decide (fa ≠ None)) &&
  match fa with None => true | Some fa => match prop with Some p => canonicalEqual fa (null_or "agreement" p) | None => false end end = true.
Proof.
  intros prop Hp. cbv zeta. rewrite Hd, rec_final.
  assert (in_Outcome i = OutcomeAgreed → w_proposal w ≠ None) as Hag.
  { intros Ho. apply Hboth. destruct (w_answer w) in Hexpected |- *; [done|]. cbn in Hexpected. injection Hexpected. congruence. }
  assert (bool_decide (debate_outcome_text (in_Outcome i) = debate_outcome_text OutcomeAgreed) = bool_decide (in_Outcome i = OutcomeAgreed)) as ->.
  { by destruct (in_Outcome i). }
  assert (∀ v : value, bool_decide (Some v ≠ None) = true) as Hsome by (intros v; by apply bool_decide_eq_true_2).
  destruct (w_proposal w) as [p|] eqn:E in Hag, Hp |- *; destruct prop as [p'|]; cbn [read_of] in Hp; try done;
    destruct (bool_decide (in_Outcome i = OutcomeAgreed)) eqn:Ho; cbn [option_map].
  - rewrite (Hsome (norm (null_or "agreement" p))). cbn [andb]. rewrite (null_or_norm _ _ _ (Hp _)). apply canonicalEqual_plain.
    rewrite plain_norm. by apply plain_null_or, Hprop.
  - vm_compute. reflexivity.
  - apply bool_decide_eq_true in Ho. by destruct (Hag Ho).
  - vm_compute. reflexivity.
Qed.

Lemma read_disagreement m m' : read_of m m' → (∀ x, m = Some x → wf (VObject x) = true) →
  disagreement_list m' = map norm (disagreement_list m) ∧ Forall (λ v, wf v = true) (disagreement_list m).
Proof.
  destruct m as [m|], m' as [m'|]; cbn; intros Hr Hw; try done.
  split; [by apply list_member_norm|]. by apply wf_list_member, Hw.
Qed.
Lemma inv_disagreement : ∀ prop ans, read_of (w_proposal w) prop → read_of (w_answer w) ans →
  match (match prop with Some _ => mergeDisagreement prop ans | None => Ok [] end) with
  | Err _ => false
  | Ok want => same_member (member (bytes_of "remaining_disagreement") d) (match want with [] => None | _ => Some (VArray want) end)
  end = true.
Proof.
  intros prop ans Hp Ha. rewrite Hd, rec_disagreement.
  destruct (read_disagreement _ _ Hp) as [Lp Wp]; [by intros x E; apply Hprop|].
  destruct (read_disagreement _ _ Ha) as [La Wa]; [by intros x E; apply Hans|].
  assert ((match prop with Some _ => mergeDisagreement prop ans | None => Ok [] end) = Ok (map norm rd)) as ->.
  { unfold mergeDisagreement in *. rewrite Lp, La, <- map_app, merge_into_norm by (apply Forall_app; done).
    destruct (w_proposal w) as [p|], prop as [p'|]; try done; [by rewrite Hmerge|]. by injection Hmerge as <-. }
  destruct (w_proposal w) as [p|] in Hmerge |- *; [|by injection Hmerge as <-].
  destruct rd as [|x l] eqn:Er; [done|]. cbn [option_map map same_member]. apply canonicalEqual_plain.
  rewrite Forall_forall in Hrd. cbn [plain]. apply forallb_forall. intros y Hy. rewrite <- list_elem_of_In in Hy.
  apply (elem_of_map_list norm (x :: l)) in Hy as (z & -> & Hz). rewrite plain_norm. by apply Hrd.
Qed.

Lemma inv_artifacts : ∀ prop, read_of (w_proposal w) prop →
  same_member (member (bytes_of "affected_artifacts") d)
    (match prop with Some p => match member (bytes_of "affected_artifacts") p with Some VNull => None | v => v end | None => None end) = true.
Proof.
  intros prop Hp. rewrite Hd, rec_artifacts.
  destruct (w_proposal w) as [p|] eqn:E in Hp |- *; destruct prop as [p'|]; cbn [read_of] in Hp; try done.
  rewrite Hp. unfold list_member. destruct (member (bytes_of "affected_artifacts") p) as [v|] eqn:Ev; [|done].
  destruct (Hartifacts p v E Ev) as (x & l & ->). cbn [option_map norm map same_member].
  apply (canonicalEqual_plain (norm (VArray (x :: l)))). rewrite plain_norm. by eapply plain_member; [apply Hprop|].
Qed.

Lemma inv_positions :
  match check_rounds 0 no_sides (list_member "rounds" d) with
  | None => false
  | Some finals =>
      let pos := default [] (as_object (member (bytes_of "positions") d)) in
      let final k := member (bytes_of "final") (default [] (as_object (member (bytes_of k) pos))) in
      same_member (final "initiator"%string) (by_initiator finals) && same_member (final "respondent"%string) (by_respondent finals)
  end = true.
Proof.
  rewrite (list_member_norm "rounds" R d (Hd _)), rec_rounds. change (no_sides (A:=value)) with (norm_sides no_sides).
  rewrite check_rounds_numbered by (done || lia). rewrite <- Hfinals. cbv zeta.
  destruct rec_texts as (_ & _ & _ & _ & _ & Hpos). rewrite Hd, Hpos. cbn [option_map].
  assert (∀ p f, wf (VObject p) = true → (∀ v, f = Some v → wf v = true) →
    member (bytes_of "final") (default [] (as_object (Some (norm (position_record p f))))) = option_map norm f) as Hrec.
  { intros p f Hp Hf. unfold position_record. destruct (as_object_norm ((bytes_of "initial", VObject p) :: opt_value "final" id f)) as (m & -> & _ & Hm).
    - by apply (wf_position_record p f).
    - cbn [from_option id]. rewrite Hm. members2. by destruct f. }
  pose proof (λ v E, proj1 (Hfinal RoleInitiator v E)) as F0. pose proof (λ v E, proj1 (Hfinal RoleRespondent v E)) as F1. cbn [side] in F0, F1.
  destruct (as_object_norm [(bytes_of "initiator", position_record p0 (by_initiator (w_finals w)));
    (bytes_of "respondent", position_record p1 (by_respondent (w_finals w)))]) as (pos & -> & _ & Hm).
  { by apply wf_pair; apply wf_position_record. }
  cbn [from_option id]. rewrite !Hm. members2. cbn [option_map]. rewrite !Hrec by done. cbn [norm_sides by_initiator by_respondent].
  assert (∀ p, same_member (option_map norm (side p (w_finals w))) (option_map norm (side p (w_finals w))) = true) as Hs.
  { intros p. destruct (side p (w_finals w)) as [v|] eqn:E; [|done]. cbn [option_map same_member]. apply canonicalEqual_plain.
    rewrite plain_norm. by apply (Hfinal p). }
  pose proof (Hs RoleInitiator) as Ha. pose proof (Hs RoleRespondent) as Hb. cbn [side] in Ha, Hb. by rewrite Ha, Hb.
Qed.

Lemma null_or_time k m t : decodeTime (member (bytes_of k) m) = Some t → norm (null_or k m) = null_or k m ∧ decodeTime (Some (null_or k m)) = Some t.
Proof. unfold null_or. destruct (member (bytes_of k) m) as [[]|]; by cbn. Qed.

Lemma record_invariants : is_Some (decodeTime (member (bytes_of "created") req)) → checkInvariants d = true.
Proof.
  intros [o Ho]. destruct (dv_closed i Hi) as [c Hc]. destruct rec_texts as (To & Tr & Top & Tcl & Tpa & _).
  unfold checkInvariants. destruct read_converge as [Hp Ha]. cbv zeta in Hp, Ha |- *.
  set (prop := as_object (member (bytes_of "proposal") _)) in *. set (ans := as_object (member (bytes_of "answer") _)) in *.
  assert (string_member "outcome" d = debate_outcome_text (in_Outcome i)) as -> by (unfold string_member; by rewrite Hd, To).
  assert (string_member "reason" d = debate_reason_text (in_Reason i)) as -> by (unfold string_member; by rewrite Hd, Tr).
  assert (Expected (bool_decide (ans ≠ None)) (match ans with Some a => bool_member "accept" a | None => false end) = (in_Outcome i, in_Reason i)) as ->.
  { rewrite <- Hexpected. destruct (w_answer w) as [a|] in Ha |- *; destruct ans as [a'|]; cbn [read_of] in Ha; try done.
    rewrite (bool_member_norm _ _ _ (Ha _)). by rewrite !bool_decide_eq_true_2. }
  rewrite !(bool_decide_eq_true_2 (_ = _)) by done. cbn [andb].
  pose proof (inv_final prop Hp) as If. cbv zeta in If. rewrite andb_true_iff in If. destruct If as [-> ->].
  rewrite (inv_disagreement prop ans Hp Ha), (inv_artifacts prop Hp). pose proof inv_positions as Ip. cbv zeta in Ip. rewrite Ip. cbn [andb].
  rewrite !Hd, Top, Tcl, Tpa. cbn [option_map]. destruct (null_or_time _ _ _ Ho) as [-> ->]. cbn [norm]. rewrite Hc. cbn [from_option id].
  assert (negb (c <? o) = true) as -> by (apply negb_true_iff, Z.ltb_ge; by eapply Htimes). rewrite andb_true_r.
  destruct (dv_texts i Hi) as (_ & T2 & T3).
  destruct (as_object_norm [(bytes_of "initiator", VString (in_Initiator i)); (bytes_of "respondent", VString (in_Respondent i))]) as (m & E & _ & Hm);
    [by apply wf_pair|]. cbn [norm] in E. rewrite E. cbn [from_option id]. unfold string_member. rewrite !Hm. members2. cbn [option_map norm].
  apply negb_true_iff, bool_decide_eq_false_2. apply (dv_parties i Hi).
Qed.
End Record_.

(** ** A derived Decision verifies *)

Lemma walk_finals_typed l : Forall (λ x, de_Kind x.1.2 = KindMove → ∃ m, VObject x.2 = norm (VObject (move_value m)) ∧ ValidateMove m = Ok tt) l →
  ∀ p v, side p (w_finals (walk_entries l)) = Some v → wf v = true ∧ plain v = true.
Proof.
  unfold walk_entries. induction l as [|[[s e] x] l IH] using rev_ind; [by intros _ []|].
  intros [Hf [Hx _]%Forall_cons]%Forall_app. specialize (IH Hf). rewrite fold_left_app. cbn [fold_left].
  set (w := fold_left _ l _) in *. unfold walk_entry. cbn [fst snd] in Hx. destruct (de_Kind e); try exact IH. cbn [w_finals].
  destruct (Hx eq_refl) as (m & Em & Hm). destruct (member (bytes_of "revision") x) as [r|] eqn:Er; [|exact IH].
  assert (wf r = true ∧ plain r = true) as Hr.
  { assert (wf (VObject x) = true) as Hwx by (rewrite Em; by apply wf_norm, wf_move). pose proof Hwx as [Hd Hv]%wf_object. split.
    - apply member_Some in Er; [|done]. by destruct (Hv _ Er).
    - eapply plain_member; [|exact Er]. rewrite Em, plain_norm. apply (plain_entry (EMove m)). }
  intros p v. destruct (de_Author e), p; cbn [side set_side by_initiator by_respondent]; try (by intros [= <-]);
    [apply (IH RoleRespondent)|apply (IH RoleInitiator)].
Qed.

Lemma sorted_length (l : list Z) : StronglySorted Z.lt l → Forall (λ n, 1 ≤ n ≤ 5) l → (length l ≤ 5)%nat.
Proof.
  intros Hs Hf. assert (NoDup l) as Hd.
  { induction Hs as [|x l Hs IH Hx]; constructor; [|apply IH; by apply Forall_cons in Hf as [_ ?]].
    intros Hin. rewrite Forall_forall in Hx. specialize (Hx x Hin). lia. }
  assert (l ⊆+ [1; 2; 3; 4; 5]) as Hsub; [|by apply submseteq_length in Hsub].
  apply NoDup_submseteq; [done|]. intros n Hn. rewrite Forall_forall in Hf. specialize (Hf n Hn).
  assert (n = 1 ∨ n = 2 ∨ n = 3 ∨ n = 4 ∨ n = 5) as Hc by lia. rewrite !elem_of_cons. naive_solver.
Qed.

Section Derived.
Context `{CryptoLaws}.

Lemma Derive_inv i canon : Derive i = Ok canon → ∃ req l p0 p1 rd opened closed,
  let w := walk_entries l in
  parseObject (in_Request i) = Ok req ∧ StronglySorted Z.lt (map (λ x, x.1.1) l) ∧ Forall (walked i) l ∧
  (∀ e, e ∈ Entries i → 0 ≤ de_Slot e < Count i → ∃ v, (de_Slot e, e, v) ∈ l) ∧ opening l = Some (p0, p1) ∧
  Expected (bool_decide (w_answer w ≠ None)) (match w_answer w with Some a => bool_member "accept" a | None => false end) = (in_Outcome i, in_Reason i) ∧
  parse_wire (string_member "created" req) = Some opened ∧ parse_wire (in_Closed i) = Some closed ∧ opened ≤ closed ∧
  (match w_proposal w with Some _ => mergeDisagreement (w_proposal w) (w_answer w) | None => Ok [] end) = Ok rd ∧
  CanonicalValue (VObject (record_value i req p0 p1 w rd)) = Ok canon ∧ Z.of_nat (length canon) ≤ MaxDecision.
Proof.
  unfold Derive. intros (req & Hreq & (m & Hm & (l & Hl & H1)%rbind_ok)%rbind_ok)%rbind_ok. cbv zeta in Hl.
  destruct (walked_spec _ _ _ Hm Hl) as (Hs & Hw & Hall). destruct (opening l) as [[p0 p1]|] eqn:Eo; [|done]. cbv zeta in H1.
  apply guard_ok in H1 as [Hex%bool_decide_eq_true H1]. destruct (parse_wire (string_member _ _)) as [o|] eqn:Ep; [|done].
  destruct (parse_wire (in_Closed i)) as [c|] eqn:Ec; [|done]. apply guard_ok in H1 as [Ht H1]. apply rbind_ok in H1 as (rd & Hrd & H1).
  apply rbind_ok in H1 as (cn & Hcn & H1). apply guard_ok in H1 as [Hsz [= <-]].
  exists req, l, p0, p1, rd, o, c. cbv zeta. unfold canonicalMap in Hcn. destruct (CanonicalValue _) as [cn'|] eqn:Ecn; [|done].
  injection Hcn as ->. bprop. split_and!; done || lia.
Qed.

Lemma decodeTime_parse s t : decodeTime (Some (VString s)) = Some t → parse_wire s = Some t.
Proof. unfold decodeTime. destruct (parse_wire s) as [u|]; [|done]. case_bool_decide; congruence. Qed.

Lemma opening_inv l p0 p1 : opening l = Some (p0, p1) → ∃ x0 x1, x0 ∈ l ∧ x1 ∈ l ∧ x0.2 = p0 ∧ x1.2 = p1.
Proof.
  destruct l as [|[[s0 e0] v0] [|[[s1 e1] v1] l]]; try done; cbn [opening]; [by destruct s0|].
  destruct s0; try done. destruct s1 as [|[| |]|]; try done. destruct (_ && _); [|done]. intros [= <- <-].
  exists (0, e0, v0), (1, e1, v1). split_and!; [by left|right; by left|done|done].
Qed.

Lemma parseObject_wf b m : parseObject b = Ok m → wf (VObject m) = true.
Proof. unfold parseObject. destruct (ParseStrict b) as [[]|] eqn:E; try done. intros [= <-]. by eapply parse_strict_wf. Qed.

(** What the walked entries are, for a transcript of stored entries. *)
Definition typed (x : Z * TranscriptEntry * body) : Prop :=
  ∃ y, Kind y = de_Kind x.1.2 ∧ Validate y = Ok tt ∧ VObject x.2 = norm (VObject (entry_value y)).
Lemma walked_typed i x : derivable i → walked i x → typed x ∧ move_ok x.1.1 x.1.2 x.2.
Proof.
  intros Hi (He & Hs & Hr & Hp). destruct (dv_entries i Hi _ He) as [(y & Hy) Hm]; [by rewrite Hs|].
  destruct (parse_entry_value _ _ _ _ Hy Hp) as (Hv & Hk & Hw). apply ParseEntry_spec in Hy as (_ & Hval & _). split.
  - by exists y.
  - intros Ek. destruct (Hm Ek) as [Ha Hb]. rewrite Hs in *. unfold MaxDebateRounds in Hb. split_and!; [done|lia|lia|done].
Qed.
Lemma typed_value x : typed x → wf (VObject x.2) = true ∧ plain (VObject x.2) = true.
Proof. intros (y & _ & Hv & ->). split; [by apply wf_norm, wf_entry|]. by rewrite plain_norm, plain_entry. Qed.
Lemma typed_artifacts x v : typed x → de_Kind x.1.2 = KindProposal → member (bytes_of "affected_artifacts") x.2 = Some v → ∃ y l, v = VArray (y :: l).
Proof.
  intros (y & Hk & Hv & Ex) Ek. rewrite Ek in Hk. destruct y as [| |p|]; try done. cbn [entry_value] in Ex.
  pose proof (wf_entry _ Hv) as Hw. cbn [entry_value] in Hw. destruct (as_object_norm _ Hw) as (m & _ & Em & Hm).
  assert (x.2 = m) as -> by congruence. rewrite Hm. unfold proposal_value. members.
  destruct (prop_Remaining p), (AffectedArtifacts p) as [|ar ars]; cbn; try done; intros [= <-]; by eexists _, _.
Qed.
Lemma merged_plain p a rd : mergeDisagreement (Some p) a = Ok rd → wf (VObject p) = true → plain (VObject p) = true →
  (∀ m, a = Some m → wf (VObject m) = true ∧ plain (VObject m) = true) → Forall (λ v, wf v = true ∧ plain v = true) rd.
Proof.
  intros Hm Hw Hp Ha. apply Forall_forall. intros v Hv. apply (merge_into_incl _ _ _ Hm) in Hv.
  assert (∀ m, wf (VObject m) = true → plain (VObject m) = true → v ∈ list_member "remaining_disagreement" m → wf v = true ∧ plain v = true) as Hl.
  { intros m Hwm Hpm Hin. pose proof (wf_list_member "remaining_disagreement" m Hwm) as Hf. rewrite Forall_forall in Hf.
    pose proof (plain_list_member "remaining_disagreement" m Hpm) as Hfp. rewrite forallb_forall in Hfp.
    split; [by apply Hf|]. apply Hfp. by apply list_elem_of_In. }
  apply elem_of_app in Hv as [Hv|Hv]; [by apply (Hl p)|]. destruct a as [m|]; cbn in Hv; [|by apply elem_of_nil in Hv].
  destruct (Ha m eq_refl) as [Hwm Hpm]. by apply (Hl m).
Qed.

(** The record behind the derived bytes, with what the verifier needs of it. *)
Lemma Derive_record i canon : Derive i = Ok canon → derivable i → ∃ req p0 p1 w rd,
  CanonicalValue (VObject (record_value i req p0 p1 w rd)) = Ok canon ∧ wf (VObject (record_value i req p0 p1 w rd)) = true ∧
  ∀ d, (∀ k, member k d = option_map norm (member k (record_value i req p0 p1 w rd))) → checkInvariants d = true.
Proof.
  intros Hd Hi. destruct (Derive_inv _ _ Hd) as (req & l & p0 & p1 & rd & o & c & Hreq & Hs & Hw & Hall & Hop & Hex & Ho & Hc & Hoc & Hrd & Hcan & _).
  cbv zeta in *. assert (∀ x, x ∈ l → typed x ∧ move_ok x.1.1 x.1.2 x.2) as Ht.
  { apply Forall_forall. eapply Forall_impl; [exact Hw|]. intros x. by apply walked_typed. }
  destruct (opening_inv _ _ _ Hop) as (x0 & x1 & Hx0 & Hx1 & <- & <-).
  pose proof (walk_proposal l) as Hwp. pose proof (walk_answer l) as Hwa.
  pose proof (walk_finals_typed l) as Hfv. set (w := walk_entries l) in *.
  assert (∀ p, w_proposal w = Some p → wf (VObject p) = true ∧ plain (VObject p) = true) as Hprop.
  { intros p E. rewrite E in Hwp. destruct Hwp as (x & Hx & _ & <-). by apply typed_value, Ht. }
  assert (∀ p, w_answer w = Some p → wf (VObject p) = true ∧ plain (VObject p) = true) as Hans.
  { intros p E. rewrite E in Hwa. destruct Hwa as (x & Hx & _ & <-). by apply typed_value, Ht. }
  assert (walk_inv w (Count i)) as [Hfin _ [Hk1 Hk2] Hwf].
  { apply walk_walk_inv; [done|apply Forall_forall; intros x Hx; by apply Ht|]. eapply Forall_impl; [exact Hw|]. intros x (_ & _ & ? & _). lia. }
  assert (∀ p v, side p (w_finals w) = Some v → wf v = true ∧ plain v = true) as Hfinal.
  { apply Hfv. apply Forall_forall. intros x Hx Ek. destruct (Ht x Hx) as [(y & Hk & Hv & Ey) _]. rewrite Ek in Hk.
    destruct y as [|m| |]; try done. by exists m. }
  assert (Forall (λ v, wf v = true ∧ plain v = true) rd) as Hrdp.
  { destruct (w_proposal w) as [p|]; [|by injection Hrd as <-]. destruct (Hprop p eq_refl). by eapply merged_plain. }
  exists req, x0.2, x1.2, w, rd. split; [done|].
  assert (wf (VObject x0.2) = true ∧ wf (VObject x1.2) = true) as [Hp0 Hp1] by (split; apply typed_value; by apply Ht).
  pose proof (parseObject_wf _ _ Hreq) as Hwr. split; [by apply wf_record|]. intros d Hdm.
  apply (record_invariants i req x0.2 x1.2 w rd); try done.
  - intros Ha Hp. destruct (w_answer w) as [a|]; [|done]. destruct Hwa as (x & Hx & Ek & _). rewrite Forall_forall in Hw.
    destruct (Hw x Hx) as (He & Hsl & Hr & _). destruct (dv_answer i Hi _ He) as (p & Hpe & Hpr & Hpk); [by rewrite Hsl|done|].
    destruct (Hall p Hpe Hpr) as [v Hv]. rewrite Hp in Hwp. by apply (Hwp _ Hv).
  - intros p v E Em. rewrite E in Hwp. destruct Hwp as (x & Hx & Ek & <-). by apply (typed_artifacts x); [apply Ht|..].
  - apply sorted_length in Hk1; [by rewrite length_map in Hk1|]. apply Forall_map. exact Hk2.
  - intros o' c' Eo Ec. rewrite (decodeTime_parse _ _ Ec) in Hc. unfold string_member in Ho.
    destruct (member (bytes_of "created") req) as [[]|]; try done. rewrite (decodeTime_parse _ _ Eo) in Ho. simplify_eq. lia.
  - by apply (dv_request i Hi).
Qed.

(** The file of a derived Decision: it reads back, its canonical form is the
    derived bytes, and steps 2 to 5 find nothing wrong with it. *)
Lemma Derive_verifies i canon : Derive i = Ok canon → derivable i → ∃ d, ParseStrict canon = Ok (VObject d) ∧
  CanonicalValue (VObject d) = Ok canon ∧ checkInvariants d = true ∧ string_member "outcome" d = debate_outcome_text (in_Outcome i) ∧
  ∀ sigI sigR, VerifySignature (in_Initiator i) canon sigI = true → (∀ s, sigR = Some s → VerifySignature (in_Respondent i) canon s = true) →
    verify_decision d canon (Hash canon) sigI sigR =
      MkVerify true (bool_decide (sigR ≠ None)) 0 (RoleInitiator :: match sigR with Some _ => [RoleRespondent] | None => [] end)
        (Hash canon) (ID (in_Session i)) (in_Initiator i) (in_Respondent i) canon sigI (default [] sigR).
Proof.
  intros Hd Hi. destruct (Derive_record _ _ Hd Hi) as (req & p0 & p1 & w & rd & Hcan & Hwf & Hinv).
  destruct (as_object_norm _ Hwf) as (d & _ & Ed & Hm). specialize (Hinv d Hm). exists d.
  pose proof (parse_strict_canonical _ _ Hwf Hcan) as Hp. rewrite Ed in Hp.
  assert (CanonicalValue (VObject d) = Ok canon) as Hcd by (rewrite <- Ed; unfold CanonicalValue; by rewrite canonicalize_norm).
  destruct (rec_texts i req p0 p1 w rd) as (To & _ & _ & _ & Tpa & _).
  split_and!; [done|done|done| |].
  { unfold string_member. by rewrite Hm, To. }
  intros sigI sigR HI HR. unfold verify_decision.
  destruct (as_object_norm [(bytes_of "initiator", VString (in_Initiator i)); (bytes_of "respondent", VString (in_Respondent i))]) as (m & E & _ & Hmp).
  { destruct (dv_texts i Hi) as (_ & ? & ?). by apply wf_pair. }
  assert (member (bytes_of "id") d = Some (VString (ID (in_Session i))) ∧ member (bytes_of "session") d = Some (VString (in_Session i))) as [Eid Es].
  { rewrite !Hm. unfold record_value. members2. done. }
  rewrite (Hm (bytes_of "participants")), Tpa. cbn [option_map]. rewrite E. cbv zeta. cbn [from_option id].
  assert (string_member "initiator" m = in_Initiator i ∧ string_member "respondent" m = in_Respondent i) as [-> ->].
  { unfold string_member. rewrite !Hmp. members2. done. }
  unfold string_member. rewrite Eid, Es, Hinv, HI. rewrite !(bool_decide_eq_true_2 (_ = _)) by done. cbn [negb andb].
  assert (match sigR with Some s => VerifySignature (in_Respondent i) canon s | None => true end = true) as -> by (destruct sigR; [by apply HR|done]).
  done.
Qed.
End Derived.
