(* ===== verification/DebateTables.v ===== *)
(** * The tables of the debates (internal/store/store.go, migrations 19 and 20)

    The rows of debates, debate_entries, debate_constraints and decisions, as
    a part of the tables behind the hooks: [HasDebates] reads and replaces it
    inside [X]. last_state and close_body hold a JSON object the daemon itself
    wrote: the pair and the body. *)

From S2P Require Import Prelude Utf8 Canonical Strconv WireTime Body Tables DebateEntry DebateTurns Signing DecisionRecord.

Open Scope Z_scope.

(** One row of debates (row in internal/debate/store.go). *)
Record debate := DebateRow {
  d_session : bytes;
  d_role : party;
  d_peer : bytes;
  d_requestID : bytes;
  d_roundsMax : Z;
  d_turnTimeoutS : Z;
  d_commitment : bytes;
  d_nonce : option bytes;
  d_phase : phase;
  d_nextSlot : Z;
  d_turnDeadline : option bytes;
  d_outcome : option debate_outcome;
  d_reason : option debate_reason;
  d_lastState : option (bytes * body);
  d_lastStateSent : option bytes;
  d_closeBody : option body;
  d_created : bytes;
  d_updated : bytes;
}.

(** The columns an UPDATE of debates sets. *)
Definition dset_phase (v : phase) (r : debate) : debate :=
  DebateRow (d_session r) (d_role r) (d_peer r) (d_requestID r) (d_roundsMax r) (d_turnTimeoutS r) (d_commitment r) (d_nonce r) v (d_nextSlot r) (d_turnDeadline r) (d_outcome r) (d_reason r) (d_lastState r) (d_lastStateSent r) (d_closeBody r) (d_created r) (d_updated r).
Definition dset_nextSlot (v : Z) (r : debate) : debate :=
  DebateRow (d_session r) (d_role r) (d_peer r) (d_requestID r) (d_roundsMax r) (d_turnTimeoutS r) (d_commitment r) (d_nonce r) (d_phase r) v (d_turnDeadline r) (d_outcome r) (d_reason r) (d_lastState r) (d_lastStateSent r) (d_closeBody r) (d_created r) (d_updated r).
Definition dset_turnDeadline (v : option bytes) (r : debate) : debate :=
  DebateRow (d_session r) (d_role r) (d_peer r) (d_requestID r) (d_roundsMax r) (d_turnTimeoutS r) (d_commitment r) (d_nonce r) (d_phase r) (d_nextSlot r) v (d_outcome r) (d_reason r) (d_lastState r) (d_lastStateSent r) (d_closeBody r) (d_created r) (d_updated r).
Definition dset_outcome (v : option debate_outcome) (r : debate) : debate :=
  DebateRow (d_session r) (d_role r) (d_peer r) (d_requestID r) (d_roundsMax r) (d_turnTimeoutS r) (d_commitment r) (d_nonce r) (d_phase r) (d_nextSlot r) (d_turnDeadline r) v (d_reason r) (d_lastState r) (d_lastStateSent r) (d_closeBody r) (d_created r) (d_updated r).
Definition dset_reason (v : option debate_reason) (r : debate) : debate :=
  DebateRow (d_session r) (d_role r) (d_peer r) (d_requestID r) (d_roundsMax r) (d_turnTimeoutS r) (d_commitment r) (d_nonce r) (d_phase r) (d_nextSlot r) (d_turnDeadline r) (d_outcome r) v (d_lastState r) (d_lastStateSent r) (d_closeBody r) (d_created r) (d_updated r).
Definition dset_lastState (v : option (bytes * body)) (r : debate) : debate :=
  DebateRow (d_session r) (d_role r) (d_peer r) (d_requestID r) (d_roundsMax r) (d_turnTimeoutS r) (d_commitment r) (d_nonce r) (d_phase r) (d_nextSlot r) (d_turnDeadline r) (d_outcome r) (d_reason r) v (d_lastStateSent r) (d_closeBody r) (d_created r) (d_updated r).
Definition dset_lastStateSent (v : option bytes) (r : debate) : debate :=
  DebateRow (d_session r) (d_role r) (d_peer r) (d_requestID r) (d_roundsMax r) (d_turnTimeoutS r) (d_commitment r) (d_nonce r) (d_phase r) (d_nextSlot r) (d_turnDeadline r) (d_outcome r) (d_reason r) (d_lastState r) v (d_closeBody r) (d_created r) (d_updated r).
Definition dset_closeBody (v : option body) (r : debate) : debate :=
  DebateRow (d_session r) (d_role r) (d_peer r) (d_requestID r) (d_roundsMax r) (d_turnTimeoutS r) (d_commitment r) (d_nonce r) (d_phase r) (d_nextSlot r) (d_turnDeadline r) (d_outcome r) (d_reason r) (d_lastState r) (d_lastStateSent r) v (d_created r) (d_updated r).
Definition dset_updated (v : bytes) (r : debate) : debate :=
  DebateRow (d_session r) (d_role r) (d_peer r) (d_requestID r) (d_roundsMax r) (d_turnTimeoutS r) (d_commitment r) (d_nonce r) (d_phase r) (d_nextSlot r) (d_turnDeadline r) (d_outcome r) (d_reason r) (d_lastState r) (d_lastStateSent r) (d_closeBody r) (d_created r) v.

Inductive entry_state := EntryCommitted | EntryApplied | EntrySent | EntryEarly.
Inductive constraint_state := ConstraintActive | ConstraintLate | ConstraintExcess.
Inductive decision_state := DecisionAwaitingPeer | DecisionSigned | DecisionPeerRefused.
#[export] Instance entry_state_eq_dec : EqDecision entry_state.
Proof. solve_decision. Defined.
#[export] Instance constraint_state_eq_dec : EqDecision constraint_state.
Proof. solve_decision. Defined.
#[export] Instance decision_state_eq_dec : EqDecision decision_state.
Proof. solve_decision. Defined.

Record entry_row := EntryRow {
  e_session : bytes; e_slot : Z; e_author : party; e_kind : entry_kind; e_canon : bytes; e_at : bytes; e_state : entry_state;
}.
Definition eset_state (v : entry_state) (r : entry_row) : entry_row :=
  EntryRow (e_session r) (e_slot r) (e_author r) (e_kind r) (e_canon r) (e_at r) v.
Definition eset_at (v : bytes) (r : entry_row) : entry_row :=
  EntryRow (e_session r) (e_slot r) (e_author r) (e_kind r) (e_canon r) v (e_state r).

Record constraint_row := ConstraintRow {
  k_session : bytes; k_id : bytes; k_author : party; k_text : bytes; k_at : bytes; k_state : constraint_state; k_approval : option bytes;
}.
Definition kset_state (v : constraint_state) (r : constraint_row) : constraint_row :=
  ConstraintRow (k_session r) (k_id r) (k_author r) (k_text r) (k_at r) v (k_approval r).

Record decision_row := DecisionRow {
  n_id : bytes; n_session : bytes; n_role : party; n_peer : bytes; n_decision : bytes; n_hash : bytes;
  n_sigI : option bytes; n_sigR : option bytes; n_peerHash : option bytes; n_state : decision_state; n_created : bytes; n_updated : bytes;
}.
(** The two UPDATEs of applySign. *)
Definition nset_signed (sig updated : bytes) (r : decision_row) : decision_row :=
  DecisionRow (n_id r) (n_session r) (n_role r) (n_peer r) (n_decision r) (n_hash r) (n_sigI r) (Some sig) (n_peerHash r) DecisionSigned (n_created r) updated.
Definition nset_refused (hash updated : bytes) (r : decision_row) : decision_row :=
  DecisionRow (n_id r) (n_session r) (n_role r) (n_peer r) (n_decision r) (n_hash r) (n_sigI r) (n_sigR r) (Some hash) DecisionPeerRefused (n_created r) updated.

Record debate_tables := DebateTables {
  debates : list debate; entries : list entry_row; constraints : list constraint_row; decisions : list decision_row;
}.

(** The debate tables inside the tables behind the hooks. *)
Class HasDebates (X : Type) := { get_debates : X → debate_tables; put_debates : debate_tables → X → X }.
Class HasDebatesLaws (X : Type) `{HasDebates X} : Prop := {
  get_put : ∀ t x, get_debates (put_debates t x) = t;
  put_put : ∀ t t' x, put_debates t (put_debates t' x) = put_debates t x;
}.

Section Tx.
Context {X : Type} `{HasDebates X}.

Definition tables (d : db X) : debate_tables := get_debates (ext d).
Definition set_tables (f : debate_tables → debate_tables) : tx X unit :=
  d ← tx_get (λ d, d); set_ext (put_debates (f (tables d)) (ext d)).
Definition set_debates (f : list debate → list debate) : tx X unit :=
  set_tables (λ t, DebateTables (f (debates t)) (entries t) (constraints t) (decisions t)).
Definition set_entries (f : list entry_row → list entry_row) : tx X unit :=
  set_tables (λ t, DebateTables (debates t) (f (entries t)) (constraints t) (decisions t)).
Definition set_constraints (f : list constraint_row → list constraint_row) : tx X unit :=
  set_tables (λ t, DebateTables (debates t) (entries t) (f (constraints t)) (decisions t)).
Definition set_decisions (f : list decision_row → list decision_row) : tx X unit :=
  set_tables (λ t, DebateTables (debates t) (entries t) (constraints t) (f (decisions t))).

Definition is_debate (sid : bytes) (r : debate) : bool := bool_decide (d_session r = sid).
Definition update_debate (sid : bytes) (f : debate → debate) : tx X unit := set_debates (update_where (is_debate sid) f).
Definition is_entry (sid : bytes) (slot : Z) (e : entry_row) : bool := bool_decide (e_session e = sid) && (e_slot e =? slot).
Definition is_constraint (sid id : bytes) (k : constraint_row) : bool := bool_decide (k_session k = sid) && bool_decide (k_id k = id).
Definition is_decision (sid : bytes) (n : decision_row) : bool := bool_decide (n_session n = sid).
End Tx.
