(* ===== verification/Debate.v ===== *)
(** * The debate store (internal/debate/store.go, engine.go, decision.go, start.go, experience.go)

    Rows and transcripts, the turn and its deadline, the reveal, the close and
    the Decision, the experience record, and the hooks the session and request
    stores call. Each operation is a part of its caller's transaction; the
    audit rows and notifications are the effects it returns, in order. The
    clock is read once per call. *)

From S2P Require Import Prelude Utf8 Canonical Strconv DisplayText WireTime Body RequestObject.
From S2P Require Import Tables Experience Requests WorkSession DebateEntry DebateTurns Signing DecisionRecord DebateTables.
From stdpp Require Import gmap.

Open Scope Z_scope.

Definition MailEntry : bytes := bytes_of "debate.entry".
Definition MailReveal : bytes := bytes_of "debate.reveal".
Definition MailClose : bytes := bytes_of "debate.close".
Definition MailSign : bytes := bytes_of "debate.sign".
Definition MailConstraint : bytes := bytes_of "debate.constraint".
Definition MailCancel : bytes := bytes_of "ws.cancel".
Definition EventAgreed : bytes := bytes_of "debate.agreed".
Definition EventEscalated : bytes := bytes_of "debate.escalated".
Definition EventBroken : bytes := bytes_of "debate.broken".
Definition EventRefused : bytes := bytes_of "debate.refused".
Definition EventConstraint : bytes := bytes_of "debate.constraint".
Definition CauseBadReveal : bytes := bytes_of "bad_reveal".
Definition CauseDecisionRefused : bytes := bytes_of "decision_refused".

(** One stored entry, parsed; a transcript is a debate's entries by slot. *)
Record stored := MkStored {
  st_author : party; st_kind : entry_kind; st_at : bytes; st_state : entry_state; st_canon : bytes; st_entry : Entry;
}.
Abbreviation transcript := (gmap Z stored).

(** row.open *)
Definition is_open (p : phase) : bool := bool_decide (p ∈ [PhasePositions; PhaseRounds; PhaseConverge]).
Definition turnStates (r : party) : list entry_state :=
  match r with RoleInitiator => [EntryApplied] | RoleRespondent => [EntryApplied; EntrySent] end.
Definition hasState (e : stored) (states : list entry_state) : bool := bool_decide (st_state e ∈ states).

Definition meta_of (e : stored) : Meta :=
  MkMeta (st_author e) (st_kind e) (match st_entry e with EMove m => length (Challenges m) | _ => 0%nat end).
Definition metas (states : list entry_state) (tr : transcript) : gmap Z Meta :=
  omap (λ e, if hasState e states then Some (meta_of e) else None) tr.

(** The author's position before [before]: the opening one, or its last revision. *)
Definition current (tr : transcript) (author : party) (before : Z) (states : list entry_state) : option Position :=
  let opening := match author with RoleInitiator => 0 | RoleRespondent => 1 end in
  match tr !! opening with
  | None => None
  | Some e =>
      if negb (hasState e states) then None else
      let start := match st_entry e with EPosition p => Some p | _ => None end in
      fold_left (λ pos s,
        if (s <? 2) || (before <=? s) then pos else
        match tr !! s with
        | Some e => if negb (bool_decide (st_author e = author) && hasState e states) then pos else
                    match st_entry e with EMove m => match Revision m with Some p => Some p | None => pos end | _ => pos end
        | None => pos
        end) (sorted_slots tr) start
  end.

Definition checkEntryTargets (tr : transcript) (e : Entry) (author : party) (slot : Z) (states : list entry_state) : checked unit :=
  match e with
  | EMove m => match current tr (other author) slot states with
               | None => Err (FieldError (field "challenges"))
               | Some pos => CheckTargets m pos
               end
  | _ => Ok tt
  end.

Definition entryAudit (sid peer : bytes) (slot : Z) (k : entry_kind) (canon : bytes) (e : Entry) : body :=
  [(bytes_of "session", VString sid); (bytes_of "peer", VString peer); (bytes_of "slot", num slot); (bytes_of "kind", VString (kind_text k));
   (bytes_of "bytes", num (Z.of_nat (length canon)))] ++
  match e with
  | EMove m => [(bytes_of "challenges", num (Z.of_nat (length (Challenges m)))); (bytes_of "revision", VBool (bool_decide (is_Some (Revision m))))]
  | _ => []
  end.
Definition debate_ids (sid peer : bytes) (rest : body) : body := (bytes_of "session", VString sid) :: (bytes_of "peer", VString peer) :: rest.

(** ParseStrict of an entry's canonical bytes. *)
Definition entryValue (canon : bytes) : checked value := match ParseStrict canon with Ok v => Ok v | Err e => Err (ErrStoredBody e) end.

(** B's display deadline after its answer. *)
Definition answerDue (tr : transcript) (turnTimeoutS : Z) : option Z :=
  match List.find (λ p : Z * stored, bool_decide (st_author p.2 = RoleRespondent) && bool_decide (st_kind p.2 = KindAnswer) &&
                                     bool_decide (st_state p.2 = EntrySent)) (map_to_list tr) with
  | Some p => Some (parseWireTime (st_at p.2) + turnTimeoutS * second)
  | None => None
  end.

(** Which entries an experience record covers. *)
Definition cover := Z → stored → bool.
Definition coverApplied : cover := λ _ e, bool_decide (st_state e = EntryApplied).
Definition coverAppliedOrSent : cover := λ _ e, hasState e [EntryApplied; EntrySent].
Definition coverBelow (n : Z) : cover := λ s e, (s <? n) && coverAppliedOrSent s e.
Definition covered (c : cover) (tr : transcript) : transcript := filter (λ p, c p.1 p.2 = true) tr.
Definition claimOf (tr : transcript) (slot : Z) : bytes :=
  match tr !! slot with Some e => match st_entry e with EPosition p => Claim p | _ => [] end | None => [] end.
(** final_agreement.decision and the number of disagreements of a stored Decision. *)
Definition decisionFacts (canon : bytes) : bytes * Z :=
  match ParseStrict canon with
  | Ok v =>
      let d := match v with VObject m => m | _ => [] end in
      (match member (bytes_of "final_agreement") d with Some (VObject fa) => string_member "decision" fa | _ => [] end,
       Z.of_nat (length (list_member "remaining_disagreement" d)))
  | Err _ => ([], 0)
  end.
Definition decisionOutcome (canon : bytes) : checked bytes :=
  match entryValue canon with
  | Ok (VObject m) => Ok (string_member "outcome" m)
  | Ok _ => Ok []
  | Err e => Err e
  end.
Definition age_of (created : bytes) (now : Z) : Z := Z.max 0 (Sub now (parseStoreTime created) ÷ second).

Class DebateEnv (X : Type) := {
  Priv : option (checked bytes);                          (* the identity key of the keystore *)
  PeerQuarantine : option (X → bytes → checked bool);     (* peer *)
}.

Section Debate.
Context {X : Type} `{Env X} `{HasDebates X} `{Crypto} `{DebateEnv X}.

(** ** Rows (store.go) *)

Definition find_debate (sid : bytes) (d : db X) : option debate := List.find (is_debate sid) (debates (tables d)).
Definition getDebate (sid : bytes) : tx X debate := tx_found ErrUnknownDebate (find_debate sid).
Definition find_by_request (rl : party) (peer requestID : bytes) (d : db X) : option debate :=
  List.find (λ r, bool_decide (d_role r = rl) && bool_decide (d_peer r = peer) && bool_decide (d_requestID r = requestID)) (debates (tables d)).

Definition session_id (s : bytes) : bool := hex_id 0x73 s.
Definition resolve (id : bytes) : tx X debate :=
  if session_id id then getDebate id else
  if ValidID id then
    found ← tx_get (λ d, List.filter (λ r, bool_decide (d_requestID r = id)) (debates (tables d)));
    match found with
    | [] => tx_err ErrUnknownDebate
    | [r] => mret r
    | _ => tx_err ErrAmbiguousRequest
    end
  else tx_err ErrUnknownDebate.

(** initiatorKey and respondentKey *)
Definition keys (r : debate) : bytes * bytes := match d_role r with RoleInitiator => (Self, d_peer r) | RoleRespondent => (d_peer r, Self) end.

Fixpoint parse_rows (l : list entry_row) (tr : transcript) : checked transcript :=
  match l with
  | [] => Ok tr
  | e :: l =>
      match ParseEntry (e_kind e) (e_canon e) with
      | Err x => Err x
      | Ok p => parse_rows l (<[e_slot e := MkStored (e_author e) (e_kind e) (e_at e) (e_state e) (e_canon e) p]> tr)
      end
  end.
Definition rows_of (sid : bytes) (d : db X) : list entry_row := List.filter (λ e, bool_decide (e_session e = sid)) (entries (tables d)).
Definition loadTranscript (sid : bytes) : tx X transcript :=
  rows ← tx_get (rows_of sid); tx_lift (parse_rows rows ∅).

Definition insertEntry (sid : bytes) (slot : Z) (author : party) (k : entry_kind) (canon at_ : bytes) (st : entry_state) : tx X unit :=
  taken ← tx_get (λ d, existsb (is_entry sid slot) (entries (tables d)));
  if (taken : bool) || negb (in_range 0 MaxSlot slot) then tx_err ErrUnique else
  set_entries (λ l, l ++ [EntryRow sid slot author k canon at_ st]).
Definition update_entry (sid : bytes) (slot : Z) (f : entry_row → entry_row) : tx X unit := set_entries (update_where (is_entry sid slot) f).
(** DELETE of a held (early) entry. *)
Definition drop_early (sid : bytes) (slot : Z) : tx X unit :=
  set_entries (List.filter (λ e, negb (is_entry sid slot e && bool_decide (e_state e = EntryEarly)))).

Definition constraintIDs (sid : bytes) (d : db X) : list bytes :=
  sort_by text_lt (map k_id (List.filter (λ k, bool_decide (k_session k = sid) && bool_decide (k_state k = ConstraintActive)) (constraints (tables d)))).

Definition setClosed (sid : bytes) (o : debate_outcome) (reason : debate_reason) (now : Z) : tx X unit :=
  update_debate sid (λ r, dset_updated (storeTime now) (dset_turnDeadline None (dset_reason (Some reason) (dset_outcome (Some o) (dset_phase PhaseClosed r))))).

(** ** The turn and the mail of a step (engine.go) *)

Definition advanceTx (r : debate) (tr : transcript) (now : Z) : tx X Turn :=
  let t := Next (metas (turnStates (d_role r)) tr) (d_roundsMax r) in
  let '(ph, deadline) := match t with
    | Done _ => (PhaseConverge, match d_role r with
                                | RoleRespondent => option_map wireTime (answerDue tr (d_turnTimeoutS r))
                                | RoleInitiator => None
                                end)
    | NextTurn ph _ _ _ _ => (ph, Some (wireTime (now + d_turnTimeoutS r * second)))
    end in
  _ ← update_debate (d_session r) (λ r, dset_updated (storeTime now) (dset_turnDeadline deadline (dset_nextSlot (tn_Slot t) (dset_phase ph r))));
  mret t.

Definition sendLastState (r : debate) (kind : bytes) (b : body) (now : Z) : tx X bytes :=
  mid ← SubmitTx (d_peer r) kind b now;
  _ ← match d_role r with
      | RoleInitiator => update_debate (d_session r) (λ r, dset_lastStateSent (Some (storeTime now)) (dset_lastState (Some (kind, b)) r))
      | RoleRespondent => mret tt
      end;
  mret mid.

Definition reveal_body (r : debate) (at_ nonce : bytes) (pos : value) : body :=
  [(bytes_of "at", VString at_); (bytes_of "nonce", VString nonce); (bytes_of "position", pos);
   (bytes_of "request", VString (d_requestID r)); (bytes_of "session", VString (d_session r))].
Definition revealTx (r : debate) (tr : transcript) (now : Z) : tx X (transcript * list effect) :=
  match tr !! 0, d_nonce r with
  | Some e, Some nonce =>
      if negb (bool_decide (st_state e = EntryCommitted)) then tx_err ErrMissing else
      let at_ := wireTime now in
      _ ← update_entry (d_session r) 0 (λ e, eset_at at_ (eset_state EntryApplied e));
      pos ← tx_lift (entryValue (st_canon e));
      _ ← sendLastState r MailReveal (reveal_body r at_ nonce pos) now;
      mret (<[0 := MkStored (st_author e) (st_kind e) at_ EntryApplied (st_canon e) (st_entry e)]> tr,
            [Audit daemon (bytes_of "debate.reveal") (debate_ids (d_session r) (d_peer r) [])])
  | _, _ => tx_err ErrMissing
  end.

(** ** The Decision (decision.go) *)

Definition request_direction (rl : party) : direction := match rl with RoleInitiator => DirOut | RoleRespondent => DirIn end.
Definition request_row (r : debate) : tx X request :=
  tx_found ErrMissing (find_request (request_direction (d_role r)) (d_peer r) (d_requestID r)).
Definition counted (n : Z) (p : Z * stored) : bool := coverBelow n p.1 p.2.
Definition derive_entries (tr : transcript) (n : Z) : list TranscriptEntry :=
  map (λ p, MkTranscript p.1 (st_author p.2) (st_kind p.2) (st_canon p.2)) (List.filter (counted n) (map_to_list tr)).
Definition listed_constraints (sid : bytes) (listed : list bytes) (d : db X) : list Constraint :=
  omap (λ id, option_map (λ k, MkConstraint (k_id k) (k_author k) (k_at k) (k_text k))
                (List.find (is_constraint sid id) (constraints (tables d)))) listed.
Definition derive_input (r : debate) (tr : transcript) (n : Z) (cs : list Constraint) (o : debate_outcome) (reason : debate_reason)
    (at_ reqBody : bytes) : DeriveInput :=
  MkDerive (d_session r) (keys r).1 (keys r).2 reqBody (d_roundsMax r) (derive_entries tr n) n cs o reason at_.
Definition deriveTx (r : debate) (tr : transcript) (n : Z) (listed : list bytes) (o : debate_outcome) (reason : debate_reason) (at_ : bytes) : tx X bytes :=
  q ← request_row r;
  cs ← tx_get (listed_constraints (d_session r) listed);
  tx_lift (Derive (derive_input r tr n cs o reason at_ (q_body q))).

(** Store.sign *)
Definition sign (canon : bytes) : checked bytes :=
  match Priv with
  | None => Err ErrDecision
  | Some (Err e) => Err e
  | Some (Ok priv) =>
      if negb (length priv =? 64)%nat then Err ErrDecision
      else if negb (bool_decide (b64_encode (ed25519_Public priv) = Self)) then Err ErrDecision
      else Ok (Sign priv canon)
  end.

Definition insertDecision (r : debate) (canon hash sigI sigR peerHash : bytes) (st : decision_state) (now : Z) : tx X unit :=
  let row := DecisionRow (DecisionRecord.ID (d_session r)) (d_session r) (d_role r) (d_peer r) canon hash (opt_text sigI) (opt_text sigR)
               (opt_text peerHash) st (storeTime now) (storeTime now) in
  dup ← tx_get (λ d, existsb (λ n, bool_decide (n_id n = n_id row) || is_decision (d_session r) n) (decisions (tables d)));
  if (dup : bool) then tx_err ErrUnique else set_decisions (λ l, l ++ [row]).
Definition createAudit (r : debate) (o hash canon : bytes) (signedBy : list party) : tx X effect :=
  AppendTx daemon (bytes_of "decision.create")
    [(bytes_of "id", VString (DecisionRecord.ID (d_session r))); (bytes_of "session", VString (d_session r)); (bytes_of "peer", VString (d_peer r));
     (bytes_of "outcome", VString o); (bytes_of "hash", VString hash); (bytes_of "bytes", num (Z.of_nat (length canon)));
     (bytes_of "signed_by", VArray (map (λ p, VString (party_text p)) signedBy))].
Definition refuseAudit (r : debate) (why : bytes) : tx X (list effect) :=
  AppendTxSoft daemon (bytes_of "decision.refuse")
    [(bytes_of "id", VString (DecisionRecord.ID (d_session r))); (bytes_of "session", VString (d_session r)); (bytes_of "peer", VString (d_peer r));
     (bytes_of "reason", VString why)].

(** decideTx: the transcript, the Decision, its hash and signature, and the
    close's time, which is not before the request's. *)
Definition decideTx (r : debate) (n : Z) (listed : list bytes) (o : debate_outcome) (reason : debate_reason) (now : Z)
    : tx X (transcript * bytes * bytes * bytes * bytes * effect) :=
  tr ← loadTranscript (d_session r);
  q ← tx_found ErrMissing (find_request DirOut (d_peer r) (d_requestID r));
  let at_ := if text_lt (wireTime now) (q_created q) then q_created q else wireTime now in
  canon ← deriveTx r tr n listed o reason at_;
  sig ← tx_lift (sign canon);
  let hash := Hash canon in
  _ ← insertDecision r canon hash sig [] [] DecisionAwaitingPeer now;
  row ← createAudit r (debate_outcome_text o) hash canon [RoleInitiator];
  mret (tr, canon, hash, sig, at_, row).

(** ** The experience record (experience.go) *)

Definition experience_of (r : debate) (tr : transcript) (c : cover) (o : debate_outcome) (cancelledBy cause : bytes)
    (dec : option (bytes * bytes)) (decCanon : bytes) (now : Z) (q : request) : Experience.Input :=
  let cov := covered c tr in
  let facts := decisionFacts decCanon in
  let when_ o' (s : bytes) := if bool_decide (o = o') then s else [] in
  Experience.MkInput (d_session r) (d_requestID r) (party_text (d_role r)) Experience.KindDebate_ (d_peer r) (q_teamID q) (q_typ q)
    (summary_of (q_body q)).1 (summary_of (q_body q)).2 [] 0 []
    (claimOf cov 0) (claimOf cov 1) (RoundsUsed (metas [EntryApplied; EntrySent] cov))
    [] [] (when_ OutcomeAgreed facts.1) 0 [] (if bool_decide (o = OutcomeEscalated) then facts.2 else 0)
    (when_ OutcomeCancelled cancelledBy) (when_ OutcomeCancelled cause)
    Experience.verificationNone [] (debate_outcome_text o) (age_of (d_created r) now) dec (parseStoreTime (d_created r)) now.
Definition writeDebateExperience (r : debate) (tr : transcript) (c : cover) (o : debate_outcome) (cancelledBy cause : bytes)
    (dec : option (bytes * bytes)) (decCanon : bytes) (now : Z) : tx X (Z * bool) :=
  q ← request_row r;
  Experience.WriteTx (experience_of r tr c o cancelledBy cause dec decCanon now q) now.
Definition auditDebateExperience (r : debate) (size : Z * bool) : effect :=
  Audit daemon (bytes_of "experience.write")
    ([(bytes_of "session", VString (d_session r)); (bytes_of "role", VString (party_text (d_role r))); (bytes_of "bytes", num size.1)] ++
     if size.2 then [(bytes_of "truncated", VBool true)] else []).
Definition decision_ref (r : debate) (canon : bytes) : option (bytes * bytes) := Some (DecisionRecord.ID (d_session r), Hash canon).

(** ** The close on A (engine.go) *)

Definition close_body (r : debate) (at_ : bytes) (ids : list bytes) (n : Z) (o : debate_outcome) (reason : debate_reason) (signed : option (bytes * bytes)) : body :=
  [(bytes_of "at", VString at_); (bytes_of "constraints", VArray (map VString ids)); (bytes_of "entries", num n);
   (bytes_of "outcome", VString (debate_outcome_text o)); (bytes_of "reason", VString (debate_reason_text reason));
   (bytes_of "request", VString (d_requestID r)); (bytes_of "session", VString (d_session r))] ++
  match signed with Some (hash, sig) => [(bytes_of "decision", VString hash); (bytes_of "sig", VString sig)] | None => [] end.
Definition audit_debate_close (actor : bytes) (r : debate) (o : debate_outcome) (reason : debate_reason) (n k now : Z) : effect :=
  Audit actor (bytes_of "debate.close") (debate_ids (d_session r) (d_peer r)
    [(bytes_of "outcome", VString (debate_outcome_text o)); (bytes_of "reason", VString (debate_reason_text reason));
     (bytes_of "entries", num n); (bytes_of "constraints", num k); (bytes_of "age_s", num (age_of (d_created r) now))]).
Definition outcome_event (r : debate) (o : debate_outcome) : list effect :=
  match o with
  | OutcomeAgreed => [OnEvent EventAgreed (d_session r) (d_peer r) (d_requestID r)]
  | OutcomeEscalated => [OnEvent EventEscalated (d_session r) (d_peer r) (d_requestID r)]
  | OutcomeCancelled => []
  end.
Definition session_outcome (o : debate_outcome) : Tables.outcome :=
  match o with OutcomeCancelled => Tables.OutcomeCancelled | _ => Tables.OutcomeAccepted end.

(** The debate's own rows: closed when cancelled, closing with its Decision
    otherwise. The transcript, the Decision and what the close carries. *)
Definition close_rows (r : debate) (n : Z) (ids : list bytes) (o : debate_outcome) (reason : debate_reason) (now : Z)
    : tx X (transcript * option bytes * body * list effect) :=
  if bool_decide (o = OutcomeCancelled) then
    _ ← setClosed (d_session r) o reason now;
    tr ← loadTranscript (d_session r);
    mret (tr, None, close_body r (wireTime now) ids n o reason None, [])
  else
    _ ← update_debate (d_session r) (λ r, dset_updated (storeTime now) (dset_turnDeadline None (dset_reason (Some reason) (dset_phase PhaseClosing r))));
    '(tr, canon, hash, sig, at_, audit) ← decideTx r n ids o reason now;
    mret (tr, Some canon, close_body r at_ ids n o reason (Some (hash, sig)), [audit]).

Definition closeTx (r : debate) (o : debate_outcome) (reason : debate_reason) (actor cancelledBy : bytes) (now : Z) : tx X (list effect) :=
  n ← tx_get (λ d, Z.of_nat (length (List.filter (λ e, bool_decide (e_state e = EntryApplied)) (rows_of (d_session r) d))));
  ids ← tx_get (constraintIDs (d_session r));
  '(tr, canon, b, created) ← close_rows r n ids o reason now;
  _ ← sendLastState r MailClose b now;
  afterWS ← CloseDebateTx (d_session r) (session_outcome o) now;
  size ← writeDebateExperience r tr coverApplied o cancelledBy [] (match canon with Some c => decision_ref r c | None => None end) (default [] canon) now;
  mret (created ++ [audit_debate_close actor r o reason n (Z.of_nat (length ids)) now] ++ afterWS ++ outcome_event r o ++
        [auditDebateExperience r size]).

(** ** The close on B (apply.go)

    CompleteInTx refuses with a BadStateError before it writes anything. *)
Definition complete_request (r : debate) (note : bytes) (now : Z) : tx X (list effect) :=
  done ← tx_try (CompleteInTx (d_peer r) (d_requestID r) note None now);
  match done with
  | Ok effs => mret effs
  | Err (BadStateError _) => mret []
  | Err e => tx_err e
  end.
Definition closeMirrorTx (r : debate) (wsOutcome : Tables.outcome) (note : bytes) (event : option bytes) (o : debate_outcome) (tr : transcript) (c : cover)
    (cancelledBy cause : bytes) (dec : option (bytes * bytes)) (decCanon : bytes) (now : Z) : tx X (list effect) :=
  afterWS ← CloseDebateTx (d_session r) wsOutcome now;
  completed ← complete_request r note now;
  size ← writeDebateExperience r tr c o cancelledBy cause dec decCanon now;
  mret (afterWS ++ completed ++ match event with Some e => [OnEvent e (d_session r) (d_peer r) (d_requestID r)] | None => [] end ++
        [auditDebateExperience r size]).

Definition session_cancelled : bytes := bytes_of "session cancelled".
Definition brokenTx (r : debate) (now : Z) : tx X (list effect) :=
  _ ← update_debate (d_session r) (λ r, dset_updated (storeTime now) (dset_turnDeadline None (dset_phase PhaseBroken r)));
  _ ← SubmitTx (d_peer r) MailCancel [(bytes_of "at", VString (wireTime now)); (bytes_of "request", VString (d_requestID r));
                                      (bytes_of "session", VString (d_session r))] now;
  tr ← loadTranscript (d_session r);
  effs ← closeMirrorTx r Tables.OutcomeCancelled session_cancelled (Some EventBroken) OutcomeCancelled tr coverAppliedOrSent
           (party_text RoleRespondent) CauseBadReveal None [] now;
  mret ([Audit daemon (bytes_of "debate.reveal_in") (debate_ids (d_session r) (d_peer r) [(bytes_of "ok", VBool false)]);
         Audit daemon (bytes_of "debate.reveal_bad") (debate_ids (d_session r) (d_peer r) [])] ++ effs).

(** ** The hooks (start.go, engine.go) *)

Definition bad_phase (r : debate) : error := DebateState (phase_text (d_phase r)).
Definition checkQuarantine (peer : bytes) : tx X unit :=
  match PeerQuarantine with
  | None => mret tt
  | Some q => x ← tx_get ext; holds ← tx_lift (q x peer); if (holds : bool) then tx_err ErrQuarantineActive else mret tt
  end.

Definition party_of (rl : Tables.role) : party := match rl with Requester => RoleInitiator | Worker => RoleRespondent end.
Definition OpenedTx (rl : Tables.role) (peer requestID sid : bytes) (now : Z) : tx X unit :=
  r ← getDebate sid;
  if negb (bool_decide (d_role r = party_of rl) && bool_decide (d_peer r = peer) && bool_decide (d_requestID r = requestID)) then tx_err ErrMissing else
  if negb (bool_decide (d_phase r = PhaseInvited)) then mret tt else
  _ ← match d_role r with RoleRespondent => checkQuarantine peer | RoleInitiator => mret tt end;
  update_debate sid (λ r, dset_updated (storeTime now) (dset_turnDeadline (Some (wireTime (now + d_turnTimeoutS r * second)))
                            (dset_nextSlot 1 (dset_phase PhasePositions r)))).

Definition CancelTx (sid : bytes) (now : Z) : tx X (option (list effect)) :=
  r ← getDebate sid;
  if negb (bool_decide (d_role r = RoleInitiator) && is_open (d_phase r)) then tx_err (bad_phase r) else
  effs ← closeTx r OutcomeCancelled ReasonCancelled cli (party_text RoleInitiator) now;
  mret (Some effs).
Definition PeerCancelTx (sid : bytes) (now : Z) : tx X (bool * list effect) :=
  r ← getDebate sid;
  if negb (bool_decide (d_role r = RoleInitiator) && is_open (d_phase r)) then mret (false, []) else
  effs ← closeTx r OutcomeCancelled ReasonCancelled daemon (party_text RoleRespondent) now;
  mret (true, effs).
Definition EarlyCompleteTx (sid : bytes) (now : Z) : tx X (list effect) :=
  r ← getDebate sid;
  if negb (bool_decide (d_role r = RoleInitiator) && is_open (d_phase r)) then mret [] else
  closeTx r OutcomeCancelled ReasonCancelled daemon (party_text RoleRespondent) now.
Definition AbandonTx (sid : bytes) (now : Z) : tx X (list effect) :=
  r ← getDebate sid;
  if negb (bool_decide (d_role r = RoleRespondent) && is_open (d_phase r)) then mret [] else
  tr ← loadTranscript sid;
  if match answerDue tr (d_turnTimeoutS r) with
     | Some due => bool_decide (d_closeBody r = None) && (now <? due)
     | None => false
     end then tx_err (bad_phase r) else
  _ ← setClosed sid OutcomeCancelled ReasonAbandoned now;
  effs ← closeMirrorTx r Tables.OutcomeCancelled session_cancelled None OutcomeCancelled tr coverAppliedOrSent (party_text RoleRespondent) [] None [] now;
  mret (effs ++ [Audit cli (bytes_of "debate.abandon") (debate_ids sid (d_peer r) [])]).

(** INSERT INTO debates: the primary key, the pair's request, the CHECKs. *)
Definition insertDebate (r : debate) : tx X unit :=
  taken ← tx_get (λ d, existsb (λ o, is_debate (d_session r) o ||
            (bool_decide (d_role o = d_role r) && bool_decide (d_peer o = d_peer r) && bool_decide (d_requestID o = d_requestID r))) (debates (tables d)));
  if (taken : bool) || negb (in_range 1 5 (d_roundsMax r) && in_range 300 86400 (d_turnTimeoutS r)) then tx_err ErrUnique else
  set_debates (λ l, l ++ [r]).
Definition new_debate (sid : bytes) (rl : party) (peer requestID : bytes) (rounds timeout : Z) (commitment : bytes) (nonce : option bytes) (now : Z) : debate :=
  DebateRow sid rl peer requestID rounds timeout commitment nonce PhaseInvited 1 None None None None None None (storeTime now) (storeTime now).
Definition ReceivedTx (req : Request) (now : Z) : tx X unit :=
  match Debate req with
  | None => tx_err ErrMissing
  | Some m => insertDebate (new_debate (DeriveID (From req) (To req) (RequestObject.ID req)) RoleRespondent (From req) (RequestObject.ID req)
                              (Rounds m) (TurnTimeoutS m) (RequestObject.Commitment m) None now)
  end.
Definition EndedTx (dir : direction) (peer id : bytes) (now : Z) : tx X unit :=
  let rl := match dir with DirOut => RoleInitiator | DirIn => RoleRespondent end in
  found ← tx_get (find_by_request rl peer id);
  match found with
  | None => mret tt
  | Some r => if negb (bool_decide (d_phase r = PhaseInvited)) then mret tt else setClosed (d_session r) OutcomeCancelled ReasonCancelled now
  end.
Definition HasDecisionTx (x : X) (from to id : bytes) : checked bool :=
  Ok (existsb (is_decision (DeriveID from to id)) (decisions (get_debates x))).

(** request.DebateHooks and worksession.DebateHooks are this store. *)
Definition debate_hooks : DebateStore X := {|
  Tables.OpenedTx := OpenedTx; Tables.CancelTx := CancelTx; Tables.PeerCancelTx := PeerCancelTx; Tables.EarlyCompleteTx := EarlyCompleteTx;
  Tables.AbandonTx := AbandonTx; Tables.ReceivedTx := ReceivedTx; Tables.EndedTx := EndedTx; Tables.HasDecisionTx := HasDecisionTx;
|}.
End Debate.
