(* ===== verification/DebateMail.v ===== *)
(** * Debates: submissions, received mail, constraints and timeouts (internal/debate)

    Start and Submit (start.go, submit.go), the mails debate.entry,
    debate.reveal and debate.close (apply.go), debate.sign (decision.go),
    human constraints (constraint.go) and the sweep (sweep.go). A received
    mail is an Apply inside the receiver's transaction and an After that runs
    once it is committed; [receive_debate] is the two together. *)

From S2P Require Import Prelude Utf8 Canonical Strconv DisplayText WireTime Body RequestObject.
From S2P Require Import Tables Experience Requests RequestMail WorkSession SessionMail DebateEntry DebateTurns.
From S2P Require Import Signing DecisionRecord DebateTables Debate.
From stdpp Require Import gmap.

Open Scope Z_scope.

Definition MaxActiveConstraints : nat := 10.
Definition maxStoredConstraints : nat := 20.
Definition echoInterval : Z := 600 * second.
Definition refusedMismatch : bytes := bytes_of "mismatch".

(** The outcome of an Apply: the inbox copy withheld, the audit rows and
    notifications after the commit, and the session whose last_state is sent
    again after them. *)
Record dapplied := DApplied { da_withhold : bool; da_effs : list effect; da_echo : option bytes }.
Definition applied_effs (effs : list effect) : dapplied := DApplied false effs None.

Definition audit_debate_ignored (sid peer kind : bytes) (reason : string) : effect :=
  Audit daemon (bytes_of "debate.ignored") (debate_ids sid peer [(bytes_of "kind", VString kind); (bytes_of "reason", text reason)]).
Definition ignore (effs : list effect) (sid peer kind : bytes) (reason : string) (echo : bool) : dapplied :=
  DApplied true (effs ++ [audit_debate_ignored sid peer kind reason]) (if echo then Some sid else None).

(** ** The members of a body *)

Record common := MkCommon { cb_at : bytes; cb_request : bytes; cb_session : bytes }.
Definition commonBody (b : body) : checked common :=
  match member (field_ "at") b, member (field_ "request") b, member (field_ "session") b with
  | Some (VString at_), Some (VString req), Some (VString sid) =>
      if bool_decide (is_Some (decodeTime (Some (VString at_)))) && ValidID req && session_id sid then Ok (MkCommon at_ req sid) else Err ErrBadBody
  | _, _, _ => Err ErrBadBody
  end.
Definition intMember (b : body) (k : string) : checked Z :=
  match member (bytes_of k) b with
  | Some (VNumber s) => match Int64 s with Some n => if in_range (- 2 ^ 31) (2 ^ 31 - 1) n then Ok n else Err ErrBadBody | None => Err ErrBadBody end
  | _ => Err ErrBadBody
  end.
Definition stringMember (b : body) (k : string) : checked bytes :=
  match member (bytes_of k) b with Some (VString s) => Ok s | _ => Err ErrBadBody end.
Definition check (b : bool) : checked unit := if b then Ok tt else Err ErrBadBody.

(** *** debate.entry *)

Record entry_mail := MkEntryMail { em_common : common; em_kind : entry_kind; em_slot : Z }.
Definition decode_entry_mail (b : body) : checked entry_mail :=
  let? _ := strictMembers b (members ["at"; "entry"; "kind"; "request"; "session"; "slot"]%string) in
  let? c := commonBody b in
  let? k := match ValidKind (string_member "kind" b) with Some k => Ok k | None => Err ErrBadBody end in
  let? slot := intMember b "slot" in
  let? _ := check (in_range 1 MaxSlot slot) in
  Ok (MkEntryMail c k slot).

(** *** debate.close *)

Fixpoint ascending_ids (prev : bytes) (l : list value) : checked (list bytes) :=
  match l with
  | [] => Ok []
  | VString id :: l =>
      let? _ := check (hex_id 0x63 id && text_lt prev id) in
      let? r := ascending_ids id l in Ok (id :: r)
  | _ => Err ErrBadBody
  end.
Definition validClose : list (debate_outcome * debate_reason) :=
  [(OutcomeAgreed, ReasonAccepted); (OutcomeEscalated, ReasonRejected); (OutcomeEscalated, ReasonTimeout);
   (DecisionRecord.OutcomeCancelled, ReasonCancelled); (DecisionRecord.OutcomeCancelled, ReasonTimeout)].
Definition parse_close (outcome reason : bytes) : option (debate_outcome * debate_reason) :=
  List.find (λ p, bool_decide (debate_outcome_text p.1 = outcome) && bool_decide (debate_reason_text p.2 = reason)) validClose.
Record close_mail := MkCloseMail {
  cl_common : common; cl_listed : list bytes; cl_entries : Z; cl_outcome : debate_outcome; cl_reason : debate_reason;
  cl_signed : option (bytes * bytes);                      (* decision, sig *)
}.
(** decision and sig: both non-empty strings, or both absent. *)
Definition decode_signed (b : body) : checked (option (bytes * bytes)) :=
  match member (field_ "decision") b, member (field_ "sig") b with
  | None, None => Ok None
  | Some (VString ((_ :: _) as h)), Some (VString ((_ :: _) as s)) => Ok (Some (h, s))
  | _, _ => Err ErrBadBody
  end.
Definition hex_64 (s : bytes) : bool := (length s =? 64)%nat && forallb is_lower_hex s.
Definition decode_close_mail (b : body) : checked close_mail :=
  let? _ := strictMembers b (members ["at"; "constraints"; "decision"; "entries"; "outcome"; "reason"; "request"; "session"; "sig"]%string) in
  let? c := commonBody b in
  let? l := match member (field_ "constraints") b with Some (VArray l) => Ok l | _ => Err ErrBadBody end in
  let? _ := check (length l <=? MaxActiveConstraints)%nat in
  let? listed := ascending_ids [] l in
  let? n := intMember b "entries" in
  let? _ := check (in_range 0 (MaxSlot + 1) n) in
  let? p := match parse_close (string_member "outcome" b) (string_member "reason" b) with Some p => Ok p | None => Err ErrBadBody end in
  let? signed := decode_signed b in
  let? _ := check (bool_decide (bool_decide (p.1 = DecisionRecord.OutcomeCancelled) = bool_decide (signed = None))) in
  let? _ := check match signed with Some (h, _) => hex_64 h | None => true end in
  Ok (MkCloseMail c listed n p.1 p.2 signed).

(** *** debate.sign *)

Inductive answer_mail := Signed (sig : bytes) | Refused.
Record sign_mail := MkSignMail { sg_common : common; sg_claimed : bytes; sg_answer : answer_mail }.
Definition decode_sign_mail (b : body) : checked sign_mail :=
  let? _ := strictMembers b (members ["at"; "decision"; "refused"; "request"; "session"; "sig"]%string) in
  let? c := commonBody b in
  let? claimed := stringMember b "decision" in
  let? _ := check (hex_64 claimed) in
  match member (field_ "refused") b, member (field_ "sig") b with
  | None, Some (VString ((_ :: _) as s)) => Ok (MkSignMail c claimed (Signed s))
  | Some (VString v), None => if bool_decide (v = refusedMismatch) then Ok (MkSignMail c claimed Refused) else Err ErrBadBody
  | _, _ => Err ErrBadBody
  end.

(** *** debate.constraint *)

Record constraint_mail := MkConstraintMail { cm_common : common; cm_id : bytes; cm_text : bytes }.
Definition decode_constraint_mail `{Unicode} (b : body) : checked constraint_mail :=
  let? _ := strictMembers b (members ["at"; "id"; "request"; "session"; "text"]%string) in
  let? c := commonBody b in
  let? id := stringMember b "id" in
  let? _ := check (hex_id 0x63 id) in
  let? t := stringMember b "text" in
  let? _ := as_bad_body (ValidateConstraintText t) in
  Ok (MkConstraintMail c id t).

(** An IPC error's path under a prefix. *)
Definition fieldPrefix {A} (prefix : string) (r : checked A) : checked A :=
  match r with
  | Err (FieldError []) => Err (FieldError (bytes_of prefix))
  | Err (FieldError f) => Err (FieldError (bytes_of prefix ++ [0x2E] ++ f))
  | r => r
  end.

(** closeMatches: A's close against B's own transcript. *)
Definition sent_answers (tr : transcript) : list Answer :=
  omap (λ p : Z * stored, if bool_decide (st_author p.2 = RoleRespondent) && bool_decide (st_state p.2 = EntrySent)
                          then match st_entry p.2 with EAnswer a => Some a | _ => None end else None) (map_to_list tr).
Definition closeMatches (tr : transcript) (o : debate_outcome) (reason : debate_reason) : bool :=
  let ans := List.last (map Some (sent_answers tr)) None in
  match o, reason with
  | OutcomeAgreed, _ => match ans with Some a => Accept a | None => false end
  | OutcomeEscalated, ReasonRejected => match ans with Some a => negb (Accept a) | None => false end
  | OutcomeEscalated, _ => match tr !! 1 with Some e => bool_decide (st_state e = EntrySent) | None => false end
  | DecisionRecord.OutcomeCancelled, _ => true
  end.
(** closeGap: A's entries count against B's transcript. *)
Inductive gap := GapRefuse (why : string) | GapHold | GapNone.
Definition closeGap (tr : transcript) (roundsMax n : Z) : gap :=
  if n <? 2 then GapRefuse "entries" else
  if existsb (λ p : Z * stored, bool_decide (st_author p.2 = RoleInitiator) && (n <=? p.1)) (map_to_list tr) then GapRefuse "cut" else
  match Next (metas [EntryApplied; EntrySent] tr) roundsMax with
  | Done s => if n <=? s then GapNone else GapRefuse "entries"
  | NextTurn _ s _ author _ => if n <=? s then GapNone else if bool_decide (author = RoleRespondent) then GapRefuse "unsent" else GapHold
  end.

Section DebateMail.
Context {X : Type} `{Env X} `{HasDebates X} `{Crypto} `{DebateEnv X}.

(** bodyRow: the row of a body's session, which must be the pair's. *)
Definition body_party (op : opened_mail) (c : common) : option party :=
  if bool_decide (cb_session c = DeriveID (op_to op) (op_from op) (cb_request c)) then Some RoleInitiator
  else if bool_decide (cb_session c = DeriveID (op_from op) (op_to op) (cb_request c)) then Some RoleRespondent else None.
Definition bodyRow (op : opened_mail) (c : common) (want : option party) : tx X (option debate) :=
  match body_party op c with
  | None => tx_err ErrBadBody
  | Some rl =>
      if match want with Some w => negb (bool_decide (rl = w)) | None => false end then tx_err ErrBadBody else
      found ← tx_get (find_debate (cb_session c));
      match found with
      | None => mret None
      | Some r => if negb (bool_decide (d_role r = rl) && bool_decide (d_peer r = op_from op) && bool_decide (d_requestID r = cb_request c))
                  then tx_err ErrBadBody else mret (Some r)
      end
  end.

Definition close_debate_body (sid : bytes) (b : body) (now : Z) : tx X unit :=
  update_debate sid (λ r, dset_updated (storeTime now) (dset_closeBody (Some b) r)).

(** ** The close on B (apply.go, decision.go) *)

Definition signOnB (r : debate) (canon sigA : bytes) (now : Z) : tx X effect :=
  sigB ← tx_lift (sign canon);
  let hash := Hash canon in
  _ ← insertDecision r canon hash sigA sigB [] DecisionSigned now;
  _ ← SubmitTx (d_peer r) MailSign [(bytes_of "at", VString (wireTime now)); (bytes_of "decision", VString hash);
        (bytes_of "request", VString (d_requestID r)); (bytes_of "session", VString (d_session r)); (bytes_of "sig", VString sigB)] now;
  createAudit r (match decisionOutcome canon with Ok o => o | Err _ => [] end) hash canon [RoleInitiator; RoleRespondent].

Definition no_record (e : error) : bool :=
  match e with ErrIncomplete | ErrClosedBeforeOpened | TooLargeError _ => true | _ => false end.
(** refuseOnB: B keeps its own derivation, breaks the debate and never signs. *)
Definition own_answers (tr : transcript) (n : Z) : list Answer :=
  omap (λ p : Z * stored, if counted n p then match st_entry p.2 with EAnswer a => Some a | _ => None end else None) (map_to_list tr).
Definition refuseOnB (r : debate) (tr : transcript) (m : close_mail) (b : body) (why : string) (now : Z) : tx X (list effect) :=
  let answer := List.last (map Some (own_answers tr (cl_entries m))) None in
  let '(o, reason) := Expected (bool_decide (answer ≠ None)) (match answer with Some a => Accept a | None => false end) in
  derived ← tx_try (deriveTx r tr (cl_entries m) (cl_listed m) o reason (cb_at (cl_common m)));
  '(own, canon, dec) ← match derived with
    | Ok canon =>
        _ ← insertDecision r canon (Hash canon) [] [] (match cl_signed m with Some (h, _) => h | None => [] end) DecisionPeerRefused now;
        mret (Hash canon, canon, decision_ref r canon)
    | Err e => if no_record e then mret (Hash [], [], None) else tx_err e
    end;
  _ ← update_debate (d_session r) (λ r, dset_updated (storeTime now) (dset_closeBody (Some b) (dset_turnDeadline None (dset_phase PhaseBroken r))));
  _ ← SubmitTx (d_peer r) MailSign [(bytes_of "at", VString (wireTime now)); (bytes_of "decision", VString own);
        (bytes_of "refused", VString refusedMismatch); (bytes_of "request", VString (d_requestID r)); (bytes_of "session", VString (d_session r))] now;
  row ← refuseAudit r (bytes_of why);
  effs ← closeMirrorTx r Tables.OutcomeCancelled session_cancelled (Some EventRefused) DecisionRecord.OutcomeCancelled tr (coverBelow (cl_entries m))
           (party_text RoleRespondent) CauseDecisionRefused dec canon now;
  mret (row ++ effs).

Definition missingConstraints (sid : bytes) (listed : list bytes) (d : db X) : list bytes :=
  List.filter (λ id, negb (existsb (is_constraint sid id) (constraints (tables d)))) listed.
Definition markLateTx (sid : bytes) (listed : list bytes) : tx X unit :=
  set_constraints (update_where (λ k, bool_decide (k_session k = sid) && bool_decide (k_state k = ConstraintActive) && negb (bool_decide (k_id k ∈ listed)))
                                (kset_state ConstraintLate)).

(** What B makes of an agreed or escalated close. *)
Inductive verdict := Hold | Refuse (why : string) | Agree (canon sigA : bytes).
Definition judgeClose (r : debate) (tr : transcript) (m : close_mail) : tx X verdict :=
  match closeGap tr (d_roundsMax r) (cl_entries m) with
  | GapRefuse why => mret (Refuse why)
  | GapHold => mret Hold
  | GapNone =>
      missing ← tx_get (missingConstraints (d_session r) (cl_listed m));
      if negb (bool_decide (missing = [])) then mret Hold else
      derived ← tx_try (deriveTx r tr (cl_entries m) (cl_listed m) (cl_outcome m) (cl_reason m) (cb_at (cl_common m)));
      match derived with
      | Err ErrInconsistent => mret (Refuse "outcome")
      | Err ErrClosedBeforeOpened => mret (Refuse "time")
      | Err (TooLargeError _) => mret (Refuse "size")
      | Err e => tx_err e
      | Ok canon =>
          match cl_signed m with
          | Some (claimed, sigA) =>
              mret (if negb (bool_decide (Hash canon = claimed)) then Refuse "hash"
                    else if negb (VerifySignature (d_peer r) canon sigA) then Refuse "signature" else Agree canon sigA)
          | None => mret (Refuse "hash")
          end
      end
  end.

Definition late_entries (r : debate) (tr : transcript) (n : Z) : list effect :=
  map (λ _, audit_debate_ignored (d_session r) (d_peer r) MailEntry "late")
      (List.filter (λ p : Z * stored, bool_decide (st_author p.2 = RoleRespondent) && (n <=? p.1)) (map_to_list tr)).
(** A close B accepts ends its mirror. *)
Definition acceptClose (r : debate) (tr : transcript) (m : close_mail) (b : body) (canon : option bytes) (now : Z) : tx X (list effect) :=
  let o := cl_outcome m in
  _ ← markLateTx (d_session r) (cl_listed m);
  _ ← setClosed (d_session r) o (cl_reason m) now;
  _ ← update_debate (d_session r) (dset_closeBody (Some b));
  let '(note, event, cancelledBy) := match o with
    | OutcomeAgreed => (bytes_of "debate agreed", Some EventAgreed, [])
    | OutcomeEscalated => (bytes_of "debate escalated", Some EventEscalated, [])
    | DecisionRecord.OutcomeCancelled =>
        (session_cancelled, None, if bool_decide (cl_reason m = ReasonTimeout) then bytes_of "timeout" else party_text RoleInitiator)
    end in
  effs ← closeMirrorTx r (session_outcome o) note event o tr (coverBelow (cl_entries m)) cancelledBy []
           (match canon with Some c => decision_ref r c | None => None end) (default [] canon) now;
  mret (Audit daemon (bytes_of "debate.close_in") (debate_ids (d_session r) (d_peer r)
          [(bytes_of "outcome", VString (debate_outcome_text o)); (bytes_of "reason", VString (debate_reason_text (cl_reason m)));
           (bytes_of "entries", num (cl_entries m))]) :: effs).

Definition applyCloseOnB (r : debate) (m : close_mail) (b : body) (now : Z) : tx X (list effect) :=
  tr ← loadTranscript (d_session r);
  if negb (closeMatches tr (cl_outcome m) (cl_reason m)) then refuseOnB r tr m b "outcome" now else
  if bool_decide (cl_outcome m = DecisionRecord.OutcomeCancelled) then acceptClose r tr m b None now else
  v ← judgeClose r tr m;
  match v with
  | Hold => _ ← close_debate_body (d_session r) b now; mret []
  | Refuse why => refuseOnB r tr m b why now
  | Agree canon sigA =>
      created ← signOnB r canon sigA now;
      effs ← acceptClose r tr m b (Some canon) now;
      mret (created :: late_entries r tr (cl_entries m) ++ effs)
  end.

(** retryHeldClose: the stored body was checked when it arrived. *)
Definition retryHeldClose (r : debate) (now : Z) : tx X (list effect) :=
  match d_closeBody r with
  | None => tx_err ErrMissing
  | Some b => m ← tx_lift (decode_close_mail b); applyCloseOnB r m b now
  end.
Definition retryIfHeld (sid : bytes) (now : Z) : tx X (list effect) :=
  cur ← getDebate sid;
  if negb (bool_decide (d_role cur = RoleRespondent) && is_open (d_phase cur) && bool_decide (d_closeBody cur ≠ None)) then mret []
  else retryHeldClose cur now.

(** ** debate.entry (apply.go) *)

Definition entry_in (r : debate) (slot : Z) (k : entry_kind) (canon : bytes) (e : Entry) : effect :=
  Audit daemon (bytes_of "debate.entry_in") (entryAudit (d_session r) (d_peer r) slot k canon e).

(** On A: an entry for a debate it still holds invited opens the session, if
    its request is still pending or deferred. *)
Definition open_invited (r : debate) (slot : Z) (k : entry_kind) (now : Z) : tx X (option (debate * list effect)) :=
  if negb (bool_decide (d_phase r = PhaseInvited)) then mret (Some (r, [])) else
  if negb ((slot =? 1) && bool_decide (k = KindPosition)) then mret None else
  q ← tx_get (find_request DirOut (d_peer r) (d_requestID r));
  match q with
  | None => mret None
  | Some q =>
      if negb (bool_decide (q_state q ∈ [Pending; Deferred])) then mret None else
      effs ← ws_OpenSession daemon Requester (d_peer r) (d_requestID r) (q_teamID q) now;
      r ← getDebate (d_session r);
      mret (Some (r, effs))
  end.

Definition applyEntryOnA (r : debate) (slot : Z) (k : entry_kind) (e : Entry) (canon at_ : bytes) (now : Z) : tx X dapplied :=
  opened ← open_invited r slot k now;
  match opened with
  | None => mret (ignore [] (d_session r) (d_peer r) MailEntry "state" false)
  | Some (r, effs) =>
      if negb (is_open (d_phase r)) then mret (ignore effs (d_session r) (d_peer r) MailEntry "closed" true) else
      tr ← loadTranscript (d_session r);
      match Next (metas [EntryApplied] tr) (d_roundsMax r) with
      | Done _ => mret (ignore effs (d_session r) (d_peer r) MailEntry "turn" true)
      | NextTurn _ s kind author _ =>
          if negb ((s =? slot) && bool_decide (author = RoleRespondent)) then mret (ignore effs (d_session r) (d_peer r) MailEntry "turn" true) else
          if negb (bool_decide (kind = k)) then tx_err ErrBadBody else
          _ ← tx_lift (as_bad_body (checkEntryTargets tr e RoleRespondent slot [EntryApplied]));
          _ ← insertEntry (d_session r) slot RoleRespondent k canon at_ EntryApplied;
          let tr := <[slot := MkStored RoleRespondent k at_ EntryApplied canon e]> tr in
          '(tr, revealed) ← (if slot =? 1 then revealTx r tr now else mret (tr, []));
          _ ← advanceTx r tr now;
          closing ← match e with
            | EAnswer a =>
                let '(o, reason) := if Accept a then (OutcomeAgreed, ReasonAccepted) else (OutcomeEscalated, ReasonRejected) in
                r ← getDebate (d_session r);
                closeTx r o reason daemon [] now
            | _ => mret []
            end;
          mret (applied_effs (effs ++ [entry_in r slot k canon e] ++ revealed ++ closing))
      end
  end.

(** drainTx: the held entries that follow. Each turn fills or empties a slot;
    [drain_fuel] is one more than the slots there are. *)
Definition drain_fuel : nat := 16.
Definition drain_reason (tr : transcript) (e : stored) (slot : Z) (k : entry_kind) (author : party) : option string :=
  if negb (bool_decide (author = RoleInitiator)) then Some "turn"%string
  else if negb (bool_decide (st_kind e = k)) then Some "kind"%string
  else match checkEntryTargets tr (st_entry e) RoleInitiator slot [EntryApplied; EntrySent] with Err _ => Some "targets"%string | Ok _ => None end.
Fixpoint drainTx (fuel : nat) (r : debate) (tr : transcript) : tx X (transcript * list effect) :=
  match fuel with
  | O => tx_err ErrMissing
  | S fuel =>
      match Next (metas [EntryApplied; EntrySent] tr) (d_roundsMax r) with
      | Done _ => mret (tr, [])
      | NextTurn _ s k author _ =>
          match tr !! s with
          | None => mret (tr, [])
          | Some e =>
              if negb (bool_decide (st_state e = EntryEarly)) then mret (tr, []) else
              match drain_reason tr e s k author with
              | Some why =>
                  _ ← drop_early (d_session r) s;
                  mret (base.delete s tr, [audit_debate_ignored (d_session r) (d_peer r) MailEntry why])
              | None =>
                  _ ← update_entry (d_session r) s (eset_state EntryApplied);
                  let e' := MkStored (st_author e) (st_kind e) (st_at e) EntryApplied (st_canon e) (st_entry e) in
                  '(tr', effs) ← drainTx fuel r (<[s := e']> tr);
                  mret (tr', entry_in r s (st_kind e) (st_canon e) (st_entry e) :: effs)
              end
          end
      end
  end.

(** What follows a new entry of A's on B: held entries, the turn, a held close. *)
Definition settle (r : debate) (tr : transcript) (now : Z) : tx X (list effect) :=
  '(tr, drained) ← drainTx drain_fuel r tr;
  _ ← advanceTx r tr now;
  closing ← retryIfHeld (d_session r) now;
  mret (drained ++ closing).

Definition applyEntryOnB (r : debate) (slot : Z) (k : entry_kind) (e : Entry) (canon at_ : bytes) (now : Z) : tx X dapplied :=
  let skip reason := mret (ignore [] (d_session r) (d_peer r) MailEntry reason false) in
  if bool_decide (d_phase r ∈ [PhaseBroken; PhaseClosed]) then skip "closed"%string else
  if negb (is_open (d_phase r)) then skip "state"%string else
  tr ← loadTranscript (d_session r);
  if bool_decide (is_Some (tr !! slot)) then skip "duplicate"%string else
  match Next (metas [EntryApplied; EntrySent] tr) (d_roundsMax r) with
  | Done _ => skip "turn"%string
  | NextTurn _ s kind author _ =>
      if slot =? s then
        if negb (bool_decide (author = RoleInitiator)) then skip "turn"%string else
        if negb (bool_decide (kind = k)) then tx_err ErrBadBody else
        _ ← tx_lift (as_bad_body (checkEntryTargets tr e RoleInitiator slot [EntryApplied; EntrySent]));
        _ ← insertEntry (d_session r) slot RoleInitiator k canon at_ EntryApplied;
        effs ← settle r (<[slot := MkStored RoleInitiator k at_ EntryApplied canon e]> tr) now;
        mret (applied_effs (entry_in r slot k canon e :: effs))
      else if (2 <=? slot) && (s <? slot) then
        _ ← insertEntry (d_session r) slot RoleInitiator k canon at_ EntryEarly; mret (applied_effs [])
      else skip "turn"%string
  end.

Definition applyEntry (op : opened_mail) (now : Z) : tx X dapplied :=
  m ← tx_lift (decode_entry_mail (op_body op));
  found ← bodyRow op (em_common m) None;
  match found with
  | None => mret (ignore [] (cb_session (em_common m)) (op_from op) MailEntry "unknown" false)
  | Some r =>
      '(e, canon) ← tx_lift (as_bad_body (DecodeEntry (em_kind m) (member (field_ "entry") (op_body op))));
      match d_role r with
      | RoleInitiator => applyEntryOnA r (em_slot m) (em_kind m) e canon (cb_at (em_common m)) now
      | RoleRespondent => applyEntryOnB r (em_slot m) (em_kind m) e canon (cb_at (em_common m)) now
      end
  end.

(** ** debate.reveal *)

(** The position and the commitment of a reveal, recomputed from the row and
    the sender alone. *)
Definition check_reveal (r : debate) (b : body) : option (bytes * Entry) :=
  match member (field_ "nonce") b, member (field_ "position") b with
  | Some (VString nonce), Some v =>
      match CanonicalValue v with
      | Ok canon =>
          if ValidNonce nonce then
            match ParseEntry KindPosition canon with
            | Ok pos => if bool_decide (DebateEntry.Commitment sha256 (d_session r) (keys r).1 nonce canon = d_commitment r) then Some (canon, pos) else None
            | Err _ => None
            end
          else None
      | Err _ => None
      end
  | _, _ => None
  end.

Definition reveal_skip (p : phase) : string :=
  match p with PhaseBroken | PhaseClosed => "closed" | PhaseRounds | PhaseConverge => "duplicate" | _ => "state" end%string.
Definition applyReveal (op : opened_mail) (now : Z) : tx X dapplied :=
  let b := op_body op in
  _ ← tx_lift (strictMembers b (members ["at"; "nonce"; "position"; "request"; "session"]%string));
  _ ← tx_lift (check (bool_decide (is_Some (member (field_ "nonce") b)) && bool_decide (is_Some (member (field_ "position") b))));
  c ← tx_lift (commonBody b);
  found ← bodyRow op c (Some RoleRespondent);
  match found with
  | None => mret (ignore [] (cb_session c) (op_from op) MailReveal "unknown" false)
  | Some r =>
      if negb (bool_decide (d_phase r = PhasePositions)) then mret (ignore [] (d_session r) (d_peer r) MailReveal (reveal_skip (d_phase r)) false) else
      tr ← loadTranscript (d_session r);
      if negb (tn_Slot (Next (metas [EntryApplied; EntrySent] tr) (d_roundsMax r)) =? 0) then mret (ignore [] (d_session r) (d_peer r) MailReveal "turn" false) else
      match check_reveal r b with
      | None => effs ← brokenTx r now; mret (DApplied true effs None)
      | Some (canon, pos) =>
          _ ← insertEntry (d_session r) 0 RoleInitiator KindPosition canon (cb_at c) EntryApplied;
          effs ← settle r (<[0 := MkStored RoleInitiator KindPosition (cb_at c) EntryApplied canon pos]> tr) now;
          mret (applied_effs (Audit daemon (bytes_of "debate.reveal_in") (debate_ids (d_session r) (d_peer r) [(bytes_of "ok", VBool true)]) :: effs))
      end
  end.

(** ** debate.close *)

Definition applyClose (op : opened_mail) (now : Z) : tx X dapplied :=
  m ← tx_lift (decode_close_mail (op_body op));
  found ← bodyRow op (cl_common m) (Some RoleRespondent);
  match found with
  | None => mret (applied_effs [audit_debate_ignored (cb_session (cl_common m)) (op_from op) MailClose "unknown"])
  | Some r =>
      if bool_decide (d_phase r ∈ [PhaseBroken; PhaseClosed]) then
        _ ← match d_closeBody r with Some _ => mret tt | None => close_debate_body (d_session r) (op_body op) now end;
        mret (applied_effs [audit_debate_ignored (d_session r) (d_peer r) MailClose "closed"])
      else if negb (is_open (d_phase r)) then mret (applied_effs [audit_debate_ignored (d_session r) (d_peer r) MailClose "state"])
      else effs ← applyCloseOnB r m (op_body op) now; mret (applied_effs effs)
  end.

(** ** debate.sign on A (decision.go) *)

Definition update_decision (sid : bytes) (f : decision_row → decision_row) : tx X unit := set_decisions (update_where (is_decision sid) f).
Definition parse_outcome_text (s : bytes) : option debate_outcome :=
  List.find (λ o, bool_decide (debate_outcome_text o = s)) [OutcomeAgreed; OutcomeEscalated; DecisionRecord.OutcomeCancelled].
Definition sign_verdict (r : debate) (n : decision_row) (m : sign_mail) : option bytes :=
  match sg_answer m with
  | Refused => Some refusedMismatch
  | Signed sig =>
      if negb (bool_decide (sg_claimed m = n_hash n)) then Some (bytes_of "hash")
      else if negb (VerifySignature (d_peer r) (n_decision n) sig) then Some (bytes_of "signature") else None
  end.
Definition applySign (op : opened_mail) (now : Z) : tx X dapplied :=
  m ← tx_lift (decode_sign_mail (op_body op));
  found ← bodyRow op (sg_common m) (Some RoleInitiator);
  match found with
  | None => mret (ignore [] (cb_session (sg_common m)) (op_from op) MailSign "unknown" false)
  | Some r =>
      dec ← tx_get (λ d, List.find (is_decision (d_session r)) (decisions (tables d)));
      match dec with
      | None => mret (ignore [] (d_session r) (d_peer r) MailSign "state" false)
      | Some n =>
          if negb (bool_decide (d_phase r = PhaseClosing) && bool_decide (n_state n = DecisionAwaitingPeer))
          then mret (ignore [] (d_session r) (d_peer r) MailSign "closed" false) else
          o ← tx_lift (decisionOutcome (n_decision n));
          match parse_outcome_text o, d_reason r with
          | Some o, Some reason =>
              _ ← setClosed (d_session r) o reason now;
              match sign_verdict r n m, sg_answer m with
              | None, Signed sig =>
                  _ ← update_decision (d_session r) (nset_signed sig (storeTime now));
                  row ← AppendTx daemon (bytes_of "decision.sign_in") [(bytes_of "id", VString (DecisionRecord.ID (d_session r)));
                     (bytes_of "session", VString (d_session r)); (bytes_of "peer", VString (d_peer r))];
                  mret (applied_effs [row])
              | why, _ =>
                  _ ← update_decision (d_session r) (nset_refused (sg_claimed m) (storeTime now));
                  row ← refuseAudit r (default [] why);
                  mret (applied_effs (row ++ [OnEvent EventRefused (d_session r) (d_peer r) (d_requestID r)]))
              end
          | _, _ => tx_err ErrUnique          (* the CHECKs of outcome and reason *)
          end
      end
  end.

(** ** Human constraints (constraint.go) *)

Record PendingConstraint := MkPending { pc_Session : bytes; pc_RequestID : bytes; pc_Peer : bytes; pc_Role : party; pc_ID : bytes; pc_Text : bytes }.
Definition in_state (sid : bytes) (st : option constraint_state) (k : constraint_row) : bool :=
  bool_decide (k_session k = sid) && match st with Some st => bool_decide (k_state k = st) | None => true end.
Definition countConstraints (sid : bytes) (st : option constraint_state) (d : db X) : nat :=
  length (List.filter (in_state sid st) (constraints (tables d))).
Definition checkConstrainable (r : debate) : tx X unit :=
  if negb (is_open (d_phase r)) then tx_err (bad_phase r) else
  n ← tx_get (countConstraints (d_session r) (Some ConstraintActive));
  if (MaxActiveConstraints <=? n)%nat then tx_err ErrConstraintLimit else mret tt.
Definition PrepareConstraint `{Unicode} (id t newID : bytes) : tx X PendingConstraint :=
  _ ← tx_lift (ValidateConstraintText t);
  r ← resolve id;
  _ ← checkConstrainable r;
  mret (MkPending (d_session r) (d_requestID r) (d_peer r) (d_role r) newID t).
Definition ConstraintPreconditionTx (pc : PendingConstraint) : tx X unit := r ← getDebate (pc_Session pc); checkConstrainable r.

Definition insertConstraint (k : constraint_row) : tx X unit :=
  taken ← tx_get (λ d, existsb (is_constraint (k_session k) (k_id k)) (constraints (tables d)));
  if (taken : bool) then tx_err ErrUnique else set_constraints (λ l, l ++ [k]).
Definition AddConstraintTx (pc : PendingConstraint) (approvalID : bytes) (now : Z) : tx X unit :=
  let at_ := wireTime now in
  _ ← insertConstraint (ConstraintRow (pc_Session pc) (pc_ID pc) (pc_Role pc) (pc_Text pc) at_ ConstraintActive (Some approvalID));
  _ ← SubmitTx (pc_Peer pc) MailConstraint [(bytes_of "at", VString at_); (bytes_of "id", VString (pc_ID pc)); (bytes_of "request", VString (pc_RequestID pc));
        (bytes_of "session", VString (pc_Session pc)); (bytes_of "text", VString (pc_Text pc))] now;
  mret tt.

(** outRequestOpen *)
Definition outRequestOpen (r : debate) (d : db X) : bool :=
  match find_request DirOut (d_peer r) (d_requestID r) d with Some q => bool_decide (q_state q ∈ [Pending; Deferred]) | None => false end.
Definition applyConstraint `{Unicode} (op : opened_mail) (now : Z) : tx X dapplied :=
  m ← tx_lift (decode_constraint_mail (op_body op));
  found ← bodyRow op (cm_common m) None;
  match found with
  | None => mret (ignore [] (cb_session (cm_common m)) (op_from op) MailConstraint "unknown" false)
  | Some r =>
      let sid := d_session r in
      let skip reason := mret (ignore [] sid (d_peer r) MailConstraint reason false) in
      if bool_decide (d_phase r ∈ [PhaseClosing; PhaseClosed; PhaseBroken]) then skip "closed"%string else
      reachable ← tx_get (λ d, is_open (d_phase r) || (bool_decide (d_role r = RoleInitiator) && outRequestOpen r d));
      if negb (reachable : bool) then skip "state"%string else
      dup ← tx_get (λ d, existsb (is_constraint sid (cm_id m)) (constraints (tables d)));
      if (dup : bool) then skip "duplicate"%string else
      total ← tx_get (countConstraints sid None);
      if (maxStoredConstraints <=? total)%nat then skip "limit"%string else
      active ← tx_get (countConstraints sid (Some ConstraintActive));
      let st := if bool_decide (d_role r = RoleInitiator) && (MaxActiveConstraints <=? active)%nat then ConstraintExcess else ConstraintActive in
      _ ← insertConstraint (ConstraintRow sid (cm_id m) (other (d_role r)) (cm_text m) (cb_at (cm_common m)) st None);
      if bool_decide (st = ConstraintExcess) then skip "limit"%string else
      closing ← (if bool_decide (d_role r = RoleRespondent) && bool_decide (d_closeBody r ≠ None) then retryHeldClose r now else mret []);
      mret (applied_effs ([Audit daemon (bytes_of "debate.constraint_in") (debate_ids sid (d_peer r) [(bytes_of "id", VString (cm_id m))]);
                           OnEvent EventConstraint sid (d_peer r) (d_requestID r)] ++ closing))
  end.

(** ** After a received mail *)

(** echo: A's last_state again, 10 minutes after the last time, in its own
    transaction; whatever fails leaves the tables as they are. *)
Definition echoTx (sid : bytes) (now : Z) : tx X bool :=
  r ← getDebate sid;
  match d_lastState r with
  | Some (kind, b) =>
      if negb (bool_decide (d_role r = RoleInitiator)) ||
         match d_lastStateSent r with Some s => Sub now (parseStoreTime s) <? echoInterval | None => false end then mret false else
      _ ← SubmitTx (d_peer r) kind b now;
      _ ← update_debate sid (dset_lastStateSent (Some (storeTime now)));
      mret true
  | None => mret false
  end.
Definition echo (sid : bytes) (now : Z) (d : db X) : db X * list effect :=
  match commit (echoTx sid now) d with
  | (Ok true, d') => (d', [Wake])
  | (_, d') => (d', [])
  end.
Definition receive_debate (apply : opened_mail → Z → tx X dapplied) (op : opened_mail) (now : Z) (d : db X) : checked bool * db X * list effect :=
  match commit (apply op now) d with
  | (Err e, d') => (Err e, d', [])
  | (Ok o, d') =>
      let '(d'', effs) := match da_echo o with Some sid => echo sid now d' | None => (d', []) end in
      (Ok (da_withhold o), d'', Wake :: da_effs o ++ effs)
  end.

(** ** Timeouts (sweep.go)

    [ready] is TimeoutsReady's answer. *)
Definition SweepTx (id : bytes) (ready : bool) (now : Z) : tx X (option (list effect)) :=
  r ← resolve id;
  if negb (bool_decide (d_role r = RoleInitiator) && is_open (d_phase r)) ||
     match d_turnDeadline r with Some s => now <? parseWireTime s | None => true end || negb ready then mret None else
  tr ← loadTranscript (d_session r);
  let o := match Next (metas [EntryApplied] tr) (d_roundsMax r) with
           | NextTurn _ s _ _ _ => if s =? 1 then DecisionRecord.OutcomeCancelled else OutcomeEscalated
           | Done _ => OutcomeEscalated
           end in
  effs ← closeTx r o ReasonTimeout daemon (bytes_of "timeout") now;
  mret (Some effs).
Definition SweepOne (id : bytes) (ready : bool) (now : Z) (d : db X) : checked bool * db X * list effect :=
  match commit (SweepTx id ready now) d with
  | (Err e, d') => (Err e, d', [])
  | (Ok None, d') => (Ok false, d', [])
  | (Ok (Some effs), d') => (Ok true, d', Wake :: effs)
  end.
(** Sweep: a debate that fails is skipped. *)
Fixpoint sweep_ids (ids : list bytes) (ready : bool) (now : Z) (d : db X) : nat * db X * list effect :=
  match ids with
  | [] => (0%nat, d, [])
  | id :: ids =>
      let '(closed, d1, e1) := SweepOne id ready now d in
      let '(n, d2, e2) := sweep_ids ids ready now d1 in
      (match closed with Ok true => S n | _ => n end, d2, e1 ++ e2)
  end.
Definition Sweep (ready : bool) (now : Z) (d : db X) : nat * db X * list effect :=
  sweep_ids (map d_session (List.filter (λ r, bool_decide (d_role r = RoleInitiator) && is_open (d_phase r) && bool_decide (d_turnDeadline r ≠ None))
                                        (debates (tables d)))) ready now d.

(** ** Submit (submit.go) *)

Definition SubmitTx_ (id from : bytes) (k : entry_kind) (entry : value) (now : Z) : tx X (bytes * bytes * list effect) :=
  r ← resolve id;
  '(r, accepted) ← (if bool_decide (d_phase r = PhaseInvited) then
      if negb (bool_decide (d_role r = RoleRespondent) && bool_decide (k = KindPosition)) then tx_err (bad_phase r) else
      '(_, effs) ← AcceptInTx (d_requestID r) (match from with [] => d_peer r | _ => from end) TypeDebate now;
      r' ← getDebate (d_session r);
      mret (r', effs)
    else mret (r, []));
  if negb (is_open (d_phase r)) then tx_err (bad_phase r) else
  tr ← loadTranscript (d_session r);
  let states := turnStates (d_role r) in
  match Next (metas states tr) (d_roundsMax r) with
  | Done _ => tx_err (bad_phase r)
  | NextTurn ph s kind author _ =>
      if negb (bool_decide (author = d_role r)) || (s =? 0) then tx_err (NotYourTurn s (kind_text kind) (party_text author)) else
      if negb (bool_decide (k = kind)) then
        tx_err (if bool_decide (k = KindMove) && bool_decide (ph = PhaseConverge) then bad_phase r else NotYourTurn s (kind_text kind) (party_text author))
      else
      '(e, canon) ← tx_lift (fieldPrefix "entry" (DecodeEntry k (Some entry)));
      _ ← tx_lift (fieldPrefix "entry" (checkEntryTargets tr e (d_role r) s states));
      dropped ← match tr !! s with
        | Some held => if bool_decide (st_state held = EntryEarly) then
                         _ ← drop_early (d_session r) s; mret [audit_debate_ignored (d_session r) (d_peer r) MailEntry "turn"]
                       else mret []
        | None => mret []
        end;
      let at_ := wireTime now in
      let st := match d_role r with RoleInitiator => EntryApplied | RoleRespondent => EntrySent end in
      _ ← insertEntry (d_session r) s (d_role r) k canon at_ st;
      ev ← tx_lift (entryValue canon);
      mid ← sendLastState r MailEntry [(bytes_of "at", VString at_); (bytes_of "entry", ev); (bytes_of "kind", VString (kind_text k));
              (bytes_of "request", VString (d_requestID r)); (bytes_of "session", VString (d_session r)); (bytes_of "slot", num s)] now;
      _ ← advanceTx r (<[s := MkStored (d_role r) k at_ st canon e]> tr) now;
      mret (d_session r, mid, accepted ++ dropped ++ [Audit cli (bytes_of "debate.entry") (entryAudit (d_session r) (d_peer r) s k canon e)])
  end.
(** A kind that is none of the four, and a missing entry, are refused before. *)
Definition Submit (id from kind : bytes) (entry : option value) (ready : bool) (now : Z) (d : db X) : checked (bytes * bytes) * db X * list effect :=
  match ValidKind kind, entry with
  | None, _ => (Err (FieldError (field "kind")), d, [])
  | Some _, None => (Err (FieldError (field "entry")), d, [])
  | Some k, Some v =>
      match SweepOne id ready now d with
      | (Err ErrUnknownDebate, d1, e1) | (Ok _, d1, e1) =>
          match commit (SubmitTx_ id from k v now) d1 with
          | (Err e, d2) => (Err e, d2, e1)
          | (Ok (sid, mid, effs), d2) => (Ok (sid, mid), d2, e1 ++ Wake :: effs)
          end
      | (Err e, d1, e1) => (Err e, d1, e1)
      end
  end.

(** ** Start (start.go)

    [newNonce] is the nonce drawn for the request that is sent. *)
Record StartParams := MkStart { sp_Submit : SubmitParams (X := X); sp_Position : option value; sp_Rounds : option Z; sp_TurnTimeoutS : option Z }.
Definition start_rounds (p : StartParams) : Z := default 2 (sp_Rounds p).
Definition start_timeout (p : StartParams) : Z := default 3600 (sp_TurnTimeoutS p).
Definition start_sid (req : Request) : bytes := DeriveID (From req) (To req) (RequestObject.ID req).
Definition start_prepare (p : StartParams) (canon : bytes) (newNonce : bytes → bytes) (req : Request) : checked Request :=
  Ok (MkRequest (V req) (RequestObject.ID req) (From req) (To req) (Team req) (Type_ req) (Title req) (Brief req) (Urgency req) (UrgencyDeclared req)
    (UrgencyReason req) (ReqArtifacts req) (RequestObject.Grant req) (Deadline req) (Created req) (RequestObject.Context req) (Run req)
    (Some (MkDebate (DebateEntry.Commitment sha256 (start_sid req) (From req) (newNonce (RequestObject.ID req)) canon) (start_rounds p) (start_timeout p)))).
Definition start_in_tx (p : StartParams) (canon : bytes) (newNonce : bytes → bytes) (req : Request) (now : Z) : tx X unit :=
  _ ← checkQuarantine (To req);
  _ ← insertDebate (new_debate (start_sid req) RoleInitiator (To req) (RequestObject.ID req) (start_rounds p) (start_timeout p)
        (match Debate req with Some m => RequestObject.Commitment m | None => [] end) (Some (newNonce (RequestObject.ID req))) now);
  insertEntry (start_sid req) 0 RoleInitiator KindPosition canon (wireTime now) EntryCommitted.
Definition with_hooks (p : SubmitParams (X := X)) (prepare : Request → checked Request) (in_tx : Request → Z → tx X unit) : SubmitParams :=
  MkParams (pFrom p) (pTo p) (pTeam p) (pType p) (pTitle p) (pBrief p) (pUrgency p) (pUrgencyReason p) (pArtifacts p) (pGrant p) (pContext p) (pRun p)
    (pDeadline p) (IdempotencyKey p) (ParamsHash p) (Some prepare) (Some in_tx).
Definition Start (p : StartParams) (newID : nat → bytes) (newNonce : bytes → bytes) (now : Z) (d : db X)
    : checked (SubmitOutcome * bytes) * db X * list effect :=
  if negb (bool_decide (pType (sp_Submit p) = TypeDebate)) then (Err (FieldError (field "type")), d, []) else
  if negb (in_range 1 5 (start_rounds p)) then (Err (FieldError (field "debate.rounds")), d, []) else
  if negb (in_range 300 86400 (start_timeout p)) then (Err (FieldError (field "debate.turn_timeout_s")), d, []) else
  match sp_Position p with
  | None => (Err (FieldError (field "debate.position")), d, [])
  | Some v =>
      match fieldPrefix "debate.position" (DecodeEntry KindPosition (Some v)) with
      | Err e => (Err e, d, [])
      | Ok (_, canon) =>
          match RequestMail.Submit (with_hooks (sp_Submit p) (start_prepare p canon newNonce) (start_in_tx p canon newNonce)) newID now d with
          | (Err e, d', effs) => (Err e, d', effs)
          | (Ok o, d', effs) =>
              let req := so_request o in
              (Ok (o, start_sid req), d',
               effs ++ if so_duplicate o then [] else
                 [Audit cli (bytes_of "debate.start") [(bytes_of "session", VString (start_sid req)); (bytes_of "request", VString (RequestObject.ID req));
                    (bytes_of "peer", VString (To req)); (bytes_of "rounds", num (start_rounds p)); (bytes_of "turn_timeout_s", num (start_timeout p));
                    (bytes_of "position_bytes", num (Z.of_nat (length canon)))]])
          end
      end
  end.
End DebateMail.
