(* ===== verification/DebateSteps.v ===== *)
(** * The life cycle of a debate, as a step relation

    The abstract specification of internal/debate: what may happen, one write
    at a time, to the debate tables and the outbox of one daemon. A step
    names the write and the conditions under which the protocol allows it;
    DebateRefine.v shows that the store only takes these steps,
    DebateInvariant.v what holds in every state they reach. *)

From S2P Require Import Prelude Utf8 Canonical Strconv WireTime Body RequestObject Tables.
From S2P Require Import Experience Requests WorkSession TxLemmas DebateEntry DebateTurns Signing DecisionRecord DebateTables.
From S2P Require Import Debate DebateMail.
From stdpp Require Import gmap.

Open Scope Z_scope.

Definition dstate : Type := debate_tables * list mail.
Definition debate_kinds : list bytes := [MailEntry; MailReveal; MailClose; MailSign; MailConstraint].

(** ** What a state says about one debate *)

Definition rows_in (sid : bytes) (t : debate_tables) : list entry_row := List.filter (λ e, bool_decide (e_session e = sid)) (entries t).
Definition transcript_in (t : debate_tables) (sid : bytes) (tr : transcript) : Prop := parse_rows (rows_in sid t) ∅ = Ok tr.
(** The turn, as the side of [r] counts it. *)
Definition turn_of (r : debate) (tr : transcript) : Turn := Next (metas (turnStates (d_role r)) tr) (d_roundsMax r).
Definition peer_position (t : debate_tables) (sid : bytes) : Prop :=
  ∃ e, e ∈ entries t ∧ e_session e = sid ∧ e_slot e = 1 ∧ e_state e = EntryApplied ∧ e_author e = RoleRespondent ∧ e_kind e = KindPosition.
Definition active_constraints (sid : bytes) (t : debate_tables) : nat := length (List.filter (in_state sid (Some ConstraintActive)) (constraints t)).
Definition listed_in (sid : bytes) (listed : list bytes) (t : debate_tables) : list Constraint :=
  omap (λ id, option_map (λ k, MkConstraint (k_id k) (k_author k) (k_at k) (k_text k))
                (List.find (is_constraint sid id) (constraints t))) listed.

Lemma map_key_inj {A K} (key : A → K) l x y : NoDup (map key l) → x ∈ l → y ∈ l → key x = key y → x = y.
Proof.
  intros Hd Hx Hy E. induction l as [|z l IH]; [by apply elem_of_nil in Hx|]. cbn in Hd. apply NoDup_cons in Hd as [Hn Hd].
  assert (∀ w, w ∈ l → key w ≠ key z) as Hno by (intros w Hw Ew; apply Hn; rewrite <- Ew; apply elem_of_map_list; by exists w).
  apply elem_of_cons in Hx as [->|Hx], Hy as [->|Hy]; [done|by apply Hno in Hy|by apply Hno in Hx|by apply IH].
Qed.
(** An UPDATE of the row with a key. *)
Lemma update_key {A K} (key : A → K) (p : A → bool) f l x : NoDup (map key l) → x ∈ l → (∀ y, p y = true ↔ key y = key x) → key (f x) = key x →
  map key (update_where p f l) = map key l ∧ ∀ y, y ∈ update_where p f l ↔ y = f x ∨ (y ∈ l ∧ key y ≠ key x).
Proof.
  intros Hd Hx Hp Hf. assert (∀ y, y ∈ l → p y = true → y = x) as Hone.
  { intros y Hy Ey%Hp. by apply (map_key_inj key l). }
  split.
  - unfold update_where. rewrite map_map. apply map_ext_in. intros y Hy%list_elem_of_In. destruct (p y) eqn:E; [|done]. by rewrite (Hone y Hy E).
  - intros y. unfold update_where. rewrite elem_of_map_list. split.
    + intros (z & -> & Hz). destruct (p z) eqn:E; [left; by rewrite (Hone z Hz E)|]. right. split; [done|]. intros Ek. apply Hp in Ek. congruence.
    + intros [->|[Hy Hne]].
      * exists x. rewrite (proj2 (Hp x)) by done. done.
      * exists y. destruct (p y) eqn:E; [by apply Hp in E|done].
Qed.

(** ** Rows of debates *)

(** The columns no UPDATE touches. *)
Definition same_debate (r r' : debate) : Prop :=
  d_session r' = d_session r ∧ d_role r' = d_role r ∧ d_peer r' = d_peer r ∧ d_requestID r' = d_requestID r ∧
  d_roundsMax r' = d_roundsMax r ∧ d_turnTimeoutS r' = d_turnTimeoutS r ∧ d_commitment r' = d_commitment r ∧
  d_nonce r' = d_nonce r ∧ d_created r' = d_created r.

(** What the engine's answer gives a row: its phase, and the deadline, which
    after the last entry only B has, for its answer. *)
Definition turn_phase (t : Turn) : phase := match t with NextTurn ph _ _ _ _ => ph | Done _ => PhaseConverge end.
Definition turn_due (r : debate) (tr : transcript) (t : Turn) (now : Z) : option bytes :=
  match t with
  | NextTurn _ _ _ _ _ => Some (wireTime (now + d_turnTimeoutS r * second))
  | Done _ => match d_role r with RoleRespondent => option_map wireTime (answerDue tr (d_turnTimeoutS r)) | RoleInitiator => None end
  end.
(** What A counts when it closes: its applied entries, and the active constraints. *)
Definition applied_count (sid : bytes) (t : debate_tables) : Z :=
  Z.of_nat (length (List.filter (λ e, bool_decide (e_state e = EntryApplied)) (rows_in sid t))).
Definition active_ids (sid : bytes) (t : debate_tables) : list bytes :=
  sort_by text_lt (map k_id (List.filter (λ k, bool_decide (k_session k = sid) && bool_decide (k_state k = ConstraintActive)) (constraints t))).
(** B may give up: it does not owe an answer that is still due, or holds a close. *)
Definition abandonable (r : debate) (tr : transcript) (now : Z) : bool :=
  negb match answerDue tr (d_turnTimeoutS r) with Some due => bool_decide (d_closeBody r = None) && (now <? due) | None => false end.

(** The columns of the turn and of the end. *)
Record columns (p : phase) (slot : Z) (due : option bytes) (o : option debate_outcome) (reason : option debate_reason) (r : debate) : Prop := {
  co_phase : d_phase r = p; co_slot : d_nextSlot r = slot; co_due : d_turnDeadline r = due; co_outcome : d_outcome r = o; co_reason : d_reason r = reason;
}.
(** How they change. The turn is the engine's for the stored entries; a debate
    ends once, on A through closing unless it is cancelled. *)
Inductive col_step (t : debate_tables) (r : debate) : debate → Prop :=
| col_same r' : columns (d_phase r) (d_nextSlot r) (d_turnDeadline r) (d_outcome r) (d_reason r) r' → col_step t r r'
| col_opened now r' : d_phase r = PhaseInvited →
    columns PhasePositions 1 (Some (wireTime (now + d_turnTimeoutS r * second))) (d_outcome r) (d_reason r) r' → col_step t r r'
| col_turn tr now r' : is_open (d_phase r) = true → transcript_in t (d_session r) tr →
    columns (turn_phase (turn_of r tr)) (tn_Slot (turn_of r tr)) (turn_due r tr (turn_of r tr) now) (d_outcome r) (d_reason r) r' → col_step t r r'
| col_ended r' : d_phase r = PhaseInvited → columns PhaseClosed (d_nextSlot r) None (Some OutcomeCancelled) (Some ReasonCancelled) r' → col_step t r r'
| col_cancelled reason r' : d_role r = RoleInitiator → is_open (d_phase r) = true → reason ∈ [ReasonCancelled; ReasonTimeout] →
    columns PhaseClosed (d_nextSlot r) None (Some OutcomeCancelled) (Some reason) r' → col_step t r r'
| col_closing reason r' : d_role r = RoleInitiator → is_open (d_phase r) = true →
    columns PhaseClosing (d_nextSlot r) None (d_outcome r) (Some reason) r' → col_step t r r'
| col_answered n text o reason r' : d_role r = RoleInitiator → d_phase r = PhaseClosing → n ∈ decisions t → n_session n = d_session r →
    decisionOutcome (n_decision n) = Ok text → parse_outcome_text text = Some o → d_reason r = Some reason →
    columns PhaseClosed (d_nextSlot r) None (Some o) (Some reason) r' → col_step t r r'
| col_accepted tr b m r' : d_role r = RoleRespondent → is_open (d_phase r) = true → decode_close_mail b = Ok m →
    transcript_in t (d_session r) tr → closeMatches tr (cl_outcome m) (cl_reason m) = true →
    (cl_outcome m ≠ OutcomeCancelled → ∃ n, n ∈ decisions t ∧ n_session n = d_session r ∧ n_state n = DecisionSigned) →
    columns PhaseClosed (d_nextSlot r) None (Some (cl_outcome m)) (Some (cl_reason m)) r' → col_step t r r'
| col_abandoned tr now r' : d_role r = RoleRespondent → is_open (d_phase r) = true → transcript_in t (d_session r) tr → abandonable r tr now = true →
    columns PhaseClosed (d_nextSlot r) None (Some OutcomeCancelled) (Some ReasonAbandoned) r' → col_step t r r'
| col_broken r' : d_role r = RoleRespondent → is_open (d_phase r) = true →
    columns PhaseBroken (d_nextSlot r) None (d_outcome r) (d_reason r) r' → col_step t r r'.

Section Steps.
Context {X : Type} `{Env X} `{HasDebates X} `{Crypto} `{DebateEnv X}.

(** The nonce and position that open the commitment of [r]. *)
Definition opens (r : debate) (nonce canon : bytes) : Prop :=
  DebateEntry.Commitment sha256 (d_session r) (keys r).1 nonce canon = d_commitment r.

(** ** What may be sent

    The bodies of the five kinds, each tied to what is stored. *)
Inductive sends (t : debate_tables) (r : debate) : bytes → body → Prop :=
| sends_entry e v : e ∈ entries t → e_session e = d_session r → e_author e = d_role r → e_slot e ≠ 0 → e_state e ∈ [EntryApplied; EntrySent] →
    entryValue (e_canon e) = Ok v →
    sends t r MailEntry [(bytes_of "at", VString (e_at e)); (bytes_of "entry", v); (bytes_of "kind", VString (kind_text (e_kind e)));
      (bytes_of "request", VString (d_requestID r)); (bytes_of "session", VString (d_session r)); (bytes_of "slot", num (e_slot e))]
| sends_reveal e nonce v : d_role r = RoleInitiator → peer_position t (d_session r) → e ∈ entries t → e_session e = d_session r → e_slot e = 0 →
    e_state e = EntryApplied → d_nonce r = Some nonce → entryValue (e_canon e) = Ok v →
    sends t r MailReveal (reveal_body r (e_at e) nonce v)
| sends_cancelled at_ ids n reason : d_role r = RoleInitiator →
    sends t r MailClose (close_body r at_ ids n OutcomeCancelled reason None)
| sends_close at_ ids n o reason d sig : d_role r = RoleInitiator → d ∈ decisions t → n_session d = d_session r →
    sign (n_decision d) = Ok sig → o ≠ OutcomeCancelled →
    sends t r MailClose (close_body r at_ ids n o reason (Some (n_hash d, sig)))
| sends_sign at_ d sig : d_role r = RoleRespondent → d ∈ decisions t → n_session d = d_session r → n_state d = DecisionSigned →
    sign (n_decision d) = Ok sig →
    sends t r MailSign [(bytes_of "at", VString at_); (bytes_of "decision", VString (n_hash d));
      (bytes_of "request", VString (d_requestID r)); (bytes_of "session", VString (d_session r)); (bytes_of "sig", VString sig)]
| sends_refusal at_ own : d_role r = RoleRespondent →
    sends t r MailSign [(bytes_of "at", VString at_); (bytes_of "decision", VString own);
      (bytes_of "refused", VString refusedMismatch); (bytes_of "request", VString (d_requestID r)); (bytes_of "session", VString (d_session r))]
| sends_constraint k : k ∈ constraints t → k_session k = d_session r →
    sends t r MailConstraint [(bytes_of "at", VString (k_at k)); (bytes_of "id", VString (k_id k)); (bytes_of "request", VString (d_requestID r));
      (bytes_of "session", VString (d_session r)); (bytes_of "text", VString (k_text k))].

(** A close counts what is stored when it is sent: all applied entries, all
    active constraints, the row's reason; its Decision is what the stored
    transcript derives. *)
Inductive close_now (t : debate_tables) (r : debate) : body → Prop :=
| close_cancelled at_ reason : d_phase r = PhaseClosed → d_outcome r = Some OutcomeCancelled → d_reason r = Some reason →
    close_now t r (close_body r at_ (active_ids (d_session r) t) (applied_count (d_session r) t) OutcomeCancelled reason None)
| close_decided tr req at_ o reason d sig : d_phase r = PhaseClosing → d_reason r = Some reason → o ≠ OutcomeCancelled →
    d ∈ decisions t → n_session d = d_session r → sign (n_decision d) = Ok sig → transcript_in t (d_session r) tr →
    Derive (derive_input r tr (applied_count (d_session r) t) (listed_in (d_session r) (active_ids (d_session r) t) t) o reason at_ req) = Ok (n_decision d) →
    close_now t r (close_body r at_ (active_ids (d_session r) t) (applied_count (d_session r) t) o reason (Some (n_hash d, sig))).
(** A mail of the moment, or A's last state again. *)
Definition may_send (t : debate_tables) (r : debate) (kind : bytes) (b : body) : Prop :=
  sends t r kind b ∧ ((kind = MailClose → close_now t r b) ∨ d_lastState r = Some (kind, b)).

(** A row's change: the columns of the turn and of the end, the close B
    received, and the state A may send again. *)
Record row_step (t : debate_tables) (r r' : debate) : Prop := {
  rs_same : same_debate r r';
  rs_columns : col_step t r r';
  rs_close : d_closeBody r' = d_closeBody r ∨
             d_role r = RoleRespondent ∧ ∃ b m, d_closeBody r' = Some b ∧ decode_close_mail b = Ok m;
  rs_last : d_lastState r' = d_lastState r ∨
            ∃ kind b, d_role r = RoleInitiator ∧ d_lastState r' = Some (kind, b) ∧ sends t r kind b ∧ (kind = MailClose → close_now t r b);
}.

Definition new_row (r : debate) : Prop :=
  d_session r = DeriveID (keys r).1 (keys r).2 (d_requestID r) ∧ d_phase r = PhaseInvited ∧ d_outcome r = None ∧ d_reason r = None ∧ d_lastState r = None ∧ d_closeBody r = None ∧
  1 ≤ d_roundsMax r ≤ 5 ∧ (d_role r = RoleInitiator ↔ is_Some (d_nonce r)) ∧ valid_utf8 (keys r).1 = true ∧ valid_utf8 (keys r).2 = true.

(** ** Entries *)

(** A new entry of the debate [r], with the transcript before it. *)
Inductive entry_new (t : debate_tables) (r : debate) (e : entry_row) : Prop :=
| new_commitment nonce : d_role r = RoleInitiator → d_phase r = PhaseInvited → e_slot e = 0 → e_author e = RoleInitiator → e_kind e = KindPosition →
    e_state e = EntryCommitted → d_nonce r = Some nonce → opens r nonce (e_canon e) → entry_new t r e
| new_revealed tr nonce : d_role r = RoleRespondent → d_phase r = PhasePositions → e_slot e = 0 → e_author e = RoleInitiator → e_kind e = KindPosition →
    e_state e = EntryApplied → transcript_in t (d_session r) tr → tn_Slot (turn_of r tr) = 0 →
    ValidNonce nonce = true → opens r nonce (e_canon e) → entry_new t r e
| new_turn tr x ph rd : is_open (d_phase r) = true → e_slot e ≠ 0 → transcript_in t (d_session r) tr →
    turn_of r tr = NextTurn ph (e_slot e) (e_kind e) (e_author e) rd → ParseEntry (e_kind e) (e_canon e) = Ok x →
    checkEntryTargets tr x (e_author e) (e_slot e) (turnStates (d_role r)) = Ok tt →
    e_state e = (if bool_decide (d_role r = RoleRespondent ∧ e_author e = RoleRespondent) then EntrySent else EntryApplied) → entry_new t r e
| new_early : d_role r = RoleRespondent → is_open (d_phase r) = true → 2 ≤ e_slot e → e_author e = RoleInitiator → e_state e = EntryEarly → entry_new t r e.

(** The two changes of a stored entry: A's reveal, and on B a held entry
    whose turn has come. *)
Inductive entry_step (t : debate_tables) (r : debate) (e : entry_row) : entry_row → Prop :=
| entry_reveal at_ : d_role r = RoleInitiator → e_state e = EntryCommitted → e_slot e = 0 → peer_position t (d_session r) →
    entry_step t r e (eset_at at_ (eset_state EntryApplied e))
| entry_drain tr x ph rd : d_role r = RoleRespondent → is_open (d_phase r) = true → e_state e = EntryEarly → e_author e = RoleInitiator →
    transcript_in t (d_session r) tr → turn_of r tr = NextTurn ph (e_slot e) (e_kind e) (e_author e) rd →
    ParseEntry (e_kind e) (e_canon e) = Ok x → checkEntryTargets tr x (e_author e) (e_slot e) (turnStates (d_role r)) = Ok tt →
    entry_step t r e (eset_state EntryApplied e).

(** ** Decisions *)

(** What every stored request has: the times of a valid request object. *)
Definition body_ok (b : bytes) : Prop := ∀ req, parseObject b = Ok req → is_Some (decodeTime (member (bytes_of "created") req)).
Definition request_ok (q : request) : Prop := body_ok (q_body q) ∧ is_Some (decodeTime (Some (VString (q_created q)))).

(** [canon] is what this side derives from its own transcript and constraints. *)
Definition own_derivation (t : debate_tables) (r : debate) (tr : transcript) (o : debate_outcome) (reason : debate_reason) (canon : bytes) : Prop :=
  transcript_in t (d_session r) tr ∧
  ∃ n listed at_ req, body_ok req ∧ is_Some (decodeTime (Some (VString at_))) ∧
    Derive (derive_input r tr n (listed_in (d_session r) listed t) o reason at_ req) = Ok canon.

Inductive decision_new (t : debate_tables) (r : debate) (n : decision_row) : Prop :=
| new_decided tr o reason sig : d_role r = RoleInitiator → d_phase r = PhaseClosing → own_derivation t r tr o reason (n_decision n) →
    sign (n_decision n) = Ok sig → n_sigI n = opt_text sig → n_sigR n = None → n_state n = DecisionAwaitingPeer → decision_new t r n
| new_agreed tr o reason sigA sigB : d_role r = RoleRespondent → is_open (d_phase r) = true → own_derivation t r tr o reason (n_decision n) →
    closeMatches tr o reason = true → o ≠ OutcomeCancelled → VerifySignature (d_peer r) (n_decision n) sigA = true → sigA ≠ [] →
    sign (n_decision n) = Ok sigB → n_sigI n = Some sigA → n_sigR n = opt_text sigB → n_state n = DecisionSigned → decision_new t r n
| new_disputed tr o reason : d_role r = RoleRespondent → is_open (d_phase r) = true → own_derivation t r tr o reason (n_decision n) →
    n_sigI n = None → n_sigR n = None → n_state n = DecisionPeerRefused → decision_new t r n.

(** The peer's answer on A. *)
Inductive decision_step (r : debate) (n : decision_row) : decision_row → Prop :=
| decision_signed sig now : d_role r = RoleInitiator → n_state n = DecisionAwaitingPeer → VerifySignature (d_peer r) (n_decision n) sig = true → sig ≠ [] →
    decision_step r n (nset_signed sig now n)
| decision_refused hash now : d_role r = RoleInitiator → n_state n = DecisionAwaitingPeer → decision_step r n (nset_refused hash now n).

(** ** The steps *)

(** The outbox changes the state of a mail it keeps. *)
Definition same_mail (m0 m : mail) : Prop := m_to m0 = m_to m ∧ m_kind m0 = m_kind m ∧ m_body m0 = m_body m.

Notation T := DebateTables.
Inductive dstep : dstate → dstate → Prop :=
| step_new t o r : d_session r ∉ map d_session (debates t) → new_row r →
    dstep (t, o) (T (debates t ++ [r]) (entries t) (constraints t) (decisions t), o)
| step_row t o r f : r ∈ debates t → row_step t r (f r) →
    dstep (t, o) (T (update_where (is_debate (d_session r)) f (debates t)) (entries t) (constraints t) (decisions t), o)
| step_entry t o r e x : r ∈ debates t → e_session e = d_session r → (e_session e, e_slot e) ∉ map (λ e, (e_session e, e_slot e)) (entries t) →
    0 ≤ e_slot e ≤ MaxSlot → ParseEntry (e_kind e) (e_canon e) = Ok x → entry_new t r e →
    dstep (t, o) (T (debates t) (entries t ++ [e]) (constraints t) (decisions t), o)
| step_entry_row t o r e f : r ∈ debates t → e ∈ entries t → e_session e = d_session r → entry_step t r e (f e) →
    dstep (t, o) (T (debates t) (update_where (is_entry (e_session e) (e_slot e)) f (entries t)) (constraints t) (decisions t), o)
| step_drop t o sid slot :
    dstep (t, o) (T (debates t) (List.filter (λ e, negb (is_entry sid slot e && bool_decide (e_state e = EntryEarly))) (entries t)) (constraints t) (decisions t), o)
| step_constraint t o r k : r ∈ debates t → k_session k = d_session r → existsb (is_constraint (k_session k) (k_id k)) (constraints t) = false →
    d_phase r ∉ [PhaseClosing; PhaseClosed; PhaseBroken] → hex_id 0x63 (k_id k) = true →
    valid_utf8 (k_text k) = true → is_Some (decodeTime (Some (VString (k_at k)))) →
    (d_role r = RoleInitiator → k_state k = ConstraintActive → (active_constraints (d_session r) t < MaxActiveConstraints)%nat) →
    dstep (t, o) (T (debates t) (entries t) (constraints t ++ [k]) (decisions t), o)
| step_late t o r (listed : list bytes) : r ∈ debates t → d_role r = RoleRespondent → is_open (d_phase r) = true →
    dstep (t, o) (T (debates t) (entries t) (update_where (λ k, bool_decide (k_session k = d_session r) && bool_decide (k_state k = ConstraintActive) &&
      negb (bool_decide (k_id k ∈ listed))) (kset_state ConstraintLate) (constraints t)) (decisions t), o)
| step_decision t o r n : r ∈ debates t → n_session n = d_session r → n_session n ∉ map n_session (decisions t) → n_id n = DecisionRecord.ID (d_session r) →
    n_role n = d_role r → n_peer n = d_peer r → n_hash n = Hash (n_decision n) → decision_new t r n →
    dstep (t, o) (T (debates t) (entries t) (constraints t) (decisions t ++ [n]), o)
| step_answer t o r n f : r ∈ debates t → n ∈ decisions t → n_session n = d_session r → decision_step r n (f n) →
    dstep (t, o) (T (debates t) (entries t) (constraints t) (update_where (is_decision (d_session r)) f (decisions t)), o)
| step_send t o r m : r ∈ debates t → m_to m = d_peer r → may_send t r (m_kind m) (m_body m) → dstep (t, o) (t, o ++ [m])
| step_other t o o' : (∀ m, m ∈ o' → m_kind m ∈ debate_kinds → ∃ m0, m0 ∈ o ∧ same_mail m0 m) → dstep (t, o) (t, o').

(** ** Stored rows last

    An applied or sent entry, the bytes of a Decision and the text of a
    constraint are never changed or removed. *)

Record lasts (t t' : debate_tables) : Prop := {
  ls_entries : ∀ e, e ∈ entries t → e_state e ∈ [EntryApplied; EntrySent] → e ∈ entries t';
  ls_decisions : ∀ n, n ∈ decisions t → ∃ n', n' ∈ decisions t' ∧ n_session n' = n_session n ∧ n_decision n' = n_decision n ∧ n_hash n' = n_hash n ∧
    (n_state n = DecisionSigned → n' = n);
  ls_constraints : ∀ k, k ∈ constraints t → ∃ k', k' ∈ constraints t' ∧ k_session k' = k_session k ∧ k_id k' = k_id k ∧ k_at k' = k_at k ∧
    k_text k' = k_text k ∧ k_author k' = k_author k;
}.
#[export] Instance lasts_preorder : PreOrder lasts.
Proof.
  split.
  - intros t. constructor; eauto 10.
  - intros a b c [E1 N1 K1] [E2 N2 K2]. constructor; [eauto|..].
    + intros n (n1 & Hn1 & S1 & D1 & E1' & F1)%N1. destruct (N2 _ Hn1) as (n2 & Hn2 & S2 & D2 & E2' & F2).
      exists n2. split_and!; [done|congruence..|]. intros Es. specialize (F1 Es). subst n1. auto.
    + intros k (k1 & Hk1 & ? & ? & ? & ? & ?)%K1. destruct (K2 _ Hk1) as (k2 & ? & ? & ? & ? & ? & ?).
      exists k2. split_and!; congruence.
Qed.

Lemma sends_lasts t t' r r' kind b : lasts t t' → same_debate r r' → sends t r kind b → sends t' r' kind b.
Proof.
  intros [LE LN LK] (Es & Er & Ep & Eq & _ & _ & _ & En & _) Hs.
  destruct Hs as [e v He Hse Ha Hne Hst Hv|e nonce v Hr (e1 & Hp) He Hse Hsl Hst Hn Hv|at_ ids n reason Hr|at_ ids n o reason d sig Hr Hd Hsd Hsg Ho
                 |at_ d sig Hr Hd Hsd Hst Hsg|at_ own Hr|k Hk Hks].
  - rewrite <- Es, <- Eq. apply sends_entry; try done; [by apply LE|congruence..].
  - assert (reveal_body r (e_at e) nonce v = reveal_body r' (e_at e) nonce v) as -> by (unfold reveal_body; by rewrite Es, Eq).
    apply sends_reveal; try done; [congruence| |apply LE; [done|rewrite Hst; set_solver]|congruence..].
    rewrite Es. exists e1. destruct Hp as (Hin & ? & ? & Ha & ? & ?). split_and!; try done. apply LE; [done|]. rewrite Ha. set_solver.
  - assert (close_body r at_ ids n OutcomeCancelled reason None = close_body r' at_ ids n OutcomeCancelled reason None) as -> by (unfold close_body; by rewrite Es, Eq).
    apply sends_cancelled. congruence.
  - destruct (LN d Hd) as (d' & Hd' & S' & D' & Eh & _). rewrite <- Eh.
    assert (close_body r at_ ids n o reason (Some (n_hash d', sig)) = close_body r' at_ ids n o reason (Some (n_hash d', sig))) as -> by (unfold close_body; by rewrite Es, Eq).
    apply sends_close; try done; congruence.
  - destruct (LN d Hd) as (d' & Hd' & _ & _ & _ & F). specialize (F Hst). subst d'. rewrite <- Es, <- Eq. apply sends_sign; try done; congruence.
  - rewrite <- Es, <- Eq. apply sends_refusal. congruence.
  - destruct (LK k Hk) as (k' & Hk' & S' & <- & <- & <- & _). rewrite <- Es, <- Eq. apply sends_constraint; [done|congruence].
Qed.

(** ** Keys and the state that is sent again *)

Record dwf (s : dstate) : Prop := {
  wf_debates : NoDup (map d_session (debates s.1));
  wf_entries : NoDup (map (λ e, (e_session e, e_slot e)) (entries s.1));
  wf_decisions : NoDup (map n_session (decisions s.1));
  wf_last : ∀ r kind b, r ∈ debates s.1 → d_lastState r = Some (kind, b) → d_role r = RoleInitiator ∧ sends s.1 r kind b;
  wf_early : ∀ e, e ∈ entries s.1 → e_state e = EntryEarly → e_author e = RoleInitiator;
}.

Lemma is_debate_key r : ∀ y, is_debate (d_session r) y = true ↔ d_session y = d_session r.
Proof. intros y. unfold is_debate. apply bool_decide_eq_true. Qed.
Lemma is_entry_key e : ∀ y, is_entry (e_session e) (e_slot e) y = true ↔ (e_session y, e_slot y) = (e_session e, e_slot e).
Proof. intros y. unfold is_entry. rewrite andb_true_iff, bool_decide_eq_true, Z.eqb_eq. split; [by intros [-> ->]|by intros [= -> ->]]. Qed.
Lemma is_decision_key sid : ∀ y, is_decision sid y = true ↔ n_session y = sid.
Proof. intros y. unfold is_decision. apply bool_decide_eq_true. Qed.

Lemma entry_step_fields t r e e' : entry_step t r e e' →
  e_session e' = e_session e ∧ e_slot e' = e_slot e ∧ e_author e' = e_author e ∧ e_kind e' = e_kind e ∧ e_canon e' = e_canon e ∧
  e_state e' = EntryApplied ∧ e_state e ∉ [EntryApplied; EntrySent].
Proof.
  intros Hs. assert (e_state e ≠ EntryApplied ∧ e_state e ≠ EntrySent) as [N1 N2] by (by destruct Hs as [? ? E| ? ? ? ? ? ? E]; rewrite E).
  destruct Hs; cbn; split_and!; try done; rewrite !elem_of_cons, elem_of_nil; tauto.
Qed.
Lemma decision_step_fields r n n' : decision_step r n n' → n_session n' = n_session n ∧ n_id n' = n_id n ∧ n_role n' = n_role n ∧ n_peer n' = n_peer n ∧
  n_decision n' = n_decision n ∧ n_hash n' = n_hash n ∧ n_sigI n' = n_sigI n ∧ n_state n = DecisionAwaitingPeer.
Proof. by intros []. Qed.

Lemma dstep_lasts s s' : dwf s → dstep s s' → lasts s.1 s'.1.
Proof.
  intros [Wd We Wn _ _] Hs. destruct Hs as [| |t o r e x|t o r e f Hr He Ese Hst|t o sid slot| | | |t o r n f Hr Hn Esn Hst|t o r m Hr Hto Hsend|]; cbn [fst] in *;
    try (constructor; cbn [entries decisions constraints]; eauto 10; fail); try done.
  - constructor; cbn [entries decisions constraints]; eauto 10. intros. apply elem_of_app. by left.
  - pose proof (entry_step_fields _ _ _ _ Hst) as (E1 & E2 & _ & _ & _ & _ & E3).
    destruct (update_key _ _ f _ e We He (is_entry_key e)) as [_ Hin]; [congruence|].
    constructor; cbn [entries decisions constraints]; eauto 10. intros y Hy Hys. apply Hin. right. split; [done|]. intros Ek.
    assert (y = e) as ->; [|done]. by apply (map_key_inj (λ e, (e_session e, e_slot e)) (entries t)).
  - constructor; cbn [entries decisions constraints]; eauto 10. intros e He Hst. apply list_elem_of_In, filter_In. split; [by apply list_elem_of_In|].
    rewrite bool_decide_eq_false_2, andb_false_r; [done|]. intros E. rewrite E in Hst. set_solver.
  - constructor; cbn [entries decisions constraints]; eauto 10. intros. exists k0. split_and!; try done. apply elem_of_app. by left.
  - constructor; cbn [entries decisions constraints]; eauto 10. intros k Hk.
    eexists. split; [apply elem_of_map_list; by exists k|]. by destruct (_ && _).
  - constructor; cbn [entries decisions constraints]; eauto 10. intros. exists n0. split_and!; try done. apply elem_of_app. by left.
  - pose proof (decision_step_fields _ _ _ Hst) as (E1 & _ & _ & _ & E2 & E3 & _ & E4).
    destruct (update_key _ (is_decision (d_session r)) f _ n Wn Hn) as [_ Hin]; [intros y; rewrite is_decision_key; by rewrite Esn|done|].
    constructor; cbn [entries decisions constraints]; eauto 10. intros y Hy. destruct (decide (n_session y = n_session n)) as [Ey|Hne].
    + assert (y = n) as -> by (by apply (map_key_inj n_session (decisions t))). exists (f n). split_and!; try done; [apply Hin; by left|congruence].
    + exists y. split_and!; try done. apply Hin. by right.
Qed.

Lemma same_debate_refl r : same_debate r r.
Proof. done. Qed.
Lemma NoDup_snoc {A} (l : list A) x : NoDup l → x ∉ l → NoDup (l ++ [x]).
Proof. intros Hl Hx. apply NoDup_app. split_and!; [done| |apply NoDup_singleton]. intros y Hy Ey%list_elem_of_singleton. by subst. Qed.
Lemma NoDup_map_filter {A K} (key : A → K) (p : A → bool) l : NoDup (map key l) → NoDup (map key (List.filter p l)).
Proof.
  intros Hd. apply (sublist_NoDup _ (map key l)); [done|]. clear Hd. induction l as [|x l IH]; [constructor|]. cbn.
  destruct (p x); cbn; [by apply sublist_skip|by apply sublist_cons].
Qed.
(** What may be sent again stays so when the debates are the same. *)
Lemma wf_last_lasts t t' : lasts t t' → debates t' = debates t →
  (∀ r kind b, r ∈ debates t → d_lastState r = Some (kind, b) → d_role r = RoleInitiator ∧ sends t r kind b) →
  ∀ r kind b, r ∈ debates t' → d_lastState r = Some (kind, b) → d_role r = RoleInitiator ∧ sends t' r kind b.
Proof. intros Hl -> Hw r kind b Hr E. destruct (Hw r kind b Hr E) as [? Hs]. split; [done|]. by apply (sends_lasts t t' r). Qed.

Lemma dstep_wf s s' : dwf s → dstep s s' → dwf s'.
Proof.
  intros Hwf Hs. pose proof (dstep_lasts _ _ Hwf Hs) as Hl. destruct Hwf as [Wd We Wn Wl Wy].
  destruct Hs as [t o r Hnew Hr|t o r f Hr Hst|t o r e x Hr Hse Hfr Hrg Hx Hn|t o r e f Hr He Ese Hst|t o sid slot| | |t o r n Hr Esn Hfr|t o r n f Hr Hn Esn Hst|t o r m Hr Hto Hsend|];
    cbn [fst] in *; try (constructor; cbn [fst debates entries decisions]; try done; exact (wf_last_lasts t _ Hl eq_refl Wl)); try done.
  - constructor; cbn [fst debates entries decisions]; try done.
    + rewrite map_app. by apply NoDup_snoc.
    + intros y kind b [Hy|Hy%list_elem_of_singleton]%elem_of_app E; [|subst y; destruct Hr as (_ & _ & _ & _ & E' & _); congruence].
      destruct (Wl y kind b Hy E) as [? Hsd]. split; [done|]. by apply (sends_lasts t _ y).
  - destruct Hst as [Hsame _ _ Hlast]. pose proof Hsame as (Es & Erl & _).
    destruct (update_key _ _ f _ r Wd Hr (is_debate_key r) Es) as [Hk Hin].
    constructor; cbn [fst debates entries decisions]; try done; [by rewrite Hk|].
    intros y kind b [->|[Hy _]]%Hin E.
    + destruct Hlast as [El|(k' & b' & ? & El & Hsd & _)].
      * rewrite El in E. destruct (Wl r kind b Hr E) as [? Hsd]. split; [congruence|]. by apply (sends_lasts t _ r).
      * assert (k' = kind ∧ b' = b) as [-> ->] by (split; congruence). split; [congruence|]. by apply (sends_lasts t _ r).
    + destruct (Wl y kind b Hy E) as [? Hsd]. split; [done|]. by apply (sends_lasts t _ y).
  - constructor; cbn [fst debates entries decisions]; try done; [|exact (wf_last_lasts t _ Hl eq_refl Wl)|].
    + rewrite map_app. by apply NoDup_snoc.
    + intros y [Hy|Hy%list_elem_of_singleton]%elem_of_app; [by apply Wy|]. subst y. destruct Hn as [| |tr x' ph rd _ _ _ _ _ _ Est|]; try congruence.
      rewrite Est. by destruct (bool_decide _).
  - pose proof (entry_step_fields _ _ _ _ Hst) as (E1 & E2 & _).
    destruct (update_key _ _ f _ e We He (is_entry_key e)) as [Hk Hin]; [congruence|].
    constructor; cbn [fst debates entries decisions]; try done; [by rewrite Hk|exact (wf_last_lasts t _ Hl eq_refl Wl)|].
    intros y [->|[Hy _]]%Hin; [|by apply Wy]. pose proof (entry_step_fields _ _ _ _ Hst) as (_ & _ & _ & _ & _ & -> & _). done.
  - constructor; cbn [fst debates entries decisions]; try done; [|exact (wf_last_lasts t _ Hl eq_refl Wl)|].
    + by apply NoDup_map_filter.
    + intros y [Hy _]%list_elem_of_In%filter_In. apply Wy. by apply list_elem_of_In.
  - constructor; cbn [fst debates entries decisions]; try done; [|exact (wf_last_lasts t _ Hl eq_refl Wl)].
    rewrite map_app. by apply NoDup_snoc.
  - pose proof (decision_step_fields _ _ _ Hst) as (E1 & _).
    destruct (update_key _ (is_decision (d_session r)) f _ n Wn Hn) as [Hk _]; [intros y; rewrite is_decision_key; by rewrite Esn|done|].
    constructor; cbn [fst debates entries decisions]; try done; [by rewrite Hk|exact (wf_last_lasts t _ Hl eq_refl Wl)].
Qed.
Lemma dsteps_wf s s' : dwf s → rtc dstep s s' → dwf s' ∧ lasts s.1 s'.1.
Proof.
  intros Hw Hs. revert Hw. induction Hs as [s|s s1 s' Hone _ IH]; [done|]. intros Hw. destruct (IH (dstep_wf _ _ Hw Hone)) as [? Hl].
  split; [done|]. etransitivity; [by apply dstep_lasts|done].
Qed.

Lemma dstep_debate s s' r : dwf s → dstep s s' → r ∈ debates s.1 → ∃ r', r' ∈ debates s'.1 ∧ same_debate r r'.
Proof.
  intros Hwf Hs Hr. destruct Hs as [t o r1 Hnew Hr1|t o r1 f Hr1 Hst| | | | | | | | |]; cbn [fst debates] in *; try (by exists r).
  - exists r. split; [|done]. apply elem_of_app. by left.
  - destruct (update_key _ _ f _ r1 (wf_debates _ Hwf) Hr1 (is_debate_key r1) (proj1 (rs_same _ _ _ Hst))) as [_ Hin].
    destruct (decide (d_session r = d_session r1)) as [E|Hne].
    + assert (r = r1) as -> by (by apply (map_key_inj d_session (debates t)); [apply (wf_debates _ Hwf)|..]).
      exists (f r1). split; [apply Hin; by left|apply Hst].
    + exists r. split; [|done]. apply Hin. by right.
Qed.
Lemma dsteps_debate s s' r : dwf s → rtc dstep s s' → r ∈ debates s.1 → ∃ r', r' ∈ debates s'.1 ∧ same_debate r r'.
Proof.
  intros Hw Hs. revert r Hw. induction Hs as [s|s s1 s' Hone _ IH]; intros r Hw Hr; [by exists r|].
  destruct (dstep_debate _ _ _ Hw Hone Hr) as (r1 & Hr1 & S1). destruct (IH r1 (dstep_wf _ _ Hw Hone) Hr1) as (r2 & Hr2 & S2).
  exists r2. split; [done|]. unfold same_debate in *. split_and!; etransitivity; (apply S2 || apply S1).
Qed.
End Steps.
