(* ===== verification/DebateSpec.v ===== *)
(** * Reasoning about the debate store's transactions

    [dspec m d Q]: from tables [d] the transaction [m] moves the debate
    tables and the outbox by steps only, and [Q] holds after it. The calls of
    the other stores are [foreign]: they keep the debate tables and send no
    debate mail. *)

From S2P Require Import Prelude Utf8 Canonical Strconv DisplayText WireTime Body RequestObject.
From S2P Require Import Tables Experience Requests RequestMail WorkSession SessionMail TxLemmas DebateEntry.
From S2P Require Import DebateTurns Signing DecisionRecord DecisionProofs DebateTables Debate DebateMail DebateSteps.
From stdpp Require Import gmap.

Open Scope Z_scope.

Notation requests_ok d := (Forall request_ok (requests d)).
(** The grants of a session are other tables of [X]. *)
Class RevokeLaws {X : Type} `{Env X} `{HasDebates X} : Prop :=
  revoke_keeps : ∀ f x sid now x', RevokeGrants = Some f → f x sid now = Ok x' → get_debates x' = get_debates x.

Section Foreign.
Context {X : Type} `{Env X} `{HasDebates X} `{!HasDebatesLaws X} `{!RevokeLaws (X:=X)}.

Definition dcore (d : db X) : dstate := (tables d, outbox d).

(** ** Transactions of the other stores *)

Definition foreign {A} (m : tx X A) : Prop := ∀ d a d', m d = Ok (a, d') →
  tables d' = tables d ∧ (requests_ok d → requests_ok d') ∧ ∃ l, outbox d' = outbox d ++ l ∧ Forall (λ x, m_kind x ∉ debate_kinds) l.
(** What a call that writes neither the tables, the requests nor the outbox keeps. *)
Definition outer (d : db X) : debate_tables * list request * list mail := (tables d, requests d, outbox d).

Lemma foreign_keeps {A} (m : tx X A) : keeps outer m → foreign m.
Proof. intros Hm d a d' E. apply Hm in E. injection E as -> -> ->. split_and!; [done..|]. exists []. by rewrite app_nil_r. Qed.
Lemma foreign_bind {A B} (m : tx X A) (k : A → tx X B) : foreign m → (∀ a, foreign (k a)) → foreign (m ≫= k).
Proof.
  intros Hm Hk d b d' (a & d1 & Em & Ek)%tx_bind_ok. apply Hm in Em as (T1 & R1 & l1 & O1 & F1). apply Hk in Ek as (T2 & R2 & l2 & O2 & F2).
  split_and!; [congruence|tauto|]. exists (l1 ++ l2). split; [by rewrite O2, O1, <- app_assoc|by apply Forall_app].
Qed.
Lemma foreign_ret {A} (a : A) : foreign (mret a : tx X A).
Proof. apply foreign_keeps. auto with keeps. Qed.
Lemma foreign_get {A} (g : db X → A) : foreign (tx_get g).
Proof. apply foreign_keeps. auto with keeps. Qed.
Lemma foreign_lift {A} (r : checked A) : foreign (tx_lift r : tx X A).
Proof. apply foreign_keeps. auto with keeps. Qed.
Lemma foreign_found {A} e (g : db X → option A) : foreign (tx_found e g).
Proof. apply foreign_keeps. auto with keeps. Qed.
Lemma foreign_err {A} e : foreign (tx_err e : tx X A).
Proof. by intros d a d'. Qed.
Lemma foreign_if {A} (c : bool) (m m' : tx X A) : foreign m → foreign m' → foreign (if c then m else m').
Proof. by destruct c. Qed.
Lemma foreign_try {A} (m : tx X A) : foreign m → foreign (tx_try m).
Proof. intros Hm d b d' Ht%tx_try_ok. destruct b; [by apply Hm in Ht|]. destruct Ht as [_ ->]. split_and!; [done..|]. exists []. by rewrite app_nil_r. Qed.
(** An UPDATE of a request leaves its body and its creation time. *)
Lemma foreign_update_request dir peer id f : (∀ q, q_body (f q) = q_body q ∧ q_created (f q) = q_created q) → foreign (update_request (X:=X) dir peer id f).
Proof.
  intros Hf d a d' [= _ <-]. split_and!; [done| |exists []; by rewrite app_nil_r]. cbn [requests]. intros Hr. apply Forall_forall.
  intros q (q0 & -> & Hq)%elem_of_map_list. rewrite Forall_forall in Hr. specialize (Hr q0 Hq). destruct (is_request dir peer id q0); [|done].
  unfold request_ok. by destruct (Hf q0) as [-> ->].
Qed.
Lemma foreign_sessions g : foreign (set_sessions g).
Proof. apply foreign_keeps. by apply keeps_sessions. Qed.
Lemma foreign_experiences g : foreign (set_experiences g).
Proof. apply foreign_keeps. by apply keeps_experiences. Qed.
Lemma foreign_append actor action b : foreign (AppendTx (X:=X) actor action b).
Proof. apply foreign_keeps. auto with keeps. Qed.
Lemma foreign_append_soft actor action b : foreign (AppendTxSoft (X:=X) actor action b).
Proof. apply foreign_keeps. auto with keeps. Qed.
Lemma foreign_submit to kind b now : kind ∉ debate_kinds → foreign (SubmitTx to kind b now).
Proof.
  intros Hk d a d' (d0 & d1 & E1 & Hx)%tx_bind_ok. apply tx_get_ok in E1 as [<- <-].
  apply tx_bind_ok in Hx as (id & d2 & E2 & Hx). apply tx_lift_ok in E2 as [_ <-].
  apply tx_bind_ok in Hx as (u & d3 & E3 & Hx). apply tx_ret_ok in Hx as [_ <-]. injection E3 as _ <-.
  split_and!; [done..|]. eexists. split; [done|]. by constructor.
Qed.
End Foreign.

Create HintDb foreign.
#[export] Hint Resolve foreign_ret foreign_get foreign_lift foreign_found foreign_err foreign_sessions foreign_experiences foreign_append foreign_append_soft : foreign.
#[export] Hint Extern 2 (foreign (SubmitTx _ _ _ _)) => apply foreign_submit; vm_compute; set_solver : foreign.
#[export] Hint Extern 2 (foreign (update_request _ _ _ _)) => apply foreign_update_request; intros ?; split; reflexivity : foreign.
Ltac foreign_tac :=
  repeat first
    [ progress (auto with foreign; fail)
    | apply foreign_bind; [|intros ?]
    | apply foreign_if
    | apply foreign_try
    | match goal with
      | |- foreign (match ?x with _ => _ end) => destruct x
      | |- foreign (let '_ := ?x in _) => destruct x
      end ].

Section ForeignCalls.
Context {X : Type} `{Env X} `{HasDebates X} `{!HasDebatesLaws X} `{!RevokeLaws (X:=X)}.

Lemma foreign_revoke sid now : foreign (revokeGrants (X:=X) sid now).
Proof.
  unfold revokeGrants. destruct RevokeGrants as [rv|] eqn:E; [|auto with foreign].
  intros d a d' (x & d1 & E1 & Hx)%tx_bind_ok. apply tx_get_ok in E1 as [<- <-].
  apply tx_bind_ok in Hx as (x' & d2 & E2 & Hx). apply tx_lift_ok in E2 as [E2 <-]. injection Hx as _ <-.
  split_and!; [|done|exists []; by rewrite app_nil_r]. unfold tables. cbn [ext]. by apply (revoke_keeps rv _ sid now).
Qed.
Hint Resolve foreign_revoke : foreign.
Lemma foreign_CloseDebate sid o now : foreign (CloseDebateTx (X:=X) sid o now).
Proof. unfold CloseDebateTx, scanByID, update_session. foreign_tac. Qed.
Lemma foreign_CompleteIn peer id note res now : foreign (CompleteInTx (X:=X) peer id note res now).
Proof. unfold CompleteInTx, getRow. foreign_tac. Qed.
Hint Resolve foreign_CloseDebate foreign_CompleteIn : foreign.
Lemma foreign_WriteTx i now : foreign (WriteTx (X:=X) i now).
Proof. unfold WriteTx. foreign_tac. Qed.
Hint Resolve foreign_WriteTx : foreign.
Lemma foreign_debate_experience `{Crypto} r tr c o cb ca dec canon now : foreign (writeDebateExperience (X:=X) r tr c o cb ca dec canon now).
Proof. unfold writeDebateExperience, request_row. foreign_tac. Qed.
Lemma foreign_complete_request r note now : foreign (complete_request (X:=X) r note now).
Proof. unfold complete_request. foreign_tac. Qed.
Hint Resolve foreign_debate_experience foreign_complete_request : foreign.
Lemma foreign_closeMirror `{Crypto} r wo note ev o tr c cb ca dec canon now : foreign (closeMirrorTx (X:=X) r wo note ev o tr c cb ca dec canon now).
Proof. unfold closeMirrorTx. foreign_tac. Qed.
End ForeignCalls.
#[export] Hint Resolve foreign_revoke foreign_CloseDebate foreign_CompleteIn foreign_WriteTx foreign_debate_experience foreign_complete_request foreign_closeMirror : foreign.

Section Spec.
Context {X : Type} `{Env X} `{HasDebates X} `{!HasDebatesLaws X} `{!RevokeLaws (X:=X)} `{Crypto} `{DebateEnv X}.

Definition dspec {A} (m : tx X A) (d : db X) (Q : A → db X → Prop) : Prop :=
  dwf (dcore d) → requests_ok d → ∀ a d', m d = Ok (a, d') → rtc dstep (dcore d) (dcore d') ∧ requests_ok d' ∧ Q a d'.
Notation drefines m d := (dspec m d (λ _ _, True)).

Lemma dspec_bind {A B} (m : tx X A) (k : A → tx X B) d Q : dspec m d (λ a d1, dspec (k a) d1 Q) → dspec (m ≫= k) d Q.
Proof.
  intros Hm Hw Hq b d' (a & d1 & E1 & E2)%tx_bind_ok. destruct (Hm Hw Hq _ _ E1) as (S1 & Q1 & Hk).
  destruct (Hk (proj1 (dsteps_wf _ _ Hw S1)) Q1 _ _ E2) as (S2 & Q2 & HQ). split_and!; [by etransitivity|done..].
Qed.
Lemma dspec_mono {A} (m : tx X A) d (Q Q' : A → db X → Prop) : dspec m d Q → (∀ a d', Q a d' → Q' a d') → dspec m d Q'.
Proof. intros Hm HQ Hw Hq a d' E. destruct (Hm Hw Hq _ _ E) as (? & ? & ?). split_and!; [done..|by apply HQ]. Qed.
Lemma dspec_wf {A} (m : tx X A) d Q : (dwf (dcore d) → dspec m d Q) → dspec m d Q.
Proof. intros Hm Hw. by apply Hm. Qed.
Lemma dspec_requests {A} (m : tx X A) d Q : (requests_ok d → dspec m d Q) → dspec m d Q.
Proof. intros Hm Hw Hq. by apply Hm. Qed.
(** After a call, the steps it took and the keys they kept. *)
Lemma dspec_steps {A} (m : tx X A) d (Q Q' : A → db X → Prop) : dspec m d Q →
  (∀ a d', dwf (dcore d) → dwf (dcore d') → rtc dstep (dcore d) (dcore d') → Q a d' → Q' a d') → dspec m d Q'.
Proof. intros Hm HQ Hw Hq a d' E. destruct (Hm Hw Hq _ _ E) as (Hs & ? & Ha). split_and!; [done..|]. apply HQ; try done. by destruct (dsteps_wf _ _ Hw Hs). Qed.
Lemma dspec_ret {A} (a : A) d (Q : A → db X → Prop) : Q a d → dspec (mret a) d Q.
Proof. intros HQ _ Hq b d' [<- <-]%tx_ret_ok. done. Qed.
Lemma dspec_err {A} e d (Q : A → db X → Prop) : dspec (tx_err e) d Q.
Proof. by intros _ _ b d'. Qed.
Lemma dspec_if {A} (c : bool) (m m' : tx X A) d Q : (c = true → dspec m d Q) → (c = false → dspec m' d Q) → dspec (if c then m else m') d Q.
Proof. destruct c; auto. Qed.
Lemma dspec_get {A B} (f : db X → A) (k : A → tx X B) d Q : dspec (k (f d)) d Q → dspec (tx_get f ≫= k) d Q.
Proof. intros Hk. apply dspec_bind. intros _ Hq a d' [<- <-]%tx_get_ok. done. Qed.
Lemma dspec_found {A B} e (f : db X → option A) (k : A → tx X B) d Q : (∀ a, f d = Some a → dspec (k a) d Q) → dspec (tx_found e f ≫= k) d Q.
Proof. intros Hk. apply dspec_bind. intros _ Hq a d' [E <-]%tx_found_ok. split_and!; [done..|auto]. Qed.
Lemma dspec_lift {A B} (r : checked A) (k : A → tx X B) d Q : (∀ a, r = Ok a → dspec (k a) d Q) → dspec (tx_lift r ≫= k) d Q.
Proof. intros Hk. apply dspec_bind. intros _ Hq a d' [E <-]%tx_lift_ok. split_and!; [done..|auto]. Qed.
(** A call that only reads, as a value or an error. *)
Lemma dspec_try {A} (m : tx X A) (d : db X) (Q : checked A → db X → Prop) :
  (∀ a d', m d = Ok (a, d') → d' = d) → (∀ a, (∃ d', m d = Ok (a, d')) → Q (Ok a) d) → (∀ e, m d = Err e → Q (Err e) d) → dspec (tx_try m) d Q.
Proof.
  intros Hm Ha He _ Hq b d' Ht%tx_try_ok. destruct b as [a|e].
  - pose proof (Hm _ _ Ht) as ->. split_and!; [done..|]. apply Ha. by exists d.
  - destruct Ht as [Ht <-]. split_and!; [done..|auto].
Qed.

Lemma dspec_foreign {A} (m : tx X A) d (Q : A → db X → Prop) : foreign m → (∀ a d', tables d' = tables d → Q a d') → dspec m d Q.
Proof.
  intros Hm HQ _ Hq a d' E. apply Hm in E as (ET & ER & l & EO & Hf). split_and!; [|by apply ER|by apply HQ].
  unfold dcore. rewrite ET, EO. apply rtc_once, step_other. intros x [Hx|Hx]%elem_of_app Hk; [by exists x|].
  rewrite Forall_forall in Hf. by destruct (Hf x Hx).
Qed.
Lemma dspec_then_foreign {A B} (m : tx X A) (k : A → tx X B) d Q : foreign m → (∀ a d1, tables d1 = tables d → dspec (k a) d1 Q) → dspec (m ≫= k) d Q.
Proof. intros Hm Hk. apply dspec_bind. by apply dspec_foreign. Qed.
Lemma drefines_foreign {A} (m : tx X A) d : foreign m → drefines m d.
Proof. intros Hm. by apply dspec_foreign. Qed.

(** ** The writes *)

Lemma set_tables_ok f (d : db X) u d' : set_tables f d = Ok (u, d') → tables d' = f (tables d) ∧ outbox d' = outbox d ∧ requests d' = requests d.
Proof. intros (d0 & d1 & E & Hx)%tx_bind_ok. apply tx_get_ok in E as [<- <-]. injection Hx as _ <-. split_and!; [|done..]. unfold tables at 1. cbn [ext]. by rewrite get_put. Qed.
(** One UPDATE or INSERT that is a step. *)
Lemma dspec_tables f (d : db X) (Q : unit → db X → Prop) : (dwf (dcore d) → dstep (dcore d) (f (tables d), outbox d)) →
  (∀ d', tables d' = f (tables d) → Q tt d') → dspec (set_tables f) d Q.
Proof.
  intros Hs HQ Hw Hq u d' (ET & EO & ER)%set_tables_ok. destruct u. split_and!; [|by rewrite ER|by apply HQ]. unfold dcore at 2. rewrite ET, EO. by apply rtc_once, Hs.
Qed.

Notation DT := DebateTables.
Lemma dspec_update r f (d : db X) (Q : unit → db X → Prop) : r ∈ debates (tables d) → row_step (tables d) r (f r) →
  (∀ d', tables d' = DT (update_where (is_debate (d_session r)) f (debates (tables d))) (entries (tables d)) (constraints (tables d)) (decisions (tables d)) →
    f r ∈ debates (tables d') → Q tt d') → dspec (update_debate (d_session r) f) d Q.
Proof.
  intros Hr Hs HQ. apply dspec_tables; [intros _; by constructor|]. intros d' E. apply HQ; [done|]. rewrite E. cbn.
  unfold update_where. apply elem_of_map_list. exists r. split; [|done]. by rewrite (proj2 (is_debate_key r r)).
Qed.
Lemma dspec_send r kind b now (d : db X) (Q : bytes → db X → Prop) : r ∈ debates (tables d) → may_send (tables d) r kind b →
  (∀ mid d', tables d' = tables d → Q mid d') → dspec (SubmitTx (d_peer r) kind b now) d Q.
Proof.
  intros Hr Hs HQ _ Hq mid d' (d0 & d1 & E1 & Hx)%tx_bind_ok. apply tx_get_ok in E1 as [<- <-].
  apply tx_bind_ok in Hx as (id & d2 & E2 & Hx). apply tx_lift_ok in E2 as [_ <-].
  apply tx_bind_ok in Hx as (u & d3 & E3 & Hx). apply tx_ret_ok in Hx as [<- <-]. injection E3 as _ <-.
  split_and!; [|done|by apply HQ]. unfold dcore. cbn [outbox]. apply rtc_once. by apply (step_send _ _ r).
Qed.

(** ** Reading a debate *)

Lemma find_debate_in sid (d : db X) r : find_debate sid d = Some r → r ∈ debates (tables d) ∧ d_session r = sid.
Proof. intros [Hin Hp]%List.find_some. split; [by apply list_elem_of_In|]. unfold is_debate in Hp. by apply bool_decide_eq_true in Hp. Qed.
Lemma dspec_getDebate {B} sid (k : debate → tx X B) d Q : (∀ r, r ∈ debates (tables d) → d_session r = sid → dspec (k r) d Q) →
  dspec (getDebate sid ≫= k) d Q.
Proof. intros Hk. apply dspec_found. intros r [Hr Es]%find_debate_in. auto. Qed.
Lemma dspec_transcript {B} sid (k : transcript → tx X B) d Q : (∀ tr, transcript_in (tables d) sid tr → dspec (k tr) d Q) →
  dspec (loadTranscript sid ≫= k) d Q.
Proof.
  intros Hk. unfold loadTranscript. apply dspec_bind. apply dspec_get. intros _ Hq tr d' [E <-]%tx_lift_ok. split_and!; [done..|]. by apply Hk.
Qed.

(** The row of a debate read earlier, as it is now. *)
Definition row_now (r : debate) (P : phase → Prop) (t : debate_tables) : Prop := ∃ r0, r0 ∈ debates t ∧ same_debate r r0 ∧ P (d_phase r0).
Notation live r t := (row_now r (λ p, is_open p = true) t).
Lemma row_now_here (r : debate) (P : phase → Prop) t : r ∈ debates t → P (d_phase r) → row_now r P t.
Proof. intros Hr HP. exists r. done. Qed.
Lemma row_now_unique (r r' : debate) P t o : dwf (t, o) → row_now r P t → r' ∈ debates t → d_session r' = d_session r → same_debate r r' ∧ P (d_phase r').
Proof.
  intros [Wd _ _ _ _] (r0 & Hr0 & Hs & HP) Hr' E. assert (r' = r0) as -> by (apply (map_key_inj d_session (debates t)); [done..|by rewrite E; symmetry; apply Hs]).
  done.
Qed.
Lemma same_debate_trans r r' r'' : same_debate r r' → same_debate r' r'' → same_debate r r''.
Proof. unfold same_debate. intros. naive_solver congruence. Qed.
Lemma same_debate_sym r r' : same_debate r r' → same_debate r' r.
Proof. unfold same_debate. intros. naive_solver congruence. Qed.

Definition same_rest (t t' : debate_tables) : Prop := entries t' = entries t ∧ constraints t' = constraints t ∧ decisions t' = decisions t.
Lemma transcript_rest t t' sid tr : entries t' = entries t → transcript_in t sid tr → transcript_in t' sid tr.
Proof. unfold transcript_in, rows_in. by intros ->. Qed.

(** An UPDATE of the row that [r] was. *)
Lemma dspec_row r P f (d : db X) (Q : unit → db X → Prop) : row_now r P (tables d) →
  (∀ r0, same_debate r r0 → P (d_phase r0) → row_step (tables d) r0 (f r0)) →
  (∀ d', same_rest (tables d) (tables d') →
         row_now r (λ p, ∃ r0, same_debate r r0 ∧ P (d_phase r0) ∧ p = d_phase (f r0)) (tables d') → Q tt d') →
  dspec (update_debate (d_session r) f) d Q.
Proof.
  intros (r0 & Hr0 & Hs & HP) Hst HQ. pose proof (proj1 Hs) as <-. pose proof (Hst r0 Hs HP) as Hrs.
  apply dspec_update; [done|done|]. intros d' ET Hin. apply HQ; [by rewrite ET|].
  exists (f r0). split; [done|]. split; [apply (same_debate_trans r r0); [done|apply Hrs]|]. by exists r0.
Qed.
(** An UPDATE that leaves the turn, the end, the close and the state to send alone. *)
Definition touches (f : debate → debate) : Prop :=
  ∀ r, same_debate r (f r) ∧ columns (d_phase r) (d_nextSlot r) (d_turnDeadline r) (d_outcome r) (d_reason r) (f r) ∧
       d_lastState (f r) = d_lastState r ∧ d_closeBody (f r) = d_closeBody r.
Lemma touch_step t f r : touches f → row_step t r (f r).
Proof. intros Hf. destruct (Hf r) as (Hs & Hc & El & Eb). constructor; [done|by constructor|by left|by left]. Qed.
Lemma dspec_touch r P f (d : db X) (Q : unit → db X → Prop) : row_now r P (tables d) → touches f →
  (∀ d', same_rest (tables d) (tables d') → row_now r P (tables d') → Q tt d') → dspec (update_debate (d_session r) f) d Q.
Proof.
  intros Hr Hf HQ. apply (dspec_row r P); [done|intros; by apply touch_step|]. intros d' Hs (r0 & Hr0 & Hsame & r1 & _ & HP & E).
  apply HQ; [done|]. exists r0. split_and!; [done..|]. rewrite E. destruct (Hf r1) as (_ & [-> _ _ _ _] & _). done.
Qed.
(** B stores a close that decodes. *)
Lemma dspec_close_body r P b m f (d : db X) (Q : unit → db X → Prop) : row_now r P (tables d) → d_role r = RoleRespondent → decode_close_mail b = Ok m →
  (∀ r, same_debate r (f r) ∧ columns (d_phase r) (d_nextSlot r) (d_turnDeadline r) (d_outcome r) (d_reason r) (f r) ∧
        d_lastState (f r) = d_lastState r ∧ d_closeBody (f r) = Some b) →
  (∀ d', same_rest (tables d) (tables d') → row_now r P (tables d') → Q tt d') → dspec (update_debate (d_session r) f) d Q.
Proof.
  intros Hr Hrole Hm Hf HQ. apply (dspec_row r P); [done| |].
  - intros r0 (_ & Er & _) _. destruct (Hf r0) as (Hs & Hc & El & Eb). constructor; [done|by constructor| |by left].
    right. rewrite Er. split; [done|]. by exists b, m.
  - intros d' Hs (r0 & Hr0 & Hsame & r1 & _ & HP & E). apply HQ; [done|]. exists r0. split_and!; [done..|].
    rewrite E. destruct (Hf r1) as (_ & [-> _ _ _ _] & _). done.
Qed.

Lemma open_not_closed p : is_open p = true → p ≠ PhaseClosed.
Proof. by destruct p. Qed.
(** A change of the turn or the end, which keeps the rest of the row. *)
Lemma column_row t r r' : same_debate r r' → col_step t r r' → d_lastState r' = d_lastState r → d_closeBody r' = d_closeBody r → row_step t r r'.
Proof. intros. constructor; auto. Qed.
(** setClosed, where the debate may end so. *)
Definition closed_as (o : debate_outcome) (reason : debate_reason) (now : Z) (r : debate) : debate :=
  dset_updated (storeTime now) (dset_turnDeadline None (dset_reason (Some reason) (dset_outcome (Some o) (dset_phase PhaseClosed r)))).
Lemma dspec_setClosed r o reason now (d : db X) (Q : unit → db X → Prop) P : row_now r P (tables d) →
  (∀ r0, r0 ∈ debates (tables d) → same_debate r r0 → P (d_phase r0) → col_step (tables d) r0 (closed_as o reason now r0)) →
  (∀ d' r1, same_rest (tables d) (tables d') → same_debate r r1 → closed_as o reason now r1 ∈ debates (tables d') →
     row_now r (λ p, p = PhaseClosed) (tables d') → Q tt d') → dspec (setClosed (d_session r) o reason now) d Q.
Proof.
  intros (r0 & Hr0 & Hs & HP) Hc HQ. pose proof (proj1 Hs) as Es. rewrite <- Es. apply dspec_update; [done|by apply column_row; auto|].
  intros d' ET Hin. apply (HQ _ r0); [by rewrite ET|done|done|]. by exists (closed_as o reason now r0).
Qed.

(** ** The turn and the mail of a step *)

Lemma turn_phase_open r tr : is_open (turn_phase (turn_of r tr)) = true.
Proof.
  unfold turn_of. pose proof (Next_spec (metas (turnStates (d_role r)) tr) (d_roundsMax r)) as [Hs _]. destruct (Next _ _) as [ph s k a rd|s]; [|done].
  cbn. destruct Hs as [(-> & _)|[(-> & _)|(-> & _)]]; done.
Qed.
Lemma turn_of_same r r0 tr : same_debate r r0 → turn_of r0 tr = turn_of r tr ∧ ∀ t now, turn_due r0 tr t now = turn_due r tr t now.
Proof. intros (_ & Er & _ & _ & Em & Et & _). unfold turn_of, turn_due. rewrite Er, Em, Et. by split. Qed.
Lemma dspec_advance r tr now (d : db X) (Q : Turn → db X → Prop) : live r (tables d) → transcript_in (tables d) (d_session r) tr →
  (∀ t d', same_rest (tables d) (tables d') → live r (tables d') → Q t d') → dspec (advanceTx r tr now) d Q.
Proof.
  intros Hr Ht HQ. unfold advanceTx. fold (turn_of r tr). set (p := match turn_of r tr with Done _ => _ | _ => _ end).
  assert (p = (turn_phase (turn_of r tr), turn_due r tr (turn_of r tr) now)) as -> by (unfold p; by destruct (turn_of r tr)).
  cbn iota beta. apply dspec_bind. apply (dspec_row r (λ p, is_open p = true)); [done| |].
  - intros r0 Hs Hop. apply column_row; try done. destruct (turn_of_same _ _ tr Hs) as [E1 E2]. apply (col_turn _ _ tr now); [done|by rewrite (proj1 Hs)|].
    by rewrite E1, E2.
  - intros d' Hs (r0 & Hr0 & Hsame & r1 & _ & _ & E). apply dspec_ret. apply HQ; [done|]. exists r0. split_and!; [done..|]. rewrite E. apply turn_phase_open.
Qed.

Lemma dspec_sendLastState r kind b now P (d : db X) (Q : bytes → db X → Prop) : row_now r P (tables d) → sends (tables d) r kind b →
  (kind = MailClose → ∀ r0, r0 ∈ debates (tables d) → same_debate r r0 → close_now (tables d) r0 b) →
  (∀ mid d', same_rest (tables d) (tables d') → row_now r P (tables d') → Q mid d') → dspec (sendLastState r kind b now) d Q.
Proof.
  intros (r0 & Hr0 & Hs & HP) Hk Hc HQ. unfold sendLastState. apply dspec_bind.
  pose proof Hs as (Es & Erl & Ep & _). assert (sends (tables d) r0 kind b) as Hk0 by (by apply (sends_lasts (tables d) _ r)).
  rewrite <- Ep. apply dspec_send; [done|split; [done|left; auto]|].
  intros mid d1 ET. destruct (d_role r) eqn:Erole.
  - apply dspec_bind. rewrite <- Es. apply dspec_update; [by rewrite ET| |].
    + rewrite ET. constructor; [done|by constructor|by left|]. right. exists kind, b. auto.
    + intros d2 ET2 Hin. apply dspec_ret. apply HQ; [by rewrite ET2, ET|]. eexists. split; [exact Hin|]. by split.
  - apply dspec_bind. apply dspec_ret. apply dspec_ret. apply HQ; [by rewrite ET|]. rewrite ET. by exists r0.
Qed.

(** ** The transcript and its rows *)

Definition stored_of (e : entry_row) (x : Entry) : stored := MkStored (e_author e) (e_kind e) (e_at e) (e_state e) (e_canon e) x.
Lemma parse_rows_app l1 l2 m : parse_rows (l1 ++ l2) m = match parse_rows l1 m with Ok m' => parse_rows l2 m' | Err e => Err e end.
Proof. revert m. induction l1 as [|e l1 IH]; intros m; [done|]. cbn. by destruct (ParseEntry _ _). Qed.
Lemma transcript_snoc t t' sid tr e x : transcript_in t sid tr → entries t' = entries t ++ [e] → e_session e = sid → ParseEntry (e_kind e) (e_canon e) = Ok x →
  transcript_in t' sid (<[e_slot e := stored_of e x]> tr).
Proof.
  intros Ht ET Es Hx. unfold transcript_in, rows_in. rewrite ET, List.filter_app. cbn [List.filter]. rewrite bool_decide_eq_true_2 by done.
  rewrite parse_rows_app. unfold transcript_in, rows_in in Ht. rewrite Ht. cbn. by rewrite Hx.
Qed.
(** A row set again, or removed, is not of the rest. *)
Lemma parse_rows_insert l m tr s v : parse_rows l m = Ok tr → s ∉ map e_slot l → parse_rows l (<[s := v]> m) = Ok (<[s := v]> tr).
Proof.
  revert m. induction l as [|e l IH]; intros m; [by intros [= ->]|]. cbn [parse_rows map]. destruct (ParseEntry _ _) as [x|]; [|done].
  intros Ht [Hn Hs]%not_elem_of_cons. rewrite insert_insert_ne by done. by apply IH.
Qed.
Lemma parse_rows_delete l m tr s : parse_rows l m = Ok tr → s ∉ map e_slot l → parse_rows l (base.delete s m) = Ok (base.delete s tr).
Proof.
  revert m. induction l as [|e l IH]; intros m; [by intros [= ->]|]. cbn [parse_rows map]. destruct (ParseEntry _ _) as [x|]; [|done].
  intros Ht [Hn Hs]%not_elem_of_cons. rewrite <- delete_insert_ne by done. by apply IH.
Qed.
(** The row a transcript's entry was read from. *)
Lemma parse_rows_lookup l m tr s v : parse_rows l m = Ok tr → NoDup (map e_slot l) → tr !! s = Some v →
  (∃ e x, e ∈ l ∧ e_slot e = s ∧ ParseEntry (e_kind e) (e_canon e) = Ok x ∧ v = stored_of e x) ∨ (s ∉ map e_slot l ∧ m !! s = Some v).
Proof.
  revert m. induction l as [|e l IH]; intros m; [intros [= ->]; right; split; [apply not_elem_of_nil|done]|]. cbn [parse_rows map].
  destruct (ParseEntry _ _) as [x|] eqn:Ex; [|done]. intros Ht [Hn Hd]%NoDup_cons Hv.
  destruct (IH _ Ht Hd Hv) as [(e' & x' & He & E)|[Hs Hm]].
  - left. exists e', x'. split; [by right|done].
  - destruct (decide (s = e_slot e)) as [->|Hne].
    + rewrite lookup_insert_eq in Hm. injection Hm as <-. left. exists e, x. split_and!; [by left|done..].
    + rewrite lookup_insert_ne in Hm by done. right. split; [by apply not_elem_of_cons|done].
Qed.
Lemma rows_in_slots t o sid : dwf (t, o) → NoDup (map e_slot (rows_in sid t)).
Proof.
  intros [_ We _ _ _]. cbn in We. unfold rows_in. induction (entries t) as [|e l IH]; [constructor|]. cbn in We. apply NoDup_cons in We as [Hn We].
  cbn. destruct (bool_decide (e_session e = sid)) eqn:E; [|by apply IH]. apply bool_decide_eq_true in E. cbn. constructor; [|by apply IH].
  intros (y & Ey & Hy)%elem_of_map_list. apply Hn. apply list_elem_of_In, filter_In in Hy as [Hy Es%bool_decide_eq_true].
  apply elem_of_map_list. exists y. split; [congruence|by apply list_elem_of_In].
Qed.
Lemma transcript_row t o sid tr s v : dwf (t, o) → transcript_in t sid tr → tr !! s = Some v →
  ∃ e x, e ∈ entries t ∧ e_session e = sid ∧ e_slot e = s ∧ ParseEntry (e_kind e) (e_canon e) = Ok x ∧ v = stored_of e x.
Proof.
  intros Hw Ht Hv. destruct (parse_rows_lookup _ _ _ _ _ Ht (rows_in_slots _ _ sid Hw) Hv) as [(e & x & He & Es & Hx & ->)|[_ Hm]]; [|by rewrite lookup_empty in Hm].
  exists e, x. apply list_elem_of_In, filter_In in He as [He E%bool_decide_eq_true]. split_and!; try done. by apply list_elem_of_In.
Qed.
Lemma update_where_other {A} (p : A → bool) f l : (∀ x, x ∈ l → p x = false) → update_where p f l = l.
Proof.
  intros Hn. unfold update_where. rewrite <- (map_id l) at 2. apply map_ext_in. intros x Hx%list_elem_of_In. by rewrite Hn.
Qed.
Lemma rows_in_update sid slot f l : (∀ e, e_session (f e) = e_session e) →
  List.filter (λ e, bool_decide (e_session e = sid)) (update_where (is_entry sid slot) f l) =
  update_where (λ e, e_slot e =? slot) f (List.filter (λ e, bool_decide (e_session e = sid)) l).
Proof.
  intros Hf. induction l as [|e l IH]; [done|]. unfold update_where in *. cbn [map List.filter].
  assert (e_session (if is_entry sid slot e then f e else e) = e_session e) as Es by (destruct (is_entry sid slot e); [apply Hf|done]).
  rewrite (bool_decide_ext _ (e_session e = sid)) by (by rewrite Es). destruct (bool_decide (e_session e = sid)) eqn:E; [|exact IH].
  cbn [map]. rewrite IH. f_equal. unfold is_entry. by rewrite E.
Qed.
(** The transcript after an UPDATE of the row of slot [slot]. *)
Lemma transcript_update t o t' sid tr slot f e x : dwf (t, o) → transcript_in t sid tr → e ∈ entries t → e_session e = sid → e_slot e = slot →
  (∀ e, e_session (f e) = e_session e ∧ e_slot (f e) = e_slot e ∧ e_kind (f e) = e_kind e ∧ e_canon (f e) = e_canon e) →
  ParseEntry (e_kind e) (e_canon e) = Ok x → entries t' = update_where (is_entry sid slot) f (entries t) →
  transcript_in t' sid (<[slot := stored_of (f e) x]> tr).
Proof.
  intros Hw Ht He Es Esl Hf Hx ET. unfold transcript_in, rows_in. rewrite ET, rows_in_update by (intros; apply Hf). fold (rows_in sid t).
  pose proof (rows_in_slots _ _ sid Hw) as Hd. unfold transcript_in in Ht.
  assert (e ∈ rows_in sid t) as Hin by (apply list_elem_of_In, filter_In; split; [by apply list_elem_of_In|by apply bool_decide_eq_true]).
  clear He. revert Ht. generalize (∅ : transcript) as m. induction (rows_in sid t) as [|y l IH]; intros m; [by apply elem_of_nil in Hin|].
  cbn [map] in Hd. apply NoDup_cons in Hd as [Hn Hd]. unfold update_where. cbn [map parse_rows]. fold (update_where (λ e, e_slot e =? slot) f l).
  apply elem_of_cons in Hin as [<-|Hin].
  - rewrite (proj2 (Z.eqb_eq (e_slot e) slot)) by done. destruct (Hf e) as (_ & Eslot & -> & ->). rewrite Hx. intros Ht.
    rewrite Eslot, Esl. assert (update_where (λ e0, e_slot e0 =? slot) f l = l) as Eu.
    { apply update_where_other. intros z Hz. apply Z.eqb_neq. intros E. apply Hn. rewrite Esl, <- E. apply elem_of_map_list. by exists z. }
    rewrite Eu. rewrite Esl in Ht.
    pose proof (parse_rows_insert l _ tr slot (stored_of (f e) x) Ht) as Hp. rewrite insert_insert_eq in Hp. unfold stored_of at 1 in Hp.
    destruct (Hf e) as (_ & _ & Ek & Ec). rewrite Ek, Ec in Hp. apply Hp. by rewrite <- Esl.
  - assert (e_slot y ≠ slot) as Hys.
    { intros E. apply Hn. rewrite E, <- Esl. apply elem_of_map_list. by exists e. }
    rewrite (proj2 (Z.eqb_neq _ _) Hys). destruct (ParseEntry (e_kind y) (e_canon y)) as [x'|]; [|done]. by apply IH.
Qed.

(** ** A held entry counts for nothing *)

Lemma filter_comm {A} (p q : A → bool) l : List.filter p (List.filter q l) = List.filter q (List.filter p l).
Proof. induction l as [|x l IH]; [done|]. cbn. destruct (q x) eqn:Eq, (p x) eqn:Ep; cbn; rewrite ?Ep, ?Eq, IH; done. Qed.
Lemma filter_keeps_all {A} (p : A → bool) l : (∀ x, x ∈ l → p x = true) → List.filter p l = l.
Proof. intros Hp. induction l as [|x l IH]; [done|]. cbn. rewrite Hp by (by left). f_equal. apply IH. intros; apply Hp; by right. Qed.
Lemma parse_rows_drop p l m tr e : parse_rows l m = Ok tr → NoDup (map e_slot l) → e ∈ l → p e = false → (∀ y, y ∈ l → p y = false → e_slot y = e_slot e) →
  m !! e_slot e = None → parse_rows (List.filter p l) m = Ok (base.delete (e_slot e) tr).
Proof.
  revert m. induction l as [|y l IH]; intros m; [by intros _ _ ?%elem_of_nil|]. cbn [parse_rows map List.filter].
  destruct (ParseEntry (e_kind y) (e_canon y)) as [x|] eqn:Ex; [|done]. intros Ht [Hn Hd]%NoDup_cons He Hp Hone Hm.
  apply elem_of_cons in He as [<-|He].
  - rewrite Hp. rewrite filter_keeps_all.
    + apply (parse_rows_delete l _ tr (e_slot e)) in Ht; [|done]. by rewrite delete_insert_id in Ht.
    + intros z Hz. destruct (p z) eqn:Ez; [done|]. destruct Hn. rewrite <- (Hone z); [apply elem_of_map_list; by exists z|by right|done].
  - assert (e_slot y ≠ e_slot e) as Hne by (intros E; apply Hn; rewrite E; apply elem_of_map_list; by exists e).
    destruct (p y) eqn:Ey; [|by destruct Hne; apply Hone; [left|]]. cbn [parse_rows]. rewrite Ex. apply IH; try done.
    + intros z Hz. apply Hone. by right.
    + by rewrite lookup_insert_ne.
Qed.
Lemma transcript_delete t o t' sid tr slot v : dwf (t, o) → transcript_in t sid tr → tr !! slot = Some v → st_state v = EntryEarly →
  entries t' = List.filter (λ e, negb (is_entry sid slot e && bool_decide (e_state e = EntryEarly))) (entries t) →
  transcript_in t' sid (base.delete slot tr).
Proof.
  intros Hw Ht Hv Hst ET. unfold transcript_in, rows_in. rewrite ET, filter_comm.
  destruct (transcript_row _ _ _ _ _ _ Hw Ht Hv) as (e & x & He & <- & <- & _ & ->). cbn in Hst.
  apply (parse_rows_drop _ (rows_in (e_session e) t)); [done|by apply (rows_in_slots _ o)| | | |done].
  - apply list_elem_of_In, filter_In. split; [by apply list_elem_of_In|by apply bool_decide_eq_true].
  - rewrite Hst, (proj2 (is_entry_key e e)) by done. done.
  - intros y _ [Hy _]%negb_false_iff%andb_true_iff. apply is_entry_key in Hy. congruence.
Qed.

Lemma metas_delete states tr slot v : tr !! slot = Some v → hasState v states = false → metas states (base.delete slot tr) = metas states tr.
Proof.
  intros Hv Hs. unfold metas. apply map_eq. intros i. rewrite !lookup_omap. destruct (decide (i = slot)) as [->|Hne].
  - rewrite lookup_delete_eq, Hv. cbn. by rewrite Hs.
  - by rewrite lookup_delete_ne.
Qed.
Lemma sorted_slots_delete (tr : transcript) slot : sorted_slots (base.delete slot tr) = List.filter (λ s, negb (s =? slot)) (sorted_slots tr).
Proof.
  destruct (sorted_slots_spec tr) as [S1 M1]. destruct (sorted_slots_spec (base.delete slot tr)) as [S2 M2].
  assert (∀ l, StronglySorted Z.lt l → NoDup l) as Hnd.
  { induction 1 as [|x l Hl IH Hx]; constructor; [|done]. intros Hin. rewrite Forall_forall in Hx. specialize (Hx x Hin). lia. }
  assert (StronglySorted Z.lt (List.filter (λ s, negb (s =? slot)) (sorted_slots tr))) as S3.
  { clear -S1. induction S1 as [|x l Hl IH Hx]; [constructor|]. cbn. destruct (negb _); [|done]. constructor; [done|].
    rewrite Forall_forall in *. intros y [Hy _]%list_elem_of_In%filter_In. apply Hx. by apply list_elem_of_In. }
  apply (StronglySorted_unique_strong Z.lt); [intros; lia|done|done|]. apply NoDup_Permutation; [by apply Hnd..|]. intros s.
  rewrite M2, list_elem_of_In, filter_In, <- list_elem_of_In, M1, negb_true_iff, Z.eqb_neq. destruct (decide (s = slot)) as [->|Hne].
  - rewrite lookup_delete_eq. split; [by intros [? ?]|by intros [_ ?]].
  - rewrite lookup_delete_ne by done. tauto.
Qed.
Lemma fold_left_skip {A B} (g : B → A → B) p l b : (∀ b a, a ∈ l → p a = false → g b a = b) → fold_left g l b = fold_left g (List.filter p l) b.
Proof.
  revert b. induction l as [|a l IH]; intros b Hs; [done|]. cbn. destruct (p a) eqn:E; cbn.
  - apply IH. intros; apply Hs; [by right|done].
  - rewrite Hs; [|by left|done]. apply IH. intros; apply Hs; [by right|done].
Qed.
Lemma fold_left_agree {A B} (g g' : B → A → B) l b : (∀ b a, a ∈ l → g b a = g' b a) → fold_left g l b = fold_left g' l b.
Proof. revert b. induction l as [|a l IH]; intros b Hg; [done|]. cbn. rewrite Hg by (by left). apply IH. intros; apply Hg; by right. Qed.
Lemma current_delete tr a before states slot v : tr !! slot = Some v → hasState v states = false →
  current (base.delete slot tr) a before states = current tr a before states.
Proof.
  intros Hv Hs. unfold current. set (o := match a with RoleInitiator => 0 | RoleRespondent => 1 end).
  destruct (decide (o = slot)) as [->|Hne]; [by rewrite lookup_delete_eq, Hv, Hs|]. rewrite lookup_delete_ne by done.
  destruct (tr !! o) as [e|]; [|done]. destruct (negb (hasState e states)); [done|]. rewrite sorted_slots_delete.
  rewrite (fold_left_skip _ (λ s, negb (s =? slot)) (sorted_slots tr)).
  - apply fold_left_agree. intros b s Hin. apply list_elem_of_In, filter_In in Hin as [_ Hsl%negb_true_iff%Z.eqb_neq]. by rewrite lookup_delete_ne.
  - intros b s _ Hsl%negb_false_iff%Z.eqb_eq. subst s. rewrite Hv, Hs, andb_false_r. by destruct (_ || _).
Qed.
End Spec.
Notation live r t := (row_now r (λ p, is_open p = true) t).
Notation drefines m d := (dspec m d (λ _ _, True)).
