(* ===== verification/DebateRefine.v ===== *)
(** * The transactions of the debate store refine DebateSteps.v

    The parts of a transaction first, each with what holds after it, then the
    hooks, the received mails, constraints, the sweep, Submit and Start. *)

From S2P Require Import Prelude Utf8 Canonical Strconv DisplayText WireTime Body RequestObject.
From S2P Require Import Tables Experience Requests RequestMail WorkSession SessionMail TxLemmas DebateEntry.
From S2P Require Import DebateTurns Signing DecisionRecord DebateTables Debate DebateMail DebateSteps DebateSpec.
From stdpp Require Import gmap.

Open Scope Z_scope.

Section Parts.
Context {X : Type} `{Env X} `{HasDebates X} `{!HasDebatesLaws X} `{!RevokeLaws (X:=X)} `{Crypto} `{DebateEnv X}.

Lemma DecodeEntry_parse k v e canon : DecodeEntry k v = Ok (e, canon) → ParseEntry k canon = Ok e.
Proof.
  unfold DecodeEntry. intros (e' & Ed & Hx)%rbind_ok. apply rbind_ok in Hx as (c & Ec & Hx). apply rbind_ok in Hx as ([] & Es & [= <- <-]).
  apply decode_kind_valid in Ed as [? ?]. by apply ParseEntry_spec.
Qed.
Lemma bad_body_ok {A} (r : checked A) a : as_bad_body r = Ok a → r = Ok a.
Proof. by destruct r. Qed.

(** ** Entries *)

Lemma dspec_insertEntry r P sid slot author k canon at_ st x (d : db X) (Q : unit → db X → Prop) : row_now r P (tables d) → sid = d_session r →
  ParseEntry k canon = Ok x → (∀ r0, same_debate r r0 → P (d_phase r0) → entry_new (tables d) r0 (EntryRow sid slot author k canon at_ st)) →
  (∀ d', debates (tables d') = debates (tables d) → constraints (tables d') = constraints (tables d) → decisions (tables d') = decisions (tables d) →
         entries (tables d') = entries (tables d) ++ [EntryRow sid slot author k canon at_ st] → Q tt d') →
  dspec (insertEntry sid slot author k canon at_ st) d Q.
Proof.
  intros (r0 & Hr0 & Hs & HP) -> Hx Hn HQ. unfold insertEntry. apply dspec_get. apply dspec_if; [intros _; apply dspec_err|]. intros Hf.
  apply orb_false_iff in Hf as [Hf Hrg]. apply negb_false_iff, in_range_spec in Hrg.
  apply dspec_tables; [|intros d' ET; apply HQ; by rewrite ET].
  intros _. eapply (step_entry _ _ r0); try done; cbn; [by symmetry; apply Hs| |by apply Hn].
  intros (e & Ee & He)%elem_of_map_list. injection Ee as E1 E2. apply not_true_iff_false in Hf. apply Hf.
  apply existsb_exists. exists e. split; [by apply list_elem_of_In|]. unfold is_entry. rewrite E1, E2, Z.eqb_refl. by rewrite bool_decide_eq_true_2.
Qed.

Lemma dspec_update_entry r P e f (d : db X) (Q : unit → db X → Prop) : row_now r P (tables d) → e ∈ entries (tables d) → e_session e = d_session r →
  (∀ r0, same_debate r r0 → P (d_phase r0) → entry_step (tables d) r0 e (f e)) →
  (∀ d', debates (tables d') = debates (tables d) → constraints (tables d') = constraints (tables d) → decisions (tables d') = decisions (tables d) →
         entries (tables d') = update_where (is_entry (d_session r) (e_slot e)) f (entries (tables d)) → lasts (tables d) (tables d') → f e ∈ entries (tables d') → Q tt d') →
  dspec (update_entry (d_session r) (e_slot e) f) d Q.
Proof.
  intros (r0 & Hr0 & Hs & HP) He Es Hst HQ. apply dspec_wf. intros Hw. unfold update_entry.
  assert (dstep (dcore d) (DebateTables (debates (tables d)) (update_where (is_entry (d_session r) (e_slot e)) f (entries (tables d)))
    (constraints (tables d)) (decisions (tables d)), outbox d)) as Hstep.
  { rewrite <- Es. apply (step_entry_row _ _ r0); [done..|by symmetry; rewrite Es; apply Hs|by apply Hst]. }
  apply dspec_tables; [done|]. intros d' ET. apply HQ; rewrite ?ET; try done; [by apply (dstep_lasts _ _ Hw Hstep)|].
  unfold update_where. apply elem_of_map_list. exists e. split; [|done]. rewrite <- Es. by rewrite (proj2 (is_entry_key e e)).
Qed.

(** ** The reveal *)

Lemma dspec_reveal r tr now (d : db X) (Q : transcript * list effect → db X → Prop) : live r (tables d) → d_role r = RoleInitiator →
  transcript_in (tables d) (d_session r) tr → peer_position (tables d) (d_session r) →
  (∀ res d', live r (tables d') → transcript_in (tables d') (d_session r) res.1 → Q res d') → dspec (revealTx r tr now) d Q.
Proof.
  intros Hr Hrole Htr (e1 & He1 & E1) HQ. apply dspec_wf. intros Hw. unfold revealTx.
  destruct (tr !! 0) as [v|] eqn:Ev; [|apply dspec_err]. destruct (d_nonce r) as [nonce|] eqn:En; [|apply dspec_err].
  apply dspec_if; [intros _; apply dspec_err|]. intros Hst%negb_false_iff%bool_decide_eq_true.
  destruct (transcript_row _ _ _ _ _ _ Hw Htr Ev) as (e & x & He & Es & Esl & Hx & ->). cbn [stored_of st_state st_canon] in *.
  apply dspec_bind. rewrite <- Esl. apply (dspec_update_entry r (λ p, is_open p = true) e (λ e, eset_at (wireTime now) (eset_state EntryApplied e))); [done..| |].
  - intros r0 Hs _. apply entry_reveal; try done; [by rewrite (proj1 (proj2 Hs))|]. exists e1. destruct Hs as (-> & _). by split.
  - intros d1 Ed Ec En1 Ee Hl Hin. apply dspec_lift. intros pos Hpos. apply dspec_bind.
    assert (transcript_in (tables d1) (d_session r) (<[e_slot e := stored_of (eset_at (wireTime now) (eset_state EntryApplied e)) x]> tr)) as Ht1
      by (by apply (transcript_update _ _ _ _ _ _ (λ e, eset_at (wireTime now) (eset_state EntryApplied e)) e x Hw Htr He Es eq_refl)).
    apply (dspec_sendLastState r _ _ _ (λ p, is_open p = true)); [by unfold row_now; rewrite Ed| |done|].
    + apply (sends_reveal _ _ (eset_at (wireTime now) (eset_state EntryApplied e))); try done.
      exists e1. split; [|done]. apply (ls_entries _ _ Hl); [done|]. destruct E1 as (_ & _ & -> & _). set_solver.
    + intros mid d2 [E2 _] Hr2. apply dspec_ret. apply HQ; [done|]. by apply (transcript_rest (tables d1)).
Qed.

(** ** Decisions *)

Lemma found_request_ok (d : db X) dir peer id q : requests_ok d → find_request dir peer id d = Some q → request_ok q.
Proof. intros Hq [Hin _]%List.find_some. rewrite Forall_forall in Hq. apply Hq. by apply list_elem_of_In. Qed.
Lemma dspec_derive {B} r tr n listed o reason at_ (k : bytes → tx X B) (d : db X) Q :
  (∀ canon req, body_ok req → Derive (derive_input r tr n (listed_in (d_session r) listed (tables d)) o reason at_ req) = Ok canon → dspec (k canon) d Q) →
  dspec (deriveTx r tr n listed o reason at_ ≫= k) d Q.
Proof.
  intros Hk. apply dspec_requests. intros Hq. apply dspec_bind. apply dspec_found. intros q Eq. apply dspec_get.
  intros _ _ canon d' [E <-]%tx_lift_ok. split_and!; [done..|]. apply (Hk canon (q_body q)); [|done]. by eapply found_request_ok.
Qed.

Definition decision_of (r : debate) (canon sigI sigR peerHash : bytes) (st : decision_state) (now : Z) : decision_row :=
  DecisionRow (DecisionRecord.ID (d_session r)) (d_session r) (d_role r) (d_peer r) canon (Hash canon) (opt_text sigI) (opt_text sigR)
    (opt_text peerHash) st (storeTime now) (storeTime now).
Lemma dspec_insertDecision r P canon sigI sigR ph st now (d : db X) (Q : unit → db X → Prop) : row_now r P (tables d) →
  (∀ r0, same_debate r r0 → P (d_phase r0) → decision_new (tables d) r0 (decision_of r canon sigI sigR ph st now)) →
  (∀ d', debates (tables d') = debates (tables d) → constraints (tables d') = constraints (tables d) → entries (tables d') = entries (tables d) →
         decisions (tables d') = decisions (tables d) ++ [decision_of r canon sigI sigR ph st now] → Q tt d') →
  dspec (insertDecision r canon (Hash canon) sigI sigR ph st now) d Q.
Proof.
  intros (r0 & Hr0 & Hs & HP) Hn HQ. unfold insertDecision. apply dspec_get. apply dspec_if; [intros _; apply dspec_err|]. intros Hf.
  apply dspec_tables; [|intros d' ET; apply HQ; by rewrite ET].
  intros _. pose proof Hs as (Es & Er & Ep & _). apply (step_decision _ _ r0); cbn; try done; [|by rewrite Es|by apply Hn].
  intros (n & Ee & Hin)%elem_of_map_list. apply not_true_iff_false in Hf. apply Hf.
  apply existsb_exists. exists n. split; [by apply list_elem_of_In|]. apply orb_true_iff. right. unfold is_decision. by apply bool_decide_eq_true.
Qed.
Lemma derive_input_same r r0 tr n cs o reason at_ req : same_debate r r0 → derive_input r tr n cs o reason at_ req = derive_input r0 tr n cs o reason at_ req.
Proof. intros (Es & Er & Ep & _ & Em & _). unfold derive_input, keys. by rewrite Es, Er, Ep, Em. Qed.
Lemma own_derivation_same t r r0 tr o reason canon : same_debate r r0 → own_derivation t r tr o reason canon → own_derivation t r0 tr o reason canon.
Proof.
  intros Hs (Ht & n & listed & at_ & req & Hreq & Hat & Hd). destruct Hs as (Es & Hs'). split; [by rewrite Es|]. exists n, listed, at_, req.
  split; [done|]. split; [done|].
  rewrite <- (derive_input_same r r0) by done. by rewrite Es.
Qed.

(** ** The close on A *)

(** What decideTx leaves: its Decision, derived from what is stored. *)
Definition decided (r : debate) (n : Z) (ids : list bytes) (o : debate_outcome) (reason : debate_reason) (at_ canon sig : bytes) (t : debate_tables) : Prop :=
  (∃ nn, nn ∈ decisions t ∧ n_session nn = d_session r ∧ n_decision nn = canon ∧ n_hash nn = Hash canon ∧ sign canon = Ok sig) ∧
  ∃ tr req, transcript_in t (d_session r) tr ∧ Derive (derive_input r tr n (listed_in (d_session r) ids t) o reason at_ req) = Ok canon.
Lemma listed_rest sid ids t t' : constraints t' = constraints t → listed_in sid ids t' = listed_in sid ids t.
Proof. unfold listed_in. by intros ->. Qed.
Lemma dspec_decide r n ids o reason now (d : db X) (Q : transcript * bytes * bytes * bytes * bytes * effect → db X → Prop) :
  row_now r (λ p, p = PhaseClosing) (tables d) → d_role r = RoleInitiator → in_years now →
  (∀ tr canon sig at_ a d', debates (tables d') = debates (tables d) → entries (tables d') = entries (tables d) → constraints (tables d') = constraints (tables d) →
     decided r n ids o reason at_ canon sig (tables d') → Q (tr, canon, Hash canon, sig, at_, a) d') → dspec (decideTx r n ids o reason now) d Q.
Proof.
  intros Hr Hrole Hnow HQ. apply dspec_requests. intros Hq. unfold decideTx. apply dspec_transcript. intros tr Htr. apply dspec_found. intros q Eq.
  set (at_ := if text_lt (wireTime now) (q_created q) then q_created q else wireTime now). apply dspec_derive. intros canon req Hreq Hd.
  assert (is_Some (decodeTime (Some (VString at_)))) as Hat.
  { unfold at_. destruct (text_lt _ _); [by apply (found_request_ok _ _ _ _ _ Hq Eq)|]. by rewrite decode_wireTime. }
  apply dspec_lift. intros sig Hsig. apply dspec_bind. apply (dspec_insertDecision r (λ p, p = PhaseClosing)); [done| |].
  - intros r0 Hs Hp. apply (new_decided _ _ _ tr o reason sig); try done; [by rewrite (proj1 (proj2 Hs))|].
    apply (own_derivation_same _ r); [done|]. split; [done|]. by exists n, ids, at_, req.
  - intros d1 Ed Ec Ee En. apply dspec_then_foreign; [unfold createAudit; foreign_tac|]. intros a d2 ET. apply dspec_ret. apply HQ; [by rewrite ET..|]. rewrite ET. split.
    + exists (decision_of r canon sig [] [] DecisionAwaitingPeer now). split_and!; try done. rewrite En. apply elem_of_app. right. by apply list_elem_of_singleton.
    + exists tr, req. split; [by apply (transcript_rest (tables d))|]. by rewrite (listed_rest _ _ _ _ Ec).
Qed.

Lemma close_body_same r r0 at_ ids n o reason signed : same_debate r r0 → close_body r0 at_ ids n o reason signed = close_body r at_ ids n o reason signed.
Proof. intros (Es & _ & _ & Eq & _). unfold close_body. by rewrite Es, Eq. Qed.
Lemma counts_rest sid t t' : entries t' = entries t → constraints t' = constraints t → applied_count sid t' = applied_count sid t ∧ active_ids sid t' = active_ids sid t.
Proof. unfold applied_count, active_ids, rows_in. by intros -> ->. Qed.
Lemma the_row r1 r2 (d : db X) : dwf (dcore d) → r1 ∈ debates (tables d) → r2 ∈ debates (tables d) → d_session r1 = d_session r2 → r1 = r2.
Proof. intros Hw H1' H2' E. by apply (map_key_inj d_session (debates (tables d))); [apply (wf_debates _ Hw)|..]. Qed.

Lemma dspec_close_rows r o reason now (d : db X) (Q : transcript * option bytes * body * list effect → db X → Prop) :
  live r (tables d) → d_role r = RoleInitiator → in_years now → (o = DecisionRecord.OutcomeCancelled → reason ∈ [ReasonCancelled; ReasonTimeout]) →
  (∀ res d' P, row_now r P (tables d') → sends (tables d') r MailClose res.1.2 →
     (∀ r0, r0 ∈ debates (tables d') → same_debate r r0 → close_now (tables d') r0 res.1.2) → Q res d') →
  dspec (close_rows r (applied_count (d_session r) (tables d)) (active_ids (d_session r) (tables d)) o reason now) d Q.
Proof.
  intros Hr Hrole Hnow Hreason HQ. set (n := applied_count _ _). set (ids := active_ids _ _). unfold close_rows. apply dspec_if; intros Ho.
  - apply bool_decide_eq_true in Ho as ->. specialize (Hreason eq_refl). apply dspec_bind.
    apply (dspec_setClosed r _ _ _ _ _ (λ p, is_open p = true)); [done|intros r0 _ (_ & Er & _) Hop; by apply (col_cancelled _ _ reason); [rewrite Er|..]|].
    intros d1 r1 (Ee & Ec & _) Hs1 Hin Hr1. apply dspec_transcript. intros tr _. apply dspec_wf. intros Hw1. apply dspec_ret.
    apply (HQ _ _ (λ p, p = PhaseClosed)); [done|by apply sends_cancelled|]. intros r0 Hr0 Hs0. cbn [fst snd].
    rewrite (the_row r0 _ d1 Hw1 Hr0 Hin) in Hs0 |- * by (rewrite (proj1 Hs0); symmetry; apply Hs1).
    destruct (counts_rest (d_session r) _ _ Ee Ec) as [En Ei]. unfold n, ids. rewrite <- En, <- Ei, <- (close_body_same r _ _ _ _ _ _ _ Hs0), <- (proj1 Hs0).
    by apply close_cancelled.
  - apply bool_decide_eq_false in Ho. destruct Hr as (r0 & Hr0 & Hs & Hop). pose proof Hs as (Es & Er & _). apply dspec_bind. rewrite <- Es at 1.
    apply dspec_update; [done|apply column_row; [done|by apply (col_closing _ _ reason); [rewrite Er|..]|done..]|].
    set (rc := dset_updated _ _). intros d1 ET Hin. assert (same_debate r rc) as Hsc by exact Hs.
    apply dspec_bind. apply dspec_decide; [by exists rc|done|done|].
    intros tr canon sig at_ a d2 Ed2 Ee2 Ec2 [(nn & Hn & Esn & Ecn & Eh & Hsig) (tr' & req & Ht & Hd)]. apply dspec_wf. intros Hw2. apply dspec_ret.
    rewrite <- Ed2 in Hin. apply (HQ _ _ (λ p, p = PhaseClosing)); [by exists rc|cbn; rewrite <- Eh; apply sends_close; try done; by rewrite Ecn|].
    intros r1 Hr1 Hs1. cbn [fst snd]. rewrite (the_row r1 rc d2 Hw2 Hr1 Hin) by (rewrite (proj1 Hs1); symmetry; apply Hsc). clear r1 Hr1 Hs1.
    assert (entries (tables d2) = entries (tables d) ∧ constraints (tables d2) = constraints (tables d)) as [Ee Ec] by (by rewrite Ee2, Ec2, ET).
    destruct (counts_rest (d_session r) _ _ Ee Ec) as [En Ei]. unfold n, ids in *. rewrite <- En, <- Ei in *. rewrite <- Eh, <- (close_body_same r _ _ _ _ _ _ _ Hsc).
    rewrite <- (proj1 Hsc) in *. rewrite (derive_input_same r rc) in Hd by done.
    apply (close_decided _ _ tr' req); try done; by rewrite Ecn.
Qed.

Lemma drefines_close r o reason actor by_ now (d : db X) : live r (tables d) → d_role r = RoleInitiator → in_years now →
  (o = DecisionRecord.OutcomeCancelled → reason ∈ [ReasonCancelled; ReasonTimeout]) → drefines (closeTx r o reason actor by_ now) d.
Proof.
  intros Hr Hrole Hnow Hreason. unfold closeTx. apply dspec_get. apply dspec_get. apply dspec_bind. apply dspec_close_rows; [done..|].
  intros [[[tr canon] b] created] d1 P Hr1 Hs Hc. cbn in Hs, Hc. apply dspec_bind. apply (dspec_sendLastState r _ _ _ P); [done..|].
  intros mid d2 _ _. apply drefines_foreign. foreign_tac.
Qed.

(** ** Hooks (start.go, engine.go) *)

Lemma live_here r (t : debate_tables) : r ∈ debates t → is_open (d_phase r) = true → live r t.
Proof. intros. by apply row_now_here. Qed.
Lemma drefines_Cancel sid now (d : db X) : in_years now → drefines (CancelTx sid now) d.
Proof.
  intros Hnow. apply dspec_getDebate. intros r Hr <-. apply dspec_if; [intros _; apply dspec_err|]. intros [Ha Ho]%negb_false_iff%andb_true_iff.
  apply bool_decide_eq_true in Ha. apply dspec_bind. eapply dspec_mono; [apply drefines_close; [by apply live_here|done|done|by left]|]. intros effs d1 _. by apply dspec_ret.
Qed.
Lemma drefines_PeerCancel sid now (d : db X) : in_years now → drefines (PeerCancelTx sid now) d.
Proof.
  intros Hnow. apply dspec_getDebate. intros r Hr <-. apply dspec_if; [intros _; by apply dspec_ret|]. intros [Ha Ho]%negb_false_iff%andb_true_iff.
  apply bool_decide_eq_true in Ha. apply dspec_bind. eapply dspec_mono; [apply drefines_close; [by apply live_here|done|done|by left]|]. intros effs d1 _. by apply dspec_ret.
Qed.
Lemma drefines_EarlyComplete sid now (d : db X) : in_years now → drefines (EarlyCompleteTx sid now) d.
Proof.
  intros Hnow. apply dspec_getDebate. intros r Hr <-. apply dspec_if; [intros _; by apply dspec_ret|]. intros [Ha Ho]%negb_false_iff%andb_true_iff.
  apply bool_decide_eq_true in Ha. apply drefines_close; [by apply live_here|done|done|by left].
Qed.
Lemma drefines_Abandon sid now (d : db X) : drefines (AbandonTx sid now) d.
Proof.
  apply dspec_getDebate. intros r Hr <-. apply dspec_if; [intros _; by apply dspec_ret|]. intros [Ha Ho]%negb_false_iff%andb_true_iff.
  apply bool_decide_eq_true in Ha. apply dspec_transcript. intros tr Ht. apply dspec_if; [intros _; apply dspec_err|]. intros Hd.
  apply dspec_wf. intros Hw. apply dspec_bind. apply (dspec_setClosed r _ _ _ _ _ (λ p, is_open p = true)); [by apply live_here| |].
  - intros r0 Hr0 Hs _. rewrite (the_row r0 r d Hw Hr0 Hr) by (apply Hs). apply (col_abandoned _ _ tr now); try done.
    unfold abandonable. by rewrite Hd.
  - intros d1 r1 _ _ _ _. apply drefines_foreign. foreign_tac.
Qed.
Lemma foreign_quarantine_check peer : foreign (checkQuarantine (X:=X) peer).
Proof. unfold checkQuarantine. foreign_tac. Qed.
Hint Resolve foreign_quarantine_check : foreign.
Lemma drefines_Opened rl peer req sid now (d : db X) : drefines (OpenedTx rl peer req sid now) d.
Proof.
  apply dspec_getDebate. intros r Hr <-. apply dspec_if; [intros _; apply dspec_err|]. intros _. apply dspec_if; [intros _; by apply dspec_ret|].
  intros Hp%negb_false_iff%bool_decide_eq_true. apply dspec_then_foreign; [foreign_tac|]. intros u d1 ET.
  apply (dspec_row r (λ p, p = PhaseInvited)); [rewrite ET; by apply row_now_here| |done].
  intros r0 Hs E0. apply column_row; try done. by apply (col_opened _ _ now).
Qed.
Lemma drefines_Ended dir peer id now (d : db X) : drefines (EndedTx dir peer id now) d.
Proof.
  unfold EndedTx. apply dspec_get. destruct (find_by_request _ peer id d) as [r|] eqn:E; [|by apply dspec_ret].
  apply List.find_some in E as [Hr%list_elem_of_In _]. apply dspec_if; [intros _; by apply dspec_ret|].
  intros Hp%negb_false_iff%bool_decide_eq_true. apply (dspec_setClosed r _ _ _ _ _ (λ p, p = PhaseInvited)); [by apply row_now_here| |done].
  intros r0 _ _ E0. by apply col_ended.
Qed.
Lemma dspec_insertDebate r (d : db X) (Q : unit → db X → Prop) : (1 ≤ d_roundsMax r ≤ 5 → new_row r) →
  (∀ d', debates (tables d') = debates (tables d) ++ [r] → entries (tables d') = entries (tables d) → Q tt d') → dspec (insertDebate r) d Q.
Proof.
  intros Hn HQ. unfold insertDebate. apply dspec_get. apply dspec_if; [intros _; apply dspec_err|]. intros Hf.
  apply orb_false_iff in Hf as [Hf Hrg]. apply negb_false_iff, andb_true_iff in Hrg as [Hrg%in_range_spec _].
  apply dspec_tables; [|intros d' ET; apply HQ; by rewrite ET]. intros _. apply step_new; [|by apply Hn].
  intros (o & Eo & Ho)%elem_of_map_list. apply not_true_iff_false in Hf. apply Hf. apply existsb_exists. exists o.
  split; [by apply list_elem_of_In|]. apply orb_true_iff. left. unfold is_debate. by apply bool_decide_eq_true.
Qed.
Lemma valid_keys req : RequestObject.Validate req = Ok tt → valid_utf8 (From req) = true ∧ valid_utf8 (To req) = true.
Proof. intros Hv%RequestObject.Validate_ok. by destruct Hv as [_ (_ & ? & ? & _) _ _ _ _ _ _ _]. Qed.
Lemma drefines_Received req now (d : db X) : To req = Self → RequestObject.Validate req = Ok tt → drefines (ReceivedTx req now) d.
Proof.
  intros Hto [Hf Ht]%valid_keys. unfold ReceivedTx. destruct (Debate req) as [m|]; [|apply dspec_err]. apply dspec_insertDebate; [|done].
  intros Hrg. unfold new_row, new_debate, keys. cbn in *. rewrite Hto in *. split_and!; try done; lia.
Qed.

(** ** The close on B (apply.go, decision.go) *)

Lemma dspec_send_row r P kind b now (d : db X) (Q : bytes → db X → Prop) : row_now r P (tables d) → sends (tables d) r kind b → kind ≠ MailClose →
  (∀ mid d', tables d' = tables d → Q mid d') → dspec (SubmitTx (d_peer r) kind b now) d Q.
Proof.
  intros (r0 & Hr0 & Hs & _) Hk Hn HQ. rewrite <- (proj1 (proj2 (proj2 Hs))). apply dspec_send; [done| |done]. split; [by apply (sends_lasts (tables d) _ r)|by left].
Qed.
Lemma derive_reads r tr n listed o reason at_ (d : db X) a d' : deriveTx r tr n listed o reason at_ d = Ok (a, d') → d' = d.
Proof. unfold deriveTx, request_row. intros Hx. repeat tx_step. congruence. Qed.
Lemma derive_value r tr n listed o reason at_ (d : db X) a : (∃ d', deriveTx r tr n listed o reason at_ d = Ok (a, d')) →
  requests_ok d → ∃ req, body_ok req ∧ Derive (derive_input r tr n (listed_in (d_session r) listed (tables d)) o reason at_ req) = Ok a.
Proof.
  intros (d' & (q & d1 & E1 & Hx)%tx_bind_ok) Hq. apply tx_found_ok in E1 as [E1 <-]. apply tx_bind_ok in Hx as (cs & d2 & E2 & Hx).
  apply tx_get_ok in E2 as [<- <-]. apply tx_lift_ok in Hx as [Hx _]. exists (q_body q). split; [|done]. by apply (found_request_ok _ _ _ _ _ Hq E1).
Qed.

(** What decode_close_mail checked of a close. *)
Definition signed_ok (m : close_mail) : Prop :=
  is_Some (decodeTime (Some (VString (cb_at (cl_common m))))) ∧ ∀ h s, cl_signed m = Some (h, s) → s ≠ [].
Lemma common_at b c : commonBody b = Ok c → is_Some (decodeTime (Some (VString (cb_at c)))).
Proof.
  unfold commonBody. intros Hc. repeat (case_match; simplify_eq). cbn.
  match goal with E : _ && _ = true |- _ => apply andb_true_iff in E as [E _]; apply andb_true_iff in E as [E _]; by apply bool_decide_eq_true in E end.
Qed.
Lemma decode_close_signed b m : decode_close_mail b = Ok m → signed_ok m.
Proof.
  unfold decode_close_mail. intros Hd. apply rbind_ok in Hd as (u & _ & Hd). apply rbind_ok in Hd as (c & Hc & Hd).
  repeat (apply rbind_ok in Hd as (? & ? & Hd)). injection Hd as <-. split; [by apply (common_at _ _ Hc)|]. intros h s Es. cbn in Es. subst.
  unfold decode_signed in *. repeat (case_match; simplify_eq); done.
Qed.
Lemma dspec_judge {B} r tr m (k : verdict → tx X B) (d : db X) Q : transcript_in (tables d) (d_session r) tr → signed_ok m →
  dspec (k Hold) d Q → (∀ why, dspec (k (Refuse why)) d Q) →
  (∀ canon sigA, own_derivation (tables d) r tr (cl_outcome m) (cl_reason m) canon → cl_signed m = Some (Hash canon, sigA) →
     VerifySignature (d_peer r) canon sigA = true → dspec (k (Agree canon sigA)) d Q) →
  dspec (judgeClose r tr m ≫= k) d Q.
Proof.
  intros Ht Hm Hh Hr Ha. apply dspec_requests. intros Hq. apply dspec_bind. unfold judgeClose.
  destruct (closeGap tr (d_roundsMax r) (cl_entries m)) as [why| |]; [by apply dspec_ret..|].
  apply dspec_get. apply dspec_if; [intros _; by apply dspec_ret|]. intros _. apply dspec_bind.
  apply dspec_try; [intros a d'; apply derive_reads| |intros e _; destruct e; try apply dspec_err; by apply dspec_ret].
  intros canon Hv. apply derive_value in Hv as (req & Hreq & Hd); [|done]. destruct (cl_signed m) as [[claimed sigA]|] eqn:Es; [|by apply dspec_ret]. apply dspec_ret.
  destruct (bool_decide (Hash canon = claimed)) eqn:Eh; [|apply Hr]. apply bool_decide_eq_true in Eh as <-.
  destruct (VerifySignature (d_peer r) canon sigA) eqn:Ev; [|apply Hr]. apply Ha; try done. split; [done|]. do 4 eexists. split_and!; [exact Hreq|apply Hm|exact Hd].
Qed.

Lemma dspec_signOnB r tr o reason canon sigA now (d : db X) (Q : effect → db X → Prop) : live r (tables d) → d_role r = RoleRespondent →
  own_derivation (tables d) r tr o reason canon → closeMatches tr o reason = true → o ≠ OutcomeCancelled →
  VerifySignature (d_peer r) canon sigA = true → sigA ≠ [] →
  (∀ a d', live r (tables d') → entries (tables d') = entries (tables d) → (∃ n, n ∈ decisions (tables d') ∧ n_session n = d_session r ∧ n_state n = DecisionSigned) → Q a d') →
  dspec (signOnB r canon sigA now) d Q.
Proof.
  intros Hr Hrole Hd Hm Ho Hv Hne HQ. unfold signOnB. apply dspec_lift. intros sigB HB. apply dspec_bind.
  apply (dspec_insertDecision r (λ p, is_open p = true)); [done| |].
  - intros r0 Hs Hop. apply (new_agreed _ _ _ tr o reason sigA sigB); try done.
    + by rewrite (proj1 (proj2 Hs)).
    + by apply (own_derivation_same _ r).
    + by rewrite (proj1 (proj2 (proj2 Hs))).
    + by destruct sigA.
  - intros d1 Ed _ Ee En. assert (live r (tables d1)) as Hr1 by (unfold row_now; by rewrite Ed). apply dspec_bind.
    set (n := decision_of _ _ _ _ _ _ _) in *. assert (n ∈ decisions (tables d1)) as Hin by (rewrite En; apply elem_of_app; right; by apply list_elem_of_singleton).
    apply (dspec_send_row r (λ p, is_open p = true)); [done|by apply (sends_sign _ _ (wireTime now) n)|done|].
    intros mid d2 ET. apply dspec_foreign; [unfold createAudit; foreign_tac|]. intros a d3 ET3. apply HQ; rewrite ET3, ET; [done..|]. by exists n.
Qed.

(** The end of a refusal: the debate breaks, whatever was derived. *)
Lemma drefines_break r tr m b why own canon dec now (d : db X) : live r (tables d) → d_role r = RoleRespondent → decode_close_mail b = Ok m →
  drefines (_ ← update_debate (d_session r) (λ r, dset_updated (storeTime now) (dset_closeBody (Some b) (dset_turnDeadline None (dset_phase PhaseBroken r))));
    _ ← SubmitTx (d_peer r) MailSign [(bytes_of "at", VString (wireTime now)); (bytes_of "decision", VString own);
          (bytes_of "refused", VString refusedMismatch); (bytes_of "request", VString (d_requestID r)); (bytes_of "session", VString (d_session r))] now;
    row ← refuseAudit r (bytes_of why);
    effs ← closeMirrorTx r Tables.OutcomeCancelled session_cancelled (Some EventRefused) DecisionRecord.OutcomeCancelled tr (coverBelow (cl_entries m))
             (party_text RoleRespondent) CauseDecisionRefused dec canon now;
    mret (row ++ effs)) d.
Proof.
  intros Hr Hrole Hm. apply dspec_bind. apply (dspec_row r (λ p, is_open p = true)); [done| |].
  - intros r0 Hs Hop. assert (d_role r0 = RoleRespondent) as Er by (by rewrite (proj1 (proj2 Hs))).
    constructor; [done|by apply col_broken| |by left]. right. split; [done|]. by exists b, m.
  - intros d1 _ Hr1. apply dspec_bind. eapply dspec_send_row; [done|by apply sends_refusal|done|]. intros mid d2 _. apply drefines_foreign. unfold refuseAudit. foreign_tac.
Qed.
Lemma drefines_refuse r tr m b why now (d : db X) : live r (tables d) → d_role r = RoleRespondent → transcript_in (tables d) (d_session r) tr → decode_close_mail b = Ok m →
  drefines (refuseOnB r tr m b why now) d.
Proof.
  intros Hr Hrole Ht Hb. pose proof (decode_close_signed _ _ Hb) as Hm. apply dspec_requests. intros Hq. unfold refuseOnB. destruct (Expected _ _) as [o reason]. apply dspec_bind.
  apply dspec_try; [intros a d'; apply derive_reads| |].
  - intros canon Hv. apply derive_value in Hv as (req & Hreq & Hd); [|done]. apply dspec_bind. apply dspec_bind. apply (dspec_insertDecision r (λ p, is_open p = true)); [done| |].
    + intros r0 Hs Hop. apply (new_disputed _ _ _ tr o reason); try done; [by rewrite (proj1 (proj2 Hs))|].
      apply (own_derivation_same _ r); [done|]. split; [done|]. do 4 eexists. split_and!; [exact Hreq|apply Hm|exact Hd].
    + intros d1 Ed _ _ _. apply dspec_ret. by apply (drefines_break r tr m b why); unfold row_now; rewrite ?Ed.
  - intros e _. apply dspec_bind. apply dspec_if; intros _; [|apply dspec_err]. apply dspec_ret. by apply drefines_break.
Qed.

Lemma drefines_accept r tr m b canon now (d : db X) : live r (tables d) → d_role r = RoleRespondent → decode_close_mail b = Ok m →
  transcript_in (tables d) (d_session r) tr → closeMatches tr (cl_outcome m) (cl_reason m) = true →
  (cl_outcome m ≠ DecisionRecord.OutcomeCancelled → ∃ n, n ∈ decisions (tables d) ∧ n_session n = d_session r ∧ n_state n = DecisionSigned) →
  drefines (acceptClose r tr m b canon now) d.
Proof.
  intros (r0 & Hr0 & Hs & Hop) Hrole Hm Ht Hc Hn. unfold acceptClose, markLateTx. pose proof Hs as (Es & Er & _). apply dspec_bind. rewrite <- Es.
  apply dspec_tables; [intros _; apply step_late; [done|by rewrite Er|done]|]. intros d1 ET. rewrite Es.
  apply dspec_bind. apply (dspec_setClosed r _ _ _ _ _ (λ p, is_open p = true)); [rewrite ET; by exists r0| |].
  - intros r1 _ (Es1 & Er1 & _) Hop1. apply (col_accepted _ _ tr b m); [congruence|done..| |done| |done].
    + rewrite Es1. apply (transcript_rest (tables d)); [by rewrite ET|done].
    + rewrite Es1, ET. done.
  - intros d2 r1 _ _ _ Hr2. apply dspec_bind. apply (dspec_close_body r (λ p, p = PhaseClosed) b m); [done|done|done|done|]. intros d3 _ _.
    destruct (match cl_outcome m with OutcomeAgreed => _ | _ => _ end) as [[note ev] by_]. apply drefines_foreign. foreign_tac.
Qed.
Lemma drefines_closeOnB r m b now (d : db X) : live r (tables d) → d_role r = RoleRespondent → decode_close_mail b = Ok m → drefines (applyCloseOnB r m b now) d.
Proof.
  intros Hr Hrole Hm. unfold applyCloseOnB. apply dspec_transcript. intros tr Ht.
  apply dspec_if; intros Hc; [by apply drefines_refuse|]. apply negb_false_iff in Hc.
  apply dspec_if; intros Ho; [apply bool_decide_eq_true in Ho; by apply drefines_accept|]. apply bool_decide_eq_false in Ho.
  apply dspec_judge; [done|by apply (decode_close_signed b)|..].
  - apply dspec_bind. apply (dspec_close_body r (λ p, is_open p = true) b m); [done..|]. intros d1 _ _. by apply dspec_ret.
  - intros why. by apply drefines_refuse.
  - intros canon sigA Hd Es Hv. apply dspec_bind. apply (dspec_signOnB r tr (cl_outcome m) (cl_reason m)); try done; [by apply (proj2 (decode_close_signed _ _ Hm) _ _ Es)|].
    intros a d1 Hr1 Ee Hn. apply dspec_bind. eapply dspec_mono; [apply drefines_accept; [done..|by apply (transcript_rest (tables d))|done|done]|].
    intros effs d2 _. by apply dspec_ret.
Qed.

Lemma drefines_retryHeld r now (d : db X) : live r (tables d) → d_role r = RoleRespondent → drefines (retryHeldClose r now) d.
Proof.
  intros Hr Hrole. unfold retryHeldClose. destruct (d_closeBody r) as [b|]; [|apply dspec_err].
  apply dspec_lift. intros m Hm. by apply drefines_closeOnB.
Qed.
Lemma drefines_retryIfHeld sid now (d : db X) : drefines (retryIfHeld sid now) d.
Proof.
  apply dspec_getDebate. intros r Hr <-. apply dspec_if; [intros _; by apply dspec_ret|].
  intros [[Ha Ho]%andb_true_iff _]%negb_false_iff%andb_true_iff. apply bool_decide_eq_true in Ha. apply drefines_retryHeld; [by apply live_here|done].
Qed.

(** ** Opening the session of a debate *)

Class Wired : Prop := wired : Debates (X:=X) = Some debate_hooks.
Context `{!Wired}.

Lemma foreign_requestType rl peer req : foreign (requestType (X:=X) rl peer req).
Proof. unfold requestType. foreign_tac. Qed.
Hint Resolve foreign_requestType : foreign.
Lemma drefines_OpenSession actor rl peer req team now (d : db X) : drefines (ws_OpenSession actor rl peer req team now) d.
Proof.
  unfold ws_OpenSession. rewrite wired. apply dspec_then_foreign; [foreign_tac|]. intros typ d1 _.
  apply dspec_if; intros _; [apply dspec_err|]. apply dspec_get. apply dspec_then_foreign; [foreign_tac|]. intros effs d2 _.
  apply dspec_if; intros _; [|by apply dspec_ret]. apply dspec_bind. eapply dspec_mono; [apply drefines_Opened|]. intros u d3 _. by apply dspec_ret.
Qed.
Lemma accept_row_body id ty actor now row sq tb old q : accept_build id ty actor now row sq = Ok tb →
  q_body (transition_row tb sq now old q) = q_body q ∧ q_created (transition_row tb sq now old q) = q_created q.
Proof. unfold accept_build. destruct (_ && _); [done|]. intros [= <-]. unfold transition_row. cbn. by destruct (q_firstResponse old). Qed.
Lemma drefines_AcceptIn id from ty now (d : db X) : drefines (AcceptInTx id from ty now) d.
Proof.
  unfold AcceptInTx, acceptInTx. apply dspec_bind. apply (dspec_mono _ _ (λ _ _, True)); [|intros [[[row sq] mid] effs] d1 _; by apply dspec_ret].
  unfold transitionTx. rewrite wired. apply dspec_then_foreign; [unfold findInRow, getRow; foreign_tac|]. intros row d1 _.
  apply dspec_if; intros _; [apply dspec_err|]. apply dspec_lift. intros tb Htb.
  assert (b_kind tb = KindAccept) as Ek.
  { unfold accept_build in Htb. by repeat (case_match; simplify_eq). }
  apply dspec_then_foreign; [apply foreign_update_request; intros q; by apply accept_row_body with (1 := Htb)|]. intros u d2 _.
  apply dspec_then_foreign; [rewrite Ek; foreign_tac|]. intros mid d3 _.
  apply dspec_bind. apply (dspec_mono _ _ (λ _ _, True)); [apply dspec_if; intros _; [apply drefines_Ended|by apply dspec_ret]|]. intros u2 d4 _.
  apply dspec_bind. apply (dspec_mono _ _ (λ _ _, True)); [apply dspec_if; intros _; [apply drefines_OpenSession|by apply dspec_ret]|]. intros effs d5 _. by apply dspec_ret.
Qed.

(** ** debate.entry (apply.go) *)

Lemma other_author_sent (r : debate) p : d_role r = RoleInitiator ∨ p = RoleInitiator →
  (if bool_decide (d_role r = RoleRespondent ∧ p = RoleRespondent) then EntrySent else EntryApplied) = EntryApplied.
Proof. intros Hor. rewrite bool_decide_eq_false_2; [done|]. intros [E1 E2]. destruct Hor; congruence. Qed.

Lemma dspec_open_invited r slot k now (d : db X) (Q : option (debate * list effect) → db X → Prop) : r ∈ debates (tables d) → d_role r = RoleInitiator →
  Q None d → (∀ r' effs d', r' ∈ debates (tables d') → d_role r' = RoleInitiator → Q (Some (r', effs)) d') → dspec (open_invited r slot k now) d Q.
Proof.
  intros Hr Hrole HN HQ. unfold open_invited. apply dspec_if; intros _; [apply dspec_ret; by apply HQ|].
  apply dspec_if; intros _; [by apply dspec_ret|]. apply dspec_get. destruct (find_request _ _ _ d) as [q|]; [|by apply dspec_ret].
  apply dspec_if; intros _; [by apply dspec_ret|]. apply dspec_bind. eapply dspec_steps; [apply drefines_OpenSession|].
  intros effs d1 Hw Hw1 Hs _. cbn beta. apply dspec_getDebate. intros r1 Hr1 Es. apply dspec_ret. apply HQ; [done|].
  destruct (dsteps_debate _ _ r Hw Hs Hr) as (r2 & Hr2 & S2). cbn in Hr2.
  assert (r1 = r2) as ->; [|by rewrite (proj1 (proj2 S2))]. apply (map_key_inj d_session (debates (tables d1))); [apply (wf_debates _ Hw1)|done..|].
  rewrite Es. symmetry. apply S2.
Qed.

Lemma drefines_entryOnA r slot k e canon at_ now (d : db X) : r ∈ debates (tables d) → d_role r = RoleInitiator → ParseEntry k canon = Ok e → slot ≠ 0 → in_years now →
  drefines (applyEntryOnA r slot k e canon at_ now) d.
Proof.
  intros Hr Hrole He Hslot Hnow. unfold applyEntryOnA. apply dspec_bind. apply dspec_open_invited; [done..|by apply dspec_ret|].
  clear r d Hr Hrole. intros r effs d Hr Hrole. apply dspec_if; intros Ho; [by apply dspec_ret|]. apply negb_false_iff in Ho.
  apply dspec_transcript. intros tr Ht. destruct (Next (metas [EntryApplied] tr) (d_roundsMax r)) as [ph s kind author rd|s] eqn:En; [|by apply dspec_ret].
  apply dspec_if; intros Hg; [by apply dspec_ret|]. apply negb_false_iff, andb_true_iff in Hg as [->%Z.eqb_eq Ha%bool_decide_eq_true]. subst author.
  apply dspec_if; intros Hk; [apply dspec_err|]. apply negb_false_iff, bool_decide_eq_true in Hk. subst kind.
  apply dspec_lift. intros [] Htg%bad_body_ok. apply dspec_bind.
  apply (dspec_insertEntry r (λ p, is_open p = true) _ _ _ _ _ _ _ e); [by apply live_here|done|done| |].
  - intros r0 Hs Hop. pose proof Hs as (Es & Er & _ & _ & Em & _).
    apply (new_turn _ _ _ tr e ph rd); cbn; try done; [by rewrite Es|unfold turn_of; by rewrite Er, Em, Hrole|by rewrite Er, Hrole|].
    symmetry. apply other_author_sent. left. by rewrite Er.
  - intros d1 Ed _ _ Ee. assert (live r (tables d1)) as Hr1 by (exists r; by rewrite Ed).
    set (row := EntryRow (d_session r) slot RoleRespondent k canon at_ EntryApplied) in *.
    pose proof (transcript_snoc _ _ _ _ row e Ht Ee eq_refl He) as Ht1. unfold stored_of, row in Ht1. cbn in Ht1.
    apply dspec_bind. apply (dspec_mono _ _ (λ res d', live r (tables d') ∧ transcript_in (tables d') (d_session r) res.1)).
    { apply dspec_if; intros Hs1; [|by apply dspec_ret]. apply Z.eqb_eq in Hs1. apply dspec_reveal; [done..| |by intros].
      exists row. rewrite Ee. split_and!; try done; [apply elem_of_app; right; by apply list_elem_of_singleton|].
      pose proof (Next_spec (metas [EntryApplied] tr) (d_roundsMax r)) as [Hsh _]. rewrite En, Hs1 in Hsh. cbn in Hsh.
      destruct Hsh as [(_ & -> & _)|[(_ & _ & _ & _ & ?)|(_ & _ & [(_ & _ & ?)|(_ & _ & ?)])]]; [done|lia..]. }
    intros [tr2 revealed] d2 [Hr2 Ht2]. apply dspec_bind. apply dspec_advance; [done|done|]. intros t d3 _ Hr3. apply dspec_bind.
    apply (dspec_mono _ _ (λ _ _, True)); [|intros; by apply dspec_ret]. destruct e; try by apply dspec_ret.
    destruct (if Accept a then _ else _) as [o reason] eqn:Eo. apply dspec_wf. intros Hw3. apply dspec_getDebate. intros r4 Hr4 E4.
    destruct (row_now_unique r r4 _ _ _ Hw3 Hr3 Hr4 E4) as [S4 O4]. apply drefines_close; [by apply live_here|by rewrite (proj1 (proj2 S4))|done|].
    intros ->. by destruct (Accept a).
Qed.

Lemma dspec_drop r slot (d : db X) (Q : unit → db X → Prop) :
  (∀ d', debates (tables d') = debates (tables d) → entries (tables d') = List.filter (λ e, negb (is_entry (d_session r) slot e && bool_decide (e_state e = EntryEarly))) (entries (tables d)) →
     Q tt d') → dspec (drop_early (d_session r) slot) d Q.
Proof. intros HQ. unfold drop_early. apply dspec_tables; [intros _; constructor|]. intros d' ET. apply HQ; by rewrite ET. Qed.

Lemma dspec_drain fuel : ∀ r tr (d : db X) (Q : transcript * list effect → db X → Prop), live r (tables d) → d_role r = RoleRespondent →
  transcript_in (tables d) (d_session r) tr → (∀ res d', live r (tables d') → transcript_in (tables d') (d_session r) res.1 → Q res d') → dspec (drainTx fuel r tr) d Q.
Proof.
  induction fuel as [|fuel IH]; intros r tr d Q Hr Hrole Ht HQ; [apply dspec_err|]. apply dspec_wf. intros Hw. cbn [drainTx].
  destruct (Next (metas [EntryApplied; EntrySent] tr) (d_roundsMax r)) as [ph s k author rd|s] eqn:En; [|apply dspec_ret; by apply HQ].
  destruct (tr !! s) as [v|] eqn:Ev; [|apply dspec_ret; by apply HQ]. apply dspec_if; intros Hst; [apply dspec_ret; by apply HQ|].
  apply negb_false_iff, bool_decide_eq_true in Hst. destruct (transcript_row _ _ _ _ _ _ Hw Ht Ev) as (e & x & He & Es & Esl & Hx & ->).
  destruct (drain_reason tr (stored_of e x) s k author) as [why|] eqn:Er.
  { apply dspec_bind. apply dspec_drop. intros d1 Ed Ee. apply dspec_ret. apply HQ; [unfold row_now; by rewrite Ed|].
    by apply (transcript_delete _ _ _ _ _ _ _ Hw Ht Ev). }
  unfold drain_reason in Er. cbn [stored_of st_kind st_entry] in Er. repeat (case_match; simplify_eq).
  repeat match goal with E : negb _ = false |- _ => apply negb_false_iff, bool_decide_eq_true in E end. subst author k. cbn [stored_of st_state] in Hst.
  apply dspec_bind. apply (dspec_update_entry r (λ p, is_open p = true) e (eset_state EntryApplied)); [done..| |].
  - intros r0 Hs Hop. pose proof Hs as (E1 & E2 & _ & _ & E3 & _).
    apply (entry_drain _ _ _ tr x ph rd); try done.
    + by rewrite E2.
    + by apply (wf_early _ Hw).
    + by rewrite E1.
    + unfold turn_of. by rewrite E2, E3, Hrole, (wf_early _ Hw e He Hst).
    + rewrite E2, Hrole, (wf_early _ Hw e He Hst). by match goal with E : _ = Ok ?u |- _ = Ok tt => destruct u end.
  - intros d1 Ed _ _ Ee _ _. apply dspec_bind. apply IH; [by unfold row_now; rewrite Ed|done| |].
    + pose proof (transcript_update _ _ (tables d1) _ _ (e_slot e) (eset_state EntryApplied) e x Hw Ht He Es eq_refl) as Hu. apply Hu; try done; by intros [].
    + intros [tr' effs] d2 Hr2 Ht2. apply dspec_ret. by apply HQ.
Qed.

Lemma drefines_settle r tr now (d : db X) : live r (tables d) → d_role r = RoleRespondent → transcript_in (tables d) (d_session r) tr → drefines (settle r tr now) d.
Proof.
  intros Hr Hrole Ht. unfold settle. apply dspec_bind. apply dspec_drain; [done..|]. intros [tr' effs] d1 Hr1 Ht1.
  apply dspec_bind. apply dspec_advance; [done|done|]. intros t d2 _ Hr2. apply dspec_bind. eapply dspec_mono; [apply drefines_retryIfHeld|].
  intros closing d3 _. by apply dspec_ret.
Qed.

Lemma drefines_entryOnB r slot k e canon at_ now (d : db X) : r ∈ debates (tables d) → d_role r = RoleRespondent → ParseEntry k canon = Ok e → slot ≠ 0 →
  drefines (applyEntryOnB r slot k e canon at_ now) d.
Proof.
  intros Hr Hrole He Hslot. unfold applyEntryOnB. apply dspec_if; intros _; [by apply dspec_ret|]. apply dspec_if; intros Ho; [by apply dspec_ret|].
  apply negb_false_iff in Ho. apply dspec_transcript. intros tr Ht. apply dspec_if; intros _; [by apply dspec_ret|].
  destruct (Next (metas [EntryApplied; EntrySent] tr) (d_roundsMax r)) as [ph s kind author rd|s] eqn:En; [|by apply dspec_ret].
  apply dspec_if; intros Hs.
  - apply Z.eqb_eq in Hs as ->. apply dspec_if; intros Ha; [by apply dspec_ret|]. apply negb_false_iff, bool_decide_eq_true in Ha as ->.
    apply dspec_if; intros Hk; [apply dspec_err|]. apply negb_false_iff, bool_decide_eq_true in Hk as ->.
    apply dspec_lift. intros [] Htg%bad_body_ok. apply dspec_bind.
    apply (dspec_insertEntry r (λ p, is_open p = true) _ _ _ _ _ _ _ e); [by apply live_here|done|done| |].
    + intros r0 Hs Hop. pose proof Hs as (E1 & E2 & _ & _ & E3 & _).
      apply (new_turn _ _ _ tr e ph rd); cbn; try done; [by rewrite E1|unfold turn_of; by rewrite E2, E3, Hrole|by rewrite E2, Hrole|].
      symmetry. apply other_author_sent. by right.
    + intros d1 Ed _ _ Ee. apply dspec_bind. eapply dspec_mono; [apply drefines_settle; [exists r; by rewrite Ed|done|]|intros effs d2 _; by apply dspec_ret].
      by apply (transcript_snoc _ _ _ _ (EntryRow (d_session r) s RoleInitiator k canon at_ EntryApplied) e Ht Ee).
  - apply dspec_if; intros Hg; [|by apply dspec_ret]. apply andb_true_iff in Hg as [Hg%Z.leb_le _]. apply dspec_bind.
    apply (dspec_insertEntry r (λ p, is_open p = true) _ _ _ _ _ _ _ e); [by apply live_here|done|done| |intros; by apply dspec_ret].
    intros r0 Hs0 Hop. apply new_early; try done. by rewrite (proj1 (proj2 Hs0)).
Qed.

Lemma dspec_bodyRow {B} op c want (k : option debate → tx X B) (d : db X) Q : dspec (k None) d Q →
  (∀ r, r ∈ debates (tables d) → (∀ w, want = Some w → d_role r = w) → dspec (k (Some r)) d Q) → dspec (bodyRow op c want ≫= k) d Q.
Proof.
  intros HN HR. apply dspec_bind. unfold bodyRow. destruct (body_party op c) as [rl|]; [|apply dspec_err].
  apply dspec_if; intros Hw; [apply dspec_err|]. apply dspec_get. destruct (find_debate (cb_session c) d) as [r|] eqn:Ef; [|by apply dspec_ret].
  apply find_debate_in in Ef as [Hr _]. apply dspec_if; intros Hg; [apply dspec_err|]. apply dspec_ret. apply HR; [done|]. intros w ->.
  apply negb_false_iff, bool_decide_eq_true in Hw. apply negb_false_iff in Hg. rewrite !andb_true_iff, !bool_decide_eq_true in Hg. destruct Hg as [[-> _] _]. done.
Qed.

Lemma drefines_applyEntry op now (d : db X) : in_years now → drefines (applyEntry op now) d.
Proof.
  intros Hnow. unfold applyEntry. apply dspec_lift. intros m Hm. apply dspec_bodyRow; [by apply dspec_ret|]. intros r Hr _.
  apply dspec_lift. intros [e canon] He%bad_body_ok%DecodeEntry_parse. assert (em_slot m ≠ 0) as Hs.
  { unfold decode_entry_mail in Hm. repeat (apply rbind_ok in Hm as (? & ? & Hm)). injection Hm as <-. cbn.
    match goal with E : check (in_range 1 _ _) = Ok _ |- _ => unfold check in E; destruct (in_range 1 MaxSlot _) eqn:Er in E; [|done]; apply in_range_spec in Er end. lia. }
  destruct (d_role r) eqn:Hrole; [by apply drefines_entryOnA|by apply drefines_entryOnB].
Qed.

(** ** debate.reveal, debate.close and debate.sign *)

Lemma check_reveal_ok r b canon pos : check_reveal r b = Some (canon, pos) →
  ParseEntry KindPosition canon = Ok pos ∧ ∃ nonce, ValidNonce nonce = true ∧ opens r nonce canon.
Proof.
  unfold check_reveal. intros Hc. repeat (case_match; simplify_eq). split; [done|]. eexists. split; [done|]. unfold opens. by eapply bool_decide_eq_true_1.
Qed.
Lemma opens_same r r0 nonce canon : same_debate r r0 → opens r nonce canon → opens r0 nonce canon.
Proof. intros (E1 & E2 & E3 & _ & _ & _ & E4 & _). unfold opens, keys. by rewrite E1, E2, E3, E4. Qed.

Lemma drefines_broken r now (d : db X) : live r (tables d) → d_role r = RoleRespondent → drefines (brokenTx r now) d.
Proof.
  intros Hr Hrole. unfold brokenTx. apply dspec_bind. apply (dspec_row r (λ p, is_open p = true)); [done| |].
  - intros r0 Hs Hop. apply column_row; try done. apply col_broken; try done. by rewrite (proj1 (proj2 Hs)).
  - intros d1 _ _. apply dspec_then_foreign; [foreign_tac|]. intros mid d2 _. apply dspec_transcript. intros tr _. apply drefines_foreign. foreign_tac.
Qed.

Lemma drefines_applyReveal op now (d : db X) : drefines (applyReveal op now) d.
Proof.
  unfold applyReveal. apply dspec_lift. intros _ _. apply dspec_lift. intros _ _. apply dspec_lift. intros c Hc.
  apply dspec_bodyRow; [by apply dspec_ret|]. intros r Hr Hrole. specialize (Hrole _ eq_refl).
  apply dspec_if; intros Hp; [by apply dspec_ret|]. apply negb_false_iff, bool_decide_eq_true in Hp.
  apply dspec_transcript. intros tr Ht. apply dspec_if; intros Hs; [by apply dspec_ret|]. apply negb_false_iff, Z.eqb_eq in Hs.
  assert (live r (tables d)) as Hl by (apply live_here; [done|by rewrite Hp]).
  destruct (check_reveal r (op_body op)) as [[canon pos]|] eqn:Ec.
  - apply check_reveal_ok in Ec as [Hpos (nonce & Hn & Hop)]. apply dspec_bind.
    apply (dspec_insertEntry r (λ p, p = PhasePositions) _ _ _ _ _ _ _ pos); [by apply row_now_here|done|done| |].
    + intros r0 Hs0 E0. pose proof Hs0 as (E1 & E2 & _ & _ & E3 & _).
      apply (new_revealed _ _ _ tr nonce); try done; [by rewrite E2|by rewrite E1|unfold turn_of; by rewrite E2, E3, Hrole|by apply (opens_same r)].
    + intros d1 Ed _ _ Ee. apply dspec_bind. eapply dspec_mono; [apply drefines_settle; [by unfold row_now; rewrite Ed|done|]|intros effs d2 _; by apply dspec_ret].
      by apply (transcript_snoc _ _ _ _ (EntryRow (d_session r) 0 RoleInitiator KindPosition canon (cb_at c) EntryApplied) pos Ht Ee).
  - apply dspec_bind. eapply dspec_mono; [by apply drefines_broken|]. intros effs d1 _. by apply dspec_ret.
Qed.

Lemma drefines_applyClose op now (d : db X) : drefines (applyClose op now) d.
Proof.
  unfold applyClose. apply dspec_lift. intros m Hm. apply dspec_bodyRow; [by apply dspec_ret|]. intros r Hr Hrole. specialize (Hrole _ eq_refl).
  apply dspec_if; intros Hp.
  - apply dspec_bind. destruct (d_closeBody r); [by apply dspec_ret; apply dspec_ret|].
    apply (dspec_close_body r (λ _, True) (op_body op) m); [by apply row_now_here|done..|]. intros d1 _ _. by apply dspec_ret.
  - apply dspec_if; intros Ho; [by apply dspec_ret|]. apply negb_false_iff in Ho. apply dspec_bind.
    eapply dspec_mono; [apply drefines_closeOnB; [by apply live_here|done|done]|]. intros effs d1 _. by apply dspec_ret.
Qed.

Lemma decode_sign_nonempty b m sig : decode_sign_mail b = Ok m → sg_answer m = Signed sig → sig ≠ [].
Proof.
  unfold decode_sign_mail. intros Hd. do 4 (apply rbind_ok in Hd as (? & ? & Hd)). repeat (case_match; simplify_eq); cbn; congruence.
Qed.
Lemma drefines_answer r n f (d : db X) P : row_now r P (tables d) → n ∈ decisions (tables d) → n_session n = d_session r →
  (∀ r0, same_debate r r0 → decision_step r0 n (f n)) → drefines (update_decision (d_session r) f) d.
Proof.
  intros (r0 & Hr0 & Hs & _) Hn Es Hst. unfold update_decision. apply dspec_tables; [|done]. intros _. rewrite <- (proj1 Hs).
  apply (step_answer _ _ r0 n); try done; [by rewrite (proj1 Hs)|by apply Hst].
Qed.
Lemma drefines_applySign op now (d : db X) : drefines (applySign op now) d.
Proof.
  unfold applySign. apply dspec_lift. intros m Hm. apply dspec_bodyRow; [by apply dspec_ret|]. intros r Hr Hrole. specialize (Hrole _ eq_refl).
  apply dspec_get. destruct (List.find (is_decision (d_session r)) (decisions (tables d))) as [n|] eqn:En; [|by apply dspec_ret].
  apply List.find_some in En as [Hn%list_elem_of_In Es%is_decision_key].
  apply dspec_if; intros Hg; [by apply dspec_ret|]. apply negb_false_iff, andb_true_iff in Hg as [Hp%bool_decide_eq_true Hst%bool_decide_eq_true].
  apply dspec_lift. intros o Ho. destruct (parse_outcome_text o) as [o'|] eqn:Eo'; [|apply dspec_err]. destruct (d_reason r) as [reason|] eqn:Erea; [|apply dspec_err].
  apply dspec_wf. intros Hw. apply dspec_bind. apply (dspec_setClosed r _ _ _ _ _ (λ p, p = PhaseClosing)); [by apply row_now_here| |].
  { intros r0 Hr0 Hs _. rewrite (the_row r0 r d Hw Hr0 Hr) by (apply Hs). by apply (col_answered _ _ n o o' reason). }
  intros d1 r1 (_ & _ & ED) _ _ Hr1. rewrite <- ED in Hn.
  assert (∀ r0, same_debate r r0 → d_role r0 = RoleInitiator) as Hro by (intros r0 (_ & -> & _); done).
  assert (∀ why : bytes, drefines (_ ← update_decision (d_session r) (nset_refused (sg_claimed m) (storeTime now));
            row ← refuseAudit r why;
            mret (applied_effs (row ++ [OnEvent EventRefused (d_session r) (d_peer r) (d_requestID r)]))) d1) as Href.
  { intros why. apply dspec_bind. eapply dspec_mono; [|intros; apply drefines_foreign; unfold refuseAudit; foreign_tac]. apply (drefines_answer r n _ _ _ Hr1); [done..|]. intros r0 Hs. by apply decision_refused; [apply Hro|]. }
  destruct (sign_verdict r n m) as [why|] eqn:Ev; [destruct (sg_answer m); apply Href|]. destruct (sg_answer m) as [sig|] eqn:Ea; [|apply (Href [])].
  unfold sign_verdict in Ev. rewrite Ea in Ev. destruct (negb _); [done|]. destruct (VerifySignature (d_peer r) (n_decision n) sig) eqn:Evs; [|done].
  apply dspec_bind. eapply dspec_mono; [|intros; apply drefines_foreign; foreign_tac]. apply (drefines_answer r n _ _ _ Hr1); [done..|].
  intros r0 Hs. apply decision_signed; [by apply Hro|done| |by apply (decode_sign_nonempty _ _ _ Hm)]. by rewrite (proj1 (proj2 (proj2 Hs))).
Qed.

(** ** Human constraints *)

Lemma dspec_insertConstraint r P k (d : db X) (Q : unit → db X → Prop) : row_now r P (tables d) → k_session k = d_session r → hex_id 0x63 (k_id k) = true →
  valid_utf8 (k_text k) = true → is_Some (decodeTime (Some (VString (k_at k)))) →
  (∀ p, P p → p ∉ [PhaseClosing; PhaseClosed; PhaseBroken]) →
  (d_role r = RoleInitiator → k_state k = ConstraintActive → (active_constraints (d_session r) (tables d) < MaxActiveConstraints)%nat) →
  (∀ d', debates (tables d') = debates (tables d) → constraints (tables d') = constraints (tables d) ++ [k] → Q tt d') → dspec (insertConstraint k) d Q.
Proof.
  intros (r0 & Hr0 & Hs & HP) Ek Hid Htxt Hat Hp Hn HQ. unfold insertConstraint. apply dspec_get. apply dspec_if; [intros _; apply dspec_err|]. intros Hf.
  apply dspec_tables; [|intros d' ET; apply HQ; by rewrite ET]. intros _. pose proof Hs as (E1 & E2 & _).
  apply (step_constraint _ _ r0); try done; [by rewrite E1|by apply Hp|by rewrite E1, E2].
Qed.

Lemma constraint_text_valid `{Unicode} s : ValidateConstraintText s = Ok tt → valid_utf8 s = true.
Proof. unfold ValidateConstraintText. intros ([] & E & _)%rbind_ok. by apply checkLine_valid in E. Qed.
Lemma decode_constraint_id `{Unicode} b m : decode_constraint_mail b = Ok m →
  hex_id 0x63 (cm_id m) = true ∧ valid_utf8 (cm_text m) = true ∧ is_Some (decodeTime (Some (VString (cb_at (cm_common m))))).
Proof.
  unfold decode_constraint_mail. intros Hd. apply rbind_ok in Hd as (u & _ & Hd). apply rbind_ok in Hd as (c & Hc & Hd).
  repeat (apply rbind_ok in Hd as (? & ? & Hd)). injection Hd as <-. cbn. split_and!; [| |by apply (common_at _ _ Hc)].
  2: { match goal with E : as_bad_body (ValidateConstraintText _) = Ok ?u |- _ => apply bad_body_ok in E; destruct u; by apply constraint_text_valid end. }
  match goal with E : check (hex_id 0x63 _) = Ok _ |- _ => unfold check in E; by destruct (hex_id 0x63 _) end.
Qed.
Lemma drefines_applyConstraint `{Unicode} op now (d : db X) : drefines (applyConstraint op now) d.
Proof.
  unfold applyConstraint. apply dspec_lift. intros m Hm. apply decode_constraint_id in Hm as (Hid & Htxt & Hat). apply dspec_bodyRow; [by apply dspec_ret|]. intros r Hr _. cbv zeta.
  apply dspec_if; intros Hp; [by apply dspec_ret|]. apply bool_decide_eq_false in Hp. apply dspec_get. apply dspec_if; intros Hre; [by apply dspec_ret|].
  apply dspec_get. apply dspec_if; intros _; [by apply dspec_ret|]. apply dspec_get. apply dspec_if; intros _; [by apply dspec_ret|]. apply dspec_get.
  set (st := if _ && _ then ConstraintExcess else ConstraintActive). apply dspec_bind.
  apply (dspec_insertConstraint r (λ p, p = d_phase r)); [by apply row_now_here|done..|by intros p ->| |].
  - intros Hrole Hst. unfold st in Hst. cbn [k_state] in Hst. rewrite Hrole, bool_decide_eq_true_2 in Hst by done. cbn [andb] in Hst.
    destruct (MaxActiveConstraints <=? _)%nat eqn:E in Hst; [done|]. by apply Nat.leb_gt in E.
  - intros d1 Ed _. apply dspec_if; intros _; [by apply dspec_ret|]. apply dspec_bind. apply (dspec_mono _ _ (λ _ _, True)); [|intros; by apply dspec_ret].
    apply dspec_if; intros Hc; [|by apply dspec_ret]. apply andb_true_iff in Hc as [Hrole%bool_decide_eq_true _]. apply drefines_retryHeld; [|done].
    exists r. rewrite Ed. split_and!; try done. apply negb_false_iff, orb_true_iff in Hre as [Ho|Hi]; [done|].
    apply andb_true_iff in Hi as [Hi%bool_decide_eq_true _]. congruence.
Qed.

(** A constraint PrepareConstraint described, as the tables have it. *)
Definition pending_ok (pc : PendingConstraint) (t : debate_tables) : Prop :=
  hex_id 0x63 (pc_ID pc) = true ∧ valid_utf8 (pc_Text pc) = true ∧
  ∃ r, r ∈ debates t ∧ d_session r = pc_Session pc ∧ d_requestID r = pc_RequestID pc ∧ d_peer r = pc_Peer pc ∧ d_role r = pc_Role pc.
(** What the approval of a constraint runs, in one transaction. *)
Definition constrainTx (pc : PendingConstraint) (approvalID : bytes) (now : Z) : tx X unit :=
  _ ← ConstraintPreconditionTx pc; AddConstraintTx pc approvalID now.
Lemma drefines_constrain pc approvalID now (d : db X) : pending_ok pc (tables d) → in_years now → drefines (constrainTx pc approvalID now) d.
Proof.
  intros (Hid & Htxt & r & Hr & Es & Eq & Ep & Er) Hnow. apply dspec_wf. intros Hw. unfold constrainTx, ConstraintPreconditionTx.
  apply dspec_bind. apply dspec_getDebate. intros r' Hr' Es'.
  assert (r' = r) as -> by (apply (map_key_inj d_session (debates (tables d))); [apply (wf_debates _ Hw)|done|done|congruence]).
  unfold checkConstrainable. apply dspec_if; intros Ho; [apply dspec_err|]. apply negb_false_iff in Ho. apply dspec_get.
  apply dspec_if; intros Hn; [apply dspec_err|]. apply Nat.leb_gt in Hn. apply dspec_ret. unfold AddConstraintTx. apply dspec_bind.
  apply (dspec_insertConstraint r (λ p, is_open p = true)); [by apply live_here|by rewrite Es|done|done|by cbn [k_at]; rewrite decode_wireTime| |done|].
  { intros p Hp Hin. destruct p; try done; set_solver. }
  intros d1 Ed Ec. apply dspec_bind. rewrite <- Ep. apply dspec_send; [by rewrite Ed| |intros; by apply dspec_ret].
  split; [|by left]. rewrite <- Es, <- Eq.
  apply (sends_constraint _ _ (ConstraintRow (d_session r) (pc_ID pc) (pc_Role pc) (pc_Text pc) (wireTime now) ConstraintActive (Some approvalID))); [|done].
  rewrite Ec, Es. apply elem_of_app. right. by apply list_elem_of_singleton.
Qed.
Lemma prepared_ok `{Unicode} id t newID pc (d d' : db X) : hex_id 0x63 newID = true → PrepareConstraint id t newID d = Ok (pc, d') → pending_ok pc (tables d).
Proof.
  intros Hid (u & d1 & E1 & Hx)%tx_bind_ok. apply tx_lift_ok in E1 as [Et <-]. destruct u. apply tx_bind_ok in Hx as (r & d2 & E2 & Hx).
  apply tx_bind_ok in Hx as (u2 & d3 & E3 & Hx). apply tx_ret_ok in Hx as [<- _]. split_and!; [done|by apply constraint_text_valid|]. exists r. split; [|done].
  unfold resolve in E2. destruct (session_id id).
  - apply tx_found_ok in E2 as [E2%find_debate_in _]. apply E2.
  - destruct (ValidID id); [|done]. apply tx_bind_ok in E2 as (l & d4 & E4 & Hx). apply tx_get_ok in E4 as [<- _].
    destruct (List.filter _ _) as [|r1 [|]] eqn:El; try done. apply tx_ret_ok in Hx as [<- _].
    assert (r1 ∈ [r1]) as Hin by (by apply list_elem_of_singleton). rewrite <- El in Hin. by apply list_elem_of_In, filter_In in Hin as [?%list_elem_of_In _].
Qed.
End Parts.
