(* ===== verification/DebateCommands.v ===== *)
(** * The commands of the debate store refine DebateSteps.v

    The echo of the last state, the timeout sweep, Submit and Start. *)

From S2P Require Import Prelude Utf8 Canonical Strconv DisplayText WireTime Body RequestObject.
From S2P Require Import Tables Experience Requests RequestMail WorkSession SessionMail TxLemmas DebateEntry.
From S2P Require Import DebateTurns Signing DecisionRecord DebateTables Debate DebateMail DebateSteps DebateSpec DebateRefine.
From stdpp Require Import gmap.

Open Scope Z_scope.

Section Commands.
Context {X : Type} `{Env X} `{HasDebates X} `{!HasDebatesLaws X} `{!RevokeLaws (X:=X)} `{Crypto} `{DebateEnv X} `{!Wired}.

(** ** The echo and the sweep *)

Lemma drefines_echo sid now (d : db X) : drefines (echoTx sid now) d.
Proof.
  apply dspec_wf. intros Hw. apply dspec_getDebate. intros r Hr <-. destruct (d_lastState r) as [[kind b]|] eqn:El; [|by apply dspec_ret].
  apply dspec_if; intros _; [by apply dspec_ret|]. apply dspec_bind. apply dspec_send; [done|split; [by apply (wf_last _ Hw r kind b Hr El)|by right]|]. intros mid d1 ET.
  apply dspec_bind. apply (dspec_touch r (λ _, True)); [rewrite ET; by apply row_now_here|done|]. intros d2 _ _. by apply dspec_ret.
Qed.
Lemma dspec_resolve {B} id (k : debate → tx X B) (d : db X) Q : (∀ r, r ∈ debates (tables d) → dspec (k r) d Q) → dspec (resolve id ≫= k) d Q.
Proof.
  intros Hk. unfold resolve. destruct (session_id id); [by apply dspec_getDebate; intros r Hr _; apply Hk|]. destruct (ValidID id); [|apply dspec_bind, dspec_err].
  apply dspec_bind. apply dspec_get. destruct (List.filter _ _) as [|r1 [|]] eqn:El; [apply dspec_err| |apply dspec_err]. apply dspec_ret. apply Hk.
  assert (r1 ∈ [r1]) as Hin by (by apply list_elem_of_singleton). rewrite <- El in Hin. by apply list_elem_of_In, filter_In in Hin as [?%list_elem_of_In _].
Qed.
Lemma drefines_sweep id ready now (d : db X) : in_years now → drefines (SweepTx id ready now) d.
Proof.
  intros Hnow. apply dspec_resolve. intros r Hr. apply dspec_if; intros Hg; [by apply dspec_ret|]. apply orb_false_iff in Hg as [[Hg _]%orb_false_iff _].
  apply negb_false_iff, andb_true_iff in Hg as [Hrole%bool_decide_eq_true Ho]. apply dspec_transcript. intros tr _. apply dspec_bind.
  eapply dspec_mono; [apply drefines_close; [by apply live_here|done|done|intros _; by right; left]|]. intros effs d1 _. by apply dspec_ret.
Qed.

(** ** Submit *)

Lemma fieldPrefix_ok {A} prefix (r : checked A) a : fieldPrefix prefix r = Ok a → r = Ok a.
Proof. unfold fieldPrefix. intros. repeat (case_match; simplify_eq); done. Qed.
Lemma targets_delete tr e a slot states v : tr !! slot = Some v → hasState v states = false →
  checkEntryTargets (base.delete slot tr) e a slot states = checkEntryTargets tr e a slot states.
Proof. intros Hv Hs. unfold checkEntryTargets. destruct e; try done. by rewrite (current_delete tr _ _ _ _ v). Qed.

(** A held entry at the slot makes way for one's own. *)
Definition make_way (r : debate) (tr : transcript) (s : Z) : tx X (list effect) :=
  match tr !! s with
  | Some held => if bool_decide (st_state held = EntryEarly) then
                   _ ← drop_early (d_session r) s; mret [audit_debate_ignored (d_session r) (d_peer r) MailEntry "turn"]
                 else mret []
  | None => mret []
  end.
Lemma dspec_make_way r tr s (d : db X) (Q : list effect → db X → Prop) : transcript_in (tables d) (d_session r) tr →
  (∀ a d' tr', debates (tables d') = debates (tables d) → transcript_in (tables d') (d_session r) tr' →
     (∀ states, states = turnStates (d_role r) → metas states tr' = metas states tr ∧ ∀ e a, checkEntryTargets tr' e a s states = checkEntryTargets tr e a s states) →
     (∀ v, <[s := v]> tr' = <[s := v]> tr) → Q a d') → dspec (make_way r tr s) d Q.
Proof.
  intros Ht HQ. apply dspec_wf. intros Hw. unfold make_way. destruct (tr !! s) as [v|] eqn:Ev; [|by apply dspec_ret, (HQ _ _ tr)].
  apply dspec_if; intros Hst; [|by apply dspec_ret, (HQ _ _ tr)]. apply bool_decide_eq_true in Hst.
  apply dspec_bind. apply dspec_drop. intros d1 Ed Ee. apply dspec_ret.
  apply (HQ _ _ (base.delete s tr)); [done|by apply (transcript_delete _ _ _ _ _ _ v Hw Ht)| |intros w; apply insert_delete_eq].
  intros states ->. assert (hasState v (turnStates (d_role r)) = false) as Hn.
  { unfold hasState. rewrite Hst. apply bool_decide_eq_false. by destruct (d_role r); vm_compute; set_solver. }
  split; [by apply (metas_delete _ _ _ v)|]. intros e a. by apply (targets_delete _ _ _ _ _ v).
Qed.

Lemma turn_state (r : debate) : match d_role r with RoleInitiator => EntryApplied | RoleRespondent => EntrySent end =
  (if bool_decide (d_role r = RoleRespondent ∧ d_role r = RoleRespondent) then EntrySent else EntryApplied).
Proof. by destruct (d_role r). Qed.
Lemma drefines_submit_turn r tr k entry accepted now (d : db X) : r ∈ debates (tables d) → is_open (d_phase r) = true → transcript_in (tables d) (d_session r) tr →
  drefines (let states := turnStates (d_role r) in
  match Next (metas states tr) (d_roundsMax r) with
  | Done _ => tx_err (bad_phase r)
  | NextTurn ph s kind author _ =>
      if negb (bool_decide (author = d_role r)) || (s =? 0) then tx_err (NotYourTurn s (kind_text kind) (party_text author)) else
      if negb (bool_decide (k = kind)) then
        tx_err (if bool_decide (k = KindMove) && bool_decide (ph = PhaseConverge) then bad_phase r else NotYourTurn s (kind_text kind) (party_text author))
      else
      '(e, canon) ← tx_lift (fieldPrefix "entry" (DecodeEntry k (Some entry)));
      _ ← tx_lift (fieldPrefix "entry" (checkEntryTargets tr e (d_role r) s states));
      dropped ← make_way r tr s;
      let at_ := wireTime now in
      let st := match d_role r with RoleInitiator => EntryApplied | RoleRespondent => EntrySent end in
      _ ← insertEntry (d_session r) s (d_role r) k canon at_ st;
      ev ← tx_lift (entryValue canon);
      mid ← sendLastState r MailEntry [(bytes_of "at", VString at_); (bytes_of "entry", ev); (bytes_of "kind", VString (kind_text k));
              (bytes_of "request", VString (d_requestID r)); (bytes_of "session", VString (d_session r)); (bytes_of "slot", num s)] now;
      _ ← advanceTx r (<[s := MkStored (d_role r) k at_ st canon e]> tr) now;
      mret (d_session r, mid, accepted ++ dropped ++ [Audit cli (bytes_of "debate.entry") (entryAudit (d_session r) (d_peer r) s k canon e)])
  end) d.
Proof.
  intros Hr Ho Ht. cbv zeta. destruct (Next _ _) as [ph s kind author rd|s] eqn:En; [|apply dspec_err].
  apply dspec_if; intros Hg; [apply dspec_err|]. apply orb_false_iff in Hg as [->%negb_false_iff%bool_decide_eq_true Hs%Z.eqb_neq].
  apply dspec_if; intros Hk; [apply dspec_err|]. apply negb_false_iff, bool_decide_eq_true in Hk as <-.
  apply dspec_lift. intros [e canon] He%fieldPrefix_ok%DecodeEntry_parse. apply dspec_lift. intros [] Htg%fieldPrefix_ok.
  apply dspec_bind. apply dspec_make_way; [done|]. intros dropped d1 tr' Ed Ht' Hsame Hins. destruct (Hsame _ eq_refl) as [Hm Hc].
  set (st := match d_role r with RoleInitiator => EntryApplied | _ => _ end). apply dspec_bind.
  apply (dspec_insertEntry r (λ p, is_open p = true) _ _ _ _ _ _ _ e); [exists r; by rewrite Ed|done|done| |].
  - intros r0 Hs0 Hop. pose proof Hs0 as (E1 & E2 & _ & _ & E3 & _).
    apply (new_turn _ _ _ tr' e ph rd); cbn; try done; [by rewrite E1|unfold turn_of; by rewrite E2, E3, Hm|by rewrite E2, Hc|].
    rewrite E2. apply turn_state.
  - intros d2 Ed2 _ _ Ee. pose proof (transcript_snoc _ _ _ _ _ e Ht' Ee eq_refl He) as Ht2. cbn in Ht2. rewrite Hins in Ht2.
    apply dspec_lift. intros ev Hev. apply dspec_bind.
    apply (dspec_sendLastState r _ _ _ (λ p, is_open p = true)); [exists r; by rewrite Ed2, Ed| |done|].
    + apply (sends_entry _ _ (EntryRow (d_session r) s (d_role r) k canon (wireTime now) st)); try done; [rewrite Ee; apply elem_of_app; right; by apply list_elem_of_singleton|].
      unfold st. cbn [e_state]. destruct (d_role r); set_solver.
    + intros mid d3 [E3 _] Hr3. apply dspec_bind. apply dspec_advance; [done|by apply (transcript_rest (tables d2))|]. intros t d4 _ _. by apply dspec_ret.
Qed.
Lemma drefines_submit id from k entry now (d : db X) : drefines (SubmitTx_ id from k entry now) d.
Proof.
  apply dspec_resolve. intros r Hr. apply dspec_bind. apply (dspec_mono _ _ (λ x d', x.1 ∈ debates (tables d'))).
  - apply dspec_if; intros Hp; [|by apply dspec_ret]. apply dspec_if; intros _; [apply dspec_err|]. apply dspec_bind.
    eapply dspec_mono; [apply drefines_AcceptIn|]. intros [peer effs] d1 _. apply dspec_getDebate. intros r1 Hr1 _. by apply dspec_ret.
  - clear r d Hr. intros [r accepted] d Hr. cbn in Hr. apply dspec_if; intros Ho; [apply dspec_err|]. apply negb_false_iff in Ho.
    apply dspec_transcript. intros tr Ht. by apply drefines_submit_turn.
Qed.

(** ** Start *)

Lemma canonical_body_ok req c : RequestObject.Validate req = Ok tt → wire_times req → RequestObject.Canonical req = Ok c → body_ok c.
Proof.
  intros Hv Ht Hc. pose proof (wf_request _ (Validate_ok _ Hv) Ht) as Hw. destruct (canonical_members _ _ Hw Hc) as (m & Hp & _ & _ & _ & Hm).
  intros req' Hr. assert (m = req') as ->.
  { revert Hp Hr. unfold parse_object, parseObject. destruct (ParseStrict c) as [[]|]; try done. by intros [= ->] [= ->]. }
  rewrite Hm. assert (member (bytes_of "created") (request_value req) = Some (VString (wireTime (Created req)))) as ->.
  { by request_member. }
  cbn [option_map norm]. destruct Ht as [[Hy _] _]. by rewrite decode_wireTime.
Qed.

(** What a prepared request is when it starts a debate. *)
Record start_request (p : StartParams (X := X)) (canon : bytes) (newNonce : bytes → bytes) (now : Z) (req : Request) (c : bytes) : Prop := {
  sr_from : From req = pFrom (sp_Submit p);
  sr_debate : Debate req = Some (MkDebate (DebateEntry.Commitment sha256 (start_sid req) (From req) (newNonce (RequestObject.ID req)) canon) (start_rounds p) (start_timeout p));
  sr_created : Created req = now / second * second;
  sr_deadline : Deadline req = pDeadline (sp_Submit p);
  sr_valid : RequestObject.Validate req = Ok tt;
  sr_canon : RequestObject.Canonical req = Ok c;
}.
Lemma prepared_start p canon newNonce id urgency declared now req c :
  prepared (with_hooks (sp_Submit p) (start_prepare (X:=X) p canon newNonce) (start_in_tx p canon newNonce)) id urgency declared now = Ok (req, c) →
  start_request p canon newNonce now req c.
Proof.
  unfold prepared. intros (q & Eq & Hx)%rbind_ok. apply rbind_ok in Hx as ([] & Hv & Hx). apply rbind_ok in Hx as (c' & Hc & Hx).
  apply rbind_ok in Hx as (? & _ & [= -> ->]). cbn in Eq. injection Eq as <-. done.
Qed.

(** The times of the request that the process hands over. *)
Definition start_times (p : StartParams (X := X)) (now : Z) : Prop :=
  in_years now ∧ (pDeadline (sp_Submit p) ≠ zeroTime → in_years (pDeadline (sp_Submit p)) ∧ pDeadline (sp_Submit p) mod second = 0).
Lemma start_request_ok p canon newNonce now req c : start_times p now → start_request p canon newNonce now req c →
  body_ok c ∧ is_Some (decodeTime (Some (VString (wireTime (Created req))))).
Proof.
  intros [Hy Hd] [_ _ Ec Ed Hv Hc]. assert (in_years (now / second * second)) as Hy'.
  { unfold in_years in *. by rewrite Z.div_mul. }
  split; [|by rewrite Ec, decode_wireTime]. apply (canonical_body_ok req); [done| |done]. unfold wire_times. rewrite Ec, Ed. split; [|done].
  split; [done|]. by apply Z.mod_mul.
Qed.

Lemma dspec_insert_request row (d : db X) (Q : unit → db X → Prop) : request_ok row → (∀ d', tables d' = tables d → Q tt d') →
  dspec (set_requests (X:=X) (λ l, l ++ [row])) d Q.
Proof.
  intros Hr HQ _ Hq u d' [= <- <-]. split_and!; [done| |by apply HQ]. cbn [requests]. apply Forall_app. split; [done|]. by constructor.
Qed.
Lemma drefines_start_in p canon newNonce req c pos now (d : db X) : ParseEntry KindPosition canon = Ok pos → pFrom (sp_Submit p) = Self →
  start_request p canon newNonce now req c → drefines (start_in_tx p canon newNonce req now) d.
Proof.
  intros Hpos Hf [Ef Em _ _ [Vf Vt]%valid_keys _]. rewrite Hf in Ef. unfold start_in_tx. rewrite Em. cbn [RequestObject.Commitment].
  apply dspec_then_foreign; [unfold checkQuarantine; foreign_tac|]. intros u d1 _.
  apply dspec_bind. set (r := new_debate _ _ _ _ _ _ _ _ _). apply (dspec_insertDebate r).
  { intros Hrg. unfold new_row, r, new_debate, keys, start_sid. cbn in *. rewrite Ef in *. split_and!; try done; lia. }
  intros d2 Ed Ee. apply (dspec_insertEntry r (λ p, p = PhaseInvited) _ _ _ _ _ _ _ pos); [|done|done| |done].
  - exists r. rewrite Ed. split_and!; try done. apply elem_of_app. right. by apply list_elem_of_singleton.
  - intros r0 Hs E0. apply (new_commitment _ _ _ (newNonce (RequestObject.ID req))); try done; [by rewrite (proj1 (proj2 Hs))|by destruct Hs as (_ & _ & _ & _ & _ & _ & _ & -> & _)|].
    apply (opens_same r r0); [done|]. unfold opens, keys. cbn. by rewrite <- Ef.
Qed.
Lemma drefines_insertOut p canon newNonce req c hash now pos (d : db X) : ParseEntry KindPosition canon = Ok pos → pFrom (sp_Submit p) = Self →
  start_times p now → start_request p canon newNonce now req c →
  drefines (insertOutTx (with_hooks (sp_Submit p) (start_prepare p canon newNonce) (start_in_tx p canon newNonce)) req c hash now) d.
Proof.
  intros Hpos Hf Ht Hr. unfold insertOutTx. apply dspec_get. apply dspec_if; intros _; [by apply dspec_ret|].
  apply dspec_then_foreign; [foreign_tac|]. intros mid d1 _. apply dspec_if; intros _; [apply dspec_if; intros _; [by apply dspec_ret|apply dspec_err]|].
  apply dspec_bind. apply dspec_insert_request.
  { destruct (start_request_ok _ _ _ _ _ _ Ht Hr). by split. }
  intros d2 _. apply dspec_bind. eapply dspec_mono; [|intros; by apply dspec_ret]. by apply (drefines_start_in _ _ _ _ c pos).
Qed.

(** What a call keeps that reports errors instead of rolling back. *)
Definition dkeeps {R} (call : db X → R * db X * list effect) : Prop := ∀ d r d' effs, dwf (dcore d) → requests_ok d → call d = (r, d', effs) →
  rtc dstep (dcore d) (dcore d') ∧ requests_ok d'.
Lemma dkeeps_draws p canon newNonce newID pos now : ParseEntry KindPosition canon = Ok pos → pFrom (sp_Submit p) = Self → start_times p now →
  ∀ steps draw urgency declared,
    dkeeps (submit_draws (with_hooks (sp_Submit p) (start_prepare p canon newNonce) (start_in_tx p canon newNonce)) newID draw steps urgency declared now).
Proof.
  intros Hpos Hf Ht. set (sp := with_hooks _ _ _). induction steps as [|steps IH]; intros draw urgency declared d res d' effs Hw Hq; cbn [submit_draws];
    [by intros [= _ <- _]|].
  destruct (prepared sp (newID draw) urgency declared now) as [[req c]|] eqn:Ep; [|by intros [= _ <- _]]. apply prepared_start in Ep.
  unfold insertOut. destruct (insertOutTx sp req c (BodyHash c) now d) as [[[| |o] d1]|] eqn:Ei; [by apply IH|by intros [= _ <- _]| |by intros [= _ <- _]].
  intros [= _ <- _]. apply (drefines_insertOut p canon newNonce req c (BodyHash c) now pos d) in Ei as (? & ? & _); done.
Qed.
Lemma dkeeps_Start p newID newNonce now : pFrom (sp_Submit p) = Self → start_times p now → dkeeps (Start p newID newNonce now).
Proof.
  intros Hf Ht d res d' effs Hw Hq. unfold Start. destruct (negb _); [by intros [= _ <- _]|]. destruct (negb _); [by intros [= _ <- _]|].
  destruct (negb _); [by intros [= _ <- _]|].
  destruct (sp_Position p) as [v|]; [|by intros [= _ <- _]]. destruct (fieldPrefix _ _) as [[pos canon]|] eqn:Ed; [|by intros [= _ <- _]].
  apply fieldPrefix_ok, DecodeEntry_parse in Ed. set (sp := with_hooks _ _ _).
  destruct (RequestMail.Submit sp newID now d) as [[sres d1] seffs] eqn:Es.
  assert (rtc dstep (dcore d) (dcore d1) ∧ requests_ok d1) as Hs; [|by destruct sres; intros [= _ <- _]].
  unfold RequestMail.Submit in Es. destruct (match IdempotencyKey sp with [] => _ | _ => _ end); [by injection Es as _ <- _|].
  destruct (senderUrgency _ _ _) as [urgency note]. destruct (submit_draws _ _ _ _ _ _ _ _) as [[ires d2] ieffs] eqn:Edr.
  apply (dkeeps_draws _ _ _ _ _ _ Ed Hf Ht) in Edr; [|done..]. destruct ires as [[| |o]|]; injection Es as _ <- _; done.
Qed.
End Commands.
