(* ===== verification/DebateRuns.v ===== *)
(** * Runs of the debate store

    The calls and mails the daemon may make to the store, as data, and what
    one does to the tables. A run interleaves them with changes of the other
    stores, which keep the debate tables. *)

From S2P Require Import Prelude Utf8 Canonical Strconv DisplayText WireTime Body RequestObject.
From S2P Require Import Tables Experience Requests RequestMail WorkSession SessionMail TxLemmas DebateEntry.
From S2P Require Import DebateTurns Signing DecisionRecord DebateTables Debate DebateMail DebateSteps DebateSpec DebateRefine.
From S2P Require Import DebateCommands.
From stdpp Require Import gmap.

Open Scope Z_scope.

Section Runs.
Context {X : Type} `{Env X} `{HasDebates X} `{!HasDebatesLaws X} `{!RevokeLaws (X:=X)} `{Crypto} `{DebateEnv X} `{!Wired} `{Unicode}.

(** The hooks of the other stores, the five kinds of mail, and the commands. *)
Inductive dop :=
| DOpened (rl : Tables.role) (peer requestID sid : bytes)
| DCancel (sid : bytes) | DPeerCancel (sid : bytes) | DEarlyComplete (sid : bytes) | DAbandon (sid : bytes)
| DReceived (req : Request) | DEnded (dir : direction) (peer id : bytes)
| DMailEntry (op : opened_mail) | DMailReveal (op : opened_mail) | DMailClose (op : opened_mail) | DMailSign (op : opened_mail) | DMailConstraint (op : opened_mail)
| DConstrain (pc : PendingConstraint) (approvalID : bytes)
| DSweep (ready : bool)
| DSubmit (id from kind : bytes) (entry : option value) (ready : bool)
| DStart (p : StartParams (X := X)) (newID : nat → bytes) (newNonce : bytes → bytes).

Definition after {R E} (r : R * db X * E) : db X := r.1.2.
Definition dexec (o : dop) (now : Z) (d : db X) : db X :=
  match o with
  | DOpened rl peer id sid => (commit (OpenedTx rl peer id sid now) d).2
  | DCancel sid => (commit (CancelTx sid now) d).2
  | DPeerCancel sid => (commit (PeerCancelTx sid now) d).2
  | DEarlyComplete sid => (commit (EarlyCompleteTx sid now) d).2
  | DAbandon sid => (commit (AbandonTx sid now) d).2
  | DReceived req => (commit (ReceivedTx req now) d).2
  | DEnded dir peer id => (commit (EndedTx dir peer id now) d).2
  | DMailEntry op => after (receive_debate applyEntry op now d)
  | DMailReveal op => after (receive_debate applyReveal op now d)
  | DMailClose op => after (receive_debate applyClose op now d)
  | DMailSign op => after (receive_debate applySign op now d)
  | DMailConstraint op => after (receive_debate applyConstraint op now d)
  | DConstrain pc approvalID => (commit (constrainTx pc approvalID now) d).2
  | DSweep ready => after (Sweep ready now d)
  | DSubmit id from kind entry ready => after (Submit id from kind entry ready now d)
  | DStart p newID newNonce => after (Start p newID newNonce now d)
  end.
(** What the callers provide: a received request is valid and to the own key (checkIn),
    a debate is started with it, a pending constraint is one that
    PrepareConstraint described. *)
Definition dop_ok (o : dop) (now : Z) (d : db X) : Prop :=
  in_years now ∧
  match o with
  | DReceived req => To req = Self ∧ RequestObject.Validate req = Ok tt
  | DConstrain pc _ => pending_ok pc (tables d)
  | DStart p _ _ => pFrom (sp_Submit p) = Self ∧ start_times p now
  | _ => True
  end.

(** A change of the other stores. *)
Definition other_stores (d d' : db X) : Prop :=
  tables d' = tables d ∧ (requests_ok d → requests_ok d') ∧ ∀ m, m ∈ outbox d' → m_kind m ∈ debate_kinds → ∃ m0, m0 ∈ outbox d ∧ same_mail m0 m.
Inductive dtrans : db X → db X → Prop :=
| dtrans_op o now d : dop_ok o now d → dtrans d (dexec o now d)
| dtrans_other d d' : other_stores d d' → dtrans d d'.

Definition dstart (d : db X) : Prop :=
  tables d = DebateTables [] [] [] [] ∧ requests_ok d ∧ Forall (λ x, m_kind x ∉ debate_kinds) (outbox d).
Definition dreachable (d : db X) : Prop := ∃ d0, dstart d0 ∧ rtc dtrans d0 d.

(** ** Every operation takes steps *)

Definition moves (d d' : db X) : Prop := rtc dstep (dcore d) (dcore d') ∧ requests_ok d'.
Lemma commit_moves {A} (m : tx X A) (d : db X) : dwf (dcore d) → requests_ok d → drefines m d → moves d (commit m d).2.
Proof.
  intros Hw Hq Hm. unfold commit. destruct (m d) as [[a d']|e] eqn:E; [|by split]. by destruct (Hm Hw Hq _ _ E) as (? & ? & _).
Qed.
Lemma moves_trans d d1 d2 : dwf (dcore d) → moves d d1 → (dwf (dcore d1) → requests_ok d1 → moves d1 d2) → moves d d2.
Proof.
  intros Hw [S1 Q1] Hk. destruct (Hk (proj1 (dsteps_wf _ _ Hw S1)) Q1) as [S2 Q2]. split; [by etransitivity|done].
Qed.
Lemma echo_moves sid now (d : db X) : dwf (dcore d) → requests_ok d → moves d (echo sid now d).1.
Proof.
  intros Hw Hq. pose proof (commit_moves (echoTx sid now) d Hw Hq (drefines_echo _ _ _)) as Hm.
  unfold echo. by destruct (commit _ _) as [[[]|] d1].
Qed.
Lemma receive_moves apply op now (d : db X) : dwf (dcore d) → requests_ok d → drefines (apply op now) d → moves d (after (receive_debate apply op now d)).
Proof.
  intros Hw Hq Ha. pose proof (commit_moves _ d Hw Hq Ha) as Hm. unfold receive_debate. destruct (commit (apply op now) d) as [[o|e] d1]; [|done].
  destruct (da_echo o) as [sid|]; [|done]. apply (moves_trans _ _ _ Hw Hm). intros Hw1 Hq1.
  pose proof (echo_moves sid now d1 Hw1 Hq1) as He. by destruct (echo sid now d1).
Qed.
Lemma sweep_one_moves id ready now (d : db X) : in_years now → dwf (dcore d) → requests_ok d → moves d (after (SweepOne id ready now d)).
Proof.
  intros Hnow Hw Hq. pose proof (commit_moves _ d Hw Hq (drefines_sweep id ready now d Hnow)) as Hm.
  unfold SweepOne. by destruct (commit _ _) as [[[]|] d1].
Qed.
Lemma sweep_ids_moves ids ready now : in_years now → ∀ d : db X, dwf (dcore d) → requests_ok d → moves d (after (sweep_ids ids ready now d)).
Proof.
  intros Hnow. induction ids as [|id ids IH]; intros d Hw Hq; [by split|]. cbn [sweep_ids].
  pose proof (sweep_one_moves id ready now d Hnow Hw Hq) as Hm. destruct (SweepOne id ready now d) as [[c d1] e1].
  apply (moves_trans _ _ _ Hw Hm). intros Hw1 Hq1. pose proof (IH d1 Hw1 Hq1) as Hi. by destruct (sweep_ids ids ready now d1) as [[n d2] e2].
Qed.
Lemma submit_moves id from kind entry ready now (d : db X) : in_years now → dwf (dcore d) → requests_ok d →
  moves d (after (Submit id from kind entry ready now d)).
Proof.
  intros Hnow Hw Hq. unfold Submit. destruct (ValidKind kind) as [k|]; [|by split]. destruct entry as [v|]; [|by split].
  pose proof (sweep_one_moves id ready now d Hnow Hw Hq) as Hm. destruct (SweepOne id ready now d) as [[c d1] e1].
  assert (moves d (after (match commit (SubmitTx_ id from k v now) d1 with (Err e, d2) => (Err e, d2, e1) | (Ok (sid, mid, effs), d2) => (Ok (sid, mid), d2, e1 ++ Wake :: effs) end))) as Hs.
  { apply (moves_trans _ _ _ Hw Hm). intros Hw1 Hq1. pose proof (commit_moves _ d1 Hw1 Hq1 (drefines_submit id from k v now d1)) as Hc.
    by destruct (commit _ d1) as [[[[]]|] d2]. }
  destruct c as [b|e]; [done|]. by destruct e.
Qed.

Lemma dexec_moves o now (d : db X) : dop_ok o now d → dwf (dcore d) → requests_ok d → moves d (dexec o now d).
Proof.
  intros [Hnow Ho] Hw Hq. destruct o; cbn [dexec]; try (apply commit_moves; [done..|]); try (apply receive_moves; [done..|]).
  - apply drefines_Opened.
  - by apply drefines_Cancel.
  - by apply drefines_PeerCancel.
  - by apply drefines_EarlyComplete.
  - apply drefines_Abandon.
  - by destruct Ho; apply drefines_Received.
  - apply drefines_Ended.
  - by apply drefines_applyEntry.
  - apply drefines_applyReveal.
  - apply drefines_applyClose.
  - apply drefines_applySign.
  - apply drefines_applyConstraint.
  - by apply drefines_constrain.
  - by apply sweep_ids_moves.
  - by apply submit_moves.
  - destruct (Start p newID newNonce now d) as [[r d'] e] eqn:E. by apply (dkeeps_Start _ _ _ _ (proj1 Ho) (proj2 Ho)) in E.
Qed.
Lemma other_moves (d d' : db X) : other_stores d d' → requests_ok d → moves d d'.
Proof.
  intros (ET & ER & Ho) Hq. split; [|by apply ER]. unfold dcore. rewrite ET. by apply rtc_once, step_other.
Qed.
Lemma dtrans_moves d d' : dtrans d d' → dwf (dcore d) → requests_ok d → moves d d'.
Proof. intros []; intros; [by apply dexec_moves|by apply other_moves]. Qed.
Lemma run_moves d d' : rtc dtrans d d' → dwf (dcore d) → requests_ok d → moves d d'.
Proof.
  induction 1 as [d|d d1 d2 Hs _ IH]; [by split|]. intros Hw Hq. apply (moves_trans _ _ _ Hw (dtrans_moves _ _ Hs Hw Hq)). done.
Qed.
Lemma start_wf d : dstart d → dwf (dcore d).
Proof. intros (ET & _). unfold dcore. rewrite ET. constructor; cbn; try constructor; try (intros; by match goal with Hin : _ ∈ [] |- _ => apply elem_of_nil in Hin end). Qed.

(** An invariant of the steps holds in every state a run reaches. *)
Lemma reachable_invariant (P : dstate → Prop) : (∀ o, Forall (λ x, m_kind x ∉ debate_kinds) o → P (DebateTables [] [] [] [], o)) →
  (∀ s s', dwf s → P s → dstep s s' → P s') → ∀ d, dreachable d → dwf (dcore d) ∧ requests_ok d ∧ P (dcore d).
Proof.
  intros Hinit Hstep d (d0 & Hst & Hr). pose proof (start_wf _ Hst) as Hw. pose proof Hst as (ET & Hq & Ho).
  destruct (run_moves _ _ Hr Hw Hq) as [Hs Hq']. split; [by apply (dsteps_wf _ _ Hw Hs)|]. split; [done|].
  assert (P (dcore d0)) as HP by (unfold dcore; rewrite ET; by apply Hinit).
  clear Hr Hq Hq' Hst ET Ho. revert Hw HP. induction Hs as [s|s s1 s2 Hone _ IH]; [done|]. intros Hw HP.
  apply IH; [by apply (dstep_wf _ _ Hw Hone)|by apply (Hstep _ _ Hw HP Hone)].
Qed.
(** A pending constraint stays one. *)
Lemma pending_ok_steps pc s s' : dwf s → rtc dstep s s' → pending_ok pc s.1 → pending_ok pc s'.1.
Proof.
  intros Hw Hs (Hid & Ht & r & Hr & E1 & E2 & E3 & E4). destruct (dsteps_debate _ _ _ Hw Hs Hr) as (r' & Hr' & S).
  split_and!; [done..|]. exists r'. unfold same_debate in S. split; [done|]. split_and!; etransitivity; (apply S || eassumption).
Qed.
End Runs.
