(* ===== verification/DebateLegal.v ===== *)
(** * Legal transcripts

    The entries that count are a play of the turn engine: each was the next
    turn of the entries before it. The order of the slots is the one they
    are filled in, the respondent's position first. *)

From S2P Require Import Prelude Utf8 Canonical Strconv DebateEntry DebateTurns.
From stdpp Require Import gmap.

Open Scope Z_scope.

Definition turn_order (s : Z) : Z := if s =? 1 then 0 else if s =? 0 then 1 else s.
Definition below (s : Z) (M : gmap Z Meta) : gmap Z Meta := filter (λ p, turn_order p.1 < turn_order s) M.
Definition legal (rounds : Z) (M : gmap Z Meta) : Prop :=
  ∀ s m, M !! s = Some m → ∃ ph rd, Next (below s M) rounds = NextTurn ph s (mt_Kind m) (mt_Author m) rd.

Lemma order_cases s : (s = 1 ∧ turn_order s = 0) ∨ (s = 0 ∧ turn_order s = 1) ∨ (s ≠ 0 ∧ s ≠ 1 ∧ turn_order s = s).
Proof. unfold turn_order. destruct (s =? 1) eqn:E1, (s =? 0) eqn:E0; bprop; auto. Qed.
Lemma order_inj s t : 0 ≤ s → 0 ≤ t → turn_order s = turn_order t → s = t.
Proof. intros. destruct (order_cases s) as [[? ?]|[[? ?]|(? & ? & ?)]], (order_cases t) as [[? ?]|[[? ?]|(? & ? & ?)]]; lia. Qed.
Lemma lookup_below s M i : below s M !! i = if bool_decide (turn_order i < turn_order s) then M !! i else None.
Proof.
  unfold below. case_bool_decide as E.
  - destruct (M !! i) as [m|] eqn:Em; [by apply map_lookup_filter_Some|]. apply map_lookup_filter_None. by left.
  - apply map_lookup_filter_None. right. intros m _ ?. by cbn in *.
Qed.
Lemma below_insert s t m M : turn_order s ≤ turn_order t → below s (<[t := m]> M) = below s M.
Proof.
  intros Hle. apply map_eq. intros i. rewrite !lookup_below. case_bool_decide; [|done]. rewrite lookup_insert_ne; [done|]. intros ->. lia.
Qed.

(** ** The next turn depends on the slots before it *)

Lemma moves_agree e1 e2 rounds fuel s prev r : moves e1 rounds fuel s prev = Some r →
  match r with
  | Missing t => (∀ i, s ≤ i < t → e2 !! i = e1 !! i) → e2 !! t = None
  | Last t => ∀ i, s ≤ i ≤ t → e2 !! i = e1 !! i
  end → match r with Missing t => (∀ i, s ≤ i < t → e2 !! i = e1 !! i) | _ => True end → moves e2 rounds fuel s prev = Some r.
Proof.
  assert (∀ e f s p r, moves e rounds f s p = Some r → match r with Missing t | Last t => s ≤ t end) as Hge.
  { intros e f. induction f as [|f IH]; intros s' p r'; [done|]. cbn [moves]. destruct (e !! s'); [|intros [= <-]; lia].
    destruct (stops _ _ _ _); [intros [= <-]; lia|]. intros Hr%IH. destruct r'; lia. }
  revert s prev. induction fuel as [|fuel IH]; intros s prev; [done|]. cbn [moves]. destruct (e1 !! s) as [e|] eqn:E1.
  - destruct (stops rounds s prev e) eqn:Es.
    + intros [= <-] Ha _. rewrite (Ha s) by lia. by rewrite E1, Es.
    + intros Hm Ha Hb. pose proof (Hge _ _ _ _ _ Hm) as Hst.
      assert (e2 !! s = Some e) as ->.
      { rewrite <- E1. destruct r; [apply Hb; lia|apply Ha; lia]. }
      rewrite Es. apply IH; [done| |]; destruct r as [t|t]; try done.
      * intros _. apply Ha. intros i Hi. apply Hb. lia.
      * intros i Hi. apply Ha. lia.
      * intros i Hi. apply Hb. lia.
  - intros [= <-] Ha _. rewrite Ha; [done|]. intros; lia.
Qed.
Lemma moves_missing_agree e1 e2 rounds fuel prev t : moves e1 rounds fuel 2 prev = Some (Missing t) → (∀ i, 2 ≤ i < t → e2 !! i = e1 !! i) → e2 !! t = None →
  moves e2 rounds fuel 2 prev = Some (Missing t).
Proof. intros Hm Ha Hn. by apply (moves_agree e1). Qed.
Lemma moves_last_agree e1 e2 rounds fuel prev t : moves e1 rounds fuel 2 prev = Some (Last t) → (∀ i, 2 ≤ i ≤ t → e2 !! i = e1 !! i) →
  moves e2 rounds fuel 2 prev = Some (Last t).
Proof. intros Hm Ha. by apply (moves_agree e1). Qed.

Lemma Next_agree M M' rounds ph s k a rd : Next M rounds = NextTurn ph s k a rd → (∀ i, turn_order i < turn_order s → M' !! i = M !! i) → M' !! s = None →
  Next M' rounds = NextTurn ph s k a rd.
Proof.
  intros Hn Ha Hs. unfold Next in *. destruct (M !! 1) as [e1|] eqn:E1; [|injection Hn as <- <- <- <- <-; by rewrite Hs].
  destruct (M !! 0) as [e0|] eqn:E0; [|injection Hn as <- <- <- <- <-; rewrite (Ha 1) by done; by rewrite E1, Hs].
  assert (2 ≤ s → turn_order s = s ∧ M' !! 1 = Some e1 ∧ M' !! 0 = Some e0 ∧ ∀ i, 2 ≤ i < s → M' !! i = M !! i) as Hk.
  { intros H2. assert (∀ x, 2 ≤ x → turn_order x = x) as Ho by (intros x ?; destruct (order_cases x) as [[? ?]|[[? ?]|(? & ? & ?)]]; lia).
    rewrite <- E1, <- E0. split; [by apply Ho|]. split_and!; [apply Ha; rewrite (Ho s) by done; cbn; lia..|].
    intros i Hi. apply Ha. rewrite !Ho by lia. lia. }
  destruct (moves_total M rounds) as ([t|t] & Hm & Hr); rewrite Hm in Hn.
  - injection Hn as <- <- <- <- <-. destruct Hk as (_ & -> & -> & Hi); [lia|].
    by rewrite (moves_missing_agree M M' _ _ _ t).
  - unfold after_last in Hn. destruct Hr as [Ht _]. destruct (M !! (t + 1)) as [ep|] eqn:Ep.
    + destruct (M !! (t + 1 + 1)) eqn:Ea; [done|]. injection Hn as <- <- <- <- <-. destruct Hk as (_ & -> & -> & Hi); [lia|].
      rewrite (moves_last_agree M M' _ _ _ t) by (done || intros; apply Hi; lia). unfold after_last. rewrite (Hi (t + 1)) by lia. by rewrite Ep, Hs.
    + injection Hn as <- <- <- <- <-. destruct Hk as (_ & -> & -> & Hi); [lia|].
      rewrite (moves_last_agree M M' _ _ _ t) by (done || intros; apply Hi; lia). unfold after_last. by rewrite Hs.
Qed.
Lemma Next_below M rounds ph s k a rd : Next M rounds = NextTurn ph s k a rd → Next (below s M) rounds = NextTurn ph s k a rd.
Proof.
  intros Hn. apply (Next_agree M); [done| |].
  - intros i Hi. rewrite lookup_below. by rewrite bool_decide_eq_true_2.
  - rewrite lookup_below. rewrite bool_decide_eq_false_2; [done|lia].
Qed.

(** ** Playing the next turn is legal *)

Lemma next_slot M rounds ph s k a rd : Next M rounds = NextTurn ph s k a rd → 0 ≤ s.
Proof.
  intros Hn. pose proof (Next_spec M rounds) as [Hs _]. rewrite Hn in Hs. cbn in Hs. unfold last_slot in Hs.
  destruct Hs as [(_ & _ & _ & [[-> _]|[-> _]])|[(_ & _ & _ & _ & ?)|(_ & _ & [(_ & _ & ?)|(_ & _ & ?)])]]; lia.
Qed.
(** Every slot before a filled one is filled. *)
Lemma next_before M rounds ph s k a rd i : Next M rounds = NextTurn ph s k a rd → 0 ≤ i → turn_order i < turn_order s → is_Some (M !! i).
Proof.
  intros Hn Hi Hlt. pose proof (next_slot _ _ _ _ _ _ _ Hn) as Hs. pose proof (Next_spec M rounds) as [_ Hf]. rewrite Hn in Hf.
  destruct Hf as (_ & F1 & F2). destruct (order_cases i) as [[-> Oi]|[[-> Oi]|(? & ? & Oi)]], (order_cases s) as [[-> Os]|[[-> Os]|(? & ? & Os)]];
    rewrite ?Oi, ?Os in Hlt; try lia; try (apply F1; lia); apply F2; lia.
Qed.
Lemma legal_before rounds M s m i : legal rounds M → M !! s = Some m → 0 ≤ i → turn_order i < turn_order s → is_Some (M !! i).
Proof.
  intros Hl Hm Hi Hlt. destruct (Hl s m Hm) as (ph & rd & Hn). apply (next_before _ _ _ _ _ _ _ i) in Hn as [x Hx]; [|done..].
  rewrite lookup_below in Hx. case_bool_decide; [by exists x|done].
Qed.
Lemma legal_slot rounds M s m : legal rounds M → M !! s = Some m → 0 ≤ s.
Proof. intros Hl Hm. destruct (Hl s m Hm) as (ph & rd & Hn). by apply next_slot in Hn. Qed.

Lemma legal_empty rounds : legal rounds ∅.
Proof. intros s m. by rewrite lookup_empty. Qed.
Lemma legal_insert rounds M ph s k a rd m : legal rounds M → Next M rounds = NextTurn ph s k a rd → mt_Kind m = k → mt_Author m = a →
  legal rounds (<[s := m]> M).
Proof.
  intros Hl Hn <- <- t m' Ht. destruct (decide (t = s)) as [->|Hne].
  - rewrite lookup_insert_eq in Ht. injection Ht as <-. rewrite below_insert by lia. exists ph, rd. by apply Next_below.
  - rewrite lookup_insert_ne in Ht by done. rewrite below_insert; [by apply Hl|].
    destruct (Z.le_gt_cases (turn_order t) (turn_order s)) as [|Hgt]; [done|]. exfalso.
    pose proof (next_slot _ _ _ _ _ _ _ Hn) as Hs. destruct (legal_before rounds M t m' s Hl Ht Hs) as [x Hx]; [lia|].
    pose proof (Next_spec M rounds) as [_ Hf]. rewrite Hn in Hf. destruct Hf as [Hf _]. congruence.
Qed.

(** ** What a legal transcript has in its slots *)

Lemma legal_shape rounds M s m : legal rounds M → M !! s = Some m → ∃ ph rd, turn_shape rounds (NextTurn ph s (mt_Kind m) (mt_Author m) rd).
Proof.
  intros Hl Hm. destruct (Hl s m Hm) as (ph & rd & Hn). exists ph, rd. pose proof (Next_spec (below s M) rounds) as [Hs _]. by rewrite Hn in Hs.
Qed.
Lemma legal_position rounds M s m : legal rounds M → M !! s = Some m → s ≤ 1 → mt_Kind m = KindPosition ∧
  mt_Author m = if s =? 0 then RoleInitiator else RoleRespondent.
Proof.
  intros Hl Hm Hs. destruct (legal_shape _ _ _ _ Hl Hm) as (ph & rd & Ht). cbn in Ht. unfold last_slot in Ht.
  destruct Ht as [(_ & -> & _ & [[-> ->]|[-> ->]])|[(_ & _ & _ & _ & ?)|(_ & _ & [(_ & _ & ?)|(_ & _ & ?)])]]; done || lia.
Qed.
Lemma legal_move rounds M s m : legal rounds M → M !! s = Some m → mt_Kind m = KindMove → mt_Author m = moveAuthor s ∧ 2 ≤ s ≤ last_slot rounds.
Proof.
  intros Hl Hm Hk. destruct (legal_shape _ _ _ _ Hl Hm) as (ph & rd & Ht). cbn in Ht. rewrite Hk in Ht.
  destruct Ht as [(_ & ? & _)|[(_ & _ & _ & ? & ?)|(_ & _ & [(? & _)|(? & _)])]]; done.
Qed.
(** An answer follows its proposal. *)
Lemma legal_answer rounds M s m : legal rounds M → M !! s = Some m → mt_Kind m = KindAnswer → ∃ p, M !! (s - 1) = Some p ∧ mt_Kind p = KindProposal.
Proof.
  intros Hl Hm Hk. destruct (Hl s m Hm) as (ph & rd & Hn). rewrite Hk in Hn. unfold Next in Hn.
  destruct (below s M !! 1) as [e1|] eqn:E1; [|done]. destruct (below s M !! 0) as [e0|] eqn:E0; [|done].
  destruct (moves_total (below s M) rounds) as ([t|t] & Em & Hr); rewrite Em in Hn; [done|]. unfold after_last in Hn. destruct Hr as [Ht _].
  destruct (below s M !! (t + 1)) as [p|] eqn:Ep; [|done]. destruct (below s M !! (t + 1 + 1)); [done|]. injection Hn as <- <- _ _.
  assert (∀ x, 2 ≤ x → turn_order x = x) as Ho by (intros x ?; destruct (order_cases x) as [[? ?]|[[? ?]|(? & ? & ?)]]; lia).
  rewrite lookup_below in Ep. rewrite bool_decide_eq_true_2 in Ep by (rewrite !Ho by lia; lia).
  exists p. replace (t + 1 + 1 - 1) with (t + 1) by lia. split; [done|].
  destruct (Hl _ _ Ep) as (ph' & rd' & Hp).
  assert (∀ i, 0 ≤ i ≤ t → below (t + 1) M !! i = below (t + 1 + 1) M !! i) as Hagree.
  { intros i Hi. rewrite !lookup_below, !(Ho (t + 1)), (Ho (t + 1 + 1)) by lia.
    assert (turn_order i < t + 1) by (destruct (order_cases i) as [[? ?]|[[? ?]|(? & ? & ?)]]; lia).
    by rewrite !bool_decide_eq_true_2 by lia. }
  unfold Next in Hp. rewrite !Hagree, E1, E0 in Hp by lia.
  rewrite (moves_last_agree (below (t + 1 + 1) M) _ _ _ _ t) in Hp by (done || intros; apply Hagree; lia).
  unfold after_last in Hp. rewrite lookup_below in Hp. rewrite bool_decide_eq_false_2 in Hp by lia. by injection Hp as _ <- _ _.
Qed.
