(* ===== verification/DebateInvariant.v ===== *)
(** * What holds in every state of the debate store

    The invariant of the steps of DebateSteps.v: the rows of the debates, the
    entries (a legal transcript whose opening matches the commitment), the
    constraints, the Decisions with their signatures, and the mail. *)

From S2P Require Import Prelude Utf8 Canonical Strconv WireTime Body RequestObject Tables.
From S2P Require Import Experience Requests WorkSession TxLemmas DebateEntry DebateTurns DebateLegal Signing DecisionRecord.
From S2P Require Import DecisionProofs DebateTables Debate DebateMail DebateSteps DebateSpec.
From stdpp Require Import gmap.

Open Scope Z_scope.

Section Invariant.
Context {X : Type} `{Env X} `{HasDebates X} `{Crypto} `{DebateEnv X}.

(** ** The rows of debates *)

Record row_inv (r : debate) : Prop := {
  ri_session : d_session r = DeriveID (keys r).1 (keys r).2 (d_requestID r);
  ri_rounds : 1 ≤ d_roundsMax r ≤ 5;
  ri_nonce : d_role r = RoleInitiator ↔ is_Some (d_nonce r);
  ri_keys : valid_utf8 (keys r).1 = true ∧ valid_utf8 (keys r).2 = true;
  ri_outcome : is_Some (d_outcome r) ↔ d_phase r = PhaseClosed;
  ri_reason : d_phase r = PhaseClosed → is_Some (d_reason r);
  ri_closing : d_phase r = PhaseClosing → d_role r = RoleInitiator;
  ri_broken : d_phase r = PhaseBroken → d_role r = RoleRespondent;
}.
Lemma keys_same r r' : same_debate r r' → keys r' = keys r.
Proof. intros (_ & Er & Ep & _). unfold keys. by rewrite Er, Ep. Qed.
Lemma new_row_inv r : new_row r → row_inv r.
Proof.
  intros (Es & Ep & Eo & _ & _ & _ & Hr & Hn & V1 & V2). constructor; rewrite ?Ep, ?Eo; done.
Qed.
Lemma row_step_inv t r r' : row_step t r r' → row_inv r → row_inv r'.
Proof.
  intros [Hs Hc _ _] [I1 I2 I3 I4 I5 I6 I7 I8]. pose proof (keys_same _ _ Hs) as Hk.
  destruct Hs as (E1 & E2 & E3 & E4 & E5 & _ & _ & E8 & _).
  assert ((is_Some (d_outcome r') ↔ d_phase r' = PhaseClosed) ∧ (d_phase r' = PhaseClosed → is_Some (d_reason r')) ∧
    (d_phase r' = PhaseClosing → d_role r = RoleInitiator) ∧ (d_phase r' = PhaseBroken → d_role r = RoleRespondent)) as (J5 & J6 & J7 & J8).
  { destruct Hc as [r' [Ep _ _ Eo Er]|now r' Hp [Ep _ _ Eo Er]|tr now r' Hp _ [Ep _ _ Eo Er]|r' Hp [Ep _ _ Eo Er]|reason r' Hr Hp _ [Ep _ _ Eo Er]
      |reason r' Hr Hp [Ep _ _ Eo Er]|n x o reason r' Hr Hp _ _ _ _ _ [Ep _ _ Eo Er]|tr b m r' Hr Hp _ _ _ _ [Ep _ _ Eo Er]|tr now r' Hr Hp _ _ [Ep _ _ Eo Er]
      |r' Hr Hp [Ep _ _ Eo Er]]; rewrite Ep, Eo, Er; try (split_and!; done);
      (assert (¬ is_Some (d_outcome r)) as Hno by (rewrite I5; intros E; rewrite E in Hp; done)); try (split_and!; done).
    pose proof (turn_phase_open r tr) as Ho. split_and!; [|intros E; by rewrite E in Ho..]. split; [done|]. intros E. by rewrite E in Ho. }
  constructor; rewrite ?Hk, ?E1, ?E2, ?E4, ?E5, ?E8; done.
Qed.

(** A debate after a step was there before, or is new. *)
Lemma dstep_debates s s' r' : dwf s → dstep s s' → r' ∈ debates s'.1 →
  (∃ r, r ∈ debates s.1 ∧ (r' = r ∨ row_step s.1 r r')) ∨ (new_row r' ∧ d_session r' ∉ map d_session (debates s.1) ∧ entries s'.1 = entries s.1).
Proof.
  intros Hwf Hs Hr. destruct Hs as [t o r Hnew Hrow|t o r f Hr1 Hst| | | | | | | | |]; cbn [fst debates entries] in *; try (left; exists r'; auto; fail).
  - apply elem_of_app in Hr as [Hr|Hr%list_elem_of_singleton]; [left; exists r'; auto|subst r'; by right].
  - left. destruct (update_key _ _ f _ r (wf_debates _ Hwf) Hr1 (is_debate_key r) (proj1 (rs_same _ _ _ Hst))) as [_ Hin].
    apply Hin in Hr as [->|[Hr _]]; [exists r|exists r']; auto.
Qed.
Lemma row_same t r r' : r' = r ∨ row_step t r r' → same_debate r r'.
Proof. intros [->|Hs]; [done|]. apply Hs. Qed.

(** ** The entries *)

Record entry_inv (t : debate_tables) (e : entry_row) : Prop := {
  ei_slot : 0 ≤ e_slot e ≤ MaxSlot;
  ei_debate : ∃ r, r ∈ debates t ∧ d_session r = e_session e ∧
    (e_slot e = 0 → e_author e = RoleInitiator ∧ e_kind e = KindPosition ∧
      ∃ nonce, opens r nonce (e_canon e) ∧ (d_role r = RoleInitiator → d_nonce r = Some nonce)) ∧
    (e_state e = EntrySent → d_role r = RoleRespondent) ∧ (e_state e = EntryCommitted → d_role r = RoleInitiator ∧ e_slot e = 0);
}.
Lemma opens_debate r r' nonce canon : same_debate r r' → opens r nonce canon → opens r' nonce canon.
Proof. intros Hs. unfold opens. rewrite (keys_same _ _ Hs). by destruct Hs as (-> & _ & _ & _ & _ & _ & -> & _). Qed.
Lemma dstep_entries s s' e' : dwf s → dstep s s' → e' ∈ entries s'.1 → e' ∈ entries s.1 ∨
  (∃ r, r ∈ debates s.1 ∧ e_session e' = d_session r ∧ 0 ≤ e_slot e' ≤ MaxSlot ∧ entry_new s.1 r e') ∨
  (∃ r e, r ∈ debates s.1 ∧ e ∈ entries s.1 ∧ e_session e = d_session r ∧ entry_step s.1 r e e').
Proof.
  intros Hwf Hs He. destruct Hs as [| |t o r e x Hr Hse Hfr Hrg Hx Hn|t o r e f Hr Hin0 Ese Hst|t o sid slot| | | | | |]; cbn [fst entries] in *; auto.
  - apply elem_of_app in He as [He|He%list_elem_of_singleton]; [by left|]. subst e'. right. left. by exists r.
  - pose proof (entry_step_fields _ _ _ _ Hst) as (E1 & E2 & _).
    destruct (update_key _ _ f _ e (wf_entries _ Hwf) Hin0 (is_entry_key e)) as [_ Hin]; [congruence|].
    apply Hin in He as [->|[He _]]; [|by left]. right. right. by exists r, e.
  - apply list_elem_of_In, filter_In in He as [He _]. left. by apply list_elem_of_In.
Qed.
Lemma entry_new_inv t r e : entry_new t r e → r ∈ debates t → e_session e = d_session r → 0 ≤ e_slot e ≤ MaxSlot → entry_inv t e.
Proof.
  intros Hn Hr Es Hsl. constructor; [done|]. exists r.
  destruct Hn as [nonce Hrl _ E0 Ea Ek Est Hnc Ho|tr nonce Hrl _ E0 Ea Ek Est _ _ _ Ho|tr x ph rd _ Hne _ _ _ _ Est|Hrl _ Hge _ Est]; rewrite ?Est; split_and!; try done.
  - intros _. split_and!; [done..|]. by exists nonce.
  - intros _. split_and!; [done..|]. exists nonce. split; [done|congruence].
  - by case_bool_decide as Hb; [destruct Hb|].
  - by case_bool_decide.
  - lia.
Qed.
Lemma dstep_entry_inv s s' : dwf s → dstep s s' → (∀ e, e ∈ entries s.1 → entry_inv s.1 e) → ∀ e, e ∈ entries s'.1 → entry_inv s'.1 e.
Proof.
  intros Hwf Hs Hi e He. assert (∀ e, entry_inv s.1 e → entry_inv s'.1 e) as Hkeep.
  { intros y [Hsl (r & Hr & Es & Hz0 & Hz1 & Hz2)]. destruct (dstep_debate _ _ _ Hwf Hs Hr) as (r' & Hr' & Hsame).
    constructor; [done|]. exists r'. pose proof Hsame as (E1 & E2 & _ & _ & _ & _ & _ & E8 & _). split_and!; [done|congruence| | |].
    - intros Hz. destruct (Hz0 Hz) as (? & ? & nonce & Ho & Hn). split_and!; [done..|]. exists nonce. split; [by apply (opens_debate r)|]. rewrite E2, E8. done.
    - by rewrite E2.
    - by rewrite E2. }
  apply Hkeep. destruct (dstep_entries _ _ _ Hwf Hs He) as [Hin|[(r & Hr & Es & Hsl & Hn)|(r & e0 & Hr & Hin & Es & Hst)]].
  - by apply Hi.
  - by apply (entry_new_inv _ r).
  - destruct (Hi _ Hin) as [Hsl (r1 & Hr1 & Es1 & Hz0 & _ & _)]. pose proof (entry_step_fields _ _ _ _ Hst) as (E1 & E2 & E3 & E4 & E5 & E6 & _).
    constructor; [by rewrite E2|]. exists r1. rewrite E1, E2, E3, E4, E5, E6. done.
Qed.

(** ** The transcript is legal *)

Definition legal_in (t : debate_tables) (r : debate) : Prop :=
  ∃ tr, transcript_in t (d_session r) tr ∧ legal (d_roundsMax r) (metas (turnStates (d_role r)) tr).

Lemma lookup_metas states tr s : metas states tr !! s = v ← tr !! s; if hasState v states then Some (meta_of v) else None.
Proof. unfold metas. by rewrite lookup_omap. Qed.
Lemma metas_insert states tr s v : hasState v states = true → metas states (<[s := v]> tr) = <[s := meta_of v]> (metas states tr).
Proof. intros Hv. unfold metas. rewrite omap_insert. by rewrite Hv. Qed.
Lemma metas_insert_none states tr s v : hasState v states = false → metas states tr !! s = None → metas states (<[s := v]> tr) = metas states tr.
Proof. intros Hv Hn. unfold metas in *. rewrite omap_insert, Hv. by rewrite delete_id. Qed.

Lemma legal_in_same t t' r r' : rows_in (d_session r) t' = rows_in (d_session r) t → same_debate r r' → legal_in t r → legal_in t' r'.
Proof.
  intros Er (Es & Erl & _ & _ & Ero & _) (tr & Ht & Hl). exists tr. rewrite Es, Erl, Ero. split; [|done]. unfold transcript_in in *. by rewrite Er.
Qed.
Lemma rows_in_other_snoc t' t sid e : entries t' = entries t ++ [e] → e_session e ≠ sid → rows_in sid t' = rows_in sid t.
Proof. intros E Hne. unfold rows_in. rewrite E, List.filter_app. cbn. rewrite bool_decide_eq_false_2 by done. by rewrite app_nil_r. Qed.
Lemma rows_in_other_update t' t sid sid' slot f : entries t' = update_where (is_entry sid' slot) f (entries t) → sid' ≠ sid → (∀ e, e_session (f e) = e_session e) →
  rows_in sid t' = rows_in sid t.
Proof.
  intros E Hne Hf. unfold rows_in. rewrite E. clear E. induction (entries t) as [|e l IH]; [done|]. unfold update_where in *. cbn [map List.filter].
  rewrite IH. unfold is_entry. destruct (bool_decide (e_session e = sid')) eqn:Eb; cbn [andb]; [|done].
  apply bool_decide_eq_true in Eb. destruct (e_slot e =? slot); [rewrite Hf|]; rewrite Eb; by rewrite bool_decide_eq_false_2.
Qed.
Lemma transcript_parse t o sid tr e : dwf (t, o) → transcript_in t sid tr → e ∈ entries t → e_session e = sid →
  ∃ x, ParseEntry (e_kind e) (e_canon e) = Ok x ∧ tr !! e_slot e = Some (stored_of e x).
Proof.
  intros Hw Ht He Es. pose proof (rows_in_slots _ _ sid Hw) as Hd. unfold transcript_in in Ht.
  assert (e ∈ rows_in sid t) as Hin by (apply list_elem_of_In, filter_In; split; [by apply list_elem_of_In|by apply bool_decide_eq_true]).
  clear He Es. revert Ht Hd Hin. generalize (∅ : transcript) as m. induction (rows_in sid t) as [|y l IH]; intros m; [by intros _ _ ?%elem_of_nil|].
  cbn [parse_rows map]. destruct (ParseEntry (e_kind y) (e_canon y)) as [x|] eqn:Ex; [|done]. intros Ht [Hn Hd]%NoDup_cons Hin.
  apply elem_of_cons in Hin as [->|Hin]; [|by apply (IH _ Ht)]. exists x. split; [done|].
  pose proof (parse_rows_insert l _ tr (e_slot y) (stored_of y x) Ht Hn) as Hp. rewrite insert_insert_eq in Hp. unfold stored_of in Hp at 1.
  rewrite Ht in Hp. injection Hp as Hp. by rewrite Hp, lookup_insert_eq.
Qed.

Lemma transcript_unique t sid tr tr' : transcript_in t sid tr → transcript_in t sid tr' → tr = tr'.
Proof. unfold transcript_in. congruence. Qed.
Lemma transcript_fresh t o sid tr s : dwf (t, o) → transcript_in t sid tr → (sid, s) ∉ map (λ e, (e_session e, e_slot e)) (entries t) → tr !! s = None.
Proof.
  intros Hw Ht Hn. destruct (tr !! s) as [v|] eqn:E; [|done]. destruct (transcript_row _ _ _ _ _ _ Hw Ht E) as (e & x & He & Es & Esl & _).
  destruct Hn. apply elem_of_map_list. exists e. by rewrite Es, Esl.
Qed.
(** Playing an entry that counts, or storing one that does not. *)
Lemma legal_play r tr s v ph rd : legal (d_roundsMax r) (metas (turnStates (d_role r)) tr) → hasState v (turnStates (d_role r)) = true →
  turn_of r tr = NextTurn ph s (st_kind v) (st_author v) rd → legal (d_roundsMax r) (metas (turnStates (d_role r)) (<[s := v]> tr)).
Proof. intros Hl Hv Hn. rewrite metas_insert by done. by apply (legal_insert _ _ ph s (st_kind v) (st_author v) rd). Qed.
Lemma legal_aside r tr s v : legal (d_roundsMax r) (metas (turnStates (d_role r)) tr) → hasState v (turnStates (d_role r)) = false → tr !! s = None →
  legal (d_roundsMax r) (metas (turnStates (d_role r)) (<[s := v]> tr)).
Proof. intros Hl Hv Hn. rewrite metas_insert_none; [done..|]. by rewrite lookup_metas, Hn. Qed.

Lemma has_applied v rl : st_state v = EntryApplied → hasState v (turnStates rl) = true.
Proof. intros E. unfold hasState. rewrite E. by destruct rl. Qed.
Lemma has_none v rl : st_state v ∉ turnStates rl → hasState v (turnStates rl) = false.
Proof. intros E. by apply bool_decide_eq_false. Qed.

Lemma legal_new t o r e x : dwf (t, o) → legal_in t r → e_session e = d_session r → (e_session e, e_slot e) ∉ map (λ e, (e_session e, e_slot e)) (entries t) →
  ParseEntry (e_kind e) (e_canon e) = Ok x → entry_new t r e →
  legal_in (DebateTables (debates t) (entries t ++ [e]) (constraints t) (decisions t)) r.
Proof.
  intros Hw (tr & Ht & Hl) Es Hfr Hx Hn. rewrite Es in Hfr. pose proof (transcript_fresh _ _ _ _ _ Hw Ht Hfr) as Hnone.
  exists (<[e_slot e := stored_of e x]> tr). split; [by apply (transcript_snoc t)|].
  destruct Hn as [nonce Hrl _ E0 _ _ Est _ _|tr' nonce Hrl _ E0 Ea Ek Est Ht' Htn _ _|tr' y ph rd _ _ Ht' Htn _ _ Est|Hrl _ Hge _ Est].
  - apply legal_aside; [done| |done]. apply has_none. cbn. rewrite Est, Hrl. cbn. set_solver.
  - pose proof (transcript_unique _ _ _ _ Ht Ht') as <-. unfold turn_of in Htn.
    destruct (Next_spec (metas (turnStates (d_role r)) tr) (d_roundsMax r)) as [Hsh _]. fold (turn_of r tr) in *.
    destruct (turn_of r tr) as [ph s k a rd|s] eqn:En; cbn in Htn; subst s; cbn in Hsh; unfold last_slot in Hsh; [|lia].
    apply (legal_play _ _ _ _ ph rd); [done|by apply has_applied|]. cbn. rewrite En, E0, Ek, Ea.
    destruct Hsh as [(-> & -> & _ & [[? ?]|[_ ->]])|[(_ & _ & _ & _ & ?)|(_ & _ & [(_ & _ & ?)|(_ & _ & ?)])]]; done || lia.
  - pose proof (transcript_unique _ _ _ _ Ht Ht') as <-. apply (legal_play _ _ _ _ ph rd); [done| |done].
    unfold hasState. cbn. rewrite Est. case_bool_decide as Hb; [destruct Hb as [-> _]|]; [done|]. by destruct (d_role r).
  - apply legal_aside; [done| |done]. apply has_none. cbn. rewrite Est, Hrl. cbn. set_solver.
Qed.

Lemma update_entry_at t o e f : dwf (t, o) → e ∈ entries t →
  e_session (f e) = e_session e ∧ e_slot (f e) = e_slot e ∧ e_author (f e) = e_author e ∧ e_kind (f e) = e_kind e ∧ e_canon (f e) = e_canon e →
  update_where (is_entry (e_session e) (e_slot e)) f (entries t) =
  update_where (is_entry (e_session e) (e_slot e)) (λ y, eset_at (e_at (f e)) (eset_state (e_state (f e)) y)) (entries t).
Proof.
  intros Hw He Hf. unfold update_where. apply map_ext_in. intros y Hy%list_elem_of_In. destruct (is_entry _ _ y) eqn:E; [|done].
  apply is_entry_key in E. assert (y = e) as -> by (by apply (map_key_inj (λ e, (e_session e, e_slot e)) (entries t)); [apply (wf_entries _ Hw)|..]).
  destruct (f e), e; unfold eset_at, eset_state; cbn in *. by destruct Hf as (-> & -> & -> & -> & ->).
Qed.
Lemma legal_step t o r e f : dwf (t, o) → (∀ e, e ∈ entries t → entry_inv t e) → r ∈ debates t → legal_in t r → e ∈ entries t → e_session e = d_session r → entry_step t r e (f e) →
  legal_in (DebateTables (debates t) (update_where (is_entry (e_session e) (e_slot e)) f (entries t)) (constraints t) (decisions t)) r.
Proof.
  intros Hw Hinv Hr (tr & Ht & Hl) He Es Hst. pose proof (entry_step_fields _ _ _ _ Hst) as (E1 & E2 & E3 & E4 & E5 & E6 & Hno).
  destruct (transcript_parse _ _ _ _ _ Hw Ht He Es) as (x & Hx & Hlk).
  assert (metas (turnStates (d_role r)) tr !! e_slot e = None) as Hnone.
  { rewrite lookup_metas, Hlk. cbn. rewrite has_none; [done|]. cbn. intros Hin. apply Hno. destruct (d_role r); set_solver. }
  rewrite (update_entry_at t o) by done. set (g := λ y, eset_at _ _).
  exists (<[e_slot e := stored_of (g e) x]> tr). split; [apply (transcript_update t o _ _ tr _ g e x); try done; by rewrite Es|].
  assert (st_state (stored_of (g e) x) = EntryApplied) as Hap by (unfold g; cbn; by rewrite E6).
  destruct Hst as [at_ Hrl Ec Esl Hp|tr' y ph rd Hrl _ _ _ Ht' Htn _ _].
  - destruct Hp as (p & Hpin & Hps & Hpsl & Hpst & Hpa & Hpk).
    destruct (transcript_parse _ _ _ _ _ Hw Ht Hpin Hps) as (xp & _ & Hlp).
    assert (metas (turnStates (d_role r)) tr !! 1 = Some (meta_of (stored_of p xp))) as H1m.
    { rewrite <- Hpsl, lookup_metas, Hlp. cbn. by rewrite has_applied. }
    rewrite Esl in *. destruct (Hinv e He) as [_ (r1 & _ & _ & Hz & _)]. destruct (Hz Esl) as (Ea & Ek & _).
    apply (legal_play _ _ _ _ PhasePositions 0); [done|by apply has_applied|]. unfold turn_of, Next. rewrite H1m, Hnone. cbn. by rewrite Ea, Ek.
  - pose proof (transcript_unique _ _ _ _ Ht Ht') as <-. apply (legal_play _ _ _ _ ph rd); [done|by apply has_applied|]. cbn. done.
Qed.

Lemma rows_in_drop t sid sid' slot : sid' ≠ sid →
  List.filter (λ e, bool_decide (e_session e = sid)) (List.filter (λ e, negb (is_entry sid' slot e && bool_decide (e_state e = EntryEarly))) (entries t)) = rows_in sid t.
Proof.
  intros Hne. rewrite filter_comm. fold (rows_in sid t). apply filter_keeps_all. intros e [_ Es%bool_decide_eq_true]%list_elem_of_In%filter_In.
  unfold is_entry. rewrite bool_decide_eq_false_2; [done|congruence].
Qed.
Lemma legal_drop t o r sid slot : dwf (t, o) → legal_in t r →
  legal_in (DebateTables (debates t) (List.filter (λ e, negb (is_entry sid slot e && bool_decide (e_state e = EntryEarly))) (entries t)) (constraints t) (decisions t)) r.
Proof.
  intros Hw (tr & Ht & Hl). destruct (decide (sid = d_session r)) as [->|Hne].
  2: { exists tr. split; [|done]. unfold transcript_in, rows_in. cbn [entries]. by rewrite rows_in_drop. }
  destruct (tr !! slot) as [v|] eqn:Ev.
  - destruct (decide (st_state v = EntryEarly)) as [Est|Hst].
    + exists (base.delete slot tr). split; [by apply (transcript_delete t o _ _ _ _ v)|]. rewrite (metas_delete _ _ _ v); [done..|].
      apply has_none. rewrite Est. destruct (d_role r); cbn; set_solver.
    + exists tr. split; [|done]. unfold transcript_in, rows_in. cbn [entries]. rewrite (filter_keeps_all _ (entries t)); [done|]. intros e He.
      destruct (is_entry (d_session r) slot e) eqn:E; [|done]. unfold is_entry in E. apply andb_true_iff in E as [Es%bool_decide_eq_true Esl%Z.eqb_eq].
      destruct (transcript_parse _ _ _ _ _ Hw Ht He Es) as (x & _ & Hlk). rewrite Esl, Ev in Hlk. injection Hlk as ->. cbn in Hst. by rewrite bool_decide_eq_false_2.
  - exists tr. split; [|done]. unfold transcript_in, rows_in. cbn [entries]. rewrite (filter_keeps_all _ (entries t)); [done|]. intros e He.
    destruct (is_entry (d_session r) slot e) eqn:E; [|done]. unfold is_entry in E. apply andb_true_iff in E as [Es%bool_decide_eq_true Esl%Z.eqb_eq].
    destruct (transcript_parse _ _ _ _ _ Hw Ht He Es) as (x & _ & Hlk). by rewrite Esl, Ev in Hlk.
Qed.

Lemma legal_kept s s' r : dwf s → dstep s s' → (∀ e, e ∈ entries s.1 → entry_inv s.1 e) → r ∈ debates s.1 → legal_in s.1 r → legal_in s'.1 r.
Proof.
  intros Hwf Hs Hinv Hr Hl. assert (∀ r1, r1 ∈ debates s.1 → d_session r1 = d_session r → r1 = r) as Huniq.
  { intros r1 Hr1 E. by apply (map_key_inj d_session (debates s.1)); [apply (wf_debates _ Hwf)|..]. }
  destruct Hs as [| |t o r1 e x Hr1 Hse Hfr Hrg Hx Hn|t o r1 e f Hr1 Hin Ese Hst|t o sid slot| | | | | |]; cbn [fst] in *; try (by apply (legal_in_same t _ r)).
  - destruct (decide (e_session e = d_session r)) as [E|Hne].
    + assert (r1 = r) as -> by (apply Huniq; [done|congruence]). by apply (legal_new t o r e x).
    + apply (legal_in_same t _ r); [by apply (rows_in_other_snoc _ _ _ e)|done..].
  - destruct (decide (e_session e = d_session r)) as [E|Hne].
    + assert (r1 = r) as -> by (apply Huniq; [done|congruence]). by apply (legal_step t o r e f).
    + apply (legal_in_same t _ r); [|done..]. pose proof (entry_step_fields _ _ _ _ Hst) as (E1 & E2 & E3 & E4 & E5 & _).
      apply (rows_in_other_update _ _ _ (e_session e) (e_slot e) (λ y, eset_at (e_at (f e)) (eset_state (e_state (f e)) y))); [|congruence|done].
      cbn [entries]. by apply (update_entry_at t o).
  - by apply (legal_drop t o).
Qed.
Lemma dstep_legal s s' : dwf s → dstep s s' → (∀ e, e ∈ entries s.1 → entry_inv s.1 e) → (∀ r, r ∈ debates s.1 → legal_in s.1 r) →
  ∀ r, r ∈ debates s'.1 → legal_in s'.1 r.
Proof.
  intros Hwf Hs Hinv Hl r' Hr'. destruct (dstep_debates _ _ _ Hwf Hs Hr') as [(r & Hr & Hrow)|(Hn & Hfr & Ee)].
  - apply (legal_in_same s'.1 _ r); [done|by apply (row_same s.1)|]. by apply (legal_kept s s'); [..|apply Hl].
  - exists ∅. assert (rows_in (d_session r') s'.1 = []) as E0.
    { unfold rows_in. rewrite Ee. destruct (List.filter _ (entries s.1)) as [|e l] eqn:E; [done|]. exfalso.
      assert (e ∈ e :: l) as He by (by left). rewrite <- E in He. apply list_elem_of_In, filter_In in He as [He%list_elem_of_In Es%bool_decide_eq_true].
      destruct (Hinv e He) as [_ (r1 & Hr1 & Es1 & _)]. destruct Hfr. apply elem_of_map_list. exists r1. split; [congruence|done]. }
    unfold transcript_in. rewrite E0. split; [done|]. intros s0 m. by rewrite lookup_metas, lookup_empty.
Qed.

(** ** The constraints *)

Record constraint_inv (t : debate_tables) (k : constraint_row) : Prop := {
  ki_id : hex_id 0x63 (k_id k) = true;
  ki_text : valid_utf8 (k_text k) = true;
  ki_at : is_Some (decodeTime (Some (VString (k_at k))));
  ki_debate : ∃ r, r ∈ debates t ∧ d_session r = k_session k;
}.
Lemma dstep_constraints s s' : dwf s → dstep s s' → (∀ k, k ∈ constraints s.1 → constraint_inv s.1 k) → ∀ k, k ∈ constraints s'.1 → constraint_inv s'.1 k.
Proof.
  intros Hwf Hs Hi k Hk. assert (∀ k, constraint_inv s.1 k → constraint_inv s'.1 k) as Hkeep.
  { intros y [? ? ? (r & Hr & E)]. destruct (dstep_debate _ _ _ Hwf Hs Hr) as (r' & Hr' & Hsame). constructor; [done..|]. exists r'. split; [done|].
    rewrite <- E. by destruct Hsame as (-> & _). }
  destruct Hs as [| | | | |t o r k0 Hr Es Hfr Hph Hid Htx Hat Hmax|t o r listed Hr Hrl Hop| | | |]; cbn [fst constraints] in *; try (by apply Hkeep, Hi).
  - apply elem_of_app in Hk as [Hk|Hk%list_elem_of_singleton]; [by apply Hkeep, Hi|]. subst k. constructor; [done..|]. by exists r.
  - apply elem_of_map_list in Hk as (k0 & -> & Hk). destruct (Hkeep _ (Hi _ Hk)) as [? ? ? ?]. by destruct (_ && _).
Qed.

(** On the initiator at most ten are active. *)
Lemma active_app sid t t' k : constraints t' = constraints t ++ [k] →
  active_constraints sid t' = (active_constraints sid t + if in_state sid (Some ConstraintActive) k then 1 else 0)%nat.
Proof. intros E. unfold active_constraints. rewrite E, List.filter_app, length_app. cbn. by destruct (in_state _ _ k). Qed.
Lemma active_late sid t (p : constraint_row → bool) :
  (length (List.filter (in_state sid (Some ConstraintActive)) (update_where p (kset_state ConstraintLate) (constraints t))) ≤ active_constraints sid t)%nat.
Proof.
  unfold active_constraints. induction (constraints t) as [|k l IH]; [done|]. unfold update_where in *. cbn [map List.filter].
  destruct (p k).
  - unfold in_state at 1. cbn. rewrite andb_false_r. destruct (in_state _ _ k); cbn; lia.
  - destruct (in_state _ _ k); cbn; lia.
Qed.
Definition active_bound (t : debate_tables) : Prop :=
  ∀ r, r ∈ debates t → d_role r = RoleInitiator → (active_constraints (d_session r) t ≤ MaxActiveConstraints)%nat.
Lemma dstep_active s s' : dwf s → dstep s s' → (∀ k, k ∈ constraints s.1 → constraint_inv s.1 k) → active_bound s.1 → active_bound s'.1.
Proof.
  intros Hwf Hs Hki Hb r' Hr' Hrl. destruct (dstep_debates _ _ _ Hwf Hs Hr') as [(r & Hr & Hrow)|(Hn & Hfr & _)].
  - pose proof (row_same _ _ _ Hrow) as (Es & Erl & _). rewrite Es. rewrite Erl in Hrl. specialize (Hb r Hr Hrl).
    destruct Hs as [| | | | |t o r1 k Hr1 Ek Hfr Hph Hid Htx Hat Hmax|t o r1 listed Hr1 Hrl1 Hop| | | |]; cbn [fst] in *; try done.
    + rewrite (active_app _ t _ k) by done. destruct (in_state (d_session r) _ k) eqn:E; [|lia]. unfold in_state in E.
      apply andb_true_iff in E as [E1%bool_decide_eq_true E2%bool_decide_eq_true].
      assert (r1 = r) as -> by (apply (map_key_inj d_session (debates t)); [apply (wf_debates _ Hwf)|done|done|congruence]). specialize (Hmax Hrl E2). lia.
    + unfold active_constraints at 1. cbn [constraints]. etransitivity; [apply active_late|done].
  - assert (active_constraints (d_session r') s'.1 = 0%nat) as ->; [|lia].
    assert (constraints s'.1 = constraints s.1) as E0.
    { destruct Hs; cbn [fst debates constraints] in *; try done; destruct Hfr; apply elem_of_map_list; by exists r'. }
    unfold active_constraints. rewrite E0. destruct (List.filter _ (constraints s.1)) as [|k l] eqn:E; [done|]. exfalso.
    assert (k ∈ k :: l) as Hk by (by left). rewrite <- E in Hk. apply list_elem_of_In, filter_In in Hk as [Hk%list_elem_of_In Ek].
    unfold in_state in Ek. apply andb_true_iff in Ek as [Ek%bool_decide_eq_true _]. destruct (ki_debate _ _ (Hki k Hk)) as (r1 & Hr1 & E1).
    destruct Hfr. apply elem_of_map_list. exists r1. split; [congruence|done].
Qed.

(** ** The mail *)

Definition mail_inv (s : dstate) : Prop :=
  ∀ m, m ∈ s.2 → m_kind m ∈ debate_kinds → ∃ r, r ∈ debates s.1 ∧ m_to m = d_peer r ∧ sends s.1 r (m_kind m) (m_body m).
Lemma dstep_mail s s' : dwf s → dstep s s' → mail_inv s → mail_inv s'.
Proof.
  intros Hwf Hs Hi. pose proof (dstep_lasts _ _ Hwf Hs) as Hl.
  assert (∀ m : mail, (∃ r, r ∈ debates s.1 ∧ m_to m = d_peer r ∧ sends s.1 r (m_kind m) (m_body m)) →
    ∃ r, r ∈ debates s'.1 ∧ m_to m = d_peer r ∧ sends s'.1 r (m_kind m) (m_body m)) as Hkeep.
  { intros m (r & Hr & Eto & Hsd). destruct (dstep_debate _ _ _ Hwf Hs Hr) as (r' & Hr' & Hsame). exists r'. split; [done|].
    split; [rewrite Eto; by destruct Hsame as (_ & _ & -> & _)|]. by apply (sends_lasts s.1 _ r). }
  intros m Hm Hk. destruct Hs as [| | | | | | | | |t o r m0 Hr Hto Hsd|t o o' Ho]; cbn [fst snd] in *; try (by apply Hkeep, Hi).
  - apply elem_of_app in Hm as [Hm|Hm%list_elem_of_singleton]; [by apply Hi|]. subst m. destruct Hsd as [Hsd _]. by exists r.
  - destruct (Ho m Hm Hk) as (m0 & Hm0 & <- & Ek & <-). rewrite <- Ek in *. by apply Hi.
Qed.

(** ** The loop over the held entries ends

    Each turn of drainTx fills the next slot, so with 1 to 5 rounds no more
    than 14 turns follow and [drain_fuel] is never spent. *)
Lemma drain_more n : ∀ n' r tr, last_slot (d_roundsMax r) + 3 < rank (Next (metas [EntryApplied; EntrySent] tr) (d_roundsMax r)) + Z.of_nat n → (n ≤ n')%nat →
  drainTx (X:=X) n' r tr = drainTx n r tr.
Proof.
  induction n as [|n IH]; intros n' r tr Hlt Hle.
  { pose proof (Next_spec (metas [EntryApplied; EntrySent] tr) (d_roundsMax r)) as [[Hb _]%rank_bounds _]. lia. }
  destruct n' as [|n']; [lia|]. cbn [drainTx]. destruct (Next _ _) as [ph s k a rd|s] eqn:En; [|done].
  destruct (tr !! s) as [e|]; [|done]. destruct (negb _); [done|]. destruct (drain_reason _ _ _ _ _); [done|].
  set (e' := MkStored _ _ _ _ _ _). assert (metas [EntryApplied; EntrySent] (<[s := e']> tr) = <[s := meta_of e']> (metas [EntryApplied; EntrySent] tr)) as Em
    by (by apply metas_insert).
  rewrite (IH n' r (<[s := e']> tr)); [done| |lia]. rewrite Em.
  pose proof (Next_progress _ _ _ _ _ _ _ (meta_of e') En) as Hp. rewrite En in Hp. lia.
Qed.
Lemma drain_fuel_enough n r tr : 1 ≤ d_roundsMax r ≤ 5 → (drain_fuel ≤ n)%nat → drainTx (X:=X) n r tr = drainTx drain_fuel r tr.
Proof.
  intros Hr Hn. apply drain_more; [|done].
  pose proof (Next_spec (metas [EntryApplied; EntrySent] tr) (d_roundsMax r)) as [[[Hb _] _]%rank_bounds _]. unfold last_slot, drain_fuel in *. lia.
Qed.
End Invariant.
