(* ===== verification/DebateDecisions.v ===== *)
(** * The Decisions of a debate store

    Every stored Decision is derived from entries and constraints that this
    side has stored, is what the verifier accepts, and is signed as its state
    says. *)

From S2P Require Import Prelude Utf8 Canonical Strconv WireTime Body RequestObject Tables.
From S2P Require Import Experience Requests WorkSession TxLemmas DebateEntry DebateTurns DebateLegal Signing DecisionRecord.
From S2P Require Import DecisionVerify DecisionProofs DebateTables Debate DebateMail DebateSteps DebateSpec DebateInvariant.
From stdpp Require Import gmap.

Open Scope Z_scope.

(** ** The own key signs *)

Class DigestLaws {X : Type} `{Env X} : Prop := digest_bytes : ∀ m, forallb is_byte (digest m) = true.

Section Decisions.
Context {X : Type} `{Env X} `{HasDebates X} `{Crypto} `{DebateEnv X}.

Lemma sign_verifies `{!SignLaws} canon sig : sign canon = Ok sig → VerifySignature Self canon sig = true ∧ sig ≠ [].
Proof.
  unfold sign. destruct Priv as [[priv|]|]; try done. destruct (length priv =? 64)%nat eqn:El; [|done]. apply Nat.eqb_eq in El. cbn [negb].
  case_bool_decide as Es; [|done]. cbn [negb]. intros [= <-]. destruct (sl_public priv El) as [L1 B1]. destruct (sl_sign priv (Msg canon) El) as [L2 B2].
  unfold VerifySignature, Sign. rewrite <- Es, !b64_round, L1, L2 by done. rewrite sl_verify by done. split; [done|].
  intros E. apply (f_equal b64_decode) in E. rewrite b64_round in E by done. injection E as E. by rewrite E in L2.
Qed.

(** ** What a Decision is derived from *)

Record supported (t : debate_tables) (r : debate) (i : DeriveInput) : Prop := {
  su_session : in_Session i = d_session r;
  su_parties : (in_Initiator i, in_Respondent i) = keys r;
  su_entries : ∀ x, x ∈ Entries i → de_Slot x < Count i ∧ ∃ e, e ∈ entries t ∧ e_session e = d_session r ∧ e_state e ∈ [EntryApplied; EntrySent] ∧
    e_slot e = de_Slot x ∧ e_author e = de_Author x ∧ e_kind e = de_Kind x ∧ e_canon e = de_Canon x;
  su_constraints : ∀ c, c ∈ Constraints i → ∃ k, k ∈ constraints t ∧ k_session k = d_session r ∧
    k_id k = dc_ID c ∧ k_author k = dc_Author c ∧ k_at k = dc_At c ∧ k_text k = dc_Text c;
}.
Lemma supported_lasts t t' r r' i : lasts t t' → same_debate r r' → supported t r i → supported t' r' i.
Proof.
  intros [LE _ LK] Hs [S1 S2 S3 S4]. pose proof (keys_same _ _ Hs) as Hk. pose proof Hs as (Es & _). constructor.
  - congruence.
  - by rewrite Hk.
  - intros x Hx. destruct (S3 x Hx) as (Hc & e & He & Ese & Hst & Hrest). split; [done|]. exists e. split; [by apply LE|]. rewrite Es. done.
  - intros c Hc. destruct (S4 c Hc) as (k & Hk' & K1 & K2 & K3 & K4 & K5). destruct (LK k Hk') as (k' & ? & ? & ? & ? & ? & ?).
    exists k'. split_and!; congruence.
Qed.

Lemma derive_entries_in tr n x : x ∈ derive_entries tr n → ∃ v, tr !! de_Slot x = Some v ∧ de_Author x = st_author v ∧ de_Kind x = st_kind v ∧ de_Canon x = st_canon v ∧
  de_Slot x < n ∧ st_state v ∈ [EntryApplied; EntrySent].
Proof.
  intros ([s v] & -> & Hin)%elem_of_map_list. apply list_elem_of_In, filter_In in Hin as [Hin%list_elem_of_In%elem_of_map_to_list Hc].
  exists v. cbn. unfold counted, coverBelow, coverAppliedOrSent, hasState in Hc. cbn in Hc. apply andb_true_iff in Hc as [Hlt%Z.ltb_lt Hst%bool_decide_eq_true]. done.
Qed.
Lemma derive_entries_of tr n s v : tr !! s = Some v → s < n → st_state v ∈ [EntryApplied; EntrySent] →
  MkTranscript s (st_author v) (st_kind v) (st_canon v) ∈ derive_entries tr n.
Proof.
  intros Hv Hs Hst. apply elem_of_map_list. exists (s, v). split; [done|]. apply list_elem_of_In, filter_In. split; [by apply list_elem_of_In, elem_of_map_to_list|].
  unfold counted, coverBelow, coverAppliedOrSent, hasState. cbn. rewrite (proj2 (Z.ltb_lt _ _)) by done. by rewrite bool_decide_eq_true_2.
Qed.

Lemma turn_states_counted rl st : st ∈ turnStates rl → st ∈ [EntryApplied; EntrySent].
Proof. destruct rl; [|done]. intros ->%list_elem_of_singleton. by left. Qed.
(** On A nothing is sent before it is applied. *)
Lemma counted_meta t o r tr s v : dwf (t, o) → (∀ e, e ∈ entries t → entry_inv t e) → r ∈ debates t → transcript_in t (d_session r) tr →
  tr !! s = Some v → st_state v ∈ [EntryApplied; EntrySent] → metas (turnStates (d_role r)) tr !! s = Some (meta_of v).
Proof.
  intros Hw Hei Hr Ht Hv Hst. rewrite lookup_metas, Hv. cbn. unfold hasState. rewrite bool_decide_eq_true_2; [done|].
  destruct (transcript_row _ _ _ _ _ _ Hw Ht Hv) as (e & x & He & Es & Esl & _ & ->). cbn in *.
  destruct (Hei e He) as [_ (r1 & Hr1 & Es1 & _ & Hsent & _)].
  assert (r1 = r) as -> by (apply (map_key_inj d_session (debates t)); [apply (wf_debates _ Hw)|done|done|congruence]).
  destruct (d_role r) eqn:E; [|done]. cbn. destruct (decide (e_state e = EntrySent)) as [Ee|]; [by apply Hsent in Ee|set_solver].
Qed.

Lemma elem_of_take_in {A} n (l : list A) x : x ∈ take n l → x ∈ l.
Proof. intros Hx. rewrite <- (take_drop n l). apply elem_of_app. by left. Qed.
Lemma own_supported `{!SignLaws} `{!DigestLaws} t o r tr oc reason canon : dwf (t, o) → (∀ e, e ∈ entries t → entry_inv t e) →
  (∀ k, k ∈ constraints t → constraint_inv t k) → r ∈ debates t → row_inv r → legal_in t r → own_derivation t r tr oc reason canon →
  ∃ i, Derive i = Ok canon ∧ in_Outcome i = oc ∧ in_Reason i = reason ∧ supported t r i ∧ (d_peer r ≠ Self → derivable i).
Proof.
  intros Hw Hei Hki Hr Hri (tr' & Ht' & Hl) (Ht & n & listed & at_ & req & Hreq & Hat & Hd).
  pose proof (transcript_unique _ _ _ _ Ht Ht') as <-. eexists. split; [exact Hd|]. split; [done|]. split; [done|].
  assert (∀ c, c ∈ listed_in (d_session r) listed t → ∃ k, k ∈ constraints t ∧ k_session k = d_session r ∧
    k_id k = dc_ID c ∧ k_author k = dc_Author c ∧ k_at k = dc_At c ∧ k_text k = dc_Text c) as Hcs.
  { intros c (id & _ & Hid)%list_elem_of_omap. destruct (List.find _ _) as [k|] eqn:Ek; [|done]. injection Hid as <-.
    apply List.find_some in Ek as [Hk Hp]. unfold is_constraint in Hp. apply andb_true_iff in Hp as [Hp%bool_decide_eq_true _].
    exists k. split_and!; try done. by apply list_elem_of_In. }
  split.
  { constructor; cbn; try done; [by destruct (keys r)|]. intros x (v & Hv & Ea & Ek & Ec & Hlt & Hst)%derive_entries_in.
    destruct (transcript_row _ _ _ _ _ _ Hw Ht Hv) as (e & y & He & Es & Esl & _ & ->). cbn in *. split; [done|]. exists e. split_and!; congruence || done. }
  intros Hpeer. destruct Hri as [Es Hrd _ [V1 V2] _ _ _ _]. constructor; cbn.
  - split_and!; [|done..]. rewrite Es. unfold DeriveID. apply valid_utf8_app; [done|]. apply valid_hex_encode. apply forallb_forall. intros b Hb.
    pose proof (digest_bytes (idTag ++ (keys r).1 ++ [0x0A] ++ (keys r).2 ++ [0x0A] ++ d_requestID r)) as Hbs. rewrite forallb_forall in Hbs. apply Hbs.
    apply list_elem_of_In. apply list_elem_of_In in Hb. by apply (elem_of_take_in 16).
  - unfold keys. destruct (d_role r); cbn; congruence.
  - done.
  - intros q Hq. by apply Hreq.
  - intros x (v & Hv & Ea & Ek & Ec & Hlt & Hst)%derive_entries_in Hb.
    destruct (transcript_row _ _ _ _ _ _ Hw Ht Hv) as (e & y & He & Ese & Esl & Hy & Ev).
    pose proof (counted_meta _ _ _ _ _ _ Hw Hei Hr Ht Hv Hst) as Hm. rewrite Ev in *. cbn in *. split; [exists y; congruence|].
    intros Emv. destruct (legal_move _ _ _ _ Hl Hm) as [Ha Hsl]; [cbn; congruence|]. cbn in Ha. split; [congruence|]. unfold last_slot in Hsl. unfold MaxDebateRounds. lia.
  - intros x (v & Hv & Ea & Ek & Ec & Hlt & Hst)%derive_entries_in Hb Eans.
    pose proof (counted_meta _ _ _ _ _ _ Hw Hei Hr Ht Hv Hst) as Hm.
    destruct (legal_answer _ _ _ _ Hl Hm) as (p & Hp & Ekp); [cbn; congruence|]. pose proof (legal_slot _ _ _ _ Hl Hp) as Hge.
    rewrite lookup_metas in Hp. destruct (tr !! (de_Slot x - 1)) as [vp|] eqn:Evp; [|done]. cbn in Hp. destruct (hasState vp _) eqn:Ehs; [|done]. injection Hp as <-.
    exists (MkTranscript (de_Slot x - 1) (st_author vp) (st_kind vp) (st_canon vp)). split_and!; cbn in *; try done; try lia.
    apply derive_entries_of; [done|lia|]. unfold hasState in Ehs. apply bool_decide_eq_true in Ehs. by apply (turn_states_counted (d_role r)).
  - apply Forall_forall. intros c Hc. destruct (Hcs c Hc) as (k & Hk & _ & <- & _ & <- & <-). destruct (Hki k Hk) as [K1 K2 [τ K3] _].
    split_and!; [by apply (hex_id_valid 0x63)|by apply (decodeTime_valid _ τ)|done].
Qed.

(** ** The stored Decisions *)

Definition sig_of (p : party) (n : decision_row) : option bytes := match p with RoleInitiator => n_sigI n | RoleRespondent => n_sigR n end.
Definition own_signed (n : decision_row) (p : party) : Prop := ∃ s, sign (n_decision n) = Ok s ∧ sig_of p n = Some s.
Definition peer_signed (r : debate) (n : decision_row) : Prop :=
  ∃ s, sig_of (other (d_role r)) n = Some s ∧ VerifySignature (d_peer r) (n_decision n) s = true.
(** The signatures a row has, by its state. *)
Definition signed_as (r : debate) (n : decision_row) : Prop :=
  match d_role r, n_state n with
  | RoleInitiator, DecisionAwaitingPeer => own_signed n RoleInitiator ∧ n_sigR n = None
  | RoleInitiator, DecisionPeerRefused => own_signed n RoleInitiator ∧ n_sigR n = None
  | RoleRespondent, DecisionAwaitingPeer => False
  | RoleRespondent, DecisionPeerRefused => n_sigI n = None ∧ n_sigR n = None
  | rl, DecisionSigned => own_signed n rl ∧ peer_signed r n
  end.

Record decision_of_debate (t : debate_tables) (r : debate) (n : decision_row) : Prop := {
  dd_id : n_id n = DecisionRecord.ID (d_session r);
  dd_sides : n_role n = d_role r ∧ n_peer n = d_peer r;
  dd_hash : n_hash n = Hash (n_decision n);
  dd_derived : ∃ i, Derive i = Ok (n_decision n) ∧ supported t r i ∧ (d_peer r ≠ Self → derivable i);
  dd_signed : signed_as r n;
}.
Definition decision_inv (t : debate_tables) (n : decision_row) : Prop :=
  ∃ r, r ∈ debates t ∧ n_session n = d_session r ∧ decision_of_debate t r n.

Lemma decision_kept t t' r r' n : lasts t t' → same_debate r r' → decision_of_debate t r n → decision_of_debate t' r' n.
Proof.
  intros Hl Hs [D1 [D2 D3] D4 (i & Hi & Hsu & Hdv) D5]. pose proof Hs as (Es & Erl & Ep & _). constructor; rewrite ?Es, ?Erl, ?Ep; try done.
  - exists i. split_and!; [done|by apply (supported_lasts t _ r)|done].
  - unfold signed_as, peer_signed in *. by rewrite Erl, Ep.
Qed.
Lemma new_signed `{!SignLaws} t r n : decision_new t r n → signed_as r n.
Proof.
  intros [tr o reason sig Hrl _ _ Hsg EI ER Est|tr o reason sigA sigB Hrl _ _ _ _ Hv _ Hsg EI ER Est|tr o reason Hrl _ _ EI ER Est]; unfold signed_as; rewrite Hrl, Est.
  - destruct (sign_verifies _ _ Hsg) as [_ Hne]. split; [|done]. exists sig. split; [done|]. cbn. rewrite EI. by destruct sig.
  - destruct (sign_verifies _ _ Hsg) as [_ Hne]. split; [exists sigB; split; [done|]; cbn; rewrite ER; by destruct sigB|].
    exists sigA. unfold sig_of. by rewrite Hrl.
  - done.
Qed.
Lemma new_derivation t r n : decision_new t r n → ∃ tr o reason, own_derivation t r tr o reason (n_decision n).
Proof. intros []; by eexists _, _, _. Qed.
Lemma answer_signed r n n' : decision_step r n n' → signed_as r n → signed_as r n'.
Proof.
  intros [sig now Hrl Est Hv Hne|hash now Hrl Est] Hs; unfold signed_as in *; rewrite Hrl in *; rewrite Est in Hs; destruct Hs as [Ho EN]; cbn.
  - split; [done|]. exists sig. unfold sig_of. by rewrite Hrl.
  - done.
Qed.

Lemma dstep_decisions `{!SignLaws} `{!DigestLaws} s s' : dwf s → dstep s s' → (∀ e, e ∈ entries s.1 → entry_inv s.1 e) →
  (∀ k, k ∈ constraints s.1 → constraint_inv s.1 k) → (∀ r, r ∈ debates s.1 → row_inv r ∧ legal_in s.1 r) →
  (∀ n, n ∈ decisions s.1 → decision_inv s.1 n) → ∀ n, n ∈ decisions s'.1 → decision_inv s'.1 n.
Proof.
  intros Hwf Hs Hei Hki Hri Hi n Hn. pose proof (dstep_lasts _ _ Hwf Hs) as Hl.
  assert (∀ r n, r ∈ debates s.1 → n_session n = d_session r → decision_of_debate s.1 r n → decision_inv s'.1 n) as Hkeep.
  { intros r n1 Hr Es Hd. destruct (dstep_debate _ _ _ Hwf Hs Hr) as (r' & Hr' & Hsame). exists r'. split; [done|].
    split; [rewrite Es; by destruct Hsame as (-> & _)|]. by apply (decision_kept s.1 _ r). }
  assert (∀ n, n ∈ decisions s.1 → decision_inv s'.1 n) as Hold.
  { intros n1 Hn1. destruct (Hi n1 Hn1) as (r & Hr & Es & Hd). by apply (Hkeep r). }
  destruct Hs as [| | | | | | |t o r n1 Hr Esn Hfr Eid Erl Ep Eh Hnew|t o r n1 f Hr Hn1 Esn Hst| |]; cbn [fst decisions] in *; try (by apply Hold).
  - apply elem_of_app in Hn as [Hn|Hn%list_elem_of_singleton]; [by apply Hold|]. subst n. apply (Hkeep r); [done..|].
    destruct (Hri r Hr) as [Hrow Hleg]. destruct (new_derivation _ _ _ Hnew) as (tr & oc & reason & Hd).
    destruct (own_supported t o r tr oc reason _ Hwf Hei Hki Hr Hrow Hleg Hd) as (i & Hdi & _ & _ & Hsu & Hdv).
    constructor; [done..|by exists i|by apply (new_signed t)].
  - pose proof (decision_step_fields _ _ _ Hst) as (E1 & E2 & E3 & E4 & E5 & E6 & _).
    destruct (update_key _ (is_decision (d_session r)) f _ n1 (wf_decisions _ Hwf) Hn1) as [_ Hin]; [intros y; rewrite is_decision_key; by rewrite Esn|done|].
    apply Hin in Hn as [->|[Hn _]]; [|by apply Hold]. destruct (Hi n1 Hn1) as (r1 & Hr1 & Es1 & [D1 [D2 D3] D4 (i & Hdi & Hsu & Hdv) D5]).
    assert (r1 = r) as -> by (apply (map_key_inj d_session (debates t)); [apply (wf_debates _ Hwf)|done|done|congruence]).
    apply (Hkeep r); [done|congruence|]. constructor; rewrite ?E2, ?E3, ?E4, ?E5, ?E6; try done; [by exists i|by apply (answer_signed _ n1)].
Qed.

(** ** The invariant *)

Record dinv (s : dstate) : Prop := {
  di_rows : ∀ r, r ∈ debates s.1 → row_inv r;
  di_entries : ∀ e, e ∈ entries s.1 → entry_inv s.1 e;
  di_legal : ∀ r, r ∈ debates s.1 → legal_in s.1 r;
  di_constraints : ∀ k, k ∈ constraints s.1 → constraint_inv s.1 k;
  di_active : active_bound s.1;
  di_decisions : ∀ n, n ∈ decisions s.1 → decision_inv s.1 n;
  di_mail : mail_inv s;
}.
Lemma dstep_inv `{!SignLaws} `{!DigestLaws} s s' : dwf s → dinv s → dstep s s' → dinv s'.
Proof.
  intros Hwf [I1 I2 I3 I4 I5 I6 I7] Hs. constructor.
  - intros r' Hr'. destruct (dstep_debates _ _ _ Hwf Hs Hr') as [(r & Hr & [->|Hrow])|(Hn & _)]; [by apply I1|apply (row_step_inv _ _ _ Hrow); by apply I1|by apply new_row_inv].
  - by apply (dstep_entry_inv s).
  - by apply (dstep_legal s).
  - by apply (dstep_constraints s).
  - by apply (dstep_active s).
  - apply (dstep_decisions s); try done. intros r Hr. split; [by apply I1|by apply I3].
  - by apply (dstep_mail s).
Qed.
Lemma dinv_start o : Forall (λ x, m_kind x ∉ debate_kinds) o → dinv (DebateTables [] [] [] [], o).
Proof.
  intros Ho. constructor; cbn; try (intros ? ?%elem_of_nil; done). intros m Hm Hk. cbn in *. rewrite Forall_forall in Ho. by destruct (Ho m Hm).
Qed.
End Decisions.
