(* ===== verification/DebateSessions.v ===== *)
(** * The debate store, as the work sessions see it

    Its hooks close the debate's session and write its record, and leave the
    rest of the sessions alone: the laws SessionRefine.v assumes of it. *)

From S2P Require Import Prelude Utf8 Canonical Strconv WireTime Body RequestObject Tables.
From S2P Require Import Experience Requests RequestMail TxLemmas WorkSession SessionMail SessionSteps SessionRefine.
From S2P Require Import DebateEntry DebateTurns Signing DecisionRecord DebateTables Debate.

Open Scope Z_scope.

Section Sessions.
Context {X : Type} `{Env X} `{HasDebates X} `{Crypto} `{DebateEnv X}.

Notation quiet := (keeps (core (X:=X))).
#[local] Hint Resolve quiet_submit quiet_revoke quiet_complete quiet_ext quiet_requests : keeps.

(** The session of a debate is there, as CloseDebateTx found it. *)
Definition has_session (sid : bytes) (c : core_state) : Prop := ∃ r, r ∈ c.1 ∧ s_kind r = Tables.KindDebate ∧ s_id r = sid.
Definition debate_tx_of (sid : bytes) {A} (m : tx X A) : Prop :=
  ∀ d a d', keys_ok (sessions d) → has_session sid (core d) → m d = Ok (a, d') → rtc debate_step (core d) (core d').

Lemma debate_step_session sid c c' : debate_step c c' → has_session sid c → has_session sid c'.
Proof.
  intros [l1 r l2 xs o now Hk Hn|l xs key Hin Hf] (r0 & Hr0 & Hk0 & Hs); cbn in *; [|by exists r0].
  apply elem_of_app in Hr0 as [Hr0|Hr0]; [exists r0; split; [apply elem_of_app; by left|done]|].
  apply elem_of_cons in Hr0 as [->|Hr0].
  - eexists. split; [apply elem_of_app; right; by left|done].
  - exists r0. split; [apply elem_of_app; right; by right|done].
Qed.
Lemma debate_steps_session sid c c' : rtc debate_step c c' → has_session sid c → has_session sid c'.
Proof. induction 1 as [|c c1 c2 Hs _ IH]; [done|]. intros Hh. apply IH. by apply (debate_step_session _ c). Qed.
Lemma debate_steps_keys c c' : rtc debate_step c c' → keys_ok c.1 → keys_ok c'.1.
Proof.
  intros Hs. apply (core_steps_keys (λ _, false)). apply (rtc_subrel debate_step); [|done]. intros. by apply debate_core_step.
Qed.

(** ** The rules *)

Lemma debate_quiet {A} (m : tx X A) : quiet m → debate_tx m.
Proof. intros Hm d a d' _ E. by rewrite (Hm _ _ _ E). Qed.
Lemma debate_bind {A B} (m : tx X A) (k : A → tx X B) : debate_tx m → (∀ a, debate_tx (k a)) → debate_tx (m ≫= k).
Proof.
  intros Hm Hk d b d' Hd (a & d1 & E1 & E2)%tx_bind_ok. pose proof (Hm _ _ _ Hd E1) as S1. etransitivity; [exact S1|].
  apply (Hk a _ b); [by apply (debate_steps_keys _ _ S1)|done].
Qed.
Lemma debate_if {A} (c : bool) (m m' : tx X A) : debate_tx m → debate_tx m' → debate_tx (if c then m else m').
Proof. by destruct c. Qed.
Lemma debate_after {A B} sid (m : tx X A) (k : A → tx X B) : quiet m → (∀ a, debate_tx_of sid (k a)) → debate_tx_of sid (m ≫= k).
Proof.
  intros Hm Hk d b d' Hd Hh (a & d1 & E1 & E2)%tx_bind_ok. pose proof (Hm _ _ _ E1) as Ec. rewrite <- Ec in *.
  apply (Hk a _ b); [unfold core in Ec; by injection Ec as -> _|done|done].
Qed.
Lemma debate_of_quiet {A} sid (m : tx X A) : quiet m → debate_tx_of sid m.
Proof. intros Hm d a d' _ _ E. by rewrite (Hm _ _ _ E). Qed.
Lemma debate_closes_then {A} sid o now (k : list effect → tx X A) : (∀ effs, debate_tx_of sid (k effs)) → debate_tx (CloseDebateTx sid o now ≫= k).
Proof.
  intros Hk d b d' Hd (effs & d1 & E1 & E2)%tx_bind_ok. pose proof (CloseDebateTx_debate _ _ _ _ _ _ Hd E1) as S1. etransitivity; [exact S1|].
  apply (Hk effs _ b); [by apply (debate_steps_keys _ _ S1)| |done]. apply (debate_steps_session _ _ _ S1).
  unfold CloseDebateTx, scanByID in E1. apply tx_bind_ok in E1 as (r & d2 & E1 & Hx). apply tx_found_ok in E1 as [[Hr Es]%session_by_id_in _].
  exists r. destruct (bool_decide (s_kind r = Tables.KindDebate)) eqn:Ek; [|done]. apply bool_decide_eq_true in Ek. done.
Qed.

(** ** The record *)

Lemma WriteTx_ok i now (d : db X) size d' : WriteTx i now d = Ok (size, d') →
  sessions d' = sessions d ∧ (core d').2 = (core d).2 ++ [(iSession i, iRole i)] ∧ (iSession i, iRole i) ∉ (core d).2.
Proof.
  unfold WriteTx. intros ([c tr] & d2 & H2' & H3)%tx_bind_ok. apply tx_lift_ok in H2' as [_ <-].
  apply tx_bind_ok in H3 as (dup & d3 & H3 & H4). apply tx_get_ok in H3 as [Hdup <-].
  destruct dup; [done|]. apply tx_bind_ok in H4 as (u & d4 & H4 & H5). apply tx_ret_ok in H5 as [_ <-].
  injection H4 as _ <-. unfold core. cbn [sessions experiences snd]. rewrite map_app. cbn [map x_session x_role].
  split_and!; [done..|]. intros Hin. apply elem_of_map_list in Hin as (x & Ex & Hx).
  apply not_true_iff_false in Hdup. apply Hdup. apply existsb_exists. exists x. split; [by apply list_elem_of_In|].
  injection Ex as Ex1 Ex2. rewrite Ex1, Ex2. by rewrite !bool_decide_eq_true_2.
Qed.
Lemma debate_record_of r tr c o cb ca dec canon now : debate_tx_of (d_session r) (writeDebateExperience (X:=X) r tr c o cb ca dec canon now).
Proof.
  unfold writeDebateExperience. apply debate_after; [unfold request_row; auto with keeps|]. intros q d a d' Hd (s & Hs & Ek & Es) E.
  apply WriteTx_ok in E as (E1 & E2 & E3). unfold core in *. cbn [fst snd] in *. rewrite E1, E2. apply rtc_once.
  apply (debate_record (sessions d) _ (d_session r, party_text (d_role r))); [by exists s|done].
Qed.

(** ** The calls that stay in the debate tables *)

Lemma quiet_tables f : quiet (set_tables (X:=X) f).
Proof. unfold set_tables. keeps_tac. Qed.
#[local] Hint Resolve quiet_tables : keeps.
Lemma quiet_debates f : quiet (set_debates (X:=X) f).
Proof. apply quiet_tables. Qed.
Lemma quiet_entries f : quiet (set_entries (X:=X) f).
Proof. apply quiet_tables. Qed.
Lemma quiet_decisions f : quiet (set_decisions (X:=X) f).
Proof. apply quiet_tables. Qed.
#[local] Hint Resolve quiet_debates quiet_entries quiet_decisions : keeps.
Lemma quiet_update sid f : quiet (update_debate (X:=X) sid f).
Proof. apply quiet_tables. Qed.
Lemma quiet_getDebate sid : quiet (getDebate (X:=X) sid).
Proof. unfold getDebate. auto with keeps. Qed.
#[local] Hint Resolve quiet_update quiet_getDebate : keeps.
Lemma quiet_transcript sid : quiet (loadTranscript (X:=X) sid).
Proof. unfold loadTranscript. keeps_tac. Qed.
Lemma quiet_setClosed sid o reason now : quiet (setClosed (X:=X) sid o reason now).
Proof. unfold setClosed. keeps_tac. Qed.
Lemma quiet_derive r tr n listed o reason at_ : quiet (deriveTx (X:=X) r tr n listed o reason at_).
Proof. unfold deriveTx, request_row. keeps_tac. Qed.
Lemma quiet_insertDecision r canon hash a b ph st now : quiet (insertDecision (X:=X) r canon hash a b ph st now).
Proof. unfold insertDecision. keeps_tac. Qed.
Lemma quiet_insertDebate r : quiet (insertDebate (X:=X) r).
Proof. unfold insertDebate. keeps_tac. Qed.
Lemma quiet_quarantined peer : quiet (checkQuarantine (X:=X) peer).
Proof. unfold checkQuarantine. keeps_tac. Qed.
#[local] Hint Resolve quiet_transcript quiet_setClosed quiet_derive quiet_insertDecision quiet_insertDebate quiet_quarantined : keeps.
Lemma quiet_decide r n ids o reason now : quiet (decideTx (X:=X) r n ids o reason now).
Proof. unfold decideTx. keeps_tac. Qed.
Lemma quiet_last r kind b now : quiet (sendLastState (X:=X) r kind b now).
Proof. unfold sendLastState. keeps_tac. Qed.
Lemma quiet_complete_request r note now : quiet (complete_request (X:=X) r note now).
Proof. unfold complete_request. keeps_tac. Qed.
#[local] Hint Resolve quiet_decide quiet_last quiet_complete_request : keeps.
Lemma quiet_close_rows r n ids o reason now : quiet (close_rows (X:=X) r n ids o reason now).
Proof. unfold close_rows. keeps_tac. Qed.
#[local] Hint Resolve quiet_close_rows : keeps.

(** ** The hooks *)

Lemma debate_closeTx r o reason actor by_ now : debate_tx (closeTx (X:=X) r o reason actor by_ now).
Proof.
  unfold closeTx. do 2 (apply debate_bind; [apply debate_quiet; auto with keeps|intros ?]).
  apply debate_bind; [apply debate_quiet; auto with keeps|]. intros [[[tr canon] b] created].
  apply debate_bind; [apply debate_quiet; auto with keeps|]. intros mid. apply debate_closes_then. intros effs d b' d' Hd Hh (size & d1 & E1 & E2)%tx_bind_ok.
  apply tx_ret_ok in E2 as [_ <-]. by apply (debate_record_of _ _ _ _ _ _ _ _ _ _ _ _ Hd Hh E1).
Qed.
Lemma debate_mirror r wo note ev o tr c cb ca dec canon now : debate_tx (closeMirrorTx (X:=X) r wo note ev o tr c cb ca dec canon now).
Proof.
  unfold closeMirrorTx. apply debate_closes_then. intros effs. apply debate_after; [auto with keeps|]. intros completed d a d' Hd Hh (size & d1 & E1 & E2)%tx_bind_ok.
  apply tx_ret_ok in E2 as [_ <-]. by apply (debate_record_of _ _ _ _ _ _ _ _ _ _ _ _ Hd Hh E1).
Qed.
Lemma debate_OpenedTx rl peer req sid now : debate_tx (Debate.OpenedTx (X:=X) rl peer req sid now).
Proof. apply debate_quiet. unfold Debate.OpenedTx. keeps_tac. Qed.
Lemma debate_CancelTx sid now : debate_tx (Debate.CancelTx (X:=X) sid now).
Proof.
  unfold Debate.CancelTx. apply debate_bind; [apply debate_quiet; auto with keeps|]. intros r. apply debate_if; [apply debate_quiet; auto with keeps|].
  apply debate_bind; [apply debate_closeTx|]. intros effs. apply debate_quiet. auto with keeps.
Qed.
Lemma debate_PeerCancelTx sid now : debate_tx (Debate.PeerCancelTx (X:=X) sid now).
Proof.
  unfold Debate.PeerCancelTx. apply debate_bind; [apply debate_quiet; auto with keeps|]. intros r. apply debate_if; [apply debate_quiet; auto with keeps|].
  apply debate_bind; [apply debate_closeTx|]. intros effs. apply debate_quiet. auto with keeps.
Qed.
Lemma debate_EarlyCompleteTx sid now : debate_tx (Debate.EarlyCompleteTx (X:=X) sid now).
Proof.
  unfold Debate.EarlyCompleteTx. apply debate_bind; [apply debate_quiet; auto with keeps|]. intros r. apply debate_if; [apply debate_quiet; auto with keeps|].
  apply debate_closeTx.
Qed.
Lemma debate_AbandonTx sid now : debate_tx (Debate.AbandonTx (X:=X) sid now).
Proof.
  unfold Debate.AbandonTx. apply debate_bind; [apply debate_quiet; auto with keeps|]. intros r. apply debate_if; [apply debate_quiet; auto with keeps|].
  apply debate_bind; [apply debate_quiet; auto with keeps|]. intros tr. apply debate_if; [apply debate_quiet; auto with keeps|].
  apply debate_bind; [apply debate_quiet; auto with keeps|]. intros u. apply debate_bind; [apply debate_mirror|]. intros effs. apply debate_quiet. auto with keeps.
Qed.
Lemma debate_ReceivedTx req now : debate_tx (Debate.ReceivedTx (X:=X) req now).
Proof. apply debate_quiet. unfold Debate.ReceivedTx. keeps_tac. Qed.
Lemma debate_EndedTx dir peer id now : debate_tx (Debate.EndedTx (X:=X) dir peer id now).
Proof. apply debate_quiet. unfold Debate.EndedTx. keeps_tac. Qed.
End Sessions.
