(* ===== verification/DebateDemo.v ===== *)
(** * A concrete debate

    The initiator's daemon with keys, hashes and signatures written out, and
    a run of it: the debate is started and accepted, the other side sends its
    position, the own one is revealed, the turn times out, the debate
    escalates and both sign. *)

From S2P Require Import Prelude Utf8 Canonical Strconv DisplayText WireTime Body RequestObject.
From S2P Require Import Tables Experience Requests RequestMail WorkSession SessionMail TxLemmas DebateEntry.
From S2P Require Import DebateTurns Signing DecisionRecord DecisionProofs DebateTables Debate DebateMail DebateSteps DebateSpec.
From S2P Require Import DebateRefine DebateRuns DebateDecisions.
From stdpp Require Import gmap.

Open Scope Z_scope.

#[export] Existing Instance demo_crypto.
#[export] Existing Instance demo_sign_laws.
Definition demo_priv : bytes := repeat 7 64.
Definition peer_priv : bytes := repeat 9 64.
Definition demo_peer : bytes := b64_encode (demo_public peer_priv).

#[export] Instance demo_tables : HasDebates debate_tables := {| get_debates := λ x, x; put_debates := λ t _, t |}.
Definition demo_env0 : Env debate_tables := {|
  Self := b64_encode (demo_public demo_priv); digest := λ m, repeat (checksum m) 32; Tables.seal := λ _ _ _ _, Ok (bytes_of "m-0"); Quarantine := None;
  RevokeGrants := None; Debates := None; UnverifiedPeer := None; TeamActive := None; TeamHasMembers := None;
  introduction_row := λ _ _, None; grants_of := λ _ _, [];
  audit_row := λ _ _ _, Ok tt; audit_soft := λ _ _ _, Ok true; reread := λ _, Ok tt;
|}.
#[export] Instance demo_debate_env : DebateEnv debate_tables := {| Priv := Some (Ok demo_priv); PeerQuarantine := None |}.
#[export] Instance demo_env : Env debate_tables := {|
  Self := Self (Env := demo_env0); digest := digest (Env := demo_env0); Tables.seal := Tables.seal (Env := demo_env0); Quarantine := None; RevokeGrants := None;
  Debates := Some (@debate_hooks _ demo_env0 _ _ _); UnverifiedPeer := None; TeamActive := None; TeamHasMembers := None;
  introduction_row := λ _ _, None; grants_of := λ _ _, [];
  audit_row := λ _ _ _, Ok tt; audit_soft := λ _ _ _, Ok true; reread := λ _, Ok tt;
|}.

(** The laws hold of it. *)
#[export] Instance demo_tables_laws : HasDebatesLaws debate_tables.
Proof. by split. Qed.
#[export] Instance demo_revoke : RevokeLaws (X := debate_tables).
Proof. by intros f x sid now x'. Qed.
#[export] Instance demo_wired : Wired (X := debate_tables).
Proof. reflexivity. Qed.
#[export] Instance demo_digest_laws : DigestLaws (X := debate_tables).
Proof. intros m. apply repeat_bytes, checksum_byte. Qed.
(** ** The run *)

Definition demo_now : Z := 1790000000 * second.
Definition demo_position (claim : string) : value :=
  VObject [(bytes_of "claim", VString (bytes_of claim)); (bytes_of "argument", VString (bytes_of "Because."))].
Definition demo_submit : SubmitParams (X := debate_tables) :=
  MkParams Self demo_peer (bytes_of "t-00000000000000000000000000000000") TypeDebate (bytes_of "Storage") (bytes_of "Which one?") UrgencyNormal []
    [] None None None zeroTime [] [] None None.
Definition demo_params : StartParams (X := debate_tables) := MkStart demo_submit (Some (demo_position "SQLite")) (Some 1) None.
Definition demo_id : bytes := bytes_of "r-00000000000000000000000000000000".
Definition demo_start : dop (X := debate_tables) := DStart demo_params (λ _, demo_id) (λ _, repeat 0x30 64).
Definition demo_sid : bytes := DeriveID Self demo_peer demo_id.

Definition demo_db0 : db debate_tables := Db [] [] [] [] [] (DebateTables [] [] [] []).
Definition demo_db1 : db debate_tables := dexec demo_start demo_now demo_db0.
(** worksession.Store opens the session. *)
Definition demo_db2 : db debate_tables :=
  Db [new_session demo_sid Requester demo_peer demo_id (bytes_of "t-00000000000000000000000000000000") Tables.KindDebate demo_now]
     (requests demo_db1) (tombstones demo_db1) (outbox demo_db1) (experiences demo_db1) (ext demo_db1).
Definition demo_opened : dop (X := debate_tables) := DOpened Requester demo_peer demo_id demo_sid.
Definition demo_db3 : db debate_tables := dexec demo_opened demo_now demo_db2.
Definition demo_mail (b : body) : opened_mail := Opened_ (bytes_of "m-1") demo_peer Self demo_now b.
Definition demo_reply : dop (X := debate_tables) := DMailEntry (demo_mail
  [(bytes_of "at", VString (wireTime demo_now)); (bytes_of "entry", demo_position "Files"); (bytes_of "kind", VString (bytes_of "position"));
   (bytes_of "request", VString demo_id); (bytes_of "session", VString demo_sid); (bytes_of "slot", num 1)]).
Definition demo_db4 : db debate_tables := dexec demo_reply demo_now demo_db3.
Definition demo_later : Z := demo_now + 7200 * second.
Definition demo_db5 : db debate_tables := dexec (DSweep true) demo_later demo_db4.
(** The other side agrees: its signature of the same bytes. *)
Definition demo_canon : bytes := match decisions (tables demo_db5) with n :: _ => n_decision n | [] => [] end.
Definition demo_answer : dop (X := debate_tables) := DMailSign (demo_mail
  [(bytes_of "at", VString (wireTime demo_later)); (bytes_of "decision", VString (Hash demo_canon)); (bytes_of "request", VString demo_id);
   (bytes_of "session", VString demo_sid); (bytes_of "sig", VString (Sign peer_priv demo_canon))]).
Definition demo_db6 : db debate_tables := dexec demo_answer demo_later demo_db5.

Lemma demo_years : in_years demo_now ∧ in_years demo_later.
Proof. split; vm_compute; split; discriminate. Qed.
Lemma demo_started : dstart demo_db0.
Proof. split_and!; [done|constructor|constructor]. Qed.
Lemma sessions_opened l (d : db debate_tables) : other_stores d (Db l (requests d) (tombstones d) (outbox d) (experiences d) (ext d)).
Proof. split_and!; [done|done|]. intros m Hm _. by exists m. Qed.
Lemma demo_session_opened : other_stores demo_db1 demo_db2.
Proof. apply sessions_opened. Qed.
Lemma demo_start_ok : dop_ok demo_start demo_now demo_db0.
Proof. destruct demo_years. split; [done|]. split; [done|]. split; [done|]. intros Hn. by destruct Hn. Qed.
Lemma demo_steps : rtc dtrans demo_db0 demo_db4 ∧ rtc dtrans demo_db4 demo_db6.
Proof.
  destruct demo_years as [Hy Hl]. split.
  - refine (rtc_l _ _ demo_db1 _ (dtrans_op demo_start demo_now demo_db0 demo_start_ok) _).
    refine (rtc_l _ _ demo_db2 _ (dtrans_other _ _ demo_session_opened) _).
    refine (rtc_l _ _ demo_db3 _ (dtrans_op demo_opened demo_now demo_db2 (conj Hy I)) _).
    exact (rtc_once _ _ (dtrans_op demo_reply demo_now demo_db3 (conj Hy I))).
  - refine (rtc_l _ _ demo_db5 _ (dtrans_op (DSweep true) demo_later demo_db4 (conj Hl I)) _).
    exact (rtc_once _ _ (dtrans_op demo_answer demo_later demo_db5 (conj Hl I))).
Qed.
Lemma demo_run : rtc dtrans demo_db0 demo_db6.
Proof. refine (transitivity (proj1 demo_steps) (proj2 demo_steps)). Qed.
Lemma demo_reachable : dreachable demo_db4 ∧ dreachable demo_db6.
Proof.
  exact (conj (ex_intro _ demo_db0 (conj demo_started (proj1 demo_steps)))
              (ex_intro _ demo_db0 (conj demo_started demo_run))).
Qed.

(** ** The other side of such a debate *)

Definition canon_of (v : value) : bytes := match DecodeEntry KindPosition (Some v) with Ok (_, c) => c | Err _ => [] end.
Definition peer_sid : bytes := DeriveID demo_peer Self demo_id.
Definition peer_request : Request :=
  MkRequest 1 demo_id demo_peer Self (bytes_of "t-00000000000000000000000000000000") TypeDebate (bytes_of "Storage") (bytes_of "Which one?") UrgencyNormal [] []
    [] None zeroTime demo_now None None
    (Some (MkDebate (DebateEntry.Commitment sha256 peer_sid demo_peer (repeat 0x30 64) (canon_of (demo_position "SQLite"))) 1 3600)).
Definition peer_body : bytes := match RequestObject.Canonical peer_request with Ok c => c | Err _ => [] end.
Definition peer_row : request :=
  RequestRow DirIn demo_peer demo_id (bytes_of "t-00000000000000000000000000000000") TypeDebate UrgencyNormal UrgencyNormal None peer_body [] Accepted 1
    None None None None None None None (wireTime demo_now) None [] None None None None None None None None (storeTime demo_now) None None.
Definition resp_db0 : db debate_tables :=
  Db [new_session peer_sid Worker demo_peer demo_id (bytes_of "t-00000000000000000000000000000000") Tables.KindDebate demo_now] [peer_row] [] [] []
     (DebateTables [] [] [] []).
Definition resp_db1 : db debate_tables := dexec (DReceived peer_request) demo_now resp_db0.
Definition resp_db2 : db debate_tables := dexec (DOpened Worker demo_peer demo_id peer_sid) demo_now resp_db1.
Definition resp_db3 : db debate_tables := dexec (DSubmit peer_sid [] (bytes_of "position") (Some (demo_position "Files")) true) demo_now resp_db2.
Definition resp_reveal : dop (X := debate_tables) := DMailReveal (demo_mail
  [(bytes_of "at", VString (wireTime demo_now)); (bytes_of "nonce", VString (repeat 0x30 64)); (bytes_of "position", demo_position "SQLite");
   (bytes_of "request", VString demo_id); (bytes_of "session", VString peer_sid)]).
Definition resp_db4 : db debate_tables := dexec resp_reveal demo_now resp_db3.
Definition resp_row : debate := hd (new_debate [] RoleInitiator [] [] 0 0 [] None 0) (debates (tables resp_db4)).
Definition resp_transcript : transcript := match loadTranscript peer_sid resp_db4 with Ok (tr, _) => tr | Err _ => ∅ end.
(** What the initiator derives its Decision from. *)
Definition peer_input : DeriveInput :=
  MkDerive peer_sid demo_peer Self peer_body 1
    [MkTranscript 0 RoleInitiator KindPosition (canon_of (demo_position "SQLite")); MkTranscript 1 RoleRespondent KindPosition (canon_of (demo_position "Files"))]
    2 [] OutcomeEscalated ReasonTimeout (wireTime demo_later).
Definition peer_canon : bytes := match Derive peer_input with Ok c => c | Err _ => [] end.
Definition peer_sig : bytes := Sign peer_priv peer_canon.
Definition peer_close : close_mail :=
  MkCloseMail (MkCommon (wireTime demo_later) demo_id peer_sid) [] 2 OutcomeEscalated ReasonTimeout (Some (Hash peer_canon, peer_sig)).
