(* ===== verification/DebateClaims.v ===== *)
(** * Debates and Decisions: the theorems

    What holds of every state that a run of calls and mails reaches. *)

From S2P Require Import Prelude Utf8 Canonical Strconv DisplayText WireTime Body RequestObject.
From S2P Require Import Tables Experience Requests RequestMail WorkSession SessionMail TxLemmas SessionSteps.
From S2P Require Import SessionRefine DebateEntry DebateTurns DebateLegal Signing DecisionRecord DecisionVerify DecisionProofs DebateTables.
From S2P Require Import Debate DebateMail DebateSteps DebateSpec DebateRefine DebateCommands DebateRuns DebateInvariant.
From S2P Require Import DebateDecisions DebateSessions DebateDemo.
From stdpp Require Import gmap.

Open Scope Z_scope.

Section Claims.
Context {X : Type} `{Env X} `{HasDebates X} `{!HasDebatesLaws X} `{!RevokeLaws (X:=X)} `{Crypto} `{DebateEnv X} `{!Wired} `{Unicode}.
Context `{!SignLaws} `{!DigestLaws}.

(** ** Shared lemmas *)

Lemma reachable_dinv (d : db X) : dreachable d → dwf (dcore d) ∧ requests_ok d ∧ dinv (dcore d).
Proof. apply (reachable_invariant dinv); [apply dinv_start|apply dstep_inv]. Qed.
Lemma the_debate (d : db X) r r' : dwf (dcore d) → r ∈ debates (tables d) → r' ∈ debates (tables d) → d_session r = d_session r' → r = r'.
Proof. intros Hw Hr Hr' E. by apply (map_key_inj d_session (debates (tables d))); [apply (wf_debates _ Hw)|..]. Qed.
Lemma reachable_decision (d : db X) r n : dreachable d → r ∈ debates (tables d) → n ∈ decisions (tables d) → n_session n = d_session r →
  decision_of_debate (tables d) r n.
Proof.
  intros Hd Hr Hn Es. destruct (reachable_dinv _ Hd) as (Hw & _ & Hi). destruct (di_decisions _ Hi n Hn) as (r' & Hr' & Es' & Hdd).
  by rewrite (the_debate d r r' Hw Hr Hr' ltac:(congruence)).
Qed.

Ltac no_mail := let E := fresh in intros E; vm_compute in E; discriminate E.
(** Of the debate mails only a close and a sign carry a signature. *)
Lemma sends_sig t r kind b sig : sends t r kind b → member (bytes_of "sig") b = Some (VString sig) →
  ∃ n, n ∈ decisions t ∧ n_session n = d_session r ∧ sign (n_decision n) = Ok sig.
Proof.
  intros Hs. destruct Hs as [e v| |at_ ids n reason|at_ ids n o reason d s Hrl Hd Es Hsg|at_ d s Hrl Hd Es Hst Hsg| |];
    try (intros E; vm_compute in E; discriminate E).
  - unfold close_body. rewrite member_app. intros E. assert (s = sig) as -> by (vm_compute in E; congruence). by exists d.
  - intros E. assert (s = sig) as -> by (vm_compute in E; congruence). by exists d.
Qed.
Lemma sends_reveal_inv t r kind b : sends t r kind b → kind = MailReveal → d_role r = RoleInitiator ∧ peer_position t (d_session r) ∧
  ∃ e nonce v, e ∈ entries t ∧ e_session e = d_session r ∧ e_slot e = 0 ∧ d_nonce r = Some nonce ∧ entryValue (e_canon e) = Ok v ∧ b = reveal_body r (e_at e) nonce v.
Proof.
  intros Hs. destruct Hs as [| e nonce v| | | | |]; try no_mail. intros _. split_and!; [done..|]. by exists e, nonce, v.
Qed.

(** Closed and broken debates, along the steps. *)
Lemma final_step s s' r : dwf s → dstep s s' → r ∈ debates s.1 → d_phase r ∈ [PhaseClosed; PhaseBroken] →
  ∃ r', r' ∈ debates s'.1 ∧ same_debate r r' ∧ d_phase r' = d_phase r ∧ d_outcome r' = d_outcome r.
Proof.
  intros Hwf Hs Hr Hp. destruct Hs as [t o r1 Hnew Hr1|t o r1 f Hr1 Hst| | | | | | | | |]; cbn [fst debates] in *; try (by exists r).
  - exists r. split; [|done]. apply elem_of_app. by left.
  - destruct (update_key _ _ f _ r1 (wf_debates _ Hwf) Hr1 (is_debate_key r1) (proj1 (rs_same _ _ _ Hst))) as [_ Hin].
    destruct (decide (d_session r = d_session r1)) as [E|Hne]; [|exists r; split; [apply Hin; by right|done]].
    assert (r = r1) as -> by (by apply (map_key_inj d_session (debates t)); [apply (wf_debates _ Hwf)|..]).
    exists (f r1). split; [apply Hin; by left|]. destruct Hst as [Hsame Hc _ _]. split; [done|].
    assert (d_phase r1 ≠ PhaseInvited ∧ d_phase r1 ≠ PhaseClosing ∧ is_open (d_phase r1) ≠ true) as (N1 & N2 & N3).
    { apply elem_of_cons in Hp as [-> | ->%list_elem_of_singleton]; done. }
    by destruct Hc as [r' [-> _ _ -> _]| | | | | | | | |].
Qed.
Lemma final_steps s s' r : dwf s → rtc dstep s s' → r ∈ debates s.1 → d_phase r ∈ [PhaseClosed; PhaseBroken] →
  ∃ r', r' ∈ debates s'.1 ∧ same_debate r r' ∧ d_phase r' = d_phase r ∧ d_outcome r' = d_outcome r.
Proof.
  intros Hw Hs. revert r Hw. induction Hs as [s|s s1 s' Hone _ IH]; intros r Hw Hr Hp; [by exists r|].
  destruct (final_step _ _ _ Hw Hone Hr Hp) as (r1 & Hr1 & S1 & P1 & O1).
  destruct (IH r1 (dstep_wf _ _ Hw Hone) Hr1 ltac:(by rewrite P1)) as (r2 & Hr2 & S2 & P2 & O2).
  exists r2. split_and!; [done|by apply (same_debate_trans r r1)|congruence..].
Qed.

(** ** The theorems *)


(** C4: safety. Every Decision that a daemon holds as signed by both sides
    passes the verification of its exported form: the bytes parse, steps 2
    to 5 find nothing, both signatures verify under the keys of the two
    participants, and the hash and id are the stored ones. *)
Theorem signed_decisions_verify (d : db X) r n : dreachable d → r ∈ debates (tables d) → d_peer r ≠ Self → n ∈ decisions (tables d) →
  n_session n = d_session r → n_state n = DecisionSigned →
  ∃ doc sigI sigR, n_sigI n = Some sigI ∧ n_sigR n = Some sigR ∧ ParseStrict (n_decision n) = Ok (VObject doc) ∧
    verify_decision doc (n_decision n) (n_hash n) sigI (Some sigR) =
      MkVerify true true 0 [RoleInitiator; RoleRespondent] (n_hash n) (n_id n) (keys r).1 (keys r).2 (n_decision n) sigI sigR.
Proof.
  intros Hd Hr Hp Hn Es Est. destruct (reachable_decision _ _ _ Hd Hr Hn Es) as [Did _ Dh (i & Hdi & [Si Sk _ _] & Hdv) Dsg].
  destruct (Derive_verifies i _ Hdi (Hdv Hp)) as (doc & Hparse & _ & _ & _ & Hver).
  assert (in_Initiator i = (keys r).1 ∧ in_Respondent i = (keys r).2) as [EI ER] by (by rewrite <- Sk).
  rewrite EI, ER, Si, <- Did, <- Dh in Hver. unfold signed_as, own_signed, peer_signed in Dsg. rewrite Est in Dsg. unfold keys in *.
  destruct (d_role r); destruct Dsg as [(s & Hs & Eo) (s' & Ep & Hv)]; destruct (sign_verifies _ _ Hs) as [Hvs _]; cbn in *.
  - exists doc, s, s'. split_and!; [done..|]. rewrite (Hver s (Some s')); [done..|]. by intros ? [= <-].
  - exists doc, s', s. split_and!; [done..|]. rewrite (Hver s' (Some s)); [done..|]. by intros ? [= <-].
Qed.

(** C5: safety. In the five kinds of debate mail the own key signs nothing but
    Decisions: a member sig of such a mail in the outbox is the signature of a
    Decision the daemon has stored, whose bytes it derived itself from entries
    it holds as applied or sent, below the close's count, and from constraints
    it has stored. The other side cannot obtain a Decision's signature under
    an argument, an answer or a constraint that the daemon has not seen. (The
    mail layer signs every mail and announcement with the same key; those
    signatures are the subject of MailOpen.v.) *)
Theorem signatures_cover_own_record (d : db X) m sig : dreachable d → m ∈ outbox d → m_kind m ∈ debate_kinds →
  member (bytes_of "sig") (m_body m) = Some (VString sig) →
  ∃ r n i, r ∈ debates (tables d) ∧ m_to m = d_peer r ∧ n ∈ decisions (tables d) ∧ n_session n = d_session r ∧ sign (n_decision n) = Ok sig ∧
    Derive i = Ok (n_decision n) ∧ supported (tables d) r i.
Proof.
  intros Hd Hm Hk Hsig. destruct (reachable_dinv _ Hd) as (_ & _ & Hi). destruct (di_mail _ Hi m Hm Hk) as (r & Hr & Eto & Hs).
  destruct (sends_sig _ _ _ _ _ Hs Hsig) as (n & Hn & Es & Hsg). destruct (reachable_decision _ _ _ Hd Hr Hn Es) as [_ _ _ (i & Hdi & Hsu & _) _].
  by exists r, n, i.
Qed.

(** C6: safety. The initiator's opening position stays sealed until the
    respondent's is in: a debate.reveal in the outbox is of a debate whose
    respondent position is applied here, and what it reveals, the nonce and
    the stored position, opens the commitment the debate was started with. *)
Theorem no_early_reveal (d : db X) m : dreachable d → m ∈ outbox d → m_kind m = MailReveal →
  ∃ r e nonce v, r ∈ debates (tables d) ∧ m_to m = d_peer r ∧ d_role r = RoleInitiator ∧ peer_position (tables d) (d_session r) ∧
    e ∈ entries (tables d) ∧ opens r nonce (e_canon e) ∧ entryValue (e_canon e) = Ok v ∧ m_body m = reveal_body r (e_at e) nonce v.
Proof.
  intros Hd Hm Hk. destruct (reachable_dinv _ Hd) as (Hw & _ & Hi).
  destruct (di_mail _ Hi m Hm) as (r & Hr & Eto & Hs); [rewrite Hk; vm_compute; set_solver|].
  destruct (sends_reveal_inv _ _ _ _ Hs Hk) as (Hrl & Hp & e & nonce & v & He & Es & E0 & Hn & Hv & Eb).
  destruct (di_entries _ Hi e He) as [_ (r' & Hr' & Es' & Hz & _)]. assert (r' = r) as -> by (apply (the_debate d); [done..|congruence]).
  destruct (Hz E0) as (_ & _ & nonce' & Hop & Hn'). specialize (Hn' Hrl). assert (nonce' = nonce) as -> by congruence.
  by exists r, e, nonce, v.
Qed.

(** C27: invariant. The entries that count are a play of the turn engine:
    each has the kind and the author of the turn that the entries before it
    leave, so there is no gap, no turn out of order and no second proposal,
    whatever arrives, held back, repeated or out of order. *)
Theorem transcripts_legal (d : db X) r : dreachable d → r ∈ debates (tables d) →
  ∃ tr, transcript_in (tables d) (d_session r) tr ∧
    ∀ s v, tr !! s = Some v → st_state v ∈ turnStates (d_role r) →
      (∃ ph rd, Next (below s (metas (turnStates (d_role r)) tr)) (d_roundsMax r) = NextTurn ph s (st_kind v) (st_author v) rd) ∧
      ∀ i, 0 ≤ i → turn_order i < turn_order s → ∃ v', tr !! i = Some v' ∧ st_state v' ∈ turnStates (d_role r).
Proof.
  intros Hd Hr. destruct (reachable_dinv _ Hd) as (_ & _ & Hi). destruct (di_legal _ Hi r Hr) as (tr & Ht & Hl). exists tr. split; [done|].
  intros s v Hv Hst. assert (metas (turnStates (d_role r)) tr !! s = Some (meta_of v)) as Hm.
  { rewrite lookup_metas, Hv. cbn. unfold hasState. by rewrite bool_decide_eq_true_2. }
  split; [by destruct (Hl _ _ Hm) as (ph & rd & Hn); exists ph, rd|]. intros i Hge Hlt. destruct (legal_before _ _ _ _ i Hl Hm Hge Hlt) as [m' Hm'].
  rewrite lookup_metas in Hm'. destruct (tr !! i) as [v'|] eqn:E; [|done]. exists v'. split; [done|]. cbn in Hm'.
  destruct (hasState v' _) eqn:Eh; [|done]. by apply bool_decide_eq_true in Eh.
Qed.

(** Safety. What is decided is final: a closed or broken debate keeps its
    phase and outcome, an applied or sent entry is never changed or removed,
    and neither is a Decision signed by both. *)
Theorem debates_final (d d' : db X) : dreachable d → rtc dtrans d d' →
  (∀ r, r ∈ debates (tables d) → d_phase r ∈ [PhaseClosed; PhaseBroken] →
     ∃ r', r' ∈ debates (tables d') ∧ same_debate r r' ∧ d_phase r' = d_phase r ∧ d_outcome r' = d_outcome r) ∧
  (∀ e, e ∈ entries (tables d) → e_state e ∈ [EntryApplied; EntrySent] → e ∈ entries (tables d')) ∧
  (∀ n, n ∈ decisions (tables d) → n_state n = DecisionSigned → n ∈ decisions (tables d')).
Proof.
  intros Hd Hr. destruct (reachable_dinv _ Hd) as (Hw & Hq & _). destruct (run_moves _ _ Hr Hw Hq) as [Hs _]. destruct (dsteps_wf _ _ Hw Hs) as [_ [LE LN _]].
  split_and!; [intros r Hin Hp; by apply (final_steps _ _ r Hw Hs)|exact LE|].
  intros n Hn Hst. destruct (LN n Hn) as (n' & Hn' & _ & _ & _ & F). by rewrite <- (F Hst).
Qed.

(** C28: bounds. A debate has 1 to 5 rounds and at most 14 entries, in the
    slots 0 to 13, and on the initiator at most 10 constraints count. *)
Theorem debates_bounded (d : db X) r : dreachable d → r ∈ debates (tables d) →
  1 ≤ d_roundsMax r ≤ 5 ∧ (∀ e, e ∈ rows_in (d_session r) (tables d) → 0 ≤ e_slot e ≤ MaxSlot) ∧
  (length (rows_in (d_session r) (tables d)) ≤ 14)%nat ∧
  (d_role r = RoleInitiator → (active_constraints (d_session r) (tables d) ≤ MaxActiveConstraints)%nat).
Proof.
  intros Hd Hr. destruct (reachable_dinv _ Hd) as (Hw & _ & Hi). split; [apply (ri_rounds _ (di_rows _ Hi r Hr))|].
  assert (∀ e, e ∈ rows_in (d_session r) (tables d) → 0 ≤ e_slot e ≤ MaxSlot) as Hsl.
  { intros e [He _]%list_elem_of_In%filter_In. apply list_elem_of_In in He. apply (ei_slot _ _ (di_entries _ Hi e He)). }
  split; [done|]. split; [|by apply (di_active _ Hi)].
  rewrite <- (length_map e_slot). change 14%nat with (length (seqZ 0 14)). apply submseteq_length, NoDup_submseteq; [by apply (rows_in_slots _ (outbox d))|].
  intros s (e & -> & He)%elem_of_map_list. apply elem_of_seqZ. specialize (Hsl e He). unfold MaxSlot in Hsl. lia.
Qed.

(** C29: functional. A close that is right is signed. When B holds the entries
    and constraints that A closed with, in whatever order its tables give
    them, B derives A's bytes, and with A's signature of them it agrees to
    sign those. *)
Theorem honest_close_agreed (r : debate) tr m (i : DeriveInput) canon sigA q (d : db X) :
  closeGap tr (d_roundsMax r) (cl_entries m) = GapNone →
  find_request (request_direction (d_role r)) (d_peer r) (d_requestID r) d = Some q →
  (in_Session i, in_Initiator i, in_Respondent i, in_Request i, RoundsMax i, Count i) =
    (d_session r, (keys r).1, (keys r).2, q_body q, d_roundsMax r, cl_entries m) →
  (in_Outcome i, in_Reason i, in_Closed i) = (cl_outcome m, cl_reason m, cb_at (cl_common m)) →
  Derive i = Ok canon → cl_signed m = Some (Hash canon, sigA) → VerifySignature (d_peer r) canon sigA = true →
  missingConstraints (d_session r) (cl_listed m) d = [] →
  derive_entries tr (cl_entries m) ≡ₚ Entries i → listed_constraints (d_session r) (cl_listed m) d ≡ₚ Constraints i → NoDup (map dc_ID (Constraints i)) →
  judgeClose r tr m d = Ok (Agree canon sigA, d).
Proof.
  intros Hgap Hq [= E1 E2 E3 E4 E5 E6] [= E7 E8 E9] Hd Hsig Hver Hmiss He Hc Hnd.
  assert (Derive (derive_input r tr (cl_entries m) (listed_constraints (d_session r) (cl_listed m) d) (cl_outcome m) (cl_reason m) (cb_at (cl_common m)) (q_body q)) = Ok canon) as Hown.
  { rewrite <- Hd. apply Derive_perm; cbn; congruence || done. }
  unfold judgeClose. rewrite Hgap. unfold mbind, tx_bind, tx_get at 1. rewrite Hmiss, bool_decide_eq_true_2 by done. cbn [negb].
  assert (deriveTx r tr (cl_entries m) (cl_listed m) (cl_outcome m) (cl_reason m) (cb_at (cl_common m)) d = Ok (canon, d)) as Hdt.
  { unfold deriveTx, request_row, mbind, tx_bind, tx_found, tx_get, tx_lift. by rewrite Hq, Hown. }
  unfold tx_try. rewrite Hdt, Hsig. cbn. rewrite bool_decide_eq_true_2 by done. by rewrite Hver.
Qed.

(** C30: roundtrip. A stored or revealed entry is determined by its bytes and
    its bytes by the entry: ParseEntry accepts exactly the canonical
    encodings, within the size cap, of the entries of its kind that pass the
    checks, and gives the entry back. *)
Theorem entry_roundtrip k data e : ParseEntry k data = Ok e ↔
  Kind e = k ∧ DebateEntry.Validate e = Ok tt ∧ DebateEntry.Canonical e = Ok data ∧ CheckSize data = Ok tt.
Proof. apply ParseEntry_spec. Qed.

(** C31: termination. The turn engine ends a debate whatever is said in it:
    from any entries, after at most as many turns as there are empty slots
    among those of the debate, the engine has no next turn and counts the
    debate as done. A debate of 5 rounds has 14 slots. *)
Theorem debate_ends rounds content entries : ∃ n s, (n ≤ slots_left rounds entries)%nat ∧ Next (play rounds content n entries) rounds = Done s.
Proof. destruct (play_ends rounds content (slots_left rounds entries) entries) as [s Hs]; [done|]. by exists (slots_left rounds entries), s. Qed.

(** Refinement. The debate store keeps the contract that the work session
    store was verified against: each of its hooks changes the session table
    only by closing the debate's session as CloseDebateTx does, and adds only
    the record of that session. *)
Theorem debate_store_lawful : DebateLaws (X:=X).
Proof.
  intros h Hh. rewrite wired in Hh. injection Hh as <-. cbn.
  split_and!; intros; [apply debate_OpenedTx|apply debate_CancelTx|apply debate_PeerCancelTx|apply debate_EarlyCompleteTx|apply debate_AbandonTx|
    apply debate_ReceivedTx|apply debate_EndedTx].
Qed.
End Claims.

(** ** Instances *)

Definition demo_row (d : db debate_tables) : debate := hd (new_debate [] RoleInitiator [] [] 0 0 [] None 0) (debates (tables d)).
Definition demo_decision : decision_row := hd (DecisionRow [] [] RoleInitiator [] [] [] None None None DecisionSigned [] []) (decisions (tables demo_db6)).
Definition demo_reveal : mail := nth 1 (outbox demo_db6) (Mail [] [] [] [] MailQueued None []).
Definition demo_close : mail := nth 2 (outbox demo_db6) (Mail [] [] [] [] MailQueued None []).
Definition demo_sig : bytes := Sign demo_priv demo_canon.

Lemma demo_in_row : demo_row demo_db4 ∈ debates (tables demo_db4) ∧ demo_row demo_db6 ∈ debates (tables demo_db6).
Proof. split; by vm_compute; left. Qed.

Lemma signed_decisions_verify_witness : ∃ doc sigI sigR, n_sigI demo_decision = Some sigI ∧ n_sigR demo_decision = Some sigR ∧
  ParseStrict (n_decision demo_decision) = Ok (VObject doc) ∧
  verify_decision doc (n_decision demo_decision) (n_hash demo_decision) sigI (Some sigR) =
    MkVerify true true 0 [RoleInitiator; RoleRespondent] (n_hash demo_decision) (n_id demo_decision)
      (keys (demo_row demo_db6)).1 (keys (demo_row demo_db6)).2 (n_decision demo_decision) sigI sigR.
Proof.
  refine (signed_decisions_verify demo_db6 (demo_row demo_db6) demo_decision (proj2 demo_reachable) (proj2 demo_in_row) _ _ _ _);
    [vm_compute; discriminate|vm_compute; by left|vm_compute; reflexivity|vm_compute; reflexivity].
Defined.
Lemma signatures_cover_own_record_witness : ∃ r n i, r ∈ debates (tables demo_db6) ∧ m_to demo_close = d_peer r ∧ n ∈ decisions (tables demo_db6) ∧
  n_session n = d_session r ∧ sign (n_decision n) = Ok demo_sig ∧ Derive i = Ok (n_decision n) ∧ supported (tables demo_db6) r i.
Proof.
  exact (signatures_cover_own_record demo_db6 demo_close demo_sig (proj2 demo_reachable) ltac:(vm_compute; do 2 right; by left)
    ltac:(vm_compute; set_solver) ltac:(vm_compute; reflexivity)).
Defined.
Lemma no_early_reveal_witness : ∃ r e nonce v, r ∈ debates (tables demo_db6) ∧ m_to demo_reveal = d_peer r ∧ d_role r = RoleInitiator ∧
  peer_position (tables demo_db6) (d_session r) ∧ e ∈ entries (tables demo_db6) ∧ opens r nonce (e_canon e) ∧ entryValue (e_canon e) = Ok v ∧
  m_body demo_reveal = reveal_body r (e_at e) nonce v.
Proof. exact (no_early_reveal demo_db6 demo_reveal (proj2 demo_reachable) ltac:(vm_compute; right; by left) ltac:(vm_compute; reflexivity)). Defined.
Lemma transcripts_legal_witness : ∃ tr, transcript_in (tables demo_db6) (d_session (demo_row demo_db6)) tr.
Proof. destruct (transcripts_legal demo_db6 (demo_row demo_db6) (proj2 demo_reachable) (proj2 demo_in_row)) as (tr & Ht & _). exists tr. exact Ht. Defined.
Lemma demo_settled : (0 < length (entries (tables demo_db4)))%nat ∧ forallb (λ e, bool_decide (e_state e ∈ [EntryApplied; EntrySent])) (entries (tables demo_db4)) = true.
Proof. split; [vm_compute; lia|vm_compute; reflexivity]. Qed.
Lemma debates_final_witness : Forall (λ e, e ∈ entries (tables demo_db6)) (entries (tables demo_db4)).
Proof.
  apply Forall_forall. intros e He.
  apply (proj1 (proj2 (debates_final demo_db4 demo_db6 (proj1 demo_reachable) (proj2 demo_steps))) e He).
  pose proof (proj1 (forallb_forall _ _) (proj2 demo_settled) e (proj1 (list_elem_of_In _ _) He)) as Hs. cbv beta in Hs. by apply bool_decide_eq_true in Hs.
Defined.
Lemma debates_bounded_witness : (length (rows_in (d_session (demo_row demo_db6)) (tables demo_db6)) ≤ 14)%nat.
Proof. exact (proj1 (proj2 (proj2 (debates_bounded demo_db6 (demo_row demo_db6) (proj2 demo_reachable) (proj2 demo_in_row))))). Defined.
(** The tables of the respondent give the entries in another order. *)
Lemma honest_close_agreed_witness : judgeClose resp_row resp_transcript peer_close resp_db4 = Ok (Agree peer_canon peer_sig, resp_db4).
Proof.
  refine (honest_close_agreed resp_row resp_transcript peer_close peer_input peer_canon peer_sig peer_row resp_db4
    ltac:(vm_compute; reflexivity) ltac:(vm_compute; reflexivity) ltac:(vm_compute; reflexivity) ltac:(vm_compute; reflexivity)
    ltac:(vm_compute; reflexivity) ltac:(vm_compute; reflexivity) ltac:(vm_compute; reflexivity) ltac:(vm_compute; reflexivity) _ ltac:(vm_compute; constructor)
    ltac:(vm_compute; constructor)).
  vm_compute. apply perm_swap.
Defined.
Lemma debate_store_lawful_witness : DebateLaws (X := debate_tables).
Proof. exact debate_store_lawful. Defined.
