(* ===== verification/Approvals.v ===== *)
(** * Human approvals (internal/approval)

    An action an agent asked for waits until a human types a one-time code
    that only a desktop notification (or the daemon's own terminal) showed.
    The table [approvals], the rolling window of wrong codes in [settings] and
    the other tables ([X], what an action changes) are [tables]; what the
    process holds in memory under Store.mu is the rest of [store].

    Every critical section is one operation. What a call still has to do
    outside the lock (wait for a dialog, show the code, settle a row) is a
    [job]: jobs of different calls run in any order, which is the interleaving
    of the daemon's goroutines. A stopped timer or a cancelled watch may still
    run once: Stop and cancel come too late for a goroutine that waits for the
    lock, so timers and watches are not switched off here.

    A database call fails when [broken] says so of its number in the
    operation; the audit rows of a removal (AppendTxSoft) are lost when
    [rowless] says so, those of a creation and an approval fail with their
    transaction. The clock is read once per operation. The view that a call
    answers with is the one Show gives once the call's jobs are done. *)

From S2P Require Import Prelude Utf8 Canonical Strconv DisplayText WireTime Body.

Open Scope Z_scope.

(** ** Kinds, states, limits (approval.go) *)

Definition validKinds : list bytes := map bytes_of
  ["grant"; "grant_policy"; "release"; "accept_result"; "device_link"; "device_scope"; "debate_constraint";
   "peer_verify"; "team_invite"; "data_prune"]%string.

Inductive approval_state := StatePending | StateApproved | StateRejected | StateExpired.
#[export] Instance approval_state_eq_dec : EqDecision approval_state.
Proof. solve_decision. Defined.

Definition TTL : Z := 600 * second.
Definition MaxAttempts : Z := 3.
Definition MaxPending : nat := 5.
Definition MaxPerHour : nat := 20.
Definition MaxWrongPerDay : nat := 10.
Definition hour : Z := 3600 * second.
Definition WrongCodeWindow : Z := 24 * hour.
Definition decidedRetention : Z := 30 * 24 * hour.
Definition expireRetries : nat := 12.

Inductive approval_error (E : Type) :=
| ErrUnknown | ErrExpired | ErrLimit | ErrLocked | ErrUnavailable | ErrTerminalMode | ErrAmbiguousTag | ErrChanged
| ErrNotDisplaySafe
| BadCodeError (attemptsLeft : Z)
| ErrBadKind | ErrBadReason | ErrRandom
| ErrDatabase (call : nat)
| ErrAction (e : E).
Arguments ErrUnknown {E}.
Arguments ErrExpired {E}.
Arguments ErrLimit {E}.
Arguments ErrLocked {E}.
Arguments ErrUnavailable {E}.
Arguments ErrTerminalMode {E}.
Arguments ErrAmbiguousTag {E}.
Arguments ErrChanged {E}.
Arguments ErrNotDisplaySafe {E}.
Arguments BadCodeError {E}.
Arguments ErrBadKind {E}.
Arguments ErrBadReason {E}.
Arguments ErrRandom {E}.
Arguments ErrDatabase {E}.
Arguments ErrAction {E}.

(** ** The tables *)

(** One row of approvals, in rowid order in the table. *)
Record row := Row {
  a_id : bytes; a_kind : bytes; a_subject : bytes; a_summary : bytes; a_created : bytes; a_expires : bytes;
  a_attempts : Z; a_state : approval_state; a_decided : option bytes;
}.
Definition decide_row (st : approval_state) (decided : bytes) (r : row) : row :=
  Row (a_id r) (a_kind r) (a_subject r) (a_summary r) (a_created r) (a_expires r) (a_attempts r) st (Some decided).
Definition count_row (attempts : Z) (st : approval_state) (decided : option bytes) (r : row) : row :=
  Row (a_id r) (a_kind r) (a_subject r) (a_summary r) (a_created r) (a_expires r) attempts st decided.

(** The value of settings under approval.wrong_codes. *)
Inductive setting := NoRow | Garbled | Times (l : list bytes).

(** What each database call of an operation does. *)
Record faults := Faults { broken : nat → bool; rowless : nat → bool }.
Definition no_faults : faults := Faults (λ _, false) (λ _, false).

(** The approval key and HMAC-SHA256, and whether there is a window: desktop
    mode, or terminal mode without one. *)
Class ApprovalEnv := { hmac : bytes → bytes → bytes; approval_key : bytes; desktop : bool }.

(** ** Codes *)

(** newCode: rejection sampling over 24-bit draws, then six digits. *)
Definition code_modulus : Z := 1000000.
Definition code_limit : Z := 2 ^ 24 - 2 ^ 24 mod code_modulus.
Fixpoint newCode (draws : list Z) : option bytes :=
  match draws with
  | [] => None
  | v :: draws => if v <? code_limit then Some (pad 6 (v mod code_modulus)) else newCode draws
  end.

Definition isSixDigits (v : bytes) : bool := (length v =? 6)%nat && forallb is_digit v.

Definition codeMAC `{ApprovalEnv} (id code : bytes) : bytes :=
  hmac approval_key (bytes_of "dorylinae-approval-v2" ++ [0x0A] ++ id ++ [0x0A] ++ code).

Definition tagOf (id : bytes) : bytes := take 8 id.

Definition deliveryText (desk : bool) (tag summary code : bytes) : bytes * bytes :=
  if desk then
    (bytes_of "AgentNet code " ++ code ++ bytes_of " for approval " ++ tag,
     summary ++ bytes_of " Type this code only into the AgentNet approval window " ++ tag ++
       bytes_of ". AgentNet never asks for it in a terminal, a chat or an agent.")
  else
    (bytes_of "AgentNet approval " ++ tag,
     summary ++ bytes_of ". Code " ++ code ++ bytes_of ". Type " ++ [0x22] ++ tag ++ [0x20] ++ code ++ [0x22] ++
       bytes_of " to approve or " ++ [0x22] ++ bytes_of "reject " ++ tag ++ [0x22] ++ bytes_of " to reject.").

(** ** The rolling window of wrong codes (settings.go) *)

Definition wrongCodesIn (v : setting) (now : Z) : list Z :=
  match v with
  | NoRow => []
  | Garbled => replicate MaxWrongPerDay now
  | Times l => List.filter (λ t, now - WrongCodeWindow <? t) (omap parse_store l)
  end.
Definition saveWrongCodes (times : list Z) : setting := Times (map storeTime times).
Definition Locked (v : setting) (now : Z) : bool := (MaxWrongPerDay <=? length (wrongCodesIn v now))%nat.
Definition recordWrongCodeIn (v : setting) (now : Z) : setting * bool :=
  let times := wrongCodesIn v now ++ [now] in
  (saveWrongCodes times, (MaxWrongPerDay <=? length times)%nat).

Section Store.
Context {X E : Type} `{Unicode} `{ApprovalEnv}.

(** ** The store *)

(** The waiting action. Its hooks run in the confirm transaction: they read
    the approvals and change other tables only. Perform also says whether its
    result has an AfterCommit; [OnReject] whether that hook is set. *)
Record Action := MkAction {
  Precondition : option (list row → X → result E X);
  Rebuild : option (list row → X → result E bytes);
  Perform : option (list row → X → result E (X * bool));
  OnReject : bool;
}.

(** live: the memory half of a pending approval. *)
Record live := Live {
  l_mac : bytes; l_action : Action; l_handle : option Z; l_reserved : bool; l_opening : bool; l_attempts : Z;
}.
Definition with_handle (h : option Z) (e : live) : live := Live (l_mac e) (l_action e) h (l_reserved e) (l_opening e) (l_attempts e).
Definition with_opening (b : bool) (e : live) : live := Live (l_mac e) (l_action e) (l_handle e) (l_reserved e) b (l_attempts e).
Definition with_attempts (n : Z) (e : live) : live := Live (l_mac e) (l_action e) (l_handle e) (l_reserved e) (l_opening e) n.

Record tables := Tables { rows : list row; wrong : setting; ext : X }.

(** The variables of Create that outlive its first critical section. *)
Record creation := Creation {
  c_id : bytes; c_kind : bytes; c_subject : bytes; c_summary : bytes; c_action : Action; c_now : Z; c_handle : option Z;
}.

Inductive job :=
| AwaitWindow (c : creation)                      (* Create: window.Start and Ready *)
| AwaitCode (c : creation)                        (* Create: newCode and notifier.Show *)
| AwaitInsert (c : creation) (code : bytes)       (* Create: the second critical section *)
| AwaitWatch (id : bytes) (h : Z)                 (* startWatch *)
| Watching (id : bytes) (h : Z)                   (* handle.Answer *)
| Answered (id : bytes) (kind code : bytes)       (* onWindowAnswer, after it forgot the dialog *)
| Reopen (id : bytes) (message : bytes)           (* reopen *)
| AwaitReopen (id : bytes) (message : bytes)      (* reopen: startWindow *)
| AwaitReopened (id : bytes) (h : Z)              (* reopen: the second critical section *)
| RejectRow (id reason via : bytes) (h : option Z) (hook : bool)    (* Kill, rejectRow, OnReject *)
| RejectIds (ids : list bytes)                    (* RejectSubjects: the rest of its loop *)
| ExpireRow (id decided : bytes) (hook : bool)    (* expireNow: writeExpired *)
| RetryExpire (id decided : bytes) (n : nat).     (* retryExpired, attempt n *)

Record store := Store {
  tab : tables;
  pending : gmap bytes live;
  closed : bool;
  unwritten : gset bytes;
  jobs : list job;
  running : gset Z;                               (* dialogs neither killed nor exited *)
}.
Definition with_tab (t : tables) (s : store) : store := Store t (pending s) (closed s) (unwritten s) (jobs s) (running s).
Definition with_pending (p : gmap bytes live) (s : store) : store := Store (tab s) p (closed s) (unwritten s) (jobs s) (running s).
Definition with_jobs (l : list job) (s : store) : store := Store (tab s) (pending s) (closed s) (unwritten s) l (running s).
Definition with_running (r : gset Z) (s : store) : store := Store (tab s) (pending s) (closed s) (unwritten s) (jobs s) r.
Definition with_unwritten (u : gset bytes) (s : store) : store := Store (tab s) (pending s) (closed s) u (jobs s) (running s).
Definition with_closed (s : store) : store := Store (tab s) (pending s) true (unwritten s) (jobs s) (running s).

Definition later (l : list job) (s : store) : store := with_jobs (jobs s ++ l) s.
Definition put (id : bytes) (e : live) (s : store) : store := with_pending (<[id := e]> (pending s)) s.
Definition drop_entry (id : bytes) (s : store) : store := with_pending (delete id (pending s)) s.
Definition start (h : Z) (s : store) : store := with_running ({[h]} ∪ running s) s.
Definition stop (h : option Z) (s : store) : store :=
  match h with Some h => with_running (running s ∖ {[h]}) s | None => s end.

(** What a step shows the outside. [Wrong] and [Approve] are the two results
    of comparing a code, with the code. *)
Inductive out :=
| ShowCode (id code : bytes) (expires : Z) (title text : bytes)
| Warn
| RemoveNote (id : bytes)
| Kill (h : Z)
| Hook (id : bytes)                               (* OnReject ran *)
| AfterCommit (id : bytes)
| Wrong (id code : bytes) (now : Z) (counted : bool)
| Approve (id code : bytes) (now : Z)
| Audited (actor action : bytes) (detail : body).

Definition kill (h : option Z) : list out := match h with Some h => [Kill h] | None => [] end.
Definition hook (id : bytes) (a : Action) : list out := if OnReject a then [Hook id] else [].

Inductive answer :=
| Done | Approved | Viewed (id kind summary created expires : bytes) (st : approval_state) (left : Z) (window : bytes)
| Listed (l : list answer) | Resolved (id : bytes) | Failed (e : approval_error E).
Definition outcome_ : Type := store * list out * answer.

(** ** Reads *)

Definition find_row (id : bytes) (l : list row) : option row := List.find (λ r, bool_decide (a_id r = id)) l.
Definition update_rows (id : bytes) (f : row → row) (l : list row) : list row :=
  map (λ r, if bool_decide (a_id r = id) then f r else r) l.
Definition with_rows (l : list row) (t : tables) : tables := Tables l (wrong t) (ext t).

Definition kindSubjectIn (id : bytes) (l : list row) : body :=
  match find_row id l with
  | Some r => [(bytes_of "kind", VString (a_kind r)); (bytes_of "subject", VString (a_subject r))]
  | None => [(bytes_of "kind", VString []); (bytes_of "subject", VString [])]
  end.
Definition audit_reject (id reason via : bytes) (l : list row) : out :=
  Audited (bytes_of "daemon") (bytes_of "approval.reject")
    ((bytes_of "id", VString id) :: kindSubjectIn id l ++ (bytes_of "reason", VString reason) :: opt_member "via" via).
Definition audit_limit (reason : string) : out :=
  Audited (bytes_of "daemon") (bytes_of "approval.limit") [(bytes_of "reason", VString (bytes_of reason))].
(** A row written with AppendTxSoft, as the transaction's number says. *)
Definition soft (f : faults) (k : nat) (l : list out) : list out := if rowless f k then [] else l.

Definition unknownOrExpired (id : bytes) (f : faults) (k : nat) (s : store) : approval_error E :=
  if broken f k then ErrDatabase k else
  match find_row id (rows (tab s)) with
  | None => ErrUnknown
  | Some r => if bool_decide (a_state r = StateExpired) || bool_decide (id ∈ unwritten s) then ErrExpired else ErrUnknown
  end.

Definition windowState (id : bytes) (s : store) : bytes :=
  if negb desktop then bytes_of "terminal" else
  match pending s !! id with
  | Some e => if bool_decide (l_handle e = None) then bytes_of "closed" else bytes_of "open"
  | None => bytes_of "closed"
  end.
Definition attemptsLeft (attempts : Z) : Z := Z.max 0 (MaxAttempts - attempts).
Definition view_row (r : row) (st : approval_state) (s : store) : answer :=
  Viewed (a_id r) (a_kind r) (a_summary r) (a_created r) (a_expires r) st (attemptsLeft (a_attempts r)) (windowState (a_id r) s).

Definition Show (id : bytes) (f : faults) (k : nat) (s : store) : answer :=
  if broken f k then Failed (ErrDatabase k) else
  match find_row id (rows (tab s)) with
  | None => Failed ErrUnknown
  | Some r => view_row r (if bool_decide (a_state r = StatePending) && bool_decide (id ∈ unwritten s)
                          then StateExpired else a_state r) s
  end.

Definition ResolveTag (tag : bytes) (s : store) : answer :=
  if (length tag <? 8)%nat then Failed ErrUnknown else
  match List.filter (λ p : bytes * live, negb (l_reserved p.2) && has_prefix tag p.1) (map_to_list (pending s)) with
  | [] => Failed ErrUnknown
  | [p] => Resolved p.1
  | _ => Failed ErrAmbiguousTag
  end.

(** ** Expiry *)

(** checkExpiryLocked: the row's state is written when now has reached its
    expiry. A stored time that does not parse is an error. *)
Definition checkExpiryLocked (id : bytes) (now : Z) (f : faults) (k : nat) (t : tables) : result (approval_error E) (bool * tables * list out) :=
  if broken f k then Err (ErrDatabase k) else
  match find_row id (rows t) with
  | None => Err (ErrDatabase k)
  | Some r =>
      match parse_store (a_expires r) with
      | None => Err (ErrDatabase k)
      | Some expires =>
          if now <? expires then Ok (false, t, [])
          else if broken f (S k) then Err (ErrDatabase (S k))
          else Ok (true, with_rows (update_rows id (decide_row StateExpired (storeTime now)) (rows t)) t,
                   soft f (S k) [audit_reject id (bytes_of "expired") [] (rows t)])
      end
  end.

(** sweepExpiredLocked, over the map's entries in the order [ids]: what
    happens under the lock, the hooks for afterwards, the first error. *)
Fixpoint sweepExpiredLocked (ids : list bytes) (now : Z) (f : faults) (k : nat) (s : store)
  : store * list out * list out * option (approval_error E) :=
  match ids with
  | [] => (s, [], [], None)
  | id :: ids =>
      match pending s !! id with
      | None => sweepExpiredLocked ids now f k s
      | Some e =>
          if l_reserved e then sweepExpiredLocked ids now f k s else
          match checkExpiryLocked id now f k (tab s) with
          | Err err => (s, [], [], Some err)
          | Ok (false, _, _) => sweepExpiredLocked ids now f (k + 2) s
          | Ok (true, t, o) =>
              let '(s', o', hooks, err) := sweepExpiredLocked ids now f (k + 2) (stop (l_handle e) (drop_entry id (with_tab t s))) in
              (s', o ++ kill (l_handle e) ++ RemoveNote id :: o', hook id (l_action e) ++ hooks, err)
          end
      end
  end.

Definition prunable (now : Z) (r : row) : bool :=
  negb (bool_decide (a_state r = StatePending)) &&
  match a_decided r with Some d => text_lt d (storeTime (now - decidedRetention)) | None => false end.
Definition pruneDecided (now : Z) (f : faults) (k : nat) (t : tables) : tables :=
  if broken f k then t else with_rows (List.filter (λ r, negb (prunable now r)) (rows t)) t.

Definition countCreatedSince (since : bytes) (t : tables) : nat :=
  length (List.filter (λ r, text_le since (a_created r)) (rows t)).

(** ** Create *)

Definition dropReserved (id : bytes) (s : store) : store :=
  match pending s !! id with
  | Some e => if l_reserved e then drop_entry id s else s
  | None => s
  end.

(** Create up to the reservation: [id] is the one newID drew. *)
Definition Create (id kind subject summary : bytes) (action : Action) (order : list bytes) (now : Z) (f : faults) (s : store) : outcome_ :=
  if negb (bool_decide (kind ∈ validKinds)) then (s, [], Failed ErrBadKind) else
  if negb (Safe summary) then (s, [], Failed ErrNotDisplaySafe) else
  if broken f 0 then (s, [], Failed (ErrDatabase 0)) else
  if Locked (wrong (tab s)) now then (s, [], Failed ErrLocked) else
  let '(s, o, hooks, err) := sweepExpiredLocked order now f 3 s in
  match err with
  | Some err => (s, o ++ hooks, Failed err)
  | None =>
      let s := with_tab (pruneDecided now f 1 (tab s)) s in
      if (MaxPending <=? size (pending s))%nat then (s, o ++ audit_limit "pending" :: hooks, Failed ErrLimit) else
      if broken f 2 then (s, o ++ hooks, Failed (ErrDatabase 2)) else
      if (MaxPerHour <=? countCreatedSince (storeTime (now - hour)) (tab s))%nat
      then (s, o ++ audit_limit "hourly" :: hooks, Failed ErrLimit) else
      if closed s then (s, o ++ hooks, Failed ErrUnavailable) else
      let c := Creation id kind subject summary action now None in
      (later [if desktop then AwaitWindow c else AwaitCode c] (put id (Live [] action None true false 0) s), o ++ hooks, Done)
  end.

(** The dialog is [ready], or it never was. *)
Definition create_window (c : creation) (ready : option Z) (s : store) : outcome_ :=
  match ready with
  | None => (dropReserved (c_id c) s, [], Failed ErrUnavailable)
  | Some h =>
      let s := start h s in
      let s := match pending s !! c_id c with Some e => put (c_id c) (with_handle (Some h) e) s | None => s end in
      (later [AwaitCode (Creation (c_id c) (c_kind c) (c_subject c) (c_summary c) (c_action c) (c_now c) (Some h))] s, [], Done)
  end.

Definition abandon (c : creation) (s : store) : store := stop (c_handle c) (dropReserved (c_id c) s).
Definition create_code (c : creation) (draws : list Z) (shown : bool) (s : store) : outcome_ :=
  match newCode draws with
  | None => (abandon c s, kill (c_handle c), Failed ErrRandom)
  | Some code =>
      if negb shown then (abandon c s, kill (c_handle c), Failed ErrUnavailable) else
      let '(title, text) := deliveryText desktop (tagOf (c_id c)) (c_summary c) code in
      (later [AwaitInsert c code] s, [ShowCode (c_id c) code (c_now c + TTL) title text], Done)
  end.

Definition new_row (c : creation) : row :=
  Row (c_id c) (c_kind c) (c_subject c) (c_summary c) (storeTime (c_now c)) (storeTime (c_now c + TTL)) 0 StatePending None.
(** The insert fails on a database error, on a taken id, and with its audit row. *)
Definition insertApproval (c : creation) (f : faults) (t : tables) : result (approval_error E) tables :=
  if broken f 0 || existsb (λ r, bool_decide (a_id r = c_id c)) (rows t) then Err (ErrDatabase 0)
  else Ok (with_rows (rows t ++ [new_row c]) t).

Definition create_insert (c : creation) (code : bytes) (now : Z) (f : faults) (s : store) : outcome_ :=
  let id := c_id c in
  match pending s !! id with
  | Some e =>
      if closed s then
        (stop (c_handle c) (drop_entry id s), kill (c_handle c) ++ [RemoveNote id],
         Failed (if negb (broken f 1) && Locked (wrong (tab s)) now then ErrLocked else ErrUnavailable))
      else
      match insertApproval c f (tab s) with
      | Err err => (stop (c_handle c) (drop_entry id s), kill (c_handle c) ++ [RemoveNote id], Failed err)
      | Ok t =>
          let e := Live (codeMAC id code) (l_action e) (l_handle e) false (l_opening e) (l_attempts e) in
          let s := put id e (with_tab t s) in
          (later (match c_handle c with Some h => [AwaitWatch id h] | None => [] end) s,
           [Audited (bytes_of "cli") (bytes_of "approval.create")
              [(bytes_of "id", VString id); (bytes_of "kind", VString (c_kind c)); (bytes_of "subject", VString (c_subject c))]],
           view_row (new_row c) StatePending s)
      end
  | None =>
      (stop (c_handle c) s, kill (c_handle c) ++ [RemoveNote id],
       Failed (if negb (broken f 1) && Locked (wrong (tab s)) now then ErrLocked else ErrUnavailable))
  end.

(** ** Confirm *)

(** recordBadCode: one transaction for both counts. *)
Definition recordBadCode (id via : bytes) (now : Z) (f : faults) (k : nat) (t : tables)
  : result (approval_error E) (Z * bool * bool * tables * list out) :=
  if broken f k then Err (ErrDatabase k) else
  match find_row id (rows t) with
  | None => Err (ErrDatabase k)
  | Some r =>
      let attempts := a_attempts r + 1 in
      let rejected := MaxAttempts <=? attempts in
      let st := if rejected then StateRejected else StatePending in
      let decided := if rejected then Some (storeTime now) else None in
      let '(w, locked) := recordWrongCodeIn (wrong t) now in
      Ok (attemptsLeft attempts, rejected, locked,
          Tables (update_rows id (count_row attempts st decided) (rows t)) w (ext t),
          soft f k (Audited (bytes_of "daemon") (bytes_of "approval.bad_code")
                      [(bytes_of "id", VString id); (bytes_of "attempts_left", VNumber (Itoa (attemptsLeft attempts)));
                       (bytes_of "via", VString via)] ::
                    (if rejected then [audit_reject id (bytes_of "attempts") via (rows t)] else []) ++
                    (if locked then [Audited (bytes_of "daemon") (bytes_of "approval.locked") [(bytes_of "wrong_codes", VNumber (Itoa 10))]]
                     else [])))
  end.

(** dropAllLocked, with the work of lockAll for each row there is. *)
Definition lock_jobs (p : gmap bytes live) : list job :=
  flat_map (λ x : bytes * live, if l_reserved x.2 then [] else [RejectRow x.1 (bytes_of "locked") [] (l_handle x.2) (OnReject (l_action x.2))])
    (map_to_list p).
Definition dropAllLocked (s : store) : store := later (lock_jobs (pending s)) (with_pending ∅ s).

(** A wrong code. The handle is forgotten: the dialog exited after its answer. *)
Definition confirm_wrong (id code via : bytes) (e : live) (now : Z) (f : faults) (s : store) : outcome_ :=
  let e' := with_attempts (l_attempts e + 1) (with_handle None e) in
  match recordBadCode id via now f 2 (tab s) with
  | Err err =>
      (later [RejectRow id (bytes_of "attempts") via None (OnReject (l_action e))] (stop (l_handle e) (drop_entry id s)),
       Wrong id code now false :: kill (l_handle e), Failed err)
  | Ok (remaining, rejected, locked, t, audit) =>
      let settle := negb rejected && (MaxAttempts <=? l_attempts e') in
      let reject := rejected || settle in
      let s := with_tab t s in
      let s := if reject then stop (l_handle e) (drop_entry id s) else put id e' s in
      let s := if settle then later [RejectRow id (bytes_of "attempts") via None (OnReject (l_action e))] s else s in
      let s := if locked then dropAllLocked s else s in
      (s, Wrong id code now true :: audit ++ (if reject then kill (l_handle e) else []) ++
          (if rejected then hook id (l_action e) else []) ++ (if locked then [Warn] else []),
       Failed (BadCodeError (if settle then 0 else remaining)))
  end.

(** checkAction: Precondition, then the summary rebuilt and compared. *)
Definition checkAction (id : bytes) (a : Action) (f : faults) (l : list row) (x : X) : result (approval_error E) X :=
  let checked := match Precondition a with
                 | Some p => match p l x with Ok x => Ok x | Err e => Err (ErrAction e) end
                 | None => Ok x
                 end in
  match checked with
  | Err e => Err e
  | Ok x =>
      match Rebuild a with
      | None => Ok x
      | Some rebuild =>
          if broken f 4 then Err (ErrDatabase 4) else
          match find_row id l with
          | None => Err (ErrDatabase 4)
          | Some r => match rebuild l x with
                      | Err e => Err (ErrAction e)
                      | Ok text => if bool_decide (text = a_summary r) then Ok x else Err ErrChanged
                      end
          end
      end
  end.
Definition perform (a : Action) (l : list row) (x : X) : result (approval_error E) (X * bool) :=
  match Perform a with
  | Some p => match p l x with Ok y => Ok y | Err e => Err (ErrAction e) end
  | None => Ok (x, false)
  end.

(** A right code: the row, the check and the action in one transaction. *)
Definition confirm_right (id code via : bytes) (e : live) (now : Z) (f : faults) (s : store) : outcome_ :=
  let a := l_action e in
  let kept := put id (with_handle None e) s in
  if broken f 2 then (kept, [], Failed (ErrDatabase 2)) else
  if broken f 3 then (kept, [], Failed (ErrDatabase 3)) else
  let l := update_rows id (decide_row StateApproved (storeTime now)) (rows (tab s)) in
  match checkAction id a f l (ext (tab s)) with
  | Err err => (later [RejectRow id (bytes_of "precondition") via None (OnReject a)] (stop (l_handle e) (drop_entry id s)),
                kill (l_handle e), Failed err)
  | Ok x =>
      if broken f 5 then (kept, [], Failed (ErrDatabase 5)) else
      match perform a l x with
      | Err err => (kept, [], Failed err)
      | Ok (x, after) =>
          if broken f 6 then (kept, [], Failed (ErrDatabase 6)) else
          (stop (l_handle e) (drop_entry id (with_tab (Tables l (wrong (tab s)) x) s)),
           Audited (bytes_of "cli") (bytes_of "approval.approve")
             ((bytes_of "id", VString id) :: kindSubjectIn id l ++ [(bytes_of "via", VString via)]) ::
           Approve id code now :: kill (l_handle e) ++ RemoveNote id :: (if after then [AfterCommit id] else []), Approved)
      end
  end.

Definition confirm (id code via : bytes) (now : Z) (f : faults) (s : store) : outcome_ :=
  match pending s !! id with
  | None => (s, [], Failed (unknownOrExpired id f 0 s))
  | Some e =>
      if l_reserved e then (s, [], Failed (unknownOrExpired id f 0 s)) else
      match checkExpiryLocked id now f 0 (tab s) with
      | Err err => (s, [], Failed err)
      | Ok (true, t, audit) =>
          (stop (l_handle e) (drop_entry id (with_tab t s)), audit ++ kill (l_handle e) ++ RemoveNote id :: hook id (l_action e), Failed ErrExpired)
      | Ok (false, _, _) =>
          if bool_decide (codeMAC id code = l_mac e) then confirm_right id code via e now f s else confirm_wrong id code via e now f s
      end
  end.
Definition Confirm (id code : bytes) (now : Z) (f : faults) (s : store) : outcome_ := confirm id code (bytes_of "terminal") now f s.

(** ** Reject *)

Definition takePending (id : bytes) (s : store) : option (live * store) :=
  match pending s !! id with
  | Some e => if l_reserved e then None else Some (e, drop_entry id s)
  | None => None
  end.
Definition reject_job (id reason via : bytes) (e : live) : job := RejectRow id reason via (l_handle e) (OnReject (l_action e)).
Definition rejectWith (id reason via : bytes) (f : faults) (s : store) : outcome_ :=
  match takePending id s with
  | None => (s, [], Failed (unknownOrExpired id f 0 s))
  | Some (e, s) => (later [reject_job id reason via e] s, [], Done)
  end.
Definition Reject (id via : bytes) (f : faults) (s : store) : outcome_ := rejectWith id (bytes_of "user") via f s.
Definition reject_reasons : list bytes := map bytes_of ["superseded"; "unlinked"; "scope_cleared"]%string.
Definition RejectFor (id reason : bytes) (f : faults) (s : store) : outcome_ :=
  if bool_decide (reason ∈ reject_reasons) then rejectWith id reason [] f s else (s, [], Failed ErrBadReason).

(** rejectRow after the window is killed; then the hook. A failing update is
    ignored. *)
Definition rejectRow (id reason via : bytes) (h : option Z) (with_hook : bool) (now : Z) (f : faults) (s : store) : outcome_ :=
  let o := kill h ++ RemoveNote id :: (if with_hook then [Hook id] else []) in
  if broken f 0 then (stop h s, o, Done) else
  (stop h (with_tab (with_rows (update_rows id (decide_row StateRejected (storeTime now)) (rows (tab s))) (tab s)) s),
   soft f 0 [audit_reject id reason via (rows (tab s))] ++ o, Done).

Fixpoint pending_subjects (subjects : list bytes) (f : faults) (k : nat) (l : list row) : list bytes :=
  match subjects with
  | [] => []
  | subj :: subjects =>
      (if broken f k then []
       else map a_id (List.filter (λ r, bool_decide (a_state r = StatePending) && bool_decide (a_subject r = subj)) l)) ++
      pending_subjects subjects f (S k) l
  end.
Definition RejectSubjects (subjects : list bytes) (f : faults) (s : store) : outcome_ :=
  (later [RejectIds (pending_subjects subjects f 0 (rows (tab s)))] s, [], Done).
Definition reject_ids (ids : list bytes) (s : store) : outcome_ :=
  match ids with
  | [] => (s, [], Done)
  | id :: ids =>
      match takePending id s with
      | None => (later [RejectIds ids] s, [], Done)
      | Some (e, s) => (later [reject_job id (bytes_of "precondition") [] e; RejectIds ids] s, [], Done)
      end
  end.

(** ** The per-approval timer *)

(** expireNow. A reserved slot has no timer yet. *)
Definition expireNow (id : bytes) (now : Z) (s : store) : outcome_ :=
  match takePending id s with
  | None => (s, [], Done)
  | Some (e, s) => (later [ExpireRow id (storeTime now) (OnReject (l_action e))] (stop (l_handle e) s), kill (l_handle e), Done)
  end.

(** writeExpired: only a row still pending; [None] is a failed write. *)
Definition writeExpired (id decided : bytes) (f : faults) (t : tables) : option (tables * bool * list out) :=
  if broken f 0 then None else
  match find_row id (rows t) with
  | Some r =>
      if bool_decide (a_state r = StatePending)
      then Some (with_rows (update_rows id (decide_row StateExpired decided) (rows t)) t, true,
                 soft f 0 [audit_reject id (bytes_of "expired") [] (rows t)])
      else Some (t, false, [])
  | None => Some (t, false, [])
  end.

Definition expire_row (id decided : bytes) (with_hook : bool) (f : faults) (s : store) : outcome_ :=
  let o := RemoveNote id :: (if with_hook then [Hook id] else []) in
  match writeExpired id decided f (tab s) with
  | None => (later [RetryExpire id decided 1] (with_unwritten ({[id]} ∪ unwritten s) s), o, Done)
  | Some (t, written, audit) => (with_tab t s, audit ++ (if written then o else []), Done)
  end.
(** retryExpired: attempt [n], until expireRetries or Close. *)
Definition retry_expire (id decided : bytes) (n : nat) (f : faults) (s : store) : outcome_ :=
  if (expireRetries <? n)%nat || closed s then (s, [], Done) else
  match writeExpired id decided f (tab s) with
  | None => (later [RetryExpire id decided (S n)] s, [], Done)
  | Some (t, _, audit) => (with_unwritten (unwritten s ∖ {[id]}) (with_tab t s), audit, Done)
  end.

(** ** Windows *)

Definition OpenWindow (id : bytes) (f : faults) (s : store) : outcome_ :=
  if negb desktop then (s, [], Failed ErrTerminalMode) else
  match pending s !! id with
  | None => (s, [], Failed (unknownOrExpired id f 0 s))
  | Some e =>
      if l_reserved e then (s, [], Failed (unknownOrExpired id f 0 s)) else
      let o := [Audited (bytes_of "cli") (bytes_of "approval.open") [(bytes_of "id", VString id)]] in
      if bool_decide (l_handle e ≠ None) || l_opening e then (s, o, Done) else (later [Reopen id []] s, o, Done)
  end.

(** reopen: at most one window per approval. *)
Definition reopen (id message : bytes) (s : store) : outcome_ :=
  if negb desktop then (s, [], Done) else
  match pending s !! id with
  | None => (s, [], Done)
  | Some e =>
      if l_reserved e || l_opening e || bool_decide (l_handle e ≠ None) || closed s then (s, [], Done)
      else (later [AwaitReopen id message] (put id (with_opening true e) s), [], Done)
  end.
Definition clear_opening (id : bytes) (s : store) : store :=
  match pending s !! id with Some e => put id (with_opening false e) s | None => s end.
(** startWindow: the dialog is [ready], or it never was, or the row is not
    pending any more. *)
Definition start_window (id : bytes) (ready : option Z) (f : faults) (s : store) : outcome_ :=
  match Show id f 0 s, ready with
  | Viewed _ _ _ _ expires StatePending _ _, Some h =>
      match parse_store expires with
      | Some _ => (later [AwaitReopened id h] (start h s), [], Done)
      | None => (clear_opening id s, [], Done)
      end
  | _, _ => (clear_opening id s, [], Done)
  end.
Definition reopened (id : bytes) (h : Z) (s : store) : outcome_ :=
  match pending s !! id with
  | None => (stop (Some h) s, [Kill h], Done)
  | Some e =>
      if closed s then (stop (Some h) (put id (with_opening false e) s), [Kill h], Done)
      else (later [AwaitWatch id h] (put id (with_handle (Some h) (with_opening false e)) s), [], Done)
  end.

Definition startWatch (id : bytes) (h : Z) (s : store) : outcome_ :=
  match pending s !! id with
  | Some e => if bool_decide (l_handle e = Some h) then (later [Watching id h] s, [], Done) else (s, [], Done)
  | None => (s, [], Done)
  end.

(** The dialog [h] answers and exits; onWindowAnswer forgets it first. A
    killed dialog does not answer. *)
Definition answer_window (id : bytes) (h : Z) (kind code : bytes) (s : store) : outcome_ :=
  if negb (bool_decide (h ∈ running s)) then (s, [], Done) else
  let s := stop (Some h) s in
  let s := match pending s !! id with
           | Some e => if bool_decide (l_handle e = Some h) then put id (with_handle None e) s else s
           | None => s
           end in
  if bool_decide (kind = bytes_of "reject") || bool_decide (kind = bytes_of "approve")
  then (later [Answered id kind code] s, [Kill h], Done) else (s, [], Done).

Definition wrong_message (n : Z) : bytes := bytes_of "Wrong code, " ++ Itoa n ++ bytes_of " attempts left".
(** What follows a confirm from the window: while the approval is pending, a
    new window with the reason. *)
Definition after_confirm (id : bytes) (r : outcome_) : outcome_ :=
  let '(s, o, a) := r in
  match a, pending s !! id with
  | Failed (BadCodeError n), Some _ => (later [Reopen id (wrong_message n)] s, o, a)
  | Failed _, Some _ => (later [Reopen id (bytes_of "Could not complete, try again or reject")] s, o, a)
  | _, _ => r
  end.
Definition act_answer (id kind code : bytes) (now : Z) (f : faults) (s : store) : outcome_ :=
  if bool_decide (kind = bytes_of "reject") then Reject id (bytes_of "window") f s else
  if negb (isSixDigits code) then (later [Reopen id (bytes_of "Enter the 6-digit code from the notification")] s, [], Done) else
  after_confirm id (confirm id code (bytes_of "window") now f s).

(** ** Readers, start and stop *)

Definition created_le (x y : row) : bool := text_le (a_created x) (a_created y).
Definition listPendingRows (l : list row) : list row :=
  merge_sort (λ x y, Is_true (created_le x y)) (List.filter (λ r, bool_decide (a_state r = StatePending)) l).
Definition List_ (order : list bytes) (now : Z) (f : faults) (s : store) : outcome_ :=
  let '(s, o, hooks, err) := sweepExpiredLocked order now f 1 s in
  match err with
  | Some err => (s, o ++ hooks, Failed err)
  | None =>
      if broken f 0 then (s, o ++ hooks, Failed (ErrDatabase 0)) else
      (s, o ++ hooks, Listed (map (λ r, view_row r (a_state r) s)
         (List.filter (λ r, negb (bool_decide (a_id r ∈ unwritten s))) (listPendingRows (rows (tab s))))))
  end.

(** ExpireStale, before anything is served: the rows of an earlier run, one
    transaction each, until one fails. *)
Fixpoint expire_stale (l : list bytes) (decided : bytes) (f : faults) (k : nat) (t : tables) : tables * list out * bool :=
  match l with
  | [] => (t, [], true)
  | id :: l =>
      if broken f k then (t, [], false) else
      let o := soft f k [audit_reject id (bytes_of "expired") [] (rows t)] in
      let '(t, o', ok) := expire_stale l decided f (S k) (with_rows (update_rows id (decide_row StateExpired decided) (rows t)) t) in
      (t, o ++ o', ok)
  end.
Definition ExpireStale (now : Z) (f : faults) (t : tables) : tables * list out * bool :=
  if broken f 0 then (t, [], false) else
  let stale := map a_id (List.filter (λ r, bool_decide (a_state r = StatePending)) (rows t)) in
  let '(t, o, ok) := expire_stale stale (storeTime now) f 2 t in
  if ok then (pruneDecided now f 1 t, o, true) else (t, o, false).

(** NewStore over the tables of an earlier run. *)
Definition NewStore (t : tables) : store := Store t ∅ false ∅ [] ∅.

Definition Close (s : store) : outcome_ :=
  let handles := omap (λ x : bytes * live, l_handle x.2) (map_to_list (pending s)) in
  (with_closed (with_running (running s ∖ list_to_set handles) (with_pending (with_handle None <$> pending s) s)),
   map Kill handles, Done).

(** ** Steps of the store *)

Inductive op :=
| OpCreate (id kind subject summary : bytes) (action : Action) (order : list bytes)
| OpConfirm (id code : bytes)
| OpReject (id via : bytes) | OpRejectFor (id reason : bytes) | OpRejectSubjects (subjects : list bytes)
| OpOpenWindow (id : bytes) | OpList (order : list bytes) | OpShow (id : bytes) | OpResolveTag (tag : bytes)
| OpTimer (id : bytes) | OpClose
| OpReady (n : nat) (ready : option Z)                 (* job [n]: the dialog it waits for *)
| OpDraw (n : nat) (draws : list Z) (shown : bool)     (* job [n]: the code, and whether it was shown *)
| OpAnswer (n : nat) (kind code : bytes)               (* job [n]: the dialog's answer *)
| OpRun (n : nat).                                     (* job [n], one that waits for nothing *)

Definition take_job (n : nat) (s : store) : option (job * store) :=
  match jobs s !! n with Some j => Some (j, with_jobs (delete n (jobs s)) s) | None => None end.
Definition run_job (j : job) (now : Z) (f : faults) (s : store) : option outcome_ :=
  match j with
  | AwaitInsert c code => Some (create_insert c code now f s)
  | AwaitWatch id h => Some (startWatch id h s)
  | Answered id kind code => Some (act_answer id kind code now f s)
  | Reopen id message => Some (reopen id message s)
  | AwaitReopened id h => Some (reopened id h s)
  | RejectRow id reason via h with_hook => Some (rejectRow id reason via h with_hook now f s)
  | RejectIds ids => Some (reject_ids ids s)
  | ExpireRow id decided with_hook => Some (expire_row id decided with_hook f s)
  | RetryExpire id decided n => Some (retry_expire id decided n f s)
  | _ => None
  end.

(** An operation on a job that is not there, or of another kind, is no step.
    A dialog that becomes ready is a new one. *)
Definition step (o : op) (now : Z) (f : faults) (s : store) : option outcome_ :=
  match o with
  | OpCreate id kind subject summary action order => Some (Create id kind subject summary action order now f s)
  | OpConfirm id code => Some (Confirm id code now f s)
  | OpReject id via => Some (Reject id via f s)
  | OpRejectFor id reason => Some (RejectFor id reason f s)
  | OpRejectSubjects subjects => Some (RejectSubjects subjects f s)
  | OpOpenWindow id => Some (OpenWindow id f s)
  | OpList order => Some (List_ order now f s)
  | OpShow id => Some (s, [], Show id f 0 s)
  | OpResolveTag tag => Some (s, [], ResolveTag tag s)
  | OpTimer id => Some (expireNow id now s)
  | OpClose => Some (Close s)
  | OpReady n ready =>
      match take_job n s with
      | Some (AwaitWindow c, s') => Some (create_window c ready s')
      | Some (AwaitReopen id _, s') => Some (start_window id ready f s')
      | _ => None
      end
  | OpDraw n draws shown =>
      match take_job n s with Some (AwaitCode c, s') => Some (create_code c draws shown s') | _ => None end
  | OpAnswer n kind code =>
      match take_job n s with Some (Watching id h, s') => Some (answer_window id h kind code s') | _ => None end
  | OpRun n => match take_job n s with Some (j, s') => run_job j now f s' | None => None end
  end.
End Store.
Arguments Action : clear implicits.
Arguments live : clear implicits.
Arguments tables : clear implicits.
Arguments creation : clear implicits.
Arguments job : clear implicits.
Arguments store : clear implicits.
Arguments answer : clear implicits.
Arguments op : clear implicits.
