(* ===== verification/ApprovalSteps.v ===== *)
(** * Human approvals: the life cycle of an approval (specification)

    What one critical section may do, as a step relation on the part of the
    store that decides: the tables, the slot of each pending approval, and
    which calls still own an id (Create before its row, or a settlement after
    the slot is gone). A step carries the labels an observer sees: an id
    drawn, a code shown, a code compared. [step_msteps] shows that every
    operation of Approvals.v is a sequence of such steps. *)

From S2P Require Import Prelude Utf8 Canonical Strconv DisplayText WireTime Body Approvals.

Open Scope Z_scope.

Section Steps.
Context {X E : Type} `{Unicode} `{ApprovalEnv}.
Implicit Types (c : creation X E) (t : tables X) (s : store X E).

Record slot := Slot { mac : bytes; action : Action X E; reserved : bool; attempts : Z }.
Definition slot_of (e : live X E) : slot := Slot (l_mac e) (l_action e) (l_reserved e) (l_attempts e).

Definition plain c : creation X E := Creation (c_id c) (c_kind c) (c_subject c) (c_summary c) (c_action c) (c_now c) None.
Inductive owner := Creating c (code : option bytes) | Settling (id : bytes).
Definition owner_of (j : job X E) : option owner :=
  match j with
  | AwaitWindow c | AwaitCode c => Some (Creating (plain c) None)
  | AwaitInsert c code => Some (Creating (plain c) (Some code))
  | RejectRow id _ _ _ _ | ExpireRow id _ _ | RetryExpire id _ _ => Some (Settling id)
  | _ => None
  end.

Record core := Core { k_tab : tables X; k_slots : gmap bytes slot; k_owners : list owner }.
Definition abs (s : store X E) : core := Core (tab s) (slot_of <$> pending s) (omap owner_of (jobs s)).

Inductive label :=
| Drew c
| Showed (id code : bytes)
| WrongCode (id code : bytes) (now : Z) (counted : bool)
| Performed (id code : bytes) (now : Z).

(** The tables after a wrong code that the database took. *)
Definition counted_tables (id : bytes) (r : row) (now : Z) t : tables X :=
  let rejected := MaxAttempts <=? a_attempts r + 1 in
  Tables (update_rows id (count_row (a_attempts r + 1) (if rejected then StateRejected else StatePending)
                            (if rejected then Some (storeTime now) else None)) (rows t))
    (recordWrongCodeIn (wrong t) now).1 (ext t).
Definition live_ids (p : gmap bytes slot) : list bytes :=
  map fst (map_to_list (filter (λ x : bytes * slot, reserved x.2 = false) p)).

(** One step at the time [now]. *)
Inductive mstep (now : Z) : core → list label → core → Prop :=
| m_perm t p l l' : l ≡ₚ l' → mstep now (Core t p l) [] (Core t p l')
| m_prune t p l : mstep now (Core t p l) [] (Core (with_rows (List.filter (λ r, negb (prunable now r)) (rows t)) t) p l)
| m_reserve t p l c : Locked (wrong t) now = false → (size p < MaxPending)%nat →
    (countCreatedSince (storeTime (now - hour)) t < MaxPerHour)%nat → c_now c = now → Safe (c_summary c) = true →
    mstep now (Core t p l) [Drew (plain c)] (Core t (<[c_id c := Slot [] (c_action c) true 0]> p) (Creating (plain c) None :: l))
| m_show t p l c code : mstep now (Core t p (Creating c None :: l)) [Showed (c_id c) code] (Core t p (Creating c (Some code) :: l))
| m_abandon t p l c code : (∀ sl, p !! c_id c = Some sl → reserved sl = true) →
    mstep now (Core t p (Creating c code :: l)) [] (Core t (delete (c_id c) p) l)
| m_insert t p l c code sl : p !! c_id c = Some sl → reserved sl = true → find_row (c_id c) (rows t) = None →
    mstep now (Core t p (Creating c (Some code) :: l)) []
      (Core (with_rows (rows t ++ [new_row c]) t) (<[c_id c := Slot (codeMAC (c_id c) code) (action sl) false (attempts sl)]> p) l)
| m_expire t p l id sl r expires : p !! id = Some sl → reserved sl = false → find_row id (rows t) = Some r →
    parse_store (a_expires r) = Some expires → expires ≤ now →
    mstep now (Core t p l) [] (Core (with_rows (update_rows id (decide_row StateExpired (storeTime now)) (rows t)) t) (delete id p) l)
| m_take t p l id sl : p !! id = Some sl → reserved sl = false → mstep now (Core t p l) [] (Core t (delete id p) (Settling id :: l))
| m_settled t p l id st d : st = StateRejected ∨ st = StateExpired →
    mstep now (Core t p (Settling id :: l)) [] (Core (with_rows (update_rows id (decide_row st d) (rows t)) t) p l)
| m_unsettled t p l id : mstep now (Core t p (Settling id :: l)) [] (Core t p l)
| m_wrong_lost t p l id sl code : p !! id = Some sl → reserved sl = false → codeMAC id code ≠ mac sl →
    mstep now (Core t p l) [WrongCode id code now false] (Core t (delete id p) (Settling id :: l))
| m_wrong t p l id sl code r expires p' : p !! id = Some sl → reserved sl = false → codeMAC id code ≠ mac sl →
    find_row id (rows t) = Some r → parse_store (a_expires r) = Some expires → now < expires →
    a_attempts r = attempts sl → (recordWrongCodeIn (wrong t) now).2 = false →
    p' = (if MaxAttempts <=? attempts sl + 1 then delete id p else <[id := Slot (mac sl) (action sl) false (attempts sl + 1)]> p) →
    mstep now (Core t p l) [WrongCode id code now true] (Core (counted_tables id r now t) p' l)
| m_lockout t p l id sl code r expires : p !! id = Some sl → reserved sl = false → codeMAC id code ≠ mac sl →
    find_row id (rows t) = Some r → parse_store (a_expires r) = Some expires → now < expires →
    a_attempts r = attempts sl → (recordWrongCodeIn (wrong t) now).2 = true →
    mstep now (Core t p l) [WrongCode id code now true]
      (Core (counted_tables id r now t) ∅
         (map Settling (live_ids (if MaxAttempts <=? attempts sl + 1 then delete id p else p)) ++ l))
| m_approve t p l id sl code r expires x x' after f : p !! id = Some sl → reserved sl = false → codeMAC id code = mac sl →
    find_row id (rows t) = Some r → parse_store (a_expires r) = Some expires → now < expires →
    let rows' := update_rows id (decide_row StateApproved (storeTime now)) (rows t) in
    checkAction id (action sl) f rows' (ext t) = Ok x → perform (action sl) rows' x = Ok (x', after) →
    mstep now (Core t p l) [Performed id code now] (Core (Tables rows' (wrong t) x') (delete id p) l).

Inductive msteps (now : Z) : core → list label → core → Prop :=
| ms_nil k : msteps now k [] k
| ms_cons k ls k1 ls' k2 : mstep now k ls k1 → msteps now k1 ls' k2 → msteps now k (ls ++ ls') k2.

Lemma ms_one now k ls k' : mstep now k ls k' → msteps now k ls k'.
Proof. intros Hs. rewrite <- (app_nil_r ls). eapply ms_cons; [done|apply ms_nil]. Qed.
Lemma ms_trans now k ls k1 ls' k2 : msteps now k ls k1 → msteps now k1 ls' k2 → msteps now k (ls ++ ls') k2.
Proof. induction 1 as [|k ls k1 ls1 k3 H1 _ IH]; intros H2; [done|]. rewrite <- app_assoc. eapply ms_cons; eauto. Qed.
Lemma ms_silent now k k1 ls k2 : msteps now k [] k1 → msteps now k1 ls k2 → msteps now k ls k2.
Proof. intros H1 H2. by apply (ms_trans _ _ [] k1 ls). Qed.
Lemma ms_then now k ls k1 k2 : msteps now k ls k1 → msteps now k1 [] k2 → msteps now k ls k2.
Proof. intros H1 H2. rewrite <- (app_nil_r ls). by eapply ms_trans. Qed.
Lemma ms_perm now t p l l' : l ≡ₚ l' → msteps now (Core t p l) [] (Core t p l').
Proof. intros Hp. by apply ms_one, m_perm. Qed.
Lemma ms_eq now k k' : k = k' → msteps now k [] k'.
Proof. intros ->. apply ms_nil. Qed.

(** ** The core of a changed store *)

Lemma abs_put id e s : abs (put id e s) = Core (tab s) (<[id := slot_of e]> (k_slots (abs s))) (k_owners (abs s)).
Proof. unfold abs, put. cbn. by rewrite fmap_insert. Qed.
Lemma abs_drop id s : abs (drop_entry id s) = Core (tab s) (delete id (k_slots (abs s))) (k_owners (abs s)).
Proof. unfold abs, drop_entry. cbn. by rewrite fmap_delete. Qed.
Lemma abs_later l s : abs (later l s) = Core (k_tab (abs s)) (k_slots (abs s)) (k_owners (abs s) ++ omap owner_of l).
Proof. unfold abs, later. cbn. by rewrite omap_app. Qed.
Lemma later_same l l' s : omap owner_of l = omap owner_of l' → abs (later l s) = abs (later l' s).
Proof. intros Hl. by rewrite !abs_later, Hl. Qed.
Lemma abs_stop h s : abs (stop h s) = abs s.
Proof. by destruct h. Qed.
Lemma abs_same id e e' s : pending s !! id = Some e → slot_of e' = slot_of e → abs (put id e' s) = abs s.
Proof. intros He Es. rewrite abs_put, Es, insert_id; [done|]. cbn. by rewrite lookup_fmap, He. Qed.
Lemma slots_lookup s id : k_slots (abs s) !! id = slot_of <$> pending s !! id.
Proof. cbn. by rewrite lookup_fmap. Qed.
Lemma slot_at s id e : pending s !! id = Some e → k_slots (abs s) !! id = Some (slot_of e).
Proof. intros He. by rewrite slots_lookup, He. Qed.

(** ** Every operation is a sequence of steps *)

Definition out_label (o : out) : option label :=
  match o with
  | ShowCode id code _ _ _ => Some (Showed id code)
  | Wrong id code now counted => Some (WrongCode id code now counted)
  | Approve id code now => Some (Performed id code now)
  | _ => None
  end.
Definition labels (os : list out) : list label := omap out_label os.
Definition drew (o : op X E) (now : Z) (a : answer E) : list label :=
  match o, a with
  | OpCreate id kind subject summary action _, Done => [Drew (Creation id kind subject summary action now None)]
  | _, _ => []
  end.

(** What the steps of an operation assume of the store. *)
Record good (k : core) : Prop := {
  g_row : ∀ id sl, k_slots k !! id = Some sl → reserved sl = false →
          ∃ r, find_row id (rows (k_tab k)) = Some r ∧ a_state r = StatePending ∧ a_attempts r = attempts sl;
  g_creating : ∀ c code sl, Creating c code ∈ k_owners k → k_slots k !! c_id c = Some sl → reserved sl = true;
}.

Lemma labels_app o o' : labels (o ++ o') = labels o ++ labels o'.
Proof. apply omap_app. Qed.
Lemma labels_kill h : labels (kill h) = [].
Proof. by destruct h. Qed.
Lemma labels_hook id (a : Action X E) : labels (hook id a) = [].
Proof. unfold hook. by destruct (OnReject a). Qed.
Lemma labels_soft f k l : labels l = [] → labels (soft f k l) = [].
Proof. unfold soft. by destruct (rowless f k). Qed.

Lemma checkExpiry_ok id now f k t b t' o : checkExpiryLocked (E := E) id now f k t = Ok (b, t', o) →
  labels o = [] ∧ ∃ r expires, find_row id (rows t) = Some r ∧ parse_store (a_expires r) = Some expires ∧
  if b then expires ≤ now ∧ t' = with_rows (update_rows id (decide_row StateExpired (storeTime now)) (rows t)) t else now < expires ∧ t' = t.
Proof.
  unfold checkExpiryLocked. destruct (broken f k); [done|]. destruct (find_row id (rows t)) as [r|]; [|done].
  destruct (parse_store (a_expires r)) as [expires|] eqn:Ep; [|done]. destruct (now <? expires) eqn:Hn; bprop.
  - intros [= <- <- <-]. split; [done|]. by exists r, expires.
  - destruct (broken f (S k)); [done|]. intros [= <- <- <-]. split; [by apply labels_soft|]. by exists r, expires.
Qed.

Lemma sweep_refines ids now f k s s' o hooks err : sweepExpiredLocked ids now f k s = (s', o, hooks, err) →
  msteps now (abs s) [] (abs s') ∧ labels o = [] ∧ labels hooks = [].
Proof.
  revert k s s' o hooks err. induction ids as [|id ids IH]; intros k s s' o hooks err; cbn [sweepExpiredLocked].
  { intros [= <- <- <- <-]. split_and!; [apply ms_nil|done|done]. }
  destruct (pending s !! id) as [e|] eqn:He; [|apply IH]. destruct (l_reserved e) eqn:Hr; [apply IH|].
  destruct (checkExpiryLocked id now f k (tab s)) as [[[[] t] o1]|e1] eqn:Hc; [|apply IH|by intros [= <- <- <- <-]; split_and!; [apply ms_nil|..]].
  apply checkExpiry_ok in Hc as (Ho1 & r & expires & Hf & Hp & Hx & ->).
  destruct (sweepExpiredLocked ids now f (k + 2) _) as [[[s1 o2] h2] e2] eqn:Hs. intros [= <- <- <- <-].
  destruct (IH _ _ _ _ _ _ Hs) as (H1 & H2 & H3). rewrite !labels_app, labels_kill, labels_hook, Ho1.
  split_and!; [|exact H2|exact H3]. eapply ms_silent; [|exact H1]. rewrite abs_stop, abs_drop.
  apply ms_one. eapply (m_expire _ _ _ _ id (slot_of e)); try done. cbn. by rewrite lookup_fmap, He.
Qed.

(** A handler of a job that owned [ow], on the store without the job. *)
Definition with_owner (ow : option owner) (s : store X E) : core :=
  Core (tab s) (k_slots (abs s)) (match ow with Some o => o :: k_owners (abs s) | None => k_owners (abs s) end).

Lemma Create_refines id kind subject summary action order now f s s' o a :
  Create id kind subject summary action order now f s = (s', o, a) →
  msteps now (abs s) (drew (OpCreate id kind subject summary action order) now a ++ labels o) (abs s').
Proof.
  unfold Create. destruct (bool_decide (kind ∈ validKinds)); [|by intros [= <- <- <-]; apply ms_nil]. cbn [negb].
  destruct (Safe summary) eqn:Hsafe; [|by intros [= <- <- <-]; apply ms_nil]. cbn [negb].
  destruct (broken f 0); [by intros [= <- <- <-]; apply ms_nil|].
  destruct (Locked (wrong (tab s)) now) eqn:Hl; [by intros [= <- <- <-]; apply ms_nil|].
  destruct (sweepExpiredLocked order now f 3 s) as [[[s1 o1] h1] err] eqn:Hs.
  assert (wrong (tab s1) = wrong (tab s)) as Hw.
  { clear -Hs. revert Hs. generalize 3%nat. revert s s1 o1 h1 err. induction order as [|id order IH]; intros s s1 o1 h1 err k; cbn [sweepExpiredLocked].
    { by intros [= <- <- <- <-]. }
    destruct (pending s !! id) as [e|]; [|apply IH]. destruct (l_reserved e); [apply IH|].
    destruct (checkExpiryLocked id now f k (tab s)) as [[[[] t] o2]|e2] eqn:Hc; [|apply IH|by intros [= <- <- <- <-]].
    apply checkExpiry_ok in Hc as (_ & r & expires & _ & _ & _ & ->).
    destruct (sweepExpiredLocked order now f (k + 2) _) as [[[s2 o3] h3] e3] eqn:Hs2. intros [= <- <- <- <-].
    apply IH in Hs2. rewrite Hs2. by destruct (l_handle e). }
  apply sweep_refines in Hs as (H1 & H2 & H3).
  assert (∀ s2 l, labels l = [] → msteps now (abs s1) [] (abs s2) → msteps now (abs s) (labels (o1 ++ l ++ h1)) (abs s2)) as Hdone.
  { intros s2 l Hl2 Hs2. rewrite !labels_app, H2, H3, Hl2. by eapply ms_silent. }
  assert (msteps now (abs s1) [] (abs (with_tab (pruneDecided now f 1 (tab s1)) s1))) as Hprune.
  { unfold pruneDecided. destruct (broken f 1); [by destruct s1; apply ms_nil|]. apply ms_one, m_prune. }
  destruct err as [err|]; [intros [= <- <- <-]; by apply (Hdone s1 []), ms_nil|].
  set (s2 := with_tab (pruneDecided now f 1 (tab s1)) s1) in *.
  destruct (MaxPending <=? size (pending s2))%nat eqn:Hp; [intros [= <- <- <-]; by apply (Hdone s2 [_])|].
  destruct (broken f 2); [intros [= <- <- <-]; by apply (Hdone s2 [])|].
  destruct (MaxPerHour <=? countCreatedSince (storeTime (now - hour)) (tab s2))%nat eqn:Hh; [intros [= <- <- <-]; by apply (Hdone s2 [_])|].
  destruct (closed s2); [intros [= <- <- <-]; by apply (Hdone s2 [])|].
  intros [= <- <- <-]. rewrite labels_app, H2, H3. eapply ms_silent; [eapply ms_silent; [exact H1|exact Hprune]|].
  rewrite abs_later, abs_put. cbn [app].
  set (c := Creation id kind subject summary action now None).
  replace (omap owner_of [if desktop then AwaitWindow c else AwaitCode c]) with [Creating (plain c) None] by (by destruct desktop).
  eapply ms_then; [|apply ms_perm; rewrite Permutation_app_comm; reflexivity].
  apply ms_one. apply (m_reserve now _ _ _ c); try done.
  - assert (wrong (tab s2) = wrong (tab s1)) as -> by (unfold s2, pruneDecided; by destruct (broken f 1)). by rewrite Hw.
  - cbn. rewrite map_size_fmap. apply Nat.leb_gt in Hp. exact Hp.
  - apply Nat.leb_gt in Hh. exact Hh.
Qed.

Lemma owner_later ow s l : omap owner_of l = (match ow with Some o => [o] | None => [] end) →
  ∀ now, msteps now (with_owner ow s) [] (abs (later l s)).
Proof.
  intros Hl now. rewrite abs_later, Hl. apply ms_perm. destruct ow; [|by rewrite app_nil_r]. by rewrite <- Permutation_cons_append.
Qed.
Lemma abs_eta s : abs s = Core (tab s) (k_slots (abs s)) (k_owners (abs s)).
Proof. done. Qed.

(** ** Create after its reservation *)

Lemma drop_reserved_abandon now c code s : good (with_owner (Some (Creating c code)) s) →
  msteps now (with_owner (Some (Creating c code)) s) [] (abs (dropReserved (c_id c) s)).
Proof.
  intros [_ Hg]. assert (∀ sl, k_slots (abs s) !! c_id c = Some sl → reserved sl = true) as Hr.
  { intros sl Hsl. apply (Hg c code); [by left|exact Hsl]. }
  assert (abs (dropReserved (c_id c) s) = Core (tab s) (delete (c_id c) (k_slots (abs s))) (k_owners (abs s))) as ->.
  { unfold dropReserved. rewrite slots_lookup in Hr. destruct (pending s !! c_id c) as [e|] eqn:He.
    - specialize (Hr _ eq_refl). cbn in Hr. by rewrite Hr, abs_drop.
    - rewrite delete_id; [done|]. by rewrite slots_lookup, He. }
  by apply ms_one, m_abandon.
Qed.
Lemma create_window_refines now c ready s s' o a : good (with_owner (Some (Creating (plain c) None)) s) →
  create_window c ready s = (s', o, a) → msteps now (with_owner (Some (Creating (plain c) None)) s) (labels o) (abs s').
Proof.
  intros Hg. unfold create_window. destruct ready as [h|]; intros [= <- <- <-]; [|by apply (drop_reserved_abandon now (plain c) None)].
  match goal with |- context [later ?l ?s2] => assert (abs s2 = abs s) as Ha end.
  { change (pending (start h s)) with (pending s). destruct (pending s !! c_id c) as [e|] eqn:He; [|done].
    apply (abs_same (c_id c) e _ (start h s)); [exact He|done]. }
  rewrite abs_later, Ha. apply ms_perm. apply (Permutation_app_comm [_]).
Qed.
Lemma create_code_refines now c draws shown s s' o a : good (with_owner (Some (Creating (plain c) None)) s) →
  create_code c draws shown s = (s', o, a) → msteps now (with_owner (Some (Creating (plain c) None)) s) (labels o) (abs s').
Proof.
  intros Hg. pose proof (drop_reserved_abandon now (plain c) None s Hg) as Hd. unfold create_code, abandon.
  destruct (newCode draws) as [code|]; [|by intros [= <- <- <-]; rewrite abs_stop, labels_kill].
  destruct shown; cbn [negb]; [|by intros [= <- <- <-]; rewrite abs_stop, labels_kill].
  destruct (deliveryText _ _ _ _) as [title body_]. intros [= <- <- <-]. rewrite abs_later.
  eapply ms_then; [apply ms_one, (m_show now _ _ _ (plain c) code)|]. apply ms_perm. apply (Permutation_app_comm [_]).
Qed.
Lemma create_insert_refines now c code f s s' o a : good (with_owner (Some (Creating (plain c) (Some code))) s) →
  create_insert c code now f s = (s', o, a) → msteps now (with_owner (Some (Creating (plain c) (Some code))) s) (labels o) (abs s').
Proof.
  intros Hg. unfold create_insert.
  assert (∀ sl, k_slots (abs s) !! c_id (plain c) = Some sl → reserved sl = true) as Hr.
  { destruct Hg as [_ Hg]. intros sl Hsl. apply (Hg (plain c) (Some code)); [by left|exact Hsl]. }
  destruct (pending s !! c_id c) as [e|] eqn:He.
  - assert (msteps now (with_owner (Some (Creating (plain c) (Some code))) s) [] (abs (drop_entry (c_id c) s))) as Hd.
    { rewrite abs_drop. apply ms_one. by apply (m_abandon now _ _ _ (plain c)). }
    assert (∀ id h, labels (kill h ++ [RemoveNote id]) = []) as Hk by (intros; by rewrite labels_app, labels_kill).
    destruct (closed s); [by intros [= <- <- <-]; rewrite abs_stop, Hk|].
    unfold insertApproval. destruct (broken f 0); [by intros [= <- <- <-]; rewrite abs_stop, Hk|]. cbn [orb].
    destruct (existsb _ (rows (tab s))) eqn:Ex; [by intros [= <- <- <-]; rewrite abs_stop, Hk|]. intros [= <- <- <-].
    match goal with |- msteps now ?k0 _ (abs (later ?l ?s2)) => assert (abs (later l s2) = abs s2) as -> end.
    { rewrite abs_later. assert (omap owner_of (match c_handle c with Some h => [AwaitWatch (c_id c) h] | None => [] end) = []) as ->
        by (by destruct (c_handle c)). by rewrite app_nil_r, abs_eta. }
    rewrite abs_put. apply ms_one.
    apply (m_insert now (tab s) _ _ (plain c) code (slot_of e)); [by apply slot_at| |].
    + apply Hr. by apply slot_at.
    + unfold find_row. destruct (List.find _ (rows (tab s))) as [r|] eqn:Ef; [|done]. apply List.find_some in Ef as [Hin Hid].
      assert (existsb (λ r, bool_decide (a_id r = c_id c)) (rows (tab s)) = true) as Hx by (apply existsb_exists; by exists r). by rewrite Ex in Hx.
  - intros [= <- <- <-]. rewrite abs_stop, labels_app, labels_kill.
    eapply ms_then; [apply ms_one, (m_abandon now _ _ _ (plain c))|]; [done|]. rewrite delete_id; [apply ms_eq, abs_eta|].
    by rewrite slots_lookup; cbn; rewrite He.
Qed.

(** ** Confirm *)

Lemma elem_of_live_ids id p : id ∈ live_ids p ↔ ∃ sl, p !! id = Some sl ∧ reserved sl = false.
Proof.
  unfold live_ids. rewrite elem_of_map_list. split.
  - intros ([id' sl] & -> & Hin). rewrite elem_of_map_to_list, map_lookup_filter_Some in Hin. by exists sl.
  - intros (sl & Hl & Hr). exists (id, sl). split; [done|]. by rewrite elem_of_map_to_list, map_lookup_filter_Some.
Qed.
Lemma NoDup_live_ids p : NoDup (live_ids p).
Proof. apply NoDup_fst_map_to_list. Qed.
Lemma live_ids_insert id sl p : (∃ sl0, p !! id = Some sl0 ∧ reserved sl0 = false) → reserved sl = false →
  live_ids (<[id := sl]> p) ≡ₚ live_ids p.
Proof.
  intros Hp Hr. apply NoDup_Permutation; [apply NoDup_live_ids..|]. intros x. rewrite !elem_of_live_ids.
  destruct (decide (x = id)) as [->|Hne]; [|by rewrite lookup_insert_ne]. rewrite lookup_insert_eq. split; [done|]. intros _. by exists sl.
Qed.
Lemma lock_jobs_owners (p : gmap bytes (live X E)) : omap owner_of (lock_jobs p) ≡ₚ map Settling (live_ids (slot_of <$> p)).
Proof.
  assert (omap owner_of (lock_jobs p) = map Settling (flat_map (λ x : bytes * live X E, if l_reserved x.2 then [] else [x.1]) (map_to_list p))) as ->.
  { unfold lock_jobs. induction (map_to_list p) as [|[id e] l IH]; [done|]. cbn [flat_map fst snd]. rewrite omap_app, map_app, IH.
    by destruct (l_reserved e). }
  apply Permutation_map, NoDup_Permutation; [| |].
  - pose proof (NoDup_fst_map_to_list p) as Hd. induction (map_to_list p) as [|[id e] l IH]; cbn [flat_map fst snd]; [apply NoDup_nil_2|].
    cbn in Hd. apply NoDup_cons in Hd as [Hn Hd]. destruct (l_reserved e); [by apply IH|]. apply NoDup_cons. split; [|by apply IH].
    intros Hin. apply Hn. rewrite list_elem_of_In, in_flat_map in Hin. destruct Hin as ([id' e'] & Hin & Hx).
    cbn in Hx. destruct (l_reserved e'); [done|]. destruct Hx as [->|[]]. apply elem_of_map_list. exists (id, e'). by rewrite list_elem_of_In.
  - apply NoDup_live_ids.
  - intros id. rewrite elem_of_live_ids, list_elem_of_In, in_flat_map. split.
    + intros ([id' e] & Hin & Hx). cbn in Hx. destruct (l_reserved e) eqn:Hr; [done|]. destruct Hx as [->|[]].
      apply list_elem_of_In, elem_of_map_to_list in Hin. exists (slot_of e). by rewrite lookup_fmap, Hin.
    + intros (sl & Hl & Hr). rewrite lookup_fmap in Hl. destruct (p !! id) as [e|] eqn:He; [|done]. injection Hl as <-.
      exists (id, e). split; [by apply list_elem_of_In, elem_of_map_to_list|]. cbn in *. rewrite Hr. by left.
Qed.

Lemma take_refines now id e h j s : pending s !! id = Some e → l_reserved e = false → owner_of j = Some (Settling id) →
  msteps now (abs s) [] (abs (later [j] (stop h (drop_entry id s)))).
Proof.
  intros He Hr Hj. rewrite abs_later, abs_stop, abs_drop. cbn [omap list_omap]. rewrite Hj.
  eapply ms_then; [apply ms_one, (m_take now _ _ _ id (slot_of e))|apply ms_perm, (Permutation_app_comm [_])]; [|done].
  by apply slot_at.
Qed.

(** A pending approval whose expiry is ahead. *)
Definition waiting (now : Z) (id : bytes) (e : live X E) (r : row) (s : store X E) : Prop :=
  pending s !! id = Some e ∧ l_reserved e = false ∧ find_row id (rows (tab s)) = Some r ∧
  ∃ expires, parse_store (a_expires r) = Some expires ∧ now < expires.

Lemma confirm_right_refines now id code via e r f s s' o a : waiting now id e r s → codeMAC id code = l_mac e →
  confirm_right id code via e now f s = (s', o, a) → msteps now (abs s) (labels o) (abs s').
Proof.
  intros (He & Hr & Hf & expires & Hp & Hx) Hm. unfold confirm_right.
  assert (abs (put id (with_handle None e) s) = abs s) as Hk by (by apply (abs_same id e)).
  destruct (broken f 2); [intros [= <- <- <-]; rewrite Hk; apply ms_nil|].
  destruct (broken f 3); [intros [= <- <- <-]; rewrite Hk; apply ms_nil|].
  destruct (checkAction id (l_action e) f _ _) as [x|err] eqn:Hc.
  - destruct (broken f 5); [intros [= <- <- <-]; rewrite Hk; apply ms_nil|].
    destruct (perform (l_action e) _ x) as [[x' after]|err] eqn:Hperf; [|intros [= <- <- <-]; rewrite Hk; apply ms_nil].
    destruct (broken f 6); intros [= <- <- <-]; [rewrite Hk; apply ms_nil|]. rewrite abs_stop, abs_drop.
    match goal with |- msteps _ _ (labels (?au :: Approve id code now :: ?l)) _ =>
      change (labels (au :: Approve id code now :: l)) with (Performed id code now :: labels l); assert (labels l = []) as -> end.
    { rewrite labels_app, labels_kill. by destruct after. }
    apply ms_one. eapply (m_approve now _ _ _ id (slot_of e) code r expires x x' after f); try done. by apply slot_at.
  - intros [= <- <- <-]. rewrite labels_kill. by apply (take_refines now id e).
Qed.

Lemma confirm_wrong_refines now id code via e r f s s' o a : good (abs s) → waiting now id e r s → codeMAC id code ≠ l_mac e →
  confirm_wrong id code via e now f s = (s', o, a) → msteps now (abs s) (labels o) (abs s').
Proof.
  intros Hg (He & Hr & Hf & expires & Hp & Hx) Hm.
  assert (k_slots (abs s) !! id = Some (slot_of e)) as Hsl by (by apply slot_at).
  assert (a_attempts r = l_attempts e) as Ha.
  { destruct (g_row _ Hg id (slot_of e) Hsl Hr) as (r' & Hf' & _ & Ha). cbn in Hf', Ha. congruence. }
  unfold confirm_wrong, recordBadCode. destruct (broken f 2) eqn:Hb2; [|rewrite Hf].
  { intros [= <- <- <-]. change (labels (Wrong id code now false :: kill (l_handle e))) with (WrongCode id code now false :: labels (kill (l_handle e))).
    rewrite labels_kill, abs_later, abs_stop, abs_drop. eapply ms_then; [|apply ms_perm, (Permutation_app_comm [_])].
    apply ms_one. by apply (m_wrong_lost now _ _ _ id (slot_of e)). }
  destruct (recordWrongCodeIn (wrong (tab s)) now) as [w locked] eqn:Hw. rewrite Ha.
  assert ((negb (MaxAttempts <=? l_attempts e + 1) && (MaxAttempts <=? l_attempts (with_attempts (l_attempts e + 1) (with_handle None e)))) = false) as ->
    by (cbn [l_attempts with_attempts]; by destruct (MaxAttempts <=? l_attempts e + 1)). rewrite orb_false_r.
  set (t := Tables _ w (ext (tab s))). intros [= <- <- <-].
  assert (t = counted_tables id r now (tab s)) as Ht by (unfold t, counted_tables; by rewrite Hw, Ha).
  set (s1 := if MaxAttempts <=? l_attempts e + 1 then stop (l_handle e) (drop_entry id (with_tab t s))
             else put id (with_attempts (l_attempts e + 1) (with_handle None e)) (with_tab t s)) in *.
  assert (abs s1 = Core t (if MaxAttempts <=? l_attempts e + 1 then delete id (k_slots (abs s))
                           else <[id := Slot (l_mac e) (l_action e) false (l_attempts e + 1)]> (k_slots (abs s))) (k_owners (abs s))) as Hs1.
  { unfold s1. destruct (MaxAttempts <=? l_attempts e + 1); [by rewrite abs_stop, abs_drop|]. rewrite abs_put. unfold slot_of. cbn. by rewrite Hr. }
  match goal with |- msteps _ _ (labels (Wrong id code now true :: ?l)) _ => assert (labels (Wrong id code now true :: l) = [WrongCode id code now true]) as -> end.
  { match goal with |- labels (Wrong id code now true :: ?l) = _ => change (WrongCode id code now true :: labels l = [WrongCode id code now true]) end.
    f_equal. rewrite !labels_app, labels_soft; [|by destruct (MaxAttempts <=? l_attempts e + 1), locked].
    by destruct (MaxAttempts <=? l_attempts e + 1), locked; rewrite ?labels_kill, ?labels_hook. }
  destruct locked.
  - assert (abs (dropAllLocked s1) = Core t ∅ (k_owners (abs s) ++ omap owner_of (lock_jobs (pending s1)))) as ->.
    { unfold dropAllLocked. rewrite abs_later. unfold s1. by destruct (MaxAttempts <=? l_attempts e + 1), (l_handle e). }
    eapply ms_then; [apply ms_one, (m_lockout now _ _ _ id (slot_of e) code r expires); try done; by rewrite Hw|].
    rewrite <- Ht. apply ms_perm. etransitivity; [apply Permutation_app_comm|]. apply Permutation_app_head. rewrite lock_jobs_owners.
    change (slot_of <$> pending s1) with (k_slots (abs s1)). rewrite Hs1. cbn [k_slots attempts slot_of].
    destruct (MaxAttempts <=? l_attempts e + 1); [done|]. apply Permutation_map. rewrite live_ids_insert; [done| |done]. by exists (slot_of e).
  - rewrite Hs1, Ht. apply ms_one. eapply (m_wrong now _ _ _ id (slot_of e) code r expires); try done. by rewrite Hw.
Qed.

Lemma confirm_refines now id code via f s s' o a : good (abs s) → confirm id code via now f s = (s', o, a) →
  msteps now (abs s) (labels o) (abs s').
Proof.
  intros Hg. unfold confirm. destruct (pending s !! id) as [e|] eqn:He; [|by intros [= <- <- <-]; apply ms_nil].
  destruct (l_reserved e) eqn:Hr; [by intros [= <- <- <-]; apply ms_nil|].
  destruct (checkExpiryLocked id now f 0 (tab s)) as [[[[] t] o1]|err] eqn:Hc; [| |by intros [= <- <- <-]; apply ms_nil].
  - apply checkExpiry_ok in Hc as (Ho1 & r & expires & Hf & Hp & Hx & ->). intros [= <- <- <-].
    rewrite !labels_app, Ho1, labels_kill. change (labels (RemoveNote id :: hook id (l_action e))) with (labels (hook id (l_action e))).
    rewrite labels_hook, abs_stop, abs_drop. apply ms_one. eapply (m_expire now _ _ _ id (slot_of e)); try done. cbn. by rewrite lookup_fmap, He.
  - apply checkExpiry_ok in Hc as (_ & r & expires & Hf & Hp & Hx & _). assert (waiting now id e r s) as Hw by (split_and!; [done..|by exists expires]).
    case_bool_decide as Hm; intros Hs; [by eapply confirm_right_refines|by eapply confirm_wrong_refines].
Qed.

(** ** Rejections, expiry, windows *)

Lemma takePending_some id s e s1 : takePending id s = Some (e, s1) → pending s !! id = Some e ∧ l_reserved e = false ∧ s1 = drop_entry id s.
Proof. unfold takePending. destruct (pending s !! id) as [e'|]; [|done]. destruct (l_reserved e') eqn:Hr; [done|]. by intros [= <- <-]. Qed.
Lemma rejectWith_refines now id reason via f s s' o a : rejectWith id reason via f s = (s', o, a) → msteps now (abs s) (labels o) (abs s').
Proof.
  unfold rejectWith. destruct (takePending id s) as [[e s1]|] eqn:Ht; [|by intros [= <- <- <-]; apply ms_nil].
  apply takePending_some in Ht as (He & Hr & ->). intros [= <- <- <-]. by apply (take_refines now id e None).
Qed.
Lemma reject_ids_refines now ids s s' o a : reject_ids ids s = (s', o, a) → msteps now (abs s) (labels o) (abs s').
Proof.
  unfold reject_ids. destruct ids as [|id ids]; [by intros [= <- <- <-]; apply ms_nil|].
  destruct (takePending id s) as [[e s1]|] eqn:Ht; intros [= <- <- <-].
  - apply takePending_some in Ht as (He & Hr & ->).
    rewrite (later_same _ [reject_job id (bytes_of "precondition") [] e]) by done.
    by apply (take_refines now id e None (reject_job id (bytes_of "precondition") [] e) s).
  - rewrite abs_later. cbn [omap list_omap owner_of]. rewrite app_nil_r. apply ms_nil.
Qed.
Lemma expireNow_refines now id s s' o a : expireNow id now s = (s', o, a) → msteps now (abs s) (labels o) (abs s').
Proof.
  unfold expireNow. destruct (takePending id s) as [[e s1]|] eqn:Ht; [|by intros [= <- <- <-]; apply ms_nil].
  apply takePending_some in Ht as (He & Hr & ->). intros [= <- <- <-]. rewrite labels_kill. by apply (take_refines now id e).
Qed.

Lemma settle_labels h id (b : bool) : labels (kill h ++ RemoveNote id :: (if b then [Hook id] else [])) = [].
Proof. rewrite labels_app, labels_kill. by destruct b. Qed.
Lemma rejectRow_refines now id reason via h hk f s s' o a : rejectRow id reason via h hk now f s = (s', o, a) →
  msteps now (with_owner (Some (Settling id)) s) (labels o) (abs s').
Proof.
  unfold rejectRow. destruct (broken f 0); intros [= <- <- <-]; rewrite abs_stop.
  - rewrite settle_labels. apply ms_one, m_unsettled.
  - rewrite labels_app, settle_labels, labels_soft by done. apply ms_one, m_settled. by left.
Qed.
Lemma writeExpired_ok id decided f t t' (b : bool) o : writeExpired (X := X) id decided f t = Some (t', b, o) →
  labels o = [] ∧ (t' = t ∨ t' = with_rows (update_rows id (decide_row StateExpired decided) (rows t)) t).
Proof.
  unfold writeExpired. destruct (broken f 0); [done|]. destruct (find_row id (rows t)) as [r|]; [|intros [= <- <- <-]; auto].
  case_bool_decide; intros [= <- <- <-]; [split; [by apply labels_soft|by right]|auto].
Qed.
Lemma expired_settles now id decided t' s : (t' = tab s ∨ t' = with_rows (update_rows id (decide_row StateExpired decided) (rows (tab s))) (tab s)) →
  msteps now (with_owner (Some (Settling id)) s) [] (abs (with_tab t' s)).
Proof. intros [-> | ->]; apply ms_one; [by destruct s; apply m_unsettled|]. apply m_settled. by right. Qed.
Lemma expire_row_refines now id decided hk f s s' o a : expire_row id decided hk f s = (s', o, a) →
  msteps now (with_owner (Some (Settling id)) s) (labels o) (abs s').
Proof.
  unfold expire_row. destruct (writeExpired id decided f (tab s)) as [[[t b] o1]|] eqn:Hw; intros [= <- <- <-].
  - apply writeExpired_ok in Hw as [Ho Ht]. rewrite labels_app, Ho. assert (labels (if b then RemoveNote id :: (if hk then [Hook id] else []) else []) = []) as -> by (by destruct b, hk).
    by apply (expired_settles now id decided).
  - assert (labels (RemoveNote id :: (if hk then [Hook id] else [])) = []) as -> by (by destruct hk).
    by apply (owner_later (Some (Settling id)) (with_unwritten ({[id]} ∪ unwritten s) s)).
Qed.
Lemma retry_expire_refines now id decided n f s s' o a : retry_expire id decided n f s = (s', o, a) →
  msteps now (with_owner (Some (Settling id)) s) (labels o) (abs s').
Proof.
  unfold retry_expire. destruct (_ || closed s); [intros [= <- <- <-]; apply ms_one, m_unsettled|].
  destruct (writeExpired id decided f (tab s)) as [[[t b] o1]|] eqn:Hw; intros [= <- <- <-].
  - apply writeExpired_ok in Hw as [-> Ht]. by apply (expired_settles now id decided).
  - by apply (owner_later (Some (Settling id)) s).
Qed.

(** What only concerns dialogs leaves the core as it is. *)
Lemma later_unowned l s : omap owner_of l = [] → abs (later l s) = abs s.
Proof. intros Hl. rewrite abs_later, Hl, app_nil_r. by destruct s. Qed.
Lemma startWatch_core id h s s' o a : startWatch id h s = (s', o, a) → abs s' = abs s ∧ labels o = [].
Proof.
  unfold startWatch. destruct (pending s !! id); [|by intros [= <- <- <-]]. case_bool_decide; intros [= <- <- <-]; [|done].
  by rewrite later_unowned.
Qed.
Lemma clear_opening_core id s : abs (clear_opening id s) = abs s.
Proof. unfold clear_opening. destruct (pending s !! id) as [e|] eqn:He; [|done]. by apply (abs_same id e). Qed.
Lemma start_window_core id ready f s s' o a : start_window id ready f s = (s', o, a) → abs s' = abs s ∧ labels o = [].
Proof.
  unfold start_window. pose proof (clear_opening_core id s) as Hc.
  destruct (Show id f 0 s) as [| |? ? ? ? expires [] ? ?|?|?|?]; try by intros [= <- <- <-].
  destruct ready as [h|]; [|by intros [= <- <- <-]]. destruct (parse_store expires); intros [= <- <- <-]; [|done]. by rewrite later_unowned.
Qed.
Lemma reopen_core id message s s' o a : reopen id message s = (s', o, a) → abs s' = abs s ∧ labels o = [].
Proof.
  unfold reopen. destruct desktop; cbn [negb]; [|by intros [= <- <- <-]]. destruct (pending s !! id) as [e|] eqn:He; [|by intros [= <- <- <-]].
  destruct (_ || closed s); intros [= <- <- <-]; [done|]. rewrite later_unowned by done. by rewrite (abs_same id e).
Qed.
Lemma reopened_core id h s s' o a : reopened id h s = (s', o, a) → abs s' = abs s ∧ labels o = [].
Proof.
  unfold reopened. destruct (pending s !! id) as [e|] eqn:He; [|by intros [= <- <- <-]]. destruct (closed s); intros [= <- <- <-].
  - split; [|done]. by apply (abs_same id e (with_opening false e)).
  - rewrite later_unowned by done. by rewrite (abs_same id e).
Qed.
Lemma answer_window_core id h kind code s s' o a : answer_window id h kind code s = (s', o, a) → abs s' = abs s ∧ labels o = [].
Proof.
  unfold answer_window. case_bool_decide; cbn [negb]; [|by intros [= <- <- <-]].
  match goal with |- context [later _ ?s2] => assert (abs s2 = abs s) as Ha end.
  { change (pending (stop (Some h) s)) with (pending s). destruct (pending s !! id) as [e|] eqn:He; [|done].
    case_bool_decide; [|done]. by apply (abs_same id e _ (stop (Some h) s)). }
  destruct (_ || _); intros [= <- <- <-]; [by rewrite later_unowned|done].
Qed.
Lemma after_confirm_refines now id k s' o a r : after_confirm id r = (s', o, a) →
  msteps now k (labels r.1.2) (abs r.1.1) → msteps now k (labels o) (abs s').
Proof.
  destruct r as [[s1 o1] a1]. unfold after_confirm. cbn [fst snd]. intros Hr Hs.
  assert (abs s' = abs s1 ∧ o = o1) as [-> ->]; [|done].
  destruct a1 as [| |? ? ? ? ? ? ? ?|?|?|e]; try (by injection Hr as <- <- <-). destruct (pending s1 !! id); [|by destruct e; injection Hr as <- <- <-].
  destruct e; injection Hr as <- <- <-; by rewrite later_unowned.
Qed.
Lemma act_answer_refines now id kind code f s s' o a : good (abs s) → act_answer id kind code now f s = (s', o, a) →
  msteps now (abs s) (labels o) (abs s').
Proof.
  intros Hg. unfold act_answer. case_bool_decide; [apply rejectWith_refines|]. destruct (isSixDigits code); cbn [negb].
  - intros Hr. eapply after_confirm_refines; [exact Hr|]. destruct (confirm _ _ _ _ _ _) as [[s1 o1] a1] eqn:Hc. by eapply confirm_refines.
  - intros [= <- <- <-]. rewrite later_unowned by done. apply ms_nil.
Qed.

(** ** The whole store *)

Lemma Close_core s s' o a : Close s = (s', o, a) → abs s' = abs s ∧ labels o = [].
Proof.
  intros [= <- <- <-]. split.
  - unfold abs. cbn. by rewrite <- map_fmap_compose.
  - by induction (omap _ _).
Qed.
Lemma List_refines now order f s s' o a : List_ order now f s = (s', o, a) → msteps now (abs s) (labels o) (abs s').
Proof.
  unfold List_. destruct (sweepExpiredLocked order now f 1 s) as [[[s1 o1] h1] err] eqn:Hs.
  apply sweep_refines in Hs as (H1 & H2 & H3).
  destruct err; [|destruct (broken f 0)]; intros [= <- <- <-]; by rewrite labels_app, H2, H3.
Qed.
Lemma good_perm t p l l' : l ≡ₚ l' → good (Core t p l) → good (Core t p l').
Proof. intros Hp [H1 H2]. split; [exact H1|]. intros c code sl. cbn. rewrite <- Hp. apply H2. Qed.
Lemma take_job_owner n s j s1 : take_job n s = Some (j, s1) →
  k_owners (abs s) ≡ₚ k_owners (with_owner (owner_of j) s1) ∧ with_owner (owner_of j) s1 = Core (tab s) (k_slots (abs s)) (k_owners (with_owner (owner_of j) s1)).
Proof.
  unfold take_job. destruct (jobs s !! n) as [j'|] eqn:Hj; [|done]. intros [= <- <-]. split; [|done].
  change (k_owners (abs s)) with (omap owner_of (jobs s)). rewrite (delete_Permutation _ _ _ Hj) at 1. cbn. by destruct (owner_of j').
Qed.

Lemma run_job_refines now j f s s' o a : good (with_owner (owner_of j) s) → run_job j now f s = Some (s', o, a) →
  msteps now (with_owner (owner_of j) s) (labels o) (abs s').
Proof.
  intros Hg. assert (∀ (P : Prop), (abs s' = abs s ∧ labels o = []) → msteps now (abs s) (labels o) (abs s')) as Hcore.
  { intros _ [-> ->]. apply ms_nil. }
  destruct j; cbn [run_job]; try discriminate; intros [= Hs].
  - by apply create_insert_refines in Hs.
  - apply (Hcore True). by eapply startWatch_core.
  - by apply act_answer_refines in Hs.
  - apply (Hcore True). by eapply reopen_core.
  - apply (Hcore True). by eapply reopened_core.
  - by eapply rejectRow_refines.
  - by eapply reject_ids_refines.
  - by eapply expire_row_refines.
  - by eapply retry_expire_refines.
Qed.

Lemma step_msteps o now f s s' os a : good (abs s) → step o now f s = Some (s', os, a) →
  msteps now (abs s) (drew o now a ++ labels os) (abs s').
Proof.
  intros Hg.
  assert (∀ n j s1 r, take_job n s = Some (j, s1) → (good (with_owner (owner_of j) s1) → msteps now (with_owner (owner_of j) s1) (labels os) r) →
    msteps now (abs s) (labels os) r) as Htake.
  { intros n j s1 r Ht Hr. apply take_job_owner in Ht as [Hp He]. eapply ms_silent; [apply (ms_perm now (tab s) (k_slots (abs s)) _ _ Hp)|].
    rewrite <- He. apply Hr. rewrite He. by apply (good_perm _ _ (k_owners (abs s))). }
  assert (∀ k k' : core, k' = k ∧ labels os = [] → msteps now k (labels os) k') as Hcore by (intros k k' [-> ->]; apply ms_nil).
  destruct o; cbn [step]; intros Hs;
    match goal with |- msteps _ _ (drew (OpCreate _ _ _ _ _ _) _ _ ++ _) _ => idtac | _ => cbn [drew app] end.
  - injection Hs as Hs. by apply Create_refines in Hs.
  - injection Hs as Hs. by eapply confirm_refines.
  - injection Hs as Hs. by eapply rejectWith_refines.
  - injection Hs as Hs. revert Hs. unfold RejectFor. case_bool_decide; [apply rejectWith_refines|]. intros [= <- <- <-]. apply ms_nil.
  - injection Hs as <- <- <-. rewrite later_unowned by done. apply ms_nil.
  - injection Hs as Hs. revert Hs. unfold OpenWindow. destruct desktop; cbn [negb]; [|by intros [= <- <- <-]; apply ms_nil].
    destruct (pending s !! id) as [e|]; [|by intros [= <- <- <-]; apply ms_nil].
    destruct (l_reserved e); [by intros [= <- <- <-]; apply ms_nil|].
    destruct (_ || _); intros [= <- <- <-]; [apply ms_nil|]. rewrite later_unowned by done. apply ms_nil.
  - injection Hs as Hs. by eapply List_refines.
  - injection Hs as <- <- <-. apply ms_nil.
  - injection Hs as <- <- <-. apply ms_nil.
  - injection Hs as Hs. by eapply expireNow_refines.
  - apply Hcore, (Close_core s s' os a). congruence.
  - destruct (take_job n s) as [[j s1]|] eqn:Ht; [|done]. eapply Htake; [exact Ht|]. intros Hg1. destruct j; try done; injection Hs as Hs.
    + by apply (create_window_refines now) in Hs.
    + by apply Hcore; eapply start_window_core.
  - destruct (take_job n s) as [[j s1]|] eqn:Ht; [|done]. eapply Htake; [exact Ht|]. intros Hg1. destruct j; try done; injection Hs as Hs.
    by apply (create_code_refines now) in Hs.
  - destruct (take_job n s) as [[j s1]|] eqn:Ht; [|done]. eapply Htake; [exact Ht|]. intros Hg1. destruct j; try done; injection Hs as Hs.
    by apply Hcore; eapply answer_window_core.
  - destruct (take_job n s) as [[j s1]|] eqn:Ht; [|done]. eapply Htake; [exact Ht|]. intros Hg1. by apply run_job_refines in Hs.
Qed.
End Steps.
Arguments slot : clear implicits.
Arguments owner : clear implicits.
Arguments core : clear implicits.
Arguments label : clear implicits.
