(* ===== verification/ApprovalInvariant.v ===== *)
(** * Human approvals: the phases of an approval

    What is known of one approval at any moment of a run, from the history of
    labels (ApprovalSteps.v): its id is not drawn, or Create still works on
    it, or it waits for its code, or a call settles it, or it is done.
    [phases_step] proves that every step keeps every id in a phase, if no id
    is drawn twice or taken by a row of an earlier run. *)

From S2P Require Import Prelude Utf8 Canonical Strconv DisplayText WireTime Body Approvals ApprovalSteps.

Open Scope Z_scope.

Section Invariant.
Context {X E : Type} `{Unicode} `{ApprovalEnv}.
Implicit Types (c : creation X E) (t : tables X) (s : store X E) (k : core X E) (h : list (label X E)) (sl : slot X E).

(** ** The history of one id *)

Definition drawn h : list bytes := omap (λ l, match l with Drew c => Some (c_id c) | _ => None end) h.
Definition creations (id : bytes) h : list (creation X E) :=
  omap (λ l, match l with Drew c => if bool_decide (c_id c = id) then Some c else None | _ => None end) h.
Definition shown (id : bytes) h : list bytes :=
  omap (λ l, match l with Showed i code => if bool_decide (i = id) then Some code else None | _ => None end) h.
Definition wrongs (id : bytes) h : list bytes :=
  omap (λ l, match l with WrongCode i code _ _ => if bool_decide (i = id) then Some code else None | _ => None end) h.
Definition performed (id : bytes) h : list bytes :=
  omap (λ l, match l with Performed i code _ => if bool_decide (i = id) then Some code else None | _ => None end) h.

Definition owner_id (o : owner X E) : bytes := match o with Creating c _ => c_id c | Settling id => id end.
Definition owners_of (id : bytes) (l : list (owner X E)) : list (owner X E) := List.filter (λ o, bool_decide (owner_id o = id)) l.

(** ** Phases *)

(** The phase of [id], from its creations, codes shown, wrong codes,
    approvals, its row, its slot and its owners; [old] says that an earlier
    run wrote its row. *)
Inductive phase (old : Prop) (id : bytes) : list (creation X E) → list bytes → list bytes → list bytes →
    option row → option (slot X E) → list (owner X E) → Prop :=
| ph_none r : (r ≠ None → old) → phase old id [] [] [] [] r None []
| ph_creating c code (osl : option (slot X E)) : c_id c = id → ¬ old →
    (∀ sl, osl = Some sl → reserved sl = true ∧ action sl = c_action c ∧ attempts sl = 0) →
    phase old id [c] (match code with Some code => [code] | None => [] end) [] [] None osl [Creating c code]
| ph_live c code ws sl : c_id c = id → ¬ old → reserved sl = false → mac sl = codeMAC id code → action sl = c_action c →
    attempts sl = Z.of_nat (length ws) → (length ws < 3)%nat →
    phase old id [c] [code] ws [] (Some (count_row (attempts sl) StatePending None (new_row c))) (Some sl) []
| ph_settling c code ws r : ¬ old → (length ws ≤ 3)%nat → a_state r = StatePending →
    phase old id [c] [code] ws [] (Some r) None [Settling id]
| ph_done c code ws ps r : ¬ old → (length code ≤ 1)%nat → (length ws ≤ 3)%nat → (length ps ≤ 1)%nat → phase old id [c] code ws ps r None [].

Definition phase_at t0 h k (id : bytes) : Prop :=
  phase (id ∈ map a_id (rows t0)) id (creations id h) (shown id h) (wrongs id h) (performed id h)
    (find_row id (rows (k_tab k))) (k_slots k !! id) (owners_of id (k_owners k)).
Definition phases t0 h k : Prop := (∀ id, phase_at t0 h k id) ∧ NoDup (map a_id (rows (k_tab k))).
Definition fresh t0 h : Prop := NoDup (map a_id (rows t0) ++ drawn h).

(** ** Rows, owners and labels of one id *)

Lemma find_row_some id l r : find_row id l = Some r → r ∈ l ∧ a_id r = id.
Proof. intros Hf. apply List.find_some in Hf as [Hin Hid]. bprop. by rewrite list_elem_of_In. Qed.
Lemma find_row_none id l : find_row id l = None ↔ id ∉ map a_id l.
Proof.
  unfold find_row. induction l as [|r l IH]; cbn [List.find map]; [by split; [intros _ Hn; inversion Hn|]|].
  case_bool_decide as Hid; rewrite not_elem_of_cons; [split; [done|intros [Hn _]; by destruct Hn]|].
  rewrite IH. split; [intros Hn; split; [by intros ->|done]|by intros [_ Hn]].
Qed.
Lemma find_update id id' (g : row → row) l : (∀ r, a_id (g r) = a_id r) →
  find_row id (update_rows id' g l) = (if bool_decide (id = id') then g <$> find_row id l else find_row id l).
Proof.
  intros Hg. unfold find_row, update_rows. induction l as [|r l IH]; [by case_bool_decide|]. cbn [map List.find].
  destruct (decide (a_id r = id')) as [H1|H1]; [rewrite (bool_decide_eq_true_2 _ H1), Hg|rewrite (bool_decide_eq_false_2 _ H1)];
    (destruct (decide (a_id r = id)) as [H2|H2]; [rewrite (bool_decide_eq_true_2 _ H2)|rewrite (bool_decide_eq_false_2 _ H2); exact IH]);
    case_bool_decide as H3; try done; congruence.
Qed.
Lemma find_snoc id l r : find_row id (l ++ [r]) = match find_row id l with Some r' => Some r' | None => if bool_decide (a_id r = id) then Some r else None end.
Proof. unfold find_row. induction l as [|r' l IH]; [done|]. simpl. destruct (bool_decide (a_id r' = id)); [done|exact IH]. Qed.
Lemma find_filter id (P : row → bool) l : NoDup (map a_id l) →
  find_row id (List.filter P l) = match find_row id l with Some r => if P r then Some r else None | None => None end.
Proof.
  unfold find_row. induction l as [|r l IH]; cbn [map List.filter List.find]; [done|]. intros [Hn Hd]%NoDup_cons.
  destruct (P r) eqn:Hp; cbn [List.find]; case_bool_decide as Hid; rewrite ?Hp; [done|by apply IH| |by apply IH].
  rewrite IH by done. assert (find_row id l = None) as Hf by (apply find_row_none; by subst). unfold find_row in Hf. by rewrite Hf.
Qed.
Lemma ids_update id (g : row → row) l : (∀ r, a_id (g r) = a_id r) → map a_id (update_rows id g l) = map a_id l.
Proof. intros Hg. unfold update_rows. rewrite map_map. apply map_ext. intros r. by case_bool_decide. Qed.
Lemma ids_filter (P : row → bool) l : NoDup (map a_id l) → NoDup (map a_id (List.filter P l)).
Proof.
  induction l as [|r l IH]; cbn [map List.filter]; [done|]. intros [Hn Hd]%NoDup_cons. destruct (P r); cbn [map]; [|by apply IH].
  apply NoDup_cons. split; [|by apply IH]. rewrite elem_of_map_list in *. intros (r' & Hr & Hin). apply Hn. exists r'. split; [done|].
  rewrite list_elem_of_In, filter_In in Hin. rewrite list_elem_of_In. by destruct Hin.
Qed.

Lemma owners_cons id o l : owners_of id (o :: l) = (if bool_decide (owner_id o = id) then [o] else []) ++ owners_of id l.
Proof. unfold owners_of. cbn [List.filter]. by case_bool_decide. Qed.
Lemma owners_app id l l' : owners_of id (l ++ l') = owners_of id l ++ owners_of id l'.
Proof. apply List.filter_app. Qed.
Lemma owners_perm id l l' : l ≡ₚ l' → owners_of id l ≡ₚ owners_of id l'.
Proof.
  unfold owners_of. induction 1 as [|o l l' _ IH|o o' l|l l1 l2 _ IH1 _ IH2]; cbn [List.filter]; [done| | |by etransitivity].
  - case_bool_decide; by rewrite IH.
  - do 2 case_bool_decide; try done. apply Permutation_swap.
Qed.
Lemma owners_settling id l : NoDup l → owners_of id (map Settling l) = if bool_decide (id ∈ l) then [Settling id] else [].
Proof.
  induction l as [|x l IH]; [done|]. intros [Hn Hd]%NoDup_cons. cbn [map]. rewrite owners_cons, IH by done. cbn [owner_id].
  destruct (decide (x = id)) as [<-|Hne].
  - rewrite (bool_decide_eq_false_2 (x ∈ l)), (bool_decide_eq_true_2 (x = x)), (bool_decide_eq_true_2 (x ∈ x :: l)) by (done || by left). done.
  - rewrite (bool_decide_eq_false_2 (x = id)) by done. rewrite (bool_decide_ext (id ∈ x :: l) (id ∈ l)); [done|]. set_solver.
Qed.

(** ** Inversion of a phase *)

Lemma live_inv old id cs sh ws ps r sl ow : phase old id cs sh ws ps r (Some sl) ow → reserved sl = false →
  ∃ c code, (cs = [c] ∧ sh = [code] ∧ ps = [] ∧ ow = []) ∧ (c_id c = id ∧ ¬ old) ∧
    (mac sl = codeMAC id code ∧ action sl = c_action c ∧ attempts sl = Z.of_nat (length ws) ∧ (length ws < 3)%nat) ∧
    r = Some (count_row (attempts sl) StatePending None (new_row c)).
Proof. inversion 1 as [|c code osl Hc Ho Hs|c code ? ? Hc Ho Hr Hm Ha Hn Hl| |]; subst; intros Hr'; [by destruct (Hs sl eq_refl) as [Hr _]; rewrite Hr in Hr'|]. by exists c, code. Qed.
Lemma creating_inv old id cs sh ws ps r osl c code l : phase old id cs sh ws ps r osl (Creating c code :: l) →
  (cs = [c] ∧ sh = (match code with Some code => [code] | None => [] end) ∧ ws = [] ∧ ps = [] ∧ r = None ∧ l = []) ∧ (c_id c = id ∧ ¬ old) ∧
  ∀ sl, osl = Some sl → reserved sl = true ∧ action sl = c_action c ∧ attempts sl = 0.
Proof. by inversion 1; subst. Qed.
Lemma settling_inv old id cs sh ws ps r osl l : phase old id cs sh ws ps r osl (Settling id :: l) →
  ∃ c r', (cs = [c] ∧ ps = [] ∧ osl = None ∧ l = [] ∧ r = Some r') ∧ ¬ old ∧ ((length sh ≤ 1)%nat ∧ (length ws ≤ 3)%nat) ∧ a_state r' = StatePending.
Proof. inversion 1 as [| | |c code ? r' Ho Hl Hp|]; subst. exists c, r'. split_and!; done || (cbn; lia). Qed.
Lemma none_inv old id sh ws ps r osl ow : phase old id [] sh ws ps r osl ow →
  (sh = [] ∧ ws = [] ∧ ps = [] ∧ osl = None ∧ ow = []) ∧ (r ≠ None → old).
Proof. by inversion 1; subst. Qed.

Lemma phase_owners old id cs sh ws ps r osl ow ow' : phase old id cs sh ws ps r osl ow → ow ≡ₚ ow' → phase old id cs sh ws ps r osl ow'.
Proof.
  intros Hp Hl. assert (ow' = ow) as ->; [|done]. symmetry in Hl.
  by destruct Hp; (apply Permutation_nil_r in Hl || apply Permutation_singleton_r in Hl).
Qed.

(** ** A step that touches one id *)

Definition label_id (l : label X E) : bytes :=
  match l with Drew c => c_id c | Showed id _ | WrongCode id _ _ _ | Performed id _ _ => id end.
Definition same_view h k k' id : Prop :=
  Forall (λ l, label_id l ≠ id) h ∧ find_row id (rows (k_tab k')) = find_row id (rows (k_tab k)) ∧
  k_slots k' !! id = k_slots k !! id ∧ owners_of id (k_owners k') = owners_of id (k_owners k).

Lemma other_labels id h : Forall (λ l, label_id l ≠ id) h → creations id h = [] ∧ shown id h = [] ∧ wrongs id h = [] ∧ performed id h = [].
Proof.
  unfold creations, shown, wrongs, performed.
  induction 1 as [|l h Hl _ IH]; [done|]. destruct l; cbn in *; rewrite bool_decide_eq_false_2 by done; exact IH.
Qed.
Lemma phase_at_app t0 h h' k id :
  phase (id ∈ map a_id (rows t0)) id (creations id h ++ creations id h') (shown id h ++ shown id h') (wrongs id h ++ wrongs id h')
    (performed id h ++ performed id h') (find_row id (rows (k_tab k))) (k_slots k !! id) (owners_of id (k_owners k)) → phase_at t0 (h ++ h') k id.
Proof. unfold phase_at, creations, shown, wrongs, performed. by rewrite !omap_app. Qed.
Lemma phases_one t0 h h' k k' id : phases t0 h k → (∀ id', id' ≠ id → same_view h' k k' id') → phase_at t0 (h ++ h') k' id →
  NoDup (map a_id (rows (k_tab k'))) → phases t0 (h ++ h') k'.
Proof.
  intros [Hp _] Hs Hid Hd. split; [|done]. intros id'. destruct (decide (id' = id)) as [->|Hne]; [done|].
  destruct (Hs id' Hne) as (Hl & Hf & Hsl & Ho). apply phase_at_app. destruct (other_labels _ _ Hl) as (-> & -> & -> & ->).
  rewrite Hf, Hsl, Ho, !app_nil_r. apply Hp.
Qed.
Lemma same_views h' k k' id id' : Forall (λ l, label_id l = id) h' → id' ≠ id →
  find_row id' (rows (k_tab k')) = find_row id' (rows (k_tab k)) → k_slots k' !! id' = k_slots k !! id' →
  owners_of id' (k_owners k') = owners_of id' (k_owners k) → same_view h' k k' id'.
Proof. intros Hl Hne Hf Hs Ho. split; [|done]. eapply Forall_impl; [exact Hl|]. intros l Hid. cbn in *. congruence. Qed.

Lemma fresh_new t0 h c : fresh t0 (h ++ [Drew c]) → creations (c_id c) h = [] ∧ c_id c ∉ map a_id (rows t0).
Proof.
  unfold fresh, drawn. rewrite omap_app, app_assoc. intros Hd. apply NoDup_app in Hd as (_ & Hd & _).
  assert (c_id c ∉ map a_id (rows t0) ++ drawn h) as Hn.
  { intros Hin. apply (Hd _ Hin). cbn. by left. }
  apply not_elem_of_app in Hn as [H1 H2]. split; [|done]. clear -H2. unfold creations, drawn in *. induction h as [|l h IH]; [done|].
  destruct l; cbn in *; try by apply IH. apply not_elem_of_cons in H2 as [Hne Hn]. rewrite bool_decide_eq_false_2 by congruence. by apply IH.
Qed.

#[local] Arguments find_row : simpl never.
#[local] Arguments update_rows : simpl never.
#[local] Arguments owners_of : simpl never.
#[local] Arguments storeTime : simpl never.
Ltac own := rewrite ?owners_cons; cbn [owner_id]; rewrite ?(bool_decide_eq_false_2 (_ = _)) by (done || congruence); try done.
Ltac elsewhere id := intros id' Hne; apply (same_views _ _ _ id);
  [by repeat constructor|exact Hne| | |]; cbn [k_tab k_slots k_owners rows with_rows];
  rewrite ?lookup_insert_ne, ?lookup_delete_ne by congruence; try done; try by own.
Ltac here := apply phase_at_app; cbn; rewrite ?bool_decide_eq_true_2, ?app_nil_r by done;
  rewrite ?lookup_insert_eq, ?lookup_delete_eq, ?owners_cons; cbn [owner_id]; rewrite ?bool_decide_eq_true_2 by done; cbn [app].

Section Cases.
Variables (t0 : tables X) (h : list (label X E)) (t : tables X) (p : gmap bytes (slot X E)) (l : list (owner X E)).

Lemma phases_perm l' : l ≡ₚ l' → phases t0 h (Core t p l) → phases t0 (h ++ []) (Core t p l').
Proof.
  intros Hl [Hp Hd]. split; [|done]. intros id. here. apply (phase_owners _ _ _ _ _ _ _ _ (owners_of id l)); [apply (Hp id)|by apply owners_perm].
Qed.
Lemma phases_prune now : phases t0 h (Core t p l) →
  phases t0 (h ++ []) (Core (with_rows (List.filter (λ r, negb (prunable now r)) (rows t)) t) p l).
Proof.
  intros [Hp Hd]. split; [|by apply ids_filter]. intros id. here. specialize (Hp id). unfold phase_at in Hp. cbn in Hp.
  rewrite find_filter by exact Hd. revert Hp. generalize (find_row id (rows t)). intros r Hp.
  assert (∀ r', a_state r' = StatePending → negb (prunable now r') = true) as Hpr by (intros r' Hr; unfold prunable; by rewrite Hr).
  destruct Hp; rewrite ?Hpr by done; try by econstructor.
  constructor. destruct r as [r|]; [intros _; auto|done].
Qed.
Lemma phases_reserve c : phases t0 h (Core t p l) → fresh t0 (h ++ [Drew (plain c)]) →
  phases t0 (h ++ [Drew (plain c)]) (Core t (<[c_id c := Slot [] (c_action c) true 0]> p) (Creating (plain c) None :: l)).
Proof.
  intros Hp Hf. apply fresh_new in Hf as [Hc Ho]. cbn in Hc, Ho. pose proof (proj1 Hp (c_id c)) as Hid. unfold phase_at in Hid. rewrite Hc in Hid.
  apply none_inv in Hid as [(Hs & Hw & Hq & Hsl & How) Hr]. cbn in Hr, How.
  apply (phases_one _ _ _ _ _ (c_id c) Hp); [elsewhere (c_id c)| |apply Hp].
  here. rewrite Hc, Hs, Hw, Hq, How. cbn [app]. assert (find_row (c_id c) (rows t) = None) as ->.
  { destruct (find_row (c_id c) (rows t)); [by destruct Ho; apply Hr|done]. }
  apply (ph_creating _ _ (plain c) None); [done|done|]. by intros sl [= <-].
Qed.
Lemma creating_at c code : phases t0 h (Core t p (Creating c code :: l)) →
  (creations (c_id c) h = [c] ∧ shown (c_id c) h = (match code with Some code => [code] | None => [] end) ∧
   wrongs (c_id c) h = [] ∧ performed (c_id c) h = [] ∧ find_row (c_id c) (rows t) = None ∧ owners_of (c_id c) l = []) ∧
  c_id c ∉ map a_id (rows t0) ∧
  ∀ sl, p !! c_id c = Some sl → reserved sl = true ∧ action sl = c_action c ∧ attempts sl = 0.
Proof.
  intros [Hp _]. specialize (Hp (c_id c)). unfold phase_at in Hp. cbn [k_owners k_tab k_slots] in Hp. rewrite owners_cons in Hp.
  cbn [owner_id] in Hp. rewrite bool_decide_eq_true_2 in Hp by done. apply creating_inv in Hp as (H1 & [_ H2] & H3). done.
Qed.
Lemma phases_show c code : phases t0 h (Core t p (Creating c None :: l)) →
  phases t0 (h ++ [Showed (c_id c) code]) (Core t p (Creating c (Some code) :: l)).
Proof.
  intros Hp. destruct (creating_at _ _ Hp) as ((Hc & Hs & Hw & Hq & Hf & Ho) & Hold & Hsl).
  apply (phases_one _ _ _ _ _ (c_id c) Hp); [elsewhere (c_id c)| |apply Hp].
  here. rewrite Hc, Hs, Hw, Hq, Hf, Ho. by apply (ph_creating _ _ c (Some code)).
Qed.
Lemma phases_abandon c code : phases t0 h (Core t p (Creating c code :: l)) → phases t0 (h ++ []) (Core t (delete (c_id c) p) l).
Proof.
  intros Hp. destruct (creating_at _ _ Hp) as ((Hc & Hs & Hw & Hq & Hf & Ho) & Hold & Hsl).
  apply (phases_one _ _ _ _ _ (c_id c) Hp); [elsewhere (c_id c)| |apply Hp].
  here. rewrite Hc, Hs, Hw, Hq, Hf, Ho. apply (ph_done _ _ _ _ [] []); cbn; [done|by destruct code; cbn; lia|lia..].
Qed.
Lemma phases_insert c code sl : phases t0 h (Core t p (Creating c (Some code) :: l)) → p !! c_id c = Some sl →
  phases t0 (h ++ []) (Core (with_rows (rows t ++ [new_row c]) t) (<[c_id c := Slot (codeMAC (c_id c) code) (action sl) false (attempts sl)]> p) l).
Proof.
  intros Hp Hslot. destruct (creating_at _ _ Hp) as ((Hc & Hs & Hw & Hq & Hf & Ho) & Hold & Hsl). destruct (Hsl _ Hslot) as (_ & Ha & Hn).
  apply (phases_one _ _ _ _ _ (c_id c) Hp); [elsewhere (c_id c)| |].
  - rewrite find_snoc. destruct (find_row id' (rows t)); [done|]. by rewrite bool_decide_eq_false_2.
  - here. rewrite find_snoc, Hf, Hc, Hs, Hw, Hq, Ho. cbn [a_id new_row]. rewrite bool_decide_eq_true_2 by done.
    rewrite Hn. apply (ph_live _ _ c code [] (Slot (codeMAC (c_id c) code) (action sl) false 0)); cbn; done || lia.
  - cbn. rewrite map_app. apply NoDup_app. split_and!; [apply Hp| |apply NoDup_singleton].
    intros id Hin Hin'. apply list_elem_of_singleton in Hin' as ->. by apply (proj1 (find_row_none _ _) Hf).
Qed.

Lemma live_at id sl : phases t0 h (Core t p l) → p !! id = Some sl → reserved sl = false →
  ∃ c code, (creations id h = [c] ∧ shown id h = [code] ∧ performed id h = [] ∧ owners_of id l = []) ∧ (c_id c = id ∧ id ∉ map a_id (rows t0)) ∧
    (mac sl = codeMAC id code ∧ action sl = c_action c ∧ attempts sl = Z.of_nat (length (wrongs id h)) ∧ (length (wrongs id h) < 3)%nat) ∧
    find_row id (rows t) = Some (count_row (attempts sl) StatePending None (new_row c)).
Proof.
  intros [Hp _] Hsl Hr. specialize (Hp id). unfold phase_at in Hp. cbn [k_owners k_tab k_slots] in Hp. rewrite Hsl in Hp. by apply live_inv in Hp.
Qed.
(** The row [id] is decided and its slot is gone. *)
Lemma phases_done h' id sl g t' : phases t0 h (Core t p l) → p !! id = Some sl → reserved sl = false →
  (∀ r, a_id (g r) = a_id r) → rows t' = update_rows id g (rows t) →
  Forall (λ x, label_id x = id) h' → creations id h' = [] ∧ shown id h' = [] → (length (wrongs id h') ≤ 1)%nat → (length (performed id h') ≤ 1)%nat →
  phases t0 (h ++ h') (Core t' (delete id p) l).
Proof.
  intros Hp Hsl Hr Hg Ht Hh' [Hc' Hs'] Hw' Hq'. destruct (live_at _ _ Hp Hsl Hr) as (c & code & (Hc & Hs & Hq & Ho) & [Hid Hold] & (Hm & Ha & Hn & Hl) & Hf).
  apply (phases_one _ _ _ _ _ id Hp); [|apply phase_at_app|cbn; rewrite Ht, ids_update by done; apply Hp].
  - intros id' Hne. apply (same_views _ _ _ id); cbn; [done|done| |by apply lookup_delete_ne|done].
    rewrite Ht, find_update by done. by rewrite bool_decide_eq_false_2.
  - cbn. rewrite Hc, Hc', Hs, Hs', Hq, Ho, lookup_delete_eq. apply ph_done; [done|cbn; lia|rewrite length_app; lia|done].
Qed.
Lemma phases_take id sl : phases t0 h (Core t p l) → p !! id = Some sl → reserved sl = false →
  phases t0 (h ++ []) (Core t (delete id p) (Settling id :: l)).
Proof.
  intros Hp Hsl Hr. destruct (live_at _ _ Hp Hsl Hr) as (c & code & (Hc & Hs & Hq & Ho) & [Hid Hold] & (Hm & Ha & Hn & Hl) & Hf).
  apply (phases_one _ _ _ _ _ id Hp); [elsewhere id| |apply Hp].
  here. rewrite Hc, Hs, Hq, Ho, Hf. apply ph_settling; [done|lia|done].
Qed.
Lemma phases_lost id sl code now : phases t0 h (Core t p l) → p !! id = Some sl → reserved sl = false →
  phases t0 (h ++ [WrongCode id code now false]) (Core t (delete id p) (Settling id :: l)).
Proof.
  intros Hp Hsl Hr. destruct (live_at _ _ Hp Hsl Hr) as (c & code' & (Hc & Hs & Hq & Ho) & [Hid Hold] & (Hm & Ha & Hn & Hl) & Hf).
  apply (phases_one _ _ _ _ _ id Hp); [elsewhere id| |apply Hp].
  here. rewrite Hc, Hs, Hq, Ho, Hf. apply ph_settling; [done|rewrite length_app; cbn; lia|done].
Qed.
Lemma settling_at id : phases t0 h (Core t p (Settling id :: l)) →
  ∃ c r, (creations id h = [c] ∧ performed id h = [] ∧ p !! id = None ∧ owners_of id l = [] ∧ find_row id (rows t) = Some r) ∧
    id ∉ map a_id (rows t0) ∧ ((length (shown id h) ≤ 1)%nat ∧ (length (wrongs id h) ≤ 3)%nat) ∧ a_state r = StatePending.
Proof.
  intros [Hp _]. specialize (Hp id). unfold phase_at in Hp. cbn [k_owners k_tab k_slots] in Hp. rewrite owners_cons in Hp.
  cbn [owner_id] in Hp. rewrite bool_decide_eq_true_2 in Hp by done. by apply settling_inv in Hp.
Qed.
Lemma phases_settled id g : phases t0 h (Core t p (Settling id :: l)) → (∀ r, a_id (g r) = a_id r) →
  phases t0 (h ++ []) (Core (with_rows (update_rows id g (rows t)) t) p l).
Proof.
  intros Hp Hg. destruct (settling_at _ Hp) as (c & r & (Hc & Hq & Hsl & Ho & Hf) & Hold & Hl & Hr).
  apply (phases_one _ _ _ _ _ id Hp); [elsewhere id| |cbn; rewrite ids_update by done; apply Hp].
  - rewrite find_update by done. by rewrite bool_decide_eq_false_2.
  - here. rewrite Hc, Hq, Ho, Hsl. apply ph_done; [done|cbn; lia|lia|cbn; lia].
Qed.
Lemma phases_unsettled id : phases t0 h (Core t p (Settling id :: l)) → phases t0 (h ++ []) (Core t p l).
Proof.
  intros Hp. destruct (settling_at _ Hp) as (c & r & (Hc & Hq & Hsl & Ho & Hf) & Hold & Hl & Hr).
  apply (phases_one _ _ _ _ _ id Hp); [elsewhere id| |apply Hp].
  here. rewrite Hc, Hq, Ho, Hsl. apply ph_done; [done|cbn; lia|lia|cbn; lia].
Qed.
Lemma phases_wrong id sl code r now : phases t0 h (Core t p l) → p !! id = Some sl → reserved sl = false →
  find_row id (rows t) = Some r → a_attempts r = attempts sl →
  phases t0 (h ++ [WrongCode id code now true]) (Core (counted_tables id r now t)
    (if MaxAttempts <=? attempts sl + 1 then delete id p else <[id := Slot (mac sl) (action sl) false (attempts sl + 1)]> p) l).
Proof.
  intros Hp Hsl Hr Hf Ha. destruct (live_at _ _ Hp Hsl Hr) as (c & code' & (Hc & Hs & Hq & Ho) & [Hid Hold] & (Hm & Hac & Hn & Hl) & Hf').
  unfold counted_tables. rewrite Ha. destruct (MaxAttempts <=? attempts sl + 1) eqn:Hmax.
  - eapply (phases_done _ id sl _ _ Hp Hsl Hr); [|done|by repeat constructor|done| |]; [done|..]; cbn; rewrite ?bool_decide_eq_true_2 by done; cbn; lia.
  - apply (phases_one _ _ _ _ _ id Hp); [elsewhere id| |cbn; rewrite ids_update by done; apply Hp].
    + rewrite find_update by done. by rewrite bool_decide_eq_false_2.
    + here. rewrite Hc, Hs, Hq, Ho, find_update, bool_decide_eq_true_2, Hf' by done. cbn [fmap option_fmap option_map app].
      apply Z.leb_gt in Hmax. unfold MaxAttempts in Hmax.
      eapply (ph_live _ _ c code' _ (Slot (mac sl) (action sl) false (attempts sl + 1))); cbn; try done; rewrite length_app; cbn; lia.
Qed.
Lemma phases_lock : phases t0 h (Core t p l) → phases t0 (h ++ []) (Core t ∅ (map Settling (live_ids p) ++ l)).
Proof.
  intros [Hp Hd]. split; [|done]. intros id. here. specialize (Hp id). unfold phase_at in Hp. cbn in Hp.
  rewrite lookup_empty, owners_app, owners_settling by apply NoDup_live_ids. destruct (bool_decide (id ∈ live_ids p)) eqn:Hin; bprop.
  - apply elem_of_live_ids in Hin as (sl & Hsl & Hr). rewrite Hsl in Hp. apply live_inv in Hp; [|done].
    destruct Hp as (c & code & (-> & -> & -> & ->) & [Hid Hold] & (Hm & Ha & Hn & Hl) & ->). apply ph_settling; [done|lia|done].
  - cbn [app]. assert (∀ sl, p !! id = Some sl → reserved sl = true) as Hr.
    { intros sl Hsl. destruct (reserved sl) eqn:Hr; [done|]. destruct Hin. apply elem_of_live_ids. by exists sl. }
    destruct Hp; try by econstructor. specialize (Hr _ eq_refl). congruence.
Qed.
End Cases.

(** ** Every step *)

Lemma phases_app_nil t0 h k : phases t0 (h ++ []) k ↔ phases t0 h k.
Proof. by rewrite app_nil_r. Qed.
Lemma phases_step now t0 h k ls k' : mstep now k ls k' → phases t0 h k → fresh t0 (h ++ ls) → phases t0 (h ++ ls) k'.
Proof.
  intros Hs Hp Hf. destruct Hs.
  - by eapply phases_perm.
  - by apply phases_prune.
  - by apply phases_reserve.
  - by apply phases_show.
  - by eapply phases_abandon.
  - by eapply phases_insert.
  - eapply phases_done; [exact Hp|done|done| |done|by constructor|done|cbn; lia|cbn; lia]. done.
  - by eapply phases_take.
  - by eapply phases_settled.
  - by eapply phases_unsettled.
  - by eapply phases_lost.
  - subst. by eapply phases_wrong.
  - rewrite <- (app_nil_r (h ++ _)). eapply phases_perm; [|apply phases_app_nil, (phases_lock _ _ _ _ _ (phases_wrong _ _ _ _ _ id sl code r now Hp ltac:(done) ltac:(done) ltac:(done) ltac:(done)))].
    apply Permutation_app_tail, Permutation_map. destruct (MaxAttempts <=? attempts sl + 1); [done|]. apply live_ids_insert; [by exists sl|done].
  - eapply phases_done; [exact Hp|done|done| |done|by repeat constructor|done|cbn..]; [done|lia|]. rewrite bool_decide_eq_true_2 by done. cbn. lia.
Qed.

(** ** What approvals did *)

(** The other tables are the effect of the approvals in the history, each one
    authorised: asked for once, its code shown once, a code with the shown
    code's MAC typed before the expiry and after at most two wrong ones, its
    precondition met, its summary rebuilt to the stored one. *)
Inductive authorised (x0 : X) : list (label X E) → X → Prop :=
| au_nil : authorised x0 [] x0
| au_other h l x : authorised x0 h x → (∀ id code now, l ≠ Performed id code now) → authorised x0 (h ++ [l]) x
| au_perform h x c code typed now expires f rs r x1 x' after : authorised x0 h x →
    creations (c_id c) h = [c] → shown (c_id c) h = [code] → codeMAC (c_id c) typed = codeMAC (c_id c) code →
    (length (wrongs (c_id c) h) < 3)%nat → performed (c_id c) h = [] →
    parse_store (storeTime (c_now c + TTL)) = Some expires → now < expires →
    find_row (c_id c) rs = Some r → a_state r = StateApproved → a_summary r = c_summary c →
    checkAction (c_id c) (c_action c) f rs x = Ok x1 → perform (c_action c) rs x1 = Ok (x', after) →
    authorised x0 (h ++ [Performed (c_id c) typed now]) x'.

Lemma authorised_other x0 h l x : authorised x0 h x → match l with [] => True | [Performed _ _ _] => False | [_] => True | _ => False end → authorised x0 (h ++ l) x.
Proof.
  intros Ha. destruct l as [|l [|l' ls]]; [by rewrite app_nil_r|intros Hl; apply au_other; [done|]; by intros ??? ->|by destruct l].
Qed.
Lemma authorised_step now t0 x0 h k ls k' : mstep now k ls k' → phases t0 h k → authorised x0 h (ext (k_tab k)) → authorised x0 (h ++ ls) (ext (k_tab k')).
Proof.
  intros Hs Hp Ha. destruct Hs; try by apply authorised_other.
  match goal with Hsl : p !! id = Some sl, Hr : reserved sl = false |- _ =>
    destruct (live_at _ _ _ _ _ _ _ Hp Hsl Hr) as (c & code' & (Hc & Hsh & Hq & Ho) & [<- Hold] & (Hm & Hac & Hn & Hl) & Hf) end.
  match goal with Hf' : find_row _ (rows t) = Some r |- _ => rewrite Hf in Hf'; injection Hf' as <- end.
  rewrite Hac in *.
  apply (au_perform _ h (ext t) c code' code now expires f rows' (decide_row StateApproved (storeTime now) (count_row (attempts sl) StatePending None (new_row c))) x x' after);
    try done; [congruence|]. unfold rows'. by rewrite find_update, bool_decide_eq_true_2, Hf.
Qed.

(** ** What is counted *)

Definition pending_ok k : Prop := (size (k_slots k) ≤ MaxPending)%nat.
Lemma pending_step now k ls k' : mstep now k ls k' → pending_ok k → pending_ok k'.
Proof.
  unfold pending_ok. intros Hs Hp. assert (∀ id (m : gmap bytes (slot X E)), (size (delete id m) ≤ size m)%nat) as Hdel.
  { intros id m. rewrite map_size_delete. destruct (m !! id); cbn; lia. }
  destruct Hs; cbn in *; try done; try (by etransitivity; [apply Hdel|]).
  - rewrite map_size_insert. destruct (p !! c_id c); cbn; lia.
  - rewrite map_size_insert. by match goal with Hsl : p !! c_id c = Some _ |- _ => rewrite Hsl end.
  - subst. destruct (MaxAttempts <=? attempts sl + 1); [by etransitivity; [apply Hdel|]|]. rewrite map_size_insert.
    by match goal with Hsl : p !! id = Some _ |- _ => rewrite Hsl end.
  - rewrite map_size_empty. lia.
Qed.
End Invariant.
