(* ===== verification/ApprovalCounts.v ===== *)
(** * Human approvals: the limits over time

    Two limits hold over a sliding window of the clock: the approvals created
    in an hour, and the wrong codes counted in a day. [hourly_step] and
    [daily_step] carry them through every step of ApprovalSteps.v, as long as
    the clock does not run backwards. *)

From S2P Require Import Prelude Utf8 Canonical Strconv DisplayText WireTime Body Approvals ApprovalSteps ApprovalInvariant.

Open Scope Z_scope.

Section Counts.
Context {X E : Type} `{Unicode} `{ApprovalEnv}.
Implicit Types (c : creation X E) (k : core X E) (h : list (label X E)) (sl : slot X E) (p : gmap bytes (slot X E)).

(** ** Approvals created in an hour *)

Definition reserved_slots p : nat := size (filter (λ x : bytes * slot X E, reserved x.2 = true) p).
Definition recent (since : bytes) k : nat := (countCreatedSince since (k_tab k) + reserved_slots (k_slots k))%nat.
Definition MaxRecent : nat := MaxPerHour - 1 + MaxPending.
Definition hourly_ok (now : Z) k : Prop := ∀ τ, now ≤ τ → in_years (τ - hour) → (recent (storeTime (τ - hour)) k ≤ MaxRecent)%nat.

Lemma count_mono since since' (t : tables X) : text_le since since' = true → (countCreatedSince since' t ≤ countCreatedSince since t)%nat.
Proof.
  intros Hs. unfold countCreatedSince. induction (rows t) as [|r l IH]; [done|]. cbn [List.filter].
  destruct (text_le since' (a_created r)) eqn:Hr; [rewrite (text_le_trans _ _ _ Hs Hr); cbn; lia|].
  destruct (text_le since (a_created r)); cbn; lia.
Qed.
Lemma count_update since id g (t : tables X) : (∀ r, a_created (g r) = a_created r) →
  countCreatedSince since (with_rows (update_rows id g (rows t)) t) = countCreatedSince since t.
Proof.
  intros Hg. unfold countCreatedSince, update_rows. cbn. induction (rows t) as [|r l IH]; [done|]. cbn [map List.filter].
  assert (a_created (if bool_decide (a_id r = id) then g r else r) = a_created r) as -> by (by case_bool_decide).
  destruct (text_le since (a_created r)); cbn; by rewrite IH.
Qed.
Lemma count_filter since P (t : tables X) : (countCreatedSince since (with_rows (List.filter P (rows t)) t) ≤ countCreatedSince since t)%nat.
Proof.
  unfold countCreatedSince. cbn. induction (rows t) as [|r l IH]; [done|]. cbn [List.filter].
  destruct (P r); cbn [List.filter]; destruct (text_le since (a_created r)); cbn; lia.
Qed.
Lemma count_snoc since r (t : tables X) : (countCreatedSince since (with_rows (rows t ++ [r]) t) ≤ S (countCreatedSince since t))%nat.
Proof. unfold countCreatedSince. cbn. rewrite List.filter_app, length_app. cbn. destruct (text_le since (a_created r)); cbn; lia. Qed.

Lemma reserved_size p : (reserved_slots p ≤ size p)%nat.
Proof. unfold reserved_slots. apply map_size_filter. Qed.
Lemma reserved_delete id p : (reserved_slots (delete id p) ≤ reserved_slots p)%nat.
Proof. unfold reserved_slots. rewrite map_filter_delete, map_size_delete. destruct (_ !! id); cbn; lia. Qed.
Lemma reserved_live id sl p : reserved sl = false → (reserved_slots (<[id := sl]> p) ≤ reserved_slots (delete id p))%nat.
Proof. intros Hr. unfold reserved_slots. rewrite map_filter_insert_False; [done|]. cbn. by rewrite Hr. Qed.
Lemma reserved_gone id sl p : p !! id = Some sl → reserved sl = true → reserved_slots p = S (reserved_slots (delete id p)).
Proof.
  intros Hsl Hr. unfold reserved_slots. rewrite map_filter_delete. set (q := filter _ p).
  assert (q !! id = Some sl) as Hq by (by apply map_lookup_filter_Some). rewrite map_size_delete, Hq. cbn.
  assert (size q ≠ 0)%nat as Hz; [|lia]. intros Hz. apply map_size_empty_inv in Hz. rewrite Hz, lookup_empty in Hq. done.
Qed.

Lemma recent_step now k ls k' since : mstep now k ls k' → (∀ c, ls ≠ [Drew c]) → (recent since k' ≤ recent since k)%nat.
Proof.
  intros Hs Hls. unfold recent. destruct Hs; cbn [k_tab k_slots]; try done.
  - pose proof (count_filter since (λ r, negb (prunable now r)) t). lia.
  - by destruct (Hls (plain c)).
  - pose proof (reserved_delete (c_id c) p). lia.
  - pose proof (count_snoc since (new_row c) t). pose proof (reserved_gone (c_id c) sl p ltac:(done) ltac:(done)).
    pose proof (reserved_live (c_id c) (Slot (codeMAC (c_id c) code) (action sl) false (attempts sl)) p eq_refl). lia.
  - rewrite count_update by done. pose proof (reserved_delete id p). lia.
  - pose proof (reserved_delete id p). lia.
  - by rewrite count_update.
  - pose proof (reserved_delete id p). lia.
  - change (countCreatedSince since (counted_tables id r now t)) with
      (countCreatedSince since (with_rows (rows (counted_tables id r now t)) t)). cbn [rows counted_tables]. rewrite count_update by done. subst.
    destruct (MaxAttempts <=? attempts sl + 1); pose proof (reserved_delete id p); [lia|].
    pose proof (reserved_live id (Slot (mac sl) (action sl) false (attempts sl + 1)) p eq_refl). lia.
  - change (countCreatedSince since (counted_tables id r now t)) with
      (countCreatedSince since (with_rows (rows (counted_tables id r now t)) t)). cbn [rows counted_tables]. rewrite count_update by done.
    change (reserved_slots ∅) with 0%nat. lia.
  - change (countCreatedSince since (Tables rows' (wrong t) x')) with (countCreatedSince since (with_rows rows' t)).
    unfold rows'. rewrite count_update by done. pose proof (reserved_delete id p). lia.
Qed.
Lemma hourly_step now0 now k ls k' : mstep now k ls k' → now0 ≤ now → in_years (now - hour) → hourly_ok now0 k → hourly_ok now k'.
Proof.
  intros Hs Hle Hy Hk τ Hτ Hyτ.
  assert ((∀ c, ls ≠ [Drew c]) ∨ ∃ c, ls = [Drew c]) as [Hn|[c ->]].
  { destruct ls as [|[c| | |] [|]]; (right; by exists c) || by left. }
  { etransitivity; [by eapply recent_step|]. apply Hk; [lia|done]. }
  inversion Hs as [| |t p l c' Hl Hsz Hc| | | | | | | | | | |]; subst. unfold recent. cbn [k_tab k_slots].
  pose proof (count_mono (storeTime (c_now c' - hour)) (storeTime (τ - hour)) t ltac:(apply text_le_storeTime; done || lia)).
  pose proof (reserved_size (<[c_id c' := Slot [] (c_action c') true 0]> p)) as Hr. rewrite map_size_insert in Hr.
  unfold MaxRecent, MaxPerHour, MaxPending in *. destruct (p !! c_id c'); cbn in Hr; lia.
Qed.

(** ** Wrong codes in a day *)

Definition milli (t : Z) : Z := t / 10 ^ 6 * 10 ^ 6.
Definition counted (τ : Z) h : nat :=
  length (List.filter (λ l, match l with WrongCode _ _ n true => (τ - WrongCodeWindow <? milli n) && (n <=? τ) | _ => false end) h).
Record daily_ok (now : Z) h k : Prop := {
  d_ten : ∀ τ, (counted τ h ≤ MaxWrongPerDay)%nat;
  d_stored : ∀ τ, now ≤ τ → (counted τ h ≤ length (wrongCodesIn (wrong (k_tab k)) τ))%nat;
  d_locked : k_slots k ≠ ∅ → (length (wrongCodesIn (wrong (k_tab k)) now) < MaxWrongPerDay)%nat;
}.

Lemma milli_le (t : Z) : milli t ≤ t.
Proof. unfold milli. zdivmod. Qed.
Lemma milli_mono (t u : Z) : t ≤ u → milli t ≤ milli u.
Proof. intros Hl. unfold milli. apply Z.mul_le_mono_nonneg_r; [done|]. by apply Z.div_le_mono. Qed.
Lemma parse_store_milli s x : parse_store s = Some x → in_years x ∧ milli x = x.
Proof.
  unfold parse_store. destruct (parse_secs s) as [[u s1]|] eqn:Hs; [|done]. apply parse_secs_years in Hs. cbn [mbind option_bind].
  destruct (milli_fraction s1) as [[ns s2]|] eqn:Hm; [|done]. cbn [mbind option_bind]. case_bool_decide; [|done]. intros [= <-].
  unfold milli_fraction in Hm. destruct s1 as [|b s1]; [done|].
  destruct (((b =? 46) || (b =? 44)) && (length (take 3 s1) =? 3)%nat && forallb is_digit (take 3 s1)) eqn:Hb; [|done]. injection Hm as <- _.
  apply andb_true_iff in Hb as [[_ Hl]%andb_true_iff Hd]. apply Nat.eqb_eq in Hl. pose proof (digits_val_bound _ Hd) as Hv. rewrite Hl in Hv.
  change (10 ^ Z.of_nat 3) with 1000 in Hv. unfold in_years, milli, second. set (v := digits_val _) in *. split; [|zdivmod].
  assert ((u * 10 ^ 9 + v * 10 ^ 6) / 10 ^ 9 = u) as -> by zdivmod. done.
Qed.
Lemma stored_milli now x : in_years now → parse_store (storeTime now) = Some x → x = milli now.
Proof. intros Hy. rewrite parse_storeTime by done. by intros [= <-]. Qed.

Lemma parsed_again (P : Z → bool) l : omap parse_store (map storeTime (List.filter P (omap parse_store l))) = List.filter P (omap parse_store l).
Proof.
  induction l as [|s l IH]; [done|]. cbn [omap list_omap]. destruct (parse_store s) as [x|] eqn:Hs; [|exact IH]. cbn [List.filter].
  destruct (P x); [|exact IH]. cbn [map omap list_omap]. apply parse_store_milli in Hs as [Hy Hm]. rewrite parse_storeTime by done.
  fold (milli x). by rewrite Hm, IH.
Qed.
Lemma filter_narrow (a b : Z) l : a ≤ b → List.filter (λ x, b <? x) (List.filter (λ x, a <? x) l) = List.filter (λ x, b <? x) l.
Proof.
  intros Hab. induction l as [|x l IH]; [done|]. cbn [List.filter]. destruct (a <? x) eqn:Ha; cbn [List.filter]; rewrite IH; [done|].
  assert (b <? x = false) as -> by (apply Z.ltb_ge in Ha; apply Z.ltb_ge; lia). done.
Qed.
Lemma recorded v now τ : in_years now → now ≤ τ → v ≠ Garbled →
  wrongCodesIn (recordWrongCodeIn v now).1 τ = wrongCodesIn v τ ++ (if τ - WrongCodeWindow <? milli now then [milli now] else []).
Proof.
  intros Hy Hle Hv. unfold recordWrongCodeIn, saveWrongCodes. cbn [fst]. unfold wrongCodesIn at 1.
  rewrite map_app, omap_app, List.filter_app. cbn [map omap list_omap]. rewrite parse_storeTime by done. fold (milli now). f_equal.
  destruct v as [| |l]; [done|done|]. cbn [wrongCodesIn]. rewrite parsed_again. apply filter_narrow. lia.
Qed.
Lemma wrong_shrinks v now τ : now ≤ τ → (length (wrongCodesIn v τ) ≤ length (wrongCodesIn v now))%nat.
Proof.
  intros Hle. destruct v as [| |l]; [done|done|]. cbn [wrongCodesIn].
  rewrite <- (filter_narrow (now - WrongCodeWindow) (τ - WrongCodeWindow)) by lia. apply List.filter_length_le.
Qed.
Lemma counted_app τ h h' : counted τ (h ++ h') = (counted τ h + counted τ h')%nat.
Proof. unfold counted. by rewrite List.filter_app, length_app. Qed.

Lemma daily_keep now0 now h ls k k' : daily_ok now0 h k → now0 ≤ now → (∀ τ, counted τ ls = 0%nat) → wrong (k_tab k') = wrong (k_tab k) →
  (k_slots k' ≠ ∅ → k_slots k ≠ ∅ ∨ Locked (wrong (k_tab k)) now = false) → daily_ok now (h ++ ls) k'.
Proof.
  intros [H1 H2 H3] Hle Hls Hw Hs. split; rewrite ?Hw.
  - intros τ. rewrite counted_app, Hls. specialize (H1 τ). lia.
  - intros τ Hτ. rewrite counted_app, Hls. specialize (H2 τ ltac:(lia)). lia.
  - intros Hk. destruct (Hs Hk) as [Hk0|Hl].
    + eapply Nat.le_lt_trans; [by apply (wrong_shrinks _ now0)|by apply H3].
    + unfold Locked in Hl. by apply Nat.leb_gt in Hl.
Qed.
Lemma daily_count now0 now h id code k k' : daily_ok now0 h k → now0 ≤ now → in_years now → k_slots k ≠ ∅ →
  wrong (k_tab k') = (recordWrongCodeIn (wrong (k_tab k)) now).1 → (k_slots k' ≠ ∅ → (recordWrongCodeIn (wrong (k_tab k)) now).2 = false) →
  daily_ok now (h ++ [WrongCode id code now true]) k'.
Proof.
  intros [H1 H2 H3] Hle Hy Hk Hw Hs. specialize (H3 Hk). pose proof (wrong_shrinks (wrong (k_tab k)) now0 now Hle) as Hsh.
  assert (wrong (k_tab k) ≠ Garbled) as Hg by (intros Hg; rewrite Hg in H3; cbn [wrongCodesIn] in H3; rewrite length_replicate in H3; lia).
  split; rewrite ?Hw.
  - intros τ. rewrite counted_app. unfold counted at 2. cbn [List.filter]. destruct (now <=? τ) eqn:Hτ; bprop.
    + specialize (H2 τ ltac:(lia)). pose proof (wrong_shrinks (wrong (k_tab k)) now τ ltac:(lia)).
      unfold MaxWrongPerDay in *. rewrite andb_true_r. destruct (_ <? _); cbn; lia.
    + rewrite andb_false_r. specialize (H1 τ). cbn. lia.
  - intros τ Hτ. rewrite counted_app, recorded, length_app by done. specialize (H2 τ ltac:(lia)). unfold counted at 2. cbn [List.filter].
    destruct (τ - WrongCodeWindow <? milli now); destruct (now <=? τ); cbn; lia.
  - intros Hk'. specialize (Hs Hk'). rewrite recorded, length_app by (done || lia). cbn [recordWrongCodeIn snd] in Hs. apply Nat.leb_gt in Hs.
    rewrite length_app in Hs. cbn in Hs. destruct (_ <? _); cbn [length]; unfold MaxWrongPerDay in *; lia.
Qed.

Lemma slots_delete id p : delete id p ≠ ∅ → p ≠ ∅.
Proof. intros Hd ->. by rewrite delete_empty in Hd. Qed.
Lemma slots_has id sl p : p !! id = Some sl → p ≠ ∅.
Proof. intros Hsl ->. by rewrite lookup_empty in Hsl. Qed.
Lemma daily_step now0 now h k ls k' : mstep now k ls k' → now0 ≤ now → in_years now → daily_ok now0 h k → daily_ok now (h ++ ls) k'.
Proof.
  intros Hs Hle Hy Hd. destruct Hs;
    try (eapply (daily_keep _ _ _ _ _ _ Hd Hle); [done|done|]; cbn [k_slots k_tab]; intros Hk; first [by left|by right|by left; eapply slots_delete|by left; eapply slots_has]).
  - eapply (daily_count _ _ _ _ _ _ _ Hd Hle Hy); [by eapply slots_has|done|done].
  - by eapply (daily_count _ _ _ _ _ _ _ Hd Hle Hy); [eapply slots_has|..].
Qed.

(** While the window is full and no approval has a slot, a step only shows
    the code of a creation that has lost its slot: it draws no id, compares no
    code, adds no row. *)
Definition only_shows (l : label X E) : Prop := match l with Showed _ _ => True | _ => False end.
Definition shut now k : Prop := k_slots k = ∅ ∧ Locked (wrong (k_tab k)) now = true.
Definition no_new_row k k' : Prop := ∀ r, r ∈ rows (k_tab k') → a_id r ∈ map a_id (rows (k_tab k)).
Lemma kept_row k r : r ∈ rows (k_tab k) → a_id r ∈ map a_id (rows (k_tab k)).
Proof. intros Hr. apply elem_of_map_list. by exists r. Qed.
Lemma shut_step now k ls k' : mstep now k ls k' → shut now k → shut now k' ∧ Forall only_shows ls ∧ no_new_row k k'.
Proof.
  intros Hs [Hk Hw]. destruct Hs; cbn [k_slots k_tab wrong with_rows] in *; subst;
    try match goal with Hx : ∅ !! _ = Some _ |- _ => by rewrite lookup_empty in Hx end; try congruence.
  - split_and!; [done|constructor|intros r; apply kept_row].
  - split_and!; [done|constructor|]. intros r Hr. cbn in Hr. apply list_elem_of_In, filter_In in Hr as [Hr _]. by apply kept_row, list_elem_of_In.
  - split_and!; [done|by constructor|intros r; apply kept_row].
  - split_and!; [by split; [apply delete_empty|]|constructor|intros r; apply kept_row].
  - split_and!; [done|constructor|]. intros r Hr. cbn in Hr. apply elem_of_map_list in Hr as (x & Hr & Hx). pose proof (kept_row (Core t ∅ l) x Hx).
    rewrite Hr. by case_bool_decide.
  - split_and!; [done|constructor|intros r; apply kept_row].
Qed.
Lemma shut_steps now k ls k' : msteps now k ls k' → shut now k → shut now k' ∧ Forall only_shows ls ∧ no_new_row k k'.
Proof.
  induction 1 as [k|k ls k1 ls' k2 H1 _ IH]; intros Hk; [split_and!; [done|constructor|intros r; apply kept_row]|].
  destruct (shut_step _ _ _ _ H1 Hk) as (Hk1 & Hl1 & Hr1), (IH ltac:(done)) as (Hk2 & Hl2 & Hr2). split_and!; [done|by apply Forall_app|].
  intros r Hr. apply Hr2, elem_of_map_list in Hr as (x & -> & Hx). by apply Hr1.
Qed.
Lemma full_shut now h k : daily_ok now h k → counted now h = MaxWrongPerDay → shut now k.
Proof.
  intros [_ Hs Hl] Hc. specialize (Hs now (Z.le_refl now)). rewrite Hc in Hs. split; [|by apply Nat.leb_le].
  destruct (decide (k_slots k = ∅)) as [?|Hn]; [done|]. specialize (Hl Hn). lia.
Qed.
End Counts.
