(* ===== verification/ApprovalClaims.v ===== *)
(** * Human approvals: what every run keeps

    Runs of the store from the tables of an earlier run: any operations in any
    order, any interleaving of the jobs, any failures of the database. The
    ids that newID draws are assumed not to repeat (64 bits and 96 random
    bits: [fresh]); the limits over time also assume that the clock does not
    run backwards ([clock]). *)

From S2P Require Import Prelude Utf8 Canonical Strconv DisplayText WireTime Body Approvals ApprovalSteps ApprovalInvariant ApprovalCounts.

Open Scope Z_scope.

Section Claims.
Context {X E : Type} `{Unicode} `{ApprovalEnv}.
Implicit Types (c : creation X E) (k : core X E) (h : list (label X E)) (s : store X E) (t : tables X).

Record event := Event { e_op : op X E; e_now : Z; e_faults : faults; e_outs : list out; e_answer : answer E }.

Inductive run (s0 : store X E) : list event → store X E → Prop :=
| run_nil : run s0 [] s0
| run_snoc evs s o now f s' os a : run s0 evs s → step o now f s = Some (s', os, a) → run s0 (evs ++ [Event o now f os a]) s'.

Definition event_labels (e : event) : list (label X E) := drew (e_op e) (e_now e) (e_answer e) ++ labels (e_outs e).
Definition history (evs : list event) : list (label X E) := flat_map event_labels evs.
Definition clock (evs : list event) : Prop :=
  StronglySorted Z.le (map e_now evs) ∧ Forall (λ e, in_years (e_now e) ∧ in_years (e_now e - hour)) evs.

(** A run computed from its operations. *)
Fixpoint run_ops (l : list (op X E * Z * faults)) s : option (list event * store X E) :=
  match l with
  | [] => Some ([], s)
  | (o, now, f) :: l =>
      match step o now f s with
      | None => None
      | Some (s', os, a) => match run_ops l s' with Some (evs, s') => Some (Event o now f os a :: evs, s') | None => None end
      end
  end.
Lemma run_ops_run l s0 evs0 s evs s' : run s0 evs0 s → run_ops l s = Some (evs, s') → run s0 (evs0 ++ evs) s'.
Proof.
  revert evs0 s evs. induction l as [|[[o now] f] l IH]; intros evs0 s evs Hr; cbn [run_ops]; [intros [= <- <-]; by rewrite app_nil_r|].
  destruct (step o now f s) as [[[s1 os] a]|] eqn:Hs; [|done]. destruct (run_ops l s1) as [[evs1 s2]|] eqn:Hl; [|done]. intros [= <- <-].
  rewrite cons_middle, app_assoc. eapply IH; [|exact Hl]. by eapply run_snoc.
Qed.

Lemma history_snoc evs e : history (evs ++ [e]) = history evs ++ event_labels e.
Proof. unfold history. by rewrite flat_map_app; cbn; rewrite app_nil_r. Qed.
Lemma fresh_app t0 h h' : fresh t0 (h ++ h') → fresh t0 h.
Proof. unfold fresh, drawn. rewrite omap_app, app_assoc. intros Hd. by apply NoDup_app in Hd as (Hd & _). Qed.
Lemma clock_snoc evs e : clock (evs ++ [e]) → clock evs ∧ Forall (λ e', e_now e' ≤ e_now e) evs ∧ in_years (e_now e) ∧ in_years (e_now e - hour).
Proof.
  intros [Hs Hf]. apply Forall_app in Hf as [Hf [Hy _]%Forall_cons]. rewrite map_app, StronglySorted_app in Hs. destruct Hs as (Hle & Hs & _).
  split_and!; [by split| |apply Hy..]. apply Forall_forall. intros e' Hin. apply Hle; [|by left]. apply elem_of_map_list. by exists e'.
Qed.

(** ** The invariant of a run *)

Definition inv t0 h k : Prop := phases t0 h k ∧ authorised (ext t0) h (ext (k_tab k)) ∧ pending_ok k.

Lemma phases_good t0 h k : phases t0 h k → good k.
Proof.
  intros Hp. destruct k as [t p l]. split; cbn [k_slots k_tab k_owners].
  - intros id sl Hsl Hr. destruct (live_at _ _ _ _ _ _ _ Hp Hsl Hr) as (c & code & _ & _ & _ & Hf). eexists. by split_and!.
  - intros c code sl Hin Hsl. apply list_elem_of_split in Hin as (l1 & l2 & ->).
    destruct (creating_at t0 h t p (l1 ++ l2) c code) as (_ & _ & Hr); [|by apply (Hr sl)].
    rewrite <- (app_nil_r h). eapply phases_perm; [|exact Hp]. by rewrite Permutation_middle.
Qed.
Lemma msteps_inv now t0 h k ls k' : msteps now k ls k' → inv t0 h k → fresh t0 (h ++ ls) → inv t0 (h ++ ls) k'.
Proof.
  intros Hs. revert h. induction Hs as [k|k ls k1 ls' k2 H1 _ IH]; intros h Hi Hf; [by rewrite app_nil_r|].
  rewrite app_assoc in *. apply IH; [|done]. apply fresh_app in Hf. destruct Hi as (Hp & Ha & Hn).
  split_and!; [by eapply phases_step|by eapply authorised_step|by eapply pending_step].
Qed.
Lemma inv_start t0 : NoDup (map a_id (rows t0)) → inv t0 [] (abs (NewStore (X := X) (E := E) t0)).
Proof.
  intros Hd. split_and!; [|by apply au_nil|unfold pending_ok; cbn; rewrite fmap_empty, map_size_empty; lia]. split; [|done]. intros id. apply ph_none.
  intros Hr. cbn in Hr. destruct (find_row id (rows t0)) as [r|] eqn:Hf; [|done]. apply find_row_some in Hf as [Hin <-].
  apply elem_of_map_list. by exists r.
Qed.
Lemma run_inv t0 evs s : run (NewStore t0) evs s → fresh t0 (history evs) → inv t0 (history evs) (abs s).
Proof.
  induction 1 as [|evs s o now f s' os a _ IH Hs]; intros Hf.
  - apply inv_start. unfold fresh in Hf. by apply NoDup_app in Hf as (Hf & _).
  - rewrite history_snoc in *. specialize (IH (fresh_app _ _ _ Hf)). eapply msteps_inv; [|exact IH|exact Hf].
    eapply step_msteps; [|exact Hs]. by apply (phases_good t0 (history evs)), IH.
Qed.
(** What a step does in a run. *)
Lemma run_msteps t0 evs s o now f s' os a : run (NewStore t0) evs s → fresh t0 (history evs) → step o now f s = Some (s', os, a) →
  inv t0 (history evs) (abs s) ∧ msteps now (abs s) (drew o now a ++ labels os) (abs s').
Proof.
  intros Hr Hf Hs. pose proof (run_inv _ _ _ Hr Hf) as Hi. split; [done|]. eapply step_msteps; [|exact Hs]. by apply (phases_good t0 (history evs)), Hi.
Qed.

(** ** Properties *)

(** C19: an action happens only through an approval that a human gave: in any
    run, with any interleaving of the calls and any failures of the database,
    the tables other than the approvals are exactly the effect of the
    approvals in the history, each of which was asked for once, had its code
    shown once, was confirmed by a code with the MAC of the shown one, before
    its expiry, after at most two wrong codes and for the first time, with
    the precondition met and the stored summary equal to the rebuilt one. *)
Theorem approvals_authorised t0 evs s : run (NewStore t0) evs s → fresh t0 (history evs) →
  authorised (ext t0) (history evs) (ext (tab s)).
Proof. intros Hr Hf. apply (run_inv _ _ _ Hr Hf). Qed.

(** An approval's code can be tried three times at most and approves once
    at most, whatever the database does and however the calls interleave. *)
Theorem three_tries t0 evs s id : run (NewStore t0) evs s → fresh t0 (history evs) →
  (length (wrongs id (history evs)) ≤ 3)%nat ∧ (length (performed id (history evs)) ≤ 1)%nat ∧ (length (shown id (history evs)) ≤ 1)%nat.
Proof.
  intros Hr Hf. destruct (run_inv _ _ _ Hr Hf) as ([Hp _] & _). specialize (Hp id). unfold phase_at in Hp.
  destruct Hp as [|c [code|]| | |]; cbn; lia.
Qed.

(** An id that no call works on: its row stays, or is pruned. *)
Definition settled t h k (id : bytes) : Prop :=
  k_slots k !! id = None ∧ owners_of id (k_owners k) = [] ∧ (id ∈ map a_id (rows t) ∨ id ∈ drawn h).
Definition row_kept (now : Z) (id : bytes) (r : row) k : Prop :=
  find_row id (rows (k_tab k)) = Some r ∨ find_row id (rows (k_tab k)) = None ∧ prunable now r = true.

Lemma decided_settled t h k id r : phases t h k → find_row id (rows (k_tab k)) = Some r → a_state r ≠ StatePending → settled t h k id.
Proof.
  intros [Hp _] Hf Hr. specialize (Hp id). unfold phase_at in Hp. rewrite Hf in Hp. unfold settled.
  inversion Hp as [r' Ho|c code sl Hc Ho Hs|c code ws sl Hc Ho Hs|c code ws r' Ho Hl Hs|c code ws ps r' Ho Hd Hl Hq]; subst.
  - split_and!; [done|done|by left; apply Ho].
  - done.
  - by destruct Hr.
  - split_and!; [done|done|]. right. match goal with Hc : [c] = creations id h |- _ => clear -Hc; revert Hc end.
    unfold creations, drawn. induction h as [|l h IH]; [done|]. destruct l; cbn; try exact IH.
    case_bool_decide as Hid; [intros _; subst; by left|]. intros Hc. right. by apply IH.
Qed.
Lemma settled_other id id' g (l : list row) o : (∀ r, a_id (g r) = a_id r) → id' ≠ id → find_row id l = o → find_row id (update_rows id' g l) = o.
Proof. intros Hg Hne <-. rewrite find_update by done. by rewrite bool_decide_eq_false_2. Qed.
Lemma settled_locked (id : bytes) (p : gmap bytes (slot X E)) (l : list (owner X E)) : p !! id = None → owners_of id l = [] → owners_of id (map Settling (live_ids p) ++ l) = [].
Proof.
  intros Hsl Ho. rewrite owners_app, owners_settling, Ho by apply NoDup_live_ids. rewrite bool_decide_eq_false_2; [done|].
  rewrite elem_of_live_ids. intros (sl & Hs & _). congruence.
Qed.
Ltac kept Hr := destruct Hr as [Hr|[Hr ?]]; [left|right; split; [|done]].
Lemma settled_step now t h k ls k' id r : mstep now k ls k' → phases t h k → fresh t (h ++ ls) → settled t h k id → row_kept now id r k →
  settled t (h ++ ls) k' id ∧ row_kept now id r k'.
Proof.
  intros Hs Hp Hf (Hsl & Ho & Hin) Hr.
  assert (id ∈ map a_id (rows t) ∨ id ∈ drawn (h ++ ls)) as Hin' by (unfold drawn; rewrite omap_app, elem_of_app; tauto).
  assert (∀ o l, k_owners k = o :: l → owner_id o ≠ id ∧ owners_of id l = []) as Hown.
  { intros o l Hl. rewrite Hl, owners_cons in Ho. case_bool_decide; [done|]. by split. }
  assert (∀ id' sl, k_slots k !! id' = Some sl → id' ≠ id) as Hne by (intros id' sl Hsl' ->; congruence).
  unfold settled, row_kept in *. destruct Hs; cbn [k_tab k_slots k_owners rows with_rows] in *;
    try (destruct (Hown _ _ eq_refl) as [Hid Ho']; cbn [owner_id] in Hid);
    try match goal with Hsl' : _ !! _ = Some _ |- _ => pose proof (Hne _ _ Hsl') as Hid end.
  - split; [split_and!; [done| |done]|done]. apply Permutation_nil_r. rewrite <- Ho. by symmetry; apply owners_perm.
  - split; [done|]. rewrite find_filter by apply Hp. destruct Hr as [->|[-> Hpr]]; [|by right].
    destruct (prunable now r); cbn; [by right|by left].
  - assert (c_id c ≠ id) as Hid.
    { intros <-. destruct (fresh_new _ _ _ Hf) as [Hc Hold]. cbn in Hc, Hold. destruct Hin as [Hin|Hin]; [done|].
      unfold fresh, drawn in Hf. rewrite omap_app, app_assoc in Hf. apply NoDup_app in Hf as (_ & Hd & _). apply (Hd (c_id c)); [|by left].
      apply elem_of_app. by right. }
    split; [|done]. rewrite lookup_insert_ne, owners_cons by done. cbn. by rewrite bool_decide_eq_false_2.
  - split; [|done]. rewrite owners_cons. cbn. by rewrite bool_decide_eq_false_2.
  - by rewrite lookup_delete_ne.
  - rewrite lookup_insert_ne by done. split; [done|]. kept Hr; rewrite find_snoc, Hr; [done|]. cbn. by rewrite bool_decide_eq_false_2.
  - rewrite lookup_delete_ne by done. split; [done|]. kept Hr; by apply settled_other.
  - rewrite lookup_delete_ne, owners_cons by done. cbn. by rewrite bool_decide_eq_false_2.
  - split; [done|]. kept Hr; by apply settled_other.
  - done.
  - rewrite lookup_delete_ne, owners_cons by done. cbn. by rewrite bool_decide_eq_false_2.
  - subst. split; [|kept Hr; by apply settled_other]. destruct (MaxAttempts <=? _); by rewrite ?lookup_delete_ne, ?lookup_insert_ne by done.
  - split; [|kept Hr; by apply settled_other]. rewrite lookup_empty, settled_locked; [done| |done].
    destruct (MaxAttempts <=? _); by rewrite ?lookup_delete_ne.
  - rewrite lookup_delete_ne by done. split; [done|]. kept Hr; by apply settled_other.
Qed.
Lemma settled_steps now t h k ls k' id r : msteps now k ls k' → inv t h k → fresh t (h ++ ls) → settled t h k id → row_kept now id r k →
  row_kept now id r k'.
Proof.
  intros Hs. revert h. induction Hs as [k|k ls k1 ls' k2 H1 _ IH]; intros h Hi Hf Hset Hr; [done|].
  rewrite app_assoc in Hf. pose proof (fresh_app _ _ _ Hf) as Hf1.
  destruct (settled_step _ _ _ _ _ _ _ _ H1 (proj1 Hi) Hf1 Hset Hr) as [Hset1 Hr1].
  apply (IH (h ++ ls)); try done. eapply msteps_inv; [by apply ms_one|done|done].
Qed.

(** A decided approval is final: once its row is approved, rejected or
    expired, no operation, job, timer or retry changes the row any more; it
    only disappears, when its retention is over. *)
Theorem decided_final t0 evs s o now f s' os a id r : run (NewStore t0) evs s → step o now f s = Some (s', os, a) →
  fresh t0 (history (evs ++ [Event o now f os a])) → find_row id (rows (tab s)) = Some r → a_state r ≠ StatePending →
  find_row id (rows (tab s')) = Some r ∨ (find_row id (rows (tab s')) = None ∧ prunable now r = true).
Proof.
  intros Hr Hs Hf Hrow Hst. rewrite history_snoc in Hf. destruct (run_msteps _ _ _ _ _ _ _ _ _ Hr (fresh_app _ _ _ Hf) Hs) as [Hi Hm].
  eapply (settled_steps _ _ _ _ _ _ id r Hm Hi Hf); [|by left]. eapply decided_settled; [apply Hi|exact Hrow|done].
Qed.

Lemma hourly_steps now k ls k' : msteps now k ls k' → in_years (now - hour) → hourly_ok now k → hourly_ok now k'.
Proof. intros Hs Hy. induction Hs as [|k ls k1 ls' k2 H1 _ IH]; [done|]. intros Hk. apply IH. by eapply (hourly_step now now k). Qed.
Lemma hourly_run t evs s : run (NewStore t) evs s → fresh t (history evs) → clock evs →
  (∀ τ, in_years (τ - hour) → (countCreatedSince (storeTime (τ - hour)) t ≤ MaxRecent)%nat) →
  ∀ now, Forall (λ e, e_now e ≤ now) evs → hourly_ok now (abs s).
Proof.
  intros Hr Hf Hc Hstart. induction Hr as [|evs s o now f s' os a Hr IH Hs]; intros now' Hnow τ Hτ Hy.
  - unfold recent, reserved_slots. cbn. rewrite fmap_empty, map_filter_empty, map_size_empty. specialize (Hstart τ Hy). cbn in Hstart. lia.
  - rewrite history_snoc in Hf. pose proof (fresh_app _ _ _ Hf) as Hf'. apply clock_snoc in Hc as (Hc & Hle & Hyn & Hyh).
    apply Forall_app in Hnow as [_ [Hnow _]%Forall_cons]. cbn in *.
    destruct (run_msteps _ _ _ _ _ _ _ _ _ Hr Hf' Hs) as [_ Hm]. apply (hourly_steps _ _ _ _ Hm Hyh); [by apply IH|lia|done].
Qed.

(** At most five approvals wait at any time, and at most 24 are created
    within an hour: the cap of 20 is read before a creation inserts its row,
    so creations that run at the same time can pass it by four. *)
Theorem creations_bounded t0 evs s τ : run (NewStore t0) evs s → fresh t0 (history evs) → clock evs →
  (∀ τ, in_years (τ - hour) → (countCreatedSince (storeTime (τ - hour)) t0 ≤ 24)%nat) →
  Forall (λ e, e_now e ≤ τ) evs → in_years (τ - hour) →
  (size (pending s) ≤ 5)%nat ∧ (countCreatedSince (storeTime (τ - hour)) (tab s) ≤ 24)%nat.
Proof.
  intros Hr Hf Hc Hstart Hτ Hy. split.
  - destruct (run_inv _ _ _ Hr Hf) as (_ & _ & Hp). unfold pending_ok in Hp. cbn in Hp. by rewrite map_size_fmap in Hp.
  - pose proof (hourly_run _ _ _ Hr Hf Hc Hstart τ Hτ τ (Z.le_refl τ) Hy) as Hh. unfold recent in Hh. change (k_tab (abs s)) with (tab s) in Hh. change MaxRecent with 24%nat in Hh. lia.
Qed.

Lemma daily_steps now h k ls k' : msteps now k ls k' → in_years now → daily_ok now h k → daily_ok now (h ++ ls) k'.
Proof.
  intros Hs Hy. revert h. induction Hs as [|k ls k1 ls' k2 H1 _ IH]; intros h Hd; [by rewrite app_nil_r|].
  rewrite app_assoc. apply IH. by eapply (daily_step now now h k).
Qed.
Lemma daily_later now now' h k : now ≤ now' → daily_ok now h k → daily_ok now' h k.
Proof.
  intros Hle Hd. rewrite <- (app_nil_r h). eapply daily_keep; [exact Hd|done|done|done|]. intros Hk. by left.
Qed.
Lemma daily_run t evs s : run (NewStore t) evs s → fresh t (history evs) → clock evs →
  ∀ now, Forall (λ e, e_now e ≤ now) evs → daily_ok now (history evs) (abs s).
Proof.
  intros Hr Hf Hc. induction Hr as [|evs s o now f s' os a Hr IH Hs]; intros now' Hnow.
  - split; cbn; [intros; lia..|]. by rewrite fmap_empty.
  - rewrite history_snoc in *. pose proof (fresh_app _ _ _ Hf) as Hf'. apply clock_snoc in Hc as (Hc & Hle & Hyn & Hyh).
    apply Forall_app in Hnow as [_ [Hnow _]%Forall_cons]. cbn in *. apply (daily_later now); [done|].
    destruct (run_msteps _ _ _ _ _ _ _ _ _ Hr Hf' Hs) as [_ Hm]. apply (daily_steps _ _ _ _ _ Hm Hyn). by apply IH.
Qed.

(** What a step does while the window is full. *)
Definition refuses s (τ : Z) : Prop := ∀ o f s' os a, step o τ f s = Some (s', os, a) →
  pending s' = ∅ ∧ drew o τ a = [] ∧ (∀ r, r ∈ rows (tab s') → a_id r ∈ map a_id (rows (tab s))) ∧
  ∀ id code n b, Wrong id code n b ∉ os ∧ Approve id code n ∉ os.
Lemma shut_refuses t0 evs s τ : run (NewStore t0) evs s → fresh t0 (history evs) → shut τ (abs s) → refuses s τ.
Proof.
  intros Hr Hf Hsh o f s' os a Hs. destruct (run_msteps _ _ _ _ _ _ _ _ _ Hr Hf Hs) as [_ Hm].
  destruct (shut_steps _ _ _ _ Hm Hsh) as ([Hp _] & [Hd Hl]%Forall_app & Hrows). split; [by apply fmap_empty_inv in Hp|]. split; [|split; [exact Hrows|]].
  - unfold drew in *. destruct o; try done. destruct a; try done. by apply Forall_inv in Hd.
  - intros id code n b. rewrite Forall_forall in Hl.
    split; intros Hin; [apply (Hl (WrongCode id code n b))|apply (Hl (Performed id code n))]; apply list_elem_of_omap; eexists; by split.
Qed.

(** C21: on a clock that does not run backwards (nor leaves the years 0 to
    9999), and with ids that do not repeat, no more than ten wrong codes are
    counted in a day, over all approvals. Once ten are, no approval is
    pending any more, and as long as the window holds ten no operation and no
    job accepts a creation, adds a row, leaves anything pending or compares
    a code. *)
Theorem wrong_codes_bounded t0 evs s : run (NewStore t0) evs s → fresh t0 (history evs) → clock evs →
  (∀ τ, (counted τ (history evs) ≤ 10)%nat) ∧
  ∀ τ, Forall (λ e, e_now e ≤ τ) evs → counted τ (history evs) = 10%nat → pending s = ∅ ∧ refuses s τ.
Proof.
  intros Hr Hf Hc. split.
  - intros τ. destruct evs as [|e evs _] using rev_ind; [cbn; lia|].
    apply (d_ten (e_now e) _ (abs s)). eapply daily_run; [exact Hr|exact Hf|exact Hc|]. apply Forall_app.
    split; [by apply clock_snoc|by constructor].
  - intros τ Hτ Hten. pose proof (full_shut _ _ _ (daily_run _ _ _ Hr Hf Hc τ Hτ) Hten) as Hsh.
    split; [destruct Hsh as [Hp _]; by apply fmap_empty_inv in Hp|by eapply shut_refuses].
Qed.

(** C22: the code that was shown approves: while the approval waits and its
    expiry is ahead, a confirm with the shown code, whose check and action
    succeed and whose transaction the database takes, approves the row,
    performs the action on the other tables and forgets the slot. *)
Theorem shown_code_approves t0 evs s id code now e r expires rs x' after : run (NewStore t0) evs s → fresh t0 (history evs) →
  shown id (history evs) = [code] → pending s !! id = Some e → l_reserved e = false →
  find_row id (rows (tab s)) = Some r → parse_store (a_expires r) = Some expires → now < expires →
  rs = update_rows id (decide_row StateApproved (storeTime now)) (rows (tab s)) →
  rbind (checkAction id (l_action e) no_faults rs (ext (tab s))) (perform (l_action e) rs) = Ok (x', after) →
  ∃ s' os, Confirm id code now no_faults s = (s', os, Approved) ∧ Approve id code now ∈ os ∧
    tab s' = Tables rs (wrong (tab s)) x' ∧ find_row id rs = Some (decide_row StateApproved (storeTime now) r) ∧ pending s' !! id = None.
Proof.
  intros Hr Hf Hsh He Hres Hrow Hexp Hnow -> Hact. destruct (run_inv _ _ _ Hr Hf) as (Hp & _).
  destruct (live_at _ _ _ _ _ id (slot_of e) Hp (slot_at _ _ _ He) Hres) as (c & code' & (_ & Hsh' & _) & _ & (Hm & _) & _).
  cbn in Hm. assert (code' = code) as -> by congruence. unfold Confirm, confirm. rewrite He, Hres. unfold checkExpiryLocked.
  cbn [broken no_faults]. rewrite Hrow, Hexp. apply Z.ltb_lt in Hnow as ->. rewrite bool_decide_eq_true_2 by done.
  unfold confirm_right. cbn [broken no_faults]. apply rbind_ok in Hact as (x & -> & ->). do 2 eexists. split; [done|].
  split_and!; [set_solver|by destruct (l_handle e)|by rewrite find_update, bool_decide_eq_true_2, Hrow by done|].
  destruct (l_handle e); cbn; apply lookup_delete_eq.
Qed.

(** C20: the store implements the life cycle of ApprovalSteps.v: in any run,
    what an operation or a job does to the tables, the slots and the owners of
    ids is a sequence of its steps, and the labels of these steps are what the
    operation shows: ids drawn, codes shown, codes compared. *)
Theorem approvals_refine t0 evs s o now f s' os a : run (NewStore t0) evs s → fresh t0 (history evs) →
  step o now f s = Some (s', os, a) → msteps now (abs s) (drew o now a ++ labels os) (abs s').
Proof. intros Hr Hf Hs. by destruct (run_msteps _ _ _ _ _ _ _ _ _ Hr Hf Hs). Qed.
End Claims.
Arguments event : clear implicits.

(** ** The code *)

Lemma pad_6 n : 0 ≤ n < code_modulus → isSixDigits (pad 6 n) = true ∧ digits_val (pad 6 n) = n.
Proof.
  intros Hn. unfold code_modulus in Hn. destruct (digits_of_spec 20 n) as (_ & Hv & Hd); [lia|lia|].
  pose proof (digits_of_pad 6 n ltac:(lia) ltac:(lia)) as Hl. unfold pad, Itoa. rewrite Z.abs_eq by lia.
  assert (n <? 0 = false) as -> by (apply Z.ltb_ge; lia). cbn [app]. set (ds := digits_of 20 n) in *. clearbody ds.
  assert (∀ m, digits_val (replicate m 48 ++ ds) = digits_val ds) as Hz.
  { intros m. unfold digits_val. rewrite fold_left_app. f_equal. by induction m as [|m IH]; cbn. }
  split; [|by rewrite Hz]. unfold isSixDigits. rewrite length_app, length_replicate, forallb_app, Hd, andb_true_r.
  assert (6 - length ds + length ds =? 6 = true)%nat as -> by (apply Nat.eqb_eq; lia). cbn [andb].
  generalize (6 - length ds)%nat. intros m. by induction m as [|m IH].
Qed.

(** The code is six digits and uniform: a 24-bit draw is rejected exactly
    when it is 16,000,000 or more, and of the accepted draws exactly sixteen
    give each of the million codes. *)
Theorem codes_uniform v draws n : 0 ≤ v < 2 ^ 24 → 0 ≤ n < 1000000 →
  (16000000 ≤ v → newCode (v :: draws) = newCode draws) ∧
  (v < 16000000 → newCode (v :: draws) = Some (pad 6 (v mod 1000000)) ∧ isSixDigits (pad 6 (v mod 1000000)) = true) ∧
  (newCode [v] = Some (pad 6 n) ↔ ∃ j, 0 ≤ j < 16 ∧ v = j * 1000000 + n).
Proof.
  intros Hv Hn. cbn [newCode]. change code_limit with 16000000. change code_modulus with 1000000.
  pose proof (Z.mod_pos_bound v 1000000 ltac:(lia)) as Hm. split_and!.
  - intros Hle. by apply Z.ltb_ge in Hle as ->.
  - intros Hlt. apply Z.ltb_lt in Hlt as ->. split; [done|]. by apply pad_6.
  - destruct (v <? 16000000) eqn:Hlt; bprop.
    + split; [intros [= Hp]|intros (j & Hj & ->); do 2 f_equal; zdivmod].
      exists (v / 1000000). assert (v mod 1000000 = n) as Hq by (by rewrite <- (proj2 (pad_6 _ Hm)), Hp, (proj2 (pad_6 n Hn))).
      split; zdivmod.
    + split; [done|]. intros (j & Hj & ->). lia.
Qed.
Lemma codes_uniform_witness : newCode [16777215; 3000042] = Some (bytes_of "000042").
Proof. rewrite (proj1 (codes_uniform 16777215 [3000042] 42 ltac:(lia) ltac:(lia))) by lia. reflexivity. Defined.

(** ** A run, computed *)

#[local] Instance demo_env : ApprovalEnv := {| hmac k m := k ++ m; approval_key := [1; 2; 3]; desktop := true |}.
Definition demo_action : Action nat unit :=
  MkAction (Some (λ _ x, if (x =? 0)%nat then Ok x else Err tt)) (Some (λ _ _, Ok (bytes_of "release result 7")))
    (Some (λ _ x, Ok (S x, false))) true.
Definition demo_id : bytes := bytes_of "a-0123456789".
Definition demo_time : Z := 1700000000 * second.
Definition demo_tables : tables nat := Tables [] NoRow 0%nat.
Definition demo_ops : list (op nat unit * Z * faults) := map (λ o, (o, demo_time, no_faults)) [
  OpCreate demo_id (bytes_of "release") (bytes_of "s-1") (bytes_of "release result 7") demo_action [];
  OpReady 0 (Some 7); OpDraw 0 [16777215; 3123456] true; OpRun 0; OpRun 0;
  OpAnswer 0 (bytes_of "approve") (bytes_of "000000"); OpRun 0].
Definition demo_run : list (event nat unit) * store nat unit := default ([], NewStore demo_tables) (run_ops demo_ops (NewStore demo_tables)).
Definition demo_confirm : list (op nat unit * Z * faults) := demo_ops ++ [(OpConfirm demo_id (bytes_of "123456"), demo_time + second, no_faults)].
Definition demo_done : list (event nat unit) * store nat unit := default ([], NewStore demo_tables) (run_ops demo_confirm (NewStore demo_tables)).

Lemma demo_run_ok : run (NewStore demo_tables) demo_run.1 demo_run.2 ∧ fresh demo_tables (history demo_run.1).
Proof.
  split; [|apply (bool_decide_unpack _); vm_compute; reflexivity].
  apply (run_ops_run demo_ops (NewStore demo_tables) [] (NewStore demo_tables) demo_run.1 demo_run.2); [apply run_nil|]. vm_compute. reflexivity.
Qed.
Lemma demo_done_ok : run (NewStore demo_tables) demo_done.1 demo_done.2 ∧ fresh demo_tables (history demo_done.1).
Proof.
  split; [|apply (bool_decide_unpack _); vm_compute; reflexivity].
  apply (run_ops_run demo_confirm (NewStore demo_tables) [] (NewStore demo_tables) demo_done.1 demo_done.2); [apply run_nil|]. vm_compute. reflexivity.
Qed.
Lemma demo_clock : clock demo_done.1.
Proof.
  split; [|apply Forall_forall; intros e He].
  - assert (map e_now demo_done.1 = replicate 7 demo_time ++ [demo_time + second]) as -> by (vm_compute; reflexivity).
    cbn [replicate app]. repeat constructor; vm_compute; discriminate.
  - assert (forallb (λ e, bool_decide (e_now e = demo_time ∨ e_now e = demo_time + second)) demo_done.1 = true) as Hall by (vm_compute; reflexivity).
    rewrite forallb_forall in Hall. specialize (Hall e (proj1 (list_elem_of_In _ _) He)). apply bool_decide_eq_true in Hall as [-> | ->];
      vm_compute; repeat split; discriminate.
Qed.
(** One wrong code from the window, then the shown one: one action. *)
Lemma approvals_authorised_witness : authorised 0%nat (history demo_done.1) 1%nat ∧ wrongs demo_id (history demo_done.1) = [bytes_of "000000"].
Proof.
  split; [|vm_compute; reflexivity]. destruct demo_done_ok as [Hr Hf]. pose proof (approvals_authorised _ _ _ Hr Hf) as Ha.
  assert (ext (tab demo_done.2) = 1%nat) as He by (vm_compute; reflexivity). rewrite He in Ha. exact Ha.
Defined.
Lemma approvals_refine_witness : ∃ s' os a, step (OpConfirm demo_id (bytes_of "123456")) demo_time no_faults demo_run.2 = Some (s', os, a) ∧
  msteps demo_time (abs demo_run.2) (labels os) (abs s').
Proof.
  destruct demo_run_ok as [Hr Hf].
  assert (is_Some (step (OpConfirm demo_id (bytes_of "123456")) demo_time no_faults demo_run.2)) as [[[s' os] a] Hs] by (vm_compute; by eexists).
  exists s', os, a. split; [done|]. exact (approvals_refine _ _ _ _ _ _ _ _ _ Hr Hf Hs).
Defined.
Lemma three_tries_witness : (length (wrongs demo_id (history demo_done.1)) ≤ 3)%nat ∧ (length (performed demo_id (history demo_done.1)) ≤ 1)%nat.
Proof. destruct demo_done_ok as [Hr Hf]. destruct (three_tries _ _ _ demo_id Hr Hf) as (H1 & H2 & _). by split. Defined.
Definition demo_row : row :=
  Eval vm_compute in default (Row [] [] [] [] [] [] 0 StatePending None) (find_row demo_id (rows (tab demo_done.2))).
Lemma decided_final_witness : a_state demo_row = StateApproved ∧ ∃ s' os a,
  step (OpReject demo_id []) (demo_time + second) no_faults demo_done.2 = Some (s', os, a) ∧
  (find_row demo_id (rows (tab s')) = Some demo_row ∨ find_row demo_id (rows (tab s')) = None ∧ prunable (demo_time + second) demo_row = true).
Proof.
  split; [reflexivity|]. destruct demo_done_ok as [Hr Hf].
  assert (is_Some (step (OpReject demo_id []) (demo_time + second) no_faults demo_done.2)) as [[[s' os] a] Hs] by (vm_compute; by eexists).
  exists s', os, a. split; [done|]. apply (decided_final _ _ _ _ _ _ _ _ _ demo_id demo_row Hr Hs); [|vm_compute; reflexivity|discriminate].
  rewrite history_snoc. unfold event_labels. cbn [e_op e_now e_outs e_answer drew app].
  assert (labels os = []) as ->; [|by rewrite app_nil_r]. vm_compute in Hs. by injection Hs as <- <- <-.
Defined.
Lemma creations_bounded_witness : (size (pending demo_done.2) ≤ 5)%nat ∧
  (countCreatedSince (storeTime (demo_time + second - hour)) (tab demo_done.2) ≤ 24)%nat.
Proof.
  destruct demo_done_ok as [Hr Hf]. apply (creations_bounded _ _ _ (demo_time + second) Hr Hf demo_clock).
  - intros τ _. cbn. lia.
  - destruct demo_clock as [Hs _]. apply Forall_forall. intros e He.
    assert (forallb (λ e, e_now e <=? demo_time + second) demo_done.1 = true) as Hall by (vm_compute; reflexivity).
    rewrite forallb_forall in Hall. specialize (Hall e (proj1 (list_elem_of_In _ _) He)). cbv beta in Hall. apply Z.leb_le in Hall. exact Hall.
  - vm_compute. split; discriminate.
Defined.
(** Four approvals and ten wrong codes: the tenth empties the slots. *)
Definition lock_id (m : nat) : bytes := bytes_of "a-" ++ Itoa (Z.of_nat m) ++ bytes_of "23456789".
Definition wrong_code : bytes := bytes_of "000000".
Definition lock_round (m : nat) (tries : nat) : list (op nat unit) :=
  [OpCreate (lock_id m) (bytes_of "release") [] (bytes_of "release result 7") demo_action []; OpReady m (Some (Z.of_nat m)); OpDraw m [3123456] true; OpRun m; OpRun m]
  ++ replicate tries (OpConfirm (lock_id m) wrong_code).
Definition lock_ops : list (op nat unit * Z * faults) :=
  map (λ o, (o, demo_time, no_faults)) (lock_round 0 3 ++ lock_round 1 3 ++ lock_round 2 3 ++ lock_round 3 1).
Definition lock_run : list (event nat unit) * store nat unit := default ([], NewStore demo_tables) (run_ops lock_ops (NewStore demo_tables)).
Definition next_creation : op nat unit := OpCreate demo_id (bytes_of "release") [] (bytes_of "release result 7") demo_action [].
Lemma lock_run_ok : run (NewStore demo_tables) lock_run.1 lock_run.2 ∧ fresh demo_tables (history lock_run.1).
Proof.
  split; [|apply (bool_decide_unpack _); vm_compute; reflexivity].
  apply (run_ops_run lock_ops (NewStore demo_tables) [] (NewStore demo_tables) lock_run.1 lock_run.2); [apply run_nil|]. vm_compute. reflexivity.
Qed.
Lemma lock_times e : e ∈ lock_run.1 → e_now e = demo_time.
Proof.
  intros He. assert (forallb (λ e, e_now e =? demo_time) lock_run.1 = true) as Hall by (vm_compute; reflexivity).
  rewrite forallb_forall in Hall. specialize (Hall e (proj1 (list_elem_of_In _ _) He)). cbv beta in Hall. by apply Z.eqb_eq in Hall.
Qed.
Lemma lock_clock : clock lock_run.1.
Proof.
  split.
  - assert (map e_now lock_run.1 = replicate 30 demo_time) as -> by (vm_compute; reflexivity). repeat constructor; vm_compute; discriminate.
  - apply Forall_forall. intros e ->%lock_times. vm_compute. repeat split; discriminate.
Qed.
Lemma lock_count : counted (demo_time + second) (history lock_run.1) = 10%nat.
Proof. vm_compute. reflexivity. Qed.
Lemma wrong_codes_bounded_witness : ∃ s' os a, step next_creation (demo_time + second) no_faults lock_run.2 = Some (s', os, a) ∧ pending s' = ∅.
Proof.
  destruct lock_run_ok as [Hr Hf].
  assert (is_Some (step next_creation (demo_time + second) no_faults lock_run.2)) as [[[s' os] a] Hs] by (cbn [step next_creation]; by eexists).
  assert (Forall (λ e, e_now e ≤ demo_time + second) lock_run.1) as Hle.
  { apply Forall_forall. intros e ->%lock_times. vm_compute. discriminate. }
  destruct (proj2 (wrong_codes_bounded _ _ _ Hr Hf lock_clock) (demo_time + second) Hle lock_count) as [_ Hno].
  exists s', os, a. split; [exact Hs|]. exact (proj1 (Hno _ _ _ _ _ Hs)).
Defined.

Definition demo_entry : live nat unit := default (Live [] demo_action None true false 0) (pending demo_run.2 !! demo_id).
Definition demo_pending : row := default demo_row (find_row demo_id (rows (tab demo_run.2))).
Definition demo_approved : list row := update_rows demo_id (decide_row StateApproved (storeTime demo_time)) (rows (tab demo_run.2)).
Lemma shown_code_approves_witness : ∃ s' os, Confirm demo_id (bytes_of "123456") demo_time no_faults demo_run.2 = (s', os, Approved) ∧
  Approve demo_id (bytes_of "123456") demo_time ∈ os ∧ ext (tab s') = 1%nat ∧ pending s' !! demo_id = None.
Proof.
  destruct demo_run_ok as [Hr Hf].
  assert (find_row demo_id (rows (tab demo_run.2)) = Some demo_pending) as Hrow by (vm_compute; reflexivity).
  assert (pending demo_run.2 !! demo_id = Some demo_entry) as He by (vm_compute; reflexivity).
  assert (shown demo_id (history demo_run.1) = [bytes_of "123456"]) as Hsh by (vm_compute; reflexivity).
  assert (rbind (checkAction demo_id (l_action demo_entry) no_faults demo_approved (ext (tab demo_run.2))) (perform (l_action demo_entry) demo_approved) = Ok (1%nat, false)) as Ha
    by (vm_compute; reflexivity).
  destruct (shown_code_approves _ _ _ demo_id (bytes_of "123456") demo_time demo_entry demo_pending (demo_time + 600 * second) demo_approved 1%nat false Hr Hf
    Hsh He ltac:(vm_compute; reflexivity) Hrow ltac:(vm_compute; reflexivity) ltac:(vm_compute; reflexivity) eq_refl Ha) as (s' & os & Hc & Ho & Ht & _ & Hn).
  exists s', os. rewrite Ht. split; [exact Hc|]. split; [exact Ho|]. split; [reflexivity|exact Hn].
Defined.

(** Two creations at the same time, with nineteen approvals created in the
    hour before: twenty-one rows in an hour. *)
Definition busy_tables : tables nat :=
  Tables (map (λ n, Row (bytes_of "b-" ++ Itoa (Z.of_nat n)) [] [] [] (storeTime demo_time) (storeTime demo_time) 0 StateRejected (Some (storeTime demo_time))) (seq 0 19)) NoRow 0%nat.
Definition busy_ops : list (op nat unit * Z * faults) := map (λ o, (o, demo_time, no_faults)) [
  OpCreate (bytes_of "a-1") (bytes_of "release") [] (bytes_of "one") demo_action [];
  OpCreate (bytes_of "a-2") (bytes_of "release") [] (bytes_of "two") demo_action [];
  OpReady 0 (Some 1); OpReady 0 (Some 2); OpDraw 0 [1] true; OpDraw 0 [2] true; OpRun 0; OpRun 0].
Lemma hourly_cap_exceeded : ∃ evs (s : store nat unit), run (NewStore busy_tables) evs s ∧ countCreatedSince (storeTime (demo_time - hour)) (tab s) = 21%nat.
Proof.
  destruct (run_ops busy_ops (NewStore busy_tables)) as [[evs s]|] eqn:Hr; [|vm_compute in Hr; discriminate].
  exists evs, s. split; [by apply (run_ops_run busy_ops _ [] _ evs s (run_nil _))|].
  transitivity (match run_ops busy_ops (NewStore busy_tables) with Some (_, s) => countCreatedSince (storeTime (demo_time - hour)) (tab s) | None => 0%nat end);
    [by rewrite Hr|vm_compute; reflexivity].
Qed.
