(* ===== verification/MailMessage.v ===== *)
(** * Application mail: the sealed message (internal/mail/mail.go, open.go, body.go, announce.go, presence.go)

    A mail is a JSON message signed by the sender's identity key and sealed
    with HPKE to the recipient's mailbox key. This file has the seal, the
    re-seal to another mailbox key, the verification steps 1 to 12 of a
    received envelope, the bodies of the kinds ack and keys, and the signed
    announcement of a mailbox key. HPKE is a parameter ([Hpke]), as are
    SHA-256 and Ed25519 (Signing.v). Randomness is an argument. An error is
    what its callers can tell apart. *)

From S2P Require Import Prelude Utf8 Canonical Strconv WireTime Body RequestObject Signing.
From stdpp Require Import gmap.

Open Scope Z_scope.
Open Scope go_scope.

(** crypto/hpke with DHKEM(X25519), HKDF-SHA256 and ChaCha20-Poly1305. *)
Class Hpke := {
  hpke_Seal : bytes → bytes → bytes → bytes → bytes → option (bytes * bytes);
    (* public key, info, aad, plaintext, randomness: enc and ciphertext *)
  hpke_Open : bytes → bytes → bytes → bytes → bytes → option bytes;
    (* private key, enc, info, aad, ciphertext *)
}.

(** ** Constants, ids and keys *)

Definition minute : Z := 60 * second.
Definition hour : Z := 3600 * second.
Definition day : Z := 24 * hour.
Definition MaxMailPlaintext : Z := 716800.
Definition KeyIDLen : Z := 8.
Definition encLen : Z := 32.
Definition tagLen : Z := 16.
Definition MinPayload : Z := 1 + KeyIDLen + encLen + tagLen.
Definition MaxPayload : Z := MinPayload + MaxMailPlaintext.
Definition PayloadVersion : Z := 1.
Definition MaxAge : Z := 30 * day.
Definition MaxSkew : Z := 10 * minute.
Definition AnnouncementLifetime : Z := 14 * day.
Definition maxIDList : Z := 256.
Definition msgTag : bytes := bytes_of "dorylinae-mail-v1" ++ [0x0A].
Definition annTag : bytes := bytes_of "dorylinae-mailbox-key-v1" ++ [0x0A].
Definition AckIDs : bytes := bytes_of "ids".
Definition AckUnsupported : bytes := bytes_of "unsupported".
Definition AckRejected : bytes := bytes_of "rejected".
Definition kind_ack : bytes := bytes_of "ack".
Definition kind_keys : bytes := bytes_of "keys".

Definition zlen (s : bytes) : Z := Z.of_nat (length s).
Definition slice_ (lo hi : Z) (s : bytes) : bytes := take (Z.to_nat (hi - lo)) (drop (Z.to_nat lo) s).

Definition ValidID (s : bytes) : bool := hex_id 0x6D s.
Definition ValidPresenceID (s : bytes) : bool := hex_id 0x70 s.
(** The 16 random bytes are the argument. *)
Definition NewID (rnd : bytes) : bytes := bytes_of "m-" ++ hex_encode rnd.
Definition NewPresenceID (rnd : bytes) : bytes := bytes_of "p-" ++ hex_encode rnd.
Definition kindPattern (s : bytes) : bool := (1 <=? zlen s) && (zlen s <=? 64) && forallb name_char s.

Definition decodeKey (s : bytes) : option bytes :=
  match b64_decode s with
  | Some raw => if (zlen s =? 43) && (zlen raw =? 32) then Some raw else None
  | None => None
  end.

(** The verified message. [Created] is in nanoseconds. *)
Record Msg := MkMsg { V : Z; ID : bytes; From : bytes; To : bytes; Created : Z; Kind : bytes; MsgBody : body }.

Definition str_member (k : string) (m : body) : option bytes :=
  match member (bytes_of k) m with Some (VString s) => Some s | _ => None end.
Definition obj_member (k : string) (m : body) : option body :=
  match member (bytes_of k) m with Some (VObject b) => Some b | _ => None end.
Definition num_member (k : string) (m : body) : option bytes :=
  match member (bytes_of k) m with Some (VNumber s) => Some s | _ => None end.
Definition parseTime (v : option value) : option Z := decodeTime v.
Definition stringList (v : option value) : list bytes :=
  match v with
  | Some (VArray l) => omap (λ e, match e with VString s => Some s | _ => None end) l
  | _ => []
  end.

Section Mail.
Context `{Crypto} `{Hpke}.

(** ** Seal *)

Definition KeyIDOf (pub : bytes) : bytes := take 8 (sha256 pub).
Definition KeyID_String (k : bytes) : bytes := hex_encode k.

Inductive seal_error :=
| BadID | BadPrivateKey | BadMailboxPub | BadKind | BadRecipient
| BadBodyJSON (e : parse_error) | BodyNotObject | NotCanonical (e : canon_error)
| PlaintextTooLong (n : Z) | HpkeRefused | BadPlaintext | NotTheseKeys | NotPresence | NoIdentityKey.

(** [in_Body] is the body as json.Marshal writes it, None for nil; [in_Rand]
    what NewID and HPKE draw. *)
Record SealInput := MkSeal {
  in_Priv : bytes; in_To : bytes; in_MailboxPub : bytes; in_ID : bytes;
  in_Kind : bytes; in_Body : option bytes; in_Created : Z; in_Rand : bytes * bytes;
}.
Record Sealed := MkSealed { sl_ID : bytes; sl_KeyID : bytes; sl_Signed : bytes; sl_Payload : bytes }.

Definition buildInfo (from to kid : bytes) : bytes := msgTag ++ from ++ [0x0A] ++ to ++ [0x0A] ++ kid.

Definition sealPlain (from to id plain pub rnd : bytes) : result seal_error Sealed :=
  guard? zlen pub =? encLen else BadMailboxPub in
  let kid := KeyIDOf pub in
  match hpke_Seal pub (buildInfo from to kid) id plain rnd with
  | None => Err HpkeRefused
  | Some (enc, ct) => Ok (MkSealed id kid plain (PayloadVersion :: kid ++ enc ++ ct))
  end.

Definition msg_value (id from to created kind : bytes) (b : body) : body :=
  [(bytes_of "v", VNumber (bytes_of "1")); (bytes_of "id", VString id); (bytes_of "from", VString from);
   (bytes_of "to", VString to); (bytes_of "created", VString created); (bytes_of "kind", VString kind);
   (bytes_of "body", VObject b)].
Definition signed_value (msg : body) (sig : bytes) : body :=
  [(bytes_of "msg", VObject msg); (bytes_of "sig", VString (b64_encode sig))].
Definition canonical (m : body) : result seal_error bytes :=
  match CanonicalValue (VObject m) with Ok b => Ok b | Err e => Err (NotCanonical e) end.
Definition body_object (raw : option bytes) : result seal_error body :=
  match ParseStrict (default (bytes_of "{}") raw) with
  | Ok (VObject b) => Ok b
  | Ok _ => Err BodyNotObject
  | Err e => Err (BadBodyJSON e)
  end.

Definition sealMsg (i : SealInput) : result seal_error Sealed :=
  guard? zlen (in_Priv i) =? 64 else BadPrivateKey in
  guard? zlen (in_MailboxPub i) =? encLen else BadMailboxPub in
  guard? kindPattern (in_Kind i) else BadKind in
  guard? bool_decide (is_Some (decodeKey (in_To i))) else BadRecipient in
  let from := b64_encode (ed25519_Public (in_Priv i)) in
  let? b := body_object (in_Body i) in
  let msg := msg_value (in_ID i) from (in_To i) (wireTime (in_Created i)) (in_Kind i) b in
  let? canonMsg := canonical msg in
  let sig := ed25519_Sign (in_Priv i) (msgTag ++ canonMsg) in
  let? plain := canonical (signed_value msg sig) in
  guard? zlen plain <=? MaxMailPlaintext else PlaintextTooLong (zlen plain) in
  sealPlain from (in_To i) (in_ID i) plain (in_MailboxPub i) (in_Rand i).2.

Definition with_ID (id : bytes) (i : SealInput) : SealInput :=
  MkSeal (in_Priv i) (in_To i) (in_MailboxPub i) id (in_Kind i) (in_Body i) (in_Created i) (in_Rand i).
Definition Seal (i : SealInput) : result seal_error Sealed :=
  let i := if bool_decide (in_ID i = []) then with_ID (NewID (in_Rand i).1) i else i in
  guard? ValidID (in_ID i) else BadID in
  sealMsg i.
Definition SealPresence (i : SealInput) : result seal_error Sealed :=
  guard? bool_decide (in_Kind i = bytes_of "presence") else NotPresence in
  let i := if bool_decide (in_ID i = []) then with_ID (NewPresenceID (in_Rand i).1) i else i in
  guard? ValidPresenceID (in_ID i) else BadID in
  sealMsg i.

(** ** The strict parse of a plaintext *)

Definition parseSigned (plain : bytes) : option (body * Msg * bytes) :=
  match ParseStrict plain with
  | Ok (VObject top) =>
      if negb (length top =? 2)%nat then None else
      gen ← obj_member "msg" top;
      sigStr ← str_member "sig" top;
      sig ← b64_decode sigStr;
      if negb (zlen sig =? 64) then None else
      if negb (length gen =? 7)%nat then None else
      v ← num_member "v" gen ≫= Int64;
      id ← str_member "id" gen; from ← str_member "from" gen; to ← str_member "to" gen; kind ← str_member "kind" gen;
      created ← parseTime (member (bytes_of "created") gen);
      if negb (kindPattern kind) then None else
      b ← obj_member "body" gen;
      match CanonicalValue (VObject gen) with
      | Ok _ => Some (gen, MkMsg v id from to created kind b, sig)
      | Err _ => None
      end
  | _ => None
  end.

Definition Reseal (signed from to pub rnd : bytes) : result seal_error Sealed :=
  guard? zlen signed <=? MaxMailPlaintext else PlaintextTooLong (zlen signed) in
  match parseSigned signed with
  | None => Err BadPlaintext
  | Some (_, msg, _) =>
      guard? bool_decide (From msg = from) && bool_decide (To msg = to) else NotTheseKeys in
      sealPlain from to (ID msg) signed pub rnd
  end.

(** ** Announcements of a mailbox key *)

Record Announcement := MkAnn { an_Identity : bytes; an_KeyID : bytes; an_Pub : bytes; an_Created : Z; an_NotAfter : Z }.

Definition ann_value (identity pub : bytes) (created : Z) : body :=
  [(bytes_of "v", VNumber (bytes_of "1")); (bytes_of "identity", VString (b64_encode identity));
   (bytes_of "key_id", VString (KeyID_String (KeyIDOf pub))); (bytes_of "pub", VString (b64_encode pub));
   (bytes_of "created", VString (wireTime created));
   (bytes_of "not_after", VString (wireTime (created / second * second + AnnouncementLifetime)))].

(** [sign] is the caller's function; None is its error. *)
Definition SignAnnouncement (identity : bytes) (sign : bytes → option bytes) (pub : bytes) (created : Z) : option bytes :=
  if negb (zlen identity =? 32) then None else
  if negb (zlen pub =? encLen) then None else
  let ann := ann_value identity pub created in
  match CanonicalValue (VObject ann) with
  | Err _ => None
  | Ok canon =>
      sig ← sign (annTag ++ canon);
      match CanonicalValue (VObject [(bytes_of "announcement", VObject ann); (bytes_of "signature", VString (b64_encode sig))]) with
      | Ok b => Some b
      | Err _ => None
      end
  end.

Inductive ann_error := AnnBad | AnnExpired (past : bool).   (* ErrAnnouncementExpired, and errAnnouncementPast *)

Definition get {A} (o : option A) : result ann_error A := match o with Some a => Ok a | None => Err AnnBad end.

Definition verifyAnnouncement (v : value) (identity : bytes) (now : Z) : result ann_error unit :=
  let? top := get match v with VObject t => if (length t =? 2)%nat then Some t else None | _ => None end in
  let? ann := get (obj_member "announcement" top) in
  let? sigStr := get (str_member "signature" top) in
  guard? bool_decide (default [] (str_member "identity" ann) = identity) else AnnBad in
  let? idKey := get (decodeKey identity) in
  let? sig := get (b64_decode sigStr) in
  guard? zlen sig =? 64 else AnnBad in
  let? canon := get match CanonicalValue (VObject ann) with Ok c => Some c | Err _ => None end in
  guard? ed25519_Verify idKey (annTag ++ canon) sig else AnnBad in
  guard? (length ann =? 6)%nat else AnnBad in
  guard? bool_decide (num_member "v" ann = Some (bytes_of "1")) else AnnBad in
  let? pub := get (b64_decode (default [] (str_member "pub" ann))) in
  guard? zlen pub =? encLen else AnnBad in
  guard? bool_decide (default [] (str_member "key_id" ann) = KeyID_String (KeyIDOf pub)) else AnnBad in
  let? created := get (parseTime (member (bytes_of "created") ann)) in
  let? notAfter := get (parseTime (member (bytes_of "not_after") ann)) in
  let bad := (now + MaxSkew <? created) || negb (created <? notAfter) || (created + 30 * day <? notAfter) in
  if bad || negb (now <? notAfter) then Err (AnnExpired (negb bad)) else Ok tt.

Definition ParseAnnouncement (raw identity : bytes) (now : Z) : result ann_error (Announcement * bytes) :=
  let? v := get match ParseStrict raw with Ok v => Some v | Err _ => None end in
  let? _ := verifyAnnouncement v identity now in
  let? canon := get match CanonicalValue v with Ok c => Some c | Err _ => None end in
  let ann := match v with VObject top => default [] (obj_member "announcement" top) | _ => [] end in
  let pub := default [] (b64_decode (default [] (str_member "pub" ann))) in
  Ok (MkAnn identity (KeyIDOf pub) pub (default zeroTime (parseTime (member (bytes_of "created") ann)))
        (default zeroTime (parseTime (member (bytes_of "not_after") ann))), canon).

(** ** Step 12: the bodies of ack and keys *)

Definition checkIDList (v : option value) : bool :=
  match v with
  | Some (VArray l) =>
      (1 <=? Z.of_nat (length l)) && (Z.of_nat (length l) <=? maxIDList) &&
      forallb (λ e, match e with VString s => ValidID s | _ => false end) l
  | _ => false
  end.

(** [member] of the code: the member that listed each id. *)
Fixpoint ack_ids (k : bytes) (ids : list bytes) (seen : gmap bytes bytes) : option (gmap bytes bytes) :=
  match ids with
  | [] => Some seen
  | id :: ids =>
      if negb (bool_decide (default k (seen !! id) = k)) then None else ack_ids k ids (<[id := k]> seen)
  end.
Fixpoint ack_members (b : body) (seen : gmap bytes bytes) : bool :=
  match b with
  | [] => true
  | (k, v) :: b =>
      if negb (bool_decide (k ∈ [AckIDs; AckUnsupported; AckRejected])) then false else
      if negb (checkIDList (Some v)) then false else
      match ack_ids k (stringList (Some v)) seen with
      | None => false
      | Some seen => ack_members b seen
      end
  end.
Definition checkAckBody (b : body) : bool := negb (bool_decide (b = [])) && ack_members b ∅.

(** Malformed, or a bad announcement: expired or not. *)
Definition checkKeysBody (b : body) (from : bytes) (now : Z) : option (option ann_error) :=
  if negb (forallb (λ p, bool_decide (p.1 ∈ [bytes_of "announcement"; bytes_of "retry"])) b) then Some None else
  if match member (bytes_of "retry") b with Some v => negb (checkIDList (Some v)) | None => false end then Some None else
  match member (bytes_of "announcement") b with
  | None => Some None
  | Some ann => match verifyAnnouncement ann from now with Ok _ => None | Err e => Some (Some e) end
  end.

(** ** Open *)

Inductive reject_reason :=
| ReasonUnpaired | ReasonMalformed | ReasonKeyMiss | ReasonDecrypt | ReasonSenderMismatch | ReasonBadSignature
| ReasonWrongRecipient | ReasonIDMismatch | ReasonStale | ReasonBadKeys | ReasonBadBody | ReasonLimit.
#[export] Instance reject_reason_eq_dec : EqDecision reject_reason.
Proof. solve_decision. Defined.
(** [Past]: the wrapped error is errAnnouncementPast. *)
Record RejectError := Reject { Step : Z; Reason : reject_reason; Past : bool }.
Definition reject {A} (step : Z) (r : reject_reason) : result RejectError A := Err (Reject step r false).
Definition or_reject {A} (step : Z) (r : reject_reason) (o : option A) : result RejectError A :=
  match o with Some a => Ok a | None => reject step r end.

(** The routing fields of an envelope and its decoded payload. *)
Record Envelope := MkEnv { env_From : bytes; env_To : bytes; env_Type : bytes; env_ID : bytes; env_TS : bytes; env_Payload : bytes }.
Record Opener := MkOpener {
  Self : bytes;
  IsPaired : bytes → bool;
  MailboxKey : bytes → option bytes;   (* the live own private key with this key_id *)
}.
Record Opened := MkOpened { op_Msg : Msg; op_Signed : bytes; op_KeyID : bytes }.

Definition openCore (o : Opener) (env : Envelope) (validID : bytes → bool) : result RejectError Opened :=
  guard? IsPaired o (env_From env) else Reject 1 ReasonUnpaired false in
  let p := env_Payload env in
  guard? (MinPayload <=? zlen p) && (zlen p <=? MaxPayload) && bool_decide (head p = Some PayloadVersion)
    else Reject 2 ReasonMalformed false in
  let kid := slice_ 1 (1 + KeyIDLen) p in
  let? priv := or_reject 3 ReasonKeyMiss (MailboxKey o kid) in
  let? plain := or_reject 4 ReasonDecrypt
    (hpke_Open priv (slice_ (1 + KeyIDLen) (1 + KeyIDLen + encLen) p) (buildInfo (env_From env) (env_To env) kid) (env_ID env)
       (drop (Z.to_nat (1 + KeyIDLen + encLen)) p)) in
  let? (gen, msg, sig) := or_reject 5 ReasonMalformed (parseSigned plain) in
  guard? bool_decide (From msg = env_From env) else Reject 6 ReasonSenderMismatch false in
  let? fromKey := or_reject 7 ReasonBadSignature (decodeKey (From msg)) in
  let? canonMsg := or_reject 7 ReasonBadSignature match CanonicalValue (VObject gen) with Ok c => Some c | Err _ => None end in
  guard? ed25519_Verify fromKey (msgTag ++ canonMsg) sig else Reject 7 ReasonBadSignature false in
  guard? bool_decide (To msg = Self o) else Reject 8 ReasonWrongRecipient false in
  guard? bool_decide (ID msg = env_ID env) && validID (ID msg) else Reject 9 ReasonIDMismatch false in
  guard? V msg =? 1 else Reject 10 ReasonMalformed false in
  Ok (MkOpened msg plain kid).

Definition open (o : Opener) (env : Envelope) (now : Z) : result RejectError Opened :=
  let? op := openCore o env ValidID in
  let msg := op_Msg op in
  guard? negb ((Created msg <? now - MaxAge) || (now + MaxSkew <? Created msg)) else Reject 11 ReasonStale false in
  if bool_decide (Kind msg = kind_ack) then
    guard? checkAckBody (MsgBody msg) else Reject 12 ReasonMalformed false in Ok op
  else if bool_decide (Kind msg = kind_keys) then
    match checkKeysBody (MsgBody msg) (From msg) now with
    | None => Ok op
    | Some None => reject 12 ReasonMalformed
    | Some (Some AnnBad) => reject 12 ReasonBadKeys
    | Some (Some (AnnExpired past)) => Err (Reject 12 ReasonBadKeys past)
    end
  else Ok op.
Definition OpenPresence (o : Opener) (env : Envelope) : result RejectError Opened := openCore o env ValidPresenceID.

End Mail.
