(* ===== verification/MailOpen.v ===== *)
(** * Application mail: what the seal and the verification steps guarantee

    A mail that opens was signed by the paired peer it names, for this
    recipient and under its id; a sealed mail opens at its recipient with the
    fields it was sealed with, also after a re-seal to another mailbox key; a
    signed announcement parses back until it expires. *)

From S2P Require Import Prelude Utf8 Canonical Strconv WireTime Body RequestObject Signing MailMessage.
From stdpp Require Import gmap.

Open Scope Z_scope.

(** What the code relies on of HPKE and of SHA-256's length. [mailbox_public]
    is the public half of a mailbox key. *)
Class HpkeLaws `{Crypto} `{Hpke} := {
  mailbox_public : bytes → bytes;
  hpke_opens : ∀ sk info aad p r enc ct, hpke_Seal (mailbox_public sk) info aad p r = Some (enc, ct) →
    hpke_Open sk enc info aad ct = Some p;
  hpke_lengths : ∀ pk info aad p r enc ct, hpke_Seal pk info aad p r = Some (enc, ct) →
    zlen enc = encLen ∧ zlen ct = zlen p + tagLen;
  sha256_length : ∀ m, length (sha256 m) = 32%nat;
}.

(** ** Reading the members of a normal form *)

Definition reads_as (m' m : body) : Prop :=
  length m' = length m ∧ ∀ k, member k m' = option_map norm (member k m).

Lemma norm_reads_as m : NoDup (map fst m) → ∃ m', norm (VObject m) = VObject m' ∧ reads_as m' m.
Proof.
  intros Hd. rewrite norm_object. eexists. split; [done|]. split.
  - by rewrite length_map, sort_keys_perm.
  - intros k. rewrite member_map. f_equal. apply member_perm; [by rewrite sort_keys_perm|by rewrite sort_keys_perm].
Qed.
Lemma reads_str k m m' : reads_as m' m → str_member k m' = str_member k m.
Proof. intros [_ Hm]. unfold str_member. rewrite Hm. by destruct (member (bytes_of k) m) as [[]|]. Qed.
Lemma reads_num k m m' : reads_as m' m → num_member k m' = num_member k m.
Proof. intros [_ Hm]. unfold num_member. rewrite Hm. by destruct (member (bytes_of k) m) as [[]|]. Qed.
Lemma reads_time k m m' : reads_as m' m → parseTime (member (bytes_of k) m') = parseTime (member (bytes_of k) m).
Proof. intros [_ Hm]. unfold parseTime. rewrite Hm. by destruct (member (bytes_of k) m) as [[]|]. Qed.
Lemma reads_obj k m m' b b' : reads_as m' m → obj_member k m = Some b → norm (VObject b) = VObject b' → obj_member k m' = Some b'.
Proof.
  intros [_ Hm] Hb Hn. unfold obj_member in *. rewrite Hm. destruct (member (bytes_of k) m) as [[]|]; try done.
  injection Hb as ->. cbn [option_map]. by rewrite Hn.
Qed.

(** The members of a parsed canonical object. *)
Lemma canonical_reads m c : wf (VObject m) = true → CanonicalValue (VObject m) = Ok c →
  ∃ m', ParseStrict c = Ok (VObject m') ∧ norm (VObject m) = VObject m' ∧ reads_as m' m.
Proof.
  intros Hw Hc. pose proof (parse_strict_canonical _ _ Hw Hc) as Hp. apply wf_object in Hw as [Hd _].
  destruct (norm_reads_as m Hd) as (m' & Hn & Hr). exists m'. by rewrite Hn in Hp.
Qed.

Lemma some_bind {A B} (x : A) (f : A → option B) : (Some x ≫= f) = f x.
Proof. done. Qed.

(** ** Text *)

Lemma b64_char_ascii n : 0 ≤ n < 64 → 0 ≤ b64_char_of n < 0x80.
Proof. unfold b64_char_of. intros Hn. repeat case_match; lia. Qed.
Lemma b64_encode_valid s : forallb is_byte s = true → valid_utf8 (b64_encode s) = true.
Proof.
  intros Hs. rewrite b64_encode_values. destruct (b64_values_ok s Hs) as [Hf _]. apply valid_ascii.
  intros c (n & -> & Hn)%list_elem_of_fmap. rewrite Forall_forall in Hf. by apply b64_char_ascii, Hf.
Qed.
Lemma b64_encode_length s : length (b64_encode s) = ((4 * length s + 2) / 3)%nat.
Proof.
  induction s as [|a|a b|a b c s IH] using by_three; [done..|]. cbn [b64_encode app map length]. rewrite IH.
  replace (4 * S (S (S (length s))) + 2)%nat with ((4 * length s + 2) + 4 * 3)%nat by lia. rewrite Nat.div_add by lia. lia.
Qed.
Lemma b64_val_ascii c n : b64_val c = Some n → 0 ≤ c < 0x80.
Proof. unfold b64_val, in_range. intros Hc. repeat case_match; bprop; simplify_eq; lia. Qed.
Lemma b64_decode_valid s r : b64_decode s = Some r → valid_utf8 s = true.
Proof.
  unfold b64_decode. intros Hs. apply valid_ascii. intros c Hc. destruct (mapM b64_val _) as [l|] eqn:E; [|done].
  destruct ((c =? 0x0A) || (c =? 0x0D)) eqn:En; [apply orb_true_iff in En; rewrite !Z.eqb_eq in En; lia|].
  apply mapM_Some in E. assert (c ∈ List.filter (λ c, negb ((c =? 0x0A) || (c =? 0x0D))) s) as Hin.
  { rewrite list_elem_of_In, filter_In, <- list_elem_of_In. by rewrite En. }
  clear -E Hin. induction E as [|c' n l' l Hn _ IH]; [by apply elem_of_nil in Hin|].
  apply elem_of_cons in Hin as [->|Hin]; [by eapply b64_val_ascii|by apply IH].
Qed.
Lemma decodeKey_encode k : length k = 32%nat → forallb is_byte k = true → decodeKey (b64_encode k) = Some k.
Proof. intros Hl Hb. unfold decodeKey, zlen. rewrite b64_round, b64_encode_length, Hl by done. done. Qed.
Lemma kind_valid s : kindPattern s = true → valid_utf8 s = true.
Proof.
  unfold kindPattern. intros Hk. bprop. apply valid_ascii. intros c Hc.
  match goal with H : forallb _ _ = true |- _ => rewrite forallb_forall in H; specialize (H c (proj1 (list_elem_of_In _ _) Hc)); rename H into Hn end.
  unfold name_char, is_digit, in_range in Hn. lia.
Qed.

Section Laws.
Context `{SL : SignLaws} `{HP : Hpke} `{HL : !HpkeLaws}.

(** ** The seal *)

Definition sealed_msg (i : SealInput) (b : body) : Msg :=
  MkMsg 1 (in_ID i) (b64_encode (ed25519_Public (in_Priv i))) (in_To i) (in_Created i / second * second) (in_Kind i) b.

Lemma wf_members (m : body) : NoDup (map fst m) → (∀ p, p ∈ m → valid_utf8 p.1 = true) → (∀ p, p ∈ m → wf p.2 = true) → wf (VObject m) = true.
Proof. intros Hd Hk Hv. apply wf_object. split; [done|]. intros p Hp. split; [by apply Hk|by apply Hv]. Qed.

Ltac concrete_keys := match goal with |- ?P => let H := fresh in assert (bool_decide P = true) as H by (vm_compute; reflexivity); exact (bool_decide_eq_true_1 _ H) end.
Ltac each_member tac := intros p Hp; repeat (apply elem_of_cons in Hp as [->|Hp]; [cbn [fst snd]; tac|]); try by apply elem_of_nil in Hp.
Ltac each_key := each_member ltac:(vm_compute; reflexivity).
Ltac each_value := each_member ltac:(first [assumption|reflexivity|cbn [wf]; assumption|apply b64_encode_valid; assumption]).

Lemma wf_msg_value id from to t kind b : valid_utf8 id = true → valid_utf8 from = true → valid_utf8 to = true → valid_utf8 t = true →
  valid_utf8 kind = true → wf (VObject b) = true → wf (VObject (msg_value id from to t kind b)) = true.
Proof. intros. apply wf_members; [concrete_keys|each_key|each_value]. Qed.
Lemma wf_signed_value m sig : wf (VObject m) = true → forallb is_byte sig = true → wf (VObject (signed_value m sig)) = true.
Proof. intros. apply wf_members; [concrete_keys|each_key|each_value]. Qed.

Lemma canonical_ok m c : canonical m = Ok c → CanonicalValue (VObject m) = Ok c.
Proof. unfold canonical. destruct (CanonicalValue (VObject m)); [|done]. by intros [= ->]. Qed.
Lemma body_object_wf raw b : body_object raw = Ok b → wf (VObject b) = true.
Proof.
  unfold body_object. destruct (ParseStrict _) as [v|] eqn:E; [|done]. apply parse_strict_wf in E. destruct v; try done. by intros [= ->].
Qed.

Lemma sealPlain_ok from to id plain pub rnd sl : sealPlain from to id plain pub rnd = Ok sl →
  ∃ enc ct, hpke_Seal pub (buildInfo from to (KeyIDOf pub)) id plain rnd = Some (enc, ct) ∧ zlen pub = encLen ∧
    sl = MkSealed id (KeyIDOf pub) plain (PayloadVersion :: KeyIDOf pub ++ enc ++ ct).
Proof.
  unfold sealPlain. intros [Hl Hs]%guard_ok. bprop. destruct (hpke_Seal _ _ _ _ _) as [[enc ct]|]; [|done].
  injection Hs as <-. by eexists _, _.
Qed.

Lemma sealMsg_ok i sl : in_years (in_Created i) → valid_utf8 (in_ID i) = true → sealMsg i = Ok sl →
  let from := b64_encode (ed25519_Public (in_Priv i)) in
  zlen (in_Priv i) = 64 ∧ kindPattern (in_Kind i) = true ∧ is_Some (decodeKey (in_To i)) ∧ zlen (sl_Signed sl) ≤ MaxMailPlaintext ∧
  sealPlain from (in_To i) (in_ID i) (sl_Signed sl) (in_MailboxPub i) (in_Rand i).2 = Ok sl ∧
  ∃ b b' gen canon, body_object (in_Body i) = Ok b ∧ norm (VObject b) = VObject b' ∧
    norm (VObject (msg_value (in_ID i) from (in_To i) (wireTime (in_Created i)) (in_Kind i) b)) = VObject gen ∧
    CanonicalValue (VObject gen) = Ok canon ∧
    parseSigned (sl_Signed sl) = Some (gen, sealed_msg i b', ed25519_Sign (in_Priv i) (msgTag ++ canon)).
Proof.
  intros Hy Hid Hs. unfold sealMsg in Hs. apply guard_ok in Hs as [Hpriv Hs]. apply guard_ok in Hs as [_ Hs].
  apply guard_ok in Hs as [Hk Hs]. apply guard_ok in Hs as [Hto Hs]. cbv zeta in Hs. set (from := b64_encode (ed25519_Public (in_Priv i))) in *.
  apply rbind_ok in Hs as (b & Hb & Hs). set (mv := msg_value _ _ _ _ _ _) in *. apply rbind_ok in Hs as (canon & Hc%canonical_ok & Hs).
  set (sig := ed25519_Sign _ _) in *. apply rbind_ok in Hs as (plain & Hp%canonical_ok & Hs). apply guard_ok in Hs as [Hlen Hs]. bprop.
  assert (length (in_Priv i) = 64%nat) as Hl64 by (unfold zlen in *; lia).
  destruct (sl_public _ Hl64) as [_ Hpub]. destruct (sl_sign _ (msgTag ++ canon) Hl64) as [Hsl Hsb].
  pose proof (sealPlain_ok _ _ _ _ _ _ _ Hs) as (enc & ct & _ & _ & ->). cbn [sl_Signed].
  assert (∃ to', decodeKey (in_To i) = Some to') as [to' Hto'] by done.
  assert (valid_utf8 (in_To i) = true) as Hvto.
  { unfold decodeKey in Hto'. destruct (b64_decode (in_To i)) eqn:E; [|done]. by eapply b64_decode_valid. }
  pose proof (body_object_wf _ _ Hb) as Hwb.
  assert (wf (VObject mv) = true) as Hwm.
  { apply wf_msg_value; [done|by apply b64_encode_valid|done|by apply wireTime_valid|by apply kind_valid|done]. }
  destruct (canonical_reads _ _ (wf_signed_value _ _ Hwm Hsb) Hp) as (top & Hpp & _ & Hr).
  pose proof Hwm as [Hdm _]%wf_object. destruct (norm_reads_as mv Hdm) as (gen & Hgn & Hgr).
  pose proof Hwb as [Hdb _]%wf_object. destruct (norm_reads_as b Hdb) as (b' & Hbn & _).
  assert (CanonicalValue (VObject gen) = Ok canon) as Hcg by (rewrite <- Hgn; unfold CanonicalValue; by rewrite canonicalize_norm).
  split_and!; [done|done|by exists to'|done|done|]. exists b, b', gen, canon. split_and!; [done..|].
  fold sig in Hr, Hsl, Hsb |- *. unfold parseSigned. rewrite Hpp, (proj1 Hr). cbn [length signed_value negb Nat.eqb].
  rewrite (reads_obj "msg" _ _ mv gen Hr eq_refl Hgn), some_bind, (reads_str "sig" _ _ Hr).
  change (str_member "sig" (signed_value mv sig)) with (Some (b64_encode sig)). rewrite some_bind, b64_round, some_bind by done.
  unfold zlen. rewrite Hsl. change (Z.of_nat 64 =? 64) with true. cbn [negb]. rewrite (proj1 Hgr). cbn [length mv msg_value negb Nat.eqb].
  rewrite (reads_num "v" _ _ Hgr), !(reads_str _ _ _ Hgr), (reads_time _ _ _ Hgr), (reads_obj "body" _ _ b b' Hgr eq_refl Hbn), Hcg.
  change (num_member "v" mv ≫= Int64) with (Some 1). change (str_member "id" mv) with (Some (in_ID i)). change (str_member "from" mv) with (Some from).
  change (str_member "to" mv) with (Some (in_To i)). change (str_member "kind" mv) with (Some (in_Kind i)).
  change (member (bytes_of "created") mv) with (Some (VString (wireTime (in_Created i)))). unfold parseTime. rewrite decode_wireTime by done.
  rewrite !some_bind, Hk. cbn [negb]. done.
Qed.

(** ** Open *)

Lemma KeyIDOf_length pub : zlen (KeyIDOf pub) = KeyIDLen.
Proof. unfold zlen, KeyIDOf. by rewrite length_take, sha256_length. Qed.

(** The parts of a payload. *)
Lemma payload_parts kid enc ct : zlen kid = KeyIDLen → zlen enc = encLen →
  let p := PayloadVersion :: kid ++ enc ++ ct in
  slice_ 1 (1 + KeyIDLen) p = kid ∧ slice_ (1 + KeyIDLen) (1 + KeyIDLen + encLen) p = enc ∧
  drop (Z.to_nat (1 + KeyIDLen + encLen)) p = ct ∧ zlen p = 1 + KeyIDLen + encLen + zlen ct.
Proof.
  intros Hk He p. unfold slice_, zlen in *. unfold KeyIDLen, encLen in *.
  change (Z.to_nat 1) with 1%nat. change (Z.to_nat (1 + 8 - 1)) with 8%nat. change (Z.to_nat (1 + 8 + 32)) with (S (8 + 32)).
  change (Z.to_nat (1 + 8 + 32 - (1 + 8))) with 32%nat. change (Z.to_nat (1 + 8)) with 9%nat.
  assert (length kid = 8%nat) as Hk' by lia. assert (length enc = 32%nat) as He' by lia. unfold p. cbn [drop length].
  assert (∀ x, take 8 (kid ++ x) = kid ∧ drop 8 (kid ++ x) = x) as Hkid by (intros x; rewrite <- Hk'; split; [apply take_app_length|apply drop_app_length]).
  assert (∀ x, take 32 (enc ++ x) = enc ∧ drop 32 (enc ++ x) = x) as Henc by (intros x; rewrite <- He'; split; [apply take_app_length|apply drop_app_length]).
  destruct (Hkid (enc ++ ct)) as [K1 K2]. destruct (Henc ct) as [E1 E2]. split_and!; [exact K1|by rewrite K2| |rewrite !length_app; lia].
  by rewrite <- drop_drop, K2.
Qed.

Lemma sealPlain_opens o sk from to id plain rnd sl gen msg sig key canon ty ts validID :
  sealPlain from to id plain (mailbox_public sk) rnd = Ok sl → zlen plain ≤ MaxMailPlaintext →
  IsPaired o from = true → MailboxKey o (KeyIDOf (mailbox_public sk)) = Some sk → Self o = to →
  parseSigned plain = Some (gen, msg, sig) → From msg = from → To msg = to → ID msg = id → V msg = 1 → validID id = true →
  decodeKey from = Some key → CanonicalValue (VObject gen) = Ok canon → ed25519_Verify key (msgTag ++ canon) sig = true →
  openCore o (MkEnv from to ty id ts (sl_Payload sl)) validID = Ok (MkOpened msg plain (KeyIDOf (mailbox_public sk))).
Proof.
  intros Hs Hlen Hp Hk Hself Hparse Hfrom Hto Hid Hv Hvid Hkey Hc Hver.
  destruct (sealPlain_ok _ _ _ _ _ _ _ Hs) as (enc & ct & Hseal & _ & ->). cbn [sl_Payload].
  destruct (hpke_lengths _ _ _ _ _ _ _ Hseal) as [He Hct]. destruct (payload_parts _ _ ct (KeyIDOf_length (mailbox_public sk)) He) as (P1 & P2 & P3 & P4).
  unfold openCore. cbn [env_From env_To env_ID env_Payload]. rewrite P1, P2, P3, P4, Hct, Hp, Hk.
  assert ((MinPayload <=? 1 + KeyIDLen + encLen + (zlen plain + tagLen)) && (1 + KeyIDLen + encLen + (zlen plain + tagLen) <=? MaxPayload) = true) as ->.
  { unfold MaxPayload, MinPayload. apply andb_true_iff. rewrite !Z.leb_le. assert (0 ≤ zlen plain) by (unfold zlen; lia). lia. }
  rewrite bool_decide_eq_true_2 by done. cbn [andb or_reject rbind]. rewrite (hpke_opens _ _ _ _ _ _ _ Hseal). cbn [or_reject rbind].
  rewrite Hparse. cbn [or_reject rbind]. rewrite bool_decide_eq_true_2 by done. rewrite Hfrom, Hkey. cbn [or_reject rbind]. rewrite Hc. cbn [or_reject rbind].
  rewrite Hver, bool_decide_eq_true_2 by congruence. rewrite bool_decide_eq_true_2 by done. rewrite Hid, Hvid, Hv. done.
Qed.

(** [open] runs the steps 11 and 12 on what [openCore] opened. *)
Lemma open_plain o env now op : openCore o env ValidID = Ok op → now - MaxAge ≤ Created (op_Msg op) ≤ now + MaxSkew →
  Kind (op_Msg op) ≠ kind_ack → Kind (op_Msg op) ≠ kind_keys → open o env now = Ok op.
Proof.
  intros Ho Hw Ha Hk. unfold open. rewrite Ho. cbn [rbind].
  assert ((Created (op_Msg op) <? now - MaxAge) || (now + MaxSkew <? Created (op_Msg op)) = false) as -> by lia. cbn [negb].
  by rewrite !bool_decide_eq_false_2.
Qed.

Lemma Seal_id i sl : Seal i = Ok sl → sealMsg (with_ID (sl_ID sl) i) = Ok sl ∧ ValidID (sl_ID sl) = true.
Proof.
  unfold Seal. intros Hs. set (j := if bool_decide _ then _ else _) in Hs. apply guard_ok in Hs as [Hid Hs].
  assert (sl_ID sl = in_ID j) as E.
  { pose proof Hs as Hs'. unfold sealMsg in Hs'. do 4 apply guard_ok in Hs' as [_ Hs']. cbv zeta in Hs'.
    apply rbind_ok in Hs' as (? & _ & Hs'). apply rbind_ok in Hs' as (? & _ & Hs'). apply rbind_ok in Hs' as (? & _ & Hs').
    apply guard_ok in Hs' as [_ Hs']. apply sealPlain_ok in Hs' as (? & ? & _ & _ & ->). done. }
  rewrite E. split; [|done]. rewrite <- Hs. f_equal. unfold j. destruct (bool_decide _); by destruct i.
Qed.

Definition sender (i : SealInput) : bytes := b64_encode (ed25519_Public (in_Priv i)).

(** C13: roundtrip. A sealed mail of any kind but the two with checked bodies
    (ack and keys) opens at its recipient, within its window, with exactly the
    fields it was sealed with and the body as a JSON value; so does the mail
    sealed again to another of the recipient's mailbox keys, under the same id
    and signature. *)
Theorem sealed_mail_opens i sl sl' o sk ty ts now :
  Seal i = Ok sl → in_years (in_Created i) →
  (sl' = sl ∧ in_MailboxPub i = mailbox_public sk ∨ ∃ r, Reseal (sl_Signed sl) (sender i) (in_To i) (mailbox_public sk) r = Ok sl') →
  IsPaired o (sender i) = true → MailboxKey o (KeyIDOf (mailbox_public sk)) = Some sk → Self o = in_To i →
  now - MaxAge ≤ in_Created i / second * second ≤ now + MaxSkew → in_Kind i ≠ kind_ack → in_Kind i ≠ kind_keys →
  ∃ b b', body_object (in_Body i) = Ok b ∧ norm (VObject b) = VObject b' ∧
    open o (MkEnv (sender i) (in_To i) ty (sl_ID sl) ts (sl_Payload sl')) now =
    Ok (MkOpened (MkMsg 1 (sl_ID sl) (sender i) (in_To i) (in_Created i / second * second) (in_Kind i) b') (sl_Signed sl) (KeyIDOf (mailbox_public sk))).
Proof.
  intros Hs Hy Hr Hp Hk Hself Hw Ha Hkk. destruct (Seal_id _ _ Hs) as [Hm Hid].
  destruct (sealMsg_ok (with_ID (sl_ID sl) i) sl Hy ltac:(by apply (hex_id_valid 0x6D)) Hm) as (Hl & _ & _ & Hlen & Hseal & b & b' & gen & canon & Hb & Hn & _ & Hc & Hparse).
  cbn [with_ID in_Priv in_To in_Body in_ID in_MailboxPub in_Rand] in *. assert (length (in_Priv i) = 64%nat) as Hl' by (unfold zlen in Hl; lia).
  destruct (sl_public _ Hl') as [Hpl Hpb]. exists b, b'. split; [done|]. split; [done|]. apply open_plain; [|done..].
  assert (∃ rnd, sealPlain (sender i) (in_To i) (sl_ID sl) (sl_Signed sl) (mailbox_public sk) rnd = Ok sl') as [rnd Hs'].
  { destruct Hr as [[-> E]|[r Hr]]; [by exists (in_Rand i).2; rewrite <- E|]. unfold Reseal in Hr. apply guard_ok in Hr as [_ Hr]. rewrite Hparse in Hr.
    apply guard_ok in Hr as [_ Hr]. by exists r. }
  refine (sealPlain_opens o sk (sender i) (in_To i) (sl_ID sl) (sl_Signed sl) rnd sl' gen _ _ (ed25519_Public (in_Priv i)) canon ty ts ValidID
    Hs' Hlen Hp Hk Hself Hparse eq_refl eq_refl eq_refl eq_refl Hid _ Hc _); [by apply decodeKey_encode|by apply sl_verify].
Qed.

(** ** Who signed an opened mail *)

(** The bytes a mail's signature covers. *)
Definition signed_bytes (i : SealInput) (b : body) : option bytes :=
  match CanonicalValue (VObject (msg_value (in_ID i) (sender i) (in_To i) (wireTime (in_Created i)) (in_Kind i) b)) with
  | Ok canon => Some (msgTag ++ canon)
  | Err _ => None
  end.
(** What the holder of a key has signed as mail: inputs that sealed. *)
Definition mailed (i : SealInput) : Prop :=
  in_years (in_Created i) ∧ valid_utf8 (in_ID i) = true ∧ is_ok (sealMsg i) = true.

Lemma mailed_signs i : mailed i → ∃ b m, body_object (in_Body i) = Ok b ∧ signed_bytes i b = Some m ∧
  wf (VObject (msg_value (in_ID i) (sender i) (in_To i) (wireTime (in_Created i)) (in_Kind i) b)) = true.
Proof.
  intros (Hy & Hid & Hs). destruct (sealMsg i) as [sl|] eqn:E; [|done].
  destruct (sealMsg_ok _ _ Hy Hid E) as (Hl & Hk & [to' Hto] & _ & _ & b & b' & gen & canon & Hb & _ & Hg & Hc & _).
  assert (length (in_Priv i) = 64%nat) as Hl' by (unfold zlen in Hl; lia). destruct (sl_public _ Hl') as [_ Hpb].
  assert (wf (VObject (msg_value (in_ID i) (sender i) (in_To i) (wireTime (in_Created i)) (in_Kind i) b)) = true) as Hw.
  { apply wf_msg_value; [done|by apply b64_encode_valid| |by apply wireTime_valid|by apply kind_valid|by eapply body_object_wf].
    unfold decodeKey in Hto. destruct (b64_decode (in_To i)) eqn:E'; [|done]. by eapply b64_decode_valid. }
  exists b, (msgTag ++ canon). split_and!; [done| |done]. unfold signed_bytes. unfold sender.
  unfold CanonicalValue in *. rewrite <- Hg, canonicalize_norm in Hc by done. by rewrite Hc.
Qed.

Lemma norm_same v1 v2 : norm v1 = norm v2 → same v1 v2.
Proof. intros E. eapply same_trans; [apply same_norm|]. rewrite E. apply same_sym, same_norm. Qed.

(** The same message, up to the order of an object's members. *)
Lemma same_members gen m k : NoDup (map fst gen) → NoDup (map fst m) → norm (VObject gen) = norm (VObject m) →
  option_map norm (member k gen) = option_map norm (member k m).
Proof.
  intros Hg Hm E. destruct (norm_reads_as gen Hg) as (m1 & E1 & _ & H1). destruct (norm_reads_as m Hm) as (m2 & E2 & _ & H2).
  rewrite E1, E2 in E. injection E as ->. by rewrite <- H1, <- H2.
Qed.
Lemma norm_num v s : norm v = VNumber s → v = VNumber s.
Proof. destruct v; cbn; try done. Qed.
Lemma norm_str v s : norm v = VString s → v = VString s.
Proof. destruct v; cbn; try done. Qed.
Lemma member_is_str gen m k s : option_map norm (member k gen) = option_map norm (member k m) → member k m = Some (VString s) → member k gen = Some (VString s).
Proof. intros E Hm. rewrite Hm in E. destruct (member k gen) as [v|]; [|done]. injection E as E. f_equal. by apply norm_str. Qed.

Lemma parseSigned_ok plain gen msg sig : parseSigned plain = Some (gen, msg, sig) →
  wf (VObject gen) = true ∧ (∃ s, num_member "v" gen = Some s ∧ Int64 s = Some (V msg)) ∧ str_member "id" gen = Some (ID msg) ∧
  str_member "from" gen = Some (From msg) ∧ str_member "to" gen = Some (To msg) ∧ str_member "kind" gen = Some (Kind msg) ∧
  parseTime (member (bytes_of "created") gen) = Some (Created msg) ∧ obj_member "body" gen = Some (MsgBody msg) ∧ kindPattern (Kind msg) = true.
Proof.
  unfold parseSigned. destruct (ParseStrict plain) as [v|] eqn:Ep; [|done]. apply parse_strict_wf in Ep. destruct v as [| | | | |top]; try done.
  destruct (negb _); [done|]. intros Hs. apply bind_Some in Hs as (g & Hg & Hs).
  assert (wf (VObject g) = true) as Hw.
  { unfold obj_member in Hg. destruct (member (bytes_of "msg") top) as [[]|] eqn:E; try done. injection Hg as ->.
    apply wf_object in Ep as [Hd Hv]. apply member_Some in E; [|done]. by apply (Hv _ E). }
  apply bind_Some in Hs as (sg & _ & Hs). apply bind_Some in Hs as (sg' & _ & Hs). destruct (negb _); [done|]. destruct (negb _); [done|].
  apply bind_Some in Hs as (n & Hn & Hs). apply bind_Some in Hn as (s & Hn & Hs'). do 4 (apply bind_Some in Hs as (? & ? & Hs)).
  apply bind_Some in Hs as (t & Ht & Hs). destruct (kindPattern _) eqn:Hk; cbn [negb] in Hs; [|done]. apply bind_Some in Hs as (b & Hb & Hs).
  destruct (CanonicalValue (VObject g)); [|done]. injection Hs as <- <- <-. cbn. split_and!; try done. by exists s.
Qed.

(** What steps 1 to 10 establish. *)
Lemma openCore_ok o env valid op : openCore o env valid = Ok op →
  IsPaired o (env_From env) = true ∧ ∃ gen sig key canon,
    parseSigned (op_Signed op) = Some (gen, op_Msg op, sig) ∧ decodeKey (env_From env) = Some key ∧ CanonicalValue (VObject gen) = Ok canon ∧
    ed25519_Verify key (msgTag ++ canon) sig = true ∧ From (op_Msg op) = env_From env ∧ To (op_Msg op) = Self o ∧
    ID (op_Msg op) = env_ID env ∧ valid (ID (op_Msg op)) = true ∧ V (op_Msg op) = 1 ∧ is_Some (MailboxKey o (op_KeyID op)).
Proof.
  unfold openCore. intros Ho. apply guard_ok in Ho as [Hp Ho]. apply guard_ok in Ho as [_ Ho]. cbv zeta in Ho.
  apply rbind_ok in Ho as (priv & Hpriv & Ho). apply rbind_ok in Ho as (plain & _ & Ho). apply rbind_ok in Ho as ([[gen msg] sig] & Hparse & Ho).
  apply guard_ok in Ho as [Hfrom Ho]. apply rbind_ok in Ho as (key & Hkey & Ho). apply rbind_ok in Ho as (canon & Hc & Ho).
  apply guard_ok in Ho as [Hver Ho]. apply guard_ok in Ho as [Hto Ho]. apply guard_ok in Ho as [Hid Ho]. apply guard_ok in Ho as [Hv Ho]. injection Ho as <-. bprop.
  destruct (parseSigned plain) as [[[gen' msg'] sig']|] eqn:Eps; [|done]. injection Hparse as -> -> ->.
  destruct (decodeKey (From msg)) as [k|] eqn:Ek; [|done]. injection Hkey as ->. destruct (CanonicalValue (VObject gen)) as [c|] eqn:Ec; [|done]. injection Hc as ->.
  destruct (MailboxKey o _) as [sk|] eqn:Em; [|done]. split; [done|]. exists gen, sig, key, canon. cbn [op_Msg op_Signed op_KeyID]. split_and!; [done|congruence|done|done|done|done|done|done|lia|by exists sk].
Qed.
Lemma open_ok o env now op : open o env now = Ok op → openCore o env ValidID = Ok op ∧ now - MaxAge ≤ Created (op_Msg op) ≤ now + MaxSkew.
Proof.
  unfold open. intros Ho. apply rbind_ok in Ho as (op' & Hc & Ho). apply guard_ok in Ho as [Hw Ho]. bprop.
  assert (op' = op) as ->; [|split; [done|lia]].
  destruct (bool_decide _); [by apply guard_ok in Ho as [_ [= ->]]|]. destruct (bool_decide _); [|by injection Ho].
  destruct (checkKeysBody _ _ _) as [[[|past]|]|]; try done. by injection Ho.
Qed.

(** What unforgeable signatures give: the message that an opened mail carries,
    signed under the key of its sender, is that of a mail in [sent]. *)
Definition unforged (env : Envelope) (op : Opened) (sent : list SealInput) : Prop :=
  ∀ gen sig key canon, parseSigned (op_Signed op) = Some (gen, op_Msg op, sig) → CanonicalValue (VObject gen) = Ok canon →
    decodeKey (env_From env) = Some key → ed25519_Verify key (msgTag ++ canon) sig = true →
    ∃ i b, i ∈ sent ∧ sender i = env_From env ∧ body_object (in_Body i) = Ok b ∧ signed_bytes i b = Some (msgTag ++ canon).
Lemma open_authentic o env now op (sent : list SealInput) :
  open o env now = Ok op → Forall mailed sent → unforged env op sent →
  ∃ i b, i ∈ sent ∧ sender i = env_From env ∧ IsPaired o (sender i) = true ∧ in_To i = Self o ∧ in_ID i = env_ID env ∧
    op_Msg op = MkMsg 1 (in_ID i) (sender i) (in_To i) (in_Created i / second * second) (in_Kind i) (MsgBody (op_Msg op)) ∧
    body_object (in_Body i) = Ok b ∧ same (VObject (MsgBody (op_Msg op))) (VObject b) ∧
    now - MaxAge ≤ in_Created i / second * second ≤ now + MaxSkew.
Proof.
  intros Ho Hsent Hu. destruct (open_ok _ _ _ _ Ho) as [Hc Hw].
  destruct (openCore_ok _ _ _ _ Hc) as (Hp & gen & sig & key & canon & Hparse & Hkey & Hcanon & Hver & Hfrom & Hto & Hid & _ & Hv & _).
  destruct (Hu _ _ _ _ Hparse Hcanon Hkey Hver) as (i & b & Hi & Hsi & Hb & Hm).
  rewrite Forall_forall in Hsent. pose proof (Hsent i Hi) as Hmi. destruct Hmi as (Hy & _ & _). destruct (mailed_signs i (Hsent i Hi)) as (b1 & m1 & Hb1 & _ & Hwm).
  assert (b1 = b) as -> by congruence. unfold signed_bytes in Hm. set (mv := msg_value _ _ _ _ _ _) in *.
  destruct (CanonicalValue (VObject mv)) as [c|] eqn:Ec; [|done]. injection Hm as ->.
  destruct (parseSigned_ok _ _ _ _ Hparse) as (Hwg & _ & Eid & Efrom & Eto & Ekind & Et & Eb & _).
  pose proof (proj1 (canonical_same_iff _ _ _ Hwg Hwm Hcanon) Ec) as Hsame. destruct (same_wf_norm _ _ Hsame Hwg) as [_ Hn].
  pose proof Hwg as [Hdg _]%wf_object. pose proof Hwm as [Hdm _]%wf_object.
  assert (∀ k, option_map norm (member k gen) = option_map norm (member k mv)) as Hk by (intros k; by apply same_members).
  assert (∀ k s, member (bytes_of k) mv = Some (VString s) → member (bytes_of k) gen = Some (VString s)) as Hs by (intros k s; by apply member_is_str).
  unfold str_member in *. rewrite (Hs "id" (in_ID i) eq_refl) in Eid. rewrite (Hs "from" (sender i) eq_refl) in Efrom. rewrite (Hs "to" (in_To i) eq_refl) in Eto.
  rewrite (Hs "kind" (in_Kind i) eq_refl) in Ekind. rewrite (Hs "created" (wireTime (in_Created i)) eq_refl) in Et. unfold parseTime in Et. rewrite decode_wireTime in Et by done.
  injection Eid as Eid. injection Efrom as Efrom. injection Eto as Eto. injection Ekind as Ekind. injection Et as Et.
  assert (same (VObject (MsgBody (op_Msg op))) (VObject b)) as Hsb.
  { apply norm_same. specialize (Hk (bytes_of "body")). unfold obj_member in Eb. destruct (member (bytes_of "body") gen) as [[]|]; try done. injection Eb as ->.
    change (member (bytes_of "body") mv) with (Some (VObject b)) in Hk. cbn [option_map] in Hk. congruence. }
  exists i, b. rewrite Et. split; [done|]. split; [done|]. split; [congruence|]. split; [congruence|]. split; [congruence|].
  split; [|split; [exact Hb|split; [exact Hsb|exact Hw]]]. destruct (op_Msg op); cbn in *. congruence.
Qed.

(** C9: safety. A mail that passes the verification was sealed by the paired
    peer it names, for this recipient, under this id, with this kind and time
    and the same body: nothing the relay does to an envelope or a plaintext
    can change that, as long as the signature it carries was made by the
    holder of the peer's key ([signed_by]: the messages that key has signed),
    who signs messages with the mail's tag only to seal a mail. *)
Theorem opened_mail_authentic o env now op (signed_by : bytes → Prop) (sent : list SealInput) :
  open o env now = Ok op → Forall mailed sent →
  (∀ gen sig key canon, parseSigned (op_Signed op) = Some (gen, op_Msg op, sig) → CanonicalValue (VObject gen) = Ok canon →
     decodeKey (env_From env) = Some key → ed25519_Verify key (msgTag ++ canon) sig = true → signed_by (msgTag ++ canon)) →
  (∀ m, signed_by (msgTag ++ m) → ∃ i b, i ∈ sent ∧ sender i = env_From env ∧ body_object (in_Body i) = Ok b ∧ signed_bytes i b = Some (msgTag ++ m)) →
  ∃ i b, i ∈ sent ∧ sender i = env_From env ∧ IsPaired o (sender i) = true ∧ in_To i = Self o ∧ in_ID i = env_ID env ∧
    op_Msg op = MkMsg 1 (in_ID i) (sender i) (in_To i) (in_Created i / second * second) (in_Kind i) (MsgBody (op_Msg op)) ∧
    body_object (in_Body i) = Ok b ∧ same (VObject (MsgBody (op_Msg op))) (VObject b) ∧
    now - MaxAge ≤ in_Created i / second * second ≤ now + MaxSkew.
Proof.
  intros Ho Hsent Hmade Htag. apply (open_authentic o env now op sent Ho Hsent). intros gen sig key canon Hp Hc Hk Hv.
  exact (Htag _ (Hmade _ _ _ _ Hp Hc Hk Hv)).
Qed.

(** ** Announcements *)

Definition signed_ann (identity sig pub : bytes) (created : Z) : body :=
  [(bytes_of "announcement", VObject (ann_value identity pub created)); (bytes_of "signature", VString (b64_encode sig))].

Lemma wireTime_plus t d : in_years t → in_years (t / second * second + d) → 0 ≤ d → d mod second = 0 →
  decodeTime (Some (VString (wireTime (t / second * second + d)))) = Some (t / second * second + d).
Proof.
  intros _ Hy Hd Hm. rewrite decode_wireTime by done. f_equal. unfold second in *.
  rewrite Z.add_comm. rewrite Z.div_add by lia. pose proof (Z.div_mod d (10 ^ 9)). lia.
Qed.

Lemma wf_ann identity pub created : forallb is_byte identity = true → forallb is_byte pub = true → in_years created →
  in_years (created / second * second + AnnouncementLifetime) → wf (VObject (ann_value identity pub created)) = true.
Proof.
  intros Hi Hpb Hy Hy'. assert (valid_utf8 (KeyID_String (KeyIDOf pub)) = true) as Hk.
  { apply valid_hex_encode. unfold KeyIDOf. apply forallb_forall. intros c Hc. pose proof (sha256_bytes pub) as Hb. rewrite forallb_forall in Hb.
    apply Hb. rewrite <- (take_drop 8 (sha256 pub)), in_app_iff. by left. }
  apply wf_members; [concrete_keys|each_key|]. pose proof (wireTime_valid _ Hy). pose proof (wireTime_valid _ Hy'). each_value.
Qed.

(** Roundtrip. A signed announcement is read back by everyone, under the
    key that signed it and no other, until its lifetime ends; after that it is
    refused as expired, the one refusal a replay causes. *)
Theorem announcement_reads_back priv pub created raw identity now :
  length priv = 64%nat → forallb is_byte pub = true → in_years created → in_years (created / second * second + AnnouncementLifetime) →
  SignAnnouncement (ed25519_Public priv) (λ m, Some (ed25519_Sign priv m)) pub created = Some raw →
  created / second * second ≤ now + MaxSkew →
  let t := created / second * second in
  ParseAnnouncement raw identity now =
    if bool_decide (identity = b64_encode (ed25519_Public priv)) then
      if now <? t + AnnouncementLifetime then Ok (MkAnn identity (KeyIDOf pub) pub t (t + AnnouncementLifetime), raw) else Err (AnnExpired true)
    else Err AnnBad.
Proof.
  intros Hl Hpub Hy Hy' Hs Hskew t. destruct (sl_public _ Hl) as [Hpl Hpb]. unfold SignAnnouncement in Hs.
  destruct (negb (zlen (ed25519_Public priv) =? 32)); [done|]. destruct (zlen pub =? encLen) eqn:Elen; cbn [negb] in Hs; [|done]. cbv zeta in Hs.
  set (ann := ann_value (ed25519_Public priv) pub created) in *. pose proof (wf_ann _ _ _ Hpb Hpub Hy Hy') as Hwa. fold ann in Hwa.
  destruct (CanonicalValue (VObject ann)) as [canon|] eqn:Ec; [|done]. rewrite some_bind in Hs. set (sig := ed25519_Sign priv (annTag ++ canon)) in *.
  destruct (sl_sign _ (annTag ++ canon) Hl) as [Hsl Hsb]. fold sig in Hsl, Hsb.
  change [(bytes_of "announcement", VObject ann); (bytes_of "signature", VString (b64_encode sig))] with (signed_ann (ed25519_Public priv) sig pub created) in Hs.
  destruct (CanonicalValue (VObject (signed_ann _ _ _ _))) as [c|] eqn:Ect; [|done]. injection Hs as ->.
  assert (wf (VObject (signed_ann (ed25519_Public priv) sig pub created)) = true) as Hws.
  { apply wf_members; [concrete_keys|each_key|each_value]. }
  destruct (canonical_reads _ _ Hws Ect) as (top & Hpp & Hnt & Hr). pose proof Hwa as [Hda _]%wf_object. destruct (norm_reads_as ann Hda) as (gen & Hgn & Hgr).
  assert (CanonicalValue (VObject gen) = Ok canon) as Hcg by (rewrite <- Hgn; unfold CanonicalValue; by rewrite canonicalize_norm).
  assert (CanonicalValue (VObject top) = Ok raw) as Hct by (rewrite <- Hnt; unfold CanonicalValue; by rewrite canonicalize_norm).
  assert (obj_member "announcement" top = Some gen) as Hann by exact (reads_obj "announcement" _ _ ann gen Hr eq_refl Hgn).
  assert (parseTime (member (bytes_of "created") gen) = Some t) as Et1.
  { rewrite (reads_time _ _ _ Hgr). change (member (bytes_of "created") ann) with (Some (VString (wireTime created))). by apply decode_wireTime. }
  assert (parseTime (member (bytes_of "not_after") gen) = Some (t + AnnouncementLifetime)) as Et2.
  { rewrite (reads_time _ _ _ Hgr). change (member (bytes_of "not_after") ann) with (Some (VString (wireTime (created / second * second + AnnouncementLifetime)))).
    by apply wireTime_plus. }
  assert (∀ k s, member (bytes_of k) ann = Some (VString s) → str_member k gen = Some s) as Hstr.
  { intros k s E. rewrite (reads_str _ _ _ Hgr). unfold str_member. by rewrite E. }
  unfold ParseAnnouncement. rewrite Hpp. cbn [get rbind]. unfold verifyAnnouncement. rewrite (proj1 Hr). cbn [length signed_ann Nat.eqb get rbind].
  rewrite Hann, (reads_str "signature" _ _ Hr). change (str_member "signature" (signed_ann _ sig _ _)) with (Some (b64_encode sig)). cbn [get rbind].
  rewrite (Hstr "identity" _ eq_refl). cbn [from_option id]. destruct (decide (identity = b64_encode (ed25519_Public priv))) as [->|Hne].
  2: { rewrite !bool_decide_eq_false_2 by congruence. done. }
  rewrite !bool_decide_eq_true_2 by done. rewrite decodeKey_encode by done. cbn [get rbind]. rewrite b64_round by done. cbn [get rbind].
  unfold zlen at 1. rewrite Hsl. change (Z.of_nat 64 =? 64) with true. cbv iota. rewrite Hcg. cbn [get rbind]. assert (ed25519_Verify (ed25519_Public priv) (annTag ++ canon) sig = true) as -> by (by apply sl_verify). rewrite (proj1 Hgr). cbn [length ann ann_value Nat.eqb].
  rewrite (reads_num "v" _ _ Hgr). change (num_member "v" ann) with (Some (bytes_of "1")). rewrite bool_decide_eq_true_2 by done.
  rewrite (Hstr "pub" _ eq_refl), (Hstr "key_id" _ eq_refl). cbn [from_option id]. rewrite b64_round by done. cbn [get rbind]. rewrite Elen, bool_decide_eq_true_2 by done.
  rewrite Et1, Et2. cbn [get rbind]. unfold AnnouncementLifetime, day, hour in *. 
  assert ((now + MaxSkew <? t) || negb (t <? t + 14 * (24 * (3600 * second))) || (t + 30 * (24 * (3600 * second)) <? t + 14 * (24 * (3600 * second))) = false) as ->.
  { unfold second in *. apply orb_false_iff. rewrite orb_false_iff, negb_false_iff. rewrite !Z.ltb_ge, Z.ltb_lt. unfold t in *. lia. }
  cbn [orb negb]. destruct (now <? _); [|done]. cbn [negb rbind]. rewrite Hct. cbn [get rbind from_option id]. done.
Qed.

End Laws.

(** ** A concrete mail *)

#[local] Existing Instance demo_crypto.
#[local] Existing Instance demo_sign_laws.
(** Not a secure HPKE: the plaintext and a checksum. *)
Definition demo_tag (pk info aad p : bytes) : bytes := repeat (checksum (pk ++ info ++ aad ++ p)) 16.
#[local] Instance demo_hpke : Hpke := {|
  hpke_Seal := λ pk info aad p _, Some (repeat 0 32, p ++ demo_tag pk info aad p);
  hpke_Open := λ sk _ info aad ct, let p := take (length ct - 16) ct in
    if bool_decide (drop (length ct - 16) ct = demo_tag sk info aad p) then Some p else None;
|}.
#[local] Instance demo_hpke_laws : HpkeLaws.
Proof.
  refine {| mailbox_public := λ sk, sk |}.
  - intros sk info aad p r enc ct [= <- <-]. cbn [hpke_Open demo_hpke]. rewrite length_app.
    assert (∀ c : Z, length p + length (repeat c 16) - 16 = length p)%nat as Hl by (intros c; rewrite repeat_length; lia). unfold demo_tag. rewrite Hl.
    rewrite take_app_length, drop_app_length. by rewrite bool_decide_eq_true_2.
  - intros pk info aad p r enc ct [= <- <-]. split; [done|]. unfold zlen, demo_tag. rewrite length_app, repeat_length. unfold tagLen. lia.
  - intros m. apply repeat_length.
Defined.

Definition mail_priv : bytes := repeat 7 64.
Definition mail_self : bytes := b64_encode (demo_public (repeat 9 64)).
Definition mail_box : bytes := repeat 5 32.
Definition mail_box2 : bytes := 1 :: repeat 6 31.
Definition mail_now : Z := 1790000000 * second.
Definition mail_in : SealInput :=
  MkSeal mail_priv mail_self mail_box [] (bytes_of "note") (Some (jq "{'text':'hi'}")) mail_now (repeat 1 16, []).
Definition mail_sl : Sealed := match Seal mail_in with Ok sl => sl | Err _ => MkSealed [] [] [] [] end.
Definition mail_sl2 : Sealed :=
  match Reseal (sl_Signed mail_sl) (sender mail_in) mail_self mail_box2 [] with Ok sl => sl | Err _ => mail_sl end.
Definition mail_opener : Opener :=
  MkOpener mail_self (λ k, bool_decide (k = sender mail_in)) (λ k, List.find (λ sk, bool_decide (KeyIDOf sk = k)) [mail_box; mail_box2]).
Definition mail_env : Envelope := MkEnv (sender mail_in) (in_To mail_in) (bytes_of "mail") (sl_ID mail_sl) [] (sl_Payload mail_sl2).
Definition mail_opened : Opened :=
  MkOpened (MkMsg 1 (sl_ID mail_sl) (sender mail_in) mail_self mail_now (bytes_of "note") [(bytes_of "text", VString (bytes_of "hi"))])
    (sl_Signed mail_sl) (KeyIDOf mail_box2).

Lemma mail_checks : Seal mail_in = Ok mail_sl ∧ Reseal (sl_Signed mail_sl) (sender mail_in) (in_To mail_in) (mailbox_public mail_box2) [] = Ok mail_sl2 ∧
  IsPaired mail_opener (sender mail_in) = true ∧ MailboxKey mail_opener (KeyIDOf (mailbox_public mail_box2)) = Some mail_box2.
Proof. split_and!; vm_compute; reflexivity. Qed.
Lemma mail_times : in_years mail_now ∧ mail_now + 60 * second - MaxAge ≤ mail_now / second * second ≤ mail_now + 60 * second + MaxSkew.
Proof. split; [vm_compute; split; discriminate|]. vm_compute. split; discriminate. Qed.
Lemma mail_kind : in_Kind mail_in ≠ kind_ack ∧ in_Kind mail_in ≠ kind_keys.
Proof. split; discriminate. Qed.
Lemma sealed_mail_opens_witness : is_ok (open mail_opener mail_env (mail_now + 60 * second)) = true.
Proof.
  destruct mail_checks as (C1 & C2 & C3 & C4). destruct mail_times as [T1 T2]. destruct mail_kind as [K1 K2].
  assert (∃ r, Reseal (sl_Signed mail_sl) (sender mail_in) (in_To mail_in) (mailbox_public mail_box2) r = Ok mail_sl2) as Hr by (exists []; exact C2).
  destruct (sealed_mail_opens mail_in mail_sl mail_sl2 mail_opener mail_box2 (bytes_of "mail") [] (mail_now + 60 * second)
    C1 T1 (or_intror Hr) C3 C4 eq_refl T2 K1 K2) as (b & b' & _ & _ & Ho).
  unfold mail_env. rewrite Ho. reflexivity.
Defined.
Definition mail_sent : SealInput := with_ID (sl_ID mail_sl) mail_in.
Definition mail_body : body := [(bytes_of "text", VString (bytes_of "hi"))].
Lemma opened_mail_authentic_witness : in_To mail_sent = Self mail_opener.
Proof.
  destruct (opened_mail_authentic mail_opener mail_env (mail_now + 60 * second) mail_opened
    (λ m, signed_bytes mail_sent mail_body = Some m) [mail_sent]) as (i & b & Hi & _ & _ & Hto & _).
  - vm_compute; reflexivity.
  - constructor; [|constructor]. vm_compute. split; [split; discriminate|done].
  - intros gen sig key canon Hp Hc _ _. vm_compute in Hp. injection Hp as <- _. vm_compute in Hc. injection Hc as <-. vm_compute. reflexivity.
  - intros m Hm. exists mail_sent, mail_body. split; [by left|]. split; [vm_compute; reflexivity|]. split; [vm_compute; reflexivity|exact Hm].
  - apply list_elem_of_singleton in Hi as ->. exact Hto.
Defined.

Definition mail_ann : bytes := default [] (SignAnnouncement (demo_public mail_priv) (λ m, Some (ed25519_Sign mail_priv m)) mail_box mail_now).
Lemma announcement_reads_back_witness :
  ParseAnnouncement mail_ann (sender mail_in) (mail_now + day) =
    Ok (MkAnn (sender mail_in) (KeyIDOf mail_box) mail_box mail_now (mail_now + AnnouncementLifetime), mail_ann) ∧
  ParseAnnouncement mail_ann (sender mail_in) (mail_now + 14 * day) = Err (AnnExpired true).
Proof.
  split.
  - refine (announcement_reads_back mail_priv mail_box mail_now mail_ann (sender mail_in) (mail_now + day) eq_refl eq_refl
      ltac:(vm_compute; split; discriminate) ltac:(vm_compute; split; discriminate) ltac:(vm_compute; reflexivity) ltac:(vm_compute; discriminate)).
  - refine (announcement_reads_back mail_priv mail_box mail_now mail_ann (sender mail_in) (mail_now + 14 * day) eq_refl eq_refl
      ltac:(vm_compute; split; discriminate) ltac:(vm_compute; split; discriminate) ltac:(vm_compute; reflexivity) ltac:(vm_compute; discriminate)).
Defined.
