(* ===== verification/MailReceiver.v ===== *)
(** * The mail receiver (internal/mail/receiver.go)

    A verified mail is deduplicated and applied in one transaction; a refused
    body is recorded in a second one, after the first was rolled back, so
    another delivery of the same mail may run between the two. The ack is
    sent after the commit. mail_seen is pruned by a clock that the peers'
    signed times bound.

    [X] is the rest of the database, which the kinds' Apply functions change.
    Everything a call does outside the database is an [event], in order. A
    database call that fails is chosen by [fault], per call. The clock is read
    where the code reads it: for the age limit and for the stored times. *)

From S2P Require Import Prelude Utf8 Canonical Strconv WireTime Body RequestObject Signing MailMessage.
From stdpp Require Import gmap.

Open Scope Z_scope.
Open Scope go_scope.

Definition SeenRetention : Z := 35 * day.
Definition ReceiveMaxAge : Z := 14 * day.
Definition maxFailLogged : nat := 4096.
Definition badBodyMark : bytes := bytes_of "!bad_body".

(** One row of mail_seen (primary key from_key, id) and of mail_inbox, whose
    column signed is always empty. *)
Record seen_row := SeenRow { sn_from : bytes; sn_id : bytes; sn_at : bytes }.
Record inbox_row := InboxRow { ib_from : bytes; ib_id : bytes; ib_kind : bytes; ib_created : bytes; ib_at : bytes }.

(** The named steps of the transactions. *)
Inductive stage := StageBegin | StageSeen | StageReadSeen | StageReadInbox | StageApply | StageInbox | StageCommit | StageBadBody.
#[export] Instance stage_eq_dec : EqDecision stage.
Proof. solve_decision. Defined.

Inductive apply_error := ApplyBadBody | ApplyLimit | ApplyOther.
Inductive seenResult := seenNew | seenDup | seenBad | seenDupBad | seenLimit.
#[export] Instance seenResult_eq_dec : EqDecision seenResult.
Proof. solve_decision. Defined.

Section Receiver.
Context {X : Type}.

Record mail_db := MailDb { mail_seen : list seen_row; mail_inbox : list inbox_row; app_tables : X }.
(** After is an event of its own; [has_After] is whether there is one. *)
Record kind_handler := MkKind { k_Inbox : bool; k_Apply : option (Opened → X → result apply_error X); has_After : bool }.

Inductive event :=
| EKeyMiss (env : Envelope)                       (* OnKeyMiss *)
| EOnAck (op : Opened)
| EReport (peer id : bytes) (e : RejectError)     (* RejectAudit.Report *)
| EAudit (peer id kind : bytes)                   (* mail.in *)
| EAfter (op : Opened)
| EAck (peer id member : bytes)                   (* the receiver's ack *)
| EFailed (peer id kind : bytes) (s : stage).     (* mail_receive_failed *)

(** What is left of a Handle whose Apply refused the body: storeBad. *)
Record bad_pending := BadPending { bp_op : Opened; bp_at : bytes; bp_as : seenResult }.

Context (kinds : bytes → option kind_handler).

Definition same_seen (from id : bytes) (r : seen_row) : bool := bool_decide (sn_from r = from) && bool_decide (sn_id r = id).
Definition find_seen (from id : bytes) (db : mail_db) : option seen_row := List.find (same_seen from id) (mail_seen db).
Definition insert_seen (r : seen_row) (db : mail_db) : mail_db := MailDb (mail_seen db ++ [r]) (mail_inbox db) (app_tables db).
Definition in_inbox (from id : bytes) (db : mail_db) : bool :=
  existsb (λ r, bool_decide (ib_from r = from) && bool_decide (ib_id r = id)) (mail_inbox db).
Definition insert_inbox (r : inbox_row) (db : mail_db) : mail_db := MailDb (mail_seen db) (mail_inbox db ++ [r]) (app_tables db).

Definition seenStamp (now created : Z) : bytes :=
  let limit := created + MaxSkew in
  storeTime (if limit <? now then limit else now).

Definition has_suffix (suf s : bytes) : bool := bool_decide (drop (length s - length suf) s = suf).
Definition trim_suffix (suf s : bytes) : bytes := if has_suffix suf s then take (length s - length suf) s else s.

Definition seenAs (fault : stage → bool) (r : seen_row) : result stage seenResult :=
  if fault StageReadSeen then Err StageReadSeen
  else Ok (if has_suffix badBodyMark (sn_at r) then seenDupBad else seenDup).

(** The end of the transaction: the commit, and before it the inbox row of a
    known kind that keeps one. *)
Definition commit_store (fault : stage → bool) (db db2 : mail_db) : (result stage seenResult + bad_pending) * mail_db :=
  if fault StageCommit then (inl (Err StageCommit), db) else (inl (Ok seenNew), db2).
Definition store_applied (fault : stage → bool) (at_ : bytes) (op : Opened) (k : kind_handler) (db db2 : mail_db) :
    (result stage seenResult + bad_pending) * mail_db :=
  let msg := op_Msg op in
  if k_Inbox k then
    if fault StageInbox then (inl (Err StageInbox), db)
    else commit_store fault db (insert_inbox (InboxRow (From msg) (ID msg) (Kind msg) (wireTime (Created msg)) at_) db2)
  else commit_store fault db db2.

(** The dedupe transaction: its result, or the storeBad that follows it; the
    database changes only when it commits. *)
Definition store (fault : stage → bool) (now : Z) (op : Opened) (db : mail_db) : (result stage seenResult + bad_pending) * mail_db :=
  let msg := op_Msg op in
  let at_ := storeTime now in
  let seenAt := seenStamp now (Created msg) in
  let fails s := (inl (Err s), db) in
  if fault StageBegin then fails StageBegin else
  if fault StageSeen then fails StageSeen else
  match find_seen (From msg) (ID msg) db with
  | Some r => (inl (seenAs fault r), db)
  | None =>
      let db1 := insert_seen (SeenRow (From msg) (ID msg) seenAt) db in
      if fault StageReadInbox then fails StageReadInbox else
      if in_inbox (From msg) (ID msg) db then (inl (Ok seenDup), db) else
      match kinds (Kind msg) with
      | None => commit_store fault db db1
      | Some k =>
          match match k_Apply k with Some apply => apply op (app_tables db1) | None => Ok (app_tables db1) end with
          | Err ApplyBadBody => (inr (BadPending op seenAt seenBad), db)
          | Err ApplyLimit => (inr (BadPending op seenAt seenLimit), db)
          | Err ApplyOther => fails StageApply
          | Ok x => store_applied fault at_ op k db (MailDb (mail_seen db1) (mail_inbox db1) x)
          end
      end
  end.

(** The second transaction of a refused body. *)
Definition storeBad (fault : stage → bool) (p : bad_pending) (db : mail_db) : result stage seenResult * mail_db :=
  let msg := op_Msg (bp_op p) in
  if fault StageBegin then (Err StageBegin, db) else
  if fault StageBadBody then (Err StageBadBody, db) else
  match find_seen (From msg) (ID msg) db with
  | Some r => (seenAs fault r, db)
  | None =>
      if fault StageCommit then (Err StageCommit, db)
      else (Ok (bp_as p), insert_seen (SeenRow (From msg) (ID msg) (bp_at p ++ badBodyMark)) db)
  end.

(** logFailure: each (from, id) once; the set starts over at its bound. *)
Definition logFailure (op : Opened) (known : bool) (s : stage) (logged : gset (bytes * bytes)) : gset (bytes * bytes) * list event :=
  let key := (From (op_Msg op), ID (op_Msg op)) in
  if bool_decide (key ∈ logged) then (logged, [])
  else let logged := if (maxFailLogged <=? size logged)%nat then ∅ else logged in
       ({[ key ]} ∪ logged, [EFailed key.1 key.2 (if known then Kind (op_Msg op) else bytes_of "unknown") s]).

(** What Handle does once the row is settled: a refusal is reported and acked
    as rejected; otherwise the audit row and After, unless it is a duplicate,
    and the ack. *)
Definition refused_reason (r : seenResult) : option reject_reason :=
  match r with
  | seenBad | seenDupBad => Some ReasonBadBody
  | seenLimit => Some ReasonLimit
  | _ => None
  end.
Definition settle (op : Opened) (res : result stage seenResult) (logged : gset (bytes * bytes)) : gset (bytes * bytes) * list event :=
  let msg := op_Msg op in
  let known := bool_decide (is_Some (kinds (Kind msg))) in
  match res with
  | Err s => logFailure op known s logged
  | Ok r =>
      (logged,
       match refused_reason r with
       | Some reason =>
           (if bool_decide (r = seenDupBad) then [] else [EReport (From msg) (ID msg) (Reject 11 reason false)]) ++
           [EAck (From msg) (ID msg) AckRejected]
       | None =>
           let dup := bool_decide (r = seenDup) in
           (if negb dup && negb (bool_decide (Kind msg = kind_keys))
            then [EAudit (From msg) (ID msg) (if known then Kind msg else bytes_of "unknown")] else []) ++
           (if negb dup && match kinds (Kind msg) with Some k => has_After k | None => false end then [EAfter op] else []) ++
           [EAck (From msg) (ID msg) (if known then AckIDs else AckUnsupported)]
       end)
  end.

(** Handle on an opened mail, up to a storeBad that is still to run. *)
Record handled := Handled { h_db : mail_db; h_logged : gset (bytes * bytes); h_events : list event; h_bad : option bad_pending }.
Definition handle_opened (fault : stage → bool) (t_age t_store : Z) (op : Opened) (db : mail_db) (logged : gset (bytes * bytes)) : handled :=
  let msg := op_Msg op in
  if bool_decide (Kind msg = kind_ack) then Handled db logged [EOnAck op] None else
  if bool_decide (Kind msg = kind_keys) && negb (bool_decide (is_Some (kinds (Kind msg)))) then Handled db logged [] None else
  if negb (bool_decide (Kind msg = kind_keys)) && (ReceiveMaxAge <? Sub t_age (Created msg)) then
    Handled db logged [EReport (From msg) (ID msg) (Reject 11 ReasonStale false); EAck (From msg) (ID msg) AckRejected] None
  else
    match store fault t_store op db with
    | (inl res, db) => let '(logged, evs) := settle op res logged in Handled db logged evs None
    | (inr p, db) => Handled db logged [] (Some p)
    end.
Definition handle_bad (fault : stage → bool) (p : bad_pending) (db : mail_db) (logged : gset (bytes * bytes)) : handled :=
  let '(res, db) := storeBad fault p db in
  let '(logged, evs) := settle (bp_op p) res logged in
  Handled db logged evs None.

(** Handle without another delivery in between. *)
Definition Handle `{Crypto} `{Hpke} (o : Opener) (fault fault2 : stage → bool) (t_open t_age t_store : Z) (env : Envelope)
    (db : mail_db) (logged : gset (bytes * bytes)) : handled :=
  match open o env t_open with
  | Err e =>
      Handled db logged (EReport (env_From env) (env_ID env) e :: if bool_decide (Reason e = ReasonKeyMiss) then [EKeyMiss env] else []) None
  | Ok op =>
      let h := handle_opened fault t_age t_store op db logged in
      match h_bad h with
      | None => h
      | Some p => handle_bad fault2 p (h_db h) (h_logged h)
      end
  end.

(** ** Pruning *)

Fixpoint newest_seen (l : list seen_row) : option bytes :=
  match l with
  | [] => None
  | r :: l => match newest_seen l with
              | None => Some (sn_at r)
              | Some m => Some (if text_lt m (sn_at r) then sn_at r else m)
              end
  end.
Definition SeenBasis (now : Z) (db : mail_db) : option Z :=
  option_map (λ newest, match parse_store (trim_suffix badBodyMark newest) with
                        | Some t => if t <? now then t else now
                        | None => now
                        end) (newest_seen (mail_seen db)).
Definition SeenCutoff (now : Z) (db : mail_db) : bytes :=
  match SeenBasis now db with Some basis => storeTime (basis - SeenRetention) | None => [] end.
Definition Prune (now : Z) (db : mail_db) : mail_db :=
  let cut := SeenCutoff now db in
  MailDb (List.filter (λ r, negb (text_lt (sn_at r) cut)) (mail_seen db)) (mail_inbox db) (app_tables db).

End Receiver.
Arguments mail_db : clear implicits.
Arguments kind_handler : clear implicits.
Arguments handled : clear implicits.

(** ** The ack (Receiver.ack) *)

Inductive ack_failure := NoMailboxKey | SealFailed.
Definition ack_body (member id : bytes) : bytes := jq "{'" ++ member ++ jq "':['" ++ id ++ jq "']}".

(** The envelope the receiver sends for one id; [priv] is what Priv returns,
    [pub] the peer's newest mailbox key. *)
Definition ack_mail `{Crypto} `{Hpke} (priv : option bytes) (pub : option bytes) (peer id member : bytes) (t_seal t_env : Z) (rnd : bytes * bytes) :
    result ack_failure Envelope :=
  match pub with
  | None => Err NoMailboxKey
  | Some pub =>
      match priv with
      | None => Err SealFailed
      | Some priv =>
          match Seal (MkSeal priv peer pub [] kind_ack (Some (ack_body member id)) t_seal rnd) with
          | Err _ => Err SealFailed
          | Ok sl => Ok (MkEnv (b64_encode (ed25519_Public priv)) peer (bytes_of "mail") (sl_ID sl) (wireTime t_env) (sl_Payload sl))
          end
      end
  end.
