(* ===== verification/MailReceived.v ===== *)
(** * The mail receiver: runs and what holds in them

    A run interleaves deliveries in any order and any number of copies, the
    second transactions of refused bodies, prunes and restarts, with failing
    database calls. The clock assumptions are those of the prune: against a
    true time that only advances, a sender's clock is at most a day ahead when
    it signs, and the local clock at most a day behind when it is read; the
    local clock may run ahead by any amount and be set back. *)

From S2P Require Import Prelude Utf8 Canonical Strconv WireTime Body RequestObject Signing MailMessage MailOpen MailReceiver.
From stdpp Require Import gmap.

Open Scope Z_scope.

(** What was recorded of a mail when its row was committed. *)
Inductive verdict := VApplied | VUnsupported | VRefused.
#[export] Instance verdict_eq_dec : EqDecision verdict.
Proof. solve_decision. Defined.

Section Runs.
Context {X : Type} `{Crypto} `{Hpke}.
Context (kinds : bytes → option (kind_handler X)) (x0 : X).

(** The receiver's state, with what it has decided so far, the true time (also
    of each refused body's delivery) and the deliveries that opened, each with
    the clock reading of the age limit, which only the properties mention. *)
Record rx := Rx {
  rx_db : mail_db X; rx_logged : gset (bytes * bytes); rx_pending : list (bad_pending * Z);
  rx_events : list event; rx_decided : list (Opened * verdict); rx_true : Z; rx_opened : list (Opened * Z);
}.

Inductive rop :=
| RDeliver (o : Opener) (env : Envelope) (fault : stage → bool) (t_open t_age t_store : Z)
| RStoreBad (n : nat) (fault : stage → bool)
| RPrune (t : Z)
| RRestart.

(** What the transaction of a delivery decided. *)
Definition store_verdict (op : Opened) (r : result stage seenResult + bad_pending) : list (Opened * verdict) :=
  match r with
  | inl (Ok seenNew) => [(op, if bool_decide (is_Some (kinds (Kind (op_Msg op)))) then VApplied else VUnsupported)]
  | _ => []
  end.
Definition bad_verdict (p : bad_pending) (r : result stage seenResult) : list (Opened * verdict) :=
  match r with Ok seenBad | Ok seenLimit => [(bp_op p, VRefused)] | _ => [] end.
(** Whether a delivery reaches the dedupe transaction. *)
Definition stored_kind (t_age : Z) (op : Opened) : bool :=
  let k := Kind (op_Msg op) in
  negb (bool_decide (k = kind_ack)) && negb (bool_decide (k = kind_keys) && negb (bool_decide (is_Some (kinds k)))) &&
  negb (negb (bool_decide (k = kind_keys)) && (ReceiveMaxAge <? Sub t_age (Created (op_Msg op)))).

Definition rexec (r : rop) (τ : Z) (s : rx) : rx :=
  match r with
  | RDeliver o env fault t_open t_age t_store =>
      match open o env t_open with
      | Err e =>
          Rx (rx_db s) (rx_logged s) (rx_pending s)
            (rx_events s ++ EReport (env_From env) (env_ID env) e :: (if bool_decide (Reason e = ReasonKeyMiss) then [EKeyMiss env] else []))
            (rx_decided s) τ (rx_opened s)
      | Ok op =>
          let h := handle_opened kinds fault t_age t_store op (rx_db s) (rx_logged s) in
          Rx (h_db h) (h_logged h) (rx_pending s ++ map (λ p, (p, τ)) (option_list (h_bad h))) (rx_events s ++ h_events h)
            (rx_decided s ++ if stored_kind t_age op then store_verdict op (store kinds fault t_store op (rx_db s)).1 else []) τ (rx_opened s ++ [(op, t_age)])
      end
  | RStoreBad n fault =>
      match rx_pending s !! n with
      | None => s
      | Some (p, _) =>
          let h := handle_bad kinds fault p (rx_db s) (rx_logged s) in
          Rx (h_db h) (h_logged h) (delete n (rx_pending s)) (rx_events s ++ h_events h)
            (rx_decided s ++ bad_verdict p (storeBad fault p (rx_db s)).1) τ (rx_opened s)
      end
  | RPrune t => Rx (Prune t (rx_db s)) (rx_logged s) (rx_pending s) (rx_events s) (rx_decided s) τ (rx_opened s)
  | RRestart => Rx (rx_db s) ∅ [] (rx_events s) (rx_decided s) τ (rx_opened s)
  end.

(** The clock at a reading, and of a sender. *)
Definition reading_ok (τ t : Z) : Prop := in_years t ∧ τ - day ≤ t ∧ 0 ≤ t.
(** A storeBad runs within an hour of its delivery. *)
Definition rop_ok (r : rop) (τ : Z) (s : rx) : Prop :=
  match r with
  | RDeliver o env _ t_open t_age t_store =>
      reading_ok τ t_open ∧ reading_ok τ t_age ∧ reading_ok τ t_store ∧
      ∀ op, open o env t_open = Ok op → Created (op_Msg op) ≤ τ + day
  | RStoreBad n _ => ∀ p τ', rx_pending s !! n = Some (p, τ') → τ ≤ τ' + hour
  | RPrune t => reading_ok τ t
  | RRestart => True
  end.

Inductive rreach : rx → Prop :=
| rreach_init τ : rreach (Rx (MailDb [] [] x0) ∅ [] [] [] τ [])
| rreach_step s r τ : rreach s → rx_true s ≤ τ → rop_ok r τ s → rreach (rexec r τ s).

(** A mail is its sender, id and signed time. *)
Definition mail_key (op : Opened) : bytes * bytes * Z := (From (op_Msg op), ID (op_Msg op), Created (op_Msg op)).
Definition row_key (op : Opened) : bytes * bytes := (From (op_Msg op), ID (op_Msg op)).

(** Apply, as the committed transactions run it. *)
Definition apply_effect (x : X) (d : Opened * verdict) : X :=
  match d.2, kinds (Kind (op_Msg d.1)) with
  | VApplied, Some k =>
      match k_Apply k with
      | Some f => match f d.1 x with Ok x' => x' | Err _ => x end
      | None => x
      end
  | _, _ => x
  end.

(** ** Stamps *)

Definition stamp_of (now created : Z) : Z := if created + MaxSkew <? now then created + MaxSkew else now.
Lemma seenStamp_of now created : seenStamp now created = storeTime (stamp_of now created).
Proof. unfold seenStamp, stamp_of. by destruct (_ <? _). Qed.

(** The time a row's text carries, with or without the mark. *)
Inductive stamped (a : bytes) (t : Z) : Prop :=
| stamped_plain : a = storeTime t → stamped a t
| stamped_bad : a = storeTime t ++ badBodyMark → stamped a t.

(** A mail this old is stale for every step 11 to come. *)
Definition too_old (τ c : Z) : Prop := c + 31 * day + hour < τ.

Lemma text_lt_prefix a x b : text_lt (a ++ x) b = true → text_lt a b = true.
Proof.
  revert b. induction a as [|c a IH]; intros [|d b]; cbn [app]; try done; [by destruct x|].
  cbn [text_lt]. destruct (c =? d); [apply IH|done].
Qed.
Lemma storeTime_last t : last (storeTime t) = Some 0x5A.
Proof. unfold storeTime. rewrite (app_comm_cons (pad 3 _)), (app_assoc (format_secs _)). apply last_snoc. Qed.
Lemma storeTime_unmarked t : has_suffix badBodyMark (storeTime t) = false.
Proof.
  unfold has_suffix. apply bool_decide_eq_false. intros E. pose proof (storeTime_last t) as Hl.
  rewrite <- (take_drop (length (storeTime t) - length badBodyMark) (storeTime t)), E in Hl. by rewrite last_app in Hl.
Qed.
Lemma marked_suffix a : has_suffix badBodyMark (a ++ badBodyMark) = true.
Proof.
  unfold has_suffix. apply bool_decide_eq_true. rewrite length_app.
  assert (length a + length badBodyMark - length badBodyMark = length a)%nat as -> by lia. apply drop_app_length.
Qed.
Lemma trim_stamped a t : stamped a t → trim_suffix badBodyMark a = storeTime t.
Proof.
  intros [->| ->]; unfold trim_suffix; [by rewrite storeTime_unmarked|]. rewrite marked_suffix, length_app.
  assert (length (storeTime t) + length badBodyMark - length badBodyMark = length (storeTime t))%nat as -> by lia. apply take_app_length.
Qed.

(** ** The invariant *)

(** The bounds of a row's stamp. *)
Definition stamp_ok (τ t : Z) : Prop := in_years t ∧ - (31 * day) ≤ t ∧ t ≤ τ + day + MaxSkew.
(** The row of a decided mail. *)
Definition row_of (d : Opened * verdict) (r : seen_row) : Prop :=
  (sn_from r, sn_id r) = row_key d.1 ∧ ∃ t, stamped (sn_at r) t ∧ in_years t ∧ Created (op_Msg d.1) - 2 * day ≤ t.
Definition decided_here (s : rx) (from id : bytes) (P : verdict → Prop) : Prop :=
  ∃ op v, (op, v) ∈ rx_decided s ∧ row_key op = (from, id) ∧ P v.

Record rinv (s : rx) : Prop := {
  ri_rows : ∀ r, r ∈ mail_seen (rx_db s) → ∃ t, stamped (sn_at r) t ∧ stamp_ok (rx_true s) t;
  ri_marked : ∀ r, r ∈ mail_seen (rx_db s) →
    decided_here s (sn_from r) (sn_id r) (λ v, has_suffix badBodyMark (sn_at r) = bool_decide (v = VRefused));
  ri_inbox : ∀ r, r ∈ mail_inbox (rx_db s) → decided_here s (ib_from r) (ib_id r) (λ v, v = VApplied);
  ri_kept : ∀ d, d ∈ rx_decided s → too_old (rx_true s) (Created (op_Msg d.1)) ∨ ∃ r, r ∈ mail_seen (rx_db s) ∧ row_of d r;
  ri_once : NoDup (map (λ d, mail_key d.1) (rx_decided s));
  ri_app : app_tables (rx_db s) = fold_left apply_effect (rx_decided s) x0;
  ri_pending : ∀ p τ, (p, τ) ∈ rx_pending s → τ ≤ rx_true s ∧ (bp_as p = seenBad ∨ bp_as p = seenLimit) ∧
    τ - 31 * day ≤ Created (op_Msg (bp_op p)) ∧
    ∃ t, bp_at p = storeTime t ∧ stamp_ok τ t ∧ Created (op_Msg (bp_op p)) - 2 * day ≤ t;
}.

Lemma stamp_ok_later τ τ' t : τ ≤ τ' → stamp_ok τ t → stamp_ok τ' t.
Proof. intros Ht (? & ? & ?). split_and!; [done|done|lia]. Qed.
Lemma too_old_later τ τ' c : τ ≤ τ' → too_old τ c → too_old τ' c.
Proof. unfold too_old. lia. Qed.
Lemma later_inv s τ : rinv s → rx_true s ≤ τ → rinv (Rx (rx_db s) (rx_logged s) (rx_pending s) (rx_events s) (rx_decided s) τ (rx_opened s)).
Proof.
  intros I Hτ. split; cbn; [|apply I|apply I| |apply I|apply I|].
  - intros r Hr. destruct (ri_rows _ I r Hr) as (t & ? & ?). exists t. split; [done|]. by eapply stamp_ok_later.
  - intros d Hd. destruct (ri_kept _ I d Hd) as [?|?]; [left; by eapply too_old_later|by right].
  - intros p τ' Hp. destruct (ri_pending _ I p τ' Hp) as (? & ?). split; [lia|done].
Qed.

(** Only the database, what is decided and what is pending matter. *)
Lemma inv_ext s logged evs ops : rinv s → rinv (Rx (rx_db s) logged (rx_pending s) evs (rx_decided s) (rx_true s) ops).
Proof. intros I. split; apply I. Qed.
Lemma set_pending s logged evs l ops : rinv s →
  (∀ p τ, (p, τ) ∈ l → τ ≤ rx_true s ∧ (bp_as p = seenBad ∨ bp_as p = seenLimit) ∧ τ - 31 * day ≤ Created (op_Msg (bp_op p)) ∧
     ∃ t, bp_at p = storeTime t ∧ stamp_ok τ t ∧ Created (op_Msg (bp_op p)) - 2 * day ≤ t) →
  rinv (Rx (rx_db s) logged l evs (rx_decided s) (rx_true s) ops).
Proof. intros I Hl. split; [apply I..|exact Hl]. Qed.

Lemma find_seen_None from id (db : mail_db X) r : find_seen from id db = None → r ∈ mail_seen db → (sn_from r, sn_id r) ≠ (from, id).
Proof.
  unfold find_seen. intros Hf Hr [= E1 E2]. apply list_elem_of_In in Hr. pose proof (List.find_none _ _ Hf r Hr) as Hs.
  unfold same_seen in Hs. by rewrite !bool_decide_eq_true_2 in Hs.
Qed.
Lemma find_seen_Some from id (db : mail_db X) r : find_seen from id db = Some r → r ∈ mail_seen db ∧ sn_from r = from ∧ sn_id r = id.
Proof.
  unfold find_seen. intros Hf. apply List.find_some in Hf as [Hr Hs]. unfold same_seen in Hs. apply andb_true_iff in Hs as [H1 H2]. bprop.
  by rewrite list_elem_of_In.
Qed.
Lemma in_inbox_spec from id (db : mail_db X) : in_inbox from id db = true → ∃ r, r ∈ mail_inbox db ∧ ib_from r = from ∧ ib_id r = id.
Proof.
  unfold in_inbox. intros Hi. apply existsb_exists in Hi as (r & Hr & Hs). apply andb_true_iff in Hs as [H1 H2]. bprop. exists r. by rewrite list_elem_of_In.
Qed.

(** A mail without a row that is not too old is not decided yet. *)
Lemma undecided s op : rinv s → find_seen (From (op_Msg op)) (ID (op_Msg op)) (rx_db s) = None → ¬ too_old (rx_true s) (Created (op_Msg op)) →
  mail_key op ∉ map (λ d, mail_key d.1) (rx_decided s).
Proof.
  intros I Hf Hold Hin. apply list_elem_of_fmap in Hin as (d & E & Hd). unfold mail_key in E. injection E as E1 E2 E3.
  destruct (ri_kept _ I d Hd) as [Ho|(r & Hr & Hk & _)]; [apply Hold; by rewrite E3|].
  apply (find_seen_None _ _ _ _ Hf Hr). unfold row_key in Hk. congruence.
Qed.

(** Recording a decision with its row. *)
Lemma decide_inv s op v at_ t l x : rinv s →
  find_seen (From (op_Msg op)) (ID (op_Msg op)) (rx_db s) = None → ¬ too_old (rx_true s) (Created (op_Msg op)) →
  stamped at_ t → stamp_ok (rx_true s) t → Created (op_Msg op) - 2 * day ≤ t → has_suffix badBodyMark at_ = bool_decide (v = VRefused) →
  (∀ r, r ∈ l → r ∈ mail_inbox (rx_db s) ∨ v = VApplied ∧ (ib_from r, ib_id r) = row_key op) →
  x = apply_effect (app_tables (rx_db s)) (op, v) →
  rinv (Rx (MailDb (mail_seen (rx_db s) ++ [SeenRow (From (op_Msg op)) (ID (op_Msg op)) at_]) l x) (rx_logged s) (rx_pending s) (rx_events s)
    (rx_decided s ++ [(op, v)]) (rx_true s) (rx_opened s)).
Proof.
  intros I Hf Hold Hst Hok Hc Hmark Hl Hx.
  assert (∀ f i P, decided_here s f i P → decided_here (Rx (MailDb (mail_seen (rx_db s) ++ [SeenRow (From (op_Msg op)) (ID (op_Msg op)) at_]) l x) (rx_logged s)
    (rx_pending s) (rx_events s) (rx_decided s ++ [(op, v)]) (rx_true s) (rx_opened s)) f i P) as Hkeep.
  { intros f i P (o' & v' & Hin & Hk & HP). exists o', v'. split; [|done]. cbn. apply elem_of_app. by left. }
  split; cbn.
  - intros r [Hr| ->%list_elem_of_singleton]%elem_of_app; [by apply (ri_rows _ I)|]. by exists t.
  - intros r [Hr| ->%list_elem_of_singleton]%elem_of_app; [by apply Hkeep, (ri_marked _ I)|]. exists op, v. cbn. split; [|done].
    apply elem_of_app. right. by left.
  - intros r Hr. destruct (Hl r Hr) as [Hr'|[-> Hk]]; [by apply Hkeep, (ri_inbox _ I)|]. exists op, VApplied. cbn. split; [|done].
    apply elem_of_app. right. by left.
  - intros d [Hd| ->%list_elem_of_singleton]%elem_of_app.
    + destruct (ri_kept _ I d Hd) as [?|(r & Hr & ?)]; [by left|]. right. exists r. split; [|done]. apply elem_of_app. by left.
    + right. exists (SeenRow (From (op_Msg op)) (ID (op_Msg op)) at_). split; [apply elem_of_app; right; by left|]. split; [done|]. exists t. by destruct Hok.
  - rewrite map_app, NoDup_app. split; [apply I|]. split; [|apply NoDup_singleton].
    intros k Hk ->%list_elem_of_singleton. by apply (undecided _ _ I Hf Hold).
  - rewrite fold_left_app, <- (ri_app _ I). done.
  - apply (ri_pending _ I).
Qed.

(** ** The transactions, case by case *)

Definition new_verdict (op : Opened) : verdict := if bool_decide (is_Some (kinds (Kind (op_Msg op)))) then VApplied else VUnsupported.

Inductive store_case (op : Opened) (t : Z) (db : mail_db X) : result stage seenResult + bad_pending → mail_db X → Prop :=
| sc_failed e : store_case op t db (inl (Err e)) db
| sc_seen r : find_seen (From (op_Msg op)) (ID (op_Msg op)) db = Some r →
    store_case op t db (inl (Ok (if has_suffix badBodyMark (sn_at r) then seenDupBad else seenDup))) db
| sc_inbox : in_inbox (From (op_Msg op)) (ID (op_Msg op)) db = true → store_case op t db (inl (Ok seenDup)) db
| sc_bad w : find_seen (From (op_Msg op)) (ID (op_Msg op)) db = None → w = seenBad ∨ w = seenLimit →
    store_case op t db (inr (BadPending op (seenStamp t (Created (op_Msg op))) w)) db
| sc_new l x : find_seen (From (op_Msg op)) (ID (op_Msg op)) db = None →
    x = apply_effect (app_tables db) (op, new_verdict op) →
    (∀ r, r ∈ l → r ∈ mail_inbox db ∨ new_verdict op = VApplied ∧ (ib_from r, ib_id r) = row_key op) →
    store_case op t db (inl (Ok seenNew))
      (MailDb (mail_seen db ++ [SeenRow (From (op_Msg op)) (ID (op_Msg op)) (seenStamp t (Created (op_Msg op)))]) l x).

Lemma store_cases fault t op (db : mail_db X) : store_case op t db (store kinds fault t op db).1 (store kinds fault t op db).2.
Proof.
  unfold store. set (m := op_Msg op). cbv zeta. destruct (fault StageBegin); [constructor|]. destruct (fault StageSeen); [constructor|].
  destruct (find_seen (From m) (ID m) db) as [r|] eqn:Ef.
  { unfold seenAs. destruct (fault StageReadSeen); [constructor|]. by apply (sc_seen _ _ _ r). }
  destruct (fault StageReadInbox); [constructor|]. destruct (in_inbox _ _ _) eqn:Ei; [by constructor|].
  pose proof (sc_new op t db) as Hnew. unfold apply_effect, new_verdict in Hnew. cbn [fst snd] in Hnew. fold m in Hnew.
  destruct (kinds (Kind m)) as [k|] eqn:Ek.
  2: { unfold commit_store. destruct (fault StageCommit); [constructor|]. rewrite bool_decide_eq_false_2 in Hnew by (by intros []). apply Hnew; [done|done|by left]. }
  rewrite bool_decide_eq_true_2 in Hnew by done. cbn [insert_seen app_tables mail_seen mail_inbox].
  assert (∀ x, x = match k_Apply k with Some f => match f op (app_tables db) with Ok x' => x' | Err _ => app_tables db end | None => app_tables db end →
    let w := store_applied fault (storeTime t) op k db (MailDb (mail_seen db ++ [SeenRow (From m) (ID m) (seenStamp t (Created m))]) (mail_inbox db) x) in
    store_case op t db w.1 w.2) as Hcommit.
  { intros x Hx. unfold store_applied, commit_store. cbv zeta.
    destruct (k_Inbox k); [destruct (fault StageInbox); [constructor|]|]; (destruct (fault StageCommit); [constructor|]); (apply Hnew; [done|done|]); [|by left].
    cbn [insert_inbox mail_inbox]. intros r [Hr| ->%list_elem_of_singleton]%elem_of_app; [by left|by right]. }
  destruct (k_Apply k) as [f|]; [|by apply Hcommit]. destruct (f op (app_tables db)) as [x|[]] eqn:Ea; [by apply Hcommit|..|constructor].
  - constructor; [done|by left].
  - constructor; [done|by right].
Qed.

(** ** The steps keep the invariant *)

Ltac units := unfold too_old, reading_ok, stamp_ok, MaxAge, MaxSkew, SeenRetention, hour, day, minute, hour, second in *.

Lemma years_before : in_years (- (70 * day)).
Proof. vm_compute. split; discriminate. Qed.
Lemma stamp_bounds τ t_open t_store c : reading_ok τ t_open → reading_ok τ t_store → t_open - MaxAge ≤ c → c ≤ τ + day →
  stamp_ok τ (stamp_of t_store c) ∧ c - 2 * day ≤ stamp_of t_store c ∧ ¬ too_old τ c ∧ τ - 31 * day ≤ c.
Proof.
  intros (Hy & H1 & H2) (Hy' & H3 & H4) H5 H6.
  assert (stamp_of t_store c ≤ t_store ∧ stamp_of t_store c ≤ c + MaxSkew ∧ (stamp_of t_store c = t_store ∨ stamp_of t_store c = c + MaxSkew)) as (S1 & S2 & S3).
  { unfold stamp_of. destruct (c + MaxSkew <? t_store) eqn:E; bprop; lia. }
  assert (- (70 * day) ≤ stamp_of t_store c) as Hlow by (units; lia).
  pose proof (in_years_between (- (70 * day)) _ _ years_before Hy' (conj Hlow S1)).
  units. split_and!; try done; lia.
Qed.

Lemma settle_parts op res logged : ∃ l' evs, settle kinds op res logged = (l', evs).
Proof. destruct (settle kinds op res logged) as [l' evs]. by eexists _, _. Qed.

Lemma deliver_inv s o env fault t_open t_age t_store τ : rinv s → rx_true s ≤ τ →
  rop_ok (RDeliver o env fault t_open t_age t_store) τ s → rinv (rexec (RDeliver o env fault t_open t_age t_store) τ s).
Proof.
  intros I Hτ (Ho & Ha & Hs & Hc). cbn [rexec]. pose proof (later_inv s τ I Hτ) as I'.
  destruct (open o env t_open) as [op|e] eqn:Eo; [|by apply (inv_ext _ _ _ _ I')]. destruct (open_ok _ _ _ _ Eo) as [_ [Hw _]]. specialize (Hc op eq_refl).
  destruct (stamp_bounds τ t_open t_store _ Ho Hs Hw Hc) as (B1 & B2 & B3 & B4).
  unfold handle_opened, stored_kind. cbv zeta. destruct (bool_decide (Kind (op_Msg op) = kind_ack)).
  { cbn. rewrite !app_nil_r. by apply (inv_ext _ _ _ _ I'). }
  destruct (bool_decide (Kind (op_Msg op) = kind_keys) && negb _).
  { cbn. rewrite !app_nil_r. by apply (inv_ext _ _ _ _ I'). }
  destruct (negb (bool_decide (Kind (op_Msg op) = kind_keys)) && _).
  { cbn. rewrite !app_nil_r. by apply (inv_ext _ _ _ _ I'). }
  cbn [negb andb]. pose proof (store_cases fault t_store op (rx_db s)) as Hst.
  destruct (store kinds fault t_store op (rx_db s)) as [r db'] eqn:Es. cbn [fst snd] in Hst. destruct r as [res|p].
  - destruct (settle_parts op res (rx_logged s)) as (l' & evs & ->). cbn [h_db h_logged h_events h_bad option_list map]. rewrite app_nil_r.
    inversion Hst; subst; try (cbn [store_verdict]; try (destruct (has_suffix _ _)); rewrite !app_nil_r; by apply (inv_ext _ _ _ _ I')).
    apply (inv_ext (Rx _ (rx_logged s) _ (rx_events s) _ τ (rx_opened s))). apply (decide_inv _ op (new_verdict op) _ _ _ _ I' ltac:(done) B3 (stamped_plain _ _ (seenStamp_of _ _)) B1 B2); [|done..].
    rewrite seenStamp_of, storeTime_unmarked. unfold new_verdict. symmetry. apply bool_decide_eq_false. by destruct (bool_decide _).
  - cbn [h_db h_logged h_events h_bad option_list map store_verdict fst]. rewrite !app_nil_r. inversion Hst; subst.
    apply (set_pending _ _ _ _ _ I'). intros p τ' [Hp|Hp]%elem_of_app; [by apply (ri_pending _ I')|]. apply list_elem_of_singleton in Hp as [= -> ->].
    split_and!; [done|done|done|]. exists (stamp_of t_store (Created (op_Msg op))). split_and!; [apply seenStamp_of|done|done].
Qed.

Lemma storeBad_inv s n fault τ : rinv s → rx_true s ≤ τ → rop_ok (RStoreBad n fault) τ s → rinv (rexec (RStoreBad n fault) τ s).
Proof.
  intros I Hτ Hok. cbn [rexec]. destruct (rx_pending s !! n) as [[p τp]|] eqn:En; [|by apply I]. specialize (Hok p τp En).
  destruct (ri_pending _ I p τp) as (Hp1 & Hp2 & Hp3 & t & Hp4 & Hp5 & Hp6); [by eapply list_elem_of_lookup_2|].
  pose proof (later_inv s τ I Hτ) as I'.
  assert (∀ x, x ∈ delete n (rx_pending s) → x ∈ rx_pending s) as Hsub by (intros x Hx; eapply elem_of_sublist; [exact Hx|apply sublist_delete]).
  pose proof (set_pending _ (rx_logged s) (rx_events s) (delete n (rx_pending s)) (rx_opened s) I' (λ p τ Hp, ri_pending _ I' p τ (Hsub _ Hp))) as I2. cbn [rx_db rx_decided rx_true] in I2.
  assert (∀ l evs, rinv (Rx (rx_db s) l (delete n (rx_pending s)) evs (rx_decided s) τ (rx_opened s))) as Hsame by (intros l evs; apply (inv_ext _ _ _ _ I2)).
  unfold handle_bad, storeBad. cbv zeta. set (m := op_Msg (bp_op p)) in *.
  destruct (fault StageBegin); [cbn; destruct (logFailure _ _ _ _); cbn; rewrite app_nil_r; apply Hsame|].
  destruct (fault StageBadBody); [cbn; destruct (logFailure _ _ _ _); cbn; rewrite app_nil_r; apply Hsame|].
  destruct (find_seen (From m) (ID m) (rx_db s)) as [r|] eqn:Ef.
  { destruct (settle_parts (bp_op p) (seenAs fault r) (rx_logged s)) as (l' & evs & ->). cbn. unfold seenAs. destruct (fault StageReadSeen); cbn; [rewrite app_nil_r; apply Hsame|].
    destruct (has_suffix _ _); cbn; rewrite app_nil_r; apply Hsame. }
  destruct (fault StageCommit); [cbn; destruct (logFailure _ _ _ _); cbn; rewrite app_nil_r; apply Hsame|].
  destruct (settle_parts (bp_op p) (Ok (bp_as p)) (rx_logged s)) as (l' & evs & ->). cbn [h_db h_logged h_events fst].
  assert (bad_verdict p (Ok (bp_as p)) = [(bp_op p, VRefused)]) as -> by (destruct Hp2 as [-> | ->]; done).
  apply (inv_ext (Rx _ (rx_logged s) _ (rx_events s) _ τ (rx_opened s))).
  apply (decide_inv _ (bp_op p) VRefused _ t _ _ I2 Ef); [| | | | |by left|done].
  - unfold m in *. cbn [rx_true]. clear - Hok Hp3. units. lia.
  - rewrite Hp4. by apply stamped_bad.
  - apply (stamp_ok_later τp); [cbn [rx_true]; lia|done].
  - done.
  - by rewrite marked_suffix.
Qed.

Lemma newest_seen_in l m : newest_seen l = Some m → ∃ r, r ∈ l ∧ sn_at r = m.
Proof.
  revert m. induction l as [|r l IH]; cbn [newest_seen]; intros m Hm; [done|]. destruct (newest_seen l) as [m'|].
  - destruct (IH m' eq_refl) as (r' & Hr & E). injection Hm as <-. destruct (text_lt _ _); [exists r; split; [by left|done]|]. exists r'. split; [by right|done].
  - injection Hm as <-. exists r. split; [by left|done].
Qed.

(** The cutoff is at least 35 days before the time some peer's mail allows. *)
Lemma cutoff_bound s t : rinv s → in_years t → 0 ≤ t → mail_seen (rx_db s) ≠ [] →
  ∃ u, SeenCutoff t (rx_db s) = storeTime u ∧ in_years u ∧ u ≤ rx_true s + day + MaxSkew - SeenRetention.
Proof.
  intros I Hy Ht Hne. unfold SeenCutoff, SeenBasis. destruct (newest_seen (mail_seen (rx_db s))) as [m|] eqn:Em.
  2: { destruct (mail_seen (rx_db s)) as [|r l]; [done|]. cbn in Em. by destruct (newest_seen l). }
  apply newest_seen_in in Em as (r & Hr & <-). destruct (ri_rows _ I r Hr) as (t' & Hst & Hy' & Hlow & Hup). cbn [option_map].
  rewrite (trim_stamped _ _ Hst), parse_storeTime by done. set (v := t' / 10 ^ 6 * 10 ^ 6). eexists. split; [done|].
  assert (v ≤ t' ∧ t' - 10 ^ 6 < v) as Hv by (unfold v; zdivmod).
  assert (∀ b, - (32 * day) ≤ b ≤ t → in_years (b - SeenRetention)) as Hys.
  { intros b Hb. apply (in_years_between (- (70 * day)) _ t years_before Hy). units. lia. }
  destruct (v <? t) eqn:E; bprop; (split; [apply Hys|]); units; lia.
Qed.

Lemma prune_inv s t τ : rinv s → rx_true s ≤ τ → rop_ok (RPrune t) τ s → rinv (rexec (RPrune t) τ s).
Proof.
  intros I Hτ (Hy & _ & Ht). cbn [rexec]. pose proof (later_inv s τ I Hτ) as I'.
  assert (∀ r, r ∈ mail_seen (Prune t (rx_db s)) ↔ r ∈ mail_seen (rx_db s) ∧ text_lt (sn_at r) (SeenCutoff t (rx_db s)) = false) as Hin.
  { intros r. unfold Prune. cbn [mail_seen]. by rewrite list_elem_of_In, filter_In, <- list_elem_of_In, negb_true_iff. }
  split; cbn [rx_db rx_true rx_decided rx_pending].
  - intros r [Hr _]%Hin. by apply (ri_rows _ I').
  - intros r [Hr _]%Hin. exact (ri_marked _ I' r Hr).
  - intros r Hr. exact (ri_inbox _ I' r Hr).
  - intros d Hd. destruct (ri_kept _ I' d Hd) as [?|(r & Hr & Hk & t' & Hst & Hyt & Hc)]; [by left|]. cbn [rx_db rx_true] in *.
    destruct (text_lt (sn_at r) (SeenCutoff t (rx_db s))) eqn:E; [left|right; exists r; split; [by apply Hin|]; split; [done|by exists t']].
    destruct (cutoff_bound _ t I' Hy Ht) as (u & Eu & Hyu & Hu); [by intros E'; cbn in E'; rewrite E' in Hr; apply elem_of_nil in Hr|]. cbn [rx_db rx_true] in Eu, Hu. rewrite Eu in E.
    assert (text_lt (storeTime t') (storeTime u) = true) as Hlt by (destruct Hst as [E1|E1]; rewrite E1 in E; [done|by apply text_lt_prefix in E]).
    rewrite text_lt_storeTime in Hlt by done. bprop. assert (t' < u) by (clear -Hlt; zdivmod). units. lia.
  - apply I'.
  - apply (ri_app _ I').
  - apply (ri_pending _ I').
Qed.

Lemma reach_inv s : rreach s → rinv s.
Proof.
  induction 1 as [τ|s r τ Hs IH Hτ Hok].
  - split; cbn; try (intros ? Hx; by apply elem_of_nil in Hx); [constructor|done|]. intros ? ? Hx. by apply elem_of_nil in Hx.
  - destruct r; [by apply deliver_inv|by apply storeBad_inv|by apply prune_inv|]. pose proof (later_inv s τ IH Hτ) as I'. cbn [rexec].
    apply (set_pending _ _ _ _ _ I'). intros ? ? Hx. by apply elem_of_nil in Hx.
Qed.

(** ** Acks *)

(** A mail opened that was over the age limit at the reading of that delivery. *)
Definition came_late (s : rx) (peer id : bytes) : Prop :=
  ∃ op t, (op, t) ∈ rx_opened s ∧ row_key op = (peer, id) ∧ Kind (op_Msg op) ≠ kind_keys ∧ ReceiveMaxAge < Sub t (Created (op_Msg op)).
(** An ack says what the transaction, or the age limit, decided. *)
Definition ack_ok (s : rx) (peer id member : bytes) : Prop :=
  if bool_decide (member = AckRejected)
  then decided_here s peer id (λ v, v = VRefused) ∨ EReport peer id (Reject 11 ReasonStale false) ∈ rx_events s ∧ came_late s peer id
  else decided_here s peer id (λ v, v ≠ VRefused).
Definition acks_ok (s : rx) : Prop := ∀ peer id member, EAck peer id member ∈ rx_events s → ack_ok s peer id member.

Lemma ack_ok_later s s' peer id member : ack_ok s peer id member → (∀ d, d ∈ rx_decided s → d ∈ rx_decided s') →
  (∀ e, e ∈ rx_events s → e ∈ rx_events s') → (∀ o, o ∈ rx_opened s → o ∈ rx_opened s') → ack_ok s' peer id member.
Proof.
  unfold ack_ok. intros Ha Hd He Ho. assert (∀ P, decided_here s peer id P → decided_here s' peer id P) as Hk.
  { intros P (op & v & Hin & ?). exists op, v. split; [by apply Hd|done]. }
  destruct (bool_decide _); [destruct Ha as [?|[? (op & t & ? & ?)]]; [left; by apply Hk|right; split; [by apply He|exists op, t; split; [by apply Ho|done]]]|by apply Hk].
Qed.

(** The acks among the events of a settled row. *)
Lemma settle_acks op res logged l' evs peer id member : settle kinds op res logged = (l', evs) → EAck peer id member ∈ evs →
  peer = From (op_Msg op) ∧ id = ID (op_Msg op) ∧ ∃ r, res = Ok r ∧
  (member = AckRejected ↔ is_Some (refused_reason r)).
Proof.
  unfold settle, logFailure. destruct res as [r|e].
  - intros [= <- <-] Hin. assert (AckIDs ≠ AckRejected ∧ AckUnsupported ≠ AckRejected) as [N1 N2] by (split; discriminate).
    destruct (refused_reason r) eqn:Er; repeat (apply elem_of_app in Hin as [Hin|Hin]).
    + destruct (bool_decide _); [by apply elem_of_nil in Hin|]. by apply list_elem_of_singleton in Hin.
    + apply list_elem_of_singleton in Hin as [= -> -> ->]. split_and!; [done|done|]. exists r. by rewrite Er.
    + destruct (negb _ && _); [|by apply elem_of_nil in Hin]. by apply list_elem_of_singleton in Hin.
    + destruct (negb _ && _); [|by apply elem_of_nil in Hin]. by apply list_elem_of_singleton in Hin.
    + apply list_elem_of_singleton in Hin as [= -> -> ->]. split_and!; [done|done|]. exists r. split; [done|]. rewrite Er.
      split; [destruct (bool_decide _); done|by intros []].
  - destruct (bool_decide _); intros [= <- <-] Hin; [by apply elem_of_nil in Hin|]. by apply list_elem_of_singleton in Hin.
Qed.

(** What a settled row's result says of the decisions. *)
Definition result_ok (s : rx) (op : Opened) (r : seenResult) : Prop :=
  decided_here s (From (op_Msg op)) (ID (op_Msg op)) (λ v, is_Some (refused_reason r) ↔ v = VRefused).

Lemma settled_acks_ok s s' op res logged l' evs : settle kinds op res logged = (l', evs) → acks_ok s →
  (∀ d, d ∈ rx_decided s → d ∈ rx_decided s') → rx_events s' = rx_events s ++ evs → (∀ o, o ∈ rx_opened s → o ∈ rx_opened s') →
  (∀ r, res = Ok r → result_ok s' op r) → acks_ok s'.
Proof.
  intros Hs Ha Hd He Ho Hr peer id member Hin. rewrite He in Hin. apply elem_of_app in Hin as [Hin|Hin].
  - apply (ack_ok_later s); [by apply Ha|done| |done]. intros e Hin'. rewrite He. apply elem_of_app. by left.
  - destruct (settle_acks _ _ _ _ _ _ _ _ Hs Hin) as (-> & -> & r & -> & Hm). destruct (Hr r eq_refl) as (op' & v & Hin' & Hk & Hv).
    unfold ack_ok. destruct (bool_decide (member = AckRejected)) eqn:E; bprop; [left|]; exists op', v; (split; [done|split; [done|]]); tauto.
Qed.
Lemma row_result_ok s op r : rinv s → find_seen (From (op_Msg op)) (ID (op_Msg op)) (rx_db s) = Some r →
  result_ok s op (if has_suffix badBodyMark (sn_at r) then seenDupBad else seenDup).
Proof.
  intros I Hf. apply find_seen_Some in Hf as (Hr & E1 & E2). destruct (ri_marked _ I r Hr) as (op' & v & Hin & Hk & Hm). exists op', v.
  rewrite E1, E2 in Hk. split; [done|]. split; [done|]. rewrite Hm. destruct (bool_decide (v = VRefused)) eqn:E; bprop; cbn.
  - by split.
  - split; [by intros []|done].
Qed.
Lemma result_ok_later s s' op r : result_ok s op r → (∀ d, d ∈ rx_decided s → d ∈ rx_decided s') → result_ok s' op r.
Proof. intros (op' & v & Hin & ?) Hd. exists op', v. split; [by apply Hd|done]. Qed.

Lemma deliver_acks s o env fault t_open t_age t_store τ : rinv s → acks_ok s → acks_ok (rexec (RDeliver o env fault t_open t_age t_store) τ s).
Proof.
  intros I Ha. cbn [rexec]. assert (∀ l evs p ops, (∀ peer id member, EAck peer id member ∈ evs → EReport peer id (Reject 11 ReasonStale false) ∈ evs ∧ member = AckRejected ∧
      ∃ op t, (op, t) ∈ ops ∧ row_key op = (peer, id) ∧ Kind (op_Msg op) ≠ kind_keys ∧ ReceiveMaxAge < Sub t (Created (op_Msg op))) →
    acks_ok (Rx (rx_db s) l p (rx_events s ++ evs) (rx_decided s) τ (rx_opened s ++ ops))) as Hquiet.
  { intros l evs p ops He peer id member [Hin|Hin]%elem_of_app.
    - apply (ack_ok_later s); [by apply Ha|done|..]; cbn; intros e Hin'; apply elem_of_app; by left.
    - destruct (He _ _ _ Hin) as (He' & -> & op & t & Ho & Hl). unfold ack_ok. rewrite bool_decide_eq_true_2 by done. right. cbn.
      split; [apply elem_of_app; by right|]. exists op, t. split; [apply elem_of_app; by right|done]. }
  destruct (open o env t_open) as [op|e].
  2: { rewrite <- (app_nil_r (rx_opened s)). apply (Hquiet (rx_logged s) (EReport (env_From env) (env_ID env) e :: _)). intros peer id member Hin. exfalso.
       apply elem_of_cons in Hin as [?|Hin]; [done|]. destruct (bool_decide _); [by apply list_elem_of_singleton in Hin|by apply elem_of_nil in Hin]. }
  unfold handle_opened, stored_kind. cbv zeta. destruct (bool_decide (Kind (op_Msg op) = kind_ack)).
  { cbn. rewrite !app_nil_r. apply Hquiet. intros ? ? ? Hin. by apply list_elem_of_singleton in Hin. }
  destruct (bool_decide (Kind (op_Msg op) = kind_keys) && negb _).
  { cbn. rewrite !app_nil_r. rewrite <- (app_nil_r (rx_events s)). apply Hquiet. intros ? ? ? Hin. by apply elem_of_nil in Hin. }
  destruct (negb (bool_decide (Kind (op_Msg op) = kind_keys)) && _) eqn:El.
  { cbn. rewrite !app_nil_r. apply Hquiet. intros peer id member [Hin|Hin]%elem_of_cons; [done|]. apply list_elem_of_singleton in Hin as [= -> -> ->].
    split_and!; [by left|done|]. exists op, t_age. apply andb_true_iff in El as [Hk%negb_true_iff Hl]. bprop. split_and!; [by left|done|done|done]. }
  clear El. cbn [negb andb]. pose proof (store_cases fault t_store op (rx_db s)) as Hst.
  destruct (store kinds fault t_store op (rx_db s)) as [r db']. cbn [fst snd] in Hst. destruct r as [res|p].
  - destruct (settle kinds op res (rx_logged s)) as [l' evs] eqn:Es. cbn [h_db h_logged h_events h_bad].
    apply (settled_acks_ok s _ op res _ l' evs Es Ha); cbn [rx_decided rx_events]; [intros d Hd; apply elem_of_app; by left|done|intros d Hd; apply elem_of_app; by left|].
    intros r ->. inversion Hst as [|r0 Hf E1 E2|Hi E1 E2| |l x Hf Hx Hl E1 E2]; subst; cbn [store_verdict].
    + apply (result_ok_later s); [by apply row_result_ok|]. cbn. intros d Hd. apply elem_of_app. by left.
    + apply in_inbox_spec in Hi as (ib & Hib & Ef & Ei). destruct (ri_inbox _ I ib Hib) as (op' & v & Hin & Hk & ->). rewrite Ef, Ei in Hk.
      exists op', VApplied. cbn. split; [apply elem_of_app; by left|]. split; [done|]. split; [by intros []|done].
    + exists op, (new_verdict op). cbn. split; [apply elem_of_app; right; by left|]. split; [done|]. split; [by intros []|]. unfold new_verdict. by destruct (bool_decide _).
  - cbn [h_db h_logged h_events h_bad store_verdict fst]. inversion Hst; subst. rewrite !app_nil_r. rewrite <- (app_nil_r (rx_events s)). apply Hquiet.
    intros ? ? ? Hin. by apply elem_of_nil in Hin.
Qed.

Lemma storeBad_acks s n fault τ : rinv s → acks_ok s → acks_ok (rexec (RStoreBad n fault) τ s).
Proof.
  intros I Ha. cbn [rexec]. destruct (rx_pending s !! n) as [[p τp]|] eqn:En; [|by apply Ha].
  destruct (ri_pending _ I p τp) as (_ & Hp2 & _); [by eapply list_elem_of_lookup_2|]. unfold handle_bad.
  destruct (storeBad fault p (rx_db s)) as [res db'] eqn:Eb. destruct (settle kinds (bp_op p) res (rx_logged s)) as [l' evs] eqn:Es. cbn [h_db h_logged h_events fst].
  apply (settled_acks_ok s _ (bp_op p) res _ l' evs Es Ha); cbn [rx_decided rx_events]; [intros d Hd; apply elem_of_app; by left|done|done|].
  intros r ->. unfold storeBad in Eb. cbv zeta in Eb. destruct (fault StageBegin); [done|]. destruct (fault StageBadBody); [done|].
  destruct (find_seen _ _ _) as [row|] eqn:Ef.
  - injection Eb as E1 <-. unfold seenAs in E1. destruct (fault StageReadSeen); [done|]. injection E1 as <-.
    apply (result_ok_later s); [by apply row_result_ok|]. cbn. intros d Hd. apply elem_of_app. by left.
  - destruct (fault StageCommit); [done|]. injection Eb as <- <-. exists (bp_op p), VRefused. split; [|split; [done|]].
    + cbn. apply elem_of_app. right. destruct Hp2 as [-> | ->]; by left.
    + split; [done|]. destruct Hp2 as [-> | ->]; by eexists.
Qed.

Lemma reach_acks s : rreach s → acks_ok s.
Proof.
  induction 1 as [τ|s r τ Hs IH Hτ Hok].
  - intros ? ? ? Hin. by apply elem_of_nil in Hin.
  - pose proof (reach_inv _ Hs) as I. destruct r; [by apply deliver_acks|by apply storeBad_acks|..]; cbn [rexec]; exact IH.
Qed.

(** C8: refinement. Whatever is delivered, replayed, interleaved, pruned or
    fails, as long as the clocks are in the bounds of [rop_ok] (a sender's at
    most a day ahead of the true time, the local one at most a day behind it,
    a refused body recorded within an hour of its delivery; the local clock
    may run ahead and be set back): each mail (sender, id and signed time) is
    decided at most once, and the application's tables are the result of
    running Apply once for each mail decided as applied, in the order of the
    decisions. Nothing else changes them. Outside those bounds a signed time
    can move the prune past a mail that is still accepted. *)
Theorem mail_applied_once s : rreach s →
  NoDup (map (λ d, mail_key d.1) (rx_decided s)) ∧ app_tables (rx_db s) = fold_left apply_effect (rx_decided s) x0.
Proof. intros Hs. pose proof (reach_inv _ Hs) as I. by destruct I. Qed.

(** C12: safety. Every ack is honest, in runs whose clocks are in the bounds of
    [rop_ok]: a mail is acked as rejected only when its refusal is recorded,
    or when a mail of that sender and id was opened that the age limit counts:
    at the reading of that delivery its signed time was more than fourteen
    days back. It is acked as received or unsupported only when it was stored
    and not refused. *)
Theorem acks_are_honest s peer id member : rreach s → EAck peer id member ∈ rx_events s →
  if bool_decide (member = AckRejected)
  then decided_here s peer id (λ v, v = VRefused) ∨
       ∃ op t, (op, t) ∈ rx_opened s ∧ row_key op = (peer, id) ∧ Kind (op_Msg op) ≠ kind_keys ∧ ReceiveMaxAge < Sub t (Created (op_Msg op))
  else decided_here s peer id (λ v, v ≠ VRefused).
Proof. intros Hs Ha. apply reach_acks in Ha; [|done]. unfold ack_ok in Ha. destruct (bool_decide _); [|done]. destruct Ha as [?|[_ ?]]; [by left|by right]. Qed.

End Runs.

(** ** A concrete run: a mail delivered twice, and a restart in between *)

#[local] Existing Instance demo_crypto.
#[local] Existing Instance demo_hpke.

Definition note_kinds (k : bytes) : option (kind_handler Z) :=
  if bool_decide (k = bytes_of "note") then Some (MkKind true (Some (λ _ x, Ok (x + 1))) false) else None.
Definition no_fault (_ : stage) : bool := false.
Definition mail_later : Z := mail_now + 60 * second.
Definition deliver_note : rop := RDeliver mail_opener mail_env no_fault mail_later mail_later mail_later.
Definition rx_start : rx (X := Z) := Rx (MailDb [] [] 0) ∅ [] [] [] mail_now [].
Definition rx_once : rx := rexec note_kinds deliver_note mail_later rx_start.
Definition rx_twice : rx := rexec note_kinds deliver_note mail_later (rexec note_kinds RRestart mail_later rx_once).

Lemma mail_opens : open mail_opener mail_env mail_later = Ok mail_opened.
Proof. vm_compute. reflexivity. Qed.
Lemma deliver_note_ok (s : rx (X := Z)) : rop_ok deliver_note mail_later s.
Proof.
  assert (reading_ok mail_later mail_later) as Hr by (vm_compute; repeat split; discriminate). split_and!; [exact Hr|exact Hr|exact Hr|].
  intros op Ho. rewrite mail_opens in Ho. injection Ho as <-. vm_compute. discriminate.
Qed.
Lemma rx_twice_reach : rreach note_kinds 0 rx_twice.
Proof.
  assert (rreach note_kinds 0 rx_once) as H1.
  { apply (rreach_step _ _ rx_start deliver_note mail_later (rreach_init _ _ mail_now)); [vm_compute; discriminate|apply deliver_note_ok]. }
  apply (rreach_step _ _ (rexec note_kinds RRestart mail_later rx_once) deliver_note mail_later); [|vm_compute; discriminate|apply deliver_note_ok].
  apply (rreach_step _ _ rx_once RRestart mail_later H1); [vm_compute; discriminate|exact I].
Qed.
Lemma rx_twice_is : rx_decided rx_twice = [(mail_opened, VApplied)] ∧ app_tables (rx_db rx_twice) = 1 ∧
  EAck (From (op_Msg mail_opened)) (ID (op_Msg mail_opened)) AckIDs ∈ rx_events rx_twice.
Proof.
  unfold rx_twice, rx_once, deliver_note. cbn [rexec]. rewrite mail_opens. split_and!; [vm_compute; reflexivity..|].
  apply list_elem_of_In. vm_compute. tauto.
Qed.
Lemma mail_applied_once_witness : app_tables (rx_db rx_twice) = fold_left (apply_effect note_kinds) (rx_decided rx_twice) 0 ∧ app_tables (rx_db rx_twice) = 1.
Proof. split; [exact (proj2 (mail_applied_once note_kinds 0 rx_twice rx_twice_reach))|exact (proj1 (proj2 rx_twice_is))]. Defined.
Lemma acks_are_honest_witness :
  decided_here rx_twice (From (op_Msg mail_opened)) (ID (op_Msg mail_opened)) (λ v, v ≠ VRefused).
Proof. exact (acks_are_honest note_kinds 0 rx_twice _ _ AckIDs rx_twice_reach (proj2 (proj2 rx_twice_is))). Defined.
