(* ===== verification/MailOutbox.v ===== *)
(** * The sender's outbox (internal/mail/outbox.go)

    Submitted mail is a row of the table outbox, resent until the recipient
    acks it, it expires or it fails. A database statement is one atomic step.
    What a call still has to do after one of its statements is a [job]; jobs
    run in any order, which is the interleaving of the worker, the relay
    connection's callbacks and the receiver. The rows of the signed plaintext
    and of the frame are kept as the code keeps them; a frame is the envelope
    it encodes. [fault] makes the statement of a step fail. *)

From S2P Require Import Prelude Utf8 Canonical Strconv WireTime Body RequestObject Tables Signing MailMessage.
From stdpp Require Import gmap.

Open Scope Z_scope.
Open Scope go_scope.

Definition OutboxExpiry : Z := 7 * day.
Definition OutboxRetention : Z := 30 * day.
Definition ResealInterval : Z := hour.
Definition outboxBatch : nat := 50.
Definition ErrTextUnsupportedKind : bytes := bytes_of "unsupported_kind".
Definition ErrTextRejected : bytes := bytes_of "rejected".
Definition ErrTextUnpaired : bytes := bytes_of "unpaired".
Definition ErrTextBadFrame : bytes := bytes_of "bad_frame".
Definition stamp (t : Z) : bytes := storeTime t.

(** One row of outbox. *)
Record orow := ORow {
  o_id : bytes; o_to : bytes; o_kind : bytes; o_created : bytes; o_keyID : bytes;
  o_signed : option bytes; o_frame : option Envelope; o_state : mail_state;
  o_attempts : Z; o_next : option bytes; o_updated : bytes; o_error : option bytes;
}.
(** outboxRow: what a scan hands to send. *)
Record due_row := DueRow { du_id : bytes; du_to : bytes; du_frame : option Envelope; du_attempts : Z }.

Inductive job :=
| JExpire (id to kind : bytes)                                 (* maintain, for each row it found *)
| JPurge (now : Z)                                             (* maintain's DELETE *)
| JDue (r : due_row) (check : bool)                            (* send, after the pairing check of sendDue *)
| JSending (r : due_row) (ready0 online0 : Z)                  (* Sender.Send has been called *)
| JCheck (r : due_row) (now : Z) (ready0 online0 : Z)          (* a failed hand-off, after its UPDATE *)
| JFinish (id to : bytes) (st : mail_state) (err : bytes)      (* OnAck, for each id *)
| JReady                                                       (* OnReady, after counting *)
| JOnline (peer : bytes)                                       (* OnPeerOnline, after counting *)
| JRetry (peer id pub : bytes) (priv : bytes)                  (* Retry, for each id *)
| JReseal (peer from : bytes) (r : due_row) (oldKey : bytes) (sl : Sealed).

Record outbox := Outbox {
  rows : list orow;
  ready : Z;                       (* OnReady calls, an atomic.Uint64 *)
  online : gmap bytes Z;           (* OnPeerOnline calls per peer *)
  resealed : gmap bytes Z;         (* the time of each row's last re-seal *)
  jobs : list job;
}.

Inductive out_event :=
| OSend (e : Envelope)                                   (* Sender.Send is called *)
| OAuditExpired (peer id kind : bytes)
| OFinal (id to kind : bytes) (st : mail_state) (err : bytes)
| OReseal (id : bytes) (at_ : Z).                        (* markResealed *)

Definition with_rows (l : list orow) (o : outbox) : outbox := Outbox l (ready o) (online o) (resealed o) (jobs o).
Definition with_resealed (m : gmap bytes Z) (o : outbox) : outbox := Outbox (rows o) (ready o) (online o) m (jobs o).
Definition with_jobs (l : list job) (o : outbox) : outbox := Outbox (rows o) (ready o) (online o) (resealed o) l.
Definition add_jobs (l : list job) (o : outbox) : outbox := with_jobs (jobs o ++ l) o.

Definition is_open (r : orow) : bool := bool_decide (o_state r = MailQueued) || bool_decide (o_state r = MailRelayed).
(** UPDATE outbox SET f WHERE p. *)
Definition update (p : orow → bool) (f : orow → orow) (l : list orow) : list orow := map (λ r, if p r then f r else r) l.
Definition has_id (id : bytes) (r : orow) : bool := bool_decide (o_id r = id).
Definition set_next (next : option bytes) (r : orow) : orow :=
  ORow (o_id r) (o_to r) (o_kind r) (o_created r) (o_keyID r) (o_signed r) (o_frame r) (o_state r) (o_attempts r) next (o_updated r) (o_error r).

(** ** Submit *)

Inductive submit_error := ErrKindNotSent | ErrUnpaired | ErrNoMailboxKey | ErrSeal (e : seal_error) | ErrStore.

Section Outbox.
Context `{Crypto} `{Hpke}.

(** buildFrame: the envelope, whose encoding is the stored frame. *)
Definition buildFrame (priv to : bytes) (sl : Sealed) (now : Z) : Envelope :=
  MkEnv (b64_encode (ed25519_Public priv)) to (bytes_of "mail") (sl_ID sl) (wireTime now) (sl_Payload sl).

(** seal and sealWithPub: [paired] and [pub] are the peers table's answers,
    [priv] the identity key, [raw] the marshalled body. *)
Definition seal_mail (to kind : bytes) (raw : option bytes) (paired : bool) (pub priv : option bytes) (now : Z) (rnd : bytes * bytes) :
    result submit_error (Sealed * Envelope) :=
  guard? negb (bool_decide (kind = kind_ack)) else ErrKindNotSent in
  guard? paired else ErrUnpaired in
  match pub with
  | None => Err ErrNoMailboxKey
  | Some pub =>
      match priv with
      | None => Err (ErrSeal NoIdentityKey)
      | Some priv =>
          match Seal (MkSeal priv to pub [] kind raw now rnd) with
          | Err e => Err (ErrSeal e)
          | Ok sl => Ok (sl, buildFrame priv to sl now)
          end
      end
  end.

Definition new_row (to kind : bytes) (sl : Sealed) (frame : Envelope) (now : Z) : orow :=
  ORow (sl_ID sl) to kind (wireTime now) (KeyID_String (sl_KeyID sl)) (Some (sl_Signed sl)) (Some frame) MailQueued 0 (Some (stamp now)) (stamp now) None.
(** Submit and SubmitTx: the row is inserted with the caller's rows. *)
Definition Submit (fault : bool) (to kind : bytes) (raw : option bytes) (paired : bool) (pub priv : option bytes) (now : Z) (rnd : bytes * bytes)
    (o : outbox) : result submit_error bytes * outbox :=
  match seal_mail to kind raw paired pub priv now rnd with
  | Err e => (Err e, o)
  | Ok (sl, frame) =>
      if fault || existsb (has_id (sl_ID sl)) (rows o) then (Err ErrStore, o)
      else (Ok (sl_ID sl), with_rows (rows o ++ [new_row to kind sl frame now]) o)
  end.

(** ** Final states *)

Definition finished (st : mail_state) (err : bytes) (now : Z) (r : orow) : orow :=
  ORow (o_id r) (o_to r) (o_kind r) (o_created r) (o_keyID r) None None st (o_attempts r) None (stamp now)
    (if bool_decide (err = []) then None else Some err).
Definition finish_where (id to : bytes) (r : orow) : bool :=
  has_id id r && (bool_decide (to = []) || bool_decide (o_to r = to)) && is_open r.
Definition finish (fault : bool) (id to : bytes) (st : mail_state) (err : bytes) (now : Z) (o : outbox) : outbox * list out_event * bool :=
  if fault then (o, [], false) else
  match List.find (finish_where id to) (rows o) with
  | None => (o, [], false)
  | Some r =>
      (with_resealed (delete id (resealed o)) (with_rows (update (finish_where id to) (finished st err now) (rows o)) o),
       [OFinal id (o_to r) (o_kind r) st err], true)
  end.

(** ** Sending *)

Definition due (now : Z) (r : orow) : bool :=
  is_open r && match o_next r with Some n => text_le n (stamp now) | None => false end.
Definition next_le (a b : orow) : Prop := text_le (default [] (o_next a)) (default [] (o_next b)) = true.
#[export] Instance next_le_dec a b : Decision (next_le a b).
Proof. unfold next_le. apply _. Defined.
Definition as_due (r : orow) : due_row := DueRow (o_id r) (o_to r) (o_frame r) (o_attempts r).
(** sendDue's scan: the rows the worker will send. *)
Definition sendDue (fault : bool) (now : Z) (o : outbox) : outbox :=
  if fault then o
  else add_jobs (map (λ r, JDue (as_due r) true) (take outboxBatch (merge_sort next_le (List.filter (due now) (rows o))))) o.

Definition onlineCount (peer : bytes) (o : outbox) : Z := default 0 (online o !! peer).
(** send up to the call of Sender.Send; [sender]: a relay connection is set. *)
Definition begin_send (fault : bool) (sender : bool) (r : due_row) (now : Z) (o : outbox) : outbox * list out_event :=
  match du_frame r with
  | None => let '(o, evs, _) := finish fault (du_id r) [] MailFailed ErrTextBadFrame now o in (o, evs)
  | Some e => (add_jobs [JSending r (ready o) (onlineCount (du_to r) o)] o, if sender then [OSend e] else [])
  end.

Definition backoff_base (n : Z) : Z := if n =? 1 then minute else if n =? 2 then 5 * minute else if n =? 3 then 30 * minute else 6 * hour.
(** send after Sender.Send returned; [delay] is the jittered backoff. *)
Definition sent_row (ok : bool) (next updated : bytes) (r : orow) : orow :=
  ORow (o_id r) (o_to r) (o_kind r) (o_created r) (o_keyID r) (o_signed r) (o_frame r) (if ok then MailRelayed else o_state r)
    (o_attempts r + 1) (Some next) updated (o_error r).
Definition end_send (fault ok : bool) (r : due_row) (ready0 online0 now delay : Z) (o : outbox) : outbox :=
  let o := if fault then o
           else with_rows (update (λ x, has_id (du_id r) x && is_open x) (sent_row ok (stamp (now + delay)) (stamp now)) (rows o)) o in
  if ok then o else add_jobs [JCheck r now ready0 online0] o.
(** The relay connected, or the peer came online, while the hand-off failed. *)
Definition send_now (id : bytes) (x : orow) : bool := has_id id x && bool_decide (o_state x = MailQueued).
Definition check_send (fault : bool) (r : due_row) (now ready0 online0 : Z) (o : outbox) : outbox :=
  if negb ((ready o =? ready0) && (onlineCount (du_to r) o =? online0)) && negb fault
  then with_rows (update (send_now (du_id r)) (set_next (Some (stamp now))) (rows o)) o
  else o.

(** ** The hooks *)

Definition count (n : Z) : Z := (n + 1) mod 2 ^ 64.
Definition OnReady (o : outbox) : outbox := Outbox (rows o) (count (ready o)) (online o) (resealed o) (jobs o ++ [JReady]).
Definition OnPeerOnline (peer : bytes) (o : outbox) : outbox :=
  Outbox (rows o) (ready o) (<[peer := count (onlineCount peer o)]> (online o)) (resealed o) (jobs o ++ [JOnline peer]).
Definition ready_update (fault : bool) (now : Z) (o : outbox) : outbox :=
  if fault then o else with_rows (update (λ r, bool_decide (o_state r = MailQueued)) (set_next (Some (stamp now))) (rows o)) o.
Definition online_update (fault : bool) (peer : bytes) (now : Z) (o : outbox) : outbox :=
  if fault then o
  else with_rows (update (λ r, bool_decide (o_state r = MailQueued) && bool_decide (o_to r = peer)) (set_next (Some (stamp now))) (rows o)) o.

(** OnAck: one finish for each id. *)
Definition OnAck (op : Opened) (o : outbox) : outbox :=
  let msg := op_Msg op in
  let ids k := stringList (member k (MsgBody msg)) in
  add_jobs (map (λ id, JFinish id (From msg) MailDelivered []) (ids AckIDs) ++
            map (λ id, JFinish id (From msg) MailFailed ErrTextUnsupportedKind) (ids AckUnsupported) ++
            map (λ id, JFinish id (From msg) MailFailed ErrTextRejected) (ids AckRejected)) o.

(** HandleError: an error frame of the relay. *)
Inductive relay_code := RPermanent (text : bytes) | RTemporary | ROther.   (* bad_envelope, bad_sender; queue_full and the like; the rest *)
Definition classify (code : bytes) : relay_code :=
  if bool_decide (code ∈ map bytes_of ["bad_envelope"; "bad_sender"]%string) then RPermanent code
  else if bool_decide (code ∈ map bytes_of ["queue_full"; "internal"; "peer_offline"; "peer_busy"; "rate_limited"; "relay_full"]%string) then RTemporary
  else ROther.
Definition requeued (now : Z) (r : orow) : orow :=
  ORow (o_id r) (o_to r) (o_kind r) (o_created r) (o_keyID r) (o_signed r) (o_frame r) MailQueued (o_attempts r) (o_next r) (stamp now) (o_error r).
Definition HandleError (fault : bool) (code ref : bytes) (now : Z) (o : outbox) : outbox * list out_event :=
  if negb (ValidID ref) then (o, []) else
  match classify code with
  | RPermanent text => let '(o, evs, _) := finish fault ref [] MailFailed text now o in (o, evs)
  | RTemporary =>
      (if fault then o else with_rows (update (λ r, has_id ref r && bool_decide (o_state r = MailRelayed)) (requeued now) (rows o)) o, [])
  | ROther => (o, [])
  end.

(** ** Maintenance *)

(** maintain's scan: the rows older than seven days, then the purge. *)
Definition maintain (fault : bool) (now : Z) (o : outbox) : outbox :=
  if fault then o
  else add_jobs (map (λ r, JExpire (o_id r) (o_to r) (o_kind r))
                   (List.filter (λ r, is_open r && text_le (o_created r) (wireTime (now - OutboxExpiry))) (rows o)) ++ [JPurge now]) o.
Definition expire (fault : bool) (id to kind : bytes) (now : Z) (o : outbox) : outbox * list out_event :=
  let '(o, evs, changed) := finish fault id [] MailExpired [] now o in
  (o, evs ++ if changed : bool then [OAuditExpired to id kind] else []).
Definition purge (fault : bool) (now : Z) (o : outbox) : outbox :=
  if fault then o else with_rows (List.filter (λ r, is_open r || negb (text_lt (o_updated r) (stamp (now - OutboxRetention)))) (rows o)) o.

(** peers.Store.removeTx: mail waiting for a removed peer fails. *)
Definition removeTx (key : bytes) (now : Z) (o : outbox) : outbox :=
  with_rows (update (λ r, bool_decide (o_to r = key) && is_open r) (finished MailFailed ErrTextUnpaired now) (rows o)) o.

(** ** Key-miss recovery: Retry *)

Definition resealDue (id : bytes) (now : Z) (o : outbox) : bool :=
  match resealed o !! id with Some t => ResealInterval <=? Sub now t | None => true end.
Definition markResealed (id : bytes) (now : Z) (m : gmap bytes Z) : gmap bytes Z :=
  <[id := now]> (filter (λ p, Sub now p.2 < ResealInterval) m).

(** Each id once (the jobs run in any order). *)
Definition Retry (peer : bytes) (ids : list bytes) (pub priv : option bytes) (o : outbox) : outbox :=
  match pub, priv with
  | Some pub, Some priv => add_jobs (map (λ id, JRetry peer id pub priv) (List.filter ValidID (remove_dups ids))) o
  | _, _ => o
  end.
(** One id: the checks and the new seal, up to the UPDATE. *)
Definition retry_one (peer id pub priv : bytes) (rnd : bytes) (now : Z) (o : outbox) : outbox :=
  if negb (resealDue id now o) then o else
  let o := with_resealed (delete id (resealed o)) o in
  match List.find (λ r, has_id id r && bool_decide (o_to r = peer) && is_open r && bool_decide (is_Some (o_signed r))) (rows o) with
  | None => o
  | Some r =>
      if bool_decide (o_keyID r = KeyID_String (KeyIDOf pub)) then o else
      let from := b64_encode (ed25519_Public priv) in
      match Reseal (default [] (o_signed r)) from peer pub rnd with
      | Err _ => o
      | Ok sl => add_jobs [JReseal peer from (as_due r) (o_keyID r) sl] o
      end
  end.
Definition resealed_row (frame : Envelope) (keyID : bytes) (now : Z) (r : orow) : orow :=
  ORow (o_id r) (o_to r) (o_kind r) (o_created r) keyID (o_signed r) (Some frame) (o_state r) (o_attempts r) (o_next r) (stamp now) (o_error r).
Definition reseal_where (id peer oldKey : bytes) (r : orow) : bool :=
  has_id id r && bool_decide (o_to r = peer) && bool_decide (o_keyID r = oldKey) && is_open r.
Definition reseal_one (fault : bool) (peer from : bytes) (r : due_row) (oldKey : bytes) (sl : Sealed) (now : Z) (o : outbox) : outbox * list out_event :=
  let frame := MkEnv from peer (bytes_of "mail") (sl_ID sl) (wireTime now) (sl_Payload sl) in
  if fault || negb (existsb (reseal_where (du_id r) peer oldKey) (rows o)) then (o, []) else
  let o := with_rows (update (reseal_where (du_id r) peer oldKey) (resealed_row frame (KeyID_String (sl_KeyID sl)) now) (rows o)) o in
  let o := with_resealed (markResealed (du_id r) now (resealed o)) o in
  (add_jobs [JDue (DueRow (du_id r) (du_to r) (Some frame) (du_attempts r)) false] o, [OReseal (du_id r) now]).

(** ** One job *)

(** What a step reads from outside: a failing statement, the clock, the
    pairing of the row's peer, whether a relay connection is set, what
    Sender.Send returned, the jittered delay and HPKE's randomness. *)
Record inputs := Inputs { i_fault : bool; i_now : Z; i_paired : bool; i_sender : bool; i_sent : bool; i_delay : Z; i_rnd : bytes }.

Definition run_job (j : job) (i : inputs) (o : outbox) : outbox * list out_event :=
  let fault := i_fault i in let now := i_now i in
  match j with
  | JExpire id to kind => expire fault id to kind now o
  | JPurge t => (purge fault t o, [])
  | JDue r check =>
      if check && negb (i_paired i)
      then let '(o, evs, _) := finish fault (du_id r) [] MailFailed ErrTextUnpaired now o in (o, evs)
      else begin_send fault (i_sender i) r now o
  | JSending r ready0 online0 => (end_send fault (i_sender i && i_sent i) r ready0 online0 now (i_delay i) o, [])
  | JCheck r t ready0 online0 => (check_send fault r t ready0 online0 o, [])
  | JFinish id to st err => let '(o, evs, _) := finish fault id to st err now o in (o, evs)
  | JReady => (ready_update fault now o, [])
  | JOnline peer => (online_update fault peer now o, [])
  | JRetry peer id pub priv => (retry_one peer id pub priv (i_rnd i) now o, [])
  | JReseal peer from r oldKey sl => reseal_one fault peer from r oldKey sl now o
  end.
Definition run_nth (n : nat) (i : inputs) (o : outbox) : outbox * list out_event :=
  match jobs o !! n with
  | None => (o, [])
  | Some j => run_job j i (with_jobs (delete n (jobs o)) o)
  end.

(** ** Counts *)

Record OutboxCounts := MkCounts { c_Queued : Z; c_Relayed : Z; c_Expired : Z; c_Pending : Z; c_Delivered : Z; c_Failed : Z }.
Definition count_state (st : mail_state) (o : outbox) : Z := Z.of_nat (length (List.filter (λ r, bool_decide (o_state r = st)) (rows o))).
Definition Counts (o : outbox) : OutboxCounts :=
  MkCounts (count_state MailQueued o) (count_state MailRelayed o) (count_state MailExpired o) (count_state MailQueued o + count_state MailRelayed o)
    (count_state MailDelivered o) (count_state MailFailed o).

End Outbox.
