(* ===== verification/MailSent.v ===== *)
(** * The outbox: runs and what holds in them

    A run interleaves submits, scans, jobs, acks, relay errors, the relay's
    and the peers' connections, key-miss retries, removals and restarts, with
    failing statements, at any clock readings. Ids that NewID draws are fresh. *)

From S2P Require Import Prelude Utf8 Canonical Strconv WireTime Body RequestObject Tables Signing MailMessage MailOpen MailOutbox.
From stdpp Require Import gmap.

Open Scope Z_scope.

Section Runs.
Context `{SL : SignLaws} `{HP : Hpke} `{HL : !HpkeLaws}.
Context (me : bytes).   (* the identity private key *)

(** The outbox, with the mails sealed, the acks received, what was handed to
    the relay and the clock readings so far, which only the properties mention. *)
Record sx := Sx { box : outbox; sent : list SealInput; acked : list Opened; events : list out_event; reads : list Z }.

Inductive oop :=
| OpSubmit (fault : bool) (to kind : bytes) (raw : option bytes) (paired : bool) (pub : option bytes) (has_key : bool) (now : Z) (rnd : bytes * bytes)
| OpScan (fault : bool) (now : Z)
| OpMaintain (fault : bool) (now : Z)
| OpJob (n : nat) (i : inputs)
| OpReady
| OpOnline (peer : bytes)
| OpAck (op : Opened)
| OpError (fault : bool) (code ref : bytes) (now : Z)
| OpRemove (key : bytes) (now : Z)
| OpRetry (peer : bytes) (ids : list bytes) (pub : option bytes) (has_key : bool)
| OpRestart.

Definition own_key (has_key : bool) : option bytes := if has_key then Some me else None.
Definition mail_input (to kind : bytes) (raw : option bytes) (pub : option bytes) (now : Z) (rnd : bytes * bytes) (id : bytes) : SealInput :=
  MkSeal me to (default [] pub) id kind raw now rnd.

Definition oexec (op : oop) (s : sx) : sx :=
  match op with
  | OpSubmit fault to kind raw paired pub has_key now rnd =>
      match Submit fault to kind raw paired pub (own_key has_key) now rnd (box s) with
      | (Ok id, o) => Sx o (sent s ++ [mail_input to kind raw pub now rnd id]) (acked s) (events s) (now :: reads s)
      | (Err _, o) => Sx o (sent s) (acked s) (events s) (now :: reads s)
      end
  | OpScan fault now => Sx (sendDue fault now (box s)) (sent s) (acked s) (events s) (now :: reads s)
  | OpMaintain fault now => Sx (maintain fault now (box s)) (sent s) (acked s) (events s) (now :: reads s)
  | OpJob n i => let '(o, evs) := run_nth n i (box s) in Sx o (sent s) (acked s) (events s ++ evs) (i_now i :: reads s)
  | OpReady => Sx (OnReady (box s)) (sent s) (acked s) (events s) (reads s)
  | OpOnline peer => Sx (OnPeerOnline peer (box s)) (sent s) (acked s) (events s) (reads s)
  | OpAck op => Sx (OnAck op (box s)) (sent s) (acked s ++ [op]) (events s) (reads s)
  | OpError fault code ref now =>
      let '(o, evs) := HandleError fault code ref now (box s) in Sx o (sent s) (acked s) (events s ++ evs) (now :: reads s)
  | OpRemove key now => Sx (removeTx key now (box s)) (sent s) (acked s) (events s) (now :: reads s)
  | OpRetry peer ids pub has_key => Sx (Retry peer ids pub (own_key has_key) (box s)) (sent s) (acked s) (events s) (reads s)
  | OpRestart => Sx (Outbox (rows (box s)) 0 ∅ ∅ []) (sent s) (acked s) (events s) (reads s)
  end.

(** NewID's bytes are not those of an earlier mail, the clock shows a year
    that RFC 3339 can write, and an opened mail names its sender. *)
Definition oop_ok (op : oop) (s : sx) : Prop :=
  match op with
  | OpSubmit _ _ _ _ _ _ _ now rnd => in_years now ∧ NewID rnd.1 ∉ map in_ID (sent s)
  | OpAck op => From (op_Msg op) ≠ []
  | _ => True
  end.

Inductive oreach : sx → Prop :=
| oreach_init : oreach (Sx (Outbox [] 0 ∅ ∅ []) [] [] [] [])
| oreach_step s op : oreach s → oop_ok op s → oreach (oexec op s).

(** ** The invariant *)

(** A frame of the mail [i], whose plaintext is [p]. *)
Definition frame_of (i : SealInput) (p : bytes) (e : Envelope) : Prop :=
  env_From e = sender i ∧ env_To e = in_To i ∧ env_ID e = in_ID i ∧
  ∃ pub rnd sl, sealPlain (sender i) (in_To i) (in_ID i) p pub rnd = Ok sl ∧ env_Payload e = sl_Payload sl.
Definition sealed_as (i : SealInput) (p : bytes) : Prop :=
  in_Priv i = me ∧ in_years (in_Created i) ∧ ValidID (in_ID i) = true ∧ ∃ sl, sealMsg i = Ok sl ∧ sl_Signed sl = p.

(** Why a row is final. *)
Definition ack_lists (member : bytes) (op : Opened) (id : bytes) : Prop := id ∈ stringList (Body.member member (MsgBody (op_Msg op))).
Definition acked_as (s : sx) (id to : bytes) (st : mail_state) (err : bytes) : Prop :=
  ∃ op, op ∈ acked s ∧ From (op_Msg op) = to ∧ to ≠ [] ∧
    (st = MailDelivered ∧ err = [] ∧ ack_lists AckIDs op id ∨
     st = MailFailed ∧ err = ErrTextUnsupportedKind ∧ ack_lists AckUnsupported op id ∨
     st = MailFailed ∧ err = ErrTextRejected ∧ ack_lists AckRejected op id).
Definition too_late (s : sx) (created : bytes) : Prop := ∃ t, t ∈ reads s ∧ text_le created (wireTime (t - OutboxExpiry)) = true.
Definition final_cause (s : sx) (id to created : bytes) (st : mail_state) (err : bytes) : Prop :=
  acked_as s id to st err ∨
  st = MailExpired ∧ err = [] ∧ too_late s created ∨
  st = MailFailed ∧ err ∈ [ErrTextUnpaired; bytes_of "bad_envelope"; bytes_of "bad_sender"].

(** A row and the mail it was made of. *)
Definition row_ok (s : sx) (r : orow) : Prop := ∃ i, i ∈ sent s ∧ in_ID i = o_id r ∧ in_To i = o_to r ∧ in_Kind i = o_kind r ∧
  wireTime (in_Created i) = o_created r ∧
  if is_open r
  then ∃ p e, o_signed r = Some p ∧ o_frame r = Some e ∧ is_Some (o_next r) ∧ sealed_as i p ∧ frame_of i p e
  else o_signed r = None ∧ o_frame r = None ∧ o_next r = None ∧
       final_cause s (o_id r) (o_to r) (o_created r) (o_state r) (default [] (o_error r)).

Definition due_ok (s : sx) (r : due_row) : Prop :=
  ∃ i p e, i ∈ sent s ∧ in_ID i = du_id r ∧ in_To i = du_to r ∧ du_frame r = Some e ∧ sealed_as i p ∧ frame_of i p e.
Definition job_ok (s : sx) (j : job) : Prop :=
  match j with
  | JExpire id to kind => ∃ i, i ∈ sent s ∧ in_ID i = id ∧ too_late s (wireTime (in_Created i))
  | JPurge t => t ∈ reads s
  | JReady | JOnline _ => True
  | JDue r _ | JSending r _ _ | JCheck r _ _ _ => due_ok s r
  | JFinish id to st err => acked_as s id to st err
  | JRetry _ _ _ priv => priv = me
  | JReseal peer from r _ sl => du_to r = peer ∧ ∃ i p pub rnd, i ∈ sent s ∧ in_ID i = du_id r ∧ in_To i = peer ∧ from = sender i ∧ sealed_as i p ∧
      sealPlain from peer (in_ID i) p pub rnd = Ok sl
  end.

Record oinv (s : sx) : Prop := {
  oi_rows : Forall (row_ok s) (rows (box s));
  oi_jobs : Forall (job_ok s) (jobs (box s));
  oi_ids : NoDup (map in_ID (sent s));
  oi_rowids : NoDup (map o_id (rows (box s)));
  oi_sends : ∀ e, OSend e ∈ events s → ∃ i p, i ∈ sent s ∧ sealed_as i p ∧ frame_of i p e;
  oi_sealed : ∀ i, i ∈ sent s → ∃ p, sealed_as i p;
}.

(** Growing histories. *)
Definition grows (s s' : sx) : Prop := (∀ i, i ∈ sent s → i ∈ sent s') ∧ (∀ a, a ∈ acked s → a ∈ acked s') ∧ (∀ t, t ∈ reads s → t ∈ reads s').

Lemma acked_as_grows s s' id to st err : grows s s' → acked_as s id to st err → acked_as s' id to st err.
Proof. intros (_ & Ha & _) (op & Hop & ?). exists op. split; [by apply Ha|done]. Qed.
Lemma too_late_grows s s' c : grows s s' → too_late s c → too_late s' c.
Proof. intros (_ & _ & Ht) (t & Hin & ?). exists t. split; [by apply Ht|done]. Qed.
Lemma final_cause_grows s s' id to c st err : grows s s' → final_cause s id to c st err → final_cause s' id to c st err.
Proof. intros G [?|[(? & ? & ?)|?]]; [left; by eapply acked_as_grows|right; left; split_and!; [done|done|by eapply too_late_grows]|by right; right]. Qed.
Lemma row_ok_grows s s' r : grows s s' → row_ok s r → row_ok s' r.
Proof.
  intros G (i & Hi & ? & ? & ? & ? & Hr). exists i. split; [by apply G|]. do 4 (split; [done|]). destruct (is_open r); [done|].
  destruct Hr as (? & ? & ? & ?). split_and!; try done. by eapply final_cause_grows.
Qed.
Lemma due_ok_grows s s' r : grows s s' → due_ok s r → due_ok s' r.
Proof. intros G (i & p & e & Hi & ?). exists i, p, e. split; [by apply G|done]. Qed.
Lemma job_ok_grows s s' j : grows s s' → job_ok s j → job_ok s' j.
Proof.
  intros G. destruct j; cbn; try done; try by apply due_ok_grows.
  2: { apply G. }
  - intros (i & Hi & E & Hl). exists i. split; [by apply G|]. split; [done|by eapply too_late_grows].
  - by apply acked_as_grows.
  - intros (E & i & p & pub & rnd & Hi & ?). split; [done|]. exists i, p, pub, rnd. split; [by apply G|done].
Qed.

(** ** One statement keeps it *)

Definition box_ok (s : sx) (o : outbox) : Prop :=
  Forall (row_ok s) (rows o) ∧ Forall (job_ok s) (jobs o) ∧ NoDup (map o_id (rows o)).
Definition evs_ok (s : sx) (evs : list out_event) : Prop := ∀ e, OSend e ∈ evs → ∃ i p, i ∈ sent s ∧ sealed_as i p ∧ frame_of i p e.

Lemma update_ok s p f l : (∀ r, p r = true → row_ok s r → row_ok s (f r)) → Forall (row_ok s) l → Forall (row_ok s) (update p f l).
Proof.
  intros Hf Hl. unfold update. apply Forall_map. eapply Forall_impl; [exact Hl|]. cbn. intros r Hr. destruct (p r) eqn:E; [by apply Hf|done].
Qed.
Lemma update_ids p f l : (∀ r, o_id (f r) = o_id r) → map o_id (update p f l) = map o_id l.
Proof. intros Hf. unfold update. rewrite map_map. apply map_ext. intros r. destruct (p r); [apply Hf|done]. Qed.
Lemma rows_ok s o p f : box_ok s o → (∀ r, o_id (f r) = o_id r) → (∀ r, p r = true → row_ok s r → row_ok s (f r)) →
  box_ok s (with_rows (update p f (rows o)) o).
Proof. intros (H1 & H2 & H3) Hid Hf. split_and!; cbn; [by apply update_ok|done|by rewrite update_ids]. Qed.
Lemma jobs_ok s o l : box_ok s o → Forall (job_ok s) l → box_ok s (add_jobs l o).
Proof. intros (H1 & H2 & H3) Hl. split_and!; cbn; [done|by apply Forall_app|done]. Qed.
Lemma resealed_ok s o m : box_ok s o → box_ok s (with_resealed m o).
Proof. by intros (? & ? & ?). Qed.
Lemma no_sends s evs : (∀ e, OSend e ∉ evs) → evs_ok s evs.
Proof. intros Hn e He. by destruct (Hn e). Qed.

(** What an update may leave alone: the mail of a row and what it stores. *)
Lemma row_open s r r' : row_ok s r → is_open r = true → is_open r' = true → o_id r' = o_id r → o_to r' = o_to r → o_kind r' = o_kind r →
  o_created r' = o_created r → o_signed r' = o_signed r → o_frame r' = o_frame r → is_Some (o_next r') → row_ok s r'.
Proof.
  intros (i & Hi & E1 & E2 & E3 & E4 & Hr) Ho Ho' K1 K2 K3 K4 Es Ef Hn. rewrite Ho in Hr. destruct Hr as (p & e & Hs & Hf & _ & Hsealed & Hframe).
  exists i. do 5 (split; [congruence|]). rewrite Ho'. exists p, e. split_and!; [congruence|congruence|done|done|done].
Qed.
Lemma row_final s r st err now : row_ok s r → is_open r = true → st ∈ [MailDelivered; MailExpired; MailFailed] →
  final_cause s (o_id r) (o_to r) (o_created r) st err → row_ok s (finished st err now r).
Proof.
  intros (i & Hi & E1 & E2 & E3 & E4 & _) _ Hst Hc. exists i. cbn. do 5 (split; [done|]).
  assert (is_open (finished st err now r) = false) as ->.
  { unfold is_open. cbn. rewrite !elem_of_cons, elem_of_nil in Hst. apply orb_false_iff. rewrite !bool_decide_eq_false. naive_solver. }
  split_and!; try done. unfold finished. cbn. destruct (bool_decide (err = [])) eqn:E; bprop; [by subst|done].
Qed.

Lemma finish_ok s fault id to st err now o o' evs b : box_ok s o → st ∈ [MailDelivered; MailExpired; MailFailed] →
  (∀ r, row_ok s r → o_id r = id → (to = [] ∨ o_to r = to) → final_cause s id (o_to r) (o_created r) st err) →
  finish fault id to st err now o = (o', evs, b) → box_ok s o' ∧ evs_ok s evs.
Proof.
  intros Hb Hst Hc. unfold finish. destruct fault; [by intros [= <- <- <-]; split; [done|apply no_sends; intros e; apply not_elem_of_nil]|].
  destruct (List.find _ _) as [r0|]; intros [= <- <- <-]; (split; [|apply no_sends; intros e He]); [| |done|by apply elem_of_nil in He].
  - apply resealed_ok, rows_ok; [done|done|]. intros r Hw Hr. unfold finish_where, has_id in Hw. bprop. subst id.
    match goal with H : (_ || _)%bool = true |- _ => apply orb_true_iff in H as [Hto|Hto]; bprop end; (apply row_final; [done|done|done|]); (apply Hc; [done|done|by auto]).
  - by apply list_elem_of_singleton in He.
Qed.
Lemma finish_done s fault id to st err now o : box_ok s o → st ∈ [MailDelivered; MailExpired; MailFailed] →
  (∀ r, row_ok s r → o_id r = id → (to = [] ∨ o_to r = to) → final_cause s id (o_to r) (o_created r) st err) →
  let '(o', evs, _) := finish fault id to st err now o in box_ok s o' ∧ evs_ok s evs.
Proof. intros Hb Hst Hc. destruct (finish fault id to st err now o) as [[o' evs] b] eqn:E. by eapply finish_ok. Qed.

(** A mail has one id. *)
Lemma sent_unique s i j : oinv s → i ∈ sent s → j ∈ sent s → in_ID i = in_ID j → i = j.
Proof.
  intros I Hi Hj E. pose proof (oi_ids _ I) as Hd. apply list_elem_of_lookup in Hi as [n Hn]. apply list_elem_of_lookup in Hj as [m Hm].
  assert (n = m) as ->; [|congruence]. eapply (NoDup_lookup _ n m (in_ID i)); [exact Hd| |]; rewrite list_lookup_fmap; [by rewrite Hn|by rewrite Hm, E].
Qed.

Lemma as_due_ok s r : row_ok s r → is_open r = true → due_ok s (as_due r).
Proof.
  intros (i & Hi & E1 & E2 & E3 & E4 & Hr) Ho. rewrite Ho in Hr. destruct Hr as (p & e & Hs & Hf & _ & Hsealed & Hframe).
  exists i, p, e. split_and!; done.
Qed.
Lemma sealed_unique i p q : sealed_as i p → sealed_as i q → p = q.
Proof. intros (_ & _ & _ & sl & E & <-) (_ & _ & _ & sl' & E' & <-). congruence. Qed.

Lemma begin_send_ok s fault sender r now o o' evs : box_ok s o → due_ok s r → begin_send fault sender r now o = (o', evs) → box_ok s o' ∧ evs_ok s evs.
Proof.
  intros Hb Hd. pose proof Hd as (i & p & e & Hi & _ & _ & Hf & Hs & Hfr). unfold begin_send. rewrite Hf. intros [= <- <-]. split.
  - apply jobs_ok; [done|]. by constructor.
  - intros e' He. destruct sender; [|by apply elem_of_nil in He]. apply list_elem_of_singleton in He as [= ->]. by exists i, p.
Qed.
Lemma end_send_ok s fault ok r r0 o0 now delay o : box_ok s o → due_ok s r → box_ok s (end_send fault ok r r0 o0 now delay o).
Proof.
  intros Hb Hd. unfold end_send. cbv zeta.
  assert (box_ok s (if fault then o else with_rows (update (λ x, has_id (du_id r) x && is_open x) (sent_row ok (stamp (now + delay)) (stamp now)) (rows o)) o)) as H1.
  { destruct fault; [done|]. apply rows_ok; [done|done|]. intros x Hx Hr. bprop. apply (row_open s x); try done. unfold is_open, sent_row in *. cbn. by destruct ok. }
  destruct ok; [done|]. apply jobs_ok; [done|]. by constructor.
Qed.
Lemma queued_open r : o_state r = MailQueued → is_open r = true.
Proof. unfold is_open. by intros ->. Qed.
Lemma next_ok s o p now : box_ok s o → (∀ r, p r = true → o_state r = MailQueued) → box_ok s (with_rows (update p (set_next (Some (stamp now))) (rows o)) o).
Proof.
  intros Hb Hp. apply rows_ok; [done|done|]. intros r Hr Hok. pose proof (queued_open r (Hp r Hr)) as Ho. by apply (row_open s r).
Qed.
Lemma check_send_ok s fault r now r0 o0 o : box_ok s o → box_ok s (check_send fault r now r0 o0 o).
Proof.
  intros Hb. unfold check_send. destruct (negb _ && negb _); [|done]. apply next_ok; [done|]. intros x Hx. unfold send_now in Hx. by bprop.
Qed.

Lemma seal_again i p from to pub rnd sl : sealed_as i p → in_To i = to → Reseal p from to pub rnd = Ok sl →
  from = sender i ∧ sealPlain from to (in_ID i) p pub rnd = Ok sl.
Proof.
  intros (_ & Hy & Hid & sl0 & Hs & <-) <- Hr. destruct (sealMsg_ok i sl0 Hy ltac:(by apply (hex_id_valid 0x6D)) Hs) as (_ & _ & _ & _ & _ & b & b' & gen & canon & _ & _ & _ & _ & Hp).
  unfold Reseal in Hr. apply guard_ok in Hr as [_ Hr]. rewrite Hp in Hr. apply guard_ok in Hr as [Hg Hr]. bprop. by split.
Qed.

Lemma retry_one_ok s peer id pub rnd now o : box_ok s o → box_ok s (retry_one peer id pub me rnd now o).
Proof.
  intros Hb. unfold retry_one. destruct (negb _); [done|]. cbv zeta. pose proof (resealed_ok s o (delete id (resealed o)) Hb) as Hb'.
  destruct (List.find _ _) as [r|] eqn:Ef; [|done]. destruct (bool_decide _); [done|].
  destruct (Reseal (default [] (o_signed r)) _ _ _ _) as [sl|] eqn:Er; [|done]. apply jobs_ok; [done|]. constructor; [|constructor].
  apply List.find_some in Ef as [Hin Hw]. bprop. cbn [with_resealed rows] in Hin. destruct Hb as (Hrows & _ & _). rewrite Forall_forall in Hrows.
  pose proof (Hrows r (proj2 (list_elem_of_In _ _) Hin)) as (i & Hi & E1 & E2 & _ & _ & Hr). match goal with H : is_open r = true |- _ => rewrite H in Hr end.
  destruct Hr as (p & e & Hs & _ & _ & Hsealed & _). rewrite Hs in Er. change (default [] (Some p)) with p in Er.
  assert (in_To i = peer) as Eto by congruence. destruct (seal_again _ _ _ _ _ _ _ Hsealed Eto Er) as [Hfrom Hsp]. cbn. split; [done|]. exists i, p, pub, rnd. split_and!; done.
Qed.

Lemma reseal_one_ok s fault peer from r old sl now o o' evs : (∀ i j, i ∈ sent s → j ∈ sent s → in_ID i = in_ID j → i = j) →
  box_ok s o → job_ok s (JReseal peer from r old sl) → reseal_one fault peer from r old sl now o = (o', evs) → box_ok s o' ∧ evs_ok s evs.
Proof.
  intros Huniq Hb (Hto & i & p & pub & rnd & Hi & Eid & Eto & -> & Hsealed & Hsp). unfold reseal_one. cbv zeta.
  destruct (fault || negb _); intros [= <- <-]; [split; [done|apply no_sends; intros e; apply not_elem_of_nil]|].
  destruct (sealPlain_ok _ _ _ _ _ _ _ Hsp) as (enc & ct & _ & _ & Esl). set (frame := MkEnv _ _ _ _ _ _).
  assert (frame_of i p frame) as Hfr.
  { unfold frame_of, frame. cbn. rewrite Eto. split_and!; [done|done|by rewrite Esl|]. by exists pub, rnd, sl. }
  split.
  - apply jobs_ok; [apply resealed_ok, rows_ok; [done|done|]|].
    + intros x Hx (j & Hj & E1 & E2 & E3 & E4 & Hr). unfold reseal_where, has_id in Hx. bprop. match goal with H : is_open x = true |- _ => rename H into Ho end.
      rewrite Ho in Hr. destruct Hr as (q & e & Hs & Hf & Hn & Hsq & _). assert (j = i) as -> by (apply Huniq; [done|done|congruence]).
      exists i. do 5 (split; [done|]). assert (is_open (resealed_row frame (KeyID_String (sl_KeyID sl)) now x) = true) as -> by done.
      exists p, frame. cbn. rewrite Hs. split_and!; [by rewrite (sealed_unique _ _ _ Hsq Hsealed)|done|done|done|done].
    + constructor; [|constructor]. exists i, p, frame. cbn. split_and!; try done; congruence.
  - apply no_sends. intros e He. by apply list_elem_of_singleton in He.
Qed.

Definition uniq_ids (s : sx) : Prop := ∀ i j, i ∈ sent s → j ∈ sent s → in_ID i = in_ID j → i = j.

Ltac st_final := rewrite !elem_of_cons; auto.

Lemma expire_ok s fault id to kind now o o' evs : uniq_ids s → box_ok s o → job_ok s (JExpire id to kind) → expire fault id to kind now o = (o', evs) →
  box_ok s o' ∧ evs_ok s evs.
Proof.
  intros Hu Hb (i & Hi & Eid & Hl). unfold expire. destruct (finish fault id [] MailExpired [] now o) as [[o1 evs1] b] eqn:E. intros [= <- <-].
  apply (finish_ok s) in E as [H1 H2]; [| |st_final|].
  - split; [done|]. intros e [He|He]%elem_of_app; [by apply H2|]. destruct b; [by apply list_elem_of_singleton in He|by apply elem_of_nil in He].
  - done.
  - intros r (j & Hj & E1 & _ & _ & E4 & _) Er _. right; left. split_and!; [done|done|]. assert (j = i) as -> by (apply Hu; [done|done|congruence]). by rewrite <- E4.
Qed.

Lemma run_job_ok s j i o o' evs : uniq_ids s → box_ok s o → job_ok s j → run_job j i o = (o', evs) → box_ok s o' ∧ evs_ok s evs.
Proof.
  intros Hu Hb Hj. assert (evs_ok s []) as H0 by (apply no_sends; intros e; apply not_elem_of_nil).
  destruct j as [id to kind|t|r check|r r0 o0|r t r0 o0|id to st err| |peer|peer id pub priv|peer from r old sl]; cbn [run_job].
  - by apply expire_ok.
  - intros [= <- <-]. split; [|done]. unfold purge. destruct (i_fault i); [done|]. destruct Hb as (H1 & H2 & H3).
    assert (∀ l, Forall (row_ok s) l → Forall (row_ok s) (List.filter (λ r, is_open r || negb (text_lt (o_updated r) (stamp (t - OutboxRetention)))) l)) as Hf.
    { intros l Hl. rewrite Forall_forall in *. intros x Hx. apply list_elem_of_In, filter_In in Hx as [Hx _]. by apply Hl, list_elem_of_In. }
    split_and!; cbn; [by apply Hf|done|]. clear -H3. induction (rows o) as [|r l IH]; [done|]. cbn in *. apply NoDup_cons in H3 as [H3 H4].
    destruct (_ || _); [|by apply IH]. cbn. apply NoDup_cons. split; [|by apply IH]. intros Hin. apply H3. apply list_elem_of_fmap in Hin as (x & E & Hx).
    apply list_elem_of_In, filter_In in Hx as [Hx _]. apply list_elem_of_fmap. exists x. by rewrite list_elem_of_In.
  - destruct (check && negb (i_paired i)); [|by apply begin_send_ok].
    pose proof (finish_done s (i_fault i) (du_id r) [] MailFailed ErrTextUnpaired (i_now i) o Hb ltac:(st_final)) as Hf.
    destruct (finish _ _ _ _ _ _ _) as [[o1 e1] b]. intros [= <- <-]. apply Hf. intros x _ _ _. right; right. split; [done|by left].
  - intros [= <- <-]. split; [by apply end_send_ok|done].
  - intros [= <- <-]. split; [by apply check_send_ok|done].
  - pose proof (finish_done s (i_fault i) id to st err (i_now i) o Hb) as Hf. destruct (finish _ _ _ _ _ _ _) as [[o1 e1] b]. intros [= <- <-]. apply Hf.
    + destruct Hj as (op & _ & _ & _ & [(-> & _)|[(-> & _)|(-> & _)]]); st_final.
    + intros x Hx Ex Hto. left. destruct Hj as (op & Hop & Hfrom & Hne & Hm). exists op. destruct Hto as [Hto|Hto]; [done|]. split_and!; try done; congruence.
  - intros [= <- <-]. split; [|done]. unfold ready_update. destruct (i_fault i); [done|]. apply next_ok; [done|]. intros x Hx. by bprop.
  - intros [= <- <-]. split; [|done]. unfold online_update. destruct (i_fault i); [done|]. apply next_ok; [done|]. intros x Hx. by bprop.
  - intros [= <- <-]. cbn in Hj. subst priv. split; [by apply retry_one_ok|done].
  - by apply reseal_one_ok.
Qed.

(** ** Every operation keeps it *)

Lemma box_grows s s' o : grows s s' → box_ok s o → box_ok s' o.
Proof.
  intros G (H1 & H2 & H3). split_and!; [| |done]; (eapply Forall_impl; [eassumption|]); intros x; [by apply row_ok_grows|by apply job_ok_grows].
Qed.
Lemma inv_box s : oinv s → box_ok s (box s).
Proof. intros I. split_and!; apply I. Qed.
Lemma inv_uniq s : oinv s → uniq_ids s.
Proof. intros I i j. by apply sent_unique. Qed.
(** A step that seals nothing. *)
Lemma box_step_inv s o acks evs ts : oinv s → grows s (Sx o (sent s) acks (events s ++ evs) ts) →
  box_ok (Sx o (sent s) acks (events s ++ evs) ts) o → evs_ok (Sx o (sent s) acks (events s ++ evs) ts) evs →
  oinv (Sx o (sent s) acks (events s ++ evs) ts).
Proof.
  intros I G (H1 & H2 & H3) He. split; [done|done|apply I|done| |].
  - intros e [Hin|Hin]%elem_of_app; [by apply (oi_sends _ I)|by apply He].
  - apply (oi_sealed _ I).
Qed.
Lemma quiet_inv s o acks ts : oinv s → grows s (Sx o (sent s) acks (events s) ts) → box_ok (Sx o (sent s) acks (events s) ts) o →
  oinv (Sx o (sent s) acks (events s) ts).
Proof.
  intros I G Hb. pose proof (box_step_inv s o acks [] ts I) as Hs. rewrite app_nil_r in Hs. apply Hs; [done|done|]. apply no_sends. intros e. apply not_elem_of_nil.
Qed.
Lemma grows_reads s o acks evs ts : (∀ a, a ∈ acked s → a ∈ acks) → (∀ t, t ∈ reads s → t ∈ ts) → grows s (Sx o (sent s) acks evs ts).
Proof. intros ??. by split_and!. Qed.

Lemma seal_mail_ok to kind raw paired pub has_key now rnd sl frame : in_years now →
  seal_mail to kind raw paired pub (own_key has_key) now rnd = Ok (sl, frame) →
  let i := mail_input to kind raw pub now rnd (sl_ID sl) in
  sealed_as i (sl_Signed sl) ∧ frame_of i (sl_Signed sl) frame ∧ sl_ID sl = NewID rnd.1.
Proof.
  intros Hy Hs i. unfold seal_mail in Hs. apply guard_ok in Hs as [_ Hs]. apply guard_ok in Hs as [_ Hs]. destruct pub as [pub|]; [|done].
  destruct has_key; [|done]. cbn [own_key] in Hs. set (j := MkSeal me to pub [] kind raw now rnd) in Hs. destruct (Seal j) as [sl'|] eqn:E; [|done].
  injection Hs as -> <-. destruct (Seal_id _ _ E) as [Hm Hid]. change (with_ID (sl_ID sl) j) with i in Hm.
  assert (sealed_as i (sl_Signed sl)) as Hsa by (split_and!; [done|done|done|by exists sl]). split; [done|].
  destruct (sealMsg_ok i sl Hy ltac:(by apply (hex_id_valid 0x6D)) Hm) as (_ & _ & _ & _ & Hsp & _). destruct (sealPlain_ok _ _ _ _ _ _ _ Hsp) as (enc & ct & _ & _ & Esl).
  split.
  - unfold frame_of, buildFrame. cbn. split_and!; [done|done|done|]. by exists pub, rnd.2, sl.
  - unfold Seal in E. cbn in E. apply guard_ok in E as [_ E]. unfold sealMsg in E. do 4 apply guard_ok in E as [_ E]. cbv zeta in E.
    apply rbind_ok in E as (? & _ & E). apply rbind_ok in E as (? & _ & E). apply rbind_ok in E as (? & _ & E).
    apply guard_ok in E as [_ E]. apply sealPlain_ok in E as (? & ? & _ & _ & ->). done.
Qed.

Lemma submit_inv s fault to kind raw paired pub has_key now rnd : oinv s → oop_ok (OpSubmit fault to kind raw paired pub has_key now rnd) s →
  oinv (oexec (OpSubmit fault to kind raw paired pub has_key now rnd) s).
Proof.
  intros I [Hy Hfresh]. cbn [oexec]. unfold Submit. destruct (seal_mail to kind raw paired pub (own_key has_key) now rnd) as [[sl frame]|] eqn:Es.
  2: { apply quiet_inv; [done| |].
       - apply grows_reads; [done|]. intros t Ht. by right.
       - apply (box_grows s); [apply grows_reads; [done|]; intros t Ht; by right|by apply inv_box]. }
  destruct (seal_mail_ok _ _ _ _ _ _ _ _ _ _ Hy Es) as (Hsa & Hfr & Hid). set (i := mail_input to kind raw pub now rnd (sl_ID sl)) in *.
  destruct (fault || existsb (has_id (sl_ID sl)) (rows (box s))) eqn:Ef.
  { apply quiet_inv; [done| |].
    - apply grows_reads; [done|]. intros t Ht. by right.
    - apply (box_grows s); [apply grows_reads; [done|]; intros t Ht; by right|by apply inv_box]. }
  apply orb_false_iff in Ef as [_ Ef]. match goal with |- oinv ?x => set (s' := x) end.
  assert (grows s s') as G. { split_and!; [intros x Hx; apply elem_of_app; by left|done|intros t Ht; by right]. }
  pose proof (box_grows _ _ _ G (inv_box _ I)) as (H1 & H2 & H3). split; cbn.
  - apply Forall_app. split; [done|]. constructor; [|constructor]. exists i. split; [apply elem_of_app; right; by left|].
    do 4 (split; [done|]). cbn. exists (sl_Signed sl), frame. by split_and!.
  - done.
  - rewrite map_app. apply NoDup_app. split; [apply I|]. split; [|apply NoDup_singleton]. intros x Hx ->%list_elem_of_singleton. cbn in Hx. by rewrite Hid in Hx.
  - rewrite map_app. apply NoDup_app. split; [done|]. split; [|apply NoDup_singleton]. intros x Hx ->%list_elem_of_singleton. cbn in Hx.
    apply list_elem_of_fmap in Hx as (r & E & Hr). apply list_elem_of_In in Hr. assert (existsb (has_id (sl_ID sl)) (rows (box s)) = true) as Hex; [|congruence].
    apply existsb_exists. exists r. split; [done|]. unfold has_id. by apply bool_decide_eq_true.
  - intros e He. destruct (oi_sends _ I e He) as (j & p & Hj & ?). exists j, p. split; [apply elem_of_app; by left|done].
  - intros j [Hj| ->%list_elem_of_singleton]%elem_of_app; [by apply (oi_sealed _ I)|]. by exists (sl_Signed sl).
Qed.

Lemma oexec_inv s op : oinv s → oop_ok op s → oinv (oexec op s).
Proof.
  intros I Hok. assert (∀ t, grows s (Sx (box s) (sent s) (acked s) (events s) (t :: reads s))) as G by (intros t; apply grows_reads; [done|]; intros u Hu; by right).
  pose proof (inv_box _ I) as Hb. destruct op as [| | |n i| |peer|op|fault code ref now|key now|peer ids pub hk|]; [by apply submit_inv|..]; cbn [oexec].
  - apply quiet_inv; [done|by apply G|]. pose proof (box_grows _ _ _ (G now) Hb) as Hb'. unfold sendDue. destruct fault; [done|]. apply jobs_ok; [done|].
    apply Forall_map. apply Forall_forall. intros r Hr. destruct Hb' as (H1 & _ & _). rewrite Forall_forall in H1.
    assert (r ∈ merge_sort next_le (List.filter (due now) (rows (box s)))) as Hr' by (eapply elem_of_sublist; [exact Hr|apply sublist_take]).
    rewrite merge_sort_Permutation in Hr'.
    apply list_elem_of_In, filter_In in Hr' as [Hin Hd]. apply list_elem_of_In in Hin. unfold due in Hd. bprop. apply as_due_ok; [by apply H1|done].
  - apply quiet_inv; [done|by apply G|]. pose proof (box_grows _ _ _ (G now) Hb) as Hb'. unfold maintain. destruct fault; [done|]. apply jobs_ok; [done|].
    apply Forall_app. split; [|constructor; [by left|constructor]]. apply Forall_map. apply Forall_forall. intros r Hr. apply list_elem_of_In, filter_In in Hr as [Hin Hd]. apply list_elem_of_In in Hin.
    apply andb_true_iff in Hd as [_ Hd]. destruct Hb' as (H1 & _ & _). rewrite Forall_forall in H1. destruct (H1 r Hin) as (j & Hj & E1 & _ & _ & E4 & _).
    exists j. split_and!; [done|done|]. rewrite E4. exists now. split; [by left|done].
  - unfold run_nth. destruct (jobs (box s) !! n) as [j|] eqn:Ej.
    2: { rewrite app_nil_r. apply quiet_inv; [done|by apply G|by apply (box_grows _ _ _ (G (i_now i)))]. }
    destruct (run_job j i _) as [o' evs] eqn:Er. pose proof (box_grows _ _ _ (G (i_now i)) Hb) as (H1 & H2 & H3).
    apply (run_job_ok (Sx (box s) (sent s) (acked s) (events s) (i_now i :: reads s))) in Er as [Hb' He].
    + apply box_step_inv; [done|exact (G (i_now i))|exact Hb'|exact He].
    + exact (inv_uniq s I).
    + split_and!; cbn; [done| |done]. rewrite Forall_forall in *. intros x Hx. apply H2. eapply elem_of_sublist; [exact Hx|apply sublist_delete].
    + rewrite Forall_forall in H2. apply H2. by eapply list_elem_of_lookup_2.
  - apply quiet_inv; [done|by apply grows_reads|]. apply (jobs_ok s _ [JReady] Hb). by constructor.
  - apply quiet_inv; [done|by apply grows_reads|]. apply (jobs_ok s _ [JOnline peer] Hb). by constructor.
  - cbn in Hok. match goal with |- oinv ?x => set (s' := x) end. assert (grows s s') as G' by (apply grows_reads; [intros a Ha; apply elem_of_app; by left|done]).
    apply quiet_inv; [done|done|]. apply jobs_ok; [by apply (box_grows _ _ _ G')|].
    assert (op ∈ acked s ++ [op]) as Hop by (apply elem_of_app; right; by left).
    rewrite !Forall_app, !Forall_map, !Forall_forall. split_and!; intros id Hid; exists op; split_and!; try done; auto.
  - destruct (HandleError fault code ref now (box s)) as [o' evs] eqn:Eh. assert (box_ok (Sx (box s) (sent s) (acked s) (events s) (now :: reads s)) o' ∧
      evs_ok (Sx (box s) (sent s) (acked s) (events s) (now :: reads s)) evs) as [Hb' He]; [|apply box_step_inv; [done|exact (G now)|exact Hb'|exact He]].
    pose proof (box_grows _ _ _ (G now) Hb) as Hb'. assert (evs_ok (Sx (box s) (sent s) (acked s) (events s) (now :: reads s)) []) as H0 by (apply no_sends; intros e; apply not_elem_of_nil).
    unfold HandleError in Eh. destruct (negb (ValidID ref)); [by injection Eh as <- <-|]. unfold classify in Eh. destruct (bool_decide (code ∈ _)) eqn:Ec; cbv iota in Eh.
    + pose proof (finish_done _ fault ref [] MailFailed code now (box s) Hb' ltac:(st_final)) as Hf. destruct (finish _ _ _ _ _ _ _) as [[o1 e1] b]. simplify_eq/=.
      apply Hf. intros r _ _ _. right; right. bprop. split; [done|]. cbn in Ec. rewrite !elem_of_cons in *. tauto.
    + clear Ec. destruct (bool_decide (code ∈ _)); simplify_eq/=; [|done]. split; [|done]. destruct fault; [done|]. apply rows_ok; [done|done|].
      intros r Hr Hro. bprop. pose proof Hro as (j & _ & _ & _ & _ & _ & Hrow). assert (is_open r = true) as Ho.
      { unfold is_open. match goal with H : o_state r = _ |- _ => rewrite H end. done. }
      rewrite Ho in Hrow. destruct Hrow as (p & e & _ & _ & Hn & _). by apply (row_open _ r).
  - apply quiet_inv; [done|by apply G|]. apply rows_ok; [by apply (box_grows _ _ _ (G now))|done|]. intros r Hr Hro. bprop. apply row_final; [done|done|st_final|].
    right; right. split; [done|by left].
  - apply quiet_inv; [done|by apply grows_reads|]. unfold Retry. destruct pub as [pub|]; [|done]. destruct hk; [|done]. cbn [own_key]. apply jobs_ok; [done|].
    apply Forall_map, Forall_forall. intros id _. done.
  - apply quiet_inv; [done|by apply grows_reads|]. destruct Hb as (H1 & _ & H3). by split_and!.
Qed.

Lemma oreach_inv s : oreach s → oinv s.
Proof.
  induction 1 as [|s op Hs IH Hok]; [|by apply oexec_inv]. split; cbn; try constructor; intros ? Hx; by apply elem_of_nil in Hx.
Qed.

(** ** The life of a row *)

Definition ostep (s s' : sx) : Prop := ∃ op, oop_ok op s ∧ s' = oexec op s.

(** What a row may become: an open row keeps its mail, and its plaintext while
    it is open; a final row does not change. *)
Definition kept (r r' : orow) : Prop :=
  if is_open r
  then o_id r' = o_id r ∧ o_to r' = o_to r ∧ o_kind r' = o_kind r ∧ o_created r' = o_created r ∧ (is_open r' = true → o_signed r' = o_signed r)
  else r' = r.
Definition gone (id : bytes) (l : list orow) : Prop := id ∉ map o_id l.
(** A final row that the purge at one of the readings [ts] may delete. *)
Definition overdue (ts : list Z) (r : orow) : Prop :=
  is_open r = false ∧ ∃ t, t ∈ ts ∧ text_lt (o_updated r) (stamp (t - OutboxRetention)) = true.
Definition moved (ts : list Z) (l l' : list orow) : Prop :=
  ∀ r, r ∈ l → (∃ r', r' ∈ l' ∧ kept r r') ∨ overdue ts r ∧ gone (o_id r) l'.
Lemma kept_refl r : kept r r.
Proof. unfold kept. by destruct (is_open r). Qed.
Lemma kept_id r r' : kept r r' → o_id r' = o_id r.
Proof. unfold kept. destruct (is_open r); [naive_solver|by intros ->]. Qed.
Lemma kept_trans r1 r2 r3 : kept r1 r2 → kept r2 r3 → kept r1 r3.
Proof.
  unfold kept. destruct (is_open r1) eqn:E1; [|by intros ->; rewrite E1].
  intros (A1 & A2 & A3 & A4 & A5). destruct (is_open r2) eqn:E2.
  - intros (B1 & B2 & B3 & B4 & B5). split_and!; try congruence. intros E3. rewrite B5 by done. by apply A5.
  - intros ->. split_and!; try done. congruence.
Qed.
Lemma moved_refl ts l : moved ts l l.
Proof. intros r Hr. left. exists r. split; [done|apply kept_refl]. Qed.
Lemma moved_update ts p f l : (∀ r, p r = true → is_open r = true ∧ o_id (f r) = o_id r ∧ o_to (f r) = o_to r ∧ o_kind (f r) = o_kind r ∧
    o_created (f r) = o_created r ∧ (is_open (f r) = true → o_signed (f r) = o_signed r)) → moved ts l (update p f l).
Proof.
  intros Hf r Hr. left. exists (if p r then f r else r). split; [apply list_elem_of_fmap; by exists r|]. destruct (p r) eqn:E; [|apply kept_refl].
  destruct (Hf r E) as (Ho & ?). unfold kept. by rewrite Ho.
Qed.
Lemma row_unique l r r' : NoDup (map o_id l) → r ∈ l → r' ∈ l → o_id r = o_id r' → r' = r.
Proof.
  intros Hd Hr Hr' E. apply list_elem_of_lookup in Hr as [n Hn]. apply list_elem_of_lookup in Hr' as [m Hm].
  assert (n = m) as ->; [|congruence]. eapply (NoDup_lookup _ n m (o_id r)); [exact Hd| |]; rewrite list_lookup_fmap; [by rewrite Hn|by rewrite Hm, E].
Qed.

Definition advances (ts : list Z) (o o' : outbox) : Prop := moved ts (rows o) (rows o') ∧ ∀ id, id ∈ map o_id (rows o') → id ∈ map o_id (rows o).

Lemma advances_same ts o o' : rows o' = rows o → advances ts o o'.
Proof. intros E. unfold advances. rewrite E. split; [apply moved_refl|done]. Qed.
Lemma advances_update ts p f o o' : rows o' = update p f (rows o) → (∀ r, o_id (f r) = o_id r) →
  (∀ r, p r = true → is_open r = true ∧ o_to (f r) = o_to r ∧ o_kind (f r) = o_kind r ∧ o_created (f r) = o_created r ∧ (is_open (f r) = true → o_signed (f r) = o_signed r)) →
  advances ts o o'.
Proof.
  intros E Hid Hf. split; rewrite E; [|by rewrite update_ids]. apply moved_update. intros r Hr. destruct (Hf r Hr) as (? & ? & ? & ? & ?). by split_and!.
Qed.
Lemma finished_closed st err now r : st ∈ [MailDelivered; MailExpired; MailFailed] → is_open (finished st err now r) = false.
Proof. unfold is_open. cbn. rewrite !elem_of_cons, elem_of_nil. intros Hst. apply orb_false_iff. rewrite !bool_decide_eq_false. naive_solver. Qed.
Lemma finish_advances ts fault id to st err now o : st ∈ [MailDelivered; MailExpired; MailFailed] →
  let '(o', _, _) := finish fault id to st err now o in advances ts o o'.
Proof.
  intros Hst. unfold finish. destruct fault; [by apply advances_same|]. destruct (List.find _ _); [|by apply advances_same].
  eapply advances_update; [done|done|]. intros x Hx. unfold finish_where in Hx. bprop. split_and!; try done. by rewrite finished_closed.
Qed.
Lemma next_advances ts p now o o' : rows o' = update p (set_next (Some (stamp now))) (rows o) → (∀ r, p r = true → o_state r = MailQueued) → advances ts o o'.
Proof. intros E Hp. eapply advances_update; [exact E|done|]. intros r Hr. split_and!; try done. by apply queued_open, Hp. Qed.

Lemma run_job_advances s j i o o' evs : NoDup (map o_id (rows o)) → job_ok s j → run_job j i o = (o', evs) → advances (reads s) o o'.
Proof.
  intros Hd Hj. destruct j as [id to kind|t|r check|r r0 o0|r t r0 o0|id to st err| |peer|peer id pub priv|peer from r old sl]; cbn [run_job].
  - unfold expire. pose proof (finish_advances (reads s) (i_fault i) id [] MailExpired [] (i_now i) o ltac:(st_final)) as Hf. destruct (finish _ _ _ _ _ _ _) as [[o1 e1] b]. by intros [= <- <-].
  - intros [= <- <-]. unfold purge. destruct (i_fault i); [by apply advances_same|]. cbn. set (keep := λ r, is_open r || negb (text_lt (o_updated r) (stamp (t - OutboxRetention)))).
    assert (∀ r, r ∈ List.filter keep (rows o) ↔ r ∈ rows o ∧ keep r = true) as Hin by (intros r; rewrite !list_elem_of_In; apply filter_In).
    split; cbn.
    + intros r Hr. destruct (keep r) eqn:E; [left; exists r; split; [by apply Hin|apply kept_refl]|]. right.
      unfold keep in E. apply orb_false_iff in E as [Ho Ht]. apply negb_false_iff in Ht. split; [split; [done|]; by exists t|].
      intros Hin'. apply list_elem_of_fmap in Hin' as (r' & E' & Hr'). apply Hin in Hr' as [Hr' Hk]. assert (r' = r) as ->; [by apply (row_unique (rows o))|].
      unfold keep in Hk. rewrite Ho, Ht in Hk. done.
    + intros id Hid. apply list_elem_of_fmap in Hid as (r & -> & Hr). apply Hin in Hr as [Hr _]. apply list_elem_of_fmap. by exists r.
  - destruct (check && negb (i_paired i)).
    + pose proof (finish_advances (reads s) (i_fault i) (du_id r) [] MailFailed ErrTextUnpaired (i_now i) o ltac:(st_final)) as Hf. destruct (finish _ _ _ _ _ _ _) as [[o1 e1] b]. by intros [= <- <-].
    + unfold begin_send. destruct (du_frame r); [intros [= <- <-]; by apply advances_same|].
      pose proof (finish_advances (reads s) (i_fault i) (du_id r) [] MailFailed ErrTextBadFrame (i_now i) o ltac:(st_final)) as Hf. destruct (finish _ _ _ _ _ _ _) as [[o1 e1] b]. by intros [= <- <-].
  - intros [= <- <-]. unfold end_send. cbv zeta. destruct (i_fault i).
    + destruct (i_sender i && i_sent i); by apply advances_same.
    + eapply (advances_update _ (λ x, has_id (du_id r) x && is_open x) (sent_row (i_sender i && i_sent i) (stamp (i_now i + i_delay i)) (stamp (i_now i))));
        [by destruct (i_sender i && i_sent i)|done|]. intros x Hx. bprop. by split_and!.
  - intros [= <- <-]. unfold check_send. destruct (negb _ && negb _); [|by apply advances_same]. eapply next_advances; [done|]. intros x Hx. unfold send_now in Hx. by bprop.
  - pose proof (finish_advances (reads s) (i_fault i) id to st err (i_now i) o) as Hf. destruct (finish _ _ _ _ _ _ _) as [[o1 e1] b]. intros [= <- <-]. apply Hf.
    destruct Hj as (op & _ & _ & _ & [(-> & _)|[(-> & _)|(-> & _)]]); st_final.
  - intros [= <- <-]. unfold ready_update. destruct (i_fault i); [by apply advances_same|]. eapply next_advances; [done|]. intros x Hx. cbv beta in Hx. by bprop.
  - intros [= <- <-]. unfold online_update. destruct (i_fault i); [by apply advances_same|]. eapply next_advances; [done|]. intros x Hx. cbv beta in Hx. by bprop.
  - intros [= <- <-]. apply advances_same. unfold retry_one. cbv zeta. repeat case_match; done.
  - unfold reseal_one. cbv zeta. destruct (i_fault i || negb _); intros [= <- <-]; [by apply advances_same|]. eapply advances_update; [done|done|].
    intros x Hx. unfold reseal_where in Hx. bprop. by split_and!.
Qed.

(** A step moves the rows, and a row it adds has an id no mail had. *)
Lemma step_moved s op : oinv s → oop_ok op s → moved (reads s) (rows (box s)) (rows (box (oexec op s))) ∧
  (∀ id, id ∈ map o_id (rows (box (oexec op s))) → id ∈ map o_id (rows (box s)) ∨ id ∉ map in_ID (sent s)).
Proof.
  intros I Hok. assert (∀ o, advances (reads s) (box s) o → moved (reads s) (rows (box s)) (rows o) ∧ ∀ id, id ∈ map o_id (rows o) → id ∈ map o_id (rows (box s)) ∨ id ∉ map in_ID (sent s)) as Hadv.
  { intros o [Hm Hid]. split; [done|]. intros id H'. left. by apply Hid. }
  destruct op as [fault to kind raw paired pub hk now rnd|fault now|fault now|n i| |peer|op|fault code ref now|key now|peer ids pub hk|]; cbn [oexec].
  - destruct Hok as [Hy Hfresh]. unfold Submit. destruct (seal_mail to kind raw paired pub (own_key hk) now rnd) as [[sl frame]|] eqn:Es; [|by apply Hadv, advances_same].
    destruct (seal_mail_ok _ _ _ _ _ _ _ _ _ _ Hy Es) as (_ & _ & Hid). destruct (fault || existsb _ _); [by apply Hadv, advances_same|]. cbn. split.
    + intros r Hr. left. exists r. split; [apply elem_of_app; by left|apply kept_refl].
    + intros id. rewrite map_app. intros [Hin| ->%list_elem_of_singleton]%elem_of_app; [by left|right]. cbn. by rewrite Hid.
  - apply Hadv, advances_same. by destruct fault.
  - apply Hadv, advances_same. by destruct fault.
  - unfold run_nth. destruct (jobs (box s) !! n) as [j|] eqn:Ej; [|by apply Hadv, advances_same]. destruct (run_job j i _) as [o' evs] eqn:Er. apply Hadv.
    pose proof (oi_jobs _ I) as Hj. rewrite Forall_forall in Hj. apply list_elem_of_lookup_2 in Ej.
    destruct (run_job_advances s j i (with_jobs (delete n (jobs (box s))) (box s)) o' evs (oi_rowids _ I) (Hj j Ej) Er) as [Hm Hid]. by split.
  - by apply Hadv, advances_same.
  - by apply Hadv, advances_same.
  - by apply Hadv, advances_same.
  - unfold HandleError. destruct (negb (ValidID ref)); [by apply Hadv, advances_same|]. destruct (classify code) as [text| |].
    + pose proof (finish_advances (reads s) fault ref [] MailFailed text now (box s) ltac:(st_final)) as Hf. destruct (finish _ _ _ _ _ _ _) as [[o1 e1] b]. by apply Hadv.
    + destruct fault; [by apply Hadv, advances_same|]. apply Hadv. eapply advances_update; [done|done|]. intros x Hx. cbv beta in Hx. bprop. unfold is_open.
      match goal with E : o_state x = _ |- _ => rewrite E end. by split_and!.
    + by apply Hadv, advances_same.
  - apply Hadv. eapply advances_update; [done|done|]. intros x Hx. cbv beta in Hx. bprop. by split_and!.
  - unfold Retry. destruct pub; [|by apply Hadv, advances_same]. destruct (own_key hk); by apply Hadv, advances_same.
  - by apply Hadv, advances_same.
Qed.

Lemma sent_grows s op : ∀ i, i ∈ sent s → i ∈ sent (oexec op s).
Proof.
  intros i Hi. destruct op; cbn [oexec]; try done.
  - destruct (Submit _ _ _ _ _ _ _ _ _ _) as [[id|e] o]; [apply elem_of_app; by left|done].
  - by destruct (run_nth _ _ _).
  - by destruct (HandleError _ _ _ _ _).
Qed.
Lemma row_sent s r : oinv s → r ∈ rows (box s) → o_id r ∈ map in_ID (sent s).
Proof.
  intros I Hr. pose proof (oi_rows _ I) as Hf. rewrite Forall_forall in Hf. destruct (Hf r Hr) as (i & Hi & E & _).
  apply list_elem_of_fmap. by exists i.
Qed.

(** The row [r] was deleted by the purge: on the way it was final, and its last
    change thirty days before a reading of the clock. *)
Definition purged (s s' : sx) (r : orow) : Prop :=
  gone (o_id r) (rows (box s')) ∧
  ∃ s1 rf, rtc ostep s s1 ∧ rtc ostep s1 s' ∧ rf ∈ rows (box s1) ∧ kept r rf ∧ overdue (reads s1) rf.

Lemma gone_steps s s' id : rtc ostep s s' → oreach s → id ∈ map in_ID (sent s) → gone id (rows (box s)) → gone id (rows (box s')).
Proof.
  induction 1 as [s|s1 s2 s3 (op & Hok & ->) Hs IH]; [done|]. intros Hr Hid Hg. pose proof (oreach_inv _ Hr) as I.
  destruct (step_moved _ _ I Hok) as [_ Hnew]. apply IH; [by apply oreach_step| |].
  - apply list_elem_of_fmap in Hid as (i & -> & Hi). apply list_elem_of_fmap. exists i. split; [done|by apply sent_grows].
  - intros Hin. by destruct (Hnew _ Hin).
Qed.
Lemma life_steps s s' : rtc ostep s s' → oreach s → ∀ r, r ∈ rows (box s) → (∃ r', r' ∈ rows (box s') ∧ kept r r') ∨ purged s s' r.
Proof.
  induction 1 as [s|s1 s2 s3 (op & Hok & ->) Hs IH]; intros Hr r Hin.
  - left. exists r. split; [done|apply kept_refl].
  - pose proof (oreach_inv _ Hr) as I. destruct (step_moved _ _ I Hok) as [Hm _]. pose proof (oreach_step _ _ Hr Hok) as Hr2.
    assert (ostep s1 (oexec op s1)) as Hone by (by exists op).
    destruct (Hm r Hin) as [(r' & Hr' & Hk)|[Ho Hg]].
    + destruct (IH Hr2 r' Hr') as [(r'' & Hr'' & Hk')|(Hg & sm & rf & S1 & S2 & Hrf & Hkf & Ho)].
      * left. exists r''. split; [done|by eapply kept_trans].
      * right. split; [by rewrite <- (kept_id _ _ Hk)|]. exists sm, rf. split_and!; [by eapply rtc_l|done|done|by eapply kept_trans|done].
    + right. split.
      * eapply gone_steps; [exact Hs|done| |done]. apply (row_sent _ _ I) in Hin. apply list_elem_of_fmap in Hin as (i & -> & Hi).
        apply list_elem_of_fmap. exists i. split; [done|by apply sent_grows].
      * exists s1, r. split_and!; [done|by eapply rtc_l|done|apply kept_refl|done].
Qed.

(** C10: safety. However sends, acks, errors, retries, expiry and removal
    interleave: a row keeps its mail and, while it is open, the very plaintext
    that was signed at submit, and once final it never changes again. A row
    disappears only when it has become final and the purge finds its last
    change thirty days before a reading of the clock, so an open row never
    does; and no later row takes its id. *)
Theorem outbox_lifecycle s s' r : oreach s → rtc ostep s s' → r ∈ rows (box s) →
  (∃ r', r' ∈ rows (box s') ∧ if is_open r
    then o_id r' = o_id r ∧ o_to r' = o_to r ∧ o_kind r' = o_kind r ∧ o_created r' = o_created r ∧ (is_open r' = true → o_signed r' = o_signed r)
    else r' = r) ∨
  gone (o_id r) (rows (box s')) ∧
  ∃ s1 rf, rtc ostep s s1 ∧ rtc ostep s1 s' ∧ rf ∈ rows (box s1) ∧ o_id rf = o_id r ∧ is_open rf = false ∧
    ∃ t, t ∈ reads s1 ∧ text_lt (o_updated rf) (stamp (t - OutboxRetention)) = true.
Proof.
  intros Hr Hs Hin. destruct (life_steps _ _ Hs Hr r Hin) as [?|(Hg & s1 & rf & S1 & S2 & Hrf & Hk & Ho & Ht)]; [by left|].
  right. split; [done|]. exists s1, rf. split_and!; try done. by apply kept_id.
Qed.

(** C11: invariant. Every open row holds the plaintext of a mail sealed here
    and a frame that seals exactly it to the row's peer under the row's id; a
    final row holds neither, and has its cause: an ack of that very recipient
    that lists the id, seven days, or a failure that is no ack. Whatever is
    handed to the relay is such a frame. *)
Theorem outbox_rows_explained s : oreach s →
  (∀ r, r ∈ rows (box s) → ∃ i, i ∈ sent s ∧ in_ID i = o_id r ∧ in_To i = o_to r ∧ in_Kind i = o_kind r ∧ wireTime (in_Created i) = o_created r ∧
     if is_open r
     then ∃ p e, o_signed r = Some p ∧ o_frame r = Some e ∧ is_Some (o_next r) ∧ sealed_as i p ∧ frame_of i p e
     else o_signed r = None ∧ o_frame r = None ∧ o_next r = None ∧
          final_cause s (o_id r) (o_to r) (o_created r) (o_state r) (default [] (o_error r))) ∧
  (∀ e, OSend e ∈ events s → ∃ i p, i ∈ sent s ∧ sealed_as i p ∧ frame_of i p e).
Proof.
  intros Hr. pose proof (oreach_inv _ Hr) as I. split; [|apply I]. intros r Hin. pose proof (oi_rows _ I) as Hf. rewrite Forall_forall in Hf. by apply Hf.
Qed.

End Runs.

(** ** A concrete run: a mail is submitted, handed to the relay and acked *)

#[local] Existing Instance demo_crypto.
#[local] Existing Instance demo_sign_laws.
#[local] Existing Instance demo_hpke.
#[local] Existing Instance demo_hpke_laws.

Definition sx_start : sx := Sx (Outbox [] 0 ∅ ∅ []) [] [] [] [].
Definition op_note : oop := OpSubmit false mail_self (bytes_of "note") (Some (jq "{'text':'hi'}")) true (Some mail_box) true mail_now (repeat 1 16, []).
Definition relay_ok : inputs := Inputs false mail_now true true true (6 * hour) [].
(** The recipient's ack of the mail. *)
Definition ack_opened : Opened :=
  MkOpened (MkMsg 1 (NewID (repeat 2 16)) mail_self (sender mail_in) mail_now kind_ack [(AckIDs, VArray [VString (sl_ID mail_sl)])]) [] [].
Definition sx_run (ops : list oop) (s : sx) : sx := fold_left (λ s op, oexec mail_priv op s) ops s.
Definition sx_note : sx := oexec mail_priv op_note sx_start.
Definition sx_relayed : sx := sx_run [OpScan false mail_now; OpJob 0 relay_ok; OpJob 0 relay_ok] sx_note.
Definition sx_acked : sx := sx_run [OpAck ack_opened; OpJob 0 relay_ok] sx_relayed.

Lemma op_note_ok : oop_ok op_note sx_start.
Proof. split; [exact (proj1 mail_times)|]. apply not_elem_of_nil. Qed.
Lemma ops_reach me s ops : (∀ op s, op ∈ ops → oop_ok op s) → oreach me s → oreach me (fold_left (λ s op, oexec me op s) ops s) ∧
  rtc (ostep me) s (fold_left (λ s op, oexec me op s) ops s).
Proof.
  revert s. induction ops as [|op ops IH]; intros s Hok Hs; [by split|]. cbn [fold_left].
  destruct (IH (oexec me op s)) as [H1 H2]; [intros; apply Hok; by right|apply oreach_step; [done|apply Hok; by left]|]. split; [done|].
  eapply rtc_l; [|exact H2]. exists op. split; [apply Hok; by left|done].
Qed.
Lemma sx_note_reach : oreach mail_priv sx_note.
Proof. apply oreach_step; [apply oreach_init|exact op_note_ok]. Qed.
Lemma sx_relayed_reach : oreach mail_priv sx_relayed ∧ rtc (ostep mail_priv) sx_note sx_relayed.
Proof. apply ops_reach; [|exact sx_note_reach]. intros op s Hop. rewrite !elem_of_cons, elem_of_nil in Hop. by destruct Hop as [->|[->|[->|[]]]]. Qed.
Lemma sx_acked_reach : oreach mail_priv sx_acked ∧ rtc (ostep mail_priv) sx_relayed sx_acked.
Proof. apply ops_reach; [|apply sx_relayed_reach]. intros op s Hop. rewrite !elem_of_cons, elem_of_nil in Hop. by destruct Hop as [->|[->|[]]]. Qed.

Lemma sx_noted_acked : rtc (ostep mail_priv) sx_note sx_acked.
Proof. etrans; [exact (proj2 sx_relayed_reach)|exact (proj2 sx_acked_reach)]. Qed.

Definition note_row : orow := new_row mail_self (bytes_of "note") mail_sl (buildFrame mail_priv mail_self mail_sl mail_now) mail_now.
Definition acked_row : orow :=
  finished MailDelivered [] mail_now (sent_row true (stamp (mail_now + 6 * hour)) (stamp mail_now) note_row).
Lemma sx_rows : rows (box sx_note) = [note_row] ∧ rows (box sx_acked) = [acked_row] ∧ events sx_relayed = [OSend (buildFrame mail_priv mail_self mail_sl mail_now)].
Proof. split_and!; vm_compute; reflexivity. Qed.

Lemma outbox_lifecycle_witness : o_to acked_row = o_to note_row ∧ o_state acked_row = MailDelivered.
Proof.
  destruct sx_rows as (R1 & R2 & _).
  assert (note_row ∈ rows (box sx_note)) as Hin by (rewrite R1; by left).
  destruct (outbox_lifecycle mail_priv sx_note sx_acked note_row sx_note_reach sx_noted_acked Hin)
    as [(r' & Hr' & Hk)|[Hg _]].
  - rewrite R2 in Hr'. apply list_elem_of_singleton in Hr' as ->. destruct Hk as (_ & Hto & _). split; [exact Hto|reflexivity].
  - exfalso. unfold gone in Hg. rewrite R2 in Hg. apply Hg. by left.
Defined.
Lemma outbox_rows_explained_witness : env_To (buildFrame mail_priv mail_self mail_sl mail_now) = mail_self ∧ map in_To (sent sx_relayed) = [mail_self].
Proof.
  split; [|vm_compute; reflexivity]. destruct (proj2 (outbox_rows_explained mail_priv sx_relayed (proj1 sx_relayed_reach)) (buildFrame mail_priv mail_self mail_sl mail_now)) as (i & p & Hi & _ & _ & Hto & _).
  - rewrite (proj2 (proj2 sx_rows)). by left.
  - rewrite Hto. assert (sent sx_relayed = [mail_sent]) as Es by (vm_compute; reflexivity). rewrite Es in Hi. apply list_elem_of_singleton in Hi as ->. reflexivity.
Defined.
