(* ===== verification/MailLimits.v ===== *)
(** * Limits of the mail layer (internal/mail/audit.go, keys.go)

    RejectAudit writes the audit rows of refused mail, at most thirty a minute
    and each (peer, id) once; KeyMiss answers mail sealed to a key that is
    gone. The locked sections are the steps. The clock is read by the caller
    of a step. Report's counters are unbounded integers here; only the count
    of the window and the ring decide anything, and both are bounded. *)

From S2P Require Import Prelude Utf8 Canonical Strconv WireTime Body RequestObject Signing MailMessage MailOpen MailReceiver.
From stdpp Require Import gmap.

Open Scope Z_scope.
Open Scope go_scope.

Definition rejectsPerMinute : Z := 30.
Definition maxAuditedSeen : nat := 4096.

(** auditable: the relay alone cannot have caused the reject. *)
Definition auditable (re : RejectError) : bool :=
  if bool_decide (Reason re = ReasonBadBody) || bool_decide (Reason re = ReasonLimit) then true else
  if (Step re <? 8) || (12 <? Step re) || (Step re =? 11) then false else
  negb (Step re =? 12) || negb (Past re).

Record reject_audit := RAudit { window : Z; rcount : Z; suppressed : Z; seen : gset bytes; seenRing : list bytes }.
Definition NewRejectAudit : reject_audit := RAudit zeroTime 0 0 ∅ [].

Inductive reject_event :=
| RLine (reason : option reject_reason) (step : Z) (peer : bytes)     (* the limited line mail_reject *)
| RCounted (reason : option reject_reason)                            (* CountLogged *)
| RSuppressed (n : Z)                                                 (* mail_reject_suppressed *)
| RAppend (peer : bytes) (reason : reject_reason) (id : option bytes).

Definition seen_key (peer id : bytes) : bytes := peer ++ [0] ++ id.
(** The window of a reading, with the line about the one it ends. *)
Definition open_window (now : Z) (a : reject_audit) : reject_audit * list reject_event :=
  if minute <=? Sub now (window a)
  then (RAudit now 0 0 (seen a) (seenRing a), if 0 <? suppressed a then [RSuppressed (suppressed a)] else [])
  else (a, []).
(** The key takes the place of the oldest once the ring is full. *)
Definition remember (key : bytes) (a : reject_audit) : reject_audit :=
  let full := (maxAuditedSeen <=? length (seenRing a))%nat in
  RAudit (window a) (rcount a + 1) (suppressed a)
    ({[ key ]} ∪ match seenRing a with k :: _ => if full then seen a ∖ {[ k ]} else seen a | [] => seen a end)
    ((if full then tail (seenRing a) else seenRing a) ++ [key]).
(** [err] is None for an error that is no RejectError. *)
Definition Report (peer id : bytes) (err : option RejectError) (now : Z) (a : reject_audit) : reject_audit * list reject_event :=
  let reason := option_map Reason err in
  let line := RLine reason (default 0 (option_map Step err)) peer in
  match err with
  | Some re =>
      if auditable re then
        let key := seen_key peer id in
        if bool_decide (key ∈ seen a) then (a, [line]) else
        let '(a, evs) := open_window now a in
        if rcount a <? rejectsPerMinute
        then (remember key a, line :: evs ++ [RAppend peer (Reason re) (if ValidID id then Some id else None)])
        else (RAudit (window a) (rcount a) (suppressed a + 1) (seen a) (seenRing a), line :: evs)
      else (a, line :: if bool_decide (Reason re = ReasonUnpaired) then [] else [RCounted reason])
  | None => (a, [line; RCounted reason])
  end.

(** ** Kind keys (keys.go) *)

Definition KeyMissWindow : Z := 10 * minute.
Definition maxPending : nat := 256.

(** KeysKind: [merge] stores the announcement of the peer. *)
Definition KeysKind {X} (merge : bytes → bytes → X → result apply_error X) : kind_handler X :=
  MkKind false
    (Some (λ op x, match option_map CanonicalValue (member (bytes_of "announcement") (MsgBody (op_Msg op))) with
                   | Some (Ok ann) => merge (From (op_Msg op)) ann x
                   | _ => Err ApplyOther
                   end)) true.
(** Its After: the ids handed to onRetry, if any. *)
Definition keys_retry (op : Opened) : list bytes := stringList (member (bytes_of "retry") (MsgBody (op_Msg op))).

(** sendDirect: None without an error when there is no mailbox key. *)
Definition sendDirect `{Crypto} `{Hpke} (peer : bytes) (raw : bytes) (pub priv : option bytes) (t_seal t_env : Z) (rnd : bytes * bytes) :
    result seal_error (option Envelope) :=
  match pub with
  | None => Ok None
  | Some pub =>
      match priv with
      | None => Err NoIdentityKey
      | Some priv =>
          match Seal (MkSeal priv peer pub [] kind_keys (Some raw) t_seal rnd) with
          | Err e => Err e
          | Ok sl => Ok (Some (MkEnv (b64_encode (ed25519_Public priv)) peer (bytes_of "mail") (sl_ID sl) (wireTime t_env) (sl_Payload sl)))
          end
      end
  end.

Record key_miss := KeyMiss { km_pending : gmap bytes (list bytes); km_last : gmap bytes Z; km_waiting : gset bytes }.
Definition NewKeyMiss : key_miss := KeyMiss ∅ ∅ ∅.

(** What Note does after its locked section. *)
Inductive note_next := NoteDone | NoteTimer (wait : Z) | NoteFlush.
Definition Note (peer id : bytes) (now : Z) (m : key_miss) : key_miss * note_next :=
  if negb (ValidID id) then (m, NoteDone) else
  let set := default [] (km_pending m !! peer) in
  let pending := if (length set <? maxPending)%nat && negb (bool_decide (id ∈ set)) then <[peer := set ++ [id]]> (km_pending m) else km_pending m in
  match km_last m !! peer with
  | Some t =>
      let wait := KeyMissWindow - Sub now t in
      if 0 <? wait then
        if bool_decide (peer ∈ km_waiting m) then (KeyMiss pending (km_last m) (km_waiting m), NoteDone)
        else (KeyMiss pending (km_last m) ({[ peer ]} ∪ km_waiting m), NoteTimer wait)
      else (KeyMiss pending (km_last m) (km_waiting m), NoteFlush)
  | None => (KeyMiss pending (km_last m) (km_waiting m), NoteFlush)
  end.
(** Flush's first section: the ids of the reply. *)
Definition flush_take (peer : bytes) (m : key_miss) : key_miss * list bytes :=
  (KeyMiss (delete peer (km_pending m)) (km_last m) (km_waiting m ∖ {[ peer ]}), default [] (km_pending m !! peer)).
(** Its last section, after a reply that was sent. *)
Definition flush_sent (peer : bytes) (now : Z) (m : key_miss) : key_miss :=
  KeyMiss (km_pending m) (<[peer := now]> (km_last m)) (km_waiting m).
(** Flush without another step in between; [sent] is whether the announcement
    could be read and the reply sent. The reply's ids, if it was sent. *)
Definition Flush (peer : bytes) (sent : bool) (now : Z) (m : key_miss) : key_miss * option (list bytes) :=
  let '(m, retry) := flush_take peer m in
  match retry with
  | [] => (m, None)
  | _ => if sent then (flush_sent peer now m, Some retry) else (m, None)
  end.

(** ** What is audited was signed by the peer *)

Section Audited.
Context `{SL : SignLaws} `{HP : Hpke}.

(** What an own mailbox key opens the payload to, as step 4 does. *)
Definition payload_opens (o : Opener) (env : Envelope) (plain : bytes) : Prop :=
  let p := env_Payload env in
  let kid := slice_ 1 (1 + KeyIDLen) p in
  ∃ priv, MailboxKey o kid = Some priv ∧
    hpke_Open priv (slice_ (1 + KeyIDLen) (1 + KeyIDLen + encLen) p) (buildInfo (env_From env) (env_To env) kid) (env_ID env)
      (drop (Z.to_nat (1 + KeyIDLen + encLen)) p) = Some plain.
(** The payload holds a message of the envelope's sender, with its signature
    under the mail's tag. *)
Definition peer_signed (o : Opener) (env : Envelope) : Prop :=
  ∃ plain gen msg sig key canon, payload_opens o env plain ∧ parseSigned plain = Some (gen, msg, sig) ∧ decodeKey (env_From env) = Some key ∧
    CanonicalValue (VObject gen) = Ok canon ∧ ed25519_Verify key (msgTag ++ canon) sig = true ∧ From msg = env_From env.

Lemma or_reject_err {A B} step r (o : option A) (k : A → result RejectError B) e : rbind (or_reject step r o) k = Err e →
  e = Reject step r false ∨ ∃ a, o = Some a ∧ k a = Err e.
Proof. destruct o; cbn; [|by intros [= ->]; left]. intros ?. right. by eexists. Qed.
Lemma guard_err {B} (b : bool) x (k : result RejectError B) e : (guard? b else x in k) = Err e → e = x ∨ b = true ∧ k = Err e.
Proof. destruct b; cbn; [by right|by intros [= ->]; left]. Qed.

Lemma or_reject_ok {A B} step r (o : option A) (k : A → result RejectError B) b : rbind (or_reject step r o) k = Ok b → ∃ a, o = Some a ∧ k a = Ok b.
Proof. destruct o; [|done]. intros ?. by eexists. Qed.
Lemma canon_some {E A} (r : result E A) a : match r with Ok c => Some c | Err _ => None end = Some a → r = Ok a.
Proof. by destruct r; [intros [= ->]|]. Qed.
Lemma openCore_signed o env valid e : openCore o env valid = Err e → auditable e = true → IsPaired o (env_From env) = true ∧ peer_signed o env.
Proof.
  unfold openCore. intros Ho Ha. cbv zeta in Ho.
  apply guard_err in Ho as [->|[Hp Ho]]; [done|]. apply guard_err in Ho as [->|[_ Ho]]; [done|].
  apply or_reject_err in Ho as [->|(priv & Hk & Ho)]; [done|]. apply or_reject_err in Ho as [->|(plain & Hpl & Ho)]; [done|].
  apply or_reject_err in Ho as [->|([[gen msg] sig] & Hparse & Ho)]; [done|]. apply guard_err in Ho as [->|[Hfrom Ho]]; [done|].
  apply or_reject_err in Ho as [->|(key & Hkey & Ho)]; [done|]. apply or_reject_err in Ho as [->|(canon & Hc & Ho)]; [done|].
  apply guard_err in Ho as [->|[Hv _]]; [done|]. bprop. split; [done|]. exists plain, gen, msg, sig, key, canon.
  apply canon_some in Hc. split_and!; [by exists priv|done|congruence|done|done|done].
Qed.
Lemma opened_signed o env valid op : openCore o env valid = Ok op → IsPaired o (env_From env) = true ∧ peer_signed o env ∧ From (op_Msg op) = env_From env.
Proof.
  intros Ho. pose proof (openCore_ok _ _ _ _ Ho) as (Hp & _ & _ & _ & _ & _ & _ & _ & _ & Hf & _). split_and!; [done| |done].
  unfold openCore in Ho. cbv zeta in Ho. apply guard_ok in Ho as [_ Ho]. apply guard_ok in Ho as [_ Ho].
  apply or_reject_ok in Ho as (priv & Hk & Ho). apply or_reject_ok in Ho as (plain & Hpl & Ho). apply or_reject_ok in Ho as ([[gen msg] sig] & Hparse & Ho).
  apply guard_ok in Ho as [Hfrom Ho]. apply or_reject_ok in Ho as (key & Hkey & Ho). apply or_reject_ok in Ho as (canon & Hc & Ho).
  apply guard_ok in Ho as [Hv _]. bprop. exists plain, gen, msg, sig, key, canon. apply canon_some in Hc.
  split_and!; [by exists priv|done|congruence|done|done|done].
Qed.
Lemma open_signed o env now e : open o env now = Err e → auditable e = true → IsPaired o (env_From env) = true ∧ peer_signed o env.
Proof.
  unfold open. intros Ho Ha. destruct (openCore o env ValidID) as [op|e'] eqn:Ec; [|injection Ho as ->; by eapply openCore_signed].
  apply opened_signed in Ec as (? & ? & _). done.
Qed.

Lemma settle_reports {X} (kinds : bytes → option (kind_handler X)) op res logged peer id e :
  EReport peer id e ∈ (settle kinds op res logged).2 → peer = From (op_Msg op).
Proof.
  unfold settle, logFailure. destruct res as [r|s].
  - destruct (refused_reason r); cbn.
    + intros [Hin|Hin]%elem_of_app; [|by apply list_elem_of_singleton in Hin]. destruct (bool_decide _); [by apply elem_of_nil in Hin|].
      by apply list_elem_of_singleton in Hin as [= -> _ _].
    + intros [Hin|[Hin|Hin]%elem_of_app]%elem_of_app; [destruct (negb _ && _)..|]; by rewrite ?list_elem_of_singleton, ?elem_of_nil in Hin.
  - destruct (bool_decide _); cbn; intros Hin; by rewrite ?list_elem_of_singleton, ?elem_of_nil in Hin.
Qed.
Lemma handled_reports {X} (kinds : bytes → option (kind_handler X)) fault fault2 t_age t_store op db logged peer id e :
  let h := handle_opened kinds fault t_age t_store op db logged in
  EReport peer id e ∈ h_events h ∨ (∃ p, h_bad h = Some p ∧ EReport peer id e ∈ h_events (handle_bad kinds fault2 p (h_db h) (h_logged h))) →
  peer = From (op_Msg op).
Proof.
  cbv zeta. unfold handle_opened. destruct (bool_decide _).
  { intros [Hin|(p & [=] & _)]. by apply list_elem_of_singleton in Hin. }
  destruct (_ && _). { intros [Hin|(p & [=] & _)]. by apply elem_of_nil in Hin. }
  destruct (_ && _). { intros [Hin|(p & [=] & _)]. cbn in Hin. rewrite !elem_of_cons, elem_of_nil in Hin. naive_solver. }
  destruct (store kinds fault t_store op db) as [[res|p] db'] eqn:Es.
  - destruct (settle kinds op res logged) as [l evs] eqn:E. intros [Hin|(p & [=] & _)]. eapply (settle_reports kinds op res logged). by rewrite E.
  - assert (bp_op p = op) as Hop.
    { unfold store, store_applied, commit_store in Es. cbv zeta in Es. repeat case_match; by simplify_eq/=. }
    intros [Hin|(q & [= <-] & Hin)]; [by apply elem_of_nil in Hin|]. cbn [h_db h_logged] in Hin. unfold handle_bad in Hin.
    destruct (storeBad _ _ _) as [res db2]. destruct (settle kinds (bp_op p) res logged) as [l evs] eqn:E. rewrite <- Hop.
    eapply (settle_reports kinds (bp_op p) res logged). by rewrite E.
Qed.

(** C14: safety. The relay cannot fill the audit log: a reject that RejectAudit
    may audit, at whatever step of the receiver, is of an envelope from a
    paired peer whose payload opens under an own mailbox key to a message of
    that peer with its signature. *)
Theorem audited_rejects_signed {X} (kinds : bytes → option (kind_handler X)) o fault fault2 t_open t_age t_store env db logged peer id e :
  EReport peer id e ∈ h_events (Handle kinds o fault fault2 t_open t_age t_store env db logged) → auditable e = true →
  peer = env_From env ∧ IsPaired o peer = true ∧ peer_signed o env.
Proof.
  unfold Handle. intros Hin Ha. destruct (open o env t_open) as [op|e'] eqn:Eo.
  - apply open_ok in Eo as [Eo _]. apply opened_signed in Eo as (Hp & Hs & Hf).
    assert (peer = env_From env) as ->; [|done]. rewrite <- Hf. apply (handled_reports kinds fault fault2 t_age t_store op db logged peer id e).
    destruct (h_bad (handle_opened kinds fault t_age t_store op db logged)) as [p|] eqn:Eb; [right; by exists p|by left].
  - cbn in Hin. apply elem_of_cons in Hin as [[= -> -> ->]|Hin].
    + by destruct (open_signed _ _ _ _ Eo Ha).
    + destruct (bool_decide _); [by apply list_elem_of_singleton in Hin|by apply elem_of_nil in Hin].
Qed.

End Audited.

(** ** The bounds of the audit *)

(** The reports so far in the order of their locked sections, with what was
    audited of them: the key and the clock. *)
Inductive audits : reject_audit → Z → list (bytes * Z) → Prop :=
| audits_new t : zeroTime + minute ≤ t → audits NewRejectAudit t []
| audits_report a t l peer id err now : audits a t l → t ≤ now →
    audits (Report peer id err now a).1 now
      (l ++ if existsb (λ e, match e with RAppend _ _ _ => true | _ => false end) (Report peer id err now a).2 then [(seen_key peer id, now)] else []).

Definition audited_in (lo hi : Z) (l : list (bytes * Z)) : Z := zsum (λ x, if (lo <=? x.2) && (x.2 <? hi) then 1 else 0) l.
Lemma audited_in_snoc lo hi l x : audited_in lo hi (l ++ [x]) = audited_in lo hi l + if (lo <=? x.2) && (x.2 <? hi) then 1 else 0.
Proof. unfold audited_in. rewrite zsum_app. cbn. lia. Qed.
Lemma audited_in_cons lo hi x l : audited_in lo hi (x :: l) = (if (lo <=? x.2) && (x.2 <? hi) then 1 else 0) + audited_in lo hi l.
Proof. done. Qed.
Lemma audited_in_none lo hi l : (∀ x, x ∈ l → x.2 < lo) → audited_in lo hi l = 0.
Proof.
  induction l as [|y l IH]; intros Hl; [done|]. rewrite !audited_in_cons, IH by (intros x Hx; apply Hl; by right).
  pose proof (Hl y ltac:(by left)). destruct (lo <=? y.2) eqn:E; [lia|]. cbn. lia.
Qed.
Lemma audited_in_split lo mid hi l : lo ≤ mid ≤ hi → audited_in lo hi l = audited_in lo mid l + audited_in mid hi l.
Proof.
  intros Hm. induction l as [|y l IH]; [done|]. rewrite !audited_in_cons, IH. clear IH.
  destruct (lo <=? y.2) eqn:E1, (y.2 <? hi) eqn:E2, (mid <=? y.2) eqn:E3, (y.2 <? mid) eqn:E4; cbn; lia.
Qed.
Lemma audited_in_ext lo hi hi' l : (∀ x, x ∈ l → x.2 < hi) → (∀ x, x ∈ l → x.2 < hi') → audited_in lo hi l = audited_in lo hi' l.
Proof.
  induction l as [|y l IH]; intros H1 H2; [done|]. rewrite !audited_in_cons, IH by (intros x Hx; (apply H1 || apply H2); by right).
  pose proof (H1 y ltac:(by left)). pose proof (H2 y ltac:(by left)). f_equal. destruct (lo <=? y.2), (y.2 <? hi) eqn:E1, (y.2 <? hi') eqn:E2; cbn; lia.
Qed.

Record audit_inv (a : reject_audit) (t : Z) (l : list (bytes * Z)) : Prop := {
  ai_le : window a ≤ t;
  ai_window : ∀ x, x ∈ l → x.2 < window a + minute;
  ai_past : ∀ x, x ∈ l → x.2 ≤ t;
  ai_count : audited_in (window a) (window a + minute) l = rcount a ∧ 0 ≤ rcount a ≤ rejectsPerMinute;
  ai_before : ∀ lo, window a - minute < lo → audited_in lo (window a) l ≤ rejectsPerMinute;
  ai_minute : ∀ lo, audited_in lo (lo + minute) l ≤ 2 * rejectsPerMinute;
  ai_ring : seenRing a = drop (length l - maxAuditedSeen) (map fst l);
  ai_seen : ∀ k, k ∈ seen a ↔ k ∈ seenRing a;
  ai_nodup : NoDup (seenRing a);
  ai_apart : ∀ i j k, map fst l !! i = Some k → map fst l !! j = Some k → (i < j)%nat → (i + maxAuditedSeen ≤ j)%nat;
}.

Lemma minute_pos : 0 < minute.
Proof. reflexivity. Qed.
Lemma minute_spec now w : minute <=? Sub now w = true ↔ w + minute ≤ now.
Proof. unfold Sub, minute, second. lia. Qed.
Lemma audited_in_le lo hi hi' l : hi ≤ hi' → audited_in lo hi l ≤ audited_in lo hi' l.
Proof.
  intros Hh. induction l as [|y l IH]; [done|]. rewrite !audited_in_cons. destruct (lo <=? y.2), (y.2 <? hi) eqn:E1, (y.2 <? hi') eqn:E2; cbn; lia.
Qed.

(** The window may move before an audit. *)
Lemma window_inv a t l now : audit_inv a t l → t ≤ now → audit_inv (open_window now a).1 now l ∧ now < window (open_window now a).1 + minute ∧
  seen (open_window now a).1 = seen a.
Proof.
  intros I Ht. pose proof (minute_pos). pose proof (ai_le _ _ _ I). pose proof (ai_count _ _ _ I) as [Hc Hn]. unfold open_window.
  destruct (minute <=? Sub now (window a)) eqn:E; cbn.
  - apply minute_spec in E. split; [|split; [lia|done]]. split; cbn; try apply I.
    + lia.
    + intros x Hx. pose proof (ai_past _ _ _ I x Hx). lia.
    + intros x Hx. pose proof (ai_past _ _ _ I x Hx). lia.
    + rewrite audited_in_none; [unfold rejectsPerMinute; lia|]. intros x Hx. pose proof (ai_window _ _ _ I x Hx). lia.
    + intros lo Hlo. rewrite (audited_in_ext lo now (window a + minute)); [|intros x Hx; pose proof (ai_window _ _ _ I x Hx); lia|apply I].
      destruct (Z.le_gt_cases (window a + minute) lo); [rewrite audited_in_none; [unfold rejectsPerMinute; lia|]; intros x Hx; pose proof (ai_window _ _ _ I x Hx); lia|].
      pose proof (audited_in_split (window a) lo (window a + minute) l ltac:(lia)) as Hs.
      assert (0 ≤ audited_in (window a) lo l) by (apply zsum_nonneg; intros; destruct (_ && _); lia). lia.
  - apply Z.leb_gt in E. assert (now < window a + minute) by (destruct (Z.lt_ge_cases now (window a + minute)) as [?|Hge]; [done|]; apply minute_spec in Hge; lia).
    split; [|by split]. split; try apply I; [lia|]. intros x Hx. pose proof (ai_past _ _ _ I x Hx). lia.
Qed.

Lemma ring_length a t l : audit_inv a t l → length (seenRing a) = (length l - (length l - maxAuditedSeen))%nat.
Proof. intros I. by rewrite (ai_ring _ _ _ I), length_drop, length_map. Qed.
Lemma remember_ring a t l key : audit_inv a t l →
  seenRing (remember key a) = drop (S (length l) - maxAuditedSeen) (map fst l ++ [key]) ∧
  (∀ k, k ∈ seenRing (remember key a) → k = key ∨ k ∈ seenRing a).
Proof.
  intros I. pose proof (ring_length _ _ _ I) as Hlen. unfold remember. cbn [seenRing]. destruct (maxAuditedSeen <=? length (seenRing a))%nat eqn:E.
  - apply Nat.leb_le in E. assert (maxAuditedSeen ≤ length l)%nat by lia. split.
    + rewrite (ai_ring _ _ _ I). assert (S (length l) - maxAuditedSeen = S (length l - maxAuditedSeen))%nat as -> by lia.
      assert (maxAuditedSeen ≠ 0)%nat by discriminate. rewrite drop_app_le by (rewrite length_map; lia). f_equal.
      rewrite <- Nat.add_1_r, <- drop_drop. by destruct (drop _ _).
    + intros k [Hk|Hk]%elem_of_app; [right|left; by apply list_elem_of_singleton in Hk]. destruct (seenRing a); [done|by right].
  - apply Nat.leb_gt in E. split.
    + rewrite (ai_ring _ _ _ I). assert (length l < maxAuditedSeen)%nat by lia.
      assert (length l - maxAuditedSeen = 0)%nat as -> by lia. assert (S (length l) - maxAuditedSeen = 0)%nat as -> by lia. by rewrite !drop_0.
    + intros k [Hk|Hk]%elem_of_app; [by right|left; by apply list_elem_of_singleton in Hk].
Qed.
Lemma remember_seen a t l key : audit_inv a t l → key ∉ seen a →
  (∀ k, k ∈ seen (remember key a) ↔ k ∈ seenRing (remember key a)) ∧ NoDup (seenRing (remember key a)).
Proof.
  intros I Hk. pose proof (ai_seen _ _ _ I) as Hs. pose proof (ai_nodup _ _ _ I) as Hn. assert (key ∉ seenRing a) as Hk' by (by rewrite <- Hs).
  unfold remember. cbn [seenRing seen]. destruct (maxAuditedSeen <=? length (seenRing a))%nat eqn:E; destruct (seenRing a) as [|k0 ring]; cbn [tail] in *.
  - done.
  - apply NoDup_cons in Hn as [Hk0 Hn]. split.
    + intros k. rewrite elem_of_union, elem_of_difference, !elem_of_singleton, Hs, elem_of_app, elem_of_cons, list_elem_of_singleton.
      split; [naive_solver|]. intros [Hr|Hr]; [|by left]. right. split; [by right|]. by intros ->.
    + apply NoDup_app. split; [done|]. split; [|apply NoDup_singleton]. intros x Hx Hx'. apply list_elem_of_singleton in Hx' as ->. apply Hk'. by right.
  - split; [|apply NoDup_singleton]. intros k. rewrite elem_of_union, elem_of_singleton, Hs. cbn. rewrite list_elem_of_singleton. split; [|tauto].
    intros [?|Hx]; [done|by apply elem_of_nil in Hx].
  - split.
    + intros k. rewrite elem_of_union, elem_of_singleton, Hs, elem_of_app, list_elem_of_singleton. tauto.
    + apply NoDup_app. split; [done|]. split; [|apply NoDup_singleton]. intros x Hx Hx'. by apply list_elem_of_singleton in Hx' as ->.
Qed.
Lemma remember_inv a t l key : audit_inv a t l → t < window a + minute → rcount a < rejectsPerMinute → key ∉ seen a →
  audit_inv (remember key a) t (l ++ [(key, t)]).
Proof.
  intros I Ht Hc Hk. pose proof (minute_pos). pose proof (ai_le _ _ _ I) as Hw. pose proof (ai_count _ _ _ I) as [Hcnt Hn].
  pose proof (remember_ring _ _ _ key I) as [Hr _]. destruct (remember_seen _ _ _ key I Hk) as [Hs Hd]. split; try done; cbn [remember window rcount].
  - intros x [Hx| ->%list_elem_of_singleton]%elem_of_app; [by apply I|done].
  - intros x [Hx| ->%list_elem_of_singleton]%elem_of_app; [by apply I|done].
  - rewrite audited_in_snoc, Hcnt. cbn. assert ((window a <=? t) && (t <? window a + minute) = true) as -> by lia. lia.
  - intros lo Hlo. rewrite audited_in_snoc. cbn. pose proof (ai_before _ _ _ I lo Hlo). destruct (lo <=? t), (t <? window a) eqn:E; cbn; lia.
  - intros lo. rewrite audited_in_snoc. cbn. destruct ((lo <=? t) && (t <? lo + minute)) eqn:E; [|pose proof (ai_minute _ _ _ I lo); lia].
    apply andb_true_iff in E as [E1 E2]. destruct (Z.le_gt_cases (window a) lo) as [Hl|Hl].
    + rewrite (audited_in_ext lo (lo + minute) (window a + minute)); [|intros x Hx; pose proof (ai_window _ _ _ I x Hx); lia|apply I].
      destruct (Z.le_gt_cases lo (window a + minute)) as [Hl2|Hl2]; [|lia].
      pose proof (audited_in_split (window a) lo (window a + minute) l ltac:(lia)) as Hsp.
      assert (0 ≤ audited_in (window a) lo l) by (apply zsum_nonneg; intros; destruct (_ && _); lia). unfold rejectsPerMinute in *. lia.
    + rewrite (audited_in_split lo (window a) (lo + minute)) by lia. pose proof (ai_before _ _ _ I lo ltac:(lia)).
      pose proof (audited_in_le (window a) (lo + minute) (window a + minute) l ltac:(lia)). unfold rejectsPerMinute in *. lia.
  - rewrite Hr, length_app, map_app. cbn. by rewrite Nat.add_1_r.
  - rewrite map_app. cbn. intros i j k Hi Hj Hij. assert (length (map fst l) = length l) as Hml by apply length_map.
    apply lookup_snoc_Some in Hj as [[Hj1 Hj2]|[-> <-]].
    + rewrite lookup_app_l in Hi by lia. by apply (ai_apart _ _ _ I i j k).
    + rewrite lookup_app_l in Hi by lia. rewrite Hml. destruct (Nat.lt_ge_cases i (length l - maxAuditedSeen)) as [?|Hge]; [lia|]. exfalso. apply Hk.
      rewrite (ai_seen _ _ _ I), (ai_ring _ _ _ I). apply (list_elem_of_lookup_2 _ (i - (length l - maxAuditedSeen))). rewrite lookup_drop.
      by replace (length l - maxAuditedSeen + (i - (length l - maxAuditedSeen)))%nat with i by lia.
Qed.

Lemma audits_inv a t l : audits a t l → audit_inv a t l.
Proof.
  induction 1 as [t Ht|a t l peer id err now _ I Hle].
  - pose proof minute_pos. split; cbn; try (intros x Hx; by apply elem_of_nil in Hx); try done; try lia; [intros; unfold audited_in; cbn; unfold rejectsPerMinute; lia..| |constructor].
    intros k. by rewrite elem_of_empty, elem_of_nil.
  - assert (audit_inv a now (l ++ [])) as Hsame by (rewrite app_nil_r; destruct I; split; try done; [lia|intros x Hx; specialize (ai_past0 x Hx); lia]).
    unfold Report. cbv zeta. destruct err as [re|]; [|exact Hsame]. destruct (auditable re); [|by destruct (bool_decide _)].
    destruct (bool_decide (seen_key peer id ∈ seen a)) eqn:Ek; [exact Hsame|]. apply bool_decide_eq_false in Ek.
    destruct (window_inv a t l now I Hle) as (I' & Hw & Hs). destruct (open_window now a) as [a' evs] eqn:Ew. cbn [fst] in *.
    assert (existsb (λ e, match e with RAppend _ _ _ => true | _ => false end) evs = false) as He.
    { unfold open_window in Ew. destruct (minute <=? _); simplify_eq/=; [by destruct (0 <? suppressed a)|done]. }
    destruct (rcount a' <? rejectsPerMinute) eqn:Ec; cbn.
    + rewrite existsb_app, He. cbn. apply remember_inv; [done|done|lia|by rewrite Hs].
    + rewrite He, app_nil_r. destruct I'; split; done.
Qed.

(** C15: bounds. At most sixty rejects are audited in any minute (thirty in
    each of the windows, which are a minute apart), a (peer, id) that was audited
    is not audited again before 4096 others were, and the memory of what was
    audited holds at most 4096 keys. *)
Theorem reject_audit_bounded a t l : audits a t l →
  (∀ lo, audited_in lo (lo + minute) l ≤ 60) ∧
  (∀ i j k, map fst l !! i = Some k → map fst l !! j = Some k → (i < j)%nat → (i + maxAuditedSeen ≤ j)%nat) ∧
  (length (seenRing a) ≤ maxAuditedSeen)%nat ∧ seen a = list_to_set (seenRing a).
Proof.
  intros Ha. pose proof (audits_inv _ _ _ Ha) as I. split_and!.
  - apply I.
  - apply I.
  - rewrite (ring_length _ _ _ I). lia.
  - apply set_eq. intros k. by rewrite elem_of_list_to_set, (ai_seen _ _ _ I).
Qed.

(** ** Runs of the key-miss replies

    Notes and timers run one at a time; a timer is a call of After, with the
    peer and the time from which it may run. *)

Record km_run := KmRun { k_miss : key_miss; k_timers : list (bytes * Z); k_replies : list (bytes * Z * list bytes); k_now : Z }.
Inductive km_op := KNote (peer id : bytes) (sent : bool) (now : Z) | KTimer (n : nat) (sent : bool) (now : Z).

Definition flush_run (peer : bytes) (sent : bool) (now : Z) (m : key_miss) (timers : list (bytes * Z)) (replies : list (bytes * Z * list bytes)) : km_run :=
  let '(m, r) := Flush peer sent now m in
  KmRun m timers (replies ++ match r with Some ids => [(peer, now, ids)] | None => [] end) now.
Definition km_exec (op : km_op) (s : km_run) : km_run :=
  match op with
  | KNote peer id sent now =>
      match Note peer id now (k_miss s) with
      | (m, NoteDone) => KmRun m (k_timers s) (k_replies s) now
      | (m, NoteTimer wait) => KmRun m (k_timers s ++ [(peer, now + wait)]) (k_replies s) now
      | (m, NoteFlush) => flush_run peer sent now m (k_timers s) (k_replies s)
      end
  | KTimer n sent now =>
      match k_timers s !! n with
      | None => s
      | Some (peer, _) => flush_run peer sent now (k_miss s) (delete n (k_timers s)) (k_replies s)
      end
  end.
Definition km_start (t : Z) : km_run := KmRun NewKeyMiss [] [] t.

(** The clock advances and shows a time since the year 1 but not after 2261;
    a timer does not run early, nor after a Note that comes when it is due. *)
Definition km_ok (op : km_op) (s : km_run) : Prop :=
  match op with
  | KNote _ _ _ now => k_now s ≤ now < 2 ^ 63 ∧ ∀ p due, (p, due) ∈ k_timers s → now < due
  | KTimer n _ now => k_now s ≤ now < 2 ^ 63 ∧ ∀ p due, k_timers s !! n = Some (p, due) → due ≤ now
  end.
Inductive km_reach : km_run → Prop :=
| km_init t : 0 ≤ t → km_reach (km_start t)
| km_step s op : km_reach s → km_ok op s → km_reach (km_exec op s).

Definition ids_ok (ids : list bytes) : Prop := NoDup ids ∧ (length ids ≤ maxPending)%nat ∧ Forall (λ id, ValidID id = true) ids.
Record km_inv (s : km_run) : Prop := {
  km_time : 0 ≤ k_now s;
  km_ids : ∀ p ids, km_pending (k_miss s) !! p = Some ids → ids ≠ [] ∧ ids_ok ids ∧ p ∈ map fst (k_timers s);
  km_timer : ∀ p due, (p, due) ∈ k_timers s → p ∈ km_waiting (k_miss s) ∧ ∃ t, km_last (k_miss s) !! p = Some t ∧ due = t + KeyMissWindow;
  km_wait : ∀ p, p ∈ km_waiting (k_miss s) → p ∈ map fst (k_timers s);
  km_once : NoDup (map fst (k_timers s));
  km_latest : ∀ p t, km_last (k_miss s) !! p = Some t → 0 ≤ t ≤ k_now s ∧ ∀ t' ids, (p, t', ids) ∈ k_replies s → t' ≤ t;
  km_known : ∀ p t ids, (p, t, ids) ∈ k_replies s → is_Some (km_last (k_miss s) !! p) ∧ ids ≠ [] ∧ ids_ok ids;
  km_apart : ∀ i j p t t' ids ids', k_replies s !! i = Some (p, t, ids) → k_replies s !! j = Some (p, t', ids') → (i < j)%nat → t + KeyMissWindow ≤ t';
}.

Lemma Sub_exact now t : 0 ≤ t ≤ now → now < 2 ^ 63 → Sub now t = now - t.
Proof. unfold Sub. lia. Qed.
Lemma flush_inv peer sent now m timers replies : 0 ≤ now →
  (∀ p ids, km_pending m !! p = Some ids → ids ≠ [] ∧ ids_ok ids ∧ (p = peer ∨ p ∈ map fst timers)) →
  (∀ p due, (p, due) ∈ timers → p ∈ km_waiting m ∧ ∃ t, km_last m !! p = Some t ∧ due = t + KeyMissWindow) →
  (∀ p, p ∈ km_waiting m → p = peer ∨ p ∈ map fst timers) →
  NoDup (map fst timers) → peer ∉ map fst timers →
  (∀ p t, km_last m !! p = Some t → 0 ≤ t ≤ now ∧ ∀ t' ids, (p, t', ids) ∈ replies → t' ≤ t) →
  (∀ p t ids, (p, t, ids) ∈ replies → is_Some (km_last m !! p) ∧ ids ≠ [] ∧ ids_ok ids) →
  (∀ i j p t t' ids ids', replies !! i = Some (p, t, ids) → replies !! j = Some (p, t', ids') → (i < j)%nat → t + KeyMissWindow ≤ t') →
  (∀ t, km_last m !! peer = Some t → t + KeyMissWindow ≤ now) →
  km_inv (flush_run peer sent now m timers replies).
Proof.
  intros H0 Hp Ht Hw Hn Hpeer Hl Hk Ha Hspace. unfold flush_run, Flush, flush_take. cbv zeta.
  assert (km_inv (KmRun (KeyMiss (delete peer (km_pending m)) (km_last m) (km_waiting m ∖ {[ peer ]})) timers replies now)) as I.
  { split; cbn; try done.
    - intros p ids Hpi. apply lookup_delete_Some in Hpi as [Hne Hpi]. destruct (Hp _ _ Hpi) as (? & ? & [->|?]); [done|by split_and!].
    - intros p due Hin. destruct (Ht _ _ Hin) as [Hwait ?]. split; [|done]. apply elem_of_difference. split; [done|]. intros ->%elem_of_singleton.
      apply Hpeer. apply list_elem_of_fmap. by exists (peer, due).
    - intros p [Hin Hne]%elem_of_difference. destruct (Hw p Hin) as [->|?]; [by rewrite elem_of_singleton in Hne|done]. }
  destruct (default [] (km_pending m !! peer)) as [|id0 ids0] eqn:Eids; [by rewrite app_nil_r|]. destruct sent; [|by rewrite app_nil_r].
  destruct (km_pending m !! peer) as [ids|] eqn:Ep; [|done]. cbn in Eids. subst ids. destruct (Hp _ _ Ep) as (Hne & Hok & _). unfold flush_sent. cbn [km_pending km_last km_waiting].
  destruct I; split; cbn in *; try done.
  - intros p due Hin. destruct (km_timer0 _ _ Hin) as (Hwait & t & Hlt & E). split; [done|]. exists t. rewrite lookup_insert_ne; [done|]. intros <-.
    apply elem_of_difference in Hwait as [_ Hne']. by apply Hne', elem_of_singleton.
  - intros p t. rewrite lookup_insert_Some. intros [[<- <-]|[Hne' Hlt]].
    + split; [lia|]. intros t' ids [Hin|Hin]%elem_of_app; [|by apply list_elem_of_singleton in Hin as [= -> _]].
      destruct (Hk _ _ _ Hin) as ([t Hlt] & _). destruct (Hl _ _ Hlt) as [? Hlate]. specialize (Hlate _ _ Hin). lia.
    + split; [by apply (Hl _ _ Hlt)|]. intros t' ids [Hin|Hin]%elem_of_app; [by apply (proj2 (Hl _ _ Hlt) _ ids)|by apply list_elem_of_singleton in Hin as [= -> _ _]].
  - intros p t ids [Hin|Hin]%elem_of_app.
    + destruct (Hk _ _ _ Hin) as (? & ?). split; [|done]. destruct (decide (peer = p)) as [<-|Hne']; [by rewrite lookup_insert_eq|by rewrite lookup_insert_ne].
    + apply list_elem_of_singleton in Hin as [= -> -> ->]. split; [by rewrite lookup_insert_eq|by split].
  - intros i j p t t' ids ids' Hi Hj Hij. apply lookup_snoc_Some in Hj as [[Hj1 Hj2]|[-> Hj]].
    + rewrite lookup_app_l in Hi by lia. by eapply (Ha i j).
    + injection Hj as <- <- <-. rewrite lookup_app_l in Hi by done. apply list_elem_of_lookup_2 in Hi. destruct (Hk _ _ _ Hi) as ([u Hu] & _).
      pose proof (Hspace u Hu). destruct (Hl _ _ Hu) as [_ Hlate]. specialize (Hlate _ _ Hi). lia.
Qed.

Lemma note_ids (peer id : bytes) ids : ValidID id = true → ids = [] ∨ ids_ok ids →
  (length ids <? maxPending)%nat && negb (bool_decide (id ∈ ids)) = true → ids ++ [id] ≠ [] ∧ ids_ok (ids ++ [id]).
Proof.
  intros Hid Hids [Hlt%Nat.ltb_lt Hc]%andb_true_iff. bprop. split; [by destruct ids|]. assert (ids_ok ids) as (H1 & H2 & H3) by (destruct Hids as [->|?]; [split_and!; [constructor|cbn; lia|constructor]|done]).
  split_and!; [|rewrite length_app; cbn [length]; lia|apply Forall_app; split; [done|by constructor]].
  apply NoDup_app. split; [done|]. split; [|apply NoDup_singleton]. intros x Hx ->%list_elem_of_singleton. done.
Qed.
Lemma km_exec_inv s op : km_inv s → km_ok op s → km_inv (km_exec op s).
Proof.
  intros I Hok. destruct op as [peer id sent now|n sent now]; cbn [km_exec km_ok] in *.
  - destruct Hok as [Hnow Hprompt]. unfold Note. destruct (ValidID id) eqn:Eid; cbn [negb].
    2: { destruct I; split; cbn; try done; [lia|]. intros p t Hlt. destruct (km_latest0 _ _ Hlt). split; [lia|done]. }
    pose proof (km_time _ I) as H0. set (pending := if _ && _ then _ else _).
    assert (∀ p ids, pending !! p = Some ids → ids ≠ [] ∧ ids_ok ids ∧ (p = peer ∨ p ∈ map fst (k_timers s))) as Hp.
    { unfold pending. intros p ids. destruct (_ && _) eqn:Ec.
      - rewrite lookup_insert_Some. intros [[<- <-]|[_ Hl]].
        + destruct (note_ids peer id (default [] (km_pending (k_miss s) !! peer)) Eid) as [? ?]; [|done|split_and!; [done|done|by left]].
          destruct (km_pending (k_miss s) !! peer) eqn:El; [right; by apply (km_ids _ I _ _ El)|by left].
        + destruct (km_ids _ I _ _ Hl) as (? & ? & ?). split_and!; [done|done|by right].
      - intros Hl. destruct (km_ids _ I _ _ Hl) as (? & ? & ?). split_and!; [done|done|by right]. }
    destruct (km_last (k_miss s) !! peer) as [t|] eqn:El.
    + destruct (km_latest _ I _ _ El) as [Ht _]. rewrite (Sub_exact now t) by lia. destruct (0 <? KeyMissWindow - (now - t)) eqn:Ew; bprop.
      * destruct (bool_decide (peer ∈ km_waiting (k_miss s))) eqn:Ewait; bprop.
        -- destruct I; split; cbn; try done; [lia| |].
           ++ intros p ids Hpi. destruct (Hp _ _ Hpi) as (? & ? & [->|?]); split_and!; try done. by apply km_wait0.
           ++ intros p u Hlt. destruct (km_latest0 _ _ Hlt). split; [lia|done].
        -- assert (peer ∉ map fst (k_timers s)) as Hnot.
           { intros Hin. apply list_elem_of_fmap in Hin as ([p due] & -> & Hin). by destruct (km_timer _ I _ _ Hin). }
           destruct I; split; cbn; try done; [lia| | | | |].
           ++ intros p ids Hpi. rewrite map_app, elem_of_app. destruct (Hp _ _ Hpi) as (? & ? & [->|?]); split_and!; try done; [right; by left|by left].
           ++ intros p due [Hin|Hin]%elem_of_app.
              ** destruct (km_timer0 _ _ Hin) as (? & ?). split; [|done]. apply elem_of_union. by right.
              ** apply list_elem_of_singleton in Hin as [= -> ->]. split; [apply elem_of_union; left; by apply elem_of_singleton|]. exists t. split; [done|lia].
           ++ intros p. rewrite map_app, elem_of_app, elem_of_union, elem_of_singleton. intros [->|Hin]; [right; by left|left; by apply km_wait0].
           ++ rewrite map_app. apply NoDup_app. split; [done|]. split; [|apply NoDup_singleton]. intros x Hx ->%list_elem_of_singleton. done.
           ++ intros p u Hlt. destruct (km_latest0 _ _ Hlt). split; [lia|done].
      * apply flush_inv; cbn; try apply I; try done; [lia| | | |].
        -- intros p Hin. right. by apply (km_wait _ I).
        -- intros Hin. apply list_elem_of_fmap in Hin as ([p due] & -> & Hin). pose proof (Hprompt _ _ Hin). destruct (km_timer _ I _ _ Hin) as (_ & u & Hu & ->).
           cbn in *. assert (u = t) by congruence. lia.
        -- intros p u Hlt. destruct (km_latest _ I _ _ Hlt). split; [lia|done].
        -- intros u Hu. assert (u = t) by congruence. lia.
    + apply flush_inv; cbn; try apply I; try done; [lia| | | |].
      * intros p Hin. right. by apply (km_wait _ I).
      * intros Hin. apply list_elem_of_fmap in Hin as ([p due] & -> & Hin). destruct (km_timer _ I _ _ Hin) as (_ & u & Hu & _). cbn in *. congruence.
      * intros p u Hlt. destruct (km_latest _ I _ _ Hlt). split; [lia|done].
      * intros u Hu. congruence.
  - destruct (k_timers s !! n) as [[peer due]|] eqn:En; [|done]. destruct Hok as [Hnow Hdue]. specialize (Hdue _ _ eq_refl). pose proof (km_time _ I).
    apply delete_Permutation in En as Hperm. pose proof (km_once _ I) as Hd. assert (map fst (k_timers s) ≡ₚ peer :: map fst (delete n (k_timers s))) as Hmap by (rewrite Hperm at 1; done). rewrite Hmap in Hd. apply NoDup_cons in Hd as [Hpeer Hd].
    destruct (km_timer _ I peer due) as (_ & t & Hlt & ->); [by eapply list_elem_of_lookup_2|].
    assert (∀ p, p ∈ map fst (k_timers s) → p = peer ∨ p ∈ map fst (delete n (k_timers s))) as Hin by (intros p; rewrite Hmap; by rewrite elem_of_cons).
    apply flush_inv; cbn; try apply I; try done; [lia| | | | |].
    + intros p ids Hpi. destruct (km_ids _ I _ _ Hpi) as (? & ? & ?). split_and!; [done|done|by apply Hin].
    + intros p due Hi. apply (km_timer _ I). rewrite Hperm. by right.
    + intros p Hi. by apply Hin, (km_wait _ I).
    + intros p u Hl. destruct (km_latest _ I _ _ Hl). split; [lia|done].
    + intros u Hu. assert (u = t) by congruence. lia.
Qed.
Lemma km_reach_inv s : km_reach s → km_inv s.
Proof.
  induction 1 as [t Ht|s op _ IH Hok]; [|by apply km_exec_inv].
  split; cbn; try done; [|constructor|].
  - intros p due Hx. by apply elem_of_nil in Hx.
  - intros p u ids Hx. by apply elem_of_nil in Hx.
Qed.

(** ** Any interleaving of the key-miss replies

    The locked sections of Notes and Flushes in any order, at any clock
    readings: a timer, or a Note past the window, calls Flush, whose first
    section takes the ids; the reply is sent, or not, later. *)

Record km_live := KmLive { l_miss : key_miss; l_timers : list bytes; l_called : list bytes; l_taken : list (bytes * list bytes); l_sent : list (bytes * list bytes) }.
Inductive live_op := LNote (peer id : bytes) (now : Z) | LTimer (n : nat) | LTake (n : nat) | LReply (n : nat) (sent : bool) (now : Z).
Definition live_exec (op : live_op) (s : km_live) : km_live :=
  match op with
  | LNote peer id now =>
      match Note peer id now (l_miss s) with
      | (m, NoteDone) => KmLive m (l_timers s) (l_called s) (l_taken s) (l_sent s)
      | (m, NoteTimer _) => KmLive m (l_timers s ++ [peer]) (l_called s) (l_taken s) (l_sent s)
      | (m, NoteFlush) => KmLive m (l_timers s) (l_called s ++ [peer]) (l_taken s) (l_sent s)
      end
  | LTimer n =>
      match l_timers s !! n with
      | None => s
      | Some peer => KmLive (l_miss s) (delete n (l_timers s)) (l_called s ++ [peer]) (l_taken s) (l_sent s)
      end
  | LTake n =>
      match l_called s !! n with
      | None => s
      | Some peer =>
          let '(m, ids) := flush_take peer (l_miss s) in
          KmLive m (l_timers s) (delete n (l_called s)) (l_taken s ++ match ids with [] => [] | _ => [(peer, ids)] end) (l_sent s)
      end
  | LReply n sent now =>
      match l_taken s !! n with
      | None => s
      | Some (peer, ids) =>
          let rest := delete n (l_taken s) in
          if sent then KmLive (flush_sent peer now (l_miss s)) (l_timers s) (l_called s) rest (l_sent s ++ [(peer, ids)])
          else KmLive (l_miss s) (l_timers s) (l_called s) rest (l_sent s)
      end
  end.
Definition live_run (ops : list live_op) : km_live := fold_left (λ s op, live_exec op s) ops (KmLive NewKeyMiss [] [] [] []).

Definition answered (s : km_live) (p : bytes) : Prop := p ∈ l_timers s ∨ p ∈ l_called s.
Record live_inv (s : km_live) : Prop := {
  li_ids : ∀ p ids, km_pending (l_miss s) !! p = Some ids → ids ≠ [] ∧ ids_ok ids ∧ answered s p;
  li_wait : ∀ p, p ∈ km_waiting (l_miss s) → answered s p;
  li_out : ∀ p ids, (p, ids) ∈ l_taken s ++ l_sent s → ids ≠ [] ∧ ids_ok ids;
}.
Lemma live_note peer id now s : live_inv s → live_inv (live_exec (LNote peer id now) s).
Proof.
  intros [Hi Hw Ho]. cbn [live_exec]. unfold Note. destruct (ValidID id) eqn:Eid; cbn [negb]; [|by split]. set (pending := if _ && _ then _ else _).
  assert (∀ s', (∀ p, answered s p ∨ p = peer → answered s' p) → ∀ p ids, pending !! p = Some ids → ids ≠ [] ∧ ids_ok ids ∧ answered s' p) as Hp.
  { intros s' Hs' p ids. unfold pending. destruct (_ && _) eqn:Ec.
    - rewrite lookup_insert_Some. intros [[<- <-]|[_ Hl]].
      + destruct (note_ids peer id (default [] (km_pending (l_miss s) !! peer)) Eid) as [? ?]; [|done|split_and!; [done|done|apply Hs'; by right]].
        destruct (km_pending (l_miss s) !! peer) eqn:El; [right; by apply (Hi _ _ El)|by left].
      + destruct (Hi _ _ Hl) as (? & ? & ?). split_and!; [done|done|apply Hs'; by left].
    - intros Hl. destruct (Hi _ _ Hl) as (? & ? & ?). split_and!; [done|done|apply Hs'; by left]. }
  destruct (km_last (l_miss s) !! peer) as [t|]; [destruct (0 <? _); [destruct (bool_decide (peer ∈ km_waiting (l_miss s))) eqn:Ew; bprop|]|]; split; cbn; try exact Ho.
  - apply Hp. intros p [?| ->]; [done|by apply Hw].
  - exact Hw.
  - apply Hp. unfold answered. cbn. intros p. rewrite elem_of_app, list_elem_of_singleton. tauto.
  - intros p. unfold answered. cbn. rewrite elem_of_app, elem_of_union, elem_of_singleton, list_elem_of_singleton. intros [->|Hin]; [tauto|]. destruct (Hw p Hin); tauto.
  - apply Hp. unfold answered. cbn. intros p. rewrite elem_of_app, list_elem_of_singleton. tauto.
  - intros p Hin. unfold answered. cbn. rewrite elem_of_app. destruct (Hw p Hin); tauto.
  - apply Hp. unfold answered. cbn. intros p. rewrite elem_of_app, list_elem_of_singleton. tauto.
  - intros p Hin. unfold answered. cbn. rewrite elem_of_app. destruct (Hw p Hin); tauto.
Qed.
Lemma delete_other {A} (l : list A) n x y : l !! n = Some x → y ∈ l → y = x ∨ y ∈ delete n l.
Proof. intros Hn Hy. apply delete_Permutation in Hn. rewrite Hn in Hy. by apply elem_of_cons in Hy. Qed.
Lemma live_step op s : live_inv s → live_inv (live_exec op s).
Proof.
  destruct op as [peer id now|n|n|n sent now]; [by apply live_note|..]; intros I; pose proof I as [Hi Hw Ho]; cbn [live_exec].
  - destruct (l_timers s !! n) as [peer|] eqn:En; [|done].
    assert (∀ p, answered s p → answered (KmLive (l_miss s) (delete n (l_timers s)) (l_called s ++ [peer]) (l_taken s) (l_sent s)) p) as Ha.
    { unfold answered. cbn. intros p [Hp|Hp]; rewrite elem_of_app, list_elem_of_singleton; [|tauto]. destruct (delete_other _ _ _ _ En Hp); tauto. }
    split; cbn; [|by intros p Hp; apply Ha, Hw|done]. intros p ids Hp. destruct (Hi _ _ Hp) as (? & ? & ?). split_and!; [done|done|by apply Ha].
  - destruct (l_called s !! n) as [peer|] eqn:En; [|done]. unfold flush_take. cbv zeta. cbn iota beta. set (s' := KmLive _ _ _ _ _).
    assert (∀ p, p ≠ peer → answered s p → answered s' p) as Ha.
    { unfold answered, s'. cbn. intros p Hne [Hp|Hp]; [tauto|]. destruct (delete_other _ _ _ _ En Hp); [done|tauto]. }
    split; cbn [s' l_miss km_pending km_waiting l_taken l_sent].
    + intros p ids Hp. apply lookup_delete_Some in Hp as [Hne Hp]. destruct (Hi _ _ Hp) as (? & ? & ?). split_and!; [done|done|by apply Ha].
    + intros p [Hp Hne]%elem_of_difference. apply Ha; [|by apply Hw]. intros ->. by apply Hne, elem_of_singleton.
    + intros p ids. rewrite !elem_of_app. intros [[Hin|Hin]|Hin]; [apply (Ho p); apply elem_of_app; by left| |apply (Ho p); apply elem_of_app; by right].
      destruct (km_pending (l_miss s) !! peer) as [l|] eqn:El; cbn in Hin; [|by apply elem_of_nil in Hin].
      destruct (Hi _ _ El) as (Hne & Hok & _). destruct l; [done|]. by apply list_elem_of_singleton in Hin as [= -> ->].
  - destruct (l_taken s !! n) as [[peer ids]|] eqn:En; [|done].
    assert (∀ x, x ∈ delete n (l_taken s) → x ∈ l_taken s) as Hsub by (intros x Hx; eapply elem_of_sublist; [exact Hx|apply sublist_delete]).
    apply list_elem_of_lookup_2 in En. destruct sent; split; cbn; try done.
    + intros p l. rewrite !elem_of_app, list_elem_of_singleton. intros [Hin|[Hin|[= -> ->]]]; eapply Ho; apply elem_of_app; [left; by apply Hsub|by right|by left].
    + intros p l. rewrite elem_of_app. intros [Hin|Hin]; eapply Ho; apply elem_of_app; [left; by apply Hsub|by right].
Qed.
Lemma live_run_inv ops : live_inv (live_run ops).
Proof.
  unfold live_run. assert (live_inv (KmLive NewKeyMiss [] [] [] [])) as Hs.
  { split; cbn; try done. intros p ids Hx. by apply elem_of_nil in Hx. }
  revert Hs. generalize (KmLive NewKeyMiss [] [] [] []). induction ops as [|op ops IH]; intros s Hs; [done|]. cbn. by apply IH, live_step.
Qed.

(** C16: safety. However the locked sections of Notes and Flushes, the timers
    and the sends interleave, and whatever the clock shows: a key-miss reply
    has at most 256 different, well-formed ids and never none, and while ids
    of a peer wait, a timer or a called Flush will answer them. Replies to one
    peer are ten minutes apart in the runs of [km_ok]: the clock advances,
    each Flush runs as one step, no timer runs early, and no Note comes when a
    timer is due. Without the last they are not: such a Note answers first
    and the late timer may send again a second later (late_timer_replies). *)
Theorem key_miss_replies :
  (∀ ops p ids, (p, ids) ∈ l_sent (live_run ops) → ids ≠ [] ∧ NoDup ids ∧ (length ids ≤ maxPending)%nat ∧ Forall (λ id, ValidID id = true) ids) ∧
  (∀ ops p ids, km_pending (l_miss (live_run ops)) !! p = Some ids → p ∈ l_timers (live_run ops) ∨ p ∈ l_called (live_run ops)) ∧
  (∀ s, km_reach s → ∀ i j p t t' ids ids', k_replies s !! i = Some (p, t, ids) → k_replies s !! j = Some (p, t', ids') → (i < j)%nat → t + KeyMissWindow ≤ t').
Proof.
  split_and!.
  - intros ops p ids Hin. destruct (live_run_inv ops) as [_ _ Ho]. destruct (Ho p ids) as (? & ? & ? & ?); [apply elem_of_app; by right|done].
  - intros ops p ids Hp. destruct (live_run_inv ops) as [Hi _ _]. by apply (Hi p ids).
  - intros s Hr. apply (km_reach_inv _ Hr).
Qed.

(** ** Concrete runs *)

Definition miss_id (n : Z) : bytes := NewID (repeat n 16).
Definition peer_a : bytes := bytes_of "A".
(** A late timer breaks the spacing: it was set before the window ended, a
    Note that came when it was due answered first, and a later Note left an id
    for it to send. *)
Definition late_timer : km_run :=
  fold_left (λ s op, km_exec op s)
    [KNote peer_a (miss_id 1) true 0; KNote peer_a (miss_id 2) true second;
     KNote peer_a (miss_id 3) true KeyMissWindow;
     KNote peer_a (miss_id 4) true (KeyMissWindow + second); KTimer 0 true (KeyMissWindow + second)] (km_start 0).
Lemma late_timer_replies : k_replies late_timer =
  [(peer_a, 0, [miss_id 1]); (peer_a, KeyMissWindow, [miss_id 2; miss_id 3]); (peer_a, KeyMissWindow + second, [miss_id 4])].
Proof. vm_compute. reflexivity. Qed.

Definition prompt_timer : km_run :=
  km_exec (KTimer 0 true KeyMissWindow) (km_exec (KNote peer_a (miss_id 2) true second) (km_exec (KNote peer_a (miss_id 1) true 0) (km_start 0))).
Lemma prompt_timer_reach : km_reach prompt_timer.
Proof.
  apply km_step; [apply km_step; [apply km_step; [by apply km_init|]|]|].
  - split; [vm_compute; split; [discriminate|reflexivity]|]. intros p due Hin. by apply elem_of_nil in Hin.
  - split; [vm_compute; split; [discriminate|reflexivity]|]. intros p due Hin. exfalso. vm_compute in Hin. by apply elem_of_nil in Hin.
  - split; [vm_compute; split; [discriminate|reflexivity]|]. intros p due Hin. vm_compute in Hin. injection Hin as _ <-. vm_compute. discriminate.
Qed.
Lemma prompt_timer_replies : k_replies prompt_timer = [(peer_a, 0, [miss_id 1]); (peer_a, KeyMissWindow, [miss_id 2])].
Proof. vm_compute. reflexivity. Qed.
Lemma key_miss_replies_witness : 0 + KeyMissWindow ≤ KeyMissWindow.
Proof.
  apply (proj2 (proj2 key_miss_replies) prompt_timer prompt_timer_reach 0%nat 1%nat peer_a 0 KeyMissWindow [miss_id 1] [miss_id 2]);
    [rewrite prompt_timer_replies; reflexivity..|repeat constructor].
Defined.

Definition audit_t0 : Z := 1790000000 * second.
Definition bad_body : option RejectError := Some (Reject 11 ReasonBadBody false).
Definition one_audit : reject_audit := (Report peer_a (miss_id 1) bad_body audit_t0 NewRejectAudit).1.
Lemma one_audit_reach : audits one_audit audit_t0 [(seen_key peer_a (miss_id 1), audit_t0)].
Proof.
  apply (audits_report NewRejectAudit audit_t0 [] peer_a (miss_id 1) bad_body audit_t0); [|vm_compute; discriminate].
  apply audits_new. vm_compute. discriminate.
Qed.
Lemma reject_audit_bounded_witness : audited_in audit_t0 (audit_t0 + minute) [(seen_key peer_a (miss_id 1), audit_t0)] ≤ 60.
Proof. exact (proj1 (reject_audit_bounded one_audit audit_t0 _ one_audit_reach) audit_t0). Defined.

#[local] Existing Instance demo_crypto.
#[local] Existing Instance demo_sign_laws.
#[local] Existing Instance demo_hpke.
(** The demo mail for another recipient: step 8 rejects it. *)
Definition other_opener : Opener := MkOpener (sender mail_in) (IsPaired mail_opener) (MailboxKey mail_opener).
Definition no_kinds (_ : bytes) : option (kind_handler Z) := None.
Definition never (_ : stage) : bool := false.
Definition wrong_to : handled Z := Handle no_kinds other_opener never never mail_now mail_now mail_now mail_env (MailDb [] [] 0) ∅.
Lemma wrong_to_rejected : h_events wrong_to = [EReport (env_From mail_env) (env_ID mail_env) (Reject 8 ReasonWrongRecipient false)].
Proof. vm_compute. reflexivity. Qed.
Lemma audited_rejects_signed_witness : peer_signed other_opener mail_env.
Proof.
  refine (proj2 (proj2 (audited_rejects_signed no_kinds other_opener never never mail_now mail_now mail_now mail_env (MailDb [] [] 0) ∅
    (env_From mail_env) (env_ID mail_env) (Reject 8 ReasonWrongRecipient false) _ eq_refl))).
  change (EReport (env_From mail_env) (env_ID mail_env) (Reject 8 ReasonWrongRecipient false) ∈ h_events wrong_to).
  rewrite wrong_to_rejected. by left.
Defined.
