(* ===== verification/MailDelivery.v ===== *)
(** * From one outbox to the other end

    The sender's outbox (MailSent) and the recipient's receiver (MailReceived)
    joined by a network that delivers any envelope in any order, as often as
    it likes, or not at all. It cannot forge a signature: what an opened mail
    carries under a key was sealed by the key's holder ([unforged]). *)

From S2P Require Import Prelude Utf8 Canonical Strconv WireTime Body RequestObject Tables Signing MailMessage MailOpen MailReceiver MailReceived MailOutbox MailSent.
From stdpp Require Import gmap.

Open Scope Z_scope.

(** ** The body of an ack *)

Definition text_char (c : Z) : bool := (0x20 <=? c) && (c <? 0x7F) && negb (c =? 0x22) && negb (c =? 0x5C).
Lemma encode_ascii s : (∀ c, c ∈ s → 0 ≤ c < 0x80) → Utf8.encode s = s ∧ Forall (λ r, is_scalar r = true) s.
Proof.
  induction s as [|c s IH]; intros Hs; [by split|]. destruct IH as [IH1 IH2]; [intros x Hx; apply Hs; by right|].
  pose proof (Hs c ltac:(by left)). split.
  - unfold Utf8.encode in *. cbn [flat_map]. rewrite IH1. unfold encode_rune. assert (c <=? 0x7F = true) as -> by lia. done.
  - constructor; [|done]. apply is_scalar_spec. lia.
Qed.
Lemma writeString_text s : forallb text_char s = true → writeString s = 0x22 :: s ++ [0x22].
Proof.
  intros Hs. assert (∀ c, c ∈ s → text_char c = true) as Hc.
  { intros c Hin. rewrite forallb_forall in Hs. apply Hs. by apply list_elem_of_In. }
  assert (∀ c, c ∈ s → 0 ≤ c < 0x80) as Ha. { intros c Hin. pose proof (Hc c Hin). unfold text_char in *. lia. }
  unfold writeString. do 2 f_equal. destruct (encode_ascii s Ha) as [He Hsc]. rewrite <- He at 1. rewrite runes_encode by done. clear He Hsc Ha Hs.
  induction s as [|c s IH]; [done|]. cbn [flat_map]. rewrite IH by (intros x Hx; apply Hc; by right). pose proof (Hc c ltac:(by left)) as Hcc.
  unfold text_char in Hcc. unfold write_rune, encode_rune.
  repeat match goal with |- context [?x =? ?y] => destruct (Z.eqb_spec x y); [lia|] end.
  rewrite (proj2 (Z.ltb_ge c 0x20)) by lia. assert (c <=? 0x7F = true) as -> by lia. done.
Qed.
Lemma id_text s : ValidID s = true → forallb text_char s = true.
Proof.
  unfold ValidID, hex_id. destruct s as [|a [|b ds]]; try done. intros H. bprop. cbn [forallb]. subst.
  change (text_char 0x6D) with true. change (text_char 0x2D) with true. cbn [andb].
  match goal with H : forallb is_lower_hex ds = true |- _ => rewrite forallb_forall in H; rename H into Hds end.
  apply forallb_forall. intros x Hx. specialize (Hds x Hx). unfold is_lower_hex, is_digit in Hds. apply orb_true_iff in Hds. rewrite !in_range_spec in Hds. unfold text_char. lia.
Qed.

Definition ack_object (member id : bytes) : body := [(member, VArray [VString id])].
Lemma ack_body_object member id : member ∈ [AckIDs; AckUnsupported; AckRejected] → ValidID id = true →
  body_object (Some (ack_body member id)) = Ok (ack_object member id).
Proof.
  intros Hm Hid. unfold body_object. change (default (bytes_of "{}") (Some (ack_body member id))) with (ack_body member id).
  assert (valid_utf8 member = true ∧ forallb text_char member = true) as [Hv Ht].
  { rewrite !elem_of_cons, elem_of_nil in Hm. destruct Hm as [->|[->|[->|[]]]]; split; vm_compute; reflexivity. }
  assert (wf (VObject (ack_object member id)) = true) as Hw.
  { apply wf_object. split; [apply NoDup_singleton|]. intros p Hp%list_elem_of_singleton. subst p. split; [done|]. cbn. by rewrite (hex_id_valid 0x6D). }
  assert (CanonicalValue (VObject (ack_object member id)) = Ok (ack_body member id)) as Hc.
  { transitivity (Ok (E := canon_error) (0x7B :: ((writeString member ++ [0x3A]) ++ (0x5B :: (writeString id ++ []) ++ [0x5D]) ++ []) ++ [0x7D])); [reflexivity|].
    rewrite !writeString_text by (done || by apply id_text). unfold ack_body. rewrite !app_nil_r, <- !app_assoc. cbn. by rewrite <- !app_assoc. }
  rewrite (parse_strict_canonical _ _ Hw Hc). done.
Qed.

Lemma stringList_norm v : stringList (option_map norm v) = stringList v.
Proof.
  destruct v as [v|]; [|done]. destruct v; try done. cbn. induction l as [|x l IH]; [done|]. cbn. rewrite IH. by destruct x.
Qed.
(** The ids an equal body lists. *)
Lemma same_ack b member id k : same (VObject b) (VObject (ack_object member id)) → valid_utf8 member = true → ValidID id = true →
  ∀ x, x ∈ stringList (Body.member k b) → k = member ∧ x = id.
Proof.
  intros Hs Hv Hid x. assert (wf (VObject (ack_object member id)) = true) as Hw.
  { apply wf_object. split; [apply NoDup_singleton|]. intros p Hp%list_elem_of_singleton. subst p. split; [done|]. cbn. by rewrite (hex_id_valid 0x6D). }
  destruct (same_wf_norm _ _ (same_sym _ _ Hs) Hw) as [Hwb Hn]. pose proof Hwb as [Hd _]%wf_object.
  rewrite <- stringList_norm, (same_members b (ack_object member id) k Hd (NoDup_singleton _) (eq_sym Hn)), stringList_norm. unfold ack_object. cbn [Body.member].
  destruct (decide (k = member)) as [->|Hne].
  - cbn. destruct (bool_decide_reflect (member = member)); [|done]. cbn. rewrite list_elem_of_singleton. by intros ->.
  - cbn. rewrite bool_decide_eq_false_2 by congruence. cbn. by rewrite elem_of_nil.
Qed.

(** ** The receiver: where its decisions and acks come from *)

Section Provenance.
Context {X : Type} `{SL : SignLaws} `{HP : Hpke}.
Context (kinds : bytes → option (kind_handler X)).

(** Of the mails it opened, and acks of their ids. *)
Definition comes_from (Q : Opened → Prop) (s : rx (X := X)) : Prop :=
  (∀ d, d ∈ rx_decided s → Q d.1) ∧ (∀ p, p ∈ rx_pending s → Q (bp_op p.1)) ∧
  (∀ peer id member, EAck peer id member ∈ rx_events s → ValidID id = true ∧ member ∈ [AckIDs; AckUnsupported; AckRejected]) ∧
  (∀ o, o ∈ rx_opened s → Q o.1).

Lemma settle_member op res logged peer id member : EAck peer id member ∈ (settle kinds op res logged).2 → member ∈ [AckIDs; AckUnsupported; AckRejected] ∧ id = ID (op_Msg op).
Proof.
  unfold settle, logFailure. destruct res as [r|e]; [destruct (refused_reason r)|destruct (bool_decide _)]; cbn; rewrite ?elem_of_app, ?elem_of_nil, ?list_elem_of_singleton; [..|done|done].
  - intros [Hin|[= -> -> ->]]; [destruct (bool_decide _); by rewrite ?list_elem_of_singleton, ?elem_of_nil in Hin|]. split; [|done]. rewrite !elem_of_cons. auto.
  - intros [Hin|[Hin|[= -> -> ->]]]; [destruct (negb _ && _); by rewrite ?list_elem_of_singleton, ?elem_of_nil in Hin..|].
    split; [|done]. rewrite !elem_of_cons. destruct (bool_decide _); auto.
Qed.
Lemma store_pending_op fault now op db p db' : store kinds fault now op db = (inr p, db') → bp_op p = op.
Proof. unfold store, store_applied, commit_store. cbv zeta. intros Es. repeat case_match; by simplify_eq/=. Qed.
Lemma handle_opened_acks fault t_age t_store op db logged peer id member :
  EAck peer id member ∈ h_events (handle_opened kinds fault t_age t_store op db logged) → member ∈ [AckIDs; AckUnsupported; AckRejected] ∧ id = ID (op_Msg op).
Proof.
  unfold handle_opened. cbv zeta. destruct (bool_decide _); [cbn; by rewrite list_elem_of_singleton|]. destruct (_ && _); [cbn; by rewrite elem_of_nil|].
  destruct (_ && _).
  - cbn. rewrite elem_of_cons, list_elem_of_singleton. intros [?|[= -> -> ->]]; [done|]. split; [|done]. rewrite !elem_of_cons. auto.
  - destruct (store kinds fault t_store op db) as [[res|p] db'] eqn:Es; [|cbn; by rewrite elem_of_nil].
    destruct (settle kinds op res logged) as [l evs] eqn:E. cbn. intros Hin. apply (settle_member op res logged peer). by rewrite E.
Qed.
Lemma handle_opened_pending fault t_age t_store op db logged p : h_bad (handle_opened kinds fault t_age t_store op db logged) = Some p → bp_op p = op.
Proof.
  unfold handle_opened. cbv zeta. destruct (bool_decide _); [done|]. destruct (_ && _); [done|]. destruct (_ && _); [done|].
  destruct (store kinds fault t_store op db) as [[res|q] db'] eqn:Es; [by destruct (settle kinds op res logged)|]. intros [= <-]. by eapply store_pending_op.
Qed.
Lemma rexec_grows r τ s : (∃ l, rx_decided (rexec kinds r τ s) = rx_decided s ++ l) ∧ (∃ l, rx_events (rexec kinds r τ s) = rx_events s ++ l).
Proof.
  destruct r as [o env fault t1 t2 t3|n fault|t|]; cbn [rexec].
  - destruct (open o env t1); cbn; split; try by eexists. exists []. by rewrite app_nil_r.
  - destruct (rx_pending s !! n) as [[p ?]|]; cbn; [split; by eexists|]. split; exists []; by rewrite app_nil_r.
  - split; exists []; by rewrite app_nil_r.
  - split; exists []; by rewrite app_nil_r.
Qed.
Lemma rexec_comes Q r τ s : comes_from Q s → (∀ op, Q op → ValidID (ID (op_Msg op)) = true) →
  (∀ o env fault t1 t2 t3 op, r = RDeliver o env fault t1 t2 t3 → open o env t1 = Ok op → Q op) → comes_from Q (rexec kinds r τ s).
Proof.
  intros (H1 & H2 & H3 & H4) Hid Hnew. destruct r as [o env fault t1 t2 t3|n fault|t|]; cbn [rexec].
  - destruct (open o env t1) as [op|e] eqn:Eo; split_and!; cbn; try done.
    + specialize (Hnew _ _ _ _ _ _ _ eq_refl Eo). intros d [Hd|Hd]%elem_of_app; [by apply H1|]. destruct (stored_kind kinds t2 op); [|by apply elem_of_nil in Hd].
      unfold store_verdict in Hd. destruct (store kinds fault t3 op (rx_db s)).1 as [[[]|]|]; try (by apply elem_of_nil in Hd). by apply list_elem_of_singleton in Hd as ->.
    + specialize (Hnew _ _ _ _ _ _ _ eq_refl Eo). intros p [Hp|Hp]%elem_of_app; [by apply H2|]. apply list_elem_of_fmap in Hp as (q & -> & Hq).
      destruct (h_bad _) as [q'|] eqn:Eb; [|by apply elem_of_nil in Hq]. apply list_elem_of_singleton in Hq as ->. cbn. by rewrite (handle_opened_pending _ _ _ _ _ _ _ Eb).
    + specialize (Hnew _ _ _ _ _ _ _ eq_refl Eo). intros peer id member [Hin|Hin]%elem_of_app; [by eapply H3|].
      apply handle_opened_acks in Hin as [Hm ->]. split; [by apply Hid|done].
    + specialize (Hnew _ _ _ _ _ _ _ eq_refl Eo). intros x [Hx| ->%list_elem_of_singleton]%elem_of_app; [by apply H4|done].
    + intros peer id member [Hin|Hin]%elem_of_app; [by eapply H3|]. apply elem_of_cons in Hin as [?|Hin]; [done|]. destruct (bool_decide _); [|by apply elem_of_nil in Hin].
      by apply list_elem_of_singleton in Hin.
  - destruct (rx_pending s !! n) as [[p τ']|] eqn:En; [|by split_and!]. pose proof (H2 _ (list_elem_of_lookup_2 _ _ _ En)) as Hp. cbn in Hp. split_and!; cbn.
    + intros d [Hd|Hd]%elem_of_app; [by apply H1|]. unfold bad_verdict in Hd. destruct (storeBad _ _ _).1 as [[]|]; try (by apply elem_of_nil in Hd); by apply list_elem_of_singleton in Hd as ->.
    + intros q Hq. apply H2. eapply elem_of_sublist; [exact Hq|apply sublist_delete].
    + intros peer id member [Hin|Hin]%elem_of_app; [by eapply H3|]. unfold handle_bad in Hin. destruct (storeBad _ _ _) as [res db2].
      destruct (settle kinds (bp_op p) res (rx_logged s)) as [l evs] eqn:E. cbn in Hin. destruct (settle_member (bp_op p) res (rx_logged s) peer id member) as [Hm ->]; [by rewrite E|].
      split; [by apply Hid|done].
    + done.
  - by split_and!.
  - split_and!; cbn; [done|intros p Hp; by apply elem_of_nil in Hp|done|done].
Qed.

End Provenance.

(** ** The network *)

Section Network.
Context {X : Type} `{SL : SignLaws} `{HP : Hpke} `{HL : !HpkeLaws}.
Context (kinds : bytes → option (kind_handler X)) (x0 : X).
Context (me_a me_b : bytes).   (* the identity private keys *)

Definition key_a : bytes := b64_encode (ed25519_Public me_a).
Definition key_b : bytes := b64_encode (ed25519_Public me_b).

(** The sender's outbox and the recipient's receiver, with the other mails
    that the two keys have sealed: acks, key-miss replies, other outboxes. *)
Record net := Net { na : sx; nb : rx (X := X); seal_a : list SealInput; seal_b : list SealInput }.
Definition all_a (n : net) : list SealInput := sent (na n) ++ seal_a n.

Definition ack_input (peer id member pub : bytes) (t : Z) (rnd : bytes * bytes) : SealInput :=
  MkSeal me_b peer pub (NewID rnd.1) kind_ack (Some (ack_body member id)) t rnd.

Inductive net_op :=
| NA (op : oop)                                 (* a step of the outbox, but no ack *)
| NAck (o : Opener) (env : Envelope) (t : Z)    (* the sender's receiver opens an envelope *)
| NB (r : rop) (τ : Z)                          (* a step of the recipient's receiver *)
| NSealAck (peer id member pub : bytes) (t t_env : Z) (rnd : bytes * bytes)
| NSealA (i : SealInput) | NSealB (i : SealInput).

Definition nexec (op : net_op) (n : net) : net :=
  match op with
  | NA op => Net (oexec me_a op (na n)) (nb n) (seal_a n) (seal_b n)
  | NAck o env t =>
      match open o env t with
      | Ok op => if bool_decide (Kind (op_Msg op) = kind_ack) then Net (oexec me_a (OpAck op) (na n)) (nb n) (seal_a n) (seal_b n) else n
      | Err _ => n
      end
  | NB r τ => Net (na n) (rexec kinds r τ (nb n)) (seal_a n) (seal_b n)
  | NSealAck peer id member pub t _ rnd => Net (na n) (nb n) (seal_a n) (seal_b n ++ [ack_input peer id member pub t rnd])
  | NSealA i => Net (na n) (nb n) (seal_a n ++ [i]) (seal_b n)
  | NSealB i => Net (na n) (nb n) (seal_a n) (seal_b n ++ [i])
  end.

(** Ids are fresh; an opened envelope carries what its sender's key sealed;
    the recipient seals acks only where its receiver acks. *)
Definition net_ok (op : net_op) (n : net) : Prop :=
  match op with
  | NA op => oop_ok op (na n) ∧
      match op with
      | OpAck _ => False
      | OpSubmit _ _ _ _ _ _ _ _ rnd => NewID rnd.1 ∉ map in_ID (seal_a n)
      | _ => True
      end
  | NAck o env t => Self o = key_a ∧ ∀ op, open o env t = Ok op → env_From env = key_b → unforged env op (seal_b n)
  | NB r τ => rx_true (nb n) ≤ τ ∧ rop_ok r τ (nb n) ∧
      match r with
      | RDeliver o env _ t _ _ => Self o = key_b ∧ ∀ op, open o env t = Ok op → env_From env = key_a → unforged env op (all_a n)
      | _ => True
      end
  | NSealAck peer id member pub t t_env rnd =>
      EAck peer id member ∈ rx_events (nb n) ∧ in_years t ∧ is_ok (ack_mail (Some me_b) (Some pub) peer id member t t_env rnd) = true
  | NSealA i => mailed i ∧ in_Priv i = me_a ∧ in_ID i ∉ map in_ID (all_a n)
  | NSealB i => mailed i ∧ in_Priv i = me_b ∧ in_Kind i ≠ kind_ack
  end.

Inductive net_reach : net → Prop :=
| net_init τ : net_reach (Net (Sx (Outbox [] 0 ∅ ∅ []) [] [] [] []) (Rx (MailDb [] [] x0) ∅ [] [] [] τ []) [] [])
| net_step n op : net_reach n → net_ok op n → net_reach (nexec op n).

(** The mail [op] opened at the recipient is the mail [i]. *)
Definition same_mail (i : SealInput) (op : Opened) : Prop := ∃ b,
  op_Msg op = MkMsg 1 (in_ID i) key_a key_b (in_Created i / second * second) (in_Kind i) (MsgBody (op_Msg op)) ∧
  in_To i = key_b ∧ body_object (in_Body i) = Ok b ∧ same (VObject (MsgBody (op_Msg op))) (VObject b).
Definition opened_ok (n : net) (op : Opened) : Prop :=
  ValidID (ID (op_Msg op)) = true ∧ (From (op_Msg op) = key_a → ∃ i, i ∈ all_a n ∧ same_mail i op).
(** An ack from the recipient lists only ids that its receiver has acked so. *)
Definition ack_true (n : net) (op : Opened) : Prop :=
  From (op_Msg op) = key_b → ∀ member id, member ∈ [AckIDs; AckUnsupported; AckRejected] → ack_lists member op id → EAck key_a id member ∈ rx_events (nb n).
Definition b_mail (n : net) (i : SealInput) : Prop :=
  mailed i ∧ in_Priv i = me_b ∧ (in_Kind i = kind_ack → ∃ id member, EAck (in_To i) id member ∈ rx_events (nb n) ∧ in_Body i = Some (ack_body member id)).

Record net_inv (n : net) : Prop := {
  ni_a : oreach me_a (na n);
  ni_b : rreach kinds x0 (nb n);
  ni_ids : NoDup (map in_ID (all_a n));
  ni_mailed : Forall mailed (all_a n);
  ni_from : comes_from (opened_ok n) (nb n);
  ni_seal_b : Forall (b_mail n) (seal_b n);
  ni_acked : Forall (ack_true n) (acked (na n));
}.

Lemma opened_at o env t op n : open o env t = Ok op → Self o = key_b → Forall mailed (all_a n) → (env_From env = key_a → unforged env op (all_a n)) → opened_ok n op.
Proof.
  intros Ho Hself Hm Hu. pose proof (open_ok _ _ _ _ Ho) as [Hc _]. destruct (openCore_ok _ _ _ _ Hc) as (_ & gen & sig & key & canon & _ & _ & _ & _ & Hfrom & _ & Hid & Hv & _).
  split; [done|]. intros Hf. rewrite Hf in Hfrom. destruct (open_authentic o env t op (all_a n) Ho Hm (Hu (eq_sym Hfrom))) as (i & b & Hi & Hs & _ & Hto & _ & Hmsg & Hb & Hsame & _).
  exists i. split; [done|]. exists b. rewrite Hmsg at 1. split_and!; try done; [|congruence]. by rewrite Hs, <- Hfrom, Hto, Hself.
Qed.
Lemma ack_stated o env t op n : open o env t = Ok op → Self o = key_a → Kind (op_Msg op) = kind_ack → Forall (b_mail n) (seal_b n) →
  (∀ peer id member, EAck peer id member ∈ rx_events (nb n) → ValidID id = true ∧ member ∈ [AckIDs; AckUnsupported; AckRejected]) →
  (env_From env = key_b → unforged env op (seal_b n)) → ack_true n op ∧ From (op_Msg op) ≠ [].
Proof.
  intros Ho Hself Hk Hb He Hu. pose proof (open_ok _ _ _ _ Ho) as [Hc _]. destruct (openCore_ok _ _ _ _ Hc) as (_ & gen & sig & key & canon & _ & Hkey & _ & _ & Hfrom & _).
  split; [|rewrite Hfrom; intros E; rewrite E in Hkey; done].
  intros Hf member id Hm Hl. rewrite Hf in Hfrom. assert (Forall mailed (seal_b n)) as Hmailed by (eapply Forall_impl; [exact Hb|]; by intros i [? _]).
  destruct (open_authentic o env t op (seal_b n) Ho Hmailed (Hu (eq_sym Hfrom))) as (i & b & Hi & Hs & _ & Hto & _ & Hmsg & Hbody & Hsame & _).
  rewrite Forall_forall in Hb. destruct (Hb i Hi) as (_ & _ & Hack). assert (in_Kind i = kind_ack) as Hki by (rewrite Hmsg in Hk; exact Hk).
  destruct (Hack Hki) as (id' & member' & Hev & Eb). destruct (He _ _ _ Hev) as [Hid' Hm']. rewrite Eb, ack_body_object in Hbody by done. injection Hbody as <-.
  assert (member = member' ∧ id = id') as [-> ->]; [|by rewrite <- Hself, <- Hto].
  assert (valid_utf8 member' = true) as Hv' by (rewrite !elem_of_cons, elem_of_nil in Hm'; destruct Hm' as [->|[->|[->|[]]]]; vm_compute; reflexivity).
  by apply (same_ack _ _ _ member Hsame Hv' Hid').
Qed.

(** ** The invariant *)

Lemma sent_oexec op s : oop_ok op s → oinv me_a s → ∃ l, sent (oexec me_a op s) = sent s ++ l ∧
  ∀ i, i ∈ l → match op with OpSubmit _ _ _ _ _ _ _ _ rnd => in_ID i = NewID rnd.1 | _ => False end ∧ length l = 1%nat.
Proof.
  intros Hok I. assert (∃ l : list SealInput, sent s = sent s ++ l ∧ ∀ i, i ∈ l → False) as Hnil by (exists []; rewrite app_nil_r; split; [done|intros i; apply not_elem_of_nil]).
  destruct op as [fault to kind raw paired pub hk now rnd| | |n i| | |op|fault code ref now| | |]; cbn [oexec];
    try (destruct Hnil as (l & E & Hl); exists l; split; [exact E|intros i' Hi'; by destruct (Hl i' Hi')]).
  - destruct Hok as [Hy _]. unfold Submit. destruct (seal_mail to kind raw paired pub (own_key me_a hk) now rnd) as [[sl frame]|] eqn:Es.
    2: { exists []. rewrite app_nil_r. split; [done|]. intros i Hi. by apply elem_of_nil in Hi. }
    destruct (seal_mail_ok me_a _ _ _ _ _ _ _ _ _ _ Hy Es) as (_ & _ & Hid). destruct (fault || existsb _ _); cbn.
    + exists []. rewrite app_nil_r. split; [done|]. intros i Hi. by apply elem_of_nil in Hi.
    + eexists. split; [reflexivity|]. intros i Hi. apply list_elem_of_singleton in Hi as ->. by split.
  - destruct (run_nth n i (box s)) as [o1 e1]. cbn. destruct Hnil as (l & E & Hl). exists l. split; [exact E|]. intros i' Hi'. by destruct (Hl i' Hi').
  - destruct (HandleError fault code ref now (box s)) as [o1 e1]. cbn. destruct Hnil as (l & E & Hl). exists l. split; [exact E|]. intros i' Hi'. by destruct (Hl i' Hi').
Qed.
Lemma acked_oexec op s : acked (oexec me_a op s) = acked s ++ match op with OpAck op => [op] | _ => [] end.
Proof.
  destruct op; cbn [oexec]; rewrite ?app_nil_r; try done.
  - by destruct (Submit _ _ _ _ _ _ _ _ _ _) as [[?|?] ?].
  - by destruct (run_nth _ _ _).
  - by destruct (HandleError _ _ _ _ _).
Qed.
Lemma sealed_mailed s i : oinv me_a s → i ∈ sent s → mailed i ∧ in_Priv i = me_a.
Proof.
  intros I Hi. destruct (oi_sealed me_a _ I i Hi) as (p & Hp & Hy & Hid & sl & Hs & _). split; [|done]. split_and!; [done|by apply (hex_id_valid 0x6D)|by rewrite Hs].
Qed.

(** What has been sealed and decided only grows. *)
Definition net_grows (n n' : net) : Prop :=
  (∀ i, i ∈ all_a n → i ∈ all_a n') ∧ (∀ e, e ∈ rx_events (nb n) → e ∈ rx_events (nb n')).
Lemma opened_ok_grows n n' op : net_grows n n' → opened_ok n op → opened_ok n' op.
Proof. intros [Hg _] [Hid Ho]. split; [done|]. intros Hf. destruct (Ho Hf) as (i & Hi & ?). exists i. split; [by apply Hg|done]. Qed.
Lemma comes_grows n n' (s : rx (X := X)) : net_grows n n' → comes_from (opened_ok n) s → comes_from (opened_ok n') s.
Proof. intros G (H1 & H2 & H3 & H4). split_and!; [|intros p Hp; eapply opened_ok_grows; [done|by apply H2]|exact H3|intros o Ho; eapply opened_ok_grows; [done|by apply H4]].
  intros d Hd. eapply opened_ok_grows; [done|by apply H1]. Qed.
Lemma b_mail_grows n n' i : net_grows n n' → b_mail n i → b_mail n' i.
Proof. intros [_ G] (H1 & H2 & H3). split_and!; [done|done|]. intros Hk. destruct (H3 Hk) as (id & member & Hin & E). exists id, member. split; [by apply G|done]. Qed.
Lemma ack_true_grows n n' op : net_grows n n' → ack_true n op → ack_true n' op.
Proof. intros [_ G] Ha Hf member id Hm Hl. apply G. by apply Ha. Qed.
Lemma net_grows_inv n n' : net_inv n → net_grows n n' → oreach me_a (na n') → rreach kinds x0 (nb n') → NoDup (map in_ID (all_a n')) → Forall mailed (all_a n') →
  comes_from (opened_ok n') (nb n') → Forall (b_mail n') (seal_b n') → Forall (ack_true n') (acked (na n')) → net_inv n'.
Proof. by split. Qed.

Lemma nexec_inv n op : net_inv n → net_ok op n → net_inv (nexec op n).
Proof.
  intros I Hok. pose proof (oreach_inv me_a _ (ni_a _ I)) as Ia. destruct op as [op|o env t|r τ|peer id member pub t t_env rnd|i|i]; cbn [nexec net_ok] in *.
  - destruct Hok as [Hop Hx]. destruct (sent_oexec op (na n) Hop Ia) as (l & El & Hl). assert (net_grows n (Net (oexec me_a op (na n)) (nb n) (seal_a n) (seal_b n))) as G.
    { split; [|done]. unfold all_a. cbn. rewrite El. intros i. rewrite !elem_of_app. tauto. }
    pose proof (oreach_step me_a _ _ (ni_a _ I) Hop) as Ha. apply (net_grows_inv n); try done; try apply I.
    + unfold all_a. cbn. rewrite El. pose proof (ni_ids _ I) as Hd. unfold all_a in Hd. rewrite !map_app in *.
      destruct l as [|i l]; [by rewrite app_nil_r|]. destruct (Hl i ltac:(by left)) as [Hi Hlen]. destruct l; [|done]. destruct op; try done. destruct Hop as [_ Hfresh].
      cbn [map]. rewrite Hi. rewrite <- app_assoc. apply NoDup_app in Hd as (D1 & D2 & D3). apply NoDup_app. split; [done|]. split.
      * intros x Hx1 [Hx2|Hx2]%elem_of_app; [apply list_elem_of_singleton in Hx2 as ->; done|by apply (D2 x)].
      * apply NoDup_cons. by split.
    + unfold all_a. cbn. apply Forall_app. split; [apply Forall_forall; intros i Hi; by apply (sealed_mailed _ i (oreach_inv me_a _ Ha))|].
      pose proof (ni_mailed _ I) as Hm. unfold all_a in Hm. by apply Forall_app in Hm as [_ ?].
    + cbn. eapply comes_grows; [exact G|apply I].
    + cbn. rewrite acked_oexec. apply Forall_app. split; [|destruct op; try done; constructor]. eapply Forall_impl; [apply (ni_acked _ I)|]. intros a. by apply ack_true_grows.
  - destruct (open o env t) as [op|e] eqn:Eo; [|done]. destruct (bool_decide (Kind (op_Msg op) = kind_ack)) eqn:Ek; [|done]. bprop. destruct Hok as [Hself Hu].
    destruct (ni_from _ I) as (_ & _ & Hev & _). destruct (ack_stated o env t op n Eo Hself Ek (ni_seal_b _ I) Hev (Hu _ eq_refl)) as [Ht Hne].
    assert (net_grows n (Net (oexec me_a (OpAck op) (na n)) (nb n) (seal_a n) (seal_b n))) as G by (by split).
    apply (net_grows_inv n); try done; try apply I.
    + by apply oreach_step; [apply I|].
    + cbn [oexec na acked]. apply Forall_app. split; [|by constructor]. eapply Forall_impl; [apply (ni_acked _ I)|]. intros a. by apply ack_true_grows.
  - destruct Hok as (Hτ & Hr & Hx). set (n' := Net _ _ _ _). assert (net_grows n n') as G.
    { split; [done|]. destruct (rexec_grows kinds r τ (nb n)) as [_ [l El]]. cbn. rewrite El. intros e He. apply elem_of_app. by left. }
    apply (net_grows_inv n); try done; try apply I.
    + by apply rreach_step; [apply I| |].
    + apply rexec_comes; [eapply comes_grows; [exact G|apply I]|by intros op [? _]|]. intros o env fault t1 t2 t3 op -> Ho. destruct Hx as [Hself Hu].
      apply (opened_ok_grows n); [exact G|]. apply (opened_at o env t1 op n Ho Hself (ni_mailed _ I)). by apply Hu.
    + eapply Forall_impl; [apply (ni_seal_b _ I)|]. intros i. by apply b_mail_grows.
    + eapply Forall_impl; [apply (ni_acked _ I)|]. intros a. by apply ack_true_grows.
  - destruct Hok as (Hev & Hy & Hack). set (n' := Net _ _ _ _). assert (net_grows n n') as G by (by split).
    apply (net_grows_inv n); try done; try apply I.
    + cbn. apply Forall_app. split; [eapply Forall_impl; [apply (ni_seal_b _ I)|]; intros i; by apply b_mail_grows|]. constructor; [|constructor].
      unfold ack_mail in Hack. set (j := MkSeal me_b peer pub [] kind_ack (Some (ack_body member id)) t rnd) in Hack. destruct (Seal j) as [sl|] eqn:Es; [|done].
      destruct (Seal_id _ _ Es) as [Hs Hid]. assert (with_ID (sl_ID sl) j = ack_input peer id member pub t rnd) as Ej.
      { unfold Seal in Es. cbn in Es. apply guard_ok in Es as [_ Es]. unfold sealMsg in Es. do 4 apply guard_ok in Es as [_ Es]. cbv zeta in Es.
        apply rbind_ok in Es as (? & _ & Es). apply rbind_ok in Es as (? & _ & Es). apply rbind_ok in Es as (? & _ & Es).
        apply guard_ok in Es as [_ Es]. by apply sealPlain_ok in Es as (? & ? & _ & _ & ->). }
      rewrite Ej in Hs. split_and!; [|done|intros _; exists id, member; by split]. split; [exact Hy|]. assert (in_ID (ack_input peer id member pub t rnd) = sl_ID sl) as -> by (by rewrite <- Ej).
      split; [by apply (hex_id_valid 0x6D)|by rewrite Hs].
  - destruct Hok as (Hm & Hp & Hfresh). set (n' := Net _ _ _ _). assert (net_grows n n') as G.
    { split; [|done]. unfold all_a. cbn. intros j. rewrite !elem_of_app. tauto. }
    apply (net_grows_inv n); try done; try apply I.
    + unfold all_a. cbn. rewrite app_assoc, map_app. apply NoDup_app. split; [apply I|]. split; [|apply NoDup_singleton]. intros x Hx ->%list_elem_of_singleton. done.
    + unfold all_a. cbn. rewrite app_assoc. apply Forall_app. split; [apply I|by constructor].
    + eapply comes_grows; [exact G|apply I].
  - destruct Hok as (Hm & Hp & Hk). set (n' := Net _ _ _ _). assert (net_grows n n') as G by (by split).
    apply (net_grows_inv n); try done; try apply I.
    + cbn. apply Forall_app. split; [eapply Forall_impl; [apply (ni_seal_b _ I)|]; intros j; by apply b_mail_grows|]. constructor; [|constructor]. by split_and!.
Qed.

Lemma net_reach_inv n : net_reach n → net_inv n.
Proof.
  induction 1 as [τ|n op _ IH Hok]; [|by apply nexec_inv]. split; cbn; try constructor.
  - intros d Hd. by apply elem_of_nil in Hd.
  - split_and!; [intros p Hp|intros peer id member Hin|intros o Ho]; [by apply elem_of_nil in Hp|by apply elem_of_nil in Hin|by apply elem_of_nil in Ho].
Qed.

(** The mail of a row, where the recipient opened it. *)
Lemma opened_mail n r op : net_inv n → r ∈ rows (box (na n)) → opened_ok n op → row_key op = (key_a, o_id r) →
  ∃ i, i ∈ sent (na n) ∧ in_ID i = o_id r ∧ in_Kind i = o_kind r ∧ wireTime (in_Created i) = o_created r ∧ same_mail i op.
Proof.
  intros I Hr [_ Ho] Hkey. unfold row_key in Hkey. injection Hkey as Hfrom Hid.
  destruct (Ho Hfrom) as (i & Hi & Hs). pose proof (oi_rows me_a _ (oreach_inv me_a _ (ni_a _ I))) as Hrows. rewrite Forall_forall in Hrows.
  destruct (Hrows r Hr) as (j & Hj & E1 & _ & E3 & E4 & _). assert (in_ID i = o_id r) as Ei. { destruct Hs as (b & Hm & _). rewrite Hm in Hid. exact Hid. }
  assert (i = j) as <-; [|by exists i].
  assert (j ∈ all_a n) as Hj' by (apply elem_of_app; by left). apply list_elem_of_lookup in Hi as [m Hm]. apply list_elem_of_lookup in Hj' as [m' Hm'].
  assert (m = m') as ->; [|congruence]. eapply (NoDup_lookup _ m m' (in_ID i)); [apply (ni_ids _ I)| |]; rewrite list_lookup_fmap; [by rewrite Hm|rewrite Hm'; cbn; congruence].
Qed.
(** What the recipient decided of a row's mail. *)
Lemma decided_mail n r P : net_inv n → r ∈ rows (box (na n)) → decided_here (nb n) key_a (o_id r) P →
  ∃ op v i, (op, v) ∈ rx_decided (nb n) ∧ P v ∧ i ∈ sent (na n) ∧ in_ID i = o_id r ∧ in_Kind i = o_kind r ∧ wireTime (in_Created i) = o_created r ∧ same_mail i op.
Proof.
  intros I Hr (op & v & Hd & Hkey & Hv). destruct (opened_mail n r op I Hr (proj1 (ni_from _ I) _ Hd) Hkey) as (i & ?). by exists op, v, i.
Qed.
Lemma late_mail n r : net_inv n → r ∈ rows (box (na n)) → came_late (nb n) key_a (o_id r) →
  ∃ op t i, (op, t) ∈ rx_opened (nb n) ∧ ReceiveMaxAge < Sub t (Created (op_Msg op)) ∧ i ∈ sent (na n) ∧ in_ID i = o_id r ∧ in_Kind i = o_kind r ∧
    wireTime (in_Created i) = o_created r ∧ same_mail i op.
Proof.
  intros I Hr (op & t & Ho & Hkey & _ & Hl). destruct (ni_from _ I) as (_ & _ & _ & Hop).
  destruct (opened_mail n r op I Hr (Hop _ Ho) Hkey) as (i & ?). by exists op, t, i.
Qed.

(** C7: refinement. End to end: a mail that the sender shows as delivered is
    one the recipient has stored or applied, with the sender, id, kind, time
    and body it was submitted with; one that it shows as rejected was refused
    by the recipient, or reached it too late: when the recipient opened it,
    its clock was more than fourteen days past the mail's signed time.
    Whatever the network delivers, repeats, reorders or makes up cannot change
    that, while the clocks are in the bounds of [rop_ok] (MailReceived.v). *)
Theorem delivered_mail_stored n r : net_reach n → r ∈ rows (box (na n)) → o_to r = key_b →
  (o_state r = MailDelivered →
     ∃ op v i, (op, v) ∈ rx_decided (nb n) ∧ v ≠ VRefused ∧ i ∈ sent (na n) ∧ in_ID i = o_id r ∧ in_Kind i = o_kind r ∧
       wireTime (in_Created i) = o_created r ∧ same_mail i op) ∧
  (o_state r = MailFailed → o_error r = Some ErrTextRejected →
     (∃ op v i, (op, v) ∈ rx_decided (nb n) ∧ v = VRefused ∧ i ∈ sent (na n) ∧ in_ID i = o_id r ∧ in_Kind i = o_kind r ∧
       wireTime (in_Created i) = o_created r ∧ same_mail i op) ∨
     EReport key_a (o_id r) (Reject 11 ReasonStale false) ∈ rx_events (nb n) ∧
     ∃ op t i, (op, t) ∈ rx_opened (nb n) ∧ ReceiveMaxAge < Sub t (Created (op_Msg op)) ∧ i ∈ sent (na n) ∧ in_ID i = o_id r ∧ in_Kind i = o_kind r ∧
       wireTime (in_Created i) = o_created r ∧ same_mail i op).
Proof.
  intros Hn Hr Hto. pose proof (net_reach_inv _ Hn) as I. pose proof (oi_rows me_a _ (oreach_inv me_a _ (ni_a _ I))) as Hrows. rewrite Forall_forall in Hrows.
  destruct (Hrows r Hr) as (j & _ & _ & _ & _ & _ & Hrow). pose proof (ni_acked _ I) as Hack. rewrite Forall_forall in Hack.
  assert (∀ op member, op ∈ acked (na n) → From (op_Msg op) = o_to r → member ∈ [AckIDs; AckUnsupported; AckRejected] → ack_lists member op (o_id r) →
    ack_ok (nb n) key_a (o_id r) member) as Hdone.
  { intros op member Hop Hf Hm Hl. apply (reach_acks kinds x0); [apply I|]. apply (Hack op Hop); [congruence|done|done]. }
  split.
  - intros Hst. unfold is_open in Hrow. rewrite Hst in Hrow. destruct Hrow as (_ & _ & _ & [(op & Hop & Hf & _ & Hc)|[[? _]|[? _]]]); [|done|done].
    destruct Hc as [(_ & _ & Hl)|[[? _]|[? _]]]; [|done|done]. apply (decided_mail n r (λ v, v ≠ VRefused) I Hr). exact (Hdone op AckIDs Hop Hf ltac:(by left) Hl).
  - intros Hst He. unfold is_open in Hrow. rewrite Hst, He in Hrow. destruct Hrow as (_ & _ & _ & [(op & Hop & Hf & _ & Hc)|[[? _]|[_ Hin]]]); [|done|].
    + destruct Hc as [[? _]|[(_ & ? & _)|(_ & _ & Hl)]]; [done|done|].
      pose proof (Hdone op AckRejected Hop Hf ltac:(rewrite !elem_of_cons; auto) Hl) as Ha. unfold ack_ok in Ha. rewrite bool_decide_eq_true_2 in Ha by done.
      destruct Ha as [Ha|[Ha Hlate]]; [left; exact (decided_mail n r (λ v, v = VRefused) I Hr Ha)|right]. split; [done|by apply late_mail].
    + cbn in Hin. rewrite !elem_of_cons, elem_of_nil in Hin. destruct Hin as [?|[?|[?|[]]]]; done.
Qed.

End Network.

(** ** A concrete run: submitted, delivered, acked *)

#[local] Existing Instance demo_crypto.
#[local] Existing Instance demo_sign_laws.
#[local] Existing Instance demo_hpke.
#[local] Existing Instance demo_hpke_laws.

Definition priv_b : bytes := repeat 9 64.
Definition rnd_b : bytes * bytes := (repeat 3 16, []).
Definition ack_env : Envelope :=
  match ack_mail (Some priv_b) (Some mail_box) (sender mail_in) (sl_ID mail_sl) AckIDs mail_later mail_later rnd_b with
  | Ok e => e
  | Err _ => mail_env
  end.
Definition opener_a : Opener :=
  MkOpener (sender mail_in) (λ k, bool_decide (k = mail_self)) (λ k, if bool_decide (KeyIDOf mail_box = k) then Some mail_box else None).
Definition net0 : net (X := Z) := Net (Sx (Outbox [] 0 ∅ ∅ []) [] [] [] []) (Rx (MailDb [] [] 0) ∅ [] [] [] mail_now []) [] [].
Definition net_do (op : net_op) (n : net (X := Z)) : net := nexec note_kinds mail_priv priv_b op n.
Definition net1 : net := net_do (NA op_note) net0.
Definition net2 : net := net_do (NB deliver_note mail_later) net1.
Definition net3 : net := net_do (NSealAck (sender mail_in) (sl_ID mail_sl) AckIDs mail_box mail_later mail_later rnd_b) net2.
Definition net4 : net := net_do (NAck opener_a ack_env mail_later) net3.
Definition net5 : net := net_do (NA (OpJob 0 relay_ok)) net4.

Lemma net_keys : key_a mail_priv = sender mail_in ∧ key_b priv_b = mail_self.
Proof. split; vm_compute; reflexivity. Qed.
Lemma net1_sent : all_a net1 = [mail_sent].
Proof. vm_compute. reflexivity. Qed.
Lemma net1_step : net_ok mail_priv priv_b (NA op_note) net0.
Proof. split; [exact op_note_ok|]. apply not_elem_of_nil. Qed.
Lemma deliver_unforged : unforged mail_env mail_opened [mail_sent].
Proof.
  intros gen sig key canon Hp Hc _ _. vm_compute in Hp. injection Hp as <- _. vm_compute in Hc. injection Hc as <-.
  exists mail_sent, mail_body. split; [by left|]. split_and!; vm_compute; reflexivity.
Qed.
Lemma net2_step : net_ok mail_priv priv_b (NB deliver_note mail_later) net1.
Proof.
  split; [vm_compute; discriminate|]. split; [apply deliver_note_ok|]. split; [vm_compute; reflexivity|]. intros op Ho _.
  rewrite mail_opens in Ho. injection Ho as <-. rewrite net1_sent. exact deliver_unforged.
Qed.
Lemma net2_events : EAck (sender mail_in) (sl_ID mail_sl) AckIDs ∈ rx_events (nb net2) ∧ rx_decided (nb net2) = [(mail_opened, VApplied)].
Proof.
  unfold net2, net_do, deliver_note. cbn [nexec nb rexec]. rewrite mail_opens. split; [|vm_compute; reflexivity].
  apply list_elem_of_In. vm_compute. tauto.
Qed.
Lemma net3_step : net_ok mail_priv priv_b (NSealAck (sender mail_in) (sl_ID mail_sl) AckIDs mail_box mail_later mail_later rnd_b) net2.
Proof. split; [exact (proj1 net2_events)|]. split; [vm_compute; split; discriminate|vm_compute; reflexivity]. Qed.
Definition ack_sent : SealInput := ack_input priv_b (sender mail_in) (sl_ID mail_sl) AckIDs mail_box mail_later rnd_b.
Definition ack_op : Opened := match open opener_a ack_env mail_later with Ok op => op | Err _ => mail_opened end.
Lemma ack_opens : open opener_a ack_env mail_later = Ok ack_op.
Proof. vm_compute. reflexivity. Qed.
Lemma ack_only op : open opener_a ack_env mail_later = Ok op → op = ack_op.
Proof. rewrite ack_opens. intros Ho. exact (f_equal (λ r : result RejectError Opened, match r with Ok x => x | Err _ => ack_op end) (eq_sym Ho)). Qed.
Lemma ack_unforged : unforged ack_env ack_op [ack_sent].
Proof.
  intros gen sig key canon Hp Hc _ _. vm_compute in Hp. injection Hp as <- _. vm_compute in Hc. injection Hc as <-.
  exists ack_sent, (ack_object AckIDs (sl_ID mail_sl)). split; [by left|]. split_and!; vm_compute; reflexivity.
Qed.
Lemma net4_step : net_ok mail_priv priv_b (NAck opener_a ack_env mail_later) net3.
Proof. split; [vm_compute; reflexivity|]. intros op Ho _. rewrite (ack_only op Ho). exact ack_unforged. Qed.
Lemma net5_step : net_ok mail_priv priv_b (NA (OpJob 0 relay_ok)) net4.
Proof. by split. Qed.
Lemma do_reach op n : net_reach note_kinds 0 mail_priv priv_b n → net_ok mail_priv priv_b op n → net_reach note_kinds 0 mail_priv priv_b (net_do op n).
Proof. apply net_step. Qed.
Lemma net0_reach : net_reach note_kinds 0 mail_priv priv_b net0.
Proof. exact (net_init note_kinds 0 mail_priv priv_b mail_now). Qed.
Lemma net1_reach : net_reach note_kinds 0 mail_priv priv_b net1.
Proof. exact (do_reach (NA op_note) net0 net0_reach net1_step). Qed.
Lemma net2_reach : net_reach note_kinds 0 mail_priv priv_b net2.
Proof. exact (do_reach (NB deliver_note mail_later) net1 net1_reach net2_step). Qed.
Lemma net3_reach : net_reach note_kinds 0 mail_priv priv_b net3.
Proof. exact (do_reach (NSealAck (sender mail_in) (sl_ID mail_sl) AckIDs mail_box mail_later mail_later rnd_b) net2 net2_reach net3_step). Qed.
Lemma net4_reach : net_reach note_kinds 0 mail_priv priv_b net4.
Proof. exact (do_reach (NAck opener_a ack_env mail_later) net3 net3_reach net4_step). Qed.
Lemma net5_reach : net_reach note_kinds 0 mail_priv priv_b net5.
Proof. exact (do_reach (NA (OpJob 0 relay_ok)) net4 net4_reach net5_step). Qed.
Definition delivered_row : orow := finished MailDelivered [] mail_now note_row.
Lemma net5_rows : rows (box (na net5)) = [delivered_row].
Proof. vm_compute. reflexivity. Qed.
Lemma nb_na op n : nb (net_do (NA op) n) = nb n.
Proof. reflexivity. Qed.
Lemma nb_nack o env t n : nb (net_do (NAck o env t) n) = nb n.
Proof. unfold net_do. cbn [nexec]. destruct (open o env t); [|reflexivity]. by destruct (bool_decide _). Qed.
Lemma net5_nb : nb net5 = nb net2.
Proof. unfold net5. rewrite nb_na. unfold net4. rewrite nb_nack. unfold net3, net_do. reflexivity. Qed.
Lemma net5_decided : rx_decided (nb net5) = [(mail_opened, VApplied)].
Proof. rewrite net5_nb. exact (proj2 net2_events). Qed.
Lemma delivered_mail_stored_witness : ID (op_Msg mail_opened) = o_id delivered_row ∧ Kind (op_Msg mail_opened) = o_kind delivered_row.
Proof.
  assert (delivered_row ∈ rows (box (na net5))) as Hin by (rewrite net5_rows; by left).
  destruct (proj1 (delivered_mail_stored note_kinds 0 mail_priv priv_b net5 delivered_row net5_reach Hin (eq_sym (proj2 net_keys))) eq_refl)
    as (op & v & i & Hd & _ & _ & Hid & Hk & _ & b & Hm & _).
  rewrite net5_decided in Hd. apply list_elem_of_singleton in Hd as [= -> ->]. rewrite Hm. split; [exact Hid|exact Hk].
Defined.
