(* ===== verification/KeyStore.v ===== *)
(** * Secrets in the keychain or a file (internal/keystore/keystore.go)

    A Store is a list of backends, most preferred first. A backend is its
    name, what it holds, and how it answers now; the operating system decides
    the answers, so they are an argument. Error texts are dropped, and Load's
    message locations with them. *)

From S2P Require Import Prelude.

Open Scope Z_scope.

(** What a backend holds: an unusable copy is a key file that others can read
    or an entry that does not decode. *)
Inductive copy := Absent | Holds (s : bytes) | Unusable.
(** How it answers: a locked keychain and a host without one are told apart;
    a file system that fails is neither. *)
Inductive mood := Works | Locked | NoService | Fails.
#[export] Instance mood_eq_dec : EqDecision mood.
Proof. solve_decision. Defined.

Abbreviation entry := (list (bytes * copy)).

(** Contents: what every backend returned. *)
Record Contents := MkContents { Copies : list (bytes * bytes); Unavailable : list bytes; NoServices : list bytes; Broken : list bytes }.
Definition add_copy (n s : bytes) (c : Contents) : Contents := MkContents ((n, s) :: Copies c) (Unavailable c) (NoServices c) (Broken c).
Definition add_unavailable (n : bytes) (c : Contents) : Contents := MkContents (Copies c) (n :: Unavailable c) (NoServices c) (Broken c).
Definition add_noservice (n : bytes) (c : Contents) : Contents := MkContents (Copies c) (Unavailable c) (n :: NoServices c) (Broken c).
Definition add_broken (n : bytes) (c : Contents) : Contents := MkContents (Copies c) (Unavailable c) (NoServices c) (n :: Broken c).

Section Store.
Context (answers : bytes → mood).   (* by the backend's name *)

Fixpoint Read (e : entry) : Contents :=
  match e with
  | [] => MkContents [] [] [] []
  | (n, h) :: e =>
      let c := Read e in
      match answers n with
      | Locked => add_unavailable n c
      | NoService => add_noservice n c
      | Fails => add_broken n c
      | Works => match h with Absent => c | Holds s => add_copy n s c | Unusable => add_broken n c end
      end
  end.

Definition Distinct (c : Contents) : bool :=
  match Copies c with
  | [] => false
  | p :: l => existsb (λ q, negb (bool_decide (q.2 = p.2))) l
  end.

Inductive load_error := ErrConflict | ErrBroken | ErrUnavailable | ErrMismatch | ErrNotFound.
(** Pick and LoadMatching: the secret and the name of the backend. *)
Definition Pick (m : option (bytes → bool)) (c : Contents) : result load_error (bytes * bytes) :=
  if bool_decide (m = None) && Distinct c then Err ErrConflict else
  let accept p := match m with None => bool_decide (Broken c = []) | Some f => f p.2 end in
  match List.find accept (Copies c) with
  | Some (n, s) => Ok (s, n)
  | None =>
      Err (if negb (bool_decide (Broken c = [])) then ErrBroken
           else if negb (bool_decide (Unavailable c = [])) then ErrUnavailable
           else if negb (bool_decide (Copies c = [])) then ErrMismatch
           else ErrNotFound)
  end.
Definition LoadMatching (m : option (bytes → bool)) (e : entry) : result load_error (bytes * bytes) := Pick m (Read e).

(** Save: set and read back in the first backend that accepts, and the copies
    elsewhere removed: [before] has those that were skipped. *)
Inductive save_error := NotAccepted | CopyRemains (saved remains : bytes).
Fixpoint clear_before (e : entry) : entry :=
  match e with
  | [] => []
  | (n, h) :: e => (n, if bool_decide (answers n = Works) then Absent else h) :: clear_before e
  end.
Fixpoint clear_after (e : entry) : entry * option bytes :=
  match e with
  | [] => ([], None)
  | (n, h) :: e =>
      if bool_decide (answers n = Works) then let '(e, rem) := clear_after e in ((n, Absent) :: e, rem)
      else ((n, h) :: e, Some n)
  end.
Fixpoint save_from (before : entry) (secret : bytes) (e : entry) : entry * result save_error bytes :=
  match e with
  | [] => (before, Err NotAccepted)
  | (n, h) :: e =>
      if bool_decide (answers n = Works) then
        let '(e, rem) := clear_after e in
        (clear_before before ++ (n, Holds secret) :: e, match rem with Some l => Err (CopyRemains n l) | None => Ok n end)
      else save_from (before ++ [(n, h)]) secret e
  end.
Definition Save (secret : bytes) (e : entry) : entry * result save_error bytes := save_from [] secret e.

(** DeleteSaved: the entry after, and whether there was no error. *)
Definition deleted_ok (savedIn : bytes) (n : bytes) : bool :=
  match answers n with
  | Works => true
  | NoService => negb (negb (bool_decide (savedIn = [])) && bool_decide (n = savedIn))
  | Locked | Fails => false
  end.
Definition DeleteSaved (savedIn : bytes) (e : entry) : entry * bool := (clear_before e, forallb (λ p, deleted_ok savedIn p.1) e).
Definition Delete (e : entry) : entry * bool := DeleteSaved [] e.

End Store.

(** ** What the store promises *)

Definition held (e : entry) (n s : bytes) : Prop := (n, Holds s) ∈ e.

Lemma Read_copies answers e n s : (n, s) ∈ Copies (Read answers e) ↔ held e n s ∧ answers n = Works.
Proof.
  induction e as [|[m h] e IH]; cbn; [rewrite elem_of_nil; unfold held; rewrite elem_of_nil; tauto|].
  assert (held ((m, h) :: e) n s ↔ (m = n ∧ h = Holds s) ∨ held e n s) as -> by (unfold held; rewrite elem_of_cons; naive_solver).
  destruct (answers m) eqn:E; [destruct h as [|s'|]|..]; cbn; rewrite ?elem_of_cons, IH; intuition congruence.
Qed.

(** While a backend gives out a secret that the check accepts, one is loaded,
    whatever the others hold or answer. *)
Lemma LoadMatching_held answers e n s f : held e n s → answers n = Works → f s = true →
  ∃ s' n', LoadMatching answers (Some f) e = Ok (s', n') ∧ f s' = true.
Proof.
  intros Hh Hw Hf. unfold LoadMatching, Pick. cbn. destruct (List.find _ _) as [[n' s']|] eqn:E.
  - apply List.find_some in E as [_ E]. by exists s', n'.
  - exfalso. assert ((n, s) ∈ Copies (Read answers e)) as Hin by (by apply Read_copies). apply list_elem_of_In in Hin.
    pose proof (List.find_none _ _ E _ Hin) as Hn. cbn in Hn. congruence.
Qed.
Lemma LoadMatching_ok answers e f s n : LoadMatching answers (Some f) e = Ok (s, n) → held e n s ∧ f s = true ∧ answers n = Works.
Proof.
  unfold LoadMatching, Pick. cbn. destruct (List.find _ _) as [[n' s']|] eqn:E; [|done]. intros [= -> ->].
  apply List.find_some in E as [Hin E]. apply list_elem_of_In, Read_copies in Hin as [? ?]. done.
Qed.
(** An outage is not an absence. *)
Lemma LoadMatching_absent answers e f err : LoadMatching answers (Some f) e = Err err → err = ErrNotFound ∨ err = ErrMismatch →
  ∀ n s, held e n s → f s = true → answers n = NoService.
Proof.
  unfold LoadMatching, Pick. cbn. destruct (List.find _ _) as [[n' s']|] eqn:E; [done|]. intros [= <-] Hc n s Hh Hf.
  destruct (answers n) eqn:Ea; try done; exfalso.
  - assert ((n, s) ∈ Copies (Read answers e)) as Hin by (by apply Read_copies). apply list_elem_of_In in Hin.
    pose proof (List.find_none _ _ E _ Hin) as Hn. cbn in Hn. congruence.
  - assert (Unavailable (Read answers e) ≠ []) as Hu.
    { clear -Hh Ea. unfold held in Hh. induction e as [|[m h] e IH]; [by apply elem_of_nil in Hh|]. apply elem_of_cons in Hh as [[= <- <-]|Hh]; cbn; [by rewrite Ea|].
      specialize (IH Hh). destruct (answers m); cbn; try done. by destruct h. }
    destruct (bool_decide (Broken _ = [])); [|naive_solver]. rewrite (bool_decide_eq_false_2 _ Hu) in Hc. naive_solver.
  - assert (Broken (Read answers e) ≠ []) as Hu.
    { clear -Hh Ea. unfold held in Hh. induction e as [|[m h] e IH]; [by apply elem_of_nil in Hh|]. apply elem_of_cons in Hh as [[= <- <-]|Hh]; cbn; [by rewrite Ea|].
      specialize (IH Hh). destruct (answers m); cbn; try done. by destruct h. }
    rewrite (bool_decide_eq_false_2 _ Hu) in Hc. naive_solver.
Qed.

Lemma save_from_held answers before secret e e' n : save_from answers before secret e = (e', Ok n) → held e' n secret ∧ n ∈ map fst e.
Proof.
  revert before. induction e as [|[m h] e IH]; intros before; cbn; [done|]. destruct (bool_decide (answers m = Works)) eqn:E.
  - destruct (clear_after answers e) as [e2 [l|]] eqn:Ec; [done|]. intros [= <- <-]. split; [|by left]. apply elem_of_app. right. by left.
  - intros H. destruct (IH _ H). split; [done|by right].
Qed.
Lemma clear_before_names answers e : map fst (clear_before answers e) = map fst e.
Proof. induction e as [|[n h] e IH]; cbn; [done|]. by rewrite IH. Qed.
Lemma clear_after_names answers e : map fst (clear_after answers e).1 = map fst e.
Proof. induction e as [|[n h] e IH]; cbn; [done|]. destruct (bool_decide _); [|done]. destruct (clear_after answers e); cbn in *. by rewrite IH. Qed.
Lemma save_from_names answers before secret e : map fst (save_from answers before secret e).1 = map fst before ++ map fst e.
Proof.
  revert before. induction e as [|[m h] e IH]; intros before; cbn; [by rewrite app_nil_r|]. destruct (bool_decide _).
  - pose proof (clear_after_names answers e) as Hn. destruct (clear_after answers e) as [e2 l]. cbn in *. by rewrite map_app, clear_before_names, <- Hn.
  - rewrite IH, map_app. cbn. by rewrite <- app_assoc.
Qed.
(** What DeleteSaved reports as deleted is not where it was saved. *)
Lemma DeleteSaved_gone answers saved e s : (DeleteSaved answers saved e).2 = true → saved ≠ [] → ¬ held (DeleteSaved answers saved e).1 saved s.
Proof.
  unfold DeleteSaved. cbn. intros Hd Hs Hh. rewrite forallb_forall in Hd. unfold held in Hh.
  induction e as [|[n h] e IH]; [by apply elem_of_nil in Hh|]. cbn in Hh. apply elem_of_cons in Hh as [Hh|Hh].
  - injection Hh as <- Hh. pose proof (Hd (saved, h) ltac:(by left)) as Hk. cbn in Hk. unfold deleted_ok in Hk. destruct (answers saved) eqn:E; try done.
    rewrite !bool_decide_eq_false_2, bool_decide_eq_true_2 in Hk by done. done.
  - apply IH; [|done]. intros x Hx. apply Hd. by right.
Qed.
