(* ===== verification/Mailbox.v ===== *)
(** * The own mailbox keys (internal/mailbox/mailbox.go)

    A key is announced, retired by its successor, and deleted: after 21 days
    by an age that the peers' signed times bound, or because more than three
    would be live. Every method runs under one lock, so it is one step. What it
    reads from outside - the clock, the random seed, what the keystore's
    backends answer, failing statements, the mail_seen rows that the receiver
    has written by then - is its argument. The import of the
    file that an older version wrote is not modelled. *)

From S2P Require Import Prelude Utf8 Canonical Strconv WireTime Body RequestObject Signing MailMessage MailOpen MailReceiver KeyStore.
From stdpp Require Import gmap.

Open Scope Z_scope.
Open Scope go_scope.

Definition renewBefore : Z := hour.
Definition RotateAfter : Z := 7 * day.
Definition DeleteGrace : Z := 7 * day.
Definition MaxLive : nat := 3.
Definition loadRetry : Z := second.

(** One row of mailbox_keys_own. *)
Record own_row := OwnRow {
  ow_id : bytes; ow_pub : bytes; ow_created : bytes; ow_notAfter : bytes;
  ow_retired : option bytes; ow_deleted : option bytes; ow_ann : bytes; ow_backend : bytes;
}.
(** row: as live reads it. *)
Record krow := KRow { keyID : bytes; created : Z; notAfter : Z; retired : bool; announced : bytes; kbackend : bytes }.

Inductive kstage := KLive | KMkdir | KBegin | KRetire | KInsert | KCommit | KBasis | KSign.
#[export] Instance kstage_eq_dec : EqDecision kstage.
Proof. solve_decision. Defined.
Inductive keys_error := KeysDb (s : kstage) | KeysLoad (e : load_error) | KeysBadTimes | KeysAnnouncement | KeysSave (e : save_error) | KeysSweep.

(** What a step reads from outside. *)
Record kin := KIn {
  k_now : Z;
  k_seed : bytes;                       (* GenerateKey's *)
  k_mood : bytes → bytes → mood;        (* by key_id and backend *)
  k_fault : kstage → bool;
  k_mark : bytes → bool;                (* the UPDATE that marks this key deleted fails *)
  k_seen : list seen_row;               (* mail_seen, as the receiver left it *)
}.

Record keys := Keys {
  k_rows : list own_row;
  k_ks : gmap bytes entry;              (* the keystore, by key_id *)
  k_cache : gmap bytes bytes;
  k_failed : gmap bytes Z;
}.
Definition with_krows (l : list own_row) (s : keys) : keys := Keys l (k_ks s) (k_cache s) (k_failed s).
Definition with_ks (m : gmap bytes entry) (s : keys) : keys := Keys (k_rows s) m (k_cache s) (k_failed s).
Definition with_cache (c : gmap bytes bytes) (f : gmap bytes Z) (s : keys) : keys := Keys (k_rows s) (k_ks s) c f.

Section Keys.
Context `{CR : Crypto} `{HP : Hpke} `{HL : !HpkeLaws}.
Context (identity : bytes) (sign : bytes → option bytes) (backends : list bytes).

Definition KeyString : bytes := b64_encode identity.
(** keystoreFor: an entry no one has written holds nothing. *)
Definition keystoreFor (id : bytes) (s : keys) : entry := default (map (λ n, (n, Absent)) backends) (k_ks s !! id).

(** ** live *)

Definition created_le (a b : own_row) : Prop :=
  (text_lt (ow_created a) (ow_created b) || (bool_decide (ow_created a = ow_created b) && text_le (ow_id a) (ow_id b))) = true.
#[local] Instance created_le_dec a b : Decision (created_le a b).
Proof. unfold created_le. apply _. Defined.
Definition is_live (r : own_row) : bool := bool_decide (ow_deleted r = None).
Definition read_row (r : own_row) : option krow :=
  c ← parse_store (ow_created r); n ← parse_store (ow_notAfter r);
  Some (KRow (ow_id r) c n (bool_decide (is_Some (ow_retired r))) (ow_ann r) (ow_backend r)).
Definition live (fault : bool) (s : keys) : result keys_error (list krow) :=
  if fault then Err (KeysDb KLive) else
  match mapM read_row (merge_sort created_le (List.filter is_live (k_rows s))) with
  | Some l => Ok l
  | None => Err KeysBadTimes
  end.

Definition currentOf (rows : list krow) : option krow :=
  fold_left (λ cur r, if retired r then cur else match cur with
                                                 | Some c => if created c <? created r then Some r else cur
                                                 | None => Some r
                                                 end) rows None.

(** ** Loading a private key *)

Definition rowPub (r : krow) : option bytes :=
  match ParseAnnouncement (announced r) KeyString (created r) with Ok (ann, _) => Some (an_Pub ann) | Err _ => None end.
Definition has_public (pub seed : bytes) : bool := (zlen seed =? 32) && bool_decide (mailbox_public seed = pub).
Definition load (i : kin) (id pub : bytes) (s : keys) : result load_error bytes :=
  match LoadMatching (k_mood i id) (Some (has_public pub)) (keystoreFor id s) with
  | Ok (seed, _) => Ok seed
  | Err e => Err e
  end.

Definition usable (i : kin) (r : krow) (s : keys) : result keys_error bool :=
  if negb (k_now i + renewBefore <? notAfter r) || (k_now i + MaxSkew <? created r) then Ok false else
  match rowPub r with
  | None => Ok false
  | Some pub =>
      match load i (keyID r) pub s with
      | Ok _ => Ok true
      | Err ErrNotFound | Err ErrMismatch => Ok false
      | Err ErrUnavailable => Ok true
      | Err e => Err (KeysLoad e)
      end
  end.

(** MailboxKey: the private key, and the cache and failures after. *)
Definition MailboxKey (i : kin) (id : bytes) (s : keys) : option bytes * keys :=
  match live (k_fault i KLive) s with
  | Err _ => (None, s)
  | Ok rows =>
      match List.find (λ r, bool_decide (keyID r = KeyID_String id) && (k_now i <? notAfter r + DeleteGrace)) rows with
      | None => (None, s)
      | Some r =>
          match k_cache s !! keyID r with
          | Some priv => (Some priv, s)
          | None =>
              if match k_failed s !! keyID r with Some t => (Sub (k_now i) t <? loadRetry) && negb (k_now i <? t) | None => false end
              then (None, s) else
              match match rowPub r with Some pub => match load i (keyID r) pub s with Ok seed => Some seed | Err _ => None end | None => None end with
              | None => (None, with_cache (k_cache s) (<[keyID r := k_now i]> (k_failed s)) s)
              | Some seed => (Some seed, with_cache (<[keyID r := seed]> (k_cache s)) (delete (keyID r) (k_failed s)) s)
              end
          end
      end
  end.

(** ** Deleting *)

Definition expired (r : krow) (rows : list krow) (basis : Z) : bool :=
  negb (basis <? notAfter r + DeleteGrace) && existsb (λ n, (created r <? created n) && negb (basis <? created n + DeleteGrace)) rows.

(** The index of the victim: [j] is the index of the head, [i] the best so far. *)
Fixpoint cap_from (rows : list krow) (now : Z) (j : nat) (i : option (nat * krow)) : option nat :=
  match rows with
  | [] => option_map fst i
  | r :: rows =>
      if negb (retired r) then cap_from rows now (S j) i else
      if now + MaxSkew <? created r then Some j else
      cap_from rows now (S j) (match i with
                               | Some (_, b) => if created r <? created b then Some (j, r) else i
                               | None => Some (j, r)
                               end)
  end.
Definition capVictim (rows : list krow) (now : Z) : option nat := cap_from rows now 0 None.
Definition retire (rows : list krow) : list krow := map (λ r, KRow (keyID r) (created r) (notAfter r) true (announced r) (kbackend r)) rows.

Definition mark_deleted (id at_ : bytes) (r : own_row) : own_row :=
  if bool_decide (ow_id r = id) then OwnRow (ow_id r) (ow_pub r) (ow_created r) (ow_notAfter r) (ow_retired r) (Some at_) (ow_ann r) (ow_backend r) else r.
Definition deleteKey (i : kin) (r : krow) (s : keys) : keys * bool :=
  let id := keyID r in
  let '(e, ok) := DeleteSaved (k_mood i id) (kbackend r) (keystoreFor id s) in
  let s := Keys (k_rows s) (<[id := e]> (k_ks s)) (delete id (k_cache s)) (delete id (k_failed s)) in
  if negb ok || k_mark i id then (s, false) else (with_krows (map (mark_deleted id (storeTime (k_now i))) (k_rows s)) s, true).

(** The loops of sweepLocked: by age, then by number. They return the rows
    that are still live and whether nothing failed. *)
Fixpoint sweep_aged (i : kin) (basis : option Z) (all rows : list krow) (s : keys) : keys * list krow * bool :=
  match rows with
  | [] => (s, [], true)
  | r :: rows =>
      if negb match basis with Some b => expired r all b | None => false end
      then let '(s, keep, ok) := sweep_aged i basis all rows s in (s, r :: keep, ok)
      else let '(s, gone) := deleteKey i r s in
           let '(s, keep, ok) := sweep_aged i basis all rows s in
           (s, if gone : bool then keep else r :: keep, gone && ok)
  end.
Fixpoint sweep_cap (i : kin) (fuel : nat) (keep : list krow) (s : keys) : keys * bool :=
  match fuel with
  | O => (s, true)
  | S fuel =>
      if negb (MaxLive <? length keep)%nat then (s, true) else
      match capVictim keep (k_now i) with
      | None => (s, true)
      | Some j =>
          match keep !! j with
          | None => (s, true)
          | Some r => let '(s, gone) := deleteKey i r s in if gone then sweep_cap i fuel (delete j keep) s else (s, false)
          end
      end
  end.
(** mail.SeenBasis, over the mail_seen rows of this moment: the receiver
    writes and prunes that table between the steps of the keys. *)
Definition age_basis (i : kin) : option Z := SeenBasis (k_now i) (MailDb (k_seen i) [] tt).
Definition sweepLocked (i : kin) (rows : list krow) (s : keys) : keys * bool :=
  let basis := if k_fault i KBasis then None else age_basis i in
  let '(s, keep, ok) := sweep_aged i basis rows rows s in
  let '(s, ok2) := sweep_cap i (length keep) keep s in
  (s, negb (k_fault i KBasis) && ok && ok2).

(** ** A new key *)

Definition retire_row (at_ : bytes) (r : own_row) : own_row :=
  if bool_decide (ow_retired r = None) && is_live r
  then OwnRow (ow_id r) (ow_pub r) (ow_created r) (ow_notAfter r) (Some at_) (ow_deleted r) (ow_ann r) (ow_backend r) else r.

(** createLocked: the signed announcement, and the hook is then called with it. *)
Definition createLocked (i : kin) (rows : list krow) (s : keys) : result keys_error bytes * keys :=
  let now := k_now i in
  let pub := mailbox_public (k_seed i) in
  match SignAnnouncement identity (if k_fault i KSign then λ _, None else sign) pub now with
  | None => (Err (KeysDb KSign), s)
  | Some signed =>
      match ParseAnnouncement signed KeyString now with
      | Err _ => (Err KeysAnnouncement, s)
      | Ok (ann, _) =>
          let id := KeyID_String (an_KeyID ann) in
          if k_fault i KMkdir then (Err (KeysDb KMkdir), s) else
          let '(e, saved) := Save (k_mood i id) (k_seed i) (keystoreFor id s) in
          let s1 := with_ks (<[id := e]> (k_ks s)) s in
          match saved with
          | Err x => (Err (KeysSave x), s1)
          | Ok backend =>
              let undo st := (Err (KeysDb st), with_ks (<[id := (KeyStore.Delete (k_mood i id) e).1]> (k_ks s1)) s1) in
              if k_fault i KBegin then undo KBegin else
              if k_fault i KRetire then undo KRetire else
              if k_fault i KInsert || existsb (λ r, bool_decide (ow_id r = id)) (k_rows s1) then undo KInsert else
              if k_fault i KCommit then undo KCommit else
              let row := OwnRow id (b64_encode pub) (storeTime (an_Created ann)) (storeTime (an_NotAfter ann)) None None signed backend in
              let s2 := with_krows (map (retire_row (storeTime now)) (k_rows s1) ++ [row]) s1 in
              let '(s3, _) := sweepLocked i (retire rows ++ [KRow id (an_Created ann) (an_NotAfter ann) false signed backend]) s2 in
              (Ok signed, s3)
          end
      end
  end.

(** announce: Announcement's work; true when the key is new. *)
Definition announce (i : kin) (s : keys) : result keys_error (bytes * bool) * keys :=
  match live (k_fault i KLive) s with
  | Err e => (Err e, s)
  | Ok rows =>
      let create := match createLocked i rows s with (Ok a, s) => (Ok (a, true), s) | (Err e, s) => (Err e, s) end in
      match currentOf rows with
      | None => create
      | Some cur =>
          match usable i cur s with
          | Err e => (Err e, s)
          | Ok true => (Ok (announced cur, false), s)
          | Ok false => create
          end
      end
  end.

(** rotate: Rotate's work; None when no key was made. *)
Definition rotate (i : kin) (s : keys) : result keys_error (option bytes) * keys :=
  match live (k_fault i KLive) s with
  | Err e => (Err e, s)
  | Ok rows =>
      let create := match createLocked i rows s with (Ok a, s) => (Ok (Some a), s) | (Err e, s) => (Err e, s) end in
      let keep := let '(s, ok) := sweepLocked i rows s in (if ok : bool then Ok None else Err KeysSweep, s) in
      match currentOf rows with
      | None => create
      | Some cur =>
          if negb (k_now i <? created cur + RotateAfter) then create else
          match usable i cur s with
          | Err e => (Err e, s)
          | Ok true => keep
          | Ok false => create
          end
      end
  end.

End Keys.
