(* ===== verification/MailboxProofs.v ===== *)
(** * The own mailbox keys: what holds of them

    Whatever the clock does, only retired keys are deleted, for age that the
    peers' signed times show or because more than three would be live; on a
    clock that only advances, every key opens mail for its 21 days. *)

From S2P Require Import Prelude Utf8 Canonical Strconv WireTime Body RequestObject Signing MailMessage MailOpen MailReceiver KeyStore Mailbox.
From stdpp Require Import gmap.

Open Scope Z_scope.

Section Proofs.
Context `{SL : SignLaws} `{HP : Hpke} `{HL : !HpkeLaws}.
Context (priv : bytes) (backends : list bytes).

Abbreviation identity := (ed25519_Public priv).
Definition own_sign (m : bytes) : option bytes := Some (ed25519_Sign priv m).

(** ** Sweeping *)

Definition mark_ids (at_ : bytes) (ids : list bytes) (r : own_row) : own_row :=
  if bool_decide (ow_id r ∈ ids) then OwnRow (ow_id r) (ow_pub r) (ow_created r) (ow_notAfter r) (ow_retired r) (Some at_) (ow_ann r) (ow_backend r) else r.
Lemma mark_ids_id at_ ids r : ow_id (mark_ids at_ ids r) = ow_id r.
Proof. unfold mark_ids. by destruct (bool_decide _). Qed.
Lemma mark_ids_app at_ ids ids' l : map (mark_ids at_ ids') (map (mark_ids at_ ids) l) = map (mark_ids at_ (ids ++ ids')) l.
Proof.
  rewrite map_map. apply map_ext. intros r. unfold mark_ids at 1. rewrite mark_ids_id. unfold mark_ids.
  destruct (bool_decide (ow_id r ∈ ids)) eqn:E1, (bool_decide (ow_id r ∈ ids')) eqn:E2, (bool_decide (ow_id r ∈ ids ++ ids')) eqn:E3; bprop; try done; exfalso; set_solver.
Qed.
Lemma mark_deleted_ids id at_ l : map (mark_deleted id at_) l = map (mark_ids at_ [id]) l.
Proof.
  apply map_ext. intros r. unfold mark_deleted, mark_ids. destruct (bool_decide (ow_id r = id)) eqn:E1, (bool_decide (ow_id r ∈ [id])) eqn:E2; bprop; try done; exfalso; set_solver.
Qed.
Lemma mark_ids_nil at_ l : map (mark_ids at_ []) l = l.
Proof. induction l as [|r l IH]; [done|]. cbn. rewrite IH. done. Qed.

(** What a sweep changes: the rows [ids] are marked, after their secrets and
    those of the rows [tried] were deleted or not. *)
Record swept (i : kin) (tried ids : list bytes) (s s' : keys) : Prop := {
  sw_sub : ∀ id, id ∈ ids → id ∈ tried;
  sw_rows : k_rows s' = map (mark_ids (storeTime (k_now i)) ids) (k_rows s);
  sw_ks : ∀ id, id ∉ tried → k_ks s' !! id = k_ks s !! id ∧ k_cache s' !! id = k_cache s !! id ∧ k_failed s' !! id = k_failed s !! id;
  sw_cache : ∀ id, id ∈ tried → k_cache s' !! id = None;
}.
Lemma swept_nil i s : swept i [] [] s s.
Proof. split; [done|by rewrite mark_ids_nil|done|]. intros id Hid. by apply elem_of_nil in Hid. Qed.
Lemma swept_app i tried ids s1 tried' ids' s2 s3 : swept i tried ids s1 s2 → swept i tried' ids' s2 s3 → swept i (tried ++ tried') (ids ++ ids') s1 s3.
Proof.
  intros [A1 A2 A3 A4] [B1 B2 B3 B4]. split.
  - intros id. rewrite !elem_of_app. intros [?|?]; [left; by apply A1|right; by apply B1].
  - by rewrite B2, A2, mark_ids_app.
  - intros id. rewrite elem_of_app. intros Hn. destruct (A3 id ltac:(tauto)) as (a1 & a2 & a3), (B3 id ltac:(tauto)) as (b1 & b2 & b3). split_and!; congruence.
  - intros id. rewrite elem_of_app. intros Hid. destruct (decide (id ∈ tried')) as [Hin|Hin]; [by apply B4|]. destruct (B3 id Hin) as (_ & -> & _). apply A4. tauto.
Qed.
Lemma deleteKey_swept i r s s' gone : deleteKey backends i r s = (s', gone) → swept i [keyID r] (if gone then [keyID r] else []) s s'.
Proof.
  unfold deleteKey. destruct (DeleteSaved _ _ _) as [e ok]. assert (∀ l, swept i [keyID r] [] s (Keys (k_rows s) (<[keyID r := l]> (k_ks s)) (delete (keyID r) (k_cache s)) (delete (keyID r) (k_failed s)))) as H0.
  { intros l. split; cbn; [intros id Hid; by apply elem_of_nil in Hid|by rewrite mark_ids_nil| |].
    - intros id Hid. rewrite list_elem_of_singleton in Hid. rewrite lookup_insert_ne, !lookup_delete_ne by congruence. done.
    - intros id ->%list_elem_of_singleton. by rewrite lookup_delete_eq. }
  destruct (negb ok || k_mark i (keyID r)); intros [= <- <-]; [apply H0|]. destruct (H0 e) as [_ _ H3 H4]. split; cbn in *; [done| |done|done].
  by rewrite mark_deleted_ids.
Qed.

(** Why a key may be deleted. *)
Definition aged (i : kin) (rows : list krow) (r : krow) : Prop := ∃ b, age_basis i = Some b ∧ expired r rows b = true.
Definition capped (i : kin) (rows : list krow) (r : krow) : Prop :=
  ∃ keep j, sublist keep rows ∧ (MaxLive < length keep)%nat ∧ capVictim keep (k_now i) = Some j ∧ keep !! j = Some r.

(** The victim is retired, and from the future or the oldest retired one. *)
Lemma cap_from_ok rows now j i k : cap_from rows now j i = Some k →
  (∃ n r, k = (j + n)%nat ∧ rows !! n = Some r ∧ retired r = true ∧
     (now + MaxSkew < created r ∨ (∀ x, x ∈ rows → retired x = true → created r ≤ created x) ∧ ∀ m b, i = Some (m, b) → created r ≤ created b)) ∨
  (∃ b, i = Some (k, b) ∧ ∀ x, x ∈ rows → retired x = true → created b ≤ created x).
Proof.
  revert j i. induction rows as [|r rows IH]; intros j i; cbn [cap_from].
  { destruct i as [[m b]|]; [|done]. cbn. intros [= ->]. right. exists b. split; [done|]. intros x Hx. by apply elem_of_nil in Hx. }
  destruct (retired r) eqn:Er; cbn [negb].
  2: { intros Hc. destruct (IH _ _ Hc) as [(n & y & -> & Hn & Hy & Hor)|(b & -> & Hb)].
       - left. exists (S n), y. split_and!; [lia|done|done|]. destruct Hor as [?|[H1 H2]]; [by left|right]. split; [|done].
         intros x [->|Hx]%elem_of_cons; [congruence|by apply H1].
       - right. exists b. split; [done|]. intros x [->|Hx]%elem_of_cons; [congruence|by apply Hb]. }
  destruct (now + MaxSkew <? created r) eqn:Es.
  { intros [= <-]. left. exists 0%nat, r. split_and!; [lia|done|done|]. left. lia. }
  intros Hc. destruct (IH _ _ Hc) as [(n & y & -> & Hn & Hy & Hor)|(b & Eb & Hb)].
  - left. exists (S n), y. split_and!; [lia|done|done|]. destruct Hor as [?|[H1 H2]]; [by left|right].
    destruct i as [[m b]|].
    + destruct (created r <? created b) eqn:Ec.
      * pose proof (H2 _ _ eq_refl). split; [intros x [->|Hx]%elem_of_cons; [done|by apply H1]|]. intros m' b' [= <- <-]. lia.
      * pose proof (H2 _ _ eq_refl). split; [intros x [->|Hx]%elem_of_cons; [lia|by apply H1]|]. by intros m' b' [= <- <-].
    + pose proof (H2 _ _ eq_refl). split; [intros x [->|Hx]%elem_of_cons; [done|by apply H1]|done].
  - destruct i as [[m b']|].
    + destruct (created r <? created b') eqn:Ec; injection Eb as -> ->.
      * left. exists 0%nat, b. split_and!; [lia|done|done|]. right. split; [intros x [->|Hx]%elem_of_cons; [lia|by apply Hb]|]. intros ? ? [= <- <-]. lia.
      * right. exists b. split; [done|]. intros x [->|Hx]%elem_of_cons; [lia|by apply Hb].
    + injection Eb as -> ->. left. exists 0%nat, b. split_and!; [lia|done|done|]. right. split; [|done]. intros x [->|Hx]%elem_of_cons; [lia|by apply Hb].
Qed.
Lemma capVictim_ok rows now j : capVictim rows now = Some j → ∃ r, rows !! j = Some r ∧ retired r = true ∧
  (now + MaxSkew < created r ∨ ∀ x, x ∈ rows → retired x = true → created r ≤ created x).
Proof.
  intros Hc. destruct (cap_from_ok _ _ _ _ _ Hc) as [(n & r & -> & Hn & Hr & Hor)|(b & [=] & _)]. exists r. split_and!; [done|done|]. destruct Hor as [?|[? _]]; auto.
Qed.
Lemma cap_from_none rows now j i : cap_from rows now j i = None → i = None ∧ ∀ x, x ∈ rows → retired x = false.
Proof.
  revert j i. induction rows as [|r rows IH]; intros j i; cbn [cap_from].
  - destruct i; [done|]. intros _. split; [done|]. intros x Hx. by apply elem_of_nil in Hx.
  - destruct (retired r) eqn:Er; cbn [negb].
    + destruct (_ <? _); [done|]. intros Hc. apply IH in Hc as [Hc _]. destruct i as [[? ?]|]; [destruct (_ <? _)|]; done.
    + intros Hc. apply IH in Hc as [-> Hc]. split; [done|]. intros x [->|Hx]%elem_of_cons; [done|by apply Hc].
Qed.

Lemma sweep_aged_ok i all rows s s' keep ok : sweep_aged backends i (age_basis i) all rows s = (s', keep, ok) →
  ∃ tried ids, swept i tried ids s s' ∧ map keyID rows ≡ₚ map keyID keep ++ ids ∧ sublist keep rows ∧
    (∀ id, id ∈ tried → ∃ r, r ∈ rows ∧ keyID r = id ∧ aged i all r).
Proof.
  revert s s' keep ok. induction rows as [|r rows IH]; intros s s' keep ok; cbn [sweep_aged].
  { intros [= <- <- <-]. exists [], []. split_and!; [apply swept_nil|done|done|]. intros id Hid. by apply elem_of_nil in Hid. }
  destruct (match age_basis i with Some b => expired r all b | None => false end) eqn:Ea; cbn [negb].
  - destruct (deleteKey backends i r s) as [s1 gone] eqn:Ed. destruct (sweep_aged backends i _ all rows s1) as [[s2 keep2] ok2] eqn:E2. intros [= <- <- <-].
    destruct (IH _ _ _ _ E2) as (tried & ids & Hsw & Hp & Hsub & Hr). apply deleteKey_swept in Ed.
    eexists _, _. split; [eapply swept_app; [exact Ed|exact Hsw]|]. split; [|split].
    + destruct gone; cbn; rewrite Hp; [|done]. by rewrite Permutation_middle.
    + destruct gone; [by apply sublist_cons|by apply sublist_skip].
    + intros id [->%list_elem_of_singleton|Hid]%elem_of_app.
      * exists r. split; [by left|]. split; [done|]. destruct (age_basis i) as [b|] eqn:Eb; [|done]. exists b. by split.
      * destruct (Hr id Hid) as (x & Hx & ?). exists x. split; [by right|done].
  - destruct (sweep_aged backends i _ all rows s) as [[s2 keep2] ok2] eqn:E2. intros [= <- <- <-].
    destruct (IH _ _ _ _ E2) as (tried & ids & Hsw & Hp & Hsub & Hr). exists tried, ids. split; [done|]. split; [cbn; by rewrite Hp|]. split; [by apply sublist_skip|].
    intros id Hid. destruct (Hr id Hid) as (x & Hx & ?). exists x. split; [by right|done].
Qed.
Lemma sweep_cap_ok i fuel keep s s' ok : (length keep ≤ fuel)%nat → sweep_cap backends i fuel keep s = (s', ok) →
  ∃ tried ids keep', swept i tried ids s s' ∧ map keyID keep ≡ₚ map keyID keep' ++ ids ∧ sublist keep' keep ∧
    (∀ id, id ∈ tried → ∃ r, r ∈ keep ∧ keyID r = id ∧ capped i keep r) ∧
    (tried ≠ [] → (MaxLive ≤ length keep')%nat) ∧ (ok = true → (length keep' ≤ MaxLive)%nat ∨ capVictim keep' (k_now i) = None).
Proof.
  revert keep s s' ok. induction fuel as [|fuel IH]; intros keep s s' ok Hf; cbn [sweep_cap].
  { intros [= <- <-]. exists [], [], keep. split_and!; [apply swept_nil|by rewrite app_nil_r|done| |done|].
    - intros id Hid. by apply elem_of_nil in Hid.
    - intros _. left. destruct keep; [cbn; lia|cbn in Hf; lia]. }
  assert (∀ s ok, ((length keep ≤ MaxLive)%nat ∨ capVictim keep (k_now i) = None) → (s, ok) = (s', ok) → ∃ tried ids keep', swept i tried ids s s' ∧ map keyID keep ≡ₚ map keyID keep' ++ ids ∧ sublist keep' keep ∧
    (∀ id, id ∈ tried → ∃ r, r ∈ keep ∧ keyID r = id ∧ capped i keep r) ∧ (tried ≠ [] → (MaxLive ≤ length keep')%nat) ∧ (ok = true → (length keep' ≤ MaxLive)%nat ∨ capVictim keep' (k_now i) = None)) as Hstop.
  { intros s0 ok0 Hc [= ->]. exists [], [], keep. split_and!; [apply swept_nil|by rewrite app_nil_r|done| |done|done]. intros id Hid. by apply elem_of_nil in Hid. }
  destruct (MaxLive <? length keep)%nat eqn:El; cbn [negb].
  2: { intros [= <- <-]. apply (Hstop s true); [left; by apply Nat.ltb_ge|done]. }
  apply Nat.ltb_lt in El. destruct (capVictim keep (k_now i)) as [j|] eqn:Ev; [|intros [= <- <-]; apply (Hstop s true); [by right|done]].
  destruct (keep !! j) as [r|] eqn:Ej.
  2: { exfalso. destruct (capVictim_ok _ _ _ Ev) as (r & Hr & _). congruence. }
  destruct (deleteKey backends i r s) as [s1 gone] eqn:Ed. apply deleteKey_swept in Ed. assert (capped i keep r) as Hcap by (exists keep, j; by split_and!).
  destruct gone.
  - intros Hc. pose proof (delete_Permutation keep j r Ej) as Hperm. pose proof (Permutation_length Hperm) as Hlen. cbn in Hlen.
    destruct (IH (delete j keep) s1 s' ok ltac:(lia) Hc) as (tried & ids & keep' & Hsw & Hp & Hsub & Hr & Hlast & Hok).
    exists ([keyID r] ++ tried), ([keyID r] ++ ids), keep'. split; [by eapply swept_app|]. split.
    { rewrite Hperm. cbn. rewrite Hp. by rewrite Permutation_middle. }
    split; [etrans; [exact Hsub|apply sublist_delete]|]. split.
    + intros id [->%list_elem_of_singleton|Hid]%elem_of_app; [exists r; split_and!; [by eapply list_elem_of_lookup_2|done|done]|].
      destruct (Hr id Hid) as (x & Hx & Ex & k & j' & Hk & ?). exists x. split; [eapply elem_of_sublist; [exact Hx|apply sublist_delete]|]. split; [done|].
      exists k, j'. split; [|done]. etrans; [exact Hk|apply sublist_delete].
    + split; [|exact Hok]. intros _. destruct tried as [|id tried]; [|by apply Hlast].
      assert (ids = []) as -> by (destruct ids as [|id ids]; [done|]; pose proof (sw_sub _ _ _ _ _ Hsw id ltac:(by left)) as Hx; by apply elem_of_nil in Hx).
      rewrite app_nil_r in Hp. pose proof (Permutation_length Hp) as Hl. rewrite !length_map in Hl. lia.
  - intros [= <- <-]. exists [keyID r], [], keep. split; [done|]. split; [by rewrite app_nil_r|]. split; [done|]. split; [|split; [lia|done]].
    intros id ->%list_elem_of_singleton. exists r. split_and!; [by eapply list_elem_of_lookup_2|done|done].
Qed.

(** All of a sweep. *)
Lemma sweepLocked_ok i rows s s' ok : sweepLocked backends i rows s = (s', ok) →
  ∃ tried ids keep, swept i tried ids s s' ∧ map keyID rows ≡ₚ map keyID keep ++ ids ∧ sublist keep rows ∧
    (∀ id, id ∈ tried → ∃ r, r ∈ rows ∧ keyID r = id ∧ (aged i rows r ∨ capped i rows r ∧ (MaxLive ≤ length keep)%nat)) ∧
    (ok = true → (length keep ≤ MaxLive)%nat ∨ ∀ x, x ∈ keep → retired x = false).
Proof.
  unfold sweepLocked. set (basis := if k_fault i KBasis then None else age_basis i).
  destruct (sweep_aged backends i basis rows rows s) as [[s1 keep1] ok1] eqn:E1. destruct (sweep_cap backends i (length keep1) keep1 s1) as [s2 ok2] eqn:E2. intros [= <- <-].
  assert (∃ tried ids, swept i tried ids s s1 ∧ map keyID rows ≡ₚ map keyID keep1 ++ ids ∧ sublist keep1 rows ∧ (∀ id, id ∈ tried → ∃ r, r ∈ rows ∧ keyID r = id ∧ aged i rows r)) as Haged.
  { unfold basis in E1. destruct (k_fault i KBasis); [|by eapply sweep_aged_ok].
    assert (∀ l st, sweep_aged backends i None rows l st = (st, l, true)) as Hnone by (intros l; induction l as [|r l IH]; intros st; [done|]; cbn; by rewrite IH).
    rewrite Hnone in E1. injection E1 as <- <- <-. exists [], []. split_and!; [apply swept_nil|by rewrite app_nil_r|done|]. intros id Hid. by apply elem_of_nil in Hid. }
  destruct Haged as (tried1 & ids1 & Hs1 & Hp1 & Hsub1 & Hr1). destruct (sweep_cap_ok _ _ _ _ _ _ (Nat.le_refl _) E2) as (tried2 & ids2 & keep & Hs2 & Hp2 & Hsub2 & Hr2 & Hlast & Hok).
  exists (tried1 ++ tried2), (ids1 ++ ids2), keep. split; [by eapply swept_app|]. split.
  { rewrite Hp1, Hp2, <- app_assoc. f_equiv. by rewrite Permutation_app_comm. }
  split; [by etrans|]. split.
  - intros id [Hid|Hid]%elem_of_app.
    + destruct (Hr1 id Hid) as (r & ? & ? & ?). exists r. split_and!; [done|done|by left].
    + destruct (Hr2 id Hid) as (r & Hr & ? & k & j & Hk & ?). exists r. split; [by eapply elem_of_sublist|]. split; [done|]. right.
      split; [exists k, j; split; [by etrans|done]|]. apply Hlast. intros ->. by apply elem_of_nil in Hid.
  - intros Ho. rewrite !andb_true_iff in Ho. destruct Ho as [_ Ho]. destruct (Hok Ho) as [?|Hc]; [by left|right]. unfold capVictim in Hc. by apply cap_from_none in Hc as [_ ?].
Qed.


(** ** Rows *)

Definition clock_ok (t : Z) : Prop := in_years t ∧ in_years (t + 31 * day).
Definition key_of (seed : bytes) : bytes := KeyID_String (KeyIDOf (mailbox_public seed)).
Definition second_of (t : Z) : Z := t / second * second.

Record row_good (r : own_row) (seed : bytes) (t : Z) : Prop := {
  g_clock : clock_ok t;
  g_seed : zlen seed = 32 ∧ forallb is_byte (mailbox_public seed) = true;
  g_id : ow_id r = key_of seed;
  g_pub : ow_pub r = b64_encode (mailbox_public seed);
  g_created : ow_created r = storeTime (second_of t);
  g_notAfter : ow_notAfter r = storeTime (second_of t + AnnouncementLifetime);
  g_ann : SignAnnouncement identity own_sign (mailbox_public seed) t = Some (ow_ann r);
}.
Definition view (r : own_row) : krow :=
  KRow (ow_id r) (parseStoreTime (ow_created r)) (parseStoreTime (ow_notAfter r)) (bool_decide (is_Some (ow_retired r))) (ow_ann r) (ow_backend r).

Lemma second_of_years t d : clock_ok t → 0 ≤ d ≤ 30 * day → in_years (second_of t + d) ∧ t - second < second_of t ≤ t.
Proof.
  intros [[H1 H2] [H3 H4]] Hd. assert (t - second < second_of t ≤ t) as Hs. { unfold second_of, second. zdivmod. }
  split; [|done]. unfold in_years, day, hour, second_of, second in *. zdivmod.
Qed.
Lemma milli_second q : (q * second) / 10 ^ 6 * 10 ^ 6 = q * second.
Proof. assert (q * second = (q * 1000) * 10 ^ 6) as -> by (unfold second; lia). by rewrite Z.div_mul. Qed.
Lemma parse_second t d : clock_ok t → 0 ≤ d ≤ 30 * day → d mod second = 0 → parse_store (storeTime (second_of t + d)) = Some (second_of t + d).
Proof.
  intros Ht Hd Hm. destruct (second_of_years t d Ht Hd) as [Hy _]. rewrite parse_storeTime by done.
  pose proof (Z.div_mod d second ltac:(done)) as E. rewrite Hm, Z.add_0_r in E.
  assert (second_of t + d = (t / second + d / second) * second) as -> by (unfold second_of; lia). by rewrite milli_second.
Qed.
Lemma lifetime_ok : 0 ≤ AnnouncementLifetime ≤ 30 * day ∧ AnnouncementLifetime mod second = 0.
Proof. vm_compute. split; [split; discriminate|reflexivity]. Qed.
Lemma view_good r seed t : row_good r seed t → created (view r) = second_of t ∧ notAfter (view r) = second_of t + AnnouncementLifetime ∧ read_row r = Some (view r).
Proof.
  intros G. assert (parse_store (ow_created r) = Some (second_of t)) as E1.
  { rewrite (g_created _ _ _ G), <- (Z.add_0_r (second_of t)). apply parse_second; [apply G|vm_compute; split; discriminate|done]. }
  assert (parse_store (ow_notAfter r) = Some (second_of t + AnnouncementLifetime)) as E2.
  { rewrite (g_notAfter _ _ _ G). apply parse_second; [apply G|apply lifetime_ok|apply lifetime_ok]. }
  unfold view, parseStoreTime, read_row. rewrite E1, E2. done.
Qed.

(** The rows that a live query returns. *)
Definition live_rows (s : keys) : list own_row := List.filter is_live (k_rows s).
Definition all_good (s : keys) : Prop := ∀ r, r ∈ k_rows s → ∃ seed t, row_good r seed t.
Lemma live_ok s : all_good s → ∃ rows, live false s = Ok rows ∧ rows ≡ₚ map view (live_rows s).
Proof.
  intros Hg. unfold live. set (l := merge_sort created_le _). exists (map view l). assert (l ≡ₚ live_rows s) as Hp by apply merge_sort_Permutation.
  assert (∀ r, r ∈ l → ∃ seed t, row_good r seed t) as Hl.
  { intros r Hr. apply Hg. rewrite Hp in Hr. apply list_elem_of_In, filter_In in Hr as [Hr _]. by apply list_elem_of_In. }
  split; [|by rewrite Hp]. clear Hp. assert (mapM read_row l = Some (map view l)) as ->; [|done].
  induction l as [|r l IH]; [done|]. destruct (Hl r ltac:(by left)) as (seed & t & G). destruct (view_good _ _ _ G) as (_ & _ & E). cbn. rewrite E. cbn.
  by rewrite IH by (intros x Hx; apply Hl; by right).
Qed.

Lemma currentOf_ok rows : match currentOf rows with
  | Some c => c ∈ rows ∧ retired c = false
  | None => ∀ r, r ∈ rows → retired r = true
  end.
Proof.
  unfold currentOf. assert (∀ l (acc : option krow), match fold_left (λ cur r, if retired r then cur else match cur with Some c => if created c <? created r then Some r else cur | None => Some r end) l acc with
    | Some c => (c ∈ l ∧ retired c = false) ∨ acc = Some c
    | None => acc = None ∧ ∀ r, r ∈ l → retired r = true
    end) as Hgen.
  { induction l as [|x l IH]; intros acc; cbn.
    - destruct acc; [by right|]. split; [done|]. intros r Hr. by apply elem_of_nil in Hr.
    - specialize (IH (if retired x then acc else match acc with Some c => if created c <? created x then Some x else acc | None => Some x end)).
      destruct (fold_left _ l _) as [c|].
      + destruct IH as [[? ?]|IH]; [left; split; [by right|done]|]. destruct (retired x) eqn:Ex; [by right|].
        destruct acc as [a|]; [destruct (created a <? created x)|]; simplify_eq; [|by right|]; left; (split; [by left|done]).
      + destruct IH as [IH1 IH2]. destruct (retired x) eqn:Ex; [|destruct acc as [a|]; [destruct (created a <? created x)|]; done].
        split; [done|]. intros r [->|Hr]%elem_of_cons; [done|by apply IH2]. }
  specialize (Hgen rows None). destruct (fold_left _ _ _) as [c|]; [by destruct Hgen as [?|?]|by destruct Hgen].
Qed.
Lemma age_basis_le i b : age_basis i = Some b → b ≤ k_now i.
Proof.
  unfold age_basis, SeenBasis. destruct (newest_seen _); [|done]. cbn. intros [= <-]. destruct (parse_store _); [|done]. destruct (_ <? _) eqn:E; lia.
Qed.

(** ** A new key *)

Definition seed_ok (i : kin) : Prop := zlen (k_seed i) = 32 ∧ forallb is_byte (mailbox_public (k_seed i)) = true.
Definition new_id (i : kin) : bytes := key_of (k_seed i).
Definition create := createLocked identity own_sign backends.

(** The rows and the keystore before the sweep that follows. *)
Definition with_new (i : kin) (signed backend : bytes) (e : entry) (s : keys) : keys :=
  Keys (map (retire_row (storeTime (k_now i))) (k_rows s) ++
        [OwnRow (new_id i) (b64_encode (mailbox_public (k_seed i))) (storeTime (second_of (k_now i)))
           (storeTime (second_of (k_now i) + AnnouncementLifetime)) None None signed backend])
    (<[new_id i := e]> (k_ks s)) (k_cache s) (k_failed s).
Definition new_krow (i : kin) (signed backend : bytes) : krow :=
  KRow (new_id i) (second_of (k_now i)) (second_of (k_now i) + AnnouncementLifetime) false signed backend.

(** Nothing but the new key's keystore entry. *)
Definition rows_kept (i : kin) (s s' : keys) : Prop :=
  k_rows s' = k_rows s ∧ k_cache s' = k_cache s ∧ k_failed s' = k_failed s ∧ ∀ id, id ≠ new_id i → k_ks s' !! id = k_ks s !! id.
Lemma rows_kept_refl i s : rows_kept i s s.
Proof. done. Qed.

Hypothesis priv_ok : length priv = 64%nat.

Lemma create_cases i rows s res s' : clock_ok (k_now i) → seed_ok i → create i rows s = (res, s') →
  match res with
  | Err _ => rows_kept i s s'
  | Ok signed => ∃ e backend ok, Save (k_mood i (new_id i)) (k_seed i) (keystoreFor backends (new_id i) s) = (e, Ok backend) ∧
      new_id i ∉ map ow_id (k_rows s) ∧ SignAnnouncement identity own_sign (mailbox_public (k_seed i)) (k_now i) = Some signed ∧
      sweepLocked backends i (retire rows ++ [new_krow i signed backend]) (with_new i signed backend e s) = (s', ok)
  end.
Proof.
  intros Hc [Hs1 Hs2] Hcr. unfold create, createLocked in Hcr. cbv zeta in Hcr.
  destruct (k_fault i KSign) eqn:Fs.
  { assert (SignAnnouncement identity (λ _, None) (mailbox_public (k_seed i)) (k_now i) = None) as Hn.
    { unfold SignAnnouncement. destruct (negb _); [done|]. destruct (negb _); [done|]. by destruct (CanonicalValue _). }
    rewrite Hn in Hcr. injection Hcr as <- <-. apply rows_kept_refl. }
  destruct (SignAnnouncement identity own_sign _ _) as [signed|] eqn:Es; [|injection Hcr as <- <-; apply rows_kept_refl].
  destruct (second_of_years (k_now i) AnnouncementLifetime Hc (proj1 lifetime_ok)) as [Hy Hb].
  pose proof (announcement_reads_back priv (mailbox_public (k_seed i)) (k_now i) signed (KeyString identity) (k_now i) priv_ok Hs2 (proj1 Hc) Hy Es) as Hp.
  fold (second_of (k_now i)) in Hp. rewrite Hp in Hcr by (unfold MaxSkew, minute, second; lia). unfold KeyString in Hcr at 1. rewrite bool_decide_eq_true_2 in Hcr by done.
  assert (k_now i <? second_of (k_now i) + AnnouncementLifetime = true) as Hlt by (unfold AnnouncementLifetime, day, hour, second in *; lia). rewrite Hlt in Hcr.
  cbn [an_KeyID an_Created an_NotAfter] in Hcr. fold (key_of (k_seed i)) in Hcr. fold (new_id i) in Hcr.
  destruct (k_fault i KMkdir); [injection Hcr as <- <-; apply rows_kept_refl|].
  destruct (Save _ _ _) as [e [backend|x]] eqn:Esv.
  2: { injection Hcr as <- <-. split_and!; cbn; try done. intros id Hne. by rewrite lookup_insert_ne. }
  assert (∀ l, rows_kept i s (with_ks (<[new_id i := l]> (k_ks (with_ks (<[new_id i := e]> (k_ks s)) s))) (with_ks (<[new_id i := e]> (k_ks s)) s))) as Hundo.
  { intros l. split_and!; cbn; try done. intros id Hne. by rewrite !lookup_insert_ne. }
  destruct (k_fault i KBegin); [injection Hcr as <- <-; apply Hundo|]. destruct (k_fault i KRetire); [injection Hcr as <- <-; apply Hundo|].
  destruct (k_fault i KInsert || existsb _ _) eqn:Ei; [injection Hcr as <- <-; apply Hundo|]. destruct (k_fault i KCommit); [injection Hcr as <- <-; apply Hundo|].
  destruct (sweepLocked backends i _ _) as [s3 ok] eqn:Ew. injection Hcr as <- <-. exists e, backend, ok. split; [done|]. split; [|split; [done|exact Ew]].
  apply orb_false_iff in Ei as [_ Ei]. intros Hin. apply list_elem_of_fmap in Hin as (r & Hr & Hin). apply list_elem_of_In in Hin.
  assert (existsb (λ r0, bool_decide (ow_id r0 = new_id i)) (k_rows s) = true) as Hex; [|cbn in Ei; congruence].
  apply existsb_exists. exists r. split; [done|]. by apply bool_decide_eq_true.
Qed.

(** ** The invariant, for any clock *)

Definition current (r : own_row) : bool := is_live r && bool_decide (ow_retired r = None).
Record kinv (s : keys) : Prop := {
  ki_good : all_good s;
  ki_ids : NoDup (map ow_id (k_rows s));
  ki_one : ∀ r r', r ∈ k_rows s → r' ∈ k_rows s → current r = true → current r' = true → r = r';
  ki_cache : ∀ id seed, k_cache s !! id = Some seed → ∃ r, r ∈ k_rows s ∧ is_live r = true ∧ ow_id r = id ∧ ow_pub r = b64_encode (mailbox_public seed);
}.

Inductive kop := KAnnounce | KRotate | KOpen (id : bytes).
Definition kexec (op : kop) (i : kin) (s : keys) : keys :=
  match op with
  | KAnnounce => (announce identity own_sign backends i s).2
  | KRotate => (Mailbox.rotate identity own_sign backends i s).2
  | KOpen id => (Mailbox.MailboxKey identity backends i id s).2
  end.
Definition kop_ok (i : kin) : Prop := clock_ok (k_now i) ∧ seed_ok i.
Definition no_keys : keys := Keys [] ∅ ∅ ∅.
Inductive kreach : keys → Prop :=
| kreach_init : kreach no_keys
| kreach_step s op i : kreach s → kop_ok i → kreach (kexec op i s).

(** A row and what a step makes of it: it may be retired, then deleted. *)
Definition evolves (r r' : own_row) : Prop :=
  ow_id r' = ow_id r ∧ ow_pub r' = ow_pub r ∧ ow_created r' = ow_created r ∧ ow_notAfter r' = ow_notAfter r ∧ ow_ann r' = ow_ann r ∧ ow_backend r' = ow_backend r ∧
  (ow_retired r ≠ None → ow_retired r' = ow_retired r) ∧ (is_live r' = true → is_live r = true).
Lemma evolves_good r r' seed t : evolves r r' → row_good r seed t → row_good r' seed t.
Proof. intros (E1 & E2 & E3 & E4 & E5 & _) []. split; congruence. Qed.
Lemma evolves_refl r : evolves r r.
Proof. by split_and!. Qed.
Lemma evolves_trans r1 r2 r3 : evolves r1 r2 → evolves r2 r3 → evolves r1 r3.
Proof.
  intros (A1 & A2 & A3 & A4 & A5 & A6 & A7 & A8) (B1 & B2 & B3 & B4 & B5 & B6 & B7 & B8). split_and!; try congruence; [|auto].
  intros Hr. rewrite B7; [by apply A7|]. by rewrite A7.
Qed.
Lemma mark_evolves at_ ids r : evolves r (mark_ids at_ ids r).
Proof. unfold mark_ids. destruct (bool_decide _); by split_and!. Qed.
Lemma retire_evolves at_ r : evolves r (retire_row at_ r).
Proof. unfold retire_row. destruct (bool_decide (ow_retired r = None)) eqn:E; cbn; [|apply evolves_refl]. destruct (is_live r) eqn:El; [|apply evolves_refl]. bprop. by split_and!. Qed.
Lemma retire_current at_ r : current (retire_row at_ r) = false.
Proof.
  unfold retire_row. destruct (bool_decide (ow_retired r = None)) eqn:E; cbn; unfold current; [|by rewrite E, andb_false_r].
  destruct (is_live r) eqn:El; cbn; [by rewrite andb_false_r|by rewrite El].
Qed.
Lemma mark_current at_ ids r : current (mark_ids at_ ids r) = current r && negb (bool_decide (ow_id r ∈ ids)).
Proof. unfold mark_ids, current, is_live. destruct (bool_decide (ow_id r ∈ ids)); cbn; [by rewrite andb_false_r|by rewrite andb_true_r]. Qed.
Lemma mark_live at_ ids r : is_live (mark_ids at_ ids r) = is_live r && negb (bool_decide (ow_id r ∈ ids)).
Proof. unfold mark_ids, is_live. destruct (bool_decide (ow_id r ∈ ids)); cbn; [by rewrite andb_false_r|by rewrite andb_true_r]. Qed.

Lemma rowPub_good r seed t : row_good r seed t → rowPub identity (view r) = Some (mailbox_public seed).
Proof.
  intros G. destruct (view_good _ _ _ G) as (Ec & _ & _). unfold rowPub. rewrite Ec. change (announced (view r)) with (ow_ann r).
  destruct (second_of_years t AnnouncementLifetime (g_clock _ _ _ G) (proj1 lifetime_ok)) as [Hy Hb].
  pose proof (announcement_reads_back priv (mailbox_public seed) t (ow_ann r) (KeyString identity) (second_of t) priv_ok (proj2 (g_seed _ _ _ G)) (proj1 (g_clock _ _ _ G)) Hy (g_ann _ _ _ G)) as Hp.
  fold (second_of t) in Hp. rewrite Hp by (unfold MaxSkew, minute, second; lia). unfold KeyString. rewrite bool_decide_eq_true_2 by done.
  assert (second_of t <? second_of t + AnnouncementLifetime = true) as -> by (unfold AnnouncementLifetime, day, hour, second; lia). done.
Qed.
Lemma new_row_good i signed backend : kop_ok i → SignAnnouncement identity own_sign (mailbox_public (k_seed i)) (k_now i) = Some signed →
  row_good (OwnRow (new_id i) (b64_encode (mailbox_public (k_seed i))) (storeTime (second_of (k_now i)))
           (storeTime (second_of (k_now i) + AnnouncementLifetime)) None None signed backend) (k_seed i) (k_now i).
Proof. intros [Hc Hs] Ha. by split. Qed.

Lemma swept_kinv i tried ids s s' : kinv s → swept i tried ids s s' → kinv s'.
Proof.
  intros I W. split.
  - intros r Hr. rewrite (sw_rows _ _ _ _ _ W) in Hr. apply list_elem_of_fmap in Hr as (x & -> & Hx). destruct (ki_good _ I x Hx) as (seed & t & G).
    exists seed, t. eapply evolves_good; [apply mark_evolves|done].
  - rewrite (sw_rows _ _ _ _ _ W), map_map. erewrite map_ext; [apply I|]. intros r. apply mark_ids_id.
  - intros r r' Hr Hr' Hc Hc'. rewrite (sw_rows _ _ _ _ _ W) in Hr, Hr'. apply list_elem_of_fmap in Hr as (x & -> & Hx). apply list_elem_of_fmap in Hr' as (x' & -> & Hx').
    rewrite mark_current in Hc, Hc'. apply andb_true_iff in Hc as [Hc _], Hc' as [Hc' _]. by rewrite (ki_one _ I x x' Hx Hx' Hc Hc').
  - intros id seed Hs. destruct (decide (id ∈ tried)) as [Hin|Hin]; [by rewrite (sw_cache _ _ _ _ _ W id Hin) in Hs|].
    destruct (sw_ks _ _ _ _ _ W id Hin) as (_ & E & _). rewrite E in Hs. destruct (ki_cache _ I id seed Hs) as (r & Hr & Hl & <- & Hp).
    exists (mark_ids (storeTime (k_now i)) ids r). rewrite (sw_rows _ _ _ _ _ W). split; [apply list_elem_of_fmap; by exists r|]. rewrite mark_live, mark_ids_id, Hl. cbn [andb].
    split; [apply negb_true_iff, bool_decide_eq_false; intros Hi; by apply Hin, (sw_sub _ _ _ _ _ W)|]. split; [done|]. by destruct (mark_evolves (storeTime (k_now i)) ids r) as (_ & -> & _).
Qed.
Lemma new_kinv i signed backend e s : kinv s → kop_ok i → new_id i ∉ map ow_id (k_rows s) →
  SignAnnouncement identity own_sign (mailbox_public (k_seed i)) (k_now i) = Some signed → kinv (with_new i signed backend e s).
Proof.
  intros I Hok Hnew Hs. pose proof (new_row_good i signed backend Hok Hs) as G. unfold with_new. set (row := OwnRow _ _ _ _ _ _ _ _) in *. split; cbn [k_rows k_cache].
  - intros r [Hr|Hr]%elem_of_app.
    + apply list_elem_of_fmap in Hr as (x & -> & Hx). destruct (ki_good _ I x Hx) as (seed & t & Gx). exists seed, t. eapply evolves_good; [apply retire_evolves|done].
    + apply list_elem_of_singleton in Hr as ->. by exists (k_seed i), (k_now i).
  - rewrite map_app, map_map. change (map ow_id [row]) with [new_id i]. assert (map (λ r, ow_id (retire_row (storeTime (k_now i)) r)) (k_rows s) = map ow_id (k_rows s)) as ->.
    { apply map_ext. intros r. by destruct (retire_evolves (storeTime (k_now i)) r) as (-> & _). }
    apply NoDup_app. split; [apply I|]. split; [|apply NoDup_singleton]. intros x Hx ->%list_elem_of_singleton. by apply Hnew.
  - intros r r' Hr Hr' Hc Hc'. assert (∀ x, x ∈ map (retire_row (storeTime (k_now i))) (k_rows s) ++ [row] → current x = true → x = row) as Hx.
    { intros x [Hx| ->%list_elem_of_singleton]%elem_of_app Hcx; [|done]. apply list_elem_of_fmap in Hx as (y & -> & _). by rewrite retire_current in Hcx. }
    by rewrite (Hx r), (Hx r').
  - intros id seed Hc. destruct (ki_cache _ I id seed Hc) as (r & Hr & Hl & <- & Hp). exists (retire_row (storeTime (k_now i)) r).
    split; [apply elem_of_app; left; apply list_elem_of_fmap; by exists r|]. destruct (retire_evolves (storeTime (k_now i)) r) as (-> & -> & _).
    split; [|done]. unfold retire_row. destruct (_ && _); [|done]. exact Hl.
Qed.
Lemma new_live i signed backend e s rows : kop_ok i → rows ≡ₚ map view (live_rows s) → SignAnnouncement identity own_sign (mailbox_public (k_seed i)) (k_now i) = Some signed →
  retire rows ++ [new_krow i signed backend] ≡ₚ map view (live_rows (with_new i signed backend e s)).
Proof.
  intros Hok Hp Hs. unfold live_rows, with_new. cbn [k_rows]. rewrite List.filter_app, map_app. f_equiv.
  - unfold retire. rewrite Hp. unfold live_rows. clear. induction (k_rows s) as [|r l IH]; [done|]. cbn [map List.filter].
    assert (is_live (retire_row (storeTime (k_now i)) r) = is_live r) as -> by (unfold retire_row; by destruct (_ && _)).
    destruct (is_live r) eqn:El; [|done]. cbn [map]. rewrite IH. f_equiv. unfold retire_row. rewrite El. destruct (ow_retired r) as [x|] eqn:Er; cbn; unfold view; cbn; rewrite ?Er; done.
  - destruct (view_good _ _ _ (new_row_good i signed backend Hok Hs)) as (Ec & En & _). set (row := OwnRow _ _ _ _ _ _ _ _) in *.
    change (List.filter is_live [row]) with [row]. cbn [map]. unfold new_krow. rewrite <- En, <- Ec. done.
Qed.

(** ** What a step does *)

(** It keeps the rows (and may load a key into the cache, or leave a secret of
    a key that was not made), or it sweeps, perhaps with a new key. *)
Definition loads (i : kin) (s s' : keys) : Prop :=
  k_cache s' = k_cache s ∨ ∃ r seed0 seed, r ∈ k_rows s ∧ is_live r = true ∧ ow_pub r = b64_encode (mailbox_public seed0) ∧ has_public (mailbox_public seed0) seed = true ∧
    k_cache s' = <[ow_id r := seed]> (k_cache s).
Definition kept_rows (i : kin) (s s' : keys) : Prop :=
  k_rows s' = k_rows s ∧ loads i s s' ∧ ∀ id, id ≠ new_id i → k_ks s' !! id = k_ks s !! id.
Definition makes (i : kin) (s s1 : keys) : Prop :=
  ∃ signed backend e rows, s1 = with_new i signed backend e s ∧ Save (k_mood i (new_id i)) (k_seed i) (keystoreFor backends (new_id i) s) = (e, Ok backend) ∧
    new_id i ∉ map ow_id (k_rows s) ∧ SignAnnouncement identity own_sign (mailbox_public (k_seed i)) (k_now i) = Some signed ∧
    rows ≡ₚ map view (live_rows s) ∧
    match currentOf rows with
    | Some cur => created cur + RotateAfter ≤ k_now i ∨ usable identity backends i cur s = Ok false
    | None => True
    end.
Definition sweeps (i : kin) (s s' : keys) : Prop :=
  ∃ s1 rows tried ids keep, (makes i s s1 ∨ s1 = s ∧ ∀ r, r ∈ rows → retired r = false → k_now i < created r + RotateAfter) ∧
    rows ≡ₚ map view (live_rows s1) ∧ swept i tried ids s1 s' ∧ map keyID rows ≡ₚ map keyID keep ++ ids ∧
    (∀ id, id ∈ tried → ∃ r, r ∈ rows ∧ keyID r = id ∧ (aged i rows r ∨ capped i rows r ∧ (MaxLive ≤ length keep)%nat)).

Lemma kept_same i s s' : rows_kept i s s' → kept_rows i s s'.
Proof. intros (H1 & H2 & H3 & H4). split_and!; [done|by left|done]. Qed.
Lemma create_step i rows s res s' : kinv s → kop_ok i → rows ≡ₚ map view (live_rows s) →
  match currentOf rows with
  | Some cur => created cur + RotateAfter ≤ k_now i ∨ usable identity backends i cur s = Ok false
  | None => True
  end → create i rows s = (res, s') → kept_rows i s s' ∨ sweeps i s s'.
Proof.
  intros I Hok Hrows Hwhy Hc. pose proof (create_cases i rows s res s' (proj1 Hok) (proj2 Hok) Hc) as Hcase. destruct res as [signed|e]; [right|left; by apply kept_same].
  destruct Hcase as (e & backend & ok & Hsave & Hnew & Hsign & Hsweep). destruct (sweepLocked_ok _ _ _ _ _ Hsweep) as (tried & ids & keep & Hsw & Hp & _ & Hr & _).
  eexists _, _, tried, ids, keep. split; [left; exists signed, backend, e, rows; by split_and!|]. split; [|by split_and!]. by apply new_live.
Qed.
Lemma only_current s r : kinv s → ∀ rows, rows ≡ₚ map view (live_rows s) → r ∈ rows → retired r = false → currentOf rows = Some r.
Proof.
  intros I rows Hp Hr Hret. pose proof (currentOf_ok rows) as Hc. destruct (currentOf rows) as [c|]; [|by rewrite (Hc r Hr) in Hret].
  destruct Hc as [Hc Hcr]. f_equal. rewrite Hp in Hr, Hc. apply list_elem_of_fmap in Hr as (x & -> & Hx). apply list_elem_of_fmap in Hc as (y & -> & Hy).
  unfold live_rows in Hx, Hy. apply list_elem_of_In, filter_In in Hx as [Hx Lx]. apply list_elem_of_In, filter_In in Hy as [Hy Ly]. f_equal.
  assert (∀ z, is_live z = true → retired (view z) = false → current z = true) as Hcur.
  { intros z Lz Rz. unfold current. rewrite Lz. cbn in *. apply bool_decide_eq_false in Rz. destruct (ow_retired z); [by destruct Rz|done]. }
  apply (ki_one _ I); [by apply list_elem_of_In|by apply list_elem_of_In|by apply Hcur|by apply Hcur].
Qed.
Lemma kept_rows_refl i s : kept_rows i s s.
Proof. split_and!; [done|by left|done]. Qed.

Lemma step_cases op i s : kinv s → kop_ok i → kept_rows i s (kexec op i s) ∨ sweeps i s (kexec op i s).
Proof.
  intros I Hok. pose proof (live_ok s (ki_good _ I)) as (rows & Hlive & Hp). destruct op as [| |id]; cbn [kexec].
  - unfold announce. destruct (k_fault i KLive); [left; apply kept_rows_refl|]. rewrite Hlive. pose proof (create_step i rows s) as Hcreate. unfold create in Hcreate.
    destruct (createLocked identity own_sign backends i rows s) as [res s'] eqn:Ec.
    assert ((match res with Ok a => (Ok (a, true), s') | Err e => (Err e, s') end : result keys_error (bytes * bool) * keys).2 = s') as Es by (by destruct res).
    destruct (currentOf rows) as [cur|] eqn:Ecur.
    + destruct (usable identity backends i cur s) as [[|]|e] eqn:Eu; [left; apply kept_rows_refl| |left; apply kept_rows_refl].
      rewrite Es. by apply (Hcreate res s' I Hok Hp); [right|].
    + rewrite Es. by apply (Hcreate res s' I Hok Hp).
  - unfold Mailbox.rotate. destruct (k_fault i KLive); [left; apply kept_rows_refl|]. rewrite Hlive. pose proof (create_step i rows s) as Hcreate. unfold create in Hcreate.
    destruct (createLocked identity own_sign backends i rows s) as [res s'] eqn:Ec.
    assert ((match res with Ok a => (Ok (Some a), s') | Err e => (Err e, s') end : result keys_error (option bytes) * keys).2 = s') as Es by (by destruct res).
    destruct (currentOf rows) as [cur|] eqn:Ecur; [|rewrite Es; by apply (Hcreate res s' I Hok Hp)].
    destruct (negb (k_now i <? created cur + RotateAfter)) eqn:En.
    { rewrite Es. apply (Hcreate res s' I Hok Hp); [left; bprop; lia|done]. }
    destruct (usable identity backends i cur s) as [[|]|e] eqn:Eu; [|rewrite Es; by apply (Hcreate res s' I Hok Hp); [right|]|left; apply kept_rows_refl].
    right. destruct (sweepLocked backends i rows s) as [s2 ok] eqn:Esw. destruct (sweepLocked_ok _ _ _ _ _ Esw) as (tried & ids & keep & Hsw & Hpk & _ & Hr & _).
    exists s, rows, tried, ids, keep. split; [right; split; [done|]|by split_and!]. intros r Hr0 Hret. pose proof (only_current s r I rows Hp Hr0 Hret) as E.
    assert (cur = r) as <- by congruence. bprop. lia.
  - left. unfold Mailbox.MailboxKey. destruct (k_fault i KLive); [apply kept_rows_refl|]. rewrite Hlive. destruct (List.find _ rows) as [r|] eqn:Ef; [|apply kept_rows_refl].
    apply List.find_some in Ef as [Hin Hf]. apply list_elem_of_In in Hin. rewrite Hp in Hin. apply list_elem_of_fmap in Hin as (x & -> & Hx).
    unfold live_rows in Hx. apply list_elem_of_In, filter_In in Hx as [Hx Lx]. apply list_elem_of_In in Hx. destruct (ki_good _ I x Hx) as (seed0 & t & G).
    destruct (k_cache s !! keyID (view x)); [apply kept_rows_refl|]. match goal with |- context [if ?b then _ else _] => destruct b end; [apply kept_rows_refl|].
    rewrite (rowPub_good _ _ _ G). unfold load. destruct (LoadMatching _ _ _) as [[seed n]|e] eqn:El; cbn.
    + split_and!; [done| |done]. right. apply LoadMatching_ok in El as (_ & Hpub & _). exists x, seed0, seed. split_and!; [done|done|apply G|done|done].
    + split_and!; [done|by left|done].
Qed.

Lemma kstep_inv op i s : kinv s → kop_ok i → kinv (kexec op i s).
Proof.
  intros I Hok. destruct (step_cases op i s I Hok) as [(Hr & Hl & _)|(s1 & rows & tried & ids & keep & Hs1 & _ & Hsw & _)].
  - split; [intros r; rewrite Hr; apply I|rewrite Hr; apply I|intros r r'; rewrite Hr; apply I|]. intros id seed. rewrite Hr. destruct Hl as [->|(r & seed0 & seed1 & Hin & Lr & Hp & Hhas & ->)]; [apply I|].
    rewrite lookup_insert_Some. intros [[<- <-]|[_ Hc]]; [|by apply I]. exists r. split_and!; [done|done|done|]. unfold has_public in Hhas. bprop. congruence.
  - eapply swept_kinv; [|exact Hsw]. destruct Hs1 as [(signed & backend & e & rows0 & -> & _ & Hnew & Hsign & _)|[-> _]]; [by apply new_kinv|done].
Qed.
Lemma kreach_inv s : kreach s → kinv s.
Proof.
  induction 1 as [|s op i _ IH Hok]; [|by apply kstep_inv]. split; cbn; [intros r Hr; by apply elem_of_nil in Hr|constructor|intros r r' Hr; by apply elem_of_nil in Hr|].
  intros id seed Hc. by rewrite lookup_empty in Hc.
Qed.

(** ** Only retired keys go *)

Lemma row_by_id s r r' : kinv s → r ∈ k_rows s → r' ∈ k_rows s → ow_id r = ow_id r' → r = r'.
Proof.
  intros I Hr Hr' E. apply list_elem_of_lookup in Hr as [n Hn]. apply list_elem_of_lookup in Hr' as [m Hm].
  assert (n = m) as ->; [|congruence]. eapply (NoDup_lookup _ n m (ow_id r)); [apply (ki_ids _ I)| |]; rewrite list_lookup_fmap; [by rewrite Hn|by rewrite Hm, E].
Qed.
Lemma live_count i s1 s' rows tried ids keep : kinv s1 → rows ≡ₚ map view (live_rows s1) → swept i tried ids s1 s' → map keyID rows ≡ₚ map keyID keep ++ ids →
  map ow_id (live_rows s') ≡ₚ map keyID keep.
Proof.
  intros I Hp W Hk. set (out := λ id, negb (bool_decide (id ∈ ids))).
  assert (map ow_id (live_rows s') = List.filter out (map ow_id (live_rows s1))) as ->.
  { unfold live_rows. rewrite (sw_rows _ _ _ _ _ W). clear. induction (k_rows s1) as [|r l IH]; [done|]. cbn [map List.filter]. rewrite mark_live.
    destruct (is_live r) eqn:El; cbn [andb]; [|done]. cbn [map List.filter]. fold (out (ow_id r)). destruct (out (ow_id r)) eqn:Eo; [|done]. cbn [map]. by rewrite mark_ids_id, IH. }
  assert (map ow_id (live_rows s1) ≡ₚ map keyID keep ++ ids) as Hids by (rewrite <- Hk, Hp, map_map; done).
  assert (NoDup (map keyID keep ++ ids)) as Hd.
  { rewrite <- Hids. unfold live_rows. pose proof (ki_ids _ I) as Hd. clear -Hd. induction (k_rows s1) as [|r l IH]; [constructor|]. cbn in Hd. apply NoDup_cons in Hd as [Hn Hd]. cbn.
    destruct (is_live r); [|by apply IH]. cbn. apply NoDup_cons. split; [|by apply IH]. intros Hin. apply Hn. apply list_elem_of_fmap in Hin as (x & -> & Hx).
    apply list_elem_of_fmap. exists x. split; [done|]. apply list_elem_of_In, filter_In in Hx as [Hx _]. by apply list_elem_of_In. }
  assert (List.filter out (map ow_id (live_rows s1)) ≡ₚ List.filter out (map keyID keep ++ ids)) as ->.
  { clear -Hids. induction Hids as [|x l l' _ IH|x y l|l1 l2 l3 _ IH1 _ IH2]; cbn; [done| | |by etrans].
    - destruct (out x); [by f_equiv|done].
    - destruct (out x), (out y); try done. apply perm_swap. }
  rewrite List.filter_app. apply NoDup_app in Hd as (_ & Hd & _).
  assert (List.filter out ids = []) as ->.
  { assert (∀ l, (∀ x, x ∈ l → x ∈ ids) → List.filter out l = []) as Hf; [|by apply Hf]. intros l Hl. induction l as [|x l IH]; [done|]. cbn. unfold out at 1.
    rewrite bool_decide_eq_true_2 by (apply Hl; by left). cbn. apply IH. intros y Hy. apply Hl. by right. }
  rewrite app_nil_r. assert (∀ l, (∀ x, x ∈ l → x ∉ ids) → List.filter out l = l) as Hf; [|by rewrite Hf]. intros l Hl. induction l as [|x l IH]; [done|]. cbn. unfold out at 1.
  rewrite bool_decide_eq_false_2 by (apply Hl; by left). cbn. f_equal. apply IH. intros y Hy. apply Hl. by right.
Qed.
Lemma makes_row i s s1 r : makes i s s1 → r ∈ k_rows s → retire_row (storeTime (k_now i)) r ∈ k_rows s1.
Proof.
  intros (signed & backend & e & rows & -> & _) Hr. unfold with_new. cbn [k_rows]. apply elem_of_app. left. apply list_elem_of_fmap. by exists r.
Qed.
Lemma makes_kinv i s s1 : kinv s → kop_ok i → makes i s s1 → kinv s1.
Proof. intros I Hok (signed & backend & e & rows & -> & _ & Hnew & Hs & _). by apply new_kinv. Qed.
Lemma view_evolves r r' : evolves r r' → created (view r') = created (view r) ∧ notAfter (view r') = notAfter (view r) ∧ keyID (view r') = keyID (view r).
Proof. intros (E1 & _ & E3 & E4 & _). unfold view. cbn. by rewrite E1, E3, E4. Qed.

(** C17: safety. However the clock is stepped (within the years that RFC 3339
    writes), whatever mail is received between the steps of the keys, and
    however keystores and statements fail: there is never more than one current
    key, the current key is never deleted, and a key is deleted only at a time
    that mail_seen, as the sweep reads it, shows to be a week after its expiry
    and after a successor's creation, or because three others stay live. *)
Theorem only_retired_keys_deleted s op i : kreach s → kop_ok i →
  let s' := kexec op i s in
  (∀ r r', r ∈ k_rows s' → r' ∈ k_rows s' → current r = true → current r' = true → r = r') ∧
  ∀ r, r ∈ k_rows s → ∃ r', r' ∈ k_rows s' ∧ evolves r r' ∧
    (is_live r = true → is_live r' = false → ow_retired r' ≠ None ∧
       ((∃ b n, age_basis i = Some b ∧ notAfter (view r) + DeleteGrace ≤ b ∧
           n ∈ k_rows s' ∧ created (view r) < created (view n) ∧ created (view n) + DeleteGrace ≤ b) ∨
        (MaxLive ≤ length (live_rows s'))%nat)).
Proof.
  intros Hr Hok s'. pose proof (kreach_inv _ Hr) as I. split; [apply (ki_one s'), kreach_inv; by apply kreach_step|]. intros r Hin.
  destruct (step_cases op i s I Hok) as [(E & _)|(s1 & rows & tried & ids & keep & Hs1 & Hp & W & Hk & Hwhy)].
  { exists r. fold s' in E. rewrite E. split; [done|]. split; [apply evolves_refl|congruence]. }
  fold s' in W. assert (kinv s1 ∧ ∃ r1, r1 ∈ k_rows s1 ∧ evolves r r1 ∧ (is_live r = true → ow_retired r1 = None → k_now i < created (view r1) + RotateAfter)) as (I1 & r1 & Hr1 & He1 & Hyoung).
  { destruct Hs1 as [Hm|[-> Hyoung]].
    - split; [by eapply makes_kinv|]. exists (retire_row (storeTime (k_now i)) r). split; [by apply (makes_row i s)|]. split; [apply retire_evolves|].
      intros Hl Hn. exfalso. pose proof (retire_current (storeTime (k_now i)) r) as Hc. unfold current in Hc. rewrite Hn in Hc. unfold is_live, retire_row in Hc.
      unfold is_live in Hl. destruct (bool_decide (ow_retired r = None) && _); cbn in Hc; rewrite ?Hl in Hc; done.
    - split; [done|]. exists r. split; [done|]. split; [apply evolves_refl|]. intros Hl Hn. apply Hyoung; [|unfold view; cbn; by rewrite Hn]. rewrite Hp. apply list_elem_of_fmap. exists r.
      split; [done|]. unfold live_rows. apply list_elem_of_In, filter_In. split; [by apply list_elem_of_In|done]. }
  exists (mark_ids (storeTime (k_now i)) ids r1). split; [rewrite (sw_rows _ _ _ _ _ W); apply list_elem_of_fmap; by exists r1|].
  split; [eapply evolves_trans; [exact He1|apply mark_evolves]|]. intros Hl Hdead.
  assert (is_live r1 = true) as Hl1. { destruct Hs1 as [(? & ? & ? & ? & -> & _)|[-> _]]; [|by rewrite (row_by_id s r r1 I Hin Hr1 ltac:(symmetry; apply He1)) in Hl].
    assert (r1 = retire_row (storeTime (k_now i)) r) as ->; [|unfold retire_row; by destruct (_ && _)].
    apply (row_by_id _ _ _ I1 Hr1); [unfold with_new; cbn [k_rows]; apply elem_of_app; left; apply list_elem_of_fmap; by exists r|].
    destruct He1 as (-> & _). by destruct (retire_evolves (storeTime (k_now i)) r) as (-> & _). }
  rewrite mark_live, Hl1 in Hdead. cbn in Hdead. apply negb_false_iff, bool_decide_eq_true in Hdead.
  destruct (Hwhy _ (sw_sub _ _ _ _ _ W _ Hdead)) as (kr & Hkr & Ekr & Hreason). pose proof Hkr as Hkr'. rewrite Hp in Hkr. apply list_elem_of_fmap in Hkr as (y & -> & Hy).
  unfold live_rows in Hy. apply list_elem_of_In, filter_In in Hy as [Hy Ly]. apply list_elem_of_In in Hy. assert (y = r1) as -> by (by apply (row_by_id s1)).
  destruct (ki_good _ I1 r1 Hr1) as (seed & t & G). destruct (view_good _ _ _ G) as (Ec & En & _).
  assert (ow_retired (mark_ids (storeTime (k_now i)) ids r1) = ow_retired r1) as -> by (unfold mark_ids; by destruct (bool_decide _)).
  destruct (view_evolves _ _ He1) as (V1 & V2 & _). split.
  - intros Hn. specialize (Hyoung Hl Hn). destruct Hreason as [(b & Hb & Hx)|[(k & j & _ & _ & Hv & Hj) _]].
    + apply age_basis_le in Hb. unfold expired in Hx. apply andb_true_iff in Hx as [Hx _]. bprop. rewrite En in *. rewrite Ec in *. unfold AnnouncementLifetime, DeleteGrace, RotateAfter, day, hour, second in *. lia.
    + destruct (capVictim_ok _ _ _ Hv) as (x & Hx & Hret & _). assert (x = view r1) as -> by congruence. unfold view in Hret. cbn in Hret. by rewrite Hn in Hret.
  - destruct Hreason as [(b & Hb & Hx)|[_ Hlen]].
    + left. unfold expired in Hx. apply andb_true_iff in Hx as [Hx1 Hx2]. apply existsb_exists in Hx2 as (n & Hn & Hx2). apply list_elem_of_In in Hn. rewrite Hp in Hn.
      apply list_elem_of_fmap in Hn as (z & -> & Hz). unfold live_rows in Hz. apply list_elem_of_In, filter_In in Hz as [Hz _]. apply list_elem_of_In in Hz.
      exists b, (mark_ids (storeTime (k_now i)) ids z). destruct (view_evolves _ _ (mark_evolves (storeTime (k_now i)) ids z)) as (Z1 & _ & _). rewrite Z1, <- V1, <- V2. bprop.
      split_and!; [done|lia| |lia|lia]. rewrite (sw_rows _ _ _ _ _ W). apply list_elem_of_fmap. by exists z.
    + right. pose proof (Permutation_length (live_count i s1 s' rows tried ids keep I1 Hp W Hk)) as Hlen'. rewrite !length_map in Hlen'. lia.
Qed.

(** ** A clock that only advances *)

(** Random keys are new ones, and the host does not lose its keychain. *)
Definition steady_ok (i : kin) (s : keys) (t : Z) : Prop :=
  t ≤ k_now i ∧ kop_ok i ∧ new_id i ∉ map ow_id (k_rows s) ∧ ∀ id n, k_mood i id n ≠ NoService.
Inductive steady : keys → Z → Prop :=
| steady_init t : steady no_keys t
| steady_step s t op i : steady s t → steady_ok i s t → steady (kexec op i s) (k_now i).

Definition old_at (t : Z) (r : own_row) : Prop := created (view r) + 21 * day ≤ t.
Definition spaced (r r' : krow) : Prop := created r + 7 * day ≤ created r' ∨ created r' + 7 * day ≤ created r.
Definition in_store (s : keys) (r : own_row) : Prop :=
  ∃ e seed t, k_ks s !! ow_id r = Some e ∧ row_good r seed t ∧ held e (ow_backend r) seed.
Record sinv (s : keys) (t : Z) : Prop := {
  si_kinv : kinv s;
  si_past : ∀ r, r ∈ k_rows s → created (view r) ≤ t;
  si_gap : ∀ r r', r ∈ k_rows s → r' ∈ k_rows s → r ≠ r' → spaced (view r) (view r');
  si_dead : ∀ r, r ∈ k_rows s → is_live r = false → old_at t r;
  si_held : ∀ r, r ∈ k_rows s → old_at t r ∨ in_store s r;
  si_newest : ∀ r, r ∈ k_rows s → ∃ c, c ∈ k_rows s ∧ current c = true ∧ created (view r) ≤ created (view c);
}.

Lemma current_krow s rows c : kinv s → rows ≡ₚ map view (live_rows s) → c ∈ k_rows s → current c = true → currentOf rows = Some (view c).
Proof.
  intros I Hp Hc Hcur. unfold current in Hcur. apply andb_true_iff in Hcur as [Hl Hr]. bprop. apply (only_current s); [done|done| |unfold view; cbn; by rewrite Hr].
  rewrite Hp. apply list_elem_of_fmap. exists c. split; [done|]. unfold live_rows. apply list_elem_of_In, filter_In. split; [by apply list_elem_of_In|done].
Qed.
Lemma live_row s rows r : rows ≡ₚ map view (live_rows s) → r ∈ rows → ∃ x, r = view x ∧ x ∈ k_rows s ∧ is_live x = true.
Proof.
  intros Hp Hr. rewrite Hp in Hr. apply list_elem_of_fmap in Hr as (x & -> & Hx). unfold live_rows in Hx. apply list_elem_of_In, filter_In in Hx as [Hx Lx].
  exists x. split_and!; [done|by apply list_elem_of_In|done].
Qed.

(** A usable key is not replaced before it is a week old. *)
Lemma replaced_old i s t c rows : sinv s t → steady_ok i s t → c ∈ k_rows s → current c = true → rows ≡ₚ map view (live_rows s) →
  match currentOf rows with
  | Some cur => created cur + RotateAfter ≤ k_now i ∨ usable identity backends i cur s = Ok false
  | None => True
  end → created (view c) + 7 * day ≤ k_now i.
Proof.
  intros I (Ht & Hok & _ & Hmood) Hc Hcur Hp Hwhy. rewrite (current_krow s rows c (si_kinv _ _ I) Hp Hc Hcur) in Hwhy. destruct Hwhy as [?|Hu]; [done|].
  destruct (si_held _ _ I c Hc) as [Hold|(e & seed & t0 & Hks & G & Hh)]; [unfold old_at, day, hour, second in *; lia|].
  destruct (view_good _ _ _ G) as (Ec & En & _). unfold usable in Hu. pose proof (si_past _ _ I c Hc).
  destruct (negb _ || _) eqn:Eb.
  - apply orb_true_iff in Eb as [Eb|Eb]; bprop; [rewrite En in *; rewrite Ec in *|]; unfold renewBefore, AnnouncementLifetime, MaxSkew, minute, day, hour, second in *; lia.
  - exfalso. rewrite (rowPub_good _ _ _ G) in Hu. unfold load in Hu. change (keyID (view c)) with (ow_id c) in Hu.
    destruct (LoadMatching (k_mood i (ow_id c)) _ _) as [[? ?]|err] eqn:El; [done|].
    apply (Hmood (ow_id c) (ow_backend c)). eapply (LoadMatching_absent _ _ _ _ El); [by destruct err; auto| |].
    + unfold keystoreFor. rewrite Hks. exact Hh.
    + unfold has_public. destruct (g_seed _ _ _ G) as [-> _]. by rewrite bool_decide_eq_true_2.
Qed.

Lemma second_later t0 t : second_of t0 + 7 * day ≤ t → second_of t0 + 7 * day ≤ second_of t.
Proof. unfold second_of, day, hour, second. zdivmod. Qed.

Lemma makes_sinv i s s1 t : sinv s t → steady_ok i s t → makes i s s1 → sinv s1 (k_now i).
Proof.
  intros I Hst Hm. pose proof Hst as (Ht & Hok & Hfresh & Hmood). pose proof (makes_kinv i s s1 (si_kinv _ _ I) Hok Hm) as I1. pose proof Hm as (signed & backend & e & rows & -> & Hsave & _ & Hsign & Hp & Hwhy).
  pose proof (new_row_good i signed backend Hok Hsign) as G. destruct (view_good _ _ _ G) as (Ec & En & _).
  destruct (second_of_years (k_now i) 0 (proj1 Hok) ltac:(vm_compute; split; discriminate)) as [_ Hsec].
  assert (∀ r, r ∈ k_rows s → created (view r) + 7 * day ≤ second_of (k_now i)) as Hgap.
  { intros r Hr. destruct (si_newest _ _ I r Hr) as (c & Hc & Hcur & Hle). destruct (ki_good _ (si_kinv _ _ I) c Hc) as (seed & t0 & Gc). destruct (view_good _ _ _ Gc) as (Ecc & _ & _).
    pose proof (replaced_old i s t c rows I Hst Hc Hcur Hp Hwhy) as Hold. rewrite Ecc in *. apply second_later in Hold. lia. }
  set (row := OwnRow _ _ _ _ _ _ _ _) in *.
  assert (∀ r, r ∈ k_rows (with_new i signed backend e s) → r = row ∨ ∃ x, x ∈ k_rows s ∧ r = retire_row (storeTime (k_now i)) x ∧ created (view r) = created (view x)) as Hrows.
  { intros r [Hr|Hr]%elem_of_app; [right|left; by apply list_elem_of_singleton in Hr]. apply list_elem_of_fmap in Hr as (x & -> & Hx). exists x. split_and!; [done|done|].
    by destruct (view_evolves _ _ (retire_evolves (storeTime (k_now i)) x)) as (-> & _). }
  assert (row ∈ k_rows (with_new i signed backend e s)) as Hrow by (apply elem_of_app; right; by left).
  assert (∀ x, x ∈ k_rows s → ow_id x ≠ new_id i) as Hid. { intros x Hx E. apply Hfresh. rewrite <- E. apply list_elem_of_fmap. by exists x. }
  split; [done|..].
  - intros r Hr. destruct (Hrows r Hr) as [->|(x & Hx & _ & ->)]; [rewrite Ec; lia|]. pose proof (si_past _ _ I x Hx). lia.
  - intros r r' Hr Hr' Hne. destruct (Hrows r Hr) as [->|(x & Hx & Ex & E)], (Hrows r' Hr') as [->|(x' & Hx' & Ex' & E')]; [done|..].
    + right. rewrite E', Ec. by apply Hgap.
    + left. rewrite E, Ec. by apply Hgap.
    + unfold spaced. rewrite E, E'. apply (si_gap _ _ I x x'); [done|done|]. intros ->. apply Hne. by rewrite Ex, Ex'.
  - intros r Hr Hd. destruct (Hrows r Hr) as [->|(x & Hx & Ex & E)]; [done|]. unfold old_at. rewrite E. assert (is_live x = false) as Hdx.
    { rewrite Ex in Hd. unfold retire_row in Hd. destruct (bool_decide (ow_retired x = None) && is_live x); done. }
    pose proof (si_dead _ _ I x Hx Hdx) as Ho. unfold old_at in Ho. lia.
  - intros r Hr. destruct (Hrows r Hr) as [->|(x & Hx & Ex & E)].
    + right. exists e, (k_seed i), (k_now i). split_and!; [unfold with_new; cbn; by rewrite lookup_insert_eq|exact G|]. unfold Save in Hsave. by destruct (save_from_held _ _ _ _ _ _ Hsave).
    + destruct (si_held _ _ I x Hx) as [Ho|(e' & seed & t0 & Hks & Gx & Hh)]; [left; unfold old_at in *; rewrite E; lia|]. right. exists e', seed, t0.
      pose proof (retire_evolves (storeTime (k_now i)) x) as Hev. rewrite <- Ex in Hev. pose proof Hev as (-> & _ & _ & _ & _ & -> & _).
      split_and!; [|by eapply evolves_good|done]. unfold with_new. cbn [k_ks]. rewrite lookup_insert_ne; [done|]. intros E2. by apply (Hid x Hx).
  - intros r Hr. exists row. split; [done|]. split; [done|]. rewrite Ec. destruct (Hrows r Hr) as [->|(x & Hx & _ & ->)]; [by rewrite Ec|]. pose proof (Hgap x Hx). unfold day, hour, second in *. lia.
Qed.

(** What a sweep touches is three weeks old. *)
Lemma capped_old i s rows r : sinv s (k_now i) → rows ≡ₚ map view (live_rows s) → capped i rows r → created r + 21 * day ≤ k_now i.
Proof.
  intros I Hp (keep & j & Hsub & Hlen & Hv & Hj). destruct (capVictim_ok _ _ _ Hv) as (r' & Hr' & Hret & Hmin). assert (r' = r) as -> by congruence.
  assert (∀ x, x ∈ keep → ∃ o, x = view o ∧ o ∈ k_rows s ∧ is_live o = true) as Hrow by (intros x Hx; apply (live_row s rows x Hp); by eapply elem_of_sublist).
  assert (NoDup keep) as Hd.
  { eapply sublist_NoDup; [|exact Hsub]. rewrite Hp. eapply (NoDup_fmap_1 keyID). rewrite <- list_fmap_compose. unfold live_rows. pose proof (ki_ids _ (si_kinv _ _ I)) as Hd. clear -Hd.
    induction (k_rows s) as [|x l IH]; [constructor|]. cbn in Hd. apply NoDup_cons in Hd as [Hn Hd]. cbn. destruct (is_live x); [|by apply IH]. cbn. apply NoDup_cons. split; [|by apply IH].
    intros Hin. apply Hn. apply list_elem_of_fmap in Hin as (y & E & Hy). apply list_elem_of_fmap. exists y. split; [done|]. apply list_elem_of_In, filter_In in Hy as [Hy _]. by apply list_elem_of_In. }
  assert (r ∈ keep) as Hrk by (by eapply list_elem_of_lookup_2). destruct (Hrow r Hrk) as (o & Eo & Ho & Lo).
  assert (∀ x, x ∈ keep → x ≠ r → created r + 7 * day ≤ created x) as Hnext.
  { intros x Hx Hne. destruct (Hrow x Hx) as (y & -> & Hy & Ly). assert (y ≠ o) as Hyo by (intros ->; by apply Hne).
    assert (created r ≤ created (view y)) as Hle.
    { destruct (retired (view y)) eqn:Ery.
      - destruct Hmin as [Hf|Hmin]; [|by apply Hmin]. pose proof (si_past _ _ I o Ho). rewrite Eo in Hf. unfold MaxSkew, minute, second in *. lia.
      - destruct (si_newest _ _ I o Ho) as (c & Hc & Hcur & Hle). assert (c = y) as ->; [|by rewrite Eo].
        apply (ki_one _ (si_kinv _ _ I)); [done|done|done|]. unfold current. rewrite Ly. cbn. apply bool_decide_eq_true. cbn in Ery. apply bool_decide_eq_false in Ery. destruct (ow_retired y); [by destruct Ery|done]. }
    destruct (si_gap _ _ I o y Ho Hy ltac:(congruence)) as [Hg|Hg]; rewrite Eo in *; [done|]. unfold day, hour, second in *. lia. }
  assert (∀ x y, x ∈ keep → y ∈ keep → x ≠ y → spaced x y) as Hgap.
  { intros x y Hx Hy Hne. destruct (Hrow x Hx) as (a & -> & Ha & _), (Hrow y Hy) as (b & -> & Hb & _). apply (si_gap _ _ I); [done|done|]. intros ->. by apply Hne. }
  assert (∀ x, x ∈ keep → created x ≤ k_now i) as Hpast. { intros x Hx. destruct (Hrow x Hx) as (a & -> & Ha & _). by apply (si_past _ _ I). }
  pose proof (delete_Permutation keep j r Hj) as Hperm. pose proof (Permutation_length Hperm) as Hl. rewrite Hperm in Hd. apply NoDup_cons in Hd as [Hrn Hd].
  assert (∀ x, x ∈ delete j keep → x ∈ keep ∧ x ≠ r) as Hin by (intros x Hx; split; [rewrite Hperm; by right|congruence]).
  unfold MaxLive in Hlen. cbn in Hl. destruct (delete j keep) as [|x [|y [|z l]]]; cbn in Hl; try lia.
  apply NoDup_cons in Hd as [Hx Hd]. apply NoDup_cons in Hd as [Hy _]. rewrite !not_elem_of_cons in *.
  destruct (Hin x ltac:(set_solver)) as [Kx Nx], (Hin y ltac:(set_solver)) as [Ky Ny], (Hin z ltac:(set_solver)) as [Kz Nz].
  pose proof (Hnext x Kx Nx). pose proof (Hnext y Ky Ny). pose proof (Hnext z Kz Nz). pose proof (Hpast x Kx). pose proof (Hpast y Ky). pose proof (Hpast z Kz).
  destruct (Hgap x y Kx Ky ltac:(tauto)), (Hgap y z Ky Kz ltac:(tauto)), (Hgap x z Kx Kz ltac:(tauto)); unfold day, hour, second in *; lia.
Qed.

Lemma sinv_later s t t' : sinv s t → t ≤ t' → sinv s t'.
Proof.
  intros I Ht. split; try apply I.
  - intros r Hr. pose proof (si_past _ _ I r Hr). lia.
  - intros r Hr Hd. pose proof (si_dead _ _ I r Hr Hd). unfold old_at in *. lia.
  - intros r Hr. destruct (si_held _ _ I r Hr) as [?|?]; [left; unfold old_at in *; lia|by right].
Qed.
Lemma swept_sinv i s s' rows tried ids : sinv s (k_now i) → swept i tried ids s s' → rows ≡ₚ map view (live_rows s) →
  (∀ id, id ∈ tried → ∃ r, r ∈ rows ∧ keyID r = id ∧ (aged i rows r ∨ capped i rows r)) →
  (∀ c, c ∈ k_rows s → current c = true → k_now i < created (view c) + 21 * day) → sinv s' (k_now i).
Proof.
  intros I W Hp Hwhy Hyoung. assert (∀ r, r ∈ k_rows s → ow_id r ∈ tried → old_at (k_now i) r) as Hold.
  { intros r Hr Hin. destruct (Hwhy _ Hin) as (kr & Hkr & Eid & Hreason). destruct (live_row s rows kr Hp Hkr) as (x & -> & Hx & Lx).
    assert (x = r) as -> by (by apply (row_by_id s); [apply I|..]). unfold old_at. destruct Hreason as [(b & Hb & He)|Hc]; [|by eapply capped_old].
    apply age_basis_le in Hb. unfold expired in He. apply andb_true_iff in He as [He _]. bprop. destruct (ki_good _ (si_kinv _ _ I) r Hr) as (seed & t & G). destruct (view_good _ _ _ G) as (Ec & En & _).
    rewrite En in *. rewrite Ec in *. unfold AnnouncementLifetime, DeleteGrace, day, hour, second in *. lia. }
  set (m := mark_ids (storeTime (k_now i)) ids) in *.
  assert (∀ r, r ∈ k_rows s' → ∃ x, x ∈ k_rows s ∧ r = m x ∧ created (view r) = created (view x)) as Hrows.
  { intros r Hr. rewrite (sw_rows _ _ _ _ _ W) in Hr. apply list_elem_of_fmap in Hr as (x & -> & Hx). exists x. split_and!; [done|done|].
    by destruct (view_evolves _ _ (mark_evolves (storeTime (k_now i)) ids x)) as (-> & _). }
  split.
  - eapply swept_kinv; [apply I|exact W].
  - intros r Hr. destruct (Hrows r Hr) as (x & Hx & _ & ->). by apply (si_past _ _ I).
  - intros r r' Hr Hr' Hne. destruct (Hrows r Hr) as (x & Hx & Ex & E), (Hrows r' Hr') as (x' & Hx' & Ex' & E'). unfold spaced. rewrite E, E'. apply (si_gap _ _ I); [done|done|].
    intros ->. apply Hne. by rewrite Ex, Ex'.
  - intros r Hr Hd. destruct (Hrows r Hr) as (x & Hx & Ex & E). unfold old_at. rewrite E. rewrite Ex in Hd. unfold m in Hd. rewrite mark_live in Hd. apply andb_false_iff in Hd as [Hd|Hd].
    + by apply (si_dead _ _ I x Hx).
    + apply negb_false_iff, bool_decide_eq_true in Hd. apply (Hold x Hx). by apply (sw_sub _ _ _ _ _ W).
  - intros r Hr. destruct (Hrows r Hr) as (x & Hx & Ex & E). destruct (decide (ow_id x ∈ tried)) as [Hin|Hin]; [left; unfold old_at; rewrite E; by apply (Hold x Hx)|].
    destruct (si_held _ _ I x Hx) as [Ho|(e & seed & t & Hks & G & Hh)]; [left; unfold old_at; by rewrite E|]. right. exists e, seed, t.
    pose proof (mark_evolves (storeTime (k_now i)) ids x) as Hev. fold m in Hev. rewrite <- Ex in Hev. destruct (sw_ks _ _ _ _ _ W _ Hin) as (Ek & _).
    pose proof Hev as (-> & _ & _ & _ & _ & -> & _). split_and!; [by rewrite Ek|by eapply evolves_good|done].
  - intros r Hr. destruct (Hrows r Hr) as (x & Hx & _ & ->). destruct (si_newest _ _ I x Hx) as (c & Hc & Hcur & Hle). exists (m c).
    split; [rewrite (sw_rows _ _ _ _ _ W); apply list_elem_of_fmap; by exists c|]. split; [|destruct (view_evolves _ _ (mark_evolves (storeTime (k_now i)) ids c)) as (V1 & _); unfold m; by rewrite V1].
    unfold m. rewrite mark_current, Hcur. cbn. apply negb_true_iff, bool_decide_eq_false. intros Hin. pose proof (Hold c Hc (sw_sub _ _ _ _ _ W _ Hin)) as Ho.
    pose proof (Hyoung c Hc Hcur). unfold old_at in Ho. lia.
Qed.

Lemma steady_inv s t : steady s t → sinv s t.
Proof.
  induction 1 as [t|s t op i _ I Hst].
  { split; [apply kreach_inv, kreach_init|..]; cbn; intros; exfalso; match goal with Hx : _ ∈ [] |- _ => by apply elem_of_nil in Hx end. }
  pose proof Hst as (Ht & Hok & Hfresh & _). pose proof (sinv_later s t (k_now i) I Ht) as I'. pose proof (kstep_inv op i s (si_kinv _ _ I) Hok) as Ik.
  destruct (step_cases op i s (si_kinv _ _ I) Hok) as [(Er & _ & Hks)|(s1 & rows & tried & ids & keep & Hs1 & Hp & W & _ & Hwhy)].
  - split; [done|intros r; rewrite Er; apply I'|intros r r'; rewrite Er; apply I'|intros r; rewrite Er; apply I'| |].
    + intros r. rewrite Er. intros Hr. destruct (si_held _ _ I' r Hr) as [?|(e & seed & t0 & Hk & ?)]; [by left|right]. exists e, seed, t0. split; [|done].
      rewrite Hks; [done|]. intros E. apply Hfresh. rewrite <- E. apply list_elem_of_fmap. by exists r.
    + intros r. rewrite Er. intros Hr. exact (si_newest _ _ I' r Hr).
  - assert (∀ id, id ∈ tried → ∃ r, r ∈ rows ∧ keyID r = id ∧ (aged i rows r ∨ capped i rows r)) as Hwhy'.
    { intros id Hid. destruct (Hwhy id Hid) as (r & ? & ? & [?|[? _]]); exists r; auto. }
    destruct Hs1 as [Hm|[-> Hyoung]].
    + pose proof (makes_sinv i s s1 t I Hst Hm) as I1. apply (swept_sinv i s1 _ rows tried ids I1 W Hp Hwhy'). intros c Hc Hcur.
      pose proof Hm as (signed & backend & e & rows0 & Es1 & _ & _ & Hsign & _). pose proof (new_row_good i signed backend Hok Hsign) as G. destruct (view_good _ _ _ G) as (Ec & _ & _).
      set (row := OwnRow _ _ _ _ _ _ _ _) in *. assert (c = row) as ->.
      { apply (ki_one _ (si_kinv _ _ I1)); [done| |done|done]. rewrite Es1. apply elem_of_app. right. by left. }
      rewrite Ec. destruct (second_of_years (k_now i) 0 (proj1 Hok) ltac:(vm_compute; split; discriminate)) as [_ Hsec]. unfold day, hour, second in *. lia.
    + apply (swept_sinv i s _ rows tried ids I' W Hp Hwhy'). intros c Hc Hcur. assert (currentOf rows = Some (view c)) as Ecur by (by apply (current_krow s); [apply I|..]).
      pose proof (currentOf_ok rows) as Hco. rewrite Ecur in Hco. destruct Hco as [H1 H2]. pose proof (Hyoung _ H1 H2). unfold RotateAfter, day, hour, second in *. lia.
Qed.

(** C18: liveness. A mailbox key opens mail for 21 days after its creation, two
    weeks of announcement and one for what waits at the relay: MailboxKey gives
    a private key of the row's public key. The run before the query is one in
    which the clock of the key operations never goes back (nor leaves the years
    that RFC 3339 writes), each generated key is a new one of 32 bytes, and no operation finds the host without its keychain service;
    what mail it received in between, which statements and which reads, writes
    and deletes of any backend failed is free. At the query itself the clock is
    not behind, the list of live keys can be read, every backend answers for
    this key, and no read of this key failed within the second before. *)
Theorem announced_keys_open s t r id i : steady s t → r ∈ k_rows s → KeyID_String id = ow_id r →
  t ≤ k_now i < created (view r) + 21 * day → k_fault i KLive = false → (∀ n, k_mood i (ow_id r) n = Works) →
  (∀ t', k_failed s !! ow_id r = Some t' → loadRetry ≤ Sub (k_now i) t') →
  ∃ seed, (Mailbox.MailboxKey identity backends i id s).1 = Some seed ∧ b64_encode (mailbox_public seed) = ow_pub r.
Proof.
  intros Hs Hr Hid Hnow Hf Hmood Hfail. pose proof (steady_inv _ _ Hs) as I. pose proof (live_ok s (ki_good _ (si_kinv _ _ I))) as (rows & Hlive & Hp).
  destruct (is_live r) eqn:Hl; [|pose proof (si_dead _ _ I r Hr Hl) as Ho; unfold old_at in Ho; lia].
  destruct (si_held _ _ I r Hr) as [Ho|(e & seed & t0 & Hks & G & Hh)]; [unfold old_at in Ho; lia|]. destruct (view_good _ _ _ G) as (Ec & En & _).
  unfold Mailbox.MailboxKey. rewrite Hf, Hlive. destruct (List.find _ rows) as [kr|] eqn:Efind.
  2: { exfalso. assert (view r ∈ rows) as Hin.
       { rewrite Hp. apply list_elem_of_fmap. exists r. split; [done|]. unfold live_rows. apply list_elem_of_In, filter_In. split; [by apply list_elem_of_In|done]. }
       apply list_elem_of_In in Hin. pose proof (List.find_none _ _ Efind _ Hin) as Hn. cbv beta in Hn. rewrite En in Hn. change (keyID (view r)) with (ow_id r) in Hn.
       rewrite bool_decide_eq_true_2 in Hn by done. cbn [andb] in Hn. rewrite Ec in Hnow. unfold AnnouncementLifetime, DeleteGrace, day, hour, second in *. lia. }
  apply List.find_some in Efind as [Hin Hk]. apply list_elem_of_In in Hin. destruct (live_row s rows kr Hp Hin) as (x & -> & Hx & Lx). apply andb_true_iff in Hk as [Hk _]. bprop.
  assert (x = r) as -> by (apply (row_by_id s); [apply I|done|done|]; rewrite <- Hid; exact Hk). change (keyID (view r)) with (ow_id r).
  destruct (k_cache s !! ow_id r) as [sd|] eqn:Ecache.
  { exists sd. split; [done|]. destruct (ki_cache _ (si_kinv _ _ I) _ _ Ecache) as (y & Hy & _ & Ey & Epub). assert (y = r) as -> by (by apply (row_by_id s); [apply I|..]). done. }
  assert (match k_failed s !! ow_id r with Some t' => (Sub (k_now i) t' <? loadRetry) && negb (k_now i <? t') | None => false end = false) as ->.
  { destruct (k_failed s !! ow_id r) as [t'|] eqn:Ef; [|done]. pose proof (Hfail t' eq_refl). apply andb_false_iff. left. lia. }
  rewrite (rowPub_good _ _ _ G). unfold load, keystoreFor. rewrite Hks. cbn [default from_option Datatypes.id].
  destruct (LoadMatching_held (k_mood i (ow_id r)) e (ow_backend r) seed (has_public (mailbox_public seed)) Hh (Hmood _)) as (sd & n & El & Hpub).
  { unfold has_public. destruct (g_seed _ _ _ G) as [-> _]. by rewrite bool_decide_eq_true_2. }
  rewrite El. exists sd. split; [done|]. unfold has_public in Hpub. apply andb_true_iff in Hpub as [_ Hpub]. bprop. rewrite Hpub. symmetry. apply G.
Qed.
End Proofs.

(** ** A concrete run: a key, and after eight days its successor *)

#[local] Existing Instance demo_crypto.
#[local] Existing Instance demo_sign_laws.
#[local] Existing Instance demo_hpke.
#[local] Existing Instance demo_hpke_laws.

Definition demo_backends : list bytes := [bytes_of "keychain"; bytes_of "file"].
Definition key_seed (n : Z) : bytes := n :: repeat 1 31.
Definition key_in (now n : Z) : kin := KIn now (key_seed n) (λ _ _, Works) (λ _, false) (λ _, false) [].
Definition own_step (op : kop) (i : kin) (s : keys) : keys := kexec mail_priv demo_backends op i s.
Definition key_time (days : Z) : Z := mail_now + days * day.
Definition keys1 : keys := own_step KAnnounce (key_in (key_time 0) 5) no_keys.
Definition keys2 : keys := own_step KRotate (key_in (key_time 8) 6) keys1.
Definition first_row : own_row :=
  OwnRow (key_of (key_seed 5)) (b64_encode (key_seed 5)) (storeTime mail_now) (storeTime (mail_now + 14 * day)) None None
    (default [] (SignAnnouncement (ed25519_Public mail_priv) (own_sign mail_priv) (key_seed 5) mail_now)) (bytes_of "keychain").
Definition retired_row : own_row := retire_row (storeTime (key_time 8)) first_row.

Lemma keys1_rows : k_rows keys1 = [first_row].
Proof. vm_compute. reflexivity. Qed.
Lemma keys2_rows : hd_error (k_rows keys2) = Some retired_row ∧ k_failed keys2 = ∅.
Proof. split; vm_compute; reflexivity. Qed.
Lemma key_in_ok now n : clock_ok now → forallb is_byte (key_seed n) = true → kop_ok (key_in now n).
Proof. intros Hc Hn. by split. Qed.
Lemma key_times : clock_ok (key_time 0) ∧ clock_ok (key_time 8).
Proof. unfold clock_ok. vm_compute. repeat split; discriminate. Qed.
Lemma keys1_steady : steady mail_priv demo_backends keys1 (key_time 0).
Proof.
  apply (steady_step mail_priv demo_backends no_keys (key_time 0) KAnnounce (key_in (key_time 0) 5)); [apply steady_init|].
  split; [vm_compute; discriminate|]. split; [apply key_in_ok; [apply key_times|reflexivity]|]. split; [apply not_elem_of_nil|discriminate].
Qed.
Lemma keys2_steady : steady mail_priv demo_backends keys2 (key_time 8).
Proof.
  apply (steady_step mail_priv demo_backends keys1 (key_time 0) KRotate (key_in (key_time 8) 6) keys1_steady).
  split; [vm_compute; discriminate|]. split; [apply key_in_ok; [apply key_times|reflexivity]|]. split; [|discriminate].
  rewrite keys1_rows. cbn [map]. intros Hin. apply list_elem_of_singleton in Hin. vm_compute in Hin. discriminate.
Qed.
Lemma hd_error_in {A} (x : A) l : hd_error l = Some x → x ∈ l.
Proof. destruct l as [|y l]; [discriminate|]. intros [= ->]. by left. Qed.
Lemma retired_in : retired_row ∈ k_rows keys2.
Proof. exact (hd_error_in _ _ (proj1 keys2_rows)). Qed.
Definition query_in : kin := key_in (key_time 20) 7.
Lemma retired_id : KeyID_String (KeyIDOf (key_seed 5)) = ow_id retired_row.
Proof. vm_compute. reflexivity. Qed.
Lemma query_live : key_time 8 ≤ k_now query_in < created (view retired_row) + 21 * day.
Proof. vm_compute. split; [discriminate|reflexivity]. Qed.
Lemma announced_keys_open_witness : is_ok (match (Mailbox.MailboxKey (ed25519_Public mail_priv) demo_backends query_in (KeyIDOf (key_seed 5)) keys2).1 with
  | Some seed => Ok seed | None => Err tt end) = true.
Proof.
  destruct (announced_keys_open mail_priv demo_backends ltac:(reflexivity) keys2 (key_time 8) retired_row (KeyIDOf (key_seed 5)) query_in
    keys2_steady retired_in retired_id query_live ltac:(reflexivity) ltac:(reflexivity)) as (seed & Hs & _).
  - rewrite (proj2 keys2_rows). intros t' Ht. rewrite lookup_empty in Ht. discriminate.
  - rewrite Hs. reflexivity.
Defined.
(** At 22 days, with mail of that day in mail_seen, the first key is a week
    past its expiry and 14 days past its successor: the sweep deletes it. *)
Definition mail_row (days : Z) : seen_row := SeenRow (bytes_of "peer") (bytes_of "mail") (storeTime (key_time days)).
Definition late_in : kin := KIn (key_time 22) (key_seed 7) (λ _ _, Works) (λ _, false) (λ _, false) [mail_row 20; mail_row 22].
Definition keys3 : keys := own_step KRotate late_in keys2.
Lemma keys1_reach : kreach mail_priv demo_backends keys1.
Proof.
  apply (kreach_step mail_priv demo_backends no_keys KAnnounce (key_in (key_time 0) 5) (kreach_init _ _)). apply key_in_ok; [apply key_times|reflexivity].
Qed.
Lemma keys2_reach : kreach mail_priv demo_backends keys2.
Proof.
  apply (kreach_step mail_priv demo_backends keys1 KRotate (key_in (key_time 8) 6) keys1_reach). apply key_in_ok; [apply key_times|reflexivity].
Qed.
Lemma late_in_ok : kop_ok late_in.
Proof. split; [unfold clock_ok; vm_compute; repeat split; discriminate|by split]. Qed.
Lemma keys3_rows : map (λ r, (ow_id r, is_live r)) (k_rows keys3) =
  [(key_of (key_seed 5), false); (key_of (key_seed 6), true); (key_of (key_seed 7), true)].
Proof. vm_compute. reflexivity. Qed.
Lemma first_deleted r : r ∈ k_rows keys3 → ow_id r = ow_id retired_row → is_live r = false.
Proof.
  intros Hr E. assert ((ow_id r, is_live r) ∈ map (λ r, (ow_id r, is_live r)) (k_rows keys3)) as Hin by (apply list_elem_of_fmap; by exists r).
  rewrite keys3_rows in Hin. rewrite E in Hin. assert (ow_id retired_row = key_of (key_seed 5)) as E5 by reflexivity. rewrite E5 in Hin.
  destruct (is_live r); [|done]. apply list_elem_of_In in Hin. destruct Hin as [Hin|[Hin|[Hin|[]]]]; exfalso; vm_compute in Hin; discriminate.
Qed.
Lemma keys3_count : length (live_rows keys3) = 2%nat.
Proof. rewrite <- (length_map (λ r, (ow_id r, is_live r))). vm_compute. reflexivity. Qed.
Lemma only_retired_keys_deleted_witness : ∃ b, age_basis late_in = Some b ∧ notAfter (view retired_row) + DeleteGrace ≤ b.
Proof.
  destruct (proj2 (only_retired_keys_deleted mail_priv demo_backends ltac:(reflexivity) keys2 KRotate late_in keys2_reach late_in_ok) retired_row retired_in)
    as (r' & Hr & (E & _) & Hdel).
  destruct (proj2 (Hdel ltac:(reflexivity) (first_deleted r' Hr E))) as [(b & n & Hb & Hage & _)|Hmax].
  - exists b. exact (conj Hb Hage).
  - exfalso. change (kexec mail_priv demo_backends KRotate late_in keys2) with keys3 in Hmax. rewrite keys3_count in Hmax. unfold MaxLive in Hmax. lia.
Defined.
